(* ===== verification/_CoqProject ===== *)
-Q . S2P
Prelude.v
LList.v
Memmap.v
Pfndb.v
Buddy.v
BuddyInv.v
BuddySpec.v
CString.v
CStringSpec.v
CStringLit.v
DwarfLeb.v
DwarfCfi.v
DwarfCfiSpec.v
DwarfLine.v
DwarfLineSpec.v
PHeap.v
PagingArch.v
RBTree.v
RBTreeRep.v
RBTreeSpec.v
RBTreeRemove.v
RBTreeClaims.v
PagingPmm.v
PageAlloc.v
ContextSwitch.v
Fpu.v
X86Cpu.v
X86Setup.v
Interrupts.v
Spalloc.v
SpallocSpec.v
Malloc.v
HeapSpec.v
Reclaim.v
Elf.v
Ustar.v
Isa.v
ApStart.v
Timer.v
Clocks.v
Acpi.v
Uart.v
Locks.v
Paging.v
Stacktrace.v
PagingInit.v
PagingRep.v
PagingSpec.v
PagingMap.v
PagingClaims.v
VMem.v
VMemRep.v
VMemSpec.v
VMemClaims.v
AddressSpace.v
UserPages.v
UserSpace.v
UserMem.v
Threads.v
UserElf.v
UserClaims.v
Sched.v
SchedSpec.v
Mutex.v
Futex.v
