(* ===== verification/Prelude.v ===== *)
(** * EvalynOS kernel: a verification development

    EvalynOS is a kernel in C for x86_64, riscv64 and loongarch64.  This
    library is a shallow embedding of its core: every C function that is
    modelled is a Rocq function that reads and writes the same fields in the
    same order, and the theorems are about these functions.  Paths below are
    relative to src/kernel/src.

    ** How the kernel is put together

    The boot loader reports a memory map.  A bump allocator (mem/balloc.c)
    takes pages from it for the first page tables and the page frame database
    (mem/pfndb.c); the buddy allocator (mem/buddy.c) then owns the memory.
    Page tables (arch/generic/paging), the object allocator (mem/spalloc.c)
    and the kernel heap over it (libc/stdlib.c) take pages from the buddy
    allocator; virtual addresses come from arenas (mem/vmem.c), whose segments
    are objects of the object allocator and lie in a list (utils/dstruct/llist.c)
    and a red-black tree (rbtree.c).  The scheduler (sched/) keeps runnable
    threads in a list and sleepers in a pairing heap (pheap.c); mutexes and
    futexes are built on its wait queues.  An address space (mem/address_space.c)
    is an arena and a page table; the loader (loader/elf_loader.c) fills it from
    a file of the initial archive (utils/misc/ustar.c), and system calls
    (syscalls/anon_mem.c) add and remove memory.  Threads (arch/generic/thread)
    are heap objects with a stack each; the scheduler switches between them
    (arch/<name>/thread) and a reaper (sched/reaper.c) releases the dead ones.  Each
    architecture sets its processors up (features, descriptor tables, interrupt
    entry) and dispatches interrupts and system calls; x86_64 starts the other
    processors, after which the boot loader's memory is reclaimed
    (mem/reclaim.c).  On a panic the unwinder reads the kernel's own ELF file and
    DWARF sections (loader/) and prints over the serial port (drivers/).

    ** Conventions

    A C function that can stop or misbehave returns [res]: [Ok], [Panic] (a
    failed assertion or an explicit panic), [Fault] (an access the C machine
    gives no meaning to, such as a read through a pointer that is not mapped)
    or [NoFuel].  Words are integers in [Z] with [u64], [u32], [u16] written
    where the code wraps.  Memory is kept by type: a finite map from the
    addresses of nodes, headers, segments, frame entries, table words or bytes
    to their contents; releasing an object deletes its cells, so that a later
    access faults.  Code under a lock is one step; code that other processors
    can observe in the middle is a step relation.  What hardware, firmware or
    the boot loader supply (counter readings, the memory map, the kernel's
    addresses in [kconfig]) is an argument.

    ** Fuel

    Loops that are not structurally recursive take fuel computed from the data
    they walk: the number of nodes of the store for walks over lists and trees,
    the number of orders for the buddy loops, the number of bytes for parsers,
    the levels times the pages of the range for the page table loops
    ([range_fuel]), the width of a word for searches over bits.  [NoFuel] is
    neither [Ok] nor [Panic], and the theorems say that a call is one of these,
    so each of them also says that the fuel is enough, i.e. that the loop ends.
    The waits on a clock run on the list or stream of readings they make.

    ** Files

    - Prelude: [res], 64-bit arithmetic, alignment, logarithms, the direct map
      (utils/lib.h, libc/math.h, libc/assert.h), tactics and hints.
    - LList, PHeap, RBTree with RBTreeRep, RBTreeSpec, RBTreeRemove and
      RBTreeClaims: utils/dstruct.  Each structure is related to the sequence
      or set it stands for; runs of list operations refine the same run on
      lists, the heap yields minima, the tree stays balanced and sorted and is
      searched in logarithmic time.
    - Memmap, Pfndb, Buddy, BuddyInv, BuddySpec: the memory map, boot allocator,
      page frame database and buddy allocator.  The ghost map of blocks, the
      invariant, and that clients never get overlapping blocks.
    - PageAlloc: the class through which other allocators see pages; the buddy
      allocator is its instance.
    - Spalloc, SpallocSpec: objects of one size.  Malloc, HeapSpec: the kernel
      heap, all size classes over one page allocator; whatever its clients ask
      for, objects never overlap.  Reclaim: mem/reclaim.c over the heap and the
      page allocator; what was left behind is free memory afterwards.
    - VMem, VMemRep, VMemSpec, VMemClaims: arenas of virtual addresses; exact
      effect of allocation and release, and no fragmentation.
    - PagingArch: entry formats of the three architectures as instances of one
      class with its laws.  Paging: arch/generic/paging (map.c, unmap.c,
      split.c, get.c, helpers.h).  PagingInit: paging.c and pfndb.c at boot.
      PagingRep, PagingPmm, PagingSpec, PagingMap, PagingClaims: a tree of
      tables as a partial function, and that mapping and unmapping change it
      on exactly one range, count entries, flush, and give tables back.
    - CString, CStringSpec, CStringLit: libc/string.c; the optimised copies equal
      the bytewise ones.
    - DwarfLeb, DwarfCfi, DwarfCfiSpec, DwarfLine, DwarfLineSpec, Stacktrace:
      loader/dwarf; total and in bounds on any bytes, up to the whole stack
      trace.  Elf: loader/elf_checker.c,
      elf_introspection.c and symbols.c.  Ustar: utils/misc/ustar.c; a lookup
      finds the first file of a name.
    - AddressSpace: mem/address_space.c, syscalls/anon_mem.c,
      loader/elf_loader.c and the first stack of arch/generic/thread/new.c, over
      one state of page allocator, page tables, heap and bytes.  UserPages: the
      arena's pages among everyone's, as an instance of the page allocator's
      class for every surrounding state.  UserSpace: the invariant that ties
      page tables, frames and arena together, and the single steps.  UserMem:
      the system calls, making and releasing a space.  UserElf: the loader and
      the stack.  UserClaims: the theorems, and that the whole life of an
      address space gives back every frame and table it took.  The structures
      of the arena itself are left out of that statement: their release reads
      freed memory in the code, and the model faults there.
    - Timer, Clocks: libc/math.c, the timers and the paravirtual clocks.
      Acpi: acpi/ and the handlers of its tables.
    - ContextSwitch, Fpu: the frames, register saves and trampolines of the
      three architectures, in C and assembly, and the floating point save areas;
      a switched-out thread comes back as it was.  Threads:
      arch/generic/thread/new.c and sched/reaper.c over the heap, the frames and
      the address spaces; a new thread runs its entry point, and threads that
      come and go leave the heap as it was.
    - X86Cpu, X86Setup: cpuid, control registers, descriptor tables, FRED,
      system call entry and machine checks of x86_64, against decoders of the
      processor's formats.  ApStart: the start of the other processors.
      Interrupts: the dispatch of interrupts and system calls of the three
      architectures.  Isa: arch/riscv64/cpu/isa.c and fdt/cpus.c over the calls
      of libfdt.  Uart: drivers/16550uart.c and the output of libc/stdio.c, for
      every bus on which a device behaves as its data sheet says.
    - Locks, Sched, SchedSpec, Mutex, Futex: utils/locks, sched and
      syscalls/futex.c as step relations; invariants over all interleavings.

    ** Not modelled

    The order of initialisation (kernel.c, the init.c files): straight-line
    calls of what is modelled.  The formatter and the terminal behind printf,
    libfdt and the boot protocol's header are third-party code.  The sanitizer
    runtime, build id and panic screens only print.  Of x86_64: the way back to
    user mode and the save instructions of the floating point unit, whose area
    the processor lays out; the shared start data of the other processors and
    its release; the mapping of the HPET.  The constants of the direct map
    windows of loongarch64.  Weak memory: atomic accesses are sequentially
    consistent steps.  Compiled code between a call of [schedule_finalize] and
    its return is a parameter of the switch, as the compiler's register
    allocation is not part of the sources.

    ** Further work

    The start data of the other processors (arch/x86_64/cpu/ap.c) over the page
    tables, and one state for all components at once, so that the theorems of
    the scheduler and those of the memory speak of the same threads. *)

From Stdlib Require Export ZArith Lia Bool.
From stdpp Require Export base tactics numbers option gmap list.

Declare Scope kernel_scope.
Delimit Scope kernel_scope with kernel.
#[global] Open Scope Z_scope.

Create HintDb kernel.

(** ** Outcomes of kernel code

    A C function of the kernel either returns ([Ok]), stops the machine
    through [panic], [assert] or [dbg_assert] ([Panic]), or performs an access
    the C abstract machine gives no meaning to, such as a read through a null
    or dangling pointer or past the end of a buffer ([Fault]).  Loops without
    a structural bound run on fuel and report [NoFuel] when it is used up. *)
Inductive res (A : Type) : Type :=
| Ok (a : A)
| Panic
| Fault
| NoFuel.
Arguments Ok {A} a.
Arguments Panic {A}.
Arguments Fault {A}.
Arguments NoFuel {A}.

#[export] Instance res_ret : MRet res := fun A a => Ok a.
#[export] Instance res_bind : MBind res := fun A B k r =>
  match r with
  | Ok a => k a
  | Panic => Panic
  | Fault => Fault
  | NoFuel => NoFuel
  end.

(** [assert(expr)] of libc/assert.h. *)
Definition assert (b : bool) : res unit := if b then Ok tt else Panic.

(** [dbg_assert(expr)]: the build never defines NDEBUG, so it checks. *)
Definition dbg_assert (b : bool) : res unit := if b then Ok tt else Panic.

(** A memory cell that must exist to be accessed. *)
Definition of_option {A} (o : option A) : res A :=
  match o with Some a => Ok a | None => Fault end.

Lemma bind_Ok {A B} (a : A) (k : A -> res B) : (Ok a ≫= k) = k a.
Proof. reflexivity. Qed.

Lemma bind_Ok_inv {A B} (r : res A) (k : A -> res B) b :
  (r ≫= k) = Ok b -> exists a, r = Ok a /\ k a = Ok b.
Proof. destruct r as [a| | |]; cbn; intros H; try discriminate. by exists a. Qed.

Lemma assert_true b : b = true -> assert b = Ok tt.
Proof. by intros ->. Qed.

(** A call that reports failure by returning false: [let? x := e in k] goes on
    with the values the callee wrote through its out-parameters, and returns
    false (here [None]) when the callee did. *)
Definition bindo {A B} (r : res (option A)) (k : A -> res (option B)) : res (option B) :=
  o ← r; match o with Some a => k a | None => Ok None end.

Notation "'let?' p := e 'in' k" := (bindo e (fun p => k))
  (at level 10, p pattern, e at level 100, k at level 200).

(** Total correctness: the code returns, and its value satisfies [Q]. *)
Definition returns {A} (r : res A) (Q : A -> Prop) : Prop := exists a, r = Ok a /\ Q a.

(** Safety: the code returns a value with [Q], or stops the machine. *)
Definition nofault {A} (r : res A) (Q : A -> Prop) : Prop :=
  match r with Ok a => Q a | Panic => True | Fault => False | NoFuel => False end.

(** What [Q] says of a call that may report failure. *)
Definition if_some {A} (Q : A -> Prop) (o : option A) : Prop :=
  match o with Some a => Q a | None => True end.

Lemma returns_Ok {A} (a : A) (Q : A -> Prop) : Q a -> returns (Ok a) Q.
Proof. intros H. by exists a. Qed.

Lemma returns_bind {A B} (r : res A) (k : A -> res B) P Q :
  returns r P -> (forall a, P a -> returns (k a) Q) -> returns (r ≫= k) Q.
Proof. intros (a & -> & Ha) H. by apply H. Qed.

Lemma returns_mono {A} (r : res A) (P Q : A -> Prop) :
  returns r P -> (forall a, P a -> Q a) -> returns r Q.
Proof. intros (a & E & Ha) H. exists a. auto. Qed.

Lemma returns_bindo {A B} (r : res (option A)) (k : A -> res (option B)) P Q :
  returns r (if_some P) -> (forall a, P a -> returns (k a) (if_some Q)) ->
  returns (bindo r k) (if_some Q).
Proof.
  intros (o & -> & Ha) H. unfold bindo. rewrite bind_Ok.
  destruct o; [by apply H|by apply returns_Ok].
Qed.

Lemma returns_false {A} (Q : A -> Prop) : returns (Ok None) (if_some Q).
Proof. by apply returns_Ok. Qed.

Lemma nofault_Ok {A} (a : A) (Q : A -> Prop) : Q a -> nofault (Ok a) Q.
Proof. done. Qed.

Lemma nofault_bind {A B} (r : res A) (k : A -> res B) P Q :
  nofault r P -> (forall a, P a -> nofault (k a) Q) -> nofault (r ≫= k) Q.
Proof. destruct r; cbn; auto. Qed.

Lemma nofault_mono {A} (r : res A) (P Q : A -> Prop) :
  nofault r P -> (forall a, P a -> Q a) -> nofault r Q.
Proof. destruct r; cbn; auto. Qed.

Lemma nofault_bindo {A B} (r : res (option A)) (k : A -> res (option B)) P Q :
  nofault r (if_some P) -> (forall a, P a -> nofault (k a) (if_some Q)) ->
  nofault (bindo r k) (if_some Q).
Proof.
  intros Hr H. unfold bindo. eapply nofault_bind; [done|]. intros [a|] Ha; [by apply H|done].
Qed.

Lemma returns_nofault {A} (r : res A) (Q : A -> Prop) : returns r Q -> nofault r Q.
Proof. by intros (a & -> & Ha). Qed.

(** ** Typed stores: a finite map from addresses to structures *)
Section Store.
Context {A : Type}.
Implicit Types (h : gmap Z A) (p q : Z).

Definition load h p : res A := of_option (h !! p).

Definition store h p (a : A) : res (gmap Z A) :=
  match h !! p with Some _ => Ok (<[p := a]> h) | None => Fault end.

Lemma load_Ok h p a : h !! p = Some a -> load h p = Ok a.
Proof. unfold load. by intros ->. Qed.

Lemma store_Ok h p a b : h !! p = Some b -> store h p a = Ok (<[p := a]> h).
Proof. unfold store. by intros ->. Qed.

(** Distinct mapped addresses are no more than the cells: the bound behind
    the fuel of every walk over linked nodes. *)
Lemma NoDup_length_size h xs :
  NoDup xs -> (forall x, x ∈ xs -> is_Some (h !! x)) -> (length xs <= size h)%nat.
Proof.
  intros Hnd Hx. rewrite <- (size_list_to_set (C := gset Z) xs Hnd), <- size_dom.
  apply subseteq_size. intros x [Hin]%elem_of_list_to_set%Hx. apply elem_of_dom. eauto.
Qed.

(** [h'] is [h] up to the cells of [S]; no cell appears or disappears. *)
Definition modifies (S : list Z) h h' : Prop :=
  dom h' = dom h /\ forall q, q ∉ S -> h' !! q = h !! q.

Lemma modifies_refl S h : modifies S h h.
Proof. by split. Qed.

Lemma modifies_trans S T h1 h2 h3 :
  modifies S h1 h2 -> modifies T h2 h3 -> modifies (S ++ T) h1 h3.
Proof.
  intros [D1 E1] [D2 E2]. split; [congruence|].
  intros q Hq. rewrite E2, E1; [done| |]; intros Hin; apply Hq, elem_of_app; auto.
Qed.

Lemma modifies_weaken S T h1 h2 :
  modifies S h1 h2 -> (forall x, x ∈ S -> x ∈ T) -> modifies T h1 h2.
Proof. intros [D E] H. split; [done|]. intros q Hq. apply E. auto. Qed.

Lemma modifies_trans_same S h1 h2 h3 :
  modifies S h1 h2 -> modifies S h2 h3 -> modifies S h1 h3.
Proof. intros [D1 E1] [D2 E2]. split; [congruence|]. intros q Hq. by rewrite E2, E1. Qed.

Lemma modifies_insert S h p a b : h !! p = Some a -> p ∈ S -> modifies S h (<[p := b]> h).
Proof.
  intros Hp HS. split.
  - rewrite dom_insert_L. apply elem_of_dom_2 in Hp. set_solver.
  - intros q Hq. apply lookup_insert_ne. by intros ->.
Qed.

Lemma modifies_mapped S h h' p : modifies S h h' -> is_Some (h !! p) -> is_Some (h' !! p).
Proof. intros [D _]. rewrite <- !elem_of_dom. by rewrite D. Qed.
End Store.

#[export] Hint Resolve modifies_refl modifies_trans_same modifies_insert : kernel.

(** ** Fixed-width integers of C *)
Definition u8 (x : Z) : Z := x mod 2 ^ 8.
Definition u16 (x : Z) : Z := x mod 2 ^ 16.
Definition u32 (x : Z) : Z := x mod 2 ^ 32.
Definition u64 (x : Z) : Z := x mod 2 ^ 64.

(** The two's complement reading of the low [w] bits of [x]. *)
Definition signed (w x : Z) : Z :=
  let y := x mod 2 ^ w in if y <? 2 ^ (w - 1) then y else y - 2 ^ w.
Definition s8 (x : Z) : Z := signed 8 x.
Definition s32 (x : Z) : Z := signed 32 x.
Definition s64 (x : Z) : Z := signed 64 x.

Definition UINT64_MAX : Z := 2 ^ 64 - 1.
Definition UINT32_MAX : Z := 2 ^ 32 - 1.

Definition is_u64 (x : Z) : Prop := 0 <= x < 2 ^ 64.

(** [a << n] on [uint64_t]. *)
Definition shl64 (a n : Z) : Z := u64 (Z.shiftl a n).

(** The macros of utils/lib.h. *)
Definition MIN (a b : Z) : Z := if a <? b then a else b.
Definition MAX (a b : Z) : Z := if a >? b then a else b.
Definition ALIGN_UP (x align : Z) : Z :=
  Z.land (u64 (u64 x + (align - 1))) (u64 (Z.lnot (align - 1))).
Definition ALIGN_DOWN (x align : Z) : Z :=
  Z.land (u64 x) (u64 (Z.lnot (align - 1))).
Definition IS_ALIGNED (x align : Z) : bool := Z.land (u64 x) (align - 1) =? 0.
Definition MISALIGNMENT (x align : Z) : Z := Z.land (u64 x) (align - 1).

Lemma u64_range x : is_u64 (u64 x).
Proof. unfold is_u64, u64. apply Z.mod_pos_bound. lia. Qed.

Lemma u32_small x : 0 <= x < 2 ^ 32 -> u32 x = x.
Proof. apply Z.mod_small. Qed.

Lemma u64_small x : is_u64 x -> u64 x = x.
Proof. apply Z.mod_small. Qed.

Lemma u64_idemp x : u64 (u64 x) = u64 x.
Proof. apply u64_small, u64_range. Qed.

Lemma u64_sub_wrap x y : is_u64 x -> is_u64 y -> x < y -> u64 (x - y) = x - y + 2 ^ 64.
Proof. unfold is_u64, u64. intros. symmetry. apply Z.mod_unique with (-1); lia. Qed.

Lemma u64_land x : u64 x = Z.land x (Z.ones 64).
Proof. symmetry. apply Z.land_ones. lia. Qed.

Lemma lor_u64 a b : is_u64 a -> is_u64 b -> is_u64 (Z.lor a b).
Proof.
  intros Ha Hb. rewrite <- (u64_small a Ha), <- (u64_small b Hb), !u64_land.
  rewrite <- Z.land_lor_distr_l, <- u64_land. apply u64_range.
Qed.

Lemma shl64_range a n : is_u64 (shl64 a n).
Proof. apply u64_range. Qed.

(** Disjoint bit ranges: or is addition. *)
Lemma lor_add_pow2 a b k : 0 <= k -> 0 <= a < 2 ^ k -> Z.lor a (b * 2 ^ k) = a + b * 2 ^ k.
Proof.
  intros Hk Ha. rewrite <- (Z.mod_small a (2 ^ k)) at 1 by lia.
  rewrite <- Z.land_ones, <- Z.shiftl_mul_pow2 by lia. symmetry.
  rewrite <- (Z.mod_small a (2 ^ k)) at 1 by lia. rewrite <- Z.land_ones by lia.
  rewrite Z.add_nocarry_lxor, Z.lxor_lor; [done| |];
    apply Z.bits_inj'; intros n Hn; rewrite !Z.land_spec, Z.bits_0;
    (destruct (Z.lt_ge_cases n k); [rewrite (Z.shiftl_spec_low _ _ n) by lia; apply andb_false_r|
      rewrite Z.ones_spec_high by lia; by rewrite andb_false_r]).
Qed.

Lemma MIN_min a b : MIN a b = Z.min a b.
Proof. unfold MIN. destruct (Z.ltb_spec a b); lia. Qed.

Lemma MAX_max a b : MAX a b = Z.max a b.
Proof. unfold MAX. rewrite Z.gtb_ltb. destruct (Z.ltb_spec b a); lia. Qed.

Lemma land_low x k : 0 <= k -> Z.land x (2 ^ k - 1) = x mod 2 ^ k.
Proof. intros Hk. rewrite <- Z.land_ones by done. f_equal. rewrite Z.ones_equiv. lia. Qed.

Lemma land_high x k :
  0 <= k -> is_u64 x -> Z.land x (u64 (Z.lnot (2 ^ k - 1))) = x - x mod 2 ^ k.
Proof.
  intros Hk Hx. unfold u64. rewrite <- Z.land_ones by lia.
  rewrite (Z.land_comm (Z.lnot _)), Z.land_assoc, Z.land_ones by lia.
  rewrite (Z.mod_small x) by apply Hx.
  replace (2 ^ k - 1) with (Z.ones k) by (rewrite Z.ones_equiv; lia).
  rewrite <- Z.ldiff_land, Z.ldiff_ones_r, Z.shiftl_mul_pow2, Z.shiftr_div_pow2 by done.
  pose proof (Z.div_mod x (2 ^ k)). lia.
Qed.

Lemma ALIGN_DOWN_spec x k :
  0 <= k -> is_u64 x -> ALIGN_DOWN x (2 ^ k) = x - x mod 2 ^ k.
Proof. intros. unfold ALIGN_DOWN. rewrite u64_small by done. by apply land_high. Qed.

Lemma ALIGN_UP_spec x k :
  0 <= k -> is_u64 x -> x + (2 ^ k - 1) < 2 ^ 64 ->
  ALIGN_UP x (2 ^ k) = (x + (2 ^ k - 1)) - (x + (2 ^ k - 1)) mod 2 ^ k.
Proof.
  intros Hk Hx Hb. unfold ALIGN_UP. rewrite (u64_small x) by done.
  assert (0 < 2 ^ k) by lia.
  rewrite u64_small by (unfold is_u64 in *; lia).
  apply land_high; [done|]. unfold is_u64 in *; lia.
Qed.

Lemma MISALIGNMENT_spec x k : 0 <= k -> is_u64 x -> MISALIGNMENT x (2 ^ k) = x mod 2 ^ k.
Proof. intros. unfold MISALIGNMENT. rewrite u64_small by done. by apply land_low. Qed.

Lemma IS_ALIGNED_spec x k :
  0 <= k -> is_u64 x -> IS_ALIGNED x (2 ^ k) = true <-> (2 ^ k | x).
Proof.
  intros Hk Hx. unfold IS_ALIGNED. rewrite u64_small, land_low, Z.eqb_eq by done.
  assert (2 ^ k <> 0) by lia. by apply Z.mod_divide.
Qed.

(** Rounding up: the result is aligned, not below [x], and less than one
    granule above it. *)
Lemma ALIGN_UP_bounds x k :
  0 <= k -> is_u64 x -> x + (2 ^ k - 1) < 2 ^ 64 ->
  (2 ^ k | ALIGN_UP x (2 ^ k)) /\ x <= ALIGN_UP x (2 ^ k) < x + 2 ^ k.
Proof.
  intros Hk Hx Hb. rewrite ALIGN_UP_spec by done.
  assert (0 < 2 ^ k) by lia.
  pose proof (Z.mod_pos_bound (x + (2 ^ k - 1)) (2 ^ k)).
  pose proof (Z.div_mod (x + (2 ^ k - 1)) (2 ^ k)). split; [|lia].
  exists ((x + (2 ^ k - 1)) / 2 ^ k). lia.
Qed.

(** Rounding up fixes aligned values, without any overflow condition. *)
Lemma ALIGN_UP_aligned x k :
  0 <= k < 64 -> is_u64 x -> (2 ^ k | x) -> ALIGN_UP x (2 ^ k) = x.
Proof.
  intros Hk Hx [z ->]. assert (0 < 2 ^ k) by lia.
  assert (z * 2 ^ k + (2 ^ k - 1) < 2 ^ 64).
  { assert (2 ^ 64 = 2 ^ (64 - k) * 2 ^ k) as E
      by (rewrite <- Z.pow_add_r by lia; f_equal; lia).
    unfold is_u64 in Hx. rewrite E in *. clear E.
    assert (z < 2 ^ (64 - k)) by nia. nia. }
  rewrite ALIGN_UP_spec by (done || lia).
  rewrite Z.add_comm, Z.mod_add by lia. rewrite Z.mod_small by lia. lia.
Qed.

(** ** libc/math.h *)
Fixpoint pos_trailing (p : positive) : Z :=
  match p with xO q => 1 + pos_trailing q | _ => 0 end.

(** [__builtin_ctzll] and [__builtin_clzll]: undefined at 0, given as 0. *)
Definition builtin_ctzll (v : Z) : Z :=
  match v with Zpos p => pos_trailing p | _ => 0 end.
Definition builtin_clzll (v : Z) : Z := 63 - Z.log2 v.

Definition COUNT_TRAILING_ZEROS (v : Z) : Z := if v =? 0 then 64 else builtin_ctzll v.

Definition log2ull (val : Z) : Z :=
  if val =? 0 then 0 else 63 - builtin_clzll val.

Definition log2ullceil (val : Z) : Z :=
  if val <=? 1 then 0 else log2ull (val - 1) + 1.

Definition isPow2ull (val : Z) : bool :=
  negb (val =? 0) && (Z.land val (val - 1) =? 0).

Lemma pos_trailing_nonneg p : 0 <= pos_trailing p.
Proof. induction p; cbn [pos_trailing]; lia. Qed.

Lemma pos_trailing_divide p : (2 ^ pos_trailing p | Zpos p).
Proof.
  induction p as [p IH|p IH|]; cbn [pos_trailing]; try apply Z.divide_1_l.
  pose proof (pos_trailing_nonneg p).
  change (Z.pos p~0) with (2 * Z.pos p). rewrite Z.pow_add_r by lia.
  by apply Z.mul_divide_mono_l.
Qed.

Lemma builtin_ctzll_divide v : 0 < v -> (2 ^ builtin_ctzll v | v).
Proof. destruct v; try lia. intros _. apply pos_trailing_divide. Qed.

Lemma builtin_ctzll_nonneg v : 0 <= builtin_ctzll v.
Proof. destruct v; cbn; try lia. apply pos_trailing_nonneg. Qed.

(** No power of two above the one found divides the value. *)
Lemma builtin_ctzll_max v k : 0 < v -> 0 <= k -> (2 ^ k | v) -> k <= builtin_ctzll v.
Proof.
  destruct v as [|p|p]; try lia. intros _. cbn [builtin_ctzll].
  revert k. induction p as [p IH|p IH|]; intros k Hk Hd; cbn [pos_trailing].
  - destruct (decide (k = 0)) as [->|]; [lia|exfalso].
    replace k with (1 + (k - 1)) in Hd by lia. rewrite Z.pow_add_r in Hd by lia.
    destruct Hd as [z Hz]. change (Z.pos p~1) with (2 * Z.pos p + 1) in Hz. lia.
  - destruct (decide (k = 0)) as [->|]; [pose proof (pos_trailing_nonneg p); lia|].
    assert (k - 1 <= pos_trailing p); [|lia]. apply IH; [lia|].
    replace k with (1 + (k - 1)) in Hd by lia. rewrite Z.pow_add_r in Hd by lia.
    destruct Hd as [z Hz]. exists z. change (Z.pos p~0) with (2 * Z.pos p) in Hz. lia.
  - destruct (decide (k = 0)) as [->|]; [lia|exfalso].
    replace k with (1 + (k - 1)) in Hd by lia. rewrite Z.pow_add_r in Hd by lia.
    destruct Hd as [z Hz]. lia.
Qed.

Lemma log2ull_spec v : 0 < v -> 2 ^ log2ull v <= v < 2 ^ (log2ull v + 1).
Proof.
  intros Hv. unfold log2ull, builtin_clzll. rewrite (proj2 (Z.eqb_neq v 0)) by lia.
  replace (63 - (63 - Z.log2 v)) with (Z.log2 v) by lia.
  pose proof (Z.log2_spec v Hv). by rewrite Z.add_1_r.
Qed.

Lemma log2ull_nonneg v : 0 <= log2ull v.
Proof.
  unfold log2ull, builtin_clzll. destruct (v =? 0); [lia|].
  pose proof (Z.log2_nonneg v). lia.
Qed.

Lemma log2ull_lt64 v : v < 2 ^ 64 -> log2ull v < 64.
Proof.
  intros Hv. destruct (Z.leb_spec v 0).
  - unfold log2ull, builtin_clzll. destruct (v =? 0); [lia|].
    rewrite Z.log2_nonpos by lia. lia.
  - destruct (log2ull_spec v); [lia|]. pose proof (log2ull_nonneg v).
    apply (Z.pow_lt_mono_r_iff 2); lia.
Qed.

(** [log2ullceil v] is the least order whose block holds [v] units. *)
Lemma log2ullceil_spec v : 1 < v -> 2 ^ (log2ullceil v - 1) < v <= 2 ^ log2ullceil v.
Proof.
  intros Hv. unfold log2ullceil. destruct (Z.leb_spec v 1); [lia|].
  destruct (log2ull_spec (v - 1)); [lia|]. rewrite Z.add_simpl_r. lia.
Qed.

(** ** Byte buffers *)
Definition is_byte (b : Z) : Prop := 0 <= b < 256.
Definition bytes_ok (buf : list Z) : Prop := Forall is_byte buf.

(** Read of the byte at offset [p]; outside the buffer it is a fault. *)
Definition rd (buf : list Z) (p : Z) : res Z :=
  if p <? 0 then Fault else of_option (buf !! Z.to_nat p).

(** [memcpy] of [n] bytes into a zeroed integer, on a little-endian machine. *)
Fixpoint read_le (buf : list Z) (p : Z) (n : nat) : res Z :=
  match n with
  | O => Ok 0
  | S n => b ← rd buf p; r ← read_le buf (p + 1) n; Ok (b + 256 * r)
  end.

Lemma rd_returns buf p :
  bytes_ok buf -> 0 <= p < Z.of_nat (length buf) -> returns (rd buf p) is_byte.
Proof.
  intros HB Hp. unfold rd. destruct (Z.ltb_spec p 0); [lia|].
  destruct (lookup_lt_is_Some_2 buf (Z.to_nat p)) as [b Hb]; [lia|].
  rewrite Hb. apply returns_Ok. by apply (Forall_lookup_1 _ _ _ _ HB Hb).
Qed.

Lemma read_le_returns buf n : forall p,
  bytes_ok buf -> 0 <= p -> p + Z.of_nat n <= Z.of_nat (length buf) ->
  returns (read_le buf p n) (fun v => 0 <= v < 256 ^ Z.of_nat n).
Proof.
  induction n as [|n IH]; intros p HB Hp Hn; cbn [read_le]; [apply returns_Ok; lia|].
  eapply returns_bind; [apply rd_returns; [done|lia]|]. intros b Hb.
  eapply returns_bind; [apply IH; [done|lia|lia]|]. intros r Hr. cbv beta in Hr. apply returns_Ok.
  unfold is_byte in Hb. rewrite Nat2Z.inj_succ, Z.pow_succ_r by apply Nat2Z.is_nonneg.
  set (m := 256 ^ Z.of_nat n) in *. lia.
Qed.

Lemma rd_app_r pre buf i :
  0 <= i -> rd (pre ++ buf) (Z.of_nat (length pre) + i) = rd buf i.
Proof.
  intros Hi. unfold rd. destruct (Z.ltb_spec i 0), (Z.ltb_spec (Z.of_nat (length pre) + i) 0); try lia.
  rewrite lookup_app_r by lia. do 2 f_equal. lia.
Qed.

(** ** Boot-time configuration

    [hhdm_offset] comes from the boot loader (utils/limine.c) and the page
    shift from the architecture's intrin/paging.h. *)
Class kconfig := { hhdm_offset : Z; PAGE_SIZE_SHIFT : Z }.

(** What the kernel relies on: the direct map starts above address 0, and the
    page size is one of the three that paging_init accepts. *)
Class kconfig_ok (cfg : kconfig) : Prop := {
  hhdm_range : 0 < hhdm_offset < 2 ^ 64;
  shift_range : 12 <= PAGE_SIZE_SHIFT <= 16;
}.

Definition PAGE_SIZE `{kconfig} : Z := shl64 1 PAGE_SIZE_SHIFT.
Definition TO_HHDM `{kconfig} (x : Z) : Z := u64 (x + hhdm_offset).
Definition FROM_HHDM `{kconfig} (x : Z) : Z := u64 (x - hhdm_offset).

(** x86_64: 4 KiB pages, the direct map at the bottom of the higher half. *)
Definition x86_64_config : kconfig :=
  {| hhdm_offset := 0xffff800000000000; PAGE_SIZE_SHIFT := 12 |}.

#[export] Instance x86_64_config_ok : kconfig_ok x86_64_config.
Proof. split; cbn; lia. Qed.

Section HHDM.
Context `{cfg_ok : kconfig_ok}.

Lemma FROM_TO_HHDM x : is_u64 x -> FROM_HHDM (TO_HHDM x) = x.
Proof.
  intros Hx. unfold FROM_HHDM, TO_HHDM, u64. rewrite Zminus_mod_idemp_l, Z.add_simpl_r.
  by apply Z.mod_small.
Qed.

Lemma TO_HHDM_inj x y : is_u64 x -> is_u64 y -> TO_HHDM x = TO_HHDM y -> x = y.
Proof.
  intros Hx Hy E. rewrite <- (FROM_TO_HHDM x), <- (FROM_TO_HHDM y) by done. by rewrite E.
Qed.

(** Physical addresses the direct map reaches without wrapping. *)
Definition hhdm_mapped (x : Z) : Prop := 0 <= x < 2 ^ 64 - hhdm_offset.

Lemma TO_HHDM_mapped x : hhdm_mapped x -> TO_HHDM x = x + hhdm_offset.
Proof using cfg_ok.
  pose proof hhdm_range. unfold hhdm_mapped. intros. apply u64_small. unfold is_u64. lia.
Qed.

Lemma TO_HHDM_nonnull x : hhdm_mapped x -> TO_HHDM x <> 0.
Proof using cfg_ok.
  intros Hx. rewrite TO_HHDM_mapped by done. pose proof hhdm_range.
  unfold hhdm_mapped in Hx. lia.
Qed.

Lemma hhdm_mapped_u64 x : hhdm_mapped x -> is_u64 x.
Proof using cfg_ok. pose proof hhdm_range. unfold hhdm_mapped, is_u64. lia. Qed.

Lemma PAGE_SIZE_eq : PAGE_SIZE = 2 ^ PAGE_SIZE_SHIFT.
Proof using cfg_ok.
  pose proof shift_range. unfold PAGE_SIZE, shl64. rewrite Z.shiftl_1_l.
  apply u64_small. split; [lia|]. apply Z.pow_lt_mono_r; lia.
Qed.
End HHDM.
