(* ===== verification/LList.v ===== *)
(** * utils/dstruct/llist.c and stack.h: intrusive linked lists

    A node is a cell of a store, addressed by its pointer; the list header is a
    record.  Every function is the C function, reading and writing the cells
    in the order the code does, and faulting on a pointer that is not mapped.
    [llist_rep h l xs] says that header [l] and store [h] represent the
    sequence of pointers [xs]; each operation is shown to act on that sequence
    as the corresponding list operation, touching no foreign cell. *)

From S2P Require Import Prelude.
#[local] Open Scope Z_scope.

Record llist_node := LNode { next : Z; prev : Z }.
Record llist := LList { count : Z; head : Z; tail : Z }.

#[export] Instance llist_node_eq_dec : EqDecision llist_node.
Proof. solve_decision. Defined.
#[export] Instance llist_eq_dec : EqDecision llist.
Proof. solve_decision. Defined.

Definition LLIST_INIT : llist := LList 0 0 0.

Abbreviation nodes := (gmap Z llist_node).

Definition set_next (h : nodes) (p v : Z) : res nodes :=
  n ← load h p; store h p (LNode v (prev n)).
Definition set_prev (h : nodes) (p v : Z) : res nodes :=
  n ← load h p; store h p (LNode (next n) v).

Definition llist_initial_node (l : llist) (h : nodes) (node : Z) : res (llist * nodes) :=
  h ← set_next h node 0;
  h ← set_prev h node 0;
  Ok (LList 1 node node, h).

Definition llist_node_append (l : llist) (h : nodes) (pos node : Z) : res (llist * nodes) :=
  pn ← load h pos;
  h ← set_next h node (next pn);
  h ← set_prev h node pos;
  h ← set_next h pos node;
  nn ← load h node;
  h ← (if next nn =? 0 then Ok h else set_prev h (next nn) node);
  let tl := if tail l =? pos then node else tail l in
  Ok (LList (u64 (count l + 1)) (head l) tl, h).

Definition llist_node_prepend (l : llist) (h : nodes) (pos node : Z) : res (llist * nodes) :=
  h ← set_next h node pos;
  pn ← load h pos;
  h ← set_prev h node (prev pn);
  h ← set_prev h pos node;
  nn ← load h node;
  h ← (if prev nn =? 0 then Ok h else set_next h (prev nn) node);
  let hd := if head l =? pos then node else head l in
  Ok (LList (u64 (count l + 1)) hd (tail l), h).

Definition llist_node_delete (l : llist) (h : nodes) (node : Z) : res (llist * nodes) :=
  let l := LList (u64 (count l - 1)) (head l) (tail l) in
  n ← load h node;
  let l := if head l =? node then LList (count l) (next n) (tail l) else l in
  let l := if tail l =? node then LList (count l) (head l) (prev n) else l in
  h ← (if prev n =? 0 then Ok h else set_next h (prev n) (next n));
  n ← load h node;
  h ← (if next n =? 0 then Ok h else set_prev h (next n) (prev n));
  h ← set_next h node node;
  h ← set_prev h node node;
  Ok (l, h).

Definition llist_push_front (l : llist) (h : nodes) (node : Z) : res (llist * nodes) :=
  if head l =? 0 then llist_initial_node l h node
  else llist_node_prepend l h (head l) node.

Definition llist_push_back (l : llist) (h : nodes) (node : Z) : res (llist * nodes) :=
  if tail l =? 0 then llist_initial_node l h node
  else llist_node_append l h (tail l) node.

(** The aliases [llist_push] and [llist_pop]. *)
Definition llist_push := llist_push_front.

Definition llist_pop_front (l : llist) (h : nodes) : res (Z * llist * nodes) :=
  let node := head l in
  if node =? 0 then Ok (0, l, h)
  else '(l, h) ← llist_node_delete l h node; Ok (node, l, h).

Definition llist_pop := llist_pop_front.

Definition llist_pop_back (l : llist) (h : nodes) : res (Z * llist * nodes) :=
  let node := tail l in
  if node =? 0 then Ok (0, l, h)
  else '(l, h) ← llist_node_delete l h node; Ok (node, l, h).

Definition llist_node_try_delete (l : llist) (h : nodes) (node : Z)
    : res (bool * llist * nodes) :=
  n ← load h node;
  if negb (next n =? node) || negb (prev n =? node)
  then '(l, h) ← llist_node_delete l h node; Ok (true, l, h)
  else Ok (false, l, h).

(** ** Representation *)

Definition first_or (d : Z) (xs : list Z) : Z :=
  match xs with [] => d | x :: _ => x end.
Fixpoint last_or (d : Z) (xs : list Z) : Z :=
  match xs with [] => d | x :: xs' => last_or x xs' end.

(** The nodes of [xs] are linked in order; [pp] precedes the first one and
    [nn] follows the last one. *)
Fixpoint lseg (h : nodes) (pp : Z) (xs : list Z) (nn : Z) : Prop :=
  match xs with
  | [] => True
  | x :: xs' => h !! x = Some (LNode (first_or nn xs') pp) /\ lseg h x xs' nn
  end.

Record llist_rep (h : nodes) (l : llist) (xs : list Z) : Prop := {
  lr_head : head l = first_or 0 xs;
  lr_tail : tail l = last_or 0 xs;
  lr_count : count l = u64 (Z.of_nat (length xs));
  lr_nodup : NoDup xs;
  lr_nonnull : 0 ∉ xs;
  lr_seg : lseg h 0 xs 0;
}.

Lemma first_or_app d xs ys : first_or d (xs ++ ys) = first_or (first_or d ys) xs.
Proof. by destruct xs. Qed.

Lemma last_or_app d xs ys : last_or d (xs ++ ys) = last_or (last_or d xs) ys.
Proof. revert d. induction xs as [|x xs IH]; intros d; cbn; auto. Qed.

Lemma first_or_in d xs : first_or d xs = d \/ first_or d xs ∈ xs.
Proof. destruct xs; [by left|right]. apply list_elem_of_here. Qed.

Lemma last_or_in d xs : last_or d xs = d \/ last_or d xs ∈ xs.
Proof.
  revert d. induction xs as [|x xs IH]; intros d; cbn; [by left|right].
  destruct (IH x) as [->|Hin]; [apply list_elem_of_here|by apply list_elem_of_further].
Qed.

Lemma lseg_app h pp xs ys nn :
  lseg h pp (xs ++ ys) nn <-> lseg h pp xs (first_or nn ys) /\ lseg h (last_or pp xs) ys nn.
Proof.
  revert pp. induction xs as [|x xs IH]; intros pp; cbn; [tauto|].
  rewrite IH, first_or_app. tauto.
Qed.

Lemma lseg_frame h h' pp xs nn :
  (forall x, x ∈ xs -> h' !! x = h !! x) -> lseg h pp xs nn -> lseg h' pp xs nn.
Proof.
  revert pp. induction xs as [|x xs IH]; intros pp E; cbn; [done|].
  intros [Hx Hs]. split; [rewrite E; [done|]|apply IH; [|done]]; set_solver.
Qed.

Lemma lseg_insert h pp xs nn p n :
  p ∉ xs -> lseg h pp xs nn -> lseg (<[p := n]> h) pp xs nn.
Proof. intros Hp. apply lseg_frame. intros x Hx. apply lookup_insert_ne. by intros ->. Qed.

Lemma lseg_mapped h pp xs nn x : lseg h pp xs nn -> x ∈ xs -> is_Some (h !! x).
Proof.
  revert pp. induction xs as [|y xs IH]; intros pp; cbn; [set_solver|].
  intros [Hy Hs] Hin. apply elem_of_cons in Hin as [->|Hin]; eauto.
Qed.

(** The cell of a node in the middle of a segment. *)
Lemma lseg_mid h pp xs x ys nn :
  lseg h pp (xs ++ x :: ys) nn -> h !! x = Some (LNode (first_or nn ys) (last_or pp xs)).
Proof. rewrite lseg_app. by intros (_ & Hx & _). Qed.

Lemma llist_rep_init h : llist_rep h LLIST_INIT [].
Proof. split; cbn; auto using NoDup_nil_2. apply not_elem_of_nil. Qed.

Lemma llist_rep_frame h h' l xs :
  (forall x, x ∈ xs -> h' !! x = h !! x) -> llist_rep h l xs -> llist_rep h' l xs.
Proof. intros E [? ? ? ? ? Hs]. split; auto. by eapply lseg_frame. Qed.

Lemma llist_rep_modifies S h h' l xs :
  modifies S h h' -> (forall x, x ∈ xs -> x ∉ S) -> llist_rep h l xs -> llist_rep h' l xs.
Proof. intros [_ E] HS. apply llist_rep_frame. auto. Qed.

(** ** Correctness of the operations *)

Lemma set_next_Ok h p v n : h !! p = Some n -> set_next h p v = Ok (<[p := LNode v (prev n)]> h).
Proof. intros Hp. unfold set_next. rewrite (load_Ok _ _ _ Hp), bind_Ok. by eapply store_Ok. Qed.

Lemma set_prev_Ok h p v n : h !! p = Some n -> set_prev h p v = Ok (<[p := LNode (next n) v]> h).
Proof. intros Hp. unfold set_prev. rewrite (load_Ok _ _ _ Hp), bind_Ok. by eapply store_Ok. Qed.

(** Look a cell up through a stack of updates at known-distinct addresses. *)
Ltac cell :=
  repeat first
    [ rewrite lookup_insert_eq
    | rewrite lookup_insert_ne by congruence ];
  first [eassumption | reflexivity | idtac].

Lemma length_insert_mid (xs ys : list Z) x : length (xs ++ x :: ys) = S (length (xs ++ ys)).
Proof. rewrite !length_app. cbn. lia. Qed.

Lemma NoDup_insert_mid (xs ys : list Z) x :
  NoDup (xs ++ x :: ys) <-> (x ∉ xs ++ ys) /\ NoDup (xs ++ ys).
Proof. by rewrite <- Permutation_middle, NoDup_cons. Qed.

(** Split freshness and distinctness of pointers into atomic hypotheses. *)
Ltac fresh_split :=
  repeat progress (rewrite <- ?app_assoc in *; cbn [app] in *;
    rewrite ?NoDup_insert_mid, ?NoDup_cons, ?not_elem_of_app, ?not_elem_of_cons in *;
    destruct_and?).

(** Execute the next cell access of a pointer program. *)
Ltac pstep :=
  first
    [ erewrite load_Ok by cell
    | erewrite set_next_Ok by cell
    | erewrite set_prev_Ok by cell ];
  rewrite bind_Ok; cbn [next prev].

Lemma modifies_insert2 S (h h' : nodes) p n :
  modifies S h h' -> is_Some (h !! p) -> p ∈ S -> modifies S h (<[p := n]> h').
Proof.
  intros H Hp Hin. eapply modifies_trans_same; [exact H|].
  destruct (modifies_mapped _ _ _ _ H Hp) as [m Hm]. by eapply modifies_insert.
Qed.

Lemma lseg_set_prev_first h pp pp' x xs nn :
  x ∉ xs -> lseg h pp (x :: xs) nn ->
  lseg (<[x := LNode (first_or nn xs) pp']> h) pp' (x :: xs) nn.
Proof.
  intros Hx [_ Hs]. split; [apply lookup_insert_eq|]. by apply lseg_insert.
Qed.

Lemma lseg_set_next_last h pp xs x nn nn' :
  x ∉ xs -> lseg h pp (xs ++ [x]) nn ->
  lseg (<[x := LNode nn' (last_or pp xs)]> h) pp (xs ++ [x]) nn'.
Proof.
  rewrite !lseg_app. cbn. intros Hx (Hs & _ & _). split_and!; [|apply lookup_insert_eq|done].
  by apply lseg_insert.
Qed.

Lemma llist_initial_node_rep l h node :
  node <> 0 -> is_Some (h !! node) ->
  exists l' h', llist_initial_node l h node = Ok (l', h') /\
    llist_rep h' l' [node] /\ modifies [node] h h'.
Proof.
  intros H0 [n Hn]. unfold llist_initial_node. pstep. pstep.
  eexists _, _. split; [reflexivity|]. split.
  - split; cbn; auto using NoDup_singleton; [set_solver|]. by cell.
  - eapply modifies_insert2; [eapply modifies_insert; eauto| |]; set_solver.
Qed.

Lemma u64_succ n : u64 (u64 (Z.of_nat n) + 1) = u64 (Z.of_nat (S n)).
Proof. unfold u64. rewrite Zplus_mod_idemp_l. f_equal. lia. Qed.

Lemma u64_pred n : u64 (u64 (Z.of_nat (S n)) - 1) = u64 (Z.of_nat n).
Proof. unfold u64. rewrite Zminus_mod_idemp_l. f_equal. lia. Qed.

Lemma llist_rep_insert h h' l xs ys x :
  llist_rep h l (xs ++ ys) -> x ∉ xs ++ ys -> x <> 0 ->
  lseg h' 0 (xs ++ x :: ys) 0 ->
  llist_rep h' (LList (u64 (count l + 1)) (first_or x xs) (last_or x ys)) (xs ++ x :: ys).
Proof.
  intros [Hh Ht Hc Hd H0 Hs] Hn Hn0 Hs'. split; cbn; auto.
  - by rewrite first_or_app.
  - by rewrite last_or_app.
  - by rewrite Hc, u64_succ, length_insert_mid.
  - by apply NoDup_insert_mid.
  - set_solver.
Qed.

Lemma first_or_ne d (xs : list Z) p : p <> d -> p ∉ xs -> first_or d xs <> p.
Proof. destruct xs; set_solver. Qed.

Lemma last_or_ne d (xs : list Z) p : p <> d -> p ∉ xs -> last_or d xs <> p.
Proof. revert d; induction xs; cbn; set_solver. Qed.

Lemma last_or_default (xs : list Z) x d : last_or d (xs ++ [x]) = x.
Proof. by rewrite last_or_app. Qed.

Ltac mods :=
  repeat first
    [ apply modifies_refl
    | eapply modifies_insert2; [|eauto|set_solver]].

Lemma llist_node_append_rep h l xs pos ys node :
  llist_rep h l (xs ++ pos :: ys) -> node ∉ xs ++ pos :: ys -> node <> 0 ->
  is_Some (h !! node) ->
  exists l' h', llist_node_append l h pos node = Ok (l', h') /\
    llist_rep h' l' (xs ++ pos :: node :: ys) /\ modifies (node :: xs ++ pos :: ys) h h'.
Proof.
  intros Hrep Hn Hn0 [n Hnode]. pose proof Hrep as [Hh Ht Hc Hd H0 Hs].
  pose proof (lseg_mid _ _ _ _ _ _ Hs) as Hpos. apply NoDup_insert_mid in Hd.
  assert (forall tl h', lseg h' 0 (xs ++ pos :: node :: ys) 0 -> tl = last_or node ys ->
    llist_rep h' (LList (u64 (count l + 1)) (head l) tl) (xs ++ pos :: node :: ys)) as Hfin.
  { intros tl h' Hs' ->. rewrite cons_middle, app_assoc in Hs' |- *.
    rewrite cons_middle, app_assoc in Hrep, Hn.
    rewrite Hh, first_or_app. cbn.
    replace (first_or pos xs) with (first_or node (xs ++ [pos])) by (by destruct xs).
    by eapply llist_rep_insert. }
  fresh_split. unfold llist_node_append. do 5 pstep.
  apply lseg_app in Hs as (Hs1 & _ & Hs2).
  destruct ys as [|y ys]; cbn [first_or].
  - rewrite Z.eqb_refl, bind_Ok. eexists _, _. split; [reflexivity|]. split; [|mods].
    apply Hfin; [|by rewrite Ht, last_or_default, Z.eqb_refl].
    apply lseg_app. cbn. split_and!; try (by cell); auto.
    repeat (apply lseg_insert; [done|]). done.
  - fresh_split. rewrite (proj2 (Z.eqb_neq y 0)) by done.
    cbn in Hs2. destruct Hs2 as [Hy Hs2]. pstep.
    eexists _, _. split; [reflexivity|]. split; [|mods].
    + apply Hfin.
      * apply lseg_app. cbn. split_and!; try (by cell); auto;
          repeat (apply lseg_insert; [done|]); done.
      * rewrite Ht, last_or_app. cbn. fresh_split. rewrite (proj2 (Z.eqb_neq _ pos)); [done|].
        by apply last_or_ne.
Qed.

Lemma llist_node_prepend_rep h l xs pos ys node :
  llist_rep h l (xs ++ pos :: ys) -> node ∉ xs ++ pos :: ys -> node <> 0 ->
  is_Some (h !! node) ->
  exists l' h', llist_node_prepend l h pos node = Ok (l', h') /\
    llist_rep h' l' (xs ++ node :: pos :: ys) /\ modifies (node :: xs ++ pos :: ys) h h'.
Proof.
  intros Hrep Hn Hn0 [n Hnode]. pose proof Hrep as [Hh Ht Hc Hd H0 Hs].
  pose proof (lseg_mid _ _ _ _ _ _ Hs) as Hpos. apply NoDup_insert_mid in Hd.
  assert (forall hd h', lseg h' 0 (xs ++ node :: pos :: ys) 0 -> hd = first_or node xs ->
    llist_rep h' (LList (u64 (count l + 1)) hd (tail l)) (xs ++ node :: pos :: ys)) as Hfin.
  { intros hd h' Hs' ->. rewrite Ht, last_or_app.
    by apply (llist_rep_insert _ _ _ _ (pos :: ys) node Hrep). }
  fresh_split. unfold llist_node_prepend. do 5 pstep.
  apply lseg_app in Hs as (Hs1 & _ & Hs2).
  destruct xs as [|x xs' _] using rev_ind; cbn [last_or].
  - rewrite Z.eqb_refl, bind_Ok. eexists _, _. split; [reflexivity|]. split; [|mods].
    apply Hfin; [|by rewrite Hh; cbn; rewrite Z.eqb_refl].
    cbn. split_and!; try (by cell); auto.
    repeat (apply lseg_insert; [done|]). done.
  - fresh_split. rewrite last_or_default.
    apply lseg_app in Hs1 as (Hs1 & Hx & _).
    rewrite (proj2 (Z.eqb_neq x 0)) by done. pstep.
    eexists _, _. split; [reflexivity|]. split; [|mods].
    + apply Hfin.
      * apply lseg_app. cbn. split_and!; try (by cell); auto;
          repeat (apply lseg_insert; [done|]); done.
      * rewrite Hh, !first_or_app. cbn. rewrite (proj2 (Z.eqb_neq _ pos)); [done|].
        by apply first_or_ne.
Qed.

Lemma llist_rep_delete h h' l xs ys x :
  llist_rep h l (xs ++ x :: ys) -> lseg h' 0 (xs ++ ys) 0 ->
  llist_rep h' (LList (u64 (count l - 1)) (first_or (first_or 0 ys) xs) (last_or (last_or 0 xs) ys))
    (xs ++ ys).
Proof.
  intros [Hh Ht Hc Hd H0 Hs] Hs'. apply NoDup_insert_mid in Hd as [_ Hd].
  split; cbn; auto.
  - by rewrite first_or_app.
  - by rewrite last_or_app.
  - by rewrite Hc, length_insert_mid, u64_pred.
  - set_solver.
Qed.

Lemma delete_head_link xs ys x :
  x ∉ xs -> (if first_or 0 (xs ++ x :: ys) =? x then first_or 0 ys else first_or 0 (xs ++ x :: ys))
    = first_or (first_or 0 ys) xs.
Proof.
  intros Hx. rewrite first_or_app. destruct xs as [|y xs]; cbn; [by rewrite Z.eqb_refl|].
  rewrite (proj2 (Z.eqb_neq y x)); set_solver.
Qed.

Lemma delete_tail_link xs ys x :
  x ∉ ys -> (if last_or 0 (xs ++ x :: ys) =? x then last_or 0 xs else last_or 0 (xs ++ x :: ys))
    = last_or (last_or 0 xs) ys.
Proof.
  intros Hx. rewrite last_or_app. cbn. destruct ys as [|y ys]; cbn; [by rewrite Z.eqb_refl|].
  rewrite (proj2 (Z.eqb_neq _ x)); [done|]. apply last_or_ne; set_solver.
Qed.

(** Redirecting the last link of a segment. *)
Lemma relink_prev h xs nn nn' :
  lseg h 0 xs nn -> NoDup xs -> 0 ∉ xs ->
  exists h', (if last_or 0 xs =? 0 then Ok h else set_next h (last_or 0 xs) nn') = Ok h' /\
    lseg h' 0 xs nn' /\ modifies xs h h'.
Proof.
  intros Hs Hd H0. destruct xs as [|x xs _] using rev_ind; [by eexists|].
  rewrite last_or_default. fresh_split. rewrite (proj2 (Z.eqb_neq x 0)) by done.
  pose proof (lseg_mid _ _ _ _ _ _ Hs) as Hx.
  erewrite set_next_Ok by done. eexists. split; [done|]. split.
  - rewrite app_nil_r in *. by apply (lseg_set_next_last _ _ _ _ nn).
  - eapply modifies_insert; [done|set_solver].
Qed.

(** Redirecting the first back link of a segment. *)
Lemma relink_next h ys pp pp' :
  lseg h pp ys 0 -> NoDup ys -> 0 ∉ ys ->
  exists h', (if first_or 0 ys =? 0 then Ok h else set_prev h (first_or 0 ys) pp') = Ok h' /\
    lseg h' pp' ys 0 /\ modifies ys h h'.
Proof.
  intros Hs Hd H0. destruct ys as [|y ys]; [by eexists|]. cbn [first_or].
  fresh_split. rewrite (proj2 (Z.eqb_neq y 0)) by done.
  pose proof Hs as [Hy _]. erewrite set_prev_Ok by done.
  eexists. split; [done|]. split.
  - by apply (lseg_set_prev_first _ pp).
  - eapply modifies_insert; [done|set_solver].
Qed.

Lemma llist_node_delete_rep h l xs node ys :
  llist_rep h l (xs ++ node :: ys) ->
  exists l' h', llist_node_delete l h node = Ok (l', h') /\
    llist_rep h' l' (xs ++ ys) /\ modifies (xs ++ node :: ys) h h' /\
    h' !! node = Some (LNode node node).
Proof.
  intros Hrep. pose proof Hrep as [Hh Ht Hc Hd H0 Hs].
  pose proof (lseg_mid _ _ _ _ _ _ Hs) as Hnode.
  apply NoDup_insert_mid in Hd as [Hx Hd].
  assert (forall h', lseg h' 0 (xs ++ ys) 0 ->
    llist_rep h' (LList (u64 (count l - 1))
      (if head l =? node then first_or 0 ys else head l)
      (if tail l =? node then last_or 0 xs else tail l)) (xs ++ ys)) as Hfin.
  { intros h' Hs'. rewrite Hh, Ht, delete_head_link, delete_tail_link by set_solver.
    by apply (llist_rep_delete _ _ _ _ _ _ Hrep). }
  unfold llist_node_delete. cbn [head tail count]. pstep.
  replace (if tail (if head l =? node then _ else _) =? node then _ else _) with
    (LList (u64 (count l - 1)) (if head l =? node then first_or 0 ys else head l)
      (if tail l =? node then last_or 0 xs else tail l))
    by (destruct (head l =? node); cbn; by destruct (tail l =? node)).
  apply lseg_app in Hs as (Hs1 & _ & Hs2).
  fresh_split.
  assert (NoDup xs /\ NoDup ys) as [??] by (apply NoDup_app in Hd; tauto).
  destruct (relink_prev h xs node (first_or 0 ys)) as (h1 & -> & Hl1 & M1); auto.
  rewrite bind_Ok. erewrite load_Ok by (rewrite (proj2 M1); eauto). rewrite bind_Ok.
  cbn [next prev].
  destruct (relink_next h1 ys node (last_or 0 xs)) as (h2 & -> & Hl2 & M2); auto.
  { eapply lseg_frame; [|done]. intros y Hy. apply M1. intros Hin.
    apply NoDup_app in Hd as (_ & Hdisj & _). by apply (Hdisj y). }
  rewrite bind_Ok.
  assert (h2 !! node = Some (LNode (first_or 0 ys) (last_or 0 xs))).
  { rewrite (proj2 M2) by done. by rewrite (proj2 M1). }
  do 2 pstep. eexists _, _. split; [reflexivity|]. split_and!.
  - apply Hfin, lseg_app. split; repeat (apply lseg_insert; [done|]); [|done].
    eapply lseg_frame; [|done]. intros x Hx. apply M2. intros Hin.
    apply NoDup_app in Hd as (_ & Hdisj & _). by apply (Hdisj x).
  - mods.
    apply (modifies_weaken (xs ++ ys)); [by eapply modifies_trans|set_solver].
  - by cell.
Qed.

(** [llist_push_front] is cons. *)
Lemma llist_push_front_rep h l xs node :
  llist_rep h l xs -> node ∉ xs -> node <> 0 -> is_Some (h !! node) ->
  exists l' h', llist_push_front l h node = Ok (l', h') /\
    llist_rep h' l' (node :: xs) /\ modifies (node :: xs) h h'.
Proof.
  intros Hrep Hn H0 Hm. unfold llist_push_front. rewrite (lr_head _ _ _ Hrep).
  destruct xs as [|x xs]; [by apply llist_initial_node_rep|]. cbn [first_or].
  rewrite (proj2 (Z.eqb_neq x 0)) by (pose proof (lr_nonnull _ _ _ Hrep); set_solver).
  by apply (llist_node_prepend_rep _ _ []).
Qed.

(** [llist_push_back] is snoc. *)
Lemma llist_push_back_rep h l xs node :
  llist_rep h l xs -> node ∉ xs -> node <> 0 -> is_Some (h !! node) ->
  exists l' h', llist_push_back l h node = Ok (l', h') /\
    llist_rep h' l' (xs ++ [node]) /\ modifies (node :: xs) h h'.
Proof.
  intros Hrep Hn H0 Hm. unfold llist_push_back. rewrite (lr_tail _ _ _ Hrep).
  destruct xs as [|x xs _] using rev_ind; [by apply llist_initial_node_rep|].
  rewrite last_or_default, <- app_assoc.
  rewrite (proj2 (Z.eqb_neq x 0)) by (pose proof (lr_nonnull _ _ _ Hrep); set_solver).
  by apply llist_node_append_rep.
Qed.

(** [llist_pop_front] takes the head, or null from an empty list. *)
Lemma llist_pop_front_rep h l xs :
  llist_rep h l xs ->
  exists l' h', llist_pop_front l h = Ok (first_or 0 xs, l', h') /\
    llist_rep h' l' (List.tl xs) /\ modifies xs h h'.
Proof.
  intros Hrep. unfold llist_pop_front. rewrite (lr_head _ _ _ Hrep).
  destruct xs as [|x xs]; cbn [first_or].
  - eexists _, _. split; [reflexivity|]. split; [done|apply modifies_refl].
  - rewrite (proj2 (Z.eqb_neq x 0)) by (pose proof (lr_nonnull _ _ _ Hrep); set_solver).
    destruct (llist_node_delete_rep h l [] x xs Hrep) as (l' & h' & -> & R & M & _).
    by exists l', h'.
Qed.

(** [llist_pop_back] takes the last node, or null from an empty list. *)
Lemma llist_pop_back_rep h l xs :
  llist_rep h l xs ->
  exists l' h', llist_pop_back l h = Ok (last_or 0 xs, l', h') /\
    llist_rep h' l' (removelast xs) /\ modifies xs h h'.
Proof.
  intros Hrep. unfold llist_pop_back. rewrite (lr_tail _ _ _ Hrep).
  destruct xs as [|x xs _] using rev_ind.
  - eexists _, _. split; [reflexivity|]. split; [done|apply modifies_refl].
  - rewrite last_or_default, removelast_last.
    rewrite (proj2 (Z.eqb_neq x 0)) by (pose proof (lr_nonnull _ _ _ Hrep); set_solver).
    destruct (llist_node_delete_rep h l xs x [] Hrep) as (l' & h' & -> & R & M & _).
    rewrite app_nil_r in R. by exists l', h'.
Qed.

(** A node of a represented list never looks deleted. *)
Lemma lseg_not_self h xs x ys :
  lseg h 0 (xs ++ x :: ys) 0 -> NoDup (xs ++ x :: ys) -> 0 ∉ xs ++ x :: ys ->
  exists n, h !! x = Some n /\ next n <> x.
Proof.
  intros Hs Hd H0. eexists. split; [by eapply lseg_mid|]. cbn.
  fresh_split. apply first_or_ne; done.
Qed.

(** [llist_node_try_delete] on a linked node unlinks it and reports it. *)
Lemma llist_node_try_delete_in h l xs node ys :
  llist_rep h l (xs ++ node :: ys) ->
  exists l' h', llist_node_try_delete l h node = Ok (true, l', h') /\
    llist_rep h' l' (xs ++ ys) /\ modifies (xs ++ node :: ys) h h' /\
    h' !! node = Some (LNode node node).
Proof.
  intros Hrep. pose proof Hrep as [_ _ _ Hd H0 Hs].
  destruct (lseg_not_self _ _ _ _ Hs Hd H0) as (n & Hn & Hne).
  unfold llist_node_try_delete. rewrite (load_Ok _ _ _ Hn), bind_Ok.
  rewrite (proj2 (Z.eqb_neq _ _) Hne). cbn [negb orb].
  destruct (llist_node_delete_rep _ _ _ _ _ Hrep) as (l' & h' & -> & R & M & E).
  by exists l', h'.
Qed.

(** ... and on a node already marked deleted it changes nothing. *)
Lemma llist_node_try_delete_out h l node :
  h !! node = Some (LNode node node) ->
  llist_node_try_delete l h node = Ok (false, l, h).
Proof.
  intros Hn. unfold llist_node_try_delete. rewrite (load_Ok _ _ _ Hn), bind_Ok. cbn.
  by rewrite Z.eqb_refl.
Qed.

(** ** Arrays of lists sharing one store

    [buddy.c] keeps one list per order and [vmem.c] one per size class. *)
Record lists_rep (h : nodes) (ls : list llist) (xss : list (list Z)) : Prop := {
  ls_each : Forall2 (llist_rep h) ls xss;
  ls_disj : forall i j xs ys x,
    xss !! i = Some xs -> xss !! j = Some ys -> x ∈ xs -> x ∈ ys -> i = j;
}.

Definition in_lists (x : Z) (xss : list (list Z)) : Prop :=
  exists i xs, xss !! i = Some xs /\ x ∈ xs.

Lemma lists_rep_lookup h ls xss i xs :
  lists_rep h ls xss -> xss !! i = Some xs -> exists l, ls !! i = Some l /\ llist_rep h l xs.
Proof. intros [HF _] Hi. by apply (Forall2_lookup_r _ _ _ _ _ HF). Qed.

Lemma lists_rep_frame h h' ls xss :
  (forall x, in_lists x xss -> h' !! x = h !! x) -> lists_rep h ls xss -> lists_rep h' ls xss.
Proof.
  intros E [HF HD]. split; [|done]. apply Forall2_same_length_lookup. split; [by eapply Forall2_length|].
  intros i l xs Hl Hxs. eapply llist_rep_frame; [|by eapply Forall2_lookup_lr]. intros x Hx. apply E. by exists i, xs.
Qed.

(** Replace list [i] by one over its own nodes and nodes in no list. *)
Lemma lists_rep_update h h' ls xss i xs l' xs' S :
  lists_rep h ls xss -> xss !! i = Some xs -> llist_rep h' l' xs' -> modifies S h h' ->
  (forall x, x ∈ S -> x ∈ xs \/ ~ in_lists x xss) ->
  (forall x, x ∈ xs' -> x ∈ xs \/ ~ in_lists x xss) ->
  lists_rep h' (<[i := l']> ls) (<[i := xs']> xss).
Proof.
  intros [HF HD] Hi Hl' HM HS Hxs'.
  assert (forall j ys x, i <> j -> xss !! j = Some ys -> x ∈ ys ->
    x ∈ xs \/ ~ in_lists x xss -> False) as Hfor.
  { intros j ys x Hne Hj Hx [Hin|Hnin]; [apply Hne; eauto|]. apply Hnin. by exists j, ys. }
  split.
  - apply Forall2_same_length_lookup. split; [rewrite !length_insert; by eapply Forall2_length|].
    intros j l ys Hl Hys. destruct (decide (i = j)) as [<-|Hne].
    + apply lookup_lt_Some in Hl as Hl1. apply lookup_lt_Some in Hys as Hys1.
      rewrite length_insert in Hl1. rewrite length_insert in Hys1.
      rewrite list_lookup_insert_eq in Hl by done.
      rewrite list_lookup_insert_eq in Hys by done. by simplify_eq.
    + rewrite list_lookup_insert_ne in Hl by done. rewrite list_lookup_insert_ne in Hys by done.
      eapply llist_rep_modifies; [done| |by eapply Forall2_lookup_lr].
      intros x Hx HxS. eauto.
  - intros j k ys zs x Hj Hk Hx1 Hx2.
    assert (i < length xss)%nat by (by eapply lookup_lt_Some).
    rewrite list_lookup_insert in Hj. rewrite list_lookup_insert in Hk.
    destruct (decide (i = j /\ (i < length xss)%nat)) as [[<- _]|];
      destruct (decide (i = k /\ (i < length xss)%nat)) as [[<- _]|]; simplify_eq; eauto.
    + exfalso. eapply (Hfor k); eauto.
    + exfalso. eapply (Hfor j); eauto.
Qed.

(** [llist_op(&ls[i], ...)]: indexing outside the array is a fault. *)
Definition arr_get (ls : list llist) (i : Z) : res llist :=
  if i <? 0 then Fault else of_option (ls !! Z.to_nat i).
Definition arr_set (ls : list llist) (i : Z) (l : llist) : list llist := <[Z.to_nat i := l]> ls.

Definition arr_push (ls : list llist) (h : nodes) (i node : Z) : res (list llist * nodes) :=
  l ← arr_get ls i;
  '(l, h) ← llist_push l h node;
  Ok (arr_set ls i l, h).

Definition arr_pop (ls : list llist) (h : nodes) (i : Z) : res (Z * list llist * nodes) :=
  l ← arr_get ls i;
  '(n, l, h) ← llist_pop l h;
  Ok (n, arr_set ls i l, h).

Definition arr_delete (ls : list llist) (h : nodes) (i node : Z) : res (list llist * nodes) :=
  l ← arr_get ls i;
  '(l, h) ← llist_node_delete l h node;
  Ok (arr_set ls i l, h).

Section Arrays.
Context (h : nodes) (ls : list llist) (xss : list (list Z)) (i : Z) (xs : list Z).
Context (Hrep : lists_rep h ls xss) (Hi0 : 0 <= i) (Hi : xss !! Z.to_nat i = Some xs).

Lemma arr_get_Ok : exists l, arr_get ls i = Ok l /\ llist_rep h l xs.
Proof using Hrep Hi0 Hi.
  destruct (lists_rep_lookup _ _ _ _ _ Hrep Hi) as (l & Hl & HR). exists l. split; [|done].
  unfold arr_get. destruct (Z.ltb_spec i 0); [lia|]. by rewrite Hl.
Qed.

Lemma in_lists_own x : x ∈ xs -> in_lists x xss.
Proof using Hi. intros Hx. by exists (Z.to_nat i), xs. Qed.

Lemma arr_push_rep node :
  ~ in_lists node xss -> node <> 0 -> is_Some (h !! node) ->
  exists ls' h', arr_push ls h i node = Ok (ls', h') /\
    lists_rep h' ls' (<[Z.to_nat i := node :: xs]> xss) /\ modifies (node :: xs) h h'.
Proof using Hrep Hi0 Hi.
  intros Hn H0 Hm. destruct arr_get_Ok as (l & Hl & HR).
  destruct (llist_push_front_rep h l xs node HR) as (l' & h' & E & R & M); auto.
  { intros Hin. by apply Hn, in_lists_own. }
  exists (arr_set ls i l'), h'. split_and!; [|eapply lists_rep_update; eauto|done].
  - unfold arr_push, llist_push. rewrite Hl, bind_Ok, E. done.
  - intros x [->|]%elem_of_cons; auto.
  - intros x [->|]%elem_of_cons; auto.
Qed.

Lemma arr_pop_rep :
  exists ls' h', arr_pop ls h i = Ok (first_or 0 xs, ls', h') /\
    lists_rep h' ls' (<[Z.to_nat i := List.tl xs]> xss) /\ modifies xs h h'.
Proof using Hrep Hi0 Hi.
  destruct arr_get_Ok as (l & Hl & HR).
  destruct (llist_pop_front_rep h l xs HR) as (l' & h' & E & R & M); auto.
  exists (arr_set ls i l'), h'. split_and!; [|eapply lists_rep_update; eauto|done].
  - unfold arr_pop, llist_pop. rewrite Hl, bind_Ok, E. done.
  - intros x Hx. left. destruct xs; [done|]. by apply list_elem_of_further.
Qed.

Lemma arr_delete_rep node xs1 xs2 :
  xs = xs1 ++ node :: xs2 ->
  exists ls' h', arr_delete ls h i node = Ok (ls', h') /\
    lists_rep h' ls' (<[Z.to_nat i := xs1 ++ xs2]> xss) /\ modifies xs h h'.
Proof using Hrep Hi0 Hi.
  intros E. destruct arr_get_Ok as (l & Hl & HR). rewrite E in HR.
  destruct (llist_node_delete_rep h l xs1 node xs2 HR) as (l' & h' & E' & R & M & _); auto.
  rewrite <- E in M.
  exists (arr_set ls i l'), h'. split_and!; [|eapply lists_rep_update; eauto|done].
  - unfold arr_delete. rewrite Hl, bind_Ok, E'. done.
  - intros x Hx. left. rewrite E. set_solver.
Qed.
End Arrays.

(** ** The deque an [llist_t] promises

    [spec_step D o xs] is what operation [o] means on the sequence [xs], over
    the valid node addresses [D]; it is [None] when the caller breaks the
    contract of the operation (linking a node twice, a null node, a position
    that is not in the list). *)
Inductive llist_op :=
| OpPushFront (n : Z) | OpPushBack (n : Z) | OpPopFront | OpPopBack
| OpAppend (pos n : Z) | OpPrepend (pos n : Z) | OpDelete (n : Z) | OpTryDelete (n : Z).

Fixpoint list_split_at (x : Z) (xs : list Z) : option (list Z * list Z) :=
  match xs with
  | [] => None
  | y :: ys =>
      if x =? y then Some ([], ys)
      else match list_split_at x ys with
           | Some (a, b) => Some (y :: a, b)
           | None => None
           end
  end.

Definition linkable (D : gset Z) (xs : list Z) (n : Z) : bool :=
  bool_decide (n ∈ D) && negb (n =? 0) && negb (bool_decide (n ∈ xs)).

Definition spec_step (D : gset Z) (o : llist_op) (xs : list Z) : option (Z * list Z) :=
  match o with
  | OpPushFront n => if linkable D xs n then Some (0, n :: xs) else None
  | OpPushBack n => if linkable D xs n then Some (0, xs ++ [n]) else None
  | OpPopFront => Some (first_or 0 xs, List.tl xs)
  | OpPopBack => Some (last_or 0 xs, removelast xs)
  | OpAppend pos n =>
      '(a, b) ← list_split_at pos xs;
      if linkable D xs n then Some (0, a ++ pos :: n :: b) else None
  | OpPrepend pos n =>
      '(a, b) ← list_split_at pos xs;
      if linkable D xs n then Some (0, a ++ n :: pos :: b) else None
  | OpDelete n => '(a, b) ← list_split_at n xs; Some (0, a ++ b)
  | OpTryDelete n => '(a, b) ← list_split_at n xs; Some (1, a ++ b)
  end.

Definition impl_step (o : llist_op) (l : llist) (h : nodes) : res (Z * (llist * nodes)) :=
  match o with
  | OpPushFront n => r ← llist_push_front l h n; Ok (0, r)
  | OpPushBack n => r ← llist_push_back l h n; Ok (0, r)
  | OpPopFront => '(n, l, h) ← llist_pop_front l h; Ok (n, (l, h))
  | OpPopBack => '(n, l, h) ← llist_pop_back l h; Ok (n, (l, h))
  | OpAppend pos n => r ← llist_node_append l h pos n; Ok (0, r)
  | OpPrepend pos n => r ← llist_node_prepend l h pos n; Ok (0, r)
  | OpDelete n => r ← llist_node_delete l h n; Ok (0, r)
  | OpTryDelete n =>
      '(b, l, h) ← llist_node_try_delete l h n; Ok (if (b : bool) then 1 else 0, (l, h))
  end.

Fixpoint spec_run (D : gset Z) (os : list llist_op) (xs : list Z) : option (list Z * list Z) :=
  match os with
  | [] => Some ([], xs)
  | o :: os' =>
      '(r, xs) ← spec_step D o xs;
      '(rs, xs) ← spec_run D os' xs;
      Some (r :: rs, xs)
  end.

Fixpoint impl_run (os : list llist_op) (l : llist) (h : nodes)
    : res (list Z * (llist * nodes)) :=
  match os with
  | [] => Ok ([], (l, h))
  | o :: os' =>
      '(r, (l, h)) ← impl_step o l h;
      '(rs, s) ← impl_run os' l h;
      Ok (r :: rs, s)
  end.

Lemma list_split_at_Some x xs a b : list_split_at x xs = Some (a, b) -> xs = a ++ x :: b.
Proof.
  revert a b. induction xs as [|y ys IH]; intros a b; cbn; [done|].
  destruct (Z.eqb_spec x y) as [->|]; [naive_solver|].
  destruct (list_split_at x ys) as [[a' b']|]; [|done].
  intros [= <- <-]. by rewrite (IH a' b').
Qed.

Lemma linkable_spec (h : nodes) xs n :
  linkable (dom h) xs n = true -> is_Some (h !! n) /\ n <> 0 /\ n ∉ xs.
Proof.
  unfold linkable. intros [[H1%bool_decide_eq_true H2]%andb_prop H3]%andb_prop.
  rewrite negb_true_iff in H2, H3. apply bool_decide_eq_false in H3.
  apply elem_of_dom in H1. split_and!; [done|lia|done].
Qed.

(** One operation of the pointer code does what the sequence says. *)
Lemma impl_step_refines o l h xs r xs' :
  llist_rep h l xs -> spec_step (dom h) o xs = Some (r, xs') ->
  exists l' h', impl_step o l h = Ok (r, (l', h')) /\ llist_rep h' l' xs' /\ dom h' = dom h.
Proof.
  intros HR. destruct o as [n|n| | |pos n|pos n|n|n]; cbn [spec_step impl_step].
  - destruct (linkable _ _ _) eqn:E; [|done]. intros [= <- <-].
    apply linkable_spec in E as (Hm & H0 & Hn).
    destruct (llist_push_front_rep h l xs n HR Hn H0 Hm) as (l' & h' & -> & ? & []). eauto.
  - destruct (linkable _ _ _) eqn:E; [|done]. intros [= <- <-].
    apply linkable_spec in E as (Hm & H0 & Hn).
    destruct (llist_push_back_rep h l xs n HR Hn H0 Hm) as (l' & h' & -> & ? & []). eauto.
  - intros [= <- <-].
    destruct (llist_pop_front_rep h l xs HR) as (l' & h' & -> & ? & []). eauto.
  - intros [= <- <-].
    destruct (llist_pop_back_rep h l xs HR) as (l' & h' & -> & ? & []). eauto.
  - destruct (list_split_at pos xs) as [[a b]|] eqn:Es; [|done]. cbn.
    destruct (linkable _ _ _) eqn:E; [|done]. intros [= <- <-].
    apply linkable_spec in E as (Hm & H0 & Hn). apply list_split_at_Some in Es as ->.
    destruct (llist_node_append_rep h l a pos b n HR Hn H0 Hm) as (l' & h' & -> & ? & []). eauto.
  - destruct (list_split_at pos xs) as [[a b]|] eqn:Es; [|done]. cbn.
    destruct (linkable _ _ _) eqn:E; [|done]. intros [= <- <-].
    apply linkable_spec in E as (Hm & H0 & Hn). apply list_split_at_Some in Es as ->.
    destruct (llist_node_prepend_rep h l a pos b n HR Hn H0 Hm) as (l' & h' & -> & ? & []). eauto.
  - destruct (list_split_at n xs) as [[a b]|] eqn:Es; [|done]. cbn. intros [= <- <-].
    apply list_split_at_Some in Es as ->.
    destruct (llist_node_delete_rep h l a n b HR) as (l' & h' & -> & ? & [] & _). eauto.
  - destruct (list_split_at n xs) as [[a b]|] eqn:Es; [|done]. cbn. intros [= <- <-].
    apply list_split_at_Some in Es as ->.
    destruct (llist_node_try_delete_in h l a n b HR) as (l' & h' & -> & ? & [] & _). eauto.
Qed.


Definition demo_nodes : nodes :=
  {[16 := LNode 0 0; 32 := LNode 7 7; 48 := LNode 0 0]}.
Definition demo_ops : list llist_op :=
  [OpPushFront 16; OpPushBack 32; OpAppend 16 48; OpDelete 16; OpPopBack; OpTryDelete 48; OpPopFront].


(** ** utils/dstruct/stack.h: a singly linked stack *)
Module Stack.
Abbreviation snodes := (gmap Z Z).

Definition stack_push (head : Z) (h : snodes) (node : Z) : res (Z * snodes) :=
  h ← store h node head;
  Ok (node, h).

Definition stack_pop (head : Z) (h : snodes) : res (Z * Z * snodes) :=
  if head =? 0 then Ok (0, head, h)
  else
    nx ← load h head;
    Ok (head, nx, h).

Fixpoint stack_rep (h : snodes) (head : Z) (xs : list Z) : Prop :=
  match xs with
  | [] => head = 0
  | x :: xs' => head = x /\ x <> 0 /\ exists nx, h !! x = Some nx /\ stack_rep h nx xs'
  end.

Lemma stack_rep_frame h h' hd xs :
  (forall x, x ∈ xs -> h' !! x = h !! x) -> stack_rep h hd xs -> stack_rep h' hd xs.
Proof.
  revert hd. induction xs as [|x xs IH]; intros hd E; cbn; [done|].
  intros (-> & H0 & nx & Hx & HR). split_and!; [done|done|]. exists nx. split.
  - rewrite E; [done|]. apply list_elem_of_here.
  - apply IH; [|done]. intros y Hy. apply E. by apply list_elem_of_further.
Qed.

Lemma stack_push_rep h hd xs node :
  stack_rep h hd xs -> node ∉ xs -> node <> 0 -> is_Some (h !! node) ->
  exists h', stack_push hd h node = Ok (node, h') /\ stack_rep h' node (node :: xs) /\
    modifies [node] h h'.
Proof.
  intros HR Hn H0 [v Hv]. unfold stack_push. erewrite store_Ok by done.
  eexists. split; [reflexivity|]. split.
  - split_and!; [done|done|]. exists hd. split; [apply lookup_insert_eq|].
    eapply stack_rep_frame; [|done]. intros x Hx. apply lookup_insert_ne. by intros ->.
  - eapply modifies_insert; [done|set_solver].
Qed.

Lemma stack_pop_rep h hd xs :
  stack_rep h hd xs ->
  exists hd', stack_pop hd h = Ok (first_or 0 xs, hd', h) /\ stack_rep h hd' (List.tl xs).
Proof.
  unfold stack_pop. destruct xs as [|x xs]; cbn.
  - intros ->. by exists 0.
  - intros (-> & H0 & nx & Hx & HR). rewrite (proj2 (Z.eqb_neq x 0)) by done.
    rewrite (load_Ok _ _ _ Hx), bind_Ok. eauto.
Qed.
End Stack.
