(* ===== verification/Memmap.v ===== *)
(** * The boot loader's memory map and the boot-time allocator

    mem/memmap.c sums the map up for the log; mem/balloc.c hands out zeroed
    pages of the usable entries, in order, before the buddy allocator runs. *)

From S2P Require Import Prelude.
#[local] Open Scope Z_scope.

(** The entries the boot loader reports (types named as in limine.h). *)
Inductive memmap_type :=
| LIMINE_MEMMAP_USABLE | LIMINE_MEMMAP_RESERVED | LIMINE_MEMMAP_ACPI_RECLAIMABLE
| LIMINE_MEMMAP_ACPI_NVS | LIMINE_MEMMAP_BAD_MEMORY | LIMINE_MEMMAP_BOOTLOADER_RECLAIMABLE
| LIMINE_MEMMAP_EXECUTABLE_AND_MODULES | LIMINE_MEMMAP_FRAMEBUFFER
| LIMINE_MEMMAP_RESERVED_MAPPED | LIMINE_MEMMAP_UNKNOWN.

#[export] Instance memmap_type_eq_dec : EqDecision memmap_type.
Proof. solve_decision. Defined.

Record memmap_entry := MemmapEntry { base : Z; length_ : Z; mtype : memmap_type }.

(** The sums [memmap_print] reports: usable now, usable after reclaim. *)
Fixpoint memmap_print (entries : list memmap_entry) (pre post : Z) : Z * Z :=
  match entries with
  | [] => (pre, post)
  | e :: entries =>
      match mtype e with
      | LIMINE_MEMMAP_USABLE => memmap_print entries (u64 (pre + length_ e)) (u64 (post + length_ e))
      | LIMINE_MEMMAP_BOOTLOADER_RECLAIMABLE | LIMINE_MEMMAP_ACPI_RECLAIMABLE =>
          memmap_print entries pre (u64 (post + length_ e))
      | _ => memmap_print entries pre post
      end
  end.

(** ** balloc.c *)
Record balloc_state := Balloc { balloc_entry : Z; balloc_offset : Z; balloc_last_addr : Z }.

Section Balloc.
Context `{cfg_ok : kconfig_ok}.
Context (entries : list memmap_entry).

Definition entry_start (e : memmap_entry) : Z := MAX (ALIGN_UP (base e) PAGE_SIZE) 0x100000.
Definition entry_end (e : memmap_entry) : Z := ALIGN_DOWN (u64 (base e + length_ e)) PAGE_SIZE.

(** The loop of [balloc_alloc_page]; the zeroing of the page is the caller's
    view of memory (see [bump_alloc] of Paging).  At most one turn per entry. *)
Fixpoint balloc_loop (fuel : nat) (s : balloc_state) : res (Z * balloc_state) :=
  match fuel with
  | O => NoFuel
  | S fuel =>
      if balloc_entry s <? Z.of_nat (length entries) then
        entry ← of_option (entries !! Z.to_nat (balloc_entry s));
        if negb (bool_decide (mtype entry = LIMINE_MEMMAP_USABLE)) then
          balloc_loop fuel (Balloc (balloc_entry s + 1) 0 (balloc_last_addr s))
        else
          let aligned_start := entry_start entry in
          let aligned_end := entry_end entry in
          let offset :=
            if balloc_offset s =? 0 then u64 (aligned_start - base entry) else balloc_offset s in
          if u64 (base entry + offset + PAGE_SIZE) <=? aligned_end then
            let paddr := u64 (base entry + offset) in
            Ok (paddr, Balloc (balloc_entry s) (u64 (offset + PAGE_SIZE)) paddr)
          else balloc_loop fuel (Balloc (balloc_entry s + 1) 0 (balloc_last_addr s))
      else Panic
  end.

Definition balloc_alloc_page (s : balloc_state) : res (Z * balloc_state) :=
  balloc_loop (S (length entries)) s.

(** ** What the boot allocator promises *)

(** The map is sorted, without overlap, below 2^64 less a page. *)
Record memmap_ok : Prop := {
  mo_range : forall i e, entries !! i = Some e ->
    0 <= base e /\ 0 <= length_ e /\ base e + length_ e + 2 * PAGE_SIZE <= 2 ^ 64;
  mo_sorted : forall i j e f, (i < j)%nat -> entries !! i = Some e -> entries !! j = Some f ->
    base e + length_ e <= base f;
}.

(** A page the allocator may hand out. *)
Definition boot_page (p : Z) : Prop :=
  (PAGE_SIZE | p) /\ 0x100000 <= p /\ exists i e, entries !! i = Some e /\
    mtype e = LIMINE_MEMMAP_USABLE /\ base e <= p /\ p + PAGE_SIZE <= base e + length_ e.

(** The next page is past the last one handed out. *)
Definition past (s : balloc_state) (x : Z) : Prop :=
  balloc_last_addr s = 0 \/ balloc_last_addr s + PAGE_SIZE <= x.

Record balloc_ok (s : balloc_state) : Prop := {
  bo_entry : 0 <= balloc_entry s;
  bo_later : forall j f, entries !! j = Some f -> balloc_entry s < Z.of_nat j -> past s (base f);
  bo_here : forall e, entries !! Z.to_nat (balloc_entry s) = Some e ->
    (balloc_offset s = 0 /\ past s (base e)) \/
    (0 < balloc_offset s /\ base e + balloc_offset s = balloc_last_addr s + PAGE_SIZE /\
     (PAGE_SIZE | balloc_last_addr s) /\ 0x100000 <= balloc_last_addr s /\
     balloc_last_addr s + PAGE_SIZE <= base e + length_ e);
}.

Lemma balloc_next s e :
  memmap_ok -> balloc_ok s -> entries !! Z.to_nat (balloc_entry s) = Some e ->
  balloc_ok (Balloc (balloc_entry s + 1) 0 (balloc_last_addr s)).
Proof using cfg_ok.
  intros MO [H1 H2 H3] He. split; cbn.
  - lia.
  - intros j f Hf Hj. apply (H2 j f Hf). lia.
  - intros f Hf. left. split; [done|]. apply (H2 _ f Hf). lia.
Qed.

Lemma entry_end_spec i e :
  memmap_ok -> entries !! i = Some e -> entry_end e <= base e + length_ e /\ (PAGE_SIZE | entry_end e).
Proof using cfg_ok.
  intros [MR _] He. destruct (MR i e He) as (H1 & H2 & H3). pose proof shift_range.
  unfold entry_end. rewrite PAGE_SIZE_eq in *. rewrite u64_small by (unfold is_u64; lia).
  rewrite ALIGN_DOWN_spec by (unfold is_u64; lia).
  pose proof (Z.mod_pos_bound (base e + length_ e) (2 ^ PAGE_SIZE_SHIFT)). split; [lia|].
  exists ((base e + length_ e) / 2 ^ PAGE_SIZE_SHIFT).
  pose proof (Z.div_mod (base e + length_ e) (2 ^ PAGE_SIZE_SHIFT)). lia.
Qed.

Lemma entry_start_spec i e :
  memmap_ok -> entries !! i = Some e ->
  base e <= entry_start e /\ entry_start e + PAGE_SIZE < 2 ^ 64 /\
  (PAGE_SIZE | entry_start e) /\ 0x100000 <= entry_start e.
Proof using cfg_ok.
  intros [MR _] He. destruct (MR i e He) as (H1 & H2 & H3). pose proof shift_range as Hs.
  unfold entry_start. rewrite PAGE_SIZE_eq in *. rewrite MAX_max.
  destruct (ALIGN_UP_bounds (base e) PAGE_SIZE_SHIFT) as [Ha Hb]; [lia|unfold is_u64; lia|lia|].
  assert (2 ^ PAGE_SIZE_SHIFT <= 2 ^ 16) by (apply Z.pow_le_mono_r; lia).
  split_and!; try lia. destruct (Z.max_spec (ALIGN_UP (base e) (2 ^ PAGE_SIZE_SHIFT)) 0x100000) as [[_ ->]|[_ ->]]; [|done].
  exists (2 ^ (20 - PAGE_SIZE_SHIFT)). rewrite <- Z.pow_add_r by lia. by replace (20 - PAGE_SIZE_SHIFT + PAGE_SIZE_SHIFT) with 20 by lia.
Qed.

(** A page of the current entry. *)
Lemma balloc_take s e o :
  memmap_ok -> balloc_ok s -> entries !! Z.to_nat (balloc_entry s) = Some e ->
  mtype e = LIMINE_MEMMAP_USABLE -> o = u64 (base e + (if balloc_offset s =? 0 then u64 (entry_start e - base e) else balloc_offset s)) ->
  u64 (base e + (if balloc_offset s =? 0 then u64 (entry_start e - base e) else balloc_offset s) + PAGE_SIZE) <= entry_end e ->
  boot_page o /\ past s o /\
  balloc_ok (Balloc (balloc_entry s) (u64 ((if balloc_offset s =? 0 then u64 (entry_start e - base e) else balloc_offset s) + PAGE_SIZE)) o).
Proof using cfg_ok.
  intros MO B He Ht Ho Hend. destruct (mo_range MO _ _ He) as (M1 & M2 & M3).
  destruct (entry_end_spec _ e MO He) as [E1 E2]. destruct (entry_start_spec _ e MO He) as (S1 & S0 & S2 & S3).
  pose proof PAGE_SIZE_eq as HPS. pose proof shift_range as Hs. assert (0 < PAGE_SIZE) by (rewrite HPS; lia).
  set (off := if balloc_offset s =? 0 then _ else _) in *.
  assert (0 <= off /\ base e + off < 2 ^ 64 /\ (PAGE_SIZE | base e + off) /\ 0x100000 <= base e + off /\
    past s (base e + off) /\ base e + off + PAGE_SIZE < 2 ^ 64) as (O1 & O2 & O3 & O4 & O5 & O6).
  { destruct (bo_here s B e He) as [[Hz Hp]|(Hz & Hb & Hd & H1m & Hf)].
    - unfold off. rewrite Hz. cbn [Z.eqb]. rewrite u64_small by (unfold is_u64; lia).
      replace (base e + (entry_start e - base e)) with (entry_start e) by lia.
      split_and!; try done; try lia. destruct Hp; [by left|right; lia].
    - unfold off. rewrite (proj2 (Z.eqb_neq _ _)) by lia. split_and!; try lia.
      + rewrite Hb. apply Z.divide_add_r; [done|apply Z.divide_refl].
      + right. lia. }
  assert (u64 (base e + off) = base e + off) as EO by (apply u64_small; unfold is_u64; lia). rewrite EO in Ho. subst o.
  assert (base e + off + PAGE_SIZE <= base e + length_ e) as Hfit.
  { rewrite u64_small in Hend by (unfold is_u64; lia). lia. }
  split_and!.
  - split_and!; [done|done|]. exists (Z.to_nat (balloc_entry s)), e. split_and!; try done; lia.
  - done.
  - assert (u64 (off + PAGE_SIZE) = off + PAGE_SIZE) as -> by (apply u64_small; unfold is_u64; lia).
    destruct B as [B1 B2 B3]. split; cbn; [done| |].
    + intros j f Hf Hj. right. cbn. pose proof (mo_sorted MO (Z.to_nat (balloc_entry s)) j e f ltac:(lia) He Hf). lia.
    + intros e' He'. assert (e' = e) as -> by congruence. right. split_and!; try done; lia.
Qed.

Lemma balloc_loop_ok fuel : memmap_ok -> forall s,
  balloc_ok s -> Z.max 0 (Z.of_nat (length entries) - balloc_entry s) < Z.of_nat fuel ->
  nofault (balloc_loop fuel s) (fun '(p, s') =>
    boot_page p /\ past s p /\ balloc_last_addr s' = p /\ balloc_ok s').
Proof using cfg_ok.
  intros MO. induction fuel as [|fuel IH]; intros s B Hf; pose proof (bo_entry s B) as H0; [lia|].
  cbn [balloc_loop]. destruct (Z.ltb_spec (balloc_entry s) (Z.of_nat (length entries))) as [Hlt|]; [|done].
  destruct (lookup_lt_is_Some_2 entries (Z.to_nat (balloc_entry s))) as [e He]; [lia|]. rewrite He. cbn [of_option].
  rewrite bind_Ok. pose proof (balloc_next s e MO B He) as Bn.
  assert (nofault (balloc_loop fuel (Balloc (balloc_entry s + 1) 0 (balloc_last_addr s))) (fun '(p, s') =>
    boot_page p /\ past s p /\ balloc_last_addr s' = p /\ balloc_ok s')) as Hnext.
  { eapply nofault_mono; [apply IH; [done|cbn; lia]|]. by intros [p s']. }
  case_bool_decide as Ht; cbn [negb]; [|done]. cbv zeta.
  destruct (Z.leb_spec (u64 (base e + (if balloc_offset s =? 0 then u64 (entry_start e - base e) else balloc_offset s) + PAGE_SIZE)) (entry_end e)) as [Hle|]; [|done].
  destruct (balloc_take s e _ MO B He Ht eq_refl Hle) as (P1 & P2 & P3). cbn. by split_and!.
Qed.

(** on a sorted memory map, the boot allocator either panics for lack of
    memory or returns a page-aligned page above 1 MiB that lies whole in a
    usable entry and past every page it returned before; the invariant that
    makes this so holds initially and is kept. *)
Theorem balloc_alloc_page_correct s :
  memmap_ok -> balloc_ok s ->
  balloc_ok (Balloc 0 0 0) /\
  nofault (balloc_alloc_page s) (fun '(p, s') =>
    boot_page p /\ past s p /\ balloc_last_addr s' = p /\ balloc_ok s').
Proof using cfg_ok.
  intros MO B. split.
  - split; cbn; [lia| |]; intros; left; by unfold past; cbn; auto.
  - pose proof (bo_entry s B). apply balloc_loop_ok; [done|done|lia].
Qed.
End Balloc.

(** *** A map with a low, a reserved and a usable entry *)
Definition demo_map : list memmap_entry :=
  [MemmapEntry 0x1000 0x9e000 LIMINE_MEMMAP_USABLE; MemmapEntry 0x9f000 0x61000 LIMINE_MEMMAP_RESERVED;
   MemmapEntry 0x100800 0x4000 LIMINE_MEMMAP_USABLE].

Lemma demo_map_ok : memmap_ok (cfg := x86_64_config) demo_map.
Proof.
  assert (PAGE_SIZE (H := x86_64_config) = 4096) as E by reflexivity.
  split.
  - intros [|[|[|i]]] e He; cbn in He; simplify_eq; rewrite E; cbn; lia.
  - intros [|[|[|i]]] [|[|[|j]]] e f Hij He Hf; cbn in He, Hf; simplify_eq; cbn; lia.
Qed.

Example demo_map_pages :
  match balloc_alloc_page (cfg := x86_64_config) demo_map (Balloc 0 0 0) with
  | Ok (p, s) => (p, option_map fst (match balloc_alloc_page (cfg := x86_64_config) demo_map s with Ok r => Some r | _ => None end))
  | _ => (0, None)
  end = (0x101000, Some 0x102000).
Proof. vm_compute. reflexivity. Qed.

Lemma balloc_alloc_page_correct_witness :
  balloc_ok (cfg := x86_64_config) demo_map (Balloc 0 0 0) /\
  nofault (balloc_alloc_page (cfg := x86_64_config) demo_map (Balloc 0 0 0)) (fun '(p, s') =>
    boot_page (cfg := x86_64_config) demo_map p /\ past (cfg := x86_64_config) (Balloc 0 0 0) p /\
    balloc_last_addr s' = p /\ balloc_ok (cfg := x86_64_config) demo_map s').
Proof.
  apply (balloc_alloc_page_correct (cfg := x86_64_config) demo_map (Balloc 0 0 0) demo_map_ok).
  split; cbn; [lia|intros; by left|intros; left; split; [done|by left]].
Defined.

