(* ===== verification/Pfndb.v ===== *)
(** * mem/pfndb.h: the page frame database

    One [page] per physical frame.  The array is a finite map from frame
    numbers, so that the holes the boot code leaves unmapped (frames of reserved
    memory) stay unmapped: touching one is a fault. *)

From S2P Require Import Prelude.
#[local] Open Scope Z_scope.

Inductive pagetype :=
| PFNDB_PAGE_INVALID
| PFNDB_PAGE_FREE
| PFNDB_PAGE_ALLOCATED
| PFNDB_PAGE_PTABLE.

#[export] Instance pagetype_eq_dec : EqDecision pagetype.
Proof. solve_decision. Defined.

Record page := Page { type : pagetype; order : Z; flags : Z; ref_count : Z }.

#[export] Instance page_eq_dec : EqDecision page.
Proof. solve_decision. Defined.

Definition set_type (pg : page) (t : pagetype) : page := Page t (order pg) (flags pg) (ref_count pg).
Definition set_order (pg : page) (o : Z) : page := Page (type pg) o (flags pg) (ref_count pg).
Definition set_ref_count (pg : page) (n : Z) : page := Page (type pg) (order pg) (flags pg) n.

Abbreviation pfndb := (gmap Z page).

Section Pfndb.
Context `{cfg_ok : kconfig_ok}.

(** [&pfndb[paddr >> PAGE_SIZE_SHIFT]], as an index. *)
Definition pfndb_get_entry (paddr : Z) : Z := Z.shiftr paddr PAGE_SIZE_SHIFT.

(** [(uint64_t)(entry - pfndb) << PAGE_SIZE_SHIFT]. *)
Definition pfndb_get_paddr (entry : Z) : Z := shl64 entry PAGE_SIZE_SHIFT.

Lemma pfndb_get_entry_div paddr : pfndb_get_entry paddr = paddr / 2 ^ PAGE_SIZE_SHIFT.
Proof using cfg_ok. pose proof shift_range. apply Z.shiftr_div_pow2. lia. Qed.

Lemma pfndb_get_paddr_entry paddr :
  is_u64 paddr -> (2 ^ PAGE_SIZE_SHIFT | paddr) -> pfndb_get_paddr (pfndb_get_entry paddr) = paddr.
Proof using cfg_ok.
  intros Hp [z ->]. pose proof shift_range. rewrite pfndb_get_entry_div, Z.div_mul by lia.
  unfold pfndb_get_paddr, shl64. rewrite Z.shiftl_mul_pow2 by lia. by apply u64_small.
Qed.

Lemma pfndb_get_entry_inj p q :
  (2 ^ PAGE_SIZE_SHIFT | p) -> (2 ^ PAGE_SIZE_SHIFT | q) ->
  pfndb_get_entry p = pfndb_get_entry q -> p = q.
Proof using cfg_ok.
  pose proof shift_range.
  intros [z ->] [w ->]. rewrite !pfndb_get_entry_div, !Z.div_mul by lia. congruence.
Qed.
End Pfndb.
