(* ===== verification/Buddy.v ===== *)
(** * mem/buddy.c: the physical page allocator *)

From S2P Require Import Prelude LList Memmap Pfndb.
#[local] Open Scope Z_scope.

Definition MIN_ORDER : Z := 0.
Definition MAX_ORDER : Z := 14.
Definition ALLOC_FLAG_NOFAIL : Z := Z.shiftl 1 0.

Definition GET_MAX_ORDER (order : Z) : Z := Z.land (Z.shiftr order 4) 15.
Definition GET_CUR_ORDER (order : Z) : Z := Z.land (Z.shiftr order 0) 15.
Definition SET_MAX_ORDER (order val : Z) : Z := u8 (Z.lor (Z.land order 15) (Z.shiftl val 4)).
Definition SET_CUR_ORDER (order val : Z) : Z := u8 (Z.lor (Z.land order 240) (Z.shiftl val 0)).

(** The free lists, the memory their nodes live in (the free pages, through
    the direct map) and the page frame database. *)
Record buddy_state := BuddyState { orders : list llist; mem : nodes; frames : pfndb }.

Section Buddy.
Context `{cfg : kconfig}.

Definition GET_ORDER_SIZE (order : Z) : Z := shl64 1 (PAGE_SIZE_SHIFT + order).
Definition GET_ORDER (addr : Z) : Z := builtin_ctzll addr - PAGE_SIZE_SHIFT.

(** Read-modify-write of the entry of [paddr]. *)
Definition update_entry (st : buddy_state) (paddr : Z) (f : page -> page) : res buddy_state :=
  pg ← load (frames st) (pfndb_get_entry paddr);
  db ← store (frames st) (pfndb_get_entry paddr) (f pg);
  Ok (BuddyState (orders st) (mem st) db).

Definition push_order (st : buddy_state) (order node : Z) : res buddy_state :=
  '(ls, h) ← arr_push (orders st) (mem st) order node;
  Ok (BuddyState ls h (frames st)).

Definition pop_order (st : buddy_state) (order : Z) : res (Z * buddy_state) :=
  '(n, ls, h) ← arr_pop (orders st) (mem st) order;
  Ok (n, BuddyState ls h (frames st)).

Definition delete_order (st : buddy_state) (order node : Z) : res buddy_state :=
  '(ls, h) ← arr_delete (orders st) (mem st) order node;
  Ok (BuddyState ls h (frames st)).

Definition buddy_add_block (st : buddy_state) (paddr ord : Z) : res buddy_state :=
  st ← update_entry st paddr (fun pg => set_type pg PFNDB_PAGE_FREE);
  st ← update_entry st paddr (fun pg => set_order pg (SET_MAX_ORDER (order pg) ord));
  st ← update_entry st paddr (fun pg => set_order pg (SET_CUR_ORDER (order pg) ord));
  push_order st ord (TO_HHDM paddr).

Fixpoint add_range_loop (fuel : nat) (st : buddy_state) (addr end_ : Z) : res buddy_state :=
  match fuel with
  | O => NoFuel
  | S fuel =>
      if addr <? end_ then
        _ ← dbg_assert (negb (addr =? 0));
        let pages := Z.shiftr (u64 (end_ - addr)) PAGE_SIZE_SHIFT in
        let max_fit := log2ull pages in
        let align := GET_ORDER addr in
        let ord := MIN MAX_ORDER (MIN max_fit align) in
        st ← buddy_add_block st addr ord;
        add_range_loop fuel st (u64 (addr + GET_ORDER_SIZE ord)) end_
      else Ok st
  end.

(** Every iteration adds at least one page, so one unit of fuel per page of
    the range, and one to leave the loop, is enough. *)
Definition buddy_add_range_nlock (st : buddy_state) (start len : Z) : res buddy_state :=
  let end_ := ALIGN_DOWN (u64 (start + len)) PAGE_SIZE in
  let start := ALIGN_UP start PAGE_SIZE in
  if end_ <=? start then Ok st
  else add_range_loop (S (Z.to_nat (pfndb_get_entry (end_ - start)))) st start end_.

Definition buddy_add_range (st : buddy_state) (start len : Z) : res buddy_state :=
  buddy_add_range_nlock st start len.

Fixpoint buddy_init (balloc_last_addr : Z) (entries : list memmap_entry) (st : buddy_state)
    : res buddy_state :=
  match entries with
  | [] => Ok st
  | entry :: entries' =>
      st ← (if decide (mtype entry = LIMINE_MEMMAP_USABLE) then
              let start := MAX (ALIGN_UP (base entry) PAGE_SIZE)
                               (u64 (balloc_last_addr + PAGE_SIZE)) in
              let end_ := ALIGN_DOWN (u64 (base entry + length_ entry)) PAGE_SIZE in
              buddy_add_range_nlock st start (u64 (end_ - start))
            else Ok st);
      buddy_init balloc_last_addr entries' st
  end.

(** The search for a larger order to split; at most [MAX_ORDER + 1] turns. *)
Fixpoint find_larger (fuel : nat) (st : buddy_state) (corder : Z) : res (Z * Z * buddy_state) :=
  match fuel with
  | O => NoFuel
  | S fuel =>
      if corder <=? MAX_ORDER then
        '(node, st) ← pop_order st corder;
        if node =? 0 then find_larger fuel st (corder + 1) else Ok (node, corder, st)
      else Ok (0, corder, st)
  end.

Fixpoint split_down (fuel : nat) (st : buddy_state) (addr max_order corder order_ : Z)
    : res (Z * buddy_state) :=
  match fuel with
  | O => NoFuel
  | S fuel =>
      if corder >? order_ then
        let corder := corder - 1 in
        let buddy := u64 (addr + GET_ORDER_SIZE corder) in
        st ← update_entry st (FROM_HHDM buddy) (fun pg => set_type pg PFNDB_PAGE_FREE);
        st ← update_entry st (FROM_HHDM buddy)
               (fun pg => set_order pg (SET_MAX_ORDER (order pg) max_order));
        st ← update_entry st (FROM_HHDM buddy)
               (fun pg => set_order pg (SET_CUR_ORDER (order pg) corder));
        st ← push_order st corder buddy;
        split_down fuel st addr max_order corder order_
      else Ok (corder, st)
  end.

Definition order_fuel : nat := 16.

Definition buddy_allocate (st : buddy_state) (order_ flags_ : Z) : res (Z * buddy_state) :=
  '(node, st) ← pop_order st order_;
  if negb (node =? 0) then
    st ← update_entry st (FROM_HHDM node) (fun pg => set_type pg PFNDB_PAGE_ALLOCATED);
    Ok (FROM_HHDM node, st)
  else
    '(node, corder, st) ← find_larger order_fuel st (order_ + 1);
    if node =? 0 then
      if negb (Z.land flags_ ALLOC_FLAG_NOFAIL =? 0) then Panic else Ok (0, st)
    else
      let addr := node in
      root_entry ← load (frames st) (pfndb_get_entry (FROM_HHDM addr));
      let max_order := GET_MAX_ORDER (order root_entry) in
      '(corder, st) ← split_down order_fuel st addr max_order corder order_;
      main_entry ← load (frames st) (pfndb_get_entry (FROM_HHDM addr));
      _ ← assert (bool_decide (type main_entry = PFNDB_PAGE_FREE));
      st ← update_entry st (FROM_HHDM addr) (fun pg => set_type pg PFNDB_PAGE_ALLOCATED);
      st ← update_entry st (FROM_HHDM addr)
             (fun pg => set_order pg (SET_CUR_ORDER (order pg) corder));
      Ok (FROM_HHDM addr, st).

(** The coalescing loop of [buddy_free]: [entry] always is the entry of
    [paddr], and [addr] its direct map address. *)
Fixpoint coalesce (fuel : nat) (st : buddy_state) (paddr corder : Z)
    : res (Z * Z * buddy_state) :=
  match fuel with
  | O => NoFuel
  | S fuel =>
      entry ← load (frames st) (pfndb_get_entry paddr);
      if corder <? GET_MAX_ORDER (order entry) then
        let buddy_paddr := Z.lxor paddr (GET_ORDER_SIZE corder) in
        buddy_entry ← load (frames st) (pfndb_get_entry buddy_paddr);
        if negb (bool_decide (type buddy_entry = PFNDB_PAGE_FREE)) then Ok (paddr, corder, st)
        else if negb (GET_CUR_ORDER (order buddy_entry) =? corder) then Ok (paddr, corder, st)
        else
          st ← delete_order st corder (TO_HHDM buddy_paddr);
          let paddr := if buddy_paddr <? paddr then buddy_paddr else paddr in
          st ← update_entry st buddy_paddr (fun pg => set_type pg PFNDB_PAGE_ALLOCATED);
          coalesce fuel st paddr (corder + 1)
      else Ok (paddr, corder, st)
  end.

Definition buddy_free (st : buddy_state) (paddr order_ : Z) : res buddy_state :=
  '(paddr, corder, st) ← coalesce order_fuel st paddr order_;
  st ← update_entry st paddr (fun pg => set_type pg PFNDB_PAGE_FREE);
  st ← update_entry st paddr (fun pg => set_order pg (SET_CUR_ORDER (order pg) corder));
  push_order st corder (TO_HHDM paddr).

(** mem/pmm.h.  Of the [memset] of the new page, the part this state sees is
    the list node at its start, which becomes zero. *)
Definition pmm_alloc_page (st : buddy_state) : res (Z * buddy_state) :=
  '(paddr, st) ← buddy_allocate st MIN_ORDER ALLOC_FLAG_NOFAIL;
  h ← store (mem st) (TO_HHDM paddr) (LNode 0 0);
  Ok (paddr, BuddyState (orders st) h (frames st)).

Definition pmm_free_page (st : buddy_state) (paddr : Z) : res buddy_state :=
  buddy_free st paddr MIN_ORDER.
End Buddy.
