(* ===== verification/BuddyInv.v ===== *)
(** * The invariant of the buddy allocator

    Bit-level facts about the order byte and the buddy address, the ghost view
    of the allocator as a map of disjoint blocks, and the ghost steps (split,
    merge, link, unlink) the operations are made of. *)

From S2P Require Import Prelude LList Pfndb Buddy.
#[local] Open Scope Z_scope.

(** ** Bit-level facts *)
Lemma nibble_bits a b :
  (forall n, 0 <= n < 4 -> Z.testbit a n = Z.testbit b n) -> Z.land a 15 = Z.land b 15.
Proof.
  intros H. change 15 with (Z.ones 4). apply Z.bits_inj'. intros n Hn.
  rewrite !Z.land_spec. destruct (decide (n < 4)) as [Hl|Hl].
  - by rewrite H by lia.
  - rewrite Z.ones_spec_high by lia. by rewrite !andb_false_r.
Qed.

Lemma u8_testbit x n : 0 <= n < 8 -> Z.testbit (u8 x) n = Z.testbit x n.
Proof. intros. unfold u8. apply Z.mod_pow2_bits_low. lia. Qed.

Lemma nibble_id v : 0 <= v < 16 -> Z.land v 15 = v.
Proof. intros. change 15 with (Z.ones 4). rewrite Z.land_ones by lia. apply Z.mod_small. lia. Qed.

Ltac nibble :=
  apply nibble_bits; intros n Hn;
  rewrite ?Z.shiftr_spec, ?u8_testbit, ?Z.lor_spec, ?Z.land_spec, ?Z.shiftl_spec by lia.

Lemma get_cur_set_cur o v : 0 <= v < 16 -> GET_CUR_ORDER (SET_CUR_ORDER o v) = v.
Proof.
  intros Hv. unfold GET_CUR_ORDER, SET_CUR_ORDER. rewrite <- (nibble_id v) at 2 by done.
  nibble. assert (n = 0 \/ n = 1 \/ n = 2 \/ n = 3) as [-> | [-> | [-> | ->]]] by lia;
    cbn; by rewrite andb_false_r.
Qed.
Lemma testbit_nibble_high v n : 0 <= v < 16 -> 4 <= n -> Z.testbit v n = false.
Proof.
  intros. rewrite <- (nibble_id v) by done. change 15 with (Z.ones 4).
  rewrite Z.land_spec, Z.ones_spec_high by lia. apply andb_false_r.
Qed.

Lemma get_max_set_cur o v : 0 <= v < 16 -> GET_MAX_ORDER (SET_CUR_ORDER o v) = GET_MAX_ORDER o.
Proof.
  intros Hv. unfold GET_MAX_ORDER, SET_CUR_ORDER. nibble.
  rewrite (testbit_nibble_high v) by lia.
  assert (n = 0 \/ n = 1 \/ n = 2 \/ n = 3) as [-> | [-> | [-> | ->]]] by lia;
    cbn; by rewrite andb_true_r, orb_false_r.
Qed.

Lemma get_max_set_max o v : 0 <= v < 16 -> GET_MAX_ORDER (SET_MAX_ORDER o v) = v.
Proof.
  intros Hv. unfold GET_MAX_ORDER, SET_MAX_ORDER. rewrite <- (nibble_id v) at 2 by done.
  nibble.
  assert (n = 0 \/ n = 1 \/ n = 2 \/ n = 3) as [-> | [-> | [-> | ->]]] by lia;
    cbn; by rewrite andb_false_r.
Qed.

Lemma lxor_pow2 p n :
  0 <= n -> 0 <= p -> (2 ^ n | p) ->
  Z.lxor p (2 ^ n) = if Z.testbit p n then p - 2 ^ n else p + 2 ^ n.
Proof.
  intros Hn Hp [z ->]. assert (0 <= z) by nia. rewrite <- Z.shiftl_mul_pow2 by done.
  rewrite <- (Z.mul_1_l (2 ^ n)), <- Z.shiftl_mul_pow2 by done.
  rewrite <- Z.shiftl_lxor, Z.shiftl_spec, Z.sub_diag by done.
  rewrite !Z.shiftl_mul_pow2 by done.
  rewrite Z.bit0_odd.
  assert (Z.lxor z 1 = if Z.odd z then z - 1 else z + 1) as ->.
  { destruct z as [|[]|]; reflexivity || lia. }
  destruct (Z.odd z); lia.
Qed.

(** ** The allocator invariant

    Ghost state: [blocks] maps the address of each block the allocator knows
    to its order and status.  A block is on a free list, owned by a client, or
    ([BHole]) in the hands of the running operation.  [regions] are the maximal
    blocks that were handed to the allocator. *)
Inductive bstatus := BFree | BAlloc | BHole.

#[export] Instance bstatus_eq_dec : EqDecision bstatus.
Proof. solve_decision. Defined.

Abbreviation blocks := (gmap Z (Z * bstatus)).
Abbreviation regions := (list (Z * Z)).

Section Invariant.
Context `{cfg_ok : kconfig_ok}.
Implicit Types (R : regions) (B : blocks) (st : buddy_state).

Definition bsize (k : Z) : Z := 2 ^ (PAGE_SIZE_SHIFT + k).
Definition in_block (p k a : Z) : Prop := p <= a < p + bsize k.
Definition page_aligned (a : Z) : Prop := (2 ^ PAGE_SIZE_SHIFT | a).

(** Block [p] of order [k] lies in a region of order [m]. *)
Definition in_region R (p k m : Z) : Prop :=
  exists b, (b, m) ∈ R /\ b <= p /\ p + bsize k <= b + bsize m.

Record regions_wf R st : Prop := {
  r_shape : forall b m, (b, m) ∈ R ->
    0 <= m <= MAX_ORDER /\ (bsize m | b) /\ 0 < b /\ b + bsize m <= 2 ^ 64 - hhdm_offset;
  r_disj : forall b1 m1 b2 m2, (b1, m1) ∈ R -> (b2, m2) ∈ R ->
    b2 < b1 + bsize m1 -> b1 < b2 + bsize m2 -> b1 = b2 /\ m1 = m2;
  r_mapped : forall b m a, (b, m) ∈ R -> in_block b m a -> page_aligned a ->
    is_Some (frames st !! pfndb_get_entry a) /\ is_Some (mem st !! TO_HHDM a);
}.

Definition entry_ok (st : buddy_state) (p k m : Z) (s : bstatus) : Prop :=
  exists pg, frames st !! pfndb_get_entry p = Some pg /\ GET_MAX_ORDER (order pg) = m /\
    (s = BFree -> type pg = PFNDB_PAGE_FREE /\ GET_CUR_ORDER (order pg) = k) /\
    (s = BAlloc -> type pg <> PFNDB_PAGE_FREE).

Record binv R st B (xss : list (list Z)) : Prop := {
  i_regions : regions_wf R st;
  i_lists : lists_rep (mem st) (orders st) xss;
  i_len : length xss = 15%nat;
  i_free : forall i xs v, xss !! i = Some xs ->
    v ∈ xs <-> exists p, v = TO_HHDM p /\ B !! p = Some (Z.of_nat i, BFree);
  i_block : forall p k s, B !! p = Some (k, s) ->
    0 <= k /\ (bsize k | p) /\ exists m, in_region R p k m /\ entry_ok st p k m s;
  i_disj : forall p k s q j t, B !! p = Some (k, s) -> B !! q = Some (j, t) -> p <> q ->
    p + bsize k <= q \/ q + bsize j <= p;
  i_type : forall p pg, page_aligned p -> frames st !! pfndb_get_entry p = Some pg ->
    type pg = PFNDB_PAGE_FREE -> exists k s, B !! p = Some (k, s) /\ s <> BAlloc;
}.

Lemma bsize_pos k : 0 <= k -> 0 < bsize k.
Proof using cfg_ok. pose proof shift_range. unfold bsize. lia. Qed.

Lemma bsize_succ k : 0 <= k -> bsize (k + 1) = 2 * bsize k.
Proof using cfg_ok.
  pose proof shift_range. intros. unfold bsize.
  replace (PAGE_SIZE_SHIFT + (k + 1)) with (1 + (PAGE_SIZE_SHIFT + k)) by lia.
  rewrite Z.pow_add_r by lia. lia.
Qed.

Lemma bsize_mono k j : 0 <= k <= j -> bsize k <= bsize j.
Proof using cfg_ok. pose proof shift_range. intros. apply Z.pow_le_mono_r; lia. Qed.

Lemma bsize_inj_lt k j : 0 <= k -> 0 <= j -> bsize k <= bsize j -> k <= j.
Proof using cfg_ok.
  pose proof shift_range. unfold bsize. intros ?? E. apply Z.pow_le_mono_r_iff in E; lia.
Qed.

Lemma GET_ORDER_SIZE_bsize k : 0 <= k <= 15 -> GET_ORDER_SIZE k = bsize k.
Proof using cfg_ok.
  pose proof shift_range. intros. unfold GET_ORDER_SIZE, shl64, bsize.
  rewrite Z.shiftl_1_l. apply u64_small. split; [lia|]. apply Z.pow_lt_mono_r; lia.
Qed.

Lemma bsize_page_aligned k p : 0 <= k -> (bsize k | p) -> page_aligned p.
Proof using cfg_ok.
  pose proof shift_range. intros Hk. apply Z.divide_trans. unfold bsize.
  rewrite Z.pow_add_r by lia. apply Z.divide_factor_l.
Qed.

Lemma in_block_head p k : 0 <= k -> in_block p k p.
Proof using cfg_ok. intros. pose proof (bsize_pos k). unfold in_block. lia. Qed.

(** What a block inherits from its region. *)
Lemma region_facts R st p k m :
  regions_wf R st -> 0 <= k -> in_region R p k m ->
  k <= m <= MAX_ORDER /\ hhdm_mapped p /\ 0 < p /\ p + bsize k <= 2 ^ 64 - hhdm_offset.
Proof using cfg_ok.
  intros W Hk (b & Hb & H1 & H2). destruct (r_shape _ _ W b m Hb) as (Hm & _ & H0 & H3).
  pose proof (bsize_pos k Hk). split_and!; try lia.
  - apply bsize_inj_lt; lia.
  - unfold hhdm_mapped. lia.
Qed.

Lemma block_facts R st B xss p k s :
  binv R st B xss -> B !! p = Some (k, s) ->
  0 <= k <= MAX_ORDER /\ (bsize k | p) /\ page_aligned p /\ hhdm_mapped p /\ 0 < p.
Proof using cfg_ok.
  intros I Hp. destruct (i_block _ _ _ _ I _ _ _ Hp) as (Hk & Hd & m & Hr & _).
  destruct (region_facts _ _ _ _ _ (i_regions _ _ _ _ I) Hk Hr) as (? & ? & ? & ?).
  split_and!; try lia; try done. by eapply bsize_page_aligned.
Qed.

(** ** Ghost steps *)

Definition with_entry st (p : Z) (pg : page) : buddy_state :=
  BuddyState (orders st) (mem st) (<[pfndb_get_entry p := pg]> (frames st)).

Lemma update_entry_Ok st p f pg :
  frames st !! pfndb_get_entry p = Some pg -> update_entry st p f = Ok (with_entry st p (f pg)).
Proof using Type.
  intros Hp. unfold update_entry. rewrite (load_Ok _ _ _ Hp), bind_Ok.
  by erewrite store_Ok by done.
Qed.

Lemma with_entry_same st p pg : frames (with_entry st p pg) !! pfndb_get_entry p = Some pg.
Proof using Type. apply lookup_insert_eq. Qed.

Lemma with_entry_other st p q pg :
  page_aligned p -> page_aligned q -> p <> q ->
  frames (with_entry st p pg) !! pfndb_get_entry q = frames st !! pfndb_get_entry q.
Proof using cfg_ok.
  intros Hp Hq Hne. apply lookup_insert_ne. intros E. by apply Hne, pfndb_get_entry_inj.
Qed.

Lemma regions_wf_with_entry R st p pg pg' :
  frames st !! pfndb_get_entry p = Some pg -> regions_wf R st -> regions_wf R (with_entry st p pg').
Proof using Type.
  intros Hp [W1 W2 W3]. split; [done|done|]. intros b m a Hb Ha Hal.
  destruct (W3 b m a Hb Ha Hal). split; [|done]. cbn.
  destruct (decide (pfndb_get_entry p = pfndb_get_entry a)) as [->|].
  - rewrite lookup_insert_eq. eauto.
  - by rewrite lookup_insert_ne.
Qed.

Lemma regions_wf_mem R st st' S :
  frames st' = frames st -> modifies S (mem st) (mem st') -> regions_wf R st -> regions_wf R st'.
Proof using Type.
  intros E M [W1 W2 W3]. split; [done|done|]. intros b m a Hb Ha Hal.
  destruct (W3 b m a Hb Ha Hal). rewrite E. split; [done|]. by eapply modifies_mapped.
Qed.

(** The entry of a block in the hands of the operation may change freely, as
    long as its maximal order stays. *)
Lemma binv_hole_entry R st B xss p k pg pg' :
  binv R st B xss -> B !! p = Some (k, BHole) ->
  frames st !! pfndb_get_entry p = Some pg ->
  GET_MAX_ORDER (order pg') = GET_MAX_ORDER (order pg) ->
  binv R (with_entry st p pg') B xss.
Proof using cfg_ok.
  intros I Hp Hpg Hmax. destruct (block_facts _ _ _ _ _ _ _ I Hp) as (_ & _ & Hal & _).
  pose proof I as [W L N F Bk D T]. split; auto.
  - by eapply regions_wf_with_entry.
  - intros q j s Hq. destruct (Bk q j s Hq) as (Hj & Hd & m & Hr & pg2 & E1 & E2 & E3 & E4).
    split_and!; auto. exists m. split; [done|].
    destruct (decide (p = q)) as [<-|Hne].
    + exists pg'. rewrite with_entry_same. simplify_eq. split_and!; auto; done.
    + exists pg2. rewrite with_entry_other; auto.
      by destruct (block_facts _ _ _ _ _ _ _ I Hq) as (_ & _ & ? & _).
  - intros q pg2 Hq. destruct (decide (p = q)) as [<-|Hne]; [eauto|].
    rewrite with_entry_other by auto. eauto.
Qed.

(** Status changes that leave lists and memory alone. *)
Lemma binv_restatus R st B xss p k s t :
  binv R st B xss -> B !! p = Some (k, s) -> s <> BFree -> t <> BFree ->
  (t = BAlloc -> forall pg, frames st !! pfndb_get_entry p = Some pg -> type pg <> PFNDB_PAGE_FREE) ->
  binv R st (<[p := (k, t)]> B) xss.
Proof using Type.
  intros [W L N F Bk D T] Hp Hs Ht Hta. split; auto.
  - intros i xs v Hi. rewrite (F i xs v Hi).
    split; intros (q & -> & Hq); exists q; split; auto.
    + rewrite lookup_insert_ne; [done|]. intros ->. congruence.
    + destruct (decide (p = q)) as [<-|]; [rewrite lookup_insert_eq in Hq|rewrite lookup_insert_ne in Hq by done];
        congruence.
  - intros q j u Hq. destruct (decide (p = q)) as [<-|].
    + rewrite lookup_insert_eq in Hq. injection Hq as <- <-.
      destruct (Bk p k s Hp) as (Hj & Hd & m & Hr & pg & E1 & E2 & E3 & E4).
      split_and!; auto. exists m. split; [done|]. exists pg. split_and!; auto. done.
    + rewrite lookup_insert_ne in Hq by done. eauto.
  - intros q j u q' j' u'. rewrite !lookup_insert.
    destruct (decide (p = q)) as [<-|], (decide (p = q')) as [<-|]; naive_solver.
  - intros q pg Hal Hq Hty. destruct (T q pg Hal Hq Hty) as (j & u & Hj & Hu).
    destruct (decide (p = q)) as [<-|]; [|exists j, u; by rewrite lookup_insert_ne].
    exists k, t. rewrite lookup_insert_eq. split; [done|].
    intros ->. by apply (Hta eq_refl pg Hq).
Qed.

(** Taking a free block off its list. *)
Lemma binv_unlink R st B xss p k xs1 xs2 ls' h' :
  binv R st B xss -> B !! p = Some (k, BFree) ->
  xss !! Z.to_nat k = Some (xs1 ++ TO_HHDM p :: xs2) ->
  lists_rep h' ls' (<[Z.to_nat k := xs1 ++ xs2]> xss) ->
  modifies (xs1 ++ TO_HHDM p :: xs2) (mem st) h' ->
  binv R (BuddyState ls' h' (frames st)) (<[p := (k, BHole)]> B) (<[Z.to_nat k := xs1 ++ xs2]> xss).
Proof using cfg_ok.
  intros I Hp Hk L' M. pose proof I as [W L N F Bk D T].
  destruct (block_facts _ _ _ _ _ _ _ I Hp) as ([Hk0 Hk1] & _ & Hal & Hm & _).
  destruct (lists_rep_lookup _ _ _ _ _ L Hk) as (l & _ & LR).
  pose proof (lr_nodup _ _ _ LR) as Hnd. apply NoDup_insert_mid in Hnd as [Hnd _].
  split; auto.
  - by apply (regions_wf_mem _ st (BuddyState ls' h' (frames st)) _ eq_refl M).
  - by rewrite length_insert.
  - intros i xs v Hi. rewrite list_lookup_insert in Hi.
    destruct (decide (Z.to_nat k = i /\ (Z.to_nat k < length xss)%nat)) as [[<- _]|Hne].
    + injection Hi as <-. rewrite Z2Nat.id by lia.
      assert (v ∈ xs1 ++ xs2 <-> v ∈ xs1 ++ TO_HHDM p :: xs2 /\ v <> TO_HHDM p) as ->
        by (split; [intros Hv; split; [set_solver|by intros ->]|set_solver]).
      rewrite (F _ _ v Hk), Z2Nat.id by lia. split.
      * intros [(q & -> & Hq) Hne]. exists q. split; [done|].
        rewrite lookup_insert_ne; [done|]. by intros ->.
      * intros (q & -> & Hq). destruct (decide (p = q)) as [<-|Hpq];
          [by rewrite lookup_insert_eq in Hq|]. rewrite lookup_insert_ne in Hq by done.
        split; [eauto|]. intros E. apply Hpq. apply TO_HHDM_inj in E; [done| |];
          apply hhdm_mapped_u64; [|done].
        by destruct (block_facts _ _ _ _ _ _ _ I Hq) as (_ & _ & _ & ? & _).
    + rewrite (F i xs v Hi). apply lookup_lt_Some in Hk.
      split; intros (q & -> & Hq); exists q; (split; [done|]).
      * rewrite lookup_insert_ne; [done|]. intros ->. apply Hne. split; [|done].
        rewrite Hp in Hq. injection Hq as ->. lia.
      * destruct (decide (p = q)) as [<-|]; [by rewrite lookup_insert_eq in Hq|].
        by rewrite lookup_insert_ne in Hq.
  - intros q j u Hq. destruct (decide (p = q)) as [<-|].
    + rewrite lookup_insert_eq in Hq. injection Hq as <- <-.
      destruct (Bk p k _ Hp) as (Hj & Hd & m & Hr & pg & E1 & E2 & E3 & E4).
      split_and!; auto. exists m. split; [done|]. exists pg. by split_and!.
    + rewrite lookup_insert_ne in Hq by done. destruct (Bk q j u Hq) as (?&?&m&?&pg&?). eauto 8.
  - intros q j u q' j' u'. rewrite !lookup_insert.
    destruct (decide (p = q)) as [<-|], (decide (p = q')) as [<-|]; naive_solver.
  - intros q pg Hq1 Hq2 Hq3. destruct (T q pg Hq1 Hq2 Hq3) as (j & u & Hj & Hu).
    destruct (decide (p = q)) as [<-|]; [exists k, BHole; by rewrite lookup_insert_eq|].
    exists j, u. by rewrite lookup_insert_ne.
Qed.

Lemma hhdm_block_inj R st B xss p q a b :
  binv R st B xss -> B !! p = Some a -> B !! q = Some b -> TO_HHDM p = TO_HHDM q -> p = q.
Proof using cfg_ok.
  destruct a as [k s], b as [j t]. intros I Hp Hq. apply TO_HHDM_inj; apply hhdm_mapped_u64.
  - by destruct (block_facts _ _ _ _ _ _ _ I Hp) as (_ & _ & _ & ? & _).
  - by destruct (block_facts _ _ _ _ _ _ _ I Hq) as (_ & _ & _ & ? & _).
Qed.

Lemma not_in_lists R st B xss p k s :
  binv R st B xss -> B !! p = Some (k, s) -> s <> BFree -> ~ in_lists (TO_HHDM p) xss.
Proof using cfg_ok.
  intros I Hp Hs (i & xs & Hi & Hin).
  apply (i_free _ _ _ _ I i xs _ Hi) in Hin as (q & E & Hq).
  assert (p = q) as <- by (by eapply hhdm_block_inj). congruence.
Qed.

(** Putting a block on the free list of its order. *)
Lemma binv_link R st B xss p k xs pg ls' h' :
  binv R st B xss -> B !! p = Some (k, BHole) ->
  frames st !! pfndb_get_entry p = Some pg -> type pg = PFNDB_PAGE_FREE ->
  GET_CUR_ORDER (order pg) = k ->
  xss !! Z.to_nat k = Some xs ->
  lists_rep h' ls' (<[Z.to_nat k := TO_HHDM p :: xs]> xss) ->
  modifies (TO_HHDM p :: xs) (mem st) h' ->
  binv R (BuddyState ls' h' (frames st)) (<[p := (k, BFree)]> B)
    (<[Z.to_nat k := TO_HHDM p :: xs]> xss).
Proof using cfg_ok.
  intros I Hp Hpg Hty Hcur Hk L' M. pose proof I as [W L N F Bk D T].
  destruct (block_facts _ _ _ _ _ _ _ I Hp) as ([Hk0 Hk1] & _ & Hal & Hm & _).
  split; auto.
  - by apply (regions_wf_mem _ st (BuddyState ls' h' (frames st)) _ eq_refl M).
  - by rewrite length_insert.
  - intros i ys v Hi. rewrite list_lookup_insert in Hi.
    destruct (decide (Z.to_nat k = i /\ (Z.to_nat k < length xss)%nat)) as [[<- _]|Hne].
    + injection Hi as <-. rewrite elem_of_cons, (F _ _ v Hk), !Z2Nat.id by lia. split.
      * intros [->|(q & -> & Hq)]; [exists p; by rewrite lookup_insert_eq|].
        exists q. split; [done|]. rewrite lookup_insert_ne; [done|]. intros ->. congruence.
      * intros (q & -> & Hq). destruct (decide (p = q)) as [<-|Hpq]; [by left|].
        rewrite lookup_insert_ne in Hq by done. right. eauto.
    + rewrite (F i ys v Hi). apply lookup_lt_Some in Hk.
      split; intros (q & -> & Hq); exists q; (split; [done|]).
      * rewrite lookup_insert_ne; [done|]. intros ->. congruence.
      * destruct (decide (p = q)) as [<-|]; [|by rewrite lookup_insert_ne in Hq].
        rewrite lookup_insert_eq in Hq. injection Hq as ->. exfalso. apply Hne. split; lia.
  - intros q j u Hq. destruct (decide (p = q)) as [<-|].
    + rewrite lookup_insert_eq in Hq. injection Hq as <- <-.
      destruct (Bk p k _ Hp) as (Hj & Hd & m & Hr & pg' & E1 & E2 & E3 & E4). simplify_eq.
      split_and!; auto. exists (GET_MAX_ORDER (order pg)). split; [done|]. exists pg. by split_and!.
    + rewrite lookup_insert_ne in Hq by done. destruct (Bk q j u Hq) as (?&?&m&?&pg'&?). eauto 8.
  - intros q j u q' j' u'. rewrite !lookup_insert.
    destruct (decide (p = q)) as [<-|], (decide (p = q')) as [<-|]; naive_solver.
  - intros q pg' Hq1 Hq2 Hq3. destruct (T q pg' Hq1 Hq2 Hq3) as (j & u & Hj & Hu).
    destruct (decide (p = q)) as [<-|]; [exists k, BFree; by rewrite lookup_insert_eq|].
    exists j, u. by rewrite lookup_insert_ne.
Qed.

Lemma in_region_sub R p k m q j :
  in_region R p k m -> p <= q -> q + bsize j <= p + bsize k -> in_region R q j m.
Proof using Type. intros (b & Hb & H1 & H2) H3 H4. exists b. split; [done|]. lia. Qed.

Lemma free_insert_hole B p k s (i q : Z) :
  (forall j, B !! p <> Some (j, BFree)) -> s <> BFree ->
  <[p := (k, s)]> B !! q = Some (i, BFree) <-> B !! q = Some (i, BFree).
Proof using Type.
  intros Hp Hs. destruct (decide (p = q)) as [<-|]; [rewrite lookup_insert_eq|by rewrite lookup_insert_ne].
  split; [congruence|]. intros E. by destruct (Hp i).
Qed.

(** The blocks seen by an address are unique. *)
Lemma block_unique R st B xss p k s q j t a :
  binv R st B xss -> B !! p = Some (k, s) -> B !! q = Some (j, t) ->
  in_block p k a -> in_block q j a -> p = q.
Proof using Type.
  intros I Hp Hq Ha Hb. destruct (decide (p = q)) as [|Hne]; [done|exfalso].
  unfold in_block in *. destruct (i_disj _ _ _ _ I _ _ _ _ _ _ Hp Hq Hne); lia.
Qed.

Definition split_blocks B p k : blocks :=
  <[p := (k, BHole)]> (<[p + bsize k := (k, BHole)]> B).

(** Splitting a block: its upper half gets an entry of its own. *)
Lemma binv_split R st B xss p k pg' :
  binv R st B xss -> 0 <= k -> B !! p = Some (k + 1, BHole) ->
  (forall pg, frames st !! pfndb_get_entry p = Some pg ->
     GET_MAX_ORDER (order pg') = GET_MAX_ORDER (order pg)) ->
  binv R (with_entry st (p + bsize k) pg') (split_blocks B p k) xss.
Proof using cfg_ok.
  intros I Hk Hp Hmax. pose proof I as [W L N F Bk D T]. set (q := p + bsize k).
  pose proof (bsize_pos k Hk) as Hpos. pose proof (bsize_succ k Hk) as Hsz.
  destruct (Bk p _ _ Hp) as (_ & Hdiv & m & Hr & pg & Epg & Emax & _ & _).
  assert (bsize k | p) as Hdp. { eapply Z.divide_trans; [|done]. rewrite Hsz. apply Z.divide_factor_r. }
  assert (bsize k | q) as Hdq by (apply Z.divide_add_r; [done|apply Z.divide_refl]).
  assert (page_aligned p) as Hap by (by eapply bsize_page_aligned).
  assert (page_aligned q) as Haq by (by eapply bsize_page_aligned).
  assert (p <> q) as Hne by (unfold q; lia).
  assert (forall x, B !! q <> Some x) as Hq.
  { intros [j t] Hq. pose proof (proj1 (Bk _ _ _ Hq)) as Hj. pose proof (bsize_pos j Hj).
    destruct (D _ _ _ _ _ _ Hp Hq Hne); unfold q in *; lia. }
  assert (is_Some (frames st !! pfndb_get_entry q)) as [pgq Hpgq].
  { destruct Hr as (b & Hb & ? & ?). apply (r_mapped _ _ W b m); [done| |done].
    unfold in_block, q. lia. }
  split; auto.
  - by eapply regions_wf_with_entry.
  - intros i xs v Hi. rewrite (F i xs v Hi). apply exist_proper; intros q'.
    unfold split_blocks. rewrite free_insert_hole, free_insert_hole; try done.
    intros j. fold q. rewrite lookup_insert_ne by done. congruence.
  - intros q' j s. unfold split_blocks. fold q. rewrite !lookup_insert.
    destruct (decide (p = q')) as [<-|Hp']; [|destruct (decide (q = q')) as [<-|Hq']].
    + intros [= <- <-]. split_and!; auto. exists m. split; [eapply in_region_sub; eauto; lia|].
      exists pg. rewrite with_entry_other by done. by split_and!.
    + intros [= <- <-]. split_and!; auto. exists m.
      split; [eapply in_region_sub; eauto; unfold q; lia|].
      exists pg'. rewrite with_entry_same. rewrite (Hmax pg Epg). by split_and!.
    + intros Hb. destruct (Bk q' j s Hb) as (?&?&m'&?&pg2&E1&?).
      split_and!; auto. exists m'. split; [done|]. exists pg2. rewrite with_entry_other; auto.
      by eapply bsize_page_aligned.
  - assert (forall q' j' u', B !! q' = Some (j', u') -> p <> q' ->
      p + bsize (k + 1) <= q' \/ q' + bsize j' <= p) as Hout by (intros; by eapply D).
    intros q1 j1 u1 q2 j2 u2. unfold split_blocks. fold q. rewrite !lookup_insert.
    destruct (decide (p = q1)) as [<-|]; [|destruct (decide (q = q1)) as [<-|]];
      (destruct (decide (p = q2)) as [<-|]; [|destruct (decide (q = q2)) as [<-|]]);
      intros E1 E2 Hd; simplify_eq; try (unfold q; lia); eauto.
    + destruct (Hout _ _ _ E2); unfold q; auto; lia.
    + destruct (Hout _ _ _ E2); unfold q; auto; lia.
    + destruct (Hout _ _ _ E1); unfold q; auto; lia.
    + destruct (Hout _ _ _ E1); unfold q; auto; lia.
  - intros q' pg2 Hal E Hty. unfold split_blocks. fold q.
    destruct (decide (p = q')) as [<-|]; [exists k, BHole; by rewrite lookup_insert_eq|].
    destruct (decide (q = q')) as [<-|];
      [exists k, BHole; by rewrite lookup_insert_ne, lookup_insert_eq|].
    rewrite with_entry_other in E by done. rewrite !lookup_insert_ne by done. eauto.
Qed.

Definition merge_blocks B lo k : blocks :=
  <[lo := (k + 1, BHole)]> (delete (lo + bsize k) B).

(** Two adjacent halves become one block of the next order. *)
Lemma binv_merge R st B xss lo k :
  binv R st B xss -> 0 <= k ->
  B !! lo = Some (k, BHole) -> B !! (lo + bsize k) = Some (k, BHole) ->
  (bsize (k + 1) | lo) -> (exists m, in_region R lo (k + 1) m) ->
  (forall pg, frames st !! pfndb_get_entry (lo + bsize k) = Some pg -> type pg <> PFNDB_PAGE_FREE) ->
  binv R st (merge_blocks B lo k) xss.
Proof using cfg_ok.
  intros I Hk Hlo Hhi Hdiv [m Hr] Hty. pose proof I as [W L N F Bk D T].
  set (hi := lo + bsize k) in *.
  pose proof (bsize_pos k Hk) as Hpos. pose proof (bsize_succ k Hk) as Hsz.
  assert (lo <> hi) as Hne by (unfold hi; lia).
  assert (forall q j t, merge_blocks B lo k !! q = Some (j, t) -> lo <> q ->
    hi <> q /\ B !! q = Some (j, t)) as Hold.
  { unfold merge_blocks. fold hi. intros q j t Hq Hq'. rewrite lookup_insert_ne in Hq by done.
    apply lookup_delete_Some in Hq. tauto. }
  split; auto.
  - intros i xs v Hi. rewrite (F i xs v Hi). apply exist_proper; intros q.
    unfold merge_blocks. fold hi. split; intros [-> Hq]; (split; [done|]).
    + rewrite lookup_insert_ne, lookup_delete_ne; congruence.
    + destruct (decide (lo = q)) as [<-|]; [by rewrite lookup_insert_eq in Hq|].
      rewrite lookup_insert_ne in Hq by done. by apply lookup_delete_Some in Hq as [_ Hq].
  - intros q j s Hq. destruct (decide (lo = q)) as [<-|Hq'].
    + unfold merge_blocks in Hq. rewrite lookup_insert_eq in Hq. injection Hq as <- <-.
      destruct (Bk _ _ _ Hlo) as (_ & _ & m' & Hr' & E).
      split_and!; [lia|done|]. exists m. split; [done|].
      assert (m' = m) as <-; [|by destruct E as (pg & ? & ? & _); exists pg; split_and!].
      destruct Hr as (b & Hb & ? & ?), Hr' as (b' & Hb' & ? & ?).
      by destruct (r_disj _ _ W _ _ _ _ Hb' Hb) as [_ ->]; [lia|lia|].
    + apply Hold in Hq as [_ Hq]; [|done]. eauto.
  - assert (forall q j t, B !! q = Some (j, t) -> lo <> q -> hi <> q ->
      lo + bsize (k + 1) <= q \/ q + bsize j <= lo) as Hout.
    { intros q j t Hq H1 H2. pose proof (bsize_pos j (proj1 (Bk _ _ _ Hq))).
      destruct (D _ _ _ _ _ _ Hlo Hq H1), (D _ _ _ _ _ _ Hhi Hq H2); unfold hi in *; lia. }
    intros q1 j1 u1 q2 j2 u2 H1 H2 Hd.
    destruct (decide (lo = q1)) as [<-|]; [|destruct (decide (lo = q2)) as [<-|]].
    + apply Hold in H2 as [??]; [|done]. unfold merge_blocks in H1.
      rewrite lookup_insert_eq in H1. injection H1 as <- <-. eauto.
    + apply Hold in H1 as [??]; [|done]. unfold merge_blocks in H2.
      rewrite lookup_insert_eq in H2. injection H2 as <- <-. apply or_comm. eauto.
    + apply Hold in H1 as [??]; [|done]. apply Hold in H2 as [??]; [|done]. eauto.
  - intros q pg Hal E Ht. destruct (T q pg Hal E Ht) as (j & s & Hj & Hs).
    unfold merge_blocks. fold hi.
    destruct (decide (lo = q)) as [<-|]; [exists (k + 1), BHole; by rewrite lookup_insert_eq|].
    destruct (decide (hi = q)) as [<-|]; [by destruct (Hty _ E)|].
    exists j, s. by rewrite lookup_insert_ne, lookup_delete_ne.
Qed.

(** ** The buddy of a block *)

Lemma buddy_arith p k :
  0 <= k -> 0 <= p -> (bsize k | p) ->
  let q := Z.lxor p (bsize k) in
  let lo := Z.min p q in
  (bsize (k + 1) | lo) /\ ((p = lo /\ q = lo + bsize k) \/ (q = lo /\ p = lo + bsize k)).
Proof using cfg_ok.
  intros Hk Hp Hd. pose proof shift_range. pose proof (bsize_pos k Hk).
  cbv zeta. pose proof (lxor_pow2 p (PAGE_SIZE_SHIFT + k)) as E. fold (bsize k) in E.
  rewrite E by (done || lia). clear E. rewrite bsize_succ by done. destruct Hd as [z Ez].
  assert (Z.testbit p (PAGE_SIZE_SHIFT + k) = Z.odd z) as ->.
  { rewrite Ez. unfold bsize. rewrite <- Z.shiftl_mul_pow2, Z.shiftl_spec, Z.sub_diag by lia.
    apply Z.bit0_odd. }
  destruct (Z.odd z) eqn:Ho.
  - apply Zodd_bool_iff, Zodd_ex in Ho as [w ->].
    rewrite Z.min_r by lia. split; [|right; lia]. exists w. lia.
  - rewrite Zodd_even_bool in Ho. apply negb_false_iff, Zeven_bool_iff, Zeven_ex in Ho as [w ->].
    rewrite Z.min_l by lia. split; [|left; lia]. exists w. lia.
Qed.

(** Below the order of its region, a block has its buddy in the region. *)
Lemma buddy_in_region R st p k m :
  regions_wf R st -> 0 <= k -> (bsize k | p) -> in_region R p k m -> k < m ->
  in_region R (Z.min p (Z.lxor p (bsize k))) (k + 1) m.
Proof using cfg_ok.
  intros W Hk Hd (b & Hb & H1 & H2) Hkm.
  destruct (r_shape _ _ W b m Hb) as (Hm & Hdb & Hb0 & _).
  pose proof (bsize_pos k Hk) as Hpos. pose proof shift_range.
  destruct (buddy_arith p k Hk) as [Hlo Hcase]; [lia|done|]. cbv zeta in *.
  set (q := Z.lxor p (bsize k)) in *. set (lo := Z.min p q) in *.
  assert (bsize (k + 1) | bsize m) as Hkd.
  { unfold bsize. exists (2 ^ (m - (k + 1))). rewrite <- Z.pow_add_r by lia. f_equal. lia. }
  assert (bsize (k + 1) | b) as Hb1 by (by eapply Z.divide_trans).
  rewrite bsize_succ in * by done.
  destruct Hlo as [x Hx], Hb1 as [y Hy], Hkd as [w Hw].
  exists b. split; [done|]. rewrite bsize_succ by done.
  assert (y <= x) by nia. assert (x < y + w) by nia. nia.
Qed.
End Invariant.
