(* ===== verification/BuddySpec.v ===== *)
(** * What the buddy allocator guarantees

    Specifications of [buddy_allocate] and [buddy_free] over the ghost map of
    blocks, for every state that satisfies the invariant. *)

From S2P Require Import Prelude LList Pfndb Buddy BuddyInv.
#[local] Open Scope Z_scope.

Section Operations.
Context `{cfg_ok : kconfig_ok}.
Implicit Types (R : regions) (B : blocks) (st : buddy_state).

Definition buddy_inv R st B : Prop := exists xss, binv R st B xss.

(** Address [a] lies in a block with status [s]. *)
Definition covers B (s : bstatus) (a : Z) : Prop :=
  exists p k, B !! p = Some (k, s) /\ in_block p k a.

(** [p] is the only block in the hands of the running operation. *)
Definition only_hole B (p : Z) : Prop := forall q j, B !! q = Some (j, BHole) -> q = p.

(** Between operations there is none. *)
Definition settled B : Prop := forall q j, B !! q <> Some (j, BHole).

Definition same_allocs B B' : Prop :=
  forall q j, B' !! q = Some (j, BAlloc) <-> B !! q = Some (j, BAlloc).

Lemma covers_insert B p k s t a :
  covers (<[p := (k, s)]> B) t a <-> (s = t /\ in_block p k a) \/ covers (delete p B) t a.
Proof using Type.
  split.
  - intros (q & j & Hq & Ha). destruct (decide (p = q)) as [<-|].
    + rewrite lookup_insert_eq in Hq. injection Hq as <- <-. by left.
    + rewrite lookup_insert_ne in Hq by done. right. exists q, j. by rewrite lookup_delete_ne.
  - intros [[-> Ha]|(q & j & Hq & Ha)]; [exists p, k; by rewrite lookup_insert_eq|].
    apply lookup_delete_Some in Hq as [Hne Hq]. exists q, j. by rewrite lookup_insert_ne.
Qed.

Lemma covers_delete B p k s t a :
  B !! p = Some (k, s) -> covers B t a <-> (s = t /\ in_block p k a) \/ covers (delete p B) t a.
Proof using Type. intros Hp. rewrite <- covers_insert. by rewrite insert_id. Qed.

Lemma covers_delete_ne B p k s t a :
  B !! p = Some (k, s) -> s <> t -> covers (delete p B) t a <-> covers B t a.
Proof using Type. intros Hp Hs. rewrite (covers_delete B p k s t a Hp). tauto. Qed.

(** The part of a restatused block. *)
Lemma covers_restatus B p k s s' t a :
  B !! p = Some (k, s) -> s <> t ->
  covers (<[p := (k, s')]> B) t a <-> (s' = t /\ in_block p k a) \/ covers B t a.
Proof using Type. intros Hp Hs. by rewrite covers_insert, (covers_delete_ne _ _ _ _ _ _ Hp Hs). Qed.

Lemma same_allocs_refl B : same_allocs B B.
Proof using Type. done. Qed.

Lemma same_allocs_trans B1 B2 B3 : same_allocs B1 B2 -> same_allocs B2 B3 -> same_allocs B1 B3.
Proof using Type. intros H1 H2 q j. by rewrite (H2 q j). Qed.

Lemma same_allocs_insert B p k s j t :
  B !! p = Some (k, s) -> s <> BAlloc -> t <> BAlloc -> same_allocs B (<[p := (j, t)]> B).
Proof using Type.
  intros Hp Hs Ht q i. rewrite lookup_insert. case_decide; [subst|done]. naive_solver.
Qed.

Lemma same_allocs_new B p j t :
  B !! p = None -> t <> BAlloc -> same_allocs B (<[p := (j, t)]> B).
Proof using Type.
  intros Hp Ht q i. rewrite lookup_insert. case_decide; [subst|done]. naive_solver.
Qed.

Lemma same_allocs_delete B p k s :
  B !! p = Some (k, s) -> s <> BAlloc -> same_allocs B (delete p B).
Proof using Type. intros Hp Hs q i. rewrite lookup_delete_Some. naive_solver. Qed.

(** ** List operations on the ghost map *)

Lemma inv_order_list R st B xss k :
  binv R st B xss -> 0 <= k <= MAX_ORDER -> exists xs, xss !! Z.to_nat k = Some xs.
Proof using Type.
  intros I Hk. apply lookup_lt_is_Some. rewrite (i_len _ _ _ _ I). unfold MAX_ORDER in Hk. lia.
Qed.

Lemma inv_entry R st B p k s :
  buddy_inv R st B -> B !! p = Some (k, s) ->
  exists m, in_region R p k m /\ entry_ok st p k m s.
Proof using Type. intros [xss I] Hp. by destruct (i_block _ _ _ _ I _ _ _ Hp) as (_ & _ & ?). Qed.

Lemma inv_block R st B p k s :
  buddy_inv R st B -> B !! p = Some (k, s) ->
  0 <= k <= MAX_ORDER /\ (bsize k | p) /\ page_aligned p /\ hhdm_mapped p /\ 0 < p.
Proof using cfg_ok. intros [xss I]. by apply block_facts with (1 := I). Qed.

Lemma pop_order_ok R st B k :
  buddy_inv R st B -> 0 <= k <= MAX_ORDER ->
  exists n st', pop_order st k = Ok (n, st') /\ frames st' = frames st /\
    ((n = 0 /\ buddy_inv R st' B /\ forall p, B !! p <> Some (k, BFree)) \/
     (exists p, n = TO_HHDM p /\ n <> 0 /\ B !! p = Some (k, BFree) /\
        buddy_inv R st' (<[p := (k, BHole)]> B))).
Proof using cfg_ok.
  intros [xss I] Hk. destruct (inv_order_list _ _ _ _ _ I Hk) as [xs Hxs].
  destruct (arr_pop_rep _ _ _ k xs (i_lists _ _ _ _ I)) as (ls' & h' & E & L & M); [lia|done|].
  exists (first_or 0 xs), (BuddyState ls' h' (frames st)). unfold pop_order. rewrite E, bind_Ok.
  split_and!; [done..|]. pose proof (i_free _ _ _ _ I) as F.
  destruct xs as [|x xs]; cbn [first_or] in *.
  - left. split_and!; [done| |].
    + exists xss. rewrite list_insert_id in L by done. destruct I as [W _ N F' Bk D T].
      split; auto. by apply (regions_wf_mem _ st (BuddyState ls' h' (frames st)) _ eq_refl M).
    + intros p Hp. assert (TO_HHDM p ∈ ([] : list Z)) as Hin; [|by apply not_elem_of_nil in Hin].
      apply (F _ _ _ Hxs). exists p. by rewrite Z2Nat.id by lia.
  - right. destruct (proj1 (F _ _ x Hxs)) as (p & -> & Hp); [by left|].
    rewrite Z2Nat.id in Hp by lia. exists p.
    destruct (block_facts _ _ _ _ _ _ _ I Hp) as (_ & _ & _ & Hm & _).
    split_and!; [done|by apply TO_HHDM_nonnull|done|].
    exists (<[Z.to_nat k := xs]> xss). by apply (binv_unlink R st B xss p k [] xs).
Qed.

Lemma delete_order_ok R st B p k :
  buddy_inv R st B -> B !! p = Some (k, BFree) ->
  exists st', delete_order st k (TO_HHDM p) = Ok st' /\ frames st' = frames st /\
    buddy_inv R st' (<[p := (k, BHole)]> B).
Proof using cfg_ok.
  intros [xss I] Hp. destruct (block_facts _ _ _ _ _ _ _ I Hp) as (Hk & _).
  destruct (inv_order_list _ _ _ _ _ I Hk) as [xs Hxs].
  assert (TO_HHDM p ∈ xs) as Hin.
  { apply (i_free _ _ _ _ I _ _ _ Hxs). exists p. by rewrite Z2Nat.id by lia. }
  apply list_elem_of_split in Hin as (xs1 & xs2 & ->).
  destruct (arr_delete_rep _ _ _ k _ (i_lists _ _ _ _ I) ltac:(lia) Hxs _ xs1 xs2 eq_refl)
    as (ls' & h' & E & L & M).
  exists (BuddyState ls' h' (frames st)). unfold delete_order. rewrite E, bind_Ok.
  split_and!; [done..|]. eexists. by apply binv_unlink.
Qed.

Lemma push_order_ok R st B p k pg :
  buddy_inv R st B -> B !! p = Some (k, BHole) ->
  frames st !! pfndb_get_entry p = Some pg -> type pg = PFNDB_PAGE_FREE ->
  GET_CUR_ORDER (order pg) = k ->
  exists st', push_order st k (TO_HHDM p) = Ok st' /\ frames st' = frames st /\
    dom (mem st') = dom (mem st) /\ buddy_inv R st' (<[p := (k, BFree)]> B).
Proof using cfg_ok.
  intros [xss I] Hp Hpg Hty Hcur. destruct (block_facts _ _ _ _ _ _ _ I Hp) as (Hk & _ & Hal & Hm & _).
  destruct (inv_order_list _ _ _ _ _ I Hk) as [xs Hxs].
  destruct (i_block _ _ _ _ I _ _ _ Hp) as (_ & _ & m & (b & Hb & H1 & H2) & _).
  pose proof (bsize_pos k (proj1 Hk)).
  destruct (arr_push_rep _ _ _ k _ (i_lists _ _ _ _ I) ltac:(lia) Hxs (TO_HHDM p))
    as (ls' & h' & E & L & M).
  - by eapply not_in_lists.
  - by apply TO_HHDM_nonnull.
  - apply (r_mapped _ _ (i_regions _ _ _ _ I) b m); [done| |done]. unfold in_block. lia.
  - exists (BuddyState ls' h' (frames st)). unfold push_order. rewrite E, bind_Ok.
    split_and!; [done|done|by destruct M|]. eexists. by eapply binv_link.
Qed.

(** Changing the entry of the block in hand. *)
Lemma hole_entry_ok R st B p k f :
  buddy_inv R st B -> B !! p = Some (k, BHole) ->
  (forall pg, GET_MAX_ORDER (order (f pg)) = GET_MAX_ORDER (order pg)) ->
  exists pg, frames st !! pfndb_get_entry p = Some pg /\
    update_entry st p f = Ok (with_entry st p (f pg)) /\ buddy_inv R (with_entry st p (f pg)) B.
Proof using cfg_ok.
  intros I Hp Hf. destruct (inv_entry _ _ _ _ _ _ I Hp) as (m & _ & pg & Hpg & _).
  exists pg. split_and!; [done|by apply update_entry_Ok|].
  destruct I as [xss I]. exists xss. by eapply binv_hole_entry.
Qed.

(** Two changes of an entry are one. *)
Lemma update_update {A} st p f g (K : buddy_state -> res A) :
  (st1 ← update_entry st p f; st2 ← update_entry st1 p g; K st2) =
  (st2 ← update_entry st p (fun pg => g (f pg)); K st2).
Proof using Type.
  unfold update_entry, load, store.
  destruct (frames st !! pfndb_get_entry p) as [pg|] eqn:E; [|done].
  cbn. rewrite lookup_insert_eq. cbn. rewrite ?lookup_insert_eq. cbn.
  by rewrite insert_insert_eq.
Qed.

Lemma only_hole_restatus B p j t :
  t <> BHole -> only_hole B p -> settled (<[p := (j, t)]> B).
Proof using Type.
  intros Ht H q i Hq. rewrite lookup_insert in Hq. case_decide; simplify_eq. by apply H in Hq.
Qed.

Lemma only_hole_insert B p k s :
  settled B -> only_hole (<[p := (k, s)]> B) p.
Proof using Type.
  intros HS q j Hq. rewrite lookup_insert in Hq. case_decide; [done|]. by apply HS in Hq.
Qed.

(** One turn of the splitting loop. *)
Lemma split_step R st B p c mo :
  buddy_inv R st B -> 0 <= c -> B !! p = Some (c + 1, BHole) ->
  (forall pg, frames st !! pfndb_get_entry p = Some pg -> GET_MAX_ORDER (order pg) = mo) ->
  exists st',
    (st ← update_entry st (p + bsize c) (fun pg => set_type pg PFNDB_PAGE_FREE);
     st ← update_entry st (p + bsize c) (fun pg => set_order pg (SET_MAX_ORDER (order pg) mo));
     st ← update_entry st (p + bsize c) (fun pg => set_order pg (SET_CUR_ORDER (order pg) c));
     push_order st c (TO_HHDM (p + bsize c))) = Ok st' /\
    buddy_inv R st' (<[p + bsize c := (c, BFree)]> (split_blocks B p c)) /\
    frames st' !! pfndb_get_entry p = frames st !! pfndb_get_entry p.
Proof using cfg_ok.
  intros I Hc Hp Hmo. pose proof (bsize_pos c Hc) as Hpos. pose proof (bsize_succ c Hc) as Hsz.
  destruct (inv_block _ _ _ _ _ _ I Hp) as ([_ Hc'] & Hdp & Hal & _).
  destruct (inv_entry _ _ _ _ _ _ I Hp) as (m & Hr & pg & Hpg & Hm & _).
  assert (m = mo) as -> by (specialize (Hmo _ Hpg); congruence). unfold MAX_ORDER in Hc'.
  destruct I as [xss I]. pose proof (i_regions _ _ _ _ I) as W.
  assert (page_aligned (p + bsize c)) as Haq.
  { apply (bsize_page_aligned c); [done|]. apply Z.divide_add_r; [|apply Z.divide_refl].
    apply (Z.divide_trans _ (bsize (c + 1))); [|done]. rewrite Hsz. apply Z.divide_factor_r. }
  assert (0 <= mo < 16) as Hmo16.
  { destruct (region_facts _ _ _ _ _ W (proj1 (i_block _ _ _ _ I _ _ _ Hp)) Hr). unfold MAX_ORDER in *. lia. }
  assert (is_Some (frames st !! pfndb_get_entry (p + bsize c))) as [pgq Hpgq].
  { destruct Hr as (b & Hb & ? & ?). apply (r_mapped _ _ W b mo); [done| |done]. unfold in_block. lia. }
  rewrite !update_update, (update_entry_Ok _ _ _ _ Hpgq), bind_Ok. cbn.
  set (pg' := set_order _ _). set (B1 := split_blocks B p c).
  assert (buddy_inv R (with_entry st (p + bsize c) pg') B1) as I1.
  { exists xss. apply binv_split; [done..|]. intros pg0 Hpg0. cbn.
    rewrite get_max_set_cur, get_max_set_max by lia. symmetry. auto. }
  destruct (push_order_ok _ _ _ (p + bsize c) c pg' I1) as (st' & E & F & _ & I2).
  - unfold B1, split_blocks. rewrite lookup_insert_ne, lookup_insert_eq; [done|lia].
  - apply with_entry_same.
  - done.
  - cbn. apply get_cur_set_cur. lia.
  - exists st'. split_and!; [done|done|]. rewrite F, with_entry_other; auto. lia.
Qed.

(** The ghost map after splitting [p] from order [c] down to [k]. *)
Record split_result R st B p c k st' B' : Prop := {
  sp_inv : buddy_inv R st' B';
  sp_head : B' !! p = Some (k, BHole);
  sp_hole : only_hole B p -> only_hole B' p;
  sp_entry : frames st' !! pfndb_get_entry p = frames st !! pfndb_get_entry p;
  sp_allocs : same_allocs B B';
  sp_covers : forall a, covers B' BFree a <->
    covers B BFree a \/ (in_block p c a /\ ~ in_block p k a);
  sp_free : forall q j, B' !! q = Some (j, BFree) ->
    B !! q = Some (j, BFree) \/ (k <= j < c /\ q = p + bsize j);
}.

Lemma split_down_ok R p mo k fuel : 0 <= k -> forall st B c,
  buddy_inv R st B -> k <= c -> (Z.to_nat (c - k) < fuel)%nat -> B !! p = Some (c, BHole) ->
  (forall pg, frames st !! pfndb_get_entry p = Some pg -> GET_MAX_ORDER (order pg) = mo) ->
  exists st' B', split_down fuel st (TO_HHDM p) mo c k = Ok (k, st') /\
    split_result R st B p c k st' B'.
Proof using cfg_ok.
  intros Hk. induction fuel as [|fuel IH]; intros st B c I Hkc Hf Hp Hmo; [lia|].
  cbn [split_down]. rewrite Z.gtb_ltb. destruct (Z.ltb_spec k c) as [Hlt|Hle].
  - set (d := c - 1). assert (0 <= d) as Hd by lia.
    replace c with (d + 1) in Hp by lia.
    destruct (inv_block _ _ _ _ _ _ I Hp) as ([_ Hc'] & _ & _ & Hm & _). unfold MAX_ORDER in Hc'.
    destruct (inv_entry _ _ _ _ _ _ I Hp) as (m & Hr & _).
    pose proof (bsize_pos d Hd) as Hpos. pose proof (bsize_succ d Hd) as Hsz.
    assert (hhdm_mapped (p + bsize d)) as Hm2.
    { pose proof I as [xss I']. destruct (region_facts R st p (d + 1) m (i_regions _ _ _ _ I') ltac:(lia) Hr)
        as (_ & _ & _ & ?). unfold hhdm_mapped in *. lia. }
    assert (u64 (TO_HHDM p + GET_ORDER_SIZE d) = TO_HHDM (p + bsize d)) as Eb.
    { rewrite GET_ORDER_SIZE_bsize by lia. unfold TO_HHDM, u64. rewrite Zplus_mod_idemp_l. f_equal. lia. }
    cbv zeta. rewrite Eb, FROM_TO_HHDM by (by apply hhdm_mapped_u64).
    destruct (split_step _ _ _ _ _ mo I Hd Hp Hmo) as (st1 & E1 & I1 & Hst1).
    set (q := p + bsize d) in *. set (B1 := <[q := (d, BFree)]> (split_blocks B p d)) in *.
    assert (p <> q) as Hpq by (unfold q; lia).
    assert (B !! q = None) as Hq.
    { destruct (B !! q) as [[j t]|] eqn:Hq; [|done]. destruct I as [xss I].
      pose proof (bsize_pos j (proj1 (i_block _ _ _ _ I _ _ _ Hq))).
      destruct (i_disj _ _ _ _ I _ _ _ _ _ _ Hp Hq Hpq); unfold q in *; lia. }
    assert (B1 !! p = Some (d, BHole)) as Hp1.
    { unfold B1, split_blocks. by rewrite lookup_insert_ne, lookup_insert_eq. }
    destruct (IH st1 B1 d I1) as (st2 & B2 & E2 & [I2 H2 O2 F2 A2 C2 R2]); [lia|lia|done| |].
    { intros pg. rewrite Hst1. auto. }
    exists st2, B2. split.
    + rewrite <- E2. revert E1. cbn. destruct (update_entry _ _ _); try done. cbn.
      destruct (update_entry _ _ _); try done. cbn. destruct (update_entry _ _ _); try done. cbn.
      by intros ->.
    + split; auto.
      * intros HO. apply O2. intros q' j. unfold B1, split_blocks. fold q.
        rewrite !lookup_insert. repeat case_decide; intros E; simplify_eq; eauto.
      * congruence.
      * apply same_allocs_trans with B1; [|done]. unfold B1, split_blocks. fold q. intros q' j.
        rewrite !lookup_insert. repeat case_decide; simplify_eq; naive_solver.
      * intros a. rewrite C2. unfold B1, split_blocks. fold q.
        rewrite covers_insert. rewrite delete_insert_ne, delete_insert_eq by done.
        rewrite covers_insert. rewrite (delete_id B q) by done.
        rewrite (covers_delete_ne B p (d + 1) BHole) by done.
        replace c with (d + 1) by lia. unfold in_block. rewrite Hsz. fold q.
        pose proof (bsize_mono k d ltac:(lia)). unfold q. split.
        -- intros [[[_ ?]|[[? _]|?]]|?]; [right; lia|done|by left|right; lia].
        -- intros [?|[? ?]]; [by left; right; right|].
           destruct (Z.lt_ge_cases a (p + bsize d)); [right; lia|left; left; split; [done|lia]].
      * intros q' j Hq'. apply R2 in Hq' as [Hq'|[? ->]]; [|right; split; [lia|done]].
        revert Hq'. unfold B1, split_blocks. fold q. rewrite !lookup_insert.
        repeat case_decide; intros E; simplify_eq; auto. right. split; [lia|done].
  - assert (c = k) as -> by lia. exists st, B. split; [done|].
    split; auto; [done|]. intros a. tauto.
Qed.

(** The search pops the smallest larger order that has a free block. *)
Lemma find_larger_ok R B fuel : forall st c,
  buddy_inv R st B -> 0 <= c -> (Z.to_nat (MAX_ORDER + 1 - c) < fuel)%nat ->
  exists n c' st', find_larger fuel st c = Ok (n, c', st') /\ frames st' = frames st /\
    ((n = 0 /\ buddy_inv R st' B /\ forall p j, B !! p = Some (j, BFree) -> j < c) \/
     (exists p, n = TO_HHDM p /\ n <> 0 /\ c <= c' <= MAX_ORDER /\ B !! p = Some (c', BFree) /\
        buddy_inv R st' (<[p := (c', BHole)]> B))).
Proof using cfg_ok.
  induction fuel as [|fuel IH]; intros st c I Hc Hf; [lia|]. cbn [find_larger].
  destruct (Z.leb_spec c MAX_ORDER) as [Hle|Hgt].
  - destruct (pop_order_ok _ _ _ c I) as (n & st1 & E & F & [(-> & I1 & Hno)|(p & -> & Hn & Hp & I1)]);
      [lia| |]; rewrite E, bind_Ok.
    + cbn [Z.eqb]. destruct (IH st1 (c + 1) I1) as (n & c' & st' & E' & F' & H); [lia|lia|].
      exists n, c', st'. split_and!; [done|congruence|].
      destruct H as [(-> & I2 & Hlow)|(p & -> & Hn & ? & Hp & I2)].
      * left. split_and!; [done|done|]. intros p j Hp. specialize (Hlow p j Hp).
        destruct (decide (j = c)) as [->|]; [by destruct (Hno p)|lia].
      * right. exists p. split_and!; [done|done|lia|lia|done..].
    + rewrite (proj2 (Z.eqb_neq _ _) Hn). exists (TO_HHDM p), c, st1.
      split_and!; [done|done|]. right. exists p. split_and!; done || lia.
  - exists 0, c, st. split_and!; [done|done|]. left. split_and!; [done|done|].
    intros p j Hp. pose proof (inv_block _ _ _ _ _ _ I Hp). lia.
Qed.

(** What a successful allocation of order [k] at [p] does to the block map. *)
Record alloc_post B p k B' : Prop := {
  al_new : B' !! p = Some (k, BAlloc);
  al_was_free : forall a, in_block p k a -> covers B BFree a;
  al_free : forall a, covers B' BFree a <-> covers B BFree a /\ ~ in_block p k a;
  al_others : forall q j, q <> p -> B' !! q = Some (j, BAlloc) <-> B !! q = Some (j, BAlloc);
  al_settled : settled B';
  al_origin : exists c, k <= c /\ B !! p = Some (c, BFree) /\
    forall q j, B' !! q = Some (j, BFree) ->
      (B !! q = Some (j, BFree) /\ q <> p) \/ (k <= j < c /\ q = p + bsize j);
}.

(** The status change that ends an allocation. *)
Lemma alloc_finish R st B p k pg :
  buddy_inv R st B -> B !! p = Some (k, BHole) -> frames st !! pfndb_get_entry p = Some pg ->
  type pg <> PFNDB_PAGE_FREE -> buddy_inv R st (<[p := (k, BAlloc)]> B).
Proof using Type.
  intros [xss I] Hp Hpg Hty. exists xss. eapply binv_restatus; [done..|]. intros _ pg' ?. congruence.
Qed.

(** A block outside the free memory is disjoint from all of it. *)
Lemma free_not_in_hole R st B p k s a :
  buddy_inv R st B -> B !! p = Some (k, s) -> in_block p k a -> s <> BFree -> ~ covers B BFree a.
Proof using Type.
  intros [xss I] Hp Ha Hs (q & j & Hq & Haq).
  assert (p = q) as <- by (by eapply block_unique). congruence.
Qed.

Lemma allocate_split R st B p c k st' mo :
  settled B -> B !! p = Some (c, BFree) -> 0 <= k -> k < c <= MAX_ORDER ->
  buddy_inv R st (<[p := (c, BHole)]> B) ->
  frames st = frames st' -> buddy_inv R st' B ->
  (forall pg, frames st !! pfndb_get_entry p = Some pg -> GET_MAX_ORDER (order pg) = mo) ->
  exists st2 B', 
    ('(corder, st) ← split_down order_fuel st (TO_HHDM p) mo c k;
     main_entry ← load (frames st) (pfndb_get_entry (FROM_HHDM (TO_HHDM p)));
     _ ← assert (bool_decide (type main_entry = PFNDB_PAGE_FREE));
     st ← update_entry st (FROM_HHDM (TO_HHDM p)) (fun pg => set_type pg PFNDB_PAGE_ALLOCATED);
     st ← update_entry st (FROM_HHDM (TO_HHDM p))
             (fun pg => set_order pg (SET_CUR_ORDER (order pg) corder));
     Ok (FROM_HHDM (TO_HHDM p), st)) = Ok (p, st2) /\
    buddy_inv R st2 B' /\ alloc_post B p k B'.
Proof using cfg_ok.
  intros HS Hp Hk Hkc I HF I0 Hmo. set (B1 := <[p := (c, BHole)]> B) in *.
  assert (B1 !! p = Some (c, BHole)) as Hp1 by apply lookup_insert_eq.
  destruct (inv_block _ _ _ _ _ _ I Hp1) as (_ & _ & _ & Hm & _).
  rewrite FROM_TO_HHDM by (by apply hhdm_mapped_u64). unfold MAX_ORDER in Hkc.
  destruct (split_down_ok R p mo k order_fuel Hk st B1 c I) as (st1 & B2 & E & [I2 H2 O2 F2 A2 C2 R2]);
    [lia|unfold order_fuel; lia|done|done|].
  rewrite E, bind_Ok.
  destruct (inv_entry _ _ _ _ _ _ I0 Hp) as (m & _ & pg & Hpg & _ & Hfree & _).
  destruct (Hfree eq_refl) as [Hty _].
  assert (frames st1 !! pfndb_get_entry p = Some pg) as Hpg1 by (rewrite F2, HF; done).
  rewrite (load_Ok _ _ _ Hpg1), bind_Ok, assert_true, bind_Ok, update_update by (by apply bool_decide_eq_true_2).
  destruct (hole_entry_ok R st1 B2 p k (fun pg => set_order (set_type pg PFNDB_PAGE_ALLOCATED)
    (SET_CUR_ORDER (order (set_type pg PFNDB_PAGE_ALLOCATED)) k))) as (pg' & Hpg' & E' & I3); auto.
  { intros pg0. cbn. apply get_max_set_cur. lia. }
  rewrite E', bind_Ok. eexists _, (<[p := (k, BAlloc)]> B2). split; [done|]. split.
  - eapply alloc_finish; [done..|apply with_entry_same|done].
  - assert (forall a, covers B1 BFree a <-> covers B BFree a /\ ~ in_block p c a) as HB1.
    { intros a. unfold B1. rewrite covers_insert, (covers_delete B p c BFree BFree a Hp). split.
      - intros [[? _]|Ha]; [done|]. split; [by right|]. intros Hin.
        eapply (free_not_in_hole R st B1 p c BHole a); eauto.
        unfold B1. rewrite covers_insert. by right.
      - tauto. }
    pose proof (bsize_mono k c ltac:(lia)) as Hmono.
    split.
    + apply lookup_insert_eq.
    + intros a Ha. exists p, c. split; [done|]. unfold in_block in *. lia.
    + intros a. rewrite (covers_restatus B2 p k BHole) by done. rewrite C2, HB1.
      assert (in_block p k a -> in_block p c a) as Hsub by (unfold in_block; lia).
      destruct (decide (p <= a < p + bsize c)) as [Hin|Hin]; fold (in_block p c a) in Hin.
      * assert (covers B BFree a) by (by exists p, c). intuition congruence.
      * intuition congruence.
    + intros q j Hq. rewrite lookup_insert_ne by done. rewrite (A2 q j). unfold B1. by rewrite lookup_insert_ne.
    + apply only_hole_restatus; [done|]. apply O2. by apply only_hole_insert.
    + exists c. split_and!; [lia|done|]. intros q j Hq.
      destruct (decide (p = q)) as [<-|Hne]; [by rewrite lookup_insert_eq in Hq|].
      rewrite lookup_insert_ne in Hq by done. apply R2 in Hq as [Hq|Hq]; [|by right].
      left. unfold B1 in Hq. by rewrite lookup_insert_ne in Hq.
Qed.


Definition allocate_spec R st B k fl : Prop :=
  (exists p st' B', buddy_allocate st k fl = Ok (p, st') /\ p <> 0 /\
     buddy_inv R st' B' /\ alloc_post B p k B') \/
  ((forall p j, B !! p = Some (j, BFree) -> j < k) /\
   if Z.land fl ALLOC_FLAG_NOFAIL =? 0
   then exists st', buddy_allocate st k fl = Ok (0, st') /\ buddy_inv R st' B
   else buddy_allocate st k fl = Panic).

Lemma allocate_ok R st B k fl :
  buddy_inv R st B -> settled B -> 0 <= k <= MAX_ORDER -> allocate_spec R st B k fl.
Proof using cfg_ok.
  intros I HS Hk. unfold allocate_spec, buddy_allocate.
  destruct (pop_order_ok _ _ _ k I Hk) as (n & st1 & E & F & [(-> & I1 & Hno)|(p & -> & Hn & Hp & I1)]);
    rewrite E, bind_Ok.
  - cbn [Z.eqb negb].
    destruct (find_larger_ok R B order_fuel st1 (k + 1) I1) as (n & c & st2 & E2 & F2 & H);
      [lia|unfold order_fuel, MAX_ORDER; lia|]. rewrite E2, bind_Ok.
    destruct H as [(-> & I2 & Hlow)|(p & -> & Hn & Hc & Hp & I2)].
    + right. cbn [Z.eqb]. split.
      * intros p j Hp. specialize (Hlow p j Hp). destruct (decide (j = k)) as [->|]; [by destruct (Hno p)|lia].
      * destruct (Z.land fl ALLOC_FLAG_NOFAIL =? 0); cbn [negb]; [by exists st2|done].
    + left. rewrite (proj2 (Z.eqb_neq _ _) Hn). exists p.
      destruct (inv_block _ _ _ _ _ _ I Hp) as (_ & _ & _ & Hm & Hp0).
      destruct (inv_entry _ _ _ _ _ _ I Hp) as (m & _ & pg & Hpg & Hmax & _).
      rewrite <- F, <- F2 in Hpg. cbv zeta.
      rewrite <- (FROM_TO_HHDM p) in Hpg by (by apply hhdm_mapped_u64).
      rewrite (load_Ok _ _ _ Hpg), bind_Ok.
      rewrite FROM_TO_HHDM in Hpg by (by apply hhdm_mapped_u64).
      destruct (allocate_split R st2 B p c k st1 (GET_MAX_ORDER (order pg))) as (st3 & B' & E3 & I3 & P);
        auto; [lia|lia|by intros pg' ?; simplify_eq|].
      exists st3, B'. split_and!; [exact E3|lia|done..].
  - left. rewrite (proj2 (Z.eqb_neq _ _) Hn). cbn [negb]. exists p.
    destruct (inv_block _ _ _ _ _ _ I Hp) as (_ & _ & _ & Hm & Hp0).
    rewrite FROM_TO_HHDM by (by apply hhdm_mapped_u64).
    pose proof (lookup_insert_eq B p (k, BHole)) as Hp1.
    destruct (hole_entry_ok R st1 _ p k (fun pg => set_type pg PFNDB_PAGE_ALLOCATED) I1 Hp1)
      as (pg & Hpg & E2 & I2); [done|]. rewrite E2, bind_Ok.
    eexists _, (<[p := (k, BAlloc)]> (<[p := (k, BHole)]> B)).
    split_and!; [done|lia|eapply alloc_finish; [done..|apply with_entry_same|done]|].
    rewrite insert_insert_eq. split.
    + apply lookup_insert_eq.
    + intros a Ha. by exists p, k.
    + intros a. rewrite covers_insert, (covers_delete B p k BFree BFree a Hp). split.
      * intros [[? _]|Ha]; [done|]. split; [by right|]. intros Hin.
        eapply (free_not_in_hole R st1 _ p k BHole a); eauto. rewrite covers_insert. by right.
      * tauto.
    + intros q j Hq. by rewrite lookup_insert_ne.
    + intros q j Hq. rewrite lookup_insert in Hq. case_decide; [done|]. by apply HS in Hq.
    + exists k. split_and!; [lia|done|]. intros q j Hq. left.
      rewrite lookup_insert in Hq. case_decide; [done|]. by split.
Qed.

(** ** Freeing *)

Lemma coalesce_step R st B p c m :
  buddy_inv R st B -> B !! p = Some (c, BHole) -> in_region R p c m -> c < m ->
  (forall pg, frames st !! pfndb_get_entry p = Some pg -> type pg <> PFNDB_PAGE_FREE) ->
  let q := Z.lxor p (bsize c) in
  B !! q = Some (c, BFree) ->
  exists st', 
    (st ← delete_order st c (TO_HHDM q);
     update_entry st q (fun pg => set_type pg PFNDB_PAGE_ALLOCATED)) = Ok st' /\
    let lo := Z.min p q in
    buddy_inv R st' (merge_blocks (<[q := (c, BHole)]> B) lo c) /\
    (forall pg, frames st' !! pfndb_get_entry lo = Some pg -> type pg <> PFNDB_PAGE_FREE).
Proof using cfg_ok.
  intros I Hp Hr Hcm Hty q Hq. cbv zeta.
  destruct (inv_block _ _ _ _ _ _ I Hp) as (Hc & Hd & Hal & _ & Hp0).
  destruct (inv_block _ _ _ _ _ _ I Hq) as (_ & _ & Halq & _ & _).
  assert (p <> q) as Hpq by congruence.
  destruct (delete_order_ok _ _ _ _ _ I Hq) as (st1 & E1 & F1 & I1). rewrite E1, bind_Ok.
  set (B1 := <[q := (c, BHole)]> B) in *.
  assert (B1 !! q = Some (c, BHole)) as Hq1 by apply lookup_insert_eq.
  assert (B1 !! p = Some (c, BHole)) as Hp1 by (unfold B1; rewrite lookup_insert_ne; done).
  destruct (hole_entry_ok R st1 B1 q c (fun pg => set_type pg PFNDB_PAGE_ALLOCATED) I1 Hq1)
    as (pg & Hpg & E2 & I2); [done|]. rewrite E2. eexists. split; [done|].
  set (st2 := with_entry _ _ _) in *.
  assert (forall x pg0, x = p \/ x = q -> frames st2 !! pfndb_get_entry x = Some pg0 ->
    type pg0 <> PFNDB_PAGE_FREE) as Hboth.
  { unfold st2. intros x pg0 [-> | ->].
    - rewrite with_entry_other, F1 by auto. apply Hty.
    - rewrite with_entry_same. by intros [= <-]. }
  destruct (buddy_arith p c) as [Hlo Hcase]; [lia|lia|done|]. cbv zeta in Hlo, Hcase. fold q in Hlo, Hcase.
  split.
  - destruct I2 as [xss I2]. exists xss. pose proof (i_regions _ _ _ _ I2) as W.
    assert (in_region R (Z.min p q) (c + 1) m) as Hr2
      by (eapply buddy_in_region; [done|lia|done..]).
    apply binv_merge; try done; try lia.
    + by destruct Hcase as [[<- _]|[<- _]].
    + by destruct Hcase as [[_ <-]|[_ <-]].
    + eauto.
    + intros pg0. apply Hboth. destruct Hcase as [[_ <-]|[_ <-]]; auto.
  - intros pg0. apply Hboth. destruct Hcase as [[<- _]|[<- _]]; auto.
Qed.

(** The ghost map after coalescing block [p] of order [c]. *)
Record coalesce_result R B p c p' c' st' B' : Prop := {
  co_inv : buddy_inv R st' B';
  co_head : B' !! p' = Some (c', BHole);
  co_hole : only_hole B' p';
  co_allocs : same_allocs B B';
  co_covers : forall a, in_block p' c' a \/ covers B' BFree a <-> in_block p c a \/ covers B BFree a;
  co_free : forall q j, B' !! q = Some (j, BFree) -> B !! q = Some (j, BFree);
  co_stop : forall m, in_region R p' c' m -> c' < m -> B' !! Z.lxor p' (bsize c') <> Some (c', BFree);
}.

Lemma merge_allocs B p c q :
  B !! p = Some (c, BHole) -> B !! q = Some (c, BFree) ->
  (p = Z.min p q /\ q = Z.min p q + bsize c) \/ (q = Z.min p q /\ p = Z.min p q + bsize c) ->
  same_allocs B (merge_blocks (<[q := (c, BHole)]> B) (Z.min p q) c).
Proof using Type.
  intros Hp Hq Hcase x j. set (lo := Z.min p q) in *. unfold merge_blocks.
  rewrite lookup_insert. case_decide as H1; [|rewrite lookup_delete; case_decide as H2].
  - destruct Hcase as [[E _]|[E _]]; rewrite <- E in H1; subst x; naive_solver.
  - destruct Hcase as [[_ E]|[_ E]]; rewrite <- E in H2; subst x; naive_solver.
  - rewrite lookup_insert_ne; [done|]. intros <-. destruct Hcase as [[_ E]|[E _]]; congruence.
Qed.

(** Merging moves the buddy from the free memory to the block in hand. *)
Lemma merge_free B p c q x j :
  B !! p = Some (c, BHole) -> B !! q = Some (c, BFree) ->
  (p = Z.min p q /\ q = Z.min p q + bsize c) \/ (q = Z.min p q /\ p = Z.min p q + bsize c) ->
  merge_blocks (<[q := (c, BHole)]> B) (Z.min p q) c !! x = Some (j, BFree) <->
  B !! x = Some (j, BFree) /\ x <> q.
Proof using Type.
  intros Hp Hq Hcase. set (lo := Z.min p q) in *. unfold merge_blocks.
  rewrite lookup_insert. case_decide as H1; [|rewrite lookup_delete; case_decide as H2].
  - destruct Hcase as [[E _]|[E _]]; rewrite <- E in H1; subst x; naive_solver.
  - destruct Hcase as [[_ E]|[_ E]]; rewrite <- E in H2; subst x; naive_solver.
  - assert (q <> x) by (intros <-; destruct Hcase as [[_ E]|[E _]]; congruence).
    rewrite lookup_insert_ne by done. naive_solver.
Qed.

Lemma merge_holes B p c q :
  only_hole B p ->
  (p = Z.min p q /\ q = Z.min p q + bsize c) \/ (q = Z.min p q /\ p = Z.min p q + bsize c) ->
  only_hole (merge_blocks (<[q := (c, BHole)]> B) (Z.min p q) c) (Z.min p q).
Proof using Type.
  intros HO Hcase x j. set (lo := Z.min p q) in *. unfold merge_blocks.
  rewrite lookup_insert. case_decide as H1; [done|]. rewrite lookup_delete_Some, lookup_insert.
  intros [H2 H3]. case_decide as H4.
  - subst x. destruct Hcase as [[_ E]|[E _]]; congruence.
  - apply HO in H3 as ->. destruct Hcase as [[E _]|[_ E]]; congruence.
Qed.

Lemma coalesce_ok R fuel : forall st B p c,
  buddy_inv R st B -> only_hole B p -> B !! p = Some (c, BHole) ->
  (Z.to_nat (MAX_ORDER - c) < fuel)%nat ->
  (forall pg, frames st !! pfndb_get_entry p = Some pg -> type pg <> PFNDB_PAGE_FREE) ->
  exists p' c' st' B', coalesce fuel st p c = Ok (p', c', st') /\
    coalesce_result R B p c p' c' st' B'.
Proof using cfg_ok.
  induction fuel as [|fuel IH]; intros st B p c I HO Hp Hf Hty; [lia|]. cbn [coalesce].
  destruct (inv_block _ _ _ _ _ _ I Hp) as (Hc & Hd & Hal & Hm & Hp0).
  destruct (inv_entry _ _ _ _ _ _ I Hp) as (m & Hr & pg & Hpg & Hmax & _).
  rewrite (load_Ok _ _ _ Hpg), bind_Ok, Hmax.
  assert (forall m', in_region R p c m' -> m' = m) as Hrm.
  { intros m' (b' & Hb' & ? & ?). destruct Hr as (b & Hb & ? & ?), I as [xss I].
    pose proof (bsize_pos c (proj1 Hc)).
    by destruct (r_disj _ _ (i_regions _ _ _ _ I) _ _ _ _ Hb' Hb) as [_ ->]; [lia|lia|]. }
  assert ((forall m', in_region R p c m' -> c < m' -> B !! Z.lxor p (bsize c) <> Some (c, BFree)) ->
    coalesce_result R B p c p c st B) as Hdone by (intros; split; done).
  assert (bsize_eq : GET_ORDER_SIZE c = bsize c).
  { apply GET_ORDER_SIZE_bsize. unfold MAX_ORDER in Hc. lia. }
  destruct (Z.ltb_spec c m) as [Hcm|Hge].
  2:{ exists p, c, st, B. split; [done|]. apply Hdone. intros m' H1 H2. rewrite (Hrm m' H1) in H2. lia. }
  cbv zeta. rewrite bsize_eq. set (q := Z.lxor p (bsize c)) in *.
  destruct (buddy_arith p c) as [Hlo Hcase]; [lia|lia|done|]. cbv zeta in Hlo, Hcase. fold q in Hlo, Hcase.
  pose proof (bsize_pos c (proj1 Hc)) as Hpos. pose proof (bsize_succ c (proj1 Hc)) as Hsz.
  assert (p <> q) as Hpq by lia.
  assert (is_Some (frames st !! pfndb_get_entry q) /\ page_aligned q) as [[pgq Hpgq] Halq].
  { destruct I as [xss I]. pose proof (i_regions _ _ _ _ I) as W.
    assert (page_aligned q) as Haq.
    { apply (bsize_page_aligned c); [lia|]. destruct Hd as [x Hx].
      destruct Hcase as [[??]|[??]]; [exists (x + 1)|exists (x - 1)]; lia. }
    split; [|done]. destruct (buddy_in_region R st p c m W) as (b & Hb & H1 & H2); [lia|done..|].
    fold q in H1, H2. apply (r_mapped _ _ W b m); [done| |done]. unfold in_block. lia. }
  rewrite (load_Ok _ _ _ Hpgq), bind_Ok.
  assert (B !! q = Some (c, BFree) -> type pgq = PFNDB_PAGE_FREE /\ GET_CUR_ORDER (order pgq) = c) as Hq1.
  { intros Hq. destruct (inv_entry _ _ _ _ _ _ I Hq) as (? & _ & pg' & E & _ & H & _). simplify_eq. auto. }
  case_bool_decide as Hfq; cbn [negb];
    [|exists p, c, st, B; split; [done|]; apply Hdone; intros ? _ _ Hq; by apply Hq1 in Hq as [? _]].
  destruct (Z.eqb_spec (GET_CUR_ORDER (order pgq)) c) as [Hcur|Hcur]; cbn [negb];
    [|exists p, c, st, B; split; [done|]; apply Hdone; intros ? _ _ Hq; by apply Hq1 in Hq as [_ ?]].
  assert (B !! q = Some (c, BFree)) as Hq.
  { destruct I as [xss I]. destruct (i_type _ _ _ _ I q pgq Halq Hpgq Hfq) as (j & s & Hq & Hs).
    destruct s; [|done|by apply HO in Hq].
    destruct (i_block _ _ _ _ I _ _ _ Hq) as (_ & _ & _ & _ & pg' & E & _ & H & _).
    simplify_eq. by destruct (H eq_refl) as [_ ->]. }
  destruct (coalesce_step R st B p c m I Hp Hr Hcm Hty Hq) as (st1 & E1 & I1 & Hty1). fold q in E1, I1, Hty1.
  set (lo := Z.min p q) in *. set (B1 := merge_blocks (<[q := (c, BHole)]> B) lo c) in *.
  assert (HB1 : B1 !! lo = Some (c + 1, BHole)) by apply lookup_insert_eq.
  destruct (inv_block _ _ _ _ _ _ I1 HB1) as (Hc1 & _).
  destruct (IH st1 B1 lo (c + 1) I1) as (p' & c' & st2 & B2 & E2 & [R1 R2 R3 R4 R5 R6 R7]); auto.
  { by apply merge_holes. }
  { lia. }
  exists p', c', st2, B2. split.
  - rewrite <- E2. replace (if q <? p then q else p) with lo
      by (unfold lo; destruct (Z.ltb_spec q p); lia).
    revert E1. destruct (delete_order _ _ _); try done. cbn. by intros ->.
  - split; auto.
    + apply same_allocs_trans with B1; [by apply merge_allocs|done].
    + intros a. rewrite R5.
      assert (covers B1 BFree a <-> covers (delete q B) BFree a) as ->.
      { apply exist_proper; intros x. apply exist_proper; intros j.
        unfold B1, lo. rewrite merge_free by done. rewrite lookup_delete_Some. intuition congruence. }
      rewrite (covers_delete B q c BFree BFree a Hq). unfold in_block. rewrite Hsz.
      assert (lo <= a < lo + 2 * bsize c <-> p <= a < p + bsize c \/ q <= a < q + bsize c) by lia.
      tauto.
    + intros x j Hx. apply R6 in Hx. unfold B1, lo in Hx. apply merge_free in Hx; tauto.
Qed.

(** What freeing block [p] of order [k] does to the block map. *)
Record free_post R B p k B' : Prop := {
  fr_free : forall a, covers B' BFree a <-> covers B BFree a \/ in_block p k a;
  fr_allocs : forall q j, B' !! q = Some (j, BAlloc) <-> B !! q = Some (j, BAlloc) /\ q <> p;
  fr_settled : settled B';
  fr_new : exists p' c, B' !! p' = Some (c, BFree) /\
    (forall m, in_region R p' c m -> c < m -> B' !! Z.lxor p' (bsize c) <> Some (c, BFree)) /\
    (forall q j, B' !! q = Some (j, BFree) -> q = p' \/ B !! q = Some (j, BFree));
}.

Lemma free_ok R st B p k :
  buddy_inv R st B -> settled B -> B !! p = Some (k, BAlloc) ->
  exists st' B', buddy_free st p k = Ok st' /\ buddy_inv R st' B' /\ free_post R B p k B'.
Proof using cfg_ok.
  intros I HS Hp. unfold buddy_free.
  destruct (inv_block _ _ _ _ _ _ I Hp) as (Hk & _).
  destruct (inv_entry _ _ _ _ _ _ I Hp) as (m & _ & pg & Hpg & _ & _ & Hty).
  set (B0 := <[p := (k, BHole)]> B).
  assert (buddy_inv R st B0) as I0.
  { destruct I as [xss I]. exists xss. by eapply binv_restatus. }
  destruct (coalesce_ok R order_fuel st B0 p k I0) as (p' & c & st1 & B1 & E1 & [R1 R2 R3 R4 R5 R6 R7]).
  { by apply only_hole_insert. }
  { apply lookup_insert_eq. }
  { unfold order_fuel, MAX_ORDER. lia. }
  { intros pg' Hpg'. simplify_eq. auto. }
  rewrite E1, bind_Ok, update_update.
  destruct (inv_block _ _ _ _ _ _ R1 R2) as (Hc & _ & _ & _). unfold MAX_ORDER in Hc.
  destruct (hole_entry_ok R st1 B1 p' c (fun pg => set_order (set_type pg PFNDB_PAGE_FREE)
    (SET_CUR_ORDER (order (set_type pg PFNDB_PAGE_FREE)) c)) R1 R2) as (pg2 & Hpg2 & E2 & I2).
  { intros pg'. cbn. apply get_max_set_cur. lia. }
  rewrite E2, bind_Ok.
  destruct (push_order_ok R _ B1 p' c _ I2 R2 (with_entry_same _ _ _)) as (st3 & E3 & _ & _ & I3).
  { done. }
  { cbn. apply get_cur_set_cur. lia. }
  exists st3, (<[p' := (c, BFree)]> B1). split_and!; [done|done|]. split.
  - intros a. rewrite (covers_restatus B1 p' c BHole) by done.
    assert (covers B0 BFree a <-> covers B BFree a) as H0.
    { unfold B0. rewrite (covers_restatus B p k BAlloc) by done. intuition congruence. }
    rewrite <- H0. specialize (R5 a). tauto.
  - intros q j. rewrite lookup_insert. case_decide as Hd.
    + subst q. split; [done|]. intros [Hq Hne].
      assert (B0 !! p' = Some (j, BAlloc)) as Hq0 by (unfold B0; rewrite lookup_insert_ne; done).
      apply R4 in Hq0. congruence.
    + rewrite (R4 q j). unfold B0. rewrite lookup_insert. case_decide as Hpq.
      * subst q. split; [done|]. by intros [_ ?].
      * split; [intros; split; congruence|by intros [? _]].
  - by apply only_hole_restatus.
  - exists p', c. split_and!.
    + apply lookup_insert_eq.
    + intros m' Hm' Hlt. rewrite lookup_insert_ne; [by eapply R7|].
      destruct (buddy_arith p' c) as [_ Hcase]; [lia| | |].
      * destruct (inv_block _ _ _ _ _ _ R1 R2) as (_ & _ & _ & _ & ?). lia.
      * by destruct (inv_block _ _ _ _ _ _ R1 R2) as (_ & ? & _).
      * cbv zeta in Hcase. pose proof (bsize_pos c (proj1 Hc)). lia.
    + intros q j. rewrite lookup_insert. case_decide; [by left|]. intros Hq. right.
      apply R6 in Hq. unfold B0 in Hq. rewrite lookup_insert in Hq. by case_decide.
Qed.

(** ** Coalescing is complete *)

(** No free block below the order of its region has a free buddy. *)
Definition coalesced R B : Prop :=
  forall p k m, B !! p = Some (k, BFree) -> in_region R p k m -> k < m ->
    B !! Z.lxor p (bsize k) <> Some (k, BFree).

Lemma lxor_invol p x : Z.lxor (Z.lxor p x) x = p.
Proof using Type. by rewrite Z.lxor_assoc, Z.lxor_nilpotent, Z.lxor_0_r. Qed.

(** The buddy of an upper half is the head of the block it was split from. *)
Lemma buddy_of_upper p c i :
  0 <= p -> 0 <= i < c -> (bsize c | p) -> Z.lxor p (bsize i) = p + bsize i.
Proof using cfg_ok.
  intros Hp Hi Hd. assert (bsize i | bsize c) as Hic.
  { exists (2 ^ (c - i)). unfold bsize. pose proof shift_range. rewrite <- Z.pow_add_r by lia. f_equal. lia. }
  assert (bsize (i + 1) | p) as [y Hy].
  { eapply Z.divide_trans; [|exact Hd]. exists (2 ^ (c - (i + 1))). unfold bsize. pose proof shift_range.
    rewrite <- Z.pow_add_r by lia. f_equal. lia. }
  pose proof (bsize_pos i (proj1 Hi)). rewrite bsize_succ in Hy by lia.
  destruct (buddy_arith p i) as [Hlo Hcase]; [lia|lia|by eapply Z.divide_trans|]. cbv zeta in *.
  destruct Hlo as [z Hz]. rewrite bsize_succ in Hz by lia.
  destruct Hcase as [[??]|[? E]]; [lia|]. exfalso. rewrite Hz in E. rewrite Hy in E.
  assert (2 * (y - z) = 1) by nia. lia.
Qed.

Lemma alloc_coalesced R st B p k B' :
  buddy_inv R st B -> 0 <= k -> alloc_post B p k B' -> coalesced R B -> coalesced R B'.
Proof using cfg_ok.
  intros I Hk P HC q j m Hq Hr Hjm Hb.
  destruct (al_origin _ _ _ _ P) as (c & Hkc & Hp & Horig).
  destruct (inv_block _ _ _ _ _ _ I Hp) as (Hc & Hd & _ & _ & Hp0).
  pose proof (al_new _ _ _ _ P) as Hnew.
  destruct (Horig _ _ Hq) as [[Hq0 _]|[Hj ->]].
  - destruct (Horig _ _ Hb) as [[Hb0 _]|[Hj Hqb]]; [by apply (HC q j m)|].
    rewrite <- (buddy_of_upper p c j) in Hqb by (done || lia).
    assert (q = p) as ->; [|congruence].
    rewrite <- (lxor_invol q (bsize j)), Hqb. apply lxor_invol.
  - rewrite <- (buddy_of_upper p c j), lxor_invol in Hb by (done || lia). congruence.
Qed.

Lemma free_coalesced R st B p k B' :
  buddy_inv R st B -> free_post R B p k B' -> coalesced R B -> coalesced R B'.
Proof using cfg_ok.
  intros I P HC q j m Hq Hr Hjm Hb. destruct (fr_new _ _ _ _ _ P) as (p' & c & Hp' & Hstop & Hold).
  destruct (Hold _ _ Hq) as [->|Hq0].
  - assert (j = c) as -> by congruence. by apply (Hstop m).
  - destruct (Hold _ _ Hb) as [Hqb|Hb0]; [|by apply (HC q j m)].
    assert (j = c) as -> by congruence.
    assert (0 <= c /\ (bsize c | q) /\ 0 < q) as (Hc & Hd & Hq').
    { destruct (inv_block _ _ _ _ _ _ I Hq0) as (? & ? & _ & _ & ?). split_and!; auto; lia. }
    apply (Hstop m); [|done|].
    + pose proof I as [xss I']. destruct (buddy_in_region R st q c m (i_regions _ _ _ _ I') Hc Hd Hr Hjm)
        as (b & Hb1 & H1 & H2). exists b. split; [done|].
      rewrite bsize_succ in H2 by done.
      destruct (buddy_arith q c) as [_ Hcase]; [lia|lia|done|]. cbv zeta in Hcase. lia.
    + rewrite <- Hqb, lxor_invol. done.
Qed.

(** ** Adding memory *)

(** Every page of [a, b) has an entry and is reachable through the direct map. *)
Definition range_mapped st (a b : Z) : Prop :=
  forall x, page_aligned x -> a <= x < b ->
    is_Some (frames st !! pfndb_get_entry x) /\ is_Some (mem st !! TO_HHDM x).

Definition regions_avoid R (a b : Z) : Prop :=
  forall r m, (r, m) ∈ R -> r + bsize m <= a \/ b <= r.

Lemma binv_add R st B xss p k pg :
  binv R st B xss -> 0 <= k <= MAX_ORDER -> (bsize k | p) -> 0 < p ->
  p + bsize k <= 2 ^ 64 - hhdm_offset ->
  range_mapped st p (p + bsize k) -> regions_avoid R p (p + bsize k) ->
  GET_MAX_ORDER (order pg) = k ->
  binv ((p, k) :: R) (with_entry st p pg) (<[p := (k, BHole)]> B) xss.
Proof using cfg_ok.
  intros I Hk Hd Hp0 Hp1 HM HA Hmax. pose proof I as [W L N F Bk D T].
  pose proof (bsize_pos k (proj1 Hk)) as Hpos.
  assert (page_aligned p) as Hal by (eapply bsize_page_aligned; [|done]; lia).
  assert (forall q j s, B !! q = Some (j, s) -> q + bsize j <= p \/ p + bsize k <= q) as Hout.
  { intros q j s Hq. destruct (Bk q j s Hq) as (Hj & _ & m & (b & Hb & H1 & H2) & _).
    pose proof (bsize_pos j Hj). destruct (HA _ _ Hb); lia. }
  assert (B !! p = None) as HpB.
  { destruct (B !! p) as [[j s]|] eqn:Hp; [|done]. pose proof (bsize_pos j (proj1 (Bk _ _ _ Hp))).
    destruct (Hout _ _ _ Hp); lia. }
  destruct (HM p Hal ltac:(lia)) as [[pg0 Hpg0] _].
  split; auto.
  - destruct (regions_wf_with_entry R st p pg0 pg Hpg0 W) as [W1 W2 W3]. split.
    + intros b m [[= -> ->]|Hb]%elem_of_cons; [split_and!; auto; lia|eauto].
    + intros b1 m1 b2 m2 [[= -> ->]|Hb1]%elem_of_cons [[= -> ->]|Hb2]%elem_of_cons; eauto.
      * intros. destruct (HA _ _ Hb2); lia.
      * intros. destruct (HA _ _ Hb1); lia.
    + intros b m a [[= -> ->]|Hb]%elem_of_cons Ha Hpa; [|eauto].
      destruct (HM a Hpa Ha) as [[pa E] ?]. split; [|done]. cbn.
      destruct (decide (pfndb_get_entry p = pfndb_get_entry a)) as [->|];
        [rewrite lookup_insert_eq|rewrite lookup_insert_ne by done]; eauto.
  - intros i xs v Hi. rewrite (F i xs v Hi). apply exist_proper; intros q.
    rewrite free_insert_hole; [done| |done]. congruence.
  - intros q j s. rewrite lookup_insert. case_decide as Hpq.
    + subst q. intros [= <- <-]. split_and!; [lia|done|]. exists k. split.
      * exists p. split; [by left|]. lia.
      * exists pg. rewrite with_entry_same. by split_and!.
    + intros Hq. destruct (Bk q j s Hq) as (Hj & Hdq & m & (b & Hb & ?) & pgq & E & ?).
      split_and!; auto. exists m. split; [exists b; split; [by right|done]|].
      exists pgq. rewrite with_entry_other; auto. by eapply bsize_page_aligned.
  - intros q1 j1 s1 q2 j2 s2. rewrite !lookup_insert. do 2 case_decide; intros E1 E2 Hne; simplify_eq; eauto.
    apply or_comm. eauto.
  - intros q pgq Hq E Ht. rewrite lookup_insert. case_decide as Hpq; [by exists k, BHole|].
    rewrite with_entry_other in E by done. eauto.
Qed.

Lemma add_block_ok R st B p k :
  buddy_inv R st B -> 0 <= k <= MAX_ORDER -> (bsize k | p) -> 0 < p ->
  p + bsize k <= 2 ^ 64 - hhdm_offset ->
  range_mapped st p (p + bsize k) -> regions_avoid R p (p + bsize k) ->
  exists st', buddy_add_block st p k = Ok st' /\
    buddy_inv ((p, k) :: R) st' (<[p := (k, BFree)]> B) /\ B !! p = None /\
    dom (frames st') = dom (frames st) /\ dom (mem st') = dom (mem st).
Proof using cfg_ok.
  intros [xss I] Hk Hd Hp0 Hp1 HM HA. unfold buddy_add_block.
  pose proof (bsize_pos k (proj1 Hk)) as Hpos.
  assert (page_aligned p) as Hal by (eapply bsize_page_aligned; [|done]; lia).
  destruct (HM p Hal ltac:(lia)) as [[pg0 Hpg0] _].
  rewrite !update_update, (update_entry_Ok _ _ _ _ Hpg0), bind_Ok. cbn.
  unfold MAX_ORDER in Hk. set (pg := set_order _ _).
  assert (binv ((p, k) :: R) (with_entry st p pg) (<[p := (k, BHole)]> B) xss) as I1.
  { apply binv_add; try done; cbn. rewrite get_max_set_cur, get_max_set_max; lia. }
  destruct (push_order_ok _ _ _ p k pg (ex_intro _ xss I1) (lookup_insert_eq _ _ _) (with_entry_same _ _ _))
    as (st' & E & F & DM & I2); [done|cbn; apply get_cur_set_cur; lia|].
  rewrite insert_insert_eq in I2. exists st'. split_and!; try done.
  - destruct (B !! p) as [[j s]|] eqn:Hp; [|done].
    destruct (i_block _ _ _ _ I _ _ _ Hp) as (Hj & _ & m & (b & Hb & H1 & H2) & _).
    pose proof (bsize_pos j Hj). destruct (HA _ _ Hb); lia.
  - rewrite F. cbn. rewrite dom_insert_L. apply elem_of_dom_2 in Hpg0. set_solver.
Qed.

Lemma range_mapped_dom st st' a b a' :
  dom (frames st') = dom (frames st) -> dom (mem st') = dom (mem st) -> a <= a' ->
  range_mapped st a b -> range_mapped st' a' b.
Proof using Type.
  intros D1 D2 Ha H x Hx Hr. rewrite <- !elem_of_dom, D1, D2, !elem_of_dom. apply H; [done|lia].
Qed.

(** The order the loop picks: aligned, within the range, at least a page. *)
Lemma add_range_order a e :
  page_aligned a -> page_aligned e -> 0 < a < e -> e < 2 ^ 64 ->
  let k := MIN MAX_ORDER (MIN (log2ull (Z.shiftr (u64 (e - a)) PAGE_SIZE_SHIFT)) (GET_ORDER a)) in
  0 <= k <= MAX_ORDER /\ (bsize k | a) /\ a + bsize k <= e.
Proof using cfg_ok.
  intros Ha He Hae Hb. cbv zeta. pose proof shift_range as Hs.
  rewrite u64_small by (unfold is_u64; lia). rewrite Z.shiftr_div_pow2 by lia.
  set (pages := (e - a) / 2 ^ PAGE_SIZE_SHIFT). rewrite !MIN_min.
  assert (e - a = pages * 2 ^ PAGE_SIZE_SHIFT) as Hpages.
  { destruct Ha as [x ->], He as [y ->]. unfold pages.
    rewrite <- Z.mul_sub_distr_r, Z.div_mul by lia. done. }
  assert (0 < pages) by nia.
  pose proof (log2ull_spec pages ltac:(lia)) as [Hl _]. pose proof (log2ull_nonneg pages).
  pose proof (builtin_ctzll_divide a ltac:(lia)) as Hdv.
  assert (PAGE_SIZE_SHIFT <= builtin_ctzll a) by (apply builtin_ctzll_max; [lia|lia|done]).
  unfold GET_ORDER. set (k := Z.min MAX_ORDER _).
  assert (0 <= k <= MAX_ORDER) as Hk by (unfold k, MAX_ORDER; lia). split_and!; try lia.
  - eapply Z.divide_trans; [|exact Hdv]. unfold bsize.
    exists (2 ^ (builtin_ctzll a - (PAGE_SIZE_SHIFT + k))). rewrite <- Z.pow_add_r by lia. f_equal. lia.
  - assert (bsize k <= e - a); [|lia]. rewrite Hpages. unfold bsize. rewrite Z.pow_add_r by lia.
    assert (2 ^ k <= 2 ^ log2ull pages) by (apply Z.pow_le_mono_r; lia). nia.
Qed.

(** The memory of the regions. *)
Definition in_regions R (x : Z) : Prop := exists r m, (r, m) ∈ R /\ in_block r m x.

(** What adding the pages of [a, e) does to the block map and the regions. *)
Record add_post R B a e R' B' : Prop := {
  ad_free : forall x, covers B' BFree x <-> covers B BFree x \/ a <= x < e;
  ad_allocs : same_allocs B B';
  ad_settled : settled B -> settled B';
  ad_coalesced : coalesced R B -> coalesced R' B';
  ad_regions : forall x, in_regions R' x <-> in_regions R x \/ a <= x < e;
}.

Lemma add_coalesced R st B p k :
  buddy_inv R st B -> 0 <= k -> regions_avoid R p (p + bsize k) ->
  coalesced R B -> coalesced ((p, k) :: R) (<[p := (k, BFree)]> B).
Proof using cfg_ok.
  intros I Hk HA HC q j m Hq (b & [[= -> ->]|Hb]%elem_of_cons & H1 & H2) Hjm Hbud.
  - rewrite lookup_insert in Hq. case_decide; [simplify_eq; lia|].
    destruct (inv_entry _ _ _ _ _ _ I Hq) as (m' & (b' & Hb' & H3 & H4) & _).
    pose proof (bsize_pos j (proj1 (proj1 (inv_block _ _ _ _ _ _ I Hq)))).
    destruct (HA _ _ Hb'); lia.
  - rewrite lookup_insert in Hq. pose proof (bsize_pos k Hk). case_decide as Hpq.
    + simplify_eq. destruct (HA _ _ Hb); lia.
    + assert (in_region R q j m) as Hr by (by exists b).
      destruct (inv_block _ _ _ _ _ _ I Hq) as (Hj & Hd & _ & _ & Hq0).
      rewrite lookup_insert in Hbud. case_decide as Hpb; [|by apply (HC q j m)].
      simplify_eq. pose proof I as [xss I'].
      destruct (buddy_in_region R st q j m (i_regions _ _ _ _ I') (proj1 Hj) Hd Hr Hjm) as (b2 & Hb2 & H3 & H4).
      rewrite bsize_succ in H4 by done.
      destruct (buddy_arith q j) as [_ Hcase]; [lia|lia|done|]. cbv zeta in Hcase.
      destruct (HA _ _ Hb2); lia.
Qed.

Lemma add_nothing R B a e : e <= a -> add_post R B a e R B.
Proof using Type. intros Hle. split; auto; [|done|]; intros x; (split; [by left|]); intros [?|?]; (done || lia). Qed.

Lemma in_regions_cons R r m x : in_regions ((r, m) :: R) x <-> in_block r m x \/ in_regions R x.
Proof using Type.
  unfold in_regions. split.
  - intros (r' & m' & [[= -> ->]|H]%elem_of_cons & Hx); [by left|right; eauto].
  - intros [Hx|(r' & m' & H & Hx)]; [exists r, m; split; [apply elem_of_cons; by left|done]|].
    exists r', m'. split; [apply elem_of_cons; by right|done].
Qed.

Lemma add_range_loop_ok e fuel : forall R st B a,
  buddy_inv R st B -> page_aligned a -> page_aligned e -> 0 < a <= e ->
  e <= 2 ^ 64 - hhdm_offset -> range_mapped st a e -> regions_avoid R a e ->
  (Z.to_nat (pfndb_get_entry (e - a)) < fuel)%nat ->
  exists st' R' B', add_range_loop fuel st a e = Ok st' /\ buddy_inv R' st' B' /\
    add_post R B a e R' B'.
Proof using cfg_ok.
  induction fuel as [|fuel IH]; intros R st B a I Ha He Hae Hb HM HA Hf; [lia|].
  pose proof hhdm_range as Hh. cbn [add_range_loop]. destruct (Z.ltb_spec a e) as [Hlt|Hge].
  2:{ exists st, R, B. split_and!; [done..|]. apply add_nothing. lia. }
  rewrite (proj2 (Z.eqb_neq a 0)) by lia. cbn [negb dbg_assert]. rewrite bind_Ok. cbv zeta.
  destruct (add_range_order a e) as (Hk & Hd & Hfit); [done|done|lia|lia|]. cbv zeta in *.
  set (k := MIN MAX_ORDER _) in *. pose proof (bsize_pos k (proj1 Hk)) as Hpos.
  assert (regions_avoid R a (a + bsize k)) as HA1 by (intros r m Hr; destruct (HA _ _ Hr); lia).
  destruct (add_block_ok R st B a k) as (st1 & E1 & I1 & Hno & D1 & D2); auto; [lia|lia| |].
  { intros x Hx Hr. apply HM; [done|lia]. }
  rewrite E1, bind_Ok, GET_ORDER_SIZE_bsize by (unfold MAX_ORDER in Hk; lia).
  rewrite u64_small by (unfold is_u64; lia).
  assert (page_aligned (a + bsize k)) as Ha'.
  { apply Z.divide_add_r; [done|]. apply (bsize_page_aligned k); [lia|apply Z.divide_refl]. }
  destruct (IH ((a, k) :: R) st1 (<[a := (k, BFree)]> B) (a + bsize k) I1) as (st2 & R2 & B2 & E2 & I2 & [P1 P2 P3 P4 P5]);
    auto; [lia|by apply (range_mapped_dom st st1 a e); auto; lia| | |].
  { intros r m [[= -> ->]|Hr]%elem_of_cons; [lia|]. destruct (HA _ _ Hr); lia. }
  { rewrite !pfndb_get_entry_div in *. pose proof shift_range as Hs.
    destruct Ha as [x ->], He as [y ->], Ha' as [z Hz]. rewrite Hz.
    rewrite <- Z.mul_sub_distr_r, Z.div_mul in * by lia. nia. }
  exists st2, R2, B2. split_and!; [done..|]. split.
  - intros x. rewrite P1, covers_insert. rewrite (delete_id B a) by done. unfold in_block.
    assert (a <= x < e <-> a <= x < a + bsize k \/ a + bsize k <= x < e) by lia. intuition congruence.
  - eapply same_allocs_trans; [|done]. by apply same_allocs_new.
  - intros HS. apply P3. intros q j. rewrite lookup_insert. case_decide; [done|apply HS].
  - intros HC. apply P4. by apply (add_coalesced R st); [|lia|..].
  - intros x. rewrite P5, in_regions_cons. unfold in_block. intuition lia.
Qed.

Lemma add_range_ok R st B start len :
  let a := ALIGN_UP start PAGE_SIZE in
  let e := ALIGN_DOWN (start + len) PAGE_SIZE in
  is_u64 start -> is_u64 len -> start + len < 2 ^ 64 ->
  0 < start -> start + PAGE_SIZE <= 2 ^ 64 ->
  e <= 2 ^ 64 - hhdm_offset -> buddy_inv R st B -> range_mapped st a e -> (a < e -> regions_avoid R a e) ->
  exists st' R' B', buddy_add_range st start len = Ok st' /\ buddy_inv R' st' B' /\
    add_post R B a e R' B'.
Proof using cfg_ok.
  cbv zeta. intros Hs Hl Hsl Hs0 Hsp Hb I HM HA. unfold buddy_add_range, buddy_add_range_nlock.
  rewrite (u64_small (start + len)) by (unfold is_u64 in *; lia). cbv zeta.
  pose proof shift_range as Hsh. rewrite PAGE_SIZE_eq in *.
  destruct (ALIGN_UP_bounds start PAGE_SIZE_SHIFT) as [Ha Hab]; [lia|done|lia|].
  set (a := ALIGN_UP start _) in *.
  assert (page_aligned (ALIGN_DOWN (start + len) (2 ^ PAGE_SIZE_SHIFT))) as He.
  { rewrite ALIGN_DOWN_spec by (unfold is_u64 in *; lia).
    exists ((start + len) / 2 ^ PAGE_SIZE_SHIFT). pose proof (Z.div_mod (start + len) (2 ^ PAGE_SIZE_SHIFT)). lia. }
  set (e := ALIGN_DOWN _ _) in *. destruct (Z.leb_spec e a) as [Hle|Hgt].
  - exists st, R, B. split_and!; [done..|]. by apply add_nothing.
  - apply add_range_loop_ok; auto; try lia.
Qed.
End Operations.

(** An allocator that was never given memory. *)
Definition buddy_empty (h : nodes) (db : pfndb) : buddy_state := BuddyState (replicate 15 (LList 0 0 0)) h db.

Lemma buddy_empty_inv `{kconfig_ok} h db :
  (forall i pg, db !! i = Some pg -> type pg <> PFNDB_PAGE_FREE) ->
  buddy_inv [] (buddy_empty h db) ∅.
Proof.
  intros Hdb. exists (replicate 15 []). split.
  - split; intros *; by intros ?%not_elem_of_nil.
  - split.
    + apply Forall2_replicate. split; try done; [constructor|apply not_elem_of_nil].
    + intros i j xs ys x [-> _]%lookup_replicate _. by intros ?%not_elem_of_nil.
  - done.
  - intros i xs v [-> _]%lookup_replicate. split; [by intros ?%not_elem_of_nil|].
    by intros (p & _ & ?).
  - done.
  - done.
  - intros p pg _ Hp Ht. by destruct (Hdb _ _ Hp).
Qed.

(** ** Clients *)

Inductive client_op :=
| CAlloc (order_ flags_ : Z)
| CFree (paddr : Z).

Section Clients.
Context `{cfg_ok : kconfig_ok}.
Implicit Types (R : regions) (B : blocks) (st : buddy_state) (owned : gmap Z Z).

(** A client keeps the blocks it got and frees only those, with their order. *)
Definition client_step (s : buddy_state * gmap Z Z) (op : client_op) : res (buddy_state * gmap Z Z) :=
  let '(st, owned) := s in
  match op with
  | CAlloc k fl =>
      '(p, st) ← buddy_allocate st k fl;
      Ok (st, if p =? 0 then owned else <[p := k]> owned)
  | CFree p =>
      match owned !! p with
      | Some k => st ← buddy_free st p k; Ok (st, delete p owned)
      | None => Ok (st, owned)
      end
  end.

Fixpoint client_run (s : buddy_state * gmap Z Z) (ops : list client_op) : res (buddy_state * gmap Z Z) :=
  match ops with
  | [] => Ok s
  | op :: ops => s ← client_step s op; client_run s ops
  end.

(** Requests of an order the allocator has, by clients that can fail. *)
Definition op_ok (op : client_op) : Prop :=
  match op with
  | CAlloc k fl => 0 <= k <= MAX_ORDER /\ Z.land fl ALLOC_FLAG_NOFAIL = 0
  | CFree _ => True
  end.

Record client_inv R st owned B : Prop := {
  c_inv : buddy_inv R st B;
  c_settled : settled B;
  c_coalesced : coalesced R B;
  c_owned : forall q j, owned !! q = Some j <-> B !! q = Some (j, BAlloc);
}.

(** Address [a] is free or owned. *)
Definition managed B (a : Z) : Prop := covers B BFree a \/ covers B BAlloc a.

Lemma alloc_managed R st B p k B' a :
  buddy_inv R st B -> settled B -> alloc_post B p k B' -> managed B' a <-> managed B a.
Proof using cfg_ok.
  intros I HS [H1 H2 H3 H4 H5 (c & Hc & Hp & _)]. unfold managed. rewrite H3.
  assert (covers B' BAlloc a <-> in_block p k a \/ covers B BAlloc a) as ->.
  { split.
    - intros (q & j & Hq & Ha). destruct (decide (q = p)) as [->|Hne]; [left; congruence|].
      right. exists q, j. split; [by apply H4|done].
    - intros [Ha|(q & j & Hq & Ha)]; [by exists p, k|]. exists q, j.
      split; [|done]. apply H4; [|done]. intros ->. congruence. }
  destruct (decide (p <= a < p + bsize k)) as [Hin|Hout]; [fold (in_block p k a) in Hin|fold (in_block p k a) in Hout].
  - specialize (H2 a Hin). tauto.
  - tauto.
Qed.

Lemma free_managed R B p k B' a :
  B !! p = Some (k, BAlloc) -> free_post R B p k B' -> managed B' a <-> managed B a.
Proof using Type.
  intros Hp [H1 H2 H3 _]. unfold managed. rewrite H1, (covers_delete B p k BAlloc BAlloc a Hp).
  assert (covers B' BAlloc a <-> covers (delete p B) BAlloc a) as ->; [|tauto].
  apply exist_proper; intros q. apply exist_proper; intros j.
  rewrite (H2 q j), lookup_delete_Some. intuition congruence.
Qed.

Lemma client_step_ok R st owned B op :
  client_inv R st owned B -> op_ok op ->
  exists st' owned' B', client_step (st, owned) op = Ok (st', owned') /\
    client_inv R st' owned' B' /\ forall a, managed B' a <-> managed B a.
Proof using cfg_ok.
  intros [I HS HC HO] Hop. destruct op as [k fl|p]; cbn [client_step].
  - destruct Hop as [Hk Hfl].
    destruct (allocate_ok R st B k fl I HS Hk) as [(p & st' & B' & E & Hp & I' & P)|[_ H]].
    + rewrite E, bind_Ok, (proj2 (Z.eqb_neq p 0) Hp). eexists _, _, B'. split; [done|].
      split; [split|]; [done|apply P|by apply (alloc_coalesced R st B p k B' I (proj1 Hk) P)| |].
      * intros q j. rewrite lookup_insert. case_decide as Hpq.
        -- subst q. rewrite (al_new _ _ _ _ P). split; congruence.
        -- rewrite (al_others _ _ _ _ P) by done. apply HO.
      * intros a. by eapply alloc_managed.
    + rewrite Hfl in H. destruct H as (st' & E & I'). rewrite E. by exists st', owned, B.
  - destruct (owned !! p) as [k|] eqn:Hp; [|by exists st, owned, B].
    apply HO in Hp. destruct (free_ok R st B p k I HS Hp) as (st' & B' & E & I' & P).
    rewrite E, bind_Ok. eexists _, _, B'. split; [done|].
    split; [split|]; [done|apply P|by apply (free_coalesced R st B p k)| |].
    + intros q j. rewrite lookup_delete_Some, (fr_allocs _ _ _ _ _ P), HO. intuition congruence.
    + intros a. by eapply free_managed.
Qed.

Lemma client_run_ok R ops : forall st owned B,
  client_inv R st owned B -> Forall op_ok ops ->
  exists st' owned' B', client_run (st, owned) ops = Ok (st', owned') /\
    client_inv R st' owned' B' /\ forall a, managed B' a <-> managed B a.
Proof using cfg_ok.
  induction ops as [|op ops IH]; intros st owned B I HF; [by exists st, owned, B|].
  apply Forall_cons in HF as [Hop HF].
  destruct (client_step_ok R st owned B op I Hop) as (st1 & o1 & B1 & E1 & I1 & M1).
  destruct (IH st1 o1 B1 I1 HF) as (st2 & o2 & B2 & E2 & I2 & M2).
  exists st2, o2, B2. cbn [client_run]. rewrite E1, bind_Ok. split_and!; [done..|].
  intros a. by rewrite M2.
Qed.
End Clients.

(** ** Claims *)
Section Claims.
Context `{cfg_ok : kconfig_ok}.
Implicit Types (R : regions) (B : blocks) (st : buddy_state) (owned : gmap Z Z).

(** C9: [buddy_allocate] either returns a non-null, naturally aligned block of
    exactly the requested order, all of whose bytes were free, removes exactly
    those bytes from the free memory and leaves every other allocation alone;
    or no free block is large enough, and then it returns 0 with the memory
    unchanged, or panics when [ALLOC_FLAG_NOFAIL] is set. *)
Theorem buddy_allocate_correct R st B k fl :
  buddy_inv R st B -> settled B -> 0 <= k <= MAX_ORDER ->
  (exists p st' B', buddy_allocate st k fl = Ok (p, st') /\ p <> 0 /\ (bsize k | p) /\
     buddy_inv R st' B' /\ alloc_post B p k B') \/
  ((forall p j, B !! p = Some (j, BFree) -> j < k) /\
   if Z.land fl ALLOC_FLAG_NOFAIL =? 0
   then exists st', buddy_allocate st k fl = Ok (0, st') /\ buddy_inv R st' B
   else buddy_allocate st k fl = Panic).
Proof using cfg_ok.
  intros I HS Hk. destruct (allocate_ok R st B k fl I HS Hk) as [(p & st' & B' & E & Hp & I' & P)|H]; [|by right].
  left. exists p, st', B'. split_and!; auto.
  by destruct (inv_block _ _ _ _ _ _ I' (al_new _ _ _ _ P)) as (_ & ? & _).
Qed.

(** C10: [buddy_free] of an allocated block always returns; the bytes of the
    block, and no others, join the free memory, every other allocation stays,
    and the freed block ends up in a free block that has no free buddy below
    the order of its region. *)
Theorem buddy_free_correct R st B p k :
  buddy_inv R st B -> settled B -> B !! p = Some (k, BAlloc) ->
  exists st' B', buddy_free st p k = Ok st' /\ buddy_inv R st' B' /\ free_post R B p k B'.
Proof using cfg_ok. apply free_ok. Qed.

(** [buddy_add_range] terminates, adds exactly the whole pages of the
    range to the free memory, as blocks cut at power-of-two boundaries, and
    keeps the allocator invariant, the allocations and full coalescing. *)
Theorem buddy_add_range_correct R st B start len :
  let a := ALIGN_UP start PAGE_SIZE in
  let e := ALIGN_DOWN (start + len) PAGE_SIZE in
  is_u64 start -> is_u64 len -> start + len < 2 ^ 64 ->
  0 < start -> start + PAGE_SIZE <= 2 ^ 64 -> e <= 2 ^ 64 - hhdm_offset ->
  buddy_inv R st B -> range_mapped st a e -> regions_avoid R a e ->
  exists st' R' B', buddy_add_range st start len = Ok st' /\ buddy_inv R' st' B' /\
    add_post R B a e R' B'.
Proof using cfg_ok. intros a e. intros. by apply add_range_ok. Qed.

(** C1: any sequence of allocations and frees by a client that frees only what
    it owns runs without a fault, a failed assertion or an endless loop;
    owned blocks stay disjoint, no byte is lost or invented, free memory stays
    fully coalesced, and once everything is freed all of it is free again. *)
Theorem buddy_clients_safe R st owned B ops :
  client_inv R st owned B -> Forall op_ok ops ->
  exists st' owned' B', client_run (st, owned) ops = Ok (st', owned') /\
    client_inv R st' owned' B' /\
    (forall p k q j, owned' !! p = Some k -> owned' !! q = Some j -> p <> q ->
       p + bsize k <= q \/ q + bsize j <= p) /\
    (forall a, managed B' a <-> managed B a) /\
    (owned' = ∅ -> forall a, covers B' BFree a <-> managed B a).
Proof using cfg_ok.
  intros I HF. destruct (client_run_ok R ops st owned B I HF) as (st' & o' & B' & E & I' & M).
  exists st', o', B'. destruct I' as [[xss I'] HS HC HO]. split_and!; auto.
  - split; [by exists xss|done..].
  - intros p k q j Hp%HO Hq%HO. by eapply (i_disj _ _ _ _ I').
  - intros -> a. rewrite <- M. split; [by left|]. intros [?|(q & j & Hq & _)]; [done|].
    by apply HO in Hq.
Qed.
End Claims.

(** *** Witnesses: sixteen pages at 1 MiB on x86_64 *)
Module Demo.
Definition pages : list Z := map (fun n => 0x100 + Z.of_nat n) (seq 0 16).
Definition db : pfndb := list_to_map (map (fun i => (i, Page PFNDB_PAGE_INVALID 0 0 0)) pages).
Definition h : nodes := list_to_map (map (fun i => (TO_HHDM (H := x86_64_config) (i * 4096), LNode 0 0)) pages).
Definition boot : buddy_state := buddy_empty h db.
Definition st : buddy_state :=
  match buddy_add_range (cfg := x86_64_config) boot 0x100000 0x10000 with Ok s => s | _ => boot end.

Lemma mapped_pages (i : Z) : 0x100 <= i < 0x110 -> i ∈ pages.
Proof.
  intros Hi. apply list_elem_of_fmap. exists (Z.to_nat (i - 0x100)). split; [lia|].
  apply elem_of_seq. lia.
Qed.

Lemma map_is_Some {A} (f : Z -> Z) (a : A) (ks : list Z) i :
  i ∈ ks -> is_Some ((list_to_map (map (fun k => (f k, a)) ks) : gmap Z A) !! f i).
Proof.
  induction ks as [|k ks IH]; [by intros ?%not_elem_of_nil|]. cbn. intros [->|Hi]%elem_of_cons.
  - rewrite lookup_insert_eq. eauto.
  - rewrite lookup_insert. case_decide; eauto.
Qed.

Lemma db_not_free i pg : db !! i = Some pg -> type pg <> PFNDB_PAGE_FREE.
Proof.
  intros H. apply elem_of_list_to_map_2, list_elem_of_fmap in H as (k & [= -> ->] & _). done.
Qed.

Lemma range : range_mapped (cfg := x86_64_config) boot 0x100000 0x110000.
Proof.
  intros x [z ->] Hx. change (2 ^ PAGE_SIZE_SHIFT (kconfig := x86_64_config)) with 4096 in *.
  assert (z ∈ pages) as Hz by (apply mapped_pages; lia). split.
  - rewrite pfndb_get_entry_div. change (2 ^ PAGE_SIZE_SHIFT) with 4096. rewrite Z.div_mul by lia.
    by apply (map_is_Some (fun i => i)).
  - by apply (map_is_Some (fun i => TO_HHDM (H := x86_64_config) (i * 4096))).
Qed.

Lemma ready : exists R B, client_inv (cfg := x86_64_config) R st ∅ B /\
  forall x, covers (cfg := x86_64_config) B BFree x <-> 0x100000 <= x < 0x110000.
Proof.
  destruct (add_range_ok (cfg := x86_64_config) [] boot ∅ 0x100000 0x10000) as (st' & R & B & E & I & [P1 P2 P3 P4 _]).
  1,2: by split; vm_compute.
  1,2,3,4: by vm_compute.
  - apply buddy_empty_inv, db_not_free.
  - apply range.
  - intros _ r m ?%not_elem_of_nil. done.
  - exists R, B. assert (st = st') as -> by (unfold st; by rewrite E). split; [split|].
    + done.
    + apply P3. done.
    + apply P4. done.
    + intros q j. rewrite (P2 q j). done.
    + intros x. rewrite P1. split; [|by right]. intros [(q & j & Hq & _)|?]; [done|].
      done.
Qed.
End Demo.

Lemma buddy_allocate_correct_witness :
  exists R B, covers (cfg := x86_64_config) B BFree 0x100000 /\
  ((exists p st' B', buddy_allocate (cfg := x86_64_config) Demo.st 1 0 = Ok (p, st') /\ p <> 0 /\
     (bsize (cfg := x86_64_config) 1 | p) /\
     buddy_inv (cfg := x86_64_config) R st' B' /\ alloc_post (cfg := x86_64_config) B p 1 B') \/
   ((forall p j, B !! p = Some (j, BFree) -> j < 1) /\
    exists st', buddy_allocate (cfg := x86_64_config) Demo.st 1 0 = Ok (0, st') /\
      buddy_inv (cfg := x86_64_config) R st' B)).
Proof.
  destruct Demo.ready as (R & B & [I HS _ _] & HF). exists R, B. split; [apply HF; lia|].
  exact (buddy_allocate_correct R Demo.st B 1 0 I HS ltac:(unfold MAX_ORDER; lia)).
Defined.

Lemma buddy_free_correct_witness :
  exists R p st1 B1 st' B', buddy_allocate (cfg := x86_64_config) Demo.st 0 0 = Ok (p, st1) /\
    buddy_free (cfg := x86_64_config) st1 p 0 = Ok st' /\ buddy_inv (cfg := x86_64_config) R st' B' /\
    free_post (cfg := x86_64_config) R B1 p 0 B'.
Proof.
  destruct Demo.ready as (R & B & [I HS _ _] & HF).
  destruct (allocate_ok R Demo.st B 0 0 I HS ltac:(unfold MAX_ORDER; lia))
    as [(p & st1 & B1 & E & _ & I1 & P)|[Hno _]].
  - destruct (buddy_free_correct R st1 B1 p 0 I1 (al_settled _ _ _ _ P) (al_new _ _ _ _ P))
      as (st' & B' & E' & I' & P'). exists R, p, st1, B1, st', B'. by split_and!.
  - exfalso. destruct (proj2 (HF 0x100000)) as (q & j & Hq & _); [lia|].
    specialize (Hno q j Hq). destruct (inv_block _ _ _ _ _ _ I Hq) as [? _]. lia.
Defined.

Lemma buddy_add_range_correct_witness :
  exists st' R' B', buddy_add_range (cfg := x86_64_config) Demo.boot 0x100000 0x10000 = Ok st' /\
    buddy_inv (cfg := x86_64_config) R' st' B' /\
    add_post (cfg := x86_64_config) [] ∅ 0x100000 0x110000 R' B'.
Proof.
  apply (buddy_add_range_correct (cfg := x86_64_config) [] Demo.boot ∅ 0x100000 0x10000).
  1,2: by split; vm_compute.
  1,2,3,4: by vm_compute.
  - apply buddy_empty_inv, Demo.db_not_free.
  - apply Demo.range.
  - intros r m ?%not_elem_of_nil. done.
Defined.

Lemma buddy_clients_safe_witness :
  exists R B st' owned' B',
    client_run (cfg := x86_64_config) (Demo.st, ∅) [CAlloc 0 0; CAlloc 2 0; CFree 0x100000; CAlloc 3 0]
      = Ok (st', owned') /\
    client_inv (cfg := x86_64_config) R st' owned' B' /\
    (forall a, managed (cfg := x86_64_config) B' a <-> managed (cfg := x86_64_config) B a).
Proof.
  destruct Demo.ready as (R & B & I & _).
  destruct (buddy_clients_safe (cfg := x86_64_config) R Demo.st ∅ B
    [CAlloc 0 0; CAlloc 2 0; CFree 0x100000; CAlloc 3 0] I) as (st' & o' & B' & E & I' & _ & M & _).
  - repeat constructor; by vm_compute.
  - exists R, B, st', o', B'. by split_and!.
Defined.
