(* ===== verification/CString.v ===== *)
(** * libc/string.c: memory and string primitives

    Memory is a finite map from addresses to bytes.  The copying and filling
    routines have three paths (a [rep] instruction on x86, words when both
    pointers agree modulo the word size, bytes); they are compared with a
    pointwise specification.  The reading routines take the reader as a
    parameter, so that they run on memory and on buffers alike. *)

From S2P Require Import Prelude.
#[local] Open Scope Z_scope.

Abbreviation bytes := (gmap Z Z).

Definition sizeof_size_t : Z := 8.

(** Little-endian words as eight bytes. *)
Fixpoint le_bytes (n : nat) (v : Z) : list Z :=
  match n with O => [] | S n => v mod 256 :: le_bytes n (v / 256) end.

Fixpoint load_le (m : bytes) (p : Z) (n : nat) : res Z :=
  match n with
  | O => Ok 0
  | S n => b ← load m p; r ← load_le m (p + 1) n; Ok (b + 256 * r)
  end.

Fixpoint store_bytes (m : bytes) (p : Z) (bs : list Z) : res bytes :=
  match bs with
  | [] => Ok m
  | b :: bs => m ← store m p b; store_bytes m (p + 1) bs
  end.

Definition load_word (m : bytes) (p : Z) : res Z := load_le m p 8.
Definition store_word (m : bytes) (p v : Z) : res bytes := store_bytes m p (le_bytes 8 v).

(** ** Copying *)

(** [for (i = 0; i < n; i++) pdest[i] = psrc[i]]; also what [rep movsb] does. *)
Fixpoint copy_up (n : nat) (m : bytes) (pdest psrc : Z) : res bytes :=
  match n with
  | O => Ok m
  | S n => b ← load m psrc; m ← store m pdest b; copy_up n m (pdest + 1) (psrc + 1)
  end.

(** [for (i = n; i > 0; i--) pdest[i-1] = psrc[i-1]]. *)
Fixpoint copy_down (i : nat) (m : bytes) (pdest psrc : Z) : res bytes :=
  match i with
  | O => Ok m
  | S i => b ← load m (psrc + Z.of_nat i); m ← store m (pdest + Z.of_nat i) b; copy_down i m pdest psrc
  end.

(** At most seven bytes to the next word boundary. *)
Fixpoint align_copy (fuel : nat) (m : bytes) (pdest psrc n : Z) : res (bytes * Z * Z * Z) :=
  match fuel with
  | O => NoFuel
  | S fuel =>
      if negb (IS_ALIGNED pdest sizeof_size_t) then
        b ← load m psrc;
        m ← store m pdest b;
        align_copy fuel m (pdest + 1) (psrc + 1) (n - 1)
      else Ok (m, pdest, psrc, n)
  end.

(** [wdest[i] = wsrc[i]] for the next [k] words. *)
Fixpoint copy_words (k : nat) (m : bytes) (wdest wsrc : Z) : res bytes :=
  match k with
  | O => Ok m
  | S k =>
      w ← load_word m wsrc;
      m ← store_word m wdest w;
      copy_words k m (wdest + sizeof_size_t) (wsrc + sizeof_size_t)
  end.

(** [while (n >= step * sizeof(size_t))] copy [step] words. *)
Fixpoint word_copy (fuel : nat) (step : nat) (m : bytes) (wdest wsrc n : Z) : res (bytes * Z * Z * Z) :=
  match fuel with
  | O => NoFuel
  | S fuel =>
      let chunk := Z.of_nat step * sizeof_size_t in
      if n >=? chunk then
        m ← copy_words step m wdest wsrc;
        word_copy fuel step m (wdest + chunk) (wsrc + chunk) (n - chunk)
      else Ok (m, wdest, wsrc, n)
  end.

Definition memcpy (x86 : bool) (m : bytes) (dest src n : Z) : res (Z * bytes) :=
  if x86 && (n >=? 2048) then m ← copy_up (Z.to_nat n) m dest src; Ok (dest, m)
  else if n <? sizeof_size_t then m ← copy_up (Z.to_nat n) m dest src; Ok (dest, m)
  else
    '(m, pdest, psrc, n) ←
      (if MISALIGNMENT dest sizeof_size_t =? MISALIGNMENT src sizeof_size_t then
         '(m, pdest, psrc, n) ← align_copy 8 m dest src n;
         '(m, pdest, psrc, n) ← word_copy (S (Z.to_nat n)) 8 m pdest psrc n;
         word_copy (S (Z.to_nat n)) 1 m pdest psrc n
       else Ok (m, dest, src, n));
    m ← copy_up (Z.to_nat n) m pdest psrc;
    Ok (dest, m).

Definition memmove (m : bytes) (dest src n : Z) : res (Z * bytes) :=
  m ← (if src >? dest then copy_up (Z.to_nat n) m dest src
       else if src <? dest then copy_down (Z.to_nat n) m dest src
       else Ok m);
  Ok (dest, m).

(** ** Filling *)

Fixpoint fill_up (n : nat) (m : bytes) (pdest c : Z) : res bytes :=
  match n with
  | O => Ok m
  | S n => m ← store m pdest (u8 c); fill_up n m (pdest + 1) c
  end.

Fixpoint align_fill (fuel : nat) (m : bytes) (pdest c n : Z) : res (bytes * Z * Z) :=
  match fuel with
  | O => NoFuel
  | S fuel =>
      if negb (IS_ALIGNED pdest sizeof_size_t) then
        m ← store m pdest (u8 c); align_fill fuel m (pdest + 1) c (n - 1)
      else Ok (m, pdest, n)
  end.

Fixpoint fill_words (k : nat) (m : bytes) (wdest pattern : Z) : res bytes :=
  match k with
  | O => Ok m
  | S k => m ← store_word m wdest pattern; fill_words k m (wdest + sizeof_size_t) pattern
  end.

Fixpoint word_fill (fuel : nat) (step : nat) (m : bytes) (wdest pattern n : Z) : res (bytes * Z * Z) :=
  match fuel with
  | O => NoFuel
  | S fuel =>
      let chunk := Z.of_nat step * sizeof_size_t in
      if n >=? chunk then
        m ← fill_words step m wdest pattern;
        word_fill fuel step m (wdest + chunk) pattern (n - chunk)
      else Ok (m, wdest, n)
  end.

Definition memset (x86 : bool) (m : bytes) (dest c n : Z) : res (Z * bytes) :=
  if x86 && (n >=? 2048) then m ← fill_up (Z.to_nat n) m dest c; Ok (dest, m)
  else if n <? sizeof_size_t then m ← fill_up (Z.to_nat n) m dest c; Ok (dest, m)
  else
    '(m, pdest, n) ← align_fill 8 m dest c n;
    let pattern := u64 (u8 c * (UINT64_MAX / 0xFF)) in
    '(m, pdest, n) ← word_fill (S (Z.to_nat n)) 8 m pdest pattern n;
    '(m, pdest, n) ← word_fill (S (Z.to_nat n)) 1 m pdest pattern n;
    m ← fill_up (Z.to_nat n) m pdest c;
    Ok (dest, m).

(** ** Reading *)
Section Readers.
Context (get : Z -> res Z).

(** The value of a byte as a [char]: [s8] where char is signed (x86_64,
    loongarch64), the byte itself where it is unsigned (riscv64).  Only the
    differences that strcmp and strncmp return depend on it. *)
Context (as_char : Z -> Z).

Fixpoint memcmp_loop (n : nat) (p1 p2 : Z) : res Z :=
  match n with
  | O => Ok 0
  | S n =>
      a ← get p1; b ← get p2;
      if negb (a =? b) then Ok (if a <? b then -1 else 1) else memcmp_loop n (p1 + 1) (p2 + 1)
  end.
Definition memcmp (s1 s2 n : Z) : res Z := memcmp_loop (Z.to_nat n) s1 s2.

Fixpoint memchr_loop (num : nat) (p c : Z) : res Z :=
  match num with
  | O => Ok 0
  | S num => b ← get p; if b =? c then Ok p else memchr_loop num (p + 1) c
  end.
Definition memchr (ptr value num : Z) : res Z := memchr_loop (Z.to_nat num) ptr (u8 value).

Fixpoint strlen_loop (fuel : nat) (s : Z) : res Z :=
  match fuel with
  | O => NoFuel
  | S fuel => c ← get s; if c =? 0 then Ok s else strlen_loop fuel (s + 1)
  end.
Definition strlen (fuel : nat) (str : Z) : res Z := s ← strlen_loop fuel str; Ok (s - str).

Fixpoint strnlen_loop (maxlen : nat) (s : Z) : res Z :=
  match maxlen with
  | O => Ok s
  | S maxlen => c ← get s; if c =? 0 then Ok s else strnlen_loop maxlen (s + 1)
  end.
Definition strnlen (str maxlen : Z) : res Z := s ← strnlen_loop (Z.to_nat maxlen) str; Ok (s - str).

Fixpoint strcmp (fuel : nat) (s1 s2 : Z) : res Z :=
  match fuel with
  | O => NoFuel
  | S fuel =>
      a ← get s1;
      if negb (a =? 0) then
        b ← get s2;
        if a =? b then strcmp fuel (s1 + 1) (s2 + 1) else Ok (as_char a - as_char b)
      else b ← get s2; Ok (as_char a - as_char b)
  end.

Fixpoint strncmp_loop (n : nat) (s1 s2 : Z) : res Z :=
  match n with
  | O => Ok 0
  | S n =>
      a ← get s1;
      b ← get s2;
      if negb (a =? 0) && (a =? b) then strncmp_loop n (s1 + 1) (s2 + 1)
      else Ok (as_char a - as_char b)
  end.
Definition strncmp (s1 s2 n : Z) : res Z := strncmp_loop (Z.to_nat n) s1 s2.

Fixpoint strchr (fuel : nat) (s c : Z) : res Z :=
  match fuel with
  | O => NoFuel
  | S fuel =>
      a ← get s;
      if a =? u8 c then Ok s else if a =? 0 then Ok 0 else strchr fuel (s + 1) c
  end.

Fixpoint strrchr_loop (fuel : nat) (s c p : Z) : res Z :=
  match fuel with
  | O => NoFuel
  | S fuel =>
      a ← get s;
      let p := if a =? u8 c then s else p in
      if a =? 0 then Ok p else strrchr_loop fuel (s + 1) c p
  end.
Definition strrchr (fuel : nat) (s c : Z) : res Z := strrchr_loop fuel s c 0.
End Readers.

Fixpoint strcpy_loop (fuel : nat) (m : bytes) (dest src : Z) : res bytes :=
  match fuel with
  | O => NoFuel
  | S fuel =>
      b ← load m src;
      m ← store m dest b;
      if b =? 0 then Ok m else strcpy_loop fuel m (dest + 1) (src + 1)
  end.
Definition strcpy (fuel : nat) (m : bytes) (dest src : Z) : res (Z * bytes) :=
  m ← strcpy_loop fuel m dest src; Ok (dest, m).
