(* ===== verification/CStringSpec.v ===== *)
(** * libc/string.c: what the memory primitives compute *)

From S2P Require Import Prelude CString.
#[local] Open Scope Z_scope.

Definition mapped (m : bytes) (p n : Z) : Prop := forall a, p <= a < p + n -> is_Some (m !! a).
Definition byte_mem (m : bytes) : Prop := forall a b, m !! a = Some b -> is_byte b.

(** [m'] is [m] with the [n] bytes at [d] replaced by those [m] has at [s]. *)
Definition copied (m m' : bytes) (d s n : Z) : Prop :=
  forall a, m' !! a = if decide (d <= a < d + n) then m !! (s + (a - d)) else m !! a.

Definition disjoint_ranges (d s n : Z) : Prop := d + n <= s \/ s + n <= d.

(** [m'] is [m] with the [n] bytes at [d] set to [c]. *)
Definition filled (m m' : bytes) (d c n : Z) : Prop :=
  forall a, m' !! a = if decide (d <= a < d + n) then Some c else m !! a.

Lemma copied_0 m d s : copied m m d s 0.
Proof. intros a. by rewrite decide_False by lia. Qed.

Lemma filled_0 m d c : filled m m d c 0.
Proof. intros a. by rewrite decide_False by lia. Qed.

(** ** Words *)

Fixpoint le_value (bs : list Z) : Z :=
  match bs with [] => 0 | b :: bs => b + 256 * le_value bs end.

Lemma le_bytes_value bs : Forall is_byte bs -> le_bytes (length bs) (le_value bs) = bs.
Proof.
  induction 1 as [|b bs Hb _ IH]; [done|]. cbn [length le_bytes le_value]. unfold is_byte in Hb.
  rewrite (Z.mul_comm 256), Z.mod_add, Z.div_add, Z.mod_small, Z.div_small, Z.add_0_l by lia. by rewrite IH.
Qed.

Lemma load_le_ok m n : forall p, byte_mem m -> mapped m p (Z.of_nat n) ->
  exists bs, load_le m p n = Ok (le_value bs) /\ length bs = n /\ Forall is_byte bs /\
    forall i, 0 <= i < Z.of_nat n -> m !! (p + i) = bs !! Z.to_nat i.
Proof.
  induction n as [|n IH]; intros p HB HM; cbn [load_le].
  - exists []. split_and!; [done..|]. intros; lia.
  - destruct (HM p) as [b Hb]; [lia|]. rewrite (load_Ok _ _ _ Hb), bind_Ok.
    destruct (IH (p + 1) HB) as (bs & E & Hl & HF & Hi); [intros a Ha; apply HM; lia|].
    rewrite E, bind_Ok. exists (b :: bs). split_and!; [done|cbn; lia|constructor; [by eapply HB|done]|].
    intros i Hr. destruct (decide (i = 0)) as [->|]; [by rewrite Z.add_0_r|].
    replace (p + i) with (p + 1 + (i - 1)) by lia. rewrite Hi by lia.
    replace (Z.to_nat i) with (S (Z.to_nat (i - 1))) by lia. done.
Qed.

Lemma load_le_range m (HB : byte_mem m) n : forall p v, load_le m p n = Ok v -> 0 <= v < 256 ^ Z.of_nat n.
Proof.
  induction n as [|n IH]; intros p v; cbn [load_le]; [intros [= <-]; lia|]. destruct (m !! p) as [b|] eqn:Hb; [|unfold load; by rewrite Hb].
  rewrite (load_Ok _ _ _ Hb), bind_Ok. destruct (load_le m (p + 1) n) as [r| | |] eqn:Hr; try done. rewrite bind_Ok. intros [= <-].
  apply HB in Hb. unfold is_byte in Hb. specialize (IH _ _ Hr). rewrite Nat2Z.inj_succ, Z.pow_succ_r by lia. lia.
Qed.

Lemma store_bytes_ok bs : forall m p, mapped m p (Z.of_nat (length bs)) ->
  exists m', store_bytes m p bs = Ok m' /\
    forall a, m' !! a = if decide (p <= a < p + Z.of_nat (length bs)) then bs !! Z.to_nat (a - p) else m !! a.
Proof.
  induction bs as [|b bs IH]; intros m p HM; cbn [store_bytes].
  - exists m. split; [done|]. intros a. cbn. by rewrite decide_False by lia.
  - destruct (HM p) as [b0 Hb]; [cbn; lia|]. rewrite (store_Ok _ _ _ _ Hb), bind_Ok.
    destruct (IH (<[p := b]> m) (p + 1)) as (m' & E & H).
    { intros a Ha. rewrite lookup_insert. case_decide; [eauto|]. apply HM. cbn. lia. }
    exists m'. split; [done|]. intros a. rewrite H. cbn [length].
    destruct (decide (a = p)) as [->|].
    + rewrite decide_False, decide_True, lookup_insert_eq, Z.sub_diag by lia. done.
    + rewrite lookup_insert_ne by done. do 2 case_decide; try lia; [|done].
      replace (Z.to_nat (a - p)) with (S (Z.to_nat (a - (p + 1)))) by lia. done.
Qed.

(** ** Copying without overlap

    All loops advance a copy of [n0] bytes from [s0] to [d0] that has done
    [k] bytes. *)
Section Copy.
Context (m0 : bytes) (d0 s0 n0 : Z).
Context (HB : byte_mem m0) (HD : mapped m0 d0 n0) (HS : mapped m0 s0 n0) (Hn0 : 0 <= n0).
Context (Hdis : disjoint_ranges d0 s0 n0).

(** After [k] bytes. *)
Definition progress (m : bytes) (k : Z) : Prop := 0 <= k <= n0 /\ copied m0 m d0 s0 k.

Lemma progress_src m k i : progress m k -> 0 <= i < n0 -> m !! (s0 + i) = m0 !! (s0 + i).
Proof using Hdis.
  intros [Hk HC] Hi. rewrite (HC (s0 + i)), decide_False; [done|]. unfold disjoint_ranges in Hdis. lia.
Qed.

Lemma progress_mapped m k p n : progress m k -> mapped m0 p n -> mapped m p n.
Proof using HS.
  intros [Hk HC] HM a Ha. rewrite (HC a). case_decide; [apply HS; lia|by apply HM].
Qed.

Lemma progress_bytes m k : progress m k -> byte_mem m.
Proof using HB. intros [Hk HC] a b. rewrite (HC a). case_decide; apply HB. Qed.

Lemma copy_byte m k :
  progress m k -> k < n0 ->
  exists b m', load m (s0 + k) = Ok b /\ store m (d0 + k) b = Ok m' /\ progress m' (k + 1).
Proof using All.
  intros HP Hk. pose proof HP as [Hk0 HC]. destruct (HS (s0 + k)) as [b Hb]; [lia|].
  destruct (progress_mapped m k _ _ HP HD (d0 + k)) as [c Hc]; [lia|].
  exists b, (<[d0 + k := b]> m). split_and!; [|by eapply store_Ok|].
  { apply load_Ok. by rewrite (progress_src m k) by (done || lia). }
  split; [lia|]. intros a. rewrite lookup_insert. case_decide as Ha.
  - subst a. rewrite decide_True by lia. by replace (s0 + (d0 + k - d0)) with (s0 + k) by lia.
  - rewrite (HC a). repeat case_decide; try lia; done.
Qed.

Lemma copy_up_progress n : forall m k,
  progress m k -> k + Z.of_nat n <= n0 ->
  exists m', copy_up n m (d0 + k) (s0 + k) = Ok m' /\ progress m' (k + Z.of_nat n).
Proof using All.
  induction n as [|n IH]; intros m k HP Hk; cbn [copy_up].
  - exists m. split; [done|]. by rewrite Z.add_0_r.
  - destruct (copy_byte m k HP ltac:(lia)) as (b & m1 & -> & E & HP1). rewrite bind_Ok, E, bind_Ok.
    destruct (IH m1 (k + 1) HP1 ltac:(lia)) as (m2 & E2 & HP2). exists m2.
    rewrite <- !Z.add_assoc, E2. split; [done|]. by replace (k + Z.of_nat (S n)) with (k + 1 + Z.of_nat n) by lia.
Qed.

Lemma copy_word m k :
  progress m k -> k + 8 <= n0 ->
  exists w m', load_word m (s0 + k) = Ok w /\ store_word m (d0 + k) w = Ok m' /\ progress m' (k + 8).
Proof using All.
  intros HP Hk. pose proof HP as [Hk0 HC].
  destruct (load_le_ok m 8 (s0 + k)) as (bs & E & Hl & HF & Hi).
  { by eapply progress_bytes. }
  { intros a Ha. eapply progress_mapped; [done|exact HS|lia]. }
  destruct (store_bytes_ok bs m (d0 + k)) as (m' & E' & Hm').
  { intros a Ha. eapply progress_mapped; [done|exact HD|]. rewrite Hl in Ha. lia. }
  exists (le_value bs), m'. split_and!; [done| |].
  { unfold store_word. rewrite <- Hl, le_bytes_value by done. done. }
  split; [lia|]. intros a. rewrite Hm', Hl. case_decide as Ha.
  - rewrite decide_True by lia. rewrite <- Hi by lia.
    replace (s0 + k + (a - (d0 + k))) with (s0 + (a - d0)) by lia. by rewrite (progress_src m k) by (done || lia).
  - rewrite (HC a). repeat case_decide; try lia; done.
Qed.

Lemma copy_words_progress j : forall m k,
  progress m k -> k + 8 * Z.of_nat j <= n0 ->
  exists m', copy_words j m (d0 + k) (s0 + k) = Ok m' /\ progress m' (k + 8 * Z.of_nat j).
Proof using All.
  induction j as [|j IH]; intros m k HP Hk; cbn [copy_words].
  - exists m. split; [done|]. by rewrite Z.add_0_r.
  - destruct (copy_word m k HP ltac:(lia)) as (w & m1 & -> & E & HP1). rewrite bind_Ok, E, bind_Ok.
    unfold sizeof_size_t. destruct (IH m1 (k + 8) HP1 ltac:(lia)) as (m2 & E2 & HP2). exists m2.
    rewrite <- !Z.add_assoc, E2. split; [done|]. by replace (k + 8 * Z.of_nat (S j)) with (k + 8 + 8 * Z.of_nat j) by lia.
Qed.

Lemma word_copy_progress step fuel : (0 < step)%nat -> forall m k,
  progress m k -> n0 - k < Z.of_nat fuel ->
  exists m' k', word_copy fuel step m (d0 + k) (s0 + k) (n0 - k) = Ok (m', d0 + k', s0 + k', n0 - k') /\
    progress m' k'.
Proof using All.
  intros Hs. induction fuel as [|fuel IH]; intros m k HP Hf; [destruct HP; lia|]. cbn [word_copy].
  unfold sizeof_size_t. rewrite Z.geb_leb. destruct (Z.leb_spec (Z.of_nat step * 8) (n0 - k)) as [Hle|];
    [|by exists m, k].
  destruct (copy_words_progress step m k HP ltac:(lia)) as (m1 & -> & HP1). rewrite bind_Ok.
  destruct (IH m1 (k + 8 * Z.of_nat step) HP1 ltac:(lia)) as (m2 & k2 & E & HP2).
  exists m2, k2. split; [|done]. rewrite <- E. f_equal; lia.
Qed.

Lemma align_copy_progress fuel : forall m k,
  progress m k -> 0 <= d0 -> d0 + n0 <= 2 ^ 64 -> k + Z.of_nat fuel <= n0 ->
  (exists j, 0 <= j < Z.of_nat fuel /\ (8 | d0 + k + j)) ->
  exists m' k', align_copy fuel m (d0 + k) (s0 + k) (n0 - k) = Ok (m', d0 + k', s0 + k', n0 - k') /\
    progress m' k'.
Proof using All.
  induction fuel as [|fuel IH]; intros m k HP Hd0 Hb Hf (j & Hj & Hdiv); [lia|]. cbn [align_copy].
  destruct (IS_ALIGNED (d0 + k) sizeof_size_t) eqn:Ea; cbn [negb]; [by exists m, k|].
  assert (j <> 0).
  { intros ->. rewrite Z.add_0_r in Hdiv.
    assert (IS_ALIGNED (d0 + k) (2 ^ 3) = true) as Ht; [|change (2 ^ 3) with sizeof_size_t in Ht; congruence].
    apply IS_ALIGNED_spec; [lia| |done]. destruct HP as [? _]. unfold is_u64. lia. }
  destruct (copy_byte m k HP ltac:(lia)) as (b & m1 & -> & E & HP1). rewrite bind_Ok, E, bind_Ok.
  destruct (IH m1 (k + 1) HP1) as (m2 & k2 & E2 & HP2); [done|done|lia| |].
  { exists (j - 1). split; [lia|]. by replace (d0 + (k + 1) + (j - 1)) with (d0 + k + j) by lia. }
  exists m2, k2. split; [|done]. rewrite <- E2. f_equal; lia.
Qed.

Lemma progress_0 : progress m0 0.
Proof using Hn0. split; [lia|apply copied_0]. Qed.

Lemma copy_rest m k :
  progress m k -> exists m', copy_up (Z.to_nat (n0 - k)) m (d0 + k) (s0 + k) = Ok m' /\ progress m' n0.
Proof using All.
  intros HP. pose proof HP as [Hk _]. destruct (copy_up_progress (Z.to_nat (n0 - k)) m k HP) as (m' & E & HP'); [lia|].
  exists m'. split; [done|]. by replace (k + Z.of_nat (Z.to_nat (n0 - k))) with n0 in HP' by lia.
Qed.

Lemma memcpy_ok x86 :
  0 <= d0 -> d0 + n0 <= 2 ^ 64 ->
  exists m', memcpy x86 m0 d0 s0 n0 = Ok (d0, m') /\ copied m0 m' d0 s0 n0.
Proof using All.
  intros Hd Hb. unfold memcpy.
  assert (exists m', copy_up (Z.to_nat n0) m0 d0 s0 = Ok m' /\ progress m' n0) as (mb & Eb & [_ HPb]).
  { destruct (copy_rest m0 0 progress_0) as (m' & E & HP). rewrite Z.sub_0_r, !Z.add_0_r in E. eauto. }
  destruct (x86 && (n0 >=? 2048)); [exists mb; by rewrite Eb|].
  destruct (Z.ltb_spec n0 sizeof_size_t) as [|Hge]; [exists mb; by rewrite Eb|].
  unfold sizeof_size_t in Hge.
  destruct (MISALIGNMENT d0 sizeof_size_t =? MISALIGNMENT s0 sizeof_size_t).
  2:{ rewrite bind_Ok, Eb. by exists mb. }
  destruct (align_copy_progress 8 m0 0 progress_0) as (m1 & k1 & E1 & HP1); [done|done|lia| |].
  { exists ((- d0) mod 8). pose proof (Z.mod_pos_bound (- d0) 8). split; [lia|].
    exists (- ((- d0) / 8)). pose proof (Z.div_mod (- d0) 8). lia. }
  rewrite Z.sub_0_r, !Z.add_0_r in E1. rewrite E1, bind_Ok.
  pose proof HP1 as [Hk1 _].
  destruct (word_copy_progress 8 (S (Z.to_nat (n0 - k1))) ltac:(lia) m1 k1 HP1) as (m2 & k2 & E2 & HP2); [lia|].
  rewrite E2, bind_Ok. pose proof HP2 as [Hk2 _].
  destruct (word_copy_progress 1 (S (Z.to_nat (n0 - k2))) ltac:(lia) m2 k2 HP2) as (m3 & k3 & E3 & HP3); [lia|].
  rewrite E3, bind_Ok. destruct (copy_rest m3 k3 HP3) as (m4 & E4 & [_ HP4]).
  rewrite E4, bind_Ok. by exists m4.
Qed.
End Copy.

(** ** Filling *)
Section Fill.
Context (m0 : bytes) (d0 c0 n0 : Z).
Context (HD : mapped m0 d0 n0) (Hn0 : 0 <= n0).

Definition fprogress (m : bytes) (k : Z) : Prop := 0 <= k <= n0 /\ filled m0 m d0 (u8 c0) k.

Lemma fprogress_mapped m k p n : fprogress m k -> mapped m0 p n -> mapped m p n.
Proof using Type. intros [Hk HC] HM a Ha. rewrite (HC a). case_decide; [eauto|by apply HM]. Qed.

Lemma fill_byte m k :
  fprogress m k -> k < n0 -> exists m', store m (d0 + k) (u8 c0) = Ok m' /\ fprogress m' (k + 1).
Proof using HD.
  intros HP Hk. pose proof HP as [Hk0 HC].
  destruct (fprogress_mapped m k _ _ HP HD (d0 + k)) as [c Hc]; [lia|].
  exists (<[d0 + k := u8 c0]> m). split; [by eapply store_Ok|]. split; [lia|]. intros a.
  rewrite lookup_insert. case_decide; [by rewrite decide_True by lia|].
  rewrite (HC a). repeat case_decide; try lia; done.
Qed.

Lemma fill_up_progress n : forall m k,
  fprogress m k -> k + Z.of_nat n <= n0 ->
  exists m', fill_up n m (d0 + k) c0 = Ok m' /\ fprogress m' (k + Z.of_nat n).
Proof using HD.
  induction n as [|n IH]; intros m k HP Hk; cbn [fill_up].
  - exists m. split; [done|]. by rewrite Z.add_0_r.
  - destruct (fill_byte m k HP ltac:(lia)) as (m1 & -> & HP1). rewrite bind_Ok.
    destruct (IH m1 (k + 1) HP1 ltac:(lia)) as (m2 & E2 & HP2). exists m2.
    rewrite <- !Z.add_assoc, E2. split; [done|]. by replace (k + Z.of_nat (S n)) with (k + 1 + Z.of_nat n) by lia.
Qed.

Lemma pattern_bytes : le_bytes 8 (u64 (u8 c0 * (UINT64_MAX / 0xFF))) = replicate 8 (u8 c0).
Proof using Type.
  pose proof (Z.mod_pos_bound c0 (2 ^ 8) ltac:(lia)) as Hc. fold (u8 c0) in Hc.
  change (UINT64_MAX / 0xFF) with 0x0101010101010101. rewrite u64_small by (unfold is_u64; lia).
  rewrite <- (le_bytes_value (replicate 8 (u8 c0))) at 1 by (apply Forall_replicate; done).
  rewrite length_replicate. f_equal. cbn [replicate le_value]. lia.
Qed.

Abbreviation pattern := (u64 (u8 c0 * (UINT64_MAX / 0xFF))).

Lemma fill_word m k :
  fprogress m k -> k + 8 <= n0 -> exists m', store_word m (d0 + k) pattern = Ok m' /\ fprogress m' (k + 8).
Proof using HD.
  intros HP Hk. pose proof HP as [Hk0 HC]. unfold store_word. rewrite pattern_bytes.
  destruct (store_bytes_ok (replicate 8 (u8 c0)) m (d0 + k)) as (m' & E' & Hm').
  { intros a Ha. eapply fprogress_mapped; [done|exact HD|]. rewrite length_replicate in Ha. lia. }
  exists m'. split; [done|]. split; [lia|]. intros a. rewrite Hm', length_replicate. case_decide.
  - rewrite lookup_replicate_2 by lia. by rewrite decide_True by lia.
  - rewrite (HC a). repeat case_decide; try lia; done.
Qed.

Lemma fill_words_progress j : forall m k,
  fprogress m k -> k + 8 * Z.of_nat j <= n0 ->
  exists m', fill_words j m (d0 + k) pattern = Ok m' /\ fprogress m' (k + 8 * Z.of_nat j).
Proof using HD.
  induction j as [|j IH]; intros m k HP Hk; cbn [fill_words].
  - exists m. split; [done|]. by rewrite Z.add_0_r.
  - destruct (fill_word m k HP ltac:(lia)) as (m1 & -> & HP1). rewrite bind_Ok.
    unfold sizeof_size_t. destruct (IH m1 (k + 8) HP1 ltac:(lia)) as (m2 & E2 & HP2). exists m2.
    rewrite <- !Z.add_assoc, E2. split; [done|]. by replace (k + 8 * Z.of_nat (S j)) with (k + 8 + 8 * Z.of_nat j) by lia.
Qed.

Lemma word_fill_progress step fuel : (0 < step)%nat -> forall m k,
  fprogress m k -> n0 - k < Z.of_nat fuel ->
  exists m' k', word_fill fuel step m (d0 + k) pattern (n0 - k) = Ok (m', d0 + k', n0 - k') /\ fprogress m' k'.
Proof using HD.
  intros Hs. induction fuel as [|fuel IH]; intros m k HP Hf; [destruct HP; lia|]. cbn [word_fill].
  unfold sizeof_size_t. rewrite Z.geb_leb. destruct (Z.leb_spec (Z.of_nat step * 8) (n0 - k)) as [Hle|];
    [|by exists m, k].
  destruct (fill_words_progress step m k HP ltac:(lia)) as (m1 & -> & HP1). rewrite bind_Ok.
  destruct (IH m1 (k + 8 * Z.of_nat step) HP1 ltac:(lia)) as (m2 & k2 & E & HP2).
  exists m2, k2. split; [|done]. rewrite <- E. f_equal; lia.
Qed.

Lemma align_fill_progress fuel : forall m k,
  fprogress m k -> 0 <= d0 -> d0 + n0 <= 2 ^ 64 -> k + Z.of_nat fuel <= n0 ->
  (exists j, 0 <= j < Z.of_nat fuel /\ (8 | d0 + k + j)) ->
  exists m' k', align_fill fuel m (d0 + k) c0 (n0 - k) = Ok (m', d0 + k', n0 - k') /\ fprogress m' k'.
Proof using HD.
  induction fuel as [|fuel IH]; intros m k HP Hd0 Hb Hf (j & Hj & Hdiv); [lia|]. cbn [align_fill].
  destruct (IS_ALIGNED (d0 + k) sizeof_size_t) eqn:Ea; cbn [negb]; [by exists m, k|].
  assert (j <> 0).
  { intros ->. rewrite Z.add_0_r in Hdiv.
    assert (IS_ALIGNED (d0 + k) (2 ^ 3) = true) as Ht; [|change (2 ^ 3) with sizeof_size_t in Ht; congruence].
    apply IS_ALIGNED_spec; [lia| |done]. destruct HP as [? _]. unfold is_u64. lia. }
  destruct (fill_byte m k HP ltac:(lia)) as (m1 & -> & HP1). rewrite bind_Ok.
  destruct (IH m1 (k + 1) HP1) as (m2 & k2 & E2 & HP2); [done|done|lia| |].
  { exists (j - 1). split; [lia|]. by replace (d0 + (k + 1) + (j - 1)) with (d0 + k + j) by lia. }
  exists m2, k2. split; [|done]. rewrite <- E2. f_equal; lia.
Qed.

Lemma fill_rest m k :
  fprogress m k -> exists m', fill_up (Z.to_nat (n0 - k)) m (d0 + k) c0 = Ok m' /\ fprogress m' n0.
Proof using HD.
  intros HP. pose proof HP as [Hk _]. destruct (fill_up_progress (Z.to_nat (n0 - k)) m k HP) as (m' & E & HP'); [lia|].
  exists m'. split; [done|]. by replace (k + Z.of_nat (Z.to_nat (n0 - k))) with n0 in HP' by lia.
Qed.

Lemma memset_ok x86 :
  0 <= d0 -> d0 + n0 <= 2 ^ 64 ->
  exists m', memset x86 m0 d0 c0 n0 = Ok (d0, m') /\ filled m0 m' d0 (u8 c0) n0.
Proof using HD Hn0.
  intros Hd Hb. unfold memset.
  assert (fprogress m0 0) as HP0 by (split; [lia|apply filled_0]).
  assert (exists m', fill_up (Z.to_nat n0) m0 d0 c0 = Ok m' /\ fprogress m' n0) as (mb & Eb & [_ HPb]).
  { destruct (fill_rest m0 0 HP0) as (m' & E & HP). rewrite Z.sub_0_r, !Z.add_0_r in E. eauto. }
  destruct (x86 && (n0 >=? 2048)); [exists mb; by rewrite Eb|].
  destruct (Z.ltb_spec n0 sizeof_size_t) as [|Hge]; [exists mb; by rewrite Eb|].
  unfold sizeof_size_t in Hge.
  destruct (align_fill_progress 8 m0 0 HP0) as (m1 & k1 & E1 & HP1); [done|done|lia| |].
  { exists ((- d0) mod 8). pose proof (Z.mod_pos_bound (- d0) 8). split; [lia|].
    exists (- ((- d0) / 8)). pose proof (Z.div_mod (- d0) 8). lia. }
  rewrite Z.sub_0_r, !Z.add_0_r in E1. rewrite E1, bind_Ok. cbv zeta.
  pose proof HP1 as [Hk1 _].
  destruct (word_fill_progress 8 (S (Z.to_nat (n0 - k1))) ltac:(lia) m1 k1 HP1) as (m2 & k2 & E2 & HP2); [lia|].
  rewrite E2, bind_Ok. pose proof HP2 as [Hk2 _].
  destruct (word_fill_progress 1 (S (Z.to_nat (n0 - k2))) ltac:(lia) m2 k2 HP2) as (m3 & k3 & E3 & HP3); [lia|].
  rewrite E3, bind_Ok. destruct (fill_rest m3 k3 HP3) as (m4 & E4 & [_ HP4]).
  rewrite E4, bind_Ok. by exists m4.
Qed.
End Fill.

(** ** Overlapping copies *)

Lemma copy_up_forward n : forall m d s,
  mapped m d (Z.of_nat n) -> mapped m s (Z.of_nat n) -> d <= s ->
  exists m', copy_up n m d s = Ok m' /\ copied m m' d s (Z.of_nat n).
Proof.
  induction n as [|n IH]; intros m d s HD HS Hds; cbn [copy_up]; [exists m; by split; [|apply copied_0]|].
  destruct (HS s) as [b Hb]; [lia|]. destruct (HD d) as [c Hc]; [lia|].
  rewrite (load_Ok _ _ _ Hb), bind_Ok, (store_Ok _ _ _ _ Hc), bind_Ok.
  destruct (IH (<[d := b]> m) (d + 1) (s + 1)) as (m' & E & HC).
  - intros a Ha. rewrite lookup_insert. case_decide; [eauto|]. apply HD. lia.
  - intros a Ha. rewrite lookup_insert. case_decide; [eauto|]. apply HS. lia.
  - lia.
  - exists m'. split; [done|]. intros a. rewrite (HC a), !lookup_insert.
    repeat case_decide; try lia; subst.
    + f_equal. lia.
    + rewrite <- Hb. f_equal. lia.
    + done.
Qed.

Lemma copy_down_backward n : forall m d s,
  mapped m d (Z.of_nat n) -> mapped m s (Z.of_nat n) -> s <= d ->
  exists m', copy_down n m d s = Ok m' /\ copied m m' d s (Z.of_nat n).
Proof.
  induction n as [|n IH]; intros m d s HD HS Hds; cbn [copy_down]; [exists m; by split; [|apply copied_0]|].
  destruct (HS (s + Z.of_nat n)) as [b Hb]; [lia|]. destruct (HD (d + Z.of_nat n)) as [c Hc]; [lia|].
  rewrite (load_Ok _ _ _ Hb), bind_Ok, (store_Ok _ _ _ _ Hc), bind_Ok.
  destruct (IH (<[d + Z.of_nat n := b]> m) d s) as (m' & E & HC).
  - intros a Ha. rewrite lookup_insert. case_decide; [eauto|]. apply HD. lia.
  - intros a Ha. rewrite lookup_insert. case_decide; [eauto|]. apply HS. lia.
  - lia.
  - exists m'. split; [done|]. intros a. rewrite (HC a), !lookup_insert.
    repeat case_decide; try lia; subst; try done. rewrite <- Hb. f_equal. lia.
Qed.

(** ** Claims *)

(** C30: [memcpy], on every path it has (string instruction, bytes, aligned
    words), for every alignment and length, returns its destination and leaves
    memory equal to before but for the destination range, which holds the
    source bytes. *)
Theorem memcpy_correct x86 m d s n :
  byte_mem m -> mapped m d n -> mapped m s n -> 0 <= n -> disjoint_ranges d s n ->
  0 <= d -> d + n <= 2 ^ 64 ->
  exists m', memcpy x86 m d s n = Ok (d, m') /\ copied m m' d s n.
Proof. intros. by apply memcpy_ok. Qed.

(** [memset] sets exactly the given range to the low byte of its
    argument, on every path. *)
Theorem memset_correct x86 m d c n :
  mapped m d n -> 0 <= n -> 0 <= d -> d + n <= 2 ^ 64 ->
  exists m', memset x86 m d c n = Ok (d, m') /\ filled m m' d (u8 c) n.
Proof. intros. by apply memset_ok. Qed.

(** [memmove] copies the bytes the source held before the call, however
    the two ranges overlap. *)
Theorem memmove_correct m d s n :
  mapped m d n -> mapped m s n -> 0 <= n ->
  exists m', memmove m d s n = Ok (d, m') /\ copied m m' d s n.
Proof.
  intros HD HS Hn. unfold memmove. rewrite <- (Z2Nat.id n) in HD, HS by done.
  rewrite Z.gtb_ltb. destruct (Z.ltb_spec d s); [|destruct (Z.ltb_spec s d)].
  - destruct (copy_up_forward (Z.to_nat n) m d s) as (m' & -> & HC); [done|done|lia|].
    rewrite Z2Nat.id in HC by done. by exists m'.
  - destruct (copy_down_backward (Z.to_nat n) m d s) as (m' & -> & HC); [done|done|lia|].
    rewrite Z2Nat.id in HC by done. by exists m'.
  - assert (s = d) as -> by lia. exists m. split; [done|]. intros a. case_decide; [|done]. f_equal. lia.
Qed.

(** *** Witnesses: 128 bytes of memory *)
Definition demo_mem : bytes := list_to_map (map (fun n => (Z.of_nat n, Z.of_nat n)) (seq 0 128)).

Lemma demo_mem_mapped p n : 0 <= p -> p + n <= 128 -> mapped demo_mem p n.
Proof.
  intros Hp Hn a Ha. assert (demo_mem !! Z.of_nat (Z.to_nat a) = Some (Z.of_nat (Z.to_nat a))) as E.
  { apply elem_of_list_to_map_1.
    - change (NoDup (Z.of_nat <$> seq 0 128)). apply NoDup_fmap_2; [apply _|apply NoDup_seq].
    - apply list_elem_of_fmap. exists (Z.to_nat a). split; [done|]. apply elem_of_seq. lia. }
  rewrite Z2Nat.id in E by lia. eauto.
Qed.

Lemma demo_mem_bytes : byte_mem demo_mem.
Proof.
  intros a b H. apply elem_of_list_to_map_2, list_elem_of_fmap in H as (k & [= -> ->] & Hk).
  apply elem_of_seq in Hk. unfold is_byte. lia.
Qed.

Lemma memcpy_correct_witness :
  exists m', memcpy false demo_mem 67 3 60 = Ok (67, m') /\ copied demo_mem m' 67 3 60.
Proof.
  apply (memcpy_correct false demo_mem 67 3 60); try lia; try (apply demo_mem_mapped; lia).
  - apply demo_mem_bytes.
  - right. lia.
Defined.

Lemma memset_correct_witness :
  exists m', memset false demo_mem 5 (-1) 100 = Ok (5, m') /\ filled demo_mem m' 5 255 100.
Proof. apply (memset_correct false demo_mem 5 (-1) 100); try lia; apply demo_mem_mapped; lia. Defined.

Lemma memmove_correct_witness :
  exists m', memmove demo_mem 10 6 20 = Ok (10, m') /\ copied demo_mem m' 10 6 20.
Proof. apply (memmove_correct demo_mem 10 6 20); try lia; apply demo_mem_mapped; lia. Defined.

(** ** Strings *)
Section Strings.
Context (get : Z -> res Z).

(** A string [s] without terminator, stored at [p]. *)
Fixpoint cstring (p : Z) (s : list Z) : Prop :=
  match s with
  | [] => get p = Ok 0
  | c :: s => get p = Ok c /\ c <> 0 /\ cstring (p + 1) s
  end.

Lemma strlen_loop_ok s : forall p fuel,
  cstring p s -> (length s < fuel)%nat -> strlen_loop get fuel p = Ok (p + Z.of_nat (length s)).
Proof using Type.
  induction s as [|c s IH]; intros p [|fuel] Hs Hf; cbn [length] in *; try lia; cbn [strlen_loop cstring] in *.
  - rewrite Hs, bind_Ok. by rewrite Z.add_0_r.
  - destruct Hs as (-> & Hc & Hs). rewrite bind_Ok, (proj2 (Z.eqb_neq c 0) Hc), IH by (done || lia). f_equal. lia.
Qed.

Lemma strnlen_loop_ok s : forall p n,
  cstring p s -> strnlen_loop get n p = Ok (p + Z.min (Z.of_nat (length s)) (Z.of_nat n)).
Proof using Type.
  induction s as [|c s IH]; intros p [|n] Hs; cbn [length strnlen_loop cstring] in *; try (f_equal; lia).
  - rewrite Hs, bind_Ok. cbn [Z.eqb]. f_equal. lia.
  - destruct Hs as (-> & Hc & Hs). rewrite bind_Ok, (proj2 (Z.eqb_neq c 0) Hc), IH by done. f_equal. lia.
Qed.

(** What [strnlen] finds in any readable range: a prefix without a zero byte,
    ended by one unless it fills the range. *)
Lemma strnlen_loop_range n : forall p,
  (forall a, p <= a < p + Z.of_nat n -> exists b, get a = Ok b) ->
  returns (strnlen_loop get n p) (fun q => p <= q <= p + Z.of_nat n /\
    (forall a, p <= a < q -> get a <> Ok 0) /\ (q < p + Z.of_nat n -> get q = Ok 0)).
Proof using Type.
  induction n as [|n IH]; intros p HR; cbn [strnlen_loop].
  - apply returns_Ok. split_and!; [lia|lia|intros; lia|lia].
  - destruct (HR p) as [c Hc]; [lia|]. rewrite Hc, bind_Ok. destruct (Z.eqb_spec c 0) as [->|Hne].
    + apply returns_Ok. split_and!; [lia|lia|intros; lia|done].
    + eapply returns_mono; [apply IH; intros a Ha; apply HR; lia|]. cbv beta.
      intros q (H1 & H2 & H3). split_and!; [lia|lia| |intros; apply H3; lia].
      intros a Ha. destruct (decide (a = p)) as [->|]; [congruence|]. apply H2. lia.
Qed.

Lemma strcmp_ok as_char s1 : forall s2 p1 p2 fuel,
  (forall a b, is_byte a -> is_byte b -> as_char a = as_char b -> a = b) ->
  Forall is_byte s1 -> Forall is_byte s2 ->
  cstring p1 s1 -> cstring p2 s2 -> (length s1 < fuel)%nat ->
  exists r, strcmp get as_char fuel p1 p2 = Ok r /\ (r = 0 <-> s1 = s2).
Proof using Type.
  induction s1 as [|c s1 IH]; intros s2 p1 p2 [|fuel] Hinj B1 B2 H1 H2 Hf; cbn [length] in *; try lia;
    cbn [strcmp cstring] in *; (assert (is_byte 0) as B0 by done);
    try (apply Forall_cons in B1 as [Bc B1]).
  - rewrite H1, bind_Ok. cbn [negb Z.eqb]. destruct s2 as [|d s2]; cbn [cstring] in H2; try (apply Forall_cons in B2 as [Bd B2]).
    + rewrite H2, bind_Ok. exists (as_char 0 - as_char 0). split; [done|]. split; [done|lia].
    + destruct H2 as (-> & Hd & _). rewrite bind_Ok. eexists. split; [done|]. split; [|done].
      intros E. assert (0 = d) by (apply Hinj; auto; lia). lia.
  - destruct H1 as (-> & Hc & H1). rewrite bind_Ok, (proj2 (Z.eqb_neq c 0) Hc). cbn [negb].
    destruct s2 as [|d s2]; cbn [cstring] in H2; try (apply Forall_cons in B2 as [Bd B2]).
    + rewrite H2, bind_Ok, (proj2 (Z.eqb_neq c 0) Hc). eexists. split; [done|]. split; [|done].
      intros E. assert (c = 0) by (apply Hinj; auto; lia). lia.
    + destruct H2 as (-> & Hd & H2). rewrite bind_Ok. destruct (Z.eqb_spec c d) as [->|Hne].
      * destruct (IH s2 (p1 + 1) (p2 + 1) fuel) as (r & -> & Hr); auto; [lia|].
        exists r. split; [done|]. rewrite Hr. split; congruence.
      * eexists. split; [done|]. split; [|congruence]. intros E. destruct Hne. apply Hinj; auto; lia.
Qed.

(** The first differing byte decides. *)
Fixpoint lex_cmp (xs ys : list Z) : Z :=
  match xs, ys with
  | x :: xs, y :: ys => if x =? y then lex_cmp xs ys else if x <? y then -1 else 1
  | _, _ => 0
  end.

Lemma memcmp_loop_ok xs : forall ys p1 p2,
  length xs = length ys ->
  (forall i x, xs !! i = Some x -> get (p1 + Z.of_nat i) = Ok x) ->
  (forall i y, ys !! i = Some y -> get (p2 + Z.of_nat i) = Ok y) ->
  memcmp_loop get (length xs) p1 p2 = Ok (lex_cmp xs ys).
Proof using Type.
  induction xs as [|x xs IH]; intros [|y ys] p1 p2 Hl Hx Hy; cbn [length] in *; try lia; [done|].
  cbn [memcmp_loop lex_cmp]. pose proof (Hx O x eq_refl) as Ex. pose proof (Hy O y eq_refl) as Ey.
  rewrite Z.add_0_r in Ex, Ey. rewrite Ex, bind_Ok, Ey, bind_Ok.
  destruct (x =? y); cbn [negb]; [|done]. apply IH; [lia| |].
  - intros i z Hz. specialize (Hx (S i) z Hz). rewrite <- Hx. f_equal. lia.
  - intros i z Hz. specialize (Hy (S i) z Hz). rewrite <- Hy. f_equal. lia.
Qed.
End Strings.

(** on two strings in readable memory, [strlen] returns the length of the
    string, [strnlen] the length cut at the limit, and [strcmp] returns 0
    exactly when the strings are equal, whatever the signedness of [char]. *)
Theorem string_functions_correct get as_char p1 p2 s1 s2 fuel n :
  cstring get p1 s1 -> cstring get p2 s2 -> (length s1 < fuel)%nat -> 0 <= n ->
  Forall is_byte s1 -> Forall is_byte s2 ->
  (forall a b, is_byte a -> is_byte b -> as_char a = as_char b -> a = b) ->
  strlen get fuel p1 = Ok (Z.of_nat (length s1)) /\
  strnlen get p1 n = Ok (Z.min (Z.of_nat (length s1)) n) /\
  exists r, strcmp get as_char fuel p1 p2 = Ok r /\ (r = 0 <-> s1 = s2).
Proof.
  intros H1 H2 Hf Hn B1 B2 Hinj. split_and!.
  - unfold strlen. rewrite (strlen_loop_ok get s1) by done. rewrite bind_Ok. f_equal. lia.
  - unfold strnlen. rewrite (strnlen_loop_ok get s1) by done. rewrite bind_Ok. f_equal. lia.
  - by apply strcmp_ok.
Qed.

Lemma s8_byte_inj a b : is_byte a -> is_byte b -> s8 a = s8 b -> a = b.
Proof.
  unfold is_byte, s8, signed. intros Ha Hb. rewrite !Z.mod_small by lia. change (2 ^ (8 - 1)) with 128.
  destruct (Z.ltb_spec a 128), (Z.ltb_spec b 128); lia.
Qed.

Lemma string_functions_correct_witness :
  strlen (rd [104; 105; 0; 104; 105; 0]) 3 0 = Ok 2 /\
  strnlen (rd [104; 105; 0; 104; 105; 0]) 0 1 = Ok 1 /\
  exists r, strcmp (rd [104; 105; 0; 104; 105; 0]) s8 3 0 3 = Ok r /\ (r = 0 <-> [104; 105] = [104; 105]).
Proof.
  apply (string_functions_correct (rd [104; 105; 0; 104; 105; 0]) s8 0 3 [104; 105] [104; 105] 3 1);
    try (cbn; lia); [repeat split; done..| | |exact s8_byte_inj]; repeat constructor; by vm_compute.
Defined.
