(* ===== verification/CStringLit.v ===== *)
(** * Searching strings, and string literals

    What strchr, memchr and strncmp of libc/string.c find on terminated
    strings, and the literals of the C code as lists of character codes. *)

From Stdlib Require Import Ascii String.
From stdpp Require Import strings.
From S2P Require Import Prelude CString CStringSpec.
#[local] Open Scope Z_scope.

(** The characters of a literal, without the terminator. *)
Fixpoint chars (s : string) : list Z :=
  match s with
  | EmptyString => []
  | String a s => Z.of_N (N_of_ascii a) :: chars s
  end.

Section Search.
Context (get : Z -> res Z).

Lemma cstring_app a b : forall p, cstring get p (a ++ b) -> cstring get (p + Z.of_nat (length a)) b.
Proof using Type.
  induction a as [|c a IH]; intros p H; cbn [app length cstring] in *.
  - by rewrite Z.add_0_r.
  - destruct H as (_ & _ & H). replace (p + Z.of_nat (S (length a))) with (p + 1 + Z.of_nat (length a)) by lia. by apply IH.
Qed.

Lemma cstring_get s i c : forall p, cstring get p s -> s !! i = Some c -> get (p + Z.of_nat i) = Ok c.
Proof using Type.
  revert i. induction s as [|d s IH]; intros [|i] p H Hi; try done; cbn [cstring] in H; destruct H as (H1 & _ & H2).
  - injection Hi as <-. by rewrite Z.add_0_r.
  - replace (p + Z.of_nat (S i)) with (p + 1 + Z.of_nat i) by lia. by apply IH.
Qed.

(** [strchr] returns the first occurrence. *)
Lemma strchr_found a c b : forall p fuel,
  cstring get p (a ++ c :: b) -> c ∉ a -> 0 < c < 256 -> (length a < fuel)%nat ->
  strchr get fuel p c = Ok (p + Z.of_nat (length a)).
Proof using Type.
  induction a as [|d a IH]; intros p [|fuel] Hs Hn Hc Hf; cbn [length] in Hf; try lia; cbn [strchr app cstring] in *;
    destruct Hs as (-> & Hd & Hs); rewrite bind_Ok; unfold u8; rewrite (Z.mod_small c) by lia.
  - by rewrite Z.eqb_refl, Z.add_0_r.
  - apply not_elem_of_cons in Hn as [Hne Hn]. rewrite (proj2 (Z.eqb_neq d c)), (proj2 (Z.eqb_neq d 0)) by congruence.
    rewrite IH by (done || lia). f_equal. cbn [length]. lia.
Qed.

Lemma strchr_none s c : forall p fuel,
  cstring get p s -> c ∉ s -> 0 < c < 256 -> (length s < fuel)%nat -> strchr get fuel p c = Ok 0.
Proof using Type.
  induction s as [|d s IH]; intros p [|fuel] Hs Hn Hc Hf; cbn [length] in Hf; try lia; cbn [strchr cstring] in *.
  - rewrite Hs, bind_Ok. unfold u8. rewrite (Z.mod_small c), (proj2 (Z.eqb_neq 0 c)) by lia. done.
  - destruct Hs as (-> & Hd & Hs). apply not_elem_of_cons in Hn as [Hne Hn]. rewrite bind_Ok. unfold u8.
    rewrite (Z.mod_small c), (proj2 (Z.eqb_neq d c)), (proj2 (Z.eqb_neq d 0)) by (congruence || lia). apply IH; (done || lia).
Qed.

(** [memchr] over the first [n] characters of a string. *)
Lemma memchr_ok s c n p :
  cstring get p s -> 0 < p -> 0 <= c < 256 -> (n <= length s)%nat ->
  exists r, memchr get p c (Z.of_nat n) = Ok r /\ (r = 0 <-> c ∉ take n s).
Proof using Type.
  unfold memchr. rewrite Nat2Z.id. revert n p. induction s as [|d s IH]; intros [|n] p Hs Hp Hc Hn; cbn [length] in Hn; try lia;
    cbn [memchr_loop take firstn]; try (exists 0; split; [done|]; split; [intros _; apply not_elem_of_nil|done]).
  destruct Hs as (-> & Hd & Hs). rewrite bind_Ok. unfold u8. rewrite (Z.mod_small c) by lia. destruct (Z.eqb_spec d c) as [->|Hne].
  - exists p. split; [done|]. split; [lia|]. intros Hno. destruct Hno. by left.
  - destruct (IH n (p + 1) Hs ltac:(lia) Hc ltac:(lia)) as (r & E & Hr). unfold u8 in E. rewrite (Z.mod_small c) in E by lia.
    exists r. split; [done|]. rewrite Hr, not_elem_of_cons. naive_solver.
Qed.

(** [strncmp] compares the strings cut after [n] characters. *)
Lemma strncmp_ok as_char s1 : forall s2 n p1 p2,
  (forall a b, is_byte a -> is_byte b -> as_char a = as_char b -> a = b) ->
  Forall is_byte s1 -> Forall is_byte s2 -> cstring get p1 s1 -> cstring get p2 s2 ->
  exists r, strncmp_loop get as_char n p1 p2 = Ok r /\ (r = 0 <-> take n s1 = take n s2).
Proof using Type.
  induction s1 as [|c s1 IH]; intros s2 [|n] p1 p2 Hinj B1 B2 H1 H2; cbn [strncmp_loop take firstn]; try (by exists 0);
    cbn [cstring] in H1; assert (is_byte 0) as B0 by done.
  - rewrite H1, bind_Ok. destruct s2 as [|d s2]; cbn [cstring] in H2; [rewrite H2|destruct H2 as (-> & Hd & _)]; rewrite bind_Ok; cbn [negb andb Z.eqb];
      eexists; (split; [done|]); split; try done; [lia|]. apply Forall_cons in B2 as [Bd _]. intros E. assert (0 = d) by (apply Hinj; auto; lia). lia.
  - destruct H1 as (-> & Hc & H1). apply Forall_cons in B1 as [Bc B1]. rewrite bind_Ok.
    destruct s2 as [|d s2]; cbn [cstring] in H2; [rewrite H2|destruct H2 as (-> & Hd & H2)]; rewrite bind_Ok, (proj2 (Z.eqb_neq c 0) Hc); cbn [negb andb].
    + eexists. split; [done|]. split; [|done]. intros E. assert (c = 0) by (apply Hinj; auto; lia). lia.
    + apply Forall_cons in B2 as [Bd B2]. destruct (Z.eqb_spec c d) as [->|Hne].
      * destruct (IH s2 n (p1 + 1) (p2 + 1)) as (r & -> & Hr); auto. exists r. split; [done|]. rewrite Hr. split; [by intros ->|by intros [= ?]].
      * eexists. split; [done|]. split; [|by intros [= ? _]]. intros E. destruct Hne. apply Hinj; auto; lia.
Qed.
End Search.

Lemma chars_bytes s : Forall is_byte (chars s).
Proof.
  induction s as [|a s IH]; cbn [chars]; constructor; [|done]. unfold is_byte. destruct a as [[] [] [] [] [] [] [] []]; by vm_compute.
Qed.
