(* ===== verification/DwarfLeb.v ===== *)
(** * loader/dwarf/helpers.h: variable-length integers and raw fields

    Pointers into a section are offsets into the buffer that holds it; [end_]
    is the offset the reader must not pass.  The readers return false ([None])
    on truncated or overlong input. *)

From S2P Require Import Prelude.
#[local] Open Scope Z_scope.

Section Leb.
Context (buf : list Z).

(** The loop of [dwarf_read_uleb_impl]: value, final shift and new position.
    The shift stops it after ten bytes, so eleven turns are enough. *)
Fixpoint uleb_loop (fuel : nat) (p end_ result shift : Z) : res (option (Z * Z * Z)) :=
  match fuel with
  | O => NoFuel
  | S fuel =>
      if p >=? end_ then Ok None
      else if shift >=? 64 then Ok None
      else
        byte ← rd buf p;
        let result := Z.lor result (shl64 (Z.land byte 0x7f) shift) in
        if Z.land byte 0x80 =? 0 then Ok (Some (result, shift + 7, p + 1))
        else uleb_loop fuel (p + 1) end_ result (shift + 7)
  end.

Definition dwarf_read_uleb_impl (p end_ : Z) : res (option (Z * Z * Z)) :=
  uleb_loop 11 p end_ 0 0.

Definition dwarf_read_uleb (p end_ : Z) : res (option (Z * Z)) :=
  let? (value, _, p) := dwarf_read_uleb_impl p end_ in Ok (Some (value, p)).

Definition dwarf_read_sleb (p end_ : Z) : res (option (Z * Z)) :=
  let? (value, shift, p) := dwarf_read_uleb_impl p end_ in
  let result := s64 value in
  let result :=
    if (shift <? 64) && negb (Z.land (Z.shiftr result (shift - 1)) 1 =? 0)
    then s64 (Z.lor (u64 result) (shl64 UINT64_MAX shift))
    else result in
  Ok (Some (result, p)).

Definition dwarf_read_bytes (p end_ bytes : Z) : res (option (Z * Z)) :=
  if u64 (end_ - p) <? bytes then Ok None
  else v ← read_le buf p (Z.to_nat bytes); Ok (Some (v, p + bytes)).
End Leb.

(** ** The readers stay inside the buffer *)

(** One step of a [returns] or [nofault] goal. *)
Ltac rbind := eapply returns_bind; [|intros ? ?; cbv beta in *].
Ltac rbindo := eapply returns_bindo; [|intros ? ?; cbv beta in *].

Section LebSafe.
Context (buf : list Z) (HB : bytes_ok buf).
Abbreviation len := (Z.of_nat (length buf)).

(** The position moved forward, and not past [end_]. *)
Definition moved {A} (p end_ : Z) (r : A * Z) : Prop := p < r.2 <= end_.

Lemma uleb_loop_safe fuel : forall p end_ result shift,
  0 <= p -> end_ <= len -> 0 <= shift <= 70 -> is_u64 result -> 70 - shift < 7 * Z.of_nat fuel ->
  returns (uleb_loop buf fuel p end_ result shift)
    (if_some (fun r => p < r.2 <= end_ /\ is_u64 r.1.1 /\ shift < r.1.2 <= 70)).
Proof using HB.
  induction fuel as [|fuel IH]; intros p end_ result shift Hp He Hs Hr Hf; [lia|]. cbn [uleb_loop].
  rewrite Z.geb_leb. destruct (Z.leb_spec end_ p); [apply returns_false|].
  rewrite Z.geb_leb. destruct (Z.leb_spec 64 shift); [apply returns_false|].
  eapply returns_bind; [apply rd_returns; [done|lia]|]. intros b Hb. cbv zeta.
  assert (is_u64 (Z.lor result (shl64 (Z.land b 127) shift))) as Hr'. by (apply lor_u64; [done|apply shl64_range]).
  destruct (Z.land b 128 =? 0).
  - apply returns_Ok. cbn [if_some fst snd]. split_and!; try done; lia.
  - eapply returns_mono; [apply IH; try done; lia|]. intros [r|]; cbn [if_some]; [|done].
    intros (? & ? & ?). split_and!; try done; lia.
Qed.

Lemma read_uleb_safe p end_ :
  0 <= p -> end_ <= len ->
  returns (dwarf_read_uleb buf p end_) (if_some (fun r => p < r.2 <= end_ /\ is_u64 r.1)).
Proof using HB.
  intros Hp He. unfold dwarf_read_uleb, dwarf_read_uleb_impl.
  eapply returns_bindo; [apply uleb_loop_safe; unfold is_u64; done || lia|].
  intros [[v s] q] (? & ? & ?). by apply returns_Ok.
Qed.

Lemma s64_range x : - 2 ^ 63 <= s64 x < 2 ^ 63.
Proof using Type.
  unfold s64, signed. pose proof (Z.mod_pos_bound x (2 ^ 64) ltac:(lia)).
  destruct (Z.ltb_spec (x mod 2 ^ 64) (2 ^ (64 - 1))); lia.
Qed.

Lemma read_sleb_safe p end_ :
  0 <= p -> end_ <= len ->
  returns (dwarf_read_sleb buf p end_)
    (if_some (fun r => p < r.2 <= end_ /\ - 2 ^ 63 <= r.1 < 2 ^ 63)).
Proof using HB.
  intros Hp He. unfold dwarf_read_sleb, dwarf_read_uleb_impl.
  eapply returns_bindo; [apply uleb_loop_safe; unfold is_u64; done || lia|].
  intros [[v s] q] (? & ? & ?). apply returns_Ok. cbn [if_some fst snd]. split; [done|].
  destruct (_ && _); apply s64_range.
Qed.

Lemma read_bytes_safe p end_ n :
  0 <= p <= end_ -> end_ <= len -> is_u64 len -> 0 <= n ->
  returns (dwarf_read_bytes buf p end_ n)
    (if_some (fun r => r.2 = p + n /\ r.2 <= end_ /\ 0 <= r.1 < 256 ^ n)).
Proof using HB.
  intros Hp He Hl Hn. unfold dwarf_read_bytes, is_u64 in *. rewrite u64_small by (unfold is_u64; lia).
  destruct (Z.ltb_spec (end_ - p) n); [apply returns_false|].
  eapply returns_bind; [apply read_le_returns; [done|lia|lia]|]. intros v Hv. apply returns_Ok.
  cbn [if_some fst snd]. cbv beta in Hv. rewrite Z2Nat.id in Hv by done. split_and!; lia.
Qed.
End LebSafe.

(** ** What the readers decode

    Seven-bit digits, least significant first, with the continuation bit on
    all but the last: the format both encodings share. *)
Fixpoint leb_bytes (ds : list Z) : list Z :=
  match ds with
  | [] => []
  | [d] => [d]
  | d :: ds => (d + 128) :: leb_bytes ds
  end.

Fixpoint leb_value (ds : list Z) : Z :=
  match ds with [] => 0 | d :: ds => d + 128 * leb_value ds end.

Definition digits_ok (ds : list Z) : Prop := Forall (fun d => 0 <= d < 128) ds.

Lemma leb_value_range ds : digits_ok ds -> 0 <= leb_value ds < 2 ^ (7 * Z.of_nat (length ds)).
Proof.
  induction 1 as [|d ds Hd _ IH]; [cbn; lia|]. cbn [leb_value length].
  rewrite Nat2Z.inj_succ. replace (7 * Z.succ (Z.of_nat (length ds))) with (7 + 7 * Z.of_nat (length ds)) by lia.
  rewrite Z.pow_add_r by lia. change (2 ^ 7) with 128. lia.
Qed.

Lemma digit_low d : 0 <= d < 128 -> Z.land d 127 = d /\ Z.land d 128 = 0.
Proof.
  intros Hd. split.
  - change 127 with (Z.ones 7). rewrite Z.land_ones by lia. apply Z.mod_small. lia.
  - apply Z.bits_inj'. intros n Hn. rewrite Z.land_spec, Z.bits_0. change 128 with (2 ^ 7).
    destruct (decide (n = 7)) as [->|]; [|rewrite Z.pow2_bits_false by lia; apply andb_false_r].
    rewrite <- (Z.mod_small d (2 ^ 7)) by lia. by rewrite Z.mod_pow2_bits_high by lia.
Qed.

Lemma digit_high d : 0 <= d < 128 -> Z.land (d + 128) 127 = d /\ Z.land (d + 128) 128 <> 0.
Proof.
  intros Hd. assert (Z.land (d + 128) 127 = d) as E.
  { change 127 with (Z.ones 7). rewrite Z.land_ones by lia.
    change 128 with (1 * 2 ^ 7). rewrite Z.mod_add by lia. apply Z.mod_small. lia. }
  split; [done|]. intros E2.
  assert (Z.testbit (Z.land (d + 128) 128) 7 = false) as H by (by rewrite E2, Z.bits_0).
  rewrite Z.land_spec in H. change 128 with (2 ^ 7) in H. rewrite Z.pow2_bits_true, andb_true_r in H by lia.
  rewrite Z.testbit_false in H by lia. change (d + 2 ^ 7) with (d + 1 * 2 ^ 7) in H.
  rewrite Z.div_add, Z.div_small in H by lia. discriminate.
Qed.

(** Adding one digit to the accumulator. *)
Lemma uleb_acc r d k :
  0 <= k -> 0 <= r < 2 ^ k -> 0 <= d -> k < 64 ->
  Z.lor r (shl64 d k) = u64 (r + d * 2 ^ k).
Proof.
  intros Hk Hr Hd Hk64. unfold shl64. rewrite Z.shiftl_mul_pow2 by done.
  rewrite <- (lor_add_pow2 r d k) by done. rewrite !u64_land, Z.land_lor_distr_l. f_equal.
  rewrite <- u64_land. symmetry. apply u64_small. split; [lia|].
  apply Z.lt_le_trans with (2 ^ k); [lia|]. apply Z.pow_le_mono_r; lia.
Qed.

Lemma leb_bytes_cons d d' ds : leb_bytes (d :: d' :: ds) = (d + 128) :: leb_bytes (d' :: ds).
Proof. reflexivity. Qed.

(** The loop reads the digits it is given, modulo 2^64. *)
Lemma uleb_loop_digits buf end_ ds : forall fuel p r k pre post,
  buf = pre ++ leb_bytes ds ++ post -> p = Z.of_nat (length pre) ->
  ds <> [] -> digits_ok ds -> p + Z.of_nat (length ds) <= end_ ->
  0 <= k -> (k + 7 * Z.of_nat (length ds) <= 70) -> (length ds <= fuel)%nat -> (0 <= r < 2 ^ k) ->
  uleb_loop buf fuel p end_ r k =
    Ok (Some (u64 (r + leb_value ds * 2 ^ k), k + 7 * Z.of_nat (length ds), p + Z.of_nat (length ds))).
Proof.
  induction ds as [|d ds IH]; intros fuel p r k pre post -> -> Hne Hds He Hk Hk70 Hf Hr; [done|].
  apply Forall_cons in Hds as [Hd Hds]. destruct fuel as [|fuel]; [cbn in Hf; lia|].
  cbn [uleb_loop length] in *. rewrite Z.geb_leb. destruct (Z.leb_spec end_ (Z.of_nat (length pre))); [lia|].
  rewrite Z.geb_leb. destruct (Z.leb_spec 64 k); [lia|].
  destruct ds as [|d' ds].
  - cbn [leb_bytes]. rewrite <- (Z.add_0_r (Z.of_nat (length pre))) at 1. rewrite rd_app_r by lia.
    change (rd ([d] ++ post) 0) with (Ok d). rewrite bind_Ok.
    destruct (digit_low d Hd) as [-> ->]. cbn [Z.eqb]. rewrite uleb_acc by lia.
    cbn [leb_value length]. do 5 f_equal; lia.
  - rewrite leb_bytes_cons. rewrite <- (Z.add_0_r (Z.of_nat (length pre))) at 1. rewrite rd_app_r by lia.
    rewrite <- app_comm_cons. change (rd (d + 128 :: _) 0) with (Ok (d + 128)). rewrite bind_Ok.
    destruct (digit_high d Hd) as [-> Hh]. rewrite (proj2 (Z.eqb_neq _ _) Hh). rewrite uleb_acc by lia.
    assert (r + d * 2 ^ k < 2 ^ (k + 7)) as Hacc.
    { rewrite Z.pow_add_r by lia. change (2 ^ 7) with 128. nia. }
    assert (k + 7 <= 63) by (cbn [length] in *; lia).
    assert (2 ^ (k + 7) <= 2 ^ 63) by (apply Z.pow_le_mono_r; lia).
    assert (u64 (r + d * 2 ^ k) = r + d * 2 ^ k) as -> by (apply u64_small; unfold is_u64; nia).
    rewrite (IH fuel _ _ _ (pre ++ [d + 128]) post); try done; try (cbn [length] in *; lia).
    + assert (leb_value (d' :: ds) * 2 ^ (k + 7) = 128 * leb_value (d' :: ds) * 2 ^ k) as E
        by (rewrite Z.pow_add_r by lia; change (2 ^ 7) with 128; ring).
      rewrite E. change (leb_value (d :: d' :: ds)) with (d + 128 * leb_value (d' :: ds)).
      cbn [length]. do 3 f_equal; [f_equal|]; [|lia..]. f_equal. ring.
    + by rewrite <- app_assoc.
    + rewrite length_app. cbn. lia.
Qed.

(** The reference encoders of the DWARF standard. *)
Fixpoint uleb_digits (fuel : nat) (n : Z) : list Z :=
  match fuel with
  | O => [n]
  | S fuel => if n <? 128 then [n] else n mod 128 :: uleb_digits fuel (n / 128)
  end.

Fixpoint sleb_digits (fuel : nat) (n : Z) : list Z :=
  match fuel with
  | O => [n mod 128]
  | S fuel =>
      if (-64 <=? n) && (n <? 64) then [n mod 128]
      else n mod 128 :: sleb_digits fuel (n / 128)
  end.

Definition uleb_encode (n : Z) : list Z := leb_bytes (uleb_digits 9 n).
Definition sleb_encode (n : Z) : list Z := leb_bytes (sleb_digits 9 n).

Lemma leb_bytes_length ds : length (leb_bytes ds) = length ds.
Proof. induction ds as [|d [|d' ds] IH]; [done|done|]. rewrite leb_bytes_cons. cbn [length] in *. lia. Qed.

Lemma uleb_digits_ok fuel : forall n, 0 <= n < 128 * 128 ^ Z.of_nat fuel ->
  let ds := uleb_digits fuel n in
  ds <> [] /\ digits_ok ds /\ (length ds <= S fuel)%nat /\ leb_value ds = n.
Proof.
  induction fuel as [|fuel IH]; intros n Hn; cbn [uleb_digits].
  - cbn in *. split_and!; [done|by constructor; [lia|]|lia|lia].
  - destruct (Z.ltb_spec n 128); [cbn; split_and!; [done|by constructor; [lia|]|lia|lia]|].
    destruct (IH (n / 128)) as (H1 & H2 & H3 & H4).
    { rewrite Nat2Z.inj_succ, Z.pow_succ_r in Hn by apply Nat2Z.is_nonneg. split; [apply Z.div_pos; lia|].
      apply Z.div_lt_upper_bound; lia. }
    cbv zeta. split_and!; [done| |cbn; lia|].
    + constructor; [apply Z.mod_pos_bound; lia|done].
    + cbn [leb_value]. rewrite H4. pose proof (Z.div_mod n 128). lia.
Qed.

(** The digits of a signed number are those of its residue. *)
Lemma sleb_digits_ok fuel : forall n, - 64 * 128 ^ Z.of_nat fuel <= n < 64 * 128 ^ Z.of_nat fuel ->
  let ds := sleb_digits fuel n in
  let k := 7 * Z.of_nat (length ds) in
  ds <> [] /\ digits_ok ds /\ (length ds <= S fuel)%nat /\
  leb_value ds = n mod 2 ^ k /\ - 2 ^ (k - 1) <= n < 2 ^ (k - 1).
Proof.
  assert (forall n, 0 <= n mod 128 < 128) as Hm by (intros; apply Z.mod_pos_bound; lia).
  assert (forall n, -64 <= n < 64 -> [n mod 128] <> [] /\ digits_ok [n mod 128] /\
    leb_value [n mod 128] = n mod 2 ^ (7 * 1) /\ - 2 ^ (7 * 1 - 1) <= n < 2 ^ (7 * 1 - 1)) as Hlast.
  { intros n Hn. split_and!; [done|by constructor|cbn [leb_value]; change (2 ^ (7 * 1)) with 128; lia|lia|lia]. }
  induction fuel as [|fuel IH]; intros n Hn; cbn [sleb_digits].
  - destruct (Hlast n) as (?&?&?&?&?); [cbn in Hn; lia|]. split_and!; auto; cbn; lia.
  - destruct (Z.leb_spec (-64) n), (Z.ltb_spec n 64); cbn [andb];
      try (destruct (Hlast n) as (?&?&?&?&?); [lia|]; split_and!; auto; cbn; lia).
    all: destruct (IH (n / 128)) as (H1 & H2 & H3 & H4 & H5);
      [rewrite Nat2Z.inj_succ, Z.pow_succ_r in Hn by apply Nat2Z.is_nonneg;
       split; [apply Z.div_le_lower_bound; lia|apply Z.div_lt_upper_bound; lia]|];
      set (ds := sleb_digits fuel (n / 128)) in *; cbv zeta;
      set (k := 7 * Z.of_nat (length ds)) in *;
      assert (7 * Z.of_nat (length (n mod 128 :: ds)) = 7 + k) as -> by (cbn; lia);
      assert (0 < k) by (destruct ds; [done|]; unfold k; cbn; lia);
      pose proof (Z.div_mod n 128 ltac:(lia)) as Hdm;
      (split_and!; [done|by constructor|cbn; lia| | |]).
    all: try (replace (7 + k - 1) with (7 + (k - 1)) by lia; rewrite Z.pow_add_r by lia;
      change (2 ^ 7) with 128; specialize (Hm n); lia).
    all: cbn [leb_value]; rewrite H4, Z.pow_add_r by lia; change (2 ^ 7) with 128;
      rewrite Z.rem_mul_r by lia; lia.
Qed.

(** reading the unsigned LEB128 encoding of any 64-bit value, wherever it
    stands in the section, gives the value back and ends just behind it. *)
Theorem dwarf_uleb_roundtrip pre post end_ n :
  is_u64 n -> Z.of_nat (length pre + length (uleb_encode n)) <= end_ ->
  dwarf_read_uleb (pre ++ uleb_encode n ++ post) (Z.of_nat (length pre)) end_ =
    Ok (Some (n, Z.of_nat (length pre + length (uleb_encode n)))).
Proof.
  intros Hn He. destruct (uleb_digits_ok 9 n) as (H1 & H2 & H3 & H4).
  { unfold is_u64 in Hn. change (128 * 128 ^ Z.of_nat 9) with (2 ^ 70). lia. }
  unfold uleb_encode in *. rewrite leb_bytes_length in *.
  unfold dwarf_read_uleb, dwarf_read_uleb_impl.
  erewrite uleb_loop_digits; [|reflexivity|reflexivity|exact H1|exact H2|..]; [|lia..].
  cbn [bindo]. unfold bindo. rewrite bind_Ok, H4. rewrite Z.pow_0_r, Z.mul_1_r, Z.add_0_l, u64_small by done.
  do 3 f_equal. lia.
Qed.

Lemma dwarf_uleb_roundtrip_witness :
  dwarf_read_uleb ([7] ++ uleb_encode 624485 ++ [9]) 1 5 = Ok (Some (624485, 4)).
Proof. apply (dwarf_uleb_roundtrip [7] [9] 5 624485); [split; lia|by vm_compute]. Defined.

(** Sign extension of a [k]-bit residue. *)
Lemma sign_extend n k :
  0 < k < 64 -> - 2 ^ (k - 1) <= n < 2 ^ (k - 1) ->
  let v := n mod 2 ^ k in
  (if negb (Z.land (Z.shiftr (s64 v) (k - 1)) 1 =? 0)
   then s64 (Z.lor (u64 (s64 v)) (shl64 UINT64_MAX k)) else s64 v) = n.
Proof.
  intros Hk Hn. cbv zeta. set (v := n mod 2 ^ k).
  assert (2 ^ k = 2 * 2 ^ (k - 1)) as E2 by (rewrite <- Z.pow_succ_r by lia; f_equal; lia).
  assert (2 ^ k <= 2 ^ 63) as Hk63 by (apply Z.pow_le_mono_r; lia).
  assert (0 <= v < 2 ^ k) as Hv by (apply Z.mod_pos_bound; lia).
  assert (s64 v = v) as Hsv.
  { unfold s64, signed. rewrite Z.mod_small by lia. destruct (Z.ltb_spec v (2 ^ (64 - 1))); lia. }
  rewrite Hsv, Z.shiftr_div_pow2 by lia.
  assert (forall x, Z.land x 1 = x mod 2) as Hl by (intros x; apply (Z.land_ones x 1); lia).
  rewrite Hl. clear Hl.
  destruct (Z.lt_ge_cases n 0) as [Hneg|Hpos].
  - assert (v = n + 2 ^ k) as Ev by (unfold v; rewrite <- (Z.mod_add n 1), Z.mul_1_l by lia; apply Z.mod_small; lia).
    assert (v / 2 ^ (k - 1) = 1) as -> by (symmetry; apply (Z.div_unique_pos _ _ _ (v - 2 ^ (k - 1))); lia).
    cbn [negb Z.eqb Z.modulo Z.div_eucl Z.pos_div_eucl]. change (negb (1 mod 2 =? 0)) with true. cbv iota.
    rewrite (u64_small v) by (unfold is_u64; lia). unfold shl64. rewrite Z.shiftl_mul_pow2 by lia.
    assert (u64 (UINT64_MAX * 2 ^ k) = (2 ^ (64 - k) - 1) * 2 ^ k) as ->.
    { unfold u64, UINT64_MAX. assert (2 ^ 64 = 2 ^ (64 - k) * 2 ^ k) as E
        by (rewrite <- Z.pow_add_r by lia; f_equal; lia).
      symmetry. apply Z.mod_unique with (2 ^ k - 1); [left|]; rewrite ?E; nia. }
    rewrite lor_add_pow2 by lia. assert (2 ^ 64 = 2 ^ (64 - k) * 2 ^ k) as E
      by (rewrite <- Z.pow_add_r by lia; f_equal; lia).
    replace (v + (2 ^ (64 - k) - 1) * 2 ^ k) with (n + 2 ^ 64) by (rewrite E, Ev; ring).
    unfold s64, signed. rewrite <- (Z.mod_add _ (-1)) by lia.
    replace (n + 2 ^ 64 + -1 * 2 ^ 64) with n by lia.
    assert (n mod 2 ^ 64 = n + 2 ^ 64) as -> by (rewrite <- (Z.mod_add n 1), Z.mul_1_l by lia; apply Z.mod_small; lia).
    destruct (Z.ltb_spec (n + 2 ^ 64) (2 ^ (64 - 1))); lia.
  - assert (v = n) as Ev by (apply Z.mod_small; lia).
    rewrite Ev, Z.div_small by lia. reflexivity.
Qed.

(** reading the signed LEB128 encoding of any 64-bit signed value gives
    the value back, sign included. *)
Theorem dwarf_sleb_roundtrip pre post end_ n :
  - 2 ^ 63 <= n < 2 ^ 63 -> Z.of_nat (length pre + length (sleb_encode n)) <= end_ ->
  dwarf_read_sleb (pre ++ sleb_encode n ++ post) (Z.of_nat (length pre)) end_ =
    Ok (Some (n, Z.of_nat (length pre + length (sleb_encode n)))).
Proof.
  intros Hn He. destruct (sleb_digits_ok 9 n) as (H1 & H2 & H3 & H4 & H5).
  { change (64 * 128 ^ Z.of_nat 9) with (2 ^ 69). change (- 64 * 128 ^ Z.of_nat 9) with (- 2 ^ 69). lia. }
  unfold sleb_encode in *. rewrite leb_bytes_length in *. set (ds := sleb_digits 9 n) in *.
  unfold dwarf_read_sleb, dwarf_read_uleb_impl.
  erewrite uleb_loop_digits; [|reflexivity|reflexivity|exact H1|exact H2|..]; [|lia..].
  unfold bindo. rewrite bind_Ok, Z.pow_0_r, Z.mul_1_r, !Z.add_0_l. cbv zeta.
  set (k := 7 * Z.of_nat (length ds)) in *.
  assert (0 < k) by (destruct ds; [done|unfold k; cbn [length]; lia]).
  do 3 f_equal; [|lia]. rewrite H4. destruct (Z.ltb_spec k 64) as [Hk|Hk]; cbn [andb].
  - rewrite u64_small; [by apply sign_extend|].
    pose proof (Z.mod_pos_bound n (2 ^ k) ltac:(lia)). unfold is_u64.
    assert (2 ^ k < 2 ^ 64) by (apply Z.pow_lt_mono_r; lia). lia.
  - assert (k = 70) as -> by (unfold k in *; lia).
    unfold s64, signed, u64. rewrite Z.mod_mod by lia.
    replace (n mod 2 ^ 70) with (n + - (n / 2 ^ 70) * 2 ^ 6 * 2 ^ 64)
      by (pose proof (Z.div_mod n (2 ^ 70) ltac:(lia)); lia).
    rewrite Z.mod_add by lia. change (2 ^ (64 - 1)) with (2 ^ 63).
    destruct (Z.lt_ge_cases n 0).
    + assert (n mod 2 ^ 64 = n + 2 ^ 64) as -> by (rewrite <- (Z.mod_add n 1), Z.mul_1_l by lia; apply Z.mod_small; lia).
      destruct (Z.ltb_spec (n + 2 ^ 64) (2 ^ 63)); lia.
    + rewrite Z.mod_small by lia. destruct (Z.ltb_spec n (2 ^ 63)); lia.
Qed.

Lemma dwarf_sleb_roundtrip_witness :
  dwarf_read_sleb ([7; 7] ++ sleb_encode (-123456) ++ []) 2 5 = Ok (Some (-123456, 5)).
Proof. apply (dwarf_sleb_roundtrip [7; 7] [] 5 (-123456)); [split; lia|by vm_compute]. Defined.
