(* ===== verification/DwarfCfi.v ===== *)
(** * loader/dwarf/{fde,cfi}.c: call frame information

    [dwarf_get_fde] finds the frame description of a program counter in
    .debug_frame; [dwarf_cfi_execute] interprets its opcodes.  The section is a
    buffer, pointers are offsets into it.  On failure the out-structures are
    not looked at again by any caller, so they are not part of the result. *)

From S2P Require Import Prelude DwarfLeb.
#[local] Open Scope Z_scope.

Definition CFI_STACK_DEPTH_MAX : Z := 2.
Definition DWARF_MAX_REGS : Z := 32.

Inductive cfi_rule_kind := CFI_SAME_VALUE | CFI_OFFSET.

#[export] Instance cfi_rule_kind_eq_dec : EqDecision cfi_rule_kind.
Proof. solve_decision. Defined.

Record cfi_rule := CfiRule { kind : cfi_rule_kind; reg_num : Z; offset : Z }.
Record cfi_rules := CfiRules { cfa : cfi_rule; rregs : list cfi_rule }.
Record cfi_state := CfiState {
  cfi_baseline : cfi_rules;
  rules : list cfi_rules;
  regs : list Z;
  ra_col : Z;
  depth : Z;
  is_signal_frame : bool;
}.

Record dwarf_cie := DwarfCie {
  c_is_signal_frame : bool;
  c_offset : Z;
  code_align : Z;
  data_align : Z;
  c_ra_col : Z;
  addr_size : Z;
  seg_size : Z;
  c_opcodes_start : Z;
  c_opcodes_end : Z;
}.

Record dwarf_fde := DwarfFde { initial_location : Z; f_opcodes_start : Z; f_opcodes_end : Z }.

(** The bytes of 'S' and of the terminator. *)
Definition char_S : Z := 0x53.

Section Fde.
Context (section : list Z).

(** The fields of a [struct dwarf_entry_header] at [p]. *)
Definition e_length (p : Z) : res Z := read_le section p 4.
Definition e_id (p : Z) : res Z := read_le section (p + 4) 4.
Definition sizeof_entry_header : Z := 8.

Definition dwarf_get_cie (section_length cie_pointer : Z) : res (option Z) :=
  if u64 (cie_pointer + sizeof_entry_header) >? section_length then Ok None
  else
    id ← e_id cie_pointer;
    if negb (id =? UINT32_MAX) then Ok None
    else
      length_ ← e_length cie_pointer;
      if u64 (cie_pointer + 4 + length_) >? section_length then Ok None
      else Ok (Some cie_pointer).

(** [cie] is the offset of the packet. *)
Definition dwarf_decode_cie (cie : Z) : res (option dwarf_cie) :=
  length_ ← e_length cie;
  if length_ <? 5 then Ok None
  else
    version ← rd section (cie + 8);
    if negb (version =? 4) then Ok None
    else
      let end_ := cie + 4 + length_ in
      let p := cie + 9 in
      '(signal, p) ← (if p <? end_ then
                        b ← rd section p;
                        Ok (if b =? char_S then (true, p + 1) else (false, p))
                      else Ok (false, p));
      if p >=? end_ then Ok None
      else
        b ← rd section p;
        if negb (b =? 0) then Ok None
        else
          let p := p + 1 in
          if p + 2 >? end_ then Ok None
          else
            addr_size_ ← rd section p;
            seg_size_ ← rd section (p + 1);
            let p := p + 2 in
            if (addr_size_ =? 0) || (addr_size_ >? 8) then Ok None
            else
              let? (code_align_, p) := dwarf_read_uleb section p end_ in
              let? (data_align_, p) := dwarf_read_sleb section p end_ in
              let? (ra_col_, p) := dwarf_read_uleb section p end_ in
              if code_align_ =? 0 then Ok None
              else Ok (Some (DwarfCie signal cie code_align_ data_align_ ra_col_
                               addr_size_ seg_size_ p end_)).

(** The loop over the entries; [cie_out] is [None] while it is not valid.
    An entry takes at least eight bytes, so one turn per byte is enough. *)
Fixpoint get_fde_loop (fuel : nat) (section_length pc p : Z) (cie_out : option dwarf_cie)
    : res (option (dwarf_fde * dwarf_cie)) :=
  match fuel with
  | O => NoFuel
  | S fuel =>
      let end_ := section_length in
      if p + sizeof_entry_header <=? end_ then
        length_ ← e_length p;
        if length_ =? UINT32_MAX then Ok None
        else if length_ <? 4 then Ok None
        else if length_ >? u64 (end_ - p) - 4 then Ok None
        else
          let entry_end := p + 4 + length_ in
          id ← e_id p;
          if negb (id =? UINT32_MAX) then
            let? cie :=
              (if match cie_out with Some c => negb (c_offset c =? id) | None => true end then
                 let? packet := dwarf_get_cie section_length id in
                 dwarf_decode_cie packet
               else Ok cie_out) in
            if 4 + seg_size cie + 2 * addr_size cie >? length_ then Ok None
            else
              let cursor := p + 8 in
              let cursor := if negb (seg_size cie =? 0) then cursor + seg_size cie else cursor in
              initial ← read_le section cursor (Z.to_nat (addr_size cie));
              let cursor := cursor + addr_size cie in
              range ← read_le section cursor (Z.to_nat (addr_size cie));
              let cursor := cursor + addr_size cie in
              if (initial <=? pc) && negb (initial =? 0) && (u64 (pc - initial) <? range) then
                Ok (Some (DwarfFde initial cursor entry_end, cie))
              else get_fde_loop fuel section_length pc entry_end (Some cie)
          else get_fde_loop fuel section_length pc entry_end cie_out
      else Ok None
  end.

Definition dwarf_get_fde (section_length pc : Z) : res (option (dwarf_fde * dwarf_cie)) :=
  get_fde_loop (S (length section)) section_length pc 0 None.

(** ** cfi.c *)

Definition DW_CFA_advance_loc : Z := 0x40.
Definition DW_CFA_offset : Z := 0x80.
Definition DW_CFA_restore : Z := 0xC0.
Definition DW_CFA_nop : Z := 0x00.
Definition DW_CFA_advance_loc1 : Z := 0x02.
Definition DW_CFA_advance_loc2 : Z := 0x03.
Definition DW_CFA_advance_loc4 : Z := 0x04.
Definition DW_CFA_remember_state : Z := 0x0A.
Definition DW_CFA_restore_state : Z := 0x0B.
Definition DW_CFA_def_cfa : Z := 0x0C.
Definition DW_CFA_def_cfa_register : Z := 0x0D.
Definition DW_CFA_def_cfa_offset : Z := 0x0E.

(** [None]: the target was passed. *)
Definition cfi_advance (cur delta code_align_ target : Z) : option Z :=
  let next := u64 (cur + u64 (delta * code_align_)) in
  if next >? target then None else Some next.

(** Signed multiplication; the build traps on overflow. *)
Definition mul_s64 (a b : Z) : res Z :=
  let r := a * b in if (- 2 ^ 63 <=? r) && (r <? 2 ^ 63) then Ok r else Panic.

Definition zero_rule : cfi_rule := CfiRule CFI_SAME_VALUE 0 0.
Definition zero_rules : cfi_rules := CfiRules zero_rule (replicate 32 zero_rule).

(** Array accesses of [cfi_state], bounds included. *)
Definition index {A} (xs : list A) (i : Z) : res A :=
  if i <? 0 then Fault else of_option (xs !! Z.to_nat i).
Definition index_set {A} (xs : list A) (i : Z) (a : A) : res (list A) :=
  _ ← index xs i; Ok (<[Z.to_nat i := a]> xs).

Definition set_rules (s : cfi_state) (rs : list cfi_rules) : cfi_state :=
  CfiState (cfi_baseline s) rs (regs s) (ra_col s) (depth s) (is_signal_frame s).
Definition set_depth (s : cfi_state) (d : Z) : cfi_state :=
  CfiState (cfi_baseline s) (rules s) (regs s) (ra_col s) d (is_signal_frame s).

(** Update of [state->rules[state->depth]]. *)
Definition update_rules (s : cfi_state) (f : cfi_rules -> res cfi_rules) : res cfi_state :=
  r ← index (rules s) (depth s);
  r ← f r;
  rs ← index_set (rules s) (depth s) r;
  Ok (set_rules s rs).

Definition update_reg (s : cfi_state) (i : Z) (f : cfi_rule -> cfi_rule) : res cfi_state :=
  update_rules s (fun r =>
    old ← index (rregs r) i;
    rr ← index_set (rregs r) i (f old);
    Ok (CfiRules (cfa r) rr)).

Definition update_cfa (s : cfi_state) (f : cfi_rule -> cfi_rule) : res cfi_state :=
  update_rules s (fun r => Ok (CfiRules (f (cfa r)) (rregs r))).

(** What an opcode does: go on from position [p] with location [cur], or leave
    the loop with true.  A failing opcode is [None]. *)
Inductive cfi_next := Go (s : cfi_state) (p cur : Z) | Done (s : cfi_state).

Definition advance_to (s : cfi_state) (p cur delta code_align_ loc : Z) : cfi_next :=
  match cfi_advance cur delta code_align_ loc with
  | None => Done s
  | Some cur => Go s p cur
  end.

(** The body of the [while] loop: the opcode is at [p]. *)
Definition cfi_step (s : cfi_state) (cie : dwarf_cie) (opcodes_start end_ loc p cur : Z)
    : res (option cfi_next) :=
  byte ← rd section p;
  let p := p + 1 in
  let high := negb (Z.land byte 0xC0 =? 0) in
  let operandA := Z.land byte (Z.lnot 0xC0) in
  let opcode := if high then Z.land byte 0xC0 else byte in
  if opcode =? DW_CFA_advance_loc then
    Ok (Some (advance_to s p cur operandA (code_align cie) loc))
  else if (opcode =? DW_CFA_advance_loc1) || (opcode =? DW_CFA_advance_loc2)
          || (opcode =? DW_CFA_advance_loc4) then
    let operandB := Z.shiftl 1 (opcode - DW_CFA_advance_loc1) in
    let? (operandA, p) := dwarf_read_bytes section p end_ operandB in
    Ok (Some (advance_to s p cur operandA (code_align cie) loc))
  else if opcode =? DW_CFA_restore then
    if operandA >=? DWARF_MAX_REGS then Ok (Some (Go s p cur))
    else if c_opcodes_start cie =? opcodes_start then
      s ← update_reg s operandA (fun _ => zero_rule);
      Ok (Some (Go s p cur))
    else
      b ← index (rregs (cfi_baseline s)) operandA;
      s ← update_reg s operandA (fun _ => b);
      Ok (Some (Go s p cur))
  else if opcode =? DW_CFA_remember_state then
    if depth s + 1 >=? CFI_STACK_DEPTH_MAX then Ok None
    else
      r ← index (rules s) (depth s);
      rs ← index_set (rules s) (depth s + 1) r;
      Ok (Some (Go (set_depth (set_rules s rs) (u8 (depth s + 1))) p cur))
  else if opcode =? DW_CFA_restore_state then
    if depth s =? 0 then Ok None else Ok (Some (Go (set_depth s (u8 (depth s - 1))) p cur))
  else if opcode =? DW_CFA_offset then
    let? (operandB, p) := dwarf_read_uleb section p end_ in
    if operandA <? DWARF_MAX_REGS then
      off ← mul_s64 (s64 operandB) (data_align cie);
      s ← update_reg s operandA (fun r => CfiRule CFI_OFFSET (reg_num r) off);
      Ok (Some (Go s p cur))
    else Ok (Some (Go s p cur))
  else if opcode =? DW_CFA_def_cfa then
    let? (operandA, p) := dwarf_read_uleb section p end_ in
    let? (operandB, p) := dwarf_read_uleb section p end_ in
    if operandA >=? DWARF_MAX_REGS then Ok None
    else
      s ← update_cfa s (fun _ => CfiRule CFI_OFFSET (u8 operandA) (s64 operandB));
      Ok (Some (Go s p cur))
  else if opcode =? DW_CFA_def_cfa_register then
    let? (operandA, p) := dwarf_read_uleb section p end_ in
    if operandA >=? DWARF_MAX_REGS then Ok None
    else
      s ← update_cfa s (fun c => CfiRule (kind c) (u8 operandA) (offset c));
      Ok (Some (Go s p cur))
  else if opcode =? DW_CFA_def_cfa_offset then
    let? (operandA, p) := dwarf_read_uleb section p end_ in
    s ← update_cfa s (fun c => CfiRule (kind c) (reg_num c) (s64 operandA));
    Ok (Some (Go s p cur))
  else if opcode =? DW_CFA_nop then Ok (Some (Go s p cur))
  else Ok None.

Fixpoint cfi_loop (fuel : nat) (s : cfi_state) (cie : dwarf_cie) (opcodes_start end_ loc p cur : Z)
    : res (option cfi_state) :=
  match fuel with
  | O => NoFuel
  | S fuel =>
      if p <? end_ then
        let? n := cfi_step s cie opcodes_start end_ loc p cur in
        match n with
        | Go s p cur => cfi_loop fuel s cie opcodes_start end_ loc p cur
        | Done s => Ok (Some s)
        end
      else Ok (Some s)
  end.

(** Every opcode takes a byte. *)
Definition dwarf_cfi_execute (s : cfi_state) (cie : dwarf_cie) (opcodes_start opcodes_end loc : Z)
    : res (option cfi_state) :=
  cfi_loop (S (length section)) s cie opcodes_start opcodes_end loc opcodes_start 0.

Definition dwarf_cfi (section_length pc : Z) (s : cfi_state) : res (option cfi_state) :=
  let? (fde, cie) := dwarf_get_fde section_length pc in
  let s := CfiState (cfi_baseline s) [zero_rules; zero_rules] (regs s) (c_ra_col cie) 0
             (c_is_signal_frame cie) in
  let? s := dwarf_cfi_execute s cie (c_opcodes_start cie) (c_opcodes_end cie) 0 in
  r ← index (rules s) (depth s);
  let s := CfiState r (rules s) (regs s) (ra_col s) (depth s) (is_signal_frame s) in
  dwarf_cfi_execute s cie (f_opcodes_start fde) (f_opcodes_end fde) (u64 (pc - initial_location fde)).
End Fde.
