(* ===== verification/DwarfCfiSpec.v ===== *)
(** * Call frame information: the parser stays in the section, the machine in
      its state

    For any content of .debug_frame: [dwarf_get_fde] returns (it terminates and
    reads only inside the section), and the opcode interpreter keeps its
    register numbers and its stack depth in range. *)

From S2P Require Import Prelude DwarfLeb DwarfCfi.
#[local] Open Scope Z_scope.

(** Splits the guards of a [returns]/[nofault] goal. *)
Ltac guards :=
  repeat match goal with
  | |- context [if ?a >? ?b then _ else _] => rewrite (Z.gtb_ltb a b)
  | |- context [if ?a >=? ?b then _ else _] => rewrite (Z.geb_leb a b)
  end.

(** ** The opcode machine *)

Definition rules_ok (r : cfi_rules) : Prop :=
  length (rregs r) = 32%nat /\ 0 <= reg_num (cfa r) < DWARF_MAX_REGS.

Record cfi_ok (s : cfi_state) : Prop := {
  s_rules : Forall rules_ok (rules s);
  s_two : length (rules s) = 2%nat;
  s_base : length (rregs (cfi_baseline s)) = 32%nat;
  s_regs : length (regs s) = 32%nat;
  s_depth : 0 <= depth s < CFI_STACK_DEPTH_MAX;
  s_ra : 0 <= ra_col s;
}.

Lemma index_returns {A} (xs : list A) i (P : A -> Prop) :
  0 <= i < Z.of_nat (length xs) -> Forall P xs -> returns (index xs i) P.
Proof.
  intros Hi HP. unfold index. destruct (Z.ltb_spec i 0); [lia|].
  destruct (lookup_lt_is_Some_2 xs (Z.to_nat i)) as [a Ha]; [lia|]. rewrite Ha.
  apply returns_Ok. by apply (Forall_lookup_1 _ _ _ _ HP Ha).
Qed.

Lemma index_set_returns {A} (xs : list A) i a :
  0 <= i < Z.of_nat (length xs) -> returns (index_set xs i a) (fun ys => ys = <[Z.to_nat i := a]> xs).
Proof.
  intros Hi. unfold index_set. eapply returns_bind; [apply (index_returns xs i (fun _ => True)); [done|]|].
  - by apply Forall_true.
  - intros. by apply returns_Ok.
Qed.

Lemma update_rules_safe s f :
  cfi_ok s -> (forall r, rules_ok r -> returns (f r) rules_ok) -> returns (update_rules s f) cfi_ok.
Proof.
  intros [H1 H2 H3 H4 H5 H6] Hf. unfold update_rules, CFI_STACK_DEPTH_MAX in *.
  eapply returns_bind; [apply (index_returns _ _ rules_ok); [lia|done]|]. intros r Hr.
  eapply returns_bind; [by apply Hf|]. intros r' Hr'.
  eapply returns_bind; [apply index_set_returns; lia|]. intros rs ->. apply returns_Ok.
  split; cbn; auto; [by apply Forall_insert|by rewrite length_insert].
Qed.

Lemma update_reg_safe s i f :
  cfi_ok s -> 0 <= i < DWARF_MAX_REGS -> returns (update_reg s i f) cfi_ok.
Proof.
  intros Hs Hi. apply update_rules_safe; [done|]. intros r [Hr1 Hr2]. unfold DWARF_MAX_REGS in Hi.
  eapply returns_bind; [apply (index_returns _ _ (fun _ => True)); [lia|by apply Forall_true]|]. intros old _.
  eapply returns_bind; [apply index_set_returns; lia|]. intros rr ->. apply returns_Ok.
  split; cbn; [by rewrite length_insert|done].
Qed.

Lemma update_cfa_safe s f :
  cfi_ok s -> (forall c, 0 <= reg_num c < DWARF_MAX_REGS -> 0 <= reg_num (f c) < DWARF_MAX_REGS) ->
  returns (update_cfa s f) cfi_ok.
Proof.
  intros Hs Hf. apply update_rules_safe; [done|]. intros r [Hr1 Hr2]. apply returns_Ok. split; cbn; auto.
Qed.

(** The state after an opcode is good, and the position moved inside the code. *)
Definition next_ok (p end_ : Z) (n : cfi_next) : Prop :=
  match n with Go s p' _ => cfi_ok s /\ p < p' <= end_ | Done s => cfi_ok s end.

Lemma advance_to_ok s p0 p end_ cur d ca loc :
  cfi_ok s -> p0 < p <= end_ -> next_ok p0 end_ (advance_to s p cur d ca loc).
Proof. intros. unfold advance_to. by destruct (cfi_advance _ _ _ _). Qed.

(** An update of the state followed by the next opcode. *)
Lemma then_go (r : res cfi_state) p0 p end_ cur :
  returns r cfi_ok -> p0 < p <= end_ ->
  nofault (s ← r; Ok (Some (Go s p cur))) (if_some (next_ok p0 end_)).
Proof. intros (s & -> & Hs) Hp. cbn. by split. Qed.

Lemma operandA_range b : is_byte b -> 0 <= Z.land b (Z.lnot 0xC0).
Proof. unfold is_byte. intros. apply Z.land_nonneg. lia. Qed.

Section Fde.
Context (section : list Z) (HB : bytes_ok section).
Abbreviation len := (Z.of_nat (length section)).
Context (Hlen : len < 2 ^ 63).

Record cie_ok (section_length : Z) (c : dwarf_cie) : Prop := {
  co_addr : 1 <= addr_size c <= 8;
  co_seg : 0 <= seg_size c < 256;
  co_align : 0 < code_align c < 2 ^ 64;
  co_start : 0 <= c_opcodes_start c <= c_opcodes_end c;
  co_end : c_opcodes_end c <= section_length;
  co_offset : 0 <= c_offset c;
  co_ra : 0 <= c_ra_col c;
}.

Record fde_ok (section_length pc : Z) (f : dwarf_fde) : Prop := {
  fo_pc : 0 < initial_location f <= pc;
  fo_start : 0 <= f_opcodes_start f <= f_opcodes_end f;
  fo_end : f_opcodes_end f <= section_length;
}.

Lemma u32_field p : 0 <= p -> p + 4 <= len -> returns (read_le section p 4) (fun v => 0 <= v < 2 ^ 32).
Proof using HB. intros. apply (read_le_returns section 4 p); [done|lia|cbn; lia]. Qed.

Lemma get_cie_safe sl ptr :
  0 <= ptr < 2 ^ 32 -> 0 <= sl <= len ->
  returns (dwarf_get_cie section sl ptr)
    (if_some (fun c => c = ptr /\ exists l, e_length section ptr = Ok l /\ 0 <= l /\ ptr + 8 <= sl /\ ptr + 4 + l <= sl)).
Proof using HB Hlen.
  intros Hp Hsl. unfold dwarf_get_cie, sizeof_entry_header. guards.
  rewrite u64_small by (unfold is_u64; lia). destruct (Z.ltb_spec sl (ptr + 8)); [apply returns_false|].
  eapply returns_bind; [apply u32_field; lia|]. intros id Hid. cbv beta in Hid.
  destruct (negb (id =? UINT32_MAX)); [apply returns_false|].
  destruct (u32_field ptr) as (l & El & Hl); [lia|lia|]. unfold e_length at 1. rewrite El, bind_Ok. guards.
  rewrite u64_small by (unfold is_u64; lia). destruct (Z.ltb_spec sl (ptr + 4 + l)); [apply returns_false|].
  apply returns_Ok. cbn. split; [done|]. exists l. split_and!; try done; lia.
Qed.

Lemma decode_cie_safe sl cie l :
  0 <= cie -> 0 <= sl <= len -> e_length section cie = Ok l -> 0 <= l -> cie + 4 + l <= sl ->
  returns (dwarf_decode_cie section cie) (if_some (fun c => cie_ok sl c /\ c_offset c = cie)).
Proof using HB Hlen.
  intros Hc Hsl El Hl Hend. unfold dwarf_decode_cie. rewrite El, bind_Ok.
  destruct (Z.ltb_spec l 5); [apply returns_false|].
  eapply returns_bind; [apply rd_returns; [done|lia]|]. intros version _.
  destruct (negb (version =? 4)); [apply returns_false|]. cbv zeta.
  eapply returns_bind with (P := fun r => cie + 9 <= r.2 <= cie + 4 + l).
  { destruct (Z.ltb_spec (cie + 9) (cie + 4 + l)); [|apply returns_Ok; cbn; lia].
    eapply returns_bind; [apply rd_returns; [done|lia]|]. intros b _.
    apply returns_Ok. destruct (b =? char_S); cbn; lia. }
  intros [signal p] Hp. cbn [snd] in Hp. guards.
  destruct (Z.leb_spec (cie + 4 + l) p); [apply returns_false|].
  eapply returns_bind; [apply rd_returns; [done|lia]|]. intros b _.
  destruct (negb (b =? 0)); [apply returns_false|]. guards.
  destruct (Z.ltb_spec (cie + 4 + l) (p + 1 + 2)); [apply returns_false|].
  eapply returns_bind; [apply rd_returns; [done|lia]|]. intros asz Hasz.
  eapply returns_bind; [apply rd_returns; [done|lia]|]. intros ssz Hssz.
  unfold is_byte in *. rewrite Z.gtb_ltb.
  destruct (Z.eqb_spec asz 0), (Z.ltb_spec 8 asz); cbn [orb]; try apply returns_false.
  eapply returns_bindo; [apply read_uleb_safe; [done|lia|lia]|]. intros [ca p1] [Hq1 Hca]. cbn in Hq1, Hca.
  eapply returns_bindo; [apply read_sleb_safe; [done|lia|lia]|]. intros [da p2] [Hq2 _]. cbn in Hq2.
  eapply returns_bindo; [apply read_uleb_safe; [done|lia|lia]|]. intros [rc p3] [Hq3 Hrc]. cbn in Hq3, Hrc.
  destruct (Z.eqb_spec ca 0); [apply returns_false|].
  apply returns_Ok. cbn. unfold is_u64 in Hca, Hrc. split; [split; cbn; lia|done].
Qed.

Lemma get_fde_loop_safe sl pc : 0 <= sl <= len -> forall fuel p cie_out,
  0 <= p -> Z.of_nat fuel > sl - p -> (match cie_out with Some c => cie_ok sl c | None => True end) ->
  (p <= sl) ->
  returns (get_fde_loop section fuel sl pc p cie_out)
    (if_some (fun r => fde_ok sl pc r.1 /\ cie_ok sl r.2)).
Proof using HB Hlen.
  intros Hsl. induction fuel as [|fuel IH]; intros p co Hp Hf Hco Hpsl; [lia|]. cbn [get_fde_loop].
  unfold sizeof_entry_header. destruct (Z.leb_spec (p + 8) sl); [|apply returns_false].
  eapply returns_bind; [apply u32_field; lia|]. intros l Hl. cbv beta in Hl.
  destruct (l =? UINT32_MAX); [apply returns_false|].
  destruct (Z.ltb_spec l 4); [apply returns_false|]. guards.
  rewrite u64_small by (unfold is_u64; lia).
  destruct (Z.ltb_spec (sl - p - 4) l); [apply returns_false|]. cbv zeta.
  eapply returns_bind; [apply u32_field; lia|]. intros id Hid. cbv beta in Hid.
  destruct (negb (id =? UINT32_MAX)); [|apply IH; try done; lia].
  eapply returns_bindo with (P := cie_ok sl).
  { destruct (match co with Some c => negb (c_offset c =? id) | None => true end) eqn:Eco.
    - eapply returns_bindo; [apply get_cie_safe; lia|]. intros pk (-> & l' & El & Hl' & _ & Hend).
      eapply returns_mono; [apply (decode_cie_safe sl id l'); try done; lia|].
      intros [c|]; cbn; tauto.
    - apply returns_Ok. by destruct co. }
  intros c Hc. destruct Hc as [Ha Hs Hca Hst He Ho Hra]. guards.
  destruct (Z.ltb_spec l (4 + seg_size c + 2 * addr_size c)); [apply returns_false|].
  assert ((if negb (seg_size c =? 0) then p + 8 + seg_size c else p + 8) = p + 8 + seg_size c) as ->
    by (destruct (Z.eqb_spec (seg_size c) 0); cbn; lia).
  eapply returns_bind; [apply read_le_returns; [done|lia|lia]|]. intros init Hi.
  eapply returns_bind; [apply read_le_returns; [done|lia|lia]|]. intros range Hr.
  destruct (Z.leb_spec init pc), (Z.eqb_spec init 0); cbn [negb andb];
    try (apply IH; [lia|lia|by split|lia]).
  destruct (_ <? range); [|apply IH; [lia|lia|by split|lia]].
  apply returns_Ok. cbn. split; split; cbn; cbv beta in *; lia.
Qed.

Ltac uleb := eapply nofault_bindo; [apply returns_nofault, read_uleb_safe; [done|lia|lia]|];
  let v := fresh "v" in let q := fresh "q" in intros [v q] [? ?]; cbn [fst snd] in *.

Lemma cfi_step_safe s cie start end_ loc p cur :
  cfi_ok s -> 0 <= p < end_ -> end_ <= len ->
  nofault (cfi_step section s cie start end_ loc p cur) (if_some (next_ok p end_)).
Proof using HB Hlen.
  intros Hs Hp He. pose proof Hs as [H1 H2 H3 H4 H5 H6]. unfold cfi_step.
  eapply nofault_bind; [apply returns_nofault, rd_returns; [done|lia]|]. intros b Hb. cbv zeta.
  pose proof (operandA_range b Hb) as HA. set (opA := Z.land b (Z.lnot 0xC0)) in *.
  set (op := if negb (Z.land b 0xC0 =? 0) then _ else b).
  destruct (op =? DW_CFA_advance_loc); [apply advance_to_ok; [done|lia]|].
  destruct ((op =? DW_CFA_advance_loc1) || (op =? DW_CFA_advance_loc2) || (op =? DW_CFA_advance_loc4)).
  { eapply nofault_bindo; [apply returns_nofault, read_bytes_safe; [done|lia|lia|unfold is_u64; lia|]|].
    - apply Z.shiftl_nonneg. lia.
    - intros [a q] (Hq1 & Hq2 & _). cbn [fst snd] in *. apply advance_to_ok; [done|].
      assert (0 <= Z.shiftl 1 (op - DW_CFA_advance_loc1)) by (apply Z.shiftl_nonneg; lia). lia. }
  destruct (op =? DW_CFA_restore).
  { guards. destruct (Z.leb_spec DWARF_MAX_REGS opA); [cbn; split; [done|lia]|].
    destruct (_ =? start); [apply then_go; [apply update_reg_safe; [done|lia]|lia]|].
    unfold DWARF_MAX_REGS in *.
    eapply nofault_bind; [apply returns_nofault, (index_returns _ _ (fun _ => True)); [lia|by apply Forall_true]|].
    intros r _. apply then_go; [apply update_reg_safe; [done|unfold DWARF_MAX_REGS; lia]|lia]. }
  unfold CFI_STACK_DEPTH_MAX in *.
  destruct (op =? DW_CFA_remember_state).
  { guards. destruct (Z.leb_spec 2 (depth s + 1)); [done|].
    eapply nofault_bind; [apply returns_nofault, (index_returns _ _ rules_ok); [lia|done]|]. intros r Hr.
    eapply nofault_bind; [apply returns_nofault, index_set_returns; lia|]. intros rs ->. cbn. split; [|lia].
    assert (depth s = 0) as Hd by lia. split; cbn; auto; [by apply Forall_insert|by rewrite length_insert|].
    unfold CFI_STACK_DEPTH_MAX. rewrite Hd. change (u8 (0 + 1)) with 1. lia. }
  destruct (op =? DW_CFA_restore_state).
  { destruct (Z.eqb_spec (depth s) 0); [done|]. cbn. split; [|lia]. assert (depth s = 1) as Hd by lia.
    split; cbn; auto. unfold CFI_STACK_DEPTH_MAX. rewrite Hd. change (u8 (1 - 1)) with 0. lia. }
  destruct (op =? DW_CFA_offset).
  { uleb. destruct (Z.ltb_spec opA DWARF_MAX_REGS); [|cbn; split; [done|lia]].
    unfold mul_s64. destruct (_ && _); [|done]. rewrite bind_Ok.
    apply then_go; [by apply update_reg_safe|lia]. }
  assert (forall x, 0 <= x < DWARF_MAX_REGS -> 0 <= u8 x < DWARF_MAX_REGS) as Hu8.
  { intros x Hx. unfold u8, DWARF_MAX_REGS in *. rewrite Z.mod_small; lia. }
  unfold is_u64 in *.
  destruct (op =? DW_CFA_def_cfa).
  { uleb. uleb. guards. destruct (Z.leb_spec DWARF_MAX_REGS v); [done|].
    apply then_go; [|lia]. apply update_cfa_safe; [done|]. intros c _. cbn. apply Hu8. unfold is_u64 in *. lia. }
  destruct (op =? DW_CFA_def_cfa_register).
  { uleb. guards. destruct (Z.leb_spec DWARF_MAX_REGS v); [done|].
    apply then_go; [|lia]. apply update_cfa_safe; [done|]. intros c _. cbn. apply Hu8. unfold is_u64 in *. lia. }
  destruct (op =? DW_CFA_def_cfa_offset).
  { uleb. apply then_go; [|lia]. by apply update_cfa_safe. }
  destruct (op =? DW_CFA_nop); cbn; [split; [done|lia]|done].
Qed.

Lemma cfi_loop_safe cie start end_ loc fuel : forall s p cur,
  cfi_ok s -> 0 <= p <= end_ -> end_ <= len -> Z.of_nat fuel > end_ - p ->
  nofault (cfi_loop section fuel s cie start end_ loc p cur) (if_some cfi_ok).
Proof using HB Hlen.
  induction fuel as [|fuel IH]; intros s p cur Hs Hp He Hf; [lia|]. cbn [cfi_loop].
  destruct (Z.ltb_spec p end_); [|done].
  eapply nofault_bindo; [apply cfi_step_safe; [done|lia|done]|]. intros [s' p' cur'|s'] Hn; cbn in Hn; [|done].
  destruct Hn. apply IH; [done|lia|done|lia].
Qed.

Lemma cfi_execute_safe s cie start end_ loc :
  cfi_ok s -> 0 <= start <= end_ -> end_ <= len ->
  nofault (dwarf_cfi_execute section s cie start end_ loc) (if_some cfi_ok).
Proof using HB Hlen. intros. apply cfi_loop_safe; [done|lia|done|lia]. Qed.

(** for any bytes in .debug_frame and any program counter, [dwarf_get_fde]
    terminates and reads only inside the section; a frame it returns starts at
    or below the program counter, and both opcode ranges lie in the section. *)
Theorem dwarf_get_fde_safe sl pc :
  0 <= sl <= len ->
  returns (dwarf_get_fde section sl pc) (if_some (fun r => fde_ok sl pc r.1 /\ cie_ok sl r.2)).
Proof using HB Hlen. intros Hsl. apply get_fde_loop_safe; try done; lia. Qed.

(** running the call frame program of any section on any register state
    never reads outside the section, never indexes the rule tables or the
    state stack out of range and terminates; the state it leaves has its depth
    and its CFA register in range.  The only way not to return is the trap on
    a signed overflow of a register offset. *)
Theorem dwarf_cfi_safe sl pc s :
  0 <= sl <= len -> length (regs s) = 32%nat -> length (rregs (cfi_baseline s)) = 32%nat ->
  nofault (dwarf_cfi section sl pc s) (if_some cfi_ok).
Proof using HB Hlen.
  intros Hsl Hregs Hbase. unfold dwarf_cfi.
  eapply nofault_bindo; [apply returns_nofault, get_fde_loop_safe; try done; lia|].
  intros [fde cie] [[F1 F2 F3] [A1 A2 A3 A4 A5 A6 A7]]. cbn [fst snd] in *. cbv zeta.
  eapply nofault_bindo with (P := cfi_ok).
  { apply cfi_execute_safe; [|lia|lia]. split; cbn; auto.
    - repeat constructor; unfold DWARF_MAX_REGS; cbn; lia.
    - unfold CFI_STACK_DEPTH_MAX. lia. }
  intros s1 [S1 S2 S3 S4 S5 S6]. unfold CFI_STACK_DEPTH_MAX in *.
  eapply nofault_bind; [apply returns_nofault, (index_returns _ _ rules_ok); [lia|done]|]. intros r [Hr _].
  apply cfi_execute_safe; [|lia|lia]. by split.
Qed.
End Fde.

(** *** A section with one CIE and one FDE for [0x1000, 0x1010) *)
Definition demo_frame : list Z :=
  [16; 0; 0; 0; 255; 255; 255; 255; 4; 0; 8; 0; 1; 0x78; 16; 0x0c; 7; 8; 0x90; 1] ++
  [23; 0; 0; 0; 0; 0; 0; 0; 0; 0x10; 0; 0; 0; 0; 0; 0; 0x10; 0; 0; 0; 0; 0; 0; 0; 0x41; 0x0e; 16].

Definition demo_state : cfi_state := CfiState zero_rules [zero_rules; zero_rules] (replicate 32 0) 0 0 false.

(** At 0x1004 the CFA is register 7 plus 16, and the return address is saved
    8 bytes below it. *)
Example demo_frame_cfi :
  match dwarf_cfi demo_frame 47 0x1004 demo_state with
  | Ok (Some s) => (ra_col s, depth s, option_map cfa (rules s !! 0%nat),
                    option_map (fun r => rregs r !! 16%nat) (rules s !! 0%nat))
  | _ => (0, 0, None, None)
  end = (16, 0, Some (CfiRule CFI_OFFSET 7 16), Some (Some (CfiRule CFI_OFFSET 0 (-8)))).
Proof. vm_compute. reflexivity. Qed.

Lemma demo_frame_bytes : bytes_ok demo_frame.
Proof. repeat constructor; by vm_compute. Qed.

Lemma dwarf_get_fde_safe_witness :
  returns (dwarf_get_fde demo_frame 47 0x1004) (if_some (fun r => fde_ok 47 0x1004 r.1 /\ cie_ok 47 r.2)).
Proof. apply (dwarf_get_fde_safe demo_frame demo_frame_bytes); cbn; lia. Defined.

Lemma dwarf_cfi_safe_witness : nofault (dwarf_cfi demo_frame 47 0x1004 demo_state) (if_some cfi_ok).
Proof. apply (dwarf_cfi_safe demo_frame demo_frame_bytes); cbn; done || lia. Defined.
