(* ===== verification/DwarfLine.v ===== *)
(** * loader/dwarf/line.c: line number programs

    [dwarf_line_for_pc] walks the units of .debug_line and runs the line number
    program of each until a row covers the program counter.  Pointers are
    offsets into the section; a string result is the offset it starts at. *)

From S2P Require Import Prelude CString DwarfLeb.
#[local] Open Scope Z_scope.

Definition DW_LNS_copy : Z := 0x01.
Definition DW_LNS_advance_pc : Z := 0x02.
Definition DW_LNS_advance_line : Z := 0x03.
Definition DW_LNS_set_file : Z := 0x04.
Definition DW_LNS_set_column : Z := 0x05.
Definition DW_LNS_negate_stmt : Z := 0x06.
Definition DW_LNS_set_basic_block : Z := 0x07.
Definition DW_LNS_const_add_pc : Z := 0x08.
Definition DW_LNS_fixed_advance_pc : Z := 0x09.
Definition DW_LNS_set_prologue_end : Z := 0x0A.
Definition DW_LNS_set_epilogue_begin : Z := 0x0B.
Definition DW_LNS_set_isa : Z := 0x0C.

Definition DW_LNE_end_sequence : Z := 0x01.
Definition DW_LNE_set_address : Z := 0x02.
Definition DW_LNE_define_file : Z := 0x03.
Definition DW_LNE_set_discriminator : Z := 0x04.

Record line_vm := LineVm { address : Z; line : Z; file : Z; cand_line : Z; cand_file : Z }.

Record dwarf_line_info := LineInfo {
  min_inst_len : Z; max_ops : Z; line_base : Z; line_range : Z; opcode_base : Z;
  dir_table : Z; file_table : Z; instr_start : Z; instr_end : Z;
}.

(** [dir] is [None] for a null pointer. *)
Record dwarf_line_result := LineResult { r_dir : option Z; r_file : Z; r_line : Z }.

Section Line.
Context (section : list Z).

(** The new position. *)
Definition skip_string (p end_ : Z) : res (option Z) :=
  len ← strnlen (rd section) p (u64 (end_ - p));
  if p + len >=? end_ then Ok None else Ok (Some (p + (len + 1))).

(** [(reached, vm)]: whether the row lies behind [pc]. *)
Definition emit_row (vm : line_vm) (pc : Z) : bool * line_vm :=
  if address vm >? pc then (true, vm)
  else (false, LineVm (address vm) (line vm) (file vm) (line vm) (file vm)).

(** Skips [n] entries of the file table; every entry takes a byte. *)
Fixpoint skip_files (fuel : nat) (p end_ i index : Z) : res (option Z) :=
  match fuel with
  | O => NoFuel
  | S fuel =>
      if i <? index then
        let? p := skip_string p end_ in
        let? (_, p) := dwarf_read_uleb section p end_ in
        let? (_, p) := dwarf_read_uleb section p end_ in
        let? (_, p) := dwarf_read_uleb section p end_ in
        skip_files fuel p end_ (i + 1) index
      else Ok (Some p)
  end.

Definition lookup_file (info : dwarf_line_info) (index : Z) : res (option (Z * Z)) :=
  if index =? 0 then Ok None
  else
    let end_ := instr_start info in
    let? p := skip_files (S (length section)) (file_table info) end_ 1 index in
    let name := p in
    let? p := skip_string p end_ in
    let? (dir_index, _) := dwarf_read_uleb section p end_ in
    Ok (Some (name, dir_index)).

Fixpoint skip_dirs (fuel : nat) (p end_ i index : Z) : res (option Z) :=
  match fuel with
  | O => NoFuel
  | S fuel =>
      if i <? index then
        let? p := skip_string p end_ in skip_dirs fuel p end_ (i + 1) index
      else Ok (Some p)
  end.

Definition lookup_dir (info : dwarf_line_info) (index : Z) : res (option Z) :=
  if index =? 0 then Ok None
  else
    let end_ := file_table info in
    let? p := skip_dirs (S (length section)) (dir_table info) end_ 1 index in
    if p >=? end_ then Ok None
    else
      c ← rd section p;
      if c =? 0 then Ok None
      else
        str_len ← strnlen (rd section) p (u64 (end_ - p));
        if p + str_len >=? end_ then Ok None else Ok (Some p).

Definition resolve_row (info : dwarf_line_info) (vm : line_vm) : res (option dwarf_line_result) :=
  let? (name, dir_index) := lookup_file info (cand_file vm) in
  dir ← lookup_dir info dir_index;
  Ok (Some (LineResult dir name (cand_line vm))).

(** The header fields of a unit; the tables are filled in by the caller. *)
Definition dwarf_line_parse_v3 (unit_ : Z) : res dwarf_line_info :=
  mil ← rd section (unit_ + 10);
  lb ← rd section (unit_ + 12);
  lr ← rd section (unit_ + 13);
  ob ← rd section (unit_ + 14);
  Ok (LineInfo mil 1 (s8 lb) lr ob 0 0 0 0).

Definition dwarf_line_parse_v4 (unit_ : Z) : res dwarf_line_info :=
  mil ← rd section (unit_ + 10);
  mo ← rd section (unit_ + 11);
  lb ← rd section (unit_ + 13);
  lr ← rd section (unit_ + 14);
  ob ← rd section (unit_ + 15);
  Ok (LineInfo mil mo (s8 lb) lr ob 0 0 0 0).

Definition sizeof_line_header_v3 : Z := 15.
Definition sizeof_line_header_v4 : Z := 16.

(** The walk over the directory table, up to its terminator. *)
Fixpoint walk_dirs (fuel : nat) (p instr : Z) : res (option Z) :=
  match fuel with
  | O => NoFuel
  | S fuel =>
      if p <? instr then
        c ← rd section p;
        if c =? 0 then Ok (Some (p + 1))
        else let? p := skip_string p instr in walk_dirs fuel p instr
      else Ok (Some p)
  end.

Definition dwarf_line_parse_tables (unit_ end_ : Z) : res (option dwarf_line_info) :=
  if u64 (end_ - unit_) <? sizeof_line_header_v4 then Ok None
  else
    unit_length ← read_le section unit_ 4;
    version ← read_le section (unit_ + 4) 2;
    header_length ← read_le section (unit_ + 6) 4;
    if negb (version =? 3) && negb (version =? 4) then Ok None
    else
      let header_size := if version =? 3 then sizeof_line_header_v3 else sizeof_line_header_v4 in
      if unit_length =? UINT32_MAX then Ok None
      else if unit_length >? (end_ - unit_) - 4 then Ok None
      else
        let unit_end := unit_ + 4 + unit_length in
        if unit_length <? header_size - 4 then Ok None
        else if header_length >? u64 (unit_end - (unit_ + 10)) then Ok None
        else
          let instr_start_ := unit_ + 10 + header_length in
          info ← (if version =? 3 then dwarf_line_parse_v3 unit_ else dwarf_line_parse_v4 unit_);
          if line_range info =? 0 then Ok None
          else if opcode_base info =? 0 then Ok None
          else if max_ops info =? 0 then Ok None
          else if header_length <? (header_size - 10) + opcode_base info - 1 then Ok None
          else
            let p := unit_ + header_size + opcode_base info - 1 in
            let dir_table_ := p in
            let? p := walk_dirs (S (length section)) p instr_start_ in
            Ok (Some (LineInfo (min_inst_len info) (max_ops info) (line_base info) (line_range info)
                        (opcode_base info) dir_table_ p instr_start_ unit_end)).

(** What an instruction does: go on, or resolve the candidate row. *)
Inductive line_next := LGo (p : Z) (vm : line_vm) | LFound (vm : line_vm).

Definition set_address (vm : line_vm) (a : Z) : line_vm :=
  LineVm a (line vm) (file vm) (cand_line vm) (cand_file vm).
Definition set_line (vm : line_vm) (l : Z) : line_vm :=
  LineVm (address vm) l (file vm) (cand_line vm) (cand_file vm).
Definition set_file (vm : line_vm) (f : Z) : line_vm :=
  LineVm (address vm) (line vm) f (cand_line vm) (cand_file vm).

(** Unsigned division and remainder; by zero they have no meaning. *)
Definition udiv (a b : Z) : res Z := if b =? 0 then Fault else Ok (a / b).
Definition umod (a b : Z) : res Z := if b =? 0 then Fault else Ok (a mod b).

(** [vm.address += min_inst_len * (operand / max_ops)]. *)
Definition advance_pc (info : dwarf_line_info) (vm : line_vm) (operand : Z) : res line_vm :=
  q ← udiv operand (max_ops info);
  Ok (set_address vm (u64 (address vm + u64 (min_inst_len info * q)))).

(** A row ends the search when it lies behind [pc] and a candidate is known. *)
Definition row (vm : line_vm) (pc p : Z) : line_next :=
  let '(behind, vm) := emit_row vm pc in
  if behind && negb (cand_file vm =? 0) then LFound vm else LGo p vm.

Definition extended_op (vm : line_vm) (pc p end_ : Z) : res (option line_next) :=
  let? (operandA, p) := dwarf_read_uleb section p end_ in
  if (operandA =? 0) || (operandA >? u64 (end_ - p)) then Ok None
  else
    let next := p + operandA in
    sub ← rd section p;
    let p := p + 1 in
    if sub =? DW_LNE_end_sequence then
      if (pc <? address vm) && negb (cand_file vm =? 0) then Ok (Some (LFound vm))
      else Ok (Some (LGo next (LineVm 0 1 1 (cand_line vm) 0)))
    else if sub =? DW_LNE_set_address then
      let addr_size := u8 (operandA - 1) in
      if (addr_size =? 0) || (addr_size >? 8) then Ok None
      else
        let? (a, _) := dwarf_read_bytes section p next addr_size in
        Ok (Some (LGo next (set_address vm a)))
    else if sub =? DW_LNE_set_discriminator then
      let? _ := dwarf_read_uleb section p next in Ok (Some (LGo next vm))
    else Ok None.

(** The body of the [while] loop: the opcode is at [p]. *)
Definition line_step (info : dwarf_line_info) (vm : line_vm) (pc p end_ : Z) : res (option line_next) :=
  opcode ← rd section p;
  let p := p + 1 in
  if opcode >=? opcode_base info then
    let adjusted := u64 (opcode - opcode_base info) in
    op_advance ← udiv adjusted (line_range info);
    vm ← advance_pc info vm op_advance;
    r ← umod adjusted (line_range info);
    let vm := set_line vm (u64 (line vm + (line_base info + r))) in
    Ok (Some (row vm pc p))
  else if opcode =? 0 then extended_op vm pc p end_
  else if opcode =? DW_LNS_copy then Ok (Some (row vm pc p))
  else if opcode =? DW_LNS_advance_pc then
    let? (operandA, p) := dwarf_read_uleb section p end_ in
    vm ← advance_pc info vm operandA;
    Ok (Some (LGo p vm))
  else if opcode =? DW_LNS_advance_line then
    let? (operandB, p) := dwarf_read_sleb section p end_ in
    Ok (Some (LGo p (set_line vm (u64 (line vm + operandB)))))
  else if opcode =? DW_LNS_set_file then
    let? (f, p) := dwarf_read_uleb section p end_ in
    Ok (Some (LGo p (set_file vm f)))
  else if opcode =? DW_LNS_const_add_pc then
    operandA ← udiv (255 - opcode_base info) (line_range info);
    vm ← advance_pc info vm operandA;
    Ok (Some (LGo p vm))
  else if opcode =? DW_LNS_fixed_advance_pc then
    let? (operandA, p) := dwarf_read_bytes section p end_ 2 in
    Ok (Some (LGo p (set_address vm (u64 (address vm + operandA)))))
  else if (opcode =? DW_LNS_set_column) || (opcode =? DW_LNS_set_isa) then
    let? (_, p) := dwarf_read_uleb section p end_ in
    Ok (Some (LGo p vm))
  else if (opcode =? DW_LNS_negate_stmt) || (opcode =? DW_LNS_set_basic_block)
          || (opcode =? DW_LNS_set_prologue_end) || (opcode =? DW_LNS_set_epilogue_begin) then
    Ok (Some (LGo p vm))
  else Ok None.

Fixpoint line_loop (fuel : nat) (info : dwarf_line_info) (vm : line_vm) (pc p end_ : Z)
    : res (option dwarf_line_result) :=
  match fuel with
  | O => NoFuel
  | S fuel =>
      if p <? end_ then
        let? n := line_step info vm pc p end_ in
        match n with
        | LGo p vm => line_loop fuel info vm pc p end_
        | LFound vm => resolve_row info vm
        end
      else Ok None
  end.

Definition dwarf_line_find (info : dwarf_line_info) (pc : Z) : res (option dwarf_line_result) :=
  line_loop (S (length section)) info (LineVm 0 1 1 0 0) pc (instr_start info) (instr_end info).

(** The loop over the units.  [4 + common->unit_length] is 32-bit arithmetic. *)
Fixpoint units_loop (fuel : nat) (unit_ end_ pc : Z) : res (option dwarf_line_result) :=
  match fuel with
  | O => NoFuel
  | S fuel =>
      if end_ - unit_ >=? 4 then
        unit_length ← read_le section unit_ 4;
        if unit_length =? UINT32_MAX then Ok None
        else if unit_length >? u64 (end_ - unit_) - 4 then Ok None
        else
          info ← dwarf_line_parse_tables unit_ end_;
          found ← (match info with Some i => dwarf_line_find i pc | None => Ok None end);
          match found with
          | Some r => Ok (Some r)
          | None => units_loop fuel (unit_ + u32 (4 + unit_length)) end_ pc
          end
      else Ok None
  end.

Definition dwarf_line_for_pc (size pc : Z) : res (option dwarf_line_result) :=
  if size <? 4 then Ok None
  else units_loop (S (length section)) 0 size pc.
End Line.
