(* ===== verification/DwarfLineSpec.v ===== *)
(** * Line number programs: total and in bounds on any section *)

From S2P Require Import Prelude CString CStringSpec DwarfLeb DwarfLine.
#[local] Open Scope Z_scope.

Section Line.
Context (section : list Z) (HB : bytes_ok section).
Abbreviation len := (Z.of_nat (length section)).
Context (Hlen : len < 2 ^ 32).

(** A string that starts at [p] ends, with its terminator, before [end_]. *)
Definition terminated (p end_ : Z) : Prop :=
  0 <= p /\ exists q, p <= q < end_ /\ rd section q = Ok 0.

Lemma rd_in p : 0 <= p < len -> exists b, rd section p = Ok b.
Proof using HB. intros Hp. destruct (rd_returns section p HB Hp) as (b & E & _). eauto. Qed.

Lemma strnlen_in p end_ :
  0 <= p <= end_ -> end_ <= len ->
  returns (strnlen (rd section) p (u64 (end_ - p))) (fun l => 0 <= l <= end_ - p /\
    (p + l < end_ -> rd section (p + l) = Ok 0)).
Proof using HB Hlen.
  intros Hp He. unfold strnlen. rewrite u64_small by (unfold is_u64; lia).
  eapply returns_bind; [apply strnlen_loop_range; intros a Ha; apply rd_in; lia|]. cbv beta.
  intros q (H1 & _ & H3). apply returns_Ok. split; [lia|]. intros. replace (p + (q - p)) with q by lia.
  apply H3. lia.
Qed.

Lemma skip_string_safe p end_ :
  0 <= p <= end_ -> end_ <= len ->
  returns (skip_string section p end_) (if_some (fun q => p < q <= end_ /\ terminated p end_)).
Proof using HB Hlen.
  intros Hp He. unfold skip_string. eapply returns_bind; [by apply strnlen_in|]. cbv beta.
  intros l [Hl H0]. rewrite Z.geb_leb. destruct (Z.leb_spec end_ (p + l)); [apply returns_false|].
  apply returns_Ok. cbn. split; [lia|]. split; [lia|]. exists (p + l). split; [lia|]. apply H0. lia.
Qed.

Ltac uleb := eapply returns_bindo; [apply read_uleb_safe; [done|lia|lia]|];
  let v := fresh "v" in let q := fresh "q" in intros [v q] [? ?]; cbn [fst snd] in *.

Lemma skip_files_safe end_ index fuel : end_ <= len -> forall p i,
  0 <= p <= end_ -> end_ - p < Z.of_nat fuel ->
  returns (skip_files section fuel p end_ i index) (if_some (fun q => p <= q <= end_)).
Proof using HB Hlen.
  intros He. induction fuel as [|fuel IH]; intros p i Hp Hf; [lia|]. cbn [skip_files].
  destruct (i <? index); [|apply returns_Ok; cbn; lia].
  eapply returns_bindo; [by apply skip_string_safe|]. intros p1 [Hp1 _].
  uleb. uleb. uleb. eapply returns_mono; [apply IH; lia|]. intros [r|]; cbn; [lia|done].
Qed.

Lemma skip_dirs_safe end_ index fuel : end_ <= len -> forall p i,
  0 <= p <= end_ -> end_ - p < Z.of_nat fuel ->
  returns (skip_dirs section fuel p end_ i index) (if_some (fun q => p <= q <= end_)).
Proof using HB Hlen.
  intros He. induction fuel as [|fuel IH]; intros p i Hp Hf; [lia|]. cbn [skip_dirs].
  destruct (i <? index); [|apply returns_Ok; cbn; lia].
  eapply returns_bindo; [by apply skip_string_safe|]. intros p1 [Hp1 _].
  eapply returns_mono; [apply IH; lia|]. intros [r|]; cbn; [lia|done].
Qed.

(** The tables of a unit lie behind one another inside the section, and the
    divisors are not zero. *)
Record info_ok (info : dwarf_line_info) : Prop := {
  in_dirs : 0 <= dir_table info <= file_table info;
  in_files : file_table info <= instr_start info;
  in_instr : instr_start info <= instr_end info <= len;
  in_range : 0 < line_range info;
  in_ops : 0 < max_ops info;
}.

Lemma lookup_file_safe info index :
  info_ok info ->
  returns (lookup_file section info index) (if_some (fun r => terminated r.1 (instr_start info))).
Proof using HB Hlen.
  intros [H1 H2 H3 _ _]. unfold lookup_file. destruct (index =? 0); [apply returns_false|]. cbv zeta.
  eapply returns_bindo; [apply skip_files_safe; lia|]. intros p Hp. cbv beta in Hp.
  eapply returns_bindo; [apply skip_string_safe; lia|]. intros q [Hq Ht]. uleb.
  by apply returns_Ok.
Qed.

Lemma lookup_dir_safe info index :
  info_ok info ->
  returns (lookup_dir section info index) (if_some (fun p => terminated p (file_table info))).
Proof using HB Hlen.
  intros [H1 H2 H3 _ _]. unfold lookup_dir. destruct (index =? 0); [apply returns_false|]. cbv zeta.
  eapply returns_bindo; [apply skip_dirs_safe; lia|]. intros p Hp. cbv beta in Hp.
  rewrite Z.geb_leb. destruct (Z.leb_spec (file_table info) p); [apply returns_false|].
  destruct (rd_in p) as [c ->]; [lia|]. rewrite bind_Ok. destruct (c =? 0); [apply returns_false|].
  eapply returns_bind; [apply strnlen_in; lia|]. cbv beta. intros l [Hl H0].
  rewrite Z.geb_leb. destruct (Z.leb_spec (file_table info) (p + l)); [apply returns_false|].
  apply returns_Ok. cbn. split; [lia|]. exists (p + l). split; [lia|]. apply H0. lia.
Qed.

(** The strings of a result are terminated inside the section. *)
Definition result_ok (r : dwarf_line_result) : Prop :=
  terminated (r_file r) len /\ if_some (fun d => terminated d len) (r_dir r).

Lemma terminated_weaken p e e' : terminated p e -> e <= e' -> terminated p e'.
Proof using Type. intros (H & q & ? & ?) He. split; [done|]. exists q. split; [lia|done]. Qed.

Lemma resolve_row_safe info vm :
  info_ok info -> returns (resolve_row section info vm) (if_some result_ok).
Proof using HB Hlen.
  intros Hi. unfold resolve_row. eapply returns_bindo; [by apply lookup_file_safe|]. intros [name di] Ht.
  eapply returns_bind; [by apply lookup_dir_safe|]. intros d Hd. apply returns_Ok. cbn. destruct Hi.
  split; [eapply terminated_weaken; [done|lia]|]. destruct d; cbn in *; [|done].
  eapply terminated_weaken; [done|lia].
Qed.

Lemma byte_in p : 0 <= p < len -> returns (rd section p) is_byte.
Proof using HB. by apply rd_returns. Qed.

Lemma u_field p n : 0 <= p -> p + Z.of_nat n <= len ->
  returns (read_le section p n) (fun v => 0 <= v < 256 ^ Z.of_nat n).
Proof using HB. intros. by apply read_le_returns. Qed.

Definition header_fields_ok (info : dwarf_line_info) : Prop :=
  0 <= line_range info /\ 0 <= opcode_base info /\ 0 <= max_ops info.

Lemma parse_v3_safe u : 0 <= u -> u + 15 <= len ->
  returns (dwarf_line_parse_v3 section u) header_fields_ok.
Proof using HB.
  intros Hu He. unfold dwarf_line_parse_v3.
  do 4 (eapply returns_bind; [apply byte_in; lia|]; intros ? ?).
  apply returns_Ok. unfold is_byte, header_fields_ok in *. cbn. lia.
Qed.

Lemma parse_v4_safe u : 0 <= u -> u + 16 <= len ->
  returns (dwarf_line_parse_v4 section u) header_fields_ok.
Proof using HB.
  intros Hu He. unfold dwarf_line_parse_v4.
  do 5 (eapply returns_bind; [apply byte_in; lia|]; intros ? ?).
  apply returns_Ok. unfold is_byte, header_fields_ok in *. cbn. lia.
Qed.

Lemma walk_dirs_safe e fuel : e <= len -> forall p,
  0 <= p <= e -> e - p < Z.of_nat fuel ->
  returns (walk_dirs section fuel p e) (if_some (fun q => p <= q <= e)).
Proof using HB Hlen.
  intros He. induction fuel as [|fuel IH]; intros p Hp Hf; [lia|]. cbn [walk_dirs].
  destruct (Z.ltb_spec p e); [|apply returns_Ok; cbn; lia].
  destruct (rd_in p) as [c ->]; [lia|]. rewrite bind_Ok. destruct (c =? 0); [apply returns_Ok; cbn; lia|].
  eapply returns_bindo; [by apply skip_string_safe|]. intros p1 [Hp1 _].
  eapply returns_mono; [apply IH; lia|]. intros [r|]; cbn; [lia|done].
Qed.

Lemma parse_tables_safe u e :
  0 <= u -> e <= len -> u <= e ->
  returns (dwarf_line_parse_tables section u e) (if_some info_ok).
Proof using HB Hlen.
  intros Hu He Hue. unfold dwarf_line_parse_tables, sizeof_line_header_v4.
  rewrite u64_small by (unfold is_u64; lia). destruct (Z.ltb_spec (e - u) 16); [apply returns_false|].
  eapply returns_bind; [apply u_field; cbn; lia|]. intros ul Hul. cbv beta in Hul. change (256 ^ Z.of_nat 4) with (2 ^ 32) in Hul.
  eapply returns_bind; [apply u_field; cbn; lia|]. intros ver Hver. cbv beta in Hver.
  eapply returns_bind; [apply u_field; cbn; lia|]. intros hl Hhl. cbv beta in Hhl. change (256 ^ Z.of_nat 4) with (2 ^ 32) in Hhl.
  destruct (negb (ver =? 3) && negb (ver =? 4)) eqn:Ev; [apply returns_false|]. cbv zeta.
  set (hs := if ver =? 3 then sizeof_line_header_v3 else 16).
  assert (15 <= hs <= 16) as Hhs by (unfold hs, sizeof_line_header_v3; destruct (ver =? 3); lia).
  destruct (ul =? UINT32_MAX); [apply returns_false|].
  rewrite Z.gtb_ltb. destruct (Z.ltb_spec (e - u - 4) ul); [apply returns_false|].
  destruct (Z.ltb_spec ul (hs - 4)); [apply returns_false|].
  rewrite Z.gtb_ltb, u64_small by (unfold is_u64; lia).
  destruct (Z.ltb_spec (u + 4 + ul - (u + 10)) hl); [apply returns_false|].
  eapply returns_bind with (P := header_fields_ok).
  { destruct (ver =? 3); [apply parse_v3_safe; lia|apply parse_v4_safe; lia]. }
  intros info (F1 & F2 & F3).
  destruct (Z.eqb_spec (line_range info) 0); [apply returns_false|].
  destruct (Z.eqb_spec (opcode_base info) 0); [apply returns_false|].
  destruct (Z.eqb_spec (max_ops info) 0); [apply returns_false|].
  destruct (Z.ltb_spec hl (hs - 10 + opcode_base info - 1)); [apply returns_false|].
  eapply returns_bindo; [apply walk_dirs_safe; lia|]. intros p Hp. cbv beta in Hp.
  apply returns_Ok. split; cbn; lia.
Qed.

(** ** The line number machine *)

Definition lnext_ok (p end_ : Z) (n : line_next) : Prop :=
  match n with LGo p' _ => p < p' <= end_ | LFound _ => True end.

Lemma row_ok vm pc p0 p end_ : p0 < p <= end_ -> lnext_ok p0 end_ (row vm pc p).
Proof using Type. intros. unfold row. destruct (emit_row vm pc) as [[] ?]; cbn; [|done]. by destruct (negb _). Qed.

Lemma extended_op_safe vm pc p end_ :
  0 <= p <= end_ -> end_ <= len ->
  returns (extended_op section vm pc p end_) (if_some (lnext_ok p end_)).
Proof using HB Hlen.
  intros Hp He. unfold extended_op. uleb. rewrite Z.gtb_ltb, u64_small by (unfold is_u64; lia).
  unfold is_u64 in *.
  destruct (Z.eqb_spec v 0), (Z.ltb_spec (end_ - q) v); cbn [orb]; try apply returns_false. cbv zeta.
  destruct (rd_in q) as [sub ->]; [lia|]. rewrite bind_Ok.
  destruct (sub =? DW_LNE_end_sequence); [destruct (_ && _); apply returns_Ok; cbn; done || lia|].
  destruct (sub =? DW_LNE_set_address).
  { destruct (_ || _); [apply returns_false|].
    eapply returns_bindo; [apply read_bytes_safe; [done|lia|lia|unfold is_u64; lia|apply Z.mod_pos_bound; lia]|].
    intros [a q'] _. apply returns_Ok. cbn. lia. }
  destruct (sub =? DW_LNE_set_discriminator); [|apply returns_false].
  uleb. apply returns_Ok. cbn. lia.
Qed.

Lemma advance_pc_safe info vm operand :
  info_ok info -> exists vm', advance_pc info vm operand = Ok vm'.
Proof using Type.
  intros [_ _ _ _ H]. unfold advance_pc, udiv. rewrite (proj2 (Z.eqb_neq _ 0)) by lia. eexists. done.
Qed.

Lemma div_range info a : info_ok info ->
  udiv a (line_range info) = Ok (a / line_range info) /\ umod a (line_range info) = Ok (a mod line_range info).
Proof using Type. intros [_ _ _ H _]. unfold udiv, umod. by rewrite (proj2 (Z.eqb_neq _ 0)) by lia. Qed.

Lemma line_step_safe info vm pc p end_ :
  info_ok info -> 0 <= p < end_ -> end_ <= len ->
  returns (line_step section info vm pc p end_) (if_some (lnext_ok p end_)).
Proof using HB Hlen.
  intros Hi Hp He. unfold line_step. destruct (rd_in p) as [op ->]; [lia|]. rewrite bind_Ok. cbv zeta.
  assert (forall n, lnext_ok p end_ n -> returns (Ok (Some n)) (if_some (lnext_ok p end_))) as Hgo
    by (intros; by apply returns_Ok).
  rewrite Z.geb_leb. destruct (opcode_base info <=? op).
  { destruct (div_range info (u64 (op - opcode_base info)) Hi) as [-> ->]. rewrite bind_Ok.
    destruct (advance_pc_safe info vm (u64 (op - opcode_base info) / line_range info) Hi) as [vm' ->].
    apply Hgo, row_ok; lia. }
  destruct (op =? 0).
  { eapply returns_mono; [apply extended_op_safe; lia|]. intros [[]|]; cbn; lia || done. }
  destruct (op =? DW_LNS_copy); [apply Hgo, row_ok; lia|].
  destruct (op =? DW_LNS_advance_pc).
  { uleb. destruct (advance_pc_safe info vm v Hi) as [vm' ->]. apply Hgo; cbn; lia. }
  destruct (op =? DW_LNS_advance_line).
  { eapply returns_bindo; [apply read_sleb_safe; [done|lia|lia]|]. intros [v q] [? _]. cbn [fst snd] in *.
    apply Hgo; cbn; lia. }
  destruct (op =? DW_LNS_set_file); [uleb; apply Hgo; cbn; lia|].
  destruct (op =? DW_LNS_const_add_pc).
  { rewrite (proj1 (div_range info (255 - opcode_base info) Hi)), bind_Ok.
    destruct (advance_pc_safe info vm ((255 - opcode_base info) / line_range info) Hi) as [vm' ->].
    apply Hgo; cbn; lia. }
  destruct (op =? DW_LNS_fixed_advance_pc).
  { eapply returns_bindo; [apply read_bytes_safe; [done|lia|lia|unfold is_u64; lia|lia]|].
    intros [v q] (Hq & ? & _). cbn [fst snd] in *. apply Hgo; cbn; lia. }
  destruct (_ || _); [uleb; apply Hgo; cbn; lia|].
  destruct (_ || _); [apply Hgo; cbn; lia|apply returns_false].
Qed.

Lemma line_loop_safe info pc end_ fuel : info_ok info -> end_ <= len -> forall vm p,
  0 <= p <= end_ -> end_ - p < Z.of_nat fuel ->
  returns (line_loop section fuel info vm pc p end_) (if_some result_ok).
Proof using HB Hlen.
  intros Hi He. induction fuel as [|fuel IH]; intros vm p Hp Hf; [lia|]. cbn [line_loop].
  destruct (Z.ltb_spec p end_); [|apply returns_false].
  eapply returns_bindo; [apply line_step_safe; done || lia|]. intros [p' vm'|vm'] Hn; cbn in Hn.
  - apply IH; lia.
  - by apply resolve_row_safe.
Qed.

Lemma units_loop_safe e pc fuel : e <= len -> forall u,
  0 <= u <= e -> e - u < Z.of_nat fuel ->
  returns (units_loop section fuel u e pc) (if_some result_ok).
Proof using HB Hlen.
  intros He. induction fuel as [|fuel IH]; intros u Hu Hf; [lia|]. cbn [units_loop].
  rewrite Z.geb_leb. destruct (Z.leb_spec 4 (e - u)); [|apply returns_false].
  eapply returns_bind; [apply u_field; cbn; lia|]. intros ul Hul. cbv beta in Hul. change (256 ^ Z.of_nat 4) with (2 ^ 32) in Hul.
  destruct (ul =? UINT32_MAX); [apply returns_false|].
  rewrite Z.gtb_ltb, u64_small by (unfold is_u64; lia).
  destruct (Z.ltb_spec (e - u - 4) ul); [apply returns_false|].
  eapply returns_bind; [apply parse_tables_safe; lia|]. intros oi Hoi.
  eapply returns_bind with (P := if_some result_ok).
  { destruct oi as [info|]; [|apply returns_false]. cbn in Hoi. destruct Hoi.
    apply line_loop_safe; [done|lia|lia|lia]. }
  intros [r|] Hr; [by apply returns_Ok|]. unfold u32. rewrite Z.mod_small by lia. apply IH; lia.
Qed.

(** for any bytes in .debug_line (below 4 GiB) and any program counter,
    [dwarf_line_for_pc] terminates and reads only inside the section, divides
    by no zero, and the file and directory names of a result are strings
    whose terminator lies inside the section. *)
Theorem dwarf_line_for_pc_safe size pc :
  0 <= size <= len -> returns (dwarf_line_for_pc section size pc) (if_some result_ok).
Proof using HB Hlen.
  intros Hs. unfold dwarf_line_for_pc. destruct (Z.ltb_spec size 4); [apply returns_false|].
  apply units_loop_safe; lia.
Qed.
End Line.

(** *** One unit with the rows (0x1000, line 2) and (0x1004, line 3) of "f" in "d" *)
Definition demo_line : list Z :=
  [49; 0; 0; 0; 4; 0; 27; 0; 0; 0; 1; 1; 1; 251; 14; 13] ++
  [0; 1; 1; 1; 1; 0; 0; 0; 1; 0; 0; 1] ++ [100; 0; 0] ++ [102; 0; 1; 0; 0; 0] ++
  [0; 9; 2; 0; 0x10; 0; 0; 0; 0; 0; 0] ++ [19; 75] ++ [0; 1; 1].

Example demo_line_found :
  dwarf_line_for_pc demo_line 53 0x1002 = Ok (Some (LineResult (Some 28) 31 2)).
Proof. vm_compute. reflexivity. Qed.

Example demo_line_not_found : dwarf_line_for_pc demo_line 53 0x2000 = Ok None.
Proof. vm_compute. reflexivity. Qed.

Lemma dwarf_line_for_pc_safe_witness :
  returns (dwarf_line_for_pc demo_line 53 0x1002) (if_some (result_ok demo_line)).
Proof.
  apply (dwarf_line_for_pc_safe demo_line); [repeat constructor; by vm_compute|cbn; lia|cbn; lia].
Defined.
