(* ===== verification/PHeap.v ===== *)
(** * utils/dstruct/pheap.c: the pairing heap

    Nodes are linked by their first child and their siblings; the value of a
    node comes from a callback of the heap's owner, here the function [value].
    The heap keeps sleeping threads ordered by wake-up time. *)

From S2P Require Import Prelude.
#[local] Open Scope Z_scope.

Record pheap_node := PNode { left_child : Z; next_sibling : Z; prev_sibling : Z }.
Abbreviation pnodes := (gmap Z pheap_node).

Definition set_left_child (h : pnodes) (a v : Z) : res pnodes :=
  n ← load h a; store h a (PNode v (next_sibling n) (prev_sibling n)).
Definition set_next_sibling (h : pnodes) (a v : Z) : res pnodes :=
  n ← load h a; store h a (PNode (left_child n) v (prev_sibling n)).
Definition set_prev_sibling (h : pnodes) (a v : Z) : res pnodes :=
  n ← load h a; store h a (PNode (left_child n) (next_sibling n) v).

Section PHeap.
Context (value : Z -> Z).

Definition pheap_attach (h : pnodes) (parent child : Z) : res pnodes :=
  h ← set_prev_sibling h child parent;
  pn ← load h parent;
  h ← set_next_sibling h child (left_child pn);
  pn ← load h parent;
  h ← (if negb (left_child pn =? 0) then set_prev_sibling h (left_child pn) child else Ok h);
  set_left_child h parent child.

Definition pheap_detach (h : pnodes) (node : Z) : res pnodes :=
  n ← load h node;
  let prev := prev_sibling n in
  pn ← load h prev;
  h ← (if left_child pn =? node then set_left_child h prev (next_sibling n)
       else set_next_sibling h prev (next_sibling n));
  n ← load h node;
  if negb (next_sibling n =? 0) then set_prev_sibling h (next_sibling n) prev else Ok h.

Definition pheap_meld (h : pnodes) (first second : Z) : res (Z * pnodes) :=
  if first =? 0 then Ok (second, h)
  else if second =? 0 then Ok (first, h)
  else if value first <=? value second then
    h ← pheap_attach h first second; Ok (first, h)
  else
    h ← pheap_attach h second first; Ok (second, h).

(** The first pass melds neighbours and stacks the results. *)
Fixpoint pair_pass (fuel : nat) (h : pnodes) (cur pairs : Z) : res (Z * pnodes) :=
  match fuel with
  | O => NoFuel
  | S fuel =>
      if negb (cur =? 0) then
        let first := cur in
        fn ← load h first;
        let second := next_sibling fn in
        cur ← (if negb (second =? 0) then sn ← load h second; Ok (next_sibling sn) else Ok 0);
        '(first, h) ← pheap_meld h first second;
        h ← set_next_sibling h first pairs;
        pair_pass fuel h cur first
      else Ok (pairs, h)
  end.

(** The second pass melds the stack into one tree. *)
Fixpoint meld_pass (fuel : nat) (h : pnodes) (head pairs : Z) : res (Z * pnodes) :=
  match fuel with
  | O => NoFuel
  | S fuel =>
      if negb (pairs =? 0) then
        pn ← load h pairs;
        let next := next_sibling pn in
        '(head, h) ← pheap_meld h head pairs;
        meld_pass fuel h head next
      else Ok (head, h)
  end.

(** Each turn takes a node off a list of existing nodes. *)
Definition pheap_merge_children (h : pnodes) (root : Z) : res (Z * pnodes) :=
  rn ← load h root;
  '(pairs, h) ← pair_pass (S (size h)) h (left_child rn) 0;
  meld_pass (S (size h)) h 0 pairs.

(** Operations on the heap: its [head] and the nodes. *)
Definition pheap_insert (h : pnodes) (head node : Z) : res (Z * pnodes) :=
  h ← set_left_child h node 0;
  pheap_meld h head node.

(** The canary for a removed node. *)
Definition removed_mark : Z := 1.

Definition pheap_pop (h : pnodes) (head : Z) : res (Z * Z * pnodes) :=
  let root := head in
  if root =? 0 then Ok (0, head, h)
  else
    '(head, h) ← pheap_merge_children h root;
    h ← set_left_child h root removed_mark;
    Ok (root, head, h).

Definition pheap_remove (h : pnodes) (head node : Z) : res (Z * Z * pnodes) :=
  if node =? head then pheap_pop h head
  else
    h ← pheap_detach h node;
    '(children, h) ← pheap_merge_children h node;
    '(head, h) ← pheap_meld h head children;
    h ← set_left_child h node removed_mark;
    Ok (node, head, h).

Definition pheap_try_remove (h : pnodes) (head node : Z) : res (Z * Z * pnodes) :=
  n ← load h node;
  if negb (left_child n =? removed_mark) then pheap_remove h head node
  else Ok (0, head, h).

Definition pheap_peek (head : Z) : Z := head.
End PHeap.

(** ** Representation

    A forest in first-child, next-sibling form. *)
Inductive forest := Nil | Node (a : Z) (kids rest : forest).

Fixpoint addrs (f : forest) : list Z :=
  match f with Nil => [] | Node a k r => a :: addrs k ++ addrs r end.

(** [ptr] is the first of the siblings [f], whose predecessor is [prev]. *)
Fixpoint forest_rep (h : pnodes) (prev : Z) (f : forest) (ptr : Z) : Prop :=
  match f with
  | Nil => ptr = 0
  | Node a k r =>
      ptr = a /\ a <> 0 /\ exists n, h !! a = Some n /\ prev_sibling n = prev /\
        forest_rep h a k (left_child n) /\ forest_rep h a r (next_sibling n)
  end.

(** A root: its sibling links mean nothing. *)
Abbreviation ptree := (Z * forest)%type.
Definition taddrs (t : ptree) : list Z := t.1 :: addrs t.2.

Definition tree_rep (h : pnodes) (t : ptree) : Prop :=
  t.1 <> 0 /\ exists n, h !! t.1 = Some n /\ forest_rep h t.1 t.2 (left_child n).

(** Roots chained through [next_sibling]. *)
Fixpoint roots_rep (h : pnodes) (ts : list ptree) (ptr : Z) : Prop :=
  match ts with
  | [] => ptr = 0
  | t :: ts => ptr = t.1 /\ tree_rep h t /\
      exists n, h !! t.1 = Some n /\ roots_rep h ts (next_sibling n)
  end.

Definition raddrs (ts : list ptree) : list Z := ts ≫= taddrs.

Lemma raddrs_cons t ts : raddrs (t :: ts) = taddrs t ++ raddrs ts.
Proof. reflexivity. Qed.

Fixpoint trees (f : forest) : list ptree :=
  match f with Nil => [] | Node a k r => (a, k) :: trees r end.

Lemma raddrs_trees f : raddrs (trees f) = addrs f.
Proof. induction f as [|a k _ r IH]; [done|]. cbn. by rewrite <- IH. Qed.

Lemma forest_rep_frame h h' f : forall prev ptr,
  (forall x, x ∈ addrs f -> h' !! x = h !! x) -> forest_rep h prev f ptr -> forest_rep h' prev f ptr.
Proof.
  induction f as [|a k IHk r IHr]; intros prev ptr Hx; cbn; [done|].
  intros (-> & Ha & n & Hn & Hp & Hk & Hr). split_and!; [done..|]. exists n. split_and!; auto.
  - rewrite Hx; [done|]. by left.
  - apply IHk; [|done]. intros x Hin. apply Hx. cbn. set_solver.
  - apply IHr; [|done]. intros x Hin. apply Hx. cbn. set_solver.
Qed.

Lemma tree_rep_frame h h' t :
  (forall x, x ∈ taddrs t -> h' !! x = h !! x) -> tree_rep h t -> tree_rep h' t.
Proof.
  intros Hx [H0 (n & Hn & Hf)]. split; [done|]. exists n. split; [rewrite Hx; [done|by left]|].
  eapply forest_rep_frame; [|done]. intros x Hin. apply Hx. by right.
Qed.

Lemma roots_rep_frame h h' ts : forall ptr,
  (forall x, x ∈ raddrs ts -> h' !! x = h !! x) -> roots_rep h ts ptr -> roots_rep h' ts ptr.
Proof.
  induction ts as [|t ts IH]; intros ptr Hx; cbn; [done|].
  intros (-> & Ht & n & Hn & Hr). split_and!; [done| |].
  - eapply tree_rep_frame; [|done]. intros x Hin. apply Hx. rewrite raddrs_cons. set_solver.
  - exists n. split; [rewrite Hx; [done|rewrite raddrs_cons; by left]|]. apply IH; [|done].
    intros x Hin. apply Hx. rewrite raddrs_cons. set_solver.
Qed.

Lemma forest_roots h f : forall prev ptr, forest_rep h prev f ptr -> roots_rep h (trees f) ptr.
Proof.
  induction f as [|a k _ r IH]; intros prev ptr; cbn; [done|].
  intros (-> & Ha & n & Hn & Hp & Hk & Hr). split_and!; [done| |].
  - split; [done|]. eauto.
  - exists n. split; [done|]. by eapply IH.
Qed.

(** Changing the predecessor of the first sibling. *)
Lemma forest_rep_prev h prev prev' a k r n :
  forest_rep h prev (Node a k r) a -> NoDup (addrs (Node a k r)) -> h !! a = Some n ->
  forest_rep (<[a := PNode (left_child n) (next_sibling n) prev']> h) prev' (Node a k r) a.
Proof.
  cbn. intros (_ & Ha & n' & Hn' & Hp & Hk & Hr) Hnd Hn. simplify_eq. apply NoDup_cons in Hnd as [Hni _].
  split_and!; [done..|]. eexists. rewrite lookup_insert_eq. split_and!; [done|done|..]; cbn.
  - eapply forest_rep_frame; [|done]. intros x Hx. apply lookup_insert_ne. intros ->. apply Hni. set_solver.
  - eapply forest_rep_frame; [|done]. intros x Hx. apply lookup_insert_ne. intros ->. apply Hni. set_solver.
Qed.

Lemma set_left_Ok h a v n :
  h !! a = Some n -> set_left_child h a v = Ok (<[a := PNode v (next_sibling n) (prev_sibling n)]> h).
Proof. intros H. unfold set_left_child. rewrite (load_Ok _ _ _ H), bind_Ok. by eapply store_Ok. Qed.
Lemma set_sibling_Ok h a v n :
  h !! a = Some n -> set_next_sibling h a v = Ok (<[a := PNode (left_child n) v (prev_sibling n)]> h).
Proof. intros H. unfold set_next_sibling. rewrite (load_Ok _ _ _ H), bind_Ok. by eapply store_Ok. Qed.
Lemma set_prev_sibling_Ok h a v n :
  h !! a = Some n -> set_prev_sibling h a v = Ok (<[a := PNode (left_child n) (next_sibling n) v]> h).
Proof. intros H. unfold set_prev_sibling. rewrite (load_Ok _ _ _ H), bind_Ok. by eapply store_Ok. Qed.

(** Looks a cell up in a chain of updates of distinct cells. *)
Ltac look := repeat first [rewrite lookup_insert_eq | rewrite lookup_insert_ne by congruence].

Lemma attach_rep h p kp c kc :
  tree_rep h (p, kp) -> tree_rep h (c, kc) -> NoDup (taddrs (p, kp) ++ taddrs (c, kc)) ->
  exists h', pheap_attach h p c = Ok h' /\ tree_rep h' (p, Node c kc kp) /\
    modifies (taddrs (p, kp) ++ [c]) h h'.
Proof.
  intros [Hp0 (pn & Hpn & Hkp)] [Hc0 (cn & Hcn & Hkc)] Hnd. cbn [fst snd] in *.
  unfold taddrs in *. cbn [fst snd] in *.
  apply NoDup_app in Hnd as (Hnd1 & Hdis & Hnd2).
  apply NoDup_cons in Hnd1 as [Hpk Hnk]. apply NoDup_cons in Hnd2 as [Hck _].
  assert (p <> c) as Hpc by (intros ->; apply (Hdis c); [by left|by left]).
  unfold pheap_attach. rewrite (set_prev_sibling_Ok _ _ _ _ Hcn), bind_Ok.
  set (h1 := <[c := _]> h). assert (h1 !! p = Some pn) as Hp1 by (unfold h1; look; done).
  rewrite (load_Ok _ _ _ Hp1), bind_Ok.
  erewrite set_sibling_Ok by (unfold h1; look; reflexivity). rewrite bind_Ok. cbn [left_child prev_sibling].
  set (cn' := PNode (left_child cn) (left_child pn) p).
  set (h2 := <[c := cn']> h1). assert (h2 !! p = Some pn) as Hp2 by (unfold h2, h1; look; done).
  rewrite (load_Ok _ _ _ Hp2), bind_Ok.
  assert (forall x, x <> p -> x <> c -> h2 !! x = h !! x) as Hold by (intros; unfold h2, h1; look; done).
  assert (modifies (p :: addrs kp ++ [c]) h h2) as HM2.
  { unfold h2, h1. eapply modifies_trans_same; [eapply modifies_insert; [done|set_solver]|].
    eapply modifies_insert; [by look|set_solver]. }
  assert (exists h3, (if negb (left_child pn =? 0) then set_prev_sibling h2 (left_child pn) c else Ok h2) = Ok h3 /\
    forest_rep h3 c kp (left_child pn) /\ h3 !! p = Some pn /\ h3 !! c = Some cn' /\
    (forall x, x ∉ addrs kp -> h3 !! x = h2 !! x) /\ modifies (p :: addrs kp ++ [c]) h h3) as (h3 & -> & R3 & Hp3 & Hc3 & O3 & M3).
  { assert (forest_rep h2 p kp (left_child pn)) as R2.
    { eapply forest_rep_frame; [|done]. intros x Hx. apply Hold; [by intros ->|]. intros ->. apply (Hdis c); [by right|by left]. }
    assert (h2 !! c = Some cn') as Hc2 by (unfold h2; look; done).
    destruct kp as [|a k r].
    - cbn in Hkp. rewrite Hkp. exists h2. by split_and!.
    - pose proof R2 as (El & Ha0 & an & Han & _). rewrite El, (proj2 (Z.eqb_neq a 0) Ha0). cbn [negb].
      rewrite (set_prev_sibling_Ok _ _ _ _ Han). eexists. split; [done|].
      assert (a <> p) by (intros ->; apply Hpk; by left).
      assert (a <> c) by (intros ->; apply (Hdis c); [right; by left|by left]).
      split_and!.
      + rewrite El in R2. by eapply forest_rep_prev.
      + by look.
      + by look.
      + intros x Hx. apply lookup_insert_ne. intros ->. apply Hx. by left.
      + eapply modifies_trans_same; [done|]. eapply modifies_insert; [done|]. cbn. set_solver. }
  rewrite bind_Ok, (set_left_Ok _ _ _ _ Hp3). eexists. split; [done|]. split.
  - split; [done|]. cbn [fst snd]. eexists. rewrite lookup_insert_eq. split; [done|]. cbn.
    split_and!; [done|done|]. exists cn'. rewrite lookup_insert_ne by done. split_and!; [done|done|..]; cbn.
    + eapply forest_rep_frame; [|exact Hkc]. intros x Hx.
      assert (x <> p) by (intros ->; apply (Hdis p); [by left|by right]).
      rewrite lookup_insert_ne by done. rewrite O3; [apply Hold; [done|by intros ->]|].
      intros Hin. apply (Hdis x); by right.
    + eapply forest_rep_frame; [|exact R3]. intros x Hx. apply lookup_insert_ne. by intros ->.
  - eapply modifies_trans_same; [exact M3|]. eapply modifies_insert; [done|by left].
Qed.

Section Meld.
Context (value : Z -> Z).

Definition meld_tree (t1 t2 : ptree) : ptree :=
  if value t1.1 <=? value t2.1 then (t1.1, Node t2.1 t2.2 t1.2) else (t2.1, Node t1.1 t1.2 t2.2).

Lemma meld_tree_addrs t1 t2 : taddrs (meld_tree t1 t2) ≡ₚ taddrs t1 ++ taddrs t2.
Proof using Type.
  unfold meld_tree, taddrs. destruct (_ <=? _); cbn.
  - apply perm_skip. rewrite <- Permutation_middle. apply perm_skip, Permutation_app_comm.
  - rewrite <- Permutation_middle. apply perm_swap.
Qed.

Lemma meld_rep h t1 t2 :
  tree_rep h t1 -> tree_rep h t2 -> NoDup (taddrs t1 ++ taddrs t2) ->
  exists h', pheap_meld value h t1.1 t2.1 = Ok ((meld_tree t1 t2).1, h') /\
    tree_rep h' (meld_tree t1 t2) /\ modifies (taddrs t1 ++ taddrs t2) h h'.
Proof using Type.
  intros R1 R2 Hnd. pose proof R1 as [H1 _]. pose proof R2 as [H2 _].
  unfold pheap_meld. rewrite (proj2 (Z.eqb_neq _ 0) H1), (proj2 (Z.eqb_neq _ 0) H2).
  destruct t1 as [a1 k1], t2 as [a2 k2]. unfold meld_tree. cbn [fst snd].
  destruct (value a1 <=? value a2).
  - destruct (attach_rep h a1 k1 a2 k2 R1 R2 Hnd) as (h' & -> & R & M). exists h'. split_and!; [done..|].
    eapply modifies_weaken; [done|]. unfold taddrs. cbn. set_solver.
  - destruct (attach_rep h a2 k2 a1 k1 R2 R1) as (h' & -> & R & M); [by rewrite Permutation_app_comm|].
    exists h'. split_and!; [done..|]. eapply modifies_weaken; [done|]. unfold taddrs. cbn. set_solver.
Qed.

(** ** The two passes *)

Fixpoint pairs_of (ts acc : list ptree) : list ptree :=
  match ts with
  | [] => acc
  | [t] => t :: acc
  | t1 :: t2 :: ts => pairs_of ts (meld_tree t1 t2 :: acc)
  end.

Fixpoint meld_list (hd : option ptree) (ts : list ptree) : option ptree :=
  match ts with
  | [] => hd
  | t :: ts => meld_list (Some (match hd with None => t | Some x => meld_tree x t end)) ts
  end.

Definition merge_kids (k : forest) : option ptree := meld_list None (pairs_of (trees k) []).

Definition oaddrs (o : option ptree) : list Z := match o with None => [] | Some t => taddrs t end.

Definition otree_rep (h : pnodes) (o : option ptree) (ptr : Z) : Prop :=
  match o with None => ptr = 0 | Some t => ptr = t.1 /\ tree_rep h t end.

Lemma raddrs_app ts us : raddrs (ts ++ us) = raddrs ts ++ raddrs us.
Proof using Type. apply bind_app. Qed.

Lemma pairs_of_addrs n : forall ts acc, (length ts <= n)%nat -> raddrs (pairs_of ts acc) ≡ₚ raddrs ts ++ raddrs acc.
Proof using Type.
  induction n as [|n IH]; intros ts acc Hn; [by destruct ts; [|cbn in Hn; lia]|].
  destruct ts as [|t1 [|t2 ts]]; [done| |]; cbn [pairs_of].
  - rewrite !raddrs_cons. cbn. by rewrite app_nil_r.
  - rewrite IH by (cbn in Hn; lia). rewrite !raddrs_cons, meld_tree_addrs, !app_assoc.
    apply Permutation_app_tail. rewrite <- !app_assoc. rewrite Permutation_app_comm. by rewrite <- !app_assoc.
Qed.

Lemma meld_list_addrs ts : forall hd, oaddrs (meld_list hd ts) ≡ₚ oaddrs hd ++ raddrs ts.
Proof using Type.
  induction ts as [|t ts IH]; intros hd; cbn [meld_list]; [by rewrite app_nil_r|].
  rewrite IH, raddrs_cons. destruct hd as [x|]; cbn [oaddrs]; [|done].
  by rewrite meld_tree_addrs, <- app_assoc.
Qed.

Lemma merge_kids_addrs k : oaddrs (merge_kids k) ≡ₚ addrs k.
Proof using Type.
  unfold merge_kids. rewrite meld_list_addrs, (pairs_of_addrs (length (trees k))) by done.
  cbn. by rewrite app_nil_r, raddrs_trees.
Qed.

Lemma root_mapped h t : tree_rep h t -> exists n, h !! t.1 = Some n.
Proof using Type. intros [_ (n & Hn & _)]. eauto. Qed.

Lemma set_next_root h t ps ptr n :
  tree_rep h t -> roots_rep h ps ptr -> NoDup (taddrs t ++ raddrs ps) -> h !! t.1 = Some n ->
  roots_rep (<[t.1 := PNode (left_child n) ptr (prev_sibling n)]> h) (t :: ps) t.1.
Proof using Type.
  intros [H0 (n' & Hn' & Hf)] Hps Hnd Hn. simplify_eq. apply NoDup_app in Hnd as (Hnt & Hdis & _).
  apply NoDup_cons in Hnt as [Hni _]. cbn [roots_rep]. split_and!; [done| |].
  - split; [done|]. eexists. rewrite lookup_insert_eq. split; [done|]. cbn.
    eapply forest_rep_frame; [|done]. intros x Hx. apply lookup_insert_ne. intros E. by subst x.
  - eexists. rewrite lookup_insert_eq. split; [done|]. cbn. eapply roots_rep_frame; [|done].
    intros x Hx. apply lookup_insert_ne. intros E. subst x. apply (Hdis t.1); [by left|done].
Qed.

Lemma pair_pass_rep fuel : forall h ts ps cur ptr,
  (length ts < fuel)%nat -> roots_rep h ts cur -> roots_rep h ps ptr -> NoDup (raddrs ts ++ raddrs ps) ->
  exists h' ptr', pair_pass value fuel h cur ptr = Ok (ptr', h') /\
    roots_rep h' (pairs_of ts ps) ptr' /\ modifies (raddrs ts ++ raddrs ps) h h'.
Proof using Type.
  induction fuel as [|fuel IH]; intros h ts ps cur ptr Hf Hts Hps Hnd; [lia|]. cbn [pair_pass].
  destruct ts as [|t1 ts]; cbn [roots_rep] in Hts.
  { subst cur. exists h, ptr. split; [done|]. split; [done|apply modifies_refl]. }
  destruct Hts as (-> & R1 & n1 & Hn1 & Hts). rewrite raddrs_cons in *.
  rewrite (proj2 (Z.eqb_neq _ 0) (proj1 R1)). cbn [negb]. cbv zeta. rewrite (load_Ok _ _ _ Hn1), bind_Ok.
  destruct ts as [|t2 ts]; cbn [roots_rep pairs_of] in *.
  - rewrite Hts. cbn [Z.eqb negb]. rewrite bind_Ok. unfold pheap_meld.
    rewrite (proj2 (Z.eqb_neq _ 0) (proj1 R1)). cbn [Z.eqb]. rewrite bind_Ok, (set_sibling_Ok _ _ _ _ Hn1), bind_Ok.
    rewrite app_nil_r in Hnd. pose proof (set_next_root h t1 ps ptr n1 R1 Hps Hnd Hn1) as R.
    destruct (IH _ [] (t1 :: ps) 0 t1.1 ltac:(cbn in *; lia) eq_refl R) as (h' & p' & E & R' & M); [by rewrite raddrs_cons|].
    exists h', p'. split; [exact E|]. split; [exact R'|]. rewrite raddrs_cons in M. cbn [raddrs mbind list_bind app] in M.
    rewrite app_nil_r. eapply modifies_trans_same; [|exact M]. eapply modifies_insert; [done|by left].
  - destruct Hts as (E2 & R2 & n2 & Hn2 & Hts). rewrite E2, (proj2 (Z.eqb_neq _ 0) (proj1 R2)). cbn [negb].
    rewrite (load_Ok _ _ _ Hn2), !bind_Ok. rewrite raddrs_cons in *.
    assert (NoDup (taddrs t1 ++ taddrs t2) /\ NoDup (raddrs ts ++ raddrs ps) /\
      (forall x, x ∈ taddrs t1 ++ taddrs t2 -> x ∉ raddrs ts ++ raddrs ps)) as (Hn12 & Hnr & Hdis).
    { rewrite <- !app_assoc in Hnd. rewrite app_assoc in Hnd. apply NoDup_app in Hnd. tauto. }
    destruct (meld_rep h t1 t2 R1 R2 Hn12) as (h1 & -> & Rm & M1). rewrite bind_Ok.
    set (m := meld_tree t1 t2) in *. pose proof (meld_tree_addrs t1 t2) as HPm. fold m in HPm.
    destruct (root_mapped h1 m Rm) as [nm Hnm]. rewrite (set_sibling_Ok _ _ _ _ Hnm), bind_Ok.
    assert (forall x, x ∈ raddrs ts ++ raddrs ps -> h1 !! x = h !! x) as Hfr.
    { intros x Hx. destruct M1 as [_ M1]. apply M1. intros Hin. by apply (Hdis x). }
    assert (roots_rep h1 ps ptr) as Hps1 by (eapply roots_rep_frame; [|done]; intros; apply Hfr; set_solver).
    assert (roots_rep h1 ts (next_sibling n2)) as Hts1 by (eapply roots_rep_frame; [|done]; intros; apply Hfr; set_solver).
    assert (NoDup (taddrs m ++ raddrs ps)) as Hnm2.
    { rewrite HPm. apply NoDup_app. split_and!; [done| |].
      - intros x Hx Hx2. apply (Hdis x Hx). set_solver.
      - by apply NoDup_app in Hnr as (_ & _ & ?). }
    pose proof (set_next_root h1 m ps ptr nm Rm Hps1 Hnm2 Hnm) as R. set (h2 := <[m.1 := _]> h1) in *.
    assert (m.1 ∈ taddrs t1 ++ taddrs t2) as Hm1 by (rewrite <- HPm; by left).
    destruct (IH h2 ts (m :: ps) (next_sibling n2) m.1) as (h' & p' & E & R' & M).
    + cbn in *. lia.
    + eapply roots_rep_frame; [|exact Hts1]. intros x Hx. apply lookup_insert_ne. intros Ex. subst x. apply (Hdis m.1 Hm1). set_solver.
    + done.
    + rewrite raddrs_cons, HPm. rewrite (Permutation_app_comm (taddrs t1 ++ taddrs t2)), app_assoc.
      apply NoDup_app. split_and!; [done| |done]. intros x Hx Hx2. by apply (Hdis x).
    + exists h', p'. split; [done|]. split; [done|].
      assert (forall x, x ∈ raddrs ts ++ raddrs (m :: ps) ->
        x ∈ (taddrs t1 ++ taddrs t2 ++ raddrs ts) ++ raddrs ps) as Hsub.
      { intros x. rewrite raddrs_cons, !elem_of_app, HPm, elem_of_app. tauto. }
      eapply modifies_trans_same; [eapply modifies_weaken; [exact M1|set_solver]|].
      eapply modifies_trans_same; [eapply modifies_insert; [exact Hnm|set_solver]|].
      eapply modifies_weaken; [exact M|done].
Qed.

Lemma otree_rep_frame h h' o ptr :
  (forall x, x ∈ oaddrs o -> h' !! x = h !! x) -> otree_rep h o ptr -> otree_rep h' o ptr.
Proof using Type.
  destruct o as [t|]; cbn; [|done]. intros Hx [-> R]. split; [done|]. by eapply tree_rep_frame.
Qed.

(** [pheap_meld] with possibly empty heaps. *)
Definition omeld (o1 o2 : option ptree) : option ptree :=
  match o1, o2 with None, o | o, None => o | Some t1, Some t2 => Some (meld_tree t1 t2) end.

Lemma omeld_addrs o1 o2 : oaddrs (omeld o1 o2) ≡ₚ oaddrs o1 ++ oaddrs o2.
Proof using Type.
  destruct o1 as [t1|], o2 as [t2|]; cbn; rewrite ?app_nil_r; try done. apply meld_tree_addrs.
Qed.

Lemma omeld_rep h o1 o2 p1 p2 :
  otree_rep h o1 p1 -> otree_rep h o2 p2 -> NoDup (oaddrs o1 ++ oaddrs o2) ->
  exists h' p', pheap_meld value h p1 p2 = Ok (p', h') /\ otree_rep h' (omeld o1 o2) p' /\
    modifies (oaddrs o1 ++ oaddrs o2) h h'.
Proof using Type.
  destruct o1 as [t1|], o2 as [t2|]; cbn [otree_rep omeld oaddrs]; intros H1 H2 Hnd.
  - destruct H1 as [-> R1], H2 as [-> R2]. destruct (meld_rep h t1 t2 R1 R2 Hnd) as (h' & E & R & M).
    exists h', (meld_tree t1 t2).1. by split_and!.
  - destruct H1 as [-> R1]. subst p2. unfold pheap_meld. rewrite (proj2 (Z.eqb_neq _ 0) (proj1 R1)).
    exists h, t1.1. split_and!; [done..|apply modifies_refl].
  - subst p1. exists h, p2. split; [done|]. split; [done|apply modifies_refl].
  - subst p1 p2. exists h, 0. split_and!; [done..|apply modifies_refl].
Qed.

Lemma meld_pass_rep fuel : forall h hd ts hp ptr,
  (length ts < fuel)%nat -> otree_rep h hd hp -> roots_rep h ts ptr -> NoDup (oaddrs hd ++ raddrs ts) ->
  exists h' p', meld_pass value fuel h hp ptr = Ok (p', h') /\
    otree_rep h' (meld_list hd ts) p' /\ modifies (oaddrs hd ++ raddrs ts) h h'.
Proof using Type.
  induction fuel as [|fuel IH]; intros h hd ts hp ptr Hf Hh Hts Hnd; [lia|]. cbn [meld_pass].
  destruct ts as [|t ts]; cbn [roots_rep] in Hts.
  { subst ptr. exists h, hp. split; [done|]. split; [done|apply modifies_refl]. }
  destruct Hts as (-> & R & n & Hn & Hts). rewrite (proj2 (Z.eqb_neq _ 0) (proj1 R)). cbn [negb].
  rewrite (load_Ok _ _ _ Hn), bind_Ok. cbv zeta. rewrite raddrs_cons, app_assoc in Hnd.
  apply NoDup_app in Hnd as (Hnd1 & Hdis & Hnd2).
  destruct (omeld_rep h hd (Some t) hp t.1 Hh (conj eq_refl R) Hnd1) as (h1 & p1 & -> & R1 & M1). rewrite bind_Ok.
  pose proof (omeld_addrs hd (Some t)) as HP. cbn [oaddrs] in *.
  assert (omeld hd (Some t) = Some (match hd with None => t | Some x => meld_tree x t end)) as Ho by (by destruct hd).
  destruct (IH h1 (omeld hd (Some t)) ts p1 (next_sibling n)) as (h2 & p2 & E & R2 & M2).
  - cbn in Hf. lia.
  - done.
  - eapply roots_rep_frame; [|done]. intros x Hx. destruct M1 as [_ M1]. apply M1. intros Hin. by apply (Hdis x).
  - rewrite HP. apply NoDup_app. done.
  - exists h2, p2. cbn [meld_list]. rewrite <- Ho. split; [done|]. split; [done|]. rewrite raddrs_cons, app_assoc.
    eapply modifies_trans_same; [eapply modifies_weaken; [exact M1|set_solver]|].
    eapply modifies_weaken; [exact M2|]. intros x. rewrite !elem_of_app, HP, elem_of_app. tauto.
Qed.

Lemma forest_mapped h f : forall prev ptr x, forest_rep h prev f ptr -> x ∈ addrs f -> is_Some (h !! x) /\ x <> 0.
Proof using Type.
  induction f as [|a k IHk r IHr]; intros prev ptr x; cbn; [by intros _ ?%not_elem_of_nil|].
  intros (-> & Ha & n & Hn & _ & Hk & Hr) [->|[Hx|Hx]%elem_of_app]%elem_of_cons; eauto.
Qed.

Lemma trees_length f : (length (trees f) <= length (addrs f))%nat.
Proof using Type. induction f as [|a k _ r IH]; cbn; [lia|]. rewrite length_app. lia. Qed.

Lemma pairs_of_length n : forall ts acc, (length ts <= n)%nat -> (length (pairs_of ts acc) <= length ts + length acc)%nat.
Proof using Type.
  induction n as [|n IH]; intros ts acc Hn; [destruct ts; cbn in *; lia|].
  destruct ts as [|t1 [|t2 ts]]; cbn in *; try lia. etrans; [apply IH; lia|]. cbn. lia.
Qed.

Lemma modifies_size S (h h' : pnodes) : modifies S h h' -> size h' = size h.
Proof using Type. intros [D _]. by rewrite <- !size_dom, D. Qed.

Lemma merge_children_rep h root k n :
  h !! root = Some n -> forest_rep h root k (left_child n) -> NoDup (addrs k) ->
  exists h' p', pheap_merge_children value h root = Ok (p', h') /\
    otree_rep h' (merge_kids k) p' /\ modifies (addrs k) h h'.
Proof using Type.
  intros Hn Hk Hnd. unfold pheap_merge_children. rewrite (load_Ok _ _ _ Hn), bind_Ok.
  assert (length (trees k) <= size h)%nat as Hlen.
  { etrans; [apply trees_length|]. apply NoDup_length_size; [done|]. intros x Hx. by eapply forest_mapped. }
  destruct (pair_pass_rep (S (size h)) h (trees k) [] (left_child n) 0) as (h1 & p1 & -> & R1 & M1).
  { lia. }
  { by eapply forest_roots. }
  { done. }
  { cbn. by rewrite app_nil_r, raddrs_trees. }
  rewrite bind_Ok. cbn [raddrs mbind list_bind] in M1. rewrite app_nil_r, raddrs_trees in M1.
  pose proof (pairs_of_addrs (length (trees k)) (trees k) [] ltac:(done)) as HP.
  cbn in HP. rewrite app_nil_r, raddrs_trees in HP.
  destruct (meld_pass_rep (S (size h1)) h1 None (pairs_of (trees k) []) 0 p1) as (h2 & p2 & E & R2 & M2).
  { rewrite (modifies_size _ _ _ M1). pose proof (pairs_of_length (length (trees k)) (trees k) [] ltac:(done)).
    cbn in *. lia. }
  { done. }
  { done. }
  { cbn. by rewrite HP. }
  exists h2, p2. split; [done|]. split; [done|]. cbn [oaddrs app] in M2.
  eapply modifies_trans_same; [exact M1|]. eapply modifies_weaken; [exact M2|]. intros x. by rewrite HP.
Qed.

(** ** Heap order *)

Fixpoint fordered (v : Z) (f : forest) : Prop :=
  match f with
  | Nil => True
  | Node a k r => v <= value a /\ fordered (value a) k /\ fordered v r
  end.
Definition tordered (t : ptree) : Prop := fordered (value t.1) t.2.
Definition oordered (o : option ptree) : Prop := match o with None => True | Some t => tordered t end.

Lemma fordered_weaken f : forall v w, w <= v -> fordered v f -> fordered w f.
Proof using Type. induction f as [|a k _ r IH]; intros v w Hw; cbn; [done|]. intros (? & ? & ?). split_and!; [lia|done|eauto]. Qed.

Lemma fordered_min f : forall v x, fordered v f -> x ∈ addrs f -> v <= value x.
Proof using Type.
  induction f as [|a k IHk r IHr]; intros v x; cbn; [by intros _ ?%not_elem_of_nil|].
  intros (Ha & Hk & Hr) [->|[Hx|Hx]%elem_of_app]%elem_of_cons; eauto.
  etrans; [exact Ha|]. eauto.
Qed.

Lemma meld_tree_ordered t1 t2 : tordered t1 -> tordered t2 -> tordered (meld_tree t1 t2).
Proof using Type.
  unfold tordered, meld_tree. intros H1 H2. destruct (Z.leb_spec (value t1.1) (value t2.1)); cbn; split_and!; auto; lia.
Qed.

Lemma omeld_ordered o1 o2 : oordered o1 -> oordered o2 -> oordered (omeld o1 o2).
Proof using Type. destruct o1, o2; cbn; auto using meld_tree_ordered. Qed.

Lemma pairs_of_ordered n : forall ts acc, (length ts <= n)%nat ->
  Forall tordered ts -> Forall tordered acc -> Forall tordered (pairs_of ts acc).
Proof using Type.
  induction n as [|n IH]; intros ts acc Hn; [destruct ts; [done|cbn in Hn; lia]|].
  destruct ts as [|t1 [|t2 ts]]; cbn [pairs_of]; [done|by intros [? _]%Forall_cons ?; constructor|].
  intros [H1 [H2 Hts]%Forall_cons]%Forall_cons Hacc. apply IH; [cbn in Hn; lia|done|].
  constructor; [by apply meld_tree_ordered|done].
Qed.

Lemma meld_list_ordered ts : forall hd, oordered hd -> Forall tordered ts -> oordered (meld_list hd ts).
Proof using Type.
  induction ts as [|t ts IH]; intros hd Hhd; cbn [meld_list]; [done|]. intros [Ht Hts]%Forall_cons.
  apply IH; [|done]. destruct hd; cbn in *; auto using meld_tree_ordered.
Qed.

Lemma trees_ordered f : forall v, fordered v f -> Forall tordered (trees f).
Proof using Type.
  induction f as [|a k _ r IH]; intros v; cbn; [constructor|]. intros (_ & Hk & Hr). constructor; [done|eauto].
Qed.

Lemma merge_kids_ordered k v : fordered v k -> oordered (merge_kids k).
Proof using Type.
  intros Hk. apply meld_list_ordered; [done|]. eapply pairs_of_ordered; [done|by eapply trees_ordered|constructor].
Qed.
End Meld.

(** ** Taking a node out of the forest *)

(** The children of [a], and the forest without its subtree. *)
Fixpoint cut (a : Z) (f : forest) : option (forest * forest) :=
  match f with
  | Nil => None
  | Node b k r =>
      if decide (a = b) then Some (k, r)
      else match cut a k with
           | Some (ka, k') => Some (ka, Node b k' r)
           | None => match cut a r with Some (ka, r') => Some (ka, Node b k r') | None => None end
           end
  end.

Lemma cut_Some a f : a ∈ addrs f -> exists ka f', cut a f = Some (ka, f').
Proof.
  induction f as [|b k IHk r IHr]; cbn; [by intros ?%not_elem_of_nil|]. intros Ha.
  case_decide; [eauto|]. apply elem_of_cons in Ha as [|[Ha|Ha]%elem_of_app]; [done| |].
  - destruct (IHk Ha) as (ka & k' & ->). eauto.
  - destruct (cut a k) as [[ka k']|]; [eauto|]. destruct (IHr Ha) as (ka & r' & ->). eauto.
Qed.

Lemma cut_in a f ka f' : cut a f = Some (ka, f') -> a ∈ addrs f.
Proof.
  revert ka f'. induction f as [|b k IHk r IHr]; intros ka f'; cbn; [done|]. case_decide; [subst; by left|].
  destruct (cut a k) as [[kk k']|]; [intros _; right; apply elem_of_app; left; eauto|].
  destruct (cut a r) as [[kr r']|]; [intros _; right; apply elem_of_app; right; eauto|done].
Qed.

Lemma cut_addrs a f : forall ka f', cut a f = Some (ka, f') -> addrs f ≡ₚ a :: addrs ka ++ addrs f'.
Proof.
  induction f as [|b k IHk r IHr]; intros ka f'; cbn; [done|]. case_decide; [by intros [= -> ->]; subst|].
  destruct (cut a k) as [[kk k']|] eqn:E1; [intros [= <- <-]|destruct (cut a r) as [[kr r']|] eqn:E2; [intros [= <- <-]|done]]; cbn.
  - rewrite (IHk _ _ eq_refl). cbn. rewrite perm_swap. apply perm_skip. rewrite <- app_assoc. by rewrite Permutation_middle.
  - rewrite (IHr _ _ eq_refl). rewrite <- Permutation_middle, perm_swap. apply perm_skip.
    rewrite app_assoc, (Permutation_app_comm (addrs k)), <- app_assoc. by rewrite Permutation_middle.
Qed.

(** [node]'s predecessor [prev] links to it as first child ([d = true]) or as
    next sibling. *)
Definition relink (d : bool) (pn : pheap_node) (ptr : Z) : pheap_node :=
  if d then PNode ptr (next_sibling pn) (prev_sibling pn) else PNode (left_child pn) ptr (prev_sibling pn).

Lemma first_in h prev f ptr : forest_rep h prev f ptr -> ptr <> 0 -> ptr ∈ addrs f.
Proof. destruct f; cbn; [done|]. intros [-> _] _. by left. Qed.

Lemma detach_first h prev (d : bool) pn b k r n :
  forest_rep h prev (Node b k r) b -> NoDup (prev :: addrs (Node b k r)) -> h !! prev = Some pn ->
  (if d then left_child pn = b else left_child pn <> b) -> h !! b = Some n ->
  exists h', pheap_detach h b = Ok h' /\ forest_rep h' prev r (next_sibling n) /\
    h' !! prev = Some (relink d pn (next_sibling n)) /\ modifies (prev :: addrs (Node b k r)) h h' /\
    (exists n', h' !! b = Some n' /\ forest_rep h' b k (left_child n')).
Proof.
  cbn [forest_rep addrs]. intros (_ & Hb0 & n' & Hn' & Hprev & Hk & Hr) Hnd Hpn Hd Hn.
  assert (n' = n) as -> by congruence. subst prev.
  apply NoDup_cons in Hnd as [Hp Hnd]. apply NoDup_cons in Hnd as [Hb Hnd]. apply NoDup_app in Hnd as (Hndk & Hdis & Hndr).
  assert (prev_sibling n <> b) as Hpb by (intros E; apply Hp; rewrite E; by left).
  unfold pheap_detach. rewrite (load_Ok _ _ _ Hn), bind_Ok. cbv zeta. rewrite (load_Ok _ _ _ Hpn), bind_Ok.
  set (prev := prev_sibling n) in *.
  assert ((if left_child pn =? b then set_left_child h prev (next_sibling n) else set_next_sibling h prev (next_sibling n))
    = Ok (<[prev := relink d pn (next_sibling n)]> h)) as ->.
  { destruct d; [rewrite (proj2 (Z.eqb_eq _ _) Hd)|rewrite (proj2 (Z.eqb_neq _ _) Hd)].
    - by rewrite (set_left_Ok _ _ _ _ Hpn).
    - by rewrite (set_sibling_Ok _ _ _ _ Hpn). }
  rewrite bind_Ok. set (h1 := <[prev := _]> h).
  assert (h1 !! b = Some n) as Hb1 by (unfold h1; by look). rewrite (load_Ok _ _ _ Hb1), bind_Ok.
  assert (forall x, x ∈ b :: addrs k ++ addrs r -> h1 !! x = h !! x) as Hfr.
  { intros x Hx. apply lookup_insert_ne. by intros ->. }
  assert (forest_rep h1 b r (next_sibling n)) as Hr1 by (eapply forest_rep_frame; [|done]; intros; apply Hfr; set_solver).
  assert (forest_rep h1 b k (left_child n)) as Hk1 by (eapply forest_rep_frame; [|done]; intros; apply Hfr; set_solver).
  assert (modifies (prev :: b :: addrs k ++ addrs r) h h1) as M1 by (eapply modifies_insert; [done|by left]).
  destruct r as [|c kc rc].
  - cbn in Hr1. rewrite Hr1. cbn [Z.eqb negb]. exists h1. split_and!; try done.
    + unfold h1. rewrite lookup_insert_eq. by rewrite Hr1.
    + exists n. by split.
  - pose proof Hr1 as (Ec & Hc0 & cn & Hcn & _). rewrite Ec in Hr1. rewrite (proj2 (Z.eqb_neq (next_sibling n) 0)) by congruence. cbn [negb].
    rewrite <- Ec in Hcn.
    rewrite (set_prev_sibling_Ok _ _ _ _ Hcn).
    assert (prev <> next_sibling n) by (rewrite Ec; intros E; apply Hp; rewrite E; cbn; set_solver).
    assert (b <> next_sibling n) by (rewrite Ec; intros E; apply Hb; rewrite E; cbn; set_solver).
    eexists. split; [done|]. split; [|split; [unfold h1; by look|]].
    { rewrite Ec. rewrite Ec in Hcn. by eapply forest_rep_prev. } split.
    + eapply modifies_trans_same; [exact M1|]. eapply modifies_insert; [exact Hcn|]. cbn. set_solver.
    + exists n. rewrite lookup_insert_ne by done. split; [done|]. eapply forest_rep_frame; [|exact Hk1].
      intros x Hx. apply lookup_insert_ne. intros E. apply (Hdis x); [done|]. rewrite <- E, Ec. by left.
Qed.

Lemma detach_rep a f : forall h prev (d : bool) pn ptr ka f',
  forest_rep h prev f ptr -> NoDup (prev :: addrs f) -> h !! prev = Some pn ->
  (if d then left_child pn = ptr else next_sibling pn = ptr /\ left_child pn ∉ addrs f) -> cut a f = Some (ka, f') ->
  exists h' ptr', pheap_detach h a = Ok h' /\ forest_rep h' prev f' ptr' /\
    h' !! prev = Some (relink d pn ptr') /\ modifies (prev :: addrs f) h h' /\
    (exists n', h' !! a = Some n' /\ forest_rep h' a ka (left_child n')).
Proof.
  induction f as [|b k IHk r IHr]; intros h prev d pn ptr ka f' HR Hnd Hpn Hd Hcut; [done|].
  pose proof HR as (-> & Hb0 & n & Hn & Hprev & Hk & Hr). cbn [cut] in Hcut. case_decide as Hab.
  - injection Hcut as <- <-. subst b.
    destruct (detach_first h prev d pn a k r n HR Hnd Hpn) as (h' & E & R & Hp & M & Hk'); [|done|].
    { destruct d; [done|]. intros E. apply (proj2 Hd). rewrite E. by left. }
    exists h', (next_sibling n). split; [done|]. split; [done|]. split; [done|]. split; done.
  - pose proof Hnd as Hnd0. cbn [addrs] in Hnd. apply NoDup_cons in Hnd as [Hp Hnd].
    apply NoDup_cons in Hnd as [Hb Hnd]. apply NoDup_app in Hnd as (Hndk & Hdis & Hndr).
    assert (prev <> b) as Hpb by (intros ->; apply Hp; by left).
    assert (forall S h', modifies (b :: S) h h' -> prev ∉ S -> h' !! prev = Some pn) as Hkeep.
    { intros S h' [_ M] HS. rewrite M; [done|]. intros [|]%elem_of_cons; done. }
    destruct (cut a k) as [[kk k']|] eqn:E1.
    + injection Hcut as <- <-.
      destruct (IHk h b true n (left_child n) kk k' Hk) as (h' & ptr' & E & R & Hb' & M & Hka);
        [by constructor; [set_solver|]|done|done|done|].
      exists h', b. split; [done|]. assert (h' !! prev = Some pn) as Hprev' by (eapply Hkeep; [done|set_solver]).
      assert (forest_rep h' prev (Node b k' r) b) as HR'.
      { cbn. split; [done|]. split; [done|]. eexists. split; [exact Hb'|]. split; [done|]. split; [exact R|].
        cbn. eapply forest_rep_frame; [|exact Hr]. intros x Hx. destruct M as [_ M]. apply M.
        intros [->|Hxk]%elem_of_cons; [apply Hb; set_solver|by apply (Hdis x)]. }
      split; [exact HR'|]. split; [|split; [|done]].
      * rewrite Hprev'. f_equal. unfold relink. destruct d, pn; cbn in *; [by subst|by destruct Hd as [-> _]].
      * eapply modifies_weaken; [exact M|]. cbn. set_solver.
    + destruct (cut a r) as [[kr r']|] eqn:E2; [|done]. injection Hcut as <- <-.
      destruct (IHr h b false n (next_sibling n) kr r' Hr) as (h' & ptr' & E & R & Hb' & M & Hka);
        [by constructor; [set_solver|]|done| |done|].
      { split; [done|]. intros Hin. destruct (decide (left_child n = 0)) as [E0|E0].
        - rewrite E0 in Hin. by destruct (forest_mapped h r b _ 0 Hr Hin).
        - apply (Hdis (left_child n)); [|done]. by eapply first_in. }
      exists h', b. split; [done|]. assert (h' !! prev = Some pn) as Hprev' by (eapply Hkeep; [done|set_solver]).
      split; [|split; [|split; [|done]]].
      * cbn. split; [done|]. split; [done|]. eexists. split; [exact Hb'|]. split; [done|].
        split; [|exact R]. cbn. eapply forest_rep_frame; [|exact Hk]. intros x Hx. destruct M as [_ M]. apply M.
        intros [->|Hxr]%elem_of_cons; [apply Hb; set_solver|by apply (Hdis x)].
      * rewrite Hprev'. f_equal. unfold relink. destruct d, pn; cbn in *; [by subst|by destruct Hd as [-> _]].
      * eapply modifies_weaken; [exact M|]. cbn. set_solver.
Qed.

(** ** The heap as a priority queue *)
Section Queue.
Context (value : Z -> Z).

(** [head] is a heap-ordered tree of distinct nodes. *)
Record heap_rep (h : pnodes) (head : Z) (o : option ptree) : Prop := {
  hr_rep : otree_rep h o head;
  hr_nodup : NoDup (oaddrs o);
  hr_order : oordered value o;
}.

(** The canary says that [node] was taken out. *)
Definition is_removed (h : pnodes) (node : Z) : Prop :=
  exists n, h !! node = Some n /\ left_child n = removed_mark.

Lemma otree_nonzero h o ptr x : otree_rep h o ptr -> x ∈ oaddrs o -> x <> 0 /\ is_Some (h !! x).
Proof using Type.
  destruct o as [t|]; cbn; [|by intros _ ?%not_elem_of_nil]. intros [-> [H0 (n & Hn & Hf)]] [->|Hx]%elem_of_cons; [eauto|].
  destruct (forest_mapped h t.2 t.1 _ x Hf Hx). done.
Qed.

Lemma pheap_insert_ok h head o node :
  heap_rep h head o -> node ∉ oaddrs o -> node <> 0 -> is_Some (h !! node) ->
  exists head' h' o', pheap_insert value h head node = Ok (head', h') /\ heap_rep h' head' o' /\
    oaddrs o' ≡ₚ node :: oaddrs o /\ modifies (node :: oaddrs o) h h'.
Proof using Type.
  intros [R N O] Hn H0 [n Hm]. unfold pheap_insert. rewrite (set_left_Ok _ _ _ _ Hm), bind_Ok.
  set (h1 := <[node := _]> h).
  assert (otree_rep h1 o head) as R1.
  { eapply otree_rep_frame; [|done]. intros x Hx. apply lookup_insert_ne. by intros ->. }
  assert (otree_rep h1 (Some (node, Nil)) node) as R2.
  { split; [done|]. split; [done|]. eexists. unfold h1. cbn [fst]. rewrite lookup_insert_eq. by split. }
  destruct (omeld_rep value h1 o (Some (node, Nil)) head node R1 R2) as (h' & p' & E & R' & M).
  { cbn. apply NoDup_app. split_and!; [done| |apply NoDup_singleton]. intros x Hx ->%list_elem_of_singleton. done. }
  exists p', h', (omeld value o (Some (node, Nil))). split; [done|].
  assert (oaddrs (omeld value o (Some (node, Nil))) ≡ₚ node :: oaddrs o) as HP
    by (rewrite omeld_addrs; cbn; by rewrite Permutation_app_comm).
  split; [split|split]; [done| |by apply omeld_ordered|done|].
  - rewrite HP. by constructor.
  - eapply modifies_trans_same; [eapply modifies_insert; [done|by left]|].
    eapply modifies_weaken; [exact M|]. cbn. set_solver.
Qed.

(** Marking a node that is not in the heap. *)
Lemma mark_removed h head o node :
  otree_rep h o head -> node ∉ oaddrs o -> is_Some (h !! node) ->
  exists h', set_left_child h node removed_mark = Ok h' /\ otree_rep h' o head /\ is_removed h' node /\
    modifies [node] h h'.
Proof using Type.
  intros R Hn [n Hm]. rewrite (set_left_Ok _ _ _ _ Hm). eexists. split; [done|]. split; [|split].
  - eapply otree_rep_frame; [|done]. intros x Hx. apply lookup_insert_ne. by intros ->.
  - eexists. rewrite lookup_insert_eq. done.
  - eapply modifies_insert; [done|by left].
Qed.

Lemma pop_ok h head root k :
  heap_rep h head (Some (root, k)) ->
  exists head' h' o', pheap_pop value h head = Ok (root, head', h') /\ heap_rep h' head' o' /\
    oaddrs (Some (root, k)) ≡ₚ root :: oaddrs o' /\ is_removed h' root /\
    modifies (root :: addrs k) h h'.
Proof using Type.
  intros [[Hh [H0 (n & Hn & Hf)]] N O]. cbn [fst snd oaddrs] in *. unfold taddrs in *. cbn [fst snd] in *. subst head.
  apply NoDup_cons in N as [Hni N]. unfold pheap_pop. cbv zeta. rewrite (proj2 (Z.eqb_neq root 0) H0).
  destruct (merge_children_rep value h root k n Hn Hf N) as (h1 & p1 & -> & R1 & M1). rewrite bind_Ok.
  pose proof (merge_kids_addrs value k) as HP.
  destruct (mark_removed h1 p1 (merge_kids value k) root R1) as (h2 & -> & R2 & Hm & M2).
  { by rewrite HP. }
  { eapply modifies_mapped; [exact M1|eauto]. }
  rewrite bind_Ok. exists p1, h2, (merge_kids value k). split; [done|].
  split; [split|split; [|split]]; try done.
  - by rewrite HP.
  - by eapply merge_kids_ordered.
  - by rewrite HP.
  - eapply modifies_trans_same; [eapply modifies_weaken; [exact M1|set_solver]|].
    eapply modifies_weaken; [exact M2|set_solver].
Qed.

Lemma cut_ordered a f : forall v ka f', fordered value v f -> cut a f = Some (ka, f') ->
  fordered value v f' /\ fordered value (value a) ka.
Proof using Type.
  induction f as [|b k IHk r IHr]; intros v ka f'; cbn; [done|]. intros (Hb & Hk & Hr). case_decide as Hab.
  - subst b. by intros [= <- <-].
  - destruct (cut a k) as [[kk k']|]; [|destruct (cut a r) as [[kr r']|]; [|done]]; intros [= <- <-].
    + destruct (IHk _ _ _ Hk eq_refl). by split.
    + destruct (IHr _ _ _ Hr eq_refl). by split.
Qed.

Lemma remove_inner_ok h root k node :
  heap_rep h root (Some (root, k)) -> node ∈ addrs k ->
  exists head' h' o', pheap_remove value h root node = Ok (node, head', h') /\ heap_rep h' head' o' /\
    taddrs (root, k) ≡ₚ node :: oaddrs o' /\ is_removed h' node.
Proof using Type.
  intros [[_ [H0 (n & Hn & Hf)]] N O] Hin. cbn [fst snd oaddrs oordered] in *. unfold tordered in O. cbn [fst snd] in O.
  unfold taddrs in N. cbn [fst snd] in N.
  assert (node <> root) as Hne by (intros ->; by apply NoDup_cons in N as [? _]).
  destruct (cut_Some node k Hin) as (ka & k' & Hcut). pose proof (cut_addrs node k ka k' Hcut) as HPc.
  destruct (cut_ordered node k _ ka k' O Hcut) as [Ok' Oka].
  unfold pheap_remove. rewrite (proj2 (Z.eqb_neq _ _) Hne).
  destruct (detach_rep node k h root true n (left_child n) ka k' Hf N Hn eq_refl Hcut)
    as (h1 & p1 & -> & R1 & Hr1 & M1 & n1 & Hn1 & Rka). rewrite bind_Ok.
  assert (NoDup (root :: node :: addrs ka ++ addrs k')) as Nc by (by rewrite <- HPc).
  apply NoDup_cons in Nc as [Hr_ni Nc]. apply NoDup_cons in Nc as [Hnode_ni Nc]. apply NoDup_app in Nc as (Nka & Dka & Nk').
  destruct (merge_children_rep value h1 node ka n1 Hn1 Rka Nka) as (h2 & p2 & -> & R2 & M2). rewrite bind_Ok.
  pose proof (merge_kids_addrs value ka) as HPka.
  assert (otree_rep h2 (Some (root, k')) root) as R3.
  { eapply otree_rep_frame.
    - intros x Hx. destruct M2 as [_ M2]. apply M2. intros Hxka.
      cbn [oaddrs] in Hx. apply elem_of_cons in Hx as [->|Hx]; [apply Hr_ni; cbn; set_solver|by apply (Dka x)].
    - split; [done|]. split; [done|]. eexists. split; [exact Hr1|done]. }
  destruct (omeld_rep value h2 (Some (root, k')) (merge_kids value ka) root p2 R3 R2) as (h3 & p3 & E3 & R4 & M3).
  { cbn [oaddrs]. rewrite HPka. unfold taddrs. cbn [fst snd]. rewrite <- app_comm_cons. constructor.
    - rewrite elem_of_app. intros [|]; apply Hr_ni; set_solver.
    - apply NoDup_app. split_and!; [done| |done]. intros x Hx1 Hx2. by apply (Dka x). }
  rewrite E3, bind_Ok. set (o' := omeld value (Some (root, k')) (merge_kids value ka)) in *.
  assert (oaddrs o' ≡ₚ root :: addrs ka ++ addrs k') as HPo.
  { unfold o'. rewrite omeld_addrs. cbn [oaddrs]. rewrite HPka. unfold taddrs. cbn [fst snd].
    rewrite <- app_comm_cons. apply perm_skip, Permutation_app_comm. }
  destruct (mark_removed h3 p3 o' node R4) as (h4 & -> & R5 & Hm & M4).
  { rewrite HPo. intros [|]%elem_of_cons; [done|]. set_solver. }
  { eapply modifies_mapped; [exact M3|]. eapply modifies_mapped; [exact M2|eauto]. }
  rewrite bind_Ok. exists p3, h4, o'. split; [done|]. split; [split|split]; try done.
  - rewrite HPo. constructor; [set_solver|]. apply NoDup_app. done.
  - apply omeld_ordered; [done|]. by eapply merge_kids_ordered.
  - unfold taddrs. cbn [fst snd]. rewrite HPc, HPo. apply perm_swap.
Qed.
End Queue.

Lemma forest_child h f : forall prev ptr x, forest_rep h prev f ptr -> x ∈ addrs f ->
  exists n, h !! x = Some n /\ (left_child n = 0 \/ left_child n ∈ addrs f).
Proof.
  induction f as [|a k IHk r IHr]; intros prev ptr x; cbn; [by intros _ ?%not_elem_of_nil|].
  intros (-> & Ha & n & Hn & _ & Hk & Hr) [->|[Hx|Hx]%elem_of_app]%elem_of_cons.
  - exists n. split; [done|]. destruct (decide (left_child n = 0)) as [|Hl]; [by left|].
    right. pose proof (first_in h a k _ Hk Hl). set_solver.
  - destruct (IHk _ _ x Hk Hx) as (m & Hm & [|]); exists m; split; auto. right. set_solver.
  - destruct (IHr _ _ x Hr Hx) as (m & Hm & [|]); exists m; split; auto. right. set_solver.
Qed.

Lemma tree_child h t x : tree_rep h t -> x ∈ taddrs t ->
  exists n, h !! x = Some n /\ (left_child n = 0 \/ left_child n ∈ taddrs t).
Proof.
  intros [H0 (n & Hn & Hf)] [->|Hx]%elem_of_cons.
  - exists n. split; [done|]. destruct (decide (left_child n = 0)) as [|Hl]; [by left|].
    right. right. by eapply first_in.
  - destruct (forest_child h t.2 t.1 _ x Hf Hx) as (m & Hm & [|]); exists m; split; auto. right. by right.
Qed.

(** C28: popping a non-empty heap returns its root, which has the least value
    of all nodes in the heap, marks it as removed, and leaves a heap-ordered,
    well-linked heap of exactly the other nodes. *)
Theorem pheap_pop_min value h head root k :
  heap_rep value h head (Some (root, k)) ->
  exists head' h' o', pheap_pop value h head = Ok (root, head', h') /\ heap_rep value h' head' o' /\
    oaddrs (Some (root, k)) ≡ₚ root :: oaddrs o' /\ is_removed h' root /\
    (forall x, x ∈ oaddrs (Some (root, k)) -> value root <= value x).
Proof.
  intros R. destruct (pop_ok value h head root k R) as (hd & h' & o' & E & R' & P & M & _).
  exists hd, h', o'. split; [done|]. split; [done|]. split; [done|]. split; [done|].
  intros x [->|Hx]%elem_of_cons; [done|]. apply (fordered_min value k _ x); [|done]. apply (hr_order _ _ _ _ R).
Qed.

(** inserting a node that is not in the heap gives a heap-ordered heap
    of exactly the old nodes and the new one. *)
Theorem pheap_insert_correct value h head o node :
  heap_rep value h head o -> node ∉ oaddrs o -> node <> 0 -> is_Some (h !! node) ->
  exists head' h' o', pheap_insert value h head node = Ok (head', h') /\ heap_rep value h' head' o' /\
    oaddrs o' ≡ₚ node :: oaddrs o.
Proof.
  intros R Hn H0 Hm. destruct (pheap_insert_ok value h head o node R Hn H0 Hm) as (hd & h' & o' & E & R' & P & _).
  by exists hd, h', o'.
Qed.

(** removing any node of the heap, the root or an inner one, returns it
    marked as removed and leaves a heap of exactly the other nodes; once a
    node carries the mark, trying to remove it changes nothing. *)
Theorem pheap_try_remove_correct value h head o node :
  heap_rep value h head o -> 1 ∉ oaddrs o ->
  (node ∈ oaddrs o ->
   exists head' h' o', pheap_try_remove value h head node = Ok (node, head', h') /\
     heap_rep value h' head' o' /\ oaddrs o ≡ₚ node :: oaddrs o' /\ is_removed h' node) /\
  (is_removed h node -> pheap_try_remove value h head node = Ok (0, head, h)).
Proof.
  intros R H1. split.
  - intros Hin. destruct o as [[root k]|]; [|by apply not_elem_of_nil in Hin].
    pose proof R as [[Hh T] N O]. cbn [fst] in Hh. subst head. unfold pheap_try_remove.
    assert (exists n, h !! node = Some n /\ left_child n <> removed_mark) as (n & Hn & Hl).
    { destruct (tree_child h (root, k) node T Hin) as (n & Hn & Hl). exists n. split; [done|].
      destruct Hl as [-> | Hl]; [done|]. intros E. rewrite E in Hl. done. }
    rewrite (load_Ok _ _ _ Hn), bind_Ok, (proj2 (Z.eqb_neq _ _) Hl). cbn [negb].
    cbn [oaddrs] in Hin. apply elem_of_cons in Hin as [->|Hin].
    + cbn [fst]. unfold pheap_remove. rewrite Z.eqb_refl.
      destruct (pop_ok value h root root k R) as (hd & h' & o' & E & R' & P & M & _). by exists hd, h', o'.
    + destruct (remove_inner_ok value h root k node R Hin) as (hd & h' & o' & E & R' & P & M). by exists hd, h', o'.
  - intros (n & Hn & Hl). unfold pheap_try_remove. rewrite (load_Ok _ _ _ Hn), bind_Ok, Hl. done.
Qed.

(** *** Witnesses: nodes 8, 16 and 24 with their address as value *)
Definition demo_nodes : pnodes := list_to_map (map (fun a => (a, PNode 0 0 0)) [8; 16; 24]).
Definition demo_step (s : Z * pnodes) (a : Z) : Z * pnodes :=
  match pheap_insert (fun x => x) s.2 s.1 a with Ok r => r | _ => s end.
Definition demo_heap : Z * pnodes := foldl demo_step (0, demo_nodes) [24; 8].
Definition demo_tree : option ptree := Some (8, Node 24 Nil Nil).

Lemma pheap_demo_rep : heap_rep (fun x => x) demo_heap.2 demo_heap.1 demo_tree.
Proof.
  split.
  - split; [vm_compute; reflexivity|]. split; [done|]. eexists. split; [vm_compute; reflexivity|].
    cbn. split; [done|]. split; [done|]. eexists. split; [vm_compute; reflexivity|]. by split_and!.
  - repeat constructor; set_solver.
  - cbn. unfold tordered. cbn. split_and!; [lia|done|done].
Qed.

Lemma pheap_pop_min_witness :
  exists head' h' o', pheap_pop (fun x => x) demo_heap.2 demo_heap.1 = Ok (8, head', h') /\
    heap_rep (fun x => x) h' head' o' /\ oaddrs demo_tree ≡ₚ 8 :: oaddrs o' /\ is_removed h' 8 /\
    (forall x, x ∈ oaddrs demo_tree -> 8 <= x).
Proof. exact (pheap_pop_min (fun x => x) demo_heap.2 demo_heap.1 8 (Node 24 Nil Nil) pheap_demo_rep). Defined.

Lemma pheap_insert_correct_witness :
  exists head' h' o', pheap_insert (fun x => x) demo_heap.2 demo_heap.1 16 = Ok (head', h') /\
    heap_rep (fun x => x) h' head' o' /\ oaddrs o' ≡ₚ 16 :: oaddrs demo_tree.
Proof.
  apply (pheap_insert_correct (fun x => x) demo_heap.2 demo_heap.1 demo_tree 16 pheap_demo_rep).
  - cbn. set_solver.
  - lia.
  - eexists. vm_compute. reflexivity.
Defined.

Lemma pheap_try_remove_correct_witness :
  exists head' h' o', pheap_try_remove (fun x => x) demo_heap.2 demo_heap.1 24 = Ok (24, head', h') /\
    heap_rep (fun x => x) h' head' o' /\ oaddrs demo_tree ≡ₚ 24 :: oaddrs o' /\ is_removed h' 24.
Proof.
  apply (pheap_try_remove_correct (fun x => x) demo_heap.2 demo_heap.1 demo_tree 24 pheap_demo_rep).
  - cbn. set_solver.
  - cbn. set_solver.
Defined.
