(* ===== verification/PagingArch.v ===== *)
(** * arch/{x86_64,riscv64,loongarch64}/intrin/paging.h: page table entries

    What the generic paging code uses of an architecture is the class
    [PagingArch]; the three headers are its instances.  [PagingLaws] is what
    the generic code relies on; each instance discharges it. *)

From S2P Require Import Prelude.
#[local] Open Scope Z_scope.

(** ** arch/generic/paging/paging.h *)
Definition MMU_CONFIG_TOP_LEVEL (config : Z) : Z := Z.land config 0x7.
Definition MMU_CONFIG_L3 : Z := Z.shiftl 1 3.
Definition MMU_CONFIG_L4 : Z := Z.shiftl 1 4.
Definition MMU_CONFIG_L5 : Z := Z.shiftl 1 5.
Definition MMU_CONFIG_L3_LEAF : Z := Z.shiftl 1 6.
Definition MMU_CONFIG_L2_LEAF : Z := Z.shiftl 1 7.
Definition MMU_CONFIG_NX : Z := Z.shiftl 1 8.

Definition MMU_CONFIG_3LVL_PAGING : Z := Z.lor (Z.shiftl 1 3) 3.
Definition MMU_CONFIG_4LVL_PAGING : Z := Z.lor (Z.shiftl 3 3) 4.
Definition MMU_CONFIG_5LVL_PAGING : Z := Z.lor (Z.shiftl 7 3) 5.

Definition PAGE_LEAF_LEVEL (attr : Z) : Z := Z.land attr 3 + 1.
Definition PAGE_NORM : Z := 0.
Definition PAGE_LARGE : Z := 1.
Definition PAGE_GIANT : Z := 2.
Definition PAGE_R : Z := Z.shiftl 1 2.
Definition PAGE_W : Z := Z.shiftl 1 3.
Definition PAGE_X : Z := Z.shiftl 1 4.
Definition PAGE_U : Z := Z.shiftl 1 5.
Definition PAGE_G : Z := Z.shiftl 1 6.
Definition PAGE_UC : Z := Z.shiftl 1 7.
Definition PAGE_WC : Z := Z.shiftl 1 8.
Definition PAGE_KRO : Z := PAGE_R.
Definition PAGE_KRW : Z := Z.lor PAGE_R PAGE_W.
Definition PAGE_KRX : Z := Z.lor PAGE_R PAGE_X.
Definition PAGE_KRWX : Z := Z.lor (Z.lor PAGE_R PAGE_W) PAGE_X.
Definition PAGE_KRW_UC : Z := Z.lor (Z.lor PAGE_R PAGE_W) PAGE_UC.
Definition PAGE_KRW_WC : Z := Z.lor (Z.lor PAGE_R PAGE_W) PAGE_WC.
Definition PAGE_URW : Z := Z.lor (Z.lor PAGE_U PAGE_R) PAGE_W.

(** [x & m] as a condition. *)
Definition has (x m : Z) : bool := negb (Z.land x m =? 0).
(** [(x & m) ? v : 0]. *)
Definition when (x m v : Z) : Z := if has x m then v else 0.

(** What an architecture provides. *)
Class PagingArch := {
  PAGE_SIZE_LARGE_SHIFT : Z;
  PAGE_SIZE_GIANT_SHIFT : Z;
  PAGE_INDEX_BITS : Z;
  PAGE_INDEX_MASK : Z;
  ARCH_INTERMEDIATE_MMU_FLAGS : Z -> Z;
  ARCH_PTE_PRESENT : Z -> bool;
  ARCH_PTE_IS_LEAF : Z -> Z -> bool;
  ARCH_ENCODE_PTE : Z -> Z -> Z;
  ARCH_DECODE_PTE : Z -> Z;
  ARCH_DECODE_LARGE_PTE : Z -> Z;
  prot_to_mmu_flags : Z -> Z -> Z;
  arch_large_page_fixup : Z -> Z;
  mmu_flags_to_prot : Z -> Z -> Z;
}.

(** ** x86_64/intrin/paging.h *)
Module X86_64.
Definition ARCH_PTE_MASK : Z := 0x000ffffffffff000.
Definition ARCH_LARGE_PTE_MASK : Z := 0x000fffffffffe000.
Definition PTE_PRESENT : Z := Z.shiftl 1 0.
Definition PTE_WRITABLE : Z := Z.shiftl 1 1.
Definition PTE_USER : Z := Z.shiftl 1 2.
Definition PTE_PWT : Z := Z.shiftl 1 3.
Definition PTE_PCD : Z := Z.shiftl 1 4.
Definition PTE_PS : Z := Z.shiftl 1 7.
Definition PTE_PAT_HUGE : Z := Z.shiftl 1 12.
Definition PTE_PAT : Z := Z.shiftl 1 7.
Definition PTE_GLOBAL : Z := Z.shiftl 1 8.
Definition PTE_NX : Z := Z.shiftl 1 63.
Definition PTE_UC : Z := Z.lor PTE_PWT PTE_PCD.
Definition PTE_WC : Z := Z.lor PTE_PWT PTE_PAT.

Definition intermediate_flags (attr : Z) : Z :=
  Z.lor (Z.lor PTE_PRESENT PTE_WRITABLE) (when attr PAGE_U PTE_USER).
Definition pte_is_leaf (pte level : Z) : bool := (level =? 1) || ((level <=? 3) && has pte PTE_PS).
Definition encode_pte (paddr flags : Z) : Z := Z.lor (Z.land paddr ARCH_PTE_MASK) flags.
Definition decode_pte (pte : Z) : Z := Z.land pte ARCH_PTE_MASK.
Definition decode_large_pte (pte : Z) : Z := Z.land pte ARCH_LARGE_PTE_MASK.

(** [five_level]: the mode the boot loader chose; the other two come from cpuid. *)
Definition arch_get_mmu_config (five_level has_1gb_pages has_nx : bool) : Z :=
  let config := MMU_CONFIG_L2_LEAF in
  let config := Z.lor config (if five_level then MMU_CONFIG_5LVL_PAGING else MMU_CONFIG_4LVL_PAGING) in
  let config := if has_1gb_pages then Z.lor config MMU_CONFIG_L3_LEAF else config in
  if has_nx then Z.lor config MMU_CONFIG_NX else config.

Definition prot_to_flags (mmu_config attr : Z) : Z :=
  let flags := PTE_PRESENT in
  let flags := Z.lor flags (when attr PAGE_W PTE_WRITABLE) in
  let flags := Z.lor flags (when attr PAGE_U PTE_USER) in
  let flags := Z.lor flags (when attr PAGE_G PTE_GLOBAL) in
  let flags := Z.lor flags (when attr PAGE_UC PTE_UC) in
  let flags := Z.lor flags (when attr PAGE_WC PTE_WC) in
  if has mmu_config MMU_CONFIG_NX then Z.lor flags (if has attr PAGE_X then 0 else PTE_NX) else flags.

Definition large_page_fixup (flags : Z) : Z :=
  let flags := if has flags PTE_PAT then Z.lor flags PTE_PAT_HUGE else flags in
  Z.lor flags PTE_PS.

Definition flags_to_prot (pte level : Z) : Z :=
  let perm := 0 in
  let perm := Z.lor perm (when pte PTE_PRESENT PAGE_R) in
  let perm := Z.lor perm (when pte PTE_WRITABLE PAGE_W) in
  let perm := Z.lor perm (when pte PTE_USER PAGE_U) in
  let perm := Z.lor perm (if has pte PTE_NX then 0 else PAGE_X) in
  let perm := Z.lor perm (when pte PTE_GLOBAL PAGE_G) in
  if negb (level =? 1) then
    let perm := if has pte PTE_PWT && has pte PTE_PCD then Z.lor perm PAGE_UC else perm in
    if has pte PTE_PWT && has pte PTE_PAT_HUGE then Z.lor perm PAGE_WC else perm
  else
    let perm := if has pte PTE_PWT && has pte PTE_PCD then Z.lor perm PAGE_UC else perm in
    if has pte PTE_PWT && has pte PTE_PAT then Z.lor perm PAGE_WC else perm.

Definition vaddr_split_bit (mmu_config : Z) : Z := MMU_CONFIG_TOP_LEVEL mmu_config * 9 + 12 - 1.

#[export] Instance arch : PagingArch := {|
  PAGE_SIZE_LARGE_SHIFT := 21; PAGE_SIZE_GIANT_SHIFT := 30;
  PAGE_INDEX_BITS := 9; PAGE_INDEX_MASK := 0x1ff;
  ARCH_INTERMEDIATE_MMU_FLAGS := intermediate_flags;
  ARCH_PTE_PRESENT pte := has pte PTE_PRESENT;
  ARCH_PTE_IS_LEAF := pte_is_leaf;
  ARCH_ENCODE_PTE := encode_pte; ARCH_DECODE_PTE := decode_pte; ARCH_DECODE_LARGE_PTE := decode_large_pte;
  prot_to_mmu_flags := prot_to_flags; arch_large_page_fixup := large_page_fixup;
  mmu_flags_to_prot := flags_to_prot |}.
End X86_64.

(** ** riscv64/intrin/paging.h *)
Module Riscv64.
Definition ARCH_PTE_MASK : Z := 0x003fffffffffc00.
Definition PTE_V : Z := Z.shiftl 1 0.
Definition PTE_R : Z := Z.shiftl 1 1.
Definition PTE_W : Z := Z.shiftl 1 2.
Definition PTE_X : Z := Z.shiftl 1 3.
Definition PTE_U : Z := Z.shiftl 1 4.
Definition PTE_G : Z := Z.shiftl 1 5.
Definition PTE_A : Z := Z.shiftl 1 6.
Definition PTE_D : Z := Z.shiftl 1 7.

Definition pte_is_leaf (pte level : Z) : bool :=
  (level =? 1) || has pte (Z.lor (Z.lor PTE_R PTE_W) PTE_X).
Definition encode_pte (paddr flags : Z) : Z := Z.lor (Z.shiftr paddr 2) flags.
Definition decode_pte (pte : Z) : Z := shl64 (Z.land pte ARCH_PTE_MASK) 2.

(** The paging modes of the boot protocol. *)
Inductive paging_mode := LIMINE_PAGING_MODE_RISCV_SV39 | LIMINE_PAGING_MODE_RISCV_SV48 | LIMINE_PAGING_MODE_RISCV_SV57.

Definition arch_get_mmu_config (mode : paging_mode) : Z :=
  let config := Z.lor (Z.lor MMU_CONFIG_L2_LEAF MMU_CONFIG_L3_LEAF) MMU_CONFIG_NX in
  match mode with
  | LIMINE_PAGING_MODE_RISCV_SV57 => Z.lor config MMU_CONFIG_5LVL_PAGING
  | LIMINE_PAGING_MODE_RISCV_SV48 => Z.lor config MMU_CONFIG_4LVL_PAGING
  | LIMINE_PAGING_MODE_RISCV_SV39 => Z.lor config MMU_CONFIG_3LVL_PAGING
  end.

Definition prot_to_flags (attr : Z) : Z :=
  let flags := Z.lor (Z.lor (Z.lor PTE_A PTE_D) PTE_V) PTE_R in
  let flags := Z.lor flags (when attr PAGE_W (Z.lor PTE_W PTE_R)) in
  let flags := Z.lor flags (when attr PAGE_X PTE_X) in
  let flags := Z.lor flags (when attr PAGE_U PTE_U) in
  Z.lor flags (when attr PAGE_G PTE_G).

Definition flags_to_prot (pte : Z) : Z :=
  if negb (has pte PTE_V) then 0
  else
    let perm := 0 in
    let perm := Z.lor perm (when pte PTE_R PAGE_R) in
    let perm := Z.lor perm (when pte PTE_W PAGE_W) in
    let perm := Z.lor perm (when pte PTE_X PAGE_X) in
    let perm := Z.lor perm (when pte PTE_U PAGE_U) in
    Z.lor perm (when pte PTE_G PAGE_G).

(** The satp value [arch_load_page_table] writes; other levels are unreachable. *)
Definition satp (mmu_config page_table : Z) : res Z :=
  let top := MMU_CONFIG_TOP_LEVEL mmu_config in
  mode ← (if top =? 3 then Ok 8 else if top =? 4 then Ok 9 else if top =? 5 then Ok 10 else Fault);
  Ok (Z.lor (shl64 mode 60) (Z.shiftr page_table 12)).

Definition vaddr_split_bit (mmu_config : Z) : Z := MMU_CONFIG_TOP_LEVEL mmu_config * 9 + 12 - 1.

#[export] Instance arch : PagingArch := {|
  PAGE_SIZE_LARGE_SHIFT := 21; PAGE_SIZE_GIANT_SHIFT := 30;
  PAGE_INDEX_BITS := 9; PAGE_INDEX_MASK := 0x1ff;
  ARCH_INTERMEDIATE_MMU_FLAGS _ := PTE_V;
  ARCH_PTE_PRESENT pte := has pte PTE_V;
  ARCH_PTE_IS_LEAF := pte_is_leaf;
  ARCH_ENCODE_PTE := encode_pte; ARCH_DECODE_PTE := decode_pte; ARCH_DECODE_LARGE_PTE := decode_pte;
  prot_to_mmu_flags _ := prot_to_flags; arch_large_page_fixup flags := flags;
  mmu_flags_to_prot pte _ := flags_to_prot pte |}.
End Riscv64.

(** ** loongarch64/intrin/paging.h *)
Module Loongarch64.
(** The three page sizes of the build configuration. *)
Inductive pagesize := CONFIG_LA64_PAGESIZE_64KB | CONFIG_LA64_PAGESIZE_16KB | CONFIG_LA64_PAGESIZE_4KB.

Definition page_size_shift (ps : pagesize) : Z :=
  match ps with CONFIG_LA64_PAGESIZE_64KB => 16 | CONFIG_LA64_PAGESIZE_16KB => 14 | CONFIG_LA64_PAGESIZE_4KB => 12 end.
Definition page_size_large_shift (ps : pagesize) : Z :=
  match ps with CONFIG_LA64_PAGESIZE_64KB => 29 | CONFIG_LA64_PAGESIZE_16KB => 25 | CONFIG_LA64_PAGESIZE_4KB => 21 end.
Definition page_size_giant_shift (ps : pagesize) : Z :=
  match ps with CONFIG_LA64_PAGESIZE_64KB => 42 | CONFIG_LA64_PAGESIZE_16KB => 36 | CONFIG_LA64_PAGESIZE_4KB => 30 end.
Definition page_index_bits (ps : pagesize) : Z :=
  match ps with CONFIG_LA64_PAGESIZE_64KB => 13 | CONFIG_LA64_PAGESIZE_16KB => 11 | CONFIG_LA64_PAGESIZE_4KB => 9 end.
Definition page_index_mask (ps : pagesize) : Z :=
  match ps with CONFIG_LA64_PAGESIZE_64KB => 0x1fff | CONFIG_LA64_PAGESIZE_16KB => 0x7ff | CONFIG_LA64_PAGESIZE_4KB => 0x1ff end.
Definition va_bits (ps : pagesize) : Z :=
  match ps with CONFIG_LA64_PAGESIZE_64KB => 55 | CONFIG_LA64_PAGESIZE_16KB => 47 | CONFIG_LA64_PAGESIZE_4KB => 48 end.
Definition paging_levels (ps : pagesize) : Z :=
  match ps with CONFIG_LA64_PAGESIZE_4KB => 4 | _ => 3 end.

Definition ARCH_PTE_MASK : Z := 0x000ffffffffff000.
Definition ARCH_LARGE_PTE_MASK : Z := 0x000fffffffffe000.
Definition PTE_V : Z := Z.shiftl 1 0.
Definition PTE_D : Z := Z.shiftl 1 1.
Definition PTE_PLV0 : Z := Z.shiftl 0 2.
Definition PTE_PLV3 : Z := Z.shiftl 3 2.
Definition PTE_H : Z := Z.shiftl 1 6.
Definition PTE_G : Z := Z.shiftl 1 6.
Definition PTE_G_LARGE : Z := Z.shiftl 1 12.
Definition PTE_P : Z := Z.shiftl 1 7.
Definition PTE_W : Z := Z.shiftl 1 8.
Definition PTE_NX : Z := Z.shiftl 1 62.
Definition PTE_MAT_CACHED : Z := Z.shiftl 1 4.
Definition PTE_MAT_WEAK_UNCACHED : Z := Z.shiftl 2 4.
Definition PTE_MAT_STRONG_UNCACHED : Z := Z.shiftl 0 4.

Definition pte_is_leaf (pte level : Z) : bool := (level =? 1) || ((level <=? 3) && has pte PTE_H).
Definition encode_pte (paddr flags : Z) : Z := Z.lor (Z.land paddr ARCH_PTE_MASK) flags.
Definition decode_pte (pte : Z) : Z := Z.land pte ARCH_PTE_MASK.
Definition decode_large_pte (pte : Z) : Z := Z.land pte ARCH_LARGE_PTE_MASK.

(** [psavl]: the page sizes the CPU reports in PRCFG2. *)
Definition arch_get_mmu_config (ps : pagesize) (psavl : Z) : Z :=
  let config := MMU_CONFIG_NX in
  let config := Z.lor config (if paging_levels ps =? 3 then MMU_CONFIG_3LVL_PAGING else MMU_CONFIG_4LVL_PAGING) in
  let config := if has psavl (Z.shiftl 1 (page_size_large_shift ps)) then Z.lor config MMU_CONFIG_L2_LEAF else config in
  if has psavl (Z.shiftl 1 (page_size_giant_shift ps)) then Z.lor config MMU_CONFIG_L3_LEAF else config.

Definition prot_to_flags (attr : Z) : Z :=
  let flags := Z.lor PTE_V PTE_P in
  let flags := Z.lor flags (when attr PAGE_W (Z.lor PTE_W PTE_D)) in
  let flags := Z.lor flags (if has attr PAGE_X then 0 else PTE_NX) in
  let flags := Z.lor flags (if has attr PAGE_U then PTE_PLV3 else PTE_PLV0) in
  let flags := Z.lor flags (when attr PAGE_G PTE_G) in
  let flags := Z.lor flags (when attr PAGE_UC PTE_MAT_STRONG_UNCACHED) in
  let flags := Z.lor flags (when attr PAGE_WC PTE_MAT_WEAK_UNCACHED) in
  Z.lor flags (if negb (has attr (Z.lor PAGE_UC PAGE_WC)) then PTE_MAT_CACHED else 0).

Definition large_page_fixup (flags : Z) : Z :=
  let flags := if has flags PTE_G then Z.lor flags PTE_G_LARGE else flags in
  Z.lor flags PTE_H.

Definition flags_to_prot (pte level : Z) : Z :=
  if negb (has pte PTE_V) then 0
  else
    let perm := Z.lor 0 PAGE_R in
    let perm := Z.lor perm (when pte PTE_W PAGE_W) in
    let perm := Z.lor perm (if has pte PTE_NX then 0 else PAGE_X) in
    let perm := Z.lor perm (if negb (Z.land (Z.shiftr pte 2) 0x3 =? 0) then PAGE_U else 0) in
    let perm := if level =? 1 then Z.lor perm (when pte PTE_G PAGE_G)
                else Z.lor perm (when pte PTE_G_LARGE PAGE_G) in
    let mat := Z.land (Z.shiftr pte 4) 0x3 in
    if mat =? 0 then Z.lor perm PAGE_UC
    else if mat =? 2 then Z.lor perm PAGE_WC
    else perm.

(** [cpucfg1]: word 1 of the CPU configuration. *)
Definition vaddr_split_bit (ps : pagesize) (cpucfg1 : Z) : res Z :=
  let valen := Z.land (Z.shiftr cpucfg1 12) 0xff + 1 in
  _ ← assert (valen >=? 39);
  Ok (MIN (valen - 1) (va_bits ps - 1)).

Definition arch (ps : pagesize) : PagingArch := {|
  PAGE_SIZE_LARGE_SHIFT := page_size_large_shift ps; PAGE_SIZE_GIANT_SHIFT := page_size_giant_shift ps;
  PAGE_INDEX_BITS := page_index_bits ps; PAGE_INDEX_MASK := page_index_mask ps;
  ARCH_INTERMEDIATE_MMU_FLAGS _ := 0;
  ARCH_PTE_PRESENT pte := negb (pte =? 0);
  ARCH_PTE_IS_LEAF := pte_is_leaf;
  ARCH_ENCODE_PTE := encode_pte; ARCH_DECODE_PTE := decode_pte; ARCH_DECODE_LARGE_PTE := decode_large_pte;
  prot_to_mmu_flags _ := prot_to_flags; arch_large_page_fixup := large_page_fixup;
  mmu_flags_to_prot := flags_to_prot |}.
End Loongarch64.

(** ** arch/intrin/paging.h: the two halves of the address space *)
Definition paging_get_vaddr_lower_half_top (split_bit : Z) : Z := u64 (shl64 1 split_bit - 1).
Definition paging_get_vaddr_higher_half_base (split_bit : Z) : Z := u64 (0 - shl64 1 split_bit).

(** ** Bits *)

Lemma has_lor x y m : has (Z.lor x y) m = has x m || has y m.
Proof.
  unfold has. rewrite Z.land_lor_distr_l.
  destruct (Z.eqb_spec (Z.land x m) 0) as [->|H1], (Z.eqb_spec (Z.land y m) 0) as [->|H2]; cbn.
  - done.
  - by rewrite Z.lor_0_l, (proj2 (Z.eqb_neq _ 0) H2).
  - by rewrite Z.lor_0_r, (proj2 (Z.eqb_neq _ 0) H1).
  - destruct (Z.eqb_spec (Z.lor (Z.land x m) (Z.land y m)) 0) as [E|]; [|done].
    apply Z.lor_eq_0_iff in E. tauto.
Qed.

(** No flag of [m] survives a mask without [m]. *)
Lemma has_masked x k m : Z.land k m = 0 -> has (Z.land x k) m = false.
Proof. intros E. unfold has. by rewrite <- Z.land_assoc, E, Z.land_0_r. Qed.

(** An aligned value has none of the bits below its alignment. *)
Lemma has_aligned x n m : 0 <= m < 2 ^ n -> 0 <= n -> (2 ^ n | x) -> has x m = false.
Proof.
  intros Hm Hn [z ->]. unfold has. rewrite <- Z.shiftl_mul_pow2 by done.
  assert (Z.land (Z.shiftl z n) m = 0) as ->; [|done].
  apply Z.bits_inj'. intros i Hi. rewrite Z.land_spec, Z.bits_0.
  destruct (Z.lt_ge_cases i n); [by rewrite Z.shiftl_spec_low|].
  rewrite <- (Z.mod_small m (2 ^ n)), Z.mod_pow2_bits_high by lia. apply andb_false_r.
Qed.

(** A mask of [n] ones above [k] zeros keeps an aligned value in range. *)
Lemma land_mask_id x n k :
  0 <= n -> 0 <= k -> 0 <= x < 2 ^ (n + k) -> (2 ^ k | x) -> Z.land x (Z.shiftl (Z.ones n) k) = x.
Proof.
  intros Hn Hk Hx [z ->]. rewrite <- (Z.shiftl_mul_pow2 z k) by done. rewrite <- Z.shiftl_land. f_equal.
  rewrite Z.land_ones by done. apply Z.mod_small. rewrite Z.pow_add_r in Hx by done. nia.
Qed.

Lemma land_lor_mask x y m : Z.land y m = 0 -> Z.land (Z.lor x y) m = Z.land x m.
Proof. intros E. by rewrite Z.land_lor_distr_l, E, Z.lor_0_r. Qed.

(** ** What the generic code relies on *)

(** Physical addresses an entry can hold. *)
Definition phys_ok `{kconfig} (p : Z) : Prop := 0 <= p < 2 ^ 52 /\ (2 ^ PAGE_SIZE_SHIFT | p).

Class PagingLaws `{cfg : kconfig} (A : PagingArch) : Prop := {
  pl_mask : PAGE_INDEX_MASK = 2 ^ PAGE_INDEX_BITS - 1;
  pl_table : PAGE_SIZE_SHIFT = PAGE_INDEX_BITS + 3;
  pl_bits : 9 <= PAGE_INDEX_BITS <= 13;
  pl_absent : ARCH_PTE_PRESENT 0 = false;
  pl_table_entry : forall attr p, phys_ok p -> p <> 0 ->
    let e := ARCH_ENCODE_PTE p (ARCH_INTERMEDIATE_MMU_FLAGS attr) in
    ARCH_PTE_PRESENT e = true /\ ARCH_DECODE_PTE e = p /\
    forall level, 2 <= level -> ARCH_PTE_IS_LEAF e level = false;
  pl_leaf_entry : forall config attr p, phys_ok p ->
    let e := ARCH_ENCODE_PTE p (prot_to_mmu_flags config attr) in
    ARCH_PTE_PRESENT e = true /\ ARCH_DECODE_PTE e = p /\ ARCH_PTE_IS_LEAF e 1 = true;
  pl_large_entry : forall config attr p level, phys_ok p -> 2 <= level <= 3 ->
    (2 ^ (PAGE_SIZE_SHIFT + (level - 1) * PAGE_INDEX_BITS) | p) ->
    let e := ARCH_ENCODE_PTE p (arch_large_page_fixup (prot_to_mmu_flags config attr)) in
    ARCH_PTE_PRESENT e = true /\ ARCH_DECODE_LARGE_PTE e = p /\ ARCH_PTE_IS_LEAF e level = true;
}.

(** Splits on every condition of the flags computation. *)
Ltac flag_cases :=
  repeat match goal with
  | |- context [has ?a ?m] => is_var a; destruct (has a m) eqn:?
  end.

Lemma divide_pow2_trans x n k : 0 <= k <= n -> (2 ^ n | x) -> (2 ^ k | x).
Proof.
  intros Hk. apply Z.divide_trans. exists (2 ^ (n - k)). rewrite <- Z.pow_add_r by lia. f_equal. lia.
Qed.

(** *** x86_64 *)
Lemma x86_flags_mask config attr m :
  Z.land (Z.lor (Z.lor (Z.lor (Z.lor (Z.lor (Z.lor X86_64.PTE_PRESENT X86_64.PTE_WRITABLE) X86_64.PTE_USER)
    X86_64.PTE_GLOBAL) X86_64.PTE_UC) X86_64.PTE_WC) X86_64.PTE_NX) m = 0 ->
  Z.land (X86_64.prot_to_flags config attr) m = 0.
Proof.
  rewrite !Z.land_lor_distr_l, !Z.lor_eq_0_iff. intros ((((((H1 & H2) & H3) & H4) & H5) & H6) & H7).
  unfold X86_64.prot_to_flags, when. flag_cases; cbv zeta;
    rewrite !Z.land_lor_distr_l, ?H1, ?H2, ?H3, ?H4, ?H5, ?H6, ?H7; reflexivity.
Qed.

Lemma x86_present config attr : has (X86_64.prot_to_flags config attr) X86_64.PTE_PRESENT = true.
Proof. unfold X86_64.prot_to_flags, when. flag_cases; reflexivity. Qed.

Lemma x86_mask_id p : 0 <= p < 2 ^ 52 -> (2 ^ 12 | p) -> Z.land p X86_64.ARCH_PTE_MASK = p.
Proof. intros. change X86_64.ARCH_PTE_MASK with (Z.shiftl (Z.ones 40) 12). by apply land_mask_id. Qed.

#[export] Instance x86_laws : PagingLaws (cfg := x86_64_config) X86_64.arch.
Proof.
  split; try (cbn; lia); try reflexivity.
  - intros attr p [Hp Hd] Hne. cbn -[X86_64.encode_pte]. unfold X86_64.encode_pte, X86_64.decode_pte, X86_64.pte_is_leaf.
    cbn in Hd. rewrite (x86_mask_id p Hp Hd). split_and!.
    + rewrite has_lor. unfold X86_64.intermediate_flags, when. destruct (has attr PAGE_U); apply orb_true_r.
    + rewrite land_lor_mask; [by apply x86_mask_id|]. unfold X86_64.intermediate_flags, when. by destruct (has attr PAGE_U).
    + intros level Hl. rewrite (proj2 (Z.eqb_neq level 1)) by lia. cbn [orb]. rewrite has_lor.
      rewrite (has_aligned p 12) by (done || (cbn; lia)). cbn [orb].
      unfold X86_64.intermediate_flags, when. destruct (has attr PAGE_U); apply andb_false_r.
  - intros config attr p [Hp Hd]. cbn -[X86_64.encode_pte X86_64.prot_to_flags].
    unfold X86_64.encode_pte, X86_64.decode_pte. cbn in Hd. rewrite (x86_mask_id p Hp Hd). split_and!.
    + rewrite has_lor, x86_present. apply orb_true_r.
    + rewrite land_lor_mask; [by apply x86_mask_id|]. by apply x86_flags_mask.
    + done.
  - intros config attr p level [Hp Hd0] Hl Hd. cbn -[X86_64.encode_pte X86_64.prot_to_flags X86_64.large_page_fixup] in *.
    assert (2 ^ 21 | p) as Hd21 by (eapply divide_pow2_trans; [|exact Hd]; lia).
    unfold X86_64.encode_pte, X86_64.decode_large_pte, X86_64.pte_is_leaf. rewrite (x86_mask_id p Hp Hd0).
    assert (Z.land (X86_64.large_page_fixup (X86_64.prot_to_flags config attr)) X86_64.ARCH_LARGE_PTE_MASK = 0) as Hz.
    { unfold X86_64.large_page_fixup. rewrite Z.land_lor_distr_l.
      destruct (has _ X86_64.PTE_PAT); rewrite ?Z.land_lor_distr_l, x86_flags_mask; reflexivity. }
    assert (forall m, has (X86_64.prot_to_flags config attr) m = true ->
      has (X86_64.large_page_fixup (X86_64.prot_to_flags config attr)) m = true) as Hk.
    { intros m Hm. unfold X86_64.large_page_fixup. rewrite has_lor.
      destruct (has _ X86_64.PTE_PAT); rewrite ?has_lor, Hm; done. }
    split_and!.
    + rewrite has_lor, (Hk _ (x86_present config attr)). apply orb_true_r.
    + rewrite land_lor_mask by done. change X86_64.ARCH_LARGE_PTE_MASK with (Z.shiftl (Z.ones 39) 13).
      apply land_mask_id; [lia|lia|done|]. eapply divide_pow2_trans; [|exact Hd21]. lia.
    + rewrite (proj2 (Z.leb_le level 3)) by lia. rewrite has_lor. unfold X86_64.large_page_fixup.
      rewrite has_lor. change (has X86_64.PTE_PS X86_64.PTE_PS) with true. by rewrite !orb_true_r.
Qed.

(** *** riscv64 *)
Definition riscv64_config : kconfig := {| hhdm_offset := 0xffffffc000000000; PAGE_SIZE_SHIFT := 12 |}.

#[export] Instance riscv64_config_ok : kconfig_ok riscv64_config.
Proof. split; cbn; lia. Qed.

(** Below 2^52 the mask of the header loses nothing. *)
Lemma riscv_decode_encode p flags :
  0 <= p < 2 ^ 52 -> (2 ^ 12 | p) -> Z.land flags Riscv64.ARCH_PTE_MASK = 0 ->
  Riscv64.decode_pte (Riscv64.encode_pte p flags) = p.
Proof.
  intros Hp [z Hz] Hf. unfold Riscv64.decode_pte, Riscv64.encode_pte. rewrite land_lor_mask by done.
  assert (Z.shiftr p 2 = z * 2 ^ 10) as E.
  { rewrite Hz, Z.shiftr_div_pow2 by lia. change (2 ^ 12) with (2 ^ 10 * 2 ^ 2).
    rewrite Z.mul_assoc, Z.div_mul by lia. done. }
  rewrite E. change Riscv64.ARCH_PTE_MASK with (Z.shiftl (Z.ones 40) 10).
  rewrite land_mask_id; [|lia|lia| |by exists z].
  - unfold shl64. rewrite Z.shiftl_mul_pow2 by lia. rewrite <- Z.mul_assoc. change (2 ^ 10 * 2 ^ 2) with (2 ^ 12).
    rewrite <- Hz. apply u64_small. unfold is_u64. lia.
  - lia.
Qed.

Lemma riscv_aligned p : 0 <= p < 2 ^ 52 -> (2 ^ 12 | p) -> (2 ^ 10 | Z.shiftr p 2).
Proof.
  intros Hp [z Hz]. exists z. rewrite Hz, Z.shiftr_div_pow2 by lia. change (2 ^ 12) with (2 ^ 10 * 2 ^ 2).
  rewrite Z.mul_assoc, Z.div_mul by lia. done.
Qed.

Lemma riscv_flags attr :
  Z.land (Riscv64.prot_to_flags attr) Riscv64.ARCH_PTE_MASK = 0 /\
  has (Riscv64.prot_to_flags attr) Riscv64.PTE_V = true /\
  has (Riscv64.prot_to_flags attr) (Z.lor (Z.lor Riscv64.PTE_R Riscv64.PTE_W) Riscv64.PTE_X) = true.
Proof. unfold Riscv64.prot_to_flags, when. flag_cases; split_and!; reflexivity. Qed.

#[export] Instance riscv_laws : PagingLaws (cfg := riscv64_config) Riscv64.arch.
Proof.
  split; try (cbn; lia); try reflexivity.
  - intros attr p [Hp Hd] Hne. cbn -[Riscv64.encode_pte Riscv64.decode_pte]. cbn in Hd. split_and!.
    + unfold Riscv64.encode_pte. rewrite has_lor. apply orb_true_r.
    + by apply riscv_decode_encode.
    + intros level Hl. unfold Riscv64.pte_is_leaf. rewrite (proj2 (Z.eqb_neq level 1)) by lia. cbn [orb].
      unfold Riscv64.encode_pte. rewrite has_lor, (has_aligned _ 10); [done|by vm_compute|lia|by apply riscv_aligned].
  - intros config attr p [Hp Hd]. destruct (riscv_flags attr) as (F1 & F2 & F3).
    cbn -[Riscv64.encode_pte Riscv64.decode_pte Riscv64.prot_to_flags]. cbn in Hd. split_and!.
    + unfold Riscv64.encode_pte. rewrite has_lor, F2. apply orb_true_r.
    + by apply riscv_decode_encode.
    + done.
  - intros config attr p level [Hp Hd] Hl _. destruct (riscv_flags attr) as (F1 & F2 & F3).
    cbn -[Riscv64.encode_pte Riscv64.decode_pte Riscv64.prot_to_flags]. cbn in Hd. split_and!.
    + unfold Riscv64.encode_pte. rewrite has_lor, F2. apply orb_true_r.
    + by apply riscv_decode_encode.
    + unfold Riscv64.pte_is_leaf, Riscv64.encode_pte. rewrite has_lor, F3. by rewrite !orb_true_r.
Qed.

(** *** loongarch64 *)
Definition loongarch64_config (ps : Loongarch64.pagesize) : kconfig :=
  {| hhdm_offset := 0x9000000000000000; PAGE_SIZE_SHIFT := Loongarch64.page_size_shift ps |}.

#[export] Instance loongarch64_config_ok ps : kconfig_ok (loongarch64_config ps).
Proof. split; destruct ps; cbn; lia. Qed.

Lemma loong_flags attr :
  Z.land (Loongarch64.prot_to_flags attr) Loongarch64.ARCH_PTE_MASK = 0 /\
  has (Loongarch64.prot_to_flags attr) Loongarch64.PTE_V = true.
Proof. unfold Loongarch64.prot_to_flags, when. flag_cases; split; reflexivity. Qed.

Lemma loong_present x m : has x m = true -> negb (x =? 0) = true.
Proof. unfold has. destruct (Z.eqb_spec x 0) as [->|]; [by rewrite Z.land_0_l|done]. Qed.

#[export] Instance loong_laws ps : PagingLaws (cfg := loongarch64_config ps) (Loongarch64.arch ps).
Proof.
  assert (forall p, 0 <= p < 2 ^ 52 -> (2 ^ Loongarch64.page_size_shift ps | p) -> (2 ^ 12 | p)) as H12
    by (intros p _; apply divide_pow2_trans; destruct ps; cbn; lia).
  assert (forall p, 0 <= p < 2 ^ 52 -> (2 ^ Loongarch64.page_size_shift ps | p) ->
    Z.land p Loongarch64.ARCH_PTE_MASK = p) as Hm by (intros; apply x86_mask_id; auto).
  split; try (destruct ps; cbn; lia); try (destruct ps; reflexivity).
  - intros attr p [Hp Hd] Hne. cbn -[Loongarch64.encode_pte]. cbn in Hd.
    unfold Loongarch64.encode_pte, Loongarch64.decode_pte, Loongarch64.pte_is_leaf. rewrite Hm, Z.lor_0_r by done. split_and!.
    + by rewrite (proj2 (Z.eqb_neq p 0) Hne).
    + by apply Hm.
    + intros level Hl. rewrite (proj2 (Z.eqb_neq level 1)) by lia. cbn [orb].
      rewrite (has_aligned p 12); [apply andb_false_r|by vm_compute|lia|auto].
  - intros config attr p [Hp Hd]. destruct (loong_flags attr) as (F1 & F2).
    cbn -[Loongarch64.encode_pte Loongarch64.prot_to_flags]. cbn in Hd.
    unfold Loongarch64.encode_pte, Loongarch64.decode_pte. rewrite Hm by done. split_and!.
    + eapply loong_present. rewrite has_lor, F2. apply orb_true_r.
    + rewrite land_lor_mask by done. by apply Hm.
    + done.
  - intros config attr p level [Hp Hd0] Hl Hd. destruct (loong_flags attr) as (F1 & F2).
    cbn -[Loongarch64.encode_pte Loongarch64.prot_to_flags Loongarch64.large_page_fixup] in *.
    assert (2 ^ 21 | p) as Hd21 by (refine (divide_pow2_trans _ _ _ _ Hd); unfold Loongarch64.page_size_shift, Loongarch64.page_index_bits; destruct ps; lia).
    unfold Loongarch64.encode_pte, Loongarch64.decode_large_pte, Loongarch64.pte_is_leaf. rewrite Hm by done.
    assert (Z.land (Loongarch64.prot_to_flags attr) Loongarch64.ARCH_LARGE_PTE_MASK = 0) as F1'.
    { change Loongarch64.ARCH_LARGE_PTE_MASK with (Z.land Loongarch64.ARCH_PTE_MASK Loongarch64.ARCH_LARGE_PTE_MASK).
      by rewrite Z.land_assoc, F1, Z.land_0_l. }
    assert (Z.land (Loongarch64.large_page_fixup (Loongarch64.prot_to_flags attr)) Loongarch64.ARCH_LARGE_PTE_MASK = 0) as Hz.
    { unfold Loongarch64.large_page_fixup. rewrite Z.land_lor_distr_l.
      destruct (has _ Loongarch64.PTE_G); rewrite ?Z.land_lor_distr_l, F1'; reflexivity. }
    split_and!.
    + eapply (loong_present _ Loongarch64.PTE_H). rewrite has_lor. unfold Loongarch64.large_page_fixup.
      rewrite has_lor. change (has Loongarch64.PTE_H Loongarch64.PTE_H) with true. by rewrite !orb_true_r.
    + rewrite land_lor_mask by done. change Loongarch64.ARCH_LARGE_PTE_MASK with (Z.shiftl (Z.ones 39) 13).
      apply land_mask_id; [lia|lia|done|]. eapply divide_pow2_trans; [|exact Hd21]. lia.
    + rewrite (proj2 (Z.leb_le level 3)) by lia. rewrite has_lor. unfold Loongarch64.large_page_fixup.
      rewrite has_lor. change (has Loongarch64.PTE_H Loongarch64.PTE_H) with true. by rewrite !orb_true_r.
Qed.

(** ** Protections survive the trip through an entry *)

(** The protection bits a mapping request asks for; readable always. *)
Definition prot_bits (attr : Z) : Z :=
  Z.lor (Z.lor (Z.lor (Z.lor (Z.lor (Z.lor PAGE_R (when attr PAGE_W PAGE_W)) (when attr PAGE_U PAGE_U))
    (when attr PAGE_X PAGE_X)) (when attr PAGE_G PAGE_G)) (when attr PAGE_UC PAGE_UC)) (when attr PAGE_WC PAGE_WC).
Definition prot_bits_uncached (attr : Z) : Z :=
  Z.lor (Z.lor (Z.lor (Z.lor PAGE_R (when attr PAGE_W PAGE_W)) (when attr PAGE_X PAGE_X))
    (when attr PAGE_U PAGE_U)) (when attr PAGE_G PAGE_G).

(** Reading flag [m] of an entry reads it off the flags, when no address bit
    can be [m]. *)
Ltac read_flags H :=
  repeat match goal with
  | |- context [has (?e ?p ?f) ?m] => rewrite (H f m) by (first [reflexivity | by vm_compute])
  end.

Lemma x86_prot config attr p :
  0 <= p < 2 ^ 52 -> (2 ^ 12 | p) -> has config MMU_CONFIG_NX = true ->
  X86_64.flags_to_prot (X86_64.encode_pte p (X86_64.prot_to_flags config attr)) 1 = prot_bits attr.
Proof.
  intros Hp Hd Hnx.
  assert (forall f m, Z.land X86_64.ARCH_PTE_MASK m = 0 -> has (X86_64.encode_pte p f) m = has f m) as H.
  { intros f m Hm. unfold X86_64.encode_pte. by rewrite has_lor, has_masked. }
  unfold X86_64.flags_to_prot. change (negb (1 =? 1)) with false. cbv iota zeta. unfold when. read_flags H.
  clear H. unfold X86_64.prot_to_flags, prot_bits, when. rewrite Hnx. flag_cases; reflexivity.
Qed.

Lemma has_top p k : 0 <= p < 2 ^ 52 -> 52 <= k -> has p (2 ^ k) = false.
Proof.
  intros Hp Hk. unfold has. assert (Z.land p (2 ^ k) = 0) as ->; [|done].
  apply Z.bits_inj'. intros n Hn. rewrite Z.land_spec, Z.bits_0.
  destruct (decide (n = k)) as [->|]; [|rewrite Z.pow2_bits_false by lia; apply andb_false_r].
  rewrite <- (Z.mod_small p (2 ^ 52)) by lia. by rewrite Z.mod_pow2_bits_high by lia.
Qed.

Lemma x86_prot_large config attr p level :
  0 <= p < 2 ^ 52 -> (2 ^ 21 | p) -> has config MMU_CONFIG_NX = true -> level <> 1 ->
  X86_64.flags_to_prot (X86_64.encode_pte p (X86_64.large_page_fixup (X86_64.prot_to_flags config attr))) level = prot_bits attr.
Proof.
  intros Hp Hd Hnx Hl.
  assert (2 ^ 12 | p) as Hd12 by (refine (divide_pow2_trans _ _ _ _ Hd); lia).
  assert (forall f m, 0 <= m < 2 ^ 21 \/ m = 2 ^ 63 -> has (X86_64.encode_pte p f) m = has f m) as H.
  { intros f m Hm. unfold X86_64.encode_pte. rewrite x86_mask_id by done.
    rewrite has_lor. destruct Hm as [Hm | ->]; [by rewrite (has_aligned p 21)|]. by rewrite has_top by lia. }
  unfold X86_64.flags_to_prot. rewrite (proj2 (Z.eqb_neq level 1) Hl). cbn [negb]. cbv zeta. unfold when.
  repeat match goal with
  | |- context [has (X86_64.encode_pte p ?f) ?m] => rewrite (H f m) by (first [right; reflexivity | left; by vm_compute])
  end.
  clear H. unfold X86_64.large_page_fixup, X86_64.prot_to_flags, prot_bits, when. rewrite Hnx. cbv zeta.
  flag_cases; reflexivity.
Qed.

Lemma riscv_prot attr p :
  0 <= p < 2 ^ 52 -> (2 ^ 12 | p) ->
  Riscv64.flags_to_prot (Riscv64.encode_pte p (Riscv64.prot_to_flags attr)) = prot_bits_uncached attr.
Proof.
  intros Hp Hd.
  assert (forall f m, 0 <= m < 2 ^ 10 -> has (Riscv64.encode_pte p f) m = has f m) as H.
  { intros f m Hm. unfold Riscv64.encode_pte. rewrite has_lor, (has_aligned _ 10); [done|done|lia|by apply riscv_aligned]. }
  unfold Riscv64.flags_to_prot, when. cbv zeta. read_flags H. clear H.
  unfold Riscv64.prot_to_flags, prot_bits_uncached, when. flag_cases; reflexivity.
Qed.

(** A field of [w] bits at [n] that [x] has no bits in. *)
Lemma field_lor x y n m :
  Z.land (Z.shiftr x n) m = 0 -> Z.land (Z.shiftr (Z.lor x y) n) m = Z.land (Z.shiftr y n) m.
Proof. intros E. by rewrite Z.shiftr_lor, Z.land_lor_distr_l, E, Z.lor_0_l. Qed.

Lemma field_aligned p n : 0 <= n <= 10 -> (2 ^ 12 | p) -> Z.land (Z.shiftr p n) 3 = 0.
Proof.
  intros Hn Hd. assert (2 ^ 2 | Z.shiftr p n) as Ha.
  { destruct Hd as [z Hz]. exists (z * 2 ^ (10 - n)). rewrite Hz, Z.shiftr_div_pow2 by lia.
    replace (z * 2 ^ 12) with (z * 2 ^ (10 - n) * 2 ^ 2 * 2 ^ n); [by rewrite Z.div_mul by lia|].
    rewrite <- !Z.mul_assoc, <- !Z.pow_add_r by lia. do 2 f_equal. lia. }
  pose proof (has_aligned _ 2 3 ltac:(by vm_compute) ltac:(lia) Ha) as H. unfold has in H.
  by destruct (Z.eqb_spec (Z.land (Z.shiftr p n) 3) 0).
Qed.

Lemma loong_prot attr p :
  0 <= p < 2 ^ 52 -> (2 ^ 12 | p) -> has attr PAGE_UC && has attr PAGE_WC = false ->
  Loongarch64.flags_to_prot (Loongarch64.encode_pte p (Loongarch64.prot_to_flags attr)) 1 = prot_bits attr.
Proof.
  intros Hp Hd Hx. unfold Loongarch64.flags_to_prot, Loongarch64.encode_pte.
  change Loongarch64.ARCH_PTE_MASK with X86_64.ARCH_PTE_MASK. rewrite x86_mask_id by done. cbv zeta.
  rewrite !field_lor by (apply field_aligned; [lia|done]). unfold when.
  assert (forall f m, 0 <= m < 2 ^ 12 \/ m = 2 ^ 62 -> has (Z.lor p f) m = has f m) as H.
  { intros f m Hm. rewrite has_lor. destruct Hm as [Hm | ->]; [by rewrite (has_aligned p 12)|]. by rewrite has_top by lia. }
  repeat match goal with
  | |- context [has (Z.lor p ?f) ?m] => rewrite (H f m) by (first [right; reflexivity | left; by vm_compute])
  end.
  clear H. change (1 =? 1) with true. cbv iota.
  unfold Loongarch64.prot_to_flags, prot_bits, when. cbv zeta.
  assert (has attr (Z.lor PAGE_UC PAGE_WC) = has attr PAGE_UC || has attr PAGE_WC) as ->.
  { unfold has. rewrite Z.land_lor_distr_r.
    destruct (Z.eqb_spec (Z.land attr PAGE_UC) 0) as [->|H1], (Z.eqb_spec (Z.land attr PAGE_WC) 0) as [->|H2]; cbn.
    - done.
    - rewrite Z.lor_0_l. by rewrite (proj2 (Z.eqb_neq (Z.land attr PAGE_WC) 0) H2).
    - by rewrite Z.lor_0_r, (proj2 (Z.eqb_neq _ 0) H1).
    - destruct (Z.eqb_spec (Z.lor (Z.land attr PAGE_UC) (Z.land attr PAGE_WC)) 0) as [E|]; [|done].
      apply Z.lor_eq_0_iff in E. tauto. }
  flag_cases; try discriminate; reflexivity.
Qed.

(** reading back the protection of a leaf entry gives exactly the bits
    the mapping asked for, on each architecture: on x86_64 (with NX) at every
    level, on riscv64 up to the cache type it cannot encode, on loongarch64
    for requests that name at most one cache type. *)
Theorem prot_roundtrip config attr p level :
  0 <= p < 2 ^ 52 -> (2 ^ 21 | p) -> has config MMU_CONFIG_NX = true -> level <> 1 ->
  mmu_flags_to_prot (PagingArch := X86_64.arch)
    (ARCH_ENCODE_PTE (PagingArch := X86_64.arch) p (prot_to_mmu_flags (PagingArch := X86_64.arch) config attr)) 1 = prot_bits attr /\
  X86_64.flags_to_prot (X86_64.encode_pte p (X86_64.large_page_fixup (X86_64.prot_to_flags config attr))) level = prot_bits attr /\
  Riscv64.flags_to_prot (Riscv64.encode_pte p (Riscv64.prot_to_flags attr)) = prot_bits_uncached attr /\
  (has attr PAGE_UC && has attr PAGE_WC = false ->
   Loongarch64.flags_to_prot (Loongarch64.encode_pte p (Loongarch64.prot_to_flags attr)) 1 = prot_bits attr).
Proof.
  intros Hp Hd Hnx Hl. assert (2 ^ 12 | p) as Hd12 by (refine (divide_pow2_trans _ _ _ _ Hd); lia).
  split_and!; [by apply x86_prot|by apply x86_prot_large|by apply riscv_prot|by apply loong_prot].
Qed.

Lemma prot_roundtrip_witness :
  mmu_flags_to_prot (PagingArch := X86_64.arch)
    (ARCH_ENCODE_PTE (PagingArch := X86_64.arch) 0x200000
       (prot_to_mmu_flags (PagingArch := X86_64.arch) MMU_CONFIG_NX PAGE_KRW_WC)) 1 = prot_bits PAGE_KRW_WC /\
  X86_64.flags_to_prot (X86_64.encode_pte 0x200000 (X86_64.large_page_fixup (X86_64.prot_to_flags MMU_CONFIG_NX PAGE_KRW_WC))) 2
    = prot_bits PAGE_KRW_WC /\
  Riscv64.flags_to_prot (Riscv64.encode_pte 0x200000 (Riscv64.prot_to_flags PAGE_KRW_WC)) = prot_bits_uncached PAGE_KRW_WC /\
  (has PAGE_KRW_WC PAGE_UC && has PAGE_KRW_WC PAGE_WC = false ->
   Loongarch64.flags_to_prot (Loongarch64.encode_pte 0x200000 (Loongarch64.prot_to_flags PAGE_KRW_WC)) 1 = prot_bits PAGE_KRW_WC).
Proof.
  apply (prot_roundtrip MMU_CONFIG_NX PAGE_KRW_WC 0x200000 2); [lia|by exists 1|reflexivity|lia].
Defined.

(** the riscv64 entry mask has only 40 of the 44 page number bits, so an
    entry for a page at or above 2^52 decodes to another address: 2^52 itself
    comes back as 0. *)
Theorem riscv_mask_loses_high_pages :
  Riscv64.decode_pte (Riscv64.encode_pte (2 ^ 52) (Riscv64.prot_to_flags PAGE_KRW)) = 0.
Proof. vm_compute. reflexivity. Qed.

(** ** Reading protections back, for the generic code

    An entry reads back as the same protection whatever page it holds and at
    whatever level, and mapping with what was read gives it again. *)
Class ProtLaws `{cfg : kconfig} (A : PagingArch) := {
  prot_norm : Z -> Z -> Z;
  pp_leaf : forall config attr p, phys_ok p ->
    mmu_flags_to_prot (ARCH_ENCODE_PTE p (prot_to_mmu_flags config attr)) 1 = prot_norm config attr;
  pp_large : forall config attr p level, phys_ok p -> 2 <= level <= 3 ->
    (2 ^ (PAGE_SIZE_SHIFT + (level - 1) * PAGE_INDEX_BITS) | p) ->
    mmu_flags_to_prot (ARCH_ENCODE_PTE p (arch_large_page_fixup (prot_to_mmu_flags config attr))) level = prot_norm config attr;
  pp_idem : forall config attr, prot_norm config (prot_norm config attr) = prot_norm config attr;
}.

(** Without the NX feature every page is executable. *)
Definition x86_norm (config attr : Z) : Z :=
  if has config MMU_CONFIG_NX then prot_bits attr else Z.lor (prot_bits attr) PAGE_X.

Lemma has_prot_bits attr m :
  m ∈ [PAGE_W; PAGE_U; PAGE_X; PAGE_G; PAGE_UC; PAGE_WC] -> has (prot_bits attr) m = has attr m.
Proof.
  rewrite !elem_of_cons. intros Hm. unfold prot_bits, when.
  destruct Hm as [->|[->|[->|[->|[->|[->|Hm]]]]]]; [flag_cases; reflexivity..|by apply not_elem_of_nil in Hm].
Qed.

#[export] Program Instance x86_prot_laws : ProtLaws (cfg := x86_64_config) X86_64.arch := {| prot_norm := x86_norm |}.
Next Obligation.
  intros config attr p [Hp Hd]. unfold x86_norm. destruct (has config MMU_CONFIG_NX) eqn:Hnx; [by apply x86_prot|].
  assert (forall f m, Z.land X86_64.ARCH_PTE_MASK m = 0 -> has (X86_64.encode_pte p f) m = has f m) as H.
  { intros f m Hm. unfold X86_64.encode_pte. by rewrite has_lor, has_masked. }
  cbn [mmu_flags_to_prot ARCH_ENCODE_PTE prot_to_mmu_flags X86_64.arch].
  unfold X86_64.flags_to_prot. change (negb (1 =? 1)) with false. cbv iota zeta. unfold when. read_flags H.
  clear H. unfold X86_64.prot_to_flags, prot_bits, when. rewrite Hnx. flag_cases; reflexivity.
Qed.
Next Obligation.
  intros config attr p level [Hp Hd] Hl Hal. cbn in Hal. assert (2 ^ 21 | p) as Hd21 by (eapply divide_pow2_trans; [|exact Hal]; lia).
  unfold x86_norm. destruct (has config MMU_CONFIG_NX) eqn:Hnx; [apply x86_prot_large; (done || lia)|].
  assert (forall f m, 0 <= m < 2 ^ 21 \/ m = 2 ^ 63 -> has (X86_64.encode_pte p f) m = has f m) as H.
  { intros f m Hm. unfold X86_64.encode_pte. rewrite x86_mask_id by done.
    rewrite has_lor. destruct Hm as [Hm | ->]; [by rewrite (has_aligned p 21)|]. by rewrite has_top by lia. }
  cbn [mmu_flags_to_prot ARCH_ENCODE_PTE prot_to_mmu_flags arch_large_page_fixup X86_64.arch].
  unfold X86_64.flags_to_prot. rewrite (proj2 (Z.eqb_neq level 1)) by lia. cbn [negb]. cbv zeta. unfold when.
  repeat match goal with
  | |- context [has (X86_64.encode_pte p ?f) ?m] => rewrite (H f m) by (first [right; reflexivity | left; by vm_compute])
  end.
  clear H. unfold X86_64.large_page_fixup, X86_64.prot_to_flags, prot_bits, when. rewrite Hnx. cbv zeta.
  flag_cases; reflexivity.
Qed.
Next Obligation.
  intros config attr. unfold x86_norm. destruct (has config MMU_CONFIG_NX).
  - unfold prot_bits at 1, when. rewrite !has_prot_bits by set_solver. done.
  - unfold prot_bits at 1, when. rewrite !has_lor, !has_prot_bits by set_solver. unfold prot_bits, when. flag_cases; reflexivity.
Qed.

#[export] Program Instance riscv_prot_laws : ProtLaws (cfg := riscv64_config) Riscv64.arch := {| prot_norm _ := prot_bits_uncached |}.
Next Obligation. intros config attr p [Hp Hd]. by apply riscv_prot. Qed.
Next Obligation. intros config attr p level [Hp Hd] _ _. by apply riscv_prot. Qed.
Next Obligation. intros config attr. unfold prot_bits_uncached, when. flag_cases; reflexivity. Qed.

(** Of two cache types, write combining is the one that is encoded. *)
Definition loong_norm (attr : Z) : Z :=
  Z.lor (prot_bits_uncached attr) (if has attr PAGE_WC then PAGE_WC else when attr PAGE_UC PAGE_UC).

Lemma has_uc_wc attr : has attr (Z.lor PAGE_UC PAGE_WC) = has attr PAGE_UC || has attr PAGE_WC.
Proof.
  unfold has. rewrite Z.land_lor_distr_r.
  destruct (Z.eqb_spec (Z.land attr PAGE_UC) 0) as [->|H1], (Z.eqb_spec (Z.land attr PAGE_WC) 0) as [->|H2]; cbn.
  - done.
  - rewrite Z.lor_0_l. by rewrite (proj2 (Z.eqb_neq (Z.land attr PAGE_WC) 0) H2).
  - by rewrite Z.lor_0_r, (proj2 (Z.eqb_neq _ 0) H1).
  - destruct (Z.eqb_spec (Z.lor (Z.land attr PAGE_UC) (Z.land attr PAGE_WC)) 0) as [E|]; [|done].
    apply Z.lor_eq_0_iff in E. tauto.
Qed.

(** An entry of an aligned page: its flags read off. *)
Lemma loong_read p n flags level :
  12 <= n <= 52 -> 0 <= p < 2 ^ 52 -> (2 ^ n | p) -> level = 1 \/ 13 <= n ->
  Loongarch64.flags_to_prot (Loongarch64.encode_pte p flags) level = Loongarch64.flags_to_prot flags level.
Proof.
  intros Hn Hp Hd Hl. assert (2 ^ 12 | p) as Hd12 by (refine (divide_pow2_trans _ _ _ _ Hd); lia).
  unfold Loongarch64.flags_to_prot, Loongarch64.encode_pte.
  change Loongarch64.ARCH_PTE_MASK with X86_64.ARCH_PTE_MASK. rewrite x86_mask_id by done. cbv zeta.
  rewrite !field_lor by (apply field_aligned; [lia|done]). unfold when.
  assert (forall f m, 0 <= m < 2 ^ 12 \/ m = 2 ^ 62 -> has (Z.lor p f) m = has f m) as H.
  { intros f m Hm. rewrite has_lor. destruct Hm as [Hm | ->]; [by rewrite (has_aligned p 12)|]. by rewrite has_top by lia. }
  rewrite !(H flags Loongarch64.PTE_V), !(H flags Loongarch64.PTE_W), !(H flags Loongarch64.PTE_G), !(H flags Loongarch64.PTE_NX)
    by (first [right; reflexivity | left; by vm_compute]).
  destruct Hl as [->|Hn13]; [done|].
  assert (has (Z.lor p flags) Loongarch64.PTE_G_LARGE = has flags Loongarch64.PTE_G_LARGE) as ->; [|done].
  rewrite has_lor, (has_aligned p 13); [done|by vm_compute|lia|]. refine (divide_pow2_trans _ _ _ _ Hd). lia.
Qed.

#[export] Program Instance loong_prot_laws ps : ProtLaws (cfg := loongarch64_config ps) (Loongarch64.arch ps) :=
  {| prot_norm _ := loong_norm |}.
Next Obligation.
  intros ps config attr p [Hp Hd]. cbn -[Loongarch64.flags_to_prot Loongarch64.encode_pte Loongarch64.prot_to_flags].
  rewrite (loong_read p (Loongarch64.page_size_shift ps)); [|destruct ps; cbn; lia|done|done|by left].
  unfold Loongarch64.flags_to_prot, Loongarch64.prot_to_flags, loong_norm, prot_bits_uncached, when. cbv zeta. rewrite has_uc_wc.
  flag_cases; reflexivity.
Qed.
Next Obligation.
  intros ps config attr p level [Hp Hd] Hl Hal. cbn -[Loongarch64.flags_to_prot Loongarch64.encode_pte Loongarch64.prot_to_flags Loongarch64.large_page_fixup] in *.
  rewrite (loong_read p (Loongarch64.page_size_shift ps + (level - 1) * Loongarch64.page_index_bits ps));
    [|destruct ps; cbn; lia|done|done|right; destruct ps; cbn; lia].
  unfold Loongarch64.flags_to_prot, Loongarch64.large_page_fixup, Loongarch64.prot_to_flags, loong_norm, prot_bits_uncached, when.
  rewrite (proj2 (Z.eqb_neq level 1)) by lia. cbv zeta. rewrite has_uc_wc. flag_cases; reflexivity.
Qed.
Next Obligation.
  intros ps config attr. unfold loong_norm, prot_bits_uncached, when. flag_cases; reflexivity.
Qed.
