(* ===== verification/RBTree.v ===== *)
(** * utils/dstruct/rbtree.c: the intrusive red-black tree

    A node is three words: the parent pointer with the colour in its lowest
    bit, and two children addressed by a direction.  The key of a node comes
    from a callback of the tree's owner, here the function [value].  The
    virtual memory allocator keeps its allocated segments in such a tree. *)

From S2P Require Import Prelude.
#[local] Open Scope Z_scope.

Definition RB_RED : Z := 0.
Definition RB_BLACK : Z := 1.

(** [rbtree_direction_t]: [RB_LEFT] is [false], [RB_RIGHT] is [true]. *)
Definition RB_LEFT : bool := false.
Definition RB_RIGHT : bool := true.

Inductive rbtree_search_type :=
| RB_SEARCH_TYPE_EXACT
| RB_SEARCH_TYPE_NEAREST
| RB_SEARCH_TYPE_NEAREST_LT
| RB_SEARCH_TYPE_NEAREST_LTE
| RB_SEARCH_TYPE_NEAREST_GT
| RB_SEARCH_TYPE_NEAREST_GTE.

(** [parent] is the word with the colour bit. *)
Record rbtree_node := RBNode { parent : Z; left : Z; right : Z }.
Abbreviation rbnodes := (gmap Z rbtree_node).

#[export] Instance rbtree_node_eq_dec : EqDecision rbtree_node.
Proof. solve_decision. Defined.

Definition RBTREE_NODE_INIT : rbtree_node := RBNode 0 0 0.

(** The tree: its root and the memory of the nodes. *)
Record rbtree := RBTree { root : Z; rbmem : rbnodes }.

Definition children (n : rbtree_node) (dir : bool) : Z := if dir then right n else left n.

Definition with_child (n : rbtree_node) (dir : bool) (v : Z) : rbtree_node :=
  if dir then RBNode (parent n) (left n) v else RBNode (parent n) v (right n).

(** The macros on a node's parent word: clearing the lowest bit of a
    word is [ldiff] with 1. *)
Definition word_parent (w : Z) : Z := Z.ldiff w 1.
Definition word_color (w : Z) : Z := if negb (Z.land w 1 =? 0) then RB_BLACK else RB_RED.

Definition rb_node (t : rbtree) (node : Z) : res rbtree_node := load (rbmem t) node.
Definition rb_update (t : rbtree) (node : Z) (f : rbtree_node -> rbtree_node) : res rbtree :=
  n ← load (rbmem t) node; m ← store (rbmem t) node (f n); Ok (RBTree (root t) m).

Definition rb_get_parent (t : rbtree) (node : Z) : res Z :=
  n ← rb_node t node; Ok (word_parent (parent n)).
Definition rb_set_parent (t : rbtree) (node nparent : Z) : res rbtree :=
  rb_update t node (fun n => RBNode (Z.lor (Z.land (parent n) 1) nparent) (left n) (right n)).
Definition rb_get_color (t : rbtree) (node : Z) : res Z :=
  n ← rb_node t node; Ok (word_color (parent n)).
Definition rb_set_color (t : rbtree) (node color : Z) : res rbtree :=
  rb_update t node (fun n =>
    RBNode (Z.lor (word_parent (parent n)) (if color =? RB_BLACK then 1 else 0)) (left n) (right n)).

Definition rb_child (t : rbtree) (node : Z) (dir : bool) : res Z :=
  n ← rb_node t node; Ok (children n dir).
Definition rb_set_child (t : rbtree) (node : Z) (dir : bool) (v : Z) : res rbtree :=
  rb_update t node (fun n => with_child n dir v).
Definition rb_set_root (t : rbtree) (v : Z) : rbtree := RBTree v (rbmem t).

Definition rbtree_direction (t : rbtree) (node : Z) : res bool :=
  p ← rb_get_parent t node;
  r ← rb_child t p RB_RIGHT;
  Ok (if node =? r then RB_RIGHT else RB_LEFT).

(** Every walk visits each node at most once. *)
Definition rb_fuel (t : rbtree) : nat := S (size (rbmem t)).

(** Follow the children of one direction to the end: [rbtree_minimum] and
    [rbtree_maximum] are its two instances. *)
Fixpoint rb_end_loop (fuel : nat) (t : rbtree) (dir : bool) (node : Z) : res Z :=
  match fuel with
  | O => NoFuel
  | S fuel =>
      c ← rb_child t node dir;
      if negb (c =? 0) then rb_end_loop fuel t dir c else Ok node
  end.

Definition rbtree_minimum (t : rbtree) (node : Z) : res Z :=
  if node =? 0 then Ok 0 else rb_end_loop (rb_fuel t) t RB_LEFT node.
Definition rbtree_maximum (t : rbtree) (node : Z) : res Z :=
  if node =? 0 then Ok 0 else rb_end_loop (rb_fuel t) t RB_RIGHT node.

(** Climb while the node is the [dir] child of its parent. *)
Fixpoint rb_climb_loop (fuel : nat) (t : rbtree) (dir : bool) (node par : Z) : res Z :=
  match fuel with
  | O => NoFuel
  | S fuel =>
      if par =? 0 then Ok par
      else
        c ← rb_child t par dir;
        if node =? c then
          par' ← rb_get_parent t par;
          rb_climb_loop fuel t dir par par'
        else Ok par
  end.

Definition rbtree_successor (t : rbtree) (node : Z) : res Z :=
  r ← rb_child t node RB_RIGHT;
  if negb (r =? 0) then rbtree_minimum t r
  else
    par ← rb_get_parent t node;
    rb_climb_loop (rb_fuel t) t RB_RIGHT node par.

Definition rbtree_predecessor (t : rbtree) (node : Z) : res Z :=
  l ← rb_child t node RB_LEFT;
  if negb (l =? 0) then rbtree_maximum t l
  else
    par ← rb_get_parent t node;
    rb_climb_loop (rb_fuel t) t RB_LEFT node par.

Definition rbtree_rotate_subtree (t : rbtree) (sub : Z) (dir : bool) : res (Z * rbtree) :=
  sub_parent ← rb_get_parent t sub;
  new_root ← rb_child t sub (negb dir);
  new_child ← rb_child t new_root dir;
  t ← rb_set_child t sub (negb dir) new_child;
  t ← (if negb (new_child =? 0) then rb_set_parent t new_child sub else Ok t);
  t ← rb_set_child t new_root dir sub;
  t ← rb_set_parent t new_root sub_parent;
  t ← rb_set_parent t sub new_root;
  t ← (if negb (sub_parent =? 0) then
         r ← rb_child t sub_parent RB_RIGHT;
         rb_set_child t sub_parent (sub =? r) new_root
       else Ok (rb_set_root t new_root));
  Ok (new_root, t).

(** ** Searching and inserting: the walks that read keys *)
Section Keys.
Context (value : Z -> Z).

Fixpoint search_exact_loop (fuel : nat) (t : rbtree) (query node : Z) : res Z :=
  match fuel with
  | O => NoFuel
  | S fuel =>
      if node =? 0 then Ok 0
      else
        n ← rb_node t node;
        let val := value node in
        if query <? val then search_exact_loop fuel t query (left n)
        else if query >? val then search_exact_loop fuel t query (right n)
        else Ok node
  end.

Definition rbtree_search_exact (t : rbtree) (query : Z) : res Z :=
  search_exact_loop (rb_fuel t) t query (root t).

Fixpoint search_nearest_loop (fuel : nat) (t : rbtree) (query node nearest best : Z) : res Z :=
  match fuel with
  | O => NoFuel
  | S fuel =>
      if node =? 0 then Ok nearest
      else
        n ← rb_node t node;
        let val := value node in
        let dist := if val >? query then u64 (val - query) else u64 (query - val) in
        let '(best, nearest) := if dist <? best then (dist, node) else (best, nearest) in
        if query <? val then search_nearest_loop fuel t query (left n) nearest best
        else if query >? val then search_nearest_loop fuel t query (right n) nearest best
        else Ok node
  end.

Definition rbtree_search_nearest (t : rbtree) (query : Z) : res Z :=
  search_nearest_loop (rb_fuel t) t query (root t) 0 UINT64_MAX.

Fixpoint search_lesser_loop (fuel : nat) (t : rbtree) (query : Z) (find_equal : bool) (node candidate : Z) : res Z :=
  match fuel with
  | O => NoFuel
  | S fuel =>
      if node =? 0 then Ok candidate
      else
        n ← rb_node t node;
        let val := value node in
        if val <? query then search_lesser_loop fuel t query find_equal (right n) node
        else if val >? query then search_lesser_loop fuel t query find_equal (left n) candidate
        else if find_equal then Ok node
        else if negb (left n =? 0) then rbtree_maximum t (left n)
        else Ok candidate
  end.

Definition rbtree_search_lesser (t : rbtree) (query : Z) (find_equal : bool) : res Z :=
  search_lesser_loop (rb_fuel t) t query find_equal (root t) 0.

Fixpoint search_greater_loop (fuel : nat) (t : rbtree) (query : Z) (find_equal : bool) (node candidate : Z) : res Z :=
  match fuel with
  | O => NoFuel
  | S fuel =>
      if node =? 0 then Ok candidate
      else
        n ← rb_node t node;
        let val := value node in
        if val >? query then search_greater_loop fuel t query find_equal (left n) node
        else if val <? query then search_greater_loop fuel t query find_equal (right n) candidate
        else if find_equal then Ok node
        else if negb (right n =? 0) then rbtree_minimum t (right n)
        else Ok candidate
  end.

Definition rbtree_search_greater (t : rbtree) (query : Z) (find_equal : bool) : res Z :=
  search_greater_loop (rb_fuel t) t query find_equal (root t) 0.

Definition rbtree_search (t : rbtree) (query : Z) (type : rbtree_search_type) : res Z :=
  match type with
  | RB_SEARCH_TYPE_EXACT => rbtree_search_exact t query
  | RB_SEARCH_TYPE_NEAREST => rbtree_search_nearest t query
  | RB_SEARCH_TYPE_NEAREST_LT => rbtree_search_lesser t query false
  | RB_SEARCH_TYPE_NEAREST_LTE => rbtree_search_lesser t query true
  | RB_SEARCH_TYPE_NEAREST_GT => rbtree_search_greater t query false
  | RB_SEARCH_TYPE_NEAREST_GTE => rbtree_search_greater t query true
  end.

(** The [do ... while (parent)] loop of the insertion fix-up, entered with a
    parent; [case 3] follows it. *)
Fixpoint insert_fixup_loop (fuel : nat) (t : rbtree) (node par : Z) : res rbtree :=
  match fuel with
  | O => NoFuel
  | S fuel =>
      pc ← rb_get_color t par;
      if pc =? RB_BLACK then Ok t
      else
        grandparent ← rb_get_parent t par;
        if grandparent =? 0 then rb_set_color t par RB_BLACK
        else
          dir ← rbtree_direction t par;
          uncle ← rb_child t grandparent (negb dir);
          ub ← (if uncle =? 0 then Ok true else uc ← rb_get_color t uncle; Ok (uc =? RB_BLACK));
          if (ub : bool) then
            pchild ← rb_child t par (negb dir);
            '(par, t) ← (if node =? pchild then
                            '(_, t) ← rbtree_rotate_subtree t par dir;
                            par ← rb_child t grandparent dir;
                            Ok (par, t)
                          else Ok (par, t));
            '(_, t) ← rbtree_rotate_subtree t grandparent (negb dir);
            t ← rb_set_color t par RB_BLACK;
            rb_set_color t grandparent RB_RED
          else
            t ← rb_set_color t par RB_BLACK;
            t ← rb_set_color t uncle RB_BLACK;
            t ← rb_set_color t grandparent RB_RED;
            par ← rb_get_parent t grandparent;
            if negb (par =? 0) then insert_fixup_loop fuel t grandparent par
            else rb_set_color t (root t) RB_BLACK
  end.

Definition rbtree_insert_fixup (t : rbtree) (node par : Z) : res rbtree :=
  t ← rb_set_color t node RB_RED;
  if par =? 0 then rb_set_color (rb_set_root t node) node RB_BLACK
  else insert_fixup_loop (rb_fuel t) t node par.

(** The descent to the place of the key: the last node visited and the side. *)
Fixpoint insert_descend (fuel : nat) (t : rbtree) (key par cur : Z) (dir : bool) : res (Z * bool) :=
  match fuel with
  | O => NoFuel
  | S fuel =>
      if cur =? 0 then Ok (par, dir)
      else
        n ← rb_node t cur;
        if key <? value cur then insert_descend fuel t key cur (left n) RB_LEFT
        else insert_descend fuel t key cur (right n) RB_RIGHT
  end.

Definition rbtree_insert (t : rbtree) (node : Z) : res (Z * rbtree) :=
  t ← rb_update t node (fun _ => RBTREE_NODE_INIT);
  '(par, dir) ← insert_descend (rb_fuel t) t (value node) 0 (root t) RB_LEFT;
  t ← (if par =? 0 then Ok (rb_set_root t node)
       else
         t ← rb_set_parent t node par;
         rb_set_child t par dir node);
  t ← rbtree_insert_fixup t node par;
  Ok (node, t).
End Keys.

(** ** Removal *)

(** A child whose colour decides a case of the fix-up: it exists and is red. *)
Definition is_red (t : rbtree) (node : Z) : res bool :=
  if negb (node =? 0) then c ← rb_get_color t node; Ok (c =? RB_RED) else Ok false.

Fixpoint remove_fixup_loop (fuel : nat) (t : rbtree) (par : Z) (dir : bool) : res rbtree :=
  match fuel with
  | O => NoFuel
  | S fuel =>
      sibling ← rb_child t par (negb dir);
      sc ← rb_get_color t sibling;
      '(sibling, t) ← (if sc =? RB_RED then
          t ← rb_set_color t par RB_RED;
          t ← rb_set_color t sibling RB_BLACK;
          sibling ← rb_child t sibling dir;
          '(_, t) ← rbtree_rotate_subtree t par dir;
          Ok (sibling, t)
        else Ok (sibling, t));
      distant_nephew ← rb_child t sibling (negb dir);
      close_nephew ← rb_child t sibling dir;
      dr ← is_red t distant_nephew;
      if (dr : bool) then
        '(_, t) ← rbtree_rotate_subtree t par dir;
        pc ← rb_get_color t par;
        t ← rb_set_color t sibling pc;
        t ← rb_set_color t distant_nephew RB_BLACK;
        rb_set_color t par RB_BLACK
      else
        cr ← is_red t close_nephew;
        if (cr : bool) then
          '(_, t) ← rbtree_rotate_subtree t sibling (negb dir);
          '(_, t) ← rbtree_rotate_subtree t par dir;
          pc ← rb_get_color t par;
          t ← rb_set_color t close_nephew pc;
          rb_set_color t par RB_BLACK
        else
          t ← rb_set_color t sibling RB_RED;
          pc ← rb_get_color t par;
          if pc =? RB_RED then rb_set_color t par RB_BLACK
          else
            let node := par in
            par ← rb_get_parent t par;
            if negb (par =? 0) then
              r ← rb_child t par RB_RIGHT;
              remove_fixup_loop fuel t par (r =? node)
            else Ok t
  end.

Definition rbtree_remove_fixup (t : rbtree) (node : Z) (dir : bool) : res rbtree :=
  par ← rb_get_parent t node;
  if par =? 0 then rb_set_color t node RB_BLACK
  else remove_fixup_loop (rb_fuel t) t par dir.

(** A node with two children trades places with its successor; returns the
    node's new parent. *)
Definition swap_with_successor (t : rbtree) (node : Z) : res (Z * rbtree) :=
  nr ← rb_child t node RB_RIGHT;
  succ ← rbtree_minimum t nr;
  succ_parent ← rb_get_parent t succ;
  succ_right ← rb_child t succ RB_RIGHT;
  nl ← rb_child t node RB_LEFT;
  t ← rb_set_child t succ RB_LEFT nl;
  sl ← rb_child t succ RB_LEFT;
  t ← rb_set_parent t sl succ;
  node_parent ← rb_get_parent t node;
  t ← rb_set_parent t succ node_parent;
  t ← (if node_parent =? 0 then Ok (rb_set_root t succ)
       else
         r ← rb_child t node_parent RB_RIGHT;
         rb_set_child t node_parent (node =? r) succ);
  t ← (if succ_parent =? node then
         t ← rb_set_child t succ RB_RIGHT node;
         rb_set_parent t node succ
       else
         nr ← rb_child t node RB_RIGHT;
         t ← rb_set_child t succ RB_RIGHT nr;
         sr ← rb_child t succ RB_RIGHT;
         t ← rb_set_parent t sr succ;
         t ← rb_set_child t succ_parent RB_LEFT node;
         rb_set_parent t node succ_parent);
  t ← rb_set_child t node RB_LEFT 0;
  t ← rb_set_child t node RB_RIGHT succ_right;
  nr ← rb_child t node RB_RIGHT;
  t ← (if negb (nr =? 0) then rb_set_parent t nr node else Ok t);
  tmp ← rb_get_color t node;
  sc ← rb_get_color t succ;
  t ← rb_set_color t node sc;
  t ← rb_set_color t succ tmp;
  par ← rb_get_parent t node;
  Ok (par, t).

Definition rbtree_remove (t : rbtree) (node : Z) : res (Z * rbtree) :=
  par ← rb_get_parent t node;
  n ← rb_node t node;
  '(par, t) ← (if negb (left n =? 0) && negb (right n =? 0)
               then swap_with_successor t node else Ok (par, t));
  n ← rb_node t node;
  let replacement := if negb (left n =? 0) then left n else right n in
  t ← (if negb (replacement =? 0) then rb_set_parent t replacement par else Ok t);
  '(dir, t) ← (if par =? 0 then Ok (RB_LEFT, rb_set_root t replacement)
               else
                 dir ← rbtree_direction t node;
                 t ← rb_set_child t par dir replacement;
                 Ok (dir, t));
  nc ← rb_get_color t node;
  if nc =? RB_BLACK then
    rr ← is_red t replacement;
    if (rr : bool) then t ← rb_set_color t replacement RB_BLACK; Ok (replacement, t)
    else if negb (replacement =? 0) then
      t ← rbtree_remove_fixup t replacement dir; Ok (replacement, t)
    else if negb (par =? 0) then
      t ← rbtree_remove_fixup t node dir; Ok (replacement, t)
    else Ok (replacement, t)
  else Ok (replacement, t).
