(* ===== verification/RBTreeRep.v ===== *)
(** * What the nodes of an rbtree represent

    The shape of a tree ([tree]), a path from a subtree to the root ([ctx]), and
    the predicate [zrep] that ties the words in memory to a subtree in its
    context.  Everything is stated for a direction [d] and its opposite, so
    that the mirrored cases of the code are one case here. *)

From S2P Require Import Prelude RBTree.
#[local] Open Scope Z_scope.

Inductive color := Red | Black.
#[export] Instance color_eq_dec : EqDecision color.
Proof. solve_decision. Defined.

Definition cbit (c : color) : Z := match c with Red => 0 | Black => 1 end.

Inductive tree := Leaf | Node (c : color) (x : Z) (l r : tree).

Definition ptr (t : tree) : Z := match t with Leaf => 0 | Node _ x _ _ => x end.

Fixpoint inorder (t : tree) : list Z :=
  match t with Leaf => [] | Node _ x l r => inorder l ++ x :: inorder r end.

(** The node whose child on side [d] is [a], the other one [b]. *)
Definition mk (d : bool) (c : color) (x : Z) (a b : tree) : tree :=
  if d then Node c x b a else Node c x a b.

(** A frame of a path: the path went to side [d] of node [x]; [s] is the
    other child. *)
Record frame := Frame { fdir : bool; fcol : color; faddr : Z; fsib : tree }.
Abbreviation ctx := (list frame).

Definition cptr (k : ctx) : Z := match k with [] => 0 | f :: _ => faddr f end.

Fixpoint plug (k : ctx) (t : tree) : tree :=
  match k with [] => t | f :: k => plug k (mk (fdir f) (fcol f) (faddr f) t (fsib f)) end.

Fixpoint caddrs (k : ctx) : list Z :=
  match k with [] => [] | f :: k => faddr f :: inorder (fsib f) ++ caddrs k end.

Fixpoint croot (k : ctx) (hole : Z) : Z :=
  match k with [] => hole | f :: k => croot k (faddr f) end.

(** ** Memory *)

(** Node addresses are not null and leave the colour bit free. *)
Definition addr_ok (x : Z) : Prop := 0 < x /\ x mod 2 = 0.

Definition word (p : Z) (c : color) : Z := p + cbit c.

(** The node with parent word [w] and child [a] on side [d], [b] on the other. *)
Definition cell (d : bool) (w a b : Z) : rbtree_node :=
  if d then RBNode w b a else RBNode w a b.

Fixpoint rep (m : rbnodes) (t : tree) (p : Z) : Prop :=
  match t with
  | Leaf => True
  | Node c x l r =>
      addr_ok x /\ m !! x = Some (RBNode (word p c) (ptr l) (ptr r)) /\ rep m l x /\ rep m r x
  end.

Fixpoint crep (m : rbnodes) (k : ctx) (hole : Z) : Prop :=
  match k with
  | [] => True
  | f :: k' =>
      addr_ok (faddr f) /\
      m !! faddr f = Some (cell (fdir f) (word (cptr k') (fcol f)) hole (ptr (fsib f))) /\
      rep m (fsib f) (faddr f) /\ crep m k' (faddr f)
  end.

Record zrep (s : rbtree) (k : ctx) (t : tree) : Prop := {
  z_tree : rep (rbmem s) t (cptr k);
  z_ctx : crep (rbmem s) k (ptr t);
  z_root : root s = croot k (ptr t);
  z_nodup : NoDup (inorder t ++ caddrs k);
}.

(** ** The parent word *)
Lemma word_parent_word p c : p mod 2 = 0 -> word_parent (word p c) = p.
Proof.
  intros Hp. unfold word_parent, word. rewrite Z.ldiff_ones_r with (n := 1) by lia.
  rewrite Z.shiftr_div_pow2, Z.shiftl_mul_pow2 by lia. change (2 ^ 1) with 2.
  destruct c; cbn [cbit]; rewrite ?Z.add_0_r; [|replace ((p + 1) / 2) with (p / 2)]; Z.div_mod_to_equations; lia.
Qed.

Lemma land1_word p c : p mod 2 = 0 -> Z.land (word p c) 1 = cbit c.
Proof.
  intros Hp. unfold word. change 1 with (Z.ones 1) at 1. rewrite Z.land_ones by lia. change (2 ^ 1) with 2.
  destruct c; cbn [cbit]; Z.div_mod_to_equations; lia.
Qed.

Lemma word_color_word p c : p mod 2 = 0 -> word_color (word p c) = cbit c.
Proof. intros Hp. unfold word_color. rewrite land1_word by done. by destruct c. Qed.

Lemma lor_bit p c : p mod 2 = 0 -> Z.lor p (cbit c) = word p c.
Proof.
  intros Hp. unfold word. destruct c; cbn [cbit]; [by rewrite Z.lor_0_r, Z.add_0_r|].
  assert (Z.land p 1 = 0) as E.
  { change 1 with (Z.ones 1). by rewrite Z.land_ones by lia. }
  by rewrite <- Z.lxor_lor, <- Z.add_nocarry_lxor by done.
Qed.

Lemma set_parent_word p q c : p mod 2 = 0 -> q mod 2 = 0 -> Z.lor (Z.land (word p c) 1) q = word q c.
Proof. intros Hp Hq. by rewrite land1_word, Z.lor_comm, lor_bit by done. Qed.

Lemma set_color_word p c c' :
  p mod 2 = 0 -> Z.lor (word_parent (word p c)) (if cbit c' =? RB_BLACK then 1 else 0) = word p c'.
Proof. intros Hp. rewrite word_parent_word by done. rewrite <- lor_bit by done. by destruct c'. Qed.

(** ** Directions *)
Lemma cell_child d w a b : children (cell d w a b) d = a.
Proof. by destruct d. Qed.
Lemma cell_child_other d w a b : children (cell d w a b) (negb d) = b.
Proof. by destruct d. Qed.
Lemma cell_with d w a b v : with_child (cell d w a b) d v = cell d w v b.
Proof. by destruct d. Qed.
Lemma cell_with_other d w a b v : with_child (cell d w a b) (negb d) v = cell d w a v.
Proof. by destruct d. Qed.
Lemma cell_parent d w a b : parent (cell d w a b) = w.
Proof. by destruct d. Qed.
Lemma cell_negb d w a b : cell (negb d) w a b = cell d w b a.
Proof. by destruct d. Qed.
Lemma mk_negb d c x a b : mk (negb d) c x a b = mk d c x b a.
Proof. by destruct d. Qed.
Lemma mk_left c x a b : mk RB_LEFT c x a b = Node c x a b.
Proof. done. Qed.

Lemma ptr_mk d c x a b : ptr (mk d c x a b) = x.
Proof. by destruct d. Qed.

Lemma rep_mk m d c x a b p :
  rep m (mk d c x a b) p <->
  addr_ok x /\ m !! x = Some (cell d (word p c) (ptr a) (ptr b)) /\ rep m a x /\ rep m b x.
Proof. destruct d; cbn; tauto. Qed.

Lemma inorder_mk d c x a b : inorder (mk d c x a b) ≡ₚ x :: inorder a ++ inorder b.
Proof. destruct d; cbn; solve_Permutation. Qed.

(** ** Frames *)
Lemma ptr_in t : t <> Leaf -> ptr t ∈ inorder t.
Proof. destruct t as [|c x l r]; [done|]. intros _. cbn. set_solver. Qed.

Lemma rep_frame m m' t p : (forall x, x ∈ inorder t -> m' !! x = m !! x) -> rep m t p -> rep m' t p.
Proof.
  revert p. induction t as [|c x l IHl r IHr]; intros p H; cbn in *; [done|].
  intros (Hx & E & Hl & Hr). split; [done|]. split; [rewrite H; [done|set_solver]|].
  split; [apply IHl|apply IHr]; try done; intros; apply H; set_solver.
Qed.

Lemma crep_frame m m' k hole : (forall x, x ∈ caddrs k -> m' !! x = m !! x) -> crep m k hole -> crep m' k hole.
Proof.
  revert hole. induction k as [|[d c x s] k IH]; intros hole H; cbn in *; [done|].
  intros (Hx & E & Hs & Hk). split; [done|]. split; [rewrite H; [done|set_solver]|].
  split; [eapply rep_frame; [|done]|apply IH; [|done]]; intros; apply H; set_solver.
Qed.

Lemma rep_insert m t p x n : x ∉ inorder t -> rep m t p -> rep (<[x := n]> m) t p.
Proof. intros Hx. apply rep_frame. intros y Hy. apply lookup_insert_ne. set_solver. Qed.

Lemma crep_insert m k hole x n : x ∉ caddrs k -> crep m k hole -> crep (<[x := n]> m) k hole.
Proof. intros Hx. apply crep_frame. intros y Hy. apply lookup_insert_ne. set_solver. Qed.

Lemma rep_mapped m t p x : rep m t p -> x ∈ inorder t -> is_Some (m !! x) /\ addr_ok x.
Proof.
  revert p. induction t as [|c y l IHl r IHr]; cbn; intros p; [set_solver|].
  intros (Hy & E & Hl & Hr) Hx. rewrite elem_of_app, elem_of_cons in Hx.
  destruct Hx as [Hx | [-> | Hx]]; [by eapply IHl|rewrite E; eauto|by eapply IHr].
Qed.

Lemma crep_mapped m k hole x : crep m k hole -> x ∈ caddrs k -> is_Some (m !! x) /\ addr_ok x.
Proof.
  revert hole. induction k as [|[d c y s] k IH]; cbn; intros hole; [set_solver|].
  intros (Hy & E & Hs & Hk) Hx. rewrite elem_of_cons, elem_of_app in Hx.
  destruct Hx as [-> | [Hx | Hx]]; [rewrite E; eauto|by eapply rep_mapped|by eapply IH].
Qed.

Lemma addr_ok_nonzero x : addr_ok x -> (x =? 0) = false.
Proof. intros [H _]. apply Z.eqb_neq. lia. Qed.

Lemma cptr_even m k hole : crep m k hole -> cptr k mod 2 = 0.
Proof. destruct k as [|f k]; cbn; [done|]. by intros ([_ ?] & _). Qed.

Lemma ptr_even m t p : rep m t p -> ptr t mod 2 = 0.
Proof. destruct t as [|c x l r]; cbn; [done|]. by intros ([_ ?] & _). Qed.

Lemma ptr_zero m t p : rep m t p -> (ptr t =? 0) = match t with Leaf => true | _ => false end.
Proof. destruct t as [|c x l r]; cbn; [done|]. intros (H & _). by apply addr_ok_nonzero. Qed.

(** ** Moving the focus *)
Lemma caddrs_up d c x t s k : inorder (mk d c x t s) ++ caddrs k ≡ₚ inorder t ++ caddrs (Frame d c x s :: k).
Proof. rewrite inorder_mk. cbn. solve_Permutation. Qed.

Lemma zrep_up s d c x t sib k : zrep s (Frame d c x sib :: k) t <-> zrep s k (mk d c x t sib).
Proof.
  split.
  - intros [H1 (Hx & E & Hs & Hk) H3 H4]. cbn in *. split.
    + apply rep_mk. done.
    + by rewrite ptr_mk.
    + by rewrite ptr_mk.
    + by rewrite caddrs_up.
  - intros [H1 H2 H3 H4]. apply rep_mk in H1 as (Hx & E & Ht & Hs). rewrite ptr_mk in *. split; cbn.
    + done.
    + done.
    + done.
    + by rewrite caddrs_up in H4.
Qed.

Lemma zrep_plug s k t : zrep s k t <-> zrep s [] (plug k t).
Proof.
  revert t. induction k as [|[d c x sib] k IH]; intros t; [done|]. cbn [plug fdir fcol faddr fsib].
  by rewrite zrep_up, IH.
Qed.

Lemma inorder_plug k t t' : inorder t = inorder t' -> inorder (plug k t) = inorder (plug k t').
Proof.
  revert t t'. induction k as [|[d c x sib] k IH]; intros t t' E; cbn; [done|].
  apply IH. unfold mk. destruct d; cbn; by rewrite E.
Qed.

(** ** Reading the focus *)
Section Focus.
Context {s : rbtree} {k : ctx} {d : bool} {c : color} {x : Z} {a b : tree}.
Hypothesis Z : zrep s k (mk d c x a b).

Lemma focus_cell : rbmem s !! x = Some (cell d (word (cptr k) c) (ptr a) (ptr b)).
Proof using Z. destruct Z as [H _ _ _]. by apply rep_mk in H as (_ & E & _). Qed.

Lemma focus_addr : addr_ok x.
Proof using Z. destruct Z as [H _ _ _]. by apply rep_mk in H as (? & _). Qed.

Lemma focus_even : cptr k mod 2 = 0.
Proof using Z. destruct Z as [_ H _ _]. by eapply cptr_even. Qed.

Lemma get_color_focus : rb_get_color s x = Ok (cbit c).
Proof using Z.
  unfold rb_get_color, rb_node. rewrite (load_Ok _ _ _ focus_cell), bind_Ok, cell_parent.
  by rewrite word_color_word by apply focus_even.
Qed.

Lemma get_parent_focus : rb_get_parent s x = Ok (cptr k).
Proof using Z.
  unfold rb_get_parent, rb_node. rewrite (load_Ok _ _ _ focus_cell), bind_Ok, cell_parent.
  by rewrite word_parent_word by apply focus_even.
Qed.

Lemma child_focus : rb_child s x d = Ok (ptr a).
Proof using Z. unfold rb_child, rb_node. by rewrite (load_Ok _ _ _ focus_cell), bind_Ok, cell_child. Qed.

Lemma child_other_focus : rb_child s x (negb d) = Ok (ptr b).
Proof using Z. unfold rb_child, rb_node. by rewrite (load_Ok _ _ _ focus_cell), bind_Ok, cell_child_other. Qed.

Lemma focus_fresh : (x ∉ inorder a) /\ (x ∉ inorder b) /\ (x ∉ caddrs k).
Proof using Z. destruct Z as [_ _ _ H]. rewrite inorder_mk in H. cbn in H. apply NoDup_cons in H as [H _]. set_solver. Qed.

Lemma set_color_focus c' :
  exists s', rb_set_color s x (cbit c') = Ok s' /\ zrep s' k (mk d c' x a b) /\
             modifies [x] (rbmem s) (rbmem s').
Proof using Z.
  pose proof focus_cell as E. pose proof focus_fresh as (Ha & Hb & Hk). pose proof focus_even as Ev.
  unfold rb_set_color, rb_update. rewrite (load_Ok _ _ _ E), bind_Ok, (store_Ok _ _ _ _ E), bind_Ok.
  eexists. split; [reflexivity|]. rewrite cell_parent, set_color_word by done.
  split; [|cbn [rbmem]; eapply modifies_insert; [exact E|set_solver]].
  destruct Z as [H1 H2 H3 H4]. rewrite ptr_mk in *.
  apply rep_mk in H1 as (Hx & _ & H1a & H1b). split; cbn [rbmem root].
  - apply rep_mk. split; [done|]. split.
    + rewrite lookup_insert_eq. by destruct d.
    + split; by apply rep_insert.
  - rewrite ptr_mk. by apply crep_insert.
  - by rewrite ptr_mk.
  - rewrite inorder_mk in H4 |- *. done.
Qed.
End Focus.

(** The side a subtree hangs on, read from its parent. *)
Lemma direction_focus s d c x sib k t :
  t <> Leaf -> zrep s (Frame d c x sib :: k) t ->
  exists r, rb_child s x RB_RIGHT = Ok r /\ (ptr t =? r) = d /\ (r =? ptr t) = d.
Proof.
  intros Ht Z. pose proof Z as Z0. apply zrep_up in Z0.
  destruct Z as [H1 (Hx & E & Hs & Hk) H3 H4]. cbn in *.
  assert (ptr t <> ptr sib) as Hne.
  { intros Heq. apply ptr_in in Ht. destruct sib as [|cs xs ls rs]; cbn in Heq.
    - destruct t; cbn in *; [set_solver|]. destruct H1 as ((? & _) & _). lia.
    - apply NoDup_app in H4 as (_ & H4 & _). apply (H4 (ptr t)); [done|]. rewrite Heq. cbn. set_solver. }
  unfold RB_RIGHT. destruct d.
  - rewrite (child_focus Z0). exists (ptr t). split; [done|]. by rewrite Z.eqb_refl.
  - pose proof (child_other_focus Z0) as Ec. cbn [negb] in Ec. rewrite Ec. exists (ptr sib).
    split; [done|]. split; apply Z.eqb_neq; auto.
Qed.

Lemma rbtree_direction_focus s d c x sib k t :
  t <> Leaf -> zrep s (Frame d c x sib :: k) t -> rbtree_direction s (ptr t) = Ok d.
Proof.
  intros Ht Z. pose proof (direction_focus _ _ _ _ _ _ _ Ht Z) as (r & Er & E & _).
  unfold rbtree_direction. destruct t as [|ct xt l r0]; [done|]. cbn [ptr] in *.
  rewrite (get_parent_focus (d := false) Z), bind_Ok. cbn [cptr faddr]. rewrite Er, bind_Ok, E.
  by destruct d.
Qed.

(** ** Single writes on the pieces of a represented tree *)
Lemma rb_update_Ok t x n f : rbmem t !! x = Some n -> rb_update t x f = Ok (RBTree (root t) (<[x := f n]> (rbmem t))).
Proof. intros E. unfold rb_update. by rewrite (load_Ok _ _ _ E), bind_Ok, (store_Ok _ _ _ _ E), bind_Ok. Qed.

Lemma rep_reparent m t p q :
  t <> Leaf -> p mod 2 = 0 -> q mod 2 = 0 -> NoDup (inorder t) -> rep m t p ->
  exists n, m !! ptr t = Some n /\
    rep (<[ptr t := RBNode (Z.lor (Z.land (parent n) 1) q) (left n) (right n)]> m) t q.
Proof.
  destruct t as [|c x l r]; [done|]. intros _ Hp Hq Hnd. cbn in *. intros (Hx & E & Hl & Hr).
  rewrite E. eexists. split; [done|]. cbn. split; [done|].
  rewrite lookup_insert_eq, set_parent_word by done. split; [done|].
  rewrite <- Permutation_middle in Hnd. apply NoDup_cons in Hnd as [Hnd _].
  split; apply rep_insert; set_solver.
Qed.

Lemma set_parent_sub t sub p q :
  sub <> Leaf -> p mod 2 = 0 -> q mod 2 = 0 -> NoDup (inorder sub) -> rep (rbmem t) sub p ->
  exists n, rb_set_parent t (ptr sub) q = Ok (RBTree (root t) (<[ptr sub := n]> (rbmem t))) /\
    rep (<[ptr sub := n]> (rbmem t)) sub q.
Proof.
  intros Hl Hp Hq Hnd Hr. destruct (rep_reparent _ _ _ q Hl Hp Hq Hnd Hr) as (n & E & H).
  unfold rb_set_parent. rewrite (rb_update_Ok _ _ _ _ E). by eexists.
Qed.

(** Replace the pointer to the hole of a context: in the parent, or the root. *)
Lemma crep_rehang m k hole hole' : NoDup (caddrs k) -> crep m k hole -> k <> [] ->
  exists n, m !! cptr k = Some n /\ crep (<[cptr k := with_child n (default false (fdir <$> head k)) hole']> m) k hole'.
Proof.
  destruct k as [|[d c x sib] k]; [done|]. intros Hnd (Hx & E & Hs & Hk) _. cbn in *.
  rewrite E. eexists. split; [done|]. apply NoDup_cons in Hnd as [Hn _].
  split; [done|]. rewrite lookup_insert_eq, cell_with. split; [done|].
  split; [apply rep_insert|apply crep_insert]; set_solver.
Qed.

Lemma rep_modifies S m m' t p : modifies S m m' -> (forall x, x ∈ S -> x ∉ inorder t) -> rep m t p -> rep m' t p.
Proof. intros [_ H] HS. apply rep_frame. intros x Hx. apply H. intros Hin. by apply (HS x). Qed.

Lemma crep_modifies S m m' k hole : modifies S m m' -> (forall x, x ∈ S -> x ∉ caddrs k) -> crep m k hole -> crep m' k hole.
Proof. intros [_ H] HS. apply crep_frame. intros x Hx. apply H. intros Hin. by apply (HS x). Qed.

(** The code's way to make the parent of [old] (or the root) point to [new]. *)
Definition rehang (s : rbtree) (par old new : Z) : res rbtree :=
  if negb (par =? 0) then
    r ← rb_child s par RB_RIGHT;
    rb_set_child s par (old =? r) new
  else Ok (rb_set_root s new).

Lemma rehang_rep s k old new :
  crep (rbmem s) k old -> root s = croot k old -> NoDup (caddrs k) -> 0 < old -> old ∉ caddrs k ->
  exists s', rehang s (cptr k) old new = Ok s' /\ crep (rbmem s') k new /\ root s' = croot k new /\
             modifies (caddrs k) (rbmem s) (rbmem s').
Proof.
  intros Hk Hr Hnd Ho Hn. unfold rehang. destruct k as [|[d c x sib] k]; cbn in *.
  - eexists. split; [done|]. cbn. split; [done|]. split; [done|]. apply modifies_refl.
  - destruct Hk as (Hx & E & Hs & Hk). rewrite (addr_ok_nonzero _ Hx). cbn [negb].
    unfold rb_child, rb_node. rewrite (load_Ok _ _ _ E), !bind_Ok.
    assert ((old =? children (cell d (word (cptr k) c) old (ptr sib)) RB_RIGHT) = d) as ->.
    { unfold RB_RIGHT. destruct d; cbn; [apply Z.eqb_refl|]. apply Z.eqb_neq. intros ->. apply Hn.
      destruct sib; cbn in *; [lia|set_solver]. }
    unfold rb_set_child. rewrite (rb_update_Ok _ _ _ _ E), cell_with. eexists. split; [done|]. cbn.
    apply NoDup_cons in Hnd as [Hxn _]. rewrite lookup_insert_eq. split; [split; [done|]|].
    + split; [done|]. split; [apply rep_insert|apply crep_insert]; set_solver.
    + split; [done|]. eapply modifies_insert; [done|set_solver].
Qed.

Lemma rotate_eq s sub dir :
  rbtree_rotate_subtree s sub dir =
  (sub_parent ← rb_get_parent s sub;
   new_root ← rb_child s sub (negb dir);
   new_child ← rb_child s new_root dir;
   s ← rb_set_child s sub (negb dir) new_child;
   s ← (if negb (new_child =? 0) then rb_set_parent s new_child sub else Ok s);
   s ← rb_set_child s new_root dir sub;
   s ← rb_set_parent s new_root sub_parent;
   s ← rb_set_parent s sub new_root;
   s ← rehang s sub_parent sub new_root;
   Ok (new_root, s)).
Proof. reflexivity. Qed.

(** Hang a subtree below [x]: its parent word, if there is one. *)
Lemma reparent_rep s t p q :
  p mod 2 = 0 -> q mod 2 = 0 -> NoDup (inorder t) -> rep (rbmem s) t p ->
  exists s', (if negb (ptr t =? 0) then rb_set_parent s (ptr t) q else Ok s) = Ok s' /\
    rep (rbmem s') t q /\ root s' = root s /\ modifies (inorder t) (rbmem s) (rbmem s').
Proof.
  intros Hp Hq Hnd H. rewrite (ptr_zero _ _ _ H). destruct t as [|c x l r]; cbn [negb].
  - exists s. split; [done|]. split; [done|]. split; [done|]. apply modifies_refl.
  - destruct (set_parent_sub s (Node c x l r) p q) as (n & E & H'); [done..|]. rewrite E.
    eexists. split; [done|]. split; [exact H'|]. split; [done|]. cbn [rbmem].
    destruct H as (_ & Ex & _). eapply modifies_insert; [exact Ex|]. by apply (ptr_in (Node c x l r)).
Qed.

Lemma rotate_rep s k d cx x a cy y b e :
  zrep s k (mk d cx x a (mk d cy y b e)) ->
  exists s', rbtree_rotate_subtree s x d = Ok (y, s') /\ zrep s' k (mk d cy y (mk d cx x a b) e) /\
             modifies (inorder (mk d cx x a (mk d cy y b e)) ++ caddrs k) (rbmem s) (rbmem s').
Proof.
  intros Z. rewrite rotate_eq.
  assert (Zy : zrep s (Frame (negb d) cx x a :: k) (mk d cy y b e)) by (apply zrep_up; by rewrite mk_negb).
  rewrite (get_parent_focus Z), bind_Ok, (child_other_focus Z), bind_Ok, ptr_mk, (child_focus Zy), bind_Ok.
  pose proof (focus_cell Z) as Ex. pose proof (focus_cell Zy) as Ey. pose proof (focus_even Z) as Ek.
  destruct (focus_addr Z) as [Hx0 Hx2]. destruct (focus_addr Zy) as [Hy0 Hy2].
  destruct Z as [H1 H2 H3 H4]. rewrite ptr_mk in *.
  apply rep_mk in H1 as (Hx & _ & Ha & H1). apply rep_mk in H1 as (Hy & _ & Hb & He).
  assert (NoDup (x :: y :: inorder a ++ inorder b ++ inorder e ++ caddrs k)) as Hnd.
  { rewrite !inorder_mk in H4. eapply NoDup_Permutation_proper; [|exact H4]. solve_Permutation. }
  apply NoDup_cons in Hnd as [Hxn Hnd]. apply NoDup_cons in Hnd as [Hyn Hnd].
  apply NoDup_app in Hnd as (Hnda & Hda & Hnd). apply NoDup_app in Hnd as (Hndb & Hdb & Hnd).
  apply NoDup_app in Hnd as (Hnde & Hde & Hndk).
  unfold rb_set_child. rewrite (rb_update_Ok _ _ _ _ Ex), bind_Ok, cell_with_other.
  match goal with |- context [RBTree (root s) ?m] => set (s1 := RBTree (root s) m) end.
  destruct (reparent_rep s1 b y x) as (s2 & -> & Hb2 & Hr2 & M2); [done..|apply rep_insert; [set_solver|done]|].
  rewrite bind_Ok. pose proof M2 as [_ L2].
  assert (rbmem s2 !! y = Some (cell d (word x cy) (ptr b) (ptr e))) as Ey2.
  { rewrite L2 by set_solver. cbn. rewrite lookup_insert_ne by set_solver. exact Ey. }
  assert (rbmem s2 !! x = Some (cell d (word (cptr k) cx) (ptr a) (ptr b))) as Ex2.
  { rewrite L2 by set_solver. apply lookup_insert_eq. }
  rewrite (rb_update_Ok _ _ _ _ Ey2), bind_Ok, cell_with.
  unfold rb_set_parent. erewrite rb_update_Ok by (cbn; apply lookup_insert_eq).
  rewrite bind_Ok, cell_parent, set_parent_word by done. cbn [rbmem root].
  erewrite rb_update_Ok by (cbn; rewrite !lookup_insert_ne by set_solver; exact Ex2).
  rewrite bind_Ok, cell_parent, set_parent_word by done. cbn [rbmem root].
  match goal with |- context [rehang ?s _ _ _] => set (s3 := s) end.
  assert (modifies (x :: y :: inorder b) (rbmem s) (rbmem s3)) as M3.
  { eapply modifies_trans_same; [eapply (modifies_insert _ _ x); [exact Ex|set_solver]|].
    eapply modifies_trans_same; [eapply modifies_weaken; [exact M2|set_solver]|]. cbn.
    eapply modifies_trans_same; [eapply (modifies_insert _ _ y); [exact Ey2|set_solver]|].
    eapply modifies_trans_same; [eapply (modifies_insert _ _ y); [apply lookup_insert_eq|set_solver]|].
    eapply (modifies_insert _ _ x); [rewrite !lookup_insert_ne by set_solver; exact Ex2|set_solver]. }
  destruct (rehang_rep s3 k x y) as (s4 & -> & Hk4 & Hr4 & M4).
  { eapply crep_modifies; [exact M3| |done]. set_solver. }
  { cbn. by rewrite Hr2. }
  { done. } { done. } { set_solver. }
  rewrite bind_Ok. exists s4. split; [done|]. pose proof M4 as [_ L4].
  assert (modifies (x :: y :: inorder b ++ caddrs k) (rbmem s) (rbmem s4)) as M.
  { eapply modifies_trans_same; eapply modifies_weaken; [exact M3| |exact M4|]; set_solver. }
  split; [|eapply modifies_weaken; [exact M|]; intros z; rewrite !elem_of_app, !inorder_mk; set_solver].
  split; rewrite ?ptr_mk; [|done|done|].
  - apply rep_mk. split; [done|]. rewrite ptr_mk. split.
    { rewrite L4 by set_solver. cbn. rewrite lookup_insert_ne by set_solver. rewrite lookup_insert_eq. by destruct d. }
    split.
    + apply rep_mk. split; [done|]. split.
      { rewrite L4 by set_solver. cbn. rewrite lookup_insert_eq. by destruct d. }
      split; [eapply rep_modifies; [exact M| |done]; set_solver|].
      eapply rep_modifies; [exact M4|set_solver|]. cbn.
      by repeat (apply rep_insert; [set_solver|]).
    + eapply rep_modifies; [exact M| |done]; set_solver.
  - eapply NoDup_Permutation_proper; [|exact H4]. rewrite !inorder_mk. solve_Permutation.
Qed.
