(* ===== verification/RBTreeSpec.v ===== *)
(** * Correctness of the red-black tree

    Balance ([wf]), the effect of the fix-up loops on a represented tree, and
    the specifications of insertion, removal and search. *)

From stdpp Require Import sorting.
From S2P Require Import Prelude RBTree RBTreeRep.
#[local] Open Scope Z_scope.

(** ** Balance

    [wf ok t n]: every path of [t] has [n] black nodes, no red node has a red
    child, and the root of [t] may be red only if [ok]. *)
Fixpoint wf (ok : bool) (t : tree) (n : nat) : Prop :=
  match t with
  | Leaf => n = O
  | Node Red _ l r => ok = true /\ wf false l n /\ wf false r n
  | Node Black _ l r => exists m, n = S m /\ wf true l m /\ wf true r m
  end.

(** The same of a context whose hole takes trees with [wf ok _ n]: the whole
    is a balanced tree with a black root. *)
Fixpoint cwf (k : ctx) (ok : bool) (n : nat) : Prop :=
  match k with
  | [] => ok = false
  | f :: k =>
      match fcol f with
      | Red => ok = false /\ wf false (fsib f) n /\ cwf k true n
      | Black => ok = true /\ wf true (fsib f) n /\ exists ok', cwf k ok' (S n)
      end
  end.

Definition balanced (t : tree) : Prop := exists n, wf false t n.

Lemma wf_mono ok t n : wf false t n -> wf ok t n.
Proof. destruct t as [|[] x l r]; cbn; [done|naive_solver|done]. Qed.

Lemma wf_mk ok d c x a b n :
  wf ok (mk d c x a b) n <->
  match c with
  | Red => ok = true /\ wf false a n /\ wf false b n
  | Black => exists m, n = S m /\ wf true a m /\ wf true b m
  end.
Proof. destruct d, c; cbn; naive_solver. Qed.

Lemma cwf_plug k ok n t : cwf k ok n -> wf ok t n -> balanced (plug k t).
Proof.
  revert ok n t. induction k as [|[d c x s] k IH]; cbn; intros ok n t.
  - intros -> H. by exists n.
  - destruct c.
    + intros (-> & Hs & Hk) Ht. eapply IH; [exact Hk|]. apply wf_mk. done.
    + intros (-> & Hs & ok' & Hk) Ht. eapply IH; [exact Hk|]. apply wf_mk. by exists n.
Qed.

Lemma plug_cwf k t : balanced (plug k t) -> exists ok n, cwf k ok n /\ wf ok t n.
Proof.
  revert t. induction k as [|[d c x s] k IH]; cbn; intros t.
  - intros [n H]. by exists false, n.
  - intros H. apply IH in H as (ok & n & Hk & H). apply wf_mk in H. destruct c.
    + destruct H as (-> & Ht & Hs). by exists false, n.
    + destruct H as (m & -> & Ht & Hs). exists true, m. split; [|done]. eauto.
Qed.

(** ** The focus with its history

    [zr m0 L s k t]: the memory represents [t] in [k]; in order the tree
    lists the nodes [L]; nothing but [L] changed since [m0]. *)
Record zr (m0 : rbnodes) (L : list Z) (s : rbtree) (k : ctx) (t : tree) : Prop := {
  zr_rep : zrep s k t;
  zr_order : inorder (plug k t) = L;
  zr_mod : modifies L m0 (rbmem s);
}.

Lemma inorder_plug_perm k t : inorder (plug k t) ≡ₚ inorder t ++ caddrs k.
Proof.
  revert t. induction k as [|[d c x s] k IH]; intros t; cbn; [by rewrite app_nil_r|].
  rewrite IH, inorder_mk. solve_Permutation.
Qed.

Lemma zr_up m0 L s d c x t sib k : zr m0 L s (Frame d c x sib :: k) t <-> zr m0 L s k (mk d c x t sib).
Proof. split; intros [H1 H2 H3]; (split; [by apply zrep_up|exact H2|exact H3]). Qed.

Lemma zr_plug m0 L s k t : zr m0 L s k t <-> zr m0 L s [] (plug k t).
Proof. split; intros [H1 H2 H3]; (split; [|exact H2|exact H3]); [by apply (proj1 (zrep_plug _ _ _))|by apply (proj2 (zrep_plug _ _ _))]. Qed.

Lemma zr_color m0 L s k d c x a b c' :
  zr m0 L s k (mk d c x a b) ->
  exists s', rb_set_color s x (cbit c') = Ok s' /\ zr m0 L s' k (mk d c' x a b).
Proof.
  intros [H1 H2 H3]. destruct (set_color_focus H1 c') as (s' & E & H' & M). exists s'. split; [done|].
  split; [done| |].
  - rewrite <- H2. apply inorder_plug. by destruct d.
  - eapply modifies_trans_same; [done|]. eapply modifies_weaken; [exact M|]. intros z Hz.
    rewrite <- H2, inorder_plug_perm, elem_of_app, inorder_mk. set_solver.
Qed.

Lemma zr_rotate m0 L s k d cx x a cy y b e :
  zr m0 L s k (mk d cx x a (mk d cy y b e)) ->
  exists s', rbtree_rotate_subtree s x d = Ok (y, s') /\ zr m0 L s' k (mk d cy y (mk d cx x a b) e).
Proof.
  intros [H1 H2 H3]. destruct (rotate_rep _ _ _ _ _ _ _ _ _ _ H1) as (s' & E & H' & M).
  exists s'. split; [done|]. split; [done| |].
  - rewrite <- H2. apply inorder_plug. destruct d; cbn; by rewrite <- ?app_assoc.
  - eapply modifies_trans_same; [done|]. eapply modifies_weaken; [exact M|]. intros z Hz.
    by rewrite <- H2, inorder_plug_perm.
Qed.

(** A subtree and its sibling have different roots. *)
Lemma sibling_ne s k f t : t <> Leaf -> zrep s (f :: k) t -> ptr t <> ptr (fsib f).
Proof.
  intros Ht [H1 (_ & _ & Hs & _) _ H4] E. cbn in *. apply ptr_in in Ht. destruct (fsib f) as [|cs xs ls rs] eqn:Ef; cbn in E.
  - destruct t as [|ct xt lt rt]; cbn in *; [set_solver|]. destruct H1 as ((? & _) & _). lia.
  - apply NoDup_app in H4 as (_ & H4 & _). apply (H4 (ptr t)); [done|]. rewrite E. cbn. set_solver.
Qed.

Lemma zrep_length s k t : zrep s k t -> (length (inorder t ++ caddrs k) <= size (rbmem s))%nat.
Proof.
  intros [H1 H2 _ H4]. apply NoDup_length_size; [done|]. intros x. rewrite elem_of_app. intros [Hx | Hx].
  - by eapply rep_mapped.
  - by eapply crep_mapped.
Qed.

Lemma caddrs_length k : (length k <= length (caddrs k))%nat.
Proof. induction k as [|f k IH]; cbn; [done|]. rewrite length_app. lia. Qed.

Lemma zrep_depth s k t : zrep s k t -> (length k <= size (rbmem s))%nat.
Proof. intros H. pose proof (zrep_length _ _ _ H) as Hl. rewrite length_app in Hl. pose proof (caddrs_length k). lia. Qed.

Lemma zr_whole m0 L s k t : zr m0 L s k t -> zr m0 L s [] (plug k t).
Proof. apply zr_plug. Qed.

Lemma zr_fold m0 L s d c x t sib k : zr m0 L s (Frame d c x sib :: k) t -> zr m0 L s k (mk d c x t sib).
Proof. apply zr_up. Qed.

(** Go down to side [d], or to the other side. *)
Lemma zr_down m0 L s d c x t sib k : zr m0 L s k (mk d c x t sib) -> zr m0 L s (Frame d c x sib :: k) t.
Proof. apply zr_up. Qed.

Lemma zr_down_other m0 L s d c x t sib k :
  zr m0 L s k (mk d c x t sib) -> zr m0 L s (Frame (negb d) c x t :: k) sib.
Proof. intros H. apply zr_up. by rewrite mk_negb. Qed.

(** ** Insertion *)

(** The last rotation: the red parent [p] comes up above the grandparent. *)
Lemma insert_case6 m0 L s k D gp uncle p a x n ok :
  zr m0 L s k (mk D Black gp uncle (mk D Red p a x)) ->
  wf false uncle n -> wf false a n -> wf true x n -> cwf k ok (S n) ->
  exists s' T, ('(_, t) ← rbtree_rotate_subtree s gp D;
                t ← rb_set_color t p RB_BLACK;
                rb_set_color t gp RB_RED) = Ok s' /\ zr m0 L s' [] T /\ balanced T.
Proof.
  intros Zr Hu Ha Hx Hk.
  destruct (zr_rotate _ _ _ _ _ _ _ _ _ _ _ _ Zr) as (s1 & -> & Z1). rewrite bind_Ok.
  destruct (zr_color _ _ _ _ _ _ _ _ _ Black Z1) as (s2 & E2 & Z2). change RB_BLACK with (cbit Black).
  rewrite E2, bind_Ok. apply zr_down in Z2.
  destruct (zr_color _ _ _ _ _ _ _ _ _ Red Z2) as (s3 & E3 & Z3). change RB_RED with (cbit Red).
  rewrite E3. apply zr_fold in Z3. eexists _, _. split; [done|]. split; [by apply zr_whole|].
  eapply cwf_plug; [exact Hk|]. apply wf_mk. exists n. split; [done|]. split; [|done]. by apply wf_mk.
Qed.

(** Red nodes have a parent, so the fix-up finds a grandparent. *)
Lemma insert_fixup_ok fuel : forall m0 L s f k c z b e n ok,
  (length k < fuel)%nat -> zr m0 L s (f :: k) (Node c z b e) -> c = Red ->
  cwf (f :: k) ok n -> wf true (Node c z b e) n ->
  exists s' T, insert_fixup_loop fuel s z (faddr f) = Ok s' /\ zr m0 L s' [] T /\ balanced T.
Proof.
  induction fuel as [|fuel IH]; intros m0 L s [d1 c1 p sib] k c z b e n ok Hlen Zr -> Hk Ht; [lia|].
  cbn [insert_fixup_loop faddr].
  pose proof Zr as Zp. apply zr_fold in Zp. pose proof (zr_rep _ _ _ _ _ Zp) as Rp.
  rewrite (get_color_focus Rp), bind_Ok. cbn [cwf fcol fsib] in Hk. destruct c1; cbn [cbit]; cycle 1.
  { (* case 1 *)
    change (1 =? RB_BLACK) with true. cbv iota. eexists _, _. split; [done|]. split; [by apply zr_whole|].
    eapply (cwf_plug (Frame d1 Black p sib :: k) ok n); [exact Hk|]. by destruct Hk as (-> & _). }
  change (0 =? RB_BLACK) with false. cbv iota. rewrite (get_parent_focus Rp), bind_Ok.
  destruct Hk as (-> & Hsib & Hk). destruct k as [|[d2 c2 gp uncle] k]; [done|].
  cbn [cptr faddr cwf fcol fsib] in *. destruct c2; [naive_solver|]. destruct Hk as (_ & Hu & ok' & Hk).
  pose proof Zp as Zg. apply zr_fold in Zg. pose proof (zr_rep _ _ _ _ _ Zg) as Rg.
  rewrite (addr_ok_nonzero _ (focus_addr Rg)).
  pose proof (rbtree_direction_focus s d2 Black gp uncle k (mk d1 Red p (Node Red z b e) sib)) as Ed.
  rewrite ptr_mk in Ed. rewrite Ed, bind_Ok by (by destruct d1). clear Ed.
  rewrite (child_other_focus Rg), bind_Ok.
  assert (exists ub, (if ptr uncle =? 0 then Ok true else uc ← rb_get_color s (ptr uncle); Ok (uc =? RB_BLACK)) = Ok ub /\
            (if (ub : bool) then wf false uncle n else exists u ul ur, uncle = Node Red u ul ur)) as (ub & -> & Hub).
  { destruct uncle as [|cu u ul ur]; cbn [ptr].
    - exists true. by split.
    - assert (Zu : zrep s (Frame (negb d2) Black gp (mk d1 Red p (Node Red z b e) sib) :: k) (mk false cu u ul ur))
        by (apply zrep_up; by rewrite mk_negb).
      rewrite (addr_ok_nonzero _ (focus_addr Zu)), (get_color_focus Zu), bind_Ok. eexists. split; [done|].
      destruct cu; cbn; [eauto|exact Hu]. }
  rewrite bind_Ok. destruct Ht as (_ & Hb & He). destruct ub; cbv iota.
  - (* cases 5 and 6 *)
    destruct (decide (d1 = d2)) as [-> | Hd].
    + rewrite (child_other_focus Rp), bind_Ok.
      assert ((z =? ptr sib) = false) as ->.
      { apply Z.eqb_neq. by apply (sibling_ne _ _ _ (Node Red z b e) ltac:(done) (zr_rep _ _ _ _ _ Zr)). }
      rewrite bind_Ok. rewrite <- (mk_negb d2), <- (mk_negb d2 Red) in Zg.
      eapply insert_case6; [exact Zg|done|done|by cbn|done].
    + assert (d1 = negb d2) as -> by (destruct d1, d2; done).
      rewrite (child_focus Rp), bind_Ok, Z.eqb_refl. rewrite mk_negb in Zp.
      assert (exists y u, Node Red z b e = mk d2 Red z y u /\ wf false y n /\ wf false u n) as (y & u & Ez & Hy & Hw).
      { destruct d2; [by exists e, b|by exists b, e]. }
      rewrite Ez in Zp. destruct (zr_rotate _ _ _ _ _ _ _ _ _ _ _ _ Zp) as (s1 & -> & Z1). rewrite bind_Ok.
      apply zr_fold in Z1. rewrite (child_focus (zr_rep _ _ _ _ _ Z1)), !bind_Ok, ptr_mk.
      rewrite <- (mk_negb d2), <- (mk_negb d2 Red z) in Z1.
      eapply insert_case6; [exact Z1|done|done| |done]. apply wf_mk. done.
  - (* case 2 *)
    destruct Hub as (u & ul & ur & ->). cbn [ptr]. destruct Hu as (_ & Hul & Hur).
    change RB_BLACK with (cbit Black). change RB_RED with (cbit Red).
    destruct (zr_color _ _ _ _ _ _ _ _ _ Black Zp) as (s1 & -> & Z1). rewrite bind_Ok.
    apply zr_fold, zr_down_other in Z1.
    destruct (zr_color _ _ _ _ false _ _ _ _ Black Z1) as (s2 & -> & Z2). rewrite bind_Ok.
    apply zr_fold in Z2. destruct (zr_color _ _ _ _ _ _ _ _ _ Red Z2) as (s3 & -> & Z3). rewrite bind_Ok.
    rewrite (get_parent_focus (zr_rep _ _ _ _ _ Z3)), bind_Ok. rewrite mk_negb in Z3.
    set (t3 := mk d2 Red gp _ _) in Z3.
    assert (wf true t3 (S n)) as Ht3.
    { apply wf_mk. split; [done|]. split; [|by exists n; auto using wf_mono]. apply wf_mk. exists n.
      split; [done|]. split; [done|]. by apply wf_mono. }
    destruct k as [|[d4 c4 g4 s4] k]; cbn [cptr faddr].
    + cbn [negb Z.eqb]. pose proof (z_root _ _ _ (zr_rep _ _ _ _ _ Z3)) as Er. cbn in Er. unfold t3 in Er. rewrite ptr_mk in Er.
      rewrite Er. destruct (zr_color _ _ _ _ _ _ _ _ _ Black Z3) as (s4 & -> & Z4).
      eexists _, _. split; [done|]. split; [exact Z4|]. apply wf_mk in Ht3 as (_ & H1 & H2).
      exists (S (S n)). apply wf_mk. exists (S n). split; [done|]. by split; apply wf_mono.
    + rewrite (addr_ok_nonzero g4). 2:{ apply zr_fold in Z3. by apply (focus_addr (zr_rep _ _ _ _ _ Z3)). }
      cbn [negb]. cbn [length] in Hlen.
      assert (exists y w, t3 = Node Red gp y w) as (y & w & E3) by (unfold t3; destruct d2; eauto).
      rewrite E3 in *. eapply (IH m0 L s3 (Frame d4 c4 g4 s4)); [|exact Z3|done|exact Hk|exact Ht3]. lia.
Qed.

(** The nodes before and after the hole of a context. *)
Fixpoint cleft (k : ctx) : list Z :=
  match k with [] => [] | f :: k => if fdir f then cleft k ++ inorder (fsib f) ++ [faddr f] else cleft k end.
Fixpoint cright (k : ctx) : list Z :=
  match k with [] => [] | f :: k => if fdir f then cright k else faddr f :: inorder (fsib f) ++ cright k end.

Lemma inorder_plug_app k t : inorder (plug k t) = cleft k ++ inorder t ++ cright k.
Proof.
  revert t. induction k as [|[d c x s] k IH]; intros t; cbn; [by rewrite app_nil_r|].
  rewrite IH. destruct d; cbn; by rewrite <- ?app_assoc.
Qed.

Definition cdir (k : ctx) : bool := match k with [] => RB_LEFT | f :: _ => fdir f end.

(** Link a red leaf into the hole of a context. *)
Lemma link_rep s k x :
  zrep s k Leaf -> addr_ok x -> x ∉ caddrs k -> rbmem s !! x = Some RBTREE_NODE_INIT ->
  exists s', (if cptr k =? 0 then Ok (rb_set_root s x)
              else t ← rb_set_parent s x (cptr k); rb_set_child t (cptr k) (cdir k) x) = Ok s' /\
    zrep s' k (Node Red x Leaf Leaf) /\ modifies (x :: caddrs k) (rbmem s) (rbmem s').
Proof.
  intros [_ H2 H3 H4] Hx Hn E. cbn in H4.
  assert (NoDup (inorder (Node Red x Leaf Leaf) ++ caddrs k)) as Hnd by (cbn; by apply NoDup_cons).
  destruct k as [|[d c y sib] k]; cbn [cptr faddr cdir fdir].
  - cbn. eexists. split; [done|]. split; [|apply modifies_refl]. by split; cbn.
  - pose proof H2 as (Hy & Ey & Hs & Hk). cbn in Hy, Ey, Hs, Hk, Hn.
    rewrite (addr_ok_nonzero _ Hy). unfold rb_set_parent. rewrite (rb_update_Ok _ _ _ _ E), bind_Ok.
    unfold rb_set_child. erewrite rb_update_Ok by (cbn [rbmem]; rewrite lookup_insert_ne by set_solver; exact Ey).
    rewrite cell_with. eexists. split; [done|].
    assert (modifies (x :: y :: inorder sib ++ caddrs k) (rbmem s)
      (<[y := cell d (word (cptr k) c) x (ptr sib)]> (<[x := RBNode (Z.lor (Z.land (parent RBTREE_NODE_INIT) 1) y) 0 0]> (rbmem s)))) as M.
    { eapply modifies_trans_same; [eapply (modifies_insert _ _ x); [done|set_solver]|].
      eapply (modifies_insert _ _ y); [rewrite lookup_insert_ne by set_solver; exact Ey|set_solver]. }
    split; [|exact M]. apply NoDup_cons in H4 as [Hyn Hnk]. split; cbn [rbmem root ptr].
    + cbn. split; [done|]. rewrite lookup_insert_ne by set_solver. rewrite lookup_insert_eq.
      unfold word. cbn. by rewrite Z.add_0_r.
    + cbn. split; [done|]. rewrite lookup_insert_eq. split; [done|].
      split; [|apply crep_insert; [set_solver|]]; [|by apply crep_insert; set_solver].
      apply rep_insert; [set_solver|]. by apply rep_insert; set_solver.
    + done.
    + done.
Qed.

Section Insert.
Context (value : Z -> Z).

Definition sorted (L : list Z) : Prop := StronglySorted (fun a b => value a <= value b) L.

Lemma sorted_node_inv l x r :
  sorted (l ++ x :: r) -> sorted l /\ sorted r /\
  (forall y, y ∈ l -> value y <= value x) /\ (forall y, y ∈ r -> value x <= value y).
Proof.
  unfold sorted. intros H. induction l as [|z l IH]; cbn in *.
  - apply StronglySorted_inv in H as [Hr Hx]. rewrite Forall_forall in Hx.
    split; [constructor|]. split; [done|]. split; [set_solver|]. auto.
  - apply StronglySorted_inv in H as [H Hz]. rewrite Forall_forall in Hz.
    destruct (IH H) as (Hl & Hr & H1 & H2). split.
    { constructor; [done|]. apply Forall_forall. intros y Hy. apply Hz. set_solver. }
    split; [done|]. split; [|done]. intros y [-> | Hy]%elem_of_cons; [apply Hz; set_solver|auto].
Qed.

Lemma insert_descend_ok fuel : forall s k t key,
  (length (inorder t) < fuel)%nat -> zrep s k t -> sorted (inorder t) ->
  (forall y, y ∈ cleft k -> value y <= key) -> (forall y, y ∈ cright k -> key < value y) ->
  exists k', insert_descend value fuel s key (cptr k) (ptr t) (cdir k) = Ok (cptr k', cdir k') /\
    plug k' Leaf = plug k t /\
    (forall y, y ∈ cleft k' -> value y <= key) /\ (forall y, y ∈ cright k' -> key < value y).
Proof using Type.
  induction fuel as [|fuel IH]; intros s k t key Hf Z Hs Hl Hr; [lia|]. cbn [insert_descend].
  rewrite (ptr_zero _ _ _ (z_tree _ _ _ Z)). destruct t as [|c x l r]; [by exists k|].
  pose proof (focus_cell (d := false) Z) as E. unfold rb_node. cbn [ptr]. rewrite (load_Ok _ _ _ E), bind_Ok. cbn [cell left right].
  cbn in Hf, Hs. rewrite length_app in Hf. cbn in Hf. apply sorted_node_inv in Hs as (Hsl & Hsr & Hlx & Hrx).
  destruct (Z.ltb_spec key (value x)).
  - assert (zrep s (Frame false c x r :: k) l) as Zl by (by apply zrep_up).
    destruct (IH s _ l key ltac:(lia) Zl Hsl) as (k' & Ek & Ep & H'); [done| |by exists k'].
    cbn. intros y [-> | [Hy | Hy]%elem_of_app]%elem_of_cons; [done| |auto]. specialize (Hrx y Hy). lia.
  - assert (zrep s (Frame true c x l :: k) r) as Zr by (by apply zrep_up).
    destruct (IH s _ r key ltac:(lia) Zr Hsr) as (k' & Ek & Ep & H'); [|done|by exists k'].
    cbn. intros y [Hy | [Hy | ->%list_elem_of_singleton]%elem_of_app]%elem_of_app; [auto| |lia]. specialize (Hlx y Hy). lia.
Qed.

Lemma insert_ok s T x :
  zrep s [] T -> balanced T -> sorted (inorder T) -> addr_ok x -> is_Some (rbmem s !! x) -> x ∉ inorder T ->
  exists s' T' l1 l2, rbtree_insert value s x = Ok (x, s') /\ zrep s' [] T' /\ balanced T' /\
    inorder T = l1 ++ l2 /\ inorder T' = l1 ++ x :: l2 /\
    (forall y, y ∈ l1 -> value y <= value x) /\ (forall y, y ∈ l2 -> value x < value y) /\
    modifies (x :: inorder T) (rbmem s) (rbmem s').
Proof using Type.
  intros Z Hb Hs Hx [n0 Hn0] Hxn. unfold rbtree_insert. rewrite (rb_update_Ok _ _ _ _ Hn0), bind_Ok.
  set (s1 := RBTree _ _).
  assert (zrep s1 [] T) as Z1.
  { destruct Z as [H1 H2 H3 H4]. split; [|done..]. by apply rep_insert. }
  pose proof (zrep_length _ _ _ Z1) as Hlen. cbn [caddrs] in Hlen. rewrite app_nil_r in Hlen.
  pose proof (z_root _ _ _ Z1) as Er. cbn [croot] in Er. rewrite Er.
  destruct (insert_descend_ok (rb_fuel s1) s1 [] T (value x)) as (k & Ek & Ep & Hl & Hr);
    [unfold rb_fuel; lia|done|done|cbn; set_solver|cbn; set_solver|].
  change (insert_descend value (rb_fuel s1) s1 (value x) 0 (ptr T) RB_LEFT) with
    (insert_descend value (rb_fuel s1) s1 (value x) (cptr []) (ptr T) (cdir [])). rewrite Ek, bind_Ok.
  assert (zrep s1 k Leaf) as Zk by (apply zrep_plug; by rewrite Ep).
  assert (inorder T = cleft k ++ cright k) as EL.
  { cbn in Ep. rewrite <- Ep, inorder_plug_app. done. }
  assert (inorder T ≡ₚ caddrs k) as Epm by (cbn in Ep; rewrite <- Ep; apply inorder_plug_perm).
  destruct (link_rep s1 k x Zk Hx) as (s2 & -> & Z2 & M2).
  { by rewrite <- Epm. } { apply lookup_insert_eq. }
  rewrite bind_Ok. set (L := cleft k ++ x :: cright k).
  assert (L ≡ₚ x :: inorder T) as EpL by (unfold L; rewrite EL; solve_Permutation).
  assert (zr (rbmem s) L s2 k (Node Red x Leaf Leaf)) as Zr.
  { split; [done|apply inorder_plug_app|]. eapply modifies_trans_same.
    - eapply (modifies_insert _ _ x); [exact Hn0|]. rewrite EpL. set_solver.
    - eapply modifies_weaken; [exact M2|]. intros y. by rewrite EpL, Epm. }
  change T with (plug [] T) in Hb. rewrite <- Ep in Hb. apply (plug_cwf k) in Hb as (ok & n & Hk & ->).
  assert (exists s' T', rbtree_insert_fixup s2 x (cptr k) = Ok s' /\ zr (rbmem s) L s' [] T' /\ balanced T')
    as (s' & T' & -> & Z' & Hb').
  { unfold rbtree_insert_fixup. change RB_RED with (cbit Red).
    destruct (zr_color _ _ _ _ false _ _ _ _ Red Zr) as (s3 & -> & Z3). rewrite bind_Ok.
    destruct k as [|f k]; cbn [cptr].
    - cbn [Z.eqb]. pose proof (z_root _ _ _ (zr_rep _ _ _ _ _ Z3)) as Er3. cbn in Er3.
      assert (rb_set_root s3 x = s3) as -> by (destruct s3; cbn in *; by subst).
      change RB_BLACK with (cbit Black). destruct (zr_color _ _ _ _ _ _ _ _ _ Black Z3) as (s4 & -> & Z4).
      eexists _, _. split; [done|]. split; [exact Z4|]. exists 1%nat. cbn. eauto.
    - assert (addr_ok (faddr f)) as Hf by (by destruct (zr_rep _ _ _ _ _ Z3) as [_ (? & _) _ _]).
      rewrite (addr_ok_nonzero _ Hf).
      eapply (insert_fixup_ok _ _ _ _ f k); [|exact Z3|done|exact Hk|done].
      pose proof (zrep_depth _ _ _ (zr_rep _ _ _ _ _ Z3)) as Hd. cbn in Hd. unfold rb_fuel. lia. }
  rewrite bind_Ok. exists s', T', (cleft k), (cright k). split; [done|].
  destruct Z' as [Z' EL' M']. split; [done|]. split; [done|]. split; [done|]. split; [done|].
  split; [done|]. split; [done|]. eapply modifies_weaken; [exact M'|]. intros y. by rewrite EpL.
Qed.
End Insert.

(** ** Removal: the fix-up *)
Definition root_red (t : tree) : bool := match t with Node Red _ _ _ => true | _ => false end.

Lemma is_red_sub s k t : zrep s k t -> is_red s (ptr t) = Ok (root_red t).
Proof.
  intros Z. unfold is_red. rewrite (ptr_zero _ _ _ (z_tree _ _ _ Z)). destruct t as [|c x l r]; [done|].
  cbn [negb ptr]. rewrite (get_color_focus (d := false) Z), bind_Ok. by destruct c.
Qed.

Lemma wf_black ok t n : wf ok t n -> root_red t = false -> wf false t n.
Proof. destruct t as [|[] x l r]; cbn; done. Qed.

Lemma black_wf t n : wf false t n -> root_red t = false.
Proof. destruct t as [|[] x l r]; cbn; [done|naive_solver|done]. Qed.

Lemma red_mk ok t n d : wf ok t n -> root_red t = true -> exists x a b, t = mk d Red x a b /\ wf false a n /\ wf false b n.
Proof. destruct t as [|[] x l r]; cbn; try done. intros (_ & Hl & Hr) _. exists x. destruct d; [by exists r, l|by exists l, r]. Qed.

Lemma black_mk ok t n d :
  wf ok t (S n) -> root_red t = false -> exists x a b, t = mk d Black x a b /\ wf true a n /\ wf true b n.
Proof.
  destruct t as [|[] x l r]; cbn; try done. intros (m & [= <-] & Hl & Hr) _.
  exists x. destruct d; [by exists r, l|by exists l, r].
Qed.

(** The part of the loop after the sibling is known to be black; [rec] is the
    next turn. *)
Definition black_sibling (rec : rbtree -> Z -> bool -> res rbtree) (t : rbtree) (par sibling : Z) (dir : bool) : res rbtree :=
  distant_nephew ← rb_child t sibling (negb dir);
  close_nephew ← rb_child t sibling dir;
  dr ← is_red t distant_nephew;
  if (dr : bool) then
    '(_, t) ← rbtree_rotate_subtree t par dir;
    pc ← rb_get_color t par;
    t ← rb_set_color t sibling pc;
    t ← rb_set_color t distant_nephew RB_BLACK;
    rb_set_color t par RB_BLACK
  else
    cr ← is_red t close_nephew;
    if (cr : bool) then
      '(_, t) ← rbtree_rotate_subtree t sibling (negb dir);
      '(_, t) ← rbtree_rotate_subtree t par dir;
      pc ← rb_get_color t par;
      t ← rb_set_color t close_nephew pc;
      rb_set_color t par RB_BLACK
    else
      t ← rb_set_color t sibling RB_RED;
      pc ← rb_get_color t par;
      if pc =? RB_RED then rb_set_color t par RB_BLACK
      else
        let node := par in
        par ← rb_get_parent t par;
        if negb (par =? 0) then
          r ← rb_child t par RB_RIGHT;
          rec t par (r =? node)
        else Ok t.

Lemma remove_fixup_eq fuel t par dir :
  remove_fixup_loop (S fuel) t par dir =
  (sibling ← rb_child t par (negb dir);
   sc ← rb_get_color t sibling;
   '(sibling, t) ← (if sc =? RB_RED then
       t ← rb_set_color t par RB_RED;
       t ← rb_set_color t sibling RB_BLACK;
       sibling ← rb_child t sibling dir;
       '(_, t) ← rbtree_rotate_subtree t par dir;
       Ok (sibling, t)
     else Ok (sibling, t));
   black_sibling (remove_fixup_loop fuel) t par sibling dir).
Proof. reflexivity. Qed.

(** What the fix-up promises: a balanced tree with the same nodes in order. *)
Definition rebalanced (m0 : rbnodes) (L : list Z) (r : res rbtree) : Prop :=
  exists s' T, r = Ok s' /\ zr m0 L s' [] T /\ balanced T.

Lemma rebalanced_plug m0 L s k t ok n : zr m0 L s k t -> cwf k ok n -> wf ok t n -> rebalanced m0 L (Ok s).
Proof.
  intros Z Hk Ht. eexists _, _. split; [done|]. split; [by apply zr_whole|]. by eapply cwf_plug.
Qed.

Section BlackSibling.
Context (m0 : rbnodes) (L : list Z) (rec : rbtree -> Z -> bool -> res rbtree).
Context (k : ctx) (n : nat) (cp : color).
(** The next turn repairs a subtree [k] is a context of. *)
Hypothesis rec_ok : cp = Black -> forall f k' s t, k = f :: k' -> t <> Leaf -> zr m0 L s k t -> wf false t (S n) ->
  (exists ok, cwf k ok (S (S n))) -> rebalanced m0 L (rec s (faddr f) (fdir f)).

Lemma black_sibling_ok s d p t sb b e ok :
  zr m0 L s k (mk d cp p t (mk d Black sb b e)) ->
  cwf (Frame d cp p (mk d Black sb b e) :: k) ok (S n) ->
  wf false t n -> wf true b n -> wf true e n ->
  rebalanced m0 L (black_sibling rec s p sb d).
Proof using rec_ok.
  intros Zr Hk Ht Hb He. unfold black_sibling.
  assert (exists okk nn, cwf k okk nn /\
    (forall y u w, wf false u (S n) -> wf false w (S n) -> wf okk (mk d cp y u w) nn)) as (okk & nn & Hkk & Hroot).
  { cbn [cwf fcol fsib] in Hk. destruct cp.
    - destruct Hk as (_ & _ & Hk). exists true, (S n). split; [done|]. intros. by apply wf_mk.
    - destruct Hk as (_ & _ & okk & Hk). exists okk, (S (S n)). split; [done|]. intros. apply wf_mk.
      exists (S n). auto using wf_mono. }
  pose proof (zr_down_other _ _ _ _ _ _ _ _ _ Zr) as Zs. pose proof (zr_rep _ _ _ _ _ Zs) as Rs.
  rewrite (child_other_focus Rs), bind_Ok, (child_focus Rs), bind_Ok.
  pose proof (zr_down_other _ _ _ _ _ _ _ _ _ Zs) as Ze. pose proof (zr_down _ _ _ _ _ _ _ _ _ Zs) as Zb.
  rewrite (is_red_sub _ _ _ (zr_rep _ _ _ _ _ Ze)), bind_Ok.
  destruct (root_red e) eqn:Ere.
  - (* case 6 *)
    destruct (red_mk _ _ _ d He Ere) as (dn & e1 & e2 & -> & He1 & He2). rewrite ptr_mk.
    destruct (zr_rotate _ _ _ _ _ _ _ _ _ _ _ _ Zr) as (s1 & -> & Z1). rewrite bind_Ok.
    rewrite (get_color_focus (zr_rep _ _ _ _ _ (zr_down _ _ _ _ _ _ _ _ _ Z1))), bind_Ok.
    destruct (zr_color _ _ _ _ _ _ _ _ _ cp Z1) as (s2 & -> & Z2). rewrite bind_Ok.
    apply zr_down_other in Z2. change RB_BLACK with (cbit Black).
    destruct (zr_color _ _ _ _ _ _ _ _ _ Black Z2) as (s3 & -> & Z3). rewrite bind_Ok.
    apply zr_fold in Z3. rewrite mk_negb in Z3. apply zr_down in Z3.
    destruct (zr_color _ _ _ _ _ _ _ _ _ Black Z3) as (s4 & -> & Z4). apply zr_fold in Z4.
    eapply rebalanced_plug; [exact Z4|exact Hkk|]. apply Hroot; apply wf_mk; exists n; auto using wf_mono.
  - rewrite (is_red_sub _ _ _ (zr_rep _ _ _ _ _ Zb)), bind_Ok. apply (wf_black _ _ _ He) in Ere as He'.
    destruct (root_red b) eqn:Erb.
    + (* case 5 *)
      destruct (red_mk _ _ _ d Hb Erb) as (cn & b1 & b2 & -> & Hb1 & Hb2). rewrite ptr_mk.
      rewrite <- (mk_negb d Black sb), <- (mk_negb d Red cn) in Zs.
      destruct (zr_rotate _ _ _ _ _ _ _ _ _ _ _ _ Zs) as (s1 & -> & Z1). rewrite bind_Ok.
      apply zr_fold in Z1. rewrite !mk_negb in Z1.
      destruct (zr_rotate _ _ _ _ _ _ _ _ _ _ _ _ Z1) as (s2 & -> & Z2). rewrite bind_Ok.
      rewrite (get_color_focus (zr_rep _ _ _ _ _ (zr_down _ _ _ _ _ _ _ _ _ Z2))), bind_Ok.
      destruct (zr_color _ _ _ _ _ _ _ _ _ cp Z2) as (s3 & -> & Z3). rewrite bind_Ok.
      apply zr_down in Z3. change RB_BLACK with (cbit Black).
      destruct (zr_color _ _ _ _ _ _ _ _ _ Black Z3) as (s4 & -> & Z4). apply zr_fold in Z4.
      eapply rebalanced_plug; [exact Z4|exact Hkk|]. apply Hroot; apply wf_mk; exists n; auto using wf_mono.
    + (* cases 4 and 2 *)
      apply (wf_black _ _ _ Hb) in Erb as Hb'. change RB_RED with (cbit Red).
      destruct (zr_color _ _ _ _ _ _ _ _ _ Red Zs) as (s1 & -> & Z1). rewrite bind_Ok.
      apply zr_fold in Z1. rewrite mk_negb in Z1. rewrite (get_color_focus (zr_rep _ _ _ _ _ Z1)), bind_Ok.
      assert (wf true (mk d Red sb b e) n) as Hsb by (by apply wf_mk).
      destruct cp; cbn [cbit Z.eqb].
      * change RB_BLACK with (cbit Black). destruct (zr_color _ _ _ _ _ _ _ _ _ Black Z1) as (s2 & -> & Z2).
        cbn in Hk. eapply rebalanced_plug; [exact Z2|by apply Hk|]. apply wf_mk. exists n. auto using wf_mono.
      * rewrite (get_parent_focus (zr_rep _ _ _ _ _ Z1)), bind_Ok.
        assert (wf false (mk d Black p t (mk d Red sb b e)) (S n)) as Hnew.
        { apply wf_mk. exists n. auto using wf_mono. }
        cbn in Hk. destruct Hk as (_ & _ & ok' & Hk).
        destruct k as [|[d' c' x' s'] k'] eqn:Ek; cbn [cptr faddr].
        { cbn. exists s1, (mk d Black p t (mk d Red sb b e)). split; [done|]. split; [done|]. by exists (S n). }
        rewrite (addr_ok_nonzero x'). 2:{ apply zr_fold in Z1. by apply (focus_addr (zr_rep _ _ _ _ _ Z1)). }
        cbn [negb]. destruct (direction_focus s1 d' c' x' s' k' (mk d Black p t (mk d Red sb b e))) as (r & -> & _ & Er).
        { by destruct d. } { apply Z1. }
        rewrite bind_Ok. rewrite ptr_mk in Er. rewrite Er.
        eapply (rec_ok ltac:(done) (Frame d' c' x' s') k'); [done| |exact Z1|done|by exists ok']. by destruct d.
Qed.
End BlackSibling.

Lemma remove_fixup_ok fuel : forall m0 L s f k t n ok,
  (length k < fuel)%nat -> zr m0 L s (f :: k) t -> cwf (f :: k) ok (S n) -> wf false t n ->
  rebalanced m0 L (remove_fixup_loop fuel s (faddr f) (fdir f)).
Proof.
  induction fuel as [|fuel IH]; intros m0 L s [d cp p sib] k t n ok Hlen Zr Hk Ht; [lia|].
  rewrite remove_fixup_eq. cbn [faddr fdir]. apply zr_fold in Zr.
  pose proof (zr_down_other _ _ _ _ _ _ _ _ _ Zr) as Zs.
  rewrite (child_other_focus (zr_rep _ _ _ _ _ Zr)), bind_Ok.
  assert (wf true sib (S n)) as Hsib.
  { cbn in Hk. destruct cp; destruct Hk as (_ & ? & _); auto using wf_mono. }
  destruct (root_red sib) eqn:Er.
  - (* case 3 *)
    assert (cp = Black) as ->.
    { cbn in Hk. destruct cp; [|done]. destruct Hk as (_ & Hk & _). apply black_wf in Hk. congruence. }
    destruct (red_mk _ _ _ d Hsib Er) as (sb & b & e & -> & Hb & He). rewrite ptr_mk.
    rewrite (get_color_focus (zr_rep _ _ _ _ _ Zs)), bind_Ok. cbn [cbit Z.eqb]. change (0 =? RB_RED) with true. cbv iota.
    change RB_BLACK with (cbit Black). change RB_RED with (cbit Red).
    destruct (zr_color _ _ _ _ _ _ _ _ _ Red Zr) as (s1 & -> & Z1). rewrite bind_Ok.
    apply zr_down_other in Z1. destruct (zr_color _ _ _ _ _ _ _ _ _ Black Z1) as (s2 & -> & Z2). rewrite bind_Ok.
    rewrite (child_focus (zr_rep _ _ _ _ _ Z2)), bind_Ok. apply zr_fold in Z2. rewrite mk_negb in Z2.
    destruct (zr_rotate _ _ _ _ _ _ _ _ _ _ _ _ Z2) as (s3 & -> & Z3). rewrite !bind_Ok.
    apply zr_down in Z3. cbn in Hk. destruct Hk as (_ & _ & ok' & Hk).
    destruct (black_mk _ _ _ d Hb (black_wf _ _ Hb)) as (sb' & b1 & b2 & -> & Hb1 & Hb2).
    rewrite ptr_mk. eapply (black_sibling_ok m0 L _ (Frame d Black sb e :: k) n Red); [done|exact Z3| |done|done|done].
    cbn. split; [done|]. split; [by apply wf_mk; exists n|]. split; [done|]. split; [by apply wf_mono|]. eauto.
  - destruct (black_mk _ _ _ d Hsib Er) as (sb & b & e & -> & Hb & He). rewrite ptr_mk.
    rewrite (get_color_focus (zr_rep _ _ _ _ _ Zs)), bind_Ok. change (cbit Black =? RB_RED) with false. cbv iota.
    rewrite bind_Ok. eapply (black_sibling_ok m0 L _ k n cp); [|exact Zr|exact Hk|done|done|done].
    intros _ f' k'' s' t' -> _ Z' Ht' [ok' Hk']. eapply IH; [|exact Z'|exact Hk'|exact Ht']. cbn in Hlen. lia.
Qed.
