(* ===== verification/RBTreeRemove.v ===== *)
(** * Removal from the red-black tree

    The walk to the end of a subtree, the exchange of a node with its
    successor, and unlinking a node with at most one child. *)

From stdpp Require Import sorting.
From S2P Require Import Prelude RBTree RBTreeRep RBTreeSpec.
#[local] Open Scope Z_scope.

(** ** Minimum and maximum *)
Lemma plug_app k1 k2 t : plug (k1 ++ k2) t = plug k2 (plug k1 t).
Proof. revert t. induction k1 as [|f k1 IH]; intros t; cbn; [done|]. apply IH. Qed.

(** The last node on side [d] of a subtree, and the path to it. *)
Lemma end_loop_ok fuel : forall s k t d,
  (length (inorder t) <= fuel)%nat -> zrep s k t -> t <> Leaf ->
  exists sp c y a, t = plug sp (mk d c y Leaf a) /\ Forall (fun f => fdir f = d) sp /\
    rb_end_loop fuel s d (ptr t) = Ok y.
Proof.
  induction fuel as [|fuel IH]; intros s k t d Hf Z Ht.
  { destruct t as [|c x l r]; [done|]. cbn in Hf. rewrite length_app in Hf. cbn in Hf. lia. }
  assert (exists c x a b, t = mk d c x a b) as (c & x & a & b & ->).
  { destruct t as [|c x l r]; [done|]. destruct d; [by exists c, x, r, l|by exists c, x, l, r]. }
  cbn [rb_end_loop]. rewrite ptr_mk, (child_focus Z), bind_Ok.
  assert (zrep s (Frame d c x b :: k) a) as Za by (by apply (proj2 (zrep_up _ _ _ _ _ _ _))).
  rewrite (ptr_zero _ _ _ (z_tree _ _ _ Za)). destruct a as [|ca xa la ra]; cbn [negb].
  - exists [], c, x, b. split; [done|]. split; [constructor|done].
  - rewrite (Permutation_length (inorder_mk _ _ _ _ _)) in Hf. cbn [length] in Hf. rewrite length_app in Hf.
    destruct (IH s (Frame d c x b :: k) (Node ca xa la ra) d ltac:(lia) Za) as (sp & c' & y & a' & E & Hsp & Ey); [done|].
    exists (sp ++ [Frame d c x b]), c', y, a'. split; [|split; [apply Forall_app; by repeat constructor|done]].
    by rewrite plug_app, <- E.
Qed.

Lemma minimum_ok s k t :
  zrep s k t -> t <> Leaf ->
  exists sp c y a, t = plug sp (Node c y Leaf a) /\ Forall (fun f => fdir f = false) sp /\
    rbtree_minimum s (ptr t) = Ok y.
Proof.
  intros Z Ht. unfold rbtree_minimum. rewrite (ptr_zero _ _ _ (z_tree _ _ _ Z)). destruct t as [|c x l r] eqn:E; [done|].
  rewrite <- E in *. apply (end_loop_ok _ s k t false); [|done|done].
  pose proof (zrep_length _ _ _ Z) as Hl. rewrite length_app in Hl. unfold rb_fuel. lia.
Qed.

Lemma maximum_ok s k t :
  zrep s k t -> t <> Leaf ->
  exists sp c y a, t = plug sp (Node c y a Leaf) /\ Forall (fun f => fdir f = true) sp /\
    rbtree_maximum s (ptr t) = Ok y.
Proof.
  intros Z Ht. unfold rbtree_maximum. rewrite (ptr_zero _ _ _ (z_tree _ _ _ Z)). destruct t as [|c x l r] eqn:E; [done|].
  rewrite <- E in *. apply (end_loop_ok _ s k t true); [|done|done].
  pose proof (zrep_length _ _ _ Z) as Hl. rewrite length_app in Hl. unfold rb_fuel. lia.
Qed.

(** ** Paths that end below a node: [base] is the parent of the outermost frame *)
Definition sptr (sp : ctx) (base : Z) : Z := match sp with [] => base | f :: _ => faddr f end.

Fixpoint sprep (m : rbnodes) (sp : ctx) (base hole : Z) : Prop :=
  match sp with
  | [] => True
  | f :: sp' =>
      addr_ok (faddr f) /\
      m !! faddr f = Some (cell (fdir f) (word (sptr sp' base) (fcol f)) hole (ptr (fsib f))) /\
      rep m (fsib f) (faddr f) /\ sprep m sp' base (faddr f)
  end.

Lemma cptr_app sp k : cptr (sp ++ k) = sptr sp (cptr k).
Proof. by destruct sp. Qed.

Lemma crep_app m sp k hole : crep m (sp ++ k) hole <-> sprep m sp (cptr k) hole /\ crep m k (croot sp hole).
Proof.
  revert hole. induction sp as [|f sp IH]; intros hole; cbn; [tauto|].
  rewrite cptr_app, IH. tauto.
Qed.

Lemma croot_app sp k hole : croot (sp ++ k) hole = croot k (croot sp hole).
Proof. revert hole. induction sp as [|f sp IH]; intros hole; cbn; auto. Qed.

Lemma caddrs_app sp k : caddrs (sp ++ k) = caddrs sp ++ caddrs k.
Proof. induction sp as [|f sp IH]; cbn; [done|]. by rewrite IH, <- app_assoc. Qed.

Lemma sprep_frame m m' sp base hole : (forall x, x ∈ caddrs sp -> m' !! x = m !! x) -> sprep m sp base hole -> sprep m' sp base hole.
Proof.
  revert hole. induction sp as [|[d c x s] k IH]; intros hole H; cbn in *; [done|].
  intros (Hx & E & Hs & Hk). split; [done|]. split; [rewrite H; [done|set_solver]|].
  split; [eapply rep_frame; [|done]|apply IH; [|done]]; intros; apply H; set_solver.
Qed.

Lemma sprep_insert m sp base hole x n : x ∉ caddrs sp -> sprep m sp base hole -> sprep (<[x := n]> m) sp base hole.
Proof. intros Hx. apply sprep_frame. intros y Hy. apply lookup_insert_ne. set_solver. Qed.

Lemma sprep_modifies S m m' sp base hole :
  modifies S m m' -> (forall x, x ∈ S -> x ∉ caddrs sp) -> sprep m sp base hole -> sprep m' sp base hole.
Proof. intros [_ H] HS. apply sprep_frame. intros x Hx. apply H. intros Hin. by apply (HS x). Qed.

Lemma croot_in sp hole : sp <> [] -> croot sp hole ∈ caddrs sp.
Proof.
  revert hole. induction sp as [|f sp IH]; [done|]. intros hole _. cbn.
  destruct sp as [|f' sp]; [cbn; set_solver|]. pose proof (IH (faddr f) ltac:(done)). set_solver.
Qed.

(** Another parent for the outermost node of the path. *)
Lemma sprep_rebase m sp base base' hole :
  sp <> [] -> base mod 2 = 0 -> base' mod 2 = 0 -> NoDup (caddrs sp) -> sprep m sp base hole ->
  exists n, m !! croot sp hole = Some n /\
    sprep (<[croot sp hole := RBNode (Z.lor (Z.land (parent n) 1) base') (left n) (right n)]> m) sp base' hole.
Proof.
  intros Hsp Hb Hb'. revert hole. induction sp as [|[d c x s] sp IH]; [done|]. intros hole Hnd (Hx & E & Hs & H).
  cbn in *. apply NoDup_cons in Hnd as [Hxn Hnd]. apply NoDup_app in Hnd as (_ & Hd & Hnd).
  destruct sp as [|f sp].
  - cbn in *. rewrite E. eexists. split; [done|]. split; [done|]. rewrite lookup_insert_eq, cell_parent, set_parent_word by done.
    split; [by destruct d|]. split; [apply rep_insert; set_solver|done].
  - destruct (IH ltac:(done) x Hnd H) as (n & En & H'). pose proof (croot_in (f :: sp) x ltac:(done)) as Hin.
    exists n. split; [done|]. split; [done|]. rewrite lookup_insert_ne by set_solver. split; [done|].
    split; [apply rep_insert; [set_solver|done]|done].
Qed.

(** Another child at the inner end of the path. *)
Lemma sprep_rehole m f sp base hole hole' :
  NoDup (caddrs (f :: sp)) -> sprep m (f :: sp) base hole ->
  exists n, m !! faddr f = Some n /\ sprep (<[faddr f := with_child n (fdir f) hole']> m) (f :: sp) base hole'.
Proof.
  intros Hnd (Hx & E & Hs & H). cbn in *. rewrite E. eexists. split; [done|].
  apply NoDup_cons in Hnd as [Hxn _]. split; [done|]. rewrite lookup_insert_eq, cell_with. split; [done|].
  split; [apply rep_insert|apply sprep_insert]; set_solver.
Qed.

(** ** Exchanging a node with its successor

    While the words are rewritten, the memory is a set of separate pieces: the
    two nodes, the left subtree [l] of the node, the right subtree [sr] of the
    successor, the path [sp] between them and the context [k]. *)
Section Swap.
Context (m0 : rbnodes) (k sp : ctx) (l sr : tree) (x y : Z).
Hypothesis (Hx : addr_ok x) (Hy : addr_ok y) (Hl : l <> Leaf).
Hypothesis Hnd : NoDup (x :: y :: inorder l ++ inorder sr ++ caddrs sp ++ caddrs k).

Record pieces (s : rbtree) (nx ny : rbtree_node) (lp srp base hole kh : Z) : Prop := {
  pc_x : rbmem s !! x = Some nx;
  pc_y : rbmem s !! y = Some ny;
  pc_l : rep (rbmem s) l lp;
  pc_sr : rep (rbmem s) sr srp;
  pc_sp : sprep (rbmem s) sp base hole;
  pc_k : crep (rbmem s) k kh;
  pc_root : root s = croot k kh;
  pc_mod : modifies (x :: y :: inorder l ++ inorder sr ++ caddrs sp ++ caddrs k) m0 (rbmem s);
}.

(** Where an address is, it is only there. *)
Definition apart (z : Z) : Prop :=
  (z ∈ inorder l -> (z ∉ inorder sr) /\ (z ∉ caddrs sp) /\ (z ∉ caddrs k)) /\
  (z ∈ inorder sr -> (z ∉ caddrs sp) /\ (z ∉ caddrs k)) /\
  (z ∈ caddrs sp -> z ∉ caddrs k) /\
  (z ∈ x :: [y] -> (z ∉ inorder l) /\ (z ∉ inorder sr) /\ (z ∉ caddrs sp) /\ (z ∉ caddrs k)).

Lemma all_apart : (forall z, apart z) /\ x <> y /\
  NoDup (inorder l) /\ NoDup (inorder sr) /\ NoDup (caddrs sp) /\ NoDup (caddrs k).
Proof using Hx Hy Hl Hnd.
  apply NoDup_cons in Hnd as [Hxn H]. apply NoDup_cons in H as [Hyn H].
  apply NoDup_app in H as (H1 & Hd1 & H). apply NoDup_app in H as (H2 & Hd2 & H). apply NoDup_app in H as (H3 & Hd3 & H4).
  rewrite !elem_of_cons, !elem_of_app in Hxn. rewrite !elem_of_app in Hyn.
  split; [|by intuition].
  intros z. unfold apart. specialize (Hd1 z). specialize (Hd2 z). specialize (Hd3 z). rewrite !elem_of_app in Hd1. rewrite !elem_of_app in Hd2.
  rewrite elem_of_cons, list_elem_of_singleton.
  split; [tauto|]. split; [tauto|]. split; [tauto|]. intros [-> | ->]; tauto.
Qed.

(** Change one cell, and one piece. *)
Lemma pieces_x s nx ny lp srp base hole kh f :
  pieces s nx ny lp srp base hole kh ->
  exists s', rb_update s x f = Ok s' /\ pieces s' (f nx) ny lp srp base hole kh.
Proof using Hx Hy Hl Hnd.
  intros [H1 H2 H3 H4 H5 H6 H7 H8]. destruct all_apart as (Ha & Hne & _). destruct (Ha x) as (_ & _ & _ & Hxa).
  destruct Hxa as (Hxl & Hxr & Hxs & Hxk); [set_solver|].
  rewrite (rb_update_Ok _ _ _ _ H1). eexists. split; [done|]. split; cbn [rbmem root].
  - apply lookup_insert_eq.
  - by rewrite lookup_insert_ne.
  - by apply rep_insert.
  - by apply rep_insert.
  - by apply sprep_insert.
  - by apply crep_insert.
  - done.
  - eapply modifies_trans_same; [done|]. eapply modifies_insert; [done|set_solver].
Qed.

Lemma pieces_y s nx ny lp srp base hole kh f :
  pieces s nx ny lp srp base hole kh ->
  exists s', rb_update s y f = Ok s' /\ pieces s' nx (f ny) lp srp base hole kh.
Proof using Hx Hy Hl Hnd.
  intros [H1 H2 H3 H4 H5 H6 H7 H8]. destruct all_apart as (Ha & Hne & _). destruct (Ha y) as (_ & _ & _ & Hxa).
  destruct Hxa as (Hxl & Hxr & Hxs & Hxk); [set_solver|].
  rewrite (rb_update_Ok _ _ _ _ H2). eexists. split; [done|]. split; cbn [rbmem root].
  - by rewrite lookup_insert_ne by auto.
  - apply lookup_insert_eq.
  - by apply rep_insert.
  - by apply rep_insert.
  - by apply sprep_insert.
  - by apply crep_insert.
  - done.
  - eapply modifies_trans_same; [done|]. eapply modifies_insert; [done|set_solver].
Qed.

Lemma pieces_l s nx ny lp srp base hole kh q :
  lp mod 2 = 0 -> q mod 2 = 0 -> pieces s nx ny lp srp base hole kh ->
  exists s', rb_set_parent s (ptr l) q = Ok s' /\ pieces s' nx ny q srp base hole kh.
Proof using Hx Hy Hl Hnd.
  intros Hp Hq [H1 H2 H3 H4 H5 H6 H7 H8]. destruct all_apart as (Ha & Hne & Hnl & _).
  pose proof (ptr_in _ Hl) as Hin. destruct (Ha (ptr l)) as (Hla & _ & _ & Hxy). destruct (Hla Hin) as (Hr & Hs & Hk).
  destruct (set_parent_sub s l lp q) as (n & -> & Hl'); [done..|]. eexists. split; [done|]. split; cbn [rbmem root].
  - rewrite lookup_insert_ne; [done|]. intros E. by destruct Hxy as (? & _); [rewrite <- E; set_solver|].
  - rewrite lookup_insert_ne; [done|]. intros E. by destruct Hxy as (? & _); [rewrite <- E; set_solver|].
  - done.
  - by apply rep_insert.
  - by apply sprep_insert.
  - by apply crep_insert.
  - done.
  - eapply modifies_trans_same; [done|]. destruct (rep_mapped _ _ _ _ H3 Hin) as [[n' En] _].
    eapply modifies_insert; [exact En|]. rewrite !elem_of_cons, !elem_of_app. tauto.
Qed.

(** Frame a piece over a change inside another one. *)
Lemma pieces_sr s nx ny lp srp base hole kh q :
  srp mod 2 = 0 -> q mod 2 = 0 -> pieces s nx ny lp srp base hole kh ->
  exists s', (if negb (ptr sr =? 0) then rb_set_parent s (ptr sr) q else Ok s) = Ok s' /\
             pieces s' nx ny lp q base hole kh.
Proof using Hx Hy Hl Hnd.
  intros Hp Hq [H1 H2 H3 H4 H5 H6 H7 H8]. destruct all_apart as (Ha & Hne & _ & Hnr & _).
  destruct (reparent_rep s sr srp q) as (s' & -> & Hr' & Hroot & M); [done..|]. exists s'. split; [done|].
  pose proof M as [_ Lk]. split.
  - rewrite Lk; [done|]. apply (proj2 (proj2 (proj2 (Ha x)))). set_solver.
  - rewrite Lk; [done|]. apply (proj2 (proj2 (proj2 (Ha y)))). set_solver.
  - eapply rep_modifies; [exact M| |done]. intros z Hz Hz'. by apply (proj1 (Ha z)) in Hz' as (? & _).
  - done.
  - eapply sprep_modifies; [exact M| |done]. intros z Hz. by apply (proj1 (proj2 (Ha z))).
  - eapply crep_modifies; [exact M| |done]. intros z Hz. by apply (proj1 (proj2 (Ha z))).
  - by rewrite Hroot.
  - eapply modifies_trans_same; [done|]. eapply modifies_weaken; [exact M|]. intros z. rewrite !elem_of_cons, !elem_of_app. tauto.
Qed.

Lemma pieces_rehang s nx ny lp srp base hole kh new :
  0 < kh -> kh ∉ caddrs k -> pieces s nx ny lp srp base hole kh ->
  exists s', rehang s (cptr k) kh new = Ok s' /\ pieces s' nx ny lp srp base hole new.
Proof using Hx Hy Hl Hnd.
  intros Hk0 Hkh [H1 H2 H3 H4 H5 H6 H7 H8]. destruct all_apart as (Ha & Hne & _ & _ & _ & Hnk).
  destruct (rehang_rep s k kh new) as (s' & -> & Hr' & Hroot & M); [done..|]. exists s'. split; [done|].
  pose proof M as [_ Lk]. split.
  - rewrite Lk; [done|]. apply (proj2 (proj2 (proj2 (Ha x)))). set_solver.
  - rewrite Lk; [done|]. apply (proj2 (proj2 (proj2 (Ha y)))). set_solver.
  - eapply rep_modifies; [exact M| |done]. intros z Hz Hz'. by apply (proj1 (Ha z)) in Hz' as (_ & _ & ?).
  - eapply rep_modifies; [exact M| |done]. intros z Hz Hz'. by apply (proj1 (proj2 (Ha z))) in Hz' as (_ & ?).
  - eapply sprep_modifies; [exact M| |done]. intros z Hz Hz'. by apply (proj1 (proj2 (proj2 (Ha z)))) in Hz'.
  - done.
  - done.
  - eapply modifies_trans_same; [done|]. eapply modifies_weaken; [exact M|]. intros z. rewrite !elem_of_cons, !elem_of_app. tauto.
Qed.

(** A write inside the path. *)
Lemma pieces_path s nx ny lp srp base hole kh base' hole' z n n' :
  pieces s nx ny lp srp base hole kh -> z ∈ caddrs sp -> rbmem s !! z = Some n ->
  sprep (<[z := n']> (rbmem s)) sp base' hole' ->
  pieces (RBTree (root s) (<[z := n']> (rbmem s))) nx ny lp srp base' hole' kh.
Proof using Hx Hy Hl Hnd.
  intros [H1 H2 H3 H4 H5 H6 H7 H8] Hz En Hsp. destruct all_apart as (Ha & _). split; cbn [rbmem root].
  - rewrite lookup_insert_ne; [done|]. intros ->. revert Hz. apply (proj2 (proj2 (proj2 (Ha x)))). set_solver.
  - rewrite lookup_insert_ne; [done|]. intros ->. revert Hz. apply (proj2 (proj2 (proj2 (Ha y)))). set_solver.
  - apply rep_insert; [|done]. intros Hz'. by apply (proj1 (Ha z)) in Hz' as (_ & ? & _).
  - apply rep_insert; [|done]. intros Hz'. by apply (proj1 (proj2 (Ha z))) in Hz' as (? & _).
  - done.
  - apply crep_insert; [|done]. by apply (proj1 (proj2 (proj2 (Ha z)))).
  - done.
  - eapply modifies_trans_same; [done|]. eapply modifies_insert; [exact En|]. rewrite !elem_of_cons, !elem_of_app. tauto.
Qed.
End Swap.

Lemma ptr_plug k t : ptr (plug k t) = croot k (ptr t).
Proof.
  revert t. induction k as [|[d c x sib] k IH]; intros t; cbn; [done|]. by rewrite IH, ptr_mk.
Qed.

Lemma caddrs_perm k z : z ∈ caddrs k <-> z ∈ cleft k ++ cright k.
Proof.
  rewrite <- (app_nil_l (cright k)). change [] with (inorder Leaf). rewrite <- inorder_plug_app, inorder_plug_perm. done.
Qed.

(** Between the nodes: the path now hangs below [y] and ends at [x]. *)
Lemma swap_path m0 k sp l sr x y s c c' P :
  addr_ok x -> addr_ok y -> l <> Leaf -> NoDup (x :: y :: inorder l ++ inorder sr ++ caddrs sp ++ caddrs k) ->
  Forall (fun f => fdir f = false) sp -> P mod 2 = 0 ->
  pieces m0 k sp l sr x y s (RBNode (word P c) (ptr l) (croot sp y)) (RBNode (word P c') (ptr l) (ptr sr)) y y x y y ->
  exists s', (if sptr sp x =? x then
         t ← rb_set_child s y RB_RIGHT x;
         rb_set_parent t x y
       else
         nr ← rb_child s x RB_RIGHT;
         t ← rb_set_child s y RB_RIGHT nr;
         sr ← rb_child t y RB_RIGHT;
         t ← rb_set_parent t sr y;
         t ← rb_set_child t (sptr sp x) RB_LEFT x;
         rb_set_parent t x (sptr sp x)) = Ok s' /\
    exists rp, pieces m0 k sp l sr x y s' (RBNode (word (sptr sp y) c) (ptr l) rp) (RBNode (word P c') (ptr l) (croot sp x)) y y y x y.
Proof.
  intros Hx Hy Hl Hnd Hleft HP Hp. destruct (all_apart _ _ _ _ _ _ Hx Hy Hl Hnd) as (Ha & Hne & _ & _ & Hns & _).
  pose proof (proj2 Hx) as Hx2. pose proof (proj2 Hy) as Hy2. unfold rb_set_child, rb_set_parent, rb_child, rb_node.
  change RB_RIGHT with true. change RB_LEFT with false. destruct sp as [|f sp]; cbn [sptr].
  - rewrite Z.eqb_refl.
    destruct (pieces_y _ _ _ _ _ _ _ Hx Hy Hl Hnd _ _ _ _ _ _ _ _ (fun n => with_child n true x) Hp) as (s1 & -> & H1). rewrite bind_Ok.
    destruct (pieces_x _ _ _ _ _ _ _ Hx Hy Hl Hnd _ _ _ _ _ _ _ _ (fun n => RBNode (Z.lor (Z.land (parent n) 1) y) (left n) (right n)) H1)
      as (s2 & -> & H2).
    exists s2. split; [done|]. cbn [parent left right with_child croot RB_RIGHT] in *. rewrite set_parent_word in H2 by done.
    eexists. destruct H2. split; eassumption || done.
  - assert ((faddr f =? x) = false) as ->.
    { apply Z.eqb_neq. intros <-. destruct (Ha (faddr f)) as (_ & _ & _ & Hxa). destruct Hxa as (_ & _ & Hxs & _); [set_solver|]. apply Hxs. cbn. set_solver. }
    assert (faddr f ∈ caddrs (f :: sp)) as Hfin by (cbn; set_solver).
    rewrite (load_Ok _ _ _ (pc_x _ _ _ _ _ _ _ _ _ _ _ _ _ _ _ Hp)), !bind_Ok. cbn [children right].
    destruct (pieces_y _ _ _ _ _ _ _ Hx Hy Hl Hnd _ _ _ _ _ _ _ _ (fun n => with_child n true (croot (f :: sp) y)) Hp) as (s1 & -> & H1). rewrite bind_Ok.
    rewrite (load_Ok _ _ _ (pc_y _ _ _ _ _ _ _ _ _ _ _ _ _ _ _ H1)), !bind_Ok. cbn [children with_child right parent left] in *.
    destruct (sprep_rebase (rbmem s1) (f :: sp) x y y ltac:(done) Hx2 Hy2 Hns (pc_sp _ _ _ _ _ _ _ _ _ _ _ _ _ _ _ H1)) as (n & En & Hsp).
    rewrite (rb_update_Ok _ _ _ _ En), bind_Ok.
    pose proof (pieces_path _ _ _ _ _ _ _ Hx Hy Hl Hnd _ _ _ _ _ _ _ _ _ _ _ _ _ H1 (croot_in (f :: sp) y ltac:(done)) En Hsp) as H2.
    destruct (sprep_rehole _ _ _ _ _ x Hns (pc_sp _ _ _ _ _ _ _ _ _ _ _ _ _ _ _ H2)) as (n2 & En2 & Hsp2).
    rewrite (rb_update_Ok _ _ _ _ En2), bind_Ok. apply Forall_cons in Hleft as [Ef _]. rewrite Ef in Hsp2. cbn [with_child] in Hsp2.
    pose proof (pieces_path _ _ _ _ _ _ _ Hx Hy Hl Hnd _ _ _ _ _ _ _ _ _ _ _ _ _ H2 Hfin En2 Hsp2) as H3.
    destruct (pieces_x _ _ _ _ _ _ _ Hx Hy Hl Hnd _ _ _ _ _ _ _ _ (fun n => RBNode (Z.lor (Z.land (parent n) 1) (faddr f)) (left n) (right n)) H3)
      as (s4 & -> & H4).
    exists s4. split; [done|]. cbn [parent left right] in H4. rewrite set_parent_word in H4; [eexists; exact H4|done|].
    by destruct (pc_sp _ _ _ _ _ _ _ _ _ _ _ _ _ _ _ H1) as ((_ & ?) & _).
Qed.

Lemma child_Ok s x n d : rbmem s !! x = Some n -> rb_child s x d = Ok (children n d).
Proof. intros E. unfold rb_child, rb_node. by rewrite (load_Ok _ _ _ E). Qed.
Lemma parent_Ok s x n : rbmem s !! x = Some n -> rb_get_parent s x = Ok (word_parent (parent n)).
Proof. intros E. unfold rb_get_parent, rb_node. by rewrite (load_Ok _ _ _ E). Qed.
Lemma color_Ok s x n : rbmem s !! x = Some n -> rb_get_color s x = Ok (word_color (parent n)).
Proof. intros E. unfold rb_get_color, rb_node. by rewrite (load_Ok _ _ _ E). Qed.

(** The children of [x] and the colours; then the pieces are a tree again. *)
Lemma swap_finish m0 k sp l sr x y s c c' rp :
  addr_ok x -> addr_ok y -> l <> Leaf -> NoDup (x :: y :: inorder l ++ inorder sr ++ caddrs sp ++ caddrs k) ->
  pieces m0 k sp l sr x y s (RBNode (word (sptr sp y) c) (ptr l) rp) (RBNode (word (cptr k) c') (ptr l) (croot sp x)) y y y x y ->
  exists s' : rbtree, ((t ← rb_set_child s x RB_LEFT 0;
    t ← rb_set_child t x RB_RIGHT (ptr sr);
    nr ← rb_child t x RB_RIGHT;
    t ← (if negb (nr =? 0) then rb_set_parent t nr x else Ok t);
    tmp ← rb_get_color t x;
    sc ← rb_get_color t y;
    t ← rb_set_color t x sc;
    t ← rb_set_color t y tmp;
    par ← rb_get_parent t x;
    Ok (par, t)) : res (Z * rbtree)) = Ok (cptr (sp ++ Frame true c y l :: k), s') /\
    zrep s' (sp ++ Frame true c y l :: k) (Node c' x Leaf sr) /\
    modifies (x :: y :: inorder l ++ inorder sr ++ caddrs sp ++ caddrs k) m0 (rbmem s').
Proof.
  intros Hx Hy Hl Hnd P0. pose proof (proj2 Hx) as Hx2. pose proof (proj2 Hy) as Hy2.
  assert (sptr sp y mod 2 = 0) as Hsy.
  { destruct sp as [|f sp']; [done|]. by destruct (pc_sp _ _ _ _ _ _ _ _ _ _ _ _ _ _ _ P0) as ((_ & ?) & _). }
  pose proof (cptr_even _ _ _ (pc_k _ _ _ _ _ _ _ _ _ _ _ _ _ _ _ P0)) as HP.
  destruct (pieces_x _ _ _ _ _ _ _ Hx Hy Hl Hnd _ _ _ _ _ _ _ _ (fun n => with_child n RB_LEFT 0) P0) as (s1 & E1 & P1).
  destruct (pieces_x _ _ _ _ _ _ _ Hx Hy Hl Hnd _ _ _ _ _ _ _ _ (fun n => with_child n RB_RIGHT (ptr sr)) P1) as (s2 & E2 & P2).
  cbn [with_child RB_LEFT RB_RIGHT parent left right] in P2.
  destruct (pieces_sr _ _ _ _ _ _ _ Hx Hy Hl Hnd _ _ _ _ _ _ _ _ x Hy2 Hx2 P2) as (s3 & E3 & P3).
  destruct (pieces_x _ _ _ _ _ _ _ Hx Hy Hl Hnd _ _ _ _ _ _ _ _ (fun n =>
    RBNode (Z.lor (word_parent (parent n)) (if cbit c' =? RB_BLACK then 1 else 0)) (left n) (right n)) P3) as (s4 & E4 & P4).
  destruct (pieces_y _ _ _ _ _ _ _ Hx Hy Hl Hnd _ _ _ _ _ _ _ _ (fun n =>
    RBNode (Z.lor (word_parent (parent n)) (if cbit c =? RB_BLACK then 1 else 0)) (left n) (right n)) P4) as (s5 & E5 & P5).
  cbn [parent left right] in P4, P5. rewrite !set_color_word in P5 by done.
  exists s5.
  change (rb_set_child s x RB_LEFT 0) with (rb_update s x (fun n => with_child n RB_LEFT 0)). rewrite E1, bind_Ok.
  change (rb_set_child s1 x RB_RIGHT (ptr sr)) with (rb_update s1 x (fun n => with_child n RB_RIGHT (ptr sr))). rewrite E2, bind_Ok.
  rewrite (child_Ok _ _ _ _ (pc_x _ _ _ _ _ _ _ _ _ _ _ _ _ _ _ P2)), bind_Ok. cbn [children RB_RIGHT right]. rewrite E3, bind_Ok.
  rewrite (color_Ok _ _ _ (pc_x _ _ _ _ _ _ _ _ _ _ _ _ _ _ _ P3)), bind_Ok, (color_Ok _ _ _ (pc_y _ _ _ _ _ _ _ _ _ _ _ _ _ _ _ P3)), bind_Ok.
  cbn [parent]. rewrite !word_color_word by done.
  unfold rb_set_color. rewrite E4, bind_Ok, E5, bind_Ok.
  rewrite (parent_Ok _ _ _ (pc_x _ _ _ _ _ _ _ _ _ _ _ _ _ _ _ P5)), bind_Ok. cbn [parent]. rewrite word_parent_word by done.
  rewrite cptr_app. split; [done|]. destruct P5 as [H1 H2 H3 H4 H5 H6 H7 H8]. split; [|done]. split.
  - rewrite cptr_app. done.
  - apply crep_app. split; [done|]. done.
  - rewrite croot_app. done.
  - rewrite caddrs_app. cbn. eapply NoDup_Permutation_proper; [|exact Hnd]. solve_Permutation.
Qed.

Lemma swap_ok s k c x l sp c' y sr :
  l <> Leaf -> Forall (fun f => fdir f = false) sp ->
  zrep s k (Node c x l (plug sp (Node c' y Leaf sr))) ->
  rbtree_minimum s (ptr (plug sp (Node c' y Leaf sr))) = Ok y ->
  exists s', swap_with_successor s x = Ok (cptr (sp ++ Frame true c y l :: k), s') /\
    zrep s' (sp ++ Frame true c y l :: k) (Node c' x Leaf sr) /\
    modifies (inorder (Node c x l (plug sp (Node c' y Leaf sr))) ++ caddrs k) (rbmem s) (rbmem s').
Proof.
  intros Hl Hleft Z Hmin.
  assert (zrep s (sp ++ Frame true c x l :: k) (Node c' y Leaf sr)) as Zy.
  { apply zrep_plug. rewrite plug_app. cbn [plug]. by apply zrep_plug in Z. }
  pose proof (focus_addr (d := false) Z) as Hx. pose proof (focus_addr (d := false) Zy) as Hy.
  pose proof (focus_even (d := false) Z) as HP.
  pose proof (focus_cell (d := false) Z) as Ex. pose proof (focus_cell (d := false) Zy) as Ey. cbn [cell] in Ex, Ey.
  pose proof (z_nodup _ _ _ Zy) as Hnd. rewrite caddrs_app in Hnd. cbn in Hnd.
  assert (NoDup (x :: y :: inorder l ++ inorder sr ++ caddrs sp ++ caddrs k)) as Hnd'.
  { eapply NoDup_Permutation_proper; [|exact Hnd]. solve_Permutation. }
  clear Hnd. rename Hnd' into Hnd. pose proof (proj2 Hx) as Hx2. pose proof (proj2 Hy) as Hy2.
  pose proof (z_ctx _ _ _ Zy) as Hc. apply crep_app in Hc as [Hsp (_ & _ & Hl0 & Hk)]. cbn [ptr cptr faddr fsib] in *.
  pose proof (ptr_plug sp (Node c' y Leaf sr)) as Er. cbn [ptr] in Er. rewrite Er in *.
  assert (pieces (rbmem s) k sp l sr x y s (RBNode (word (cptr k) c) (ptr l) (croot sp y))
            (RBNode (word (sptr sp x) c') 0 (ptr sr)) x y x y x) as P0.
  { split; [done| |done| |done|done|apply (z_root _ _ _ Z)|apply modifies_refl].
    - by rewrite cptr_app in Ey.
    - by destruct (z_tree _ _ _ Zy) as (_ & _ & _ & ?). }
  assert (sptr sp x mod 2 = 0) as Hev by (pose proof (focus_even (d := false) Zy) as H; by rewrite cptr_app in H).
  unfold swap_with_successor.
  rewrite (child_Ok _ _ _ RB_RIGHT Ex), bind_Ok. cbn [children RB_RIGHT right]. rewrite Hmin, bind_Ok.
  rewrite (get_parent_focus (d := false) Zy), bind_Ok, cptr_app. cbn [cptr faddr].
  rewrite (child_Ok _ _ _ RB_RIGHT Ey), bind_Ok, (child_Ok _ _ _ RB_LEFT Ex), bind_Ok. cbn [children RB_LEFT RB_RIGHT right left].
  destruct (pieces_y _ _ _ _ _ _ _ Hx Hy Hl Hnd _ _ _ _ _ _ _ _ (fun n => with_child n RB_LEFT (ptr l)) P0) as (s1 & E1 & P1).
  change (rb_set_child s y RB_LEFT (ptr l)) with (rb_update s y (fun n => with_child n RB_LEFT (ptr l))).
  rewrite E1, bind_Ok. cbn [with_child RB_LEFT parent left right] in P1.
  rewrite (child_Ok _ _ _ RB_LEFT (pc_y _ _ _ _ _ _ _ _ _ _ _ _ _ _ _ P1)), bind_Ok. cbn [children left RB_LEFT].
  destruct (pieces_l _ _ _ _ _ _ _ Hx Hy Hl Hnd _ _ _ _ _ _ _ _ y Hx2 Hy2 P1) as (s2 & -> & P2). rewrite bind_Ok.
  rewrite (parent_Ok _ _ _ (pc_x _ _ _ _ _ _ _ _ _ _ _ _ _ _ _ P2)), bind_Ok. cbn [parent]. rewrite word_parent_word by done.
  destruct (pieces_y _ _ _ _ _ _ _ Hx Hy Hl Hnd _ _ _ _ _ _ _ _
    (fun n => RBNode (Z.lor (Z.land (parent n) 1) (cptr k)) (left n) (right n)) P2) as (s3 & E3 & P3).
  change (rb_set_parent s2 y (cptr k)) with (rb_update s2 y (fun n => RBNode (Z.lor (Z.land (parent n) 1) (cptr k)) (left n) (right n))).
  rewrite E3, bind_Ok. cbn [parent left right] in P3. rewrite set_parent_word in P3; [|exact Hev|done].
  pose proof (all_apart _ _ _ _ _ _ Hx Hy Hl Hnd) as (Ha & Hne & _).
  destruct (pieces_rehang _ _ _ _ _ _ _ Hx Hy Hl Hnd _ _ _ _ _ _ _ _ y (proj1 Hx)
    ltac:(apply (proj2 (proj2 (proj2 (Ha x)))); set_solver) P3) as (s4 & E4 & P4).
  unfold rehang in E4. rewrite if_negb in E4. rewrite E4, bind_Ok.
  destruct (swap_path (rbmem s) k sp l sr x y s4 c c' (cptr k)) as (s5 & -> & rp & P5); [done..|]. rewrite bind_Ok.
  destruct (swap_finish (rbmem s) k sp l sr x y s5 c c' rp Hx Hy Hl Hnd P5) as (s6 & E6 & Z6 & M6).
  exists s6. rewrite <- E6. split; [done|]. split; [done|]. eapply modifies_weaken; [exact M6|].
  intros z. cbn [inorder]. rewrite inorder_plug_app. cbn [inorder].
  pose proof (caddrs_perm sp z) as Hsp'. rewrite !elem_of_cons, !elem_of_app, !elem_of_cons. rewrite elem_of_app in Hsp'. cbn.
  rewrite !elem_of_app, !elem_of_cons, !elem_of_app. tauto.
Qed.

(** ** Unlinking a node with at most one child *)
Definition unlink (t : rbtree) (node par : Z) : res (Z * rbtree) :=
  n ← rb_node t node;
  let replacement := if negb (left n =? 0) then left n else right n in
  t ← (if negb (replacement =? 0) then rb_set_parent t replacement par else Ok t);
  '(dir, t) ← (if par =? 0 then Ok (RB_LEFT, rb_set_root t replacement)
               else
                 dir ← rbtree_direction t node;
                 t ← rb_set_child t par dir replacement;
                 Ok (dir, t));
  nc ← rb_get_color t node;
  if nc =? RB_BLACK then
    rr ← is_red t replacement;
    if (rr : bool) then t ← rb_set_color t replacement RB_BLACK; Ok (replacement, t)
    else if negb (replacement =? 0) then
      t ← rbtree_remove_fixup t replacement dir; Ok (replacement, t)
    else if negb (par =? 0) then
      t ← rbtree_remove_fixup t node dir; Ok (replacement, t)
    else Ok (replacement, t)
  else Ok (replacement, t).

Lemma remove_eq t node :
  rbtree_remove t node =
  (par ← rb_get_parent t node;
   n ← rb_node t node;
   '(par, t) ← (if negb (left n =? 0) && negb (right n =? 0)
                then swap_with_successor t node else Ok (par, t));
   unlink t node par).
Proof. reflexivity. Qed.

(** The part that moves the pointers: [b] takes the place of [x]; the cell of
    [x] keeps its old parent word. *)
Lemma unlink_move s k d c x b :
  zrep s k (mk d c x Leaf b) ->
  exists s', (t ← (if negb (ptr b =? 0) then rb_set_parent s (ptr b) (cptr k) else Ok s);
              if cptr k =? 0 then Ok (RB_LEFT, rb_set_root t (ptr b))
              else
                dir ← rbtree_direction t x;
                t ← rb_set_child t (cptr k) dir (ptr b);
                Ok (dir, t)) = Ok (cdir k, s') /\
    zrep s' k b /\ rbmem s' !! x = Some (cell d (word (cptr k) c) 0 (ptr b)) /\
    modifies (inorder b ++ caddrs k) (rbmem s) (rbmem s').
Proof.
  intros Z. pose proof (focus_cell Z) as Ex. pose proof (focus_addr Z) as Hx. pose proof (focus_even Z) as HP.
  destruct (focus_fresh Z) as (_ & Hxb & Hxk). destruct Z as [H1 H2 H3 H4]. rewrite ptr_mk in *.
  apply rep_mk in H1 as (_ & _ & _ & Hb). rewrite inorder_mk in H4. cbn in H4. apply NoDup_cons in H4 as [_ H4].
  pose proof H4 as Hnd. apply NoDup_app in H4 as (Hnb & Hd & Hnk).
  destruct (reparent_rep s b x (cptr k)) as (s1 & -> & Hb1 & Hr1 & M1); [by destruct Hx|done..|]. rewrite bind_Ok.
  pose proof M1 as [_ L1].
  assert (crep (rbmem s1) k x) as Hk1 by (eapply crep_modifies; [exact M1|done|done]).
  assert (rbmem s1 !! x = Some (cell d (word (cptr k) c) 0 (ptr b))) as Ex1 by (by rewrite L1).
  destruct k as [|[d' c' p sib] k]; cbn [cptr faddr cdir fdir] in *.
  - cbn [Z.eqb]. eexists. split; [done|]. split; [|split; [done|]].
    + split; cbn; try done.
    + cbn [rbmem rb_set_root]. eapply modifies_weaken; [exact M1|set_solver].
  - destruct Hk1 as (Hp & Ep & Hs & Hk). cbn in Hp, Ep, Hs, Hk, Hxk.
    rewrite (addr_ok_nonzero _ Hp). unfold rbtree_direction.
    rewrite (parent_Ok _ _ _ Ex1), bind_Ok, cell_parent, word_parent_word by done.
    rewrite (child_Ok _ _ _ RB_RIGHT Ep), !bind_Ok.
    assert ((if x =? children (cell d' (word (cptr k) c') x (ptr sib)) RB_RIGHT then RB_RIGHT else RB_LEFT) = d') as ->.
    { unfold RB_RIGHT, RB_LEFT. destruct d'; cbn; [by rewrite Z.eqb_refl|]. rewrite (proj2 (Z.eqb_neq _ _)); [done|].
      intros ->. apply Hxk. destruct sib; cbn in *; [by destruct Hx|set_solver]. }
    unfold rb_set_child. rewrite (rb_update_Ok _ _ _ _ Ep), bind_Ok, cell_with.
    eexists. split; [done|]. cbn [caddrs faddr fsib] in *.
    assert (p <> x) as Hpx by set_solver. apply NoDup_cons in Hnk as [Hpn _].
    split; [|split; [cbn; by rewrite lookup_insert_ne|]].
    + split; cbn [rbmem root].
      * apply rep_insert; [set_solver|done].
      * cbn. split; [done|]. rewrite lookup_insert_eq. split; [done|]. split; [apply rep_insert|apply crep_insert]; set_solver.
      * cbn. cbn in H3. by rewrite Hr1.
      * done.
    + cbn [rbmem]. eapply modifies_trans_same; [eapply modifies_weaken; [exact M1|set_solver]|].
      eapply modifies_insert; [exact Ep|set_solver].
Qed.

Lemma cleft_app_left sp k : Forall (fun f => fdir f = false) sp -> cleft (sp ++ k) = cleft k.
Proof. induction 1 as [|f sp Hf _ IH]; cbn; [done|]. by rewrite Hf. Qed.

Lemma cright_app sp k : Forall (fun f => fdir f = false) sp -> cright (sp ++ k) = cright sp ++ cright k.
Proof. induction 1 as [|f sp Hf _ IH]; cbn; [done|]. rewrite Hf, IH. cbn. by rewrite <- app_assoc. Qed.

Lemma unlink_ok s k d c x b :
  zrep s k (mk d c x Leaf b) -> balanced (plug k (mk d c x Leaf b)) ->
  exists s' T', unlink s x (cptr k) = Ok (ptr b, s') /\ zrep s' [] T' /\ balanced T' /\
    inorder T' = cleft k ++ inorder b ++ cright k /\
    modifies (inorder b ++ caddrs k) (rbmem s) (rbmem s').
Proof.
  intros Z Hbal. unfold unlink, rb_node. pose proof (focus_addr Z) as Hx.
  rewrite (load_Ok _ _ _ (focus_cell Z)), bind_Ok.
  assert (Hrep : (if negb (left (cell d (word (cptr k) c) (ptr Leaf) (ptr b)) =? 0)
                  then left (cell d (word (cptr k) c) (ptr Leaf) (ptr b))
                  else right (cell d (word (cptr k) c) (ptr Leaf) (ptr b))) = ptr b).
  { destruct d; cbn; [|done]. destruct (Z.eqb_spec (ptr b) 0); done. }
  rewrite Hrep. clear Hrep. cbv zeta.
  destruct (unlink_move _ _ _ _ _ _ Z) as (s1 & E1 & Z1 & Ex1 & M1).
  pose proof (focus_even Z) as HP. apply bind_Ok_inv in E1 as (t1 & -> & E1). rewrite bind_Ok, E1, bind_Ok.
  rewrite (color_Ok _ _ _ Ex1), bind_Ok, cell_parent, word_color_word by done.
  set (L := cleft k ++ inorder b ++ cright k).
  assert (zr (rbmem s1) L s1 k b) as Zr by (split; [done|apply inorder_plug_app|apply modifies_refl]).
  apply plug_cwf in Hbal as (ok & n & Hk & Hw). apply wf_mk in Hw.
  assert (forall s', rebalanced (rbmem s1) L (Ok s') -> exists s'' T', Ok (ptr b, s') = Ok (ptr b, s'') /\ zrep s'' [] T' /\
    balanced T' /\ inorder T' = L /\ modifies (inorder b ++ caddrs k) (rbmem s) (rbmem s'')) as Hend.
  { intros s' (s2 & T & [= ->] & [Z2 O2 M2] & Hb2). exists s2, T. split; [done|]. split; [done|]. split; [done|].
    split; [exact O2|]. eapply modifies_trans_same; [exact M1|]. eapply modifies_weaken; [exact M2|].
    intros z. unfold L. by rewrite <- inorder_plug_app, inorder_plug_perm. }
  destruct c; cbn [cbit].
  - change (0 =? RB_BLACK) with false. cbv iota. apply Hend. destruct Hw as (-> & _ & Hw).
    eapply rebalanced_plug; [exact Zr|exact Hk|]. by apply wf_mono.
  - change (1 =? RB_BLACK) with true. cbv iota. destruct Hw as (m & -> & -> & Hw).
    rewrite (is_red_sub _ _ _ Z1), bind_Ok. destruct (root_red b) eqn:Er.
    + destruct (red_mk _ _ _ false Hw Er) as (y & b1 & b2 & -> & Hb1 & Hb2). cbn [mk ptr] in *.
      change RB_BLACK with (cbit Black). destruct (zr_color _ _ _ _ false _ _ _ _ Black Zr) as (s2 & -> & Z2).
      rewrite bind_Ok. apply Hend. eapply rebalanced_plug; [exact Z2|exact Hk|]. cbn. exists O. auto using wf_mono.
    + assert (b = Leaf) as -> by (destruct b as [|[] y b1 b2]; cbn in *; naive_solver). cbn [ptr]. cbn [Z.eqb negb].
      destruct k as [|f k]; cbn [cptr].
      * cbn [Z.eqb negb]. apply Hend. eexists s1, Leaf. split; [done|]. split; [done|]. by exists O.
      * assert (addr_ok (faddr f)) as Hf by (by destruct Z1 as [_ (? & _) _ _]).
        rewrite (addr_ok_nonzero _ Hf). cbn [negb]. unfold rbtree_remove_fixup.
        rewrite (parent_Ok _ _ _ Ex1), bind_Ok, cell_parent, word_parent_word by done. cbn [cptr]. rewrite (addr_ok_nonzero _ Hf).
        destruct (remove_fixup_ok (rb_fuel s1) _ _ _ f k _ O ok ltac:(pose proof (zrep_depth _ _ _ Z1) as Hd; cbn in Hd; unfold rb_fuel; lia) Zr Hk)
          as (s2 & T2 & E2 & R2); [done|]. cbn [cdir]. rewrite E2, bind_Ok. apply Hend. by exists s2, T2.
Qed.

(** ** The whole operation *)
Lemma remove_ok s k c x l r :
  zrep s k (Node c x l r) -> balanced (plug k (Node c x l r)) ->
  exists s' T' p, rbtree_remove s x = Ok (p, s') /\ zrep s' [] T' /\ balanced T' /\
    inorder T' = cleft k ++ inorder l ++ inorder r ++ cright k /\
    modifies (inorder (plug k (Node c x l r))) (rbmem s) (rbmem s').
Proof.
  intros Z Hb. rewrite remove_eq. pose proof (focus_cell (d := false) Z) as Ex.
  rewrite (get_parent_focus (d := false) Z), bind_Ok. unfold rb_node. rewrite (load_Ok _ _ _ Ex), bind_Ok. cbn [cell left right].
  destruct (z_tree _ _ _ Z) as (_ & _ & Hl & Hr). rewrite (ptr_zero _ _ _ Hl), (ptr_zero _ _ _ Hr).
  destruct l as [|cl xl ll rl]; [|destruct r as [|cr xr lr rr]]; cbn [negb andb].
  - rewrite bind_Ok. destruct (unlink_ok s k false c x r Z Hb) as (s' & T' & -> & Z' & Hb' & O' & M').
    exists s', T', (ptr r). split; [done|]. split; [done|]. split; [done|]. split; [done|].
    eapply modifies_weaken; [exact M'|]. intros z. rewrite inorder_plug_perm. cbn. set_solver.
  - rewrite bind_Ok. destruct (unlink_ok s k true c x (Node cl xl ll rl) Z Hb) as (s' & T' & -> & Z' & Hb' & O' & M').
    exists s', T', xl. split; [done|]. split; [done|]. split; [done|]. split; [done|].
    eapply modifies_weaken; [exact M'|]. intros z. rewrite inorder_plug_perm. cbn. set_solver.
  - set (l := Node cl xl ll rl) in *. set (r := Node cr xr lr rr) in *.
    assert (zrep s (Frame true c x l :: k) r) as Zr by (by apply (proj2 (zrep_up _ _ _ _ _ _ _))).
    destruct (minimum_ok _ _ _ Zr) as (sp & c' & y & sr & E & Hsp & Hmin); [done|].
    rewrite E in *. clearbody r. clear r E Hr Zr.
    destruct (swap_ok s k c x l sp c' y sr) as (s1 & -> & Z1 & M1); [done..|]. rewrite bind_Ok.
    destruct (unlink_ok s1 _ false c' x sr Z1) as (s2 & T2 & -> & Z2 & Hb2 & O2 & M2).
    { change (Node c x l (plug sp (Node c' y Leaf sr))) with (mk true c x (plug sp (Node c' y Leaf sr)) l) in Hb.
      apply plug_cwf in Hb as (ok & n & Hk & Hw). apply wf_mk in Hw.
      assert (balanced (plug (sp ++ Frame true c y l :: k) (Node c' y Leaf sr))) as Hb'.
      { rewrite plug_app. cbn [plug fdir fcol faddr fsib]. eapply cwf_plug; [exact Hk|]. by apply wf_mk. }
      apply plug_cwf in Hb' as (ok' & n' & Hk' & Hw'). eapply cwf_plug; [exact Hk'|]. exact Hw'. }
    exists s2, T2, (ptr sr). split; [done|]. split; [done|]. split; [done|].
    assert (cleft sp = []) as Hcl.
    { clear -Hsp. induction Hsp as [|f sp Hf _ IH]; cbn; [done|]. by rewrite Hf. }
    split.
    + rewrite O2. rewrite (cleft_app_left sp), (cright_app sp) by done. cbn. rewrite inorder_plug_app, Hcl. cbn.
      rewrite <- !app_assoc. done.
    + eapply modifies_trans_same; eapply modifies_weaken; [exact M1| |exact M2|].
      * intros z. by rewrite inorder_plug_perm.
      * intros z. rewrite inorder_plug_perm, caddrs_app. cbn. rewrite inorder_plug_perm. cbn. set_solver.
Qed.
