(* ===== verification/RBTreeClaims.v ===== *)
(** * The red-black tree as an ordered collection

    [rb_rep value s L]: the tree [s] is balanced and holds exactly the nodes
    [L], in key order.  The specifications of every public operation are in
    terms of this list. *)

From stdpp Require Import sorting.
From S2P Require Import Prelude RBTree RBTreeRep RBTreeSpec RBTreeRemove.
#[local] Open Scope Z_scope.

Definition rb_rep (value : Z -> Z) (s : rbtree) (L : list Z) : Prop :=
  exists T, zrep s [] T /\ balanced T /\ inorder T = L /\ sorted value L.

(** Nodes come from the position in the order. *)
Lemma inorder_split T l1 x l2 :
  NoDup (inorder T) -> inorder T = l1 ++ x :: l2 ->
  exists k c l r, T = plug k (Node c x l r) /\ l1 = cleft k ++ inorder l /\ l2 = inorder r ++ cright k.
Proof.
  intros Hnd E. assert (exists k c l r, T = plug k (Node c x l r)) as (k & c & l & r & ->).
  { assert (x ∈ inorder T) as Hx by (rewrite E; set_solver). clear E Hnd. revert Hx.
    induction T as [|c y l IHl r IHr]; cbn; [set_solver|]. rewrite elem_of_app, elem_of_cons.
    intros [Hx | [-> | Hx]].
    - destruct (IHl Hx) as (k & c' & l' & r' & ->). exists (k ++ [Frame false c y r]), c', l', r'. by rewrite plug_app.
    - by exists [], c, l, r.
    - destruct (IHr Hx) as (k & c' & l' & r' & ->). exists (k ++ [Frame true c y l]), c', l', r'. by rewrite plug_app. }
  exists k, c, l, r. split; [done|]. rewrite inorder_plug_app in E, Hnd. cbn in E, Hnd.
  replace (cleft k ++ (inorder l ++ x :: inorder r) ++ cright k)
    with ((cleft k ++ inorder l) ++ x :: (inorder r ++ cright k)) in E, Hnd by (by rewrite <- !app_assoc).
  revert Hnd E. generalize (cleft k ++ inorder l) as a, (inorder r ++ cright k) as b. clear. intros a b Hnd E.
  revert l1 E. induction a as [|z a IH]; intros [|z' l1] E; cbn in *.
  - by injection E as ->.
  - injection E as <- ->. apply NoDup_cons in Hnd as [Hn _]. exfalso. apply Hn. set_solver.
  - injection E as -> <-. apply NoDup_cons in Hnd as [Hn _]. exfalso. apply Hn. set_solver.
  - injection E as -> E. apply NoDup_cons in Hnd as [_ Hnd]. by destruct (IH Hnd _ E) as [-> ->].
Qed.

Lemma rb_rep_nodup value s L : rb_rep value s L -> NoDup L.
Proof. intros (T & [_ _ _ H] & _ & <- & _). cbn in H. by rewrite app_nil_r in H. Qed.

Lemma sorted_app_iff value l1 x l2 :
  sorted value (l1 ++ l2) -> (forall y, y ∈ l1 -> value y <= value x) -> (forall y, y ∈ l2 -> value x < value y) ->
  sorted value (l1 ++ x :: l2).
Proof.
  unfold sorted. induction l1 as [|z l1 IH]; cbn; intros H H1 H2.
  - constructor; [done|]. apply Forall_forall. intros y Hy%H2. lia.
  - apply StronglySorted_inv in H as [H Hz]. constructor; [apply IH; set_solver|].
    rewrite Forall_forall in *. intros y Hy. rewrite elem_of_app, elem_of_cons in Hy.
    destruct Hy as [Hy | [-> | Hy]]; [apply Hz; set_solver|apply H1; set_solver|apply Hz; set_solver].
Qed.

Lemma sorted_delete value l1 x l2 : sorted value (l1 ++ x :: l2) -> sorted value (l1 ++ l2).
Proof.
  unfold sorted. induction l1 as [|z l1 IH]; cbn; intros H; apply StronglySorted_inv in H as [H Hz]; [done|].
  constructor; [auto|]. rewrite Forall_forall in *. intros y Hy. apply Hz. set_solver.
Qed.

Lemma rb_insert_rep value s L x :
  rb_rep value s L -> addr_ok x -> is_Some (rbmem s !! x) -> x ∉ L ->
  exists s' l1 l2, rbtree_insert value s x = Ok (x, s') /\ L = l1 ++ l2 /\ rb_rep value s' (l1 ++ x :: l2) /\
    (forall y, y ∈ l1 -> value y <= value x) /\ (forall y, y ∈ l2 -> value x < value y) /\
    modifies (x :: L) (rbmem s) (rbmem s').
Proof.
  intros (T & Z & Hb & <- & Hs) Hx Hm Hn.
  destruct (insert_ok value s T x Z Hb Hs Hx Hm Hn) as (s' & T' & l1 & l2 & E & Z' & Hb' & EL & EL' & H1 & H2 & M).
  exists s', l1, l2. split; [done|]. split; [done|]. split; [|done].
  exists T'. split; [done|]. split; [done|]. split; [done|]. apply sorted_app_iff; [by rewrite <- EL|done|done].
Qed.

Lemma rb_remove_rep value s l1 x l2 :
  rb_rep value s (l1 ++ x :: l2) ->
  exists p s', rbtree_remove s x = Ok (p, s') /\ rb_rep value s' (l1 ++ l2) /\
    modifies (l1 ++ x :: l2) (rbmem s) (rbmem s').
Proof.
  intros (T & Z & Hb & E & Hs). pose proof (z_nodup _ _ _ Z) as Hnd. cbn in Hnd. rewrite app_nil_r in Hnd.
  destruct (inorder_split _ _ _ _ Hnd E) as (k & c & l & r & -> & E1 & E2).
  apply (proj2 (zrep_plug _ _ _)) in Z. destruct (remove_ok _ _ _ _ _ _ Z Hb) as (s' & T' & p & Er & Z' & Hb' & O' & M').
  exists p, s'. split; [done|]. split; [|by rewrite <- E]. exists T'. split; [done|]. split; [done|].
  split; [rewrite O', E1, E2; by rewrite <- !app_assoc|]. by eapply sorted_delete.
Qed.

(** ** Height *)
Fixpoint height (t : tree) : nat :=
  match t with Leaf => O | Node _ _ l r => S (Nat.max (height l) (height r)) end.

Lemma wf_height ok t n : wf ok t n -> (height t <= 2 * n + (if ok then 1 else 0))%nat.
Proof.
  revert ok n. induction t as [|c x l IHl r IHr]; intros ok n; cbn [wf height]; [lia|]. destruct c.
  - intros (-> & Hl & Hr). apply IHl in Hl. apply IHr in Hr. lia.
  - intros (m & -> & Hl & Hr). apply IHl in Hl. apply IHr in Hr. destruct ok; lia.
Qed.

Lemma wf_size ok t n : wf ok t n -> (2 ^ n <= S (length (inorder t)))%nat.
Proof.
  revert ok n. induction t as [|c x l IHl r IHr]; intros ok n; cbn [wf inorder].
  - intros ->. cbn. lia.
  - rewrite length_app. cbn [length]. destruct c.
    + intros (-> & Hl & Hr). apply IHl in Hl. lia.
    + intros (m & -> & Hl & Hr). apply IHl in Hl. apply IHr in Hr. rewrite Nat.pow_succ_r'. lia.
Qed.

Lemma balanced_height t : balanced t -> (height t <= 2 * Nat.log2 (S (length (inorder t))))%nat.
Proof.
  intros [n H]. pose proof (wf_height _ _ _ H) as Hh. pose proof (wf_size _ _ _ H) as Hs.
  apply Nat.log2_le_mono in Hs. rewrite Nat.log2_pow2 in Hs by lia. cbv iota in Hh. lia.
Qed.

Lemma height_length t : (height t <= length (inorder t))%nat.
Proof. induction t as [|c x l IHl r IHr]; cbn; [done|]. rewrite length_app. cbn. lia. Qed.

(** ** The ends of a subtree *)
Lemma minimum_head s k t : zrep s k t -> rbtree_minimum s (ptr t) = Ok (default 0 (head (inorder t))).
Proof.
  intros Z. destruct t as [|c x l r] eqn:Et; [done|]. rewrite <- Et in *.
  destruct (minimum_ok _ _ _ Z) as (sp & c' & y & a & E & Hsp & ->); [by rewrite Et|]. rewrite E, inorder_plug_app.
  assert (cleft sp = []) as -> by (pose proof (cleft_app_left sp [] Hsp) as H; by rewrite app_nil_r in H). done.
Qed.

Lemma cright_right sp : Forall (fun f => fdir f = true) sp -> cright sp = [].
Proof. induction 1 as [|f sp Hf _ IH]; cbn; [done|]. by rewrite Hf. Qed.

Lemma maximum_last s k t : zrep s k t -> rbtree_maximum s (ptr t) = Ok (default 0 (last (inorder t))).
Proof.
  intros Z. destruct t as [|c x l r] eqn:Et; [done|]. rewrite <- Et in *.
  destruct (maximum_ok _ _ _ Z) as (sp & c' & y & a & E & Hsp & ->); [by rewrite Et|]. rewrite E, inorder_plug_app.
  rewrite (cright_right _ Hsp), app_nil_r. cbn. by rewrite app_assoc, last_snoc.
Qed.

(** ** Successor and predecessor *)
Definition beyond (dir : bool) (k : ctx) : option Z := if dir then head (cright k) else last (cleft k).

Lemma child_side s f k t dir :
  t <> Leaf -> zrep s (f :: k) t ->
  exists r, rb_child s (faddr f) dir = Ok r /\ (ptr t =? r) = eqb (fdir f) dir.
Proof.
  intros Ht Z. pose proof (sibling_ne _ _ _ _ Ht Z) as Hne. destruct f as [d c x sib]. cbn in *.
  apply (proj1 (zrep_up _ _ _ _ _ _ _)) in Z. destruct (bool_decide_reflect (d = dir)) as [<- | Hd].
  - rewrite (child_focus Z). eexists. split; [done|]. rewrite Z.eqb_refl. by destruct d.
  - assert (dir = negb d) as -> by (by destruct d, dir). rewrite (child_other_focus Z). eexists. split; [done|].
    rewrite (proj2 (Z.eqb_neq _ _)) by done. by destruct d.
Qed.

Lemma climb_ok fuel : forall s k t dir,
  (length k < fuel)%nat -> t <> Leaf -> zrep s k t ->
  rb_climb_loop fuel s dir (ptr t) (cptr k) = Ok (default 0 (beyond dir k)).
Proof.
  induction fuel as [|fuel IH]; intros s k t dir Hlen Ht Z; [lia|]. cbn [rb_climb_loop].
  destruct k as [|f k]; [by destruct dir|]. cbn [cptr].
  assert (addr_ok (faddr f)) as Hf by (by destruct Z as [_ (? & _) _ _]). rewrite (addr_ok_nonzero _ Hf).
  destruct (child_side _ _ _ _ dir Ht Z) as (r & -> & Er). rewrite bind_Ok, Er.
  destruct f as [d c x sib]. cbn [faddr fdir] in *. apply (proj1 (zrep_up _ _ _ _ _ _ _)) in Z.
  destruct (eqb d dir) eqn:Ed.
  - apply eqb_prop in Ed as ->. rewrite (get_parent_focus Z), bind_Ok.
    specialize (IH s k (mk dir c x t sib) dir). rewrite ptr_mk in IH. rewrite IH; [|cbn in Hlen; lia|by destruct dir|done].
    by destruct dir.
  - unfold beyond. destruct d, dir; try done; cbn. by rewrite app_assoc, last_snoc.
Qed.

Lemma successor_ok s k c x l r :
  zrep s k (Node c x l r) -> rbtree_successor s x = Ok (default 0 (head (inorder r ++ cright k))).
Proof.
  intros Z. unfold rbtree_successor, RB_RIGHT. rewrite (child_focus (d := true) Z), bind_Ok.
  assert (zrep s (Frame true c x l :: k) r) as Zr by (by apply (proj2 (zrep_up _ _ _ _ _ _ _))).
  rewrite (ptr_zero _ _ _ (z_tree _ _ _ Zr)). destruct r as [|cr xr lr rr]; cbn [negb].
  - rewrite (get_parent_focus (d := true) Z), bind_Ok. rewrite (climb_ok _ s k (Node c x l Leaf) true); [done| |done|done].
    pose proof (zrep_depth _ _ _ Z). unfold rb_fuel. lia.
  - rewrite (minimum_head _ _ _ Zr). cbn [inorder]. by destruct (inorder lr).
Qed.

Lemma predecessor_ok s k c x l r :
  zrep s k (Node c x l r) -> rbtree_predecessor s x = Ok (default 0 (last (cleft k ++ inorder l))).
Proof.
  intros Z. unfold rbtree_predecessor, RB_LEFT. rewrite (child_focus (d := false) Z), bind_Ok.
  assert (zrep s (Frame false c x r :: k) l) as Zl by (by apply (proj2 (zrep_up _ _ _ _ _ _ _))).
  rewrite (ptr_zero _ _ _ (z_tree _ _ _ Zl)). destruct l as [|cl xl ll rl] eqn:El; cbn [negb].
  - rewrite (get_parent_focus (d := false) Z), bind_Ok. rewrite (climb_ok _ s k (Node c x Leaf r) false); [|  |done|done].
    + cbn. by rewrite app_nil_r.
    + pose proof (zrep_depth _ _ _ Z). unfold rb_fuel. lia.
  - rewrite <- El in *. rewrite (maximum_last _ _ _ Zl). f_equal. destruct (inorder l) as [|z zs] eqn:E.
    + subst l. cbn in E. by destruct (inorder ll).
    + by rewrite last_app_cons.
Qed.

(** ** Searching *)
Section Search.
Context (value : Z -> Z).

Definition ssorted (L : list Z) : Prop := StronglySorted (fun a b => value a < value b) L.

Lemma ssorted_node_inv l x r :
  ssorted (l ++ x :: r) -> ssorted l /\ ssorted r /\
  (forall y, y ∈ l -> value y < value x) /\ (forall y, y ∈ r -> value x < value y).
Proof using Type.
  unfold ssorted. intros H. induction l as [|z l IH]; cbn in *.
  - apply StronglySorted_inv in H as [Hr Hx]. rewrite Forall_forall in Hx.
    split; [constructor|]. split; [done|]. split; [set_solver|]. auto.
  - apply StronglySorted_inv in H as [H Hz]. rewrite Forall_forall in Hz.
    destruct (IH H) as (Hl & Hr & H1 & H2). split.
    { constructor; [done|]. apply Forall_forall. intros y Hy. apply Hz. set_solver. }
    split; [done|]. split; [|done]. intros y [-> | Hy]%elem_of_cons; [apply Hz; set_solver|auto].
Qed.

(** [v] counts as below the query. *)
Definition below (find_equal : bool) (q v : Z) : Prop := if find_equal then v <= q else v < q.
Definition above (find_equal : bool) (q v : Z) : Prop := if find_equal then q <= v else q < v.

Lemma search_lesser_ok fuel : forall s k t q fe cand,
  (height t < fuel)%nat -> zrep s k t -> ssorted (inorder t) ->
  exists l1 l2, inorder t = l1 ++ l2 /\
    search_lesser_loop value fuel s q fe (ptr t) cand = Ok (default cand (last l1)) /\
    (forall y, y ∈ l1 -> below fe q (value y)) /\ (forall y, y ∈ l2 -> ~ below fe q (value y)).
Proof using Type.
  induction fuel as [|fuel IH]; intros s k t q fe cand Hh Z Hs; [lia|]. cbn [search_lesser_loop].
  rewrite (ptr_zero _ _ _ (z_tree _ _ _ Z)). destruct t as [|c x l r]; [by exists [], []; set_solver|].
  unfold rb_node. cbn [ptr]. rewrite (load_Ok _ _ _ (focus_cell (d := false) Z)), bind_Ok. cbn [cell left right].
  cbn [inorder height] in *. apply ssorted_node_inv in Hs as (Hsl & Hsr & Hlx & Hrx).
  assert (zrep s (Frame false c x r :: k) l) as Zl by (by apply (proj2 (zrep_up _ _ _ _ _ _ _))).
  assert (zrep s (Frame true c x l :: k) r) as Zr by (by apply (proj2 (zrep_up _ _ _ _ _ _ _))).
  destruct (Z.ltb_spec (value x) q).
  - destruct (IH s _ r q fe x ltac:(lia) Zr Hsr) as (l1 & l2 & El & -> & H1 & H2).
    exists (inorder l ++ x :: l1), l2. rewrite El, <- app_assoc. split; [done|]. split.
    { rewrite last_app_cons, last_cons. by destruct (last l1). }
    split; [|done]. intros y Hy. rewrite elem_of_app, elem_of_cons in Hy.
    destruct Hy as [Hy | [-> | Hy]]; [specialize (Hlx y Hy)| |by apply H1]; unfold below; destruct fe; lia.
  - rewrite Z.gtb_ltb. destruct (Z.ltb_spec q (value x)).
    + destruct (IH s _ l q fe cand ltac:(lia) Zl Hsl) as (l1 & l2 & El & -> & H1 & H2).
      exists l1, (l2 ++ x :: inorder r). rewrite El, <- app_assoc. split; [done|]. split; [done|]. split; [done|].
      intros y Hy. rewrite elem_of_app, elem_of_cons in Hy.
      destruct Hy as [Hy | [-> | Hy]]; [by apply H2| |specialize (Hrx y Hy)]; unfold below; destruct fe; lia.
    + assert (value x = q) as <- by lia. destruct fe.
      * exists (inorder l ++ [x]), (inorder r). split; [by rewrite <- app_assoc|]. split; [by rewrite last_snoc|].
        unfold below. split; [|intros y Hy; specialize (Hrx y Hy); lia].
        intros y Hy. rewrite elem_of_app, list_elem_of_singleton in Hy. destruct Hy as [Hy | ->]; [specialize (Hlx y Hy)|]; lia.
      * exists (inorder l), (x :: inorder r). split; [done|]. unfold below. split; [|split].
        { rewrite (ptr_zero _ _ _ (z_tree _ _ _ Zl)). destruct l as [|cl xl ll rl] eqn:El; [done|]. cbn [negb].
          rewrite <- El in *. rewrite (maximum_last _ _ _ Zl). f_equal.
          destruct (inorder l) eqn:E; [subst l; cbn in E; by destruct (inorder ll)|]. by rewrite last_cons; destruct (last _). }
        { intros y Hy. specialize (Hlx y Hy). lia. }
        intros y Hy. rewrite elem_of_cons in Hy. destruct Hy as [-> | Hy]; [|specialize (Hrx y Hy)]; lia.
Qed.

Lemma search_greater_ok fuel : forall s k t q fe cand,
  (height t < fuel)%nat -> zrep s k t -> ssorted (inorder t) ->
  exists l1 l2, inorder t = l1 ++ l2 /\
    search_greater_loop value fuel s q fe (ptr t) cand = Ok (default cand (head l2)) /\
    (forall y, y ∈ l1 -> ~ above fe q (value y)) /\ (forall y, y ∈ l2 -> above fe q (value y)).
Proof using Type.
  induction fuel as [|fuel IH]; intros s k t q fe cand Hh Z Hs; [lia|]. cbn [search_greater_loop].
  rewrite (ptr_zero _ _ _ (z_tree _ _ _ Z)). destruct t as [|c x l r]; [by exists [], []; set_solver|].
  unfold rb_node. cbn [ptr]. rewrite (load_Ok _ _ _ (focus_cell (d := false) Z)), bind_Ok. cbn [cell left right].
  cbn [inorder height] in *. apply ssorted_node_inv in Hs as (Hsl & Hsr & Hlx & Hrx).
  assert (zrep s (Frame false c x r :: k) l) as Zl by (by apply (proj2 (zrep_up _ _ _ _ _ _ _))).
  assert (zrep s (Frame true c x l :: k) r) as Zr by (by apply (proj2 (zrep_up _ _ _ _ _ _ _))).
  rewrite Z.gtb_ltb. destruct (Z.ltb_spec q (value x)).
  - destruct (IH s _ l q fe x ltac:(lia) Zl Hsl) as (l1 & l2 & El & -> & H1 & H2).
    exists l1, (l2 ++ x :: inorder r). rewrite El, <- app_assoc. split; [done|]. split; [by destruct l2|].
    split; [done|]. intros y Hy. rewrite elem_of_app, elem_of_cons in Hy.
    destruct Hy as [Hy | [-> | Hy]]; [by apply H2| |specialize (Hrx y Hy)]; unfold above; destruct fe; lia.
  - destruct (Z.ltb_spec (value x) q).
    + destruct (IH s _ r q fe cand ltac:(lia) Zr Hsr) as (l1 & l2 & El & -> & H1 & H2).
      exists (inorder l ++ x :: l1), l2. rewrite El, <- app_assoc. split; [done|]. split; [done|]. split; [|done].
      intros y Hy. rewrite elem_of_app, elem_of_cons in Hy.
      destruct Hy as [Hy | [-> | Hy]]; [specialize (Hlx y Hy)| |by apply H1]; unfold above; destruct fe; lia.
    + assert (value x = q) as <- by lia. destruct fe.
      * exists (inorder l), (x :: inorder r). split; [done|]. split; [done|]. unfold above.
        split; [intros y Hy; specialize (Hlx y Hy); lia|].
        intros y Hy. rewrite elem_of_cons in Hy. destruct Hy as [-> | Hy]; [|specialize (Hrx y Hy)]; lia.
      * exists (inorder l ++ [x]), (inorder r). split; [by rewrite <- app_assoc|]. unfold above. split; [|split].
        { rewrite (ptr_zero _ _ _ (z_tree _ _ _ Zr)). destruct r as [|cr xr lr rr] eqn:Er; [done|]. cbn [negb].
          rewrite <- Er in *. rewrite (minimum_head _ _ _ Zr). f_equal.
          destruct (inorder r) eqn:E; [subst r; cbn in E; by destruct (inorder lr)|]. done. }
        { intros y Hy. rewrite elem_of_app, list_elem_of_singleton in Hy. destruct Hy as [Hy | ->]; [specialize (Hlx y Hy)|]; lia. }
        intros y Hy. specialize (Hrx y Hy). lia.
Qed.

Lemma search_exact_ok fuel : forall s k t q,
  (height t < fuel)%nat -> zrep s k t -> sorted value (inorder t) ->
  exists y, search_exact_loop value fuel s q (ptr t) = Ok y /\
    (y ∈ inorder t /\ value y = q \/ y = 0 /\ forall z, z ∈ inorder t -> value z <> q).
Proof using Type.
  induction fuel as [|fuel IH]; intros s k t q Hh Z Hs; [lia|]. cbn [search_exact_loop].
  rewrite (ptr_zero _ _ _ (z_tree _ _ _ Z)). destruct t as [|c x l r].
  { exists 0. split; [done|]. right. split; [done|]. set_solver. }
  unfold rb_node. cbn [ptr]. rewrite (load_Ok _ _ _ (focus_cell (d := false) Z)), bind_Ok. cbn [cell left right].
  cbn [inorder height] in *. apply sorted_node_inv in Hs as (Hsl & Hsr & Hlx & Hrx).
  assert (zrep s (Frame false c x r :: k) l) as Zl by (by apply (proj2 (zrep_up _ _ _ _ _ _ _))).
  assert (zrep s (Frame true c x l :: k) r) as Zr by (by apply (proj2 (zrep_up _ _ _ _ _ _ _))).
  rewrite Z.gtb_ltb. destruct (Z.ltb_spec q (value x)); [|destruct (Z.ltb_spec (value x) q)].
  - destruct (IH s _ l q ltac:(lia) Zl Hsl) as (y & -> & [[Hy Ey] | [-> Hy]]); eexists; (split; [done|]).
    + left. set_solver.
    + right. split; [done|]. intros z Hz. rewrite elem_of_app, elem_of_cons in Hz.
      destruct Hz as [Hz | [-> | Hz]]; [by apply Hy|lia|specialize (Hrx z Hz); lia].
  - destruct (IH s _ r q ltac:(lia) Zr Hsr) as (y & -> & [[Hy Ey] | [-> Hy]]); eexists; (split; [done|]).
    + left. set_solver.
    + right. split; [done|]. intros z Hz. rewrite elem_of_app, elem_of_cons in Hz.
      destruct Hz as [Hz | [-> | Hz]]; [specialize (Hlx z Hz); lia|lia|by apply Hy].
  - exists x. split; [done|]. left. split; [set_solver|lia].
Qed.
End Search.

(** ** The specifications *)

(** C26: inserting a node that is not in the tree returns, and puts it into the
    key order behind the nodes with a smaller or equal key; the tree stays
    balanced and no memory but its nodes changes. *)
Theorem rbtree_insert_correct value s L x :
  rb_rep value s L -> addr_ok x -> is_Some (rbmem s !! x) -> x ∉ L ->
  exists s' l1 l2, rbtree_insert value s x = Ok (x, s') /\ L = l1 ++ l2 /\ rb_rep value s' (l1 ++ x :: l2) /\
    (forall y, y ∈ l1 -> value y <= value x) /\ (forall y, y ∈ l2 -> value x < value y) /\
    modifies (x :: L) (rbmem s) (rbmem s').
Proof. apply rb_insert_rep. Qed.

(** C27: removing a node of the tree returns, takes exactly this node out of
    the order and keeps the tree balanced, in every case of the fix-up. *)
Theorem rbtree_remove_correct value s l1 x l2 :
  rb_rep value s (l1 ++ x :: l2) ->
  exists p s', rbtree_remove s x = Ok (p, s') /\ rb_rep value s' (l1 ++ l2) /\
    modifies (l1 ++ x :: l2) (rbmem s) (rbmem s').
Proof. apply rb_remove_rep. Qed.

(** The search to the left, on a whole tree. *)
Lemma rb_fuel_enough value s L T : zrep s [] T -> rb_rep value s L -> (height T < rb_fuel s)%nat.
Proof.
  intros Z _. pose proof (zrep_length _ _ _ Z) as Hl. rewrite length_app in Hl. pose proof (height_length T). unfold rb_fuel. lia.
Qed.

Lemma rb_search_below value s L q (fe : bool) :
  rb_rep value s L -> ssorted value L ->
  exists l1 l2, L = l1 ++ l2 /\
    rbtree_search value s q (if fe then RB_SEARCH_TYPE_NEAREST_LTE else RB_SEARCH_TYPE_NEAREST_LT) = Ok (default 0 (last l1)) /\
    (forall y, y ∈ l1 -> below fe q (value y)) /\ (forall y, y ∈ l2 -> ~ below fe q (value y)).
Proof.
  intros H Hss. pose proof H as (T & Z & Hb & <- & Hs). pose proof (rb_fuel_enough _ _ _ _ Z H) as Hh.
  pose proof (z_root _ _ _ Z) as Er. cbn [croot] in Er.
  destruct (search_lesser_ok value _ s [] T q fe 0 Hh Z Hss) as (l1 & l2 & E & E' & H').
  exists l1, l2. split; [done|]. rewrite <- E', <- Er. by destruct fe.
Qed.

(** over distinct keys the four neighbour searches split the order at the
    query and return the node next to it, or null; the exact search finds a
    node with the key if there is one. *)
Theorem rbtree_search_correct value s L q :
  rb_rep value s L -> ssorted value L ->
  (forall fe, exists l1 l2, L = l1 ++ l2 /\
     rbtree_search value s q (if (fe : bool) then RB_SEARCH_TYPE_NEAREST_LTE else RB_SEARCH_TYPE_NEAREST_LT)
       = Ok (default 0 (last l1)) /\
     (forall y, y ∈ l1 -> below fe q (value y)) /\ (forall y, y ∈ l2 -> ~ below fe q (value y))) /\
  (forall fe, exists l1 l2, L = l1 ++ l2 /\
     rbtree_search value s q (if (fe : bool) then RB_SEARCH_TYPE_NEAREST_GTE else RB_SEARCH_TYPE_NEAREST_GT)
       = Ok (default 0 (head l2)) /\
     (forall y, y ∈ l1 -> ~ above fe q (value y)) /\ (forall y, y ∈ l2 -> above fe q (value y))) /\
  exists y, rbtree_search value s q RB_SEARCH_TYPE_EXACT = Ok y /\
    (y ∈ L /\ value y = q \/ y = 0 /\ forall z, z ∈ L -> value z <> q).
Proof.
  intros H0 Hss. split; [intros fe; by apply rb_search_below|]. pose proof H0 as (T & Z & Hb & <- & Hs).
  pose proof (rb_fuel_enough _ _ _ _ Z H0) as Hh. pose proof (z_root _ _ _ Z) as Er. cbn [croot] in Er. split.
  - intros fe. destruct (search_greater_ok value _ s [] T q fe 0 Hh Z Hss) as (l1 & l2 & E & E' & H).
    exists l1, l2. split; [done|]. rewrite <- E', <- Er. by destruct fe.
  - destruct (search_exact_ok value _ s [] T q Hh Z Hs) as (y & E & H). exists y. split; [|done].
    cbn. unfold rbtree_search_exact. by rewrite Er.
Qed.

(** minimum and maximum are the ends of the order, and successor and
    predecessor step through it, so the FOR_EACH macros visit every node once. *)
Theorem rbtree_walk_correct value s l1 x l2 :
  rb_rep value s (l1 ++ x :: l2) ->
  rbtree_minimum s (root s) = Ok (default 0 (head (l1 ++ x :: l2))) /\
  rbtree_maximum s (root s) = Ok (default 0 (last (l1 ++ x :: l2))) /\
  rbtree_successor s x = Ok (default 0 (head l2)) /\
  rbtree_predecessor s x = Ok (default 0 (last l1)).
Proof.
  intros (T & Z & Hb & E & Hs). pose proof (z_nodup _ _ _ Z) as Hnd. cbn in Hnd. rewrite app_nil_r in Hnd.
  pose proof (z_root _ _ _ Z) as Er. cbn [croot] in Er. rewrite Er, <- E.
  split; [by eapply minimum_head|]. split; [by eapply maximum_last|].
  destruct (inorder_split _ _ _ _ Hnd E) as (k & c & l & r & -> & -> & ->). apply (proj2 (zrep_plug _ _ _)) in Z.
  split; [by eapply successor_ok|by eapply predecessor_ok].
Qed.

(** a search takes logarithmically many steps: on a tree of n nodes the
    loop finishes within 2 log2 (n + 1) + 1 turns. *)
Theorem rbtree_search_logarithmic value s L q :
  rb_rep value s L ->
  exists y, search_exact_loop value (S (2 * Nat.log2 (S (length L)))) s q (root s) = Ok y.
Proof.
  intros (T & Z & Hb & <- & Hs). pose proof (z_root _ _ _ Z) as ->. cbn [croot].
  destruct (search_exact_ok value (S (2 * Nat.log2 (S (length (inorder T))))) s [] T q) as (y & E & _); [|done|done|by exists y].
  pose proof (balanced_height _ Hb). lia.
Qed.

(** the nearest-key search starts from the distance UINT64_MAX and only
    takes a strictly closer node, so the one node of a tree is not found when it
    is at that distance: key 0, query UINT64_MAX. *)
Theorem rbtree_nearest_misses :
  rbtree_search (fun _ => 0) (RBTree 16 {[16 := RBNode 1 0 0]}) UINT64_MAX RB_SEARCH_TYPE_NEAREST = Ok 0.
Proof. vm_compute. reflexivity. Qed.

(** ** A tree of three nodes, keyed by their addresses *)
Definition demo_nodes : rbnodes :=
  list_to_map [(32, RBNode 1 16 48); (16, RBNode 32 0 0); (48, RBNode 32 0 0); (64, RBNode 0 0 0)].
Definition demo_tree : rbtree := RBTree 32 demo_nodes.

Lemma rb_demo_rep : rb_rep (fun a => a) demo_tree [16; 32; 48].
Proof.
  exists (Node Black 32 (Node Red 16 Leaf Leaf) (Node Red 48 Leaf Leaf)). split; [|split; [|split]].
  - split; [|done|done|].
    + cbn. repeat (split; [done|]). repeat split; done.
    + cbn. repeat (apply NoDup_cons; split; [set_solver|]). constructor.
  - exists 1%nat. exists 0%nat. by cbn.
  - done.
  - repeat (constructor; [|repeat constructor; lia]). constructor.
Qed.

(** The operations run: insert 64, remove the root, look up a neighbour. *)
Example demo_run :
  ('(_, t) ← rbtree_insert (fun a => a) demo_tree 64;
   '(_, t) ← rbtree_remove t 32;
   rbtree_search (fun a => a) t 50 RB_SEARCH_TYPE_NEAREST_LTE) = Ok 48.
Proof. vm_compute. reflexivity. Qed.

Lemma rbtree_insert_correct_witness :
  exists s' l1 l2, rbtree_insert (fun a => a) demo_tree 64 = Ok (64, s') /\ [16; 32; 48] = l1 ++ l2 /\
    rb_rep (fun a => a) s' (l1 ++ 64 :: l2) /\
    (forall y, y ∈ l1 -> y <= 64) /\ (forall y, y ∈ l2 -> 64 < y) /\
    modifies [64; 16; 32; 48] (rbmem demo_tree) (rbmem s').
Proof.
  apply (rbtree_insert_correct (fun a => a) demo_tree [16; 32; 48] 64);
    [apply rb_demo_rep|by split|by eexists|set_solver].
Defined.

Lemma rbtree_remove_correct_witness :
  exists p s', rbtree_remove demo_tree 32 = Ok (p, s') /\ rb_rep (fun a => a) s' [16; 48] /\
    modifies [16; 32; 48] (rbmem demo_tree) (rbmem s').
Proof. apply (rbtree_remove_correct (fun a => a) demo_tree [16] 32 [48] rb_demo_rep). Defined.

Lemma rbtree_search_correct_witness :
  exists y, rbtree_search (fun a => a) demo_tree 32 RB_SEARCH_TYPE_EXACT = Ok y /\
    (y ∈ [16; 32; 48] /\ y = 32 \/ y = 0 /\ forall z, z ∈ [16; 32; 48] -> z <> 32).
Proof.
  apply (rbtree_search_correct (fun a => a) demo_tree [16; 32; 48] 32 rb_demo_rep).
  repeat (constructor; [|repeat constructor; lia]). constructor.
Defined.

Lemma rbtree_walk_correct_witness : rbtree_successor demo_tree 16 = Ok 32.
Proof. apply (rbtree_walk_correct (fun a => a) demo_tree [] 16 [32; 48] rb_demo_rep). Defined.

Lemma rbtree_search_logarithmic_witness :
  exists y, search_exact_loop (fun a => a) 5 demo_tree 48 (root demo_tree) = Ok y.
Proof. apply (rbtree_search_logarithmic (fun a => a) demo_tree [16; 32; 48] 48 rb_demo_rep). Defined.
