(* ===== verification/PagingPmm.v ===== *)
(** * Pages for page tables

    What paging relies on of the buddy allocator and the page frame database:
    a page it takes is none of those in use, and neither taking nor giving
    back a page touches the type and the count of a page that is in use or
    that the allocator does not manage. *)

From S2P Require Import Prelude LList Pfndb Buddy BuddyInv BuddySpec.
#[local] Open Scope Z_scope.

Section Frames.
Context `{cfg_ok : kconfig_ok}.
Implicit Types (R : regions) (B : blocks) (st : buddy_state).

(** ** What the operations do to the entries of the database *)

(** Entries off [S] keep their count, and their type unless it becomes free. *)
Definition may_free (S : list Z) st st' : Prop :=
  forall e pg, e ∉ S -> frames st !! e = Some pg ->
    exists pg', frames st' !! e = Some pg' /\ ref_count pg' = ref_count pg /\ (type pg' = type pg \/ type pg' = PFNDB_PAGE_FREE).
(** Entries keep their count, and their type unless it was free. *)
Definition was_free st st' : Prop :=
  forall e pg, frames st !! e = Some pg ->
    exists pg', frames st' !! e = Some pg' /\ ref_count pg' = ref_count pg /\ (type pg' = type pg \/ type pg = PFNDB_PAGE_FREE).

Lemma may_free_refl S st st' : frames st' = frames st -> may_free S st st'.
Proof using Type. intros E e pg _ He. exists pg. rewrite E. auto. Qed.

Lemma may_free_trans S st1 st2 st3 : may_free S st1 st2 -> may_free S st2 st3 -> may_free S st1 st3.
Proof using Type.
  intros H1 H2 e pg HS He. destruct (H1 e pg HS He) as (pg1 & He1 & R1 & T1). destruct (H2 e pg1 HS He1) as (pg2 & He2 & R2 & T2).
  exists pg2. split; [done|]. split; [congruence|]. destruct T2 as [->|?]; auto.
Qed.

Lemma was_free_refl st st' : frames st' = frames st -> was_free st st'.
Proof using Type. intros E e pg He. exists pg. rewrite E. auto. Qed.

Lemma was_free_trans st1 st2 st3 : was_free st1 st2 -> was_free st2 st3 -> was_free st1 st3.
Proof using Type.
  intros H1 H2 e pg He. destruct (H1 e pg He) as (pg1 & He1 & R1 & T1). destruct (H2 e pg1 He1) as (pg2 & He2 & R2 & T2).
  exists pg2. split; [done|]. split; [congruence|]. destruct T1 as [<-|?]; [destruct T2; auto|auto].
Qed.

Lemma update_entry_inv st p f st' :
  update_entry st p f = Ok st' -> exists pg, frames st !! pfndb_get_entry p = Some pg /\ frames st' = <[pfndb_get_entry p := f pg]> (frames st).
Proof using Type.
  unfold update_entry, load, store. destruct (frames st !! pfndb_get_entry p) as [pg|] eqn:E; [|done]. cbn. rewrite ?E. cbn. intros [= <-]. eauto.
Qed.

Lemma update_may_free S st p f st' :
  update_entry st p f = Ok st' ->
  pfndb_get_entry p ∈ S \/ (forall pg, ref_count (f pg) = ref_count pg /\ (type (f pg) = type pg \/ type (f pg) = PFNDB_PAGE_FREE)) ->
  may_free S st st'.
Proof using Type.
  intros (pg0 & E0 & Ef)%update_entry_inv Hf e pg He Hpg. rewrite Ef. destruct (decide (pfndb_get_entry p = e)) as [<-|Hne].
  - destruct Hf as [?|Hf]; [done|]. rewrite E0 in Hpg. injection Hpg as ->. exists (f pg). rewrite lookup_insert_eq. split; [done|]. apply Hf.
  - exists pg. rewrite lookup_insert_ne by done. auto.
Qed.

Lemma push_order_frames st k n st' : push_order st k n = Ok st' -> frames st' = frames st.
Proof using Type. unfold push_order. intros ([ls h] & _ & [= <-])%bind_Ok_inv. done. Qed.
Lemma pop_order_frames st k n st' : pop_order st k = Ok (n, st') -> frames st' = frames st.
Proof using Type. unfold pop_order. intros ([[m ls] h] & _ & [= _ <-])%bind_Ok_inv. done. Qed.
Lemma delete_order_frames st k n st' : delete_order st k n = Ok st' -> frames st' = frames st.
Proof using Type. unfold delete_order. intros ([ls h] & _ & [= <-])%bind_Ok_inv. done. Qed.

Lemma find_larger_frames fuel : forall st c n c' st', find_larger fuel st c = Ok (n, c', st') -> frames st' = frames st.
Proof using Type.
  induction fuel as [|fuel IH]; intros st c n c' st'; [done|]. cbn [find_larger]. destruct (c <=? MAX_ORDER); [|by intros [= _ _ <-]].
  intros ([m st1] & E1 & E)%bind_Ok_inv. apply pop_order_frames in E1. destruct (m =? 0); [|by injection E as _ _ <-].
  apply IH in E. congruence.
Qed.

Lemma split_down_frames S fuel : forall st a mo c k c' st', split_down fuel st a mo c k = Ok (c', st') -> may_free S st st'.
Proof using Type.
  induction fuel as [|fuel IH]; intros st a mo c k c' st'; [done|]. cbn [split_down]. destruct (c >? k); [|intros [= _ <-]; by apply may_free_refl].
  cbv zeta. intros (s1 & E1 & (s2 & E2 & (s3 & E3 & (s4 & E4 & E)%bind_Ok_inv)%bind_Ok_inv)%bind_Ok_inv)%bind_Ok_inv.
  apply IH in E. eapply update_may_free in E1; [|by right; auto]. eapply update_may_free in E2; [|by right; auto].
  eapply update_may_free in E3; [|by right; auto]. apply push_order_frames, (may_free_refl S) in E4.
  eauto using may_free_trans.
Qed.

Lemma allocate_frames st k fl p st' : buddy_allocate st k fl = Ok (p, st') -> may_free [pfndb_get_entry p] st st'.
Proof using Type.
  unfold buddy_allocate. intros ([n st1] & E1 & E)%bind_Ok_inv. apply pop_order_frames, (may_free_refl [pfndb_get_entry p]) in E1.
  destruct (negb (n =? 0)).
  { apply bind_Ok_inv in E as (st2 & E2 & [= <- <-]). eapply may_free_trans; [exact E1|]. eapply update_may_free; [done|]. left. by left. }
  apply bind_Ok_inv in E as ([[m c] st2] & E2 & E). apply find_larger_frames, (may_free_refl [pfndb_get_entry p]) in E2.
  destruct (m =? 0).
  { destruct (negb _); [done|]. injection E as _ <-. by eapply may_free_trans. }
  apply bind_Ok_inv in E as (re & _ & E). apply bind_Ok_inv in E as ([c' st3] & E3 & E). apply (split_down_frames [pfndb_get_entry p]) in E3.
  apply bind_Ok_inv in E as (me & _ & E). apply bind_Ok_inv in E as (_ & _ & E).
  apply bind_Ok_inv in E as (st4 & E4 & E). apply bind_Ok_inv in E as (st5 & E5 & [= <- <-]).
  eapply update_may_free in E4; [|left; by left]. eapply update_may_free in E5; [|left; by left]. eauto using may_free_trans.
Qed.

Lemma coalesce_frames fuel : forall st p c p' c' st', coalesce fuel st p c = Ok (p', c', st') -> was_free st st'.
Proof using Type.
  induction fuel as [|fuel IH]; intros st p c p' c' st'; [done|]. cbn [coalesce].
  intros (en & _ & E)%bind_Ok_inv. destruct (c <? _); [|injection E as _ _ <-; by apply was_free_refl].
  cbv zeta in E. apply bind_Ok_inv in E as (be & Hbe & E). case_bool_decide as Hty; cbn [negb] in E; [|injection E as _ _ <-; by apply was_free_refl].
  destruct (negb _); [injection E as _ _ <-; by apply was_free_refl|].
  apply bind_Ok_inv in E as (s1 & E1 & E). apply bind_Ok_inv in E as (s2 & E2 & E). apply IH in E. apply delete_order_frames in E1.
  eapply was_free_trans; [by apply was_free_refl|]. eapply was_free_trans; [|exact E].
  apply update_entry_inv in E2 as (pg0 & H0 & Ef). intros e pg He. rewrite Ef, E1 in *.
  destruct (decide (pfndb_get_entry (Z.lxor p (GET_ORDER_SIZE c)) = e)) as [<-|Hne].
  - exists (set_type pg0 PFNDB_PAGE_ALLOCATED). rewrite lookup_insert_eq. rewrite He in H0. injection H0 as <-. split; [done|]. split; [done|]. right.
    unfold load in Hbe. rewrite He in Hbe. by injection Hbe as <-.
  - exists pg. rewrite lookup_insert_ne by done. auto.
Qed.

Lemma free_frames st p k st' : buddy_free st p k = Ok st' -> exists st1, was_free st st1 /\ may_free [] st1 st'.
Proof using Type.
  unfold buddy_free. intros ([[p' c] st1] & E1 & E)%bind_Ok_inv. apply coalesce_frames in E1. exists st1. split; [done|].
  apply bind_Ok_inv in E as (st2 & E2 & E). apply bind_Ok_inv in E as (st3 & E3 & E4).
  eapply update_may_free in E2; [|by right; auto]. eapply update_may_free in E3; [|by right; auto].
  apply push_order_frames, (may_free_refl []) in E4. eauto using may_free_trans.
Qed.

(** ** Pages in use *)

(** A page that was handed out, or that the allocator does not manage. *)
Definition in_use R B (q : Z) : Prop :=
  page_aligned q /\ (B !! q = Some (0, BAlloc) \/ forall b m, (b, m) ∈ R -> ~ in_block b m q).

Definition page_is st (q : Z) (ty : pagetype) (rc : Z) : Prop :=
  exists pg, frames st !! pfndb_get_entry q = Some pg /\ type pg = ty /\ ref_count pg = rc.

Lemma in_use_not_free R st B q ty rc : buddy_inv R st B -> in_use R B q -> page_is st q ty rc -> ty <> PFNDB_PAGE_FREE.
Proof using cfg_ok.
  intros [xss I] [Hal Hu] (pg & Hpg & Hty & _) ->. destruct (i_type _ _ _ _ I q pg Hal Hpg Hty) as (k & s & Hq & Hs).
  destruct Hu as [Hu|Hu]; [congruence|]. destruct (i_block _ _ _ _ I _ _ _ Hq) as (Hk & _ & m & (b & Hb & H1 & H2) & _).
  apply (Hu b m Hb). pose proof (bsize_pos k Hk). unfold in_block. lia.
Qed.

(** A managed page is not one that is in use outside. *)
Lemma in_use_ne R st B B' p q :
  buddy_inv R st B' -> B' !! p = Some (0, BAlloc) -> B !! p <> Some (0, BAlloc) -> in_use R B q -> q <> p.
Proof using cfg_ok.
  intros [xss I] Hp Hn [_ Hu] ->. destruct Hu as [?|Hu]; [done|].
  destruct (i_block _ _ _ _ I _ _ _ Hp) as (Hk & _ & m & (b & Hb & H1 & H2) & _). apply (Hu b m Hb). pose proof (bsize_pos 0 Hk). unfold in_block. lia.
Qed.

(** [st'] and [B'] leave the pages in use off [S] alone. *)
Definition keeps R st B st' B' (S : list Z) : Prop :=
  forall q, in_use R B q -> q ∉ S ->
    in_use R B' q /\ (B !! q = Some (0, BAlloc) -> B' !! q = Some (0, BAlloc)) /\ forall ty rc, page_is st q ty rc -> page_is st' q ty rc.

Lemma keeps_refl R st B S : keeps R st B st B S.
Proof using Type. intros q Hq _. auto. Qed.

Lemma keeps_trans R st1 B1 st2 B2 st3 B3 S : keeps R st1 B1 st2 B2 S -> keeps R st2 B2 st3 B3 S -> keeps R st1 B1 st3 B3 S.
Proof using Type. intros H1 H2 q Hq HS. destruct (H1 q Hq HS) as (Hq1 & A1 & P1). destruct (H2 q Hq1 HS) as (Hq2 & A2 & P2). auto. Qed.

Lemma keeps_weaken R st B st' B' S S' : keeps R st B st' B' S -> (forall x, x ∈ S -> x ∈ S') -> keeps R st B st' B' S'.
Proof using Type. intros H HS q Hq Hn. apply H; auto. Qed.

(** Memory of a page that is handed out is its owner's. *)
Lemma binv_mem R st B xss p k v :
  binv R st B xss -> B !! p = Some (k, BAlloc) -> is_Some (mem st !! TO_HHDM p) ->
  binv R (BuddyState (orders st) (<[TO_HHDM p := v]> (mem st)) (frames st)) B xss.
Proof using cfg_ok.
  intros I Hp [x Hx]. pose proof (not_in_lists _ _ _ _ _ _ _ I Hp ltac:(done)) as Hn. destruct I as [W Ls N F Bk D T]. split; try done.
  - eapply (regions_wf_mem R st _ [TO_HHDM p]); [done| |done]. eapply modifies_insert; [exact Hx|by left].
  - eapply lists_rep_frame; [|exact Ls]. intros y Hy. apply lookup_insert_ne. by intros <-.
Qed.

Lemma page_mapped R st B p k s : buddy_inv R st B -> B !! p = Some (k, s) -> is_Some (mem st !! TO_HHDM p).
Proof using cfg_ok.
  intros [xss I] Hp. destruct (i_block _ _ _ _ I _ _ _ Hp) as (Hk & _ & m & (b & Hb & H1 & H2) & _).
  destruct (block_facts _ _ _ _ _ _ _ I Hp) as (_ & _ & Hal & _). apply (r_mapped _ _ (i_regions _ _ _ _ I) b m); [done| |done].
  pose proof (bsize_pos k Hk). unfold in_block. lia.
Qed.

(** The entry of a page that is handed out may change, but not to free. *)
Lemma update_alloc_ok R st B p k f :
  buddy_inv R st B -> B !! p = Some (k, BAlloc) -> (forall pg, order (f pg) = order pg /\ (type pg <> PFNDB_PAGE_FREE -> type (f pg) <> PFNDB_PAGE_FREE)) ->
  exists pg, frames st !! pfndb_get_entry p = Some pg /\ update_entry st p f = Ok (with_entry st p (f pg)) /\ buddy_inv R (with_entry st p (f pg)) B.
Proof using cfg_ok.
  intros [xss I] Hp Hf. destruct (i_block _ _ _ _ I _ _ _ Hp) as (_ & _ & m & _ & pg & Hpg & _ & _ & Hty).
  destruct (Hf pg) as [Ho Ht]. exists pg. split; [done|]. split; [by apply update_entry_Ok|]. exists xss.
  assert (B = <[p := (k, BAlloc)]> (<[p := (k, BHole)]> B)) as EB by (by rewrite insert_insert_eq, insert_id). rewrite EB.
  eapply binv_restatus; [|apply lookup_insert_eq|done|done|].
  - eapply binv_hole_entry; [by eapply binv_restatus|apply lookup_insert_eq|done|]. by rewrite Ho.
  - intros _ pg'. rewrite with_entry_same. intros [= <-]. auto.
Qed.

Lemma with_entry_keeps R st B p pg : page_aligned p -> keeps R st B (with_entry st p pg) B [p].
Proof using cfg_ok.
  intros Hp q Hq Hn. split; [done|]. split; [done|]. intros ty rc (pg' & H1 & H2). exists pg'. split; [|done].
  rewrite with_entry_other; [done|done|apply Hq|]. intros ->. apply Hn. by left.
Qed.

(** What taking one page, and zeroing it, do. *)
Definition page_taken R st B (r : res (Z * buddy_state)) : Prop :=
  (r = Panic /\ forall p j, B !! p <> Some (j, BFree)) \/
  exists p st' B', r = Ok (p, st') /\ buddy_inv R st' B' /\ settled B' /\
    B' !! p = Some (0, BAlloc) /\ B !! p <> Some (0, BAlloc) /\ keeps R st B st' B' [] /\
    forall q j, q <> p -> B' !! q = Some (j, BAlloc) -> B !! q = Some (j, BAlloc).

Lemma take_page_ok R st B :
  buddy_inv R st B -> settled B -> page_taken R st B (buddy_allocate st MIN_ORDER ALLOC_FLAG_NOFAIL).
Proof using cfg_ok.
  intros I HS. destruct (allocate_ok R st B MIN_ORDER ALLOC_FLAG_NOFAIL I HS ltac:(done)) as [(p & st1 & B' & E & Hp & I' & P)|[Hno H]].
  - right. pose proof (al_new _ _ _ _ P) as Hnew. exists p, st1, B'. split; [done|]. split; [done|]. split; [apply P|]. split; [done|].
    assert (B !! p <> Some (0, BAlloc)) as Hold by (destruct (al_origin _ _ _ _ P) as (c & _ & Hc & _); congruence). split; [done|].
    split; [|intros q j Hq; by apply (al_others _ _ _ _ P)].
    intros q Hq _. pose proof (in_use_ne R st1 B B' p q I' Hnew Hold Hq) as Hne.
    assert (in_use R B' q) as Hq'.
    { split; [apply Hq|]. destruct Hq as [_ [Hq|Hq]]; [left|by right]. by apply (al_others _ _ _ _ P). }
    split; [done|]. split; [intros ?; by apply (al_others _ _ _ _ P)|]. intros ty rc (pg & Hpg & Hty & Hrc).
    assert (pfndb_get_entry q <> pfndb_get_entry p) as Hen.
    { intros Een. apply Hne. apply pfndb_get_entry_inj in Een; [done|apply Hq|]. destruct I' as [xss I'].
      by destruct (block_facts _ _ _ _ _ _ _ I' Hnew) as (_ & _ & ? & _). }
    apply allocate_frames in E. destruct (E (pfndb_get_entry q) pg) as (pg' & Hpg' & Hrc' & Hty'); [set_solver|done|].
    exists pg'. split; [done|]. split; [|congruence]. destruct Hty' as [->|Hfr]; [done|].
    exfalso. eapply (in_use_not_free R st1 B' q); [done|done| |reflexivity]. exists pg'. done.
  - left. change (Z.land ALLOC_FLAG_NOFAIL ALLOC_FLAG_NOFAIL =? 0) with false in H. cbv iota in H. rewrite H. split; [done|].
    intros p j Hp. specialize (Hno p j Hp). destruct I as [xss I]. destruct (i_block _ _ _ _ I _ _ _ Hp). unfold MIN_ORDER in Hno. lia.
Qed.

Lemma alloc_page_ok R st B :
  buddy_inv R st B -> settled B -> page_taken R st B (pmm_alloc_page st).
Proof using cfg_ok.
  intros I HS. unfold pmm_alloc_page.
  destruct (take_page_ok R st B I HS) as [[-> Hno]|(p & st1 & B' & -> & I' & HS' & Hnew & Hold & K & N)]; [by left|].
  right. rewrite bind_Ok. destruct (page_mapped _ _ _ _ _ _ I' Hnew) as [v Hv]. rewrite (store_Ok _ _ _ _ Hv), bind_Ok.
  eexists p, _, B'. split; [done|]. split; [destruct I' as [xss I']; exists xss; by eapply binv_mem|]. done.
Qed.

Lemma free_page_ok R st B p :
  buddy_inv R st B -> settled B -> B !! p = Some (0, BAlloc) ->
  exists st' B', pmm_free_page st p = Ok st' /\ buddy_inv R st' B' /\ settled B' /\ keeps R st B st' B' [p] /\ forall q j, B' !! q = Some (j, BAlloc) -> B !! q = Some (j, BAlloc) /\ q <> p.
Proof using cfg_ok.
  intros I HS Hp. destruct (free_ok R st B p MIN_ORDER I HS Hp) as (st' & B' & E & I' & P). exists st', B'.
  split; [done|]. split; [done|]. split; [apply P|]. split; [|intros q j; by apply (fr_allocs _ _ _ _ _ P)]. intros q Hq Hne. assert (q <> p) as Hqp by set_solver.
  assert (in_use R B' q) as Hq'.
  { split; [apply Hq|]. destruct Hq as [_ [Hq|Hq]]; [left|by right]. by apply (fr_allocs _ _ _ _ _ P). }
  split; [done|]. split; [intros ?; by apply (fr_allocs _ _ _ _ _ P)|]. intros ty rc Hpg0. pose proof (in_use_not_free R st B q ty rc I Hq Hpg0) as Hnf. destruct Hpg0 as (pg & Hpg & Hty & Hrc).
  apply free_frames in E as (st1 & W & M). destruct (W _ _ Hpg) as (pg1 & Hpg1 & Hrc1 & Hty1).
  destruct (M _ _ (not_elem_of_nil _) Hpg1) as (pg2 & Hpg2 & Hrc2 & Hty2). exists pg2. split; [done|]. split; [|congruence].
  destruct Hty1 as [Hty1|Hty1]; [|congruence]. destruct Hty2 as [Hty2|Hfr]; [congruence|].
  exfalso. eapply (in_use_not_free R st' B' q); [done|done| |reflexivity]. exists pg2. done.
Qed.
End Frames.
