(* ===== verification/PageAlloc.v ===== *)
(** * The interface between the page allocator and its clients

    The object allocator, the page tables and the thread stacks take whole pages
    from the physical memory manager.  [page_alloc] is the pair of operations
    they call, [page_alloc_ok] what they rely on; the buddy allocator
    discharges it. *)

From S2P Require Import Prelude LList Pfndb Buddy BuddyInv BuddySpec.
#[local] Open Scope Z_scope.

(** [buddy_allocate(MIN_ORDER, ALLOC_FLAG_NOFAIL)] and [buddy_free(p, MIN_ORDER)],
    which is also what mem/pmm.h wraps. *)
Class page_alloc (S : Type) := {
  pa_alloc : S -> res (Z * S);
  pa_free : S -> Z -> res S;
}.

(** [pa_rep s O]: in state [s] the pages [O] are handed out to the client at
    hand; others may own more. *)
Class page_alloc_ok (S : Type) `{kconfig} `{page_alloc S} := {
  pa_rep : S -> gset Z -> Prop;
  pa_page : forall s O p, pa_rep s O -> p ∈ O -> 0 < p /\ (PAGE_SIZE | p) /\ p + PAGE_SIZE <= 2 ^ 64 - hhdm_offset;
  pa_alloc_spec : forall s O, pa_rep s O ->
    nofault (pa_alloc s) (fun '(p, s') => (p ∉ O) /\ pa_rep s' ({[p]} ∪ O));
  pa_free_spec : forall s O p, pa_rep s O -> p ∈ O ->
    returns (pa_free s p) (fun s' => pa_rep s' (O ∖ {[p]}));
}.

#[export] Instance buddy_page_alloc `{kconfig} : page_alloc buddy_state := {|
  pa_alloc st := buddy_allocate st MIN_ORDER ALLOC_FLAG_NOFAIL;
  pa_free st p := buddy_free st p MIN_ORDER;
|}.

Section BuddyPages.
Context `{cfg_ok : kconfig_ok}.

Definition buddy_pages (st : buddy_state) (O : gset Z) : Prop :=
  exists R B, buddy_inv R st B /\ settled B /\ forall p, p ∈ O -> B !! p = Some (0, BAlloc).

Lemma buddy_pages_page st O p :
  buddy_pages st O -> p ∈ O -> 0 < p /\ (PAGE_SIZE | p) /\ p + PAGE_SIZE <= 2 ^ 64 - hhdm_offset.
Proof using cfg_ok.
  intros (R & B & [xss I] & HS & HO) Hp. apply HO in Hp. destruct (i_block _ _ _ _ I _ _ _ Hp) as (Hk & Hd & m & Hr & _).
  destruct (block_facts _ _ _ _ _ _ _ I Hp) as (_ & _ & Hal & _ & Hpos).
  assert (bsize 0 = PAGE_SIZE) as E by (unfold bsize; rewrite Z.add_0_r, PAGE_SIZE_eq; done).
  split; [done|]. split; [by rewrite <- E|]. rewrite <- E.
  destruct Hr as (b & Hb & Hin & Hle). destruct (r_shape _ _ (i_regions _ _ _ _ I) _ _ Hb) as (_ & _ & _ & Hend). lia.
Qed.

(** Two pages of different owners: a page handed out now was free, so it was
    not owned before. *)
#[export] Program Instance buddy_page_alloc_ok : page_alloc_ok buddy_state := {| pa_rep := buddy_pages |}.
Next Obligation. intros s O p H Hp. by eapply buddy_pages_page. Qed.
Next Obligation.
  intros s O (R & B & I & HS & HO). unfold pa_alloc. cbn [buddy_page_alloc].
  destruct (allocate_ok R s B MIN_ORDER ALLOC_FLAG_NOFAIL I HS ltac:(done)) as [(p & st' & B' & E & Hp & I' & P)|[_ H]].
  - rewrite E. cbn. split.
    + intros Hin%HO. destruct (al_origin _ _ _ _ P) as (c & _ & Hc & _). congruence.
    + exists R, B'. split; [done|]. split; [apply P|]. intros q [->%elem_of_singleton|Hq]%elem_of_union; [apply P|].
      apply (al_others _ _ _ _ P); [|by apply HO]. intros ->. destruct (al_origin _ _ _ _ P) as (c & _ & Hc & _).
      apply HO in Hq. congruence.
  - change (Z.land ALLOC_FLAG_NOFAIL ALLOC_FLAG_NOFAIL =? 0) with false in H. cbv iota in H. by rewrite H.
Qed.
Next Obligation.
  intros s O p (R & B & I & HS & HO) Hp. unfold pa_free. cbn [buddy_page_alloc].
  destruct (free_ok R s B p MIN_ORDER I HS (HO p Hp)) as (st' & B' & E & I' & P).
  exists st'. split; [done|]. exists R, B'. split; [done|]. split; [apply P|].
  intros q [Hq Hne]%elem_of_difference. apply (fr_allocs _ _ _ _ _ P). split; [by apply HO|]. set_solver.
Qed.
End BuddyPages.
