(* ===== verification/ContextSwitch.v ===== *)
(** * Context switches and the first run of a thread

    arch/x86_64/thread, arch/riscv64/thread, arch/loongarch64/thread: the frame
    that [arch_prepare_thread_stack] (init.c) leaves on a new stack, the
    register saves and restores of [arch_thread_switch] (switch.asm, switch.S),
    and the trampoline a new thread starts in (init.asm, init.S).  A machine is
    its registers, stack pointer, program counter and memory, with the two
    things a switch gives back: the scheduler's lock and the interrupts.  The
    compiled [schedule_finalize] that runs on the new stack is a parameter. *)

From Stdlib Require Import String.
From S2P Require Import Prelude CString CStringSpec.
#[local] Open Scope Z_scope.
#[local] Open Scope string_scope.

(** ** The stack of a new thread: init.c *)

(** [sp -= 8; *sp = w], once per word. *)
Fixpoint push_words (m : bytes) (sp : Z) (ws : list Z) : res (Z * bytes) :=
  match ws with
  | [] => Ok (sp, m)
  | w :: ws => let sp := u64 (sp - 8) in m ← store_word m sp w; push_words m sp ws
  end.

Section Prepare.
(** The addresses of [thread_exit] and [thread_init_trampoline]. *)
Context (thread_exit thread_init_trampoline : Z).

Definition x86_prepare_thread_stack (m : bytes) (stack_top entry arg1 arg2 : Z) : res (Z * bytes) :=
  push_words m stack_top [thread_exit; entry; thread_init_trampoline; arg1; arg2; 0; 0; 0; 0].
Definition riscv_prepare_thread_stack (m : bytes) (stack_top entry arg1 arg2 : Z) : res (Z * bytes) :=
  push_words m stack_top [thread_exit; entry; thread_init_trampoline; arg1; arg2; 0; 0; 0; 0; 0; 0; 0; 0; 0; 0].
Definition loongarch_prepare_thread_stack (m : bytes) (stack_top entry arg1 arg2 : Z) : res (Z * bytes) :=
  push_words m stack_top [thread_exit; entry; thread_init_trampoline; 0; arg1; arg2; 0; 0; 0; 0; 0; 0; 0].
End Prepare.

(** ** Machines *)
Record machine := Machine { regs : string -> Z; sp : Z; pc : Z; mem : bytes; sched_lock : Z; interrupts : bool }.

Definition set_reg (m : machine) (r : string) (v : Z) : machine :=
  Machine (fun x => if (x =? r)%string then v else regs m x) (sp m) (pc m) (mem m) (sched_lock m) (interrupts m).
Definition set_sp (m : machine) (v : Z) : machine := Machine (regs m) v (pc m) (mem m) (sched_lock m) (interrupts m).
Definition set_pc (m : machine) (v : Z) : machine := Machine (regs m) (sp m) v (mem m) (sched_lock m) (interrupts m).
Definition set_mem (m : machine) (b : bytes) : machine := Machine (regs m) (sp m) (pc m) b (sched_lock m) (interrupts m).

Definition store_reg (m : machine) (a : Z) (v : Z) : res machine := b ← store_word (mem m) (u64 a) v; Ok (set_mem m b).
Definition load_reg (m : machine) (r : string) (a : Z) : res machine := v ← load_word (mem m) (u64 a); Ok (set_reg m r v).
Definition move (m : machine) '(dst, src) : machine := set_reg m dst (regs m src).

(** The runs of [sd], [ld], [push] and [pop] instructions. *)
Fixpoint store_regs (m : machine) (l : list (string * Z)) : res machine :=
  match l with [] => Ok m | (r, off) :: l => m ← store_reg m (sp m + off) (regs m r); store_regs m l end.
Fixpoint load_regs (m : machine) (l : list (string * Z)) : res machine :=
  match l with [] => Ok m | (r, off) :: l => m ← load_reg m r (sp m + off); load_regs m l end.
Fixpoint push_regs (m : machine) (l : list string) : res machine :=
  match l with [] => Ok m | r :: l => let m := set_sp m (u64 (sp m - 8)) in m ← store_reg m (sp m) (regs m r); push_regs m l end.
Fixpoint pop_regs (m : machine) (l : list string) : res machine :=
  match l with [] => Ok m | r :: l => m ← load_reg m r (sp m); pop_regs (set_sp m (u64 (sp m + 8))) l end.

Section Switch.
(** What [schedule_finalize] makes of memory and registers. *)
Context (finalize_mem : machine -> bytes) (finalize_regs : machine -> string -> Z).

Definition schedule_finalize (m : machine) : machine :=
  Machine (finalize_regs m) (sp m) (pc m) (finalize_mem m) (sched_lock m) (interrupts m).
(** The lock of the scheduler and the interrupts. *)
Definition leave_scheduler (m : machine) : machine := Machine (regs m) (sp m) (pc m) (mem m) 0 true.

(** *** x86_64 *)

(** [ret] *)
Definition x86_ret (m : machine) : res machine :=
  ra ← load_word (mem m) (sp m); Ok (set_sp (set_pc m ra) (u64 (sp m + 8))).

Definition x86_save (m : machine) : res machine :=
  m ← push_regs m ["rbx"; "rbp"; "r12"; "r13"; "r14"; "r15"];
  store_reg m (regs m "rdi") (sp m).

(** From [mov rsp, [rsi]] on; [resume] is the address the call pushes. *)
Definition x86_resume (resume : Z) (m : machine) : res machine :=
  s ← load_word (mem m) (u64 (regs m "rsi"));
  let m := set_sp m s in
  m ← store_reg m (sp m - 8) resume;
  let m := leave_scheduler (schedule_finalize m) in
  m ← pop_regs m ["r15"; "r14"; "r13"; "r12"; "rbp"; "rbx"];
  x86_ret m.

Definition x86_trampoline (m : machine) : res machine :=
  x86_ret (foldl move m [("rdi", "rbx"); ("rsi", "rbp"); ("rdx", "r12"); ("rcx", "r13"); ("r8", "r14"); ("r9", "r15")]).

(** *** riscv64 *)
Definition riscv_frame : list (string * Z) :=
  [("ra", 96); ("s0", 88); ("s1", 80); ("s2", 72); ("s3", 64); ("s4", 56); ("s5", 48); ("s6", 40); ("s7", 32); ("s8", 24); ("s9", 16); ("s10", 8); ("s11", 0)].

Definition riscv_save (m : machine) : res machine :=
  m ← store_regs (set_sp m (u64 (sp m - 104))) riscv_frame;
  store_reg m (regs m "a0") (sp m).

Definition riscv_resume (m : machine) : res machine :=
  s ← load_word (mem m) (u64 (regs m "a1"));
  let m := leave_scheduler (schedule_finalize (set_sp m s)) in
  m ← load_regs m (rev riscv_frame);
  Ok (set_pc (set_sp m (u64 (sp m + 104))) (regs m "ra")).

Definition riscv_trampoline (m : machine) : res machine :=
  let m := foldl move m [("a0", "s0"); ("a1", "s1"); ("a2", "s2"); ("a3", "s3"); ("a4", "s4"); ("a5", "s5"); ("a6", "s6"); ("a7", "s7")] in
  m ← load_regs m [("t0", 0); ("ra", 8)];
  Ok (set_pc (set_sp m (u64 (sp m + 16))) (regs m "t0")).

(** *** loongarch64 *)
Definition loongarch_frame : list (string * Z) :=
  [("ra", 80); ("fp", 72); ("s0", 64); ("s1", 56); ("s2", 48); ("s3", 40); ("s4", 32); ("s5", 24); ("s6", 16); ("s7", 8); ("s8", 0)].

Definition loongarch_save (m : machine) : res machine :=
  m ← store_regs (set_sp m (u64 (sp m - 88))) loongarch_frame;
  store_reg m (regs m "a0") (sp m).

Definition loongarch_resume (m : machine) : res machine :=
  s ← load_word (mem m) (u64 (regs m "a1"));
  let m := leave_scheduler (schedule_finalize (set_sp m s)) in
  m ← load_regs m (rev loongarch_frame);
  Ok (set_pc (set_sp m (u64 (sp m + 88))) (regs m "ra")).

(** The same instructions as on riscv64, under the same names. *)
Definition loongarch_trampoline : machine -> res machine := riscv_trampoline.
End Switch.

(** ** Words in memory *)
Lemma le_value_bytes n v : 0 <= v < 256 ^ Z.of_nat n -> le_value (le_bytes n v) = v.
Proof.
  revert v. induction n as [|n IH]; intros v Hv; [cbn in *; lia|]. cbn [le_bytes le_value]. rewrite Nat2Z.inj_succ, Z.pow_succ_r in Hv by lia.
  rewrite IH; [pose proof (Z.div_mod v 256 ltac:(lia)); lia|]. split; [apply Z.div_pos; lia|apply Z.div_lt_upper_bound; lia].
Qed.

Lemma load_le_lookup bs : forall m p, (forall i b, bs !! i = Some b -> m !! (p + Z.of_nat i) = Some b) -> load_le m p (length bs) = Ok (le_value bs).
Proof.
  induction bs as [|b bs IH]; intros m p H; [done|]. cbn [length load_le le_value]. rewrite (load_Ok _ _ b), bind_Ok by (rewrite <- (Z.add_0_r p); by apply (H 0%nat)).
  rewrite IH, bind_Ok; [done|]. intros i c Hi. replace (p + 1 + Z.of_nat i) with (p + Z.of_nat (S i)) by lia. by apply H.
Qed.

Lemma load_le_frame n : forall m m' p, (forall a, p <= a < p + Z.of_nat n -> m' !! a = m !! a) -> load_le m' p n = load_le m p n.
Proof.
  induction n as [|n IH]; intros m m' p H; [done|]. cbn [load_le]. unfold load. rewrite H by lia. destruct (m !! p); [|done]. cbn [of_option]. rewrite !bind_Ok, (IH m m'); [done|]. intros a Ha. apply H. lia.
Qed.

(** The memories agree but for [n] bytes at [a]. *)
Definition agree_off (m m' : bytes) (a n : Z) : Prop :=
  (forall x, ~ (a <= x < a + n) -> m' !! x = m !! x) /\ forall x, is_Some (m !! x) -> is_Some (m' !! x).

Lemma agree_off_trans m1 m2 m3 a n : agree_off m1 m2 a n -> agree_off m2 m3 a n -> agree_off m1 m3 a n.
Proof. intros [H1 H2] [H3 H4]. split; [intros x Hx; rewrite H3, H1 by done; done|auto]. Qed.

Lemma agree_off_weaken m m' a n b k : agree_off m m' a n -> b <= a -> a + n <= b + k -> agree_off m m' b k.
Proof. intros [H1 H2] Ha Hn. split; [|done]. intros x Hx. apply H1. lia. Qed.

Lemma store_word_ok m a v : mapped m a 8 -> is_u64 v ->
  exists m', store_word m a v = Ok m' /\ load_word m' a = Ok v /\ agree_off m m' a 8.
Proof.
  intros Hm Hv. assert (length (le_bytes 8 v) = 8%nat) as Hl by done. unfold store_word.
  destruct (store_bytes_ok (le_bytes 8 v) m a) as (m' & E & H); [by rewrite Hl|]. rewrite Hl in H. change (Z.of_nat 8) with 8 in H. exists m'. split; [done|]. split; [|split].
  - unfold load_word. rewrite <- Hl. rewrite (load_le_lookup (le_bytes 8 v)), le_value_bytes; [done|exact Hv|].
    intros i b Hi. apply lookup_lt_Some in Hi as Hlt. rewrite Hl in Hlt. rewrite H, decide_True by lia. by replace (Z.to_nat (a + Z.of_nat i - a)) with i by lia.
  - intros x Hx. by rewrite H, decide_False by lia.
  - intros x Hx. rewrite H. case_decide as Hd; [|done]. apply lookup_lt_is_Some. rewrite Hl. lia.
Qed.

Lemma load_word_off m m' a n b : agree_off m m' a n -> b + 8 <= a \/ a + n <= b -> load_word m' b = load_word m b.
Proof. intros [H _] Hb. apply load_le_frame. intros x Hx. apply H. lia. Qed.

Lemma mapped_off m m' a n b k : agree_off m m' a n -> mapped m b k -> mapped m' b k.
Proof. intros [_ H] Hm x Hx. by apply H, Hm. Qed.

(** ** Frames *)

(** The words of a list below [top], the first one on top. *)
Definition words_below (m : bytes) (top : Z) (ws : list Z) : Prop :=
  forall i w, ws !! i = Some w -> load_word m (top - 8 * (Z.of_nat i + 1)) = Ok w.

Lemma push_words_ok ws : forall m top, Forall is_u64 ws -> 8 * Z.of_nat (length ws) <= top <= 2 ^ 64 ->
  mapped m (top - 8 * Z.of_nat (length ws)) (8 * Z.of_nat (length ws)) -> ws <> [] ->
  exists m', push_words m (u64 top) ws = Ok (top - 8 * Z.of_nat (length ws), m') /\ words_below m' top ws /\
    agree_off m m' (top - 8 * Z.of_nat (length ws)) (8 * Z.of_nat (length ws)).
Proof.
  induction ws as [|w ws IH]; intros m top HF Ht Hm Hne; [done|]. apply Forall_cons in HF as [Hw HF]. cbn [length push_words] in *.
  assert (u64 (u64 top - 8) = top - 8) as -> by (unfold u64; rewrite Zminus_mod_idemp_l; apply Z.mod_small; lia). cbv zeta.
  destruct (store_word_ok m (top - 8) w) as (m1 & -> & L1 & A1); [intros a Ha; apply Hm; lia|done|]. rewrite bind_Ok.
  destruct ws as [|w' ws].
  - exists m1. split; [done|]. split; [|eapply agree_off_weaken; [exact A1|cbn; lia..]]. intros [|i] x Hx; cbn in Hx; [|by destruct i]. by injection Hx as <-.
  - destruct (IH m1 (top - 8) HF) as (m2 & E2 & W2 & A2); [cbn [length] in *; lia| |done|].
    { eapply mapped_off; [exact A1|]. intros a Ha. apply Hm. cbn [length] in *. lia. }
    rewrite (u64_small (top - 8)) in E2 by (unfold is_u64; cbn [length] in *; lia). exists m2. split; [rewrite E2; do 2 f_equal; cbn [length]; lia|]. split.
    + intros [|i] x Hx; cbn [lookup list_lookup] in Hx.
      * injection Hx as <-. rewrite (load_word_off _ _ _ _ _ A2) by (cbn [length]; lia). done.
      * specialize (W2 i x Hx). by replace (top - 8 * (Z.of_nat (S i) + 1)) with (top - 8 - 8 * (Z.of_nat i + 1)) by lia.
    + eapply agree_off_trans; [eapply agree_off_weaken; [exact A1|cbn [length]; lia..]|eapply agree_off_weaken; [exact A2|cbn [length]; lia..]].
Qed.

(** The offsets of a frame of [n] bytes. *)
Definition frame_ok (l : list (string * Z)) (n : Z) : Prop :=
  NoDup l.*2 /\ Forall (fun o => 0 <= o /\ o + 8 <= n /\ (8 | o)) l.*2.

Lemma frame_ok_check l n :
  bool_decide (NoDup l.*2) && forallb (fun o => (0 <=? o) && (o + 8 <=? n) && (o mod 8 =? 0))%Z l.*2 = true -> frame_ok l n.
Proof.
  intros [N F]%andb_true_iff. split; [by apply bool_decide_eq_true in N|]. apply Forall_forall. intros o Ho. rewrite forallb_forall in F.
  apply list_elem_of_In, F in Ho. rewrite !andb_true_iff in Ho. destruct Ho as [[?%Z.leb_le ?%Z.leb_le] ?%Z.eqb_eq]. split; [done|]. split; [done|]. by apply Z.mod_divide.
Qed.

Lemma frame_ok_cons r o l n : frame_ok ((r, o) :: l) n -> 0 <= o /\ o + 8 <= n /\ frame_ok l n /\ forall r' o', (r', o') ∈ l -> o' + 8 <= o \/ o + 8 <= o'.
Proof.
  intros [N F]. cbn in *. apply NoDup_cons in N as [N1 N2]. apply Forall_cons in F as [(F1 & F2 & [z Hz]) F']. split; [done|]. split; [done|]. split; [done|].
  intros r' o' Hin. apply (list_elem_of_fmap_2 snd) in Hin. cbn in Hin. destruct (proj1 (Forall_forall _ _) F' o' Hin) as (_ & _ & [z' Hz']). assert (o <> o') by (by intros ->). lia.
Qed.

Definition saved (m : bytes) (base : Z) (f : string -> Z) (l : list (string * Z)) : Prop :=
  forall r o, (r, o) ∈ l -> load_word m (base + o) = Ok (f r).

Definition slot_of (base : Z) (l : list (string * Z)) (a : Z) : Prop := exists r o, (r, o) ∈ l /\ base + o <= a < base + o + 8.

Lemma store_regs_slots l n : forall m, frame_ok l n -> (forall r, is_u64 (regs m r)) -> 0 <= sp m -> sp m + n <= 2 ^ 64 -> mapped (mem m) (sp m) n ->
  exists b, store_regs m l = Ok (set_mem m b) /\ saved b (sp m) (regs m) l /\
    (forall a, ~ slot_of (sp m) l a -> b !! a = mem m !! a) /\ (forall a, is_Some (mem m !! a) -> is_Some (b !! a)).
Proof.
  induction l as [|[r o] l IH]; intros m Hf Hr H0 Hn Hm; cbn [store_regs].
  - exists (mem m). split; [by destruct m|]. split; [by intros r o ?%not_elem_of_nil|done].
  - apply frame_ok_cons in Hf as (Ho1 & Ho2 & Hf & Hd). unfold store_reg. rewrite u64_small by (unfold is_u64; lia).
    destruct (store_word_ok (mem m) (sp m + o) (regs m r)) as (b & -> & L & A); [intros a Ha; apply Hm; lia|done|]. rewrite !bind_Ok.
    destruct (IH (set_mem m b) Hf Hr H0 Hn) as (b' & E & S & A1 & A2); [by eapply mapped_off|]. cbn [sp mem regs set_mem] in *. exists b'. split; [done|]. split; [|split].
    + intros r' o' [[= -> ->]|Hin]%elem_of_cons; [|by apply S]. rewrite <- L. apply load_le_frame. change (Z.of_nat 8) with 8.
      intros a Ha. apply A1. intros (r' & o' & Hin & Ha'). destruct (Hd r' o' Hin); lia.
    + intros a Ha. rewrite A1; [apply A; intros Ha'; apply Ha; exists r, o; split; [by left|lia]|].
      intros (r' & o' & Hin & Ha'). apply Ha. exists r', o'. split; [by right|done].
    + intros a Ha. by apply A2, A.
Qed.

Lemma store_regs_ok l n m : frame_ok l n -> (forall r, is_u64 (regs m r)) -> 0 <= sp m -> sp m + n <= 2 ^ 64 -> mapped (mem m) (sp m) n ->
  exists b, store_regs m l = Ok (set_mem m b) /\ saved b (sp m) (regs m) l /\ agree_off (mem m) b (sp m) n.
Proof.
  intros Hf Hr H0 Hn Hm. destruct (store_regs_slots l n m Hf Hr H0 Hn Hm) as (b & E & S & A1 & A2). exists b. split; [done|]. split; [done|]. split; [|done].
  intros a Ha. apply A1. intros (r & o & Hin & Ha'). apply (list_elem_of_fmap_2 snd) in Hin. destruct (proj1 (Forall_forall _ _) (proj2 Hf) o Hin). lia.
Qed.

(** The registers that a frame holds are loaded, the others stay. *)
Lemma load_regs_ok l n f : forall m, NoDup l.*1 -> frame_ok l n -> 0 <= sp m -> sp m + n <= 2 ^ 64 -> saved (mem m) (sp m) f l ->
  exists m', load_regs m l = Ok m' /\ sp m' = sp m /\ mem m' = mem m /\ sched_lock m' = sched_lock m /\ interrupts m' = interrupts m /\
    forall r, regs m' r = if bool_decide (r ∈ l.*1) then f r else regs m r.
Proof.
  induction l as [|[r o] l IH]; intros m N Hf H0 Hn S; cbn [load_regs]; [by exists m|].
  apply frame_ok_cons in Hf as (Ho1 & Ho2 & Hf & _). cbn in N. apply NoDup_cons in N as [N1 N]. unfold load_reg. rewrite u64_small by (unfold is_u64; lia).
  rewrite (S r o) by (by left). rewrite !bind_Ok. destruct (IH (set_reg m r (f r)) N Hf H0 Hn) as (m' & E & E1 & E2 & E3 & E4 & E5).
  { intros r' o' Hin. apply S. by right. }
  exists m'. split; [done|]. do 4 (split; [done|]). intros x. rewrite E5. cbn [regs set_reg fmap list_fmap fst].
  destruct (String.eqb_spec x r) as [->|Hne]; [rewrite (bool_decide_false (r ∈ l.*1)), (bool_decide_true (r ∈ r :: l.*1)) by (done || by left); done|].
  rewrite (bool_decide_ext (x ∈ r :: l.*1) (x ∈ l.*1)); [done|]. rewrite elem_of_cons. tauto.
Qed.

(** Pushes and pops are stores and loads at descending and ascending offsets. *)
Fixpoint ascending (o : Z) (l : list string) : list (string * Z) := match l with [] => [] | r :: l => (r, o) :: ascending (o + 8) l end.

Lemma pop_regs_eq l : forall m o, 0 <= sp m -> 0 <= o -> sp m + o + 8 * Z.of_nat (length l) < 2 ^ 64 ->
  pop_regs (set_sp m (sp m + o)) l = m' ← load_regs m (ascending o l); Ok (set_sp m' (sp m' + o + 8 * Z.of_nat (length l))).
Proof.
  induction l as [|r l IH]; intros m o H0 Ho Hn; cbn [pop_regs ascending load_regs length] in *; [rewrite bind_Ok; do 2 f_equal; lia|].
  unfold load_reg. cbn [sp mem set_sp]. destruct (load_word (mem m) (u64 (sp m + o))) as [v| | |]; [|done..]. rewrite !bind_Ok. cbn [sp set_sp set_reg].
  rewrite u64_small by (unfold is_u64; lia). change (set_sp (set_reg (set_sp m (sp m + o)) r v) (sp m + o + 8)) with (set_sp (set_reg m r v) (sp m + o + 8)).
  replace (sp m + o + 8) with (sp (set_reg m r v) + (o + 8)) by (cbn; lia). rewrite IH by (cbn; lia). destruct (load_regs (set_reg m r v) (ascending (o + 8) l)); [|done..]. rewrite !bind_Ok. do 2 f_equal. lia.
Qed.

Lemma u64_idem x : u64 (u64 x) = u64 x.
Proof. apply u64_small. unfold is_u64, u64. apply Z.mod_pos_bound. lia. Qed.

Lemma push_regs_eq l : forall m, push_regs m l = '(s, b) ← push_words (mem m) (sp m) (regs m <$> l); Ok (set_mem (set_sp m s) b).
Proof.
  induction l as [|r l IH]; intros m; cbn [push_regs push_words fmap list_fmap]; [by destruct m|]. unfold store_reg. cbn [sp mem regs set_sp]. rewrite u64_idem.
  destruct (store_word (mem m) (u64 (sp m - 8)) (regs m r)) as [b| | |]; [|done..]. rewrite !bind_Ok, IH. cbn [sp mem regs set_sp set_mem]. by destruct (push_words b _ _) as [[s b']| | |].
Qed.

(** A frame that was pushed word by word. *)
Lemma saved_words m top ws f l :
  words_below m top ws -> Forall (fun '(r, o) => exists i, o = 8 * (Z.of_nat (length ws) - 1 - Z.of_nat i) /\ ws !! i = Some (f r)) l ->
  saved m (top - 8 * Z.of_nat (length ws)) f l.
Proof.
  intros W HF r o Hin. destruct (proj1 (Forall_forall _ _) HF _ Hin) as (i & -> & Hi). rewrite <- (W i _ Hi). f_equal. lia.
Qed.

Lemma saved_frame m m' base f l n :
  frame_ok l n -> (forall a, base <= a < base + n -> m' !! a = m !! a) -> saved m base f l -> saved m' base f l.
Proof.
  intros [_ HF] H S r o Hin. rewrite <- (S r o Hin). apply load_le_frame. intros a Ha. apply H.
  apply (list_elem_of_fmap_2 snd) in Hin. destruct (proj1 (Forall_forall _ _) HF o Hin) as (H1 & H2 & _). cbn in *. lia.
Qed.

(** ** Switching away and back *)
Section Spec.
Context (finalize_mem : machine -> bytes) (finalize_regs : machine -> string -> Z).
(** The calling conventions: a function leaves the frames of its callers alone. *)
Hypothesis finalize_stack : forall m a, sp m <= a < sp m + 128 -> finalize_mem m !! a = mem m !! a.
Abbreviation x86_resume := (x86_resume finalize_mem finalize_regs).
Abbreviation riscv_resume := (riscv_resume finalize_mem finalize_regs).
Abbreviation loongarch_resume := (loongarch_resume finalize_mem finalize_regs).

(** The machine is out of the scheduler: lock released, interrupts on. *)
Definition released (m : machine) : Prop := sched_lock m = 0 /\ interrupts m = true.

(** riscv64 and loongarch64 save the same way. *)
Definition save_in (l : list (string * Z)) (n : Z) (m : machine) : res machine :=
  m ← store_regs (set_sp m (u64 (sp m - n))) l; store_reg m (regs m "a0") (sp m).
Definition resume_from (l : list (string * Z)) (n : Z) (m : machine) : res machine :=
  s ← load_word (mem m) (u64 (regs m "a1"));
  let m := leave_scheduler (schedule_finalize finalize_mem finalize_regs (set_sp m s)) in
  m ← load_regs m (rev l); Ok (set_pc (set_sp m (u64 (sp m + n))) (regs m "ra")).

Lemma fmap_rev {A B} (g : A -> B) l : g <$> rev l = rev (g <$> l).
Proof. induction l as [|x l IH]; [done|]. cbn. by rewrite fmap_app, IH. Qed.

Lemma frame_ok_rev l n : frame_ok l n -> frame_ok (rev l) n.
Proof. intros [N F]. unfold frame_ok. rewrite fmap_rev. by rewrite <- (Permutation_rev l.*2). Qed.

Lemma resume_ok l n m f base : frame_ok l n -> NoDup l.*1 -> 0 <= n <= 128 -> 0 <= base -> base + n < 2 ^ 64 -> is_u64 (regs m "a1") ->
  load_word (mem m) (regs m "a1") = Ok base -> saved (mem m) base f l -> "ra" ∈ l.*1 ->
  returns (resume_from l n m) (fun m' => (forall r, r ∈ l.*1 -> regs m' r = f r) /\ sp m' = base + n /\ pc m' = f "ra" /\ released m' /\
    forall a, base <= a < base + 128 -> mem m' !! a = mem m !! a).
Proof using finalize_stack.
  intros Hf Hn H128 H0 Hb Ha1 El Hs Hra. unfold resume_from. rewrite (u64_small _ Ha1), El, bind_Ok. cbv zeta. set (m1 := leave_scheduler _).
  assert (forall a, base <= a < base + 128 -> mem m1 !! a = mem m !! a) as Hm1 by (intros a Ha; unfold m1; cbn; by rewrite finalize_stack).
  destruct (load_regs_ok (rev l) n f m1) as (m' & E & E1 & E2 & E3 & E4 & E5).
  { rewrite fmap_rev. by rewrite <- Permutation_rev. }
  { by apply frame_ok_rev. }
  { done. }
  { unfold m1. cbn. lia. }
  { change (sp m1) with base. intros r o Hin.
    eapply saved_frame; [exact Hf| |exact Hs|]; [intros a Ha; apply Hm1; cbn in Ha; lia|]. by rewrite (Permutation_rev l). }
  rewrite E, bind_Ok. apply returns_Ok. cbn [regs sp pc mem set_pc set_sp]. rewrite E1, !E5. change (sp m1) with base.
  assert (forall r, r ∈ l.*1 -> r ∈ (rev l).*1) as Hrev by (intros r; by rewrite fmap_rev, <- Permutation_rev).
  split; [intros r Hr; rewrite E5, bool_decide_true by auto; done|]. split; [apply u64_small; unfold is_u64; lia|].
  split; [by rewrite bool_decide_true by auto|]. split; [split; cbn; [by rewrite E3|by rewrite E4]|]. intros a Ha. by rewrite E2, Hm1.
Qed.

Lemma save_ok l n m : frame_ok l n -> 0 < n -> (forall r, is_u64 (regs m r)) -> n <= sp m <= 2 ^ 64 -> mapped (mem m) (sp m - n) n -> mapped (mem m) (regs m "a0") 8 ->
  regs m "a0" + 8 <= sp m - n \/ sp m <= regs m "a0" ->
  returns (save_in l n m) (fun m' => saved (mem m') (sp m - n) (regs m) l /\ load_word (mem m') (regs m "a0") = Ok (sp m - n) /\
    forall a, ~ (sp m - n <= a < sp m) -> ~ (regs m "a0" <= a < regs m "a0" + 8) -> mem m' !! a = mem m !! a).
Proof using Type.
  intros Hf H0 Hr Hs Hm Hp Hd. unfold save_in. rewrite (u64_small (sp m - n)) by (unfold is_u64; lia).
  destruct (store_regs_ok l n (set_sp m (sp m - n)) Hf Hr) as (b & E & S & A); cbn [sp mem regs set_sp]; [lia|lia|done|]. rewrite E, bind_Ok. cbn [sp mem regs set_sp set_mem] in *.
  unfold store_reg. cbn [mem set_mem]. rewrite (u64_small _ (Hr _)). destruct (store_word_ok b (regs m "a0") (sp m - n)) as (b' & -> & L & A'); [by eapply mapped_off|unfold is_u64; lia|].
  rewrite bind_Ok. apply returns_Ok. cbn [mem set_mem]. split; [|split; [done|]].
  - eapply saved_frame; [exact Hf| |exact S]. intros a Ha. apply A'. lia.
  - intros a H1 H2. destruct A' as [-> _]; [|done]. apply A. lia.
Qed.
(** *** x86_64 *)
Definition x86_frame : list (string * Z) := ascending 0 ["r15"; "r14"; "r13"; "r12"; "rbp"; "rbx"].

Lemma x86_save_ok m : (forall r, is_u64 (regs m r)) -> 48 <= sp m < 2 ^ 64 -> mapped (mem m) (sp m - 48) 48 -> mapped (mem m) (regs m "rdi") 8 ->
  regs m "rdi" + 8 <= sp m - 48 \/ sp m <= regs m "rdi" ->
  returns (x86_save m) (fun m' => saved (mem m') (sp m - 48) (regs m) x86_frame /\ load_word (mem m') (regs m "rdi") = Ok (sp m - 48) /\
    forall a, ~ (sp m - 48 <= a < sp m) -> ~ (regs m "rdi" <= a < regs m "rdi" + 8) -> mem m' !! a = mem m !! a).
Proof using Type.
  intros Hr Hs Hm Hp Hd. unfold x86_save. rewrite push_regs_eq. set (ws := regs m <$> _). assert (length ws = 6%nat) as Hl by done.
  assert (u64 (sp m) = sp m) as Eu by (apply u64_small; unfold is_u64; lia). destruct (push_words_ok ws (mem m) (sp m)) as (b & E & W & A); rewrite ?Hl; [by apply Forall_fmap, Forall_true|lia|exact Hm|done|].
  rewrite Eu in E. rewrite E, bind_Ok. rewrite Hl in *. change (8 * Z.of_nat 6) with 48 in *. unfold store_reg. cbn [mem sp regs set_mem set_sp]. rewrite bind_Ok. cbn [mem sp regs set_mem set_sp]. rewrite (u64_small _ (Hr _)).
  destruct (store_word_ok b (regs m "rdi") (sp m - 48)) as (b' & -> & L & A'); [by eapply mapped_off|unfold is_u64; lia|]. rewrite bind_Ok. apply returns_Ok. cbn [mem set_mem].
  split; [|split; [done|]].
  - eapply (saved_frame b b' _ _ _ 48); [by apply frame_ok_check|intros a Ha; apply A'; lia|].
    change 48 with (8 * Z.of_nat (length ws)). apply saved_words; [done|]. repeat constructor; [by exists 5%nat|by exists 4%nat|by exists 3%nat|by exists 2%nat|by exists 1%nat|by exists 0%nat].
  - intros a H1 H2. destruct A' as [-> _]; [|done]. apply A. lia.
Qed.

Lemma x86_resume_ok m f base ra resume : 8 <= base -> base + 56 < 2 ^ 64 -> is_u64 (regs m "rsi") -> is_u64 resume ->
  load_word (mem m) (regs m "rsi") = Ok base -> saved (mem m) base f x86_frame -> load_word (mem m) (base + 48) = Ok ra -> mapped (mem m) (base - 8) 8 ->
  returns (x86_resume resume m) (fun m' => (forall r, r ∈ x86_frame.*1 -> regs m' r = f r) /\ sp m' = base + 56 /\ pc m' = ra /\ released m' /\
    forall a, base <= a < base + 128 -> mem m' !! a = mem m !! a).
Proof using finalize_stack.
  intros H0 Hb Hrsi Hres El Hs Hra Hm. unfold ContextSwitch.x86_resume. rewrite (u64_small _ Hrsi), El, bind_Ok. cbv zeta. unfold store_reg. cbn [mem sp set_sp].
  rewrite u64_small by (unfold is_u64; lia). destruct (store_word_ok (mem m) (base - 8) resume Hm Hres) as (b & -> & _ & A). rewrite !bind_Ok. set (m1 := leave_scheduler _).
  assert (forall a, base <= a < base + 128 -> mem m1 !! a = mem m !! a) as Hm1.
  { intros a Ha. unfold m1. cbn. rewrite finalize_stack by done. cbn. apply A. lia. }
  replace m1 with (set_sp m1 (sp m1 + 0)) by (unfold m1; cbn; by rewrite Z.add_0_r).
  rewrite (pop_regs_eq _ m1 0) by (change (sp m1) with base; cbn; lia). fold x86_frame. cbn [length]. change (8 * Z.of_nat 6) with 48.
  destruct (load_regs_ok x86_frame 48 f m1) as (m' & E & E1 & E2 & E3 & E4 & E5).
  { apply (bool_decide_unpack _). by vm_compute. }
  { by apply frame_ok_check. }
  { change (sp m1) with base. lia. }
  { change (sp m1) with base. lia. }
  { change (sp m1) with base. eapply saved_frame; [by apply (frame_ok_check _ 48)| |exact Hs]. intros a Ha. apply Hm1. lia. }
  rewrite E, !bind_Ok. unfold x86_ret. cbn [mem sp set_sp]. rewrite E1, E2. change (sp m1) with base. rewrite Z.add_0_r.
  assert (load_word (mem m1) (base + 48) = Ok ra) as -> by (rewrite <- Hra; apply load_le_frame; intros a Ha; apply Hm1; lia).
  rewrite bind_Ok. apply returns_Ok. cbn [regs sp pc mem set_pc set_sp]. split; [intros r Hr; by rewrite E5, bool_decide_true|].
  split; [rewrite u64_small by (unfold is_u64; lia); lia|]. split; [done|]. split; [split; cbn; [by rewrite E3|by rewrite E4]|]. intros a Ha. by rewrite E2, Hm1.
Qed.
End Spec.

(** ** The specifications *)
Section Claims.
Context (finalize_mem : machine -> bytes) (finalize_regs : machine -> string -> Z).
(** The calling conventions: a function leaves the frames of its callers alone. *)
Context (finalize_stack : forall m a, sp m <= a < sp m + 128 -> finalize_mem m !! a = mem m !! a).

(** A thread at the call of [arch_thread_switch], with room on its stack and
    its own structure in register [prev]. *)
Record can_switch (prev : string) (m : machine) : Prop := {
  cs_regs : forall r, is_u64 (regs m r);
  cs_sp : 128 <= sp m < 2 ^ 64 - 8;
  cs_stack : mapped (mem m) (sp m - 128) 136;
  cs_thread : mapped (mem m) (regs m prev) 8;
  cs_apart : regs m prev + 8 <= sp m - 128 \/ sp m + 8 <= regs m prev;
}.

(** The thread that called with machine [m] is resumed, whenever that is, with
    the registers its caller relies on, behind the call. *)
Definition switches_back (save resume : machine -> res machine) (prev next : string) (callee_saved : list string) (frame ret ra : Z) (m : machine) : Prop :=
  returns (save m) (fun m1 =>
    (forall a, ~ (sp m - frame <= a < sp m) -> ~ (regs m prev <= a < regs m prev + 8) -> mem m1 !! a = mem m !! a) /\
    forall m2, regs m2 next = regs m prev -> (forall a, sp m - frame <= a < sp m + ret -> mem m2 !! a = mem m1 !! a) ->
      (forall a, regs m prev <= a < regs m prev + 8 -> mem m2 !! a = mem m1 !! a) -> mapped (mem m2) (sp m - frame - 8) 8 ->
      returns (resume m2) (fun m3 => (forall r, r ∈ callee_saved -> regs m3 r = regs m r) /\ sp m3 = sp m + ret /\ pc m3 = ra /\ released m3)).

Lemma frame_switches_back l n m :
  frame_ok l n -> NoDup l.*1 -> 0 < n <= 120 -> "ra" ∈ l.*1 -> can_switch "a0" m ->
  switches_back (save_in l n) (resume_from finalize_mem finalize_regs l n) "a0" "a1" l.*1 n 0 (regs m "ra") m.
Proof using finalize_stack.
  intros Hf Hn H0 Hra [C1 C2 C3 C4 C5]. eapply returns_mono; [apply (save_ok l n m Hf); [lia|done|lia|intros a Ha; apply C3; lia|done|lia]|].
  intros m1 (S & L & F). split; [done|]. intros m2 E Hst Hth _.
  assert (load_word (mem m2) (regs m "a0") = Ok (sp m - n)) as L2 by (rewrite <- L; apply load_le_frame; done). rewrite <- E in L2.
  eapply returns_mono; [apply (resume_ok finalize_mem finalize_regs finalize_stack l n m2 (regs m) (sp m - n) Hf Hn); [lia|lia|lia|by rewrite E|done| |done]|].
  { eapply saved_frame; [exact Hf| |exact S]. intros a Ha. apply Hst. lia. }
  intros m3 (H1 & H2 & H3 & H4 & _). split; [done|]. split; [lia|done].
Qed.

Lemma x86_switches_back resume m ra : is_u64 resume -> can_switch "rdi" m -> load_word (mem m) (sp m) = Ok ra ->
  switches_back x86_save (x86_resume finalize_mem finalize_regs resume) "rdi" "rsi" ["rbx"; "rbp"; "r12"; "r13"; "r14"; "r15"] 48 8 ra m.
Proof using finalize_stack.
  intros Hres [C1 C2 C3 C4 C5] Hra. eapply returns_mono; [apply (x86_save_ok m C1); [lia|intros a Ha; apply C3; lia|done|lia]|].
  intros m1 (S & L & F). split; [done|]. intros m2 E Hst Hth Hm.
  assert (load_word (mem m2) (regs m "rdi") = Ok (sp m - 48)) as L2 by (rewrite <- L; apply load_le_frame; done). rewrite <- E in L2.
  eapply returns_mono; [apply (x86_resume_ok finalize_mem finalize_regs finalize_stack m2 (regs m) (sp m - 48) ra resume); try done; [lia|lia|by rewrite E| |]|].
  { eapply saved_frame; [by apply (frame_ok_check _ 48)| |exact S]. intros a Ha. apply Hst. lia. }
  { rewrite <- Hra. replace (sp m - 48 + 48) with (sp m) by lia. apply load_le_frame. intros a Ha. change (Z.of_nat 8) with 8 in Ha. rewrite Hst by lia. apply F; lia. }
  intros m3 (H1 & H2 & H3 & H4 & _). split; [|split; [lia|done]]. intros r Hr. apply H1. cbn. set_solver.
Qed.


(** A machine that switches to the thread whose stack ends at [kstack], in
    memory [b], returns into the trampoline and from there into the entry
    point, with its arguments. *)
Definition runs_entry (resume trampoline : machine -> res machine) (next : string) (args : list string) (tramp : Z) (returns_to : Z -> machine -> Prop)
    (kstack : Z) (b : bytes) (top entry arg1 arg2 : Z) : Prop :=
  forall m, is_u64 (regs m next) -> load_word (mem m) (regs m next) = Ok kstack -> (forall a, kstack <= a < top -> mem m !! a = b !! a) ->
    mapped (mem m) (kstack - 8) 8 ->
    returns (resume m) (fun m1 => pc m1 = tramp /\ returns (trampoline m1) (fun m2 =>
      pc m2 = entry /\ released m2 /\ (forall i r, args !! i = Some r -> regs m2 r = default 0 ([arg1; arg2] !! i)) /\ returns_to top m2)).

(** The stack that [prepare] leaves is such a stack, and nothing else is written. *)
Definition starts (prepare : bytes -> Z -> Z -> Z -> Z -> res (Z * bytes)) (ready : Z -> bytes -> Z -> Z -> Z -> Z -> Prop) (top entry arg1 arg2 : Z) (b : bytes) : Prop :=
  returns (prepare b top entry arg1 arg2) (fun '(kstack, b') =>
    top - 128 <= kstack /\ (forall a, ~ (kstack <= a < top) -> b' !! a = b !! a) /\ ready kstack b' top entry arg1 arg2).

(** On x86_64 the return address is on the stack, on the others in a register. *)
Definition x86_runs (resume exit tramp : Z) : Z -> bytes -> Z -> Z -> Z -> Z -> Prop :=
  runs_entry (x86_resume finalize_mem finalize_regs resume) x86_trampoline "rsi" ["rdi"; "rsi"; "rdx"; "rcx"; "r8"; "r9"] tramp
    (fun top m => load_word (mem m) (sp m) = Ok exit /\ sp m = top - 8).
Definition a0_to_a7 : list string := ["a0"; "a1"; "a2"; "a3"; "a4"; "a5"; "a6"; "a7"].
Definition riscv_runs (exit tramp : Z) : Z -> bytes -> Z -> Z -> Z -> Z -> Prop :=
  runs_entry (riscv_resume finalize_mem finalize_regs) riscv_trampoline "a1" a0_to_a7 tramp (fun top m => regs m "ra" = exit /\ sp m = top).
Definition loongarch_runs (exit tramp : Z) : Z -> bytes -> Z -> Z -> Z -> Z -> Prop :=
  runs_entry (loongarch_resume finalize_mem finalize_regs) loongarch_trampoline "a1" a0_to_a7 tramp (fun top m => regs m "ra" = exit /\ sp m = top).

(** The trampoline of riscv64 and loongarch64, on the last two words. *)
Lemma trampoline_ok m entry exit : 0 <= sp m -> sp m + 16 <= 2 ^ 64 -> load_word (mem m) (sp m) = Ok entry -> load_word (mem m) (sp m + 8) = Ok exit ->
  returns (riscv_trampoline m) (fun m' => pc m' = entry /\ sched_lock m' = sched_lock m /\ interrupts m' = interrupts m /\ regs m' "ra" = exit /\ sp m' = u64 (sp m + 16) /\
    regs m' "a0" = regs m "s0" /\ regs m' "a1" = regs m "s1" /\ regs m' "a2" = regs m "s2" /\ regs m' "a3" = regs m "s3" /\ regs m' "a4" = regs m "s4" /\
    regs m' "a5" = regs m "s5" /\ regs m' "a6" = regs m "s6" /\ regs m' "a7" = regs m "s7").
Proof using Type.
  intros H0 Hn E1 E2. unfold riscv_trampoline. cbv zeta. set (m1 := foldl _ _ _).
  assert (sp m1 = sp m /\ mem m1 = mem m /\ sched_lock m1 = sched_lock m /\ interrupts m1 = interrupts m /\
    regs m1 "a0" = regs m "s0" /\ regs m1 "a1" = regs m "s1" /\ regs m1 "a2" = regs m "s2" /\ regs m1 "a3" = regs m "s3" /\ regs m1 "a4" = regs m "s4" /\
    regs m1 "a5" = regs m "s5" /\ regs m1 "a6" = regs m "s6" /\ regs m1 "a7" = regs m "s7") as (Es & Em & El & Ei & Q) by done. clearbody m1.
  cbn [load_regs]. unfold load_reg. rewrite Es, Em, Z.add_0_r, (u64_small (sp m)) by (unfold is_u64; lia). rewrite E1, !bind_Ok. cbn [sp mem set_reg]. rewrite Es, Em, u64_small by (unfold is_u64; lia).
  rewrite E2, !bind_Ok. apply returns_Ok. rewrite <- El, <- Ei, <- Es. cbn. by rewrite Es.
Qed.

Lemma frame_starts l n ws f tramp top entry arg1 arg2 exit b :
  frame_ok l n -> NoDup l.*1 -> 0 < n <= 112 -> "ra" ∈ l.*1 -> n = 8 * (Z.of_nat (length ws) - 2) -> Forall is_u64 ws -> ws !! 0%nat = Some exit -> ws !! 1%nat = Some entry ->
  Forall (fun '(r, o) => exists i, o = 8 * (Z.of_nat (length ws) - 1 - Z.of_nat i) /\ ws !! i = Some (f r)) l -> f "ra" = tramp ->
  (forall i r, ["s0"; "s1"; "s2"; "s3"; "s4"; "s5"; "s6"; "s7"] !! i = Some r -> r ∈ l.*1 /\ f r = default 0 ([arg1; arg2] !! i)) ->
  136 <= top < 2 ^ 64 -> mapped b (top - 128) 128 ->
  starts (fun b top _ _ _ => push_words b top ws)
    (runs_entry (resume_from finalize_mem finalize_regs l n) riscv_trampoline "a1" a0_to_a7 tramp (fun top m => regs m "ra" = exit /\ sp m = top)) top entry arg1 arg2 b.
Proof using finalize_stack.
  intros Hf Hn H0 Hra Hk Hu Hx He Hl Htr Hargs Ht Hb. unfold starts. assert (ws <> []) as Hne by (by destruct ws).
  destruct (push_words_ok ws b top Hu) as (b' & E & W & A); [lia|intros a Ha; apply Hb; lia|done|]. rewrite u64_small in E by (unfold is_u64; lia). exists (top - 8 * Z.of_nat (length ws), b'). split; [done|].
  split; [lia|]. split; [intros a Ha; apply A; lia|]. intros m Ha1 El Hm _. pose proof (saved_words b' top ws f l W Hl) as S.
  eapply returns_mono; [apply (resume_ok finalize_mem finalize_regs finalize_stack l n m f (top - 8 * Z.of_nat (length ws)) Hf Hn); [lia|lia|lia|done|done| |done]|].
  { eapply saved_frame; [exact Hf| |exact S]. intros a Ha. apply Hm. lia. }
  intros m1 (H1 & H2 & H3 & H4 & H5). rewrite Htr in H3. split; [done|].
  assert (forall i w, (i < 2)%nat -> ws !! i = Some w -> load_word (mem m1) (top - 8 * (Z.of_nat i + 1)) = Ok w) as Htop.
  { intros i w Hi Hw. rewrite <- (W i w Hw). apply load_le_frame. intros a Ha. change (Z.of_nat 8) with 8 in Ha. rewrite H5 by lia. apply Hm. lia. }
  destruct (trampoline_ok m1 entry exit) as (m2 & E2 & P1 & P2 & P3 & P4 & P5 & Q0 & Q1 & Q2 & Q3 & Q4 & Q5 & Q6 & Q7); [lia|lia| | |].
  { replace (sp m1) with (top - 8 * (Z.of_nat 1 + 1)) by lia. by apply (Htop 1%nat); [lia|]. }
  { replace (sp m1 + 8) with (top - 8 * (Z.of_nat 0 + 1)) by lia. by apply (Htop 0%nat); [lia|]. }
  exists m2. split; [done|]. split; [done|]. split; [split; [by rewrite P2; apply H4|by rewrite P3; apply H4]|]. split; [|split; [done|rewrite P5, u64_small by (unfold is_u64; lia); lia]].
  intros i r Hi. assert (exists r', ["s0"; "s1"; "s2"; "s3"; "s4"; "s5"; "s6"; "s7"] !! i = Some r' /\ regs m2 r = regs m1 r') as (r' & Hr' & ->).
  { do 8 (destruct i as [|i]; [injection Hi as <-; eexists; split; [reflexivity|assumption]|]). done. }
  destruct (Hargs i r' Hr') as [Hin <-]. by apply H1.
Qed.

Lemma x86_starts resume exit tramp top entry arg1 arg2 b :
  is_u64 resume -> Forall is_u64 [exit; entry; tramp; arg1; arg2] -> 136 <= top < 2 ^ 64 -> mapped b (top - 128) 128 ->
  starts (x86_prepare_thread_stack exit tramp) (x86_runs resume exit tramp) top entry arg1 arg2 b.
Proof using finalize_stack.
  intros Hres Hu Ht Hb. unfold starts, x86_prepare_thread_stack. set (ws := [exit; entry; tramp; arg1; arg2; 0; 0; 0; 0]).
  destruct (push_words_ok ws b top) as (b' & E & W & A); change (8 * Z.of_nat (length ws)) with 72 in *; [|lia|intros a Ha; apply Hb; lia|done|].
  { change ws with (app [exit; entry; tramp; arg1; arg2] [0; 0; 0; 0]). apply Forall_app. split; [done|]. by repeat constructor. }
  rewrite u64_small in E by (unfold is_u64; lia). exists (top - 72, b'). split; [done|]. split; [lia|]. split; [intros a Ha; apply A; lia|]. intros m Ha1 El Hm Hcall.
  set (f := fun r => if (r =? "rbx")%string then arg1 else if (r =? "rbp")%string then arg2 else 0).
  assert (saved b' (top - 72) f x86_frame) as S.
  { change 72 with (8 * Z.of_nat (length ws)). apply saved_words; [done|]. repeat constructor; [by exists 8%nat|by exists 7%nat|by exists 6%nat|by exists 5%nat|by exists 4%nat|by exists 3%nat]. }
  assert (forall b2, (forall a, top - 24 <= a < top -> b2 !! a = b' !! a) -> load_word b2 (top - 24) = Ok tramp /\ load_word b2 (top - 16) = Ok entry /\ load_word b2 (top - 8) = Ok exit) as Htop.
  { intros b2 H2. rewrite <- (W 2%nat tramp eq_refl), <- (W 1%nat entry eq_refl), <- (W 0%nat exit eq_refl). split; [|split]; apply load_le_frame; intros a Ha; apply H2; cbn in Ha |- *; lia. }
  eapply returns_mono; [apply (x86_resume_ok finalize_mem finalize_regs finalize_stack m f (top - 72) tramp resume); [lia|lia|done|done|done| | |done]|].
  { eapply saved_frame; [by apply (frame_ok_check _ 48)| |exact S]. intros a Ha. apply Hm. lia. }
  { replace (top - 72 + 48) with (top - 24) by lia. apply Htop. intros a Ha. apply Hm. lia. }
  intros m1 (H1 & H2 & H3 & [H4 H4'] & H5). split; [done|]. unfold x86_trampoline. set (m1' := foldl _ _ _).
  assert (sp m1' = top - 16 /\ mem m1' = mem m1 /\ sched_lock m1' = 0 /\ interrupts m1' = true /\ regs m1' "rdi" = regs m1 "rbx" /\ regs m1' "rsi" = regs m1 "rbp" /\
    regs m1' "rdx" = regs m1 "r12" /\ regs m1' "rcx" = regs m1 "r13" /\ regs m1' "r8" = regs m1 "r14" /\ regs m1' "r9" = regs m1 "r15") as (Es & Em & El' & Ei & Q).
  { split; [cbn; lia|]. by cbn. } clearbody m1'.
  destruct (Htop (mem m1)) as (_ & T1 & T2). { intros a Ha. rewrite H5 by lia. apply Hm. lia. }
  unfold x86_ret. rewrite Em, Es, T1, bind_Ok. apply returns_Ok. cbn [pc regs sp mem set_sp set_pc]. split; [done|]. split; [done|]. split.
  - intros i r Hi. destruct Q as (Q0 & Q1 & Q2 & Q3 & Q4 & Q5).
    do 6 (destruct i as [|i]; [injection Hi as <-; (rewrite Q0 || rewrite Q1 || rewrite Q2 || rewrite Q3 || rewrite Q4 || rewrite Q5); rewrite H1; [done|apply (bool_decide_unpack _); by vm_compute]|]). done.
  - rewrite Em, u64_small by (unfold is_u64; lia). replace (top - 16 + 8) with (top - 8) by lia. done.
Qed.

(** The values that a prepared frame holds. *)
Definition initial (tramp arg1 arg2 : Z) (r : string) : Z :=
  if (r =? "ra")%string then tramp else if (r =? "s0")%string then arg1 else if (r =? "s1")%string then arg2 else 0.

Lemma riscv_starts exit tramp top entry arg1 arg2 b :
  Forall is_u64 [exit; entry; tramp; arg1; arg2] -> 136 <= top < 2 ^ 64 -> mapped b (top - 128) 128 ->
  starts (riscv_prepare_thread_stack exit tramp) (riscv_runs exit tramp) top entry arg1 arg2 b.
Proof using finalize_stack.
  intros Hu Ht Hb. repeat (apply Forall_cons in Hu as [? Hu]).
  unfold riscv_runs. change (ContextSwitch.riscv_resume finalize_mem finalize_regs) with (resume_from finalize_mem finalize_regs riscv_frame 104).
  apply (frame_starts riscv_frame 104 [exit; entry; tramp; arg1; arg2; 0; 0; 0; 0; 0; 0; 0; 0; 0; 0] (initial tramp arg1 arg2)); try done; try lia.
  - by apply frame_ok_check.
  - by apply (bool_decide_unpack _); vm_compute.
  - by left.
  - repeat (constructor; [done|]). by constructor.
  - repeat constructor; [by exists 2%nat|by exists 3%nat|by exists 4%nat|by exists 5%nat|by exists 6%nat|by exists 7%nat|by exists 8%nat|by exists 9%nat|by exists 10%nat|by exists 11%nat|by exists 12%nat|by exists 13%nat|by exists 14%nat].
  - intros i r Hi. do 8 (destruct i as [|i]; [injection Hi as <-; split; [apply (bool_decide_unpack _); by vm_compute|done]|]). done.
Qed.

Lemma loongarch_starts exit tramp top entry arg1 arg2 b :
  Forall is_u64 [exit; entry; tramp; arg1; arg2] -> 136 <= top < 2 ^ 64 -> mapped b (top - 128) 128 ->
  starts (loongarch_prepare_thread_stack exit tramp) (loongarch_runs exit tramp) top entry arg1 arg2 b.
Proof using finalize_stack.
  intros Hu Ht Hb. repeat (apply Forall_cons in Hu as [? Hu]).
  unfold loongarch_runs, loongarch_trampoline. change (ContextSwitch.loongarch_resume finalize_mem finalize_regs) with (resume_from finalize_mem finalize_regs loongarch_frame 88).
  apply (frame_starts loongarch_frame 88 [exit; entry; tramp; 0; arg1; arg2; 0; 0; 0; 0; 0; 0; 0] (initial tramp arg1 arg2)); try done; try lia.
  - by apply frame_ok_check.
  - by apply (bool_decide_unpack _); vm_compute.
  - by left.
  - repeat (constructor; [done|]). by constructor.
  - repeat constructor; [by exists 2%nat|by exists 3%nat|by exists 4%nat|by exists 5%nat|by exists 6%nat|by exists 7%nat|by exists 8%nat|by exists 9%nat|by exists 10%nat|by exists 11%nat|by exists 12%nat].
  - intros i r Hi. do 8 (destruct i as [|i]; [injection Hi as <-; split; [apply (bool_decide_unpack _); by vm_compute|done]|]). done.
Qed.

(** on each architecture, the first switch to a thread whose stack was
    prepared returns into the trampoline, which enters the entry point with the
    two arguments and zeroes in the argument registers, with [thread_exit] as
    the return address, on an empty stack aligned as the calling convention
    asks, with the scheduler's lock released and interrupts on. *)
Theorem new_thread_starts resume exit tramp top entry arg1 arg2 b :
  is_u64 resume -> Forall is_u64 [exit; entry; tramp; arg1; arg2] -> 136 <= top < 2 ^ 64 -> mapped b (top - 128) 128 ->
  starts (x86_prepare_thread_stack exit tramp) (x86_runs resume exit tramp) top entry arg1 arg2 b /\
  starts (riscv_prepare_thread_stack exit tramp) (riscv_runs exit tramp) top entry arg1 arg2 b /\
  starts (loongarch_prepare_thread_stack exit tramp) (loongarch_runs exit tramp) top entry arg1 arg2 b.
Proof using finalize_stack.
  intros Hres Hu Ht Hb. split; [by apply x86_starts|]. split; [by apply riscv_starts|by apply loongarch_starts].
Qed.
End Claims.

(** ** A stack and two threads *)
Module Demo.
Definition ram : bytes := list_to_map (map (fun n => (0x1000 + Z.of_nat n, 0)) (seq 0 2048)).

Lemma switch_ram_mapped p n : 0x1000 <= p -> p + n <= 0x1800 -> mapped ram p n.
Proof.
  intros Hp Hn a Ha. unfold ram. exists 0. apply elem_of_list_to_map_1'.
  - by intros y (k & [= _ ->] & _)%list_elem_of_fmap.
  - apply list_elem_of_fmap. exists (Z.to_nat (a - 0x1000)). split; [f_equal; lia|]. apply elem_of_seq. lia.
Qed.

(** Every register holds the address of the thread, 0x1100. *)
Definition running : machine := Machine (fun _ => 0x1100) 0x1700 0x40 ram 1 false.

Lemma switchable prev : can_switch prev running.
Proof. split; cbn; [by intros|lia|by apply switch_ram_mapped|by apply switch_ram_mapped|left; lia]. Qed.
End Demo.


Lemma new_thread_starts_witness :
  starts (x86_prepare_thread_stack 0x10 0x20) (x86_runs mem regs 0x80 0x10 0x20) 0x1800 0x30 1 2 Demo.ram /\
  starts (riscv_prepare_thread_stack 0x10 0x20) (riscv_runs mem regs 0x10 0x20) 0x1800 0x30 1 2 Demo.ram /\
  starts (loongarch_prepare_thread_stack 0x10 0x20) (loongarch_runs mem regs 0x10 0x20) 0x1800 0x30 1 2 Demo.ram.
Proof.
  apply (new_thread_starts mem regs ltac:(done) 0x80 0x10 0x20 0x1800 0x30 1 2 Demo.ram); [done|by repeat constructor|lia|by apply Demo.switch_ram_mapped].
Defined.
