(* ===== verification/Fpu.v ===== *)
(** * Floating point state of user threads

    arch/loongarch64/cpu/fpu (setup_fpu, the save and restore routines),
    arch/loongarch64/thread/switch.c and the routines of
    arch/riscv64/thread/switch.S.  A register file is the values of its 32
    registers; the save area is memory. *)

From S2P Require Import Prelude CString CStringSpec ContextSwitch.
#[local] Open Scope Z_scope.

(** ** Register files in memory *)

(** [ITER_REGS(ZERO_TO_31, fst \i, (\i * w))]: register [i] at [area + i * w]. *)
Fixpoint save_regs (w : nat) (m : bytes) (area : Z) (rs : list Z) : res bytes :=
  match rs with
  | [] => Ok m
  | r :: rs => m ← store_bytes m area (le_bytes w r); save_regs w m (area + Z.of_nat w) rs
  end.
Fixpoint restore_regs (w : nat) (m : bytes) (area : Z) (n : nat) : res (list Z) :=
  match n with
  | O => Ok []
  | S n => r ← load_le m area w; rs ← restore_regs w m (area + Z.of_nat w) n; Ok (r :: rs)
  end.

(** ** loongarch64 *)
Module La64.
Inductive la64_fpu_t := LOONGARCH64_FPU_STD | LOONGARCH64_FPU_LSX | LOONGARCH64_FPU_LASX.

Definition LOONGARCH64_FPU_CONTROL_AREA_SIZE : Z := 16.
Definition la64_fpu_save_sizes (f : la64_fpu_t) : Z :=
  match f with
  | LOONGARCH64_FPU_STD => 32 * 8 + LOONGARCH64_FPU_CONTROL_AREA_SIZE
  | LOONGARCH64_FPU_LSX => 32 * 16 + LOONGARCH64_FPU_CONTROL_AREA_SIZE
  | LOONGARCH64_FPU_LASX => 32 * 32 + LOONGARCH64_FPU_CONTROL_AREA_SIZE
  end.
Definition la64_fpu_save_alignments (f : la64_fpu_t) : Z :=
  match f with LOONGARCH64_FPU_STD => 8 | LOONGARCH64_FPU_LSX => 16 | LOONGARCH64_FPU_LASX => 32 end.

(** cpucfg.h: the word and the bit of a feature. *)
Definition CPUCFG_HAS_FPU : Z * Z := (1, 2).
Definition CPUCFG_HAS_LSX : Z * Z := (1, 6).
Definition CPUCFG_HAS_LASX : Z * Z := (1, 7).
Definition CSR_EUEN_FPU : Z := 1.
Definition CSR_EUEN_LSX : Z := 2.
Definition CSR_EUEN_LASX : Z := 4.

Definition cpucfg_check (cpucfg : Z -> Z) (req : Z * Z) : bool := negb (Z.land (cpucfg req.1) (shl64 1 req.2) =? 0).

(** The unit that is used, and the enable register. *)
Definition setup_fpu (cpucfg : Z -> Z) (euen : Z) : res (la64_fpu_t * Z) :=
  _ ← assert (cpucfg_check cpucfg CPUCFG_HAS_FPU);
  let best := LOONGARCH64_FPU_STD in
  let euen := Z.lor euen CSR_EUEN_FPU in
  let '(best, euen) := if cpucfg_check cpucfg CPUCFG_HAS_LSX then (LOONGARCH64_FPU_LSX, Z.lor euen CSR_EUEN_LSX) else (best, euen) in
  let '(best, euen) := if cpucfg_check cpucfg CPUCFG_HAS_LASX then (LOONGARCH64_FPU_LASX, Z.lor euen CSR_EUEN_LASX) else (best, euen) in
  Ok (best, euen).

(** The state that a thread sees: registers as wide as the unit, control
    register, condition flags. *)
Record fpu := Fpu { fregs : list Z; fcsr0 : Z; fcc : list bool }.

Definition width (f : la64_fpu_t) : nat :=
  match f with LOONGARCH64_FPU_STD => 8 | LOONGARCH64_FPU_LSX => 16 | LOONGARCH64_FPU_LASX => 32 end%nat.

(** [bstrins.d $t1, $t0, i, i], from flag [i] on. *)
Fixpoint pack_fcc (i : Z) (t1 : Z) (bs : list bool) : Z :=
  match bs with [] => t1 | b :: bs => pack_fcc (i + 1) (if b then Z.setbit t1 i else Z.clearbit t1 i) bs end.

Definition save_fpu_control (m : bytes) (area : Z) (s : fpu) : res bytes :=
  m ← store_word m area (fcsr0 s); store_word m (area + 8) (pack_fcc 0 0 (fcc s)).
Definition restore_fpu_control (m : bytes) (area : Z) : res (Z * list bool) :=
  t1 ← load_word m (area + 8);
  t0 ← load_word m area;
  Ok (u32 t0, (fun i => Z.testbit t1 i) <$> [0; 1; 2; 3; 4; 5; 6; 7]).

Definition arch_fpu_save (f : la64_fpu_t) (m : bytes) (area : Z) (s : fpu) : res bytes :=
  m ← save_regs (width f) m area (fregs s);
  save_fpu_control m (area + la64_fpu_save_sizes f - LOONGARCH64_FPU_CONTROL_AREA_SIZE) s.
Definition arch_fpu_restore (f : la64_fpu_t) (m : bytes) (area : Z) : res fpu :=
  rs ← restore_regs (width f) m area 32;
  '(c, b) ← restore_fpu_control m (area + la64_fpu_save_sizes f - LOONGARCH64_FPU_CONTROL_AREA_SIZE);
  Ok (Fpu rs c b).
End La64.

(** ** riscv64 *)
Module Rv64.
Definition RISCV_FPU_SAVE_SIZE : Z := 32 * 8 + 8.
Record fpu := Fpu { fregs : list Z; fcsr : Z; sstatus : Z }.

(** Only a dirty unit is saved; the state becomes clean. *)
Definition arch_fpu_save (m : bytes) (area : Z) (s : fpu) : res (bytes * fpu) :=
  if negb (Z.land (sstatus s) 0x6000 =? 0x6000) then Ok (m, s)
  else
    m ← store_word m (area + 256) (fcsr s);
    m ← save_regs 8 m area (fregs s);
    Ok (m, Fpu (fregs s) (fcsr s) (Z.ldiff (sstatus s) 0x2000)).
Definition arch_fpu_restore (m : bytes) (area : Z) (s : fpu) : res fpu :=
  t0 ← load_word m (area + 256);
  rs ← restore_regs 8 m area 32;
  Ok (Fpu rs (u32 t0) (Z.ldiff (sstatus s) 0x2000)).
End Rv64.

(** ** Register files *)
Lemma save_regs_ok w rs : forall m area, (0 < w)%nat -> Forall (fun r => 0 <= r < 256 ^ Z.of_nat w) rs -> mapped m area (Z.of_nat w * Z.of_nat (length rs)) ->
  exists m', save_regs w m area rs = Ok m' /\ agree_off m m' area (Z.of_nat w * Z.of_nat (length rs)) /\
    forall m2, (forall a, area <= a < area + Z.of_nat w * Z.of_nat (length rs) -> m2 !! a = m' !! a) -> restore_regs w m2 area (length rs) = Ok rs.
Proof.
  induction rs as [|r rs IH]; intros m area Hw HF Hm; cbn [save_regs restore_regs length].
  { exists m. split; [done|]. by split. }
  apply Forall_cons in HF as [Hr HF]. assert (length (le_bytes w r) = w) as Hl by (clear; revert r; induction w; intros r; [done|cbn; by rewrite IHw]).
  cbn [length] in Hm. rewrite Nat2Z.inj_succ in Hm. destruct (store_bytes_ok (le_bytes w r) m area) as (m1 & -> & H1); [intros a Ha; apply Hm; rewrite Hl in Ha; nia|]. rewrite bind_Ok, Hl in *.
  assert (agree_off m m1 area (Z.of_nat w)) as A1.
  { split; [intros x Hx; by rewrite H1, decide_False|]. intros x Hx. rewrite H1. case_decide; [|done]. apply lookup_lt_is_Some. rewrite Hl. lia. }
  destruct (IH m1 (area + Z.of_nat w) Hw HF) as (m2 & -> & A2 & R2); [eapply mapped_off; [exact A1|]; intros a Ha; apply Hm; nia|].
  exists m2. rewrite Nat2Z.inj_succ. split; [done|]. split; [eapply agree_off_trans; [eapply agree_off_weaken; [exact A1|nia..]|eapply agree_off_weaken; [exact A2|nia..]]|].
  intros m3 H3. assert (load_le m3 area w = Ok r) as ->.
  { rewrite <- Hl at 1. rewrite (load_le_lookup (le_bytes w r)), le_value_bytes; [done|done|]. intros i b Hi. apply lookup_lt_Some in Hi as Hlt. rewrite Hl in Hlt.
    rewrite H3 by nia. destruct A2 as [-> _]; [|lia]. rewrite H1, decide_True by lia. by replace (Z.to_nat (area + Z.of_nat i - area)) with i by lia. }
  rewrite bind_Ok, (R2 m3), bind_Ok; [done|]. intros a Ha. apply H3. nia.
Qed.

(** Two words at the end of an area. *)
Lemma store_two m a v1 v2 : mapped m a 16 -> is_u64 v1 -> is_u64 v2 ->
  exists m', (m1 ← store_word m a v1; store_word m1 (a + 8) v2) = Ok m' /\ load_word m' a = Ok v1 /\ load_word m' (a + 8) = Ok v2 /\ agree_off m m' a 16.
Proof.
  intros Hm H1 H2. destruct (store_word_ok m a v1) as (m1 & -> & L1 & A1); [intros x Hx; apply Hm; lia|done|]. rewrite bind_Ok.
  destruct (store_word_ok m1 (a + 8) v2) as (m2 & -> & L2 & A2); [eapply mapped_off; [exact A1|]; intros x Hx; apply Hm; lia|done|].
  exists m2. split; [done|]. split; [rewrite (load_word_off _ _ _ _ _ A2) by lia; done|]. split; [done|].
  eapply agree_off_trans; [eapply agree_off_weaken; [exact A1|lia..]|eapply agree_off_weaken; [exact A2|lia..]].
Qed.

Lemma load_word_on m m' a b n : (forall x, b <= x < b + n -> m' !! x = m !! x) -> b <= a -> a + 8 <= b + n -> load_word m' a = load_word m a.
Proof. intros H Ha Hn. apply load_le_frame. intros x Hx. apply H. lia. Qed.

Definition la64_ok (f : La64.la64_fpu_t) (s : La64.fpu) : Prop :=
  length (La64.fregs s) = 32%nat /\ Forall (fun r => 0 <= r < 256 ^ Z.of_nat (La64.width f)) (La64.fregs s) /\ 0 <= La64.fcsr0 s < 2 ^ 32 /\ length (La64.fcc s) = 8%nat.

Lemma fcc_roundtrip bs : length bs = 8%nat -> is_u64 (La64.pack_fcc 0 0 bs) /\ (fun i => Z.testbit (La64.pack_fcc 0 0 bs) i) <$> [0; 1; 2; 3; 4; 5; 6; 7] = bs.
Proof.
  intros Hl. do 8 (destruct bs as [|? bs]; [done|]). destruct bs; [|done]. clear Hl.
  repeat match goal with b : bool |- _ => destruct b end; by vm_compute.
Qed.

Lemma la64_save_ok f m area s : la64_ok f s -> mapped m area (La64.la64_fpu_save_sizes f) ->
  returns (La64.arch_fpu_save f m area s) (fun m1 => agree_off m m1 area (La64.la64_fpu_save_sizes f) /\
    forall m2, (forall a, area <= a < area + La64.la64_fpu_save_sizes f -> m2 !! a = m1 !! a) -> La64.arch_fpu_restore f m2 area = Ok s).
Proof.
  intros (Hl & Hr & Hc & Hb) Hm. unfold La64.arch_fpu_save, La64.arch_fpu_restore, La64.save_fpu_control, La64.restore_fpu_control, La64.LOONGARCH64_FPU_CONTROL_AREA_SIZE.
  assert (La64.la64_fpu_save_sizes f = Z.of_nat (La64.width f) * 32 + 16 /\ (0 < La64.width f)%nat) as [Es Hw] by (destruct f; split; (reflexivity || (cbn; lia))).
  destruct (save_regs_ok (La64.width f) (La64.fregs s) m area Hw Hr) as (m1 & -> & A1 & R1); [intros a Ha; apply Hm; rewrite Hl in Ha; change (Z.of_nat 32) with 32 in Ha; lia|]. rewrite bind_Ok. rewrite Hl in *. change (Z.of_nat 32) with 32 in *.
  destruct (fcc_roundtrip _ Hb) as [Hu Ef].
  destruct (store_two m1 (area + La64.la64_fpu_save_sizes f - 16) (La64.fcsr0 s) (La64.pack_fcc 0 0 (La64.fcc s))) as (m2 & -> & L1 & L2 & A2);
    [eapply mapped_off; [exact A1|]; intros a Ha; apply Hm; lia|unfold is_u64; lia|done|].
  apply returns_Ok. split; [eapply agree_off_trans; [eapply agree_off_weaken; [exact A1|lia..]|eapply agree_off_weaken; [exact A2|lia..]]|].
  intros m3 H3. rewrite R1, bind_Ok.
  - rewrite !(load_word_on m2 m3 _ area (La64.la64_fpu_save_sizes f) H3) by lia. rewrite L2, bind_Ok, L1, !bind_Ok, Ef. destruct s. do 2 f_equal. apply Z.mod_small. cbn in Hc. lia.
  - intros a Ha. rewrite H3 by lia. apply A2. lia.
Qed.

Definition rv64_ok (s : Rv64.fpu) : Prop :=
  length (Rv64.fregs s) = 32%nat /\ Forall (fun r => 0 <= r < 2 ^ 64) (Rv64.fregs s) /\ 0 <= Rv64.fcsr s < 2 ^ 32.
(** The area holds the registers. *)
Definition rv64_holds (m : bytes) (area : Z) (s : Rv64.fpu) : Prop :=
  load_word m (area + 256) = Ok (Rv64.fcsr s) /\ restore_regs 8 m area 32 = Ok (Rv64.fregs s).
Definition rv64_dirty (s : Rv64.fpu) : Prop := Z.land (Rv64.sstatus s) 0x6000 = 0x6000.

Lemma rv64_save_ok m area s : rv64_ok s -> mapped m area Rv64.RISCV_FPU_SAVE_SIZE -> (~ rv64_dirty s -> rv64_holds m area s) ->
  returns (Rv64.arch_fpu_save m area s) (fun '(m1, s1) => agree_off m m1 area Rv64.RISCV_FPU_SAVE_SIZE /\ ~ rv64_dirty s1 /\
    forall m2 s2, (forall a, area <= a < area + Rv64.RISCV_FPU_SAVE_SIZE -> m2 !! a = m1 !! a) ->
      returns (Rv64.arch_fpu_restore m2 area s2) (fun s3 => Rv64.fregs s3 = Rv64.fregs s /\ Rv64.fcsr s3 = Rv64.fcsr s /\ ~ rv64_dirty s3 /\ rv64_holds m2 area s3)).
Proof.
  intros (Hl & Hr & Hc) Hm Hclean. unfold Rv64.RISCV_FPU_SAVE_SIZE in *. change (32 * 8 + 8) with 264 in *.
  assert (forall x, Z.land (Z.ldiff x 0x2000) 0x6000 <> 0x6000) as Hcl.
  { intros x E. apply (f_equal (fun y => Z.testbit y 13)) in E. by rewrite Z.land_spec, Z.ldiff_spec, andb_false_r in E. }
  assert (forall m2 s2, rv64_holds m2 area s -> returns (Rv64.arch_fpu_restore m2 area s2) (fun s3 => Rv64.fregs s3 = Rv64.fregs s /\ Rv64.fcsr s3 = Rv64.fcsr s /\ ~ rv64_dirty s3 /\ rv64_holds m2 area s3)) as Hres.
  { intros m2 s2 [E1 E2]. unfold Rv64.arch_fpu_restore. rewrite E1, bind_Ok, E2, bind_Ok. apply returns_Ok. assert (u32 (Rv64.fcsr s) = Rv64.fcsr s) as -> by (apply Z.mod_small; lia).
    split; [done|]. split; [done|]. split; [apply Hcl|done]. }
  unfold Rv64.arch_fpu_save. destruct (Z.eqb_spec (Z.land (Rv64.sstatus s) 0x6000) 0x6000) as [Hd|Hd]; cbn [negb].
  - destruct (store_word_ok m (area + 256) (Rv64.fcsr s)) as (m1 & -> & L1 & A1); [intros a Ha; apply Hm; lia|unfold is_u64; lia|]. rewrite bind_Ok.
    destruct (save_regs_ok 8 (Rv64.fregs s) m1 area) as (m2 & -> & A2 & R2); [lia|done|eapply mapped_off; [exact A1|]; intros a Ha; apply Hm; rewrite Hl in Ha; lia|]. rewrite bind_Ok. rewrite Hl in *. change (Z.of_nat 8 * Z.of_nat 32) with 256 in *.
    apply returns_Ok. split; [eapply agree_off_trans; [eapply agree_off_weaken; [exact A1|lia..]|eapply agree_off_weaken; [exact A2|lia..]]|]. split; [apply Hcl|].
    intros m3 s3 H3. apply Hres. split; [|apply R2; intros a Ha; apply H3; lia]. rewrite (load_word_on m2 m3 _ area 264 H3), (load_word_off _ _ _ _ _ A2) by lia. done.
  - apply returns_Ok. split; [by split|]. split; [done|]. intros m3 s3 H3. apply Hres. destruct (Hclean Hd) as [E1 E2]. split; [by rewrite (load_word_on m m3 _ area 264 H3) by lia|].
    rewrite <- E2. assert (forall n a0, area <= a0 -> a0 + 8 * Z.of_nat n <= area + 256 -> restore_regs 8 m3 a0 n = restore_regs 8 m a0 n) as ->; [|done|lia|lia].
    induction n as [|n IH]; intros a0 H0 Hn; [done|]. cbn [restore_regs]. change (load_le ?m a0 8) with (load_word m a0). rewrite (load_word_on m m3 a0 area 264 H3), IH by lia. done.
Qed.

(** C36: a user thread finds its floating point state again.  On loongarch64 the
    save area of the unit in use holds all of its registers, control and
    condition flags; on riscv64 the registers are saved only when they are
    dirty and the area holds them otherwise.  Saving writes nothing outside of
    the area, and a restore after any other use of the unit brings the same
    state back, clean on riscv64. *)
Theorem fpu_switch_roundtrip f m area s s' :
  la64_ok f s -> mapped m area (La64.la64_fpu_save_sizes f) ->
  rv64_ok s' -> mapped m area Rv64.RISCV_FPU_SAVE_SIZE -> (~ rv64_dirty s' -> rv64_holds m area s') ->
  returns (La64.arch_fpu_save f m area s) (fun m1 => agree_off m m1 area (La64.la64_fpu_save_sizes f) /\
    forall m2, (forall a, area <= a < area + La64.la64_fpu_save_sizes f -> m2 !! a = m1 !! a) -> La64.arch_fpu_restore f m2 area = Ok s) /\
  returns (Rv64.arch_fpu_save m area s') (fun '(m1, s1) => agree_off m m1 area Rv64.RISCV_FPU_SAVE_SIZE /\ ~ rv64_dirty s1 /\
    forall m2 s2, (forall a, area <= a < area + Rv64.RISCV_FPU_SAVE_SIZE -> m2 !! a = m1 !! a) ->
      returns (Rv64.arch_fpu_restore m2 area s2) (fun s3 => Rv64.fregs s3 = Rv64.fregs s' /\ Rv64.fcsr s3 = Rv64.fcsr s' /\ ~ rv64_dirty s3 /\ rv64_holds m2 area s3)).
Proof. intros H1 H2 H3 H4 H5. split; [by apply la64_save_ok|by apply rv64_save_ok]. Qed.

(** [cpucfg.h] reads the vector features from word 1, whose bits 4 to 11 are the
    number of physical address bits less one: a processor with 48 of them and
    no vector unit is taken to have the widest one. *)
Lemma vector_unit_from_address_bits :
  exists cpucfg, Z.land (cpucfg 2) 0xc0 = 0 /\ La64.setup_fpu cpucfg 0 = Ok (La64.LOONGARCH64_FPU_LASX, 7).
Proof. exists (fun i => if i =? 1 then 0x2f6 else 7). by vm_compute. Qed.

Module FpuDemo.
Definition la : La64.fpu := La64.Fpu (replicate 32 77) 3 [true; false; true; true; false; false; true; false].
Definition rv : Rv64.fpu := Rv64.Fpu (replicate 32 99) 5 0x6000.
End FpuDemo.

Lemma fpu_switch_roundtrip_witness :
  returns (La64.arch_fpu_save La64.LOONGARCH64_FPU_LASX Demo.ram 0x1100 FpuDemo.la) (fun m1 => agree_off Demo.ram m1 0x1100 1040 /\
    forall m2, (forall a, 0x1100 <= a < 0x1100 + 1040 -> m2 !! a = m1 !! a) -> La64.arch_fpu_restore La64.LOONGARCH64_FPU_LASX m2 0x1100 = Ok FpuDemo.la) /\
  returns (Rv64.arch_fpu_save Demo.ram 0x1100 FpuDemo.rv) (fun '(m1, s1) => agree_off Demo.ram m1 0x1100 264 /\ ~ rv64_dirty s1 /\
    forall m2 s2, (forall a, 0x1100 <= a < 0x1100 + 264 -> m2 !! a = m1 !! a) ->
      returns (Rv64.arch_fpu_restore m2 0x1100 s2) (fun s3 => Rv64.fregs s3 = Rv64.fregs FpuDemo.rv /\ Rv64.fcsr s3 = Rv64.fcsr FpuDemo.rv /\ ~ rv64_dirty s3 /\ rv64_holds m2 0x1100 s3)).
Proof.
  apply (fpu_switch_roundtrip La64.LOONGARCH64_FPU_LASX Demo.ram 0x1100 FpuDemo.la FpuDemo.rv).
  - split; [done|]. split; [by apply Forall_replicate|]. by vm_compute.
  - by apply Demo.switch_ram_mapped.
  - split; [done|]. split; [by apply Forall_replicate|done].
  - by apply Demo.switch_ram_mapped.
  - intros H. by destruct H.
Defined.
