(* ===== verification/X86Cpu.v ===== *)
(** * x86_64: features and control registers

    arch/x86_64/cpu/cpuid.c and CRx.c.  A processor is its control registers and
    its model-specific registers; an access to a register it lacks is an
    exception, here [Fault].  The [cpuid] instruction is a parameter: what it
    answers may depend on the processor's state. *)

From Stdlib Require Import String.
From S2P Require Import Prelude CString CStringSpec CStringLit.
#[local] Open Scope Z_scope.

(** ** Registers *)
Record x86cpu := X86Cpu { cr0 : Z; cr4 : Z; xcr0 : Z; msrs : gmap Z Z }.

Definition with_cr0 (c : x86cpu) (v : Z) : x86cpu := X86Cpu v (cr4 c) (xcr0 c) (msrs c).
Definition with_cr4 (c : x86cpu) (v : Z) : x86cpu := X86Cpu (cr0 c) v (xcr0 c) (msrs c).
Definition with_msrs (c : x86cpu) (m : gmap Z Z) : x86cpu := X86Cpu (cr0 c) (cr4 c) (xcr0 c) m.

(** [1ull << bit]. *)
Definition BIT (n : Z) : Z := shl64 1 n.
(** [val | (1ull << bit)] and [val & ~(1ull << bit)] in 64 bits. *)
Definition set_bit (v n : Z) : Z := Z.lor v (BIT n).
Definition clear_bit (v n : Z) : Z := Z.land v (u64 (Z.lnot (BIT n))).

Definition rdmsr (c : x86cpu) (msr : Z) : res Z := load (msrs c) msr.
Definition wrmsr (c : x86cpu) (msr value : Z) : res x86cpu :=
  m ← store (msrs c) msr (u64 value); Ok (with_msrs c m).

(** Through the two halves that the instruction takes. *)
Definition write_xcr0 (c : x86cpu) (val : Z) : x86cpu :=
  let low := Z.land val 0xFFFFFFFF in
  let high := u32 (Z.shiftr val 32) in
  X86Cpu (cr0 c) (cr4 c) (low + Z.shiftl high 32) (msrs c).

Definition set_cr4_bit (c : x86cpu) (bit : Z) : x86cpu := with_cr4 c (set_bit (cr4 c) bit).

Definition CR0_BIT_MP : Z := 1.
Definition CR0_BIT_EM : Z := 2.
Definition CR0_BIT_TS : Z := 3.
Definition CR0_BIT_NE : Z := 5.
Definition CR4_BIT_PSE : Z := 4.
Definition CR4_BIT_MCE : Z := 6.
Definition CR4_BIT_OSFXSR : Z := 9.
Definition CR4_BIT_OSXMMEXCPT : Z := 10.
Definition CR4_BIT_OSXSAVE : Z := 18.
Definition CR4_BIT_SMEP : Z := 20.
Definition CR4_BIT_SMAP : Z := 21.
Definition CR4_BIT_FRED : Z := 32.
Definition XCR0_TILE_DATA_BIT : Z := 18.
Definition XCR0_TILE_CONF_BIT : Z := 17.
Definition XCR0_PKRU_BIT : Z := 9.

(** ** cpuid *)
Record cpuid_regs := CpuidRegs { eax : Z; ebx : Z; ecx : Z; edx : Z }.
Record cpuid_request := CpuidRequest { leaf : Z; subleaf : Z; reg : Z; bit : Z }.

Definition CPUID_EAX : Z := 97.
Definition CPUID_EBX : Z := 98.
Definition CPUID_ECX : Z := 99.
Definition CPUID_EDX : Z := 100.
Definition CPUID_NO_SUBLEAF : Z := 0.
Definition CPUID_SUBLEAF_1 : Z := 1.
Definition CPUID_GET_MAX_STANDARD : Z := 0x00000000.
Definition CPUID_GET_FEATURES : Z := 0x00000001.
Definition CPUID_GET_FEATURES_EXT : Z := 0x00000007.
Definition CPUID_GET_XSAVE_STATE : Z := 0x0000000D.
Definition CPUID_GET_MAX_EXTENDED : Z := 0x80000000.
Definition CPUID_GET_CAPABILITIES : Z := 0x80000007.
Definition HYPERV_CPUID_INFO : Z := 0x40000001.
Definition CPUID_HAS_APIC := CpuidRequest CPUID_GET_FEATURES CPUID_NO_SUBLEAF CPUID_EDX 9.
Definition CPUID_HAS_x2APIC := CpuidRequest CPUID_GET_FEATURES CPUID_NO_SUBLEAF CPUID_ECX 21.
Definition CPUID_HAS_XSAVE := CpuidRequest CPUID_GET_FEATURES CPUID_NO_SUBLEAF CPUID_ECX 26.
Definition CPUID_HAS_HYPERVISOR := CpuidRequest CPUID_GET_FEATURES CPUID_NO_SUBLEAF CPUID_ECX 31.
Definition CPUID_HAS_SMEP := CpuidRequest CPUID_GET_FEATURES_EXT CPUID_NO_SUBLEAF CPUID_EBX 7.
Definition CPUID_HAS_SMAP := CpuidRequest CPUID_GET_FEATURES_EXT CPUID_NO_SUBLEAF CPUID_EBX 20.
Definition CPUID_HAS_MCE := CpuidRequest CPUID_GET_FEATURES CPUID_NO_SUBLEAF CPUID_EDX 7.
Definition CPUID_HAS_MCA := CpuidRequest CPUID_GET_FEATURES CPUID_NO_SUBLEAF CPUID_EDX 14.
Definition CPUID_HAS_FRED := CpuidRequest CPUID_GET_FEATURES_EXT CPUID_SUBLEAF_1 CPUID_EAX 17.

Inductive CpuVendor :=
| CPU_VENDOR_INTEL | CPU_VENDOR_AMD | CPU_VENDOR_VIA | CPU_VENDOR_HYGON | CPU_VENDOR_ZHAOXIN | CPU_VENDOR_OTHER.
Inductive HypervisorType :=
| HYPERVISOR_TYPE_NONE | HYPERVISOR_TYPE_KVM | HYPERVISOR_TYPE_XEN | HYPERVISOR_TYPE_BHYVE | HYPERVISOR_TYPE_TCG
| HYPERVISOR_TYPE_VBOX | HYPERVISOR_TYPE_VMWARE | HYPERVISOR_TYPE_HYPERV | HYPERVISOR_TYPE_OTHER.

(** [strcmp(buf, literal) == 0], the buffer and the literal one behind the other. *)
Definition str_eq (buf : list Z) (s : string) : res bool :=
  r ← strcmp (rd (buf ++ chars s ++ [0])) s8 (S (length buf)) 0 (Z.of_nat (length buf)); Ok (r =? 0).

(** The first literal the buffer equals decides. *)
Fixpoint classify {A} (buf : list Z) (table : list (string * A)) (other : A) : res A :=
  match table with
  | [] => Ok other
  | (s, a) :: table => same ← str_eq buf s; if (same : bool) then Ok a else classify buf table other
  end.

Definition vendors : list (string * CpuVendor) :=
  [("GenuineIntel", CPU_VENDOR_INTEL); ("GenuineIotel", CPU_VENDOR_INTEL); ("AuthenticAMD", CPU_VENDOR_AMD);
   ("CentaurHauls", CPU_VENDOR_VIA); ("HygonGenuine", CPU_VENDOR_HYGON); ("  Shanghai  ", CPU_VENDOR_ZHAOXIN)]%string.
Definition hypervisors : list (string * HypervisorType) :=
  [("KVMKVMKVM", HYPERVISOR_TYPE_KVM); ("XenVMMXenVMM", HYPERVISOR_TYPE_XEN); ("TCGTCGTCGTCG", HYPERVISOR_TYPE_TCG);
   ("bhyve bhyve ", HYPERVISOR_TYPE_BHYVE); ("VBoxVBoxVBox", HYPERVISOR_TYPE_VBOX); ("VMwareVMware", HYPERVISOR_TYPE_VMWARE);
   ("Microsoft Hv", HYPERVISOR_TYPE_HYPERV)]%string.

Definition classify_vendor (vendor : list Z) : res CpuVendor := classify vendor vendors CPU_VENDOR_OTHER.

Section Cpuid.
Context (cpuid : x86cpu -> Z -> Z -> cpuid_regs).
Implicit Types (c : x86cpu).

Definition cpuid_check c (is_hypervisor : bool) (req : cpuid_request) : bool :=
  if (if leaf req >=? CPUID_GET_MAX_EXTENDED then eax (cpuid c CPUID_GET_MAX_EXTENDED 0) <? leaf req
      else if leaf req >=? 0x40000000 then negb is_hypervisor && (leaf req <=? 0x4FFFFFFF)
      else eax (cpuid c CPUID_GET_MAX_STANDARD 0) <? leaf req) then false
  else if (leaf req =? CPUID_GET_CAPABILITIES) && (subleaf req >? eax (cpuid c CPUID_GET_CAPABILITIES CPUID_NO_SUBLEAF)) then false
  else if (leaf req =? CPUID_GET_FEATURES_EXT) && (subleaf req >? eax (cpuid c CPUID_GET_FEATURES_EXT CPUID_NO_SUBLEAF)) then false
  else
    let regs := cpuid c (leaf req) (subleaf req) in
    let bit_of val := negb (Z.land (Z.shiftr val (bit req)) 1 =? 0) in
    if reg req =? CPUID_EAX then bit_of (eax regs)
    else if reg req =? CPUID_EBX then bit_of (ebx regs)
    else if reg req =? CPUID_ECX then bit_of (ecx regs)
    else if reg req =? CPUID_EDX then bit_of (edx regs)
    else false.

Definition get_cpu_vendor c : list Z :=
  let r := cpuid c 0 0 in le_bytes 4 (ebx r) ++ le_bytes 4 (edx r) ++ le_bytes 4 (ecx r) ++ [0].

(** [None]: it returns false and the buffer keeps its contents. *)
Definition get_cpu_name c : option (list Z) :=
  if eax (cpuid c 0x80000000 0) <? 0x80000004 then None
  else Some (concat (map (fun i => let regs := cpuid c i 0 in
                                   le_bytes 4 (eax regs) ++ le_bytes 4 (ebx regs) ++ le_bytes 4 (ecx regs) ++ le_bytes 4 (edx regs))
                         [0x80000002; 0x80000003; 0x80000004]) ++ [0]).

Definition get_hypervisor_id c (is_hypervisor : bool) : option (list Z) :=
  if negb (cpuid_check c is_hypervisor CPUID_HAS_HYPERVISOR) then None
  else let r := cpuid c 0x40000000 0 in Some (le_bytes 4 (ebx r) ++ le_bytes 4 (ecx r) ++ le_bytes 4 (edx r) ++ [0]).

(** The type, and the name, which is rewritten for Hyper-V's other interface. *)
Definition classify_hypervisor c (is_hypervisor : bool) (hv : list Z) : res (HypervisorType * list Z) :=
  t ← classify hv hypervisors (if negb is_hypervisor then HYPERVISOR_TYPE_NONE else HYPERVISOR_TYPE_OTHER);
  match t with
  | HYPERVISOR_TYPE_OTHER =>
      if eax (cpuid c HYPERV_CPUID_INFO 0) =? 0x31237648 then Ok (HYPERVISOR_TYPE_HYPERV, chars "Microsoft Hv" ++ [0])
      else Ok (HYPERVISOR_TYPE_OTHER, hv)
  | t => Ok (t, hv)
  end.

(** A buffer on the stack that was never written has no value to read. *)
Definition written (buf : option (list Z)) : res (list Z) := of_option buf.

(** The vendor, the hypervisor, and what is printed: the hypervisor's name if
    there is one, the vendor and the name of the processor. *)
Definition parse_cpuid c (is_hypervisor : bool) : res (CpuVendor * HypervisorType * list (list Z)) :=
  let vendor := get_cpu_vendor c in
  let name := get_cpu_name c in
  let hv := get_hypervisor_id c is_hypervisor in
  cpu_vendor ← classify_vendor vendor;
  hv ← written hv;
  '(hypervisor_type, hv) ← classify_hypervisor c is_hypervisor hv;
  name ← written name;
  Ok (cpu_vendor, hypervisor_type, (if is_hypervisor then [hv] else []) ++ [vendor; name]).
End Cpuid.

(** ** Control registers *)
Record features := Features { smep_enabled : bool; smap_enabled : bool; xsave_enabled : bool; xsave_size : Z }.

Section Control.
Context (cpuid : x86cpu -> Z -> Z -> cpuid_regs).

Definition setup_extended_control_regs (g : features) (c : x86cpu) (bsp : bool) : features * x86cpu :=
  if xsave_enabled g then
    let xsave_state := cpuid c CPUID_GET_XSAVE_STATE CPUID_NO_SUBLEAF in
    let xcr := u64 (eax xsave_state + shl64 (edx xsave_state) 32) in
    let xcr := Z.land xcr (u64 (Z.lnot (Z.lor (BIT XCR0_TILE_DATA_BIT) (BIT XCR0_TILE_CONF_BIT)))) in
    let xcr := clear_bit xcr XCR0_PKRU_BIT in
    let c := write_xcr0 c xcr in
    if bsp then
      let xsave_state := cpuid c CPUID_GET_XSAVE_STATE CPUID_NO_SUBLEAF in
      (Features (smep_enabled g) (smap_enabled g) (xsave_enabled g) (ebx xsave_state), c)
    else (g, c)
  else (g, c).

(** [is_hypervisor] is what the feature check needs besides the processor. *)
Definition setup_control_regs (g : features) (is_hypervisor : bool) (c : x86cpu) (bsp : bool) : features * x86cpu :=
  let v0 := cr0 c in
  let v0 := clear_bit v0 CR0_BIT_EM in
  let v0 := clear_bit v0 CR0_BIT_TS in
  let v0 := set_bit v0 CR0_BIT_MP in
  let v0 := set_bit v0 CR0_BIT_NE in
  let c := with_cr0 c v0 in
  let v4 := cr4 c in
  let v4 := set_bit v4 CR4_BIT_PSE in
  let v4 := set_bit v4 CR4_BIT_OSFXSR in
  let v4 := set_bit v4 CR4_BIT_OSXMMEXCPT in
  let enable (check : cpuid_request) (flag : bool) (n v4 : Z) : bool * Z :=
    if bsp then if cpuid_check cpuid c is_hypervisor check then (true, set_bit v4 n) else (flag, v4)
    else (flag, if flag then set_bit v4 n else v4) in
  let '(smep, v4) := enable CPUID_HAS_SMEP (smep_enabled g) CR4_BIT_SMEP v4 in
  let '(smap, v4) := enable CPUID_HAS_SMAP (smap_enabled g) CR4_BIT_SMAP v4 in
  let '(xsave, v4) := enable CPUID_HAS_XSAVE (xsave_enabled g) CR4_BIT_OSXSAVE v4 in
  let c := with_cr4 c v4 in
  setup_extended_control_regs (Features smep smap xsave (xsave_size g)) c bsp.
End Control.

(** ** Bits *)
Lemma BIT_testbit n k : 0 <= n < 64 -> 0 <= k -> Z.testbit (BIT n) k = (k =? n).
Proof.
  intros Hn Hk. unfold BIT, shl64, u64. rewrite Z.shiftl_1_l, Z.mod_small by (split; [lia|apply Z.pow_lt_mono_r; lia]).
  rewrite Z.pow2_bits_eqb by lia. apply Z.eqb_sym.
Qed.

Lemma set_bit_testbit v n k : 0 <= n < 64 -> 0 <= k -> Z.testbit (set_bit v n) k = Z.testbit v k || (k =? n).
Proof. intros Hn Hk. unfold set_bit. by rewrite Z.lor_spec, BIT_testbit. Qed.

Lemma lnot_testbit64 v k : 0 <= k < 64 -> Z.testbit (u64 (Z.lnot v)) k = negb (Z.testbit v k).
Proof. intros Hk. unfold u64. rewrite Z.mod_pow2_bits_low by lia. by rewrite Z.lnot_spec by lia. Qed.

Lemma clear_bit_testbit v n k : 0 <= n < 64 -> 0 <= k < 64 -> Z.testbit (clear_bit v n) k = Z.testbit v k && negb (k =? n).
Proof. intros Hn Hk. unfold clear_bit. by rewrite Z.land_spec, lnot_testbit64, BIT_testbit by lia. Qed.

Lemma land_keeps_u64 a b : is_u64 a -> is_u64 (Z.land a b).
Proof.
  intros Ha. assert (Z.land a b = u64 (Z.land a b)) as ->; [|unfold is_u64, u64; apply Z.mod_pos_bound; lia].
  rewrite u64_land, <- Z.land_assoc, (Z.land_comm b), Z.land_assoc, <- u64_land, u64_small by done. done.
Qed.

Section ControlProofs.
Context (cpuid : x86cpu -> Z -> Z -> cpuid_regs) (hv : bool).

(** What the manual documents of the leaf of the extended state: the supported
    components do not depend on the state of the processor, and are the same
    on every processor; the size of the save area depends on XCR0 only. *)
Hypothesis xsave_components : forall c c', eax (cpuid c CPUID_GET_XSAVE_STATE 0) = eax (cpuid c' CPUID_GET_XSAVE_STATE 0) /\
  edx (cpuid c CPUID_GET_XSAVE_STATE 0) = edx (cpuid c' CPUID_GET_XSAVE_STATE 0).
Hypothesis xsave_save_size : forall c c', xcr0 c = xcr0 c' -> ebx (cpuid c CPUID_GET_XSAVE_STATE 0) = ebx (cpuid c' CPUID_GET_XSAVE_STATE 0).
Hypothesis cpuid_words : forall c l s, 0 <= eax (cpuid c l s) < 2 ^ 32 /\ 0 <= edx (cpuid c l s) < 2 ^ 32.

(** The components saved: all that are supported but the tiles and the
    protection keys. *)
Definition saved_components (c : x86cpu) (n : Z) : bool :=
  Z.testbit (eax (cpuid c CPUID_GET_XSAVE_STATE 0) + 2 ^ 32 * edx (cpuid c CPUID_GET_XSAVE_STATE 0)) n &&
  negb (n =? XCR0_TILE_DATA_BIT) && negb (n =? XCR0_TILE_CONF_BIT) && negb (n =? XCR0_PKRU_BIT).

Lemma write_xcr0_value c v : 0 <= v < 2 ^ 64 -> xcr0 (write_xcr0 c v) = v.
Proof using Type.
  intros Hv. cbn. change 4294967295 with (Z.ones 32). rewrite Z.land_ones, Z.shiftr_div_pow2, Z.shiftl_mul_pow2 by lia. unfold u32.
  rewrite (Z.mod_small (v / 2 ^ 32)) by (split; [apply Z.div_pos; lia|apply Z.div_lt_upper_bound; lia]).
  pose proof (Z.div_mod v (2 ^ 32)). lia.
Qed.

Lemma extended_ok g c bsp : xsave_enabled g = true ->
  let '(g', c') := setup_extended_control_regs cpuid g c bsp in
  cr0 c' = cr0 c /\ cr4 c' = cr4 c /\ msrs c' = msrs c /\ (forall n, 0 <= n < 64 -> Z.testbit (xcr0 c') n = saved_components c n) /\ is_u64 (xcr0 c') /\
  g' = if bsp then Features (smep_enabled g) (smap_enabled g) true (ebx (cpuid c' CPUID_GET_XSAVE_STATE 0)) else g.
Proof using cpuid_words.
  intros Hx. unfold setup_extended_control_regs. rewrite Hx. change CPUID_NO_SUBLEAF with 0.
  destruct (cpuid_words c CPUID_GET_XSAVE_STATE 0) as [Ha Hd]. set (st := cpuid c CPUID_GET_XSAVE_STATE 0) in *.
  assert (u64 (eax st + shl64 (edx st) 32) = eax st + 2 ^ 32 * edx st) as E0.
  { unfold shl64, u64. rewrite Z.shiftl_mul_pow2, (Z.mod_small (edx st * 2 ^ 32)), Z.mod_small by lia. lia. }
  rewrite E0. set (sup := eax st + 2 ^ 32 * edx st). set (m1 := u64 (Z.lnot (Z.lor (BIT XCR0_TILE_DATA_BIT) (BIT XCR0_TILE_CONF_BIT)))).
  assert (0 <= sup < 2 ^ 64) as Hsup by (unfold sup; lia).
  assert (0 <= clear_bit (Z.land sup m1) XCR0_PKRU_BIT < 2 ^ 64) as Hv.
  { by do 2 apply land_keeps_u64. }
  assert (forall n, 0 <= n < 64 -> Z.testbit (clear_bit (Z.land sup m1) XCR0_PKRU_BIT) n = saved_components c n) as Hbits.
  { intros n Hn. rewrite clear_bit_testbit, Z.land_spec by (unfold XCR0_PKRU_BIT; lia). unfold m1.
    rewrite lnot_testbit64, Z.lor_spec, !BIT_testbit by (unfold XCR0_TILE_DATA_BIT, XCR0_TILE_CONF_BIT; lia). unfold saved_components. fold st. fold sup.
    destruct (Z.testbit sup n), (n =? XCR0_TILE_DATA_BIT), (n =? XCR0_TILE_CONF_BIT); done. }
  destruct bsp; (split_and!; [done..| | |done]); (rewrite write_xcr0_value by done); done.
Qed.

(** What the kernel asks of the two registers, given the features in use. *)
Definition cr0_wanted (old n : Z) : bool :=
  (Z.testbit old n && negb (n =? CR0_BIT_EM) && negb (n =? CR0_BIT_TS)) || (n =? CR0_BIT_MP) || (n =? CR0_BIT_NE).
Definition cr4_wanted (g : features) (old n : Z) : bool :=
  Z.testbit old n || (n =? CR4_BIT_PSE) || (n =? CR4_BIT_OSFXSR) || (n =? CR4_BIT_OSXMMEXCPT) ||
  (smep_enabled g && (n =? CR4_BIT_SMEP)) || (smap_enabled g && (n =? CR4_BIT_SMAP)) || (xsave_enabled g && (n =? CR4_BIT_OSXSAVE)).

Definition no_features : features := Features false false false 0.

Lemma cr0_bits v n : 0 <= n < 64 ->
  Z.testbit (set_bit (set_bit (clear_bit (clear_bit v CR0_BIT_EM) CR0_BIT_TS) CR0_BIT_MP) CR0_BIT_NE) n = cr0_wanted v n.
Proof using Type.
  intros Hn. unfold cr0_wanted, CR0_BIT_EM, CR0_BIT_TS, CR0_BIT_MP, CR0_BIT_NE.
  rewrite !set_bit_testbit by lia. rewrite !clear_bit_testbit by lia. done.
Qed.

Definition set_if (b : bool) (v n : Z) : Z := if b then set_bit v n else v.

Lemma set_if_testbit b v n k : 0 <= n < 64 -> 0 <= k -> Z.testbit (set_if b v n) k = Z.testbit v k || (b && (k =? n)).
Proof using Type. intros Hn Hk. destruct b; cbn [set_if andb]; [by apply set_bit_testbit|by rewrite orb_false_r]. Qed.

Lemma cr4_bits g v n : 0 <= n < 64 ->
  Z.testbit (set_if (xsave_enabled g) (set_if (smap_enabled g) (set_if (smep_enabled g)
    (set_bit (set_bit (set_bit v CR4_BIT_PSE) CR4_BIT_OSFXSR) CR4_BIT_OSXMMEXCPT) CR4_BIT_SMEP) CR4_BIT_SMAP) CR4_BIT_OSXSAVE) n = cr4_wanted g v n.
Proof using Type.
  intros Hn. unfold cr4_wanted, CR4_BIT_PSE, CR4_BIT_OSFXSR, CR4_BIT_OSXMMEXCPT, CR4_BIT_SMEP, CR4_BIT_SMAP, CR4_BIT_OSXSAVE.
  rewrite !set_if_testbit, !set_bit_testbit by lia. done.
Qed.

(** One processor: the boot processor, which starts without known features, or
    another, which takes them over. *)
Lemma setup_control_regs_ok g c (bsp : bool) :
  (bsp = true -> g = no_features) ->
  let '(g', c') := setup_control_regs cpuid g hv c bsp in
  (forall n, 0 <= n < 64 -> Z.testbit (cr0 c') n = cr0_wanted (cr0 c) n /\ Z.testbit (cr4 c') n = cr4_wanted g' (cr4 c) n) /\
  msrs c' = msrs c /\ (bsp = false -> g' = g) /\
  (if xsave_enabled g' then
     (exists c0, forall n, 0 <= n < 64 -> Z.testbit (xcr0 c') n = saved_components c0 n) /\ is_u64 (xcr0 c') /\
     (bsp = true -> xsave_size g' = ebx (cpuid c' CPUID_GET_XSAVE_STATE 0))
   else xcr0 c' = xcr0 c).
Proof using cpuid_words.
  intros Hg. unfold setup_control_regs.
  set (v0 := set_bit (set_bit (clear_bit (clear_bit (cr0 c) CR0_BIT_EM) CR0_BIT_TS) CR0_BIT_MP) CR0_BIT_NE). set (c0 := with_cr0 c v0).
  set (v4 := set_bit (set_bit (set_bit (cr4 c0) CR4_BIT_PSE) CR4_BIT_OSFXSR) CR4_BIT_OSXMMEXCPT).
  assert (exists g1, (let enable (check : cpuid_request) (flag : bool) (n v4 : Z) : bool * Z :=
      if bsp then if cpuid_check cpuid c0 hv check then (true, set_bit v4 n) else (flag, v4) else (flag, if flag then set_bit v4 n else v4) in
    let '(smep, v4) := enable CPUID_HAS_SMEP (smep_enabled g) CR4_BIT_SMEP v4 in
    let '(smap, v4) := enable CPUID_HAS_SMAP (smap_enabled g) CR4_BIT_SMAP v4 in
    let '(xsave, v4) := enable CPUID_HAS_XSAVE (xsave_enabled g) CR4_BIT_OSXSAVE v4 in
    setup_extended_control_regs cpuid (Features smep smap xsave (xsave_size g)) (with_cr4 c0 v4) bsp) =
    setup_extended_control_regs cpuid g1 (with_cr4 c0 (set_if (xsave_enabled g1) (set_if (smap_enabled g1) (set_if (smep_enabled g1) v4 CR4_BIT_SMEP) CR4_BIT_SMAP) CR4_BIT_OSXSAVE)) bsp
    /\ (bsp = false -> g1 = g)) as (g1 & E & Hg1).
  { destruct bsp.
    - exists (Features (cpuid_check cpuid c0 hv CPUID_HAS_SMEP) (cpuid_check cpuid c0 hv CPUID_HAS_SMAP) (cpuid_check cpuid c0 hv CPUID_HAS_XSAVE) 0).
      rewrite (Hg eq_refl). cbn [smep_enabled smap_enabled xsave_enabled xsave_size no_features]. split; [|done].
      by destruct (cpuid_check cpuid c0 hv CPUID_HAS_SMEP), (cpuid_check cpuid c0 hv CPUID_HAS_SMAP), (cpuid_check cpuid c0 hv CPUID_HAS_XSAVE).
    - exists g. split; [|done]. by destruct g as [[] [] [] sz]. }
  cbv zeta in E |- *. rewrite E. clear E. set (c1 := with_cr4 c0 _).
  assert (forall n, 0 <= n < 64 -> Z.testbit (cr0 c1) n = cr0_wanted (cr0 c) n /\ Z.testbit (cr4 c1) n = cr4_wanted g1 (cr4 c) n) as Hb.
  { intros n Hn. split; [by apply cr0_bits|by apply cr4_bits]. }
  destruct (xsave_enabled g1) eqn:Ex.
  - pose proof (extended_ok g1 c1 bsp Ex) as H. destruct (setup_extended_control_regs cpuid g1 c1 bsp) as [g' c']. destruct H as (E0 & E4 & Em & Hx & Hu & ->).
    rewrite E0, E4. split; [|split; [by rewrite Em|split]].
    + intros n Hn. destruct (Hb n Hn) as [H0 H4]. split; [done|]. rewrite H4. unfold cr4_wanted. destruct bsp; [|done]. cbn [smep_enabled smap_enabled xsave_enabled]. by rewrite Ex.
    + intros ->. auto.
    + assert (xsave_enabled (if bsp then Features (smep_enabled g1) (smap_enabled g1) true (ebx (cpuid c' CPUID_GET_XSAVE_STATE 0)) else g1) = true) as -> by (by destruct bsp).
      split; [by exists c1|]. split; [done|]. by intros ->.
  - unfold setup_extended_control_regs. rewrite Ex. split; [done|]. split; [done|]. split; [done|]. by rewrite Ex.
Qed.

(** Setting up the boot processor and then any other processor, each from its own
    values: EM and TS are off and MP and NE on in CR0; CR4 has the paging and
    SSE bits, and SMEP, SMAP and OSXSAVE exactly when the feature is in use,
    on both the same; every other bit is kept.  With XSAVE both enable the
    same components, without the tiles and the protection keys, and the
    size measured on the boot processor is the size of a save area on both. *)
Theorem control_regs_correct c c_ap :
  let '(g, cb) := setup_control_regs cpuid no_features hv c true in
  let '(g', ca) := setup_control_regs cpuid g hv c_ap false in
  g' = g /\
  (forall n, 0 <= n < 64 -> Z.testbit (cr0 cb) n = cr0_wanted (cr0 c) n /\ Z.testbit (cr4 cb) n = cr4_wanted g (cr4 c) n) /\
  (forall n, 0 <= n < 64 -> Z.testbit (cr0 ca) n = cr0_wanted (cr0 c_ap) n /\ Z.testbit (cr4 ca) n = cr4_wanted g (cr4 c_ap) n) /\
  (xsave_enabled g = true ->
    xcr0 ca = xcr0 cb /\ (forall n, 0 <= n < 64 -> Z.testbit (xcr0 cb) n = saved_components c n) /\
    ebx (cpuid cb CPUID_GET_XSAVE_STATE 0) = xsave_size g /\ ebx (cpuid ca CPUID_GET_XSAVE_STATE 0) = xsave_size g).
Proof using cpuid_words xsave_components xsave_save_size.
  pose proof (setup_control_regs_ok no_features c true ltac:(done)) as H. destruct (setup_control_regs cpuid no_features hv c true) as [g cb]. destruct H as (Hb & _ & _ & Hx).
  pose proof (setup_control_regs_ok g c_ap false ltac:(done)) as H. destruct (setup_control_regs cpuid g hv c_ap false) as [g' ca]. destruct H as (Hb' & _ & Hg & Hx').
  rewrite (Hg eq_refl) in *. split_and!; [done..|]. intros Ex. rewrite Ex in Hx, Hx'. destruct Hx as ((c1 & H1) & Hu1 & Hsz), Hx' as ((c2 & H2) & Hu2 & _).
  assert (forall c1 c2 n, saved_components c1 n = saved_components c2 n) as Hsame.
  { intros x y n. unfold saved_components. by destruct (xsave_components x y) as [-> ->]. }
  assert (xcr0 ca = xcr0 cb) as Exc.
  { apply Z.bits_inj'. intros n Hn. destruct (decide (n < 64)) as [Hl|Hl]; [rewrite H1, H2 by lia; apply Hsame|].
    rewrite <- (u64_small (xcr0 ca)), <- (u64_small (xcr0 cb)) by done. unfold u64. rewrite !Z.mod_pow2_bits_high by lia. done. }
  split; [done|]. split; [intros n Hn; rewrite H1 by done; apply Hsame|]. rewrite (Hsz eq_refl). split; [done|by apply xsave_save_size].
Qed.
End ControlProofs.

(** ** Names *)

(** A string in a buffer: the bytes before the first zero. *)
Fixpoint until_zero (buf : list Z) : list Z :=
  match buf with [] => [] | b :: buf => if b =? 0 then [] else b :: until_zero buf end.

Lemma until_zero_cstring buf : forall pre post,
  cstring (rd (pre ++ (buf ++ [0]) ++ post)) (Z.of_nat (length pre)) (until_zero buf).
Proof.
  induction buf as [|b buf IH]; intros pre post; cbn [until_zero].
  - cbn [cstring app]. pose proof (rd_app_r pre (0 :: post) 0 ltac:(lia)) as E. rewrite Z.add_0_r in E. by rewrite E.
  - pose proof (rd_app_r pre ((b :: buf ++ [0]) ++ post) 0 ltac:(lia)) as E. rewrite Z.add_0_r in E. cbn [app] in E |- *.
    destruct (Z.eqb_spec b 0) as [->|Hb]; cbn [cstring]; [by rewrite E|]. split_and!; [by rewrite E|done|].
    specialize (IH (pre ++ [b]) post). rewrite <- (app_assoc pre) in IH. rewrite length_app in IH. cbn [length app] in IH.
    replace (Z.of_nat (length pre) + 1) with (Z.of_nat (length pre + 1)) by lia. exact IH.
Qed.

Lemma until_zero_chars s : until_zero (chars s) = chars s \/ 0 ∈ chars s.
Proof.
  induction s as [|a s IH]; cbn [chars until_zero]; [by left|]. destruct (Z.eqb_spec (Z.of_N (Ascii.N_of_ascii a)) 0) as [E|E]; [right; rewrite E; by left|].
  destruct IH as [->|H]; [by left|right; by right].
Qed.

Lemma until_zero_length buf : (length (until_zero buf) <= length buf)%nat.
Proof. induction buf as [|b buf IH]; cbn [until_zero length]; [lia|]. destruct (b =? 0); cbn [length]; lia. Qed.

Lemma until_zero_bytes buf : Forall is_byte buf -> Forall is_byte (until_zero buf).
Proof. induction 1 as [|b buf Hb _ IH]; cbn [until_zero]; [done|]. destruct (b =? 0); [done|by constructor]. Qed.

(** Comparing a terminated buffer with a literal. *)
Lemma str_eq_ok buf s :
  Forall is_byte buf -> 0 ∉ chars s -> str_eq (buf ++ [0]) s = Ok (bool_decide (until_zero buf = chars s)).
Proof.
  intros HB Hs. unfold str_eq. destruct (until_zero_chars s) as [Ez|]; [|done].
  pose proof (until_zero_cstring buf [] (chars s ++ [0])) as H1. cbn [app length] in H1.
  pose proof (until_zero_cstring (chars s) (buf ++ [0]) []) as H2. rewrite Ez, app_nil_r in H2. rewrite !length_app in *. cbn [length] in *.
  pose proof (until_zero_length buf).
  destruct (strcmp_ok (rd ((buf ++ [0]) ++ chars s ++ [0])) s8 (until_zero buf) (chars s) 0 (Z.of_nat (length buf + 1)) (S (length buf + 1))) as (r & -> & Hr);
    [exact s8_byte_inj|by apply until_zero_bytes|apply chars_bytes|exact H1|exact H2|lia|].
  rewrite bind_Ok. f_equal. destruct (Z.eqb_spec r 0) as [H0|H0]; [by rewrite bool_decide_true by (by apply Hr)|by rewrite bool_decide_false by (by rewrite <- Hr)].
Qed.

(** The entry of a table for a text. *)
Fixpoint table_find {A} (text : list Z) (table : list (string * A)) (other : A) : A :=
  match table with
  | [] => other
  | (s, a) :: table => if bool_decide (text = chars s) then a else table_find text table other
  end.

Lemma classify_ok {A} buf (table : list (string * A)) other :
  Forall is_byte buf -> forallb (fun p => bool_decide (0 ∉ chars p.1)) table = true ->
  classify (buf ++ [0]) table other = Ok (table_find (until_zero buf) table other).
Proof.
  intros HB. induction table as [|[s a] table IH]; cbn [classify table_find forallb]; [done|]. intros [Hs Ht]%andb_true_iff.
  apply bool_decide_eq_true in Hs. rewrite str_eq_ok, bind_Ok by done. case_bool_decide; [done|by apply IH].
Qed.

Lemma le_bytes_byte n : forall v, Forall is_byte (le_bytes n v).
Proof. induction n as [|n IH]; intros v; cbn [le_bytes]; constructor; [unfold is_byte; pose proof (Z.mod_pos_bound v 256); lia|apply IH]. Qed.

Section Names.
Context (cpuid : x86cpu -> Z -> Z -> cpuid_regs).

(** The twelve characters of three registers. *)
Definition text12 (a b c : Z) : list Z := until_zero (le_bytes 4 a ++ le_bytes 4 b ++ le_bytes 4 c).

Definition vendor_of (c : x86cpu) : CpuVendor :=
  let r := cpuid c 0 0 in table_find (text12 (ebx r) (edx r) (ecx r)) vendors CPU_VENDOR_OTHER.

(** A hypervisor that none of the names fits is Hyper-V if its interface is. *)
Definition hypervisor_of (c : x86cpu) : HypervisorType :=
  let r := cpuid c 0x40000000 0 in
  match table_find (text12 (ebx r) (ecx r) (edx r)) hypervisors HYPERVISOR_TYPE_OTHER with
  | HYPERVISOR_TYPE_OTHER => if eax (cpuid c HYPERV_CPUID_INFO 0) =? 0x31237648 then HYPERVISOR_TYPE_HYPERV else HYPERVISOR_TYPE_OTHER
  | t => t
  end.

Lemma parse_vendor_ok c : classify_vendor (get_cpu_vendor cpuid c) = Ok (vendor_of c).
Proof using Type.
  unfold classify_vendor, get_cpu_vendor. rewrite !(app_assoc _ _ [0]). rewrite classify_ok; [done| |vm_compute; reflexivity].
  repeat (apply Forall_app; split); apply le_bytes_byte.
Qed.

(** Under a hypervisor that names itself, on a processor with a name,
    [parse_cpuid] tells the vendor and the hypervisor by their names. *)
Lemma parse_cpuid_correct c :
  cpuid_check cpuid c true CPUID_HAS_HYPERVISOR = true -> 0x80000004 <= eax (cpuid c 0x80000000 0) ->
  returns (parse_cpuid cpuid c true) (fun '(vendor, hypervisor, _) => vendor = vendor_of c /\ hypervisor = hypervisor_of c).
Proof using Type.
  intros Hh Hn. unfold parse_cpuid, get_cpu_name, get_hypervisor_id. rewrite Hh, (proj2 (Z.ltb_ge _ _) Hn), parse_vendor_ok, bind_Ok. cbn [negb written of_option]. rewrite bind_Ok.
  unfold classify_hypervisor. rewrite !(app_assoc _ _ [0]). rewrite classify_ok; [| |vm_compute; reflexivity];
    [|repeat (apply Forall_app; split); apply le_bytes_byte].
  rewrite bind_Ok. cbn [negb]. unfold hypervisor_of, text12.
  destruct (table_find _ hypervisors HYPERVISOR_TYPE_OTHER); try (rewrite !bind_Ok; by apply returns_Ok).
  destruct (eax (cpuid c HYPERV_CPUID_INFO 0) =? 0x31237648); rewrite !bind_Ok; by apply returns_Ok.
Qed.

(** Without a hypervisor the buffer for its name is classified although
    nothing wrote it. *)
Lemma parse_cpuid_bare_metal c hv : cpuid_check cpuid c hv CPUID_HAS_HYPERVISOR = false -> parse_cpuid cpuid c hv = Fault.
Proof using Type. intros Hh. unfold parse_cpuid, get_hypervisor_id. rewrite Hh, parse_vendor_ok. done. Qed.

End Names.
