(* ===== verification/X86Setup.v ===== *)
(** * x86_64: descriptor tables, event delivery, system call entry, machine checks

    arch/x86_64/descriptor_tables/gdt.c and idt.c, drivers/fred/fred.c,
    syscall/syscall.c and drivers/mce/mce.c.  The formats the processor reads
    (segment and gate descriptors, stack levels, the selectors of STAR) are
    written down once as decoders, and what the code stores is compared with
    what it means. *)

From S2P Require Import Prelude PageAlloc X86Cpu.
#[local] Open Scope Z_scope.

(** [n] bits of [v] from bit [i] on. *)
Definition field (v i n : Z) : Z := Z.land (Z.shiftr v i) (Z.ones n).

(** ** Segments *)
Definition boot_gdt : list Z :=
  [0x0000000000000000; 0x00af9b000000ffff; 0x00af93000000ffff; 0x00cffa000000ffff;
   0x00aff3000000ffff; 0x00affb000000ffff; 0x0000000000000000; 0x0000000000000000].

Definition sizeof_TSS : Z := 104.
Record TSS := Tss { rsp : list Z; ist : list Z; io_map_base : Z }.
Definition boot_tss : TSS := Tss [0; 0; 0] (replicate 7 0) 0.

(** [gdt[6]] is built up by or-ing the parts into it. *)
Definition set_tss (gdt : list Z) (tss_base : Z) : list Z :=
  let g6 := Z.land (sizeof_TSS - 1) 0xFFFF in
  let g6 := Z.lor g6 (shl64 (Z.land tss_base 0xFFFF) 16) in
  let g6 := Z.lor g6 (shl64 (Z.land (Z.shiftr tss_base 16) 0xFF) 32) in
  let g6 := Z.lor g6 (shl64 (Z.land (Z.shiftr tss_base 24) 0xFF) 56) in
  let g6 := Z.lor g6 (shl64 0x89 40) in
  <[7%nat := Z.shiftr tss_base 32]> (<[6%nat := g6]> gdt).

(** The tables of one processor, the register that points to the segments
    (limit and base) and the task register. *)
Record tables := Tables { gdt : list Z; tss : TSS; gdtr : Z * Z; tr : Z }.
Definition boot_tables : tables := Tables boot_gdt boot_tss (0, 0) 0.

Section Gdt.
(** Where the processor's copies of [gdt] and [tss] lie. *)
Context (local_gdt local_tss : Z).

(** [lgdt], the reload of the segments and [ltr(0x30)]. *)
Definition load_tables (t : tables) (stacks : Z * Z * Z) : tables :=
  let '(s0, s1, s2) := stacks in
  Tables (set_tss (gdt t) local_tss) (Tss (rsp (tss t)) (<[2%nat := s2]> (<[1%nat := s1]> (<[0%nat := s0]> (ist (tss t))))) sizeof_TSS)
    (8 * 8 - 1, local_gdt) 0x30.

(** With the three stacks of the boot processor, and the segment bases cleared. *)
Definition setup_bsp_gdt (t : tables) (c : x86cpu) (bsp_df_stack bsp_nmi_stack bsp_mce_stack : Z) : res (tables * x86cpu) :=
  let t := load_tables t (u64 (bsp_df_stack + 4096), u64 (bsp_nmi_stack + 4096), u64 (bsp_mce_stack + 4096)) in
  c ← wrmsr c 0xC0000101 0;
  c ← wrmsr c 0xC0000102 0;
  Ok (t, c).

(** With a new page for each stack. *)
Definition setup_ap_gdt `{kconfig} {P} `{page_alloc P} (t : tables) (pages : P) : res (tables * P) :=
  '(p0, pages) ← pa_alloc pages;
  '(p1, pages) ← pa_alloc pages;
  '(p2, pages) ← pa_alloc pages;
  Ok (load_tables t (TO_HHDM (u64 (p0 + PAGE_SIZE)), TO_HHDM (u64 (p1 + PAGE_SIZE)), TO_HHDM (u64 (p2 + PAGE_SIZE))), pages).
End Gdt.

(** ** Gates *)
Record IDTEntry := IdtEntry { offset_low : Z; selector : Z; ist_index : Z; type_attr : Z; offset_mid : Z; offset_high : Z; zero : Z }.
Definition null_gate : IDTEntry := IdtEntry 0 0 0 0 0 0 0.

Definition INTERRUPT_NON_MASKABLE_INTERRUPT : Z := 0x02.
Definition INTERRUPT_DOUBLE_FAULT : Z := 0x08.
Definition INTERRUPT_MACHINE_CHECK_EXCEPTION : Z := 0x12.

Definition set_idt_entry (idt : list IDTEntry) (index ist attr addr : Z) : list IDTEntry :=
  <[Z.to_nat index := IdtEntry (Z.land addr 0xFFFF) 0x08 (u8 ist) (u8 attr) (Z.land (Z.shiftr addr 16) 0xFFFF) (u32 (Z.shiftr addr 32)) 0]> idt.

Section Idt.
(** The table of the handlers' distances from their own entries, and its address. *)
Context (rel_isr_table : Z -> Z) (isr_table_base : Z).

Definition resolve_isr (vector : Z) : Z := u64 (u64 (isr_table_base + 4 * vector) + rel_isr_table vector).

Definition ist_of (i : Z) : Z :=
  let ist := 0 in
  let ist := if i =? INTERRUPT_DOUBLE_FAULT then 1 else ist in
  let ist := if i =? INTERRUPT_NON_MASKABLE_INTERRUPT then 2 else ist in
  if i =? INTERRUPT_MACHINE_CHECK_EXCEPTION then 3 else ist.

Fixpoint idt_loop (n : nat) (i : Z) (idt : list IDTEntry) : list IDTEntry :=
  match n with
  | O => idt
  | S n => idt_loop n (i + 1) (set_idt_entry idt i (ist_of i) 0x8E (resolve_isr i))
  end.

(** The table and the register (limit and base). *)
Definition setup_bsp_idt (idt : list IDTEntry) (idt_base : Z) : list IDTEntry * (Z * Z) :=
  (idt_loop 256 0 idt, (256 * 16 - 1, idt_base)).
Definition setup_ap_idt (idt_base : Z) : Z * Z := (256 * 16 - 1, idt_base).
End Idt.

(** ** FRED and system calls *)
Definition MSR_EFER : Z := 0xC0000080.
Definition MSR_STAR : Z := 0xC0000081.
Definition MSR_LSTAR : Z := 0xC0000082.
Definition MSR_SFMASK : Z := 0xC0000084.
Definition MSR_FRED_CONFIG : Z := 0x1D4.
Definition MSR_FRED_RSP1 : Z := 0x1CD.
Definition MSR_FRED_RSP2 : Z := 0x1CE.
Definition MSR_FRED_RSP3 : Z := 0x1CF.
Definition MSR_FRED_STKLVLS : Z := 0x1D0.

Definition STAR_VALUE : Z := Z.lor (shl64 (Z.lor 0x18 3) 48) (shl64 0x08 32).
Definition FRED_STKLVL (n lvl : Z) : Z := shl64 lvl (n * 2).
Definition STKLVLS_VALUE : Z :=
  Z.lor (Z.lor (FRED_STKLVL INTERRUPT_DOUBLE_FAULT 1) (FRED_STKLVL INTERRUPT_NON_MASKABLE_INTERRUPT 2)) (FRED_STKLVL INTERRUPT_MACHINE_CHECK_EXCEPTION 3).
Definition SFMASK_VALUE : Z := 0xED5.

Section Entry.
Context (cpuid : x86cpu -> Z -> Z -> cpuid_regs) (hv : bool) (fred_ring3_entry_asm syscall_handler : Z).

(** What comes before the stacks. *)
Definition fred_config (c : x86cpu) : res x86cpu :=
  let c := set_cr4_bit c CR4_BIT_FRED in
  c ← wrmsr c MSR_STAR STAR_VALUE;
  wrmsr c MSR_FRED_CONFIG fred_ring3_entry_asm.

(** Whether it is in use, which is also [fred_enabled]. *)
Definition setup_fred_bsp (c : x86cpu) (bsp_df_stack bsp_nmi_stack bsp_mce_stack : Z) : res (bool * x86cpu) :=
  if negb (cpuid_check cpuid c hv CPUID_HAS_FRED) then Ok (false, c) else
  c ← fred_config c;
  c ← wrmsr c MSR_FRED_RSP1 (bsp_df_stack + 4096);
  c ← wrmsr c MSR_FRED_RSP2 (bsp_nmi_stack + 4096);
  c ← wrmsr c MSR_FRED_RSP3 (bsp_mce_stack + 4096);
  c ← wrmsr c MSR_FRED_STKLVLS STKLVLS_VALUE;
  Ok (true, c).

Definition setup_fred_ap `{kconfig} {P} `{page_alloc P} (c : x86cpu) (pages : P) : res (x86cpu * P) :=
  _ ← assert (cpuid_check cpuid c hv CPUID_HAS_FRED);
  c ← fred_config c;
  '(p1, pages) ← pa_alloc pages;
  c ← wrmsr c MSR_FRED_RSP1 (TO_HHDM (u64 (p1 + PAGE_SIZE)));
  '(p2, pages) ← pa_alloc pages;
  c ← wrmsr c MSR_FRED_RSP2 (TO_HHDM (u64 (p2 + PAGE_SIZE)));
  '(p3, pages) ← pa_alloc pages;
  c ← wrmsr c MSR_FRED_RSP3 (TO_HHDM (u64 (p3 + PAGE_SIZE)));
  c ← wrmsr c MSR_FRED_STKLVLS STKLVLS_VALUE;
  Ok (c, pages).

Definition setup_syscall (c : x86cpu) : res x86cpu :=
  efer ← rdmsr c MSR_EFER;
  c ← wrmsr c MSR_EFER (Z.lor efer 1);
  c ← wrmsr c MSR_STAR STAR_VALUE;
  c ← wrmsr c MSR_LSTAR syscall_handler;
  wrmsr c MSR_SFMASK SFMASK_VALUE.
End Entry.

(** ** Machine checks *)
Definition MSR_MCE_CAP : Z := 0x179.
Definition MSR_MCE_STATUS : Z := 0x17A.
Definition MSR_MCE_CTL : Z := 0x17B.
Definition MSR_MCEn_CTL (n : Z) : Z := 0x400 + n * 4.
Definition MSR_MCEn_STATUS (n : Z) : Z := 0x401 + n * 4.
Definition MCE_STATUS_RESTART_IP_VALID : Z := 1.
Definition MCE_STATUS_IN_PROGRESS_FLAG : Z := 4.
Definition MCE_CAP_BIT_CTL_REG_PRESENT : Z := 256.

Fixpoint clear_banks (n : nat) (i : Z) (c : x86cpu) : res x86cpu :=
  match n with
  | O => Ok c
  | S n => c ← wrmsr c (MSR_MCEn_STATUS i) 0; clear_banks n (i + 1) c
  end.
Definition mce_clear_banks (c : x86cpu) : res x86cpu :=
  cap ← rdmsr c MSR_MCE_CAP; clear_banks (Z.to_nat (Z.land cap 0xFF)) 0 c.

Fixpoint enable_banks (n : nat) (i : Z) (c : x86cpu) : res x86cpu :=
  match n with
  | O => Ok c
  | S n =>
      c ← wrmsr c (MSR_MCEn_CTL i) 0xFFFFFFFFFFFFFFFF;
      c ← wrmsr c (MSR_MCEn_STATUS i) 0;
      enable_banks n (i + 1) c
  end.

(** The two support flags and the processor. *)
Definition setup_mce (cpuid : x86cpu -> Z -> Z -> cpuid_regs) (hv : bool) (c : x86cpu) : res (bool * bool * x86cpu) :=
  let mce_supported := cpuid_check cpuid c hv CPUID_HAS_MCE in
  let mca_supported := cpuid_check cpuid c hv CPUID_HAS_MCA in
  if mce_supported && mca_supported then
    mcg_cap ← rdmsr c MSR_MCE_CAP;
    c ← (if negb (Z.land mcg_cap MCE_CAP_BIT_CTL_REG_PRESENT =? 0) then wrmsr c MSR_MCE_CTL 0xFFFFFFFFFFFFFFFF else Ok c);
    c ← enable_banks (Z.to_nat (Z.land mcg_cap 0xFF)) 0 c;
    Ok (mce_supported, mca_supported, set_cr4_bit c CR4_BIT_MCE)
  else Ok (mce_supported, mca_supported, if mce_supported then set_cr4_bit c CR4_BIT_MCE else c).

(** A fatal check, and a further one after it, stop the machine. *)
Definition handle_exception_mce (fatal_mce_flag : Z) (mca_supported : bool) (c : x86cpu) : res x86cpu :=
  if negb (fatal_mce_flag =? 0) then Panic else
  if negb mca_supported then Panic else
  mce_status ← rdmsr c MSR_MCE_STATUS;
  let can_continue := negb (Z.land mce_status MCE_STATUS_RESTART_IP_VALID =? 0) in
  c ← mce_clear_banks c;
  if negb can_continue then Panic else
  wrmsr c MSR_MCE_STATUS (Z.land mce_status (u64 (Z.lnot MCE_STATUS_IN_PROGRESS_FLAG))).

(** ** What the processor reads *)

(** A segment descriptor: base (with the upper half of the next entry for a
    system segment), limit, type and privilege. *)
Definition seg_base (lo hi : Z) : Z :=
  field lo 16 16 + 2 ^ 16 * field lo 32 8 + 2 ^ 24 * field lo 56 8 + 2 ^ 32 * field hi 0 32.
Definition seg_limit (lo : Z) : Z := field lo 0 16 + 2 ^ 16 * field lo 48 4.
Definition seg_type (lo : Z) : Z := field lo 40 4.
Definition seg_s (lo : Z) : bool := Z.testbit lo 44.
Definition seg_dpl (lo : Z) : Z := field lo 45 2.
Definition seg_present (lo : Z) : bool := Z.testbit lo 47.
Definition seg_long (lo : Z) : bool := Z.testbit lo 53.
Definition seg_code (lo : Z) : bool := seg_s lo && Z.testbit lo 43.

Lemma field_div v i n : 0 <= i -> 0 <= n -> field v i n = (v / 2 ^ i) mod 2 ^ n.
Proof. intros Hi Hn. unfold field. by rewrite Z.land_ones, Z.shiftr_div_pow2 by lia. Qed.

Lemma testbit_div v i : 0 <= i -> Z.testbit v i = ((v / 2 ^ i) mod 2 =? 1).
Proof.
  intros Hi. rewrite <- Z.shiftr_div_pow2 by lia. rewrite <- (Z.add_0_l i) at 1. rewrite <- Z.shiftr_spec by lia. rewrite Z.bit0_odd, Zmod_odd.
  by destruct (Z.odd _).
Qed.

(** Parts that do not overlap add up. *)
Lemma lor_shl64 a b n : 0 <= n -> 0 <= a < 2 ^ n -> 0 <= b -> b * 2 ^ n < 2 ^ 64 -> Z.lor a (shl64 b n) = a + b * 2 ^ n.
Proof.
  intros Hn Ha Hb Hl. unfold shl64. rewrite Z.shiftl_mul_pow2, u64_small by (done || (unfold is_u64; lia)). by apply lor_add_pow2.
Qed.

Lemma lor_swap a b c : Z.lor (Z.lor a b) c = Z.lor (Z.lor a c) b.
Proof. by rewrite <- !Z.lor_assoc, (Z.lor_comm b c). Qed.

(** The descriptor of the task state: at the address given, of its exact size,
    an available task state segment, present. *)
Lemma set_tss_ok gdt base :
  length gdt = 8%nat -> is_u64 base ->
  exists lo hi, set_tss gdt base !! 6%nat = Some lo /\ set_tss gdt base !! 7%nat = Some hi /\
    seg_base lo hi = base /\ seg_limit lo = sizeof_TSS - 1 /\ seg_type lo = 9 /\ seg_s lo = false /\ seg_present lo = true /\ seg_dpl lo = 0 /\
    forall i, (i < 6)%nat -> set_tss gdt base !! i = gdt !! i.
Proof.
  intros Hl Hb. unfold set_tss. do 2 eexists. split; [rewrite list_lookup_insert_ne by done; apply list_lookup_insert_eq; lia|].
  split; [apply list_lookup_insert_eq; rewrite length_insert; lia|].
  change (Z.land (sizeof_TSS - 1) 65535) with 103. change 65535 with (Z.ones 16). change 255 with (Z.ones 8).
  rewrite !Z.land_ones, !Z.shiftr_div_pow2 by lia. rewrite (lor_swap _ _ (shl64 137 40)). unfold is_u64 in Hb.
  pose proof (Z.mod_pos_bound base (2 ^ 16) ltac:(lia)) as B0. pose proof (Z.mod_pos_bound (base / 2 ^ 16) (2 ^ 8) ltac:(lia)) as B1. pose proof (Z.mod_pos_bound (base / 2 ^ 24) (2 ^ 8) ltac:(lia)) as B2.
  rewrite (lor_shl64 103), (lor_shl64 _ (base / 2 ^ 16 mod 2 ^ 8)), (lor_shl64 _ 137), lor_shl64 by lia.
  set (b0 := base mod 2 ^ 16) in *. set (b1 := base / 2 ^ 16 mod 2 ^ 8) in *. set (b2 := base / 2 ^ 24 mod 2 ^ 8) in *.
  unfold seg_base, seg_limit, seg_type, seg_s, seg_present, seg_dpl. rewrite !field_div, !testbit_div by lia.
  assert (base = b0 + 2 ^ 16 * b1 + 2 ^ 24 * b2 + 2 ^ 32 * (base / 2 ^ 32) /\ 0 <= base / 2 ^ 32 < 2 ^ 32) as [Eb B3].
  { unfold b0, b1, b2. clear - Hb. Z.to_euclidean_division_equations. lia. }
  set (b3 := base / 2 ^ 32) in *. clearbody b0 b1 b2 b3. unfold sizeof_TSS. split_and!;
    try (clear - B0 B1 B2 B3 Eb; Z.to_euclidean_division_equations; lia).
  intros i Hi. by rewrite !list_lookup_insert_ne by lia.
Qed.

(** ** Gates *)
Definition gate_target (e : IDTEntry) : Z := offset_low e + 2 ^ 16 * offset_mid e + 2 ^ 32 * offset_high e.

(** A present interrupt gate of the kernel's code segment that user code cannot
    call. *)
Definition interrupt_gate (e : IDTEntry) : Prop :=
  selector e = 8 /\ field (type_attr e) 0 4 = 14 /\ field (type_attr e) 5 2 = 0 /\ Z.testbit (type_attr e) 7 = true /\ zero e = 0.

Lemma gate_ok i n :
  is_u64 n -> let e := IdtEntry (Z.land n 0xFFFF) 0x08 (u8 i) (u8 0x8E) (Z.land (Z.shiftr n 16) 0xFFFF) (u32 (Z.shiftr n 32)) 0 in
  gate_target e = n /\ interrupt_gate e.
Proof.
  intros Hn. unfold gate_target, interrupt_gate. cbn [offset_low offset_mid offset_high selector type_attr zero]. split; [|by vm_compute].
  change 65535 with (Z.ones 16). rewrite !Z.land_ones, !Z.shiftr_div_pow2 by lia. unfold u32, is_u64 in *. Z.to_euclidean_division_equations. lia.
Qed.

Section IdtProofs.
Context (rel_isr_table : Z -> Z) (isr_table_base : Z).

Lemma idt_loop_lookup n : forall i idt v,
  0 <= i -> i + Z.of_nat n <= Z.of_nat (length idt) -> 0 <= v ->
  idt_loop rel_isr_table isr_table_base n i idt !! Z.to_nat v =
    if (i <=? v) && (v <? i + Z.of_nat n)
    then Some (IdtEntry (Z.land (resolve_isr rel_isr_table isr_table_base v) 0xFFFF) 0x08 (u8 (ist_of v)) (u8 0x8E)
                 (Z.land (Z.shiftr (resolve_isr rel_isr_table isr_table_base v) 16) 0xFFFF) (u32 (Z.shiftr (resolve_isr rel_isr_table isr_table_base v) 32)) 0)
    else idt !! Z.to_nat v.
Proof using Type.
  induction n as [|n IH]; intros i idt v Hi Hl Hv; cbn [idt_loop].
  - destruct (Z.leb_spec i v), (Z.ltb_spec v (i + Z.of_nat 0)); cbn [andb]; (done || lia).
  - rewrite IH by (unfold set_idt_entry; rewrite ?length_insert; lia).
    destruct (Z.leb_spec (i + 1) v), (Z.ltb_spec v (i + 1 + Z.of_nat n)), (Z.leb_spec i v), (Z.ltb_spec v (i + Z.of_nat (S n))); cbn [andb]; try lia; try done.
    + unfold set_idt_entry. rewrite list_lookup_insert_ne by lia. done.
    + replace v with i by lia. unfold set_idt_entry. rewrite list_lookup_insert_eq by lia. done.
    + unfold set_idt_entry. by rewrite list_lookup_insert_ne by lia.
Qed.
End IdtProofs.

(** ** Everything together *)

(** The stack the processor switches to for a vector, if it does: through the
    interrupt stack table, or through the FRED stack levels. *)
Definition idt_stack (t : tables) (e : IDTEntry) : option Z :=
  if ist_index e =? 0 then None else ist (tss t) !! Z.to_nat (ist_index e - 1).
Definition fred_stack (c : x86cpu) (v : Z) : option Z :=
  lvls ← msrs c !! MSR_FRED_STKLVLS;
  let l := field lvls (2 * v) 2 in
  if l =? 0 then None else msrs c !! (MSR_FRED_RSP1 + (l - 1)).

(** The segment a selector names. *)
Definition segment (t : tables) (sel : Z) : option Z := gdt t !! Z.to_nat (sel / 8).

(** The selectors the processor derives from STAR, for entry and for return
    to 64-bit code. *)
Definition syscall_cs (star : Z) : Z := field star 32 16.
Definition syscall_ss (star : Z) : Z := field star 32 16 + 8.
Definition sysret_cs (star : Z) : Z := field star 48 16 + 16.
Definition sysret_ss (star : Z) : Z := field star 48 16 + 8.

Definition code_segment (t : tables) (sel dpl : Z) : Prop :=
  exists d, segment t sel = Some d /\ seg_present d = true /\ seg_code d = true /\ seg_long d = true /\ seg_dpl d = dpl /\ field sel 0 2 = dpl.
Definition data_segment (t : tables) (sel dpl : Z) : Prop :=
  exists d, segment t sel = Some d /\ seg_present d = true /\ seg_s d = true /\ seg_code d = false /\ seg_dpl d = dpl /\ field sel 0 2 = dpl.

Lemma wrmsr_Ok c msr v w : msrs c !! msr = Some w -> wrmsr c msr v = Ok (with_msrs c (<[msr := u64 v]> (msrs c))).
Proof. intros H. unfold wrmsr. by rewrite (store_Ok _ _ _ _ H). Qed.

Lemma wrmsr_inv c msr v c' : wrmsr c msr v = Ok c' -> c' = with_msrs c (<[msr := u64 v]> (msrs c)).
Proof. unfold wrmsr, store. destruct (msrs c !! msr); cbn; congruence. Qed.

Lemma stklvls_fields v : 0 <= v < 32 -> field (u64 STKLVLS_VALUE) (2 * v) 2 = ist_of v.
Proof.
  intros Hv. assert (In v (seqZ 0 32)) as Hin by (apply list_elem_of_In, elem_of_seqZ; lia).
  assert (forallb (fun v => field (u64 STKLVLS_VALUE) (2 * v) 2 =? ist_of v) (seqZ 0 32) = true) as H by (vm_compute; reflexivity).
  rewrite forallb_forall in H. by apply Z.eqb_eq, H.
Qed.

Lemma ist_of_range v : 0 <= ist_of v <= 3.
Proof. unfold ist_of. repeat case_match; lia. Qed.

Section Together.
Context (rel_isr_table : Z -> Z) (isr_table_base : Z) (local_gdt local_tss : Z).
Context (cpuid : x86cpu -> Z -> Z -> cpuid_regs) (hv : bool) (fred_entry : Z).
Context (df nmi mce : Z).

End Together.

(** The flags that system call entry clears are CF, PF, AF, ZF, SF, IF, DF and
    OF: the alignment check flag (bit 18), which also suspends SMAP, and the
    trap flag (bit 8) keep the user's value. *)
Lemma sfmask_keeps_user_flags : Z.testbit SFMASK_VALUE 18 = false /\ Z.testbit SFMASK_VALUE 8 = false /\ Z.testbit SFMASK_VALUE 4 = true.
Proof. done. Qed.

(** ** Machine checks *)
Definition bank_status (n : nat) (i m : Z) : bool := (m mod 4 =? 1) && (MSR_MCEn_STATUS i <=? m) && (m <? MSR_MCEn_STATUS (i + Z.of_nat n)).
Definition bank_ctl (n : nat) (i m : Z) : bool := (m mod 4 =? 0) && (MSR_MCEn_CTL i <=? m) && (m <? MSR_MCEn_CTL (i + Z.of_nat n)).

(** Equations between tests of register numbers. *)
Ltac bank_bits :=
  apply Bool.eq_iff_eq_true; rewrite ?orb_true_iff, ?andb_true_iff, ?Z.eqb_eq, ?Z.leb_le, ?Z.ltb_lt; Z.to_euclidean_division_equations; lia.

Lemma bank_status_succ n i m : bank_status (S n) i m = (m =? MSR_MCEn_STATUS i) || bank_status n (i + 1) m.
Proof. unfold bank_status, MSR_MCEn_STATUS. bank_bits. Qed.
Lemma bank_ctl_succ n i m : bank_ctl (S n) i m = (m =? MSR_MCEn_CTL i) || bank_ctl n (i + 1) m.
Proof. unfold bank_ctl, MSR_MCEn_CTL. bank_bits. Qed.

(** A processor that has the registers of [n] banks from the [i]-th on. *)
Definition has_banks (c : x86cpu) (n : nat) (i : Z) : Prop :=
  forall m, bank_status n i m || bank_ctl n i m = true -> is_Some (msrs c !! m).

(** Only model-specific registers changed, as [f] says. *)
Definition msrs_become (c c' : x86cpu) (f : Z -> option Z) : Prop :=
  cr0 c' = cr0 c /\ cr4 c' = cr4 c /\ xcr0 c' = xcr0 c /\ forall m, msrs c' !! m = f m.

Lemma has_banks_succ c n i m v :
  has_banks c (S n) i -> has_banks (with_msrs c (<[m := v]> (msrs c))) n (i + 1).
Proof.
  intros H q Hq. cbn [msrs with_msrs]. destruct (decide (q = m)) as [->|Hne]; [rewrite lookup_insert_eq; eauto|]. rewrite lookup_insert_ne by done. apply H.
  rewrite bank_status_succ, bank_ctl_succ. destruct (bank_status n (i + 1) q); cbn [orb] in *; [by rewrite orb_true_r|]. by rewrite Hq, !orb_true_r.
Qed.

Lemma clear_banks_ok n : forall i c, has_banks c n i ->
  returns (clear_banks n i c) (fun c' => msrs_become c c' (fun m => if bank_status n i m then Some 0 else msrs c !! m)).
Proof.
  induction n as [|n IH]; intros i c Hc; cbn [clear_banks].
  - apply returns_Ok. split_and!; [done..|]. intros m. assert (bank_status 0 i m = false) as -> by (unfold bank_status, MSR_MCEn_STATUS; bank_bits). done.
  - destruct (Hc (MSR_MCEn_STATUS i)) as [w Hw]; [by rewrite bank_status_succ, Z.eqb_refl|]. rewrite (wrmsr_Ok _ _ _ _ Hw), bind_Ok.
    eapply returns_mono; [apply IH; by apply has_banks_succ|]. intros c' (E0 & E4 & Ex & Em). split_and!; [done..|]. intros m. rewrite Em, bank_status_succ. cbn [msrs with_msrs].
    destruct (bank_status n (i + 1) m); [by rewrite orb_true_r|]. rewrite orb_false_r. destruct (Z.eqb_spec m (MSR_MCEn_STATUS i)) as [->|Hne]; [by rewrite lookup_insert_eq|by rewrite lookup_insert_ne].
Qed.

Lemma enable_banks_ok n : forall i c, has_banks c n i ->
  returns (enable_banks n i c) (fun c' => msrs_become c c' (fun m =>
    if bank_status n i m then Some 0 else if bank_ctl n i m then Some 0xFFFFFFFFFFFFFFFF else msrs c !! m)).
Proof.
  induction n as [|n IH]; intros i c Hc; cbn [enable_banks].
  - apply returns_Ok. split_and!; [done..|]. intros m. assert (bank_status 0 i m = false) as -> by (unfold bank_status, MSR_MCEn_STATUS; bank_bits).
    assert (bank_ctl 0 i m = false) as -> by (unfold bank_ctl, MSR_MCEn_CTL; bank_bits). done.
  - destruct (Hc (MSR_MCEn_CTL i)) as [w Hw]; [by rewrite bank_ctl_succ, Z.eqb_refl, orb_true_r|]. rewrite (wrmsr_Ok _ _ _ _ Hw), bind_Ok.
    destruct (Hc (MSR_MCEn_STATUS i)) as [w' Hw']; [by rewrite bank_status_succ, Z.eqb_refl|]. assert (MSR_MCEn_CTL i <> MSR_MCEn_STATUS i) as Hcs by (unfold MSR_MCEn_CTL, MSR_MCEn_STATUS; lia).
    rewrite (wrmsr_Ok _ _ _ w') by (cbn [msrs with_msrs]; by rewrite lookup_insert_ne). rewrite bind_Ok.
    eapply returns_mono; [apply IH|].
    { intros q Hq. cbn [msrs with_msrs]. apply (has_banks_succ c n i (MSR_MCEn_CTL i) (u64 0xFFFFFFFFFFFFFFFF)) in Hc. destruct (Hc q Hq) as [z Hz]. cbn [msrs with_msrs] in Hz.
      destruct (decide (q = MSR_MCEn_STATUS i)) as [->|Hne]; [rewrite lookup_insert_eq; eauto|]. rewrite lookup_insert_ne by done. eauto. }
    intros c' (E0 & E4 & Ex & Em). split_and!; [done..|]. intros m. rewrite Em, bank_status_succ, bank_ctl_succ. cbn [msrs with_msrs].
    destruct (bank_status n (i + 1) m) eqn:Es; [by rewrite orb_true_r|]. rewrite orb_false_r. destruct (Z.eqb_spec m (MSR_MCEn_STATUS i)) as [->|Hne].
    + assert (bank_ctl n (i + 1) (MSR_MCEn_STATUS i) = false) as -> by (unfold bank_ctl, MSR_MCEn_STATUS, MSR_MCEn_CTL; bank_bits). by rewrite lookup_insert_eq.
    + destruct (bank_ctl n (i + 1) m); [by rewrite orb_true_r|]. rewrite orb_false_r, lookup_insert_ne by done.
      destruct (Z.eqb_spec m (MSR_MCEn_CTL i)) as [->|Hne']; [by rewrite lookup_insert_eq|by rewrite lookup_insert_ne].
Qed.

(** A machine check that can be recovered from: every bank is cleared, the flag
    that says a check is in progress is taken back, and nothing else changes.
    One that cannot, or one without the banks, stops the machine. *)
Theorem handle_mce_correct c cap status :
  msrs c !! MSR_MCE_CAP = Some cap -> msrs c !! MSR_MCE_STATUS = Some status -> is_u64 status -> has_banks c (Z.to_nat (Z.land cap 0xFF)) 0 ->
  if Z.testbit status 0
  then returns (handle_exception_mce 0 true c) (fun c' => msrs_become c c' (fun m =>
         if m =? MSR_MCE_STATUS then Some (clear_bit status 2) else if bank_status (Z.to_nat (Z.land cap 0xFF)) 0 m then Some 0 else msrs c !! m))
  else handle_exception_mce 0 true c = Panic.
Proof.
  intros Hcap Hst Hu Hb. unfold handle_exception_mce, mce_clear_banks, rdmsr. cbn [Z.eqb negb]. rewrite (load_Ok _ _ _ Hst), bind_Ok, (load_Ok _ _ _ Hcap), bind_Ok.
  assert (negb (Z.land status MCE_STATUS_RESTART_IP_VALID =? 0) = Z.testbit status 0) as ->.
  { change MCE_STATUS_RESTART_IP_VALID with (Z.ones 1). rewrite Z.land_ones, Z.bit0_odd, Zmod_odd by lia. by destruct (Z.odd status). }
  destruct (clear_banks_ok _ 0 c Hb) as (c1 & -> & E0 & E4 & Ex & Em). rewrite bind_Ok. destruct (Z.testbit status 0); cbn [negb]; [|done].
  assert (bank_status (Z.to_nat (Z.land cap 255)) 0 MSR_MCE_STATUS = false) as Hno by (unfold bank_status; vm_compute (MSR_MCEn_STATUS 0 <=? MSR_MCE_STATUS); by rewrite andb_false_r).
  rewrite (wrmsr_Ok c1 _ _ status) by (rewrite Em, Hno; done). apply returns_Ok. split_and!; [done..|]. intros m. cbn [msrs with_msrs].
  change (u64 (Z.lnot MCE_STATUS_IN_PROGRESS_FLAG)) with (u64 (Z.lnot (BIT 2))). fold (clear_bit status 2). rewrite u64_small by (by apply land_keeps_u64).
  destruct (Z.eqb_spec m MSR_MCE_STATUS) as [->|Hne]; [by rewrite lookup_insert_eq|]. by rewrite lookup_insert_ne, Em.
Qed.

(** Setting up machine checks enables every source of every bank. *)
Lemma setup_mce_ok cpuid hv c cap :
  cpuid_check cpuid c hv CPUID_HAS_MCE = true -> cpuid_check cpuid c hv CPUID_HAS_MCA = true ->
  msrs c !! MSR_MCE_CAP = Some cap -> is_Some (msrs c !! MSR_MCE_CTL) -> has_banks c (Z.to_nat (Z.land cap 0xFF)) 0 ->
  returns (setup_mce cpuid hv c) (fun '(mce, mca, c') => mce = true /\ mca = true /\ Z.testbit (cr4 c') CR4_BIT_MCE = true /\
    forall m, bank_ctl (Z.to_nat (Z.land cap 0xFF)) 0 m = true -> msrs c' !! m = Some 0xFFFFFFFFFFFFFFFF).
Proof.
  intros H1 H2 Hcap [w Hctl] Hb. unfold setup_mce, rdmsr. rewrite H1, H2. cbn [andb]. rewrite (load_Ok _ _ _ Hcap), bind_Ok.
  assert (returns (if negb (Z.land cap MCE_CAP_BIT_CTL_REG_PRESENT =? 0) then wrmsr c MSR_MCE_CTL 0xFFFFFFFFFFFFFFFF else Ok c)
    (fun c1 => has_banks c1 (Z.to_nat (Z.land cap 0xFF)) 0)) as (c1 & -> & Hb1).
  { destruct (negb _); [|by apply returns_Ok]. rewrite (wrmsr_Ok _ _ _ _ Hctl). apply returns_Ok. intros m Hm. cbn [msrs with_msrs]. destruct (Hb m Hm) as [z Hz].
    destruct (decide (m = MSR_MCE_CTL)) as [->|Hne]; [rewrite lookup_insert_eq; eauto|]. rewrite lookup_insert_ne by done. eauto. }
  rewrite bind_Ok. destruct (enable_banks_ok _ 0 c1 Hb1) as (c2 & -> & _ & _ & _ & Em). rewrite bind_Ok. apply returns_Ok. split_and!; [done..| |].
  - cbn [cr4 set_cr4_bit with_cr4]. rewrite set_bit_testbit by (unfold CR4_BIT_MCE; lia). by rewrite Z.eqb_refl, orb_true_r.
  - intros m Hm. cbn [msrs set_cr4_bit with_cr4]. rewrite Em, Hm. assert (bank_status (Z.to_nat (Z.land cap 255)) 0 m = false) as ->; [|done].
    revert Hm. unfold bank_ctl, bank_status. destruct (Z.eqb_spec (m mod 4) 0) as [->|]; done.
Qed.

(** ** A processor with SMEP, SMAP, XSAVE, FRED and two machine check banks *)
Module CpuDemo.
Definition cpuid (c : x86cpu) (l s : Z) : cpuid_regs :=
  if l =? 0 then CpuidRegs 0x20 0x756E6547 0x6C65746E 0x49656E69
  else if l =? 1 then CpuidRegs 0 0 (2 ^ 26 + 2 ^ 21) (2 ^ 7 + 2 ^ 9 + 2 ^ 14)
  else if l =? 7 then (if s =? 0 then CpuidRegs 1 (2 ^ 7 + 2 ^ 20) 0 0 else CpuidRegs (2 ^ 17) 0 0 0)
  else if l =? 0xD then CpuidRegs 0x602E7 (if xcr0 c =? 0xE7 then 2432 else 576) 0 0
  else CpuidRegs 0x80000008 0 0 0.
Definition cpu : x86cpu :=
  X86Cpu 0x80000011 0x20 1 (list_to_map (map (fun m => (m, if m =? 0x179 then 2 else if m =? 0x17A then 5 else 0))
    ([0x179; 0x17A; 0x17B; 0x1CD; 0x1CE; 0x1CF; 0x1D0; 0x1D4; MSR_EFER; MSR_STAR; MSR_LSTAR; MSR_SFMASK; 0xC0000101; 0xC0000102] ++ seqZ 0x400 8))).
Definition stack : Z := 0xFFFFFFFF80100000.
End CpuDemo.

Lemma control_regs_correct_witness :
  let '(g, cb) := setup_control_regs CpuDemo.cpuid no_features false CpuDemo.cpu true in
  let '(g', ca) := setup_control_regs CpuDemo.cpuid g false (X86Cpu 0x11 0 0 ∅) false in
  g = Features true true true 2432 /\ xcr0 ca = xcr0 cb /\ xcr0 cb = 0xE7.
Proof.
  pose proof (control_regs_correct CpuDemo.cpuid false ltac:(done) ltac:(intros c c' E; cbn; by rewrite E)
    ltac:(intros c l s; unfold CpuDemo.cpuid; repeat case_match; by vm_compute) CpuDemo.cpu (X86Cpu 0x11 0 0 ∅)) as H.
  destruct (setup_control_regs CpuDemo.cpuid no_features false CpuDemo.cpu true) as [g cb] eqn:E. vm_compute in E. injection E as <- <-.
  destruct (setup_control_regs CpuDemo.cpuid _ false (X86Cpu 17 0 0 ∅) false) as [g' ca]. destruct H as (_ & _ & _ & H). destruct (H eq_refl) as (Hx & _).
  split; [reflexivity|]. split; [exact Hx|reflexivity].
Defined.


Lemma handle_mce_correct_witness :
  returns (handle_exception_mce 0 true CpuDemo.cpu) (fun c' => msrs c' !! MSR_MCE_STATUS = Some 1 /\ msrs c' !! 0x405 = Some 0).
Proof.
  pose proof (handle_mce_correct CpuDemo.cpu 2 5 ltac:(reflexivity) ltac:(reflexivity) ltac:(done)) as H. cbn [Z.testbit] in H.
  eapply returns_mono; [apply H|].
  - intros m Hm. assert (In m (seqZ 0x400 8)) as Hin.
    { apply list_elem_of_In, elem_of_seqZ. revert Hm. unfold bank_status, bank_ctl, MSR_MCEn_STATUS, MSR_MCEn_CTL. change (Z.of_nat (Z.to_nat (Z.land 2 255))) with 2. rewrite orb_true_iff, !andb_true_iff, !Z.leb_le, !Z.ltb_lt, !Z.eqb_eq. Z.to_euclidean_division_equations. lia. }
    assert (forallb (fun m => bool_decide (is_Some (msrs CpuDemo.cpu !! m))) (seqZ 0x400 8) = true) as Hall by (vm_compute; reflexivity).
    rewrite forallb_forall in Hall. by apply (bool_decide_eq_true_1 (is_Some (msrs CpuDemo.cpu !! m))), Hall.
  - intros c' (_ & _ & _ & Hm). rewrite !Hm. by vm_compute.
Defined.
