(* ===== verification/Interrupts.v ===== *)
(** * Dispatch of interrupts and system calls

    arch/x86_64/cpu/interrupts.c, arch/riscv64/cpu/interrupts.c,
    arch/loongarch64/cpu/interrupts.c, syscalls/syscalls.c and misc_ctl.c.  A
    handler is the list of what it calls, in order, and the frame it leaves;
    the callees are modelled in their own files.  [Panic] is panic_interrupt,
    after the name of the exception has been looked up. *)

From Stdlib Require Import String.
From S2P Require Import Prelude X86Cpu X86Setup.
#[local] Open Scope Z_scope.

Inductive action :=
| ALog
| AMachineCheck
| ASchedHandleTimeouts
| ATimerSetTimeoutMs (ms : Z)
| ASendEoi
| AEnableInterrupts
| ASchedule.

(** ** x86_64 *)
Module X86.
(** The part of the frame that the dispatcher reads or writes. *)
Record frame := Frame { vector : Z; ss : Z }.

Definition LAPIC_TIMER_VECTOR : Z := 0x20.
Definition FRED_FAKE_VECTOR_CPL3 : Z := 3.
Definition FRED_EVENT_TYPE_SWINT : Z := 4.
Definition FRED_EVENT_TYPE_SWFAULT : Z := 6.

Definition exception_names : list string :=
  ["#DE (0x00) - Division Error"; "#DB (0x01) - Debug Exception"; "#NMI (0x02) - Non Maskable Interrupt"; "#BP (0x03) - Breakpoint Exception";
   "#OF (0x04) - Overflow Exception"; "#BR (0x05) - Bound Range Exception"; "#UD (0x06) - Invalid Opcode"; "#NM (0x07) - FPU Not Found";
   "#DF (0x08) - Double Fault"; "#CSO (0x09) - Coprocessor Segment Overrun"; "#TS (0x0A) - Invalid TSS"; "#NP (0x0B) - Missing Segment";
   "#SS (0x0C) - Invalid Stack Segment"; "#GPF (0x0D) - General Protection Fault"; "#PF (0x0E) - Page Fault"; "??? (0x0F) - Reserved";
   "#MF (0x10) - x87 FPU Exception"; "#AC (0x11) - Alignment Check Exception"; "#MCE (0x12) - Machine Check Exception"; "#XM (0x13) - SIMD FPU Exception";
   "#VE (0x14) - Virtualization Exception"; "#CP (0x15) - Control Protection Exception"; "??? (0x16) - Reserved"; "??? (0x17) - Reserved";
   "??? (0x18) - Reserved"; "??? (0x19) - Reserved"; "??? (0x1A) - Reserved"; "??? (0x1B) - Reserved";
   "#HV (0x1C) - Hypervisor Injection Exception"; "#HC (0x1D) - VMM Communication Exception"; "#DX (0x1E) - Security Exception"; "??? (0x1F) - Reserved"]%string.

Definition main_path (vector : Z) : res (list action) :=
  if vector =? 0xFA then Ok [ALog]
  else if vector =? INTERRUPT_MACHINE_CHECK_EXCEPTION then Ok [AMachineCheck]
  else if vector =? LAPIC_TIMER_VECTOR then Ok [ASchedHandleTimeouts; ATimerSetTimeoutMs 1; ASendEoi; AEnableInterrupts; ASchedule]
  else if vector <=? 0x1F then _ ← of_option (exception_names !! Z.to_nat vector); Panic
  else Panic.

Definition dispatch_interrupt (fred_enabled : bool) (f : frame) : res (list action) :=
  if negb fred_enabled then main_path (vector f)
  else
    let v := Z.land (Z.shiftr (ss f) 32) 0xFF in
    let type := Z.land (Z.shiftr (ss f) 48) 0xF in
    if (vector f =? FRED_FAKE_VECTOR_CPL3) && ((type =? FRED_EVENT_TYPE_SWINT) || (type =? FRED_EVENT_TYPE_SWFAULT)) then Ok []
    else main_path v.
End X86.

(** ** riscv64 *)
Module Riscv.
(** The part of the frame that the dispatcher reads or writes. *)
Record frame := Frame { sepc : Z; sstatus : Z; scause : Z }.

Definition EXCEPTION_CAUSE_EBREAK : Z := 3.
Definition INTERRUPT_CAUSE_TIMER : Z := 5.

Definition exception_names : list string :=
  ["Instruction address misaligned (0x00)"; "Instruction access fault (0x01)"; "Illegal instruction (0x02)"; "Breakpoint (0x03)";
   "Load address misaligned (0x04)"; "Load access fault (0x05)"; "Store/AMO address misaligned (0x06)"; "Store/AMO access fault (0x07)";
   "Environment call from U-mode (0x08)"; "Environment call from S-mode (0x09)"; "Reserved (0x0A)"; "Reserved (0x0B)";
   "Instruction page fault (0x0C)"; "Load page fault (0x0D)"; "Reserved (0x0E)"; "Store/AMO page fault (0x0F)";
   "Reserved (0x10)"; "Reserved (0x11)"; "Software check (0x12)"; "Hardware error (0x13)"]%string.

Definition exception_name (cause : Z) : res string :=
  if cause <? Z.of_nat (length exception_names) then of_option (exception_names !! Z.to_nat cause)
  else if ((cause >=? 24) && (cause <=? 31)) || ((cause >=? 48) && (cause <=? 63)) then Ok "Custom use"%string
  else Ok "Reserved"%string.

Section Dispatch.
(** The 16-bit read at the trapping address. *)
Context (read16 : Z -> res Z).

Definition dispatch_interrupt (f : frame) : res (list action * frame) :=
  let is_interrupt := negb (Z.land (Z.shiftr (scause f) 63) 1 =? 0) in
  let cause := Z.land (scause f) (u64 (Z.lnot (shl64 1 63))) in
  let pre := if negb (is_interrupt && (cause =? INTERRUPT_CAUSE_TIMER)) then [AEnableInterrupts] else [] in
  if negb is_interrupt then
    if cause =? EXCEPTION_CAUSE_EBREAK then
      insn16 ← read16 (sepc f);
      let is_rvc := (sepc f mod 2 =? 0) && negb (Z.land insn16 3 =? 3) in
      let n := if is_rvc && (insn16 =? 0x9002) then 2 else 4 in
      Ok (pre ++ [ALog], Frame (u64 (sepc f + n)) (sstatus f) (scause f))
    else _ ← exception_name cause; Panic
  else if cause =? INTERRUPT_CAUSE_TIMER then
    let s := Z.land (sstatus f) (u64 (Z.lnot (shl64 3 13))) in
    let s := Z.lor s (shl64 2 13) in
    Ok (pre ++ [ASchedHandleTimeouts; ATimerSetTimeoutMs 1; AEnableInterrupts; ASchedule], Frame (sepc f) s (scause f))
  else Panic.
End Dispatch.
End Riscv.

(** ** loongarch64 *)
Module Loongarch.
(** The part of the frame that the dispatcher reads or writes. *)
Record frame := Frame { era : Z; estat : Z }.

Definition IRQNUM_TIMER_INTERRUPT_MASK : Z := 0x800.

Definition exception_names : list string :=
  ["Interrupt (0x00)"; "Page Invalid For Load (0x01)"; "Page Invalid For Store (0x02)"; "Page Invalid For Fetch (0x03)"; "Page Non-Writable (0x04)";
   "Page Non-Readable (0x05)"; "Page Non-Executable (0x06)"; "Page Privilege Level Illegal (0x07)"; "Address Exception (0x08)"; "Address Alignment Exception (0x09)";
   "Bound Check (0x0A)"; "System Call (0x0B)"; "Breakpoint (0x0C)"; "Invalid Instruction (0x0D)"; "Instruction Privilege Error (0x0E)";
   "Floating-Point Disable (0x0F)"; "128-Bit SIMD Disable (0x10)"; "256-Bit ASIMD Disable (0x11)"; "Floating-Point Error (0x12)"; "Watchpoint Exception (0x13)";
   "Binary Translation Disabled Exception (0x14)"; "Binary Translation Exception (0x15)"; "Guest Sensitive Privileged Resource (0x16)"; "Hypervisor Call (0x17)"; "Guest CSR Change Exception (0x18)"]%string.

Definition dispatch_interrupt (f : frame) : res (list action * frame) :=
  let ecode := Z.land (Z.shiftr (estat f) 16) 0x3F in
  let irq_num := Z.land (estat f) 0x1FFF in
  let timer := negb (Z.land irq_num IRQNUM_TIMER_INTERRUPT_MASK =? 0) in
  let pre := if negb ((ecode =? 0) && timer) then [AEnableInterrupts] else [] in
  if ecode =? 0xC then Ok (pre ++ [ALog], Frame (u64 (era f + 4)) (estat f))
  else if ecode =? 0 then
    if timer then Ok (pre ++ [ASchedHandleTimeouts; ATimerSetTimeoutMs 5; AEnableInterrupts; ASchedule], f) else Panic
  else
    if ecode <? Z.of_nat (length exception_names) then _ ← of_option (exception_names !! Z.to_nat ecode); Panic
    else Panic.
End Loongarch.

(** ** System calls *)
Definition SYS_MISC_CTL : Z := 0.
Definition SYS_ALLOC_ANON : Z := 1.
Definition SYS_FREE_ANON : Z := 2.
Definition SYS_EXIT : Z := 3.
Definition SYS_SLEEP_NS : Z := 4.
Definition SYS_GET_NS : Z := 5.
Definition SYS_FUTEX_WAIT : Z := 6.
Definition SYS_FUTEX_WAKE : Z := 7.
Definition MISC_CTL_DBG_PUTC : Z := 0xE9.
Definition SYS_MISC_CTL_X86_64_SET_FSBASE : Z := 0x100.

Record sysret := SysRet { retval : Z; error : Z }.
Definition SYSRET_OKAY : sysret := SysRet 0 0.
Definition SYSRET_ENOSYS : sysret := SysRet 0 (u64 (-1)).

(** What the system calls work on; the kernel has one set of them per
    architecture, and the theorem below only needs that they exist. *)
Class syscall_impl (K : Type) := {
  anon_alloc : K -> Z -> res (sysret * K);
  anon_free : K -> Z -> Z -> res (sysret * K);
  futex_wait : K -> Z -> Z -> Z -> res (sysret * K);
  futex_wake : K -> Z -> Z -> res (sysret * K);
  (** Does not return to the caller: the state in which the thread is gone. *)
  thread_exit : K -> res K;
  sched_wait : K -> Z -> res K;
  get_ns : K -> res (Z * K);
  put_char : K -> Z -> res K;
  (** The thread's TLS base and the register that holds it. *)
  set_fsbase : K -> Z -> res K;
}.

Section Syscalls.
Context {K : Type} `{syscall_impl K} (x86 : bool).

Definition handle_arch_misc_ctl (k : K) (arg1 arg2 : Z) : res (sysret * K) :=
  if x86 && (arg1 =? SYS_MISC_CTL_X86_64_SET_FSBASE) then k ← set_fsbase k arg2; Ok (SYSRET_OKAY, k)
  else Ok (SYSRET_ENOSYS, k).

Definition syscall_misc_ctl (k : K) (arg1 arg2 : Z) : res (sysret * K) :=
  if arg1 =? MISC_CTL_DBG_PUTC then k ← put_char k (u8 arg2); Ok (SYSRET_OKAY, k)
  else handle_arch_misc_ctl k arg1 arg2.

(** [None] when the thread ended. *)
Definition dispatch_syscall (k : K) (sysnum arg1 arg2 arg3 : Z) : res (option sysret * K) :=
  let returned (r : res (sysret * K)) : res (option sysret * K) := '(s, k) ← r; Ok (Some s, k) in
  if sysnum =? SYS_MISC_CTL then returned (syscall_misc_ctl k arg1 arg2)
  else if sysnum =? SYS_ALLOC_ANON then returned (anon_alloc k arg1)
  else if sysnum =? SYS_FREE_ANON then returned (anon_free k arg1 arg2)
  else if sysnum =? SYS_FUTEX_WAIT then returned (futex_wait k arg1 (u32 arg2) arg3)
  else if sysnum =? SYS_FUTEX_WAKE then returned (futex_wake k arg1 (s32 arg2))
  else if sysnum =? SYS_EXIT then k ← thread_exit k; Ok (None, k)
  else if sysnum =? SYS_SLEEP_NS then
    if arg1 =? 0 then Ok (Some SYSRET_OKAY, k) else k ← sched_wait k arg1; Ok (Some SYSRET_OKAY, k)
  else if sysnum =? SYS_GET_NS then '(ns, k) ← get_ns k; Ok (Some (SysRet ns 0), k)
  else Ok (Some SYSRET_ENOSYS, k).
End Syscalls.

(** ** What the dispatchers do *)

(** A lookup in a table of names never runs over its end. *)
Lemma name_found (names : list string) i : 0 <= i < Z.of_nat (length names) -> nofault (of_option (names !! Z.to_nat i)) (fun _ => True).
Proof. intros Hi. destruct (lookup_lt_is_Some_2 names (Z.to_nat i)) as [s ->]; [lia|done]. Qed.

Lemma land_low_range v n : 0 <= n -> 0 <= Z.land v (Z.ones n) < 2 ^ n.
Proof. intros Hn. rewrite Z.land_ones by lia. apply Z.mod_pos_bound. lia. Qed.

(** When a dispatcher schedules, the timeouts were handled, the timer runs
    again and interrupts are on, in this order, and scheduling comes last. *)
Definition timer_path (pre mid : list action) (acts : list action) : Prop :=
  exists ms, acts = pre ++ [ASchedHandleTimeouts; ATimerSetTimeoutMs ms] ++ mid ++ [AEnableInterrupts; ASchedule].

(** With gates and with FRED: no frame makes the dispatcher read outside the table
    of names, and it schedules only from the timer interrupt, after the
    controller was told that the interrupt is done. *)
Theorem x86_dispatch_safe fred f :
  0 <= X86.vector f ->
  nofault (X86.dispatch_interrupt fred f) (fun acts => ASchedule ∈ acts -> timer_path [] [ASendEoi] acts).
Proof.
  intros Hv. assert (forall v, 0 <= v -> nofault (X86.main_path v) (fun acts => ASchedule ∈ acts -> timer_path [] [ASendEoi] acts)) as Hmain.
  { intros v H0. unfold X86.main_path. destruct (v =? 250); [apply nofault_Ok; by intros [?|[]%not_elem_of_nil]%elem_of_cons|].
    destruct (v =? _); [apply nofault_Ok; by intros [?|[]%not_elem_of_nil]%elem_of_cons|]. destruct (v =? _); [apply nofault_Ok; intros _; by exists 1|].
    destruct (Z.leb_spec v 31); [|done]. eapply nofault_bind; [apply name_found; cbn; lia|done]. }
  unfold X86.dispatch_interrupt. destruct fred; cbn [negb]; [|by apply Hmain].
  destruct (_ && _); [apply nofault_Ok; by intros []%not_elem_of_nil|]. apply Hmain. apply (land_low_range _ 8). lia.
Qed.

(** The vector that lapic_setup_common gives to spurious interrupts is not one
    of those handled: such an interrupt stops the kernel. *)
Lemma spurious_interrupt_stops : X86.dispatch_interrupt false (X86.Frame 0xFF 0) = Panic.
Proof. reflexivity. Qed.

(** Any exception of a user program but a machine check stops the kernel too. *)
Lemma exception_stops v ss : 0 <= v <= 0x1F -> v <> INTERRUPT_MACHINE_CHECK_EXCEPTION -> X86.dispatch_interrupt false (X86.Frame v ss) = Panic.
Proof.
  intros Hv Hne. unfold X86.dispatch_interrupt, X86.main_path. cbn [negb X86.vector]. rewrite (proj2 (Z.eqb_neq v 250)), (proj2 (Z.eqb_neq v _) Hne), (proj2 (Z.eqb_neq v _)) by (unfold X86.LAPIC_TIMER_VECTOR; lia).
  rewrite (proj2 (Z.leb_le v 31)) by lia. destruct (lookup_lt_is_Some_2 X86.exception_names (Z.to_nat v)) as [s ->]; [cbn; lia|done].
Qed.

(** riscv64: a breakpoint continues behind its instruction, of two or four
    bytes; the timer leaves the floating point state marked clean and the rest of
    the status as it was. *)
Theorem riscv_dispatch_correct read16 f :
  is_u64 (Riscv.scause f) -> (forall a, exists i, read16 a = Ok i) ->
  nofault (Riscv.dispatch_interrupt read16 f) (fun '(acts, f') =>
    Riscv.scause f' = Riscv.scause f /\
    (ASchedule ∈ acts -> timer_path [] [] acts /\ Riscv.sepc f' = Riscv.sepc f /\
       forall k, 0 <= k < 64 -> Z.testbit (Riscv.sstatus f') k = if k =? 14 then true else if k =? 13 then false else Z.testbit (Riscv.sstatus f) k) /\
    (ASchedule ∉ acts -> exists i n, read16 (Riscv.sepc f) = Ok i /\ Riscv.sepc f' = u64 (Riscv.sepc f + n) /\ Riscv.sstatus f' = Riscv.sstatus f /\ (n = 2 \/ n = 4))).
Proof.
  intros Hu Hr. unfold Riscv.dispatch_interrupt. set (cause := Z.land (Riscv.scause f) (u64 (Z.lnot (shl64 1 63)))).
  assert (0 <= cause) as Hc by (apply Z.land_nonneg; left; apply Hu).
  destruct (negb (Z.land (Z.shiftr (Riscv.scause f) 63) 1 =? 0)); cbn [negb].
  - destruct (cause =? Riscv.INTERRUPT_CAUSE_TIMER); [|done]. cbn [andb negb app]. apply nofault_Ok. split; [done|]. split; [|intros Hno; destruct Hno; by do 3 right; left].
    intros _. split; [by exists 1|]. split; [done|]. intros k Hk. cbn [Riscv.sstatus]. rewrite Z.lor_spec, Z.land_spec, lnot_testbit64 by lia.
    assert (Z.testbit (shl64 2 13) k = (k =? 14)) as -> by (change (shl64 2 13) with (2 ^ 14); rewrite Z.pow2_bits_eqb by lia; apply Z.eqb_sym).
    assert (Z.testbit (shl64 3 13) k = (k =? 13) || (k =? 14)) as ->.
    { change (shl64 3 13) with (Z.lor (2 ^ 13) (2 ^ 14)). rewrite Z.lor_spec, !Z.pow2_bits_eqb by lia. by rewrite (Z.eqb_sym 13), (Z.eqb_sym 14). }
    destruct (Z.eqb_spec k 14) as [->|]; [by rewrite orb_true_r|]. rewrite !orb_false_r. destruct (k =? 13); [apply andb_false_r|apply andb_true_r].
  - destruct (cause =? Riscv.EXCEPTION_CAUSE_EBREAK).
    + destruct (Hr (Riscv.sepc f)) as [i Ei]. rewrite Ei, bind_Ok. apply nofault_Ok. split; [done|]. cbn [andb negb app]. split.
      * intros [?|[?|[]%not_elem_of_nil]%elem_of_cons]%elem_of_cons; done.
      * intros _. exists i. eexists. split; [done|]. split; [done|]. split; [done|]. destruct (_ && (i =? _)); auto.
    + eapply nofault_bind; [|done]. unfold Riscv.exception_name. destruct (Z.ltb_spec cause (Z.of_nat (length Riscv.exception_names))); [by apply name_found|]. by destruct (_ || _).
Qed.

(** loongarch64: no frame makes the dispatcher read outside the table. *)
Theorem loongarch_dispatch_safe f :
  nofault (Loongarch.dispatch_interrupt f) (fun '(acts, f') =>
    (ASchedule ∈ acts -> timer_path [] [] acts /\ f' = f) /\ (ASchedule ∉ acts -> Loongarch.era f' = u64 (Loongarch.era f + 4))).
Proof.
  unfold Loongarch.dispatch_interrupt. pose proof (land_low_range (Z.shiftr (Loongarch.estat f) 16) 6 ltac:(lia)) as He. change (Z.ones 6) with 63 in He.
  set (ecode := Z.land (Z.shiftr (Loongarch.estat f) 16) 63) in *. destruct (Z.eqb_spec ecode 12) as [->|]; [cbn [Z.eqb negb andb app]; apply nofault_Ok; split|].
  - by intros [?|[?|[]%not_elem_of_nil]%elem_of_cons]%elem_of_cons.
  - done.
  - destruct (Z.eqb_spec ecode 0) as [->|].
    + destruct (negb _); [|done]. cbn [andb negb app]. apply nofault_Ok. split; [intros _; split; [by exists 5|done]|]. intros Hno. destruct Hno. by do 3 right; left.
    + destruct (Z.ltb_spec ecode (Z.of_nat (length Loongarch.exception_names))); [|done]. eapply nofault_bind; [apply name_found; lia|done].
Qed.

Section SyscallProofs.
Context {K : Type} `{I : syscall_impl K} (x86 : bool).

(** A number without a system call, or a control code without a function, is
    refused with ENOSYS and changes nothing. *)
Theorem unknown_syscall_refused k sysnum arg1 arg2 arg3 :
  0 <= sysnum ->
  (SYS_FUTEX_WAKE < sysnum \/ (sysnum = SYS_MISC_CTL /\ arg1 <> MISC_CTL_DBG_PUTC /\ (arg1 <> SYS_MISC_CTL_X86_64_SET_FSBASE \/ x86 = false))) ->
  dispatch_syscall x86 k sysnum arg1 arg2 arg3 = Ok (Some SYSRET_ENOSYS, k).
Proof using Type.
  unfold dispatch_syscall, SYS_FUTEX_WAKE, SYS_MISC_CTL. intros H0 [Hs|(-> & H1 & H2)].
  - unfold SYS_MISC_CTL, SYS_ALLOC_ANON, SYS_FREE_ANON, SYS_FUTEX_WAIT, SYS_EXIT, SYS_SLEEP_NS, SYS_GET_NS. by rewrite !(proj2 (Z.eqb_neq sysnum _)) by lia.
  - cbn [Z.eqb]. unfold syscall_misc_ctl, handle_arch_misc_ctl. rewrite (proj2 (Z.eqb_neq arg1 _) H1).
    assert (x86 && (arg1 =? SYS_MISC_CTL_X86_64_SET_FSBASE) = false) as ->; [|done]. destruct H2 as [H2|H2]; [rewrite (proj2 (Z.eqb_neq arg1 _) H2); apply andb_false_r|by rewrite H2].
Qed.
End SyscallProofs.
