(* ===== verification/Spalloc.v ===== *)
(** * mem/spalloc.c: objects of one size, cut from pages

    A page starts with a header; the rest is an array of equal slots whose free
    ones form a stack.  The pages with free slots form the partial list.  A
    page comes from the page allocator on demand and goes back when all its
    slots are free.  The memory of the pages in use is kept by type: the
    headers, their list linkage and the free slots' stack nodes. *)

From S2P Require Import Prelude LList PageAlloc.
#[local] Open Scope Z_scope.

Definition SPALLOC_MAGIC : Z := 0x2d59fe75.

(** The linkage, at [LINKAGE_OFFSET] in the header, is a node of its own. *)
Record spalloc_page_header := SpHeader { magic : Z; freecount : Z; free_objs : Z }.
Definition sizeof_page_header : Z := 32.
Definition LINKAGE_OFFSET : Z := 16.

Record spalloc_allocator := SpAllocator {
  partial_list : llist;
  obj_stride : Z;
  obj_offset : Z;
  objs_per_page : Z;
}.

Record spalloc_mem (P : Type) := SpMem {
  sp_pages : P;
  sp_hdrs : gmap Z spalloc_page_header;
  sp_objs : Stack.snodes;
  sp_links : nodes;
}.
Arguments SpMem {P}.
Arguments sp_pages {P}.
Arguments sp_hdrs {P}.
Arguments sp_objs {P}.
Arguments sp_links {P}.

Section Spalloc.
Context `{cfg : kconfig} {P : Type} `{page_alloc P}.

Definition SPALLOC_PAGE_OF (ptr : Z) : Z := ALIGN_DOWN ptr PAGE_SIZE.

(** [alloc] is not null: it is a static or embedded structure. *)
Definition spalloc_init (obj_size obj_align : Z) : res spalloc_allocator :=
  _ ← assert (obj_size >=? 8);
  _ ← assert (obj_size <=? PAGE_SIZE / 2);
  _ ← assert (obj_align <=? PAGE_SIZE / 2);
  _ ← assert (isPow2ull obj_align);
  let stride := ALIGN_UP obj_size obj_align in
  _ ← assert (stride mod 8 =? 0);
  let offset := u16 (ALIGN_UP sizeof_page_header obj_align) in
  Ok (SpAllocator LLIST_INIT (u16 stride) offset (u16 ((PAGE_SIZE - offset) / u16 stride))).

(** Push the slots [i], [i + 1], ... of a fresh page. *)
Fixpoint init_slots (n : nat) (head : Z) (objs : Stack.snodes) (obj stride : Z) : res (Z * Stack.snodes) :=
  match n with
  | O => Ok (head, objs)
  | S n =>
      '(head, objs) ← Stack.stack_push head (<[obj := 0]> objs) obj;
      init_slots n head objs (obj + stride) stride
  end.

Definition new_page (a : spalloc_allocator) (m : spalloc_mem P) : res (Z * spalloc_mem P) :=
  '(paddr, pages) ← pa_alloc (sp_pages m);
  let hdr := TO_HHDM paddr in
  let vbase := hdr + obj_offset a in
  '(head, objs) ← init_slots (Z.to_nat (objs_per_page a)) 0 (sp_objs m) vbase (obj_stride a);
  Ok (hdr, SpMem pages (<[hdr := SpHeader SPALLOC_MAGIC (objs_per_page a) head]> (sp_hdrs m)) objs
             (<[hdr + LINKAGE_OFFSET := LNode 0 0]> (sp_links m))).

Definition spalloc_malloc (a : spalloc_allocator) (m : spalloc_mem P) : res (Z * spalloc_allocator * spalloc_mem P) :=
  '(node, pl, links) ← llist_pop (partial_list a) (sp_links m);
  let m := SpMem (sp_pages m) (sp_hdrs m) (sp_objs m) links in
  '(hdr, m) ← (if negb (node =? 0) then
      let hdr := SPALLOC_PAGE_OF node in
      h ← load (sp_hdrs m) hdr;
      _ ← assert (magic h =? SPALLOC_MAGIC);
      Ok (hdr, m)
    else new_page a m);
  h ← load (sp_hdrs m) hdr;
  '(obj, head, objs) ← Stack.stack_pop (free_objs h) (sp_objs m);
  let count := u16 (freecount h - 1) in
  hdrs ← store (sp_hdrs m) hdr (SpHeader (magic h) count head);
  '(pl, links) ← (if count >? 0 then llist_push pl (sp_links m) (hdr + LINKAGE_OFFSET) else Ok (pl, sp_links m));
  Ok (obj, SpAllocator pl (obj_stride a) (obj_offset a) (objs_per_page a), SpMem (sp_pages m) hdrs objs links).

(** A page that goes back is no header, slots or linkage any more. *)
Definition drop_page (a : spalloc_allocator) (m : spalloc_mem P) (pages : P) (hdr : Z) (links : nodes) : spalloc_mem P :=
  SpMem pages (delete hdr (sp_hdrs m))
    (filter (fun '(o, _) => ~ (hdr <= o < hdr + PAGE_SIZE)) (sp_objs m)) (delete (hdr + LINKAGE_OFFSET) links).

Definition spalloc_free (a : spalloc_allocator) (m : spalloc_mem P) (obj : Z) : res (spalloc_allocator * spalloc_mem P) :=
  let hdr := SPALLOC_PAGE_OF obj in
  h ← load (sp_hdrs m) hdr;
  _ ← assert (magic h =? SPALLOC_MAGIC);
  '(head, objs) ← Stack.stack_push (free_objs h) (sp_objs m) obj;
  let count := u16 (freecount h + 1) in
  hdrs ← store (sp_hdrs m) hdr (SpHeader (magic h) count head);
  let m := SpMem (sp_pages m) hdrs objs (sp_links m) in
  let with_list pl := SpAllocator pl (obj_stride a) (obj_offset a) (objs_per_page a) in
  if count =? 1 then
    '(pl, links) ← llist_push (partial_list a) (sp_links m) (hdr + LINKAGE_OFFSET);
    Ok (with_list pl, SpMem (sp_pages m) (sp_hdrs m) (sp_objs m) links)
  else if count =? objs_per_page a then
    '(pl, links) ← llist_node_delete (partial_list a) (sp_links m) (hdr + LINKAGE_OFFSET);
    pages ← pa_free (sp_pages m) (FROM_HHDM hdr);
    Ok (with_list pl, drop_page a m pages hdr links)
  else Ok (with_list (partial_list a), m).
End Spalloc.
