(* ===== verification/SpallocSpec.v ===== *)
(** * Correctness of the object allocator

    Proved against the page allocator's interface: which pages are owned, which
    slots are free, and that objects handed out are distinct slots. *)

From S2P Require Import Prelude LList Pfndb Buddy BuddyInv BuddySpec PageAlloc Spalloc.
#[local] Open Scope Z_scope.

Section SpallocSpec.
Context `{cfg_ok : kconfig_ok} {P : Type} `{PA : !page_alloc P} `{PO : !page_alloc_ok P}.
(** The boot loader places the direct map on a page boundary. *)
Hypothesis hhdm_aligned : (PAGE_SIZE | hhdm_offset).
Implicit Types (a : spalloc_allocator) (m : spalloc_mem P) (pgs : gmap Z (list Z)) (p o : Z).

Definition hdr_of (p : Z) : Z := p + hhdm_offset.

(** The geometry [spalloc_init] computes. *)
Record geometry (a : spalloc_allocator) : Prop := {
  g_stride : 0 < obj_stride a;
  g_offset : sizeof_page_header <= obj_offset a;
  g_count : 0 < objs_per_page a < 2 ^ 16;
  g_fits : obj_offset a + objs_per_page a * obj_stride a <= PAGE_SIZE;
}.

Definition slot_at (a : spalloc_allocator) (p i : Z) : Z := hdr_of p + obj_offset a + i * obj_stride a.
Definition slot (a : spalloc_allocator) (p o : Z) : Prop := exists i, 0 <= i < objs_per_page a /\ o = slot_at a p i.

(** [pgs] maps each page in use to its stack of free slots; [out] is a page an
    operation has taken off the partial list. *)
Record sp_inv (a : spalloc_allocator) (m : spalloc_mem P) (pgs : gmap Z (list Z)) (pl : list Z) (out : option Z) : Prop := {
  sp_geom : geometry a;
  sp_own : pa_rep (sp_pages m) (dom pgs);
  sp_hdr : forall p xs, pgs !! p = Some xs -> exists head,
    sp_hdrs m !! hdr_of p = Some (SpHeader SPALLOC_MAGIC (Z.of_nat (length xs)) head) /\
    Stack.stack_rep (sp_objs m) head xs /\ NoDup xs /\ (forall o, o ∈ xs -> slot a p o);
  sp_slots : forall p o, p ∈ dom pgs -> slot a p o -> is_Some (sp_objs m !! o);
  sp_link : forall p, p ∈ dom pgs -> is_Some (sp_links m !! (hdr_of p + LINKAGE_OFFSET));
  sp_list : llist_rep (sp_links m) (partial_list a) pl;
  sp_partial : forall v, v ∈ pl <-> exists p xs, pgs !! p = Some xs /\ xs <> [] /\ out <> Some p /\ v = hdr_of p + LINKAGE_OFFSET;
}.

(** An object handed out: a slot that is not free. *)
Definition allocated (a : spalloc_allocator) (pgs : gmap Z (list Z)) (o : Z) : Prop :=
  exists p xs, pgs !! p = Some xs /\ slot a p o /\ o ∉ xs.

(** ** Addresses *)
Definition page_ok (p : Z) : Prop := 0 < p /\ (PAGE_SIZE | p) /\ p + PAGE_SIZE <= 2 ^ 64 - hhdm_offset.

Lemma page_pow : exists j, 0 <= j /\ PAGE_SIZE = 2 ^ j /\ 4096 <= PAGE_SIZE <= 65536.
Proof using cfg_ok.
  exists PAGE_SIZE_SHIFT. pose proof shift_range as Hs. rewrite PAGE_SIZE_eq. split; [lia|]. split; [done|].
  change 4096 with (2 ^ 12). change 65536 with (2 ^ 16). split; apply Z.pow_le_mono_r; lia.
Qed.

Lemma hdr_to_hhdm p : page_ok p -> TO_HHDM p = hdr_of p /\ FROM_HHDM (hdr_of p) = p.
Proof using cfg_ok.
  intros (H0 & Hd & Hb). destruct page_pow as (j & Hj & E & Hr). pose proof hhdm_range.
  assert (TO_HHDM p = hdr_of p) as E1 by (apply TO_HHDM_mapped; unfold hhdm_mapped; lia).
  split; [done|]. rewrite <- E1. apply FROM_TO_HHDM. unfold is_u64. lia.
Qed.

Lemma page_of p d : page_ok p -> 0 <= d < PAGE_SIZE -> SPALLOC_PAGE_OF (hdr_of p + d) = hdr_of p.
Proof using cfg_ok hhdm_aligned.
  intros (H0 & Hd & Hb) Hd'. destruct page_pow as (j & Hj & E & Hr). pose proof hhdm_range.
  unfold SPALLOC_PAGE_OF. rewrite E. rewrite ALIGN_DOWN_spec; [|done|unfold is_u64, hdr_of; lia]. rewrite <- E.
  assert ((PAGE_SIZE | hdr_of p)) as [z Hz] by (unfold hdr_of; by apply Z.divide_add_r).
  rewrite Hz, Z.add_comm, Z.mod_add, Z.mod_small by lia. lia.
Qed.

Lemma page_apart p q : page_ok p -> page_ok q -> p <> q -> p + PAGE_SIZE <= q \/ q + PAGE_SIZE <= p.
Proof using cfg_ok.
  intros (_ & [y ->] & _) (_ & [z ->] & _) Hne. destruct page_pow as (j & Hj & E & Hr).
  destruct (Z.lt_trichotomy y z) as [Hlt | [-> | Hlt]]; [left|done|right].
  - rewrite <- Z.mul_succ_l. apply Z.mul_le_mono_nonneg_r; lia.
  - rewrite <- Z.mul_succ_l. apply Z.mul_le_mono_nonneg_r; lia.
Qed.

Lemma slot_range a p o : geometry a -> slot a p o -> hdr_of p + sizeof_page_header <= o < hdr_of p + PAGE_SIZE.
Proof using cfg_ok hhdm_aligned. intros [H1 H2 H3 H4] (i & Hi & ->). unfold slot_at. nia. Qed.

Lemma slot_page a p q o : geometry a -> page_ok p -> page_ok q -> slot a p o -> slot a q o -> p = q.
Proof using cfg_ok hhdm_aligned.
  intros G Hp Hq H1 H2. destruct (decide (p = q)) as [|Hne]; [done|]. exfalso.
  apply slot_range in H1; [|done]. apply slot_range in H2; [|done]. unfold hdr_of in *.
  destruct (page_apart p q Hp Hq Hne); unfold sizeof_page_header in *; lia.
Qed.

Lemma inv_page a m pgs pl out p : sp_inv a m pgs pl out -> p ∈ dom pgs -> page_ok p.
Proof using cfg_ok. intros I Hp. by apply (pa_page _ _ _ (sp_own _ _ _ _ _ I)). Qed.

(** Different linkages for different pages. *)
Lemma link_inj p q : hdr_of p + LINKAGE_OFFSET = hdr_of q + LINKAGE_OFFSET -> p = q.
Proof using cfg_ok hhdm_aligned. unfold hdr_of. lia. Qed.

(** ** Slots of a fresh page *)
Definition slots_list (a : spalloc_allocator) (p : Z) (n : nat) : list Z := map (fun i => slot_at a p (Z.of_nat i)) (reverse (seq 0 n)).

Lemma init_slots_ok a p n : forall k head objs xs,
  0 < obj_stride a -> 0 < slot_at a p 0 -> Stack.stack_rep objs head xs -> xs = slots_list a p k ->
  exists head' objs', init_slots n head objs (slot_at a p (Z.of_nat k)) (obj_stride a) = Ok (head', objs') /\
    Stack.stack_rep objs' head' (slots_list a p (k + n)) /\
    (forall o, (forall i, (k <= i < k + n)%nat -> o <> slot_at a p (Z.of_nat i)) -> objs' !! o = objs !! o) /\
    (forall o, is_Some (objs !! o) -> is_Some (objs' !! o)) /\
    (forall i, (k <= i < k + n)%nat -> is_Some (objs' !! slot_at a p (Z.of_nat i))).
Proof using cfg_ok hhdm_aligned.
  induction n as [|n IH]; intros k head objs xs Hst H0 Hrep ->.
  - exists head, objs. rewrite Nat.add_0_r. split; [done|]. split; [done|]. split; [done|]. split; [done|]. lia.
  - cbn [init_slots]. set (o := slot_at a p (Z.of_nat k)).
    assert (o ∉ slots_list a p k) as Hon.
    { unfold slots_list. rewrite list_elem_of_fmap. intros (i & Ei & Hi). rewrite elem_of_reverse, elem_of_seq in Hi. unfold o, slot_at in Ei. nia. }
    destruct (Stack.stack_push_rep (<[o := 0]> objs) head (slots_list a p k) o) as (objs1 & E1 & R1 & M1).
    { eapply Stack.stack_rep_frame; [|exact Hrep]. intros x Hx. apply lookup_insert_ne. set_solver. }
    { done. } { unfold o, slot_at in *. nia. } { rewrite lookup_insert_eq. eauto. }
    rewrite E1, bind_Ok. replace (o + obj_stride a) with (slot_at a p (Z.of_nat (S k))) by (unfold o, slot_at; lia).
    destruct (IH (S k) o objs1 (slots_list a p (S k))) as (head' & objs' & E & R & F & M & S1); [done|done| |done|].
    { unfold slots_list. rewrite seq_S, reverse_snoc. exact R1. }
    exists head', objs'. split; [done|]. split; [by rewrite Nat.add_succ_r|]. destruct M1 as [D1 F1]. split; [|split].
    + intros o' Ho'. rewrite F by (intros i Hi; apply Ho'; lia). rewrite F1; [|intros ->%list_elem_of_singleton; apply (Ho' k); [lia|done]].
      apply lookup_insert_ne. intros <-. apply (Ho' k); [lia|done].
    + intros o' Ho'. apply M. rewrite <- elem_of_dom, D1, dom_insert_L. apply elem_of_dom in Ho'. set_solver.
    + intros i Hi. destruct (decide (i = k)) as [->|]; [|apply S1; lia]. apply M.
      rewrite <- elem_of_dom, D1, dom_insert_L. set_solver.
Qed.

Lemma slots_list_spec a p n : 0 < obj_stride a ->
  NoDup (slots_list a p n) /\ length (slots_list a p n) = n /\
  forall o, o ∈ slots_list a p n <-> exists i, 0 <= i < Z.of_nat n /\ o = slot_at a p i.
Proof using cfg_ok hhdm_aligned.
  intros Hst. unfold slots_list. split; [|split].
  - apply NoDup_fmap_2_strong; [|rewrite reverse_Permutation; apply NoDup_seq].
    intros i j _ _. unfold slot_at. nia.
  - by rewrite length_map, length_reverse, length_seq.
  - intros o. rewrite list_elem_of_fmap. split.
    + intros (i & -> & Hi). rewrite elem_of_reverse, elem_of_seq in Hi. exists (Z.of_nat i). split; [lia|done].
    + intros (i & Hi & ->). exists (Z.to_nat i). rewrite Z2Nat.id by lia. split; [done|].
      rewrite elem_of_reverse, elem_of_seq. lia.
Qed.

(** Free slots are distinct, so they are at most all of them. *)
Lemma free_length a p xs :
  geometry a -> NoDup xs -> (forall o, o ∈ xs -> slot a p o) ->
  Z.of_nat (length xs) <= objs_per_page a /\
  (Z.of_nat (length xs) = objs_per_page a -> forall o, slot a p o -> o ∈ xs).
Proof using cfg_ok hhdm_aligned.
  intros G Hnd Hs. pose proof (slots_list_spec a p (Z.to_nat (objs_per_page a)) (g_stride _ G)) as (Hn & Hl & Hin).
  pose proof (g_count _ G) as Hc. rewrite Z2Nat.id in Hin by lia.
  assert (xs ⊆+ slots_list a p (Z.to_nat (objs_per_page a))) as Hsub.
  { apply NoDup_submseteq; [done|]. intros o Ho. by apply Hin, Hs. }
  split; [apply submseteq_length in Hsub; lia|]. intros E o Ho. apply Hin in Ho.
  assert (xs ≡ₚ slots_list a p (Z.to_nat (objs_per_page a))) as ->; [|done].
  apply submseteq_length_Permutation; [done|lia].
Qed.

Definition with_list a (l : llist) : spalloc_allocator := SpAllocator l (obj_stride a) (obj_offset a) (objs_per_page a).

Lemma geometry_list a l : geometry a -> geometry (with_list a l).
Proof using Type. intros [H1 H2 H3 H4]. by split. Qed.

(** What an operation leaves alone: every cell outside of the pages [O]. *)
Definition in_page (p x : Z) : Prop := hdr_of p <= x < hdr_of p + PAGE_SIZE.
Record framed (O : gset Z) (m m' : spalloc_mem P) : Prop := {
  fr_hdrs : forall x, (forall p, p ∈ O -> ~ in_page p x) -> sp_hdrs m' !! x = sp_hdrs m !! x;
  fr_objs : forall x, (forall p, p ∈ O -> ~ in_page p x) -> sp_objs m' !! x = sp_objs m !! x;
  fr_links : forall x, (forall p, p ∈ O -> ~ in_page p x) -> sp_links m' !! x = sp_links m !! x;
}.

Lemma framed_trans O m1 m2 m3 : framed O m1 m2 -> framed O m2 m3 -> framed O m1 m3.
Proof using Type. intros [A1 A2 A3] [B1 B2 B3]. split; intros x Hx; [rewrite B1, A1|rewrite B2, A2|rewrite B3, A3]; done. Qed.

Lemma framed_weaken O O' m m' : framed O m m' -> O ⊆ O' -> framed O' m m'.
Proof using Type. intros [A1 A2 A3] HO. split; intros x Hx; [apply A1|apply A2|apply A3]; intros p Hp; apply Hx; by apply HO. Qed.

Lemma hdr_in_page p : in_page p (hdr_of p).
Proof using cfg_ok hhdm_aligned. destruct page_pow as (j & _ & _ & Hps). unfold in_page. lia. Qed.

Lemma link_in_page p : in_page p (hdr_of p + LINKAGE_OFFSET).
Proof using cfg_ok hhdm_aligned. destruct page_pow as (j & _ & _ & Hps). unfold in_page, LINKAGE_OFFSET. lia. Qed.

Lemma slot_in_page a p o : geometry a -> slot a p o -> in_page p o.
Proof using cfg_ok hhdm_aligned. intros G Hs. pose proof (slot_range _ _ _ G Hs). unfold in_page, sizeof_page_header in *. lia. Qed.

(** The list of pages changes only links of pages in use. *)
Lemma links_framed a m pgs pl out S h' hdrs objs pages :
  sp_inv a m pgs pl out -> modifies S (sp_links m) h' -> (forall v, v ∈ S -> v ∈ pl \/ exists p, p ∈ dom pgs /\ v = hdr_of p + LINKAGE_OFFSET) ->
  (forall x, (forall p, p ∈ dom pgs -> ~ in_page p x) -> hdrs !! x = sp_hdrs m !! x) ->
  (forall x, (forall p, p ∈ dom pgs -> ~ in_page p x) -> objs !! x = sp_objs m !! x) ->
  framed (dom pgs) m (SpMem pages hdrs objs h').
Proof using cfg_ok hhdm_aligned.
  intros I [_ M] HS H1 H2. split; cbn; [done|done|]. intros x Hx. apply M. intros Hin.
  destruct (HS x Hin) as [Hpl|(p & Hp & ->)]; [|by apply (Hx p Hp), link_in_page].
  apply (sp_partial _ _ _ _ _ I) in Hpl as (p & xs & Hp & _ & _ & ->). apply (Hx p); [by eapply elem_of_dom_2|apply link_in_page].
Qed.

Lemma hdr_framed (hdrs : gmap Z spalloc_page_header) (O : gset Z) q v x : q ∈ O -> (forall p, p ∈ O -> ~ in_page p x) -> <[hdr_of q := v]> hdrs !! x = hdrs !! x.
Proof using cfg_ok hhdm_aligned. intros Hq Hx. apply lookup_insert_ne. intros <-. apply (Hx q Hq), hdr_in_page. Qed.

(** ** Taking a slot from the page [q] *)
Lemma hdr_update a m pgs pl out q xs ys head :
  sp_inv a m pgs pl out -> pgs !! q = Some xs -> NoDup ys -> (forall o, o ∈ ys -> slot a q o) ->
  Stack.stack_rep (sp_objs m) head ys ->
  let m' := SpMem (sp_pages m) (<[hdr_of q := SpHeader SPALLOC_MAGIC (Z.of_nat (length ys)) head]> (sp_hdrs m)) (sp_objs m) (sp_links m) in
  forall p zs, <[q := ys]> pgs !! p = Some zs -> exists head',
    sp_hdrs m' !! hdr_of p = Some (SpHeader SPALLOC_MAGIC (Z.of_nat (length zs)) head') /\
    Stack.stack_rep (sp_objs m) head' zs /\ NoDup zs /\ (forall o, o ∈ zs -> slot a p o).
Proof using cfg_ok hhdm_aligned.
  intros I Hq Hnd Hsl Hst m' p zs Hp. cbn. destruct (decide (q = p)) as [<- | Hne].
  - rewrite lookup_insert_eq in Hp. injection Hp as <-. exists head. rewrite lookup_insert_eq. done.
  - rewrite lookup_insert_ne in Hp by done. destruct (sp_hdr _ _ _ _ _ I _ _ Hp) as (hd & E & R & N & S).
    exists hd. rewrite lookup_insert_ne by (unfold hdr_of; lia). done.
Qed.

Lemma take_slot a m pgs pl q x xs h :
  sp_inv a m pgs pl (Some q) -> pgs !! q = Some (x :: xs) -> sp_hdrs m !! hdr_of q = Some h ->
  exists pl' m', ('(obj, head, objs) ← Stack.stack_pop (free_objs h) (sp_objs m);
    let count := u16 (freecount h - 1) in
    hdrs ← store (sp_hdrs m) (hdr_of q) (SpHeader (magic h) count head);
    '(pl, links) ← (if count >? 0 then llist_push (partial_list a) (sp_links m) (hdr_of q + LINKAGE_OFFSET) else Ok (partial_list a, sp_links m));
    Ok (obj, SpAllocator pl (obj_stride a) (obj_offset a) (objs_per_page a), SpMem (sp_pages m) hdrs objs links)) =
      Ok (x, SpAllocator pl' (obj_stride a) (obj_offset a) (objs_per_page a), m') /\
    framed (dom pgs) m m' /\
    exists l, sp_inv (SpAllocator pl' (obj_stride a) (obj_offset a) (objs_per_page a)) m' (<[q := xs]> pgs) l None.
Proof using cfg_ok hhdm_aligned.
  intros I Hq Hh. destruct (sp_hdr _ _ _ _ _ I _ _ Hq) as (hd & Eh & R & N & Hsl). rewrite Hh in Eh. injection Eh as ->.
  cbn [free_objs freecount magic]. destruct (Stack.stack_pop_rep _ _ _ R) as (hd' & -> & R'). rewrite bind_Ok. cbn [first_or List.tl] in *.
  rewrite (store_Ok _ _ _ _ Hh), bind_Ok.
  destruct (free_length a q (x :: xs) (sp_geom _ _ _ _ _ I) N Hsl) as [Hlen _]. cbn [length] in *.
  pose proof (g_count _ (sp_geom _ _ _ _ _ I)) as Hc.
  replace (u16 (Z.of_nat (S (length xs)) - 1)) with (Z.of_nat (length xs)) by (unfold u16; rewrite Z.mod_small by lia; lia).
  apply NoDup_cons in N as [Hx N].
  pose proof (hdr_update a m pgs pl (Some q) q (x :: xs) xs hd' I Hq N ltac:(set_solver) R') as Hhdr. cbn in Hhdr.
  assert (dom (<[q := xs]> pgs) = dom pgs) as Hdom by (apply elem_of_dom_2 in Hq; set_solver).
  rewrite Z.gtb_ltb. destruct (Z.ltb_spec 0 (Z.of_nat (length xs))) as [Hpos | Hzero].
  - destruct (llist_push_front_rep (sp_links m) (partial_list a) pl (hdr_of q + LINKAGE_OFFSET)) as (l' & h' & E & R1 & M1).
    { apply I. }
    { rewrite (sp_partial _ _ _ _ _ I). intros (p & ys & _ & _ & Hout & Ev%link_inj). by subst. }
    { pose proof (inv_page _ _ _ _ _ q I ltac:(by eapply elem_of_dom_2)) as (? & _). pose proof hhdm_range. unfold hdr_of, LINKAGE_OFFSET. lia. }
    { apply (sp_link _ _ _ _ _ I). by eapply elem_of_dom_2. }
    change llist_push with llist_push_front. rewrite E, bind_Ok. eexists _, _. split; [done|]. apply elem_of_dom_2 in Hq as Hqd.
    split.
    { eapply (links_framed a m pgs pl (Some q)); [done|exact M1| |by intros x0 ?; apply (hdr_framed _ (dom pgs))|done].
      intros v [->|Hv]%elem_of_cons; [right; by exists q|by left]. }
    exists (hdr_of q + LINKAGE_OFFSET :: pl). split; cbn.
    + apply (geometry_list a), I.
    + rewrite Hdom. apply I.
    + exact Hhdr.
    + rewrite Hdom. exact (sp_slots _ _ _ _ _ I).
    + rewrite Hdom. intros p Hp. eapply modifies_mapped; [exact M1|]. by apply I.
    + done.
    + intros v. rewrite elem_of_cons, (sp_partial _ _ _ _ _ I). split.
      * intros [-> | (p & ys & Hp & Hys & Hout & ->)].
        -- exists q, xs. rewrite lookup_insert_eq. split; [done|]. split; [by destruct xs|done].
        -- exists p, ys. rewrite lookup_insert_ne by congruence. done.
      * intros (p & ys & Hp & Hys & _ & ->). destruct (decide (q = p)) as [<- | Hne]; [by left|right].
        rewrite lookup_insert_ne in Hp by done. exists p, ys. split; [done|]. split; [done|]. split; [congruence|done].
  - assert (xs = []) as -> by (destruct xs; cbn in *; [done|lia]). eexists _, _. split; [done|]. apply elem_of_dom_2 in Hq as Hqd.
    split; [split; cbn; [by intros x0 ?; apply (hdr_framed _ (dom pgs))|done|done]|]. exists pl. split; cbn.
    + apply (geometry_list a), I.
    + rewrite Hdom. apply I.
    + exact Hhdr.
    + rewrite Hdom. exact (sp_slots _ _ _ _ _ I).
    + rewrite Hdom. apply I.
    + apply I.
    + intros v. rewrite (sp_partial _ _ _ _ _ I). split.
      * intros (p & ys & Hp & Hys & Hout & ->). exists p, ys. rewrite lookup_insert_ne by congruence. done.
      * intros (p & ys & Hp & Hys & _ & ->). destruct (decide (q = p)) as [<- | Hne].
        { rewrite lookup_insert_eq in Hp. congruence. }
        rewrite lookup_insert_ne in Hp by done. exists p, ys. split; [done|]. split; [done|]. split; [congruence|done].
Qed.

(** ** A fresh page *)
Lemma new_page_ok a m pgs pl :
  sp_inv a m pgs pl None ->
  nofault (new_page a m) (fun '(hdr, m') => exists q, hdr = hdr_of q /\ (q ∉ dom pgs) /\ framed ({[q]} ∪ dom pgs) m m' /\
    sp_inv a m' (<[q := slots_list a q (Z.to_nat (objs_per_page a))]> pgs) pl (Some q)).
Proof using cfg_ok hhdm_aligned.
  intros I. unfold new_page. eapply nofault_bind; [apply (pa_alloc_spec _ _ (sp_own _ _ _ _ _ I))|].
  intros [q pages] [Hq Hrep]. pose proof (sp_geom _ _ _ _ _ I) as G. pose proof (g_count _ G) as Hc.
  assert (page_ok q) as Hpq by (apply (pa_page _ _ _ Hrep); set_solver).
  destruct (hdr_to_hhdm q Hpq) as [-> _]. pose proof hhdm_range.
  replace (hdr_of q + obj_offset a) with (slot_at a q (Z.of_nat 0)) by (unfold slot_at; lia).
  destruct (init_slots_ok a q (Z.to_nat (objs_per_page a)) 0 0 (sp_objs m) []) as (hd & objs & E & R & F & M & Sl).
  { apply G. } { unfold slot_at, hdr_of. destruct Hpq as (? & _). pose proof (g_offset _ G). unfold sizeof_page_header in *. lia. }
  { done. } { done. }
  rewrite E, bind_Ok. cbn [nofault]. exists q. split; [done|]. split; [done|]. split.
  { assert (q ∈ {[q]} ∪ dom pgs) as Hin by set_solver. split; cbn; intros x Hx.
    - by apply (hdr_framed _ ({[q]} ∪ dom pgs)).
    - apply F. intros i Hi ->. apply (Hx q Hin), (slot_in_page a); [done|]. exists (Z.of_nat i). split; [lia|done].
    - apply lookup_insert_ne. intros <-. apply (Hx q Hin), link_in_page. }
  destruct (slots_list_spec a q (Z.to_nat (objs_per_page a)) (g_stride _ G)) as (Hnd & Hlen & Hin). rewrite Z2Nat.id in Hin by lia.
  assert (forall p xs, pgs !! p = Some xs -> forall o, slot a p o -> objs !! o = sp_objs m !! o) as Hkeep.
  { intros p xs Hp o Ho. apply F. intros i Hi Eo. apply Hq. apply elem_of_dom_2 in Hp as Hd.
    assert (slot a q o) as Hoq by (exists (Z.of_nat i); split; [lia|done]).
    by rewrite <- (slot_page a p q o G (inv_page _ _ _ _ _ _ I Hd) Hpq Ho Hoq). }
  split; cbn.
  - done.
  - by rewrite dom_insert_L.
  - intros p xs. destruct (decide (q = p)) as [<- | Hne].
    + rewrite !lookup_insert_eq. intros [= <-]. exists hd. rewrite Hlen, Z2Nat.id by lia. split; [done|]. split; [done|].
      split; [done|]. intros o Ho. by apply Hin in Ho.
    + rewrite !lookup_insert_ne by (unfold hdr_of; lia). intros Hp. destruct (sp_hdr _ _ _ _ _ I _ _ Hp) as (hd' & E' & R' & N' & S').
      exists hd'. split; [done|]. split; [|done]. eapply Stack.stack_rep_frame; [|exact R']. intros o Ho. by eapply Hkeep; [|apply S'].
  - intros p o Hp Ho. rewrite dom_insert_L in Hp. apply elem_of_union in Hp as [->%elem_of_singleton | Hp].
    + destruct Ho as (i & Hi & ->). rewrite <- (Z2Nat.id i) by lia. apply Sl. lia.
    + apply M. by apply (sp_slots _ _ _ _ _ I p).
  - intros p Hp. rewrite dom_insert_L in Hp. destruct (decide (q = p)) as [<- | Hne]; [rewrite lookup_insert_eq; eauto|].
    rewrite lookup_insert_ne by (unfold hdr_of; lia). apply I. set_solver.
  - eapply llist_rep_frame; [|apply I]. intros v Hv. apply lookup_insert_ne. intros <-.
    apply (sp_partial _ _ _ _ _ I) in Hv as (p & xs & Hp & _ & _ & Ev%link_inj). subst. apply Hq. by eapply elem_of_dom_2.
  - intros v. rewrite (sp_partial _ _ _ _ _ I). split.
    + intros (p & xs & Hp & Hxs & _ & ->). exists p, xs. assert (q <> p) by (intros ->; apply Hq; by eapply elem_of_dom_2).
      rewrite lookup_insert_ne by done. split; [done|]. split; [done|]. split; [congruence|done].
    + intros (p & xs & Hp & Hxs & Hout & ->). rewrite lookup_insert_ne in Hp by congruence. by exists p, xs.
Qed.

(** What a client sees. *)
Definition sp_ok a m pgs : Prop := exists pl, sp_inv a m pgs pl None.

Lemma alloc_take a pgs q x xs o :
  pgs !! q = Some (x :: xs) -> slot a q x -> x ∉ xs ->
  (forall p ys, pgs !! p = Some ys -> page_ok p) -> geometry a ->
  ~ allocated a pgs x /\ (allocated a (<[q := xs]> pgs) o <-> allocated a pgs o \/ o = x).
Proof using cfg_ok hhdm_aligned.
  intros Hq Hx Hxs Hpages G. split.
  - intros (p & ys & Hp & Hs & Hn). rewrite (slot_page a p q x) in Hp; [|done|by eapply Hpages..|done|done].
    rewrite Hq in Hp. injection Hp as <-. set_solver.
  - split.
    + intros (p & ys & Hp & Hs & Hn). destruct (decide (q = p)) as [<- | Hne].
      * rewrite lookup_insert_eq in Hp. injection Hp as <-. destruct (decide (o = x)); [by right|left].
        exists q, (x :: xs). set_solver.
      * rewrite lookup_insert_ne in Hp by done. left. by exists p, ys.
    + intros [(p & ys & Hp & Hs & Hn) | ->].
      * destruct (decide (q = p)) as [<- | Hne].
        -- rewrite Hq in Hp. injection Hp as <-. exists q, xs. rewrite lookup_insert_eq. set_solver.
        -- exists p, ys. by rewrite lookup_insert_ne.
      * exists q, xs. by rewrite lookup_insert_eq.
Qed.

(** A page with a free slot, off the partial list: the first of the list, or a
    new one. *)
Definition page_ready a m pgs '(hdr, m2) : Prop :=
  exists q x xs pgs2 pl2, hdr = hdr_of q /\ pgs2 !! q = Some (x :: xs) /\ framed (dom pgs2) m m2 /\ dom pgs ⊆ dom pgs2 /\
    sp_inv a m2 pgs2 pl2 (Some q) /\ forall o, allocated a pgs2 o <-> allocated a pgs o.

Lemma fresh_page a m pgs : sp_inv a m pgs [] None -> nofault (new_page a m) (page_ready a m pgs).
Proof using cfg_ok hhdm_aligned.
  intros I. pose proof (sp_geom _ _ _ _ _ I) as G. eapply nofault_mono; [apply (new_page_ok a m pgs [] I)|]. intros [hdr m2] (q & -> & Hq & F2 & I2).
  destruct (slots_list_spec a q (Z.to_nat (objs_per_page a)) (g_stride _ G)) as (Hnd & Hlen & Hin).
  pose proof (g_count _ G) as Hc. rewrite Z2Nat.id in Hin by lia.
  set (sl := slots_list a q (Z.to_nat (objs_per_page a))) in *. destruct sl as [|x xs] eqn:Esl; [cbn in Hlen; lia|].
  exists q, x, xs, (<[q := x :: xs]> pgs), []. split; [done|]. split; [apply lookup_insert_eq|]. rewrite dom_insert_L.
  split; [done|]. split; [set_solver|]. split; [done|]. intros o. split.
  - intros (p & ys & Hp & Hs & Hn). destruct (decide (q = p)) as [<- | Hne].
    { rewrite lookup_insert_eq in Hp. injection Hp as <-. destruct Hn. by apply Hin. }
    rewrite lookup_insert_ne in Hp by done. by exists p, ys.
  - intros (p & ys & Hp & Hs & Hn). exists p, ys. rewrite lookup_insert_ne; [done|]. intros ->. apply Hq. by eapply elem_of_dom_2.
Qed.

(** The first page leaves the list. *)
Lemma delist_page a m pgs v pl l' h' :
  sp_inv a m pgs (v :: pl) None -> llist_rep h' l' pl -> modifies (v :: pl) (sp_links m) h' ->
  exists q x xs, v = hdr_of q + LINKAGE_OFFSET /\ pgs !! q = Some (x :: xs) /\
    sp_inv (with_list a l') (SpMem (sp_pages m) (sp_hdrs m) (sp_objs m) h') pgs pl (Some q).
Proof using cfg_ok hhdm_aligned.
  intros I R1 M1. assert (v ∈ v :: pl) as Hv by set_solver. apply (sp_partial _ _ _ _ _ I) in Hv as (q & [|x xs] & Hq & Hxs & _ & ->); [done|].
  exists q, x, xs. split; [done|]. split; [done|].
  pose proof (lr_nodup _ _ _ (sp_list _ _ _ _ _ I)) as Hnd. apply NoDup_cons in Hnd as [Hvn _].
  destruct I as [I1 I2 I3 I4 I5 I6 I7]. split; cbn; try done.
  - by apply geometry_list.
  - intros p Hp. eapply modifies_mapped; [exact M1|]. by apply I5.
  - intros v'. pose proof (I7 v') as Hiff. rewrite elem_of_cons in Hiff. split.
    + intros Hv'. destruct (proj1 Hiff (or_intror Hv')) as (p & ys & Hp & Hys & _ & ->). exists p, ys.
      split; [done|]. split; [done|]. split; [|done]. intros [= ->]. done.
    + intros (p & ys & Hp & Hys & Hout & ->). destruct Hiff as [_ Hiff].
      destruct Hiff as [Ev | Hin]; [exists p, ys; done| |done]. apply link_inj in Ev. congruence.
Qed.

Lemma malloc_framed a m pgs :
  sp_ok a m pgs ->
  nofault (spalloc_malloc a m) (fun '(o, a', m') => exists pgs', framed (dom pgs') m m' /\ dom pgs ⊆ dom pgs' /\ sp_ok a' m' pgs' /\ geometry a' /\
    obj_stride a' = obj_stride a /\ obj_offset a' = obj_offset a /\ objs_per_page a' = objs_per_page a /\
    ~ allocated a pgs o /\ (exists q, q ∈ dom pgs' /\ slot a q o) /\
    forall o', allocated a' pgs' o' <-> allocated a pgs o' \/ o' = o).
Proof using cfg_ok hhdm_aligned.
  intros [pl I]. unfold spalloc_malloc. change llist_pop with llist_pop_front.
  destruct (llist_pop_front_rep _ _ _ (sp_list _ _ _ _ _ I)) as (l' & h' & -> & R1 & M1). rewrite bind_Ok.
  pose proof (sp_geom _ _ _ _ _ I) as G. set (m1 := SpMem (sp_pages m) (sp_hdrs m) (sp_objs m) h'). set (a1 := with_list a l').
  assert (framed (dom pgs) m m1) as F1 by (eapply (links_framed a m pgs pl None); [done|exact M1|by left|done|done]).
  eapply (nofault_bind _ _ (page_ready a1 m1 pgs)).
  { destruct pl as [|v pl]; cbn [first_or List.tl] in *.
    - cbn [Z.eqb negb]. apply (fresh_page a1). destruct I. split; cbn; try done; [by apply geometry_list|]. intros p Hp. eapply modifies_mapped; [exact M1|auto].
    - destruct (delist_page a m pgs v pl l' h' I R1 M1) as (q & x & xs & -> & Hq & I2). pose proof (inv_page _ _ _ _ _ _ I (elem_of_dom_2 _ _ _ Hq)) as Hpq.
      destruct page_pow as (j & _ & _ & Hps). pose proof hhdm_range. rewrite (proj2 (Z.eqb_neq _ 0)) by (destruct Hpq as (? & _); unfold hdr_of, LINKAGE_OFFSET; lia).
      cbn [negb]. rewrite page_of by (done || unfold LINKAGE_OFFSET; lia).
      destruct (sp_hdr _ _ _ _ _ I _ _ Hq) as (hd & Eh & R & N & Hsl). cbn [sp_hdrs m1]. rewrite (load_Ok _ _ _ Eh), bind_Ok.
      cbn [magic]. rewrite assert_true by apply Z.eqb_refl. rewrite bind_Ok. cbn [nofault]. exists q, x, xs, pgs, pl. done. }
  intros [hdr m2] (q & x & xs & pgs2 & pl2 & -> & Hq & F2 & Hsub & I2 & Hall).
  destruct (sp_hdr _ _ _ _ _ I2 _ _ Hq) as (hd & Eh & R & N & Hsl). rewrite (load_Ok _ _ _ Eh), bind_Ok.
  destruct (take_slot a1 m2 pgs2 pl2 q x xs _ I2 Hq Eh) as (l3 & m3 & E3 & F3 & pl3 & I3).
  apply returns_nofault. eexists. split; [exact E3|]. exists (<[q := xs]> pgs2).
  assert (dom (<[q := xs]> pgs2) = dom pgs2) as Hdom by (apply elem_of_dom_2 in Hq; set_solver). rewrite Hdom.
  split; [eapply framed_trans; [eapply framed_weaken; [exact F1|done]|by eapply framed_trans]|]. split; [done|]. split; [by exists pl3|].
  split; [by apply (geometry_list a)|]. split; [done|]. split; [done|]. split; [done|]. apply NoDup_cons in N as [Hxn _].
  assert (forall p ys, pgs2 !! p = Some ys -> page_ok p) as Hpages by (intros p ys Hp; eapply inv_page; [exact I2|by eapply elem_of_dom_2]).
  assert (slot a q x) as Hx by (apply Hsl; set_solver).
  destruct (alloc_take a pgs2 q x xs x Hq Hx Hxn Hpages G) as [Hna _].
  split; [by intros Hal%Hall|]. split; [exists q; split; [by eapply elem_of_dom_2|done]|].
  intros o'. change (allocated a pgs o') with (allocated a1 pgs o'). rewrite <- Hall. by apply (alloc_take a pgs2 q x xs o').
Qed.

Lemma malloc_ok a m pgs :
  sp_ok a m pgs ->
  nofault (spalloc_malloc a m) (fun '(o, a', m') => exists pgs', sp_ok a' m' pgs' /\ geometry a' /\
    obj_stride a' = obj_stride a /\ obj_offset a' = obj_offset a /\ objs_per_page a' = objs_per_page a /\
    ~ allocated a pgs o /\ (exists q, q ∈ dom pgs' /\ slot a q o) /\
    forall o', allocated a' pgs' o' <-> allocated a pgs o' \/ o' = o).
Proof using cfg_ok hhdm_aligned.
  intros I. eapply nofault_mono; [by apply malloc_framed|]. intros [[o a'] m'] (pgs' & _ & _ & H). by exists pgs'.
Qed.

(** ** Giving a slot back *)

(** The slot is on its page's stack; a page that was full is not on the partial
    list yet. *)
Lemma push_slot a m pgs pl p xs o h :
  sp_inv a m pgs pl None -> pgs !! p = Some xs -> slot a p o -> o ∉ xs -> sp_hdrs m !! hdr_of p = Some h ->
  exists objs, Stack.stack_push (free_objs h) (sp_objs m) o = Ok (o, objs) /\
    let m' := SpMem (sp_pages m) (<[hdr_of p := SpHeader SPALLOC_MAGIC (Z.of_nat (length (o :: xs))) o]> (sp_hdrs m)) objs (sp_links m) in
    framed (dom pgs) m m' /\ NoDup (o :: xs) /\ (forall z, z ∈ o :: xs -> slot a p z) /\
    sp_inv a m' (<[p := o :: xs]> pgs) pl (match xs with [] => Some p | _ => None end).
Proof using cfg_ok hhdm_aligned.
  intros I Hp Ho Hn Hh. destruct (sp_hdr _ _ _ _ _ I _ _ Hp) as (hd & Eh & R & N & Hsl). rewrite Hh in Eh. injection Eh as ->.
  pose proof (sp_geom _ _ _ _ _ I) as G. apply elem_of_dom_2 in Hp as Hpd. pose proof (inv_page _ _ _ _ _ _ I Hpd) as Hpp. pose proof hhdm_range.
  destruct (Stack.stack_push_rep (sp_objs m) hd xs o R Hn) as (objs & E & R' & M).
  { pose proof (slot_range _ _ _ G Ho). destruct Hpp as (? & _). unfold hdr_of, sizeof_page_header in *. lia. }
  { by apply (sp_slots _ _ _ _ _ I p). }
  assert (dom (<[p := o :: xs]> pgs) = dom pgs) as Hdom by set_solver.
  exists objs. split; [done|]. cbn zeta. split; [split; cbn|].
  { intros x Hx. by apply (hdr_framed _ (dom pgs)). }
  { intros x Hx. apply (proj2 M). intros ->%list_elem_of_singleton. apply (Hx p); [done|by apply (slot_in_page a)]. }
  { done. }
  split; [by apply NoDup_cons|]. split; [set_solver|]. split; cbn; [done|by rewrite Hdom; apply I| | |by rewrite Hdom; apply I|apply I|].
  - intros q zs Hq. destruct (decide (p = q)) as [<- | Hne].
    + rewrite lookup_insert_eq in Hq. injection Hq as <-. exists o. rewrite lookup_insert_eq. split; [done|].
      split; [done|]. split; [by apply NoDup_cons|set_solver].
    + rewrite lookup_insert_ne in Hq by done. destruct (sp_hdr _ _ _ _ _ I _ _ Hq) as (hd' & E' & R1 & N1 & S1).
      exists hd'. rewrite lookup_insert_ne by (unfold hdr_of; lia). split; [done|]. split; [|done].
      eapply Stack.stack_rep_frame; [|exact R1]. intros z Hz. apply (proj2 M).
      intros ->%list_elem_of_singleton. apply Hne. eapply (slot_page a p q o); auto. eapply inv_page; [exact I|]. by eapply elem_of_dom_2.
  - rewrite Hdom. intros q z Hq Hz. eapply modifies_mapped; [exact M|]. by apply (sp_slots _ _ _ _ _ I q).
  - intros v. rewrite (sp_partial _ _ _ _ _ I). split.
    + intros (q & ys & Hq & Hys & _ & ->). destruct (decide (p = q)) as [<- | Hne].
      * exists p, (o :: xs). rewrite lookup_insert_eq. rewrite Hp in Hq. injection Hq as <-. by destruct xs.
      * exists q, ys. rewrite lookup_insert_ne by done. split; [done|]. split; [done|]. split; [|done]. destruct xs; congruence.
    + intros (q & ys & Hq & Hys & Hout & ->). destruct (decide (p = q)) as [<- | Hne].
      * exists p, xs. split; [done|]. destruct xs; [done|]. done.
      * rewrite lookup_insert_ne in Hq by done. by exists q, ys.
Qed.

(** A page with a free slot goes on the partial list. *)
Lemma enlist_page a m pgs pl p xs :
  sp_inv a m pgs pl (Some p) -> pgs !! p = Some xs -> xs <> [] ->
  returns (llist_push (partial_list a) (sp_links m) (hdr_of p + LINKAGE_OFFSET)) (fun '(l, links) => exists pl',
    let m' := SpMem (sp_pages m) (sp_hdrs m) (sp_objs m) links in framed (dom pgs) m m' /\ sp_inv (with_list a l) m' pgs pl' None).
Proof using cfg_ok hhdm_aligned.
  intros I Hp Hxs. apply elem_of_dom_2 in Hp as Hpd. pose proof (inv_page _ _ _ _ _ _ I Hpd) as Hpp.
  destruct (llist_push_front_rep (sp_links m) (partial_list a) pl (hdr_of p + LINKAGE_OFFSET)) as (l' & h' & E & R1 & M1).
  { apply I. }
  { rewrite (sp_partial _ _ _ _ _ I). intros (q & ys & Hq & Hys & Hout & Ev%link_inj). subst. done. }
  { destruct Hpp as (? & _). pose proof hhdm_range. unfold hdr_of, LINKAGE_OFFSET. lia. }
  { by apply (sp_link _ _ _ _ _ I). }
  change llist_push with llist_push_front. rewrite E. apply returns_Ok. exists (hdr_of p + LINKAGE_OFFSET :: pl).
  split; [eapply (links_framed a m pgs pl); [done|exact M1| |done|done]; intros v [->|Hv]%elem_of_cons; [right; by exists p|by left]|].
  destruct I as [I1 I2 I3 I4 I5 I6 I7]. split; cbn; try done.
  - by apply (geometry_list a).
  - intros q Hq. eapply modifies_mapped; [exact M1|]. by apply I5.
  - intros v. rewrite elem_of_cons, I7. split.
    + intros [-> | (q & ys & Hq & Hys & _ & ->)]; [by exists p, xs|by exists q, ys].
    + intros (q & ys & Hq & Hys & _ & ->). destruct (decide (p = q)) as [<- | Hne]; [by left|right].
      exists q, ys. split; [done|]. split; [done|]. split; [congruence|done].
Qed.

(** What a page that goes back takes with it. *)
Lemma drop_framed a m O p pages links :
  p ∈ O -> framed O m (SpMem (sp_pages m) (sp_hdrs m) (sp_objs m) links) -> framed O m (drop_page a m pages (hdr_of p) links).
Proof using cfg_ok hhdm_aligned.
  intros Hp [F1 F2 F3]. split; cbn in *; intros x Hx.
  - apply lookup_delete_ne. intros <-. apply (Hx p Hp), hdr_in_page.
  - destruct (sp_objs m !! x) as [v|] eqn:Ez; [|apply map_lookup_filter_None; auto]. apply map_lookup_filter_Some. split; [done|]. exact (Hx p Hp).
  - rewrite lookup_delete_ne; [by apply F3|]. intros <-. apply (Hx p Hp), link_in_page.
Qed.

(** A page whose slots are all free goes back to the page allocator. *)
Lemma release_page a m pgs pl p xs :
  sp_inv a m pgs pl None -> pgs !! p = Some xs -> xs <> [] ->
  returns ('(l, links) ← llist_node_delete (partial_list a) (sp_links m) (hdr_of p + LINKAGE_OFFSET);
           pages ← pa_free (sp_pages m) (FROM_HHDM (hdr_of p)); Ok (with_list a l, drop_page a m pages (hdr_of p) links))
    (fun '(a', m') => framed (dom pgs) m m' /\ (exists l, a' = with_list a l) /\ exists pl', sp_inv a' m' (delete p pgs) pl' None).
Proof using cfg_ok hhdm_aligned.
  intros I Hp Hxs. apply elem_of_dom_2 in Hp as Hpd. pose proof (inv_page _ _ _ _ _ _ I Hpd) as Hpp. pose proof (sp_geom _ _ _ _ _ I) as G.
  assert (hdr_of p + LINKAGE_OFFSET ∈ pl) as Hin by (apply (sp_partial _ _ _ _ _ I); by exists p, xs).
  apply list_elem_of_split in Hin as (l1 & l2 & Epl). pose proof (sp_list _ _ _ _ _ I) as Rl. rewrite Epl in Rl.
  destruct (llist_node_delete_rep _ _ _ _ _ Rl) as (l' & h' & -> & R1 & M1 & _). rewrite bind_Ok. destruct (hdr_to_hhdm p Hpp) as [_ ->].
  destruct (pa_free_spec (sp_pages m) (dom pgs) p (sp_own _ _ _ _ _ I) Hpd) as (pages & Ef & Hrep). rewrite Ef, bind_Ok. apply returns_Ok.
  split; [apply drop_framed; [done|]; eapply (links_framed a m pgs pl); [done|exact M1| |done|done]; intros v Hv; left; by rewrite Epl|].
  split; [by exists l'|]. exists (l1 ++ l2).
  pose proof (lr_nodup _ _ _ Rl) as Hndl. rewrite <- Permutation_middle in Hndl. apply NoDup_cons in Hndl as [Hnl _].
  assert (forall q z, q ∈ dom pgs -> p <> q -> slot a q z -> ~ (hdr_of p <= z < hdr_of p + PAGE_SIZE)) as Hout.
  { intros q z Hq Hne Hz. apply (slot_range _ _ _ G) in Hz. destruct (page_apart p q Hpp (inv_page _ _ _ _ _ _ I Hq) Hne); unfold hdr_of, sizeof_page_header in *; lia. }
  split; cbn; [by apply (geometry_list a)|by rewrite dom_delete_L| | | | |].
  - intros q zs [Hne Hq]%lookup_delete_Some. apply elem_of_dom_2 in Hq as Hqd.
    destruct (sp_hdr _ _ _ _ _ I q zs Hq) as (hd' & E' & R' & N1 & S1). exists hd'.
    rewrite lookup_delete_ne by (unfold hdr_of; lia). split; [done|]. split; [|done].
    eapply Stack.stack_rep_frame; [|exact R']. intros z Hz. apply S1 in Hz. specialize (Hout q z Hqd Hne Hz).
    destruct (sp_objs m !! z) as [v|] eqn:Ez; [by apply map_lookup_filter_Some|apply map_lookup_filter_None; auto].
  - intros q z Hq Hz. rewrite dom_delete_L in Hq. apply elem_of_difference in Hq as [Hq Hne%not_elem_of_singleton].
    destruct (sp_slots _ _ _ _ _ I q z Hq Hz) as [v Hv]. exists v. apply map_lookup_filter_Some. split; [done|]. by apply (Hout q).
  - intros q Hq. rewrite dom_delete_L in Hq. apply elem_of_difference in Hq as [Hq Hne%not_elem_of_singleton].
    rewrite lookup_delete_ne by (unfold hdr_of; lia). eapply modifies_mapped; [exact M1|]. by apply I.
  - eapply llist_rep_frame; [|exact R1]. intros v Hv. apply lookup_delete_ne. by intros <-.
  - intros v. pose proof (sp_partial _ _ _ _ _ I v) as Hiff. rewrite Epl, elem_of_app, elem_of_cons in Hiff. rewrite elem_of_app. split.
    + intros Hv. destruct (proj1 Hiff ltac:(tauto)) as (q & ys & Hq & Hys & _ & ->). exists q, ys.
      rewrite lookup_delete_ne; [done|]. intros ->. apply Hnl. by rewrite elem_of_app.
    + intros (q & ys & [Hne Hq]%lookup_delete_Some & Hys & _ & ->).
      destruct (proj2 Hiff ltac:(by exists q, ys)) as [?|[Ev%link_inj|?]]; [by left|congruence|by right].
Qed.

Lemma alloc_put a pgs p xs o o' :
  pgs !! p = Some xs -> slot a p o -> o ∉ xs -> (forall q ys, pgs !! q = Some ys -> page_ok q) -> geometry a ->
  allocated a (<[p := o :: xs]> pgs) o' <-> allocated a pgs o' /\ o' <> o.
Proof using cfg_ok hhdm_aligned.
  intros Hp Ho Hn Hpages G. split.
  - intros (q & ys & Hq & Hs & Hn'). destruct (decide (p = q)) as [<- | Hne].
    + rewrite lookup_insert_eq in Hq. injection Hq as <-. split; [exists p, xs; set_solver|set_solver].
    + rewrite lookup_insert_ne in Hq by done. split; [by exists q, ys|]. intros ->. apply Hne.
      eapply (slot_page a p q o); eauto.
  - intros [(q & ys & Hq & Hs & Hn') Hne]. destruct (decide (p = q)) as [<- | Hpq].
    + rewrite Hp in Hq. injection Hq as <-. exists p, (o :: xs). rewrite lookup_insert_eq. set_solver.
    + exists q, ys. by rewrite lookup_insert_ne.
Qed.

(** A page whose slots are all free has no object. *)
Lemma alloc_drop a pgs p xs o' :
  pgs !! p = Some xs -> (forall z, slot a p z -> z ∈ xs) -> allocated a (delete p pgs) o' <-> allocated a pgs o'.
Proof using Type.
  intros Hp Hall. split.
  - intros (q & ys & [_ Hq]%lookup_delete_Some & H). by exists q, ys.
  - intros (q & ys & Hq & Hs & Hn). exists q, ys. rewrite lookup_delete_ne; [done|]. intros <-. rewrite Hp in Hq. injection Hq as <-. by apply Hn, Hall.
Qed.

Lemma free_framed a m pgs o :
  sp_ok a m pgs -> allocated a pgs o ->
  returns (spalloc_free a m o) (fun '(a', m') => exists pgs', framed (dom pgs) m m' /\ dom pgs' ⊆ dom pgs /\ sp_ok a' m' pgs' /\ geometry a' /\
    obj_stride a' = obj_stride a /\ obj_offset a' = obj_offset a /\ objs_per_page a' = objs_per_page a /\
    forall o', allocated a' pgs' o' <-> allocated a pgs o' /\ o' <> o).
Proof using cfg_ok hhdm_aligned.
  intros [pl I] (p & xs & Hp & Ho & Hn). pose proof (sp_geom _ _ _ _ _ I) as G. pose proof (g_count _ G) as Hc.
  apply elem_of_dom_2 in Hp as Hpd. pose proof (inv_page _ _ _ _ _ _ I Hpd) as Hpp. pose proof (slot_range _ _ _ G Ho) as Hor.
  assert (forall q ys, pgs !! q = Some ys -> page_ok q) as Hpages by (intros q ys Hq; eapply inv_page; [exact I|by eapply elem_of_dom_2]).
  unfold spalloc_free. replace (SPALLOC_PAGE_OF o) with (hdr_of p).
  2:{ symmetry. replace o with (hdr_of p + (o - hdr_of p)) by lia. apply page_of; [done|]. unfold sizeof_page_header in Hor. lia. }
  destruct (sp_hdr _ _ _ _ _ I _ _ Hp) as (hd & Eh & R & N & Hsl). rewrite (load_Ok _ _ _ Eh), bind_Ok.
  cbn [magic]. rewrite assert_true by apply Z.eqb_refl. rewrite bind_Ok.
  destruct (push_slot a m pgs pl p xs o _ I Hp Ho Hn Eh) as (objs & -> & F1 & N' & Hsl' & I'). rewrite bind_Ok.
  cbn [freecount]. destruct (free_length a p (o :: xs) G N' Hsl') as [Hlen Hfull]. cbn [length] in *.
  replace (u16 (Z.of_nat (length xs) + 1)) with (Z.of_nat (S (length xs))) by (unfold u16; rewrite Z.mod_small by lia; lia).
  rewrite (store_Ok _ _ _ _ Eh), bind_Ok. cbv zeta. set (m1 := SpMem _ _ _ _) in *. set (pgs1 := <[p := o :: xs]> pgs) in *.
  assert (dom pgs1 = dom pgs) as Hdom by (unfold pgs1; set_solver). assert (pgs1 !! p = Some (o :: xs)) as Hp1 by apply lookup_insert_eq.
  assert (forall o', allocated a pgs1 o' <-> allocated a pgs o' /\ o' <> o) as Hall by (intros; by apply alloc_put). rewrite <- Hdom in *.
  destruct (Z.eqb_spec (Z.of_nat (S (length xs))) 1) as [E1 | E1].
  - (* the page was full *)
    destruct xs; [|cbn in E1; lia]. eapply returns_bind; [by apply (enlist_page a m1 pgs1 pl p [o])|]. intros [l links] (pl' & F2 & I2). apply returns_Ok.
    exists pgs1. split; [by eapply framed_trans|]. split; [done|]. split; [by exists pl'|]. by split; [apply (geometry_list a)|].
  - destruct xs as [|x xs]; [done|]. destruct (Z.eqb_spec (Z.of_nat (S (length (x :: xs)))) (objs_per_page a)) as [E2 | E2].
    + (* the page is empty *)
      eapply returns_mono; [by apply (release_page a m1 pgs1 pl p (o :: x :: xs))|]. intros [a' m'] (F2 & [l ->] & pl' & I2).
      exists (delete p pgs1). split; [by eapply framed_trans|]. split; [set_solver|]. split; [by exists pl'|]. split; [by apply (geometry_list a)|]. split; [done|]. split; [done|]. split; [done|].
      intros o'. rewrite <- Hall. apply (alloc_drop a pgs1 p (o :: x :: xs) o' Hp1). intros z Hz. by apply (Hfull E2).
    + (* neither *)
      apply returns_Ok. exists pgs1. split; [done|]. split; [done|]. split; [exists pl; by destruct a|]. by split; [apply (geometry_list a)|].
Qed.

Lemma free_spalloc_ok a m pgs o :
  sp_ok a m pgs -> allocated a pgs o ->
  returns (spalloc_free a m o) (fun '(a', m') => exists pgs', sp_ok a' m' pgs' /\ geometry a' /\
    obj_stride a' = obj_stride a /\ obj_offset a' = obj_offset a /\ objs_per_page a' = objs_per_page a /\
    forall o', allocated a' pgs' o' <-> allocated a pgs o' /\ o' <> o).
Proof using cfg_ok hhdm_aligned.
  intros I Ho. eapply returns_mono; [by apply free_framed|]. intros [a' m'] (pgs' & _ & _ & H). by exists pgs'.
Qed.
End SpallocSpec.

(** ** Initialisation *)
Lemma isPow2ull_pow v : is_u64 v -> isPow2ull v = true -> exists j, 0 <= j < 64 /\ v = 2 ^ j.
Proof.
  unfold isPow2ull, is_u64. intros Hv H. apply andb_true_iff in H as [H0 H]. apply negb_true_iff, Z.eqb_neq in H0. apply Z.eqb_eq in H.
  exists (Z.log2 v). assert (0 < v) as Hp by lia. pose proof (Z.log2_spec v Hp) as Hl.
  split; [split; [apply Z.log2_nonneg|apply Z.log2_lt_pow2; lia]|].
  destruct (decide (v = 2 ^ Z.log2 v)) as [|Hne]; [done|]. exfalso.
  assert (Z.testbit (Z.land v (v - 1)) (Z.log2 v) = true) as Hb.
  { rewrite Z.land_spec, Z.bit_log2 by lia. cbn [andb].
    assert (Z.log2 (v - 1) = Z.log2 v) as <-; [|apply Z.bit_log2; pose proof (Z.log2_nonneg v);
      assert (1 <= 2 ^ Z.log2 v) by (apply (Z.pow_le_mono_r 2 0); lia); lia].
    apply Z.log2_unique; [apply Z.log2_nonneg|]. lia. }
  rewrite H, Z.bits_0 in Hb. done.
Qed.

(** The least multiple above [x] is no larger than a multiple above [x]. *)
Lemma ALIGN_UP_le x j B :
  0 <= j -> is_u64 x -> x + (2 ^ j - 1) < 2 ^ 64 -> (2 ^ j | B) -> x <= B -> ALIGN_UP x (2 ^ j) <= B.
Proof.
  intros Hj Hx Hb [z ->] Hle. destruct (ALIGN_UP_bounds x j Hj Hx Hb) as ([w Hw] & Hr). rewrite Hw in *.
  assert (0 < 2 ^ j) as H0 by (by apply Z.pow_pos_nonneg). apply Z.mul_le_mono_nonneg_r; [lia|].
  apply Z.lt_succ_r, (Z.mul_lt_mono_pos_r (2 ^ j)); [done|]. rewrite Z.mul_succ_l. lia.
Qed.

Lemma spalloc_init_ok `{kconfig_ok} obj_size obj_align :
  8 <= obj_size <= PAGE_SIZE / 2 -> is_u64 obj_align -> obj_align <= PAGE_SIZE / 2 -> isPow2ull obj_align = true ->
  ALIGN_UP obj_size obj_align mod 8 = 0 ->
  returns (spalloc_init obj_size obj_align) (fun a => geometry a /\ partial_list a = LLIST_INIT /\
    obj_size <= obj_stride a /\ (obj_align | obj_stride a) /\ (obj_align | obj_offset a)).
Proof.
  intros Hs Ha Hap Hpow H8. destruct (isPow2ull_pow _ Ha Hpow) as (j & Hj & ->).
  destruct page_pow as (s & Hs0 & Eps & Hps).
  assert (PAGE_SIZE / 2 = 2 ^ (s - 1)) as Ehalf.
  { assert (1 <= s) by (destruct (decide (s = 0)) as [-> |]; [cbn in Eps; lia|lia]).
    rewrite Eps. replace s with (s - 1 + 1) at 1 by lia. rewrite Z.pow_add_r by lia. by rewrite Z.div_mul. }
  assert (j <= s - 1) as Hjs.
  { destruct (decide (j <= s - 1)); [done|]. exfalso.
    assert (2 ^ (s - 1) < 2 ^ j) by (apply Z.pow_lt_mono_r; lia). lia. }
  assert ((2 ^ j | PAGE_SIZE / 2)) as Hdiv.
  { rewrite Ehalf. exists (2 ^ (s - 1 - j)). rewrite <- Z.pow_add_r by lia. f_equal. lia. }
  assert (2048 <= PAGE_SIZE / 2 <= 32768) as Hhalf by (Z.div_mod_to_equations; lia).
  assert (PAGE_SIZE = 2 * (PAGE_SIZE / 2)) as Edouble.
  { rewrite Ehalf, Eps. replace s with (s - 1 + 1) at 1 by (destruct (decide (s = 0)) as [-> |]; [cbn in Eps|]; lia).
    rewrite Z.pow_add_r; [lia| |lia]. destruct (decide (s = 0)) as [-> |]; [cbn in Eps|]; lia. }
  assert (is_u64 obj_size /\ obj_size + (2 ^ j - 1) < 2 ^ 64) as [Hu Hb] by (unfold is_u64; lia).
  assert (is_u64 sizeof_page_header /\ sizeof_page_header + (2 ^ j - 1) < 2 ^ 64) as [Hu' Hb'] by (unfold is_u64, sizeof_page_header; lia).
  pose proof (ALIGN_UP_bounds obj_size j ltac:(lia) Hu Hb) as [Hsd Hsr].
  pose proof (ALIGN_UP_le obj_size j _ ltac:(lia) Hu Hb Hdiv ltac:(lia)) as Hsl.
  pose proof (ALIGN_UP_bounds sizeof_page_header j ltac:(lia) Hu' Hb') as [Hod Hor].
  pose proof (ALIGN_UP_le sizeof_page_header j _ ltac:(lia) Hu' Hb' Hdiv ltac:(unfold sizeof_page_header; lia)) as Hol.
  unfold spalloc_init. rewrite (assert_true (obj_size >=? 8)) by (apply Z.geb_le; lia). rewrite bind_Ok.
  rewrite (assert_true (obj_size <=? _)) by (apply Z.leb_le; lia). rewrite bind_Ok.
  rewrite (assert_true (2 ^ j <=? _)) by (apply Z.leb_le; lia). rewrite bind_Ok, (assert_true _ Hpow), bind_Ok.
  cbv zeta. rewrite (assert_true (_ =? 0)) by (by apply Z.eqb_eq). rewrite bind_Ok.
  set (stride := ALIGN_UP obj_size (2 ^ j)) in *. set (off := ALIGN_UP sizeof_page_header (2 ^ j)) in *.
  assert (forall v, 0 <= v < 65536 -> u16 v = v) as Hu16 by (intros v Hv; by apply Z.mod_small).
  unfold sizeof_page_header in *. rewrite (Hu16 stride), (Hu16 off) by lia.
  assert (0 < (PAGE_SIZE - off) / stride < 65536) as Hcnt.
  { split; [apply Z.div_str_pos; lia|]. apply Z.div_lt_upper_bound; lia. }
  rewrite (Hu16 ((PAGE_SIZE - off) / stride)) by lia.
  apply returns_Ok. cbn. split; [|split; [done|]; split; [lia|done]].
  split; cbn; [lia|unfold sizeof_page_header; lia|lia|].
  pose proof (Z.mul_div_le (PAGE_SIZE - off) stride ltac:(lia)). lia.
Qed.

(** ** The specifications *)
Section Claims.
Context `{cfg_ok : kconfig_ok} {P : Type} `{PA : !page_alloc P} `{PO : !page_alloc_ok P}.
Hypothesis hhdm_aligned : (PAGE_SIZE | hhdm_offset).

Lemma slots_apart a p q o o' :
  geometry a -> page_ok p -> page_ok q -> slot a p o -> slot a q o' -> o <> o' ->
  o + obj_stride a <= o' \/ o' + obj_stride a <= o.
Proof using cfg_ok.
  intros G Hp Hq (i & Hi & ->) (j & Hj & ->) Hne. destruct G as [H1 H2 H3 H4]. unfold slot_at, hdr_of in *.
  destruct (decide (p = q)) as [<- | Hpq].
  - assert (i < j \/ j < i) as [? | ?] by (destruct (Z.lt_trichotomy i j) as [| [-> |]]; tauto); [left|right]; nia.
  - destruct (page_apart p q Hp Hq Hpq); [left|right]; unfold sizeof_page_header in *; nia.
Qed.

(** [spalloc_malloc] runs without a fault; unless the page allocator has
    no memory left, it returns a slot that was not handed out, whose bytes
    overlap no other object's, and hands out nothing else. *)
Theorem spalloc_malloc_correct a (m : spalloc_mem P) pgs :
  sp_ok a m pgs ->
  nofault (spalloc_malloc a m) (fun '(o, a', m') => exists pgs', sp_ok a' m' pgs' /\
    obj_stride a' = obj_stride a /\ ~ allocated a pgs o /\
    (forall o', allocated a' pgs' o' <-> allocated a pgs o' \/ o' = o) /\
    (forall o', allocated a pgs o' -> o + obj_stride a <= o' \/ o' + obj_stride a <= o)).
Proof using cfg_ok hhdm_aligned.
  intros I. pose proof I as [pl I0].
  eapply nofault_mono; [by apply malloc_ok|]. intros [[o a'] m'] (pgs' & I' & G & E1 & E2 & E3 & Hn & (q & Hq & Hs) & Hall).
  exists pgs'. split; [done|]. split; [done|]. split; [done|]. split; [done|]. intros o' Ho'.
  assert (o <> o') as Hne by (by intros ->). destruct Ho' as (p & xs & Hp & Hs' & _).
  destruct I' as [pl' I']. pose proof (sp_geom _ _ _ _ _ I0) as G0.
  eapply (slots_apart a q p o o'); [done| | |done|done|done].
  - eapply inv_page; [exact I'|done].
  - eapply inv_page; [exact I0|]. by eapply elem_of_dom_2.
Qed.

(** [spalloc_free] of an object that is handed out returns, and takes back
    exactly this object; the page goes back to the page allocator when it was
    the last one. *)
Theorem spalloc_free_correct a (m : spalloc_mem P) pgs o :
  sp_ok a m pgs -> allocated a pgs o ->
  returns (spalloc_free a m o) (fun '(a', m') => exists pgs', sp_ok a' m' pgs' /\
    obj_stride a' = obj_stride a /\ forall o', allocated a' pgs' o' <-> allocated a pgs o' /\ o' <> o).
Proof using cfg_ok hhdm_aligned.
  intros I Ho. eapply returns_mono; [by apply free_spalloc_ok|].
  intros [a' m'] (pgs' & I' & _ & E & _ & _ & H). by exists pgs'.
Qed.
End Claims.

(** [spalloc_init] accepts every object size and alignment its assertions
    allow, and lays out at least one slot per page: slots are aligned, behind
    the header, large enough and inside the page. *)
Theorem spalloc_init_correct `{kconfig_ok} obj_size obj_align :
  8 <= obj_size <= PAGE_SIZE / 2 -> is_u64 obj_align -> obj_align <= PAGE_SIZE / 2 -> isPow2ull obj_align = true ->
  ALIGN_UP obj_size obj_align mod 8 = 0 ->
  returns (spalloc_init obj_size obj_align) (fun a => geometry a /\ partial_list a = LLIST_INIT /\
    obj_size <= obj_stride a /\ (obj_align | obj_stride a) /\ (obj_align | obj_offset a)).
Proof. apply spalloc_init_ok. Qed.

Lemma spalloc_init_correct_witness :
  returns (spalloc_init (cfg := x86_64_config) 64 8) (fun a => geometry (cfg := x86_64_config) a /\ partial_list a = LLIST_INIT /\
    64 <= obj_stride a /\ (8 | obj_stride a) /\ (8 | obj_offset a)).
Proof.
  apply (spalloc_init_correct (cfg := x86_64_config) 64 8); [by vm_compute|done|by vm_compute|reflexivity|reflexivity].
Defined.

(** The allocator of the virtual memory segments, on the boot memory. *)
#[local] Existing Instance x86_64_config.

Module Demo.
Definition a0 : spalloc_allocator := SpAllocator LLIST_INIT 64 32 63.
Definition m0 : spalloc_mem buddy_state := SpMem BuddySpec.Demo.st ∅ ∅ ∅.

Lemma start : sp_ok a0 m0 ∅.
Proof.
  destruct BuddySpec.Demo.ready as (R & B & I & _). exists []. split.
  - by split.
  - exists R, B. destruct I as [I S _ _]. split; [done|]. split; [done|]. set_solver.
  - intros p xs. by rewrite lookup_empty.
  - intros p o. set_solver.
  - intros p. set_solver.
  - apply llist_rep_init.
  - intros v. split; [set_solver|]. intros (p & xs & Hp & _). by rewrite lookup_empty in Hp.
Qed.

Lemma aligned : (PAGE_SIZE | hhdm_offset).
Proof. exists 0xffff800000000. by vm_compute. Qed.

Lemma runs : match spalloc_malloc a0 m0 with Ok _ => true | _ => false end = true.
Proof. vm_compute. reflexivity. Qed.

(** One object out: what the run computes and what the theorem says of it. *)
Lemma one : exists a1 m1 pgs1 o, spalloc_malloc (P := buddy_state) a0 m0 = Ok (o, a1, m1) /\
  sp_ok a1 m1 pgs1 /\ allocated a1 pgs1 o.
Proof.
  pose proof (malloc_ok (P := buddy_state) aligned a0 m0 ∅ start) as H.
  pose proof runs as Hr. revert H Hr. generalize (spalloc_malloc a0 m0) as r. intros [[[o a1] m1]| | |]; [|discriminate..].
  cbn [nofault]. intros (pgs1 & I1 & _ & _ & _ & _ & _ & _ & Hall) _. exists a1, m1, pgs1, o. split; [done|]. split; [done|].
  apply Hall. by right.
Qed.
End Demo.

Lemma spalloc_malloc_correct_witness :
  nofault (spalloc_malloc (P := buddy_state) Demo.a0 Demo.m0) (fun '(o, a', m') => exists pgs',
    sp_ok a' m' pgs' /\ obj_stride a' = 64 /\ ~ allocated Demo.a0 ∅ o /\
    (forall o', allocated a' pgs' o' <-> allocated Demo.a0 ∅ o' \/ o' = o) /\
    (forall o', allocated Demo.a0 ∅ o' -> o + 64 <= o' \/ o' + 64 <= o)).
Proof. apply (spalloc_malloc_correct (P := buddy_state) Demo.aligned Demo.a0 Demo.m0 ∅ Demo.start). Defined.

Lemma spalloc_free_correct_witness : exists a1 m1 pgs1 o,
  returns (spalloc_free (P := buddy_state) a1 m1 o) (fun '(a', m') => exists pgs',
    sp_ok a' m' pgs' /\ obj_stride a' = obj_stride a1 /\
    forall o', allocated a' pgs' o' <-> allocated a1 pgs1 o' /\ o' <> o).
Proof.
  destruct Demo.one as (a1 & m1 & pgs1 & o & _ & I & Ho). exists a1, m1, pgs1, o.
  apply (spalloc_free_correct (P := buddy_state) Demo.aligned a1 m1 pgs1 o I Ho).
Defined.
