(* ===== verification/Malloc.v ===== *)
(** * libc/stdlib.c: the kernel heap

    Requests up to a quarter of a page go to one object allocator per power of
    two, larger ones to the buddy allocator.  [malloc] keeps the size and the
    alignment gap in a header in front of the pointer it returns. *)

From S2P Require Import Prelude LList Buddy PageAlloc Spalloc SpallocSpec.
#[local] Open Scope Z_scope.

Definition MAGIC : Z := 0x9f37a967.
Definition MIN_SHIFT : Z := 3.

Record malloc_header := MHeader { h_magic : Z; h_offset : Z; h_size : Z }.
Definition sizeof_malloc_header : Z := 16.

Record kheap := KHeap {
  kmalloc_classes : list spalloc_allocator;
  kmem : spalloc_mem buddy_state;
  headers : gmap Z malloc_header;
}.

Section Malloc.
Context `{cfg : kconfig}.

Definition MAX_SHIFT : Z := PAGE_SIZE_SHIFT - 2.
Definition MAX_CLASS : Z := Z.shiftl 1 MAX_SHIFT.

Definition size_class (size : Z) : Z :=
  let shift := log2ull size in
  let shift := if shl64 1 shift <? size then shift + 1 else shift in
  if shift <? MIN_SHIFT then MIN_SHIFT else shift.

Definition size_order (size : Z) : Z :=
  let pages := Z.shiftr (ALIGN_UP size PAGE_SIZE) PAGE_SIZE_SHIFT in
  log2ullceil pages.

(** The allocators of the classes, in order. *)
Fixpoint init_classes (n : nat) (i : Z) : res (list spalloc_allocator) :=
  match n with
  | O => Ok []
  | S n =>
      a ← spalloc_init (shl64 1 (MIN_SHIFT + i)) 16;
      rest ← init_classes n (i + 1);
      Ok (a :: rest)
  end.

Definition malloc_init (m : spalloc_mem buddy_state) : res kheap :=
  cs ← init_classes (Z.to_nat (MAX_SHIFT - MIN_SHIFT + 1)) 0;
  Ok (KHeap cs m ∅).

Definition class_get (h : kheap) (i : Z) : res spalloc_allocator :=
  if i <? 0 then Fault else of_option (kmalloc_classes h !! Z.to_nat i).

Definition with_buddy (m : spalloc_mem buddy_state) (b : buddy_state) : spalloc_mem buddy_state :=
  SpMem b (sp_hdrs m) (sp_objs m) (sp_links m).

Definition kmalloc (h : kheap) (size : Z) : res (Z * kheap) :=
  if size =? 0 then Ok (0, h)
  else if size <=? MAX_CLASS then
    let i := size_class size - MIN_SHIFT in
    a ← class_get h i;
    '(obj, a, m) ← spalloc_malloc a (kmem h);
    Ok (obj, KHeap (<[Z.to_nat i := a]> (kmalloc_classes h)) m (headers h))
  else
    '(p, b) ← buddy_allocate (sp_pages (kmem h)) (size_order size) ALLOC_FLAG_NOFAIL;
    Ok (TO_HHDM p, KHeap (kmalloc_classes h) (with_buddy (kmem h) b) (headers h)).

Definition kfree (h : kheap) (ptr size : Z) : res kheap :=
  if ptr =? 0 then Ok h
  else if size <=? MAX_CLASS then
    let i := size_class size - MIN_SHIFT in
    a ← class_get h i;
    '(a, m) ← spalloc_free a (kmem h) ptr;
    Ok (KHeap (<[Z.to_nat i := a]> (kmalloc_classes h)) m (headers h))
  else
    b ← buddy_free (sp_pages (kmem h)) (FROM_HHDM ptr) (size_order size);
    Ok (KHeap (kmalloc_classes h) (with_buddy (kmem h) b) (headers h)).

Definition put_header (h : kheap) (addr : Z) (hd : malloc_header) : kheap :=
  KHeap (kmalloc_classes h) (kmem h) (<[addr := hd]> (headers h)).

Definition malloc (h : kheap) (size : Z) : res (Z * kheap) :=
  if size =? 0 then Ok (0, h)
  else
    '(hdr, h) ← kmalloc h (u64 (size + sizeof_malloc_header));
    if hdr =? 0 then Ok (0, h)
    else
      let h := put_header h hdr (MHeader MAGIC 0 (u64 (size + sizeof_malloc_header))) in
      Ok (hdr + sizeof_malloc_header, h).

Definition malloc_aligned (h : kheap) (size align : Z) : res (Z * kheap) :=
  if size =? 0 then Ok (0, h)
  else
    let align := if align <? 16 then 16 else align in
    _ ← assert (isPow2ull align);
    let total := u64 (size + sizeof_malloc_header + align - 1) in
    '(raw, h) ← kmalloc h total;
    if raw =? 0 then Ok (0, h)
    else
      let ptr := ALIGN_UP (raw + sizeof_malloc_header) align in
      let hdr := ptr - sizeof_malloc_header in
      let h := put_header h hdr (MHeader MAGIC (u32 (hdr - raw)) total) in
      Ok (ptr, h).

Definition free (h : kheap) (ptr : Z) : res kheap :=
  if ptr =? 0 then Ok h
  else
    let hdr := ptr - sizeof_malloc_header in
    hd ← load (headers h) hdr;
    _ ← assert (h_magic hd =? MAGIC);
    let rptr := hdr - h_offset hd in
    kfree h rptr (h_size hd).
End Malloc.

(** ** Sizes *)
Section Sizes.
Context `{cfg_ok : kconfig_ok}.

(** The class of a size is the least power of two, at least 8, that holds it,
    and its index is in the array. *)
Lemma size_class_spec size :
  0 < size <= MAX_CLASS ->
  size <= 2 ^ size_class size /\ 0 <= size_class size - MIN_SHIFT < MAX_SHIFT - MIN_SHIFT + 1 /\
  (MIN_SHIFT < size_class size -> 2 ^ (size_class size - 1) < size).
Proof using cfg_ok.
  pose proof shift_range as Hsh. unfold MAX_CLASS, MAX_SHIFT. rewrite Z.shiftl_1_l. intros Hs.
  assert (2 ^ (PAGE_SIZE_SHIFT - 2) <= 2 ^ 14) as Hmax by (apply Z.pow_le_mono_r; lia).
  assert (size < 2 ^ 64) as H64 by (change (2 ^ 14) with 16384 in Hmax; lia).
  pose proof (log2ull_spec size ltac:(lia)) as Hl. pose proof (log2ull_nonneg size) as Hl0.
  remember (log2ull size) as s eqn:Es.
  assert (s <= PAGE_SIZE_SHIFT - 2) as Hle.
  { destruct (decide (s <= PAGE_SIZE_SHIFT - 2)); [done|]. exfalso.
    assert (2 ^ (PAGE_SIZE_SHIFT - 2) < 2 ^ s) by (apply Z.pow_lt_mono_r; lia). lia. }
  assert (shl64 1 s = 2 ^ s) as Esh.
  { unfold shl64. rewrite Z.shiftl_1_l. apply u64_small. split; [lia|]. apply Z.pow_lt_mono_r; lia. }
  unfold size_class. rewrite <- Es, Esh. cbv zeta. unfold MIN_SHIFT. change (2 ^ 3) with 8.
  rewrite Z.pow_add_r in Hl by lia. change (2 ^ 1) with 2 in Hl.
  assert (s < PAGE_SIZE_SHIFT - 2 \/ size <= 2 ^ s) as Htop.
  { destruct (decide (s = PAGE_SIZE_SHIFT - 2)) as [E |]; [right; rewrite E; lia|left; lia]. }
  destruct (Z.ltb_spec (2 ^ s) size) as [Hlt | Hge].
  - destruct (Z.ltb_spec (s + 1) 3) as [H3 | H3].
    + split; [|lia]. change (2 ^ 3) with 8. assert (2 ^ s <= 2 ^ 1) by (apply Z.pow_le_mono_r; lia). lia.
    + rewrite Z.pow_add_r by lia. split; [lia|]. split; [lia|]. intros _. by rewrite Z.add_simpl_r.
  - assert (size = 2 ^ s) as -> by lia. destruct (Z.ltb_spec s 3) as [H3 | H3].
    + split; [|lia]. apply Z.pow_le_mono_r; lia.
    + split; [done|]. split; [lia|]. intros ?. apply Z.pow_lt_mono_r; lia.
Qed.

(** The order of a larger size is the least one whose blocks hold it. *)
Lemma size_order_spec size :
  0 < size -> size + PAGE_SIZE <= 2 ^ 64 ->
  size <= 2 ^ size_order size * PAGE_SIZE /\ (0 < size_order size -> 2 ^ (size_order size - 1) * PAGE_SIZE < size).
Proof using cfg_ok.
  intros H0 Hs. pose proof shift_range as Hsh. unfold size_order. rewrite PAGE_SIZE_eq in *.
  set (k := PAGE_SIZE_SHIFT) in *. assert (0 < 2 ^ k) as Hk by (apply Z.pow_pos_nonneg; lia).
  destruct (ALIGN_UP_bounds size k) as ([z Hz] & Hb); [lia|unfold is_u64; lia|lia|]. rewrite Hz in *.
  rewrite Z.shiftr_div_pow2, Z.div_mul by lia. cbv zeta.
  destruct (decide (z <= 1)) as [Hle | Hgt].
  - unfold log2ullceil. rewrite (proj2 (Z.leb_le z 1)) by done. change (2 ^ 0) with 1. split; [nia|lia].
  - pose proof (log2ullceil_spec z ltac:(lia)) as [Hlo Hhi]. split; [nia|]. intros _. nia.
Qed.
End Sizes.

(** ** The specifications *)

(** the class chosen for a small request exists and its objects hold the
    request, as the smallest class that does; the order chosen for a large
    one is the smallest whose blocks hold it. *)
Theorem kmalloc_sizes_correct `{kconfig_ok} size :
  0 < size -> size + PAGE_SIZE <= 2 ^ 64 ->
  (size <= MAX_CLASS -> size <= 2 ^ size_class size /\
     0 <= size_class size - MIN_SHIFT < MAX_SHIFT - MIN_SHIFT + 1 /\
     (MIN_SHIFT < size_class size -> 2 ^ (size_class size - 1) < size)) /\
  size <= 2 ^ size_order size * PAGE_SIZE /\ (0 < size_order size -> 2 ^ (size_order size - 1) * PAGE_SIZE < size).
Proof. intros H0 Hs. split; [intros Hc; apply size_class_spec; lia|by apply size_order_spec]. Qed.

Lemma malloc_aligned_run `{kconfig_ok} h h1 size align raw :
  let al := if align <? 16 then 16 else align in
  let total := size + sizeof_malloc_header + al - 1 in
  0 < size -> isPow2ull al = true -> al <= 2 ^ 32 -> total < 2 ^ 64 ->
  kmalloc h total = Ok (raw, h1) -> 0 < raw -> raw + total <= 2 ^ 64 ->
  exists ptr, malloc_aligned h size align =
      Ok (ptr, put_header h1 (ptr - sizeof_malloc_header) (MHeader MAGIC (ptr - sizeof_malloc_header - raw) total)) /\
    (al | ptr) /\ raw + sizeof_malloc_header <= ptr /\ ptr + size <= raw + total.
Proof.
  intros al total Hs Hpow Hal Ht Hk Hraw Hend. unfold sizeof_malloc_header in *.
  assert (is_u64 al) as Hu by (unfold is_u64, al in *; destruct (Z.ltb_spec align 16); lia).
  destruct (isPow2ull_pow al Hu Hpow) as (j & Hj & Ej).
  assert (16 <= al) as H16 by (unfold al; destruct (Z.ltb_spec align 16); lia).
  destruct (ALIGN_UP_bounds (raw + 16) j) as (Hd & Hb); [lia|unfold is_u64, total in *; lia|unfold total in *; rewrite <- Ej; lia|].
  rewrite <- Ej in *. unfold malloc_aligned. rewrite (proj2 (Z.eqb_neq size 0)) by lia. fold al. cbv zeta.
  rewrite (assert_true _ Hpow), bind_Ok. unfold sizeof_malloc_header. fold total. rewrite (u64_small total) by (unfold is_u64, total in *; lia).
  rewrite Hk, bind_Ok, (proj2 (Z.eqb_neq raw 0)) by lia.
  set (ptr := ALIGN_UP (raw + 16) al) in *.
  assert (u32 (ptr - 16 - raw) = ptr - 16 - raw) as E32 by (apply Z.mod_small; lia).
  exists ptr. rewrite E32. split; [done|]. split; [done|]. split; [lia|]. unfold total. lia.
Qed.

(** [free] takes the block and its size from the header. *)
Lemma free_run `{kconfig} h ptr raw total :
  0 < ptr -> headers h !! (ptr - sizeof_malloc_header) = Some (MHeader MAGIC (ptr - sizeof_malloc_header - raw) total) ->
  free h ptr = kfree h raw total.
Proof.
  intros Hp Hh. unfold free. rewrite (proj2 (Z.eqb_neq ptr 0)) by lia. unfold load. rewrite Hh. cbn [of_option]. rewrite bind_Ok. cbn [h_magic h_offset h_size].
  rewrite assert_true by apply Z.eqb_refl. rewrite bind_Ok. f_equal. lia.
Qed.

(** what [malloc_aligned] returns is aligned and lies with the whole
    object inside the raw block, behind the header; [free] of it hands exactly
    the raw block and its size back to [kfree]. *)
Theorem malloc_aligned_free `{kconfig_ok} h h1 size align raw :
  let al := if align <? 16 then 16 else align in
  let total := size + sizeof_malloc_header + al - 1 in
  0 < size -> isPow2ull al = true -> al <= 2 ^ 32 -> total < 2 ^ 64 ->
  kmalloc h total = Ok (raw, h1) -> 0 < raw -> raw + total <= 2 ^ 64 ->
  exists ptr h2, malloc_aligned h size align = Ok (ptr, h2) /\
    (al | ptr) /\ raw + sizeof_malloc_header <= ptr /\ ptr + size <= raw + total /\
    headers h2 !! (ptr - sizeof_malloc_header) = Some (MHeader MAGIC (ptr - sizeof_malloc_header - raw) total) /\
    free h2 ptr = kfree h2 raw total.
Proof.
  intros al total Hs Hpow Hal Ht Hk Hraw Hend.
  destruct (malloc_aligned_run h h1 size align raw Hs Hpow Hal Ht Hk Hraw Hend) as (ptr & E & Hd & B1 & B2). fold al total in E.
  eexists ptr, _. split; [exact E|]. assert (0 < ptr) as Hp by (unfold sizeof_malloc_header in *; lia).
  split; [done|]. split; [done|]. split; [done|]. cbn [headers put_header]. rewrite lookup_insert_eq. split; [done|].
  apply free_run; [done|]. cbn. by rewrite lookup_insert_eq.
Qed.

(** a request larger than the largest block order (64 MiB with 4 KiB
    pages) is not refused: [kmalloc] indexes the buddy allocator's array of
    free lists out of bounds. *)
Theorem kmalloc_large_out_of_bounds (h : kheap) size :
  length (orders (sp_pages (kmem h))) = 15%nat -> 2 ^ 26 < size <= 2 ^ 63 ->
  kmalloc (cfg := x86_64_config) h size = Fault.
Proof.
  intros Hl Hs. unfold kmalloc.
  destruct (size_order_spec (cfg := x86_64_config) size) as [Hhi _]; [lia|change (PAGE_SIZE (H := x86_64_config)) with 4096; lia|].
  change (PAGE_SIZE (H := x86_64_config)) with 4096 in Hhi.
  change (MAX_CLASS (cfg := x86_64_config)) with 1024.
  rewrite (proj2 (Z.eqb_neq size 0)), (proj2 (Z.leb_gt size 1024)) by lia.
  set (o := size_order (cfg := x86_64_config) size) in *.
  assert (15 <= o) as Ho.
  { destruct (decide (15 <= o)); [done|]. exfalso. destruct (decide (0 <= o)).
    - assert (2 ^ o <= 2 ^ 14) by (apply Z.pow_le_mono_r; lia). change (2 ^ 14) with 16384 in *. lia.
    - rewrite Z.pow_neg_r in Hhi by lia. lia. }
  unfold buddy_allocate, pop_order, arr_pop, arr_get.
  assert (orders (sp_pages (kmem h)) !! Z.to_nat o = None) as E by (apply lookup_ge_None; lia).
  destruct (Z.ltb_spec o 0); [lia|]. rewrite E. reflexivity.
Qed.

(** ** A heap on the boot memory *)
Module Demo.
Definition heap : kheap :=
  match malloc_init (cfg := x86_64_config) SpallocSpec.Demo.m0 with Ok h => h | _ => KHeap [] SpallocSpec.Demo.m0 ∅ end.
(** 100 bytes on a 64-byte boundary. *)
Definition raw : Z := match kmalloc (cfg := x86_64_config) heap 179 with Ok (r, _) => r | _ => 0 end.
Definition heap1 : kheap := match kmalloc (cfg := x86_64_config) heap 179 with Ok (_, h) => h | _ => heap end.

Lemma run : kmalloc (cfg := x86_64_config) heap 179 = Ok (raw, heap1).
Proof. vm_compute. reflexivity. Qed.
End Demo.

Lemma kmalloc_sizes_correct_witness :
  (100 <= MAX_CLASS (cfg := x86_64_config) -> 100 <= 2 ^ size_class 100 /\
     0 <= size_class 100 - MIN_SHIFT < MAX_SHIFT (cfg := x86_64_config) - MIN_SHIFT + 1 /\
     (MIN_SHIFT < size_class 100 -> 2 ^ (size_class 100 - 1) < 100)) /\
  100 <= 2 ^ size_order (cfg := x86_64_config) 100 * PAGE_SIZE (H := x86_64_config) /\
  (0 < size_order (cfg := x86_64_config) 100 ->
   2 ^ (size_order (cfg := x86_64_config) 100 - 1) * PAGE_SIZE (H := x86_64_config) < 100).
Proof. apply (kmalloc_sizes_correct (cfg := x86_64_config) 100); [lia|by vm_compute]. Defined.

Lemma malloc_aligned_free_witness :
  exists ptr h2, malloc_aligned (cfg := x86_64_config) Demo.heap 100 64 = Ok (ptr, h2) /\
    (64 | ptr) /\ Demo.raw + 16 <= ptr /\ ptr + 100 <= Demo.raw + 179 /\
    headers h2 !! (ptr - 16) = Some (MHeader MAGIC (ptr - 16 - Demo.raw) 179) /\
    free (cfg := x86_64_config) h2 ptr = kfree (cfg := x86_64_config) h2 Demo.raw 179.
Proof.
  apply (malloc_aligned_free (cfg := x86_64_config) Demo.heap Demo.heap1 100 64 Demo.raw);
    [lia|reflexivity|by vm_compute|by vm_compute|exact Demo.run|by vm_compute|by vm_compute].
Defined.

Lemma kmalloc_large_out_of_bounds_witness : kmalloc (cfg := x86_64_config) Demo.heap (2 ^ 27) = Fault.
Proof. apply (kmalloc_large_out_of_bounds Demo.heap (2 ^ 27)); [reflexivity|lia]. Defined.
