(* ===== verification/HeapSpec.v ===== *)
(** * libc/stdlib.c: the kernel heap hands out memory safely

    The size classes of [kmalloc] are object allocators over one page allocator
    and one memory, next to the large blocks and to the pages of everyone else.
    [owner] says which class a page belongs to and which of its slots are free,
    [X] which blocks of the page allocator others hold, large requests
    included.  Each class is seen through the object allocator's theorems, with
    the pages of all others as an instance of the page allocator's interface. *)

From S2P Require Import Prelude LList Pfndb Buddy BuddyInv BuddySpec PagingPmm PageAlloc Spalloc SpallocSpec Malloc.
#[local] Open Scope Z_scope.

(** ** One client of the page allocator among others *)
Section Shared.
Context `{cfg_ok : kconfig_ok} (R : regions).
Implicit Types (X : gmap Z Z) (O : gset Z) (st : buddy_state).

(** The blocks in use are exactly the pages [O] and the blocks [X]. *)
Definition owns st O X : Prop :=
  exists B, buddy_inv R st B /\ settled B /\
    (forall q j, B !! q = Some (j, BAlloc) <-> (q ∈ O /\ j = 0) \/ X !! q = Some j) /\
    forall q, q ∈ O -> X !! q = None.

Lemma owns_weaken st O X : owns st O X -> buddy_pages st O.
Proof using Type. intros (B & I & S & HB & _). exists R, B. split; [done|]. split; [done|]. intros p Hp. apply HB. by left. Qed.

Lemma owns_alloc st O X k :
  owns st O X -> 0 <= k <= MAX_ORDER ->
  nofault (buddy_allocate st k ALLOC_FLAG_NOFAIL) (fun '(p, st') => (p ∉ O) /\ X !! p = None /\ owns st' O (<[p := k]> X)).
Proof using cfg_ok.
  intros (B & I & S & HB & HX) Hk.
  destruct (allocate_ok R st B k ALLOC_FLAG_NOFAIL I S Hk) as [(p & st' & B' & E & Hp & I' & P)|[_ H]].
  - rewrite E. cbn [nofault]. destruct (al_origin _ _ _ _ P) as (c & _ & Hc & _).
    assert (forall j, B !! p <> Some (j, BAlloc)) as Hfree by (intros j; congruence).
    assert (p ∉ O) as HpO by (intros Hin; apply (Hfree 0), HB; by left).
    assert (X !! p = None) as HpX by (destruct (X !! p) as [j|] eqn:Ex; [|done]; exfalso; apply (Hfree j), HB; by right).
    split; [done|]. split; [done|]. exists B'. split; [done|]. split; [apply P|]. split.
    + intros q j. destruct (decide (q = p)) as [->|Hne].
      * rewrite lookup_insert_eq, (al_new _ _ _ _ P). split; [intros [= ->]; by right|]. by intros [[? _]|[= ->]].
      * rewrite lookup_insert_ne by done. by rewrite (al_others _ _ _ _ P), HB.
    + intros q Hq. rewrite lookup_insert_ne by (by intros ->). by apply HX.
  - change (Z.land ALLOC_FLAG_NOFAIL ALLOC_FLAG_NOFAIL =? 0) with false in H. cbv iota in H. by rewrite H.
Qed.

Lemma owns_free st O X p k :
  owns st O X -> X !! p = Some k -> returns (buddy_free st p k) (fun st' => owns st' O (delete p X)).
Proof using cfg_ok.
  intros (B & I & S & HB & HX) Hp. destruct (free_ok R st B p k I S) as (st' & B' & E & I' & P); [apply HB; by right|].
  exists st'. split; [done|]. exists B'. split; [done|]. split; [apply P|]. split.
  - intros q j. rewrite (fr_allocs _ _ _ _ _ P), HB, lookup_delete_Some. split.
    + intros [[Hq|Hq] Hne]; [by left|by right].
    + intros [[Hq Hj]|[Hne Hq]]; [|split; [by right|done]]. split; [by left|]. intros ->. by rewrite (HX p Hq) in Hp.
  - intros q Hq. apply lookup_delete_None. right. by apply HX.
Qed.

(** A page of the client is a block of order 0 of its own. *)
Lemma owns_move st O X p : p ∉ O -> owns st ({[p]} ∪ O) X <-> owns st O (<[p := 0]> X) /\ X !! p = None.
Proof using cfg_ok.
  intros Hp. split.
  - intros (B & I & S & HB & HX). assert (X !! p = None) as HpX by (apply HX; set_solver). split; [|done]. exists B. split; [done|]. split; [done|]. split.
    + intros q j. rewrite HB, lookup_insert_Some. split.
      * intros [[[->%elem_of_singleton|Hq]%elem_of_union ->]|Hq]; [right; by left|by left|]. destruct (decide (p = q)) as [->|]; [congruence|right; by right].
      * intros [[Hq ->]|[[<- <-]|[_ Hq]]]; [left; set_solver|left; set_solver|by right].
    + intros q Hq. rewrite lookup_insert_ne by (intros ->; done). apply HX. set_solver.
  - intros [(B & I & S & HB & HX) HpX]. exists B. split; [done|]. split; [done|]. split.
    + intros q j. rewrite HB, lookup_insert_Some. split.
      * intros [[Hq ->]|[[<- <-]|[_ Hq]]]; [left; set_solver|left; set_solver|by right].
      * intros [[[->%elem_of_singleton|Hq]%elem_of_union ->]|Hq]; [right; by left|by left|]. destruct (decide (p = q)) as [->|]; [congruence|right; by right].
    + intros q [->%elem_of_singleton|Hq]%elem_of_union; [done|]. specialize (HX q Hq). rewrite lookup_insert_ne in HX by (intros ->; done). done.
Qed.

#[local] Program Instance shared (X : gmap Z Z) : page_alloc_ok buddy_state := {| pa_rep st O := owns st O X |}.
Next Obligation. intros X st O p HO Hp. cbv beta in HO. by eapply buddy_pages_page; [eapply owns_weaken|]. Qed.
Next Obligation.
  intros X st O HO. cbv beta in *. unfold pa_alloc. cbn [buddy_page_alloc]. eapply nofault_mono; [by apply (owns_alloc st O X MIN_ORDER)|].
  intros [p st'] (H1 & H2 & H3). split; [done|]. by apply owns_move.
Qed.
Next Obligation.
  intros X st O p HO Hp. cbv beta in *. unfold pa_free. cbn [buddy_page_alloc].
  rewrite (union_difference_singleton_L p O Hp) in HO. apply owns_move in HO as [HO HpX]; [|apply not_elem_of_difference; right; by apply elem_of_singleton].
  eapply returns_mono; [apply (owns_free st _ _ p MIN_ORDER HO), lookup_insert_eq|]. intros st' H'.
  by rewrite delete_insert_id in H'.
Qed.
End Shared.

(** ** One class among others *)
Section Frame.
Context `{cfg_ok : kconfig_ok} {P : Type} `{PA : !page_alloc P}.

(** A client whose pages an operation does not touch sees nothing of it. *)
Lemma sp_ok_frame (PO1 PO2 : page_alloc_ok P) a (m m' : spalloc_mem P) pgs O :
  sp_ok (PO := PO1) a m pgs -> framed O m m' -> (forall p, p ∈ O -> page_ok p) -> (forall p, p ∈ dom pgs -> p ∉ O) ->
  pa_rep (page_alloc_ok := PO2) (sp_pages m') (dom pgs) -> sp_ok (PO := PO2) a m' pgs.
Proof using cfg_ok.
  intros [pl I] [F1 F2 F3] HO Hd Hr. exists pl. destruct page_pow as (j & _ & _ & Hps).
  assert (forall p d, p ∈ dom pgs -> 0 <= d < PAGE_SIZE -> forall q, q ∈ O -> ~ in_page q (hdr_of p + d)) as Hout.
  { intros p d Hp Hdr q Hq Hin. assert (page_ok p) as Hpp by (by eapply (inv_page (PO := PO1))). assert (p <> q) as Hne by (intros ->; by apply (Hd q)).
    destruct (page_apart p q Hpp (HO q Hq) Hne); unfold in_page, hdr_of in Hin; lia. }
  assert (forall p o, p ∈ dom pgs -> slot a p o -> sp_objs m' !! o = sp_objs m !! o) as Hobj.
  { intros p o Hp Hs. apply F2. destruct Hs as (i & Hi & ->). unfold slot_at. destruct (sp_geom (PO := PO1) _ _ _ _ _ I) as [G1 G2 G3 G4]. unfold sizeof_page_header in G2.
    replace (hdr_of p + obj_offset a + i * obj_stride a) with (hdr_of p + (obj_offset a + i * obj_stride a)) by lia. apply Hout; [done|nia]. }
  assert (forall p, p ∈ dom pgs -> sp_links m' !! (hdr_of p + LINKAGE_OFFSET) = sp_links m !! (hdr_of p + LINKAGE_OFFSET)) as Hlink.
  { intros p Hp. apply F3, Hout; [done|unfold LINKAGE_OFFSET; lia]. }
  split.
  - apply I.
  - done.
  - intros p xs Hp. destruct (sp_hdr (PO := PO1) _ _ _ _ _ I _ _ Hp) as (hd & E & Rp & N & Sl). apply elem_of_dom_2 in Hp as Hpd. exists hd. split.
    + rewrite F1; [done|]. rewrite <- (Z.add_0_r (hdr_of p)). apply Hout; [done|lia].
    + split; [|done]. eapply Stack.stack_rep_frame; [|exact Rp]. intros o Ho. apply (Hobj p); [done|by apply Sl].
  - intros p o Hp Ho. rewrite (Hobj p o Hp Ho). by apply (sp_slots (PO := PO1) _ _ _ _ _ I p).
  - intros p Hp. rewrite Hlink by done. by apply (sp_link (PO := PO1) _ _ _ _ _ I).
  - eapply llist_rep_frame; [|apply I]. intros v Hv. apply (sp_partial (PO := PO1) _ _ _ _ _ I) in Hv as (p & xs & Hp & _ & _ & ->). apply Hlink. by eapply elem_of_dom_2.
  - apply I.
Qed.
End Frame.

(** ** The invariant *)
Abbreviation owners := (gmap Z (nat * list Z)).

Definition class_pages (ow : owners) (i : nat) : gmap Z (list Z) := omap (fun '(c, xs) => if decide (c = i) then Some xs else None) ow.
(** What everyone but class [i] holds. *)
Definition rest (ow : owners) (i : nat) (X : gmap Z Z) : gmap Z Z := X ∪ omap (fun '(c, _) => if decide (c = i) then None else Some 0) ow.
Definition with_class (ow : owners) (i : nat) (pgs : gmap Z (list Z)) : owners := (pair i <$> pgs) ∪ filter (fun '(_, (c, _)) => c <> i) ow.

Lemma class_pages_Some ow i p xs : class_pages ow i !! p = Some xs <-> ow !! p = Some (i, xs).
Proof.
  unfold class_pages. rewrite lookup_omap. destruct (ow !! p) as [[c ys]|]; cbn; [|done]. destruct (decide (c = i)) as [->|Hne].
  - split; [by intros [= ->]|by intros [= ->]].
  - split; [done|]. intros [= -> ->]. done.
Qed.

Lemma rest_Some ow i X p j :
  (forall p, p ∈ dom ow -> X !! p = None) ->
  rest ow i X !! p = Some j <-> X !! p = Some j \/ (j = 0 /\ exists c xs, c <> i /\ ow !! p = Some (c, xs)).
Proof.
  intros HX. unfold rest. rewrite lookup_union, lookup_omap. destruct (ow !! p) as [[c xs]|] eqn:E; cbn.
  - rewrite (HX p) by (by eapply elem_of_dom_2). destruct (decide (c = i)) as [->|Hne]; cbn; split.
    + done.
    + intros [?|(_ & c & ys & Hne & [= <- <-])]; done.
    + intros [= <-]. right. split; [done|]. by exists c, xs.
    + intros [?|[-> _]]; done.
  - rewrite option_union_right_id. split; [by left|]. intros [?|(_ & c & xs & _ & ?)]; done.
Qed.

Lemma rest_None ow i X p : rest ow i X !! p = None <-> X !! p = None /\ forall c xs, ow !! p = Some (c, xs) -> c = i.
Proof.
  unfold rest. rewrite lookup_union_None, lookup_omap. destruct (ow !! p) as [[c xs]|]; cbn.
  - destruct (decide (c = i)) as [->|Hne]; split; intros [H1 H2]; (split; [done|]).
    + by intros c ys [= <- <-].
    + done.
    + done.
    + exfalso. by apply Hne, (H2 c xs).
  - split; intros [H1 H2]; done.
Qed.

Lemma with_class_Some ow i pgs p c xs :
  with_class ow i pgs !! p = Some (c, xs) <->
  (c = i /\ pgs !! p = Some xs) \/ (c <> i /\ pgs !! p = None /\ ow !! p = Some (c, xs)).
Proof.
  unfold with_class. rewrite lookup_union_Some_raw, lookup_fmap_Some, lookup_fmap, fmap_None, map_lookup_filter_Some. split.
  - intros [(ys & [= <- <-] & Hp)|(Hn & Hp & Hc)]; [by left|right]. done.
  - intros [[-> Hp]|(Hc & Hn & Hp)]; [left; by exists xs|by right].
Qed.

Section Owners.
Context `{cfg_ok : kconfig_ok} (R : regions).

Lemma owns_class st ow i X :
  (forall p, p ∈ dom ow -> X !! p = None) -> owns R st (dom (class_pages ow i)) (rest ow i X) <-> owns R st (dom ow) X.
Proof using Type.
  intros HX.
  assert (forall q j, (q ∈ dom (class_pages ow i) /\ j = 0) \/ rest ow i X !! q = Some j <-> (q ∈ dom ow /\ j = 0) \/ X !! q = Some j) as Heq.
  { intros q j. rewrite (rest_Some ow i X q j HX). split.
    - intros [[[xs Hq%class_pages_Some]%elem_of_dom ->]|[Hq|(-> & c & xs & _ & Hq)]]; [left|by right|left]; (split; [by eapply elem_of_dom_2|done]).
    - intros [[[[c xs] Hq]%elem_of_dom ->]|Hq]; [|right; by left]. destruct (decide (c = i)) as [->|Hne].
      + left. split; [|done]. apply elem_of_dom. exists xs. by apply class_pages_Some.
      + right. right. split; [done|]. by exists c, xs. }
  split; intros (B & I & S & HB & HD); exists B; (split; [done|]); (split; [done|]); split.
  - intros q j. by rewrite HB, Heq.
  - done.
  - intros q j. by rewrite HB, <- Heq.
  - intros q [xs Hq%class_pages_Some]%elem_of_dom. apply rest_None. split; [apply HX; by eapply elem_of_dom_2|]. intros c ys Hq'. congruence.
Qed.
End Owners.

Section Heap.
Context `{cfg_ok : kconfig_ok} (R : regions).
Hypothesis hhdm_aligned : (PAGE_SIZE | hhdm_offset).
Implicit Types (h : kheap) (ow : owners) (X : gmap Z Z) (a : spalloc_allocator).

Abbreviation sp_among := (fun X => sp_ok (PO := shared R X)).

(** The objects of class [i]. *)
Definition class_shape (i : nat) a : Prop :=
  2 ^ (MIN_SHIFT + Z.of_nat i) <= obj_stride a /\ (16 | obj_stride a) /\ (16 | obj_offset a).

Record heap_ok h ow X : Prop := {
  ho_len : Z.of_nat (length (kmalloc_classes h)) = MAX_SHIFT - MIN_SHIFT + 1;
  ho_apart : forall p, p ∈ dom ow -> X !! p = None;
  ho_owns : owns R (sp_pages (kmem h)) (dom ow) X;
  ho_class : forall i a, kmalloc_classes h !! i = Some a ->
    class_shape i a /\ sp_among (rest ow i X) a (kmem h) (class_pages ow i);
}.

(** The objects that exist: a slot in use of the class of their size, or a
    block of the order of their size. *)
Definition class_index (size : Z) : nat := Z.to_nat (size_class size - MIN_SHIFT).
Definition small_block h ow (ptr size : Z) : Prop :=
  exists a, kmalloc_classes h !! class_index size = Some a /\ allocated a (class_pages ow (class_index size)) ptr.
Definition large_block X (ptr size : Z) : Prop := exists p, ptr = hdr_of p /\ X !! p = Some (size_order size).
Definition block h ow X (ptr size : Z) : Prop :=
  0 < size /\ if decide (size <= MAX_CLASS) then small_block h ow ptr size else large_block X ptr size.

Lemma heap_pages h ow X p : heap_ok h ow X -> p ∈ dom ow -> page_ok p.
Proof using cfg_ok. intros H Hp. eapply buddy_pages_page; [eapply owns_weaken, ho_owns; exact H|done]. Qed.

(** ** An operation of one class *)
Lemma class_step h ow X i a a' m' pgs' hdrs :
  heap_ok h ow X -> kmalloc_classes h !! i = Some a -> sp_among (rest ow i X) a' m' pgs' ->
  framed (dom (class_pages ow i) ∪ dom pgs') (kmem h) m' -> obj_stride a' = obj_stride a -> obj_offset a' = obj_offset a ->
  heap_ok (KHeap (<[i := a']> (kmalloc_classes h)) m' hdrs) (with_class ow i pgs') X /\
  class_pages (with_class ow i pgs') i = pgs' /\ (forall j, j <> i -> class_pages (with_class ow i pgs') j = class_pages ow j).
Proof using cfg_ok.
  intros H Ha I' F Es Eo. pose proof I' as [pl' II]. pose proof (sp_own (PO := shared R (rest ow i X)) _ _ _ _ _ II) as Ho. cbn in Ho.
  assert (forall p, p ∈ dom pgs' -> X !! p = None /\ forall c xs, ow !! p = Some (c, xs) -> c = i) as Hnew.
  { intros p Hp. apply rest_None. destruct Ho as (B & _ & _ & _ & HD). by apply HD. }
  assert (forall p c xs, with_class ow i pgs' !! p = Some (c, xs) -> c <> i -> ow !! p = Some (c, xs)) as Hold.
  { intros p c xs [[? _]|(_ & _ & ?)]%with_class_Some Hc; done. }
  assert (forall p c xs, ow !! p = Some (c, xs) -> c <> i -> with_class ow i pgs' !! p = Some (c, xs)) as Hkeep.
  { intros p c xs Hp Hc. apply with_class_Some. right. split; [done|]. split; [|done]. destruct (pgs' !! p) as [ys|] eqn:E; [|done].
    exfalso. apply Hc. by apply (proj2 (Hnew p ltac:(by eapply elem_of_dom_2)) c xs). }
  assert (forall p, p ∈ dom (with_class ow i pgs') -> X !! p = None) as HX.
  { intros p [[c xs] Hp]%elem_of_dom. apply with_class_Some in Hp as [[_ Hp]|(_ & _ & Hp)]; apply elem_of_dom_2 in Hp; [by apply Hnew|by apply (ho_apart _ _ _ H)]. }
  assert (class_pages (with_class ow i pgs') i = pgs') as Ei.
  { apply map_eq. intros p. apply option_eq. intros xs. rewrite class_pages_Some, with_class_Some. split; [by intros [[_ ?]|[? _]]|by left]. }
  assert (forall j, j <> i -> class_pages (with_class ow i pgs') j = class_pages ow j) as Ej.
  { intros j Hj. apply map_eq. intros p. apply option_eq. intros xs. rewrite !class_pages_Some. split; [intros Hp; by apply Hold|intros Hp; by apply Hkeep]. }
  assert (rest (with_class ow i pgs') i X = rest ow i X) as Er.
  { apply map_eq. intros p. apply option_eq. intros j. rewrite (rest_Some _ i X p j HX), (rest_Some _ i X p j (ho_apart _ _ _ H)).
    split; (intros [?|(-> & c & xs & Hc & Hp)]; [by left|right; split; [done|]]); exists c, xs; (split; [done|]); eauto. }
  assert (owns R (sp_pages m') (dom (with_class ow i pgs')) X) as Hown.
  { apply (owns_class R _ _ i X HX). by rewrite Ei, Er. }
  split; [|done]. split; cbn.
  - rewrite length_insert. apply H.
  - done.
  - done.
  - intros j b Hb. apply list_lookup_insert_Some in Hb as [(<- & <- & _)|[Hne Hb]].
    + destruct (ho_class _ _ _ H i a Ha) as [[S1 [S2 S3]] _]. split; [by unfold class_shape; rewrite Es, Eo|]. by rewrite Ei, Er.
    + destruct (ho_class _ _ _ H j b Hb) as [Sj Ij]. split; [done|]. rewrite Ej by done.
      eapply (sp_ok_frame (shared R (rest ow j X)) (shared R _) b (kmem h) m' _ _ Ij F).
      * intros p [Hp|Hp]%elem_of_union; [|by eapply (inv_page (PO := shared R (rest ow i X)))].
        apply elem_of_dom in Hp as [xs Hp%class_pages_Some]. eapply heap_pages; [done|]. by eapply elem_of_dom_2.
      * intros p [xs Hp%class_pages_Some]%elem_of_dom [Hq|Hq]%elem_of_union.
        -- apply elem_of_dom in Hq as [ys Hq%class_pages_Some]. congruence.
        -- apply Hne. symmetry. by eapply (proj2 (Hnew p Hq)).
      * cbn. rewrite <- (Ej j) by done. by apply (owns_class R _ _ j X HX).
Qed.

(** The memory of the classes does not change when the blocks of others do. *)
Lemma blocks_step h ow X X' st' hdrs :
  heap_ok h ow X -> (forall p, p ∈ dom ow -> X' !! p = None) -> owns R st' (dom ow) X' ->
  heap_ok (KHeap (kmalloc_classes h) (with_buddy (kmem h) st') hdrs) ow X'.
Proof using cfg_ok.
  intros H HX Ho. split; cbn; [apply H|done|done|]. intros j b Hb. destruct (ho_class _ _ _ H j b Hb) as [Sj Ij]. split; [done|].
  eapply (sp_ok_frame (shared R (rest ow j X)) (shared R _) b (kmem h) _ _ ∅ Ij); [by split| | |].
  - by intros p ?%not_elem_of_empty.
  - intros p _. apply not_elem_of_empty.
  - cbn. by apply (owns_class R _ _ j X' HX).
Qed.

(** ** Objects do not overlap *)
Lemma bsize_page : bsize 0 = PAGE_SIZE.
Proof using cfg_ok. unfold bsize. by rewrite Z.add_0_r, PAGE_SIZE_eq. Qed.

Lemma order_size size : 0 < size -> size + PAGE_SIZE <= 2 ^ 64 -> size <= bsize (size_order size) /\ 0 <= size_order size.
Proof using cfg_ok.
  intros H0 H1. destruct (size_order_spec size H0 H1) as [Hs _]. pose proof shift_range as Hsh.
  assert (0 <= size_order size) as Ho.
  { destruct (decide (0 <= size_order size)); [done|]. exfalso. rewrite Z.pow_neg_r in Hs by lia. lia. }
  split; [|done]. unfold bsize. rewrite Z.pow_add_r, Z.mul_comm, <- PAGE_SIZE_eq by lia. done.
Qed.

Lemma class_range size : 0 < size <= MAX_CLASS -> Z.of_nat (class_index size) = size_class size - MIN_SHIFT /\ size <= 2 ^ (MIN_SHIFT + Z.of_nat (class_index size)).
Proof using cfg_ok.
  intros Hs. destruct (size_class_spec size Hs) as (H1 & H2 & _). unfold class_index. rewrite Z2Nat.id by lia. split; [done|].
  by replace (MIN_SHIFT + (size_class size - MIN_SHIFT)) with (size_class size) by lia.
Qed.

(** A small object lies in a slot of a page of its class. *)
Lemma small_slot h ow X ptr size :
  heap_ok h ow X -> 0 < size <= MAX_CLASS -> small_block h ow ptr size ->
  exists a p xs, kmalloc_classes h !! class_index size = Some a /\ geometry a /\ ow !! p = Some (class_index size, xs) /\ slot a p ptr /\
    size <= obj_stride a /\ hdr_of p < ptr /\ ptr + obj_stride a <= hdr_of p + PAGE_SIZE.
Proof using cfg_ok hhdm_aligned.
  intros H Hs (a & Ha & p & xs & Hp & Hsl & _). apply class_pages_Some in Hp. destruct (ho_class _ _ _ H _ a Ha) as [(S1 & _) [pl I]].
  pose proof (sp_geom (PO := shared R _) _ _ _ _ _ I) as G. exists a, p, xs. split; [done|]. split; [done|]. split; [done|]. split; [done|].
  destruct (class_range size Hs) as [_ Hc]. split; [lia|]. pose proof Hsl as (i & Hi & Ei). destruct G as [G1 G2 G3 G4]. unfold slot_at, sizeof_page_header in *. nia.
Qed.

(** Different blocks of the page allocator are apart. *)
Lemma held_apart st O X q1 k1 q2 k2 :
  owns R st O X -> (q1 ∈ O /\ k1 = 0) \/ X !! q1 = Some k1 -> (q2 ∈ O /\ k2 = 0) \/ X !! q2 = Some k2 -> q1 <> q2 ->
  hdr_of q1 + bsize k1 <= hdr_of q2 \/ hdr_of q2 + bsize k2 <= hdr_of q1.
Proof using Type.
  intros (B & [xss I] & _ & HB & _) H1%HB H2%HB Hne. unfold hdr_of. destruct (i_disj _ _ _ _ I _ _ _ _ _ _ H1 H2 Hne); lia.
Qed.

Lemma blocks_apart h ow X ptr1 s1 ptr2 s2 :
  heap_ok h ow X -> block h ow X ptr1 s1 -> block h ow X ptr2 s2 -> ptr1 <> ptr2 -> s1 + PAGE_SIZE <= 2 ^ 64 -> s2 + PAGE_SIZE <= 2 ^ 64 ->
  ptr1 + s1 <= ptr2 \/ ptr2 + s2 <= ptr1.
Proof using cfg_ok hhdm_aligned.
  intros H. revert ptr1 s1 ptr2 s2.
  assert (forall ptr s p k, 0 < s <= MAX_CLASS -> small_block h ow ptr s -> X !! p = Some k -> ptr + s <= hdr_of p \/ hdr_of p + bsize k <= ptr) as Hmixed.
  { intros ptr s p k Hs B Hk. destruct (small_slot h ow X ptr s H Hs B) as (a & q & xs & _ & _ & W & _ & M & U & V). apply elem_of_dom_2 in W as Wd.
    assert (q <> p) as Hqp by (intros ->; rewrite (ho_apart _ _ _ H p Wd) in Hk; done).
    destruct (held_apart _ _ _ q 0 p k (ho_owns _ _ _ H) (or_introl (conj Wd eq_refl)) (or_intror Hk) Hqp) as [Hd|Hd]; rewrite ?bsize_page in Hd; lia. }
  intros ptr1 s1 ptr2 s2 [P1 B1] [P2 B2] Hne L1 L2. destruct (decide (s1 <= MAX_CLASS)) as [C1|C1], (decide (s2 <= MAX_CLASS)) as [C2|C2].
  - destruct (small_slot h ow X ptr1 s1 H ltac:(lia) B1) as (a1 & p1 & xs1 & A1 & G1 & W1 & S1 & M1 & U1 & V1).
    destruct (small_slot h ow X ptr2 s2 H ltac:(lia) B2) as (a2 & p2 & xs2 & A2 & G2 & W2 & S2 & M2 & U2 & V2).
    assert (page_ok p1) as K1 by (eapply heap_pages; [done|by eapply elem_of_dom_2]). assert (page_ok p2) as K2 by (eapply heap_pages; [done|by eapply elem_of_dom_2]).
    destruct (decide (p1 = p2)) as [<-|Hp].
    + rewrite W1 in W2. injection W2 as Ec _. rewrite <- Ec, A1 in A2. injection A2 as <-. destruct (slots_apart a1 p1 p1 ptr1 ptr2 G1 K1 K1 S1 S2 Hne); lia.
    + destruct (page_apart p1 p2 K1 K2 Hp); unfold hdr_of in *; lia.
  - destruct B2 as (p2 & -> & X2). destruct (order_size s2 P2 L2). destruct (Hmixed ptr1 s1 p2 _ ltac:(lia) B1 X2); lia.
  - destruct B1 as (p1 & -> & X1). destruct (order_size s1 P1 L1). destruct (Hmixed ptr2 s2 p1 _ ltac:(lia) B2 X1); lia.
  - destruct B1 as (p1 & -> & X1), B2 as (p2 & -> & X2). destruct (order_size s1 P1 L1), (order_size s2 P2 L2).
    destruct (held_apart _ _ _ p1 _ p2 _ (ho_owns _ _ _ H) (or_intror X1) (or_intror X2)) as [Hd|Hd]; [by intros ->|lia|lia].
Qed.

(** ** [kmalloc] and [kfree] *)

(** Sizes that [kfree] takes for each other. *)
Definition same_kind (s s' : Z) : Prop :=
  0 < s' /\ if decide (s <= MAX_CLASS) then s' <= MAX_CLASS /\ class_index s' = class_index s else MAX_CLASS < s' /\ size_order s' = size_order s.

Lemma max_sizes : MAX_CLASS < PAGE_SIZE /\ bsize MAX_ORDER <= 2 ^ 30 /\ PAGE_SIZE <= 2 ^ 16 /\ PAGE_SIZE <= bsize MAX_ORDER.
Proof using cfg_ok.
  pose proof shift_range as Hs. unfold MAX_CLASS, MAX_SHIFT, bsize, MAX_ORDER. rewrite Z.shiftl_1_l, PAGE_SIZE_eq.
  assert (2 ^ (PAGE_SIZE_SHIFT - 2) < 2 ^ PAGE_SIZE_SHIFT) by (apply Z.pow_lt_mono_r; lia).
  assert (2 ^ (PAGE_SIZE_SHIFT + 14) <= 2 ^ 30) by (apply Z.pow_le_mono_r; lia). assert (2 ^ PAGE_SIZE_SHIFT <= 2 ^ 16) by (apply Z.pow_le_mono_r; lia).
  assert (2 ^ PAGE_SIZE_SHIFT <= 2 ^ (PAGE_SIZE_SHIFT + 14)) by (apply Z.pow_le_mono_r; lia). lia.
Qed.

Lemma size_fits size : size <= bsize MAX_ORDER -> size + PAGE_SIZE <= 2 ^ 64.
Proof using cfg_ok. pose proof max_sizes. lia. Qed.

Lemma order_fits size : 0 < size <= bsize MAX_ORDER -> 0 <= size_order size <= MAX_ORDER.
Proof using cfg_ok.
  intros Hs. pose proof (size_fits size ltac:(lia)) as Hf. destruct (order_size size ltac:(lia) Hf) as [_ H0]. split; [done|].
  destruct (size_order_spec size ltac:(lia) Hf) as [_ H1]. destruct (decide (size_order size <= MAX_ORDER)) as [|Hn]; [done|]. exfalso. unfold MAX_ORDER in *.
  specialize (H1 ltac:(lia)). assert (2 ^ 14 <= 2 ^ (size_order size - 1)) as Hp by (apply Z.pow_le_mono_r; lia).
  assert (bsize 14 = 2 ^ 14 * PAGE_SIZE) as Eb by (pose proof shift_range; unfold bsize; rewrite Z.add_comm, Z.pow_add_r, PAGE_SIZE_eq by lia; done).
  pose proof max_sizes. nia.
Qed.

(** The size tells the kind of the object at an address. *)
Lemma block_kind h ow X ptr s s' : heap_ok h ow X -> block h ow X ptr s -> block h ow X ptr s' -> same_kind s s'.
Proof using cfg_ok hhdm_aligned.
  intros H.
  assert (forall s p k, 0 < s <= MAX_CLASS -> small_block h ow (hdr_of p) s -> X !! p = Some k -> False) as Hmixed.
  { intros t p k Ht B Hk. destruct (small_slot h ow X _ t H Ht B) as (a & q & xs & _ & G & W & _ & M & U & V). apply elem_of_dom_2 in W as Wd.
    assert (q <> p) as Hqp by (intros ->; rewrite (ho_apart _ _ _ H p Wd) in Hk; done). pose proof (g_stride a G).
    destruct (ho_owns _ _ _ H) as (B0 & [xss I] & _ & HB & _). assert (B0 !! p = Some (k, BAlloc)) as Hb by (apply HB; by right).
    pose proof (bsize_pos k (proj1 (i_block _ _ _ _ I _ _ _ Hb))).
    destruct (held_apart _ _ _ q 0 p k (ho_owns _ _ _ H) (or_introl (conj Wd eq_refl)) (or_intror Hk) Hqp) as [Hd|Hd]; rewrite ?bsize_page in Hd; lia. }
  intros [P1 B1] [P2 B2]. split; [done|]. destruct (decide (s <= MAX_CLASS)) as [C1|C1], (decide (s' <= MAX_CLASS)) as [C2|C2].
  - split; [done|]. destruct (small_slot h ow X ptr s H ltac:(lia) B1) as (a1 & p1 & xs1 & A1 & G1 & W1 & S1 & M1 & U1 & V1).
    destruct (small_slot h ow X ptr s' H ltac:(lia) B2) as (a2 & p2 & xs2 & A2 & G2 & W2 & S2 & M2 & U2 & V2).
    assert (page_ok p1) as K1 by (eapply heap_pages; [done|by eapply elem_of_dom_2]). assert (page_ok p2) as K2 by (eapply heap_pages; [done|by eapply elem_of_dom_2]).
    pose proof (g_stride _ G1). pose proof (g_stride _ G2).
    destruct (decide (p1 = p2)) as [<-|Hp]; [congruence|]. destruct (page_apart p1 p2 K1 K2 Hp); unfold hdr_of in *; lia.
  - exfalso. destruct B2 as (p2 & -> & X2). by eapply (Hmixed s p2).
  - exfalso. destruct B1 as (p1 & -> & X1). by eapply (Hmixed s' p1).
  - destruct B1 as (p1 & -> & X1), B2 as (p2 & E & X2). assert (p1 = p2) as <- by (unfold hdr_of in E; lia). split; [lia|]. congruence.
Qed.

Lemma small_aligned h ow X ptr size : heap_ok h ow X -> 0 < size <= MAX_CLASS -> small_block h ow ptr size -> (16 | ptr).
Proof using cfg_ok hhdm_aligned.
  intros H Hs (a & Ha & p & xs & Hp & (i & _ & ->) & _). apply class_pages_Some in Hp. destruct (ho_class _ _ _ H _ a Ha) as [(_ & S2 & S3) _].
  destruct (heap_pages _ _ _ _ H (elem_of_dom_2 _ _ _ Hp)) as (_ & Hd & _).
  assert (16 | PAGE_SIZE) as H16. { rewrite PAGE_SIZE_eq. pose proof shift_range. exists (2 ^ (PAGE_SIZE_SHIFT - 4)). change 16 with (2 ^ 4). rewrite <- Z.pow_add_r by lia. f_equal. lia. }
  unfold slot_at, hdr_of. repeat apply Z.divide_add_r; try (by eapply Z.divide_trans); [done|by apply Z.divide_mul_r].
Qed.

(** What a new object at [ptr] is to the others. *)
Definition new_block h ow X (size ptr : Z) h' ow' X' : Prop :=
  heap_ok h' ow' X' /\ headers h' = headers h /\ ~ (exists s, block h ow X ptr s) /\ block h' ow' X' ptr size /\
  (forall ptr' s', block h' ow' X' ptr' s' <-> block h ow X ptr' s' \/ (ptr' = ptr /\ same_kind size s')) /\
  0 < ptr /\ (16 | ptr) /\ ptr + size <= 2 ^ 64.

Lemma divide_16 p : (PAGE_SIZE | p) -> (16 | hdr_of p).
Proof using cfg_ok hhdm_aligned.
  intros Hp. assert (16 | PAGE_SIZE) as H16.
  { rewrite PAGE_SIZE_eq. pose proof shift_range. exists (2 ^ (PAGE_SIZE_SHIFT - 4)). change 16 with (2 ^ 4). rewrite <- Z.pow_add_r by lia. f_equal. lia. }
  unfold hdr_of. apply Z.divide_add_r; by eapply Z.divide_trans.
Qed.

(** The rest follows from the effect on the objects. *)
Lemma new_block_intro h ow X size ptr h' ow' X' :
  heap_ok h' ow' X' -> headers h' = headers h -> 0 < size -> ~ block h ow X ptr size ->
  (forall s, same_kind size s -> block h ow X ptr s -> block h ow X ptr size) ->
  (forall ptr' s', block h' ow' X' ptr' s' <-> block h ow X ptr' s' \/ (ptr' = ptr /\ same_kind size s')) ->
  0 < ptr -> (16 | ptr) -> ptr + size <= 2 ^ 64 -> new_block h ow X size ptr h' ow' X'.
Proof using cfg_ok hhdm_aligned.
  intros H' Eh H0 Hn Hk Hb Hp Ha He. assert (block h' ow' X' ptr size) as Hnew.
  { apply Hb. right. split; [done|]. split; [done|]. destruct (decide (size <= MAX_CLASS)); split; (done || lia). }
  split; [done|]. split; [done|]. split; [|done]. intros [s Hold]. apply Hn, (Hk s); [|done]. eapply block_kind; [exact H'|exact Hnew|]. apply Hb. by left.
Qed.

Lemma same_kind_block h ow X ptr size s : 0 < size -> same_kind size s -> block h ow X ptr s -> block h ow X ptr size.
Proof using Type.
  unfold same_kind, block, small_block, large_block. intros H0 [H1 Hk] [_ Hb]. split; [done|]. destruct (decide (size <= MAX_CLASS)).
  - destruct Hk as [Hk Hi]. rewrite decide_True in Hb by done. by rewrite Hi in Hb.
  - destruct Hk as [Hk Hi]. rewrite decide_False in Hb by lia. by rewrite Hi in Hb.
Qed.

Lemma kmalloc_small h ow X size :
  heap_ok h ow X -> 0 < size <= MAX_CLASS ->
  nofault (kmalloc h size) (fun '(ptr, h') => exists ow' X', new_block h ow X size ptr h' ow' X').
Proof using cfg_ok hhdm_aligned.
  intros H Hs. unfold kmalloc. rewrite (proj2 (Z.eqb_neq size 0)), (proj2 (Z.leb_le size _)) by lia. pose proof hhdm_range as Hh.
  destruct (size_class_spec size Hs) as (_ & Hr & _). destruct (class_range size Hs) as [Ei _]. fold (class_index size). set (i := class_index size) in *.
  assert (i < length (kmalloc_classes h))%nat as Hi by (pose proof (ho_len _ _ _ H); lia).
  destruct (lookup_lt_is_Some_2 (kmalloc_classes h) i Hi) as [a Ha]. unfold class_get.
  rewrite (proj2 (Z.ltb_ge _ 0)) by lia. rewrite <- Ei, Nat2Z.id, Ha. cbn [of_option]. rewrite bind_Ok.
  destruct (ho_class _ _ _ H i a Ha) as [_ I]. eapply nofault_bind; [apply (malloc_framed (PO := shared R (rest ow i X)) hhdm_aligned a (kmem h) _ I)|].
  intros [[ptr a'] m'] (pgs' & F & Hsub & I' & _ & Es & Eo & _ & Hn & _ & Hall). cbn [nofault].
  destruct (class_step h ow X i a a' m' pgs' (headers h) H Ha I') as (H' & Ei' & Ej); [eapply framed_weaken; [exact F|set_solver]|done|done|].
  exists (with_class ow i pgs'), X.
  assert (small_block (KHeap (<[i:=a']> (kmalloc_classes h)) m' (headers h)) (with_class ow i pgs') ptr size) as Hnew.
  { exists a'. cbn. fold i. rewrite list_lookup_insert_eq, Ei' by done. split; [done|]. apply Hall. by right. }
  destruct (small_slot _ _ _ ptr size H' Hs Hnew) as (b & p & xs & _ & _ & W & _ & M & U & V).
  destruct (heap_pages _ _ _ _ H' (elem_of_dom_2 _ _ _ W)) as (Hp0 & _ & Hp1).
  apply new_block_intro; [done|done|lia| |by intros s; apply same_kind_block; lia| |unfold hdr_of in *; lia|by eapply small_aligned|unfold hdr_of in *; lia].
  - intros [_ Hb]. rewrite decide_True in Hb by lia. destruct Hb as (b' & Hb & Hb'). fold i in Hb, Hb'. rewrite Ha in Hb. by injection Hb as <-.
  - intros ptr' s'. unfold block, same_kind. rewrite (decide_True (P := size <= MAX_CLASS)) by lia. destruct (decide (s' <= MAX_CLASS)) as [Hc'|Hc'].
    + unfold small_block. cbn [kmalloc_classes]. fold i. destruct (decide (class_index s' = i)) as [->|Hne].
      * rewrite list_lookup_insert_eq, Ei' by done. split.
        -- intros [H0 (b' & [= <-] & Hb)]. apply Hall in Hb as [Hb| ->]; [left; split; [done|]; by exists a|by right].
        -- intros [[H0 (b' & Hb & Hb')]|(-> & H0 & _)]; (split; [done|]); exists a'; (split; [done|]); apply Hall; [left|by right]. rewrite Ha in Hb. by injection Hb as <-.
      * rewrite list_lookup_insert_ne, Ej by done. split; [by left|]. by intros [?|(_ & _ & _ & ?)].
    + split; [by left|]. intros [?|(_ & _ & ? & _)]; [done|lia].
Qed.

Lemma kmalloc_large h ow X size :
  heap_ok h ow X -> MAX_CLASS < size <= bsize MAX_ORDER -> 0 < size ->
  nofault (kmalloc h size) (fun '(ptr, h') => exists ow' X', new_block h ow X size ptr h' ow' X').
Proof using cfg_ok hhdm_aligned.
  intros H Hs H0. unfold kmalloc. rewrite (proj2 (Z.eqb_neq size 0)), (proj2 (Z.leb_gt size _)) by lia. pose proof hhdm_range as Hh.
  pose proof (size_fits size ltac:(lia)) as Hf. pose proof (order_fits size ltac:(lia)) as Ho.
  eapply nofault_bind; [apply (owns_alloc R _ _ _ _ (ho_owns _ _ _ H) Ho)|]. intros [p st'] (Hp1 & Hp2 & Hown). cbn [nofault].
  assert (forall q, q ∈ dom ow -> <[p := size_order size]> X !! q = None) as HX by (intros q Hq; rewrite lookup_insert_ne by (intros ->; done); by apply (ho_apart _ _ _ H)).
  pose proof (blocks_step h ow X _ st' (headers h) H HX Hown) as H'. destruct Hown as (B & [xss I] & _ & HB & _).
  assert (B !! p = Some (size_order size, BAlloc)) as Hpb by (apply HB; right; apply lookup_insert_eq).
  destruct (block_facts _ _ _ _ _ _ _ I Hpb) as (_ & Hdiv & Hal & Hm & Hp0). destruct (i_block _ _ _ _ I _ _ _ Hpb) as (_ & _ & m & (b & Hreg & _ & Hend) & _).
  destruct (r_shape _ _ (i_regions _ _ _ _ I) _ _ Hreg) as (_ & _ & _ & Hb2). destruct (order_size size H0 Hf) as [Hsz _].
  assert (TO_HHDM p = hdr_of p) as -> by (by apply TO_HHDM_mapped). exists ow, (<[p := size_order size]> X).
  apply new_block_intro; [done|done|done| |by intros s; apply same_kind_block| |unfold hdr_of; lia|apply divide_16; unfold page_aligned in Hal; by rewrite PAGE_SIZE_eq|unfold hdr_of; lia].
  - intros [_ Hb]. rewrite decide_False in Hb by lia. destruct Hb as (q & Eq & Hq). assert (q = p) as -> by (unfold hdr_of in Eq; lia). by rewrite Hp2 in Hq.
  - intros ptr' s'. unfold block, same_kind. rewrite (decide_False (P := size <= MAX_CLASS)) by lia. destruct (decide (s' <= MAX_CLASS)) as [Hc'|Hc'].
    + split; [by left|]. intros [?|(_ & _ & ? & _)]; [done|lia].
    + unfold large_block. split.
      * intros [H1 (q & -> & Hq)]. apply lookup_insert_Some in Hq as [[<- Hq]|[_ Hq]]; [right; split; [done|]; split; [done|]; split; [lia|done]|left; split; [done|]; by exists q].
      * intros [[H1 (q & -> & Hq)]|(-> & H1 & _ & Hq)]; (split; [done|]); [exists q|exists p]; (split; [done|]); [|rewrite Hq; apply lookup_insert_eq].
        rewrite lookup_insert_ne; [done|]. intros ->. by rewrite Hp2 in Hq.
Qed.

Lemma kmalloc_ok h ow X size :
  heap_ok h ow X -> 0 < size <= bsize MAX_ORDER ->
  nofault (kmalloc h size) (fun '(ptr, h') => exists ow' X', new_block h ow X size ptr h' ow' X').
Proof using cfg_ok hhdm_aligned.
  intros H Hs. destruct (decide (size <= MAX_CLASS)); [apply kmalloc_small; [done|lia]|apply kmalloc_large; [done|lia|lia]].
Qed.

(** What is left when the object at [ptr] is gone. *)
Definition block_gone h ow X (ptr : Z) h' ow' X' : Prop :=
  heap_ok h' ow' X' /\ headers h' = headers h /\ forall ptr' s', block h' ow' X' ptr' s' <-> block h ow X ptr' s' /\ ptr' <> ptr.

Lemma kfree_small h ow X ptr size :
  heap_ok h ow X -> block h ow X ptr size -> 0 < ptr -> size <= MAX_CLASS ->
  returns (kfree h ptr size) (fun h' => exists ow' X', block_gone h ow X ptr h' ow' X').
Proof using cfg_ok hhdm_aligned.
  intros H Hblk Hp Hc. pose proof Hblk as [H0 Hb]. unfold kfree. rewrite (proj2 (Z.eqb_neq ptr 0)), (proj2 (Z.leb_le size _)) by lia.
  rewrite decide_True in Hb by done. destruct Hb as (a & Ha & Hall0). destruct (class_range size ltac:(lia)) as [Ei _]. set (i := class_index size) in *.
  unfold class_get. rewrite (proj2 (Z.ltb_ge _ 0)) by lia. rewrite <- Ei, Nat2Z.id, Ha. cbn [of_option]. rewrite bind_Ok.
  destruct (ho_class _ _ _ H i a Ha) as [_ I]. eapply returns_bind; [apply (free_framed (PO := shared R (rest ow i X)) hhdm_aligned a (kmem h) _ ptr I Hall0)|].
  intros [a' m'] (pgs' & F & Hsub & I' & _ & Es & Eo & _ & Hall).
  destruct (class_step h ow X i a a' m' pgs' (headers h) H Ha I') as (H' & Ei' & Ej); [eapply framed_weaken; [exact F|set_solver]|done|done|].
  apply returns_Ok. exists (with_class ow i pgs'), X. split; [done|]. split; [done|]. intros ptr' s'. split.
  - unfold block. destruct (decide (s' <= MAX_CLASS)) as [Hc'|Hc'].
    + unfold small_block. cbn [kmalloc_classes]. destruct (decide (class_index s' = i)) as [Ec|Hne].
      * rewrite Ec, list_lookup_insert_eq, Ei' by (by eapply lookup_lt_Some). intros [H1 (b' & [= <-] & Hb)]. apply Hall in Hb as [Hb Hne].
        split; [|done]. split; [done|]. by exists a.
      * rewrite list_lookup_insert_ne, Ej by done. intros [H1 Hb]. assert (block h ow X ptr' s') as Hold by (split; [done|]; by rewrite decide_True).
        split; [split; [done|]; exact Hb|]. intros ->. pose proof (block_kind h ow X ptr size s' H Hblk Hold) as [_ Hk]. rewrite decide_True in Hk by done. by destruct Hk.
    + intros [H1 Hb]. assert (block h ow X ptr' s') as Hold by (split; [done|]; by rewrite decide_False). split; [done|]. intros ->.
      pose proof (block_kind h ow X ptr size s' H Hblk Hold) as [_ Hk]. rewrite decide_True in Hk by done. destruct Hk. lia.
  - intros [[H1 Hb] Hne]. split; [done|]. destruct (decide (s' <= MAX_CLASS)) as [Hc'|Hc']; [|done]. destruct Hb as (b & Hb & Hb'). unfold small_block. cbn [kmalloc_classes].
    destruct (decide (class_index s' = i)) as [Ec|Hni].
    + rewrite Ec in *. rewrite Ha in Hb. injection Hb as <-. exists a'. rewrite list_lookup_insert_eq, Ei' by (by eapply lookup_lt_Some). split; [done|]. by apply Hall.
    + exists b. rewrite list_lookup_insert_ne, Ej by done. done.
Qed.

Lemma kfree_large h ow X ptr size :
  heap_ok h ow X -> block h ow X ptr size -> 0 < ptr -> MAX_CLASS < size ->
  returns (kfree h ptr size) (fun h' => exists ow' X', block_gone h ow X ptr h' ow' X').
Proof using cfg_ok hhdm_aligned.
  intros H Hblk Hp Hc. pose proof Hblk as [H0 Hb]. unfold kfree. rewrite (proj2 (Z.eqb_neq ptr 0)), (proj2 (Z.leb_gt size _)) by lia.
  rewrite decide_False in Hb by lia. destruct Hb as (p & -> & Hpx).
  destruct (ho_owns _ _ _ H) as (B & [xss I] & _ & HB & _). assert (B !! p = Some (size_order size, BAlloc)) as Hpb by (apply HB; by right).
  destruct (block_facts _ _ _ _ _ _ _ I Hpb) as (_ & _ & _ & Hm & Hp0).
  assert (FROM_HHDM (hdr_of p) = p) as -> by (unfold hdr_of; rewrite <- TO_HHDM_mapped by done; apply FROM_TO_HHDM; by apply hhdm_mapped_u64).
  eapply returns_bind; [apply (owns_free R _ _ _ p _ (ho_owns _ _ _ H) Hpx)|]. intros st' Hown. apply returns_Ok. exists ow, (delete p X).
  split; [apply (blocks_step h ow X); [done| |done]; intros q Hq; apply lookup_delete_None; right; by apply (ho_apart _ _ _ H)|]. split; [done|].
  intros ptr' s'. unfold block. destruct (decide (s' <= MAX_CLASS)) as [Hc'|Hc'].
  - split; [|by intros [? _]]. intros [H1 Hb]. split; [done|]. intros ->. assert (block h ow X (hdr_of p) s') as Hold by (split; [done|]; by rewrite decide_True).
    pose proof (block_kind h ow X _ size s' H Hblk Hold) as [_ Hk]. rewrite decide_False in Hk by lia. destruct Hk. lia.
  - unfold large_block. split.
    + intros [H1 (q & -> & Hq)]. apply lookup_delete_Some in Hq as [Hne Hq]. split; [split; [done|]; by exists q|]. unfold hdr_of. intros E. apply Hne. lia.
    + intros [[H1 (q & -> & Hq)] Hne]. split; [done|]. exists q. split; [done|]. apply lookup_delete_Some. split; [|done]. intros ->. done.
Qed.

Lemma kfree_ok h ow X ptr size :
  heap_ok h ow X -> block h ow X ptr size -> 0 < ptr ->
  returns (kfree h ptr size) (fun h' => exists ow' X', block_gone h ow X ptr h' ow' X').
Proof using cfg_ok hhdm_aligned.
  intros H Hb Hp. destruct (decide (size <= MAX_CLASS)); [by apply kfree_small|apply kfree_large; (done || lia)].
Qed.

(** ** The heap when it starts *)
Lemma empty_class a (m : spalloc_mem buddy_state) X :
  geometry a -> partial_list a = LLIST_INIT -> owns R (sp_pages m) ∅ X -> sp_among X a m ∅.
Proof using Type.
  intros G Hl Ho. exists []. split.
  - done.
  - cbn. by rewrite dom_empty_L.
  - intros p xs Hp. by rewrite lookup_empty in Hp.
  - intros p o Hp. rewrite dom_empty_L in Hp. by apply not_elem_of_empty in Hp.
  - intros p Hp. rewrite dom_empty_L in Hp. by apply not_elem_of_empty in Hp.
  - rewrite Hl. apply llist_rep_init.
  - intros v. split; [by intros ?%not_elem_of_nil|]. intros (p & xs & Hp & _). by rewrite lookup_empty in Hp.
Qed.

Lemma init_classes_ok n : forall i, 0 <= i -> i + Z.of_nat n <= MAX_SHIFT - MIN_SHIFT + 1 ->
  returns (init_classes n i) (fun cs => length cs = n /\ forall j a, cs !! j = Some a ->
    class_shape (Z.to_nat i + j) a /\ geometry a /\ partial_list a = LLIST_INIT).
Proof using cfg_ok.
  induction n as [|n IH]; intros i Hi Hn; cbn [init_classes]; [by apply returns_Ok|]. unfold MAX_SHIFT, MIN_SHIFT in *. pose proof shift_range as Hsh.
  assert (shl64 1 (3 + i) = 2 ^ (3 + i)) as ->.
  { unfold shl64. rewrite Z.shiftl_1_l. apply u64_small. split; [lia|]. apply Z.pow_lt_mono_r; lia. }
  assert (2 ^ (3 + i) <= 2 ^ (PAGE_SIZE_SHIFT - 2)) as Hle by (apply Z.pow_le_mono_r; lia). assert (2 ^ 3 <= 2 ^ (3 + i)) as Hge by (apply Z.pow_le_mono_r; lia).
  assert (PAGE_SIZE / 2 = 2 * 2 ^ (PAGE_SIZE_SHIFT - 2)) as Ehalf.
  { rewrite PAGE_SIZE_eq. replace PAGE_SIZE_SHIFT with (PAGE_SIZE_SHIFT - 2 + 2) at 1 by lia. rewrite Z.pow_add_r by lia. change (2 ^ 2) with (2 * 2). rewrite Z.mul_assoc, Z.div_mul by lia. lia. }
  assert (2 ^ 10 <= 2 ^ (PAGE_SIZE_SHIFT - 2)) as Hmin by (apply Z.pow_le_mono_r; lia). change (2 ^ 10) with 1024 in Hmin. change (2 ^ 3) with 8 in Hge.
  assert (2 ^ (PAGE_SIZE_SHIFT - 2) <= 2 ^ 14) as Hmax by (apply Z.pow_le_mono_r; lia). change (2 ^ 14) with 16384 in Hmax.
  destruct (ALIGN_UP_bounds (2 ^ (3 + i)) 4) as ([z Hz] & _); [lia|unfold is_u64; lia|lia|]. change (2 ^ 4) with 16 in Hz.
  eapply returns_bind; [apply (spalloc_init_ok (2 ^ (3 + i)) 16); [lia|unfold is_u64; lia|lia|done|rewrite Hz; change 16 with (2 * 8); rewrite Z.mul_assoc; apply Z.mod_mul; lia]|].
  intros a (G & Hl & S1 & S2 & S3). destruct (IH (i + 1) ltac:(lia) ltac:(lia)) as (cs & -> & Hlen & Hcs). rewrite bind_Ok. apply returns_Ok. split; [cbn; lia|].
  intros [|j] b Hb; cbn in Hb.
  - injection Hb as <-. split; [|done]. unfold class_shape, MIN_SHIFT. rewrite Nat.add_0_r, Z2Nat.id by lia. done.
  - destruct (Hcs j b Hb) as (C1 & C2). split; [|done]. replace (Z.to_nat i + S j)%nat with (Z.to_nat (i + 1) + j)%nat by lia. done.
Qed.

Lemma malloc_init_ok (m : spalloc_mem buddy_state) X :
  owns R (sp_pages m) ∅ X -> returns (malloc_init m) (fun h => heap_ok h ∅ X /\ forall ptr s, block h ∅ X ptr s -> large_block X ptr s).
Proof using cfg_ok.
  intros Ho. unfold malloc_init. pose proof shift_range as Hsh. unfold MAX_SHIFT, MIN_SHIFT.
  destruct (init_classes_ok (Z.to_nat (PAGE_SIZE_SHIFT - 2 - 3 + 1)) 0) as (cs & -> & Hl & Hcs); [lia|unfold MAX_SHIFT, MIN_SHIFT; lia|]. rewrite bind_Ok. apply returns_Ok.
  assert (forall i, class_pages ∅ i = ∅) as Ec by (intros i; apply omap_empty). assert (forall i, rest ∅ i X = X) as Er by (intros i; unfold rest; rewrite omap_empty; apply map_union_empty).
  split.
  - split; cbn; [unfold MAX_SHIFT, MIN_SHIFT; lia|by intros p ?%not_elem_of_empty|by rewrite dom_empty_L|]. intros i a Ha. destruct (Hcs i a Ha) as (C1 & C2 & C3). split; [done|].
    rewrite Ec, Er. by apply empty_class.
  - intros ptr s [H0 Hb]. destruct (decide (s <= MAX_CLASS)); [|done]. destruct Hb as (a & _ & p & xs & Hp & _). rewrite Ec, lookup_empty in Hp. done.
Qed.

(** ** Objects with headers, and the clients *)

(** An object in use: the block behind it, its size, and whether [malloc] put a
    header in front of it. *)
Record object := Obj { o_raw : Z; o_total : Z; o_size : Z; o_header : bool }.
Implicit Types (live : gmap Z object).

Record object_ok h ow X (ptr : Z) (o : object) : Prop := {
  ob_block : block h ow X (o_raw o) (o_total o);
  ob_raw : 0 < o_raw o;
  ob_total : o_total o <= bsize MAX_ORDER;
  ob_size : 0 < o_size o;
  ob_inside : o_raw o <= ptr /\ ptr + o_size o <= o_raw o + o_total o;
  ob_header : if o_header o then o_raw o + sizeof_malloc_header <= ptr /\
      headers h !! (ptr - sizeof_malloc_header) = Some (MHeader MAGIC (ptr - sizeof_malloc_header - o_raw o) (o_total o))
    else ptr = o_raw o /\ o_size o = o_total o;
}.

Definition heap_rep h live : Prop :=
  exists ow X, heap_ok h ow X /\ (forall ptr o, live !! ptr = Some o -> object_ok h ow X ptr o) /\
    forall p1 o1 p2 o2, live !! p1 = Some o1 -> live !! p2 = Some o2 -> o_raw o1 = o_raw o2 -> p1 = p2.

(** The first byte that an object uses, its header included. *)
Definition first_byte (ptr : Z) (o : object) : Z := if o_header o then ptr - sizeof_malloc_header else ptr.

(** The bytes of different objects, headers included, do not overlap. *)
Definition objects_apart live : Prop :=
  forall p1 o1 p2 o2, live !! p1 = Some o1 -> live !! p2 = Some o2 -> p1 <> p2 ->
    p1 + o_size o1 <= first_byte p2 o2 \/ p2 + o_size o2 <= first_byte p1 o1.

Lemma heap_rep_apart h live : heap_rep h live -> objects_apart live.
Proof using cfg_ok hhdm_aligned.
  intros (ow & X & H & Hl & Hr) p1 o1 p2 o2 H1 H2 Hne. destruct (Hl _ _ H1) as [A1 A2 A3 A4 A5 A6], (Hl _ _ H2) as [B1 B2 B3 B4 B5 B6].
  assert (o_raw o1 <> o_raw o2) as Hraw by (intros E; by apply Hne, (Hr p1 o1 p2 o2)).
  assert (o_raw o1 <= first_byte p1 o1 /\ o_raw o2 <= first_byte p2 o2) as [F1 F2] by (unfold first_byte; destruct (o_header o1), (o_header o2); lia).
  destruct (blocks_apart h ow X _ _ _ _ H A1 B1 Hraw (size_fits _ A3) (size_fits _ B3)); [left|right]; lia.
Qed.

(** A new object with the block that [kmalloc] returned. *)
Lemma new_object h ow X live total raw h' ow' X' ptr o hd :
  heap_ok h ow X -> (forall ptr o, live !! ptr = Some o -> object_ok h ow X ptr o) ->
  (forall p1 o1 p2 o2, live !! p1 = Some o1 -> live !! p2 = Some o2 -> o_raw o1 = o_raw o2 -> p1 = p2) ->
  new_block h ow X total raw h' ow' X' -> total <= bsize MAX_ORDER -> 0 < o_size o -> o_raw o = raw -> o_total o = total ->
  raw <= ptr /\ ptr + o_size o <= raw + total ->
  (if o_header o then raw + sizeof_malloc_header <= ptr /\ hd = <[ptr - sizeof_malloc_header := MHeader MAGIC (ptr - sizeof_malloc_header - raw) total]> (headers h')
   else ptr = raw /\ o_size o = total /\ hd = headers h') ->
  live !! ptr = None /\ heap_rep (KHeap (kmalloc_classes h') (kmem h') hd) (<[ptr := o]> live).
Proof using cfg_ok hhdm_aligned.
  intros H Hl Hraw (H' & Eh & Hfresh & Hnew & Hb & Hp & _ & _) Ht Hsz Er Et Hin Hhd.
  assert (forall ptr' o', live !! ptr' = Some o' -> block h' ow' X' (o_raw o') (o_total o')) as Hkeep by (intros; apply Hb; left; by eapply Hl).
  assert (forall ptr' o', live !! ptr' = Some o' -> o_raw o' <> raw) as Hdiff by (intros ptr' o' Hp' E; apply Hfresh; exists (o_total o'); rewrite <- E; by apply (Hl ptr' o')).
  assert (forall ptr' o', live !! ptr' = Some o' -> ptr' <> ptr) as Hptr.
  { intros ptr' o' Hp' ->. destruct (Hl ptr o' Hp') as [B1 B2 B3 B4 B5 _].
    destruct (blocks_apart h' ow' X' (o_raw o') (o_total o') raw total H' (Hkeep _ _ Hp') Hnew (Hdiff _ _ Hp')); [by apply size_fits..|lia|lia]. }
  split; [destruct (live !! ptr) as [o'|] eqn:E; [exfalso; by apply (Hptr ptr o')|done]|].
  exists ow', X'. split; [by destruct H'; split|]. split.
  - intros ptr' o' Hp'. apply lookup_insert_Some in Hp' as [[<- <-]|[Hne Hp']].
    + split; [by rewrite Er, Et|lia|lia|done|lia|]. destruct (o_header o); [|by rewrite Er, Et; destruct Hhd as (? & ? & _)]. destruct Hhd as [H1 ->]. split; [lia|]. cbn. by rewrite Er, Et, lookup_insert_eq.
    + destruct (Hl ptr' o' Hp') as [B1 B2 B3 B4 B5 B6]. split; [by eapply Hkeep|done|done|done|done|]. destruct (o_header o'); [|done]. destruct B6 as [B6 B7]. split; [done|]. cbn.
      destruct (o_header o); [destruct Hhd as [_ ->]; rewrite lookup_insert_ne by lia|destruct Hhd as (_ & _ & ->)]; by rewrite Eh.
  - intros p1 o1 p2 o2 H1 H2 E. apply lookup_insert_Some in H1 as [[<- <-]|[_ H1]], H2 as [[<- <-]|[_ H2]]; [done| | |by eapply Hraw].
    + exfalso. apply (Hdiff p2 o2 H2). congruence.
    + exfalso. apply (Hdiff p1 o1 H1). congruence.
Qed.

Lemma heap_kmalloc h live size :
  heap_rep h live -> 0 < size <= bsize MAX_ORDER ->
  nofault (kmalloc h size) (fun '(ptr, h') => live !! ptr = None /\ (16 | ptr) /\ heap_rep h' (<[ptr := Obj ptr size size false]> live)).
Proof using cfg_ok hhdm_aligned.
  intros (ow & X & H & Hl & Hr) Hs. eapply nofault_mono; [by apply kmalloc_ok|]. intros [ptr h'] (ow' & X' & N).
  destruct (new_object h ow X live size ptr h' ow' X' ptr (Obj ptr size size false) (headers h') H Hl Hr N) as [H1 H2]; cbn; try done; try lia. split; [done|]. split; [apply N|].
  by destruct h'.
Qed.

Lemma heap_malloc h live size :
  heap_rep h live -> 0 < size -> size + sizeof_malloc_header <= bsize MAX_ORDER ->
  nofault (malloc h size) (fun '(ptr, h') => live !! ptr = None /\ (16 | ptr) /\
    heap_rep h' (<[ptr := Obj (ptr - sizeof_malloc_header) (size + sizeof_malloc_header) size true]> live)).
Proof using cfg_ok hhdm_aligned.
  intros (ow & X & H & Hl & Hr) H0 Hs. pose proof max_sizes as Hm. unfold malloc, sizeof_malloc_header in *. rewrite (proj2 (Z.eqb_neq size 0)) by lia. rewrite u64_small by (unfold is_u64; lia).
  eapply nofault_bind; [apply (kmalloc_ok h ow X (size + 16) H); lia|]. intros [raw h'] (ow' & X' & N). pose proof N as (_ & _ & _ & _ & _ & Hp & Ha & _).
  rewrite (proj2 (Z.eqb_neq raw 0)) by lia. cbn [nofault].
  replace (raw + 16 - 16) with raw by lia.
  destruct (new_object h ow X live (size + 16) raw h' ow' X' (raw + 16) (Obj raw (size + 16) size true) (<[raw := MHeader MAGIC 0 (size + 16)]> (headers h')) H Hl Hr N) as [H1 H2];
    cbn; try done; try lia.
  { unfold sizeof_malloc_header. split; [lia|]. by replace (raw + 16 - 16 - raw) with 0 by lia; replace (raw + 16 - 16) with raw by lia. }
  split; [done|]. split; [|done]. apply Z.divide_add_r; [done|by exists 1].
Qed.

Lemma heap_malloc_aligned h live size align :
  let al := if align <? 16 then 16 else align in
  heap_rep h live -> 0 < size -> isPow2ull al = true -> size + sizeof_malloc_header + al - 1 <= bsize MAX_ORDER ->
  nofault (malloc_aligned h size align) (fun '(ptr, h') => live !! ptr = None /\ (al | ptr) /\
    exists raw, heap_rep h' (<[ptr := Obj raw (size + sizeof_malloc_header + al - 1) size true]> live)).
Proof using cfg_ok hhdm_aligned.
  intros al (ow & X & H & Hl & Hr) H0 Hpow Hs. pose proof max_sizes as Hm. set (total := size + sizeof_malloc_header + al - 1) in *.
  assert (16 <= al) as H16 by (unfold al; destruct (Z.ltb_spec align 16); lia).
  assert (0 < total <= bsize MAX_ORDER) as Ht by (unfold total, sizeof_malloc_header in *; lia). assert (al <= 2 ^ 32) as H32 by (unfold total, sizeof_malloc_header in *; lia).
  pose proof (kmalloc_ok h ow X total H Ht) as N. destruct (kmalloc h total) as [[raw h1]| | |] eqn:E; cbn [nofault] in N; try done.
  - destruct N as (ow' & X' & N). pose proof N as (_ & _ & _ & _ & _ & Hp & _ & He).
    destruct (malloc_aligned_run h h1 size align raw) as (ptr & E2 & Hd & B1 & B2); fold al; fold total; try done; try lia.
    fold al total in E2, Hd, B2. rewrite E2. cbn [nofault].
    destruct (new_object h ow X live total raw h1 ow' X' ptr (Obj raw total size true) (headers (put_header h1 (ptr - sizeof_malloc_header) (MHeader MAGIC (ptr - sizeof_malloc_header - raw) total))) H Hl Hr N) as [N1 N2];
      cbn; try done; try (unfold sizeof_malloc_header in *; lia). split; [done|]. split; [done|]. by exists raw.
  - unfold malloc_aligned. rewrite (proj2 (Z.eqb_neq size 0)) by lia. fold al. cbv zeta. rewrite (assert_true _ Hpow), bind_Ok, u64_small by (fold total; unfold is_u64; lia). fold total. by rewrite E.
Qed.

(** An object is given back. *)
Lemma object_gone h ow X live ptr o h' ow' X' :
  heap_ok h ow X -> (forall ptr o, live !! ptr = Some o -> object_ok h ow X ptr o) ->
  (forall p1 o1 p2 o2, live !! p1 = Some o1 -> live !! p2 = Some o2 -> o_raw o1 = o_raw o2 -> p1 = p2) ->
  live !! ptr = Some o -> block_gone h ow X (o_raw o) h' ow' X' -> heap_rep h' (delete ptr live).
Proof using Type.
  intros H Hl Hr Hp (H' & Eh & Hb). exists ow', X'. split; [done|]. split.
  - intros ptr' o' [Hne Hp']%lookup_delete_Some. destruct (Hl ptr' o' Hp') as [A1 A2 A3 A4 A5 A6]. split; try done.
    + apply Hb. split; [done|]. intros E. by apply Hne, (Hr ptr o ptr' o').
    + by rewrite Eh.
  - intros p1 o1 p2 o2 [_ H1]%lookup_delete_Some [_ H2]%lookup_delete_Some. by eapply Hr.
Qed.

Lemma heap_kfree h live ptr o :
  heap_rep h live -> live !! ptr = Some o -> o_header o = false ->
  returns (kfree h ptr (o_size o)) (fun h' => heap_rep h' (delete ptr live)).
Proof using cfg_ok hhdm_aligned.
  intros (ow & X & H & Hl & Hr) Hp Ho. destruct (Hl ptr o Hp) as [A1 A2 A3 A4 A5 A6]. rewrite Ho in A6. destruct A6 as [E1 E2].
  eapply returns_mono; [apply (kfree_ok h ow X); [done|by rewrite E1, E2|lia]|]. intros h' (ow' & X' & G). rewrite E1 in G. by eapply object_gone.
Qed.

Lemma heap_free h live ptr o :
  heap_rep h live -> live !! ptr = Some o -> o_header o = true -> returns (free h ptr) (fun h' => heap_rep h' (delete ptr live)).
Proof using cfg_ok hhdm_aligned.
  intros (ow & X & H & Hl & Hr) Hp Ho. destruct (Hl ptr o Hp) as [A1 A2 A3 A4 A5 A6]. rewrite Ho in A6. destruct A6 as [E1 E2].
  rewrite (free_run h ptr _ _) by (done || lia).
  eapply returns_mono; [by apply (kfree_ok h ow X)|]. intros h' (ow' & X' & G). by eapply object_gone.
Qed.

(** ** Clients

    A request of some client.  What is given back is something that was handed
    out, with the size it was asked for. *)
Inductive request :=
| Kmalloc (size : Z)
| Kfree (ptr : Z)
| Malloc (size : Z)
| Malloc_aligned (size align : Z)
| Free (ptr : Z).

Definition request_ok (r : request) : Prop :=
  match r with
  | Kmalloc size => 0 <= size <= bsize MAX_ORDER
  | Malloc size => 0 <= size /\ size + sizeof_malloc_header <= bsize MAX_ORDER
  | Malloc_aligned size align => 0 <= size /\ isPow2ull (Z.max align 16) = true /\ size + sizeof_malloc_header + Z.max align 16 - 1 <= bsize MAX_ORDER
  | Kfree _ | Free _ => True
  end.

(** What the clients know of the objects: their size, and which of the two
    ways they are given back. *)
Definition known live : gmap Z (Z * bool) := (fun o => (o_size o, o_header o)) <$> live.
Implicit Types (led : gmap Z (Z * bool)).

Definition first_byte_of (ptr : Z) (k : Z * bool) : Z := if k.2 then ptr - sizeof_malloc_header else ptr.
Definition known_apart led : Prop :=
  forall p1 k1 p2 k2, led !! p1 = Some k1 -> led !! p2 = Some k2 -> p1 <> p2 ->
    p1 + k1.1 <= first_byte_of p2 k2 \/ p2 + k2.1 <= first_byte_of p1 k1.

(** The heap serves its clients: what they know of it is true. *)
Definition clients_inv '(h, led) : Prop := exists live, heap_rep h live /\ known live = led.

Lemma served_new h h' live led ptr o :
  known live = led -> live !! ptr = None -> heap_rep h' (<[ptr := o]> live) ->
  led !! ptr = None /\ 0 < ptr /\ clients_inv (h', <[ptr := (o_size o, o_header o)]> led).
Proof using Type.
  intros <- Hn Hr. split; [unfold known; by rewrite lookup_fmap, Hn|]. pose proof Hr as (ow & X & _ & Hl & _).
  destruct (Hl ptr o (lookup_insert_eq _ _ _)) as [_ ? _ _ ? _]. split; [lia|]. exists (<[ptr := o]> live). split; [done|]. unfold known. by rewrite fmap_insert.
Qed.

Lemma served_kmalloc h led size :
  clients_inv (h, led) -> 0 < size <= bsize MAX_ORDER ->
  nofault (kmalloc h size) (fun '(p, h') => (16 | p) /\ led !! p = None /\ 0 < p /\ clients_inv (h', <[p := (size, false)]> led)).
Proof using cfg_ok hhdm_aligned.
  intros (live & Hr & E) Hs. eapply nofault_mono; [by apply (heap_kmalloc h live)|]. intros [p h'] (H1 & H2 & H3). split; [done|]. exact (served_new h h' live led p _ E H1 H3).
Qed.

Lemma served_malloc h led size :
  clients_inv (h, led) -> 0 < size -> size + sizeof_malloc_header <= bsize MAX_ORDER ->
  nofault (malloc h size) (fun '(p, h') => (16 | p) /\ led !! p = None /\ 0 < p /\ clients_inv (h', <[p := (size, true)]> led)).
Proof using cfg_ok hhdm_aligned.
  intros (live & Hr & E) H0 Hs. eapply nofault_mono; [by apply (heap_malloc h live)|]. intros [p h'] (H1 & H2 & H3). split; [done|]. exact (served_new h h' live led p _ E H1 H3).
Qed.

Lemma served_malloc_aligned h led size align :
  clients_inv (h, led) -> 0 < size -> isPow2ull (Z.max align 16) = true -> size + sizeof_malloc_header + Z.max align 16 - 1 <= bsize MAX_ORDER ->
  nofault (malloc_aligned h size align) (fun '(p, h') => (Z.max align 16 | p) /\ led !! p = None /\ 0 < p /\ clients_inv (h', <[p := (size, true)]> led)).
Proof using cfg_ok hhdm_aligned.
  intros (live & Hr & E) H0 Hp Hs. assert ((if align <? 16 then 16 else align) = Z.max align 16) as Eal by (destruct (Z.ltb_spec align 16); lia).
  pose proof (heap_malloc_aligned h live size align) as Hm. cbv zeta in Hm. rewrite Eal in Hm. eapply nofault_mono; [by apply Hm|].
  intros [p h'] (H1 & H2 & raw & H3). split; [done|]. exact (served_new h h' live led p _ E H1 H3).
Qed.

Lemma known_Some live ptr size hdr : known live !! ptr = Some (size, hdr) -> exists o, live !! ptr = Some o /\ o_size o = size /\ o_header o = hdr.
Proof using Type. unfold known. rewrite lookup_fmap_Some. intros (o & [= <- <-] & Ho). by exists o. Qed.

Lemma served_kfree h led ptr size :
  clients_inv (h, led) -> led !! ptr = Some (size, false) -> returns (kfree h ptr size) (fun h' => clients_inv (h', delete ptr led)).
Proof using cfg_ok hhdm_aligned.
  intros (live & Hr & <-) (o & Ho & <- & Eh)%known_Some. eapply returns_mono; [by apply (heap_kfree h live)|]. intros h' H'. exists (delete ptr live). split; [done|]. unfold known. by rewrite fmap_delete.
Qed.

Lemma served_free h led ptr size :
  clients_inv (h, led) -> led !! ptr = Some (size, true) -> returns (free h ptr) (fun h' => clients_inv (h', delete ptr led)).
Proof using cfg_ok hhdm_aligned.
  intros (live & Hr & <-) (o & Ho & _ & Eh)%known_Some. eapply returns_mono; [by apply (heap_free h live ptr o)|]. intros h' H'. exists (delete ptr live). split; [done|]. unfold known. by rewrite fmap_delete.
Qed.

(** A page of the page allocator is an object of one page. *)
Definition with_pages h (b : buddy_state) : kheap := KHeap (kmalloc_classes h) (with_buddy (kmem h) b) (headers h).

Lemma page_class : (PAGE_SIZE <=? MAX_CLASS) = false /\ size_order PAGE_SIZE = MIN_ORDER /\ 0 < PAGE_SIZE <= bsize MAX_ORDER.
Proof using cfg_ok hhdm_aligned.
  pose proof max_sizes as Hm. destruct page_pow as (_ & _ & _ & Hps). split; [apply Z.leb_gt; lia|]. split; [|lia]. unfold size_order.
  assert (ALIGN_UP PAGE_SIZE PAGE_SIZE = PAGE_SIZE) as ->.
  { rewrite PAGE_SIZE_eq in *. pose proof shift_range. apply ALIGN_UP_aligned; [lia|unfold is_u64; lia|done]. }
  rewrite PAGE_SIZE_eq, Z.shiftr_div_pow2, Z.div_same by (pose proof shift_range; (lia || (apply Z.pow_nonzero; lia))). done.
Qed.

(** The [memset] of a page that is in use. *)
Lemma owns_zero st O X p k v :
  owns R st O X -> X !! p = Some k ->
  is_Some (mem st !! TO_HHDM p) /\ owns R (BuddyState (orders st) (<[TO_HHDM p := v]> (mem st)) (frames st)) O X.
Proof using cfg_ok.
  intros (B & I & S & HB & HX) Hp. assert (B !! p = Some (k, BAlloc)) as Hb by (apply HB; by right). pose proof (page_mapped _ _ _ _ _ _ I Hb) as Hm.
  split; [done|]. exists B. split; [destruct I as [xss I]; exists xss; by eapply binv_mem|done].
Qed.

(** Where a page in use lies. *)
Lemma owns_page st O X p : owns R st O X -> X !! p = Some MIN_ORDER ->
  TO_HHDM p = hdr_of p /\ FROM_HHDM (TO_HHDM p) = p /\ page_ok p /\ exists r m, (r, m) ∈ R /\ r <= p /\ p + PAGE_SIZE <= r + bsize m.
Proof using cfg_ok hhdm_aligned.
  intros (B & [xss I] & _ & HB & _) Hp. assert (B !! p = Some (MIN_ORDER, BAlloc)) as Hq by (apply HB; by right). change MIN_ORDER with 0 in Hq.
  destruct (block_facts _ _ _ _ _ _ _ I Hq) as (_ & _ & Hal & Hm & Hq0). destruct (i_block _ _ _ _ I _ _ _ Hq) as (_ & _ & m & (r & Hr & Hlo & Hhi) & _).
  rewrite bsize_page in Hhi. destruct (r_shape _ _ (i_regions _ _ _ _ I) _ _ Hr) as (_ & _ & _ & Hend).
  split; [by apply TO_HHDM_mapped|]. split; [apply FROM_TO_HHDM; by apply hhdm_mapped_u64|]. split; [|exists r, m; split; [done|lia]].
  split; [done|]. split; [unfold page_aligned in Hal; by rewrite PAGE_SIZE_eq|lia].
Qed.

Lemma served_page h led :
  clients_inv (h, led) ->
  nofault (pmm_alloc_page (sp_pages (kmem h))) (fun '(p, b) => led !! TO_HHDM p = None /\ FROM_HHDM (TO_HHDM p) = p /\ TO_HHDM p = hdr_of p /\ page_ok p /\
    (exists r m, (r, m) ∈ R /\ r <= p /\ p + PAGE_SIZE <= r + bsize m) /\ clients_inv (with_pages h b, <[TO_HHDM p := (PAGE_SIZE, false)]> led)).
Proof using cfg_ok hhdm_aligned.
  intros (live & (ow & X & H & Hl & Hraw) & E). destruct page_class as (E1 & E2 & Hs). pose proof (kmalloc_large h ow X PAGE_SIZE H ltac:(apply Z.leb_gt in E1; lia) ltac:(lia)) as N.
  unfold kmalloc in N. rewrite (proj2 (Z.eqb_neq _ 0)), E1, E2 in N by lia. pose proof (owns_alloc R _ _ _ MIN_ORDER (ho_owns _ _ _ H) ltac:(done)) as Hown.
  unfold pmm_alloc_page. destruct (buddy_allocate _ _ _) as [[p b]| | |]; try done. rewrite !bind_Ok in *. cbn [nofault] in N, Hown. destruct Hown as (_ & _ & Hown), N as (ow' & X' & N).
  destruct (owns_page _ _ _ p Hown (lookup_insert_eq _ _ _)) as (F1 & F2 & F3 & F4).
  pose proof N as (H' & _ & _ & [_ Hb] & _). rewrite decide_False in Hb by (apply Z.leb_gt in E1; lia). destruct Hb as (q & Eq & Hq). rewrite E2 in Hq.
  assert (q = p) as -> by (unfold hdr_of in *; lia). destruct (owns_zero _ _ _ p MIN_ORDER (LNode 0 0) (ho_owns _ _ _ H') Hq) as [[v Hv] Hz]. cbn in Hv.
  rewrite (store_Ok _ _ _ _ Hv), bind_Ok. cbn [nofault].
  assert (new_block h ow X PAGE_SIZE (TO_HHDM p) (with_pages h (BuddyState (orders b) (<[TO_HHDM p := LNode 0 0]> (mem b)) (frames b))) ow' X') as N'.
  { destruct N as (_ & N). split; [|exact N]. apply (blocks_step _ ow' X' X' _ (headers h) H' (ho_apart _ _ _ H') Hz). }
  destruct (new_object h ow X live PAGE_SIZE (TO_HHDM p) _ ow' X' (TO_HHDM p) (Obj (TO_HHDM p) PAGE_SIZE PAGE_SIZE false) (headers h) H Hl Hraw N') as [N1 N2]; cbn; try done; try lia.
  destruct (served_new h _ live led (TO_HHDM p) _ E N1 N2) as (C1 & _ & C3). done.
Qed.

Lemma served_page_free h led ptr :
  clients_inv (h, led) -> led !! ptr = Some (PAGE_SIZE, false) ->
  returns (pmm_free_page (sp_pages (kmem h)) (FROM_HHDM ptr)) (fun b => clients_inv (with_pages h b, delete ptr led)).
Proof using cfg_ok hhdm_aligned.
  intros C Hp. destruct page_class as (E1 & E2 & Hs). pose proof (served_kfree h led ptr PAGE_SIZE C Hp) as (h' & E & C'). unfold kfree in E.
  destruct C as (live & (ow & X & _ & Hl & _) & <-). destruct (known_Some _ _ _ _ Hp) as (o & Ho & _). destruct (Hl _ _ Ho) as [_ ? _ _ ? _].
  rewrite (proj2 (Z.eqb_neq _ 0)), E1, E2 in E by lia. unfold pmm_free_page. destruct (buddy_free _ _ _) as [b| | |]; try done. rewrite bind_Ok in E. injection E as <-. by apply returns_Ok.
Qed.

(** An object of no bytes is the null pointer.  A pointer in use or of the
    wrong alignment must not be handed out, which counts as a fault. *)
Definition hand_out h led (ptr size align : Z) (hdr : bool) : res (kheap * gmap Z (Z * bool)) :=
  if size =? 0 then (if ptr =? 0 then Ok (h, led) else Fault)
  else if bool_decide (led !! ptr = None /\ ptr mod align = 0 /\ ptr <> 0) then Ok (h, <[ptr := (size, hdr)]> led)
  else Fault.

Definition serve '(h, led) (r : request) : res (kheap * gmap Z (Z * bool)) :=
  match r with
  | Kmalloc size => '(p, h) ← kmalloc h size; hand_out h led p size 16 false
  | Malloc size => '(p, h) ← malloc h size; hand_out h led p size 16 true
  | Malloc_aligned size align => '(p, h) ← malloc_aligned h size align; hand_out h led p size (Z.max align 16) true
  | Kfree ptr =>
      match led !! ptr with
      | Some (size, false) => h ← kfree h ptr size; Ok (h, delete ptr led)
      | _ => Ok (h, led)
      end
  | Free ptr =>
      match led !! ptr with
      | Some (_, true) => h ← free h ptr; Ok (h, delete ptr led)
      | _ => Ok (h, led)
      end
  end.

Fixpoint serve_all (s : kheap * gmap Z (Z * bool)) (rs : list request) : res (kheap * gmap Z (Z * bool)) :=
  match rs with [] => Ok s | r :: rs => s ← serve s r; serve_all s rs end.

Lemma hand_out_ok h led ptr size align hdr :
  0 < align -> (align | ptr) -> led !! ptr = None -> 0 < ptr -> 0 < size -> clients_inv (h, <[ptr := (size, hdr)]> led) ->
  nofault (hand_out h led ptr size align hdr) clients_inv.
Proof using Type.
  intros Ha Hd Hn Hp Hs C. unfold hand_out. rewrite (proj2 (Z.eqb_neq _ 0)) by lia. rewrite bool_decide_true; [done|]. split; [done|]. split; [by apply Z.mod_divide; [lia|]|lia].
Qed.

Lemma serve_ok s r : clients_inv s -> request_ok r -> nofault (serve s r) clients_inv.
Proof using cfg_ok hhdm_aligned.
  destruct s as [h led]. intros C Hok. destruct r as [size|ptr|size|size align|ptr]; cbn [serve request_ok] in *.
  - destruct (decide (size = 0)) as [->|Hne]; [done|]. eapply nofault_bind; [apply (served_kmalloc h led size C); lia|].
    intros [p h'] (H1 & H2 & H3 & H4). apply hand_out_ok; (done || lia).
  - destruct (led !! ptr) as [[size [|]]|] eqn:E; [done| |done]. eapply nofault_bind; [by apply returns_nofault, (served_kfree h led ptr size)|]. by intros h' H'.
  - destruct (decide (size = 0)) as [->|Hne]; [done|]. eapply nofault_bind; [apply (served_malloc h led size C); lia|].
    intros [p h'] (H1 & H2 & H3 & H4). apply hand_out_ok; (done || lia).
  - destruct (decide (size = 0)) as [->|Hne]; [done|]. destruct Hok as (H0 & Hp & Hs). eapply nofault_bind; [apply (served_malloc_aligned h led size align C); (done || lia)|].
    intros [p h'] (H1 & H2 & H3 & H4). apply hand_out_ok; (done || lia).
  - destruct (led !! ptr) as [[size [|]]|] eqn:E; [|done|done]. eapply nofault_bind; [by apply returns_nofault, (served_free h led ptr size)|]. by intros h' H'.
Qed.

Lemma serve_all_ok rs : forall s, clients_inv s -> Forall request_ok rs -> nofault (serve_all s rs) clients_inv.
Proof using cfg_ok hhdm_aligned.
  induction rs as [|r rs IH]; intros s Hs Hrs; cbn [serve_all]; [done|]. apply Forall_cons in Hrs as [H1 H2].
  eapply nofault_bind; [by apply serve_ok|]. intros s' Hs'. by apply IH.
Qed.

Lemma served_apart h led : clients_inv (h, led) -> known_apart led.
Proof using cfg_ok hhdm_aligned.
  intros (live & Hr & <-) p1 k1 p2 k2 H1 H2. unfold known in *. rewrite lookup_fmap_Some in H1, H2. destruct H1 as (o1 & <- & H1), H2 as (o2 & <- & H2).
  by apply (heap_rep_apart h live Hr p1 o1 p2 o2).
Qed.
End Heap.

(** ** The specification *)


(** ** A run on the boot memory *)
Module HeapDemo.
Definition requests : list request := [Kmalloc 179; Malloc 40; Malloc_aligned 100 64; Kmalloc 5000; Malloc 0; Kmalloc 8].

Lemma heap_start : exists R, owns (cfg := x86_64_config) R (sp_pages SpallocSpec.Demo.m0) ∅ ∅.
Proof.
  destruct BuddySpec.Demo.ready as (R & B & [I1 I2 I3 I4] & _). exists R, B. split; [done|]. split; [done|]. split; [|by intros q ?%not_elem_of_empty].
  intros q j. rewrite <- I4. split; [by right|]. by intros [[?%not_elem_of_empty _]|?].
Qed.

(** The run: six requests leave five objects. *)
Lemma heap_runs : match h ← malloc_init (cfg := x86_64_config) SpallocSpec.Demo.m0; serve_all (cfg := x86_64_config) (h, ∅) requests with
  | Ok (_, led) => Nat.eqb (size led) 5 | _ => false end = true.
Proof. vm_compute. reflexivity. Qed.
End HeapDemo.

