(* ===== verification/Reclaim.v ===== *)
(** * mem/reclaim.c: boot memory becomes free memory

    Once all processors run, the memory the boot loader and the firmware left
    behind goes to the page allocator.  The memory map itself lies in it, so the
    ranges are first copied into objects of the kernel heap, on a stack, and
    then added one by one while their objects are given back. *)

From S2P Require Import Prelude LList Memmap Pfndb Buddy BuddyInv BuddySpec PagingPmm PageAlloc Spalloc SpallocSpec Malloc HeapSpec.
#[local] Open Scope Z_scope.

(** ** The code *)

(** [boot_range_t] is a stack node and these two words; the nodes and the words
    of all of them are kept apart, by the address of the object. *)
Record boot_range := BootRange { rbase : Z; rlength : Z }.
Definition sizeof_boot_range : Z := 24.

Record reclaim_state := Reclaim { rheap : kheap; rnodes : Stack.snodes; rranges : gmap Z boot_range }.

Section Code.
Context `{cfg : kconfig}.

(** The definition of every architecture but x86_64. *)
Definition arch_reclaim_ap_memory (s : reclaim_state) : res reclaim_state := Ok s.

Definition reclaimable (e : memmap_entry) : bool :=
  bool_decide (mtype e = LIMINE_MEMMAP_BOOTLOADER_RECLAIMABLE \/ mtype e = LIMINE_MEMMAP_ACPI_RECLAIMABLE) &&
  negb (u64 (base e + length_ e) <=? 0x100000).

(** The first loop: [ranges] is the head of the stack. *)
Fixpoint collect_ranges (entries : list memmap_entry) (ranges : Z) (s : reclaim_state) : res (Z * reclaim_state) :=
  match entries with
  | [] => Ok (ranges, s)
  | e :: entries =>
      if negb (reclaimable e) then collect_ranges entries ranges s
      else
        '(range, h) ← malloc (rheap s) sizeof_boot_range;
        if range =? 0 then Fault
        else
          '(ranges, nodes) ← Stack.stack_push ranges (<[range := 0]> (rnodes s)) range;
          collect_ranges entries ranges
            (Reclaim h nodes (<[range := BootRange (base e) (length_ e)]> (rranges s)))
  end.

(** The second loop.  An object that was given back is no range any more. *)
Fixpoint release_ranges (fuel : nat) (ranges : Z) (s : reclaim_state) : res reclaim_state :=
  match fuel with
  | O => NoFuel
  | S fuel =>
      '(node, ranges, nodes) ← Stack.stack_pop ranges (rnodes s);
      if node =? 0 then Ok s
      else
        range ← load (rranges s) node;
        b ← buddy_add_range (sp_pages (kmem (rheap s))) (rbase range) (rlength range);
        h ← free (with_pages (rheap s) b) node;
        release_ranges fuel ranges (Reclaim h (delete node nodes) (delete node (rranges s)))
  end.

(** One turn per range on the stack, and one to leave. *)
Definition reclaim_boot_memory (entries : list memmap_entry) (h : kheap) : res kheap :=
  s ← arch_reclaim_ap_memory (Reclaim h ∅ ∅);
  '(ranges, s) ← collect_ranges entries 0 s;
  s ← release_ranges (S (size (rnodes s))) ranges s;
  Ok (rheap s).
End Code.

(** ** No cell appears or disappears *)

(** Partial correctness, for facts that hold of every run. *)
Definition when_ok {A} (r : res A) (Q : A -> Prop) : Prop := forall a, r = Ok a -> Q a.

Lemma when_ok_bind {A B} (r : res A) (k : A -> res B) P Q :
  when_ok r P -> (forall a, P a -> when_ok (k a) Q) -> when_ok (r ≫= k) Q.
Proof. intros H1 H2 b (a & E & E')%bind_Ok_inv. by apply (H2 a); [apply H1|]. Qed.

Lemma when_ok_pure {A B} (r : res A) (k : A -> res B) Q : (forall a, when_ok (k a) Q) -> when_ok (r ≫= k) Q.
Proof. intros H. by apply (when_ok_bind _ _ (fun _ => True)). Qed.

Lemma when_ok_Ok {A} (a : A) (Q : A -> Prop) : Q a -> when_ok (Ok a) Q.
Proof. by intros H b [= <-]. Qed.

Lemma when_ok_mono {A} (r : res A) (P Q : A -> Prop) : when_ok r P -> (forall a, P a -> Q a) -> when_ok r Q.
Proof. unfold when_ok. eauto. Qed.

Lemma nofault_and {A} (r : res A) P Q : nofault r P -> when_ok r Q -> nofault r (fun a => P a /\ Q a).
Proof. destruct r; cbn; [|done..]. intros Ha H. split; [done|by apply H]. Qed.

Lemma returns_and {A} (r : res A) P Q : returns r P -> when_ok r Q -> returns r (fun a => P a /\ Q a).
Proof. intros (a & E & Ha) H. exists a. split; [done|]. split; [done|by apply H]. Qed.

Lemma store_cells {A} (h : gmap Z A) p a : when_ok (store h p a) (fun h' => dom h' = dom h).
Proof.
  unfold store. intros h'. destruct (h !! p) eqn:E; [|done]. intros [= <-]. apply elem_of_dom_2 in E. rewrite dom_insert_L. set_solver.
Qed.

Lemma set_next_cells h p v : when_ok (set_next h p v) (fun h' => dom h' = dom h).
Proof. apply when_ok_pure. intros n. apply store_cells. Qed.
Lemma set_prev_cells h p v : when_ok (set_prev h p v) (fun h' => dom h' = dom h).
Proof. apply when_ok_pure. intros n. apply store_cells. Qed.

(** A run of the setters. *)
Ltac cells :=
  repeat (cbv beta iota zeta; lazymatch goal with
    | |- when_ok (Ok _) _ => apply when_ok_Ok; congruence
    | |- when_ok (set_next _ _ _ ≫= _) _ => eapply when_ok_bind; [apply set_next_cells|intros ? ?]
    | |- when_ok (set_prev _ _ _ ≫= _) _ => eapply when_ok_bind; [apply set_prev_cells|intros ? ?]
    | |- when_ok (if ?b then _ else _) _ => destruct b
    | |- when_ok ((if ?b then _ else _) ≫= _) _ => destruct b; rewrite ?bind_Ok
    | |- when_ok (load _ _ ≫= _) _ => apply when_ok_pure; intros ?
    end).

Lemma node_delete_cells l h node : when_ok (llist_node_delete l h node) (fun '(_, h') => dom h' = dom h).
Proof. unfold llist_node_delete. cells. Qed.
Lemma push_cells l h node : when_ok (llist_push l h node) (fun '(_, h') => dom h' = dom h).
Proof. unfold llist_push, llist_push_front, llist_initial_node, llist_node_prepend. cells. Qed.
Lemma pop_cells l h : when_ok (llist_pop l h) (fun '(_, _, h') => dom h' = dom h).
Proof.
  unfold llist_pop, llist_pop_front. cbv zeta. case_match; [by apply when_ok_Ok|]. eapply when_ok_bind; [apply node_delete_cells|].
  intros [l' h'] E. by apply when_ok_Ok.
Qed.

Section Cells.
Context `{cfg : kconfig}.

Definition same_cells (st st' : buddy_state) : Prop := dom (frames st') = dom (frames st) /\ dom (mem st') = dom (mem st).

Lemma same_cells_refl st : same_cells st st.
Proof using Type. done. Qed.
Lemma same_cells_trans st1 st2 st3 : same_cells st1 st2 -> same_cells st2 st3 -> same_cells st1 st3.
Proof using Type. intros [] []. split; congruence. Qed.

Lemma update_entry_cells st p f : when_ok (update_entry st p f) (same_cells st).
Proof using Type.
  apply when_ok_pure. intros pg. eapply when_ok_bind; [apply store_cells|]. intros db E. by apply when_ok_Ok.
Qed.
Lemma push_order_cells st k node : when_ok (push_order st k node) (same_cells st).
Proof using Type.
  unfold push_order, arr_push. eapply (when_ok_bind _ _ (fun '(_, h') => dom h' = dom (mem st))); [|by intros [ls h'] E; apply when_ok_Ok].
  apply when_ok_pure. intros l. eapply when_ok_bind; [apply push_cells|]. intros [l' h'] E. by apply when_ok_Ok.
Qed.
Lemma pop_order_cells st k : when_ok (pop_order st k) (fun '(_, st') => same_cells st st').
Proof using Type.
  unfold pop_order, arr_pop. eapply (when_ok_bind _ _ (fun '(_, _, h') => dom h' = dom (mem st))); [|by intros [[n ls] h'] E; apply when_ok_Ok].
  apply when_ok_pure. intros l. eapply when_ok_bind; [apply pop_cells|]. intros [[n l'] h'] E. by apply when_ok_Ok.
Qed.
Lemma delete_order_cells st k node : when_ok (delete_order st k node) (same_cells st).
Proof using Type.
  unfold delete_order, arr_delete. eapply (when_ok_bind _ _ (fun '(_, h') => dom h' = dom (mem st))); [|by intros [ls h'] E; apply when_ok_Ok].
  apply when_ok_pure. intros l. eapply when_ok_bind; [apply node_delete_cells|]. intros [l' h'] E. by apply when_ok_Ok.
Qed.

(** A run of the allocator's own steps; [tac] closes the loops in it. *)
Ltac buddy_cells tac :=
  repeat (cbv beta iota zeta; lazymatch goal with
    | |- when_ok (Ok _) _ => apply when_ok_Ok; eauto using same_cells_refl, same_cells_trans
    | |- when_ok Panic _ => done
    | |- when_ok NoFuel _ => done
    | |- when_ok (update_entry _ _ _ ≫= _) _ => eapply when_ok_bind; [apply update_entry_cells|intros ? ?]
    | |- when_ok (push_order _ _ _ ≫= _) _ => eapply when_ok_bind; [apply push_order_cells|intros ? ?]
    | |- when_ok (delete_order _ _ _ ≫= _) _ => eapply when_ok_bind; [apply delete_order_cells|intros ? ?]
    | |- when_ok (pop_order _ _ ≫= _) _ => eapply when_ok_bind; [apply pop_order_cells|intros [? ?] ?]
    | |- when_ok (push_order _ _ _) _ => eapply when_ok_mono; [apply push_order_cells|intros ? ?; eauto using same_cells_trans]
    | |- when_ok (if ?b then _ else _) _ => destruct b
    | |- when_ok (load _ _ ≫= _) _ => apply when_ok_pure; intros ?
    | |- when_ok (assert _ ≫= _) _ => apply when_ok_pure; intros ?
    | |- when_ok (dbg_assert _ ≫= _) _ => apply when_ok_pure; intros ?
    | |- _ => tac
    end).

Lemma find_larger_cells fuel : forall st k, when_ok (find_larger fuel st k) (fun '(_, _, st') => same_cells st st').
Proof using Type.
  induction fuel as [|fuel IH]; intros st k; cbn [find_larger]; [done|].
  buddy_cells ltac:(eapply when_ok_mono; [apply IH|intros [[? ?] ?] ?; eauto using same_cells_trans]).
Qed.
Lemma split_down_cells fuel : forall st a m c o, when_ok (split_down fuel st a m c o) (fun '(_, st') => same_cells st st').
Proof using Type.
  induction fuel as [|fuel IH]; intros st a m c o; cbn [split_down]; [done|].
  buddy_cells ltac:(eapply when_ok_mono; [apply IH|intros [? ?] ?; eauto 8 using same_cells_trans]).
Qed.
Lemma coalesce_cells fuel : forall st p c, when_ok (coalesce fuel st p c) (fun '(_, _, st') => same_cells st st').
Proof using Type.
  induction fuel as [|fuel IH]; intros st p c; cbn [coalesce]; [done|].
  buddy_cells ltac:(eapply when_ok_mono; [apply IH|intros [[? ?] ?] ?; eauto 8 using same_cells_trans]).
Qed.

Lemma buddy_allocate_cells st k f : when_ok (buddy_allocate st k f) (fun '(_, st') => same_cells st st').
Proof using Type.
  unfold buddy_allocate. buddy_cells ltac:(eapply when_ok_bind; [first [apply find_larger_cells|apply split_down_cells]|intros [[? ?] ?] ? || intros [? ?] ?]).
Qed.
Lemma buddy_free_cells st p k : when_ok (buddy_free st p k) (same_cells st).
Proof using Type. unfold buddy_free. eapply when_ok_bind; [apply coalesce_cells|]. intros [[? ?] ?] ?. buddy_cells idtac. Qed.

Lemma add_range_loop_cells fuel : forall st a e, when_ok (add_range_loop fuel st a e) (same_cells st).
Proof using Type.
  induction fuel as [|fuel IH]; intros st a e; cbn [add_range_loop]; [done|]. destruct (a <? e); [|by apply when_ok_Ok]. apply when_ok_pure. intros _. cbv zeta.
  eapply (when_ok_bind _ _ (same_cells st)); [unfold buddy_add_block; buddy_cells idtac|].
  intros st' E. eapply when_ok_mono; [apply IH|]. eauto using same_cells_trans.
Qed.
Lemma buddy_add_range_cells st s l : when_ok (buddy_add_range st s l) (same_cells st).
Proof using Type. unfold buddy_add_range, buddy_add_range_nlock. cbv zeta. case_match; [by apply when_ok_Ok|apply add_range_loop_cells]. Qed.
End Cells.

(** ** What the heap does to the page allocator *)
Section HeapPages.
Context `{cfg : kconfig}.

Section Objects.
Context {P : Type} `{PA : !page_alloc P}.
Implicit Types (a : spalloc_allocator) (m : spalloc_mem P).

Lemma spalloc_malloc_pages a m :
  when_ok (spalloc_malloc a m) (fun '(_, _, m') => sp_pages m' = sp_pages m \/ exists p, pa_alloc (sp_pages m) = Ok (p, sp_pages m')).
Proof using Type.
  unfold spalloc_malloc. apply when_ok_pure. intros [[node pl] links]. cbv zeta.
  eapply (when_ok_bind _ _ (fun '(_, m1) => sp_pages m1 = sp_pages m \/ exists p, pa_alloc (sp_pages m) = Ok (p, sp_pages m1))).
  - destruct (negb _); [apply when_ok_pure; intros h; apply when_ok_pure; intros []; apply when_ok_Ok; by left|].
    intros [hdr m1] ([p pages] & E & E')%bind_Ok_inv. cbn [sp_pages] in E. apply bind_Ok_inv in E' as ([hd objs] & _ & [= <- <-]). right. by exists p.
  - intros [hdr m1] H. apply when_ok_pure. intros h. apply when_ok_pure. intros [[obj hd] objs]. apply when_ok_pure. intros hdrs.
    apply when_ok_pure. intros [pl' links']. by apply when_ok_Ok.
Qed.

Lemma spalloc_free_pages a m obj :
  when_ok (spalloc_free a m obj) (fun '(_, m') => sp_pages m' = sp_pages m \/ pa_free (sp_pages m) (FROM_HHDM (SPALLOC_PAGE_OF obj)) = Ok (sp_pages m')).
Proof using Type.
  unfold spalloc_free. cbv zeta. apply when_ok_pure. intros h. apply when_ok_pure. intros _. apply when_ok_pure. intros [hd objs]. apply when_ok_pure. intros hdrs.
  cbn [sp_pages sp_links]. destruct (_ =? 1); [|destruct (_ =? _)].
  - apply when_ok_pure. intros [pl links]. apply when_ok_Ok. by left.
  - apply when_ok_pure. intros [pl links]. intros [a' m'] (pages & E & [= <- <-])%bind_Ok_inv. by right.
  - apply when_ok_Ok. by left.
Qed.
End Objects.

Abbreviation pages_of h := (sp_pages (kmem h)).

Lemma pa_alloc_buddy (st : buddy_state) : pa_alloc st = buddy_allocate st MIN_ORDER ALLOC_FLAG_NOFAIL.
Proof using Type. unfold pa_alloc, buddy_page_alloc. reflexivity. Qed.
Lemma pa_free_buddy (st : buddy_state) p : pa_free st p = buddy_free st p MIN_ORDER.
Proof using Type. unfold pa_free, buddy_page_alloc. reflexivity. Qed.

Lemma kmalloc_cells h size : when_ok (kmalloc h size) (fun '(_, h') => same_cells (pages_of h) (pages_of h')).
Proof using Type.
  unfold kmalloc. destruct (size =? 0); [by apply when_ok_Ok|]. destruct (size <=? MAX_CLASS).
  - apply when_ok_pure. intros a. eapply when_ok_bind; [apply spalloc_malloc_pages|]. intros [[obj a'] m'] H. apply when_ok_Ok. cbn [kmem].
    destruct H as [->|[p E]]; [done|]. rewrite pa_alloc_buddy in E. exact (buddy_allocate_cells _ _ _ _ E).
  - eapply when_ok_bind; [apply buddy_allocate_cells|]. intros [p b] E. by apply when_ok_Ok.
Qed.

Lemma malloc_cells h size : when_ok (malloc h size) (fun '(_, h') => same_cells (pages_of h) (pages_of h')).
Proof using Type.
  unfold malloc. destruct (size =? 0); [by apply when_ok_Ok|]. eapply when_ok_bind; [apply kmalloc_cells|]. intros [hdr h'] E. case_match; by apply when_ok_Ok.
Qed.

Lemma kfree_cells h ptr size : when_ok (kfree h ptr size) (fun h' => same_cells (pages_of h) (pages_of h')).
Proof using Type.
  unfold kfree. destruct (ptr =? 0); [by apply when_ok_Ok|]. destruct (size <=? MAX_CLASS).
  - apply when_ok_pure. intros a. eapply when_ok_bind; [apply spalloc_free_pages|]. intros [a' m'] H. apply when_ok_Ok. cbn [kmem].
    destruct H as [->|E]; [done|]. rewrite pa_free_buddy in E. exact (buddy_free_cells _ _ _ _ E).
  - eapply when_ok_bind; [apply buddy_free_cells|]. intros b E. by apply when_ok_Ok.
Qed.

Lemma free_cells h ptr : when_ok (free h ptr) (fun h' => same_cells (pages_of h) (pages_of h')).
Proof using Type.
  unfold free. destruct (ptr =? 0); [by apply when_ok_Ok|]. cbv zeta. apply when_ok_pure. intros hd. apply when_ok_pure. intros _. apply kfree_cells.
Qed.
End HeapPages.

(** ** Free memory *)
Section FreeMemory.
Context `{cfg_ok : kconfig_ok}.
Implicit Types (R : regions) (B : blocks) (st : buddy_state).

(** [x] lies in a block that is on a free list. *)
Definition free_memory st (x : Z) : Prop :=
  exists k l xs p, orders st !! k = Some l /\ llist_rep (mem st) l xs /\ TO_HHDM p ∈ xs /\ is_u64 p /\ in_block p (Z.of_nat k) x.

Lemma lseg_unique h xs : forall ys pp,
  lseg h pp xs 0 -> lseg h pp ys 0 -> first_or 0 xs = first_or 0 ys -> 0 ∉ xs -> 0 ∉ ys -> xs = ys.
Proof using Type.
  induction xs as [|x xs IH]; intros [|y ys] pp; cbn; [done|intros _ _ <- _ []%not_elem_of_cons; done|intros _ _ -> []%not_elem_of_cons; done|].
  intros [Hx Hxs] [Hy Hys] <- [_ Nx]%not_elem_of_cons [_ Ny]%not_elem_of_cons. rewrite Hx in Hy. injection Hy as E. f_equal. by eapply IH.
Qed.

Lemma llist_rep_unique h l xs ys : llist_rep h l xs -> llist_rep h l ys -> xs = ys.
Proof using Type. intros [] []. eapply lseg_unique; (done || congruence). Qed.

Lemma free_memory_covers R st B x : buddy_inv R st B -> free_memory st x <-> covers B BFree x.
Proof using cfg_ok.
  intros [xss I]. split.
  - intros (k & l & xs & p & Hl & Hr & Hp & Hu & Hx). destruct (lookup_lt_is_Some_2 xss k) as [ys Hy].
    { rewrite <- (Forall2_length _ _ _ (ls_each _ _ _ (i_lists _ _ _ _ I))). by eapply lookup_lt_Some. }
    destruct (lists_rep_lookup _ _ _ _ _ (i_lists _ _ _ _ I) Hy) as (l' & Hl' & Hr'). rewrite Hl in Hl'. injection Hl' as <-.
    rewrite (llist_rep_unique _ _ _ _ Hr Hr') in Hp. apply (i_free _ _ _ _ I k ys) in Hp as (q & E & Hq); [|done]. exists p, (Z.of_nat k). split; [|done].
    destruct (block_facts _ _ _ _ _ _ _ I Hq) as (_ & _ & _ & Hm & Hq0). rewrite (TO_HHDM_inj p q Hu (hhdm_mapped_u64 _ Hm) E). done.
  - intros (p & k & Hp & Hx). destruct (block_facts _ _ _ _ _ _ _ I Hp) as (Hk & _ & _ & Hm & Hp0).
    destruct (lookup_lt_is_Some_2 xss (Z.to_nat k)) as [xs Hxs]; [rewrite (i_len _ _ _ _ I); unfold MAX_ORDER in Hk; lia|].
    destruct (lists_rep_lookup _ _ _ _ _ (i_lists _ _ _ _ I) Hxs) as (l & Hl & Hr). exists (Z.to_nat k), l, xs, p. rewrite Z2Nat.id by lia.
    split; [done|]. split; [done|]. split; [|split; [by apply hhdm_mapped_u64|done]]. apply (i_free _ _ _ _ I (Z.to_nat k) xs); [done|]. exists p. rewrite Z2Nat.id by lia. done.
Qed.

(** Giving a block back leaves free memory free. *)
Lemma buddy_free_memory R st O X p k st' x :
  owns R st O X -> (p ∈ O /\ k = 0) \/ X !! p = Some k -> buddy_free st p k = Ok st' -> free_memory st x -> free_memory st' x.
Proof using cfg_ok.
  intros (B & I & S & HB & _) Hp E Hx. destruct (free_ok R st B p k I S) as (st1 & B1 & E1 & I1 & P); [by apply HB|].
  rewrite E in E1. injection E1 as <-. apply (free_memory_covers R st' B1 x I1), (fr_free _ _ _ _ _ P). left. by apply (free_memory_covers R st B x I).
Qed.

(** The pages of a range. *)
Definition in_range (r : boot_range) (x : Z) : Prop := ALIGN_UP (rbase r) PAGE_SIZE <= x < ALIGN_DOWN (rbase r + rlength r) PAGE_SIZE.

(** A range the allocator can take: not at address 0, within the direct map,
    with entries in the page frame database, and none of the memory it has. *)
Record range_ok R st (r : boot_range) : Prop := {
  ro_base : 0 < rbase r;
  ro_length : 0 <= rlength r;
  ro_end : rbase r + rlength r + PAGE_SIZE <= 2 ^ 64;
  ro_direct : ALIGN_DOWN (rbase r + rlength r) PAGE_SIZE <= 2 ^ 64 - hhdm_offset;
  ro_mapped : range_mapped st (ALIGN_UP (rbase r) PAGE_SIZE) (ALIGN_DOWN (rbase r + rlength r) PAGE_SIZE);
  ro_new : forall x, in_range r x -> ~ in_regions R x;
}.

Lemma range_ok_cells R st st' r : range_ok R st r -> same_cells st st' -> range_ok R st' r.
Proof using Type. intros [] []. split; try done. eapply range_mapped_dom; (done || lia). Qed.

Lemma range_avoids R st B r : buddy_inv R st B -> range_ok R st r ->
  ALIGN_UP (rbase r) PAGE_SIZE < ALIGN_DOWN (rbase r + rlength r) PAGE_SIZE ->
  regions_avoid R (ALIGN_UP (rbase r) PAGE_SIZE) (ALIGN_DOWN (rbase r + rlength r) PAGE_SIZE).
Proof using cfg_ok.
  intros [xss I] H Hlt b m Hb. destruct (r_shape _ _ (i_regions _ _ _ _ I) b m Hb) as (Hm & _). pose proof (bsize_pos m (proj1 Hm)).
  pose proof (ro_new _ _ _ H (Z.max b (ALIGN_UP (rbase r) PAGE_SIZE))) as Hn. unfold in_range, in_regions, in_block in Hn.
  destruct (decide (b + bsize m <= ALIGN_UP (rbase r) PAGE_SIZE)); [by left|]. destruct (decide (ALIGN_DOWN (rbase r + rlength r) PAGE_SIZE <= b)); [by right|].
  exfalso. apply Hn; [lia|]. exists b, m. split; [done|lia].
Qed.
End FreeMemory.

Section Clients.
Context `{cfg_ok : kconfig_ok}.
Hypothesis hhdm_aligned : (PAGE_SIZE | hhdm_offset).
Implicit Types (R : regions) (h : kheap) (led : gmap Z (Z * bool)).

(** The heap over a page allocator that has got more memory. *)
Lemma heap_ok_regions R R' h ow X st' :
  heap_ok R h ow X -> owns R' st' (dom ow) X -> heap_ok R' (with_pages h st') ow X.
Proof using cfg_ok.
  intros H Ho. split; cbn; [apply H|apply H|done|]. intros j b Hb. destruct (ho_class _ _ _ _ H j b Hb) as [Sj Ij]. split; [done|].
  eapply (sp_ok_frame (shared R (rest ow j X)) (shared R' _) b (kmem h) _ _ ∅ Ij); [by split| | |].
  - by intros p ?%not_elem_of_empty.
  - intros p _. apply not_elem_of_empty.
  - cbn. apply (owns_class R' _ _ j X); [apply H|done].
Qed.

(** A range is added: its pages become free, and nothing else changes. *)
Lemma served_add_range R h led r :
  clients_inv R (h, led) -> range_ok R (sp_pages (kmem h)) r ->
  exists b R', buddy_add_range (sp_pages (kmem h)) (rbase r) (rlength r) = Ok b /\ clients_inv R' (with_pages h b, led) /\
    (forall x, in_regions R' x <-> in_regions R x \/ in_range r x) /\
    (forall x, free_memory b x <-> free_memory (sp_pages (kmem h)) x \/ in_range r x).
Proof using cfg_ok.
  intros (live & (ow & X & H & Hl & Hraw) & E) Hr. destruct (ho_owns _ _ _ _ H) as (B & I & S & HB & HD). pose proof Hr as [R1 R2 R3 R4 R5 R6].
  destruct page_pow as (_ & _ & _ & Hps).
  destruct (add_range_ok R (sp_pages (kmem h)) B (rbase r) (rlength r)) as (b & R' & B' & E' & I' & [P1 P2 P3 P4 P5]); try done; try (unfold is_u64; lia).
  { by eapply range_avoids. }
  exists b, R'. split; [done|]. split.
  - exists live. split; [|done]. exists ow, X. split; [|split; [|done]].
    + eapply heap_ok_regions; [done|]. exists B'. split; [done|]. split; [by apply P3|]. split; [|done]. intros q j. by rewrite (P2 q j), HB.
    + intros ptr o Ho. destruct (Hl ptr o Ho). by split.
  - split; [done|]. intros x. by rewrite (free_memory_covers R' b B' x I'), (free_memory_covers R (sp_pages (kmem h)) B x I), P1.
Qed.

Lemma kfree_memory R h ow X ptr size h' x :
  heap_ok R h ow X -> block h ow X ptr size -> 0 < ptr -> size <= bsize MAX_ORDER -> kfree h ptr size = Ok h' ->
  free_memory (sp_pages (kmem h)) x -> free_memory (sp_pages (kmem h')) x.
Proof using cfg_ok hhdm_aligned.
  intros H [H0 Hb] Hp Hs E Hx. unfold kfree in E. rewrite (proj2 (Z.eqb_neq ptr 0)) in E by lia. destruct (decide (size <= MAX_CLASS)) as [Hc|Hc].
  - rewrite (proj2 (Z.leb_le _ _) Hc) in E. apply bind_Ok_inv in E as (a & _ & E). apply bind_Ok_inv in E as ([a' m'] & E & [= <-]). cbn [kmem].
    destruct (spalloc_free_pages _ _ _ _ E) as [->|E']; [done|].
    destruct (small_slot R hhdm_aligned h ow X ptr size H ltac:(lia) Hb) as (c & p & xs & _ & G & Hw & Hsl & _ & Hlo & Hhi). apply elem_of_dom_2 in Hw as Hd.
    pose proof (heap_pages R h ow X p H Hd) as Hpg. pose proof (g_stride _ G) as Hst.
    assert (SPALLOC_PAGE_OF ptr = hdr_of p) as Ep. { rewrite <- (page_of hhdm_aligned p (ptr - hdr_of p) Hpg) by lia. f_equal. lia. }
    rewrite pa_free_buddy, Ep in E'.
    rewrite (proj2 (hdr_to_hhdm p Hpg)) in E'. eapply (buddy_free_memory R _ (dom ow) X p MIN_ORDER); [apply H|by left|exact E'|done].
  - rewrite (proj2 (Z.leb_gt _ _)) in E by lia. apply bind_Ok_inv in E as (b & E & [= <-]). cbn [kmem with_buddy sp_pages]. destruct Hb as (p & -> & HX).
    assert (FROM_HHDM (hdr_of p) = p) as Ep.
    { destruct (ho_owns _ _ _ _ H) as (B & [xss I] & _ & HB & _). destruct (block_facts _ _ _ _ p (size_order size) BAlloc I) as (_ & _ & _ & Hm & _); [apply HB; by right|].
      unfold hdr_of. rewrite <- TO_HHDM_mapped by done. by apply FROM_TO_HHDM, hhdm_mapped_u64. }
    rewrite Ep in E. eapply (buddy_free_memory R _ (dom ow) X p (size_order size)); [apply H|by right|exact E|done].
Qed.

Lemma served_free_memory R h led ptr size h' x :
  clients_inv R (h, led) -> led !! ptr = Some (size, true) -> free h ptr = Ok h' ->
  free_memory (sp_pages (kmem h)) x -> free_memory (sp_pages (kmem h')) x.
Proof using cfg_ok hhdm_aligned.
  intros (live & (ow & X & H & Hl & _) & <-) (o & Ho & _ & Eh)%known_Some E. destruct (Hl _ _ Ho) as [A1 A2 A3 A4 A5 A6]. rewrite Eh in A6. destruct A6 as [E1 E2].
  rewrite (free_run h ptr _ _) in E by (done || lia). by eapply kfree_memory.
Qed.

(** ** The two loops *)
Implicit Types (s : reclaim_state) (xs : list (Z * boot_range)).

(** What the heap owes once the objects of [xs] are on the stack. *)
Definition owed led xs : gmap Z (Z * bool) := foldr (fun x m => <[x.1 := (sizeof_boot_range, true)]> m) led xs.

Definition apart (r r' : boot_range) : Prop := rbase r + rlength r <= rbase r' \/ rbase r' + rlength r' <= rbase r.

Record stacked R led (ranges : Z) s xs : Prop := {
  sk_clients : clients_inv R (rheap s, owed led xs);
  sk_stack : Stack.stack_rep (rnodes s) ranges xs.*1;
  sk_nodup : NoDup xs.*1;
  sk_new : forall p, p ∈ xs.*1 -> led !! p = None;
  sk_words : forall p r, (p, r) ∈ xs -> rranges s !! p = Some r;
  sk_ranges : forall p r, (p, r) ∈ xs -> range_ok R (sp_pages (kmem (rheap s))) r;
  sk_apart : ForallOrdPairs (fun x y => apart x.2 y.2) xs;
}.

Lemma owed_notin led xs p : p ∉ xs.*1 -> owed led xs !! p = led !! p.
Proof using Type.
  induction xs as [|[q r] xs IH]; cbn; [done|]. intros [Hne Hp]%not_elem_of_cons. rewrite lookup_insert_ne by done. by apply IH.
Qed.

Lemma owed_pop led p r xs : p ∉ xs.*1 -> led !! p = None -> delete p (owed led ((p, r) :: xs)) = owed led xs.
Proof using Type. intros Hp Hl. cbn. apply delete_insert_id. by rewrite owed_notin. Qed.

(** Rounding to pages only makes a range smaller. *)
Lemma in_range_bounds R st r x : range_ok R st r -> in_range r x -> rbase r <= x < rbase r + rlength r.
Proof using cfg_ok hhdm_aligned.
  intros [R1 R2 R3 _ _ _] Hx. unfold in_range in Hx. pose proof shift_range. rewrite PAGE_SIZE_eq in *.
  destruct (ALIGN_UP_bounds (rbase r) PAGE_SIZE_SHIFT) as [_ Ha]; [lia|unfold is_u64; lia|lia|].
  rewrite ALIGN_DOWN_spec in Hx by (unfold is_u64; lia). pose proof (Z.mod_pos_bound (rbase r + rlength r) (2 ^ PAGE_SIZE_SHIFT)). lia.
Qed.

Lemma range_ok_next R R' st st' r r' :
  range_ok R st r -> range_ok R st r' -> apart r r' -> same_cells st st' ->
  (forall x, in_regions R' x <-> in_regions R x \/ in_range r x) -> range_ok R' st' r'.
Proof using cfg_ok hhdm_aligned.
  intros Hr Hr' Ha C HR. destruct (range_ok_cells R st st' r' Hr' C) as [A1 A2 A3 A4 A5 A6]. split; try done.
  intros x Hx [Hin|Hin]%HR; [by apply (A6 x)|]. pose proof (in_range_bounds _ _ _ _ Hr Hin). pose proof (in_range_bounds _ _ _ _ Hr' Hx). destruct Ha; lia.
Qed.

Definition released R led st xs s' : Prop :=
  exists R', clients_inv R' (rheap s', led) /\ (forall x, in_regions R' x <-> in_regions R x \/ exists y, y ∈ xs /\ in_range y.2 x) /\
    (forall x, free_memory st x \/ (exists y, y ∈ xs /\ in_range y.2 x) -> free_memory (sp_pages (kmem (rheap s'))) x).

Lemma released_cons R R' led st st' y xs s' :
  (forall x, in_regions R' x <-> in_regions R x \/ in_range y.2 x) -> (forall x, free_memory st x \/ in_range y.2 x -> free_memory st' x) ->
  released R' led st' xs s' -> released R led st (y :: xs) s'.
Proof using Type.
  intros HR HF (R'' & C & HR' & HF'). exists R''. split; [done|]. split.
  - intros x. rewrite HR', HR. setoid_rewrite elem_of_cons. naive_solver.
  - intros x Hx. apply HF'. setoid_rewrite elem_of_cons in Hx. naive_solver.
Qed.

Lemma release_ranges_ok led xs : forall fuel R ranges s,
  stacked R led ranges s xs -> (length xs < fuel)%nat ->
  returns (release_ranges fuel ranges s) (released R led (sp_pages (kmem (rheap s))) xs).
Proof using cfg_ok hhdm_aligned.
  induction xs as [|[p r] xs IH]; intros [|fuel] R ranges s [K1 K2 K3 K4 K5 K6 K7] Hf; cbn [length] in Hf; try lia; cbn [release_ranges].
  - cbn in K2. subst ranges. unfold Stack.stack_pop. rewrite Z.eqb_refl, bind_Ok. apply returns_Ok. exists R. split; [done|].
    split; intros x; [split; [by left|]|]; intros [?|(y & ?%not_elem_of_nil & _)]; done.
  - cbn [fmap list_fmap fst] in *. destruct (Stack.stack_pop_rep _ _ _ K2) as (hd' & -> & K2'). cbn [first_or List.tl] in *. rewrite bind_Ok.
    destruct K2 as (_ & Hp0 & _). rewrite (proj2 (Z.eqb_neq p 0)) by done. apply NoDup_cons in K3 as [Kn K3]. inversion K7 as [|? ? Kap K7']; subst.
    assert ((p, r) ∈ (p, r) :: xs) as Hin by (apply elem_of_cons; by left).
    rewrite (load_Ok _ _ _ (K5 p r Hin)), bind_Ok. destruct (served_add_range R _ _ r K1 (K6 p r Hin)) as (b & R' & E & C & HR & HF). rewrite E, bind_Ok.
    assert (owed led ((p, r) :: xs) !! p = Some (sizeof_boot_range, true)) as Hp by (cbn; apply lookup_insert_eq).
    destruct (served_free R' hhdm_aligned _ _ p sizeof_boot_range C Hp) as (h' & Ef & C'). rewrite Ef, bind_Ok.
    rewrite owed_pop in C' by (done || (apply K4, elem_of_cons; by left)).
    assert (same_cells (sp_pages (kmem (rheap s))) (sp_pages (kmem h'))) as Hc.
    { eapply same_cells_trans; [by eapply buddy_add_range_cells|]. exact (free_cells (with_pages (rheap s) b) p h' Ef). }
    eapply returns_mono; [apply (IH fuel R' hd'); [split; cbn [rheap rnodes rranges]|lia]|].
    + done.
    + eapply Stack.stack_rep_frame; [|exact K2']. intros x Hx. apply lookup_delete_ne. by intros ->.
    + done.
    + intros q Hq. apply K4, elem_of_cons. by right.
    + intros q r' Hq. rewrite lookup_delete_ne; [apply K5, elem_of_cons; by right|]. intros ->. apply Kn, list_elem_of_fmap. by exists (q, r').
    + intros q r' Hq. eapply (range_ok_next R R' _ _ r r'); [by apply (K6 p)|apply (K6 q), elem_of_cons; by right| |done|done].
      rewrite Forall_forall in Kap. exact (Kap _ Hq).
    + done.
    + intros s' Hs'. eapply released_cons; [exact HR| |exact Hs']. intros x Hx. eapply (served_free_memory R' _ _ p); [exact C|exact Hp|exact Ef|]. by apply HF.
Qed.

Definition range_of (e : memmap_entry) : boot_range := BootRange (base e) (length_ e).

Lemma owed_None led xs p : owed led xs !! p = None -> (p ∉ xs.*1) /\ led !! p = None.
Proof using Type.
  induction xs as [|[q r] xs IH]; cbn; [split; [apply not_elem_of_nil|done]|]. intros [H Hne]%lookup_insert_None. destruct (IH H). split; [|done].
  apply not_elem_of_cons. split; [by intros ->|done].
Qed.

Definition collected (entries : list memmap_entry) (r : boot_range) : Prop :=
  exists e, e ∈ entries /\ reclaimable e = true /\ range_of e = r.

Lemma collected_cons e entries r : collected (e :: entries) r <-> (reclaimable e = true /\ range_of e = r) \/ collected entries r.
Proof using Type.
  unfold collected. split.
  - intros (f & [->|Hf]%elem_of_cons & H); [by left|right; by exists f].
  - intros [H|(f & Hf & H)]; [exists e|exists f]; (split; [apply elem_of_cons|done]); [by left|by right].
Qed.

Lemma stack_rep_mapped (nodes : Stack.snodes) l : forall head p, Stack.stack_rep nodes head l -> p ∈ l -> is_Some (nodes !! p).
Proof using Type.
  induction l as [|x l IH]; intros head p; cbn; [by intros _ ?%not_elem_of_nil|]. intros (-> & _ & nx & Hx & Hr) [->|Hp]%elem_of_cons; [done|by eapply IH].
Qed.

(** An object more on the stack. *)
Lemma stacked_push R led ranges s xs p r h' :
  stacked R led ranges s xs -> owed led xs !! p = None -> 0 < p ->
  clients_inv R (h', <[p := (sizeof_boot_range, true)]> (owed led xs)) -> same_cells (sp_pages (kmem (rheap s))) (sp_pages (kmem h')) ->
  range_ok R (sp_pages (kmem h')) r -> Forall (fun y => apart r y.2) xs ->
  exists nodes, Stack.stack_push ranges (<[p := 0]> (rnodes s)) p = Ok (p, nodes) /\
    stacked R led p (Reclaim h' nodes (<[p := r]> (rranges s))) ((p, r) :: xs).
Proof using cfg_ok hhdm_aligned.
  intros [K1 K2 K3 K4 K5 K6 K7] [Hx Hl]%owed_None Hp C Hc Hr Ha.
  destruct (Stack.stack_push_rep (<[p := 0]> (rnodes s)) ranges xs.*1 p) as (nodes & E & Hs & _); [|done|lia|by rewrite lookup_insert_eq|].
  { eapply Stack.stack_rep_frame; [|exact K2]. intros x Hin. apply lookup_insert_ne. by intros ->. }
  exists nodes. split; [done|]. split; cbn [rheap rnodes rranges fmap list_fmap fst].
  - done.
  - done.
  - by apply NoDup_cons.
  - intros q [->|Hq]%elem_of_cons; [done|by apply K4].
  - intros q r' [[= -> ->]|Hq]%elem_of_cons; [apply lookup_insert_eq|]. rewrite lookup_insert_ne; [by apply K5|]. intros ->. apply Hx, list_elem_of_fmap. by exists (q, r').
  - intros q r' [[= -> ->]|Hq]%elem_of_cons; [done|]. eapply range_ok_cells; [by apply (K6 q)|done].
  - by constructor.
Qed.

Lemma collect_ranges_ok led entries : forall R ranges s xs,
  stacked R led ranges s xs -> (forall e, e ∈ entries -> reclaimable e = true -> range_ok R (sp_pages (kmem (rheap s))) (range_of e)) ->
  ForallOrdPairs (fun e f => apart (range_of f) (range_of e)) entries -> (forall e, e ∈ entries -> Forall (fun y => apart (range_of e) y.2) xs) ->
  nofault (collect_ranges entries ranges s) (fun '(ranges', s') => exists ys, stacked R led ranges' s' ys /\
    forall r, r ∈ ys.*2 <-> r ∈ xs.*2 \/ collected entries r).
Proof using cfg_ok hhdm_aligned.
  induction entries as [|e entries IH]; intros R ranges s xs K Hok Hord Hap; cbn [collect_ranges].
  { exists xs. split; [done|]. intros r. split; [by left|]. intros [?|(e & ?%not_elem_of_nil & _)]; done. }
  inversion Hord as [|? ? Ho Hord']; subst. setoid_rewrite elem_of_cons in Hok. setoid_rewrite elem_of_cons in Hap.
  destruct (reclaimable e) eqn:Er; cbn [negb].
  - eapply nofault_bind.
    { apply nofault_and; [apply (served_malloc R hhdm_aligned (rheap s) (owed led xs)); [apply K|done|]|apply malloc_cells].
      pose proof max_sizes. destruct page_pow as (_ & _ & _ & Hps). unfold sizeof_boot_range, sizeof_malloc_header. lia. }
    intros [p h'] ((_ & Hn & Hp & C) & Hc). rewrite (proj2 (Z.eqb_neq p 0)) by lia.
    destruct (stacked_push R led ranges s xs p (range_of e) h' K Hn Hp C Hc) as (nodes & -> & K'); [|by apply Hap; left|].
    { eapply range_ok_cells; [apply Hok; [by left|done]|done]. }
    rewrite bind_Ok. eapply nofault_mono; [apply (IH R p _ _ K')|].
    + intros f Hf Ef. eapply range_ok_cells; [apply Hok; [by right|done]|done].
    + done.
    + intros f Hf. rewrite Forall_cons. split; [|by apply Hap; right]. rewrite Forall_forall in Ho. by apply Ho.
    + intros [hd s'] (ys & Ky & Hys). exists ys. split; [done|]. intros r. rewrite Hys, collected_cons, Er. cbn [fmap list_fmap snd]. rewrite elem_of_cons. clear. split; [intros [[->|?]|?]|intros [?|[[_ <-]|?]]]; auto.
  - eapply nofault_mono; [apply (IH R ranges s xs K)|]; [intros f Hf; apply Hok; by right|done|intros f Hf; apply Hap; by right|].
    intros [hd s'] (ys & Ky & Hys). exists ys. split; [done|]. intros r. rewrite Hys, collected_cons, Er. clear. split; [intros [?|?]|intros [?|[[? _]|?]]]; auto. done.
Qed.

Lemma memmap_apart entries : memmap_ok entries -> ForallOrdPairs (fun e f => apart (range_of f) (range_of e)) entries.
Proof using Type.
  induction entries as [|e entries IH]; intros [M1 M2]; constructor.
  - apply Forall_forall. intros f (i & Hi)%list_elem_of_lookup. right. cbn. by apply (M2 0%nat (S i)); [lia|..].
  - apply IH. split; [intros i; apply (M1 (S i))|]. intros i j e' f Hij. apply (M2 (S i) (S j)). lia.
Qed.
End Clients.

(** ** The specification *)

(** Memory that was left behind. *)
Definition reclaimed `{kconfig} (entries : list memmap_entry) (x : Z) : Prop :=
  exists e, e ∈ entries /\ reclaimable e = true /\ in_range (range_of e) x.


(** ** A run: sixteen pages at 1 MiB, and as many behind them left by the boot
    loader, with a table of the firmware at their end *)
Module ReclaimDemo.
#[local] Existing Instance x86_64_config.

Definition pages : list Z := map (fun n => 0x100 + Z.of_nat n) (seq 0 32).
Definition db : pfndb := list_to_map (map (fun i => (i, Page PFNDB_PAGE_INVALID 0 0 0)) pages).
Definition nodes0 : nodes := list_to_map (map (fun i => (TO_HHDM (i * 4096), LNode 0 0)) pages).
Definition boot : buddy_state := buddy_empty nodes0 db.
Definition entries : list memmap_entry :=
  [MemmapEntry 0x1000 0x8000 LIMINE_MEMMAP_BOOTLOADER_RECLAIMABLE; MemmapEntry 0x100000 0x10000 LIMINE_MEMMAP_USABLE;
   MemmapEntry 0x110000 0xa000 LIMINE_MEMMAP_BOOTLOADER_RECLAIMABLE; MemmapEntry 0x11a800 0x5000 LIMINE_MEMMAP_ACPI_RECLAIMABLE].
Definition st : buddy_state := match buddy_add_range boot 0x100000 0x10000 with Ok s => s | _ => boot end.
Definition heap : kheap := match malloc_init (SpMem st ∅ ∅ ∅) with Ok h => h | _ => KHeap [] (SpMem st ∅ ∅ ∅) ∅ end.

Lemma all_mapped : range_mapped boot 0x100000 0x120000.
Proof.
  intros x [z ->] Hx. change (2 ^ PAGE_SIZE_SHIFT) with 4096 in *. assert (z ∈ pages) as Hz.
  { apply list_elem_of_fmap. exists (Z.to_nat (z - 0x100)). split; [lia|]. apply elem_of_seq. lia. }
  split.
  - rewrite pfndb_get_entry_div. change (2 ^ PAGE_SIZE_SHIFT) with 4096. rewrite Z.div_mul by lia. by apply (BuddySpec.Demo.map_is_Some (fun i => i)).
  - by apply (BuddySpec.Demo.map_is_Some (fun i => TO_HHDM (i * 4096))).
Qed.

Lemma reclaim_ready : exists R, clients_inv R (heap, ∅) /\ (forall x, in_regions R x <-> 0x100000 <= x < 0x110000) /\ range_mapped st 0x100000 0x120000.
Proof.
  destruct (add_range_ok [] boot ∅ 0x100000 0x10000) as (st' & R & B & E & I & [P1 P2 P3 P4 P5]).
  1,2: by split; vm_compute.
  1,2,3,4: by vm_compute.
  - apply buddy_empty_inv. intros i pg H. apply elem_of_list_to_map_2, list_elem_of_fmap in H as (k & [= -> ->] & _). done.
  - intros x Hx Hr. apply all_mapped; [done|]. split; [apply Hr|]. eapply Z.lt_trans; [apply Hr|]. by vm_compute.
  - intros _ r m ?%not_elem_of_nil. done.
  - assert (st = st') as Es by (unfold st; by rewrite E). exists R. split; [|split].
    + destruct (malloc_init_ok R (SpMem st ∅ ∅ ∅) ∅) as (h & Eh & H & _).
      * exists B. rewrite Es. split; [done|]. split; [by apply P3|]. split; [|by intros q ?%not_elem_of_empty]. intros q j. rewrite (P2 q j).
        split; [done|]. intros [[?%not_elem_of_empty _]|?]; done.
      * exists ∅. split; [|done]. exists ∅, ∅. unfold heap. rewrite Eh. split; [done|]. split; [by intros ptr o ?|by intros ? ? ? ? ?].
    + intros x. rewrite P5. split; [|by right]. intros [(r & m & ?%not_elem_of_nil & _)|?]; done.
    + rewrite Es. destruct (buddy_add_range_cells _ _ _ _ E) as [D1 D2]. eapply range_mapped_dom; [exact D1|exact D2|reflexivity|apply all_mapped].
Qed.

Lemma map_ok : memmap_ok entries.
Proof.
  split.
  - intros i e He. do 4 (destruct i as [|i]; [cbn in He; injection He as <-; vm_compute; done|]). done.
  - intros i j e f Hij He Hf. do 4 (destruct i as [|i]; [do 4 (destruct j as [|j]; [try lia; cbn in He, Hf; injection He as <-; injection Hf as <-; vm_compute; done|]); done|]). done.
Qed.

Lemma ranges R : (forall x, in_regions R x <-> 0x100000 <= x < 0x110000) -> range_mapped st 0x100000 0x120000 ->
  forall e, e ∈ entries -> reclaimable e = true -> range_ok R (sp_pages (kmem heap)) (range_of e).
Proof.
  intros HR HM. change (sp_pages (kmem heap)) with st.
  assert (forall e a b, ALIGN_UP (base e) PAGE_SIZE = a -> ALIGN_DOWN (base e + length_ e) PAGE_SIZE = b -> 0x110000 <= a -> b <= 0x120000 ->
    0 < base e -> 0 <= length_ e -> base e + length_ e + PAGE_SIZE <= 2 ^ 64 -> range_ok R st (range_of e)) as Hr.
  { intros e a b Ea Eb Ha Hb H1 H2 H3. split; cbn [rbase rlength range_of]; try done; rewrite ?Ea, ?Eb.
    - transitivity 0x120000; [done|]. by vm_compute.
    - intros x Hx Hin. apply HM; [done|lia].
    - intros x Hx. unfold in_range in Hx. cbn [rbase rlength range_of] in Hx. rewrite Ea, Eb in Hx. rewrite HR. lia. }
  intros e He Hre. unfold entries in He. repeat (apply elem_of_cons in He as [->|He]).
  - by vm_compute in Hre.
  - by vm_compute in Hre.
  - by apply (Hr _ 0x110000 0x11a000); vm_compute.
  - by apply (Hr _ 0x11b000 0x11f000); vm_compute.
  - by apply not_elem_of_nil in He.
Qed.

(** Sixteen free pages become thirty: the ten pages of one entry and the four
    whole pages of the other; the entry below 1 MiB stays as it is. *)
Definition count_free_pages (b : buddy_state) : Z := foldr (fun '(k, l) n => count l * 2 ^ Z.of_nat k + n) 0 (zip (seq 0 15) (orders b)).
Lemma reclaims : count_free_pages st = 16 /\ match reclaim_boot_memory entries heap with Ok h => count_free_pages (sp_pages (kmem h)) | _ => 0 end = 30.
Proof. vm_compute. done. Qed.
End ReclaimDemo.

