(* ===== verification/Elf.v ===== *)
(** * loader/elf_structs.h, elf_checker.c, elf_introspection.c, symbols.c

    ELF files in memory: [m] is byte memory, a structure is its address and a
    field is a little-endian read at its (packed) offset.  [verify_elf] checks
    the header of a program, the introspection functions read the kernel's own
    file, [symbol_for_pc] finds the function a program counter lies in. *)

From S2P Require Import Prelude CString CStringSpec.
#[local] Open Scope Z_scope.

Definition ELF_64_BIT : Z := 2.
Definition ELF_LITTLE_ENDIAN : Z := 1.
Definition ELF_HEADER_VER : Z := 1.
Definition ELF_VER : Z := 1.
Definition ELF_EVALYNOS_ABI : Z := 0xEE.
Definition ELF_EXECUTABLE_TYPE : Z := 0x02.
Definition ELF_X86_64_ARCH : Z := 0x3E.
Definition ELF_RISCV_ARCH : Z := 0xF3.
Definition ELF_LOONGARCH_ARCH : Z := 0x102.
Definition ELF_PROG_PT_LOAD_TYPE : Z := 1.
Definition ELF_PROG_EXEC_FLAG : Z := 0x1.
Definition ELF_PROG_WRITE : Z := 0x2.
Definition ELF_SECTION_ALLOC_FLAG : Z := 0x2.
Definition ELF_STT_FUNC : Z := 2.
Definition ELF_ST_TYPE (info : Z) : Z := Z.land info 0xF.

Definition elf_magic : list Z := [0x7F; 69; 76; 70].

Definition sizeof_elf_program_header_64 : Z := 56.
Definition sizeof_elf_section_header_64 : Z := 64.
Definition sizeof_elf_symbol_64 : Z := 24.

(** A program header, as far as the loader and the page tables use it. *)
Record elf_program_header_64 := ElfProgramHeader {
  ph_type : Z; ph_flags : Z; ph_offset : Z; ph_virt_addr : Z; ph_file_size : Z; ph_mem_size : Z;
}.

Section Elf.
Context (m : bytes).

(** *** Fields of the packed structures *)
Definition header_bits (file : Z) : res Z := load_le m (file + 4) 1.
Definition header_endianness (file : Z) : res Z := load_le m (file + 5) 1.
Definition header_version (file : Z) : res Z := load_le m (file + 6) 1.
Definition header_abi (file : Z) : res Z := load_le m (file + 7) 1.
Definition header_type (file : Z) : res Z := load_le m (file + 16) 2.
Definition header_arch (file : Z) : res Z := load_le m (file + 18) 2.
Definition header_elf_version (file : Z) : res Z := load_le m (file + 20) 4.
Definition header_entry_point (file : Z) : res Z := load_le m (file + 24) 8.
Definition header_program_header_table (file : Z) : res Z := load_le m (file + 32) 8.
Definition header_section_header_table (file : Z) : res Z := load_le m (file + 40) 8.
Definition header_program_header_entries (file : Z) : res Z := load_le m (file + 56) 2.
Definition header_section_header_entries (file : Z) : res Z := load_le m (file + 60) 2.
Definition header_section_name_index (file : Z) : res Z := load_le m (file + 62) 2.

Definition program_header (ph : Z) : res elf_program_header_64 :=
  ty ← load_le m ph 4;
  fl ← load_le m (ph + 4) 4;
  off ← load_le m (ph + 8) 8;
  va ← load_le m (ph + 16) 8;
  fs ← load_le m (ph + 32) 8;
  ms ← load_le m (ph + 40) 8;
  Ok (ElfProgramHeader ty fl off va fs ms).

Definition section_name (sh : Z) : res Z := load_le m sh 4.
Definition section_flags (sh : Z) : res Z := load_le m (sh + 8) 8.
Definition section_virt_addr (sh : Z) : res Z := load_le m (sh + 16) 8.
Definition section_offset (sh : Z) : res Z := load_le m (sh + 24) 8.
Definition section_size (sh : Z) : res Z := load_le m (sh + 32) 8.

Definition symbol_name (sym : Z) : res Z := load_le m sym 4.
Definition symbol_info (sym : Z) : res Z := load_le m (sym + 4) 1.
Definition symbol_shndx (sym : Z) : res Z := load_le m (sym + 6) 2.
Definition symbol_value (sym : Z) : res Z := load_le m (sym + 8) 8.
Definition symbol_size (sym : Z) : res Z := load_le m (sym + 16) 8.

(** *** elf_checker.c *)

(** [memcmp(p, cs, length cs) != 0], negated: the second array is constant. *)
Fixpoint bytes_equal (p : Z) (cs : list Z) : res bool :=
  match cs with
  | [] => Ok true
  | c :: cs => b ← load m p; if b =? c then bytes_equal (p + 1) cs else Ok false
  end.

(** [ELF_CURRENT_ARCH] is the target's machine number. *)
Definition verify_elf (ELF_CURRENT_ARCH file : Z) : res bool :=
  magic ← bytes_equal file elf_magic;
  if negb magic then Ok false else
  v ← header_version file; if negb (v =? ELF_HEADER_VER) then Ok false else
  v ← header_elf_version file; if negb (v =? ELF_VER) then Ok false else
  v ← header_bits file; if negb (v =? ELF_64_BIT) then Ok false else
  v ← header_endianness file; if negb (v =? ELF_LITTLE_ENDIAN) then Ok false else
  v ← header_abi file; if negb (v =? ELF_EVALYNOS_ABI) then Ok false else
  v ← header_type file; if negb (v =? ELF_EXECUTABLE_TYPE) then Ok false else
  v ← header_arch file; if negb (v =? ELF_CURRENT_ARCH) then Ok false else
  Ok true.

(** *** elf_introspection.c *)
Section Introspection.
Context (kernel_elf_file kernel_elf_size kernel_virtual_base : Z).

(** The program headers from index [i] on, [n] of them. *)
Fixpoint program_headers_from (n : nat) (table : Z) : res (list elf_program_header_64) :=
  match n with
  | O => Ok []
  | S n =>
      ph ← program_header table;
      phs ← program_headers_from n (table + sizeof_elf_program_header_64);
      Ok (ph :: phs)
  end.

Definition program_headers (file : Z) : res (list elf_program_header_64) :=
  table ← header_program_header_table file;
  n ← header_program_header_entries file;
  program_headers_from (Z.to_nat n) (u64 (file + table)).

Fixpoint base_loop (phs : list elf_program_header_64) (elf_base : Z) : Z :=
  match phs with
  | [] => elf_base
  | ph :: phs =>
      base_loop phs (if (ph_type ph =? ELF_PROG_PT_LOAD_TYPE) && (ph_virt_addr ph <? elf_base)
                     then ph_virt_addr ph else elf_base)
  end.

Definition elf_introspect_base : res Z :=
  phs ← program_headers kernel_elf_file;
  let elf_base := base_loop phs UINT64_MAX in
  _ ← assert (negb (elf_base =? UINT64_MAX));
  Ok elf_base.

Fixpoint top_loop (phs : list elf_program_header_64) (elf_top : Z) : Z :=
  match phs with
  | [] => elf_top
  | ph :: phs =>
      let section_top := u64 (ph_virt_addr ph + ph_mem_size ph) in
      top_loop phs (if (ph_type ph =? ELF_PROG_PT_LOAD_TYPE) && (section_top >? elf_top)
                    then section_top else elf_top)
  end.

Definition elf_introspect_top : res Z :=
  phs ← program_headers kernel_elf_file;
  let elf_top := top_loop phs 0 in
  _ ← assert (negb (elf_top =? 0));
  Ok elf_top.

(** The search loop of [elf_introspect_section]; [as_char] reads a byte as a
    [char].  Returns the section's address (0 for none) and size.  A string of
    the file has at most [kernel_elf_size] characters before it leaves the
    file, which is what the fuel of [strcmp] allows. *)
Fixpoint section_loop (n : nat) (as_char : Z -> Z) (sections i strtab strtab_size name : Z)
    : res (Z * option Z) :=
  match n with
  | O => Ok (0, None)
  | S n =>
      let sh := sections + i * sizeof_elf_section_header_64 in
      nm ← section_name sh;
      differs ← (if nm >=? strtab_size then Ok true
                 else c ← strcmp (load m) as_char (S (Z.to_nat kernel_elf_size)) (strtab + nm) name;
                      Ok (negb (c =? 0)));
      if (differs : bool) then section_loop n as_char sections (i + 1) strtab strtab_size name
      else
        size ← section_size sh;
        fl ← section_flags sh;
        if negb (Z.land fl ELF_SECTION_ALLOC_FLAG =? 0) then
          va ← section_virt_addr sh;
          elf_base ← elf_introspect_base;
          Ok (u64 (va + kernel_virtual_base - elf_base), Some size)
        else
          off ← section_offset sh;
          if (off >? kernel_elf_size) || (size >? u64 (kernel_elf_size - off)) then Ok (0, Some size)
          else Ok (kernel_elf_file + off, Some size)
  end.

(** The second component is what is written through [size], if anything. *)
Definition elf_introspect_section (as_char : Z -> Z) (name : Z) : res (Z * option Z) :=
  let file := kernel_elf_file in
  let file_size := kernel_elf_size in
  sht ← header_section_header_table file;
  if sht >? file_size then Ok (0, None) else
  entries ← header_section_header_entries file;
  let section_table_size := entries * sizeof_elf_section_header_64 in
  if section_table_size >? u64 (file_size - sht) then Ok (0, None) else
  if (sht =? 0) || (entries =? 0) then Ok (0, None) else
  index ← header_section_name_index file;
  if index >=? entries then Ok (0, None) else
  let sections := file + sht in
  let shstrtab := sections + index * sizeof_elf_section_header_64 in
  off ← section_offset shstrtab;
  size ← section_size shstrtab;
  if (off >? file_size) || (size >? u64 (file_size - off)) then Ok (0, None) else
  section_loop (Z.to_nat entries) as_char sections 0 (file + off) size name.

Definition elf_introspect_kaslr_slide : res Z :=
  elf_base ← elf_introspect_base; Ok (u64 (kernel_virtual_base - elf_base)).
Definition kaslr_rt2lt (a : Z) : res Z := slide ← elf_introspect_kaslr_slide; Ok (u64 (a - slide)).
Definition kaslr_lt2rt (a : Z) : res Z := slide ← elf_introspect_kaslr_slide; Ok (u64 (a + slide)).
End Introspection.

(** *** symbols.c *)

Fixpoint symbol_loop (n : nat) (symbol pc best : Z) : res Z :=
  match n with
  | O => Ok best
  | S n =>
      let next := symbol + sizeof_elf_symbol_64 in
      info ← symbol_info symbol;
      if negb (ELF_ST_TYPE info =? ELF_STT_FUNC) then symbol_loop n next pc best else
      shndx ← symbol_shndx symbol;
      if shndx =? 0 then symbol_loop n next pc best else
      value ← symbol_value symbol;
      if value >? pc then symbol_loop n next pc best else
      if best =? 0 then symbol_loop n next pc symbol else
      best_value ← symbol_value best;
      symbol_loop n next pc (if value >? best_value then symbol else best)
  end.

(** [Some (name, offset)] for true with [*out] filled, [None] for false. *)
Definition symbol_for_pc (symtab symtab_size strtab strtab_size pc : Z) : res (option (Z * Z)) :=
  if (symtab =? 0) || (strtab =? 0) then Ok None else
  let symbol_count := symtab_size / sizeof_elf_symbol_64 in
  best ← symbol_loop (Z.to_nat symbol_count) symtab pc 0;
  if best =? 0 then Ok None else
  nm ← symbol_name best;
  if nm >=? strtab_size then Ok None else
  size ← symbol_size best;
  value ← symbol_value best;
  if negb (size =? 0) && (u64 (pc - value) >=? size) then Ok None else
  let name := strtab + nm in
  let remaining := u64 (strtab_size - nm) in
  len ← strnlen (load m) name remaining;
  if len >=? remaining then Ok None else
  Ok (Some (name, u64 (pc - value))).
End Elf.

(** ** [symbol_for_pc] finds the function *)
Section Symbols.
Context (m : bytes) (HB : byte_mem m).

(** The [n]-byte field at [p] of readable memory. *)
Definition field (p : Z) (n : nat) : Z := match load_le m p n with Ok v => v | _ => 0 end.

Lemma field_ok p n : mapped m p (Z.of_nat n) -> load_le m p n = Ok (field p n) /\ 0 <= field p n < 256 ^ Z.of_nat n.
Proof using HB.
  intros HM. unfold field. destruct (load_le_ok m n p HB HM) as (bs & -> & <- & HF & _). split; [done|].
  clear HM. induction HF as [|b bs Hb _ IH]; cbn [le_value length]; [cbn; lia|].
  unfold is_byte in Hb. rewrite Nat2Z.inj_succ, Z.pow_succ_r by lia. lia.
Qed.

Context (symtab pc : Z).

(** The [i]-th symbol, its fields, and what makes it a candidate: a defined
    function that starts at or below [pc]. *)
Definition sym (i : Z) : Z := symtab + i * sizeof_elf_symbol_64.
Definition value (i : Z) : Z := field (sym i + 8) 8.
Definition name_of (i : Z) : Z := field (sym i) 4.
Definition size_of (i : Z) : Z := field (sym i + 16) 8.
Definition candidate (i : Z) : Prop :=
  ELF_ST_TYPE (field (sym i + 4) 1) = ELF_STT_FUNC /\ field (sym i + 6) 2 <> 0 /\ value i <= pc.

(** The first of the candidates below index [n] with the greatest value. *)
Definition best_of (n i : Z) : Prop :=
  0 <= i < n /\ candidate i /\
  (forall j, 0 <= j < n -> candidate j -> value j <= value i) /\
  (forall j, 0 <= j < i -> candidate j -> value j < value i).

Definition best_found (n best : Z) : Prop :=
  (best = 0 /\ forall j, 0 <= j < n -> ~ candidate j) \/ exists i, best = sym i /\ best_of n i.

Context (count : Z) (Hsym : 0 < symtab) (HM : mapped m symtab (count * sizeof_elf_symbol_64)).

Lemma sym_field i off n : 0 <= i < count -> 0 <= off -> off + Z.of_nat n <= 24 ->
  load_le m (sym i + off) n = Ok (field (sym i + off) n).
Proof using HM HB.
  intros Hi Ho Hn. apply field_ok. intros a Ha. apply HM. unfold sym, sizeof_elf_symbol_64 in *. lia.
Qed.

(** A symbol that is no candidate changes nothing. *)
Lemma best_skip n best : best_found n best -> ~ candidate n -> best_found (n + 1) best.
Proof using Type.
  intros HF Hn. assert (forall j, 0 <= j < n + 1 -> candidate j -> 0 <= j < n) as Hj.
  { intros j Hj Hc. destruct (decide (j = n)) as [->|]; [done|lia]. }
  destruct HF as [[-> H]|(i & -> & Hi & Hc & Hm & Hf)].
  - left. split; [done|]. intros j H1 H2. by apply (H j); [apply Hj|].
  - right. exists i. split; [done|]. split_and!; try done; try lia. intros j H1 H2. apply Hm; [by apply Hj|done].
Qed.

(** A candidate replaces a best one of smaller value. *)
Lemma best_take n best : 0 <= n -> best_found n best -> candidate n ->
  best_found (n + 1) (if best =? 0 then sym n else
    if value n >? field (best + 8) 8 then sym n else best).
Proof using Hsym.
  intros H0 HF Hn. destruct HF as [[-> H]|(i & -> & Hi & Hc & Hm & Hf)].
  - right. exists n. split; [done|]. split_and!; try done; try lia.
    + intros j Hj Hcj. destruct (decide (j = n)) as [->|]; [lia|]. destruct (H j); [lia|done].
    + intros j Hj Hcj. destruct (H j); [lia|done].
  - unfold sizeof_elf_symbol_64 in *. destruct (Z.eqb_spec (sym i) 0) as [E|_]; [unfold sym, sizeof_elf_symbol_64 in E; lia|].
    fold (value i). rewrite Z.gtb_ltb. destruct (Z.ltb_spec (value i) (value n)) as [Hlt|Hge]; right.
    + exists n. split; [done|]. split_and!; try done; try lia.
      * intros j Hj Hcj. destruct (decide (j = n)) as [->|]; [lia|]. specialize (Hm j ltac:(lia) Hcj). lia.
      * intros j Hj Hcj. specialize (Hm j ltac:(lia) Hcj). lia.
    + exists i. split; [done|]. split_and!; try done; try lia.
      intros j Hj Hcj. destruct (decide (j = n)) as [->|]; [lia|]. apply Hm; [lia|done].
Qed.

Lemma symbol_loop_ok n : forall i best, 0 <= i -> i + Z.of_nat n = count -> best_found i best ->
  returns (symbol_loop m n (sym i) pc best) (best_found count).
Proof using HB HM Hsym.
  induction n as [|n IH]; intros i best H0 Hn HF.
  { cbn. apply returns_Ok. by replace count with i by lia. }
  assert (sym i + sizeof_elf_symbol_64 = sym (i + 1)) as Enext by (unfold sym; lia).
  assert (forall b, best_found (i + 1) b -> returns (symbol_loop m n (sym (i + 1)) pc b) (best_found count)) as Hgo.
  { intros b Hb. apply IH; [lia|lia|done]. }
  cbn [symbol_loop]. cbv zeta. rewrite Enext. unfold symbol_info, symbol_shndx, symbol_value.
  rewrite (sym_field i 4 1), bind_Ok by lia.
  destruct (Z.eqb_spec (ELF_ST_TYPE (field (sym i + 4) 1)) ELF_STT_FUNC) as [E1|E1]; cbn [negb].
  2: { apply Hgo, best_skip; [done|]. by intros (? & _). }
  rewrite (sym_field i 6 2), bind_Ok by lia.
  destruct (Z.eqb_spec (field (sym i + 6) 2) 0) as [E2|E2]; [apply Hgo, best_skip; [done|]; by intros (_ & ? & _)|].
  rewrite (sym_field i 8 8), bind_Ok by lia. rewrite (Z.gtb_ltb (field (sym i + 8) 8) pc).
  destruct (Z.ltb_spec pc (field (sym i + 8) 8)) as [E3|E3].
  { apply Hgo, best_skip; [done|]. intros (_ & _ & ?). unfold value in *. lia. }
  pose proof (best_take i best H0 HF) as Ht. specialize (Ht ltac:(done)).
  destruct (Z.eqb_spec best 0) as [->|Hb]; [by apply Hgo|].
  destruct HF as [[-> _]|(k & -> & Hk & Hrest)]; [done|]. rewrite (sym_field k 8 8), bind_Ok by lia. by apply Hgo.
Qed.
End Symbols.

(** The proof of the theorem below, for the clients of the lookup. *)
Lemma symbol_for_pc_ok m symtab symtab_size strtab strtab_size pc :
  byte_mem m -> 0 < symtab -> 0 < strtab -> 0 <= symtab_size -> is_u64 strtab_size -> is_u64 pc ->
  mapped m symtab symtab_size -> mapped m strtab strtab_size ->
  let count := symtab_size / sizeof_elf_symbol_64 in
  returns (symbol_for_pc m symtab symtab_size strtab strtab_size pc) (fun r =>
    match r with
    | Some (name, offset) => exists i, best_of m symtab pc count i /\
        name = strtab + name_of m symtab i /\ offset = pc - value m symtab i /\
        (size_of m symtab i = 0 \/ offset < size_of m symtab i) /\
        exists len, 0 <= len /\ name + len < strtab + strtab_size /\ load m (name + len) = Ok 0 /\
          forall a, name <= a < name + len -> load m a <> Ok 0
    | None => (forall i, 0 <= i < count -> ~ candidate m symtab pc i) \/
        exists i, best_of m symtab pc count i /\
          (strtab_size <= name_of m symtab i \/
           (size_of m symtab i <> 0 /\ size_of m symtab i <= pc - value m symtab i) \/
           forall a, strtab + name_of m symtab i <= a < strtab + strtab_size -> load m a <> Ok 0)
    end).
Proof.
  intros HB Hsy Hst Hsz Hsts Hpc HM HS count. unfold symbol_for_pc.
  rewrite (proj2 (Z.eqb_neq symtab 0)), (proj2 (Z.eqb_neq strtab 0)) by lia. cbn [orb]. fold count.
  assert (0 <= count /\ count * sizeof_elf_symbol_64 <= symtab_size) as [Hc0 Hc].
  { unfold count, sizeof_elf_symbol_64. pose proof (Z.mul_div_le symtab_size 24). split; [apply Z.div_pos; lia|lia]. }
  assert (mapped m symtab (count * sizeof_elf_symbol_64)) as HM' by (intros a Ha; apply HM; lia).
  destruct (symbol_loop_ok m HB symtab pc count Hsy HM' (Z.to_nat count) 0 0) as (best & E & HF);
    [lia|lia|left; split; [done|intros; lia]|].
  unfold sym in E. rewrite Z.mul_0_l, Z.add_0_r in E. rewrite E, bind_Ok.
  destruct HF as [[-> HN]|(i & -> & HBi)]; [by apply returns_Ok; left|].
  destruct (proj1 HBi) as [Hi0 Hi1]. pose proof (proj2 (proj2 (proj1 (proj2 HBi)))) as Hv.
  rewrite (proj2 (Z.eqb_neq _ 0)) by (unfold sym, sizeof_elf_symbol_64; lia).
  unfold symbol_name, symbol_size, symbol_value.
  pose proof (sym_field m HB symtab count HM' i 0 4 ltac:(lia) ltac:(lia) ltac:(lia)) as En. rewrite Z.add_0_r in En.
  rewrite En, bind_Ok. fold (name_of m symtab i).
  destruct (field_ok m HB (sym symtab i) 4) as [_ Hn]; [intros a Ha; apply HM'; unfold sym, sizeof_elf_symbol_64 in *; lia|].
  destruct (field_ok m HB (sym symtab i + 8) 8) as [_ Hv0]; [intros a Ha; apply HM'; unfold sym, sizeof_elf_symbol_64 in *; lia|].
  fold (name_of m symtab i) in Hn. fold (value m symtab i) in Hv0. rewrite Z.geb_leb.
  destruct (Z.leb_spec strtab_size (name_of m symtab i)) as [Hbig|Hsmall]; [apply returns_Ok; right; exists i; auto|].
  rewrite (sym_field m HB symtab count HM' i 16 8), bind_Ok, (sym_field m HB symtab count HM' i 8 8), bind_Ok by lia. fold (size_of m symtab i) (value m symtab i).
  unfold is_u64 in *. rewrite (u64_small (pc - _)) by (unfold is_u64; lia). rewrite (u64_small (strtab_size - _)) by (unfold is_u64; lia).
  rewrite !Z.geb_leb. destruct (negb (size_of m symtab i =? 0) && (size_of m symtab i <=? pc - value m symtab i)) eqn:Ec.
  { apply andb_prop in Ec as [E1%negb_true_iff%Z.eqb_neq E2%Z.leb_le]. apply returns_Ok. right. exists i. auto. }
  assert (size_of m symtab i = 0 \/ pc - value m symtab i < size_of m symtab i) as Hsize.
  { apply andb_false_iff in Ec as [E1%negb_false_iff%Z.eqb_eq|E2%Z.leb_gt]; auto. }
  unfold strnlen.
  destruct (strnlen_loop_range (load m) (Z.to_nat (strtab_size - name_of m symtab i)) (strtab + name_of m symtab i))
    as (q & Eq & Hq & Hz & Hend).
  { intros a Ha. destruct (HS a) as [b Hb]; [lia|]. exists b. by apply load_Ok. }
  rewrite Eq, !bind_Ok, Z.geb_leb.
  destruct (Z.leb_spec (strtab_size - name_of m symtab i) (q - (strtab + name_of m symtab i))); apply returns_Ok.
  - right. exists i. split; [done|]. right. right. intros a Ha. apply Hz. lia.
  - exists i. split_and!; [done..|]. exists (q - (strtab + name_of m symtab i)).
    replace (strtab + name_of m symtab i + (q - (strtab + name_of m symtab i))) with q by lia.
    split_and!; [lia|lia|apply Hend; lia|done].
Qed.

(** on readable tables, [symbol_for_pc] terminates without reading
    outside them.  It succeeds with the name and offset of the function symbol
    with the greatest start at or below [pc] (the first one among equals), with
    [pc] inside it when its size is known, the name being a string that ends
    inside the string table; it fails only when there is no such symbol, or
    that symbol ends before [pc] or has no terminated name in the table. *)
Theorem symbol_for_pc_correct m symtab symtab_size strtab strtab_size pc :
  byte_mem m -> 0 < symtab -> 0 < strtab -> 0 <= symtab_size -> is_u64 strtab_size -> is_u64 pc ->
  mapped m symtab symtab_size -> mapped m strtab strtab_size ->
  let count := symtab_size / sizeof_elf_symbol_64 in
  returns (symbol_for_pc m symtab symtab_size strtab strtab_size pc) (fun r =>
    match r with
    | Some (name, offset) => exists i, best_of m symtab pc count i /\
        name = strtab + name_of m symtab i /\ offset = pc - value m symtab i /\
        (size_of m symtab i = 0 \/ offset < size_of m symtab i) /\
        exists len, 0 <= len /\ name + len < strtab + strtab_size /\ load m (name + len) = Ok 0 /\
          forall a, name <= a < name + len -> load m a <> Ok 0
    | None => (forall i, 0 <= i < count -> ~ candidate m symtab pc i) \/
        exists i, best_of m symtab pc count i /\
          (strtab_size <= name_of m symtab i \/
           (size_of m symtab i <> 0 /\ size_of m symtab i <= pc - value m symtab i) \/
           forall a, strtab + name_of m symtab i <= a < strtab + strtab_size -> load m a <> Ok 0)
    end).
Proof. apply symbol_for_pc_ok. Qed.

(** Two functions, [main] at 0x1000 and [f] at 0x1040, of 0x20 bytes each. *)
Module SymDemo.
Definition entry (nm info shndx val size : Z) : list Z :=
  le_bytes 4 nm ++ [info; 0] ++ le_bytes 2 shndx ++ le_bytes 8 val ++ le_bytes 8 size.
Definition tab : list Z := entry 0 2 1 0x1000 0x20 ++ entry 5 2 1 0x1040 0x20.
Definition strs : list Z := [109; 97; 105; 110; 0; 102; 0].
Fixpoint place (p : Z) (bs : list Z) (m : bytes) : bytes :=
  match bs with [] => m | b :: bs => <[p := b]> (place (p + 1) bs m) end.
Definition mem : bytes := place 0x100 (tab ++ strs) ∅.

Lemma place_mapped bs : forall p m, mapped (place p bs m) p (Z.of_nat (length bs)).
Proof.
  induction bs as [|b bs IH]; intros p m a Ha; cbn [length place] in *; [lia|].
  destruct (decide (a = p)) as [->|]; [rewrite lookup_insert_eq; eauto|].
  rewrite lookup_insert_ne by lia. apply IH. lia.
Qed.

Lemma place_bytes bs m : forall p, Forall is_byte bs -> byte_mem m -> byte_mem (place p bs m).
Proof.
  induction bs as [|b bs IH]; intros p HF Hm; cbn [place]; [done|]. apply Forall_cons in HF as [Hb HF].
  intros a c. rewrite lookup_insert_Some. intros [[_ <-]|[_ Hc]]; [done|]. by eapply (IH (p + 1)).
Qed.
End SymDemo.

Lemma symbol_for_pc_correct_witness :
  symbol_for_pc SymDemo.mem 0x100 48 0x130 7 0x1050 = Ok (Some (0x135, 0x10)) /\
  returns (symbol_for_pc SymDemo.mem 0x100 48 0x130 7 0x1050) (fun r => is_Some r).
Proof.
  split; [by vm_compute|].
  assert (mapped SymDemo.mem 0x100 55) as HM by (apply (SymDemo.place_mapped (SymDemo.tab ++ SymDemo.strs))).
  eapply returns_mono.
  - apply (symbol_for_pc_correct SymDemo.mem 0x100 48 0x130 7 0x1050); try (by vm_compute); try (unfold is_u64; lia).
    + apply SymDemo.place_bytes; [|done]. repeat (apply Forall_cons; split; [by vm_compute|]). constructor.
    + intros a Ha. apply HM. lia.
    + intros a Ha. apply HM. lia.
  - intros [r|]; [by eauto|]. intros [H|(i & (Hi & Hc & Hm & Hf) & H)]; exfalso.
    + apply (H 1); by vm_compute.
    + assert (i = 1) as ->.
      { change (48 / sizeof_elf_symbol_64) with 2 in Hi. destruct (decide (i = 0)) as [->|]; [|lia].
        specialize (Hm 1 ltac:(by vm_compute) ltac:(by vm_compute)). by vm_compute in Hm. }
      destruct H as [H|[[_ H]|H]]; [by vm_compute in H..|]. apply (H 0x136); by vm_compute.
Defined.
