(* ===== verification/Ustar.v ===== *)
(** * utils/misc/ustar.c: files of the initial archive

    [m] is byte memory.  An archive is a row of blocks: a header of 512 bytes
    with the name, the size in octal and a magic, then the contents, padded to
    512 bytes; it ends at the first header without the magic. *)

From S2P Require Import Prelude CString CStringSpec Elf.
#[local] Open Scope Z_scope.

Definition USTAR_FILE_SIZE_OFFSET : Z := 124.
Definition ustar_magic : list Z := [117; 115; 116; 97; 114].

(** A result of [int] arithmetic; the sanitizer stops the kernel on overflow. *)
Definition int_result (n : Z) : res Z := if (- 2 ^ 31 <=? n) && (n <? 2 ^ 31) then Ok n else Panic.

Section Ustar.
Context (m : bytes).

Fixpoint oct2bin_loop (len : nat) (c n : Z) : res Z :=
  match len with
  | O => Ok n
  | S len =>
      n ← int_result (n * 8);
      b ← load m c;
      n ← int_result (n + (b - 48));
      oct2bin_loop len (c + 1) n
  end.
Definition oct2bin (str : Z) (len : nat) : res Z := oct2bin_loop len str 0.

(** The address of the contents and the size, as [size_t]; address 0 for none.
    [str_fuel] bounds the scan for the end of the name. *)
Fixpoint ustar_lookup (fuel str_fuel : nat) (ptr filename : Z) : res (Z * Z) :=
  match fuel with
  | O => NoFuel
  | S fuel =>
      magic ← bytes_equal m (ptr + 257) ustar_magic;
      if negb magic then Ok (0, 0) else
      filesize ← oct2bin (ptr + USTAR_FILE_SIZE_OFFSET) 11;
      len ← strlen (load m) str_fuel filename;
      c ← memcmp (load m) ptr filename (len + 1);
      if c =? 0 then Ok (u64 (ptr + 512), u64 filesize)
      else ustar_lookup fuel str_fuel (u64 (ptr + (ALIGN_UP (u64 filesize) 512 + 512))) filename
  end.
End Ustar.

(** ** What an archive is *)
Record ufile := UFile { uf_name : list Z; uf_data : list Z }.

(** [k] octal digits of [n], the most significant first. *)
Fixpoint octal (k : nat) (n : Z) : list Z :=
  match k with O => [] | S k => 48 + n / 8 ^ Z.of_nat k mod 8 :: octal k n end.

(** The bytes [bs] at [p]. *)
Definition holds (m : bytes) (p : Z) (bs : list Z) : Prop := forall i b, bs !! i = Some b -> m !! (p + Z.of_nat i) = Some b.

Definition block (n : Z) : Z := (n + 511) / 512 * 512.

(** A file at [p]. *)
Record file_at (m : bytes) (p : Z) (f : ufile) : Prop := {
  fa_name : cstring (load m) p (uf_name f);
  fa_size : Z.of_nat (length (uf_data f)) < 2 ^ 31;
  fa_octal : holds m (p + USTAR_FILE_SIZE_OFFSET) (octal 11 (Z.of_nat (length (uf_data f))));
  fa_magic : holds m (p + 257) ustar_magic;
  fa_data : holds m (p + 512) (uf_data f);
}.

(** The files from [p] on, and their end. *)
Fixpoint archive_at (m : bytes) (p : Z) (fs : list ufile) : Prop :=
  match fs with
  | [] => exists bs, length bs = length ustar_magic /\ bs <> ustar_magic /\ holds m (p + 257) bs
  | f :: fs => file_at m p f /\ 0 <= p /\ p + 512 + block (Z.of_nat (length (uf_data f))) < 2 ^ 64 /\
      archive_at m (p + 512 + block (Z.of_nat (length (uf_data f)))) fs
  end.

(** The first file of a name, and where its header is. *)
Fixpoint find_file (p : Z) (fs : list ufile) (name : list Z) : option (Z * ufile) :=
  match fs with
  | [] => None
  | f :: fs => if decide (uf_name f = name) then Some (p, f) else find_file (p + 512 + block (Z.of_nat (length (uf_data f)))) fs name
  end.

(** ** Reading *)
Lemma bytes_equal_holds m bs : forall cs p, length bs = length cs -> holds m p bs -> bytes_equal m p cs = Ok (bool_decide (bs = cs)).
Proof.
  induction bs as [|b bs IH]; intros [|c cs] p Hl Hh; try done. cbn [bytes_equal].
  pose proof (Hh O b eq_refl) as Hb. rewrite Z.add_0_r in Hb. rewrite (load_Ok _ _ _ Hb), bind_Ok. destruct (Z.eqb_spec b c) as [->|Hne].
  - rewrite (IH cs (p + 1)); [|by injection Hl|intros i x Hx; rewrite <- (Hh (S i) x Hx); f_equal; lia].
    f_equal. apply bool_decide_ext. split; [by intros ->|by intros [= ->]].
  - rewrite bool_decide_false; [done|]. by intros [= -> _].
Qed.

Lemma int_in n : - 2 ^ 31 <= n < 2 ^ 31 -> int_result n = Ok n.
Proof. intros Hn. unfold int_result. by rewrite (proj2 (Z.leb_le _ _)), (proj2 (Z.ltb_lt _ _)) by lia. Qed.

(** Octal digits are read back, in range all along. *)
Lemma oct2bin_loop_ok m k n : forall c acc,
  0 <= n -> acc = n / 8 ^ Z.of_nat k -> n < 2 ^ 31 -> holds m c (octal k n) -> oct2bin_loop m k c acc = Ok n.
Proof.
  induction k as [|k IH]; intros c acc H0 E Hn Hh; cbn [oct2bin_loop].
  { rewrite E. cbn. by rewrite Z.div_1_r. }
  cbn [octal] in Hh. pose proof (Hh O _ eq_refl) as Hb. rewrite Z.add_0_r in Hb.
  assert (0 < 8 ^ Z.of_nat k) as Hp by (apply Z.pow_pos_nonneg; lia). remember (n / 8 ^ Z.of_nat k) as q eqn:Eq.
  assert (acc = q / 8) as -> by (rewrite Eq, E, Nat2Z.inj_succ, Z.pow_succ_r, Z.mul_comm by lia; by rewrite Z.div_div by lia).
  assert (0 <= q <= n) as Hq.
  { split; [rewrite Eq; by apply Z.div_pos|]. rewrite Eq. apply Z.div_le_upper_bound; [done|]. nia. }
  pose proof (Z.div_mod q 8 ltac:(lia)) as Hd. pose proof (Z.mod_pos_bound q 8 ltac:(lia)) as Hm.
  rewrite int_in, bind_Ok, (load_Ok _ _ _ Hb), bind_Ok by lia. replace (q / 8 * 8 + (48 + q mod 8 - 48)) with q by lia. rewrite int_in, bind_Ok by lia.
  apply IH; [done|done|done|]. intros i b Hi. rewrite <- (Hh (S i) b Hi). f_equal. lia.
Qed.

Lemma oct2bin_ok m p n : 0 <= n < 2 ^ 31 -> holds m p (octal 11 n) -> oct2bin m p 11 = Ok n.
Proof. intros Hn Hh. apply oct2bin_loop_ok; [lia| |lia|done]. symmetry. apply Z.div_small. change (8 ^ Z.of_nat 11) with (2 ^ 33). lia. Qed.

(** Comparing a name with its terminator is comparing the strings. *)
Lemma memcmp_names get s2 : forall s1 p1 p2,
  cstring get p1 s1 -> cstring get p2 s2 -> exists c, memcmp_loop get (S (length s2)) p1 p2 = Ok c /\ (c = 0 <-> s1 = s2).
Proof.
  induction s2 as [|d s2 IH]; intros [|c s1] p1 p2 H1 H2; cbn [memcmp_loop length cstring] in *.
  - rewrite H1, bind_Ok, H2, bind_Ok. by exists 0.
  - destruct H1 as (-> & Hc & _). rewrite bind_Ok, H2, bind_Ok, (proj2 (Z.eqb_neq c 0)) by done. eexists. split; [done|]. split; [by destruct (c <? 0)|done].
  - destruct H2 as (-> & Hd & _). rewrite H1, !bind_Ok, (proj2 (Z.eqb_neq 0 d)) by done. eexists. split; [done|]. split; [by destruct (0 <? d)|done].
  - destruct H1 as (-> & Hc & H1), H2 as (-> & Hd & H2). rewrite !bind_Ok. destruct (Z.eqb_spec c d) as [->|Hne]; cbn [negb].
    + destruct (IH s1 (p1 + 1) (p2 + 1) H1 H2) as (r & -> & Hr). exists r. split; [done|]. rewrite Hr. split; [by intros ->|by intros [= ->]].
    + eexists. split; [done|]. split; [by destruct (c <? d)|]. by intros [= -> _].
Qed.

Lemma align_block n : 0 <= n < 2 ^ 31 -> ALIGN_UP (u64 n) 512 = block n.
Proof.
  intros Hn. rewrite u64_small by (unfold is_u64; lia). change 512 with (2 ^ 9). rewrite ALIGN_UP_spec by (unfold is_u64; lia). unfold block. change (2 ^ 9 - 1) with 511. change (2 ^ 9) with 512. rewrite Z.mod_eq by lia. lia.
Qed.

(** C31: [ustar_lookup] on a well-formed archive returns the contents and the size of
    the first file of the given name, or null when the archive has none; it
    ends within one turn per file and one more. *)
Theorem ustar_lookup_correct m fs name filename : forall p fuel str_fuel,
  archive_at m p fs -> cstring (load m) filename name -> (length fs < fuel)%nat -> (length name < str_fuel)%nat ->
  match find_file p fs name with
  | Some (q, f) => ustar_lookup m fuel str_fuel p filename = Ok (q + 512, Z.of_nat (length (uf_data f))) /\ uf_name f = name /\ f ∈ fs /\ holds m (q + 512) (uf_data f)
  | None => ustar_lookup m fuel str_fuel p filename = Ok (0, 0) /\ forall f, f ∈ fs -> uf_name f <> name
  end.
Proof.
  induction fs as [|f fs IH]; intros p fuel str_fuel Ha Hs Hf Hn; (destruct fuel as [|fuel]; [cbn in Hf; lia|]); cbn [ustar_lookup find_file archive_at] in *.
  { destruct Ha as (bs & Hl & Hne & Hh). rewrite (bytes_equal_holds m bs _ _ Hl Hh), bind_Ok, bool_decide_false by done. split; [done|]. by intros f ?%not_elem_of_nil. }
  destruct Ha as ([F1 F2 F3 F4 F5] & H0 & Hu & Ha). rewrite (bytes_equal_holds m ustar_magic _ _ eq_refl F4), bind_Ok, bool_decide_true by done. cbn [negb].
  rewrite (oct2bin_ok m _ _ (conj (Nat2Z.is_nonneg _) F2) F3), bind_Ok. unfold strlen. rewrite (strlen_loop_ok (load m) name) by done. rewrite !bind_Ok.
  unfold memcmp. replace (Z.to_nat (filename + Z.of_nat (length name) - filename + 1)) with (S (length name)) by lia.
  destruct (memcmp_names (load m) name (uf_name f) p filename F1 Hs) as (c & -> & Hc). rewrite bind_Ok. destruct (decide (uf_name f = name)) as [En|En].
  - rewrite (proj2 Hc En). cbn [Z.eqb]. assert (0 <= block (Z.of_nat (length (uf_data f)))) by (unfold block; pose proof (Z.div_pos (Z.of_nat (length (uf_data f)) + 511) 512); lia).
    rewrite !u64_small by (unfold is_u64; lia). split; [done|]. split; [done|]. split; [by left|done].
  - rewrite (proj2 (Z.eqb_neq c 0)) by (by intros ?%Hc). rewrite (align_block _ (conj (Nat2Z.is_nonneg _) F2)).
    assert (0 <= block (Z.of_nat (length (uf_data f)))) by (unfold block; pose proof (Z.div_pos (Z.of_nat (length (uf_data f)) + 511) 512); lia).
    rewrite u64_small by (unfold is_u64; lia). replace (p + (block (Z.of_nat (length (uf_data f))) + 512)) with (p + 512 + block (Z.of_nat (length (uf_data f)))) by lia.
    specialize (IH (p + 512 + block (Z.of_nat (length (uf_data f)))) fuel str_fuel Ha Hs ltac:(cbn in Hf; lia) Hn).
    destruct (find_file _ fs name) as [[q g]|].
    + destruct IH as (E & H1 & H2 & H3). split; [done|]. split; [done|]. split; [by right|done].
    + destruct IH as [E Hno]. split; [done|]. intros g [->|Hg]%elem_of_cons; [done|by apply Hno].
Qed.

(** ** An archive of two files *)
Module UDemo.
Definition header (f : ufile) : list Z :=
  uf_name f ++ replicate (100 - length (uf_name f)) 0 ++ replicate 24 48 ++ octal 11 (Z.of_nat (length (uf_data f))) ++ [0] ++ replicate 121 48 ++ ustar_magic ++ replicate 250 0.
Definition stored (f : ufile) : list Z := header f ++ uf_data f ++ replicate (Z.to_nat (block (Z.of_nat (length (uf_data f)))) - length (uf_data f)) 0.
Definition motd : ufile := UFile [109; 111; 116; 100] [104; 105; 10].
Definition init : ufile := UFile [105; 110; 105; 116] (replicate 520 7).
Definition contents : list Z := stored motd ++ stored init ++ replicate 512 0 ++ uf_name init ++ [0].
Definition m : bytes := list_to_map (zip (seqZ 0 (Z.of_nat (length contents))) contents).

Definition holdsb (p : Z) (bs : list Z) : bool := forallb (fun '(i, b) => bool_decide (m !! (p + Z.of_nat i) = Some b)) (zip (seq 0 (length bs)) bs).

Lemma holdsb_ok p bs : holdsb p bs = true -> holds m p bs.
Proof.
  unfold holdsb. rewrite forallb_forall. intros H i b Hi. apply (bool_decide_eq_true_1 (m !! (p + Z.of_nat i) = Some b)), (H (i, b)), list_elem_of_In.
  apply list_elem_of_lookup. exists i. apply lookup_zip_Some. split; [|done]. apply lookup_seq. split; [lia|]. by apply lookup_lt_Some in Hi.
Qed.

Lemma archive_ok : archive_at m 0 [motd; init].
Proof.
  split; [split; [repeat split; vm_compute; done|vm_compute; done|apply holdsb_ok; vm_compute; reflexivity..]|]. split; [lia|]. split; [vm_compute; done|].
  change (0 + 512 + block (Z.of_nat (length (uf_data motd)))) with 1024.
  split; [split; [repeat split; vm_compute; done|vm_compute; done|apply holdsb_ok; vm_compute; reflexivity..]|]. split; [lia|]. split; [vm_compute; done|].
  change (1024 + 512 + block (Z.of_nat (length (uf_data init)))) with 2560. exists (replicate 5 0). split; [done|]. split; [done|]. apply holdsb_ok. vm_compute. reflexivity.
Qed.

Lemma name_ok : cstring (load m) 3072 (uf_name init).
Proof. repeat split; vm_compute; done. Qed.
End UDemo.

Lemma ustar_lookup_correct_witness : ustar_lookup UDemo.m 3 5 0 3072 = Ok (1536, 520).
Proof. apply (ustar_lookup_correct UDemo.m [UDemo.motd; UDemo.init] (uf_name UDemo.init) 3072 0 3 5 UDemo.archive_ok UDemo.name_ok); cbn; lia. Defined.

(** A file of two gibibytes does not fit the size's type. *)
Lemma large_file_stops : oct2bin (list_to_map (zip (seqZ 0 11) (octal 11 (2 ^ 31)))) 0 11 = Panic.
Proof. vm_compute. reflexivity. Qed.
