(* ===== verification/Isa.v ===== *)
(** * riscv64: the instruction set string and the processors of the device tree

    arch/riscv64/cpu/isa.c reads the [riscv,isa] property of a processor, such
    as [rv64imafdc_zba_zbb]: a base of four characters, the single-letter
    extensions, and further extensions behind underscores.
    arch/riscv64/fdt/cpus.c decides from the device tree whether the machine
    can run the kernel.  The tree itself is read by libfdt, whose calls are
    parameters here; [get] reads memory, and [lit] places the string literals.
    A [char] is unsigned on riscv64. *)

From Stdlib Require Import String.
From S2P Require Import Prelude CString CStringSpec CStringLit Ustar.
#[local] Open Scope Z_scope.

Definition ISA_BASELINE_RV64GC : string := "rv64imafdc".
Definition underscore : Z := 95.

Section Isa.
Context (get : Z -> res Z).
Abbreviation as_char := (fun c : Z => c).

(** Every character of [required] up to the terminator is one of the first [size] of [isa]. *)
Fixpoint baseline_loop (fuel : nat) (isa size required : Z) : res bool :=
  match fuel with
  | O => NoFuel
  | S fuel =>
      c ← get required;
      if c =? 0 then Ok true else
      r ← memchr get isa c size;
      if r =? 0 then Ok false else baseline_loop fuel isa size (required + 1)
  end.

(** The length of the part of a string that ends at an underscore or the
    terminator, and the underscore's address, 0 for none. *)
Definition part_length (str_fuel : nat) (p : Z) : res (Z * Z) :=
  end_ ← strchr get str_fuel p underscore;
  size ← (if negb (end_ =? 0) then Ok (end_ - p) else strlen get str_fuel p);
  Ok (end_, size).

Definition isa_has_baseline (fuel str_fuel : nat) (isa required : Z) : res bool :=
  r ← strncmp get as_char isa required 4;
  if negb (r =? 0) then Ok false else
  let isa := isa + 4 in
  let required := required + 4 in
  '(_, size) ← part_length str_fuel isa;
  baseline_loop fuel isa size required.

Fixpoint extension_loop (fuel str_fuel : nat) (p ext ext_len : Z) : res bool :=
  match fuel with
  | O => NoFuel
  | S fuel =>
      c ← get p;
      if c =? 0 then Ok false else
      let p := p + 1 in
      '(end_, len) ← part_length str_fuel p;
      same ← (if ext_len =? len then r ← strncmp get as_char p ext len; Ok (r =? 0) else Ok false);
      if (same : bool) then Ok true
      else if end_ =? 0 then Ok false
      else extension_loop fuel str_fuel end_ ext ext_len
  end.

Definition isa_has_extension (fuel str_fuel : nat) (isa ext : Z) : res bool :=
  p ← strchr get str_fuel isa underscore;
  if p =? 0 then Ok false else
  ext_len ← strlen get str_fuel ext;
  extension_loop fuel str_fuel p ext ext_len.

(** ** The parts of a string between underscores *)
Fixpoint parts (s : list Z) : list (list Z) :=
  match s with
  | [] => [[]]
  | c :: s =>
      if c =? underscore then [] :: parts s
      else match parts s with q :: qs => (c :: q) :: qs | [] => [[c]] end
  end.

Definition base_part (s : list Z) : list Z := default [] (hd_error (parts s)).

Lemma parts_cut a b : underscore ∉ a -> parts (a ++ underscore :: b) = a :: parts b.
Proof using Type.
  induction a as [|c a IH]; intros Hn; cbn [app parts]; [done|]. apply not_elem_of_cons in Hn as [Hne Hn].
  rewrite (proj2 (Z.eqb_neq c underscore)), IH by congruence. done.
Qed.

Lemma parts_whole s : underscore ∉ s -> parts s = [s].
Proof using Type.
  induction s as [|c s IH]; intros Hn; cbn [parts]; [done|]. apply not_elem_of_cons in Hn as [Hne Hn].
  rewrite (proj2 (Z.eqb_neq c underscore)), IH by congruence. done.
Qed.

(** Every string is cut at its first underscore, if it has one. *)
Lemma cut_underscore (s : list Z) :
  (underscore ∉ s) \/ exists a b, s = a ++ underscore :: b /\ underscore ∉ a.
Proof using Type.
  destruct (decide (underscore ∈ s)) as [H|H]; [right|by left].
  apply list_elem_of_split_l in H as (a & b & -> & Ha). by exists a, b.
Qed.

Lemma part_length_cut str_fuel p a b :
  0 < p -> cstring get p (a ++ underscore :: b) -> underscore ∉ a -> (length a < str_fuel)%nat ->
  part_length str_fuel p = Ok (p + Z.of_nat (length a), Z.of_nat (length a)).
Proof using Type.
  intros Hp Hs Ha Hf. unfold part_length. rewrite (strchr_found get a underscore b) by (done || (unfold underscore; lia)).
  rewrite bind_Ok, (proj2 (Z.eqb_neq _ 0)) by lia. cbn [negb]. rewrite bind_Ok. f_equal. f_equal. lia.
Qed.

Lemma part_length_whole str_fuel p s :
  cstring get p s -> underscore ∉ s -> (length s < str_fuel)%nat ->
  part_length str_fuel p = Ok (0, Z.of_nat (length s)).
Proof using Type.
  intros Hs Ha Hf. unfold part_length. rewrite (strchr_none get s underscore) by (done || (unfold underscore; lia)).
  rewrite bind_Ok. cbn [negb Z.eqb]. unfold strlen. rewrite (strlen_loop_ok get s) by done. rewrite !bind_Ok. do 2 f_equal. lia.
Qed.
Lemma base_part_take s : exists n, (n <= length s)%nat /\ take n s = base_part s /\
  (forall p str_fuel, 0 < p -> cstring get p s -> (length s < str_fuel)%nat ->
   returns (part_length str_fuel p) (fun r => r.2 = Z.of_nat n)).
Proof using Type.
  unfold base_part. destruct (cut_underscore s) as [Hn|(a & b & -> & Ha)].
  - exists (length s). rewrite parts_whole, take_ge by done. split_and!; [done..|].
    intros p f Hp Hs Hf. rewrite (part_length_whole f p s) by done. by apply returns_Ok.
  - exists (length a). rewrite parts_cut, take_app_length, length_app by done. split_and!; [lia|done|].
    intros p f Hp Hs Hf. cbn [length] in Hf. rewrite (part_length_cut f p a b) by (done || lia). by apply returns_Ok.
Qed.

Lemma baseline_loop_ok s n req : forall fuel isa required,
  0 < isa -> cstring get isa s -> (n <= length s)%nat -> Forall is_byte req -> cstring get required req -> (length req < fuel)%nat ->
  baseline_loop fuel isa (Z.of_nat n) required = Ok (forallb (fun c => bool_decide (c ∈ take n s)) req).
Proof using Type.
  induction req as [|c req IH]; intros [|fuel] isa required Hp Hs Hn HB Hr Hf; cbn [length] in Hf; try lia; cbn [baseline_loop cstring forallb] in *.
  - by rewrite Hr.
  - destruct Hr as (-> & Hc & Hr). apply Forall_cons in HB as [Bc HB]. rewrite bind_Ok, (proj2 (Z.eqb_neq c 0) Hc).
    destruct (memchr_ok get s c n isa Hs Hp Bc Hn) as (r & -> & E). rewrite bind_Ok. destruct (Z.eqb_spec r 0) as [->|Hne].
    + rewrite (bool_decide_false _ (proj1 E eq_refl)). done.
    + rewrite (IH fuel isa (required + 1)) by (done || lia). rewrite bool_decide_true; [done|].
      destruct (decide (c ∈ take n s)) as [H|H]; [done|]. destruct Hne. by apply E.
Qed.

(** [isa_has_baseline] compares the four characters of the base and then asks
    that every required letter is among the single-letter extensions, in any
    order; extensions behind an underscore do not count. *)
Lemma isa_has_baseline_correct fuel str_fuel isa required s pre req :
  0 < isa -> cstring get isa s -> cstring get required (pre ++ req) -> length pre = 4%nat ->
  Forall is_byte s -> Forall is_byte (pre ++ req) -> (length s < str_fuel)%nat -> (length req < fuel)%nat ->
  isa_has_baseline fuel str_fuel isa required =
    Ok (bool_decide (take 4 s = pre) && forallb (fun c => bool_decide (c ∈ base_part (drop 4 s))) req).
Proof using Type.
  intros Hp Hs Hr Hl B1 B2 Hf1 Hf2. unfold isa_has_baseline.
  destruct (strncmp_ok get as_char s (pre ++ req) 4 isa required) as (r & E & Hr0); [done..|].
  unfold strncmp. change (Z.to_nat 4) with 4%nat. rewrite E, bind_Ok.
  assert (take 4 (pre ++ req) = pre) as Epre by (rewrite <- Hl; apply take_app_length). rewrite Epre in Hr0.
  destruct (Z.eqb_spec r 0) as [H0|H0]; cbn [negb]; [|by rewrite bool_decide_false by (by rewrite <- Hr0)].
  apply Hr0 in H0. rewrite bool_decide_true by done. cbn [andb].
  assert (length (take 4 s) = 4%nat) as Hlen by congruence. rewrite length_take in Hlen.
  rewrite <- (take_drop 4 s) in Hs. apply cstring_app in Hs. apply cstring_app in Hr. rewrite length_take in Hs.
  replace (Z.of_nat (4 `min` length s)) with 4 in Hs by lia. rewrite Hl in Hr. change (Z.of_nat 4) with 4 in Hr.
  destruct (base_part_take (drop 4 s)) as (n & Hn & Et & HP).
  destruct (HP (isa + 4) str_fuel) as ([e sz] & -> & Esz); [lia|done|rewrite length_drop; lia|]. cbn [snd] in Esz. rewrite bind_Ok. subst sz.
  rewrite (baseline_loop_ok (drop 4 s) n req) by (done || lia || by apply Forall_app in B2 as [_ ?]). by rewrite Et.
Qed.

Lemma extension_loop_ok ext es : forall fuel s str_fuel p,
  cstring get ext es -> Forall is_byte es -> 0 < p -> cstring get p (underscore :: s) -> Forall is_byte s ->
  (length s < fuel)%nat -> (length s < str_fuel)%nat ->
  extension_loop fuel str_fuel p ext (Z.of_nat (length es)) = Ok (bool_decide (es ∈ parts s)).
Proof using Type.
  induction fuel as [|fuel IH]; intros s str_fuel p He B1 Hp Hs B2 Hf1 Hf2; [lia|]. destruct Hs as (Eg & _ & Hs). cbn [extension_loop].
  rewrite Eg, bind_Ok. change (underscore =? 0) with false. cbv iota.
  destruct (cut_underscore s) as [Hn|(a & b & -> & Ha)].
  - rewrite (part_length_whole str_fuel (p + 1) s), bind_Ok, parts_whole by done. destruct (Z.eqb_spec (Z.of_nat (length es)) (Z.of_nat (length s))) as [El|El].
    + unfold strncmp. destruct (strncmp_ok get as_char s es (Z.to_nat (Z.of_nat (length s))) (p + 1) ext) as (r & -> & Hr); [done..|].
      rewrite Nat2Z.id, !take_ge in Hr by lia. rewrite !bind_Ok. destruct (Z.eqb_spec r 0) as [H0|H0].
      * apply Hr in H0 as ->. by rewrite bool_decide_true by (by left).
      * cbn [Z.eqb]. rewrite bool_decide_false; [done|]. intros ->%list_elem_of_singleton. by apply H0, Hr.
    + rewrite !bind_Ok. cbn [Z.eqb]. rewrite bool_decide_false; [done|]. intros ->%list_elem_of_singleton. done.
  - rewrite length_app in Hf1, Hf2. cbn [length] in Hf1, Hf2. apply Forall_app in B2 as [B2 B3]. apply Forall_cons in B3 as [_ B3].
    rewrite (part_length_cut str_fuel (p + 1) a b), bind_Ok, parts_cut by (done || lia). pose proof (cstring_app get a (underscore :: b) (p + 1) Hs) as Hu.
    assert (extension_loop fuel str_fuel (p + 1 + Z.of_nat (length a)) ext (Z.of_nat (length es)) = Ok (bool_decide (es ∈ parts b))) as Enext
      by (apply IH; (done || lia)).
    rewrite (proj2 (Z.eqb_neq (p + 1 + Z.of_nat (length a)) 0)) by lia. rewrite Enext.
    destruct (Z.eqb_spec (Z.of_nat (length es)) (Z.of_nat (length a))) as [El|El].
    + unfold strncmp. destruct (strncmp_ok get as_char (a ++ underscore :: b) es (Z.to_nat (Z.of_nat (length a))) (p + 1) ext) as (r & -> & Hr); [try done..|].
      { apply Forall_app. split; [done|]. constructor; [done|done]. }
      rewrite Nat2Z.id, take_app_length, take_ge in Hr by lia. rewrite !bind_Ok. destruct (Z.eqb_spec r 0) as [H0|H0].
      * apply Hr in H0 as ->. by rewrite bool_decide_true by (by left).
      * f_equal. apply bool_decide_ext. rewrite elem_of_cons. naive_solver.
    + rewrite !bind_Ok. f_equal. apply bool_decide_ext. rewrite elem_of_cons. naive_solver.
Qed.

(** [isa_has_extension] finds an extension exactly when it is one of the parts
    of the string behind its first underscore, compared as a whole. *)
Theorem isa_has_extension_correct fuel str_fuel isa ext s es :
  0 < isa -> cstring get isa s -> cstring get ext es -> Forall is_byte s -> Forall is_byte es ->
  (length s < fuel)%nat -> (length s < str_fuel)%nat -> (length es < str_fuel)%nat ->
  isa_has_extension fuel str_fuel isa ext = Ok (bool_decide (es ∈ tail (parts s))).
Proof using Type.
  intros Hp Hs He B1 B2 Hf1 Hf2 Hf3. unfold isa_has_extension. destruct (cut_underscore s) as [Hn|(a & b & -> & Ha)].
  - rewrite (strchr_none get s underscore) by (done || (unfold underscore; lia)). rewrite bind_Ok, parts_whole by done.
    cbn [Z.eqb tail]. by rewrite bool_decide_false by apply not_elem_of_nil.
  - rewrite length_app in Hf1, Hf2. cbn [length] in Hf1, Hf2. apply Forall_app in B1 as [_ B1]. apply Forall_cons in B1 as [_ B1].
    rewrite (strchr_found get a underscore b) by (done || (unfold underscore; lia) || lia). rewrite bind_Ok, (proj2 (Z.eqb_neq _ 0)) by lia.
    unfold strlen. rewrite (strlen_loop_ok get es), !bind_Ok by done. replace (ext + Z.of_nat (length es) - ext) with (Z.of_nat (length es)) by lia.
    apply cstring_app in Hs. rewrite parts_cut by done. cbn [tail]. apply extension_loop_ok; (done || lia).
Qed.
End Isa.

(** ** The device tree *)

(** [__builtin_bswap32] and [__builtin_bswap64]: [n] bytes in reverse. *)
Definition bswap (n : nat) (v : Z) : Z := le_value (rev (le_bytes n v)).
Definition be2host32 (v : Z) : Z := bswap 4 v.
Definition be2host64 (v : Z) : Z := bswap 8 v.
Definition fdt32_to_cpu (x : Z) : Z := be2host32 x.
Definition fdt64_to_cpu (x : Z) : Z := be2host64 x.

Section Fdt.
Context (get : Z -> res Z).

(** libfdt: the offset of a path, the value and length of a property, and the
    walk over the children of a node; negative offsets are errors. *)
Context (fdt_path_offset : string -> Z) (fdt_getprop : Z -> string -> option (Z * Z)).
Context (fdt_first_subnode fdt_next_subnode : Z -> Z).
(** Where the linker placed a string literal. *)
Context (lit : string -> Z).
(** The identifier of the boot processor, from the boot loader. *)
Context (bsp_hart : Z).
(** Turns of the scans over strings. *)
Context (str_fuel : nat).

(** [memcpy] of [n] bytes into an integer. *)
Fixpoint read_int (n : nat) (p : Z) : res Z :=
  match n with
  | O => Ok 0
  | S n => b ← get p; r ← read_int n (p + 1); Ok (b + 256 * r)
  end.

Definition fdt_read_u32 (ptr : Z) : res Z := value ← read_int 4 ptr; Ok (fdt32_to_cpu value).
Definition fdt_read_u64 (ptr : Z) : res Z := value ← read_int 8 ptr; Ok (fdt64_to_cpu value).

(** The new timebase frequency, and whether the property was good. *)
Definition fdt_cpus_parse_timebase_freq (timebase_frequency cpus_node : Z) : res (Z * bool) :=
  match fdt_getprop cpus_node "timebase-frequency" with
  | None => Ok (timebase_frequency, false)
  | Some (val, len) =>
      if len =? 4 then f ← fdt_read_u32 val; Ok (f, true)
      else if len =? 8 then f ← fdt_read_u64 val; Ok (f, true)
      else Ok (timebase_frequency, false)
  end.

(** [strncmp(value, literal, len) == 0]. *)
Definition prop_is (p len : Z) (s : string) : res bool :=
  r ← strncmp get (fun c => c) p (lit s) (u64 len); Ok (r =? 0).

(** [strcmp(value, literal) == 0]. *)
Definition str_is (p : Z) (s : string) : res bool :=
  r ← strcmp get (fun c => c) str_fuel p (lit s); Ok (r =? 0).

(** The body of the loop over the nodes: the hart's number when the node is a
    usable processor, nothing where the code goes on with the next node. *)
Definition parse_cpu_node (cpu_node : Z) : res (option Z) :=
  match fdt_getprop cpu_node "device_type" with
  | None => Ok None
  | Some (dtype, len) =>
  is_cpu ← prop_is dtype len "cpu";
  if negb is_cpu then Ok None else
  match fdt_getprop cpu_node "reg" with
  | None => Ok None
  | Some (reg, len) =>
  if negb (len =? 4) then Ok None else
  hart_id ← fdt_read_u32 reg;
  match fdt_getprop cpu_node "riscv,isa" with
  | None => Ok None
  | Some (isa, _) =>
  base ← isa_has_baseline get str_fuel str_fuel isa (lit ISA_BASELINE_RV64GC);
  if negb base then Ok None else
  ok ← match fdt_getprop cpu_node "status" with None => Ok true | Some (status, len) => prop_is status len "okay" end;
  if negb ok then Ok None else
  match fdt_getprop cpu_node "mmu-type" with
  | None => Ok None
  | Some (mmu, _) =>
  sv39 ← str_is mmu "riscv,sv39";
  if (sv39 : bool) then Ok (Some hart_id) else
  sv48 ← str_is mmu "riscv,sv48";
  if (sv48 : bool) then Ok (Some hart_id) else
  sv57 ← str_is mmu "riscv,sv57";
  if (sv57 : bool) then Ok (Some hart_id) else Ok None
  end end end end.

Fixpoint cpus_loop (fuel : nat) (cpu_node harts : Z) (bsp_valid : bool) : res (Z * bool) :=
  match fuel with
  | O => NoFuel
  | S fuel =>
      if cpu_node <? 0 then Ok (harts, bsp_valid) else
      h ← parse_cpu_node cpu_node;
      match h with
      | None => cpus_loop fuel (fdt_next_subnode cpu_node) harts bsp_valid
      | Some hart_id =>
          harts ← int_result (harts + 1);
          cpus_loop fuel (fdt_next_subnode cpu_node) harts (bsp_valid || (hart_id =? bsp_hart))
      end
  end.

Definition fdt_parse_cpus (fuel : nat) (timebase_frequency : Z) : res (Z * bool) :=
  let cpus_node := fdt_path_offset "/cpus" in
  if cpus_node <? 0 then Ok (timebase_frequency, false) else
  '(timebase_frequency, status) ← fdt_cpus_parse_timebase_freq timebase_frequency cpus_node;
  if negb status then Ok (timebase_frequency, false) else
  '(harts, bsp_valid) ← cpus_loop fuel (fdt_first_subnode cpus_node) 0 false;
  if harts =? 0 then Ok (timebase_frequency, false)
  else if negb bsp_valid then Ok (timebase_frequency, false)
  else Ok (timebase_frequency, true).

(** ** What a processor node says *)
Record hart := Hart {
  h_dtype : option (list Z); h_reg : option (list Z); h_isa : option (list Z);
  h_status : option (list Z); h_mmu : option (list Z);
}.

Definition mmu_types : list (list Z) := map chars ["riscv,sv39"; "riscv,sv48"; "riscv,sv57"]%string.

(** All of rv64imafdc, in the base of the string. *)
Definition has_rv64gc (s : list Z) : bool :=
  bool_decide (take 4 s = chars "rv64") && forallb (fun c => bool_decide (c ∈ base_part (drop 4 s))) (chars "imafdc").

Definition usable (h : hart) : bool :=
  bool_decide (h_dtype h = Some (chars "cpu")) &&
  match h_reg h with Some bs => Z.of_nat (length bs) =? 4 | None => false end &&
  match h_isa h with Some s => has_rv64gc s | None => false end &&
  match h_status h with Some s => bool_decide (s = chars "okay") | None => true end &&
  match h_mmu h with Some s => bool_decide (s ∈ mmu_types) | None => false end.

(** Its number, stored big-endian. *)
Definition hart_number (h : hart) : Z := le_value (rev (default [] (h_reg h))).

(** A property that is absent or a terminated string of its length. *)
Definition string_prop (node : Z) (name : string) (o : option (list Z)) : Prop :=
  match o with
  | None => fdt_getprop node name = None
  | Some s => exists p, fdt_getprop node name = Some (p, Z.of_nat (length s) + 1) /\
      0 < p /\ cstring get p s /\ Forall is_byte s /\ (length s < str_fuel)%nat /\ Z.of_nat (length s) + 1 < 2 ^ 64
  end.

Definition bytes_prop (node : Z) (name : string) (o : option (list Z)) : Prop :=
  match o with
  | None => fdt_getprop node name = None
  | Some bs => exists p, fdt_getprop node name = Some (p, Z.of_nat (length bs)) /\
      Forall is_byte bs /\ forall i b, bs !! i = Some b -> get (p + Z.of_nat i) = Ok b
  end.

Record node_is (node : Z) (h : hart) : Prop := {
  n_dtype : string_prop node "device_type" (h_dtype h);
  n_reg : bytes_prop node "reg" (h_reg h);
  n_isa : string_prop node "riscv,isa" (h_isa h);
  n_status : string_prop node "status" (h_status h);
  n_mmu : string_prop node "mmu-type" (h_mmu h);
}.

(** The children of a node, as the walk meets them. *)
Fixpoint walk (node : Z) (hs : list hart) : Prop :=
  match hs with
  | [] => node < 0
  | h :: hs => 0 <= node /\ node_is node h /\ walk (fdt_next_subnode node) hs
  end.

Definition literals : list string :=
  ["cpu"; ISA_BASELINE_RV64GC; "okay"; "riscv,sv39"; "riscv,sv48"; "riscv,sv57"]%string.

Lemma le_value_bound bs : Forall is_byte bs -> 0 <= le_value bs < 256 ^ Z.of_nat (length bs).
Proof using Type.
  induction bs as [|b bs IH]; intros HB; cbn [le_value length]; [lia|]. apply Forall_cons in HB as [Hb HB]. specialize (IH HB). unfold is_byte in Hb.
  rewrite Nat2Z.inj_succ, Z.pow_succ_r by lia. lia.
Qed.

Lemma read_int_ok bs : forall p,
  (forall i b, bs !! i = Some b -> get (p + Z.of_nat i) = Ok b) -> read_int (length bs) p = Ok (le_value bs).
Proof using Type.
  induction bs as [|b bs IH]; intros p H; cbn [length read_int le_value]; [done|].
  pose proof (H O b eq_refl) as E. rewrite Z.add_0_r in E. rewrite E, bind_Ok, IH; [done|]. intros i c Hi.
  rewrite <- (H (S i) c Hi). f_equal. lia.
Qed.

(** The numbers of the tree are big-endian. *)
Lemma fdt_read_u32_ok p bs :
  Forall is_byte bs -> length bs = 4%nat -> (forall i b, bs !! i = Some b -> get (p + Z.of_nat i) = Ok b) ->
  fdt_read_u32 p = Ok (le_value (rev bs)).
Proof using Type.
  intros HB Hl H. unfold fdt_read_u32, fdt32_to_cpu, be2host32, bswap. rewrite <- Hl, (read_int_ok bs), bind_Ok by done. by rewrite le_bytes_value.
Qed.

Lemma take_succ_eq (s t : list Z) : take (length s + 1) s = take (length s + 1) t <-> s = t.
Proof using Type.
  split; [|by intros ->]. rewrite (take_ge s) by lia. intros E. destruct (decide (length t <= length s + 1)%nat) as [H|H].
  - by rewrite take_ge in E.
  - apply (f_equal length) in E. rewrite length_take in E. lia.
Qed.

Hypothesis lit_ok : forall l, l ∈ literals -> cstring get (lit l) (chars l).

Lemma prop_is_ok p s l :
  cstring get p s -> Forall is_byte s -> l ∈ literals -> Z.of_nat (length s) + 1 < 2 ^ 64 ->
  prop_is p (Z.of_nat (length s) + 1) l = Ok (bool_decide (s = chars l)).
Proof using lit_ok.
  intros Hs HB Hl Hlen. unfold prop_is, strncmp. rewrite u64_small by (unfold is_u64; lia).
  replace (Z.to_nat (Z.of_nat (length s) + 1)) with (length s + 1)%nat by lia.
  destruct (strncmp_ok get (fun c => c) s (chars l) (length s + 1) p (lit l)) as (r & -> & Hr); [done|done|apply chars_bytes|done|by apply lit_ok|].
  rewrite bind_Ok. f_equal. rewrite take_succ_eq in Hr. destruct (Z.eqb_spec r 0) as [H0|H0]; [by rewrite bool_decide_true by (by apply Hr)|by rewrite bool_decide_false by (by rewrite <- Hr)].
Qed.

Lemma str_is_ok p s l :
  cstring get p s -> Forall is_byte s -> l ∈ literals -> (length s < str_fuel)%nat -> str_is p l = Ok (bool_decide (s = chars l)).
Proof using lit_ok.
  intros Hs HB Hl Hlen. unfold str_is.
  destruct (strcmp_ok get (fun c => c) s (chars l) p (lit l) str_fuel) as (r & -> & Hr); [done|done|apply chars_bytes|done|by apply lit_ok|done|].
  rewrite bind_Ok. f_equal. destruct (Z.eqb_spec r 0) as [H0|H0]; [by rewrite bool_decide_true by (by apply Hr)|by rewrite bool_decide_false by (by rewrite <- Hr)].
Qed.

Hypothesis str_fuel_ok : (6 < str_fuel)%nat.

Lemma is_literal l : bool_decide (l ∈ literals) = true -> l ∈ literals.
Proof using Type. apply bool_decide_eq_true_1. Qed.

Lemma parse_cpu_node_ok node h :
  node_is node h -> parse_cpu_node node = Ok (if usable h then Some (hart_number h) else None).
Proof using lit_ok str_fuel_ok.
  intros [Hd Hr Hi Hs Hm]. unfold parse_cpu_node, usable, hart_number.
  destruct h as [d r i st mm]; cbn [h_dtype h_reg h_isa h_status h_mmu] in *.
  destruct d as [d|]; [destruct Hd as (p & -> & Hp & Hd & Bd & _ & Hl)|by rewrite Hd].
  rewrite (prop_is_ok p d), bind_Ok by (done || by apply is_literal). rewrite <- (bool_decide_ext (d = chars "cpu") (Some d = Some (chars "cpu"))) by (split; [by intros ->|by intros [= ?]]).
  destruct (bool_decide (d = chars "cpu")); cbn [negb andb]; [|done].
  destruct r as [r|]; [destruct Hr as (pr & -> & Br & Hr)|by rewrite Hr].
  destruct (Z.eqb_spec (Z.of_nat (length r)) 4) as [El|El]; cbn [negb andb]; [|done].
  rewrite (fdt_read_u32_ok pr r), bind_Ok by (done || lia).
  destruct i as [i|]; [destruct Hi as (pi & -> & Hpi & Hi & Bi & Hfi & _)|by rewrite Hi].
  rewrite (isa_has_baseline_correct get str_fuel str_fuel pi _ i (chars "rv64") (chars "imafdc"));
    [|done..|by apply (lit_ok ISA_BASELINE_RV64GC), is_literal|done|done|by apply (chars_bytes ISA_BASELINE_RV64GC)|done|done].
  rewrite bind_Ok. change (bool_decide (take 4 i = chars "rv64") && _) with (has_rv64gc i). destruct (has_rv64gc i); cbn [negb andb]; [|done].
  assert (match fdt_getprop node "status" with None => Ok true | Some (status, len) => prop_is status len "okay" end =
    Ok match st with Some s => bool_decide (s = chars "okay") | None => true end) as ->.
  { destruct st as [s|]; [destruct Hs as (ps & -> & Hps & Hs & Bs & _ & Hls)|by rewrite Hs]. by apply prop_is_ok; [..|apply is_literal|]. }
  rewrite bind_Ok. destruct (match st with Some s => bool_decide (s = chars "okay") | None => true end); cbn [negb andb]; [|done].
  destruct mm as [m|]; [destruct Hm as (pm & -> & Hpm & Hm & Bm & Hfm & _)|by rewrite Hm].
  rewrite !(str_is_ok pm m) by (done || by apply is_literal). unfold mmu_types. rewrite !bind_Ok.
  destruct (bool_decide_reflect (m = chars "riscv,sv39")) as [->|H1]; [by rewrite bool_decide_true by (by left)|].
  destruct (bool_decide_reflect (m = chars "riscv,sv48")) as [->|H2]; [by rewrite bool_decide_true by (by right; left)|].
  destruct (bool_decide_reflect (m = chars "riscv,sv57")) as [->|H3]; [by rewrite bool_decide_true by (by right; right; left)|].
  rewrite bool_decide_false; [done|]. rewrite map_cons, map_cons, map_cons, !elem_of_cons. intros [?|[?|[?|[]%elem_of_nil]]]; done.
Qed.

Definition is_bsp (h : hart) : bool := usable h && (hart_number h =? bsp_hart).

Lemma cpus_loop_ok hs : forall fuel node harts bsp_valid,
  walk node hs -> (length hs < fuel)%nat -> 0 <= harts -> harts + Z.of_nat (length hs) < 2 ^ 31 ->
  cpus_loop fuel node harts bsp_valid = Ok (harts + Z.of_nat (length (List.filter usable hs)), bsp_valid || existsb is_bsp hs).
Proof using lit_ok str_fuel_ok.
  induction hs as [|h hs IH]; intros [|fuel] node harts v Hw Hf H0 Hb; cbn [length] in *; try lia; cbn [cpus_loop walk List.filter existsb] in *.
  - rewrite (proj2 (Z.ltb_lt node 0) Hw). cbn [length]. by rewrite Z.add_0_r, orb_false_r.
  - destruct Hw as (Hn & Hh & Hw). rewrite (proj2 (Z.ltb_ge node 0) Hn), (parse_cpu_node_ok node h Hh), bind_Ok. unfold is_bsp at 1.
    destruct (usable h); cbn [andb orb length]; [|apply IH; (done || lia)].
    unfold int_result. rewrite (proj2 (Z.leb_le _ _)), (proj2 (Z.ltb_lt _ _)) by lia. cbn [andb]. rewrite bind_Ok, IH by (done || lia).
    rewrite orb_assoc. do 2 f_equal. lia.
Qed.

(** A frequency of four or eight bytes. *)
Definition good_timebase (tb : option (list Z)) : option Z :=
  match tb with
  | Some bs => if (Z.of_nat (length bs) =? 4) || (Z.of_nat (length bs) =? 8) then Some (le_value (rev bs)) else None
  | None => None
  end.

Lemma parse_timebase_ok tb0 node tb :
  bytes_prop node "timebase-frequency" tb ->
  fdt_cpus_parse_timebase_freq tb0 node = Ok match good_timebase tb with Some f => (f, true) | None => (tb0, false) end.
Proof using str_fuel_ok.
  unfold fdt_cpus_parse_timebase_freq, good_timebase. destruct tb as [bs|]; [intros (p & -> & HB & H)|by intros ->].
  destruct (Z.eqb_spec (Z.of_nat (length bs)) 4) as [E4|E4]; cbn [orb]; [by rewrite (fdt_read_u32_ok p bs), bind_Ok by (done || lia)|].
  destruct (Z.eqb_spec (Z.of_nat (length bs)) 8) as [E8|E8]; [|done].
  unfold fdt_read_u64, fdt64_to_cpu, be2host64, bswap. assert (length bs = 8%nat) as <- by lia.
  rewrite (read_int_ok bs p H), !bind_Ok. by rewrite le_bytes_value.
Qed.

(** C38: [fdt_parse_cpus] on a well-formed tree succeeds exactly when the timebase
    frequency has four or eight bytes and one of the processors it describes is
    the boot processor and usable: an enabled [cpu] with all of rv64imafdc and a
    known page table format.  Otherwise it fails; the frequency is set, from
    its big-endian bytes, whenever it is good. *)
Theorem fdt_parse_cpus_correct fuel tb0 tb hs :
  (0 <= fdt_path_offset "/cpus" ->
    bytes_prop (fdt_path_offset "/cpus") "timebase-frequency" tb /\ walk (fdt_first_subnode (fdt_path_offset "/cpus")) hs) ->
  (length hs < fuel)%nat -> Z.of_nat (length hs) < 2 ^ 31 ->
  fdt_parse_cpus fuel tb0 = Ok
    (if fdt_path_offset "/cpus" <? 0 then (tb0, false)
     else match good_timebase tb with Some f => (f, existsb is_bsp hs) | None => (tb0, false) end).
Proof using lit_ok str_fuel_ok.
  intros H Hf Hl. unfold fdt_parse_cpus. destruct (Z.ltb_spec (fdt_path_offset "/cpus") 0) as [Hc|Hc]; [done|].
  destruct (H Hc) as [Ht Hw]. rewrite (parse_timebase_ok tb0 _ tb Ht), bind_Ok. destruct (good_timebase tb) as [f|]; cbn [negb]; [|done].
  rewrite (cpus_loop_ok hs) by (done || lia). rewrite bind_Ok. cbn [orb Z.add].
  destruct (existsb is_bsp hs) eqn:E; [|by destruct (_ =? 0)]. apply existsb_exists in E as (h & Hin & Hh). unfold is_bsp in Hh.
  apply andb_true_iff in Hh as [Hu _]. assert (In h (List.filter usable hs)) as Hin' by (by apply filter_In).
  destruct (List.filter usable hs) as [|x l]; [done|]. cbn [length]. rewrite (proj2 (Z.eqb_neq _ 0)) by lia. done.
Qed.
End Fdt.

(** ** A board with two harts, the second of which lacks the D extension *)
Module FdtDemo.
Definition strings : list string :=
  ["rv64imafdc_zba_zbb"; "rv64imac"; "cpu"; ISA_BASELINE_RV64GC; "okay"; "riscv,sv39"; "riscv,sv48"; "riscv,sv57"; "zbb"]%string.
(** A pad byte, the strings, then the numbers. *)
Definition image : list Z := 0 :: concat (map (fun s => chars s ++ [0]) strings) ++ [0; 0; 0; 1; 0; 0; 0; 2; 0; 152; 150; 128].
Fixpoint place (l : list string) (p : Z) (s : string) : Z :=
  match l with [] => 0 | x :: l => if String.eqb x s then p else place l (p + Z.of_nat (length (chars x)) + 1) s end.
Definition lit : string -> Z := place strings 1.
Definition numbers : Z := Z.of_nat (length image) - 12.
Definition get_string (s : string) : option (Z * Z) := Some (lit s, Z.of_nat (length (chars s)) + 1).
Definition path_offset (s : string) : Z := if String.eqb s "/cpus" then 64 else -1.
Definition first_subnode (n : Z) : Z := if n =? 64 then 128 else -1.
Definition next_subnode (n : Z) : Z := if n =? 128 then 192 else -1.
Definition getprop (n : Z) (name : string) : option (Z * Z) :=
  if n =? 64 then if String.eqb name "timebase-frequency" then Some (numbers + 8, 4) else None
  else if String.eqb name "device_type" then get_string "cpu"
  else if String.eqb name "reg" then Some (if n =? 128 then numbers else numbers + 4, 4)
  else if String.eqb name "riscv,isa" then get_string (if n =? 128 then "rv64imafdc_zba_zbb" else "rv64imac")
  else if String.eqb name "mmu-type" then get_string "riscv,sv48"
  else None.
Definition hart1 : hart :=
  Hart (Some (chars "cpu")) (Some [0; 0; 0; 1]) (Some (chars "rv64imafdc_zba_zbb")) None (Some (chars "riscv,sv48")).
Definition hart2 : hart :=
  Hart (Some (chars "cpu")) (Some [0; 0; 0; 2]) (Some (chars "rv64imac")) None (Some (chars "riscv,sv48")).

Fixpoint cstringb (p : Z) (s : list Z) : bool :=
  match s with
  | [] => match rd image p with Ok c => c =? 0 | _ => false end
  | d :: s => match rd image p with Ok c => c =? d | _ => false end && negb (d =? 0) && cstringb (p + 1) s
  end.

Lemma cstringb_ok s : forall p, cstringb p s = true -> cstring (rd image) p s.
Proof.
  induction s as [|d s IH]; intros p; cbn [cstringb cstring]; destruct (rd image p) as [c| | |]; try done.
  - by intros ->%Z.eqb_eq.
  - rewrite !andb_true_iff. intros [[->%Z.eqb_eq Hd] Hs]. split_and!; [done| |by apply IH]. by apply Z.eqb_neq, negb_true_iff.
Qed.

Lemma placed s : cstringb (lit s) (chars s) = true -> (0 <? lit s) = true -> (length (chars s) < 32)%nat ->
  exists p, get_string s = Some (p, Z.of_nat (length (chars s)) + 1) /\
    0 < p /\ cstring (rd image) p (chars s) /\ Forall is_byte (chars s) /\ (length (chars s) < 32)%nat /\ Z.of_nat (length (chars s)) + 1 < 2 ^ 64.
Proof.
  intros Hc Hp Hl. exists (lit s). split_and!; [done|by apply Z.ltb_lt|by apply cstringb_ok|apply chars_bytes|done|lia].
Qed.

Lemma literals_placed l : l ∈ literals -> cstring (rd image) (lit l) (chars l).
Proof.
  unfold literals. rewrite !elem_of_cons, elem_of_nil. intros H. apply cstringb_ok.
  repeat (destruct H as [->|H]; [vm_compute; reflexivity|]). done.
Qed.

Lemma bytes_placed p (bs : list Z) :
  forallb (fun '(i, b) => match rd image (p + Z.of_nat i) with Ok c => c =? b | _ => false end) (zip (seq 0 (length bs)) bs) = true ->
  forall i b, bs !! i = Some b -> rd image (p + Z.of_nat i) = Ok b.
Proof.
  rewrite forallb_forall. intros H i b Hi. specialize (H (i, b)). cbv beta iota in H.
  destruct (rd image (p + Z.of_nat i)) as [c| | |]; try (discriminate H; fail);
    [assert ((c =? b) = true) as ->%Z.eqb_eq; [|done]|exfalso; enough (false = true) by done..];
    apply H, list_elem_of_In, list_elem_of_lookup; exists i; apply lookup_zip_Some; (split; [|done]); apply lookup_seq; split; try lia; by apply lookup_lt_Some in Hi.
Qed.

Lemma hart_placed n r s :
  (n =? 64) = false -> getprop n "reg" = Some (r, 4) -> getprop n "riscv,isa" = get_string s ->
  forall bs, length bs = 4%nat -> Forall is_byte bs -> (forall i b, bs !! i = Some b -> rd image (r + Z.of_nat i) = Ok b) ->
  cstringb (lit s) (chars s) = true -> (0 <? lit s) = true -> (length (chars s) < 32)%nat ->
  node_is (rd image) getprop 32 n (Hart (Some (chars "cpu")) (Some bs) (Some (chars s)) None (Some (chars "riscv,sv48"))).
Proof.
  intros Hn Er Es bs Hl HB Hr H1 H2 H3. split; cbn [h_dtype h_reg h_isa h_status h_mmu string_prop bytes_prop].
  - unfold getprop. rewrite Hn. apply placed; vm_compute; (reflexivity || lia).
  - exists r. rewrite Er, Hl. done.
  - rewrite Es. by apply placed.
  - unfold getprop. rewrite Hn. done.
  - unfold getprop. rewrite Hn. apply placed; vm_compute; (reflexivity || lia).
Qed.

Lemma walk_ok : walk (rd image) getprop next_subnode 32 128 [hart1; hart2].
Proof.
  split; [lia|]. split; [eapply hart_placed; try done; [repeat constructor; lia|apply bytes_placed|..]; try (vm_compute; reflexivity); vm_compute; lia|].
  split; [vm_compute; done|]. split; [eapply hart_placed; try done; [repeat constructor; lia|apply bytes_placed|..]; try (vm_compute; reflexivity); vm_compute; lia|].
  vm_compute. done.
Qed.
End FdtDemo.

Lemma fdt_parse_cpus_correct_witness :
  fdt_parse_cpus (rd FdtDemo.image) FdtDemo.path_offset FdtDemo.getprop FdtDemo.first_subnode FdtDemo.next_subnode FdtDemo.lit 1 32 3 0
    = Ok (10000000, true).
Proof.
  rewrite (fdt_parse_cpus_correct (rd FdtDemo.image) FdtDemo.path_offset FdtDemo.getprop FdtDemo.first_subnode FdtDemo.next_subnode FdtDemo.lit 1 32
    FdtDemo.literals_placed ltac:(lia) 3 0 (Some [0; 152; 150; 128]) [FdtDemo.hart1; FdtDemo.hart2]); [vm_compute; reflexivity| |cbn; lia|cbn; lia].
  intros _. split; [|exact FdtDemo.walk_ok]. exists (FdtDemo.numbers + 8). split; [vm_compute; reflexivity|]. split; [repeat constructor; lia|].
  apply FdtDemo.bytes_placed. vm_compute. reflexivity.
Defined.

Lemma isa_has_extension_correct_witness :
  isa_has_extension (rd FdtDemo.image) 32 32 (FdtDemo.lit "rv64imafdc_zba_zbb") (FdtDemo.lit "zbb") = Ok true.
Proof.
  rewrite (isa_has_extension_correct (rd FdtDemo.image) 32 32 (FdtDemo.lit "rv64imafdc_zba_zbb") (FdtDemo.lit "zbb") (chars "rv64imafdc_zba_zbb") (chars "zbb"));
    try apply chars_bytes; try (apply FdtDemo.cstringb_ok; vm_compute; reflexivity); try (vm_compute; reflexivity); vm_compute; lia.
Defined.
