(* ===== verification/ApStart.v ===== *)
(** * x86_64: starting the other processors

    arch/x86_64/cpu/ap.c finds low memory for the start code and sends the
    start sequence; arch/x86_64/apic/ipi.c and helpers.h drive the local
    interrupt controller in its two modes; kernel.c waits until every
    processor runs.  The controller is modelled as its manual documents it: a
    write of the interrupt command register sends an interrupt. *)

From S2P Require Import Prelude Memmap Ustar X86Cpu.
#[local] Open Scope Z_scope.

(** ** Pages of low memory *)
Section Lomem.
Context `{cfg_ok : kconfig_ok}.

Definition lomem_start (e : memmap_entry) : Z := MAX (ALIGN_UP (base e) PAGE_SIZE) 0x1000.
Definition lomem_end (e : memmap_entry) : Z := MIN (ALIGN_DOWN (u64 (base e + length_ e)) PAGE_SIZE) 0x100000.

Fixpoint lomem_loop (entries : list memmap_entry) (n count : Z) : Z :=
  match entries with
  | [] => 0
  | entry :: entries =>
      if negb (bool_decide (mtype entry = LIMINE_MEMMAP_USABLE)) then lomem_loop entries n count
      else if base entry >=? 0x100000 then 0 else
      let start := lomem_start entry in
      let end_ := lomem_end entry in
      if end_ <=? start then lomem_loop entries n count else
      let pages := (end_ - start) / PAGE_SIZE in
      if n <? u64 (count + pages) then u64 (start + u64 (u64 (n - count) * PAGE_SIZE))
      else lomem_loop entries n (u64 (count + pages))
  end.
Definition get_nth_lomem_page (entries : list memmap_entry) (n : Z) : Z := lomem_loop entries n 0.

(** The pages of one entry, and of a map, in order. *)
Definition entry_pages (e : memmap_entry) : list Z :=
  if bool_decide (mtype e = LIMINE_MEMMAP_USABLE) then
    map (fun i => lomem_start e + PAGE_SIZE * i) (seqZ 0 ((lomem_end e - lomem_start e) / PAGE_SIZE))
  else [].
Definition low_pages (entries : list memmap_entry) : list Z := concat (map entry_pages entries).

Hypothesis x86_pages : PAGE_SIZE_SHIFT = 12.

Lemma page_4096 : PAGE_SIZE = 4096.
Proof using x86_pages. unfold PAGE_SIZE, shl64, u64. by rewrite x86_pages. Qed.

Lemma memmap_tail e es : memmap_ok (e :: es) -> memmap_ok es.
Proof using Type.
  intros [H1 H2]. split.
  - intros i f Hf. exact (H1 (S i) f Hf).
  - intros i j f g Hij Hf Hg. apply (H2 (S i) (S j) f g); [lia|done|done].
Qed.

(** Start and end are pages between 4 KiB and 1 MiB, within the entry. *)
Lemma lomem_bounds e :
  0 <= base e -> 0 <= length_ e -> base e + length_ e + 2 * PAGE_SIZE <= 2 ^ 64 ->
  (4096 | lomem_start e) /\ (4096 | lomem_end e) /\ 4096 <= lomem_start e /\ base e <= lomem_start e /\
  lomem_end e <= 0x100000 /\ lomem_end e <= base e + length_ e.
Proof using x86_pages.
  rewrite page_4096. intros H1 H2 H3. unfold lomem_start, lomem_end. rewrite page_4096, MAX_max, MIN_min. change 4096 with (2 ^ 12).
  rewrite u64_small, ALIGN_DOWN_spec by (unfold is_u64; lia). destruct (ALIGN_UP_bounds (base e) 12) as [Ha Hb]; [lia|unfold is_u64; lia|lia|].
  pose proof (Z.mod_pos_bound (base e + length_ e) (2 ^ 12) ltac:(lia)) as Hm.
  assert (2 ^ 12 | base e + length_ e - (base e + length_ e) mod 2 ^ 12) as Hd.
  { exists ((base e + length_ e) / 2 ^ 12). pose proof (Z.div_mod (base e + length_ e) (2 ^ 12)). lia. }
  split_and!; try lia.
  - destruct (Z.max_spec (ALIGN_UP (base e) (2 ^ 12)) (2 ^ 12)) as [[_ ->]|[_ ->]]; [by exists 1|done].
  - destruct (Z.min_spec (base e + length_ e - (base e + length_ e) mod 2 ^ 12) 1048576) as [[_ ->]|[_ ->]]; [done|by exists 256].
Qed.

Lemma entry_pages_none e : lomem_end e <= lomem_start e -> entry_pages e = [].
Proof using x86_pages.
  intros H. unfold entry_pages. case_bool_decide; [|done]. rewrite seqZ_nil; [done|]. rewrite page_4096. apply Z.div_le_upper_bound; lia.
Qed.

Lemma high_pages es :
  memmap_ok es -> Forall (fun e => 0x100000 <= base e) es -> low_pages es = [].
Proof using x86_pages.
  intros Hm HF. induction es as [|e es IH]; [done|]. apply Forall_cons in HF as [He HF]. destruct (mo_range _ Hm 0%nat e eq_refl) as (H1 & H2 & H3).
  destruct (lomem_bounds e H1 H2 H3) as (_ & _ & _ & Hb & He1 & _). unfold low_pages. cbn [map concat]. rewrite entry_pages_none by lia.
  apply IH; [by apply memmap_tail in Hm|done].
Qed.

Lemma lomem_loop_ok es : forall n count,
  memmap_ok es -> 0 <= count <= n -> n < 2 ^ 62 ->
  lomem_loop es n count = default 0 (low_pages es !! Z.to_nat (n - count)).
Proof using x86_pages.
  induction es as [|e es IH]; intros n count Hm Hc Hn; cbn [lomem_loop]; [done|]. unfold low_pages. cbn [map concat]. fold (low_pages es).
  pose proof (memmap_tail _ _ Hm) as Hm'. destruct (mo_range _ Hm 0%nat e eq_refl) as (H1 & H2 & H3).
  destruct (lomem_bounds e H1 H2 H3) as (Ha & Hd & Hs & Hb & He1 & He2).
  destruct (bool_decide_reflect (mtype e = LIMINE_MEMMAP_USABLE)) as [Hu|Hu]; cbn [negb].
  2:{ assert (entry_pages e = []) as -> by (unfold entry_pages; by rewrite bool_decide_false). by apply IH. }
  rewrite Z.geb_leb. destruct (Z.leb_spec 0x100000 (base e)) as [Hh|Hh].
  { assert (low_pages es = []) as ->.
    { apply high_pages; [done|]. apply Forall_lookup. intros i f Hf. pose proof (mo_sorted _ Hm 0%nat (S i) e f ltac:(lia) eq_refl Hf). lia. }
    by rewrite entry_pages_none by lia. }
  destruct (Z.leb_spec (lomem_end e) (lomem_start e)) as [Hle|Hgt]; [rewrite entry_pages_none by done; by apply IH|].
  unfold entry_pages. rewrite bool_decide_true by done. rewrite page_4096. set (pages := (lomem_end e - lomem_start e) / 4096).
  assert (0 <= pages <= 256) as Hp by (unfold pages; split; [apply Z.div_pos; lia|apply Z.div_le_upper_bound; lia]).
  rewrite (u64_small (count + pages)) by (unfold is_u64; lia). destruct (Z.ltb_spec n (count + pages)) as [Hlt|Hge].
  - rewrite lookup_app_l by (rewrite length_map, length_seqZ; lia). rewrite list_lookup_fmap, lookup_seqZ_lt by lia. cbn [fmap option_fmap option_map default from_option].
    assert (4096 * pages <= lomem_end e - lomem_start e) as Hpp by (unfold pages; apply Z.mul_div_le; lia).
    rewrite (u64_small (n - count)), (u64_small ((n - count) * 4096)), u64_small by (unfold is_u64; lia). rewrite Z2Nat.id by lia. unfold id. lia.
  - rewrite lookup_app_r by (rewrite length_map, length_seqZ; lia). rewrite length_map, length_seqZ, IH by (done || lia). do 2 f_equal. lia.
Qed.

(** A page of the list: aligned, below 1 MiB but not the first, and in usable memory. *)
Definition usable_low_page (entries : list memmap_entry) (p : Z) : Prop :=
  (4096 | p) /\ 4096 <= p /\ p + 4096 <= 0x100000 /\
  exists e, e ∈ entries /\ mtype e = LIMINE_MEMMAP_USABLE /\ base e <= p /\ p + 4096 <= base e + length_ e.

Lemma entry_pages_spec e p :
  0 <= base e -> 0 <= length_ e -> base e + length_ e + 2 * PAGE_SIZE <= 2 ^ 64 ->
  p ∈ entry_pages e <-> mtype e = LIMINE_MEMMAP_USABLE /\ (4096 | p) /\ lomem_start e <= p /\ p + 4096 <= lomem_end e.
Proof using x86_pages.
  intros H1 H2 H3. destruct (lomem_bounds e H1 H2 H3) as ([a Ha] & [b Hb] & _). unfold entry_pages. case_bool_decide as Hu; [|split; [by intros ?%not_elem_of_nil|by intros [? _]]].
  rewrite list_elem_of_fmap, page_4096. setoid_rewrite elem_of_seqZ. rewrite Ha, Hb in *. rewrite <- Z.mul_sub_distr_r, Z.div_mul by lia. split.
  - intros (i & -> & Hi). split; [done|]. split; [exists (a + i); lia|lia].
  - intros (_ & [q ->] & Hs & He). exists (q - a). split; lia.
Qed.

Lemma low_pages_spec es p : memmap_ok es -> p ∈ low_pages es <-> usable_low_page es p.
Proof using x86_pages.
  intros Hm. unfold low_pages. rewrite list_elem_of_In, in_concat. setoid_rewrite in_map_iff. split.
  - intros (l & (e & <- & He) & Hp). apply list_elem_of_In in He, Hp. apply list_elem_of_lookup in He as (i & Hi).
    destruct (mo_range _ Hm i e Hi) as (H1 & H2 & H3). destruct (lomem_bounds e H1 H2 H3) as (_ & _ & Hs & Hb & He1 & He2).
    apply entry_pages_spec in Hp as (Hu & Hd & Hp1 & Hp2); [|done..]. split_and!; [done|lia|lia|]. exists e. split; [by apply list_elem_of_lookup_2 with i|]. split; [done|lia].
  - intros (Hd & Hp1 & Hp2 & e & He & Hu & Hp3 & Hp4). exists (entry_pages e). split; [exists e; split; [done|by apply list_elem_of_In]|].
    apply list_elem_of_In. apply list_elem_of_lookup in He as (i & Hi). destruct (mo_range _ Hm i e Hi) as (H1 & H2 & H3). apply entry_pages_spec; [done..|]. split_and!; [done|done| |].
    + unfold lomem_start. rewrite MAX_max, page_4096. change 4096 with (2 ^ 12) in *. rewrite page_4096 in H3. rewrite ALIGN_UP_spec by (unfold is_u64; lia).
      clear - Hp1 Hp3 Hd. destruct Hd as [q ->]. Z.to_euclidean_division_equations. lia.
    + unfold lomem_end. rewrite MIN_min, page_4096. change 4096 with (2 ^ 12) in *. rewrite page_4096 in H3. rewrite u64_small, ALIGN_DOWN_spec by (unfold is_u64; lia).
      clear - Hp2 Hp4 Hd. destruct Hd as [q ->]. Z.to_euclidean_division_equations. lia.
Qed.

Lemma low_pages_NoDup es : memmap_ok es -> NoDup (low_pages es).
Proof using x86_pages.
  induction es as [|e es IH]; intros Hm; [constructor|]. unfold low_pages. cbn [map concat]. fold (low_pages es). pose proof (memmap_tail _ _ Hm) as Hm'.
  destruct (mo_range _ Hm 0%nat e eq_refl) as (H1 & H2 & H3). apply NoDup_app. split_and!; [| |by apply IH].
  - unfold entry_pages. case_bool_decide; [|constructor]. apply NoDup_fmap_2; [|apply NoDup_seqZ]. intros i j. rewrite page_4096. lia.
  - intros p Hp Hq. apply entry_pages_spec in Hp as (_ & _ & _ & Hp); [|done..]. apply low_pages_spec in Hq; [|done]. destruct Hq as (_ & _ & _ & f & Hf & _ & Hb & _).
    destruct (lomem_bounds e H1 H2 H3) as (_ & _ & _ & _ & _ & He2). apply list_elem_of_lookup in Hf as (i & Hi).
    pose proof (mo_sorted _ Hm 0%nat (S i) e f ltac:(lia) eq_refl Hi). lia.
Qed.

(** [get_nth_lomem_page] numbers the usable pages below 1 MiB: different
    numbers give different pages, every usable page has a number, and 0 is
    returned exactly when there are not that many. *)
Lemma get_nth_lomem_page_ok es n :
  memmap_ok es -> 0 <= n < 2 ^ 62 ->
  match low_pages es !! Z.to_nat n with
  | Some p => get_nth_lomem_page es n = p /\ usable_low_page es p /\ p <> 0
  | None => get_nth_lomem_page es n = 0
  end.
Proof using x86_pages.
  intros Hm Hn. unfold get_nth_lomem_page. rewrite lomem_loop_ok, Z.sub_0_r by (done || lia). destruct (low_pages es !! Z.to_nat n) as [p|] eqn:E; [|done].
  split; [done|]. apply list_elem_of_lookup_2 in E. apply low_pages_spec in E; [|done]. split; [done|]. destruct E as (_ & H & _). lia.
Qed.
End Lomem.

(** ** The local interrupt controller *)
Definition APIC_REGISTER_ICRL : Z := 0x300.
Definition APIC_REGISTER_ICRH : Z := 0x310.
Definition x2APIC_REGISTER_ICR : Z := 0x830.
Definition LAPIC_ICR_DELIVERY_STATUS : Z := Z.shiftl 1 12.
Definition LAPIC_ICR_DMODE_SIPI : Z := Z.shiftl 6 8.
Definition LAPIC_ICR_DMODE_INIT : Z := Z.shiftl 5 8.

(** Reached through model-specific registers in x2APIC mode, through memory
    otherwise; [pause] is [spin()], [sleep] the wait between the two rounds. *)
Class lapic_bus (D : Type) := {
  msr_write : Z -> Z -> D -> D;
  mmio_write : Z -> Z -> D -> D;
  msr_read : Z -> D -> Z * D;
  mmio_read : Z -> D -> Z * D;
  pause : D -> D;
  sleep : D -> D;
}.

Section Ipi.
Context {D : Type} `{lapic_bus D} (x2apic : bool) (lapic_vbase : Z).

(** The number in x2APIC mode; registers are 16 bytes apart in memory. *)
Definition x2_register (reg : Z) : res Z :=
  let reg := Z.shiftr reg 4 + 0x800 in
  _ ← assert ((0x800 <=? reg) && (reg <=? 0x8FF)); Ok reg.

Definition write_lapic_register (reg data : Z) (d : D) : res D :=
  if x2apic then r ← x2_register reg; Ok (msr_write r (u32 data) d)
  else Ok (mmio_write (u64 (lapic_vbase + reg)) (u32 data) d).

Definition read_lapic_register (reg : Z) (d : D) : res (Z * D) :=
  if x2apic then r ← x2_register reg; let '(v, d) := msr_read r d in Ok (u32 v, d)
  else let '(v, d) := mmio_read (u64 (lapic_vbase + reg)) d in Ok (u32 v, d).

Fixpoint await_loop (fuel : nat) (d : D) : res D :=
  match fuel with
  | O => NoFuel
  | S fuel =>
      '(v, d) ← read_lapic_register APIC_REGISTER_ICRL d;
      if negb (Z.land v LAPIC_ICR_DELIVERY_STATUS =? 0) then await_loop fuel (pause d) else Ok d
  end.

(** A fence in x2APIC mode. *)
Definition await_ipideliver (fuel : nat) (d : D) : res D := if x2apic then Ok d else await_loop fuel d.

(** The part the three share: [low] holds mode and vector. *)
Definition send_icr (fuel : nat) (target_coreid low : Z) (d : D) : res D :=
  d ← await_ipideliver fuel d;
  if x2apic then Ok (msr_write x2APIC_REGISTER_ICR (Z.lor (shl64 target_coreid 32) low) d)
  else
    d ← write_lapic_register APIC_REGISTER_ICRH (u32 (Z.shiftl target_coreid 24)) d;
    write_lapic_register APIC_REGISTER_ICRL low d.

Definition arch_send_ipi (fuel : nat) (target_coreid vector : Z) (d : D) : res D := send_icr fuel target_coreid (u16 vector) d.
Definition x86_send_sipi (fuel : nat) (target_coreid starting_page : Z) (d : D) : res D :=
  send_icr fuel target_coreid (Z.lor LAPIC_ICR_DMODE_SIPI (u8 starting_page)) d.
Definition x86_send_init (fuel : nat) (target_coreid : Z) (d : D) : res D := send_icr fuel target_coreid LAPIC_ICR_DMODE_INIT d.

(** [RBTREE_FOR_EACH(detected_apics, node)] with the boot processor left out. *)
Fixpoint for_each_ap (apics : list Z) (bsp_apic_id : Z) (send : Z -> D -> res D) (d : D) : res D :=
  match apics with
  | [] => Ok d
  | apic_id :: apics =>
      d ← (if negb (apic_id =? bsp_apic_id) then send apic_id d else Ok d);
      for_each_ap apics bsp_apic_id send d
  end.

(** The start sequence of arch_init_aps, once the start code is in place. *)
Definition start_aps (fuel : nat) (apics : list Z) (bsp_apic_id trampoline_page : Z) (d : D) : res D :=
  d ← for_each_ap apics bsp_apic_id (x86_send_init fuel) d;
  for_each_ap apics bsp_apic_id (fun apic_id => x86_send_sipi fuel apic_id (trampoline_page / 4096)) (sleep d).
End Ipi.

(** ** What the controller does *)
Record ipi := Ipi { ipi_dest : Z; ipi_mode : Z; ipi_vector : Z }.

(** The fields of the command register. *)
Definition icr_ipi (dest low : Z) : ipi := Ipi dest (Z.land (Z.shiftr low 8) 7) (Z.land low 0xFF).

Class lapic_ok (D : Type) `{lapic_bus D} (vbase : Z) := {
  (** The mode it is in. *)
  x2mode : bool;
  (** Interrupts sent so far, the destination register, and the reads it takes
      until the last one is delivered. *)
  sent : D -> list ipi;
  dest : D -> Z;
  delivering : D -> nat;
  x2_icr_law v d : x2mode = true -> sent (msr_write x2APIC_REGISTER_ICR v d) = sent d ++ [icr_ipi (Z.shiftr v 32) v];
  icrh_law v d : x2mode = false -> sent (mmio_write (u64 (vbase + APIC_REGISTER_ICRH)) v d) = sent d /\
    dest (mmio_write (u64 (vbase + APIC_REGISTER_ICRH)) v d) = Z.shiftr v 24;
  icrl_law v d : x2mode = false -> sent (mmio_write (u64 (vbase + APIC_REGISTER_ICRL)) v d) = sent d ++ [icr_ipi (dest d) v];
  icrl_read d : x2mode = false -> let '(v, d') := mmio_read (u64 (vbase + APIC_REGISTER_ICRL)) d in
    sent d' = sent d /\ (delivering d' <= pred (delivering d))%nat /\ (Z.testbit v 12 = true -> delivering d <> O);
  pause_ok d : sent (pause d) = sent d /\ (delivering (pause d) <= delivering d)%nat;
  sleep_ok d : sent (sleep d) = sent d;
}.

Section IpiProofs.
Context {D : Type} `{B : lapic_bus D} (x2apic : bool) (vbase : Z) `{L : !lapic_ok D vbase}.
Hypothesis mode_ok : x2apic = x2mode.
(** Long enough for any interrupt under way. *)
Context (fuel : nat) (fuel_ok : forall d : D, (delivering d < fuel)%nat).

(** Identifiers have eight bits in memory mode. *)
Definition id_ok (id : Z) : Prop := 0 <= id < (if x2apic then 2 ^ 32 else 2 ^ 8).

Lemma await_loop_ok n : forall d, x2apic = false -> (delivering d < n)%nat -> returns (await_loop x2apic vbase n d) (fun d' => sent d' = sent d).
Proof using mode_ok.
  clear fuel_ok. induction n as [|n IH]; intros d Hx Hn; [lia|]. cbn [await_loop]. unfold read_lapic_register. rewrite Hx.
  assert (x2mode (lapic_ok := L) = false) as Hmode by congruence. pose proof (icrl_read d Hmode) as H. destruct (mmio_read _ d) as [v d1]. destruct H as (Hs & Hd & Hb). rewrite bind_Ok.
  assert (negb (Z.land (u32 v) LAPIC_ICR_DELIVERY_STATUS =? 0) = Z.testbit v 12) as ->.
  { unfold u32. rewrite <- Z.land_ones, <- Z.land_assoc by lia. change (Z.land (Z.ones 32) LAPIC_ICR_DELIVERY_STATUS) with (2 ^ 12). destruct (Z.testbit v 12) eqn:E.
    - apply negb_true_iff, Z.eqb_neq. intros H0. apply (f_equal (fun z => Z.testbit z 12)) in H0. rewrite Z.land_spec, E in H0. discriminate H0.
    - apply negb_false_iff, Z.eqb_eq, Z.bits_inj'. intros k Hk. rewrite Z.land_spec, Z.pow2_bits_eqb, Z.bits_0 by lia. destruct (Z.eqb_spec 12 k) as [<-|]; [by rewrite E|apply andb_false_r]. }
  destruct (Z.testbit v 12); [|by apply returns_Ok]. destruct (pause_ok d1) as [Hp Hq]. specialize (Hb eq_refl). rewrite <- Hx.
  eapply returns_mono; [apply IH; [done|lia]|]. intros d2 ->. congruence.
Qed.

(** One command: exactly one interrupt, to the target, with the mode and the
    vector asked for. *)
Lemma send_icr_ok id low d :
  id_ok id -> 0 <= low < 2 ^ 12 ->
  returns (send_icr x2apic vbase fuel id low d) (fun d' => sent d' = sent d ++ [icr_ipi id low]).
Proof using mode_ok fuel_ok.
  unfold id_ok, send_icr, await_ipideliver. intros Hid Hlow. destruct (decide (x2apic = true)) as [Hx|Hx%not_true_is_false]; rewrite Hx in Hid |- *.
  - rewrite bind_Ok. apply returns_Ok. rewrite x2_icr_law by congruence. do 2 f_equal.
    assert (Z.lor (shl64 id 32) low = low + id * 2 ^ 32) as ->.
    { unfold shl64. rewrite Z.shiftl_mul_pow2, u64_small by (lia || (unfold is_u64; lia)). rewrite Z.lor_comm. apply lor_add_pow2; lia. }
    unfold icr_ipi. change 7 with (Z.ones 3). change 255 with (Z.ones 8). rewrite !Z.land_ones, !Z.shiftr_div_pow2 by lia.
    f_equal; clear - Hid Hlow; Z.to_euclidean_division_equations; lia.
  - destruct (await_loop_ok fuel d Hx (fuel_ok d)) as (d1 & E & S1). rewrite Hx in E. rewrite E. rewrite bind_Ok. unfold write_lapic_register. rewrite bind_Ok. apply returns_Ok.
    rewrite icrl_law by congruence. assert (x2mode (lapic_ok := L) = false) as Hmode by congruence. destruct (icrh_law (u32 (u32 (Z.shiftl id 24))) d1 Hmode) as [E1 E2]. rewrite E1, E2, S1. do 2 f_equal.
    unfold u32. rewrite Z.shiftl_mul_pow2 by lia. rewrite (Z.mod_small (id * 2 ^ 24)), Z.mod_small, (Z.mod_small low), Z.shiftr_div_pow2, Z.div_mul by lia. done.
Qed.

Lemma for_each_ap_ok send (f : Z -> ipi) apics bsp : forall d,
  Forall id_ok apics -> (forall id d, id_ok id -> returns (send id d) (fun d' => sent d' = sent d ++ [f id])) ->
  returns (for_each_ap apics bsp send d) (fun d' => sent d' = sent d ++ map f (filter (fun id => id <> bsp) apics)).
Proof using Type.
  induction apics as [|id apics IH]; intros d HF Hsend; cbn [for_each_ap]; [apply returns_Ok; by rewrite filter_nil, app_nil_r|].
  apply Forall_cons in HF as [Hid HF]. destruct (Z.eqb_spec id bsp) as [->|Hne]; cbn [negb].
  - rewrite bind_Ok, filter_cons_False by tauto. by apply IH.
  - destruct (Hsend id d Hid) as (d1 & -> & S1). rewrite bind_Ok, filter_cons_True by done. eapply returns_mono; [by apply IH|]. intros d2 ->. rewrite S1, <- app_assoc. done.
Qed.
End IpiProofs.

Definition MODE_INIT : Z := 5.
Definition MODE_SIPI : Z := 6.

(** C40: With a sorted map that has at least two usable pages below 1 MiB, the pages for
    the page table and for the start code are two different usable low
    pages, and the start sequence sends every processor but the boot processor one INIT and
    then one start-up interrupt whose vector is the start code's page, in
    either mode of the controller, and nothing else. *)
Theorem ap_start_sequence_correct `{cfg_ok : kconfig_ok} {D} `{B : lapic_bus D} x2apic vbase `{L : !lapic_ok D vbase} fuel es apics bsp d :
  PAGE_SIZE_SHIFT = 12 -> memmap_ok es -> (2 <= length (low_pages es))%nat ->
  x2apic = x2mode -> (forall d : D, (delivering d < fuel)%nat) -> Forall (id_ok x2apic) apics ->
  let table := get_nth_lomem_page es 0 in
  let code := get_nth_lomem_page es 1 in
  let aps := filter (fun id => id <> bsp) apics in
  table <> code /\ usable_low_page es table /\ usable_low_page es code /\
  returns (start_aps x2apic vbase fuel apics bsp code d) (fun d' =>
    sent d' = sent d ++ map (fun id => Ipi id MODE_INIT 0) aps ++ map (fun id => Ipi id MODE_SIPI (code / 4096)) aps) /\
  code / 4096 * 4096 = code.
Proof.
  intros H12 Hm Hl Hx Hf HF. cbv zeta.
  pose proof (get_nth_lomem_page_ok H12 es 0 Hm ltac:(lia)) as H0. pose proof (get_nth_lomem_page_ok H12 es 1 Hm ltac:(lia)) as H1.
  change (Z.to_nat 0) with 0%nat in H0. change (Z.to_nat 1) with 1%nat in H1.
  destruct (low_pages es !! 0%nat) as [p|] eqn:E0; [|apply lookup_ge_None in E0; lia]. destruct (low_pages es !! 1%nat) as [q|] eqn:E1; [|apply lookup_ge_None in E1; lia].
  destruct H0 as (-> & U0 & _), H1 as (-> & U1 & _). destruct U1 as (Hd & Hp1 & Hp2 & He).
  assert (q / 4096 * 4096 = q) as Hq by (destruct Hd as [k ->]; by rewrite Z.div_mul by lia).
  split_and!; [|done|by repeat split| |done].
  { intros ->. assert (0%nat = 1%nat) by (eapply (NoDup_lookup (low_pages es)); [by apply low_pages_NoDup|done|done]). done. }
  unfold start_aps. assert (0 <= q / 4096 < 256) as Hv by (clear - Hp1 Hp2 Hq; lia).
  destruct (for_each_ap_ok x2apic vbase (x86_send_init x2apic vbase fuel) (fun id => Ipi id MODE_INIT 0) apics bsp d HF) as (d1 & -> & S1).
  { intros id d0 Hid. exact (send_icr_ok x2apic vbase Hx fuel Hf id LAPIC_ICR_DMODE_INIT d0 Hid ltac:(vm_compute; done)). }
  rewrite bind_Ok. eapply returns_mono; [apply (for_each_ap_ok x2apic vbase _ (fun id => Ipi id MODE_SIPI (q / 4096)) apics bsp (sleep d1) HF)|].
  - intros id d0 Hid. unfold x86_send_sipi. replace (u8 (q / 4096)) with (q / 4096) by (unfold u8; by rewrite Z.mod_small).
    assert (Z.lor LAPIC_ICR_DMODE_SIPI (q / 4096) = q / 4096 + 6 * 2 ^ 8) as El by (rewrite Z.lor_comm; change LAPIC_ICR_DMODE_SIPI with (6 * 2 ^ 8); apply lor_add_pow2; lia).
    eapply returns_mono; [apply (send_icr_ok x2apic vbase Hx fuel Hf id); [done|rewrite El; lia]|]. intros d2 ->. do 2 f_equal. rewrite El. unfold icr_ipi, MODE_SIPI.
    change 7 with (Z.ones 3). change 255 with (Z.ones 8). rewrite !Z.land_ones, !Z.shiftr_div_pow2 by lia.
    set (v := q / 4096) in *. clearbody v. f_equal; clear - Hv; Z.to_euclidean_division_equations; lia.
  - intros d2 ->. rewrite sleep_ok, S1, <- app_assoc. done.
Qed.

(** ** Waiting until all processors run (kernel.c)

    [cpus_started k] is the counter at the [k]-th load: every processor adds one
    when its idle thread starts. *)
Section Wait.
Context (cpus_started : nat -> Z) (detected_cpus : Z).

Fixpoint wait_loop (fuel k : nat) (i started : Z) : res Z :=
  match fuel with
  | O => NoFuel
  | S fuel =>
      if negb (i >? 0) then Ok started else
      let old := started in
      let started := cpus_started k in
      if started =? detected_cpus then Ok started else
      i ← (if started >? old then int_result (i + 10) else Ok i);
      wait_loop fuel (S k) (i - 1) started
  end.

(** The part of threaded_kmain before the boot memory is reclaimed. *)
Definition wait_for_aps (fuel : nat) : res unit :=
  started ← wait_loop fuel 0 100 0;
  if negb (started =? detected_cpus) then Panic else Ok tt.

Hypothesis counts_up : forall k j, (k <= j)%nat -> cpus_started k <= cpus_started j.
Hypothesis counts_cpus : forall k, 0 <= cpus_started k <= detected_cpus.
Hypothesis cpus_fit : detected_cpus < 2 ^ 27.

(** Turns left: one per unit of the budget, which grows by ten per start. *)
Lemma wait_loop_ends fuel : forall k i started,
  0 <= i -> 0 <= started <= detected_cpus -> (started <= cpus_started k) ->
  i + 10 * (detected_cpus - started) < Z.of_nat fuel -> i + 10 * (detected_cpus - started) < 2 ^ 31 - 20 ->
  exists st, wait_loop fuel k i started = Ok st.
Proof using counts_up counts_cpus.
  induction fuel as [|fuel IH]; intros k i started Hi Hs Hk Hf Hb; [lia|]. cbn [wait_loop]. rewrite Z.gtb_ltb. destruct (Z.ltb_spec 0 i) as [Hp|Hp]; cbn [negb]; [|eauto].
  destruct (Z.eqb_spec (cpus_started k) detected_cpus) as [He|He]; [eauto|]. pose proof (counts_cpus k). pose proof (counts_up k (S k) ltac:(lia)).
  rewrite Z.gtb_ltb. destruct (Z.ltb_spec started (cpus_started k)) as [Hlt|Hge].
  - unfold int_result. rewrite (proj2 (Z.leb_le _ _)), (proj2 (Z.ltb_lt _ _)) by lia. cbn [andb]. rewrite bind_Ok. apply IH; lia.
  - rewrite bind_Ok. apply IH; lia.
Qed.

(** While the next start is within the budget, the loop ends with all of them. *)
Lemma wait_loop_all fuel : forall k i started st,
  (forall k, cpus_started k < detected_cpus -> exists j, (k < j <= k + 10)%nat /\ cpus_started k < cpus_started j) ->
  started <= cpus_started k -> (exists j, (k <= j)%nat /\ Z.of_nat (j - k) + 1 <= i /\ started < cpus_started j) ->
  wait_loop fuel k i started = Ok st -> st = detected_cpus.
Proof using counts_up counts_cpus.
  induction fuel as [|fuel IH]; intros k i started st HP Hk (j & Hkj & Hji & Hj) E; [discriminate E|]. cbn [wait_loop] in E.
  rewrite Z.gtb_ltb in E. destruct (Z.ltb_spec 0 i) as [Hp|Hp]; cbn [negb] in E; [|lia].
  destruct (Z.eqb_spec (cpus_started k) detected_cpus) as [He|He]; [congruence|]. pose proof (counts_cpus k). pose proof (counts_up k (S k) ltac:(lia)).
  rewrite Z.gtb_ltb in E. destruct (Z.ltb_spec started (cpus_started k)) as [Hlt|Hge].
  - apply bind_Ok_inv in E as (i' & Ei & E). unfold int_result in Ei. destruct (_ && _); [|discriminate Ei]. injection Ei as <-.
    destruct (HP k ltac:(lia)) as (j' & Hj' & Hup). eapply IH in E; [done|done|done|]. exists j'. split_and!; lia.
  - rewrite bind_Ok in E. eapply IH in E; [done|done|lia|]. exists j. destruct (decide (j = k)) as [->|]; [lia|]. split_and!; lia.
Qed.

(** The wait for the other processors ends after at most 100 turns and ten more per
    processor; it stops the machine only if some processor is missing at its
    last look; and it succeeds whenever the first processor shows within 100
    looks and each further one within ten looks of the one before. *)
Theorem wait_for_aps_correct fuel :
  100 + 10 * detected_cpus < Z.of_nat fuel ->
  nofault (wait_for_aps fuel) (fun _ => True) /\
  ((exists j, (j < 100)%nat /\ 0 < cpus_started j) ->
   (forall k, cpus_started k < detected_cpus -> exists j, (k < j <= k + 10)%nat /\ cpus_started k < cpus_started j) ->
   wait_for_aps fuel = Ok tt).
Proof using counts_up counts_cpus cpus_fit.
  intros Hf. pose proof (counts_cpus 0). destruct (wait_loop_ends fuel 0 100 0) as [st E]; [lia..|]. unfold wait_for_aps. rewrite E, bind_Ok. split.
  - by destruct (negb _).
  - intros (j & Hj & Hpos) HP. apply wait_loop_all in E as ->; [by rewrite Z.eqb_refl|done|lia|]. exists j. split_and!; lia.
Qed.
End Wait.

Lemma wait_for_aps_correct_witness :
  wait_for_aps (fun k => Z.min 4 (1 + Z.of_nat k / 3)) 4 141 = Ok tt.
Proof.
  apply (wait_for_aps_correct (fun k => Z.min 4 (1 + Z.of_nat k / 3)) 4).
  - intros k j Hkj. pose proof (Z.div_le_mono (Z.of_nat k) (Z.of_nat j) 3). lia.
  - intros k. pose proof (Z.div_pos (Z.of_nat k) 3). lia.
  - lia.
  - lia.
  - exists 0%nat. split; [lia|done].
  - intros k Hk. exists (k + 3)%nat. split; [lia|]. rewrite Nat2Z.inj_add. change (Z.of_nat 3) with (1 * 3). rewrite Z.div_add by lia. lia.
Defined.

(** ** A machine with three processors, in memory mode *)
Module ApDemo.
Record chip := Chip { log : list ipi; target : Z; busy_sending : bool }.
#[export] Instance chip_bus : lapic_bus chip := {|
  msr_write _ _ d := d;
  mmio_write a v d :=
    if a =? 0xFEE00310 then Chip (log d) (Z.shiftr v 24) (busy_sending d)
    else if a =? 0xFEE00300 then Chip (log d ++ [icr_ipi (target d) v]) (target d) true
    else d;
  msr_read _ d := (0, d);
  mmio_read a d := (if busy_sending d then 4096 else 0, Chip (log d) (target d) false);
  pause d := d;
  sleep d := d;
|}.
#[export] Program Instance chip_ok : lapic_ok chip 0xFEE00000 := {| x2mode := false; sent := log; dest := target; delivering d := if busy_sending d then 1%nat else 0%nat |}.
Next Obligation. done. Qed.
Next Obligation. done. Qed.
Next Obligation. done. Qed.
Next Obligation. intros d _. cbn. split_and!; [done|lia|]. by destruct (busy_sending d). Qed.
Next Obligation. intros d. split; [done|]. cbn. lia. Qed.
Next Obligation. done. Qed.
End ApDemo.

Lemma ap_start_sequence_correct_witness :
  returns (start_aps (H := ApDemo.chip_bus) false 0xFEE00000 3 [0; 1; 2] 0 0x2000 (ApDemo.Chip [] 0 false)) (fun d' =>
    ApDemo.log d' = [Ipi 1 5 0; Ipi 2 5 0; Ipi 1 6 2; Ipi 2 6 2]).
Proof.
  exact (proj1 (proj2 (proj2 (proj2 (ap_start_sequence_correct (cfg := x86_64_config) (cfg_ok := x86_64_config_ok) (B := ApDemo.chip_bus) (L := ApDemo.chip_ok) false 0xFEE00000 3 demo_map [0; 1; 2] 0 (ApDemo.Chip [] 0 false)
    eq_refl demo_map_ok ltac:(vm_compute; lia) eq_refl ltac:(intros d; cbn; destruct (ApDemo.busy_sending d); lia) ltac:(repeat constructor; vm_compute; done)))))).
Defined.

(** ** x2APIC mode *)
Definition MSR_APIC_BASE : Z := 0x1B.
Definition LAPIC_BASE_x1ENABLE : Z := Z.shiftl 1 11.
Definition LAPIC_BASE_x2ENABLE : Z := Z.shiftl 1 10.

(** The mode bits, and the changes of them that the processor accepts; any
    other write raises an exception. *)
Definition apic_mode (v : Z) : bool * bool := (Z.testbit v 11, Z.testbit v 10).
Definition legal_change (old new : bool * bool) : bool :=
  match old, new with
  | (false, false), (false, false) | (false, false), (true, false) => true
  | (true, false), (true, true) | (true, false), (true, false) | (true, false), (false, false) => true
  | (true, true), (true, true) | (true, true), (false, false) => true
  | _, _ => false
  end.
Definition wrmsr_apic_base (c : x86cpu) (v : Z) : res x86cpu :=
  old ← rdmsr c MSR_APIC_BASE;
  if legal_change (apic_mode old) (apic_mode v) then wrmsr c MSR_APIC_BASE v else Fault.

Definition enable_x2apic (c : x86cpu) : res x86cpu :=
  apic_base ← rdmsr c MSR_APIC_BASE;
  let apic_enabled := negb (Z.land apic_base LAPIC_BASE_x1ENABLE =? 0) in
  let x2apic_enabled := negb (Z.land apic_base LAPIC_BASE_x2ENABLE =? 0) in
  '(apic_base, c) ← (if negb apic_enabled then
                       let apic_base := Z.lor apic_base LAPIC_BASE_x1ENABLE in
                       c ← wrmsr_apic_base c apic_base; Ok (apic_base, c)
                     else Ok (apic_base, c));
  if negb x2apic_enabled then wrmsr_apic_base c (Z.lor apic_base LAPIC_BASE_x2ENABLE) else Ok c.

Lemma land_pow2_testbit v n : 0 <= n -> negb (Z.land v (Z.shiftl 1 n) =? 0) = Z.testbit v n.
Proof.
  intros Hn. rewrite Z.shiftl_1_l. destruct (Z.testbit v n) eqn:E.
  - apply negb_true_iff, Z.eqb_neq. intros H. apply (f_equal (fun z => Z.testbit z n)) in H. rewrite Z.land_spec, E, Z.pow2_bits_true, Z.bits_0 in H by lia. discriminate H.
  - apply negb_false_iff, Z.eqb_eq, Z.bits_inj'. intros k Hk. rewrite Z.land_spec, Z.pow2_bits_eqb, Z.bits_0 by lia. destruct (Z.eqb_spec n k) as [<-|]; [by rewrite E|apply andb_false_r].
Qed.

(** From every mode the controller can be in, disabled included, [enable_x2apic]
    takes the accepted steps and ends in x2APIC mode; the other bits stay. *)
Theorem enable_x2apic_correct c v :
  msrs c !! MSR_APIC_BASE = Some v -> is_u64 v -> apic_mode v <> (false, true) ->
  returns (enable_x2apic c) (fun c' => exists v', msrs c' = <[MSR_APIC_BASE := v']> (msrs c) /\ apic_mode v' = (true, true) /\
    forall k, 0 <= k -> k <> 10 -> k <> 11 -> Z.testbit v' k = Z.testbit v k).
Proof.
  intros Hv Hu Hm. unfold enable_x2apic, rdmsr. rewrite (load_Ok _ _ _ Hv), bind_Ok. unfold LAPIC_BASE_x1ENABLE, LAPIC_BASE_x2ENABLE. rewrite !land_pow2_testbit by lia.
  assert (forall w n k, 0 <= n -> 0 <= k -> Z.testbit (Z.lor w (Z.shiftl 1 n)) k = Z.testbit w k || (n =? k)) as Hlor.
  { intros w n k Hn Hk. by rewrite Z.lor_spec, Z.shiftl_1_l, Z.pow2_bits_eqb by lia. }
  assert (forall w n, is_u64 w -> 0 <= n < 64 -> is_u64 (Z.lor w (Z.shiftl 1 n))) as Hul.
  { intros w n Hw Hn. apply lor_u64; [done|]. rewrite Z.shiftl_1_l. unfold is_u64. split; [lia|]. apply Z.pow_lt_mono_r; lia. }
  assert (forall c0 w w', msrs c0 !! MSR_APIC_BASE = Some w -> is_u64 w' -> legal_change (apic_mode w) (apic_mode w') = true ->
    wrmsr_apic_base c0 w' = Ok (with_msrs c0 (<[MSR_APIC_BASE := w']> (msrs c0)))) as Hw.
  { intros c0 w w' H0 H1 H2. unfold wrmsr_apic_base, rdmsr. rewrite (load_Ok _ _ _ H0), bind_Ok, H2. unfold wrmsr. rewrite (store_Ok _ _ _ _ H0), u64_small by done. done. }
  unfold apic_mode in Hm. destruct (Z.testbit v 11) eqn:E11, (Z.testbit v 10) eqn:E10; cbn [negb]; try done.
  - rewrite bind_Ok. apply returns_Ok. exists v. split; [by rewrite insert_id|]. unfold apic_mode. by rewrite E11, E10.
  - rewrite bind_Ok. rewrite (Hw c v); [|done|by apply Hul|unfold apic_mode; by rewrite !Hlor, E11, E10 by lia].
    apply returns_Ok. eexists. split; [done|]. unfold apic_mode. rewrite !Hlor, E11, E10 by lia. split; [done|]. intros k H0 H1 H2. rewrite Hlor, (proj2 (Z.eqb_neq 10 k)) by lia. apply orb_false_r.
  - rewrite (Hw c v); [|done|by apply Hul|unfold apic_mode; by rewrite !Hlor, E11, E10 by lia]. rewrite !bind_Ok. set (v1 := Z.lor v (Z.shiftl 1 11)).
    rewrite (Hw _ v1); [|cbn [msrs with_msrs]; by rewrite lookup_insert_eq|by do 2 (apply Hul; [|lia])|unfold v1, apic_mode; by rewrite !Hlor, E11, E10 by lia].
    apply returns_Ok. eexists. split; [cbn [msrs with_msrs]; by rewrite insert_insert_eq|]. unfold v1, apic_mode. rewrite !Hlor, E11 by lia. split; [by rewrite !orb_true_r|].
    intros k H0 H1 H2. rewrite !Hlor, (proj2 (Z.eqb_neq 10 k)), (proj2 (Z.eqb_neq 11 k)) by lia. by rewrite !orb_false_r.
Qed.

Lemma enable_x2apic_correct_witness :
  returns (enable_x2apic (X86Cpu 0 0 0 {[MSR_APIC_BASE := 0xFEE00000]})) (fun c' => exists v', msrs c' !! MSR_APIC_BASE = Some v' /\ apic_mode v' = (true, true)).
Proof.
  eapply returns_mono; [apply (enable_x2apic_correct (X86Cpu 0 0 0 {[MSR_APIC_BASE := 0xFEE00000]}) 0xFEE00000); by vm_compute|].
  intros c' (v' & -> & Hm & _). exists v'. by rewrite lookup_insert_eq.
Defined.
