(* ===== verification/Timer.v ===== *)
(** * libc/math.c and the clocks of the three architectures

    Counter ticks become nanoseconds, and milliseconds become ticks, by a
    multiplication and a shift chosen at boot; the narrow counters of the ACPI
    timer and the HPET are extended past their rollover on every reading.
    What the hardware returns is a parameter: the counter values are arguments
    of the functions that read them. *)

From S2P Require Import Prelude.
#[local] Open Scope Z_scope.

(** ** libc/math.c *)
Definition u128 (z : Z) : Z := z mod 2 ^ 128.

(** [while (lo < hi)] of [find_reciprocal_shift]; the bounds are 32-bit. *)
Fixpoint reciprocal_loop (fuel : nat) (numerator lim lo hi : Z) : res Z :=
  match fuel with
  | O => NoFuel
  | S fuel =>
      if lo <? hi then
        let mid := Z.shiftr (u32 (lo + hi + 1)) 1 in
        if u128 (Z.shiftl numerator mid) <=? lim then reciprocal_loop fuel numerator lim mid hi
        else reciprocal_loop fuel numerator lim lo (u32 (mid - 1))
      else Ok lo
  end.

(** The search halves the interval from 0 to 127. *)
Definition find_reciprocal_shift (numerator denominator : Z) : res Z :=
  let lim := u128 (denominator * UINT64_MAX) in
  reciprocal_loop 8 numerator lim 0 127.

(** ** Scaling *)
Record scale := Scale { shift : Z; mult : Z }.

(** [((__uint128_t)numerator << shift) / denominator], kept in 64 bits. *)
Definition setup_scale (numerator denominator : Z) : res scale :=
  s ← find_reciprocal_shift numerator denominator;
  if denominator =? 0 then Panic
  else Ok (Scale s (u64 (u128 (Z.shiftl numerator s) / denominator))).

(** [((__uint128_t)x * mult) >> shift] as a [uint64_t]. *)
Definition apply_scale (k : scale) (x : Z) : Z := u64 (Z.shiftr (u128 (x * mult k)) (shift k)).

Definition NS_PER_SEC : Z := 1000000000.

(** *** The search finds the largest shift *)
Lemma u128_small x : 0 <= x < 2 ^ 128 -> u128 x = x.
Proof. apply Z.mod_small. Qed.

Lemma reciprocal_loop_ok n lim fuel : forall lo hi,
  0 < n -> 0 <= lo <= hi -> hi <= 127 -> hi - lo < 2 ^ (Z.of_nat fuel - 1) -> n * 2 ^ hi < 2 ^ 128 ->
  n * 2 ^ lo <= lim -> lim < n * 2 ^ (hi + 1) ->
  exists s, reciprocal_loop fuel n lim lo hi = Ok s /\ lo <= s <= hi /\ n * 2 ^ s <= lim < n * 2 ^ (s + 1).
Proof.
  induction fuel as [|fuel IH]; intros lo hi Hn Hl Hh Hf Ho H1 H2; [rewrite Z.pow_neg_r in Hf by lia; lia|].
  cbn [reciprocal_loop]. destruct (Z.ltb_spec lo hi) as [Hlt|Hge]; [|exists lo; assert (hi = lo) as -> by lia; split; [done|lia]].
  rewrite u32_small, Z.shiftr_div_pow2 by lia. change (2 ^ 1) with 2. set (mid := (lo + hi + 1) / 2).
  assert (lo < mid <= hi /\ 2 * mid <= lo + hi + 1 < 2 * mid + 2) as [Hm Hm2] by (unfold mid; pose proof (Z.div_mod (lo + hi + 1) 2); pose proof (Z.mod_pos_bound (lo + hi + 1) 2); lia).
  assert (2 ^ (Z.of_nat (S fuel) - 1) = 2 * 2 ^ (Z.of_nat fuel - 1)) as Ef.
  { replace (Z.of_nat (S fuel) - 1) with (Z.succ (Z.of_nat fuel - 1)) by lia. apply Z.pow_succ_r.
    destruct fuel; [|lia]. change (2 ^ (Z.of_nat 1 - 1)) with 1 in Hf. lia. }
  assert (2 ^ mid <= 2 ^ hi) as Hp by (apply Z.pow_le_mono_r; lia). assert (0 < 2 ^ mid) by (apply Z.pow_pos_nonneg; lia).
  rewrite Z.shiftl_mul_pow2, u128_small by nia. destruct (Z.leb_spec (n * 2 ^ mid) lim) as [Hle|Hgt].
  - destruct (IH mid hi) as (s & E & Hs & Hr); [lia..|]. exists s. split; [done|]. lia.
  - rewrite u32_small by lia. destruct (IH lo (mid - 1)) as (s & E & Hs & Hr); [lia..| |done|by rewrite Z.sub_add|].
    + assert (2 ^ (mid - 1) <= 2 ^ mid) by (apply Z.pow_le_mono_r; lia). nia.
    + exists s. split; [done|]. lia.
Qed.

(** No product of the search overflows when the numerator is the larger one,
    or has 32 bits and is not too small. *)
Definition scale_args (n d : Z) : Prop := 0 < n < 2 ^ 64 /\ 0 < d < 2 ^ 64 /\ (d <= n \/ (n < 2 ^ 32 /\ d < n * 2 ^ 32)).

Lemma reciprocal_shift_ok n d :
  scale_args n d -> exists s, find_reciprocal_shift n d = Ok s /\ 0 <= s <= 95 /\ n * 2 ^ s <= d * UINT64_MAX < n * 2 ^ (s + 1).
Proof.
  intros (Hn & Hd & Hc). unfold find_reciprocal_shift. change UINT64_MAX with (2 ^ 64 - 1). rewrite u128_small by nia. set (lim := d * (2 ^ 64 - 1)).
  change (reciprocal_loop 8 n lim 0 127) with
    (if u128 (Z.shiftl n 64) <=? lim then reciprocal_loop 7 n lim 64 127 else reciprocal_loop 7 n lim 0 63).
  rewrite Z.shiftl_mul_pow2, u128_small by lia. destruct (Z.leb_spec (n * 2 ^ 64) lim) as [Hle|Hgt].
  - destruct Hc as [Hc|[Hc1 Hc2]]; [unfold lim in Hle; lia|].
    change (reciprocal_loop 7 n lim 64 127) with (if u128 (Z.shiftl n 96) <=? lim then reciprocal_loop 6 n lim 96 127 else reciprocal_loop 6 n lim 64 95).
    rewrite Z.shiftl_mul_pow2, u128_small by lia. assert (lim < n * 2 ^ 96) as Hlt by (unfold lim; nia). rewrite (proj2 (Z.leb_gt _ _) Hlt).
    destruct (reciprocal_loop_ok n lim 6 64 95) as (s & E & Hs & Hr); [lia..|]. exists s. split; [done|]. lia.
  - destruct (reciprocal_loop_ok n lim 7 0 63) as (s & E & Hs & Hr); [lia|lia|lia|lia|lia|unfold lim; nia|done|]. exists s. split; [done|]. lia.
Qed.

(** *** Precision *)
Lemma setup_scale_ok n d :
  scale_args n d -> exists k, setup_scale n d = Ok k /\ 0 <= shift k <= 95 /\ mult k = n * 2 ^ shift k / d /\ 0 <= mult k < 2 ^ 64 /\
    d * UINT64_MAX < n * 2 ^ (shift k + 1).
Proof.
  intros Ha. destruct (reciprocal_shift_ok n d Ha) as (s & E & Hs & H1 & H2). destruct Ha as (Hn & Hd & _). unfold setup_scale. rewrite E, bind_Ok.
  rewrite (proj2 (Z.eqb_neq d 0)) by lia. eexists. split; [done|]. cbn [shift mult]. split; [done|]. change UINT64_MAX with (2 ^ 64 - 1) in *.
  assert (0 < 2 ^ s) by (apply Z.pow_pos_nonneg; lia). rewrite Z.shiftl_mul_pow2, u128_small by nia.
  assert (0 <= n * 2 ^ s / d < 2 ^ 64) as Hm by (split; [apply Z.div_pos; lia|apply Z.div_lt_upper_bound; lia]). rewrite u64_small by exact Hm. done.
Qed.

(** The largest value that is not above [x * n / d], or one of the three below it. *)
Lemma apply_scale_ok n d k x :
  scale_args n d -> setup_scale n d = Ok k -> 0 <= x < 2 ^ 64 -> x * n / d < 2 ^ 64 ->
  x * n / d - 3 <= apply_scale k x <= x * n / d.
Proof.
  intros Ha E Hx Hf. destruct (setup_scale_ok n d Ha) as (k' & E' & Hs & Hm & Hr & Hmax). rewrite E in E'. injection E' as <-. destruct Ha as (Hn & Hd & _).
  unfold apply_scale. set (s := shift k) in *. set (m := mult k) in *. clearbody s m. change UINT64_MAX with (2 ^ 64 - 1) in Hmax.
  assert (0 < 2 ^ s) as Hp by (apply Z.pow_pos_nonneg; lia). rewrite Z.pow_add_r in Hmax by lia. change (2 ^ 1) with 2 in Hmax.
  rewrite u128_small by nia. rewrite Z.shiftr_div_pow2 by lia. set (q := 2 ^ s) in *. clearbody q.
  pose proof (Z.div_mod (n * q) d ltac:(lia)) as Dm. pose proof (Z.mod_pos_bound (n * q) d ltac:(lia)) as Bm. rewrite <- Hm in Dm.
  pose proof (Z.div_mod (x * m) q ltac:(lia)) as Dc. pose proof (Z.mod_pos_bound (x * m) q ltac:(lia)) as Bc. set (c := x * m / q) in *. clearbody c.
  pose proof (Z.div_mod (x * n) d ltac:(lia)) as De. pose proof (Z.mod_pos_bound (x * n) d ltac:(lia)) as Be. set (e := x * n / d) in *. clearbody e.
  set (rm := (n * q) mod d) in *. set (rc := (x * m) mod q) in *. set (re := (x * n) mod d) in *. clearbody rm rc re.
  assert (0 <= c) as Hc0 by nia.
  assert (c <= e) as Hle by (assert (c * q * d <= x * n * q) by nia; assert (c * d <= x * n) by nia; nia).
  rewrite u64_small by (unfold is_u64; lia). split; [|done]. destruct (Z.le_gt_cases (e - 3) c) as [|Hgt]; [done|]. exfalso.
  assert (x > 3 * q) as Hxq.
  { assert (x * n * q = x * m * d + x * rm) as E1 by nia. assert (x * m * d = c * q * d + rc * d) as E2 by nia. assert (x * rm <= x * d) by nia.
    assert (rc * d < q * d) by nia. assert (x * n * q = e * d * q + re * q) as E3 by nia. assert ((c + 4) * (q * d) <= e * (q * d)) by nia. nia. }
  assert (x * n >= (3 * q) * n) by nia. nia.
Qed.

(** C33: the conversion between ticks and time, by one multiplication and one
    shift, never overflows its 128-bit product and gives the exact quotient or
    a value at most three below it, for every input whose result has 64 bits. *)
Theorem reciprocal_scaling_bounds n d x :
  scale_args n d -> 0 <= x < 2 ^ 64 -> x * n / d < 2 ^ 64 ->
  exists k, setup_scale n d = Ok k /\ x * mult k < 2 ^ 128 /\ x * n / d - 3 <= apply_scale k x <= x * n / d.
Proof.
  intros Ha Hx Hf. destruct (setup_scale_ok n d Ha) as (k & E & _ & _ & Hm & _). exists k. split; [done|]. split; [nia|]. by apply apply_scale_ok.
Qed.

Lemma reciprocal_scaling_bounds_witness : exists k, setup_scale NS_PER_SEC 3579545 = Ok k /\ 1000000000 - 3 <= apply_scale k 3579545 <= 1000000000.
Proof.
  destruct (reciprocal_scaling_bounds NS_PER_SEC 3579545 3579545) as (k & E & _ & H).
  - unfold scale_args, NS_PER_SEC. lia.
  - lia.
  - reflexivity.
  - exists k. split; [exact E|exact H].
Defined.

(** Outside of it the 128-bit shift of the search does overflow: for 2^40 and
    2^41 the shift is 127 instead of 64. *)
Lemma reciprocal_shift_overflows : find_reciprocal_shift (2 ^ 40) (2 ^ 41) = Ok 127.
Proof. reflexivity. Qed.
