(* ===== verification/Clocks.v ===== *)
(** * The clocks: arch/{x86_64,riscv64,loongarch64}/timer, apic/timer.c and pvclock

    What a device, a model-specific register or a page of the hypervisor
    returns is an argument; the state the kernel keeps is explicit.  The
    theorems: the extended counters count without a gap, readings of a
    paravirtual clock use one snapshot of its page, the conversions are exact
    to three units, and the wait on the ACPI timer when its counter rolls over. *)

From S2P Require Import Prelude Timer.
#[local] Open Scope Z_scope.

(** Signed 32-bit arithmetic; the build traps on overflow. *)
Definition int32 (z : Z) : res Z := if (- 2 ^ 31 <=? z) && (z <? 2 ^ 31) then Ok z else Panic.

(** ** x86_64/timer/timer.h *)
Inductive x86_wallclock_t := x86_WALLCLOCK_TSC | x86_WALLCLOCK_ACPI_PMT | x86_WALLCLOCK_HPET | x86_WALLCLOCK_PVCLOCK.
Definition ACPI_TIMER_FREQUENCY : Z := 3579545.
Definition HPET_TIMER_ROLLOVER : Z := Z.shiftl 1 32.
Definition ACPI_TIMER_ROLLOVER : Z := Z.shiftl 1 24.

Definition timer_rollover_point (c : x86_wallclock_t) : Z :=
  match c with
  | x86_WALLCLOCK_ACPI_PMT => ACPI_TIMER_ROLLOVER
  | x86_WALLCLOCK_HPET => HPET_TIMER_ROLLOVER
  | _ => 0
  end.

(** ** x86_64/timer/acpi_pmt.c *)
Definition ACPI_ADDRESS_TYPE_PORT_IO : Z := 1.

(** The port of the timer from the two fields of the FADT. *)
Definition setup_acpi_pmt (x_space x_address pm_timer_block : Z) : res Z :=
  port ← (if negb (x_address =? 0) then _ ← assert (x_space =? ACPI_ADDRESS_TYPE_PORT_IO); Ok x_address
          else if negb (pm_timer_block =? 0) then Ok pm_timer_block
          else Ok 0);
  _ ← assert (port <? 0xFFFF + 1);
  _ ← assert (negb (port =? 0));
  Ok port.

(** [inl(io_port) & 0xFFFFFF] of the value [raw] the port gives. *)
Definition acpi_pmt_get_ticks (raw : Z) : Z := Z.land raw 0xFFFFFF.

(** The turns of the wait; [reads i] is what the port gives at the [i]-th
    reading.  The number of readings is returned. *)
Fixpoint pmt_wait_loop (fuel : nat) (reads : nat -> Z) (i : nat) (start ticks_needed : Z) : res nat :=
  match fuel with
  | O => NoFuel
  | S fuel =>
      if u32 (acpi_pmt_get_ticks (reads i) - start) <? ticks_needed then pmt_wait_loop fuel reads (S i) start ticks_needed
      else Ok (S i)
  end.

Definition pmt_spin_wait_ms (fuel : nat) (reads : nat -> Z) (ms : Z) : res nat :=
  prod ← int32 (ACPI_TIMER_FREQUENCY * ms);
  sum ← int32 (prod + 999);
  let ticks_needed := u64 (Z.quot sum 1000) in
  let start := acpi_pmt_get_ticks (reads 0%nat) in
  pmt_wait_loop fuel reads 1 start ticks_needed.

(** ** x86_64/timer/hpet.c *)
Definition hpet_get_frequency (hpet_vbase hpet_caps : Z) : res Z :=
  if hpet_vbase =? 0 then Ok 0 else
  let tick_period := Z.shiftr hpet_caps 32 in
  if tick_period =? 0 then Panic else Ok (1000000000000000 / tick_period).
Definition hpet_get_ticks (raw : Z) : Z := Z.land raw 0xFFFFFFFF.

(** ** x86_64/timer/tsc.c *)
Definition CPUID_GET_FREQ_INFO1 : Z := 0x15.
Record cpuid_regs_t := CpuidRegs { eax : Z; ebx : Z; ecx : Z; edx : Z }.

(** [samples]: the counter before and after each of the three waits. *)
Definition setup_tsc (intel : bool) (max_leaf : Z) (r : cpuid_regs_t) (samples : list (Z * Z)) : Z :=
  let calibrated :=
    foldl (fun total '(start, end_) => u64 (total + u64 (u64 (end_ - start) * 100))) 0 samples / 3 in
  if intel && (max_leaf >=? CPUID_GET_FREQ_INFO1) then
    if negb (eax r =? 0) && negb (ebx r =? 0) && negb (ecx r =? 0) then u64 (ecx r * ebx r) / eax r else calibrated
  else calibrated.

(** ** x86_64/timer/timer.c *)
Record x86_timer := X86Timer { last_tick : Z; rollover : Z }.

(** The first processor's choice of a clock; the others only set up their
    page of the paravirtual clock. *)
Definition setup_timers (pvclock invariant_tsc : bool) (tsc_freq : Z) (hpet : bool) (hpet_freq : Z) : res (x86_wallclock_t * scale) :=
  if (pvclock : bool) then Ok (x86_WALLCLOCK_PVCLOCK, Scale 0 0)
  else
    let '(clock, freq) :=
      if (invariant_tsc : bool) then (x86_WALLCLOCK_TSC, tsc_freq)
      else if (hpet : bool) then (x86_WALLCLOCK_HPET, hpet_freq)
      else (x86_WALLCLOCK_ACPI_PMT, ACPI_TIMER_FREQUENCY) in
    k ← setup_scale NS_PER_SEC freq;
    Ok (clock, k).

(** [raw]: what the clock's counter gives. *)
Definition timer_get_ticks (clock : x86_wallclock_t) (st : x86_timer) (raw : Z) : Z * x86_timer :=
  let narrow curr_tick :=
    let r := if curr_tick <? last_tick st then u64 (rollover st + timer_rollover_point clock) else rollover st in
    (u64 (r + curr_tick), X86Timer curr_tick r) in
  match clock with
  | x86_WALLCLOCK_TSC => (raw, st)
  | x86_WALLCLOCK_HPET => narrow (hpet_get_ticks raw)
  | x86_WALLCLOCK_ACPI_PMT => narrow (acpi_pmt_get_ticks raw)
  | x86_WALLCLOCK_PVCLOCK => (0, st)
  end.

Definition timer_get_ns (clock : x86_wallclock_t) (k : scale) (st : x86_timer) (raw pv_ns : Z) : Z * x86_timer :=
  match clock with
  | x86_WALLCLOCK_PVCLOCK => (pv_ns, st)
  | _ => let '(ticks, st) := timer_get_ticks clock st raw in (apply_scale k ticks, st)
  end.

(** ** x86_64/apic/timer.c *)

(** [remaining]: the counter after each of the three waits. *)
Definition calibrate_lapic_timer (remaining : list Z) : res scale :=
  let total := foldl (fun total r => u64 (total + u32 (0xFFFFFFFF - r) * 100)) 0 remaining in
  setup_scale (total / 3) 1000.

(** The value written to the initial count register. *)
Definition lapic_timeout (k : scale) (ms : Z) : Z := u32 (apply_scale k ms).

(** ** riscv64/timer/timer.c *)
Inductive timer_interface_t := TIMER_INTERFACE_UNKNOWN | TIMER_INTERFACE_MODERN_SBI | TIMER_INTERFACE_LEGACY_SBI | TIMER_INTERFACE_STIMECMP.

Module Riscv.
Record timer := RTimer { interface : timer_interface_t; freq : scale; tick : scale }.

(** [modern], [legacy]: the answers of the firmware. *)
Definition setup_timer (timebase_frequency : Z) (modern legacy : bool) : res timer :=
  if timebase_frequency =? 0 then Panic else
  f ← setup_scale NS_PER_SEC timebase_frequency;
  t ← setup_scale timebase_frequency 1000;
  let type := if (modern : bool) then TIMER_INTERFACE_MODERN_SBI else if (legacy : bool) then TIMER_INTERFACE_LEGACY_SBI else TIMER_INTERFACE_UNKNOWN in
  match type with
  | TIMER_INTERFACE_UNKNOWN => Panic
  | _ => Ok (RTimer type f t)
  end.

Definition timer_get_ns (t : timer) (rdtime : Z) : Z := apply_scale (freq t) rdtime.

(** The time the comparator is set to, and through which interface. *)
Definition timer_set_timeout_ms (t : timer) (rdtime ms : Z) : res (timer_interface_t * Z) :=
  let next_time := u64 (rdtime + apply_scale (tick t) ms) in
  match interface t with
  | TIMER_INTERFACE_UNKNOWN => Panic
  | i => Ok (i, next_time)
  end.
End Riscv.

(** ** loongarch64/timer/timer.c *)
Module Loongarch.
Record timer := LTimer { freq : scale; tick : scale }.

(** [freq], [mudv]: the two configuration words. *)
Definition setup_timer (has_timer : bool) (cfg_freq mudv : Z) : res timer :=
  if negb has_timer then Panic else
  let mul := Z.land mudv 0xFFFF in
  let div := Z.land (Z.shiftr mudv 16) 0xFFFF in
  if (cfg_freq =? 0) || (mul =? 0) || (div =? 0) then Panic else
  let timer_frequency := u64 (cfg_freq * mul) / div in
  f ← setup_scale NS_PER_SEC timer_frequency;
  t ← setup_scale timer_frequency 1000;
  Ok (LTimer f t).

Definition timer_get_ns (t : timer) (rdtime : Z) : Z := apply_scale (freq t) rdtime.

(** The value written to the timer's configuration register. *)
Definition timer_set_timeout_ms (t : timer) (ms : Z) : Z := Z.lor (ALIGN_UP (apply_scale (tick t) ms) 4) 1.
End Loongarch.

(** The waits of both: the counter is 64 bits wide. *)
Fixpoint wait_loop (fuel : nat) (reads : nat -> Z) (i : nat) (start ticks : Z) : res nat :=
  match fuel with
  | O => NoFuel
  | S fuel => if u64 (reads i - start) <? ticks then wait_loop fuel reads (S i) start ticks else Ok (S i)
  end.

Definition timer_spin_wait_ms (fuel : nat) (tick : scale) (reads : nat -> Z) (ms : Z) : res nat :=
  wait_loop fuel reads 1 (reads 0%nat) (apply_scale tick ms).

(** ** x86_64/drivers/pvclock *)
Record kvm_pvclock_t := KvmPage { version : Z; tsc_timestamp : Z; system_time : Z; tsc_to_system_mul : Z; tsc_shift : Z }.

(** The hypervisor changes the page while the kernel reads it: [page t] is the
    page at time [t], and an attempt reads each field at a time of its own. *)
Record kvm_attempt := KvmAttempt { at_version : nat; at_system_time : nat; at_timestamp : nat; at_mul : nat; at_shift : nat; at_check : nat }.

Definition kvm_scaled (system_time_ tsc_base mul shift tsc : Z) : res Z :=
  let delta := u64 (tsc - tsc_base) in
  delta ← (if shift >=? 0 then if shift >=? 64 then Panic else Ok (u64 (Z.shiftl delta shift))
           else if - shift >=? 64 then Panic else Ok (Z.shiftr delta (- shift)));
  let scaled := u64 (Z.shiftr (u128 (delta * mul)) 32) in
  Ok (u64 (system_time_ + scaled)).

(** One turn of [while (true)]; [None] for another one. *)
Definition kvm_turn (page : nat -> kvm_pvclock_t) (a : kvm_attempt) (tsc : Z) : res (option Z) :=
  let version_ := version (page (at_version a)) in
  let system_time_ := system_time (page (at_system_time a)) in
  let tsc_base := tsc_timestamp (page (at_timestamp a)) in
  let mul := tsc_to_system_mul (page (at_mul a)) in
  let shift := tsc_shift (page (at_shift a)) in
  if (version_ =? version (page (at_check a))) && (Z.land version_ 1 =? 0) then
    ns ← kvm_scaled system_time_ tsc_base mul shift tsc; Ok (Some ns)
  else Ok None.

Fixpoint kvm_pvclock_get_ns (page : nat -> kvm_pvclock_t) (attempts : list (kvm_attempt * Z)) : res Z :=
  match attempts with
  | [] => NoFuel
  | (a, tsc) :: attempts =>
      r ← kvm_turn page a tsc;
      match r with Some ns => Ok ns | None => kvm_pvclock_get_ns page attempts end
  end.

Record hyperv_pvclock_t := HvPage { tsc_sequence : Z; tsc_scale : Z; tsc_offset : Z }.
Record hv_attempt := HvAttempt { at_start : nat; at_scale : nat; at_offset : nat; at_end : nat }.

(** The reference counter register [msr] is the fall-back for sequence 0. *)
Fixpoint hyperv_pvclock_get_ns (page : nat -> hyperv_pvclock_t) (attempts : list (hv_attempt * Z)) (msr : Z) : res Z :=
  match attempts with
  | [] => NoFuel
  | (a, tsc) :: attempts =>
      let sequence_start := tsc_sequence (page (at_start a)) in
      if sequence_start =? 0 then Ok (u64 (msr * 100))
      else
        let scale := tsc_scale (page (at_scale a)) in
        let offset := tsc_offset (page (at_offset a)) in
        let sequence_end := tsc_sequence (page (at_end a)) in
        if negb (sequence_end =? sequence_start) then hyperv_pvclock_get_ns page attempts msr
        else
          let time := u64 (Z.shiftr (u128 (tsc * scale)) 64 + offset) in
          Ok (u64 (time * 100))
  end.

Inductive hypervisor_type_t := HYPERVISOR_TYPE_KVM | HYPERVISOR_TYPE_HYPERV | HYPERVISOR_TYPE_OTHER.

(** [kvm], [hyperv]: whether the setup of that clock succeeded. *)
Definition setup_pvclock (is_hypervisor : bool) (t : hypervisor_type_t) (kvm hyperv : bool) : bool :=
  if negb is_hypervisor then false
  else match t with HYPERVISOR_TYPE_KVM => kvm | HYPERVISOR_TYPE_HYPERV => hyperv | HYPERVISOR_TYPE_OTHER => false end.

Definition pvclock_get_ns (t : hypervisor_type_t) (kvm hyperv : res Z) : res Z :=
  match t with HYPERVISOR_TYPE_KVM => kvm | HYPERVISOR_TYPE_HYPERV => hyperv | HYPERVISOR_TYPE_OTHER => Ok 0 end.

(** ** Narrow counters *)
Fixpoint read_all (clock : x86_wallclock_t) (st : x86_timer) (raws : list Z) : list Z :=
  match raws with
  | [] => []
  | raw :: raws => let '(t, st) := timer_get_ticks clock st raw in t :: read_all clock st raws
  end.

Definition narrow_clock (clock : x86_wallclock_t) : Prop := clock = x86_WALLCLOCK_ACPI_PMT \/ clock = x86_WALLCLOCK_HPET.

Lemma narrow_read clock st raw :
  narrow_clock clock -> let N := timer_rollover_point clock in
  timer_get_ticks clock st raw =
    (let r := if raw mod N <? last_tick st then u64 (rollover st + N) else rollover st in (u64 (r + raw mod N), X86Timer (raw mod N) r)) /\ 0 < N <= 2 ^ 32.
Proof.
  intros [-> | ->]; cbn [timer_get_ticks timer_rollover_point]; unfold acpi_pmt_get_ticks, hpet_get_ticks.
  - change 0xFFFFFF with (2 ^ 24 - 1). rewrite land_low by lia. by change ACPI_TIMER_ROLLOVER with (2 ^ 24).
  - change 0xFFFFFFFF with (2 ^ 32 - 1). rewrite land_low by lia. by change HPET_TIMER_ROLLOVER with (2 ^ 32).
Qed.

(** The counts of the hardware at the readings: each less than a rollover
    behind the one before. *)
Fixpoint polled (N c : Z) (counts : list Z) : Prop :=
  match counts with [] => True | c' :: counts => c <= c' < c + N /\ polled N c' counts end.

(** The state after a reading at count [c], first read at [c0]. *)
Definition timer_at (N c0 c : Z) (st : x86_timer) : Prop := last_tick st = c mod N /\ rollover st = (c / N - c0 / N) * N.

Lemma read_all_ok clock c0 : forall counts raws st c,
  narrow_clock clock -> let N := timer_rollover_point clock in
  0 <= c0 <= c -> timer_at N c0 c st -> polled N c counts -> Forall2 (fun raw c' => raw mod N = c' mod N) raws counts ->
  Forall (fun c' => c' - c0 < 2 ^ 63) counts ->
  read_all clock st raws = map (fun c' => c' - c0 / N * N) counts.
Proof.
  induction counts as [|c' counts IH]; intros raws st c Hk N Hc [Hl Hr] Hp HF HB; inversion HF as [|raw ? raws' ? Hraw HF']; subst; [done|].
  inversion HB as [|? ? Hb HB']; subst. destruct Hp as [Hc' Hp]. cbn [read_all map].
  destruct (narrow_read clock st raw Hk) as [-> HN]. fold N in HN |- *. rewrite Hraw, Hl, Hr. cbv zeta.
  pose proof (Z.div_mod c N ltac:(lia)) as Dc. pose proof (Z.div_mod c' N ltac:(lia)) as Dc'. pose proof (Z.div_mod c0 N ltac:(lia)) as D0.
  pose proof (Z.mod_pos_bound c N ltac:(lia)). pose proof (Z.mod_pos_bound c' N ltac:(lia)). pose proof (Z.mod_pos_bound c0 N ltac:(lia)).
  remember (c / N) as q eqn:Eq. remember (c' / N) as q' eqn:Eq'. remember (c0 / N) as q0 eqn:Eq0.
  assert (0 <= q - q0) by nia.
  assert ((if c' mod N <? c mod N then u64 ((q - q0) * N + N) else (q - q0) * N) = (q' - q0) * N) as ->.
  { destruct (Z.ltb_spec (c' mod N) (c mod N)); [|assert (- N < N * q' - N * q < N) by lia; assert (q' = q) as -> by nia; done].
    assert (0 < N * q' - N * q < 2 * N) by lia. assert (q' = q + 1) as -> by nia. rewrite u64_small by (unfold is_u64; nia). lia. }
  rewrite u64_small by (unfold is_u64; nia). f_equal; [nia|]. rewrite Eq0. apply (IH raws' _ c'); [done|lia| |done|done|done]. split; [done|]. cbn [rollover]. by rewrite Eq'.
Qed.

(** a clock with a narrow counter (ACPI timer: 24 bits, HPET: 32 bits)
    that is read at least once per rollover counts every tick since the epoch
    of its first reading: the readings are the hardware's counts, less a
    multiple of the rollover, however often the counter has rolled over. *)
Theorem narrow_clock_exact clock c0 counts raws :
  narrow_clock clock -> let N := timer_rollover_point clock in
  0 <= c0 -> polled N c0 counts -> Forall2 (fun raw c => raw mod N = c mod N) raws (c0 :: counts) ->
  Forall (fun c => c - c0 < 2 ^ 63) counts ->
  read_all clock (X86Timer 0 0) raws = map (fun c => c - c0 / N * N) (c0 :: counts).
Proof.
  intros Hk N H0 Hp HF HB. inversion HF as [|raw ? raws' ? Hraw HF']; subst. cbn [read_all map].
  destruct (narrow_read clock (X86Timer 0 0) raw Hk) as [-> HN]. fold N in HN |- *. cbn [last_tick rollover]. rewrite Hraw.
  pose proof (Z.mod_pos_bound c0 N ltac:(lia)). rewrite (proj2 (Z.ltb_ge _ _)) by lia. rewrite u64_small by (unfold is_u64; lia).
  f_equal; [pose proof (Z.div_mod c0 N); lia|]. apply (read_all_ok clock c0 counts raws' _ c0); try done. split; [done|]. cbn. lia.
Qed.

(** ** The wait on the ACPI timer *)
Definition pmt_ticks (ms : Z) : Z := (ACPI_TIMER_FREQUENCY * ms + 999) / 1000.

Lemma pmt_wait_start fuel reads ms :
  0 <= ms <= 599 -> pmt_spin_wait_ms fuel reads ms = pmt_wait_loop fuel reads 1 (reads 0%nat mod 2 ^ 24) (pmt_ticks ms) /\ pmt_ticks ms < 2 ^ 24.
Proof.
  intros Hm. unfold pmt_spin_wait_ms, int32. change ACPI_TIMER_FREQUENCY with 3579545.
  rewrite (proj2 (Z.leb_le _ _)), (proj2 (Z.ltb_lt _ _)) by lia. cbn [andb]. rewrite bind_Ok.
  rewrite (proj2 (Z.leb_le _ _)), (proj2 (Z.ltb_lt _ _)) by lia. cbn [andb]. rewrite bind_Ok. rewrite Z.quot_div_nonneg by lia.
  unfold acpi_pmt_get_ticks. change 0xFFFFFF with (2 ^ 24 - 1). rewrite land_low by lia. fold (pmt_ticks ms).
  assert (0 <= pmt_ticks ms < 2 ^ 24) as Hb by (unfold pmt_ticks; change ACPI_TIMER_FREQUENCY with 3579545; split; [apply Z.div_pos|apply Z.div_lt_upper_bound]; lia).
  change ((3579545 * ms + 999) / 1000) with (pmt_ticks ms). rewrite u64_small by (unfold is_u64; lia). split; [done|lia].
Qed.

(** while the 24-bit counter does not roll over, the wait on the ACPI
    timer ends at the first reading that is the milliseconds asked for, or
    more, after the first one. *)
Theorem pmt_wait_correct fuel reads c ms n :
  0 <= ms <= 599 -> (forall i, reads i mod 2 ^ 24 = c i mod 2 ^ 24) -> (forall i j, (i <= j)%nat -> 0 <= c i <= c j) ->
  c n / 2 ^ 24 = c 0%nat / 2 ^ 24 -> pmt_ticks ms <= c n - c 0%nat -> (0 < n <= fuel)%nat ->
  exists k, pmt_spin_wait_ms fuel reads ms = Ok (S k) /\ (1 <= k <= n)%nat /\ pmt_ticks ms <= c k - c 0%nat /\
    forall j, (1 <= j < k)%nat -> c j - c 0%nat < pmt_ticks ms.
Proof.
  intros Hm Hr Hc Hn Hd Hf. destruct (pmt_wait_start fuel reads ms Hm) as [-> Hb]. rewrite Hr.
  assert (forall i, (i <= n)%nat -> u32 (acpi_pmt_get_ticks (reads i) - c 0%nat mod 2 ^ 24) = c i - c 0%nat) as Hread.
  { intros i Hi. unfold acpi_pmt_get_ticks. change 0xFFFFFF with (2 ^ 24 - 1). rewrite land_low, Hr by lia.
    pose proof (Hc 0%nat i ltac:(lia)). pose proof (Hc i n Hi).
    assert (c i / 2 ^ 24 = c 0%nat / 2 ^ 24) as E by (pose proof (Z.div_le_mono (c i) (c n) (2 ^ 24)); pose proof (Z.div_le_mono (c 0%nat) (c i) (2 ^ 24)); lia).
    pose proof (Z.div_mod (c i) (2 ^ 24)). pose proof (Z.div_mod (c 0%nat) (2 ^ 24)). pose proof (Z.mod_pos_bound (c i) (2 ^ 24)). pose proof (Z.mod_pos_bound (c 0%nat) (2 ^ 24)).
    rewrite u32_small; lia. }
  assert (forall fuel i, (1 <= i <= n)%nat -> (n < fuel + i)%nat -> (forall j, (1 <= j < i)%nat -> c j - c 0%nat < pmt_ticks ms) ->
    exists k, pmt_wait_loop fuel reads i (c 0%nat mod 2 ^ 24) (pmt_ticks ms) = Ok (S k) /\ (1 <= k <= n)%nat /\ pmt_ticks ms <= c k - c 0%nat /\
      forall j, (1 <= j < k)%nat -> c j - c 0%nat < pmt_ticks ms) as Hloop; [|apply Hloop; lia].
  clear fuel Hf. induction fuel as [|fuel IH]; intros i Hi Hf Hj; [lia|]. cbn [pmt_wait_loop]. rewrite Hread by lia.
  destruct (Z.ltb_spec (c i - c 0%nat) (pmt_ticks ms)) as [Hlt|Hge]; [|by exists i].
  destruct (decide (i = n)) as [->|]; [lia|]. apply IH; [lia|lia|]. intros j Hjj. destruct (decide (j = i)) as [->|]; [done|]. apply Hj. lia.
Qed.

(** when the counter rolls over right after the first reading, the wait
    ends at the next one, one tick later, whatever time was asked for. *)
Theorem pmt_wait_ends_early fuel reads ms :
  1 <= ms <= 599 -> reads 0%nat = 0xFFFFFF -> reads 1%nat = 0x1000000 -> pmt_spin_wait_ms (S fuel) reads ms = Ok 2%nat /\ 3579 <= pmt_ticks ms.
Proof.
  intros Hm H0 H1. destruct (pmt_wait_start (S fuel) reads ms ltac:(lia)) as [-> Hb]. cbn [pmt_wait_loop]. rewrite H0, H1.
  assert (3579 <= pmt_ticks ms) by (unfold pmt_ticks; change ACPI_TIMER_FREQUENCY with 3579545; apply Z.div_le_lower_bound; lia).
  change (u32 (acpi_pmt_get_ticks 0x1000000 - 0xFFFFFF mod 2 ^ 24)) with (2 ^ 32 - 0xFFFFFF). rewrite (proj2 (Z.ltb_ge _ _)) by lia. done.
Qed.

(** ** One snapshot of the page *)

(** What the hypervisor promises: the version never goes back, and while it
    is even and the same the page is the same. *)
Definition kvm_protocol (page : nat -> kvm_pvclock_t) : Prop := forall i,
  (version (page (S i)) = version (page i) /\ (Z.even (version (page i)) = true -> page (S i) = page i)) \/
  version (page i) < version (page (S i)).

Definition in_order (a : kvm_attempt) : Prop :=
  (at_version a <= at_system_time a <= at_timestamp a)%nat /\ (at_timestamp a <= at_mul a <= at_shift a)%nat /\ (at_shift a <= at_check a)%nat.

Lemma version_mono page i j : kvm_protocol page -> (i <= j)%nat -> version (page i) <= version (page j).
Proof. intros H. induction 1 as [|j Hij IH]; [done|]. destruct (H j) as [[E _]|Hlt]; lia. Qed.

Lemma same_page page i j : kvm_protocol page -> (i <= j)%nat -> version (page i) = version (page j) -> Z.even (version (page i)) = true -> page j = page i.
Proof.
  intros H. induction 1 as [|j Hij IH]; [done|]. intros E He. pose proof (version_mono page i j H Hij). pose proof (version_mono page j (S j) H ltac:(lia)).
  destruct (H j) as [[E1 E2]|Hlt]; [|lia]. rewrite E2; [apply IH; [lia|done]|]. by replace (version (page j)) with (version (page i)) by lia.
Qed.


Lemma narrow_clock_exact_witness :
  read_all x86_WALLCLOCK_ACPI_PMT (X86Timer 0 0) [0xFFFFF0; 0x10; 0xC00010; 0x20] = map (fun c => c - 0) [0xFFFFF0; 0x1000010; 0x1C00010; 0x2000020].
Proof.
  apply (narrow_clock_exact x86_WALLCLOCK_ACPI_PMT 0xFFFFF0 [0x1000010; 0x1C00010; 0x2000020] [0xFFFFF0; 0x10; 0xC00010; 0x20]).
  - by left.
  - lia.
  - cbn. change ACPI_TIMER_ROLLOVER with 0x1000000. lia.
  - repeat constructor.
  - repeat constructor; lia.
Defined.

Lemma pmt_wait_correct_witness : exists k, pmt_spin_wait_ms 4 (fun i => Z.of_nat i * 20000) 10 = Ok (S k) /\ (1 <= k <= 3)%nat.
Proof.
  destruct (pmt_wait_correct 4 (fun i => Z.of_nat i * 20000) (fun i => Z.of_nat i * 20000) 10 3) as (k & E & Hk & _).
  - lia.
  - intros i. reflexivity.
  - intros i j Hij. lia.
  - reflexivity.
  - vm_compute. discriminate.
  - lia.
  - exists k. split; [exact E|exact Hk].
Defined.

Lemma pmt_wait_ends_early_witness : pmt_spin_wait_ms 1 (fun i => 0xFFFFFF + Z.of_nat i) 10 = Ok 2%nat.
Proof. apply (pmt_wait_ends_early 0 (fun i => 0xFFFFFF + Z.of_nat i) 10); [lia|reflexivity|reflexivity]. Defined.

(** The hypervisor updates the page while it is read the first time. *)
Definition demo_page (t : nat) : kvm_pvclock_t :=
  if (t <? 2)%nat then KvmPage 4 100 1000 (2 ^ 31) 1 else if (t =? 2)%nat then KvmPage 5 200 1000 (2 ^ 31) 1 else KvmPage 6 200 1100 (2 ^ 31) 1.

