(* ===== verification/Acpi.v ===== *)
(** * acpi/: tables of the firmware

    The tables lie in memory [m] at the addresses the boot loader and the root
    table give; a field is a little-endian read at its packed offset.  The
    theorems: the walk over the interrupt controller table ends and stays in
    the table whatever its bytes are, the fixed table is copied from within
    its bounds, and the processors found are the usable ones, once each. *)

From stdpp Require Import sorting.
From S2P Require Import Prelude CString CStringSpec Elf.
#[local] Open Scope Z_scope.

Definition sizeof_RSDP : Z := 20.
Definition sizeof_SDTHeader : Z := 36.
Definition sizeof_MADT : Z := 44.
Definition sizeof_MADTEntryHeader : Z := 2.

(** The signatures, as their four characters. *)
Definition FACP_SIGNATURE : list Z := [70; 65; 67; 80].
Definition MADT_SDT_SIGNATURE : list Z := [65; 80; 73; 67].
Definition RHCT_SDT_SIGNATURE : list Z := [82; 72; 67; 84].

(** An array of the kernel read at an index. *)
Definition array_get (xs : list Z) (i : Z) : res Z := if i <? 0 then Fault else of_option (xs !! Z.to_nat i).

Section Acpi.
Context `{cfg : kconfig}.
(** Memory, and the address in the boot loader's response (0 for none). *)
Context (m : bytes) (rsdp_address : Z).

(** *** Fields *)
Definition rsdp_revision : res Z := load_le m (rsdp_address + 15) 1.
Definition rsdp_rsdtAddress : res Z := load_le m (rsdp_address + 16) 4.
Definition xsdp_length : res Z := load_le m (rsdp_address + 20) 4.
Definition xsdp_xsdtAddress : res Z := load_le m (rsdp_address + 24) 8.
Definition sdt_length (header : Z) : res Z := load_le m (header + 4) 4.
Definition sdt_revision (header : Z) : res Z := load_le m (header + 8) 1.

(** ** tables/sdt.c *)
Definition acpi_rsdt_entry_size : res Z :=
  revision ← rsdp_revision;
  Ok (if revision <? 2 then 4 else 8).

Definition acpi_get_rsdt : res Z :=
  revision ← rsdp_revision;
  if revision <? 2 then a ← rsdp_rsdtAddress; Ok (TO_HHDM a) else a ← xsdp_xsdtAddress; Ok (TO_HHDM a).

(** The difference is computed in 64 bits, the result is an [int]. *)
Definition acpi_table_count : res Z :=
  sz ← acpi_rsdt_entry_size;
  rsdt ← acpi_get_rsdt;
  len ← sdt_length rsdt;
  Ok (s32 (u64 (len - sizeof_SDTHeader) / sz)).

Definition acpi_get_sdt (n : Z) : res Z :=
  sdt ← acpi_get_rsdt;
  sz ← acpi_rsdt_entry_size;
  phys ← (if sz =? 4 then load_le m (sdt + sizeof_SDTHeader + n * 4) 4 else load_le m (sdt + sizeof_SDTHeader + n * 8) 8);
  Ok (TO_HHDM phys).

(** [n] tables from index [i] on; [strncmp] with four characters none of
    which is the terminator. *)
Fixpoint find_loop (n : nat) (signature : list Z) (i : Z) : res Z :=
  match n with
  | O => Ok 0
  | S n =>
      header ← acpi_get_sdt i;
      eq ← bytes_equal m header signature;
      if (eq : bool) then Ok header else find_loop n signature (i + 1)
  end.

Definition acpi_find_sdt (signature : list Z) : res Z :=
  if rsdp_address =? 0 then Ok 0 else
  entries ← acpi_table_count;
  find_loop (Z.to_nat entries) signature 0.

(** The sum of [n] bytes from [p] on, in 8 bits. *)
Fixpoint checksum_loop (n : nat) (p checksum : Z) : res Z :=
  match n with
  | O => Ok checksum
  | S n => b ← load m p; checksum_loop n (p + 1) (u8 (checksum + b))
  end.

Definition acpi_check_sdt_checksum (header : Z) : res bool :=
  len ← sdt_length header;
  checksum ← checksum_loop (Z.to_nat len) header 0;
  Ok (checksum =? 0).

(** With the two sums, which are only reported. *)
Definition acpi_verify_rsdp : res (bool * Z * Z) :=
  if rsdp_address =? 0 then Ok (false, 0, 0) else
  checksumV1 ← checksum_loop (Z.to_nat sizeof_RSDP) rsdp_address 0;
  revision ← rsdp_revision;
  if revision <? 2 then Ok (true, checksumV1, 0) else
  len ← xsdp_length;
  checksumV2 ← checksum_loop (Z.to_nat len) rsdp_address 0;
  Ok (true, checksumV1, checksumV2).

(** ** tables/fadt.c *)
Definition MAX_FADT_REVISION : Z := 4.
Definition fadt_version_sizes : list Z := [0; 116; 132; 244; 244].
Definition FADT_FLAG_HW_REDUCED_ACPI : Z := Z.shiftl 1 20.
Definition sizeof_FADT : Z := 244.

(** [for (real_rev = MAX_FADT_REVISION; real_rev > 0; real_rev--)]. *)
Fixpoint fadt_revision (n : nat) (len : Z) : res Z :=
  match n with
  | O => Ok 0
  | S n' => size ← array_get fadt_version_sizes (Z.of_nat n); if len >=? size then Ok (Z.of_nat n) else fadt_revision n' len
  end.

(** The bytes [memcpy] copies. *)
Fixpoint load_bytes (n : nat) (p : Z) : res (list Z) :=
  match n with
  | O => Ok []
  | S n => b ← load m p; bs ← load_bytes n (p + 1); Ok (b :: bs)
  end.

(** The new contents of [clean_fadt]; it stays all zero on the early returns. *)
Definition acpi_verify_fadt : res (list Z) :=
  let zero := replicate (Z.to_nat sizeof_FADT) 0 in
  firmware_fadt ← acpi_find_sdt FACP_SIGNATURE;
  if firmware_fadt =? 0 then Ok zero else
  len ← sdt_length firmware_fadt;
  real_rev ← fadt_revision (Z.to_nat MAX_FADT_REVISION) len;
  if real_rev =? 0 then Ok zero else
  reported_rev ← sdt_revision firmware_fadt;
  _ ← array_get fadt_version_sizes (MIN reported_rev MAX_FADT_REVISION);
  size ← array_get fadt_version_sizes real_rev;
  bs ← load_bytes (Z.to_nat size) firmware_fadt;
  let clean := bs ++ replicate (Z.to_nat (sizeof_FADT - size)) 0 in
  Ok (<[8%nat := real_rev]> clean).

Definition acpi_is_hw_reduced (clean_fadt : list Z) : bool :=
  negb (Z.land (le_value (take 4 (drop 112 clean_fadt))) FADT_FLAG_HW_REDUCED_ACPI =? 0).

(** ** acpi.c: the tables reported on, with their checksums *)
Fixpoint report_tables (n : nat) (i : Z) : res (list (Z * bool)) :=
  match n with
  | O => Ok []
  | S n =>
      header ← acpi_get_sdt i;
      ok ← acpi_check_sdt_checksum header;
      rest ← report_tables n (i + 1);
      Ok ((header, ok) :: rest)
  end.

(** Whether ACPI works, the report and [clean_fadt]. *)
Definition verify_acpi : res (bool * list (Z * bool) * list Z) :=
  '(ok, _, _) ← acpi_verify_rsdp;
  if negb ok then Ok (false, [], replicate (Z.to_nat sizeof_FADT) 0) else
  count ← acpi_table_count;
  tables ← report_tables (Z.to_nat count) 0;
  fadt ← acpi_verify_fadt;
  Ok (true, tables, fadt).

(** ** tables/madt.c *)
Definition entry_type (entry : Z) : res Z := load_le m entry 1.
Definition entry_length (entry : Z) : res Z := load_le m (entry + 1) 1.

(** The entry at [ptr] if it is whole, or null. *)
Definition entry_at (madt ptr : Z) : res Z :=
  len ← sdt_length madt;
  let end_ := madt + len in
  if ptr + sizeof_MADTEntryHeader >? end_ then Ok 0 else
  elen ← entry_length ptr;
  if elen <? sizeof_MADTEntryHeader then Ok 0 else
  if ptr + elen >? end_ then Ok 0 else Ok ptr.

Definition madt_first_entry (madt : Z) : res Z := entry_at madt (madt + sizeof_MADT).

Definition madt_next_entry (madt entry : Z) : res Z :=
  if entry =? 0 then madt_first_entry madt
  else elen ← entry_length entry; entry_at madt (entry + elen).

(** [MADT_FOR_EACH_ENTRY]: the entries are handled one after the other. *)
Fixpoint for_each_entry {S : Type} (fuel : nat) (handle : S -> Z -> res S) (madt : Z) (s : S) (entry : Z) : res S :=
  match fuel with
  | O => NoFuel
  | Datatypes.S fuel =>
      if entry =? 0 then Ok s else
      s ← handle s entry;
      entry ← madt_next_entry madt entry;
      for_each_entry fuel handle madt s entry
  end.

(** Every entry is two bytes or more. *)
Definition parse_madt {S : Type} (handle : S -> Z -> res S) (s : S) : res S :=
  madt ← acpi_find_sdt MADT_SDT_SIGNATURE;
  if madt =? 0 then Ok s else
  len ← sdt_length madt;
  entry ← madt_first_entry madt;
  for_each_entry (Datatypes.S (Z.to_nat len)) handle madt s entry.

(** ** riscv64/acpi *)
Record riscv_counts := RiscvCounts { detected_harts : Z; r_entries : Z; r_unknown : Z }.
Definition MADT_TYPE_RINTC : Z := 0x18.
Definition riscv_ignored : list Z := [0x19; 0x1A; 0x1B].

Definition riscv_handle_entry (s : riscv_counts) (entry : Z) : res riscv_counts :=
  ty ← entry_type entry;
  let n := u32 (r_entries s + 1) in
  Ok (if ty =? MADT_TYPE_RINTC then RiscvCounts (u32 (detected_harts s + 1)) n (r_unknown s)
      else if bool_decide (ty ∈ riscv_ignored) then RiscvCounts (detected_harts s) n (r_unknown s)
      else RiscvCounts (detected_harts s) n (u32 (r_unknown s + 1))).

Definition acpi_parse_rhct : res (option Z) :=
  rhct ← acpi_find_sdt RHCT_SDT_SIGNATURE;
  if rhct =? 0 then Ok None else f ← load_le m (rhct + 40) 8; Ok (Some f).

(** ** loongarch64/acpi *)
Record loong_counts := LoongCounts { l_entries : Z; l_unknown : Z }.
Definition loong_handle_entry (s : loong_counts) (entry : Z) : res loong_counts :=
  _ ← entry_type entry;
  Ok (LoongCounts (u32 (l_entries s + 1)) (u32 (l_unknown s + 1))).

(** ** x86_64/acpi *)
Definition MADT_TYPE_APIC : Z := 0x00.
Definition MADT_TYPE_IOAPIC : Z := 0x01.
Definition MADT_TYPE_IRQ_OVERRIDE : Z := 0x02.
Definition MADT_TYPE_x2APIC : Z := 0x09.
(** NMI and address override entries. *)
Definition x86_ignored : list Z := [0x04; 0x0A; 0x03; 0x05].

Record detected_apic := DetectedApic { apic_id : Z; acpi_id : Z; apic_flags : Z }.
Record detected_ioapic := DetectedIoapic { ioapic_id : Z; gsi_base : Z; phys_addr : Z }.
Record acpi_irq_override := IrqOverride { irq : Z; gsi : Z; ovr_flags : Z }.

(** The tree of local controllers is represented by the map it stands for,
    the two lists by their elements, newest first. *)
Record x86_madt := X86Madt {
  detected_apics : gmap Z detected_apic; detected_ioapics : list detected_ioapic; irq_overrides : list acpi_irq_override;
  detected_cpus : Z; madt_entries : Z; unknown_madt_entries : Z;
}.

Definition madt_register_lapic (s : x86_madt) (id acpi flags : Z) : x86_madt :=
  if Z.land flags 1 =? 0 then s else
  let apics := <[id := DetectedApic id acpi flags]> (detected_apics s) in
  match detected_apics s !! id with
  | Some _ => X86Madt apics (detected_ioapics s) (irq_overrides s) (detected_cpus s) (madt_entries s) (unknown_madt_entries s)
  | None => X86Madt apics (detected_ioapics s) (irq_overrides s) (u32 (detected_cpus s + 1)) (madt_entries s) (unknown_madt_entries s)
  end.

Definition x86_handle_entry (s : x86_madt) (entry : Z) : res x86_madt :=
  let s := X86Madt (detected_apics s) (detected_ioapics s) (irq_overrides s) (detected_cpus s) (u32 (madt_entries s + 1)) (unknown_madt_entries s) in
  ty ← entry_type entry;
  if ty =? MADT_TYPE_APIC then
    id ← load_le m (entry + 3) 1; acpi ← load_le m (entry + 2) 1; flags ← load_le m (entry + 4) 4;
    Ok (madt_register_lapic s id acpi flags)
  else if ty =? MADT_TYPE_x2APIC then
    id ← load_le m (entry + 4) 4; acpi ← load_le m (entry + 12) 4; flags ← load_le m (entry + 8) 4;
    Ok (madt_register_lapic s id acpi flags)
  else if ty =? MADT_TYPE_IOAPIC then
    id ← load_le m (entry + 2) 1; addr ← load_le m (entry + 4) 4; base ← load_le m (entry + 8) 4;
    Ok (X86Madt (detected_apics s) (DetectedIoapic id base addr :: detected_ioapics s) (irq_overrides s) (detected_cpus s) (madt_entries s) (unknown_madt_entries s))
  else if ty =? MADT_TYPE_IRQ_OVERRIDE then
    irq ← load_le m (entry + 3) 1; gsi ← load_le m (entry + 4) 4; flags ← load_le m (entry + 8) 2;
    Ok (X86Madt (detected_apics s) (detected_ioapics s) (IrqOverride irq gsi flags :: irq_overrides s) (detected_cpus s) (madt_entries s) (unknown_madt_entries s))
  else if bool_decide (ty ∈ x86_ignored) then Ok s
  else Ok (X86Madt (detected_apics s) (detected_ioapics s) (irq_overrides s) (detected_cpus s) (madt_entries s) (u32 (unknown_madt_entries s + 1))).

Definition x86_madt_empty : x86_madt := X86Madt ∅ [] [] 0 0 0.
End Acpi.

(** ** The walk *)
Fixpoint fold_res {S : Type} (f : S -> Z -> res S) (s : S) (es : list Z) : res S :=
  match es with [] => Ok s | e :: es => s ← f s e; fold_res f s es end.

Section Walk.
Context (m : bytes) (madt len : Z) (HB : byte_mem m) (Hmadt : 0 < madt) (Hm : mapped m madt len) (Hlen : sdt_length m madt = Ok len).

(** A whole entry of the table. *)
Definition entry_in (e elen : Z) : Prop := entry_length m e = Ok elen /\ madt + sizeof_MADT <= e /\ 2 <= elen /\ e + elen <= madt + len.

Lemma entry_at_cases ptr :
  madt + sizeof_MADT <= ptr -> (entry_at m madt ptr = Ok 0 \/ exists elen, entry_at m madt ptr = Ok ptr /\ entry_in ptr elen).
Proof using HB Hm Hlen.
  intros Hp. unfold entry_at. rewrite Hlen, bind_Ok. cbv zeta. unfold sizeof_MADTEntryHeader, sizeof_MADT in *. rewrite Z.gtb_ltb.
  destruct (Z.ltb_spec (madt + len) (ptr + 2)); [by left|].
  destruct (load_le_ok m 1 (ptr + 1) HB) as (bs & E & _); [intros a Ha; apply Hm; lia|]. unfold entry_in, entry_length. rewrite E, !bind_Ok.
  destruct (Z.ltb_spec (le_value bs) 2); [by left|]. rewrite Z.gtb_ltb. destruct (Z.ltb_spec (madt + len) (ptr + le_value bs)); [by left|].
  right. exists (le_value bs). split; [done|]. unfold sizeof_MADT. split_and!; (done || lia).
Qed.

(** The entries, one behind the other. *)
Inductive entries_from : Z -> list Z -> Prop :=
| entries_end ptr : entry_at m madt ptr = Ok 0 -> entries_from ptr []
| entries_more ptr elen es : entry_at m madt ptr = Ok ptr -> entry_in ptr elen -> entries_from (ptr + elen) es -> entries_from ptr (ptr :: es).

Lemma entries_exist n : forall ptr, madt + sizeof_MADT <= ptr -> (Z.to_nat (madt + len - ptr) <= n)%nat -> exists es, entries_from ptr es.
Proof using HB Hm Hlen.
  induction n as [|n IH]; intros ptr Hp Hn; (destruct (entry_at_cases ptr Hp) as [E|(elen & E & He)]; [by exists []; constructor|]);
    pose proof He as (_ & H1 & H2 & H3); [lia|].
  destruct (IH (ptr + elen)) as [es Hes]; [lia|lia|]. exists (ptr :: es). by econstructor.
Qed.

Lemma entries_bounds ptr es : entries_from ptr es -> madt + sizeof_MADT <= ptr ->
  Forall (fun e => exists elen, entry_in e elen) es /\ (length es <= Z.to_nat (madt + len - ptr))%nat /\ StronglySorted Z.lt es.
Proof using Type.
  intros He Hp. assert (madt + sizeof_MADT <= ptr /\ Forall (fun e => exists elen, entry_in e elen) es /\ Forall (fun e => ptr <= e) es /\
    (length es <= Z.to_nat (madt + len - ptr))%nat /\ StronglySorted Z.lt es) as H; [|tauto].
  induction He as [ptr E|ptr elen es E Hin He IH]; [split_and!; [done|constructor|constructor|cbn; lia|constructor]|].
  pose proof Hin as (_ & H1 & H2 & H3). destruct IH as (_ & F1 & F2 & Hl & HS); [lia|].
  split_and!; [done|constructor; eauto|constructor; [lia|]|cbn; lia|constructor; [done|]]; eapply Forall_impl; try exact F2; cbn; lia.
Qed.

Lemma walk_fold {S : Type} (handle : S -> Z -> res S) ptr es : entries_from ptr es -> madt + sizeof_MADT <= ptr ->
  forall s fuel entry, entry_at m madt ptr = Ok entry -> (length es < fuel)%nat -> for_each_entry m fuel handle madt s entry = fold_res handle s es.
Proof using Hmadt.
  intros He Hp. assert (0 < sizeof_MADT) by done.
  induction He as [ptr E|ptr elen es E Hin He IH]; intros s fuel entry Ee Hf; destruct fuel as [|fuel]; cbn [length] in Hf; [lia| |lia|]; rewrite E in Ee; injection Ee as <-; cbn [for_each_entry fold_res].
  - done.
  - rewrite (proj2 (Z.eqb_neq ptr 0)) by lia. destruct (handle s ptr) as [s'| | |]; try done. rewrite !bind_Ok.
    unfold madt_next_entry. rewrite (proj2 (Z.eqb_neq ptr 0)) by lia. destruct Hin as (-> & H1 & H2 & H3). rewrite bind_Ok.
    inversion He as [? E' Hq|? ? ? E' ? ? Hq]; subst; rewrite E', bind_Ok; apply IH; try done; cbn [length] in *; lia.
Qed.
End Walk.

Lemma madt_walk `{cfg : kconfig} m rsdp madt len :
  byte_mem m -> 0 < madt -> acpi_find_sdt m rsdp MADT_SDT_SIGNATURE = Ok madt -> sdt_length m madt = Ok len -> mapped m madt len ->
  exists es, Forall (fun e => exists elen, entry_in m madt len e elen) es /\ StronglySorted Z.lt es /\ (length es <= Z.to_nat len)%nat /\
    entries_from m madt len (madt + sizeof_MADT) es /\ forall S (handle : S -> Z -> res S) s, parse_madt m rsdp handle s = fold_res handle s es.
Proof.
  intros HB H0 Hf Hl Hm. destruct (entries_exist m madt len HB Hm Hl _ (madt + sizeof_MADT) ltac:(lia) (Nat.le_refl _)) as [es Hes].
  destruct (entries_bounds m madt len _ _ Hes ltac:(lia)) as (F & HL & HS). exists es. unfold sizeof_MADT in *. split_and!; try done; [lia|].
  intros S handle s. unfold parse_madt. rewrite Hf, bind_Ok. rewrite (proj2 (Z.eqb_neq madt 0)) by lia. rewrite Hl, bind_Ok. unfold madt_first_entry.
  assert (exists entry, entry_at m madt (madt + 44) = Ok entry) as [entry Ee] by (inversion Hes; eauto). change sizeof_MADT with 44. rewrite Ee, bind_Ok.
  apply (walk_fold m madt len H0 handle (madt + 44)); [done|done|done|]. lia.
Qed.


(** ** The processors *)
Section Processors.
Context (m : bytes) (HB : byte_mem m).

(** The local controller an entry describes, if it is usable. *)
Definition lapic_of (e : Z) : option detected_apic :=
  let ty := field m e 1 in
  let a :=
    if ty =? MADT_TYPE_APIC then Some (DetectedApic (field m (e + 3) 1) (field m (e + 2) 1) (field m (e + 4) 4))
    else if ty =? MADT_TYPE_x2APIC then Some (DetectedApic (field m (e + 4) 4) (field m (e + 12) 4) (field m (e + 8) 4))
    else None in
  match a with Some a => if Z.land (apic_flags a) 1 =? 0 then None else Some a | None => None end.

(** The size of the structure the code reads an entry as. *)
Definition struct_size (ty : Z) : Z :=
  if ty =? MADT_TYPE_APIC then 8 else if ty =? MADT_TYPE_x2APIC then 16 else if ty =? MADT_TYPE_IOAPIC then 12
  else if ty =? MADT_TYPE_IRQ_OVERRIDE then 10 else 2.

Definition insert_apic (M : gmap Z detected_apic) (a : detected_apic) : gmap Z detected_apic := <[apic_id a := a]> M.

(** The state after some entries. *)
Definition counted_state (s : x86_madt) (M : gmap Z detected_apic) (n : nat) : Prop :=
  detected_apics s = M /\ detected_cpus s = Z.of_nat (size M) /\ (size M <= n)%nat /\ madt_entries s = Z.of_nat n.

Lemma size_insert_apic M a n : (size M <= n)%nat -> (size (insert_apic M a) <= S n)%nat.
Proof.
  intros H. unfold insert_apic. destruct (M !! apic_id a) eqn:E; [rewrite map_size_insert_Some by eauto; lia|rewrite map_size_insert_None by done; lia].
Qed.

Lemma handle_ok s M n e :
  counted_state s M n -> Z.of_nat n < 2 ^ 32 - 1 -> mapped m e (struct_size (field m e 1)) ->
  exists s', x86_handle_entry m s e = Ok s' /\ counted_state s' (match lapic_of e with Some a => insert_apic M a | None => M end) (S n).
Proof using HB.
  intros C Hn Hm. assert (forall off k, 0 <= off -> off + Z.of_nat k <= struct_size (field m e 1) -> load_le m (e + off) k = Ok (field m (e + off) k)) as Hl.
  { intros off k H1 H2. apply (field_ok m HB). intros a Ha. apply Hm. lia. }
  assert (load_le m e 1 = Ok (field m e 1)) as Ht.
  { pose proof (Hl 0 1%nat ltac:(lia)) as H. rewrite Z.add_0_r in H. apply H. unfold struct_size. repeat case_match; lia. }
  unfold x86_handle_entry, entry_type. rewrite Ht, bind_Ok. set (s1 := X86Madt _ _ _ _ (u32 (madt_entries s + 1)) _).
  assert (counted_state s1 M (S n)) as C1.
  { destruct C as (E1 & E2 & E3 & E4). unfold s1. split_and!; cbn; try done; [lia|]. rewrite E4. unfold u32. rewrite Z.mod_small; lia. }
  clearbody s1. unfold lapic_of, struct_size in *.
  assert (forall id acpi fl, counted_state (madt_register_lapic s1 id acpi fl)
    (match (if Z.land fl 1 =? 0 then None else Some (DetectedApic id acpi fl)) with Some a => insert_apic M a | None => M end) (S n)) as Hreg.
  { intros id acpi fl. destruct C1 as (D1 & D2 & D3 & D4). unfold madt_register_lapic. destruct (Z.land fl 1 =? 0); [by split_and!|]. cbv zeta.
    destruct C as (_ & _ & Hs & _). pose proof (size_insert_apic M (DetectedApic id acpi fl) n Hs) as Hsz. unfold insert_apic in *. cbn [apic_id] in *.
    rewrite D1. destruct (M !! id) as [x|] eqn:Hx; split_and!; cbn; try done.
    - by rewrite D2, map_size_insert_Some by eauto.
    - rewrite D2, map_size_insert_None by done. unfold u32. rewrite Z.mod_small; lia. }
  destruct (Z.eqb_spec (field m e 1) MADT_TYPE_APIC) as [E0|E0].
  { rewrite !Hl, !bind_Ok by (cbn; lia). eexists. split; [done|]. apply Hreg. }
  destruct (Z.eqb_spec (field m e 1) MADT_TYPE_x2APIC) as [E9|E9].
  { rewrite !Hl, !bind_Ok by (cbn; lia). eexists. split; [done|]. apply Hreg. }
  destruct (Z.eqb_spec (field m e 1) MADT_TYPE_IOAPIC) as [E2|E2].
  { rewrite !Hl, !bind_Ok by (cbn; lia). eexists. split; [done|]. exact C1. }
  destruct (Z.eqb_spec (field m e 1) MADT_TYPE_IRQ_OVERRIDE) as [E3|E3].
  { rewrite !Hl, !bind_Ok by (cbn; lia). eexists. split; [done|]. exact C1. }
  case_bool_decide; (eexists; split; [done|exact C1]).
Qed.

Lemma handle_all_ok es : forall s M n,
  counted_state s M n -> Z.of_nat (n + length es) < 2 ^ 32 -> Forall (fun e => mapped m e (struct_size (field m e 1))) es ->
  exists s', fold_res (x86_handle_entry m) s es = Ok s' /\ counted_state s' (foldl insert_apic M (omap lapic_of es)) (n + length es).
Proof using HB.
  induction es as [|e es IH]; intros s M n C Hn HF; cbn [fold_res length]; [exists s; rewrite Nat.add_0_r; done|]. cbn [length] in Hn.
  inversion HF as [|? ? He HF']; subst. destruct (handle_ok s M n e C ltac:(lia) He) as (s1 & -> & C1). rewrite bind_Ok.
  destruct (IH s1 _ (S n) C1 ltac:(lia) HF') as (s' & E & C'). exists s'. split; [done|]. rewrite <- Nat.add_succ_comm. change (omap lapic_of (e :: es)) with (match lapic_of e with Some a => a :: omap lapic_of es | None => omap lapic_of es end).
  by destruct (lapic_of e).
Qed.
End Processors.

(** The entries the walk visits. *)
Definition collect (l : list Z) (e : Z) : res (list Z) := Ok (l ++ [e]).

Lemma fold_collect es : forall l, fold_res collect l es = Ok (l ++ es).
Proof. induction es as [|e es IH]; intros l; cbn [fold_res]; [by rewrite app_nil_r|]. cbn [collect]. change (collect l e) with (Ok (l ++ [e])). rewrite bind_Ok, IH, <- app_assoc. done. Qed.

(** after parsing, the local controllers known are those of the usable
    processor entries of the table, one per identifier with the data of its
    last entry, and the processors counted are just those. *)
Theorem x86_processors_found `{cfg : kconfig} m rsdp madt len es :
  byte_mem m -> 0 < madt -> acpi_find_sdt m rsdp MADT_SDT_SIGNATURE = Ok madt -> sdt_length m madt = Ok len -> mapped m madt len ->
  parse_madt m rsdp collect [] = Ok es -> Forall (fun e => struct_size (field m e 1) <= field m (e + 1) 1) es ->
  exists s, parse_madt m rsdp (x86_handle_entry m) x86_madt_empty = Ok s /\
    detected_apics s = foldl insert_apic ∅ (omap (lapic_of m) es) /\ detected_cpus s = Z.of_nat (size (detected_apics s)) /\
    madt_entries s = Z.of_nat (length es).
Proof.
  intros HB H0 Hf Hl Hm Hc Hs. destruct (madt_walk m rsdp madt len HB H0 Hf Hl Hm) as (es' & F & _ & HL & _ & E).
  rewrite E, fold_collect in Hc. injection Hc as ->. cbn [app] in *.
  pose proof (load_le_range m HB 4 _ _ Hl) as Hlen. change (256 ^ Z.of_nat 4) with (2 ^ 32) in Hlen.
  destruct (handle_all_ok m HB es x86_madt_empty ∅ 0) as (s & E' & C1 & C2 & _ & C4).
  - by split_and!.
  - lia.
  - apply Forall_forall. intros e He. rewrite Forall_forall in F, Hs. destruct (F e He) as (elen & G0 & G1 & _ & G3). specialize (Hs e He). cbn in Hs.
    unfold field at 2 in Hs. unfold entry_length in G0. rewrite G0 in Hs. unfold sizeof_MADT in *. intros a Ha. apply Hm. lia.
  - exists s. split; [by rewrite E|]. rewrite C1. by split_and!.
Qed.

(** ** The fixed table *)
Lemma load_bytes_ok m n : forall p, mapped m p (Z.of_nat n) ->
  exists bs, load_bytes m n p = Ok bs /\ length bs = n /\ forall i, (i < n)%nat -> bs !! i = m !! (p + Z.of_nat i).
Proof.
  induction n as [|n IH]; intros p Hm; cbn [load_bytes]; [exists []; split_and!; [done|done|lia]|]. destruct (Hm p ltac:(lia)) as [b Hb]. rewrite (load_Ok _ _ _ Hb), bind_Ok.
  destruct (IH (p + 1)) as (bs & -> & Hl & Hi); [intros a Ha; apply Hm; lia|]. rewrite bind_Ok. exists (b :: bs). split; [done|]. split; [cbn; lia|].
  intros [|i] Hlt; cbn; [by rewrite Z.add_0_r|]. rewrite Hi by lia. f_equal. lia.
Qed.

(** The largest known size that fits. *)
Definition fadt_size (len : Z) : Z := if 244 <=? len then 244 else if 132 <=? len then 132 else if 116 <=? len then 116 else 0.

Lemma fadt_revision_ok len : exists rev, fadt_revision 4 len = Ok rev /\ array_get fadt_version_sizes rev = Ok (fadt_size len) /\ 0 <= rev <= 4 /\ (rev = 0 <-> len < 116).
Proof.
  unfold fadt_size. cbn [fadt_revision]. change (array_get fadt_version_sizes (Z.of_nat 4)) with (Ok 244). change (array_get fadt_version_sizes (Z.of_nat 3)) with (Ok 244).
  change (array_get fadt_version_sizes (Z.of_nat 2)) with (Ok 132). change (array_get fadt_version_sizes (Z.of_nat 1)) with (Ok 116). rewrite !bind_Ok, !Z.geb_leb.
  destruct (Z.leb_spec 244 len); [by exists 4; split_and!; try done; lia|]. rewrite ?bind_Ok. destruct (Z.leb_spec 132 len); [by exists 2; split_and!; try done; lia|]. rewrite ?bind_Ok.
  destruct (Z.leb_spec 116 len); [by exists 1; split_and!; try done; lia|]. exists 0. split_and!; try done; lia.
Qed.

(** the kernel's copy of the fixed table has the size of its structure
    and holds the bytes of the firmware's table up to the largest known size
    that the table's length covers, with the revision of that size; nothing
    past the table is read, and a table that is too short is ignored. *)
Theorem fadt_copy_bounded `{cfg : kconfig} m rsdp t len :
  byte_mem m -> acpi_find_sdt m rsdp FACP_SIGNATURE = Ok t -> t <> 0 -> sdt_length m t = Ok len -> mapped m t len ->
  exists clean, acpi_verify_fadt m rsdp = Ok clean /\ length clean = 244%nat /\ fadt_size len <= len /\
    forall i, 0 <= i < 244 -> i <> 8 -> clean !! Z.to_nat i = if i <? fadt_size len then m !! (t + i) else Some 0.
Proof.
  intros HB Hf H0 Hl Hm. pose proof (load_le_range m HB 4 _ _ Hl) as Hlen. unfold acpi_verify_fadt. rewrite Hf, bind_Ok.
  rewrite (proj2 (Z.eqb_neq t 0) H0), Hl, bind_Ok. destruct (fadt_revision_ok len) as (rev & E & Es & Hr & Hz).
  change (Z.to_nat MAX_FADT_REVISION) with 4%nat. rewrite E, bind_Ok. assert (0 <= fadt_size len <= len /\ fadt_size len <= 244) as [Hs1 Hs2].
  { unfold fadt_size. repeat case_match; lia. }
  destruct (Z.eqb_spec rev 0) as [E0|E0].
  - eexists. split; [done|]. split; [by rewrite length_replicate|]. split; [lia|]. intros i Hi _. assert (fadt_size len = 0) as ->.
    { unfold fadt_size. destruct (proj1 Hz E0); repeat case_match; lia. }
    rewrite (proj2 (Z.ltb_ge i 0)) by lia. apply lookup_replicate. split; [done|]. change (Z.to_nat sizeof_FADT) with 244%nat. lia.
  - assert (116 <= len) as H116 by lia. assert (116 <= fadt_size len) as H116' by (unfold fadt_size; repeat case_match; lia).
    destruct (load_le_ok m 1 (t + 8) HB) as (rb & Er & _ & Hrb & _); [intros a Ha; apply Hm; lia|]. unfold sdt_revision. rewrite Er, bind_Ok.
    pose proof (load_le_range m HB 1 _ _ Er) as Hrr. change (256 ^ Z.of_nat 1) with 256 in Hrr.
    assert (is_Some (fadt_version_sizes !! Z.to_nat (MIN (le_value rb) MAX_FADT_REVISION))) as [x Hx].
    { apply lookup_lt_is_Some. change (length fadt_version_sizes) with 5%nat. rewrite MIN_min. change MAX_FADT_REVISION with 4. lia. }
    assert (array_get fadt_version_sizes (MIN (le_value rb) MAX_FADT_REVISION) = Ok x) as ->.
    { unfold array_get. rewrite Hx, (proj2 (Z.ltb_ge _ _)); [done|]. rewrite MIN_min. change MAX_FADT_REVISION with 4. lia. }
    rewrite bind_Ok, Es, bind_Ok. destruct (load_bytes_ok m (Z.to_nat (fadt_size len)) t) as (bs & -> & Hbl & Hbi); [intros a Ha; apply Hm; lia|].
    rewrite bind_Ok. eexists. split; [done|]. rewrite length_insert, length_app, length_replicate, Hbl. unfold sizeof_FADT. split; [lia|]. split; [lia|].
    intros i Hi Hne. rewrite list_lookup_insert_ne by lia. destruct (Z.ltb_spec i (fadt_size len)).
    + rewrite lookup_app_l by lia. rewrite Hbi by lia. f_equal. lia.
    + rewrite lookup_app_r by lia. apply lookup_replicate. lia.
Qed.

(** ** A small firmware: two tables, two processors *)
Module AcpiDemo.
#[local] Existing Instance x86_64_config.
Definition rsdp : list Z := replicate 16 0 ++ le_bytes 4 0x1000.
Definition header (sig : list Z) (len : Z) : list Z := sig ++ le_bytes 4 len ++ replicate 28 0.
Definition rsdt : list Z := header [82; 83; 68; 84] 44 ++ le_bytes 4 0x2000 ++ le_bytes 4 0x3000.
Definition lapic (acpi id : Z) : list Z := [0; 8; acpi; id; 1; 0; 0; 0].
Definition madt : list Z := header MADT_SDT_SIGNATURE 62 ++ replicate 8 0 ++ lapic 1 0 ++ lapic 2 4 ++ [0x77; 2].
Definition fadt : list Z := header FACP_SIGNATURE 116 ++ replicate 80 7.
Definition mem : bytes :=
  SymDemo.place 0x100 rsdp (SymDemo.place (TO_HHDM 0x1000) rsdt (SymDemo.place (TO_HHDM 0x2000) madt (SymDemo.place (TO_HHDM 0x3000) fadt ∅))).

Lemma mem_bytes : byte_mem mem.
Proof.
  unfold mem. repeat (apply SymDemo.place_bytes; [repeat (apply Forall_cons; split; [by vm_compute|]); by apply Forall_nil|]). intros a b. by rewrite lookup_empty.
Qed.

Lemma mapped_by (m : bytes) p n : forallb (fun i => bool_decide (is_Some (m !! (p + Z.of_nat i)))) (seq 0 n) = true -> mapped m p (Z.of_nat n).
Proof.
  rewrite forallb_forall. intros H a Ha. specialize (H (Z.to_nat (a - p))). rewrite bool_decide_eq_true in H. replace a with (p + Z.of_nat (Z.to_nat (a - p))) by lia. apply H. apply in_seq. lia.
Qed.

Lemma madt_mapped : mapped mem (TO_HHDM 0x2000) 62.
Proof. apply (mapped_by mem (TO_HHDM 0x2000) 62). by vm_compute. Qed.
Lemma fadt_mapped : mapped mem (TO_HHDM 0x3000) 116.
Proof. apply (mapped_by mem (TO_HHDM 0x3000) 116). by vm_compute. Qed.
End AcpiDemo.

#[local] Existing Instance x86_64_config.


Lemma x86_processors_found_witness : exists s,
  parse_madt AcpiDemo.mem 0x100 (x86_handle_entry AcpiDemo.mem) x86_madt_empty = Ok s /\ detected_cpus s = Z.of_nat (size (detected_apics s)).
Proof.
  destruct (x86_processors_found AcpiDemo.mem 0x100 (TO_HHDM 0x2000) 62 [TO_HHDM 0x202C; TO_HHDM 0x2034; TO_HHDM 0x203C]) as (s & E & _ & Hc & _).
  - exact AcpiDemo.mem_bytes.
  - by vm_compute.
  - by vm_compute.
  - by vm_compute.
  - exact AcpiDemo.madt_mapped.
  - by vm_compute.
  - repeat (apply Forall_cons; split; [by vm_compute|]). by apply Forall_nil.
  - exists s. split; [exact E|exact Hc].
Defined.

Lemma fadt_copy_bounded_witness : exists clean, acpi_verify_fadt AcpiDemo.mem 0x100 = Ok clean /\ length clean = 244%nat.
Proof.
  destruct (fadt_copy_bounded AcpiDemo.mem 0x100 (TO_HHDM 0x3000) 116) as (clean & E & Hl & _).
  - exact AcpiDemo.mem_bytes.
  - by vm_compute.
  - by vm_compute.
  - by vm_compute.
  - exact AcpiDemo.fadt_mapped.
  - exists clean. split; [exact E|exact Hl].
Defined.

(** The length of an entry is not compared with the structure it is read as:
    a processor entry of two bytes at the end of the table is read past it. *)
Definition short_madt : bytes := SymDemo.place 0x2000 (AcpiDemo.header MADT_SDT_SIGNATURE 46 ++ replicate 8 0 ++ [0; 2]) ∅.
Lemma madt_short_entry_overread : entry_at short_madt 0x2000 0x202C = Ok 0x202C /\ x86_handle_entry short_madt x86_madt_empty 0x202C = Fault.
Proof. split; by vm_compute. Qed.
