(* ===== verification/Uart.v ===== *)
(** * The serial port: drivers/16550uart.c, and the console of libc/stdio.c

    The driver reaches the port through byte reads and writes of a bus, either
    the I/O ports of x86_64 or memory.  The bus is an interface: its state [D]
    holds whatever sits behind it.  [uart16550] states what the driver relies
    on when a 16550 sits at an address, as its data sheet documents it; the
    theorems hold for every bus with such a device.  A bus without one is
    covered too. *)

From S2P Require Import Prelude CString Elf Acpi.
#[local] Open Scope Z_scope.

(** Byte reads and writes of an I/O port ([true]) or of memory ([false]), and
    the pause of [spin()]. *)
Class bus (D : Type) := {
  bus_read : bool -> Z -> D -> Z * D;
  bus_write : bool -> Z -> Z -> D -> D;
  bus_pause : D -> D;
}.

(** ** Registers and bits of 16550uart.h *)
Definition SERIAL_RX_BUFF : Z := 0.
Definition SERIAL_TX_BUFF : Z := 0.
Definition SERIAL_INTR_CONF : Z := 1.
Definition SERIAL_DLAB_DIV_LO : Z := 0.
Definition SERIAL_DLAB_DIV_HI : Z := 1.
Definition SERIAL_FIFO_CONF : Z := 2.
Definition SERIAL_LINE_CONF : Z := 3.
Definition SERIAL_MODEM_CONF : Z := 4.
Definition SERIAL_LINE_INFO : Z := 5.
Definition SERIAL_SCRATCH_REG : Z := 7.
Definition SERIAL_FIFO_THRESH_1b : Z := 0x00.
Definition SERIAL_FIFO_ENABLE : Z := 0x01.
Definition SERIAL_FIFO_RX_FLUSH : Z := 0x02.
Definition SERIAL_FIFO_TX_FLUSH : Z := 0x04.
Definition SERIAL_LCR_8BIT : Z := 0x03.
Definition SERIAL_LCR_1STOP : Z := 0x00.
Definition SERIAL_LCR_PARITY_NONE : Z := 0x00.
Definition SERIAL_MCR_TX_ENABLE : Z := 0x01.
Definition SERIAL_MCR_RX_ENABLE : Z := 0x02.
Definition SERIAL_MCR_IRQ_ENABLE : Z := 0x08.
Definition SERIAL_MCR_LOOP_ENABLE : Z := 0x10.
Definition SERIAL_115200_BAUD : Z := 1.
Definition SERIAL_DLAB_BIT : Z := 0x80.
Definition SERIAL_DATA_READY_BIT : Z := 0x01.
Definition SERIAL_TX_EMPTY_BIT : Z := 0x20.
Definition SERIAL_TEST_MAGIC : Z := 0x69.
Definition SERIAL_TEST_RETRIES : nat := 5.

Record serial_ctx := SerialCtx { addr : Z; portIO : bool; working : bool }.

Section Driver.
Context {D : Type} `{bus D} (x86 : bool).
Implicit Types (ctx : serial_ctx) (d : D).

(** arch/x86_64/intrin/portio.h; a port number has 16 bits. *)
Definition outb (port val : Z) (d : D) : D := bus_write true (u16 port) (u8 val) d.
Definition inb (port : Z) (d : D) : Z * D := bus_read true (u16 port) d.
Definition io_wait (d : D) : D := outb 0x80 0 d.
Definition outbd (port val : Z) (d : D) : D := io_wait (outb port val (io_wait d)).
Definition inbd (port : Z) (d : D) : Z * D := let '(ret, d) := inb port (io_wait d) in (ret, io_wait d).

Definition serial_write_reg ctx (reg data : Z) d : res D :=
  let data := u8 data in
  if x86 then
    if portIO ctx then Ok (outbd (u64 (addr ctx + reg)) data d)
    else Ok (bus_write false (u64 (addr ctx + reg)) data d)
  else
    _ ← assert (negb (portIO ctx));
    Ok (bus_write false (u64 (addr ctx + reg)) data d).

Definition serial_read_reg ctx (reg : Z) d : res (Z * D) :=
  if x86 then
    if portIO ctx then Ok (inbd (u64 (addr ctx + reg)) d)
    else Ok (bus_read false (u64 (addr ctx + reg)) d)
  else
    _ ← assert (negb (portIO ctx));
    Ok (bus_read false (u64 (addr ctx + reg)) d).

Definition serial_set_dlab ctx (setting : bool) d : res D :=
  '(lcr, d) ← serial_read_reg ctx SERIAL_LINE_CONF d;
  if setting then serial_write_reg ctx SERIAL_LINE_CONF (Z.lor lcr SERIAL_DLAB_BIT) d
  else serial_write_reg ctx SERIAL_LINE_CONF (Z.land lcr (Z.lnot SERIAL_DLAB_BIT)) d.

Definition serial_set_divisor ctx (divsor : Z) d : res D :=
  d ← serial_set_dlab ctx true d;
  d ← serial_write_reg ctx SERIAL_DLAB_DIV_LO (Z.land divsor 0xff) d;
  d ← serial_write_reg ctx SERIAL_DLAB_DIV_HI (Z.land (Z.shiftr divsor 8) 0xff) d;
  serial_set_dlab ctx false d.

Definition serial_set_interrupts ctx (setting : Z) d : res D :=
  d ← serial_set_dlab ctx false d;
  serial_write_reg ctx SERIAL_INTR_CONF setting d.

Definition serial_set_mcr ctx (setting : Z) d : res D := serial_write_reg ctx SERIAL_MODEM_CONF setting d.
Definition serial_set_lcr ctx (lcr : Z) d : res D := serial_write_reg ctx SERIAL_LINE_CONF lcr d.
Definition serial_set_fifo ctx (fifo : Z) d : res D := serial_write_reg ctx SERIAL_FIFO_CONF fifo d.

Definition SERIAL_TEST_SPINS : nat := Z.to_nat 4096.

(** [n] times [spin()]. *)
Fixpoint spins (n : nat) d : D := match n with O => d | S n => spins n (bus_pause d) end.

(** The retries of the loopback test: whether one of them read the byte back. *)
Fixpoint test_loop (i : nat) ctx d : res (bool * D) :=
  match i with
  | O => Ok (false, d)
  | S i =>
      d ← serial_write_reg ctx SERIAL_TX_BUFF SERIAL_TEST_MAGIC d;
      '(b, d) ← serial_read_reg ctx SERIAL_RX_BUFF (spins SERIAL_TEST_SPINS d);
      if b =? SERIAL_TEST_MAGIC then Ok (true, d) else test_loop i ctx d
  end.

Definition serial_test ctx d : res (Z * D) :=
  d ← serial_set_divisor ctx SERIAL_115200_BAUD d;
  d ← serial_set_lcr ctx (Z.lor (Z.lor SERIAL_LCR_8BIT SERIAL_LCR_1STOP) SERIAL_LCR_PARITY_NONE) d;
  d ← serial_set_fifo ctx (Z.lor SERIAL_FIFO_TX_FLUSH SERIAL_FIFO_RX_FLUSH) d;
  d ← serial_set_mcr ctx (Z.lor (Z.lor SERIAL_MCR_TX_ENABLE SERIAL_MCR_RX_ENABLE) SERIAL_MCR_LOOP_ENABLE) d;
  d ← serial_set_dlab ctx false d;
  '(found, d) ← test_loop SERIAL_TEST_RETRIES ctx d;
  if (found : bool) then Ok (0, d) else
  d ← serial_write_reg ctx SERIAL_SCRATCH_REG SERIAL_TEST_MAGIC d;
  '(b, d) ← serial_read_reg ctx SERIAL_SCRATCH_REG d;
  if b =? SERIAL_TEST_MAGIC then Ok (-1, d) else Ok (-2, d).

(** On [earlycon_serial], which it returns changed. *)
Definition setup_early_serial (earlycon_serial : serial_ctx) (addr : Z) (portIO : bool) d : res (Z * serial_ctx * D) :=
  let ctx := SerialCtx addr portIO (working earlycon_serial) in
  d ← serial_set_interrupts ctx 0 d;
  '(status, d) ← serial_test ctx d;
  if status =? -2 then Ok (status, ctx, d) else
  d ← serial_set_divisor ctx SERIAL_115200_BAUD d;
  d ← serial_set_lcr ctx (Z.lor (Z.lor SERIAL_LCR_8BIT SERIAL_LCR_1STOP) SERIAL_LCR_PARITY_NONE) d;
  d ← serial_set_fifo ctx (Z.lor (Z.lor (Z.lor SERIAL_FIFO_ENABLE SERIAL_FIFO_THRESH_1b) SERIAL_FIFO_TX_FLUSH) SERIAL_FIFO_RX_FLUSH) d;
  d ← serial_set_mcr ctx (Z.lor (Z.lor SERIAL_MCR_TX_ENABLE SERIAL_MCR_RX_ENABLE) SERIAL_MCR_IRQ_ENABLE) d;
  d ← serial_set_dlab ctx false d;
  Ok (status, SerialCtx addr portIO true, d).

Definition serial_transmit_empty ctx d : res (bool * D) :=
  '(b, d) ← serial_read_reg ctx SERIAL_LINE_INFO d;
  Ok (negb (Z.land b SERIAL_TX_EMPTY_BIT =? 0), d).

Definition serial_data_ready ctx d : res (bool * D) :=
  '(b, d) ← serial_read_reg ctx SERIAL_LINE_INFO d;
  Ok (negb (Z.land b SERIAL_DATA_READY_BIT =? 0), d).

(** At most [n] polls of the line. *)
Fixpoint poll_loop (n : nat) ctx d : res D :=
  match n with
  | O => Ok d
  | S n =>
      '(empty, d) ← serial_transmit_empty ctx d;
      if (empty : bool) then Ok d else poll_loop n ctx (bus_pause d)
  end.

Definition SERIAL_POLLS : nat := Z.to_nat 100000.

Definition serial_send ctx (c : Z) d : res D :=
  if negb (working ctx) then Ok d else
  d ← poll_loop SERIAL_POLLS ctx d;
  serial_write_reg ctx SERIAL_TX_BUFF c d.

Definition serial_read ctx d : res (Z * D) :=
  if negb (working ctx) then Ok (-1, d) else
  '(ready, d) ← serial_data_ready ctx d;
  if negb ready then Ok (-1, d) else serial_read_reg ctx SERIAL_RX_BUFF d.
End Driver.

(** ** Finding the port in the firmware's tables *)
Definition SPCR_SIGNATURE : list Z := [83; 80; 67; 82].
Definition SPCR_IFACE_16550 : Z := 0.
Definition ACPI_ADDRESS_TYPE_MMIO : Z := 0.
Definition ACPI_ADDRESS_TYPE_PORT_IO : Z := 1.

Section Detect.
Context `{cfg : kconfig} (m : bytes) (rsdp_address : Z).

Definition spcr_interface_type (spcr : Z) : res Z := load_le m (spcr + 36) 1.
Definition spcr_address_space_id (spcr : Z) : res Z := load_le m (spcr + 40) 1.
Definition spcr_address (spcr : Z) : res Z := load_le m (spcr + 44) 8.

(** The address and whether it is a port; the DBG2 table is not read. *)
Definition detect_early_serial (x86 : bool) : res (option (Z * bool)) :=
  spcr ← acpi_find_sdt m rsdp_address SPCR_SIGNATURE;
  if spcr =? 0 then Ok None else
  address ← spcr_address spcr;
  if address =? 0 then Ok None else
  interface_type ← spcr_interface_type spcr;
  if negb (interface_type =? SPCR_IFACE_16550) then Ok None else
  space ← spcr_address_space_id spcr;
  if negb x86 && negb (space =? ACPI_ADDRESS_TYPE_MMIO) then Ok None
  else if x86 && negb (space =? ACPI_ADDRESS_TYPE_MMIO) && negb (space =? ACPI_ADDRESS_TYPE_PORT_IO) then Ok None
  else Ok (Some (address, space =? ACPI_ADDRESS_TYPE_PORT_IO)).

(** The serial part of arch/x86_64/init.c: memory is not mapped yet, so only a
    port is used, and the first standard one is tried otherwise. *)
Definition x86_earlycon_serial {D} `{bus D} (earlycon_serial : serial_ctx) (d : D) : res (Z * serial_ctx * D) :=
  detected ← detect_early_serial true;
  match detected with
  | Some (serial_addr, true) => setup_early_serial true earlycon_serial serial_addr true d
  | _ => setup_early_serial true earlycon_serial 0x3F8 true d
  end.
End Detect.

(** ** The console *)
Section Console.
Context {D T : Type} `{bus D} (x86 : bool).
(** The terminal on the frame buffer is third-party code. *)
Context (flanterm_write : T -> list Z -> T).
(** Where the platform has a debug channel of its own: the port 0xE9 under a
    hypervisor, the firmware's console on riscv64. *)
Context (debug_putc : Z -> D -> D).

Record console := Console { ft_ctx : option T; earlycon_serial : serial_ctx; device : D }.

Definition LF : Z := 10.
Definition CR : Z := 13.

Definition internal_putc (con : console) (c : Z) : res console :=
  let ft := match ft_ctx con with
            | Some ft => Some (flanterm_write (if u8 c =? LF then flanterm_write ft [CR] else ft) [u8 c])
            | None => None
            end in
  d ← (if working (earlycon_serial con) then
         d ← (if u8 c =? LF then serial_send x86 (earlycon_serial con) CR (device con) else Ok (device con));
         serial_send x86 (earlycon_serial con) c d
       else Ok (device con));
  Ok (Console ft (earlycon_serial con) (debug_putc c d)).

(** The characters npf_vpprintf passes on, in order. *)
Fixpoint put_text (con : console) (text : list Z) : res console :=
  match text with
  | [] => Ok con
  | c :: text => con ← internal_putc con c; put_text con text
  end.
End Console.

(** ** What a 16550 does *)

(** The registers, and the bytes that left on the wire. *)
Record uart := UartRegs { lcr : Z; ier : Z; fcr : Z; mcr : Z; dll : Z; dlm : Z; scr : Z; wire : list Z }.

Definition dlab (u : uart) : bool := Z.testbit (lcr u) 7.
Definition loopback (u : uart) : bool := Z.testbit (mcr u) 4.

(** A write of a register: two of them are shared with the divisor, and a
    byte written in loopback mode does not leave. *)
Definition uart_write (r v : Z) (u : uart) : uart :=
  let '(UartRegs lcr ier fcr mcr dll dlm scr wire) := u in
  if r =? 0 then
    if dlab u then UartRegs lcr ier fcr mcr v dlm scr wire
    else if loopback u then u
    else UartRegs lcr ier fcr mcr dll dlm scr (wire ++ [v])
  else if r =? 1 then
    if dlab u then UartRegs lcr ier fcr mcr dll v scr wire else UartRegs lcr v fcr mcr dll dlm scr wire
  else if r =? 2 then UartRegs lcr ier v mcr dll dlm scr wire
  else if r =? 3 then UartRegs v ier fcr mcr dll dlm scr wire
  else if r =? 4 then UartRegs lcr ier fcr v dll dlm scr wire
  else if r =? 7 then UartRegs lcr ier fcr mcr dll dlm v wire
  else u.

(** The bus address of a register. *)
Definition reg_at (io : bool) (base r : Z) : Z := if io then u16 (u64 (base + r)) else u64 (base + r).

(** Steps of waiting: pauses and writes to the port 0x80. *)
Inductive idle {D} `{bus D} : nat -> D -> D -> Prop :=
| idle_none d : idle 0 d d
| idle_pause n d d' : idle n (bus_pause d) d' -> idle (S n) d d'
| idle_wait n d d' : idle n (bus_write true 0x80 0 d) d' -> idle n d d'.

Class uart16550 (D : Type) `{bus D} (io : bool) (base : Z) := {
  (** Registers and wire, and how many reads of the line status it takes until
      the transmitter is empty. *)
  view : D -> uart;
  busy : D -> nat;
  busy_bound d : (busy d < SERIAL_POLLS)%nat;
  write_law r v d : 0 <= r < 8 -> is_byte v ->
    (r = 0 -> dlab (view d) = true \/ loopback (view d) = true \/ busy d = O) ->
    view (bus_write io (reg_at io base r) v d) = uart_write r v (view d);
  read_law r d : 0 <= r < 8 -> view (bus_read io (reg_at io base r) d).2 = view d;
  read_lcr d : (bus_read io (reg_at io base 3) d).1 = lcr (view d);
  read_scr d : (bus_read io (reg_at io base 7) d).1 = scr (view d);
  read_lsr d : Z.testbit (bus_read io (reg_at io base 5) d).1 5 = bool_decide (busy d = O);
  read_busy d : (busy (bus_read io (reg_at io base 5) d).2 <= pred (busy d))%nat;
  pause_law d : view (bus_pause d) = view d /\ (busy (bus_pause d) <= busy d)%nat;
  wait_law d : view (bus_write true 0x80 0 d) = view d /\ (busy (bus_write true 0x80 0 d) <= busy d)%nat;
  (** In loopback mode a byte written is received, after some time. *)
  loop_law v n d d' : dlab (view d) = false -> loopback (view d) = true -> (4096 <= n)%nat ->
    idle n (bus_write io (reg_at io base 0) v d) d' -> (bus_read io (reg_at io base 0) d').1 = v;
}.

Section Correct.
Context {D : Type} `{B : bus D} (x86 io : bool) (base : Z) `{U : !uart16550 D io base}.
(** Port I/O exists on x86_64 only. *)
Hypothesis arch_ok : io = true -> x86 = true.

(** A context of this port. *)
Definition here (ctx : serial_ctx) : Prop := addr ctx = base /\ portIO ctx = io.

Lemma u8_byte v : is_byte (u8 v).
Proof using Type. unfold is_byte, u8. pose proof (Z.mod_pos_bound v (2 ^ 8)). lia. Qed.

Lemma write_reg_ok ctx r v d :
  here ctx -> 0 <= r < 8 -> (r = 0 -> dlab (view d) = true \/ loopback (view d) = true \/ busy d = O) ->
  returns (serial_write_reg x86 ctx r v d) (fun d' => view d' = uart_write r (u8 v) (view d)).
Proof using arch_ok.
  intros [Ha Hp] Hr Hb. unfold serial_write_reg. rewrite Ha, Hp. destruct io.
  - rewrite arch_ok by done. apply returns_Ok. unfold outbd, io_wait, outb.
    change (bus_write true (u16 0x80) (u8 0)) with (bus_write (D := D) true 0x80 0). destruct (wait_law d) as [E1 L1].
    rewrite (proj1 (wait_law _)). change (u16 (u64 (base + r))) with (reg_at true base r).
    replace (u8 (u8 v)) with (u8 v) by (unfold u8; by rewrite Z.mod_mod by lia). rewrite write_law; [by rewrite E1|done|apply u8_byte|].
    rewrite E1. intros Er. destruct (Hb Er) as [?|[?|?]]; auto. right. right. lia.
  - assert (view (bus_write false (u64 (base + r)) (u8 v) d) = uart_write r (u8 v) (view d)) as E
      by (apply (write_law (io := false) (base := base) r); [done|apply u8_byte|done]).
    destruct x86; apply returns_Ok; exact E.
Qed.

Lemma read_reg_ok ctx r d :
  here ctx -> 0 <= r < 8 ->
  returns (serial_read_reg x86 ctx r d) (fun '(b, d') => view d' = view d /\ (r = 3 -> b = lcr (view d)) /\ (r = 7 -> b = scr (view d)) /\
    (r = 5 -> if Z.testbit b 5 then busy d' = O else busy d <> O /\ (busy d' <= pred (busy d))%nat)).
Proof using arch_ok.
  intros [Ha Hp] Hr. unfold serial_read_reg. rewrite Ha, Hp. destruct io.
  - rewrite arch_ok by done. unfold inbd, io_wait, outb, inb. change (u16 0x80) with 0x80. change (u8 0) with 0. change (u16 (u64 (base + r))) with (reg_at true base r).
    destruct (wait_law d) as [E1 L1]. set (d1 := bus_write true 128 0 d) in *. pose proof (read_law (base := base) r d1 Hr) as E2.
    pose proof (read_lcr (base := base) d1) as E3. pose proof (read_scr (base := base) d1) as E4. pose proof (read_lsr (base := base) d1) as E5. pose proof (read_busy (base := base) d1) as E6.
    destruct (bus_read true (reg_at true base r) d1) as [b d2] eqn:Er. destruct (wait_law d2) as [E7 L7]. apply returns_Ok. cbn [fst snd] in *.
    split; [congruence|]. split_and!; intros ->; rewrite ?Er in *; cbn [fst snd] in *; try congruence.
    rewrite E5. case_bool_decide; lia.
  - change (u64 (base + r)) with (reg_at false base r). pose proof (read_law (base := base) r d Hr) as E2.
    pose proof (read_lcr (base := base) d) as E3. pose proof (read_scr (base := base) d) as E4. pose proof (read_lsr (base := base) d) as E5. pose proof (read_busy (base := base) d) as E6.
    assert (returns (Ok (bus_read false (reg_at false base r) d)) (fun '(b, d') => view d' = view d /\ (r = 3 -> b = lcr (view d)) /\ (r = 7 -> b = scr (view d)) /\
      (r = 5 -> if Z.testbit b 5 then busy d' = O else busy d <> O /\ (busy d' <= pred (busy d))%nat))) as G.
    { destruct (bus_read false (reg_at false base r) d) as [b d2] eqn:Er. apply returns_Ok. cbn [fst snd] in *.
      split; [congruence|]. split_and!; intros ->; rewrite ?Er in *; cbn [fst snd] in *; try congruence. rewrite E5. case_bool_decide; lia. }
    destruct x86; exact G.
Qed.

Lemma idle_trans n k d1 d2 d3 : idle n d1 d2 -> idle k d2 d3 -> idle (n + k) d1 d3.
Proof using Type. induction 1; cbn [Nat.add]; eauto using @idle. Qed.

Lemma idle_spins n : forall d, idle n d (spins n d).
Proof using Type. induction n as [|n IH]; intros d; cbn [spins]; [constructor|by apply idle_pause]. Qed.

Lemma spins_view n : forall d, view (spins n d) = view d.
Proof using Type. induction n as [|n IH]; intros d; cbn [spins]; [done|]. rewrite IH. apply pause_law. Qed.

Lemma Ok_inj {A} (x y : A) : Ok x = Ok y -> x = y.
Proof using Type. congruence. Qed.

Lemma test_spins_ok : (4096 <= SERIAL_TEST_SPINS)%nat.
Proof using Type. unfold SERIAL_TEST_SPINS. lia. Qed.
#[local] Opaque SERIAL_TEST_SPINS.

(** One try of the loopback test. *)
Lemma loopback_try ctx d :
  here ctx -> dlab (view d) = false -> loopback (view d) = true ->
  returns (test_loop x86 SERIAL_TEST_RETRIES ctx d) (fun '(found, d') => found = true /\ view d' = view d).
Proof using arch_ok.
  intros Hh Hd Hl. unfold SERIAL_TEST_RETRIES. cbn [test_loop].
  pose proof (write_reg_ok ctx SERIAL_TX_BUFF SERIAL_TEST_MAGIC d Hh ltac:(done) ltac:(auto)) as (d1 & E1 & V1).
  rewrite E1, bind_Ok. pose proof (read_reg_ok ctx SERIAL_RX_BUFF (spins (SERIAL_TEST_SPINS) d1) Hh ltac:(done)) as ([b d2] & E2 & V2 & _).
  rewrite E2, bind_Ok. assert (b = SERIAL_TEST_MAGIC) as ->.
  { destruct Hh as [Ha Hp]. unfold serial_write_reg, serial_read_reg in E1, E2. rewrite Ha, Hp in E1, E2. destruct io.
    - rewrite arch_ok in E1, E2 by done. unfold outbd, inbd, inb, io_wait, outb in E1, E2.
      change (u16 0x80) with 0x80 in *. change (u8 0) with 0 in *. change (u16 (u64 (base + SERIAL_TX_BUFF))) with (reg_at true base 0) in E1.
      change (u16 (u64 (base + SERIAL_RX_BUFF))) with (reg_at true base 0) in E2. change (u8 (u8 SERIAL_TEST_MAGIC)) with SERIAL_TEST_MAGIC in E1.
      injection E1 as <-. destruct (wait_law d) as [V0 _]. set (d0 := bus_write true 128 0 d) in *.
      pose proof (loop_law (io := true) (base := base) SERIAL_TEST_MAGIC (0 + (SERIAL_TEST_SPINS + 0)) d0 (bus_write true 128 0 (spins (SERIAL_TEST_SPINS) (bus_write true 128 0 (bus_write true (reg_at true base 0) SERIAL_TEST_MAGIC d0))))) as HL.
      destruct (bus_read true (reg_at true base 0) (bus_write true 128 0 (spins _ _))) as [b' d3] eqn:E3. injection E2 as <- _. cbn [fst] in HL. apply HL.
      + by rewrite V0. + by rewrite V0. + rewrite Nat.add_0_r. exact test_spins_ok.
      + eapply idle_trans; [apply idle_wait, idle_none|]. eapply idle_trans; [apply idle_spins|]. apply idle_wait, idle_none.
    - assert (d1 = bus_write false (reg_at false base 0) SERIAL_TEST_MAGIC d) as -> by (destruct x86; injection E1 as <-; done).
      assert (Ok (b, d2) = Ok (bus_read false (reg_at false base 0) (spins (SERIAL_TEST_SPINS) (bus_write false (reg_at false base 0) SERIAL_TEST_MAGIC d)))) as E3
        by (destruct x86; exact (eq_sym E2)).
      apply Ok_inj in E3 as Ebd. pose proof (loop_law (io := false) (base := base) SERIAL_TEST_MAGIC (SERIAL_TEST_SPINS) d _ Hd Hl test_spins_ok (idle_spins _ _)) as HL.
      rewrite <- Ebd in HL. exact HL. }
  rewrite Z.eqb_refl. apply returns_Ok. split; [done|]. rewrite V2, spins_view, V1. unfold uart_write, SERIAL_TX_BUFF. cbn [Z.eqb].
  rewrite Hd, Hl. by destruct (view d).
Qed.

Lemma set_dlab_bit v : Z.testbit (u8 (Z.lor v SERIAL_DLAB_BIT)) 7 = true.
Proof using Type. unfold u8. rewrite Z.mod_pow2_bits_low by lia. rewrite Z.lor_spec. change (Z.testbit SERIAL_DLAB_BIT 7) with true. apply orb_true_r. Qed.

Lemma clear_dlab_bit v : Z.testbit (u8 (Z.land v (Z.lnot SERIAL_DLAB_BIT))) 7 = false.
Proof using Type.
  unfold u8. rewrite Z.mod_pow2_bits_low by lia. rewrite Z.land_spec. change (Z.testbit (Z.lnot SERIAL_DLAB_BIT) 7) with false. apply andb_false_r.
Qed.

(** The register that gives access to the divisor, before and after. *)
Lemma set_dlab_ok ctx b d :
  here ctx -> returns (serial_set_dlab x86 ctx b d) (fun d' => dlab (view d') = b /\
    view d' = uart_write 3 (u8 (if b then Z.lor (lcr (view d)) SERIAL_DLAB_BIT else Z.land (lcr (view d)) (Z.lnot SERIAL_DLAB_BIT))) (view d)).
Proof using arch_ok.
  intros Hh. unfold serial_set_dlab. destruct (read_reg_ok ctx SERIAL_LINE_CONF d Hh ltac:(done)) as ([b0 d1] & -> & V1 & El & _). rewrite bind_Ok, (El eq_refl).
  destruct b; (eapply returns_mono; [apply write_reg_ok; [done|done|done]|]); intros d2 V2; rewrite V2, V1; (split; [|done]); unfold uart_write; destruct (view d);
    [apply set_dlab_bit|apply clear_dlab_bit].
Qed.

Lemma set_divisor_ok ctx d :
  here ctx -> returns (serial_set_divisor x86 ctx SERIAL_115200_BAUD d) (fun d' => exists l, Z.testbit l 7 = false /\
    view d' = let u := view d in UartRegs l (ier u) (fcr u) (mcr u) 1 0 (scr u) (wire u)).
Proof using arch_ok.
  intros Hh. unfold serial_set_divisor. destruct (set_dlab_ok ctx true d Hh) as (d1 & -> & D1 & V1). rewrite bind_Ok.
  destruct (write_reg_ok ctx SERIAL_DLAB_DIV_LO (Z.land SERIAL_115200_BAUD 255) d1 Hh ltac:(done) ltac:(auto)) as (d2 & -> & V2). rewrite bind_Ok.
  destruct (write_reg_ok ctx SERIAL_DLAB_DIV_HI (Z.land (Z.shiftr SERIAL_115200_BAUD 8) 255) d2 Hh ltac:(done) ltac:(done)) as (d3 & -> & V3). rewrite bind_Ok.
  eapply returns_mono; [by apply set_dlab_ok|]. intros d4 [D4 V4]. destruct (view d) as [l i f mc a b s w].
  unfold uart_write in V1. cbn [Z.eqb Pos.eqb] in V1. rewrite V1 in D1. unfold dlab in D1. cbn [lcr] in D1.
  unfold uart_write, SERIAL_DLAB_DIV_LO, dlab in V2. rewrite V1 in V2. cbn [Z.eqb lcr] in V2. rewrite D1 in V2.
  unfold uart_write, SERIAL_DLAB_DIV_HI, dlab in V3. rewrite V2 in V3. cbn [Z.eqb Pos.eqb lcr] in V3. rewrite D1 in V3.
  unfold uart_write in V4. rewrite V3 in V4. cbn [Z.eqb Pos.eqb] in V4. rewrite V4 in D4. eexists. split; [exact D4|]. rewrite V4. done.
Qed.

(** The state that the port is in for the kernel: 115200 baud, eight bits, one
    stop bit, no parity; queues on and emptied; interrupts off; not looped. *)
Definition configured (u : uart) : Prop :=
  lcr u = 3 /\ ier u = 0 /\ fcr u = 7 /\ mcr u = 0x0B /\ dll u = 1 /\ dlm u = 0.

(** Line, queues and modem registers after the divisor; the line register is
    read and written once more. *)
Lemma configure_ok ctx f mc d l :
  here ctx ->
  returns (d ← serial_set_lcr x86 ctx l d; d ← serial_set_fifo x86 ctx f d; d ← serial_set_mcr x86 ctx mc d; serial_set_dlab x86 ctx false d)
    (fun d' => view d' = let u := view d in UartRegs (u8 (Z.land (u8 l) (Z.lnot SERIAL_DLAB_BIT))) (ier u) (u8 f) (u8 mc) (dll u) (dlm u) (scr u) (wire u)).
Proof using arch_ok.
  intros Hh. unfold serial_set_lcr, serial_set_fifo, serial_set_mcr.
  destruct (write_reg_ok ctx SERIAL_LINE_CONF l d Hh ltac:(done) ltac:(done)) as (d1 & -> & V1). rewrite bind_Ok.
  destruct (write_reg_ok ctx SERIAL_FIFO_CONF f d1 Hh ltac:(done) ltac:(done)) as (d2 & -> & V2). rewrite bind_Ok.
  destruct (write_reg_ok ctx SERIAL_MODEM_CONF mc d2 Hh ltac:(done) ltac:(done)) as (d3 & -> & V3). rewrite bind_Ok.
  eapply returns_mono; [by apply set_dlab_ok|]. intros d4 [_ V4]. destruct (view d) as [l0 i0 f0 m0 a0 b0 s0 w0].
  unfold uart_write, SERIAL_LINE_CONF in V1. cbn [Z.eqb Pos.eqb] in V1. unfold uart_write, SERIAL_FIFO_CONF in V2. rewrite V1 in V2. cbn [Z.eqb Pos.eqb] in V2.
  unfold uart_write, SERIAL_MODEM_CONF in V3. rewrite V2 in V3. cbn [Z.eqb Pos.eqb] in V3. unfold uart_write in V4. rewrite V3 in V4. cbn [Z.eqb Pos.eqb] in V4. exact V4.
Qed.

Lemma bind_last4 {A B1 B2 B3 B4} (r : res A) (f : A -> res B1) (g : B1 -> res B2) (h : B2 -> res B3) (K : B3 -> res B4) :
  (a ← r; b ← f a; c ← g b; e ← h c; K e) = ((a ← r; b ← f a; c ← g b; h c) ≫= K).
Proof using Type. destruct r as [a| | |]; try done. cbn. destruct (f a) as [b| | |]; try done. cbn. by destruct (g b). Qed.

Lemma serial_test_ok ctx d :
  here ctx -> returns (serial_test x86 ctx d) (fun '(status, d') => status = 0 /\
    view d' = let u := view d in UartRegs 3 (ier u) 6 0x13 1 0 (scr u) (wire u)).
Proof using arch_ok.
  intros Hh. unfold serial_test. destruct (set_divisor_ok ctx d Hh) as (d1 & -> & l & Hl & V1). rewrite bind_Ok, bind_last4.
  match goal with |- returns ((?r) ≫= _) _ => destruct (configure_ok ctx (Z.lor SERIAL_FIFO_TX_FLUSH SERIAL_FIFO_RX_FLUSH)
    (Z.lor (Z.lor SERIAL_MCR_TX_ENABLE SERIAL_MCR_RX_ENABLE) SERIAL_MCR_LOOP_ENABLE) d1 (Z.lor (Z.lor SERIAL_LCR_8BIT SERIAL_LCR_1STOP) SERIAL_LCR_PARITY_NONE) Hh) as (d2 & E2 & V2); rewrite E2 end.
  rewrite bind_Ok. rewrite V1 in V2. cbn [lcr ier fcr mcr dll dlm scr wire] in V2.
  destruct (loopback_try ctx d2 Hh) as ([found d3] & -> & -> & V3); [by rewrite V2|by rewrite V2|]. rewrite bind_Ok. apply returns_Ok. split; [done|]. rewrite V3, V2. done.
Qed.

Lemma early_serial_ok earlycon d :
  returns (setup_early_serial x86 earlycon base io d) (fun '(status, ctx, d') => status = 0 /\ ctx = SerialCtx base io true /\
    configured (view d') /\ wire (view d') = wire (view d) /\ scr (view d') = scr (view d)).
Proof using arch_ok.
  unfold setup_early_serial. set (ctx := SerialCtx base io (working earlycon)). assert (here ctx) as Hh by done.
  unfold serial_set_interrupts. destruct (set_dlab_ok ctx false d Hh) as (d0 & -> & D0 & V0). rewrite bind_Ok.
  destruct (write_reg_ok ctx SERIAL_INTR_CONF 0 d0 Hh ltac:(done) ltac:(done)) as (d1 & -> & V1). rewrite bind_Ok.
  assert (ier (view d1) = 0 /\ wire (view d1) = wire (view d) /\ scr (view d1) = scr (view d)) as (I1 & W1 & S1).
  { rewrite V1. unfold uart_write, SERIAL_INTR_CONF. rewrite D0. rewrite V0. destruct (view d). done. }
  destruct (serial_test_ok ctx d1 Hh) as ([st d2] & -> & -> & V2). rewrite bind_Ok. cbn [Z.eqb].
  destruct (set_divisor_ok ctx d2 Hh) as (d3 & -> & l & Hl & V3). rewrite bind_Ok, bind_last4.
  match goal with |- returns ((?r) ≫= _) _ => destruct (configure_ok ctx (Z.lor (Z.lor (Z.lor SERIAL_FIFO_ENABLE SERIAL_FIFO_THRESH_1b) SERIAL_FIFO_TX_FLUSH) SERIAL_FIFO_RX_FLUSH)
    (Z.lor (Z.lor SERIAL_MCR_TX_ENABLE SERIAL_MCR_RX_ENABLE) SERIAL_MCR_IRQ_ENABLE) d3 (Z.lor (Z.lor SERIAL_LCR_8BIT SERIAL_LCR_1STOP) SERIAL_LCR_PARITY_NONE) Hh) as (d4 & E4 & V4); rewrite E4 end.
  rewrite bind_Ok. apply returns_Ok. rewrite V3, V2 in V4. cbn [lcr ier fcr mcr dll dlm scr wire] in V4. split_and!; [done..| | |]; rewrite V4; [|done..].
  repeat split; done.
Qed.

(** ** Sending *)
Lemma tx_empty_bit b : negb (Z.land b SERIAL_TX_EMPTY_BIT =? 0) = Z.testbit b 5.
Proof using Type.
  change SERIAL_TX_EMPTY_BIT with (2 ^ 5). destruct (Z.testbit b 5) eqn:E.
  - apply negb_true_iff, Z.eqb_neq. intros H0. apply (f_equal (fun z => Z.testbit z 5)) in H0. rewrite Z.land_spec, E in H0. discriminate H0.
  - apply negb_false_iff, Z.eqb_eq. apply Z.bits_inj'. intros n Hn. rewrite Z.land_spec, Z.pow2_bits_eqb, Z.bits_0 by lia.
    destruct (Z.eqb_spec 5 n) as [<-|]; [by rewrite E|apply andb_false_r].
Qed.

Lemma poll_loop_ok ctx n : forall d,
  here ctx -> (busy d < n)%nat -> returns (poll_loop x86 n ctx d) (fun d' => view d' = view d /\ busy d' = O).
Proof using arch_ok.
  induction n as [|n IH]; intros d Hh Hb; [lia|]. cbn [poll_loop]. unfold serial_transmit_empty.
  destruct (read_reg_ok ctx SERIAL_LINE_INFO d Hh ltac:(done)) as ([b d1] & -> & V1 & _ & _ & HB). rewrite !bind_Ok, tx_empty_bit. specialize (HB eq_refl).
  destruct (Z.testbit b 5); [by apply returns_Ok|]. destruct HB as [H0 H1]. destruct (pause_law d1) as [V2 L2].
  eapply returns_mono; [apply IH; [done|lia]|]. intros d2 [V3 B3]. split; [congruence|done].
Qed.

Lemma send_ok ctx c d :
  here ctx -> working ctx = true -> dlab (view d) = false -> loopback (view d) = false ->
  returns (serial_send x86 ctx c d) (fun d' => view d' = let u := view d in
    UartRegs (lcr u) (ier u) (fcr u) (mcr u) (dll u) (dlm u) (scr u) (wire u ++ [u8 c])).
Proof using arch_ok.
  intros Hh Hw Hd Hl. unfold serial_send. rewrite Hw. cbn [negb].
  destruct (poll_loop_ok ctx SERIAL_POLLS d Hh (busy_bound d)) as (d1 & -> & V1 & B1). rewrite bind_Ok.
  eapply returns_mono; [apply write_reg_ok; [done|done|auto]|]. intros d2 ->. rewrite V1. unfold uart_write, SERIAL_TX_BUFF. rewrite Hd, Hl. by destruct (view d).
Qed.

(** The text with a carriage return before every line feed. *)
Fixpoint crlf (text : list Z) : list Z :=
  match text with
  | [] => []
  | c :: text => (if u8 c =? LF then [CR] else []) ++ u8 c :: crlf text
  end.

Definition online {T} (con : @console D T) : Prop :=
  earlycon_serial con = SerialCtx base io true /\ configured (view (device con)).

Lemma configured_modes u : configured u -> dlab u = false /\ loopback u = false.
Proof using Type. unfold configured, dlab, loopback. intros (-> & _ & _ & -> & _). done. Qed.

Lemma put_text_ok {T} fw dbg (text : list Z) : forall con : @console D T,
  (forall c d, view (dbg c d) = view d) -> online con ->
  returns (put_text x86 fw dbg con text) (fun con' => online con' /\ wire (view (device con')) = wire (view (device con)) ++ crlf text).
Proof using arch_ok.
  induction text as [|c text IH]; intros con Hdbg [Hs Hc]; cbn [put_text crlf].
  { apply returns_Ok. rewrite app_nil_r. done. }
  unfold internal_putc. rewrite Hs. cbn [working]. assert (here (SerialCtx base io true)) as Hh by done.
  assert (forall d, configured (view d) -> returns (serial_send x86 (SerialCtx base io true) c d) (fun d' => configured (view d') /\ wire (view d') = wire (view d) ++ [u8 c])) as Hsend.
  { intros d Hd. destruct (configured_modes _ Hd). eapply returns_mono; [by apply send_ok|]. intros d' ->. split; [exact Hd|done]. }
  assert (returns (if u8 c =? LF then serial_send x86 (SerialCtx base io true) CR (device con) else Ok (device con))
    (fun d' => configured (view d') /\ wire (view d') = wire (view (device con)) ++ (if u8 c =? LF then [CR] else []))) as (d1 & -> & C1 & W1).
  { destruct (u8 c =? LF); [|apply returns_Ok; by rewrite app_nil_r]. destruct (configured_modes _ Hc). eapply returns_mono; [by apply send_ok|]. intros d' ->. split; [exact Hc|done]. }
  rewrite bind_Ok. destruct (Hsend d1 C1) as (d2 & -> & C2 & W2). rewrite !bind_Ok.
  eapply returns_mono; [apply IH; [done|split; [done|cbn [device]; by rewrite Hdbg]]|]. intros con' [Ho Hw]. split; [done|].
  rewrite Hw. cbn [device]. rewrite Hdbg, W2, W1, <- !app_assoc. done.
Qed.

(** C37: With a 16550 at the address, [setup_early_serial] returns 0 with the port
    configured, the context marked working and nothing sent: the loopback test
    leaves no trace on the wire.  From then on the bytes that leave on the wire are the
    characters of the printed text, each once and in order, with a carriage return
    before each line feed. *)
Theorem serial_console_correct {T} fw dbg earlycon d (ft : option T) text :
  (forall c d', view (dbg c d') = view d') ->
  returns (setup_early_serial x86 earlycon base io d) (fun '(status, ctx, d1) =>
    status = 0 /\ ctx = SerialCtx base io true /\ configured (view d1) /\ wire (view d1) = wire (view d) /\
    returns (put_text x86 fw dbg (Console ft ctx d1) text) (fun con =>
      earlycon_serial con = ctx /\ configured (view (device con)) /\ wire (view (device con)) = wire (view d) ++ crlf text)).
Proof using arch_ok.
  intros Hdbg. eapply returns_mono; [apply early_serial_ok|]. intros [[st ctx] d1] (-> & -> & Hc & Hw & _). split_and!; [done..|].
  eapply returns_mono; [apply (put_text_ok fw dbg text (Console ft (SerialCtx base io true) d1) Hdbg); split; done|].
  intros con [[Ho Hc'] Hw']. split_and!; [done..|]. rewrite Hw'. cbn [device]. by rewrite Hw.
Qed.
End Correct.

(** ** No port *)
Section Absent.
Context {D : Type} `{B : bus D} (x86 io : bool) (base : Z).
Hypothesis arch_ok : io = true -> x86 = true.

Lemma write_reg_returns ctx r v d : portIO ctx = io -> returns (serial_write_reg x86 ctx r v d) (fun _ => True).
Proof using arch_ok.
  intros Hp. unfold serial_write_reg. rewrite Hp. destruct io; [rewrite arch_ok by done|destruct x86]; by apply returns_Ok.
Qed.

Hypothesis no_echo : forall a d, (bus_read io a d).1 <> SERIAL_TEST_MAGIC.

Lemma read_reg_returns ctx r d : portIO ctx = io -> returns (serial_read_reg x86 ctx r d) (fun '(b, _) => b <> SERIAL_TEST_MAGIC).
Proof using arch_ok no_echo.
  intros Hp. unfold serial_read_reg. rewrite Hp. destruct io.
  - rewrite arch_ok by done. apply returns_Ok. unfold inbd, inb. specialize (no_echo (u16 (u64 (addr ctx + r))) (io_wait d)).
    by destruct (bus_read true _ (io_wait d)).
  - specialize (no_echo (u64 (addr ctx + r)) d). destruct x86; apply returns_Ok; destruct (bus_read false _ d); exact no_echo.
Qed.

Lemma set_dlab_returns ctx b d : portIO ctx = io -> returns (serial_set_dlab x86 ctx b d) (fun _ => True).
Proof using arch_ok no_echo.
  intros Hp. unfold serial_set_dlab. eapply returns_bind; [by apply read_reg_returns|]. intros [v d'] _. destruct b; by apply write_reg_returns.
Qed.

Lemma test_loop_returns ctx n : forall d, portIO ctx = io -> returns (test_loop x86 n ctx d) (fun '(found, _) => found = false).
Proof using arch_ok no_echo.
  induction n as [|n IH]; intros d Hp; cbn [test_loop]; [by apply returns_Ok|]. eapply returns_bind; [by apply write_reg_returns|]. intros d1 _.
  eapply returns_bind; [by apply read_reg_returns|]. intros [v d2] Hv. rewrite (proj2 (Z.eqb_neq v _)) by done. by apply IH.
Qed.

Lemma set_divisor_returns ctx v d : portIO ctx = io -> returns (serial_set_divisor x86 ctx v d) (fun _ => True).
Proof using arch_ok no_echo.
  intros Hp. unfold serial_set_divisor. eapply returns_bind; [by apply set_dlab_returns|intros ? _].
  do 2 (eapply returns_bind; [by apply write_reg_returns|intros ? _]). by apply set_dlab_returns.
Qed.

Lemma serial_test_fails ctx d : portIO ctx = io -> returns (serial_test x86 ctx d) (fun '(status, _) => status = -2).
Proof using arch_ok no_echo.
  intros Hp. unfold serial_test, serial_set_lcr, serial_set_fifo, serial_set_mcr. eapply returns_bind; [by apply set_divisor_returns|intros ? _].
  do 3 (eapply returns_bind; [by apply write_reg_returns|intros ? _]). eapply returns_bind; [by apply set_dlab_returns|intros ? _].
  eapply returns_bind; [by apply test_loop_returns|]. intros [f d3] ->. eapply returns_bind; [by apply write_reg_returns|intros ? _].
  eapply returns_bind; [by apply read_reg_returns|]. intros [v d4] Hv. rewrite (proj2 (Z.eqb_neq v _)) by done. by apply returns_Ok.
Qed.

(** A bus on which nothing echoes the test byte: the set-up reports total
    failure and leaves the port unused; with [working] clear nothing is ever
    sent to it. *)
Theorem serial_absent_reported earlycon d :
  working earlycon = false ->
  returns (setup_early_serial x86 earlycon base io d) (fun '(status, ctx, d1) =>
    status = -2 /\ working ctx = false /\
    forall c d', serial_send x86 ctx c d' = Ok d' /\ serial_read x86 ctx d' = Ok (-1, d')).
Proof using arch_ok no_echo.
  intros Hw. unfold setup_early_serial, serial_set_interrupts. set (ctx := SerialCtx base io (working earlycon)). assert (portIO ctx = io) as Hp by done.
  eapply returns_bind. { eapply returns_bind; [by apply (set_dlab_returns ctx)|intros ? _]. by apply write_reg_returns. }
  intros d1 _. eapply returns_bind; [by apply serial_test_fails|]. intros [st d2] ->. rewrite Z.eqb_refl. apply returns_Ok.
  split_and!; [done|done|]. intros c d'. unfold serial_send, serial_read, ctx. cbn [working]. rewrite Hw. done.
Qed.
End Absent.

(** ** A port at 0x3F8 whose transmitter needs one poll per byte *)
Module UartDemo.
Record port := Port { regs : uart; sending : bool; received : Z }.
Definition base : Z := 0x3F8.

#[export] Instance port_bus : bus port := {|
  bus_read io a d :=
    let r := a - base in
    if negb io then (0xFF, d)
    else if (r =? 0) && negb (dlab (regs d)) then (received d, d)
    else if r =? 3 then (lcr (regs d), d)
    else if r =? 5 then (if sending d then 0 else 0x20, Port (regs d) false (received d))
    else if r =? 7 then (scr (regs d), d)
    else (0xFF, d);
  bus_write io a v d :=
    let r := a - base in
    if io && (0 <=? r) && (r <? 8) then
      let data := (r =? 0) && negb (dlab (regs d)) in
      Port (uart_write r v (regs d)) (if data then true else sending d) (if data && loopback (regs d) then v else received d)
    else d;
  bus_pause d := d;
|}.

Lemma reg_at_port r : 0 <= r < 8 -> reg_at true base r = base + r.
Proof. intros Hr. unfold reg_at, base, u16, u64. rewrite (Z.mod_small _ (2 ^ 64)), Z.mod_small by lia. done. Qed.

Lemma polls_ok : (1 < SERIAL_POLLS)%nat.
Proof. apply Nat.ltb_lt. vm_compute. reflexivity. Qed.
#[local] Opaque SERIAL_POLLS.

Lemma idle_received n d d' : idle n d d' -> d' = d.
Proof. induction 1 as [|n d d' _ ->|n d d' _ ->]; done. Qed.

Lemma read_at r d : 0 <= r < 8 ->
  bus_read true (reg_at true base r) d =
    if (r =? 0) && negb (dlab (regs d)) then (received d, d)
    else if r =? 3 then (lcr (regs d), d)
    else if r =? 5 then (if sending d then 0 else 0x20, Port (regs d) false (received d))
    else if r =? 7 then (scr (regs d), d)
    else (0xFF, d).
Proof. intros Hr. rewrite reg_at_port by done. unfold bus_read, port_bus. by rewrite Z.add_simpl_l. Qed.

Lemma write_at r v d : 0 <= r < 8 ->
  bus_write true (reg_at true base r) v d =
    let data := (r =? 0) && negb (dlab (regs d)) in
    Port (uart_write r v (regs d)) (if data then true else sending d) (if data && loopback (regs d) then v else received d).
Proof.
  intros Hr. rewrite reg_at_port by done. unfold bus_write, port_bus. rewrite Z.add_simpl_l.
  destruct Hr as [H1 H2]. rewrite (proj2 (Z.leb_le 0 r) H1), (proj2 (Z.ltb_lt r 8) H2). done.
Qed.

#[export] Program Instance port_16550 : uart16550 port true base := {| view := regs; busy d := if sending d then 1%nat else 0%nat |}.
Next Obligation. intros d. pose proof polls_ok. cbv beta. destruct (sending d); cbv iota; lia. Qed.
Next Obligation. intros r v d Hr Hv _. by rewrite write_at. Qed.
Next Obligation. intros r d Hr. rewrite read_at by done. by repeat case_match. Qed.
Next Obligation. intros d. by rewrite read_at. Qed.
Next Obligation. intros d. by rewrite read_at. Qed.
Next Obligation. intros d. rewrite read_at by done. cbn. by destruct (sending d). Qed.
Next Obligation. intros d. rewrite read_at by done. cbn. lia. Qed.
Next Obligation. intros d. by split. Qed.
Next Obligation. intros d. by split. Qed.
Next Obligation.
  intros v n d d' Hd Hl _ ->%idle_received. cbv beta in Hd, Hl. rewrite write_at, read_at by done. cbn [Z.eqb andb regs]. rewrite Hd, Hl. cbn [negb andb received].
  assert (dlab (uart_write 0 v (regs d)) = false) as ->; [|done].
  unfold uart_write. destruct (regs d) as [l i f mc a b s w]. cbn [Z.eqb]. by rewrite Hd, Hl.
Qed.

Definition boot : port := Port (UartRegs 0x80 5 0 0 12 0 0 []) false 0.
End UartDemo.

Lemma serial_console_correct_witness :
  returns (setup_early_serial (H := UartDemo.port_bus) true (SerialCtx 0 false false) 0x3F8 true UartDemo.boot) (fun '(status, ctx, d1) =>
    status = 0 /\ ctx = SerialCtx 0x3F8 true true /\ configured (UartDemo.regs d1) /\ wire (UartDemo.regs d1) = [] /\
    returns (put_text (H := UartDemo.port_bus) true (fun (t : list Z) c => t ++ c) (fun _ d => d) (Console None ctx d1) [79; 75; 10]) (fun con =>
      earlycon_serial con = ctx /\ configured (UartDemo.regs (device con)) /\ wire (UartDemo.regs (device con)) = [79; 75; 13; 10])).
Proof.
  exact (serial_console_correct (U := UartDemo.port_16550) true true UartDemo.base (fun _ => eq_refl) (fun (t : list Z) c => t ++ c) (fun _ d => d)
    (SerialCtx 0 false false) UartDemo.boot None [79; 75; 10] (fun _ _ => eq_refl)).
Defined.

(** A bus that floats high. *)
Module FloatingBus.
#[export] Instance floating : bus unit := {| bus_read _ _ d := (0xFF, d); bus_write _ _ _ d := d; bus_pause d := d |}.
End FloatingBus.

Lemma serial_absent_reported_witness :
  returns (setup_early_serial (H := FloatingBus.floating) true (SerialCtx 0 false false) 0x3F8 true tt) (fun '(status, ctx, d1) =>
    status = -2 /\ working ctx = false /\
    forall c d', serial_send (H := FloatingBus.floating) true ctx c d' = Ok d' /\ serial_read (H := FloatingBus.floating) true ctx d' = Ok (-1, d')).
Proof. by apply (serial_absent_reported (B := FloatingBus.floating) true true 0x3F8 (fun _ => eq_refl)). Defined.
