(* ===== verification/Locks.v ===== *)
(** * utils/locks: spin locks and the ticket lock, on several processors

    Agents (a processor, or a thread on one) run the lock and unlock functions;
    every atomic operation of the code is one step, and the steps of the agents
    interleave in any order.  The three flag locks differ in what they do
    around the spinning: nothing (spinlock.h), saving and disabling interrupts
    (irqlock.h), counting preemption off (preemptlock.h); that is the [guard]
    of the agent. *)

From S2P Require Import Prelude.
From stdpp Require Import relations.
#[local] Open Scope Z_scope.

(** sched/preempt.h: the counter of the current thread. *)
Definition disable_preemption (counter : Z) : Z := u32 (counter + 1).
Definition enable_preemption (counter : Z) : Z := u32 (counter - 1).

(** ** Flag locks *)
Class guard := {
  ctx : Type;
  saved : Type;
  guard_enter : ctx -> saved * ctx;
  guard_leave : saved -> ctx -> ctx;
}.

Definition spinlock_guard : guard :=
  {| ctx := unit; saved := unit; guard_enter c := (tt, c); guard_leave _ c := c |}.
(** The context is the interrupt flag; [restore_interrupts(irqs)]. *)
Definition irqlock_guard : guard :=
  {| ctx := bool; saved := bool; guard_enter irqs := (irqs, false); guard_leave irqs _ := irqs |}.
Definition preemptlock_guard : guard :=
  {| ctx := Z; saved := unit; guard_enter c := (tt, disable_preemption c); guard_leave _ c := enable_preemption c |}.

Module FlagLock.
Section FlagLock.
Context `{G : guard}.

(** Where an agent is: outside; in the inner loop reading the flag; about to
    exchange; in the critical section; between the release and the guard's
    end. *)
Inductive pc := Out | Spin (s : saved) | Xchg (s : saved) | In (s : saved) | Leave (s : saved).
Record agent := Agent { at_pc : pc; context : ctx }.
Record state := State { flag : Z; agents : gmap Z agent }.

Definition move (s : state) (t : Z) (f : Z) (p : pc) (c : ctx) : state :=
  State f (<[t := Agent p c]> (agents s)).

Inductive step (s : state) : state -> Prop :=
| lock_enter t c : agents s !! t = Some (Agent Out c) ->
    step s (move s t (flag s) (Spin (guard_enter c).1) (guard_enter c).2)
| lock_load t v c : agents s !! t = Some (Agent (Spin v) c) ->
    step s (move s t (flag s) (if flag s =? 0 then Xchg v else Spin v) c)
| lock_exchange t v c : agents s !! t = Some (Agent (Xchg v) c) ->
    step s (move s t 1 (if flag s =? 0 then In v else Spin v) c)
| unlock_store t v c : agents s !! t = Some (Agent (In v) c) ->
    step s (move s t 0 (Leave v) c)
| unlock_guard t v c : agents s !! t = Some (Agent (Leave v) c) ->
    step s (move s t (flag s) Out (guard_leave v c)).

Definition init (cs : gmap Z ctx) : state := State 0 (Agent Out <$> cs).

(** What holds on every run from the contexts [cs]: the flag is set exactly
    while an agent is inside, at most one is, and each agent's context is its
    first one, behind the guard while it is in the lock's code. *)
Definition context_ok (cs : gmap Z ctx) (t : Z) (a : agent) : Prop :=
  exists c, cs !! t = Some c /\
    match at_pc a with
    | Out => context a = c
    | Spin v | Xchg v | In v | Leave v => (v, context a) = guard_enter c
    end.

Definition inside (s : state) (t : Z) : Prop := exists v c, agents s !! t = Some (Agent (In v) c).

Record inv (cs : gmap Z ctx) (s : state) : Prop := {
  fl_context : forall t a, agents s !! t = Some a -> context_ok cs t a;
  fl_flag : flag s <> 0 -> exists t, inside s t;
  fl_one : forall t u, inside s t -> inside s u -> t = u;
  fl_held : forall t, inside s t -> flag s <> 0;
}.

(** Leaving undoes entering, on the contexts at hand. *)
Definition law (cs : gmap Z ctx) : Prop :=
  forall t c, cs !! t = Some c -> guard_leave (guard_enter c).1 (guard_enter c).2 = c.

Lemma inside_move s t f p c u :
  inside (move s t f p c) u <-> (u = t /\ exists v, p = In v) \/ (u <> t /\ inside s u).
Proof using Type.
  unfold inside, move. cbn. setoid_rewrite lookup_insert_Some. split.
  - intros (v & d & [[-> E]|[Hne H]]); [left; split; [done|]; exists v; congruence|right; eauto].
  - intros [[-> [v ->]]|[Hne (v & d & H)]]; eauto 10.
Qed.

Lemma context_move cs s t f p c :
  (forall u a, agents s !! u = Some a -> context_ok cs u a) -> context_ok cs t (Agent p c) ->
  forall u a, agents (move s t f p c) !! u = Some a -> context_ok cs u a.
Proof using Type. intros H Ht u a. cbn. rewrite lookup_insert_Some. intros [[-> <-]|[_ Hu]]; eauto. Qed.

Lemma step_inv cs s s' : law cs -> inv cs s -> step s s' -> inv cs s'.
Proof using Type.
  intros Hlaw [HC HF H1 HH] Hs.
  assert (forall t p c, agents s !! t = Some (Agent p c) -> (forall v, p <> In v) -> ~ inside s t) as Hni.
  { intros t p c E Hp (v & d & E'). rewrite E in E'. injection E' as -> _. by apply (Hp v). }
  destruct Hs as [t c E|t v c E|t v c E|t v c E|t v c E]; pose proof (HC _ _ E) as (c0 & Hc0 & Hat); cbn in Hat.
  - split; [apply context_move; [done|]; exists c0; split; [done|]; cbn; rewrite Hat; symmetry; apply surjective_pairing| | |];
      setoid_rewrite inside_move; cbn [flag move].
    + intros Hf. destruct (HF Hf) as [u Hu]. exists u. right. split; [|done]. intros ->. by eapply Hni.
    + intros u w [[_ [? ?]]|[? Hu]] [[_ [? ?]]|[? Hw]]; try done. by apply H1.
    + intros u [[_ [? ?]]|[? Hu]]; [done|]. by eapply HH.
  - assert (forall w, (if flag s =? 0 then Xchg v else Spin v) <> In w) as Hp by (intros; by destruct (flag s =? 0)).
    split; [apply context_move; [done|]; exists c0; split; [done|]; cbn; by destruct (flag s =? 0)| | |];
      setoid_rewrite inside_move; cbn [flag move].
    + intros Hf. destruct (HF Hf) as [u Hu]. exists u. right. split; [|done]. intros ->. by eapply Hni.
    + intros u w [[_ [? Hx]]|[? Hu]] [[_ [? Hy]]|[? Hw]]; try (by exfalso; eapply Hp; eauto). by apply H1.
    + intros u [[_ [? Hx]]|[? Hu]]; [by exfalso; eapply Hp; eauto|]. by eapply HH.
  - split; [apply context_move; [done|]; exists c0; split; [done|]; cbn; by destruct (flag s =? 0)| | |];
      setoid_rewrite inside_move; cbn [flag move].
    + intros _. destruct (Z.eqb_spec (flag s) 0) as [E0|E0]; [exists t; left; eauto|].
      destruct (HF E0) as [u Hu]. exists u. right. split; [|done]. intros ->. by eapply Hni.
    + destruct (Z.eqb_spec (flag s) 0) as [E0|E0].
      * intros u w [[-> _]|[? Hu]] [[-> _]|[? Hw]]; try done; [destruct (HH _ Hw E0)|destruct (HH _ Hu E0)..].
      * intros u w [[_ [? ?]]|[? Hu]] [[_ [? ?]]|[? Hw]]; try done. by apply H1.
    + done.
  - assert (inside s t) as Ht by (by exists v, c).
    split; [apply context_move; [done|]; exists c0; by split| | |]; setoid_rewrite inside_move; cbn [flag move].
    + done.
    + intros u w [[_ [? ?]]|[? Hu]] [[_ [? ?]]|[? Hw]]; try done. by apply H1.
    + intros u [[_ [? ?]]|[Hne Hu]]; [done|]. destruct Hne. by apply H1.
  - split; [apply context_move; [done|]; exists c0; split; [done|]; cbn; pose proof (Hlaw t c0 Hc0) as L; by rewrite <- Hat in L| | |];
      setoid_rewrite inside_move; cbn [flag move].
    + intros Hf. destruct (HF Hf) as [u Hu]. exists u. right. split; [|done]. intros ->. by eapply Hni.
    + intros u w [[_ [? ?]]|[? Hu]] [[_ [? ?]]|[? Hw]]; try done. by apply H1.
    + intros u [[_ [? ?]]|[? Hu]]; [done|]. by eapply HH.
Qed.

Lemma init_inv cs : inv cs (init cs).
Proof using Type.
  split; cbn.
  - intros t a. rewrite lookup_fmap_Some. intros (c & <- & Hc). exists c. by cbn.
  - done.
  - intros t u (v & c & E). cbn in E. rewrite lookup_fmap_Some in E. by destruct E as (? & ? & ?).
  - intros t (v & c & E). cbn in E. rewrite lookup_fmap_Some in E. by destruct E as (? & ? & ?).
Qed.

Lemma run_inv cs s : law cs -> rtc step (init cs) s -> inv cs s.
Proof using Type.
  intros Hlaw Hr. pose proof (init_inv cs) as HI. revert HI. induction Hr as [|x y z Hs _ IH]; [done|].
  intros HI. apply IH. by eapply step_inv.
Qed.
End FlagLock.
End FlagLock.

(** ** ticketlock.h *)
Module TicketLock.

(** [Take]: preemption is off, no ticket yet.  [Wait my]: in the spin loop.
    [Leave]: the lock is passed on, preemption still off. *)
Inductive pc := Out | Take | Wait (my : Z) | In (my : Z) | Leave.
Record thread := Thread { at_pc : pc; preempt_disable_counter : Z }.
Record state := State { next : Z; owner : Z; threads : gmap Z thread }.

Definition move (s : state) (t nxt own : Z) (p : pc) (c : Z) : state :=
  State nxt own (<[t := Thread p c]> (threads s)).

Inductive step (s : state) : state -> Prop :=
| lock_preempt t c : threads s !! t = Some (Thread Out c) ->
    step s (move s t (next s) (owner s) Take (disable_preemption c))
| lock_fetch_add t c : threads s !! t = Some (Thread Take c) ->
    step s (move s t (u32 (next s + 1)) (owner s) (Wait (next s)) c)
| lock_spin t my c : threads s !! t = Some (Thread (Wait my) c) ->
    step s (move s t (next s) (owner s) (if owner s =? my then In my else Wait my) c)
| unlock_fetch_add t my c : threads s !! t = Some (Thread (In my) c) ->
    step s (move s t (next s) (u32 (owner s + 1)) Leave c)
| unlock_preempt t c : threads s !! t = Some (Thread Leave c) ->
    step s (move s t (next s) (owner s) Out (enable_preemption c)).

Definition init (cs : gmap Z Z) (n : Z) : state := State n n (Thread Out <$> cs).

(** *** The abstract lock: a queue whose head may be inside *)
Abbreviation queue := (list Z * bool)%type.

Inductive queue_step : queue -> queue -> Prop :=
| q_arrive t q b : t ∉ q -> queue_step (q, b) (q ++ [t], b)
| q_enter t q : queue_step (t :: q, false) (t :: q, true)
| q_leave t q : queue_step (t :: q, true) (q, false).

Definition ticket_of (p : pc) : option Z := match p with Wait my | In my => Some my | _ => None end.

Record sim (s : state) (a : queue) : Prop := {
  tl_nodup : NoDup a.1;
  tl_owner : 0 <= owner s < 2 ^ 32;
  tl_next : next s = u32 (owner s + Z.of_nat (length a.1));
  tl_tickets : forall i t, a.1 !! i = Some t -> exists p c,
    threads s !! t = Some (Thread p c) /\ ticket_of p = Some (u32 (owner s + Z.of_nat i));
  tl_queued : forall t p c, threads s !! t = Some (Thread p c) -> is_Some (ticket_of p) -> t ∈ a.1;
  tl_inside : forall t my c, threads s !! t = Some (Thread (In my) c) -> a.2 = true /\ head a.1 = Some t;
  tl_busy : a.2 = true -> exists t my c, threads s !! t = Some (Thread (In my) c);
  tl_few : Z.of_nat (size (threads s)) < 2 ^ 32;
}.

(** Fewer than 2^32 in the queue: a ticket names one place. *)
Lemma sim_short s a : sim s a -> Z.of_nat (length a.1) <= Z.of_nat (size (threads s)).
Proof.
  intros S. apply Nat2Z.inj_le, NoDup_length_size; [apply S|].
  intros x [i Hi]%list_elem_of_lookup. destruct (tl_tickets _ _ S i x Hi) as (p & c & E & _). eauto.
Qed.

Lemma ticket_inj s a i j : sim s a -> (i < length a.1)%nat -> (j <= length a.1)%nat ->
  u32 (owner s + Z.of_nat i) = u32 (owner s + Z.of_nat j) -> i = j.
Proof.
  intros S Hi Hj E. pose proof (sim_short _ _ S). pose proof (tl_few _ _ S). pose proof (tl_owner _ _ S).
  assert ((Z.of_nat i - Z.of_nat j) mod 2 ^ 32 = 0) as E'.
  { unfold u32 in E. replace (Z.of_nat i - Z.of_nat j) with (owner s + Z.of_nat i - (owner s + Z.of_nat j)) by lia.
    rewrite Zminus_mod, E, Z.sub_diag. done. }
  apply Z.mod_divide in E' as [z Hz]; [|done]. assert (z = 0) as -> by nia. lia.
Qed.

Lemma size_insert_same (m : gmap Z thread) t p : is_Some (m !! t) -> size (<[t := p]> m) = size m.
Proof. intros Hm. apply map_size_insert_Some. by destruct Hm as [? ->]. Qed.

(** A thread outside the queue moves outside the queue. *)
Lemma sim_quiet s a t p c p' c' :
  sim s a -> threads s !! t = Some (Thread p c) -> ticket_of p = None -> ticket_of p' = None ->
  sim (move s t (next s) (owner s) p' c') a.
Proof.
  intros [S1 S2 S3 S4 S5 S6 S7 S8] E Hp Hp'. split; cbn [owner next threads move]; try done.
  - intros i u Hu. destruct (S4 i u Hu) as (q & d & Eu & Hq). exists q, d. split; [|done].
    rewrite lookup_insert_ne; [done|]. intros ->. congruence.
  - intros u q d. rewrite lookup_insert_Some. intros [[-> [= <- <-]]|[_ Hu]] Ht; [rewrite Hp' in Ht; by destruct Ht|eauto].
  - intros u my d. rewrite lookup_insert_Some. intros [[-> [= -> ->]]|[_ Hu]]; [done|eauto].
  - intros Hb. destruct (S7 Hb) as (u & my & d & Hu). exists u, my, d. rewrite lookup_insert_ne; [done|]. intros ->. rewrite Hu in E. injection E as <- <-. done.
  - rewrite size_insert_same; eauto.
Qed.

Lemma sim_arrive s a t c :
  sim s a -> threads s !! t = Some (Thread Take c) ->
  (t ∉ a.1) /\ sim (move s t (u32 (next s + 1)) (owner s) (Wait (next s)) c) (a.1 ++ [t], a.2).
Proof.
  intros S E. assert (t ∉ a.1) as Hn.
  { intros [i Hi]%list_elem_of_lookup. destruct (tl_tickets _ _ S i t Hi) as (p & d & E' & Hp). rewrite E in E'. by injection E' as <- <-. }
  split; [done|]. destruct S as [S1 S2 S3 S4 S5 S6 S7 S8]. split; cbn [owner next threads move fst snd]; try done.
  - apply NoDup_app. split_and!; [done|set_solver|apply NoDup_singleton].
  - rewrite length_app, Nat2Z.inj_add, S3. cbn. unfold u32. rewrite Zplus_mod_idemp_l. f_equal. lia.
  - intros i u. rewrite lookup_app_Some. intros [Hi|[Hl Hi]].
    + destruct (S4 i u Hi) as (p & d & Eu & Hp). exists p, d. split; [|done]. rewrite lookup_insert_ne; [done|].
      intros ->. apply Hn. by eapply list_elem_of_lookup_2.
    + destruct (i - length a.1)%nat eqn:Hd; cbn in Hi; [|done]. injection Hi as <-. exists (Wait (next s)), c.
      rewrite lookup_insert_eq. split; [done|]. cbn. rewrite S3. do 3 f_equal. lia.
  - intros u p d. rewrite lookup_insert_Some. intros [[-> _]|[_ Hu]] Ht; [set_solver|]. apply elem_of_app. eauto.
  - intros u my d. rewrite lookup_insert_Some. intros [[_ [=]]|[_ Hu]]. destruct (S6 u my d Hu) as [? Hh]. split; [done|].
    destruct a.1; [done|]. by cbn in *.
  - intros Hb. destruct (S7 Hb) as (u & my & d & Hu). exists u, my, d. rewrite lookup_insert_ne; [done|]. intros ->. congruence.
  - rewrite size_insert_same; eauto.
Qed.

(** Only the head's ticket is the owner's number. *)
Lemma sim_head s a t my c :
  sim s a -> threads s !! t = Some (Thread (Wait my) c) -> owner s = my -> exists q, a = (t :: q, false).
Proof.
  intros S E Hmy. assert (t ∈ a.1) as [i Hi]%list_elem_of_lookup by (eapply (tl_queued _ _ S); [done|by eexists]).
  destruct (tl_tickets _ _ S i t Hi) as (p & d & E' & Hp). rewrite E in E'. injection E' as <- <-. cbn in Hp.
  assert (i = 0%nat) as ->.
  { apply (ticket_inj s a i 0 S); [by eapply lookup_lt_Some|lia|]. rewrite Z.add_0_r. injection Hp as <-.
    unfold u32. rewrite Z.mod_small; [done|]. by apply S. }
  destruct a as [[|u q] b]; cbn in Hi; [done|]. injection Hi as ->. exists q. f_equal. destruct b; [|done].
  destruct (tl_busy _ _ S eq_refl) as (u & m' & d' & Hu). destruct (tl_inside _ _ S u m' d' Hu) as [_ Hh].
  cbn in Hh. injection Hh as <-. congruence.
Qed.

Lemma sim_enter s t my c q :
  sim s (t :: q, false) -> threads s !! t = Some (Thread (Wait my) c) ->
  sim (move s t (next s) (owner s) (In my) c) (t :: q, true).
Proof.
  intros [S1 S2 S3 S4 S5 S6 S7 S8] E. split; cbn [owner next threads move fst snd] in *; try done.
  - intros i u Hu. destruct (S4 i u Hu) as (p & d & Eu & Hp). destruct (decide (u = t)) as [->|].
    + exists (In my), c. rewrite lookup_insert_eq. split; [done|]. rewrite E in Eu. by injection Eu as <- <-.
    + exists p, d. by rewrite lookup_insert_ne.
  - intros u p d. rewrite lookup_insert_Some. intros [[-> _]|[_ Hu]] Ht; [set_solver|eauto].
  - intros u m' d. rewrite lookup_insert_Some. intros [[-> _]|[_ Hu]]; [done|]. destruct (S6 u m' d Hu) as [? _]. done.
  - intros _. exists t, my, c. by rewrite lookup_insert_eq.
  - rewrite size_insert_same; eauto.
Qed.

Lemma sim_leave s t my c a :
  sim s a -> threads s !! t = Some (Thread (In my) c) ->
  exists q, a = (t :: q, true) /\ sim (move s t (next s) (u32 (owner s + 1)) Leave c) (q, false).
Proof.
  intros S E. destruct (tl_inside _ _ S t my c E) as [Hb Hh]. destruct a as [[|u q] b]; [done|]. cbn in Hb, Hh.
  injection Hh as ->. subst b. exists q. split; [done|]. pose proof (sim_short _ _ S) as Hl. cbn in Hl.
  destruct S as [S1 S2 S3 S4 S5 S6 S7 S8]. cbn [fst snd length] in *. apply NoDup_cons in S1 as [Hn S1].
  split; cbn [owner next threads move fst snd]; try done.
  - unfold u32. apply Z.mod_pos_bound. done.
  - rewrite S3. unfold u32. rewrite Zplus_mod_idemp_l. f_equal. lia.
  - intros i u Hu. destruct (S4 (S i) u Hu) as (p & d & Eu & Hp). exists p, d. split.
    + rewrite lookup_insert_ne; [done|]. intros ->. apply Hn. by eapply list_elem_of_lookup_2.
    + rewrite Hp. f_equal. unfold u32. rewrite Zplus_mod_idemp_l. f_equal. lia.
  - intros u p d. rewrite lookup_insert_Some. intros [[-> [= <- <-]]|[Hne Hu]] Ht; [by destruct Ht|].
    specialize (S5 u p d Hu Ht). set_solver.
  - intros u m' d. rewrite lookup_insert_Some. intros [[-> [=]]|[Hne Hu]]. destruct (S6 u m' d Hu) as [_ Hh]. cbn in Hh. congruence.
  - rewrite size_insert_same; eauto.
Qed.

Lemma step_sim s s' a : sim s a -> step s s' -> exists a', rtc queue_step a a' /\ sim s' a'.
Proof.
  intros S Hs. destruct Hs as [t c E|t c E|t my c E|t my c E|t c E].
  - exists a. split; [done|]. by eapply sim_quiet.
  - destruct (sim_arrive _ _ _ _ S E) as [Hn S']. eexists. split; [|done]. apply rtc_once. destruct a. by constructor.
  - destruct (Z.eqb_spec (owner s) my) as [Hmy|Hmy].
    + destruct (sim_head _ _ _ _ _ S E Hmy) as [q ->]. exists (t :: q, true). split; [apply rtc_once; constructor|]. by apply sim_enter.
    + exists a. split; [done|]. unfold move. rewrite insert_id by done. by destruct s.
  - destruct (sim_leave _ _ _ _ _ S E) as (q & -> & S'). exists (q, false). split; [apply rtc_once; constructor|done].
  - exists a. split; [done|]. by eapply sim_quiet.
Qed.

Lemma init_sim cs n : 0 <= n < 2 ^ 32 -> Z.of_nat (size cs) < 2 ^ 32 -> sim (init cs n) ([], false).
Proof.
  intros Hn Hc. assert (forall t p c, (Thread Out <$> cs) !! t = Some (Thread p c) -> p = Out) as Ho.
  { intros t p c. rewrite lookup_fmap_Some. by intros (d & [= <- <-] & _). }
  split; cbn; try done.
  - constructor.
  - rewrite Z.add_0_r. unfold u32. by rewrite Z.mod_small.
  - intros t p c E. rewrite (Ho _ _ _ E). by intros [? ?].
  - intros t my c E. by apply Ho in E.
  - by rewrite map_size_fmap.
Qed.

Lemma run_sim cs n s : 0 <= n < 2 ^ 32 -> Z.of_nat (size cs) < 2 ^ 32 -> rtc step (init cs n) s ->
  exists a, rtc queue_step ([], false) a /\ sim s a.
Proof.
  intros Hn Hc Hr. pose proof (init_sim cs n Hn Hc) as S0. revert S0. generalize (init cs n), (@nil Z, false), Hr.
  clear Hr. intros x a Hr. revert a. induction Hr as [|x y z Hs _ IH]; intros a S0; [by exists a|].
  destruct (step_sim _ _ _ S0 Hs) as (b & Hab & Sb). destruct (IH b Sb) as (d & Hbd & Sd).
  exists d. split; [by etrans|done].
Qed.
End TicketLock.

(** C21: on every interleaving of agents locking and unlocking one of the flag
    locks, at most one agent is in the critical section, the flag is set
    exactly while one is, an agent of the irq lock has interrupts disabled from
    the start of the spinning to the end of the unlock, and every agent leaves
    with the interrupt flag (the preemption counter) it came with. *)
Theorem flag_locks_exclusive :
  (forall cs s, rtc (FlagLock.step (G := spinlock_guard)) (FlagLock.init cs) s ->
     (forall t u, FlagLock.inside s t -> FlagLock.inside s u -> t = u) /\
     (FlagLock.flag s <> 0 <-> exists t, FlagLock.inside s t)) /\
  (forall cs s, rtc (FlagLock.step (G := irqlock_guard)) (FlagLock.init cs) s ->
     (forall t u, FlagLock.inside s t -> FlagLock.inside s u -> t = u) /\
     (FlagLock.flag s <> 0 <-> exists t, FlagLock.inside s t) /\
     forall t p irqs, FlagLock.agents s !! t = Some (FlagLock.Agent p irqs) ->
       match p with FlagLock.Out => cs !! t = Some irqs | _ => irqs = false end) /\
  (forall cs s, (forall t n, cs !! t = Some n -> 0 <= n < 2 ^ 32 - 1) ->
     rtc (FlagLock.step (G := preemptlock_guard)) (FlagLock.init cs) s ->
     (forall t u, FlagLock.inside s t -> FlagLock.inside s u -> t = u) /\
     (FlagLock.flag s <> 0 <-> exists t, FlagLock.inside s t) /\
     forall t p n, FlagLock.agents s !! t = Some (FlagLock.Agent p n) ->
       match p with FlagLock.Out => cs !! t = Some n | _ => 0 < n end).
Proof.
  split_and!.
  - intros cs s Hr. destruct (FlagLock.run_inv (G := spinlock_guard) cs s ltac:(done) Hr) as [H1 H2 H3 H4].
    split; [done|]. split; [done|]. intros [t Ht]. eauto.
  - intros cs s Hr. destruct (FlagLock.run_inv (G := irqlock_guard) cs s ltac:(done) Hr) as [H1 H2 H3 H4].
    split_and!; [done|split; [done|intros [t Ht]; eauto]|].
    intros t p irqs E. destruct (H1 _ _ E) as (c & Hc & Hat). destruct p; cbn in *; congruence.
  - intros cs s Hcs Hr.
    assert (forall c, 0 <= c < 2 ^ 32 - 1 -> disable_preemption c = c + 1 /\ enable_preemption (c + 1) = c) as Hpe.
    { intros c Hc. unfold disable_preemption, enable_preemption, u32. split; rewrite Z.mod_small; lia. }
    destruct (FlagLock.run_inv (G := preemptlock_guard) cs s) as [H1 H2 H3 H4]; [|done|].
    { intros t c Hc. cbn. destruct (Hpe c (Hcs t c Hc)) as [E1 E2]. by rewrite E1, E2. }
    split_and!; [done|split; [done|intros [t Ht]; eauto]|].
    intros t p n E. destruct (H1 _ _ E) as (c & Hc & Hat). pose proof (Hcs t c Hc). destruct (Hpe c) as [Hd _]; [done|].
    destruct p; cbn in *; try congruence; rewrite Hd in Hat; assert (n = c + 1) as -> by congruence; lia.
Qed.

(** C22: with fewer than 2^32 threads, every run of the ticket lock (ticket
    numbers wrapping around) is a run of a first-come-first-served queue: the
    order of the tickets is the queue, the only thread inside is its head, and
    the next to enter is always the one that has waited longest. *)
Theorem ticketlock_is_fifo cs n s :
  0 <= n < 2 ^ 32 -> Z.of_nat (size cs) < 2 ^ 32 -> rtc TicketLock.step (TicketLock.init cs n) s ->
  (exists a, rtc TicketLock.queue_step ([], false) a /\ TicketLock.sim s a) /\
  forall t u my m' c d, TicketLock.threads s !! t = Some (TicketLock.Thread (TicketLock.In my) c) ->
    TicketLock.threads s !! u = Some (TicketLock.Thread (TicketLock.In m') d) -> t = u.
Proof.
  intros Hn Hc Hr. destruct (TicketLock.run_sim cs n s Hn Hc Hr) as (a & Ha & S). split; [by exists a|].
  intros t u my m' c d Ht Hu. destruct (TicketLock.tl_inside _ _ S _ _ _ Ht) as [_ E1].
  destruct (TicketLock.tl_inside _ _ S _ _ _ Hu) as [_ E2]. congruence.
Qed.

(** *** Two contenders *)
Module LockDemo.
Definition irqs : gmap Z bool := {[1 := true; 2 := false]}.
Definition counters : gmap Z Z := {[1 := 0; 2 := 3]}.

(** Agent 1 gets the lock while agent 2 spins. *)
Definition flag_run (G : guard) (cs : gmap Z ctx) (c1 c2 : ctx) (s : FlagLock.state) : Prop :=
  rtc FlagLock.step (FlagLock.init cs) s /\ FlagLock.inside s 1 /\ FlagLock.flag s = 1.

Lemma flag_runs (G : guard) (cs : gmap Z ctx) c1 c2 :
  cs !! 1 = Some c1 -> cs !! 2 = Some c2 -> exists s, flag_run G cs c1 c2 s.
Proof.
  intros H1 H2. assert (forall t c, cs !! t = Some c -> FlagLock.agents (FlagLock.init cs) !! t = Some (FlagLock.Agent FlagLock.Out c)) as HI.
  { intros t c Hc. cbn. by rewrite lookup_fmap, Hc. }
  eexists. split; [eapply rtc_l; [apply (FlagLock.lock_enter _ 1 c1); by apply HI|];
    eapply rtc_l; [apply (FlagLock.lock_enter _ 2 c2); cbn; rewrite lookup_insert_ne by done; by apply HI|];
    eapply rtc_l; [eapply (FlagLock.lock_load _ 1); cbn; rewrite lookup_insert_ne by done; by apply lookup_insert_eq|];
    eapply rtc_l; [eapply (FlagLock.lock_exchange _ 1); cbn; by apply lookup_insert_eq|]; apply rtc_refl|].
  split; [|done]. exists (guard_enter c1).1, (guard_enter c1).2. cbn. apply lookup_insert_eq.
Qed.

(** Thread 1 enters with the last ticket before the wrap-around, thread 2 has
    ticket 0 and waits. *)
Definition wrap : TicketLock.state :=
  TicketLock.State 1 (2 ^ 32 - 1)
    (<[1 := TicketLock.Thread (TicketLock.In (2 ^ 32 - 1)) 1]>
      (<[2 := TicketLock.Thread (TicketLock.Wait 0) 4]> (TicketLock.Thread TicketLock.Out <$> counters))).

Lemma wrap_run : rtc TicketLock.step (TicketLock.init counters (2 ^ 32 - 1)) wrap.
Proof.
  eapply rtc_l; [apply (TicketLock.lock_preempt _ 1 0); reflexivity|].
  eapply rtc_l; [eapply (TicketLock.lock_fetch_add _ 1); reflexivity|].
  eapply rtc_l; [apply (TicketLock.lock_preempt _ 2 3); reflexivity|].
  eapply rtc_l; [eapply (TicketLock.lock_fetch_add _ 2); reflexivity|].
  eapply rtc_l; [eapply (TicketLock.lock_spin _ 2); reflexivity|].
  eapply rtc_l; [eapply (TicketLock.lock_spin _ 1); reflexivity|].
  match goal with |- rtc _ ?s _ => assert (s = wrap) as ->; [|apply rtc_refl] end.
  vm_compute. reflexivity.
Qed.
End LockDemo.

Lemma flag_locks_exclusive_witness :
  (exists s, FlagLock.inside (G := irqlock_guard) s 1 /\
     forall p b, FlagLock.agents s !! 1 = Some (FlagLock.Agent p b) -> p <> FlagLock.Out -> b = false) /\
  exists s, FlagLock.inside (G := preemptlock_guard) s 1 /\ ~ FlagLock.inside s 2.
Proof.
  split.
  - destruct (LockDemo.flag_runs irqlock_guard LockDemo.irqs true false eq_refl eq_refl) as (s & Hr & Hi & _).
    exists s. split; [done|]. intros p b E Hp.
    pose proof (proj2 (proj2 (proj1 (proj2 flag_locks_exclusive) _ _ Hr)) _ _ _ E) as H. by destruct p.
  - destruct (LockDemo.flag_runs preemptlock_guard LockDemo.counters 0 3 eq_refl eq_refl) as (s & Hr & Hi & _).
    exists s. split; [done|]. intros H2.
    assert (forall t n, LockDemo.counters !! t = Some n -> 0 <= n < 2 ^ 32 - 1) as Hc.
    { intros t n. unfold LockDemo.counters. rewrite !lookup_insert_Some, lookup_singleton_Some. lia. }
    by pose proof (proj1 (proj2 (proj2 flag_locks_exclusive) _ _ Hc Hr) 1 2 Hi H2).
Defined.

Lemma ticketlock_is_fifo_witness :
  exists a, rtc TicketLock.queue_step ([], false) a /\ TicketLock.sim LockDemo.wrap a.
Proof. apply (ticketlock_is_fifo LockDemo.counters (2 ^ 32 - 1)); [lia|by vm_compute|exact LockDemo.wrap_run]. Defined.
