(* ===== verification/Paging.v ===== *)
(** * arch/generic/paging: page tables

    Page tables are 8-byte words of physical memory, indexed by their physical
    address ([words]); only the words of pages that were handed out as tables
    are present, so that a stray access is a fault.  [early_state] is the state
    of the boot code, whose tables come from the boot allocator; [pt_state] the
    state of the running kernel, whose tables come from the buddy allocator and
    are counted in the page frame database.  [tlb] records the flushes. *)

From S2P Require Import Prelude LList Memmap Pfndb Buddy PagingArch Elf.
#[local] Open Scope Z_scope.

Inductive tlb_op := TlbFlush (vaddr : Z) | TlbFlushAll.

Abbreviation table_words := (gmap Z Z).

Section Paging.
Context `{cfg : kconfig} `{A : PagingArch}.
Context (mmu_config : Z).

(** ** helpers.h *)
Definition PAGING_TABLE_ENTRIES : Z := PAGE_INDEX_MASK + 1.
Definition PAGING_ENTRY_SHIFT (level : Z) : Z := PAGE_SIZE_SHIFT + (level - 1) * PAGE_INDEX_BITS.
Definition PAGING_ENTRY_SIZE (level : Z) : Z := shl64 1 (PAGING_ENTRY_SHIFT level).
Definition PAGING_INDEX (vaddr level : Z) : Z := Z.land (Z.shiftr vaddr (PAGING_ENTRY_SHIFT level)) PAGE_INDEX_MASK.
Definition PARENT_PAGING_INDEX (vaddr level : Z) : Z :=
  PAGING_INDEX (u64 (vaddr - PAGING_ENTRY_SIZE level)) level + 1.

Definition PAGE_SIZE_LARGE : Z := shl64 1 PAGE_SIZE_LARGE_SHIFT.
Definition PAGE_SIZE_GIANT : Z := shl64 1 PAGE_SIZE_GIANT_SHIFT.

Definition top_level : Z := MMU_CONFIG_TOP_LEVEL mmu_config.

Definition paging_get_pte (table vaddr level : Z) : Z := u64 (table + PAGING_INDEX vaddr level * 8).

Definition assert_alignment (vaddr paddr leaf_level : Z) : res unit :=
  let psz := PAGING_ENTRY_SIZE leaf_level in
  _ ← assert (IS_ALIGNED vaddr psz);
  assert (IS_ALIGNED paddr psz).

Definition mmu_supports_leaf (level : Z) : bool :=
  if level =? 1 then true
  else if (level =? 2) && has mmu_config MMU_CONFIG_L2_LEAF then true
  else if (level =? 3) && has mmu_config MMU_CONFIG_L3_LEAF then true
  else false.

Definition leaf_flags (level attr : Z) : Z :=
  let flags := prot_to_mmu_flags mmu_config attr in
  if negb (level =? 1) then arch_large_page_fixup flags else flags.

Definition write_leaf (w : table_words) (pte_phys paddr level attr : Z) : res table_words :=
  store w pte_phys (ARCH_ENCODE_PTE paddr (leaf_flags level attr)).

(** The words of the page at [p]. *)
Definition page_words (p : Z) : list Z := map (fun i => p + 8 * Z.of_nat i) (seq 0 (Z.to_nat (PAGE_SIZE / 8))).

(** [memset] of a page with zero, and the page's return to its allocator. *)
Definition zero_page (w : table_words) (p : Z) : table_words :=
  foldr (fun a w => <[a := 0]> w) w (page_words p).
Definition drop_page (w : table_words) (p : Z) : table_words :=
  foldr (fun a w => delete a w) w (page_words p).

(** [arch_tlb_flush_range]; the loop visits each page of the range once. *)
Fixpoint flush_loop (fuel : nat) (curr end_ : Z) (tlb : list tlb_op) : res (list tlb_op) :=
  match fuel with
  | O => NoFuel
  | S fuel =>
      if curr <? end_ then flush_loop fuel (u64 (curr + PAGE_SIZE)) end_ (TlbFlush curr :: tlb)
      else Ok tlb
  end.

Definition arch_tlb_flush_range (vaddr size : Z) (tlb : list tlb_op) : res (list tlb_op) :=
  if size >=? PAGE_SIZE_LARGE then Ok (TlbFlushAll :: tlb)
  else
    let start := ALIGN_DOWN vaddr PAGE_SIZE in
    let end_ := ALIGN_UP (u64 (vaddr + size)) PAGE_SIZE in
    flush_loop (S (S (S (Z.to_nat (Z.shiftr size PAGE_SIZE_SHIFT))))) start end_ tlb.

(** ** get.c *)
Fixpoint walk_loop (n : nat) (w : table_words) (table vaddr level : Z) : res (option (Z * Z * Z)) :=
  match n with
  | O => Ok None
  | S n =>
      let pte := paging_get_pte table vaddr level in
      entry ← load w pte;
      if negb (ARCH_PTE_PRESENT entry) then Ok None
      else if ARCH_PTE_IS_LEAF entry level then Ok (Some (entry, level, pte))
      else walk_loop n w (ARCH_DECODE_PTE entry) vaddr (level - 1)
  end.

(** The leaf entry, its level and its address. *)
Definition paging_walk (w : table_words) (page_table vaddr : Z) : res (option (Z * Z * Z)) :=
  walk_loop (Z.to_nat top_level) w page_table vaddr top_level.

(** With the level written to [*level_out], if any. *)
Definition paging_get_paddr (w : table_words) (page_table vaddr : Z) : res (Z * option Z) :=
  r ← paging_walk w page_table vaddr;
  match r with
  | None => Ok (0, None)
  | Some (leaf, level, _) =>
      Ok (if level =? 1 then ARCH_DECODE_PTE leaf else ARCH_DECODE_LARGE_PTE leaf, Some level)
  end.

Definition paging_get_prot (w : table_words) (page_table vaddr : Z) : res Z :=
  r ← paging_walk w page_table vaddr;
  match r with
  | None => Ok 0
  | Some (leaf, level, _) => Ok (mmu_flags_to_prot leaf level)
  end.

(** ** Mapping before the page frame database exists *)
Section Early.
Context (entries : list memmap_entry).

Record early_state := Early { balloc : balloc_state; early_words : table_words; early_tlb : list tlb_op }.

(** [balloc_alloc_page] with its [memset]. *)
Definition bump_alloc (s : early_state) : res (Z * early_state) :=
  '(p, b) ← balloc_alloc_page entries (balloc s);
  Ok (p, Early b (zero_page (early_words s) p) (early_tlb s)).

Definition get_next_level_and_bump_allocate (s : early_state) (pte_phys attr : Z) : res (Z * early_state) :=
  entry ← load (early_words s) pte_phys;
  if negb (ARCH_PTE_PRESENT entry) then
    '(new_table, s) ← bump_alloc s;
    let entry := ARCH_ENCODE_PTE new_table (ARCH_INTERMEDIATE_MMU_FLAGS attr) in
    w ← store (early_words s) pte_phys entry;
    Ok (ARCH_DECODE_PTE entry, Early (balloc s) w (early_tlb s))
  else Ok (ARCH_DECODE_PTE entry, s).

(** The descent of [paging_early_map_page] through [n] levels. *)
Fixpoint early_descend (n : nat) (s : early_state) (table vaddr level : Z) : res (Z * early_state) :=
  match n with
  | O => Ok (table, s)
  | S n =>
      let pte_phys := paging_get_pte table vaddr level in
      '(table, s) ← get_next_level_and_bump_allocate s pte_phys PAGE_KRWX;
      early_descend n s table vaddr (level - 1)
  end.

Definition paging_early_map_page (s : early_state) (page_table vaddr paddr attr : Z) : res early_state :=
  let leaf_level := PAGE_LEAF_LEVEL attr in
  _ ← assert_alignment vaddr paddr leaf_level;
  '(table, s) ← early_descend (Z.to_nat (top_level - leaf_level)) s page_table vaddr top_level;
  let leaf_pte := paging_get_pte table vaddr leaf_level in
  w ← write_leaf (early_words s) leaf_pte paddr leaf_level attr;
  Ok (Early (balloc s) w (TlbFlush vaddr :: early_tlb s)).
End Early.

(** ** Tables of the running kernel *)
Record pt_state := PtState { pmm : buddy_state; words : table_words; tlb : list tlb_op }.

Definition with_words (s : pt_state) (w : table_words) : pt_state := PtState (pmm s) w (tlb s).
Definition with_pmm (s : pt_state) (b : buddy_state) : pt_state := PtState b (words s) (tlb s).
Definition with_tlb (s : pt_state) (t : list tlb_op) : pt_state := PtState (pmm s) (words s) t.

Definition update_refcnt (s : pt_state) (paddr amount : Z) : res pt_state :=
  page ← load (frames (pmm s)) (pfndb_get_entry paddr);
  if bool_decide (type page = PFNDB_PAGE_INVALID) then Ok s else
  _ ← dbg_assert (bool_decide (type page = PFNDB_PAGE_PTABLE));
  _ ← (if amount <? 0 then dbg_assert (ref_count page >=? u32 (- amount)) else Ok tt);
  b ← update_entry (pmm s) paddr (fun pg => set_ref_count pg (u32 (ref_count pg + amount)));
  Ok (with_pmm s b).

Definition get_refcnt (s : pt_state) (paddr : Z) : res Z :=
  page ← load (frames (pmm s)) (pfndb_get_entry paddr);
  if bool_decide (type page = PFNDB_PAGE_INVALID) then Ok UINT32_MAX else
  _ ← dbg_assert (bool_decide (type page = PFNDB_PAGE_PTABLE));
  Ok (ref_count page).

(** [pmm_alloc_page] and the initialisation of the new table's frame entry. *)
Definition alloc_table (s : pt_state) : res (Z * pt_state) :=
  '(child, b) ← pmm_alloc_page (pmm s);
  b ← update_entry b child (fun pg => set_type pg PFNDB_PAGE_PTABLE);
  b ← update_entry b child (fun pg => set_ref_count pg 0);
  Ok (child, PtState b (zero_page (words s) child) (tlb s)).

(** [pmm_free_page] of a table: its words are no longer ours to read. *)
Definition free_table (s : pt_state) (table : Z) : res pt_state :=
  b ← pmm_free_page (pmm s) table;
  Ok (PtState b (drop_page (words s) table) (tlb s)).

(** *** split.c *)
Fixpoint split_fill (n : nat) (w : table_words) (vchild base entry_size flags i : Z) : res table_words :=
  match n with
  | O => Ok w
  | S n =>
      w ← store w (vchild + i * 8) (ARCH_ENCODE_PTE (u64 (base + i * entry_size)) flags);
      split_fill n w vchild base entry_size flags (i + 1)
  end.

Definition paging_split_leaf (s : pt_state) (pte_phys level : Z) : res (Z * pt_state) :=
  entry ← load (words s) pte_phys;
  let base := ARCH_DECODE_LARGE_PTE entry in
  let prot := mmu_flags_to_prot entry level in
  '(child, s) ← alloc_table s;
  let flags := prot_to_mmu_flags mmu_config prot in
  let flags := if level >? 2 then arch_large_page_fixup flags else flags in
  let entry_size := PAGING_ENTRY_SIZE (level - 1) in
  w ← split_fill (Z.to_nat PAGING_TABLE_ENTRIES) (words s) child base entry_size flags 0;
  s ← update_refcnt (with_words s w) child PAGING_TABLE_ENTRIES;
  w ← store (words s) pte_phys (ARCH_ENCODE_PTE child (ARCH_INTERMEDIATE_MMU_FLAGS prot));
  Ok (child, with_words s w).

(** *** map.c *)

(** The bulk loop at the base level: entries added, new words. *)
Fixpoint map_run (n : nat) (w : table_words) (vpte paddr flags i added : Z) : res (Z * table_words) :=
  match n with
  | O => Ok (added, w)
  | S n =>
      entry ← load w (vpte + 8 * i);
      let added := if negb (ARCH_PTE_PRESENT entry) then added + 1 else added in
      w ← store w (vpte + 8 * i) (ARCH_ENCODE_PTE (u64 (paddr + i * PAGE_SIZE)) flags);
      map_run n w vpte paddr flags (i + 1) added
  end.

(** One level down from the entry at [pte_phys]. *)
Definition map_child (s : pt_state) (table pte_phys entry level attr : Z) : res (Z * pt_state) :=
  if negb (ARCH_PTE_PRESENT entry) then
    '(child, s) ← alloc_table s;
    w ← store (words s) pte_phys (ARCH_ENCODE_PTE child (ARCH_INTERMEDIATE_MMU_FLAGS attr));
    s ← update_refcnt (with_words s w) table 1;
    Ok (child, s)
  else if ARCH_PTE_IS_LEAF entry level then paging_split_leaf s pte_phys level
  else Ok (ARCH_DECODE_PTE entry, s).

Fixpoint map_loop (fuel : nat) (attr : Z) (s : pt_state) (tables : gmap Z Z)
    (level index vaddr paddr len : Z) : res pt_state :=
  match fuel with
  | O => NoFuel
  | S fuel =>
      if negb (len >? 0) then Ok s
      else if index =? PAGING_TABLE_ENTRIES then
        if level =? top_level then Ok s
        else map_loop fuel attr s tables (level + 1) (PARENT_PAGING_INDEX vaddr (level + 1)) vaddr paddr len
      else
        let entry_size := PAGING_ENTRY_SIZE level in
        table ← load tables level;
        let pte_phys := paging_get_pte table vaddr level in
        entry ← load (words s) pte_phys;
        if level =? 1 then
          let run := MIN (PAGING_TABLE_ENTRIES - index) (Z.shiftr len PAGE_SIZE_SHIFT) in
          let flags := prot_to_mmu_flags mmu_config attr in
          '(added, w) ← map_run (Z.to_nat run) (words s) pte_phys paddr flags 0 0;
          s ← update_refcnt (with_words s w) table added;
          let adv := shl64 run PAGE_SIZE_SHIFT in
          map_loop fuel attr s tables level (index + run) (u64 (vaddr + adv)) (u64 (paddr + adv)) (u64 (len - adv))
        else
          let leaf_valid := negb (ARCH_PTE_PRESENT entry) || ARCH_PTE_IS_LEAF entry level in
          let aligned := IS_ALIGNED vaddr entry_size && IS_ALIGNED paddr entry_size in
          if mmu_supports_leaf level && leaf_valid && aligned && (len >=? entry_size) then
            s ← (if negb (ARCH_PTE_PRESENT entry) then update_refcnt s table 1 else Ok s);
            w ← write_leaf (words s) pte_phys paddr level attr;
            map_loop fuel attr (with_words s w) tables level (index + 1)
              (u64 (vaddr + entry_size)) (u64 (paddr + entry_size)) (u64 (len - entry_size))
          else
            '(child, s) ← map_child s table pte_phys entry level attr;
            map_loop fuel attr s (<[level - 1 := child]> tables) (level - 1)
              (PAGING_INDEX vaddr (level - 1)) vaddr paddr len
  end.

(** Every turn of the loops that does not advance by a page or more goes up or
    down a level, at most [top_level] times in a row in each direction. *)
Definition range_fuel (len : Z) : nat :=
  Z.to_nat ((2 * top_level + 2) * (Z.shiftr len PAGE_SIZE_SHIFT + 1)).

Definition paging_map_range (s : pt_state) (page_table vaddr paddr len attr : Z) : res pt_state :=
  _ ← dbg_assert (IS_ALIGNED vaddr PAGE_SIZE);
  _ ← dbg_assert (IS_ALIGNED paddr PAGE_SIZE);
  _ ← dbg_assert (IS_ALIGNED len PAGE_SIZE);
  s ← map_loop (range_fuel len) attr s {[top_level := page_table]} top_level
        (PAGING_INDEX vaddr top_level) vaddr paddr len;
  t ← arch_tlb_flush_range vaddr len (tlb s);
  Ok (with_tlb s t).

Definition paging_map_page (s : pt_state) (page_table vaddr paddr attr : Z) : res pt_state :=
  let leaf_level := PAGE_LEAF_LEVEL attr in
  _ ← dbg_assert (IS_ALIGNED vaddr (PAGING_ENTRY_SIZE leaf_level));
  paging_map_range s page_table vaddr paddr (PAGING_ENTRY_SIZE leaf_level) attr.

(** *** unmap.c *)
Definition paging_try_free_table (s : pt_state) (tables : gmap Z Z) (level vaddr : Z) : res (bool * pt_state) :=
  if level >=? top_level then Ok (false, s) else
  table ← load tables level;
  n ← get_refcnt s table;
  if negb (n =? 0) then Ok (false, s) else
  parent ← load tables (level + 1);
  w ← store (words s) (parent + 8 * PAGING_INDEX vaddr (level + 1)) 0;
  s ← update_refcnt (with_words s w) parent (-1);
  s ← free_table s table;
  Ok (true, s).

(** [while (paging_try_free_table(tables, level++, vaddr, top_level))]. *)
Fixpoint free_up (fuel : nat) (s : pt_state) (tables : gmap Z Z) (level vaddr : Z) : res pt_state :=
  match fuel with
  | O => NoFuel
  | S fuel =>
      '(freed, s) ← paging_try_free_table s tables level vaddr;
      if (freed : bool) then free_up fuel s tables (level + 1) vaddr else Ok s
  end.

Fixpoint unmap_run (n : nat) (w : table_words) (vpte i removed : Z) : res (Z * table_words) :=
  match n with
  | O => Ok (removed, w)
  | S n =>
      entry ← load w (vpte + 8 * i);
      let removed := if ARCH_PTE_PRESENT entry then removed + 1 else removed in
      w ← store w (vpte + 8 * i) 0;
      unmap_run n w vpte (i + 1) removed
  end.

Fixpoint unmap_loop (fuel : nat) (s : pt_state) (tables : gmap Z Z) (level index vaddr len : Z) : res pt_state :=
  match fuel with
  | O => NoFuel
  | S fuel =>
      if index =? PAGING_TABLE_ENTRIES then
        if level =? top_level then Ok s
        else
          '(_, s) ← paging_try_free_table s tables level (u64 (vaddr - PAGING_ENTRY_SIZE (level + 1)));
          unmap_loop fuel s tables (level + 1) (PARENT_PAGING_INDEX vaddr (level + 1)) vaddr len
      else if len =? 0 then free_up (S (Z.to_nat top_level)) s tables level vaddr
      else
        let entry_size := PAGING_ENTRY_SIZE level in
        table ← load tables level;
        let pte_phys := paging_get_pte table vaddr level in
        entry ← load (words s) pte_phys;
        if negb (ARCH_PTE_PRESENT entry) then
          let remaining := u64 (entry_size - MISALIGNMENT vaddr entry_size) in
          let advance := MIN len remaining in
          unmap_loop fuel s tables level (if advance =? remaining then index + 1 else index)
            (u64 (vaddr + advance)) (u64 (len - advance))
        else if level =? 1 then
          let run := MIN (PAGING_TABLE_ENTRIES - index) (Z.shiftr len PAGE_SIZE_SHIFT) in
          '(removed, w) ← unmap_run (Z.to_nat run) (words s) pte_phys 0 0;
          s ← update_refcnt (with_words s w) table (- removed);
          let adv := shl64 run PAGE_SIZE_SHIFT in
          unmap_loop fuel s tables level (index + run) (u64 (vaddr + adv)) (u64 (len - adv))
        else if ARCH_PTE_IS_LEAF entry level && (IS_ALIGNED vaddr entry_size && (len >=? entry_size)) then
          w ← store (words s) pte_phys 0;
          s ← update_refcnt (with_words s w) table (-1);
          unmap_loop fuel s tables level (index + 1) (u64 (vaddr + entry_size)) (u64 (len - entry_size))
        else
          '(child, s) ← (if ARCH_PTE_IS_LEAF entry level then paging_split_leaf s pte_phys level
                         else Ok (ARCH_DECODE_PTE entry, s));
          unmap_loop fuel s (<[level - 1 := child]> tables) (level - 1) (PAGING_INDEX vaddr (level - 1)) vaddr len
  end.

Definition paging_unmap_range (s : pt_state) (page_table vaddr len : Z) : res pt_state :=
  _ ← dbg_assert (IS_ALIGNED vaddr PAGE_SIZE);
  _ ← dbg_assert (IS_ALIGNED len PAGE_SIZE);
  s ← unmap_loop (range_fuel len) s {[top_level := page_table]} top_level
        (PAGING_INDEX vaddr top_level) vaddr len;
  t ← arch_tlb_flush_range vaddr len (tlb s);
  Ok (with_tlb s t).

Definition paging_unmap_page (s : pt_state) (page_table vaddr attr : Z) : res pt_state :=
  let leaf_level := PAGE_LEAF_LEVEL attr in
  _ ← dbg_assert (IS_ALIGNED vaddr (PAGING_ENTRY_SIZE leaf_level));
  paging_unmap_range s page_table vaddr (PAGING_ENTRY_SIZE leaf_level).
End Paging.
