(* ===== verification/Stacktrace.v ===== *)
(** * loader/dwarf/stacktrace.c: stack traces

    [dwarf_vaddr_readable] and [dwarf_cfi_resolve] (loader/dwarf/cfi.c), the
    registers a trace starts from (arch/x86_64/intrin/loader.h,
    arch/riscv64/intrin/loader.h, arch/loongarch64/intrin/loader.h) and
    [dwarf_stack_trace].  The trace runs when the kernel has already failed: it
    must not fail again, whatever the registers, the stack and the debug
    information hold.  A trace is the list of the lines it prints. *)

From S2P Require Import Prelude CString CStringSpec DwarfLeb DwarfCfi DwarfCfiSpec DwarfLine DwarfLineSpec Elf PagingArch Paging.
#[local] Open Scope Z_scope.

(** ** The registers of a frame *)
Class LoaderArch (F : Type) := {
  ARCH_DWARF_SP_REG : Z;
  arch_cfi_seed : list Z -> F -> res (list Z);
  arch_cfi_initial_pc : F -> Z;
}.

(** What the unwinder relies on. *)
Class LoaderArchOk (F : Type) `{L : LoaderArch F} (frame_ok : F -> Prop) : Prop := {
  sp_range : 0 <= ARCH_DWARF_SP_REG < DWARF_MAX_REGS;
  seed_ok rs f : length rs = 32%nat -> frame_ok f -> returns (arch_cfi_seed rs f) (fun rs' => length rs' = 32%nat);
}.

Module X86.
(** The saved registers and the part the processor pushed. *)
Record frame := Frame {
  r15 : Z; r14 : Z; r13 : Z; r12 : Z; r11 : Z; r10 : Z; r9 : Z; r8 : Z;
  rbp : Z; rdi : Z; rsi : Z; rdx : Z; rcx : Z; rbx : Z; rax : Z;
  ip : Z; rsp : Z;
}.

Definition SP_REG : Z := 7.
Definition RA_REG : Z := 16.

Fixpoint assign (rs : list Z) (values : list (Z * Z)) : res (list Z) :=
  match values with
  | [] => Ok rs
  | (i, v) :: values => rs ← index_set rs i v; assign rs values
  end.

Definition cfi_seed (rs : list Z) (f : frame) : res (list Z) :=
  assign rs
    [(0, rax f); (1, rdx f); (2, rcx f); (3, rbx f); (4, rsi f); (5, rdi f); (6, rbp f); (7, rsp f);
     (8, r8 f); (9, r9 f); (10, r10 f); (11, r11 f); (12, r12 f); (13, r13 f); (14, r14 f); (15, r15 f);
     (RA_REG, ip f)].
Definition cfi_initial_pc (f : frame) : Z := ip f.

#[export] Instance loader : LoaderArch frame := {|
  ARCH_DWARF_SP_REG := SP_REG; arch_cfi_seed := cfi_seed; arch_cfi_initial_pc := cfi_initial_pc |}.

Lemma assign_ok values : forall rs, length rs = 32%nat -> Forall (fun x => 0 <= x.1 < 32) values ->
  returns (assign rs values) (fun rs' => length rs' = 32%nat).
Proof.
  induction values as [|[i v] values IH]; intros rs Hl HF; cbn [assign]; [by apply returns_Ok|]. apply Forall_cons in HF as [Hi HF]. cbn [fst] in Hi.
  eapply returns_bind; [apply index_set_returns; lia|]. intros rs' ->. apply IH; [by rewrite length_insert|done].
Qed.

#[export] Instance loader_ok : LoaderArchOk frame (fun _ => True).
Proof.
  split; [cbn; unfold SP_REG, DWARF_MAX_REGS; lia|]. intros rs f Hl _. apply assign_ok; [done|].
  unfold RA_REG. repeat constructor; cbn; lia.
Qed.
End X86.

Module Riscv.
(** [x] has 32 elements by its type. *)
Record frame := Frame { x : list Z; sepc : Z }.

Definition SP_REG : Z := 2.
(** [memcpy] of the whole array over the registers. *)
Definition cfi_seed (rs : list Z) (f : frame) : res (list Z) := if (length rs =? length (x f))%nat then Ok (x f) else Fault.
Definition cfi_initial_pc (f : frame) : Z := sepc f.

#[export] Instance loader : LoaderArch frame := {|
  ARCH_DWARF_SP_REG := SP_REG; arch_cfi_seed := cfi_seed; arch_cfi_initial_pc := cfi_initial_pc |}.

#[export] Instance loader_ok : LoaderArchOk frame (fun f => length (x f) = 32%nat).
Proof.
  split; [cbn; unfold SP_REG, DWARF_MAX_REGS; lia|]. intros rs f Hl Hx.
  cbn. unfold cfi_seed. rewrite Hl, Hx. by apply returns_Ok.
Qed.
End Riscv.

Module Loongarch.
Record frame := Frame { x : list Z; era : Z }.

Definition SP_REG : Z := 3.
Definition cfi_seed (rs : list Z) (f : frame) : res (list Z) := if (length rs =? length (x f))%nat then Ok (x f) else Fault.
Definition cfi_initial_pc (f : frame) : Z := era f.

#[export] Instance loader : LoaderArch frame := {|
  ARCH_DWARF_SP_REG := SP_REG; arch_cfi_seed := cfi_seed; arch_cfi_initial_pc := cfi_initial_pc |}.

#[export] Instance loader_ok : LoaderArchOk frame (fun f => length (x f) = 32%nat).
Proof.
  split; [cbn; unfold SP_REG, DWARF_MAX_REGS; lia|]. intros rs f Hl Hx.
  cbn. unfold cfi_seed. rewrite Hl, Hx. by apply returns_Ok.
Qed.
End Loongarch.

(** ** Unwinding one frame *)
Section Trace.
Context `{cfg : kconfig} `{A : PagingArch}.
(** The memory, the kernel's page tables ([0] before they exist), and whether
    the direct map is outside of them, with the end of the memory it shows. *)
Context (m : bytes) (mmu_config : Z) (w : table_words) (kernel_page_table : Z).
Context (unpaged_hhdm : bool) (memmap_last_paddr : Z).
Context {F : Type} `{L : LoaderArch F}.

Definition dwarf_vaddr_readable (vaddr size : Z) : res bool :=
  if unpaged_hhdm && (vaddr >=? hhdm_offset) && (u64 (u64 (vaddr - hhdm_offset) + size) <=? memmap_last_paddr) then Ok true else
  if kernel_page_table =? 0 then Ok false else
  '(paddr, _) ← paging_get_paddr mmu_config w kernel_page_table vaddr;
  if paddr =? 0 then Ok false else
  if u64 (MISALIGNMENT vaddr PAGE_SIZE + size) >? PAGE_SIZE then
    '(paddr, _) ← paging_get_paddr mmu_config w kernel_page_table (u64 (vaddr + size - 1));
    Ok (negb (paddr =? 0))
  else Ok true.

(** The registers from [i] on; false when one of them cannot be read. *)
Fixpoint resolve_loop (n : nat) (i : Z) (rules : cfi_rules) (cfa_value : Z) (rs : list Z) : res (bool * list Z) :=
  match n with
  | O => Ok (true, rs)
  | S n =>
      reg ← index (rregs rules) i;
      match kind reg with
      | CFI_OFFSET =>
          let vaddr := u64 (cfa_value + u64 (offset reg)) in
          readable ← dwarf_vaddr_readable vaddr 8;
          if negb readable then Ok (false, rs) else
          val ← load_le m vaddr 8;
          rs ← index_set rs i val;
          resolve_loop n (i + 1) rules cfa_value rs
      | CFI_SAME_VALUE => resolve_loop n (i + 1) rules cfa_value rs
      end
  end.

Definition set_regs (s : cfi_state) (rs : list Z) : cfi_state :=
  CfiState (cfi_baseline s) (rules s) rs (ra_col s) (depth s) (is_signal_frame s).

Definition dwarf_cfi_resolve (s : cfi_state) : res (bool * cfi_state) :=
  rules ← index (rules s) (depth s);
  let cfa := cfa rules in
  if negb (bool_decide (kind cfa = CFI_OFFSET)) then Ok (false, s) else
  base ← index (regs s) (reg_num cfa);
  let cfa_value := u64 (base + u64 (offset cfa)) in
  rs ← index_set (regs s) ARCH_DWARF_SP_REG cfa_value;
  '(ok, rs) ← resolve_loop (Z.to_nat DWARF_MAX_REGS) 0 rules cfa_value rs;
  Ok (ok, set_regs s rs).

(** ** The trace *)
Context (kernel_elf_file kernel_elf_size kernel_virtual_base : Z).

(** A printed line: the link-time program counter, the symbol with the offset
    in it, and the place in the source. *)
Record trace_line := TraceLine { t_pc : Z; t_symbol : option (Z * Z); t_line : option dwarf_line_result }.

Section Loop.
Context (debug_frame debug_line : list Z) (symtab symtab_size strtab strtab_size : Z).

Fixpoint trace_loop (n : nat) (s : cfi_state) (pc_rt : Z) : res (list trace_line) :=
  match n with
  | O => Ok []
  | S n =>
      pc_lt ← kaslr_rt2lt m kernel_elf_file kernel_virtual_base (u64 (pc_rt - (if is_signal_frame s then 0 else 1)));
      symbol ← symbol_for_pc m symtab symtab_size strtab strtab_size pc_lt;
      line ← dwarf_line_for_pc debug_line (Z.of_nat (length debug_line)) pc_lt;
      let out := TraceLine pc_lt symbol line in
      r ← dwarf_cfi debug_frame (Z.of_nat (length debug_frame)) pc_lt s;
      match r with
      | None => Ok [out]
      | Some s =>
          '(ok, s) ← dwarf_cfi_resolve s;
          if negb ok then Ok [out] else
          if ra_col s >=? DWARF_MAX_REGS then Ok [out] else
          pc_rt ← index (regs s) (ra_col s);
          if pc_rt =? 0 then Ok [out] else
          rest ← trace_loop n s pc_rt; Ok (out :: rest)
      end
  end.
End Loop.

(** The bytes of a section, which the parsers see as a buffer. *)
Fixpoint section_bytes (n : nat) (p : Z) : res (list Z) :=
  match n with
  | O => Ok []
  | S n => b ← load m p; bs ← section_bytes n (p + 1); Ok (b :: bs)
  end.

(** Where the four names of sections lie. *)
Context (as_char : Z -> Z) (n_debug_frame n_debug_line n_symtab n_strtab : Z).
Definition introspect (name : Z) : res (Z * option Z) :=
  elf_introspect_section m kernel_elf_file kernel_elf_size kernel_virtual_base as_char name.

(** [s] is the static state, which keeps what an earlier trace left in it. *)
Definition dwarf_stack_trace (s : cfi_state) (frame : F) : res (list trace_line) :=
  '(debug_frame, debug_frame_size) ← introspect n_debug_frame;
  '(debug_line, debug_line_size) ← introspect n_debug_line;
  '(symtab_section, symtab_size) ← introspect n_symtab;
  '(strtab_section, strtab_size) ← introspect n_strtab;
  if (debug_frame =? 0) || (debug_line =? 0) || (symtab_section =? 0) || (strtab_section =? 0) then Ok [] else
  rs ← arch_cfi_seed (regs s) frame;
  let s := CfiState (cfi_baseline s) (rules s) rs (ra_col s) (depth s) true in
  let pc_rt := arch_cfi_initial_pc frame in
  debug_frame ← section_bytes (Z.to_nat (default 0 debug_frame_size)) debug_frame;
  debug_line ← section_bytes (Z.to_nat (default 0 debug_line_size)) debug_line;
  trace_loop debug_frame debug_line symtab_section (default 0 symtab_size) strtab_section (default 0 strtab_size) 8 s pc_rt.
End Trace.

(** ** A trace does no harm *)
Lemma index_found {A} (xs : list A) i a : 0 <= i -> xs !! Z.to_nat i = Some a -> index xs i = Ok a.
Proof. intros Hi E. unfold index. by rewrite (proj2 (Z.ltb_ge i 0) Hi), E. Qed.

Section TraceProofs.
Context `{cfg_ok : kconfig_ok} `{A : PagingArch}.
Context (m : bytes) (mmu_config : Z) (w : table_words) (kernel_page_table : Z).
Context (unpaged_hhdm : bool) (memmap_last_paddr : Z).
Context {F : Type} `{L : LoaderArch F} (frame_ok : F -> Prop) `{LO : !LoaderArchOk F frame_ok}.

(** Memory as the kernel set it up: the direct map shows the physical memory,
    a walk over the kernel's tables ends, a page it finds is there, and the
    page at address 0 is not. *)
Record memory_ok : Prop := {
  mem_bytes : byte_mem m;
  mem_hhdm : unpaged_hhdm = true -> 8 <= hhdm_offset /\ mapped m hhdm_offset memmap_last_paddr;
  mem_walk : kernel_page_table <> 0 -> forall va, is_u64 va ->
    returns (paging_get_paddr mmu_config w kernel_page_table va) (fun '(p, _) =>
      (p <> 0 -> mapped m (va - va mod PAGE_SIZE) PAGE_SIZE) /\ (va < 8 -> p = 0));
}.

Abbreviation readable := (dwarf_vaddr_readable mmu_config w kernel_page_table unpaged_hhdm memmap_last_paddr).

Lemma page_big : 8 <= PAGE_SIZE < 2 ^ 17.
Proof using cfg_ok.
  rewrite PAGE_SIZE_eq. pose proof shift_range as Hs. assert (2 ^ 12 <= 2 ^ PAGE_SIZE_SHIFT) by (apply Z.pow_le_mono_r; lia).
  assert (2 ^ PAGE_SIZE_SHIFT < 2 ^ 17) by (apply Z.pow_lt_mono_r; lia). lia.
Qed.

(** What is reported readable can be read, also across a page boundary and at
    both ends of the address space. *)
Lemma readable_ok va : memory_ok -> is_u64 va -> returns (readable va 8) (fun b => b = true -> mapped m va 8).
Proof using cfg_ok.
  intros [MB MH MW] Hva. unfold dwarf_vaddr_readable. rewrite Z.geb_leb. pose proof page_big as Hpg. assert (0 < PAGE_SIZE) as Hpos by lia.
  destruct (unpaged_hhdm && (hhdm_offset <=? va) && _) eqn:E.
  { apply returns_Ok. intros _. apply andb_prop in E as [[E1 E2]%andb_prop E3]. apply Z.leb_le in E2, E3. destruct (MH E1) as [H8 Hm].
    unfold is_u64 in Hva. pose proof hhdm_range. rewrite (u64_small (va - hhdm_offset)), u64_small in E3 by (unfold is_u64; lia). intros a Ha. apply Hm. lia. }
  clear E. destruct (Z.eqb_spec kernel_page_table 0) as [|Hk]; [by apply returns_Ok|]. specialize (MW Hk).
  destruct (MW va Hva) as ([p l] & -> & Hp & _). rewrite bind_Ok. destruct (Z.eqb_spec p 0) as [|Hp0]; [by apply returns_Ok|]. specialize (Hp Hp0).
  assert (MISALIGNMENT va PAGE_SIZE = va mod PAGE_SIZE) as ->. { rewrite PAGE_SIZE_eq. apply MISALIGNMENT_spec; [pose proof shift_range; lia|done]. }
  pose proof (Z.mod_pos_bound va PAGE_SIZE Hpos) as Hmod. rewrite (u64_small (_ + 8)) by (unfold is_u64; lia). rewrite Z.gtb_ltb.
  destruct (Z.ltb_spec PAGE_SIZE (va mod PAGE_SIZE + 8)) as [Hx|Hx].
  2: { apply returns_Ok. intros _ a Ha. apply Hp. lia. }
  destruct (MW (u64 (va + 8 - 1)) (u64_range _)) as ([q l'] & -> & Hq & Hnull). rewrite bind_Ok. apply returns_Ok. intros Hq0.
  destruct (Z.eqb_spec q 0) as [|Hq0']; [done|]. specialize (Hq Hq0').
  destruct (decide (va + 8 - 1 < 2 ^ 64)) as [Hw|Hw].
  - rewrite (u64_small (va + 8 - 1)) in Hq by (unfold is_u64 in *; lia).
    assert ((va + 8 - 1) mod PAGE_SIZE = va mod PAGE_SIZE + 7 - PAGE_SIZE) as Em.
    { symmetry. apply (Z.mod_unique _ _ (va / PAGE_SIZE + 1)); [left; lia|]. assert (PAGE_SIZE <> 0) as Hne by lia. pose proof (Z.div_mod va PAGE_SIZE Hne). nia. }
    rewrite Em in Hq. intros a Ha. destruct (decide (a < va - va mod PAGE_SIZE + PAGE_SIZE)); [apply Hp; lia|apply Hq; lia].
  - exfalso. apply Hq0', Hnull. unfold u64, is_u64 in *. rewrite <- (Z.mod_unique (va + 8 - 1) (2 ^ 64) 1 (va + 8 - 1 - 2 ^ 64)); lia.
Qed.

(** Where a rule says that a register was saved, for the frame address [c]. *)
Definition slot (c : Z) (r : cfi_rule) : option Z :=
  match kind r with CFI_OFFSET => Some (u64 (c + u64 (offset r))) | CFI_SAME_VALUE => None end.

(** [rs'] are the registers [rs] with those at [i] and above that were saved read
    back from the stack. *)
Definition restored (rules : list cfi_rule) (c i : Z) (rs rs' : list Z) : Prop :=
  forall j r v', rules !! j = Some r -> rs' !! j = Some v' ->
    match slot c r with
    | Some a => if decide (i <= Z.of_nat j) then load_le m a 8 = Ok v' else rs !! j = Some v'
    | None => rs !! j = Some v'
    end.

Abbreviation resolve_regs := (resolve_loop m mmu_config w kernel_page_table unpaged_hhdm memmap_last_paddr).

Lemma resolve_loop_ok ru c (HM : memory_ok) (Hru : length (rregs ru) = 32%nat) n : forall i rs,
  0 <= i -> i + Z.of_nat n = 32 -> length rs = 32%nat ->
  returns (resolve_regs n i ru c rs) (fun '(ok, rs') => length rs' = 32%nat /\ (ok = true -> restored (rregs ru) c i rs rs')).
Proof using cfg_ok.
  induction n as [|n IH]; intros i rs Hi Hn Hl; cbn [resolve_loop].
  { apply returns_Ok. split; [done|]. intros _ j r v' Hr Hv. apply lookup_lt_Some in Hv as Hj. destruct (slot c r); [|done]. by rewrite decide_False by lia. }
  destruct (lookup_lt_is_Some_2 (rregs ru) (Z.to_nat i)) as [r Hr]; [lia|]. rewrite (index_found _ _ r), bind_Ok by (done || lia).
  destruct (kind r) eqn:Hk.
  - eapply returns_mono; [apply (IH (i + 1) rs); lia|]. intros [ok rs'] [Hl' Hres]. split; [done|]. intros ->. intros j r' v' Hr' Hv'.
    specialize (Hres eq_refl j r' v' Hr' Hv'). destruct (slot c r') as [a|] eqn:Hs; [|done]. destruct (decide (Z.of_nat j = i)) as [Hji|Hji].
    + assert (j = Z.to_nat i) as -> by lia. rewrite Hr in Hr'. injection Hr' as <-. unfold slot in Hs. by rewrite Hk in Hs.
    + destruct (decide (i + 1 <= Z.of_nat j)); [rewrite decide_True by lia|rewrite decide_False by lia]; done.
  - destruct (readable_ok (u64 (c + u64 (offset r))) HM (u64_range _)) as (b & -> & Hb). rewrite bind_Ok. destruct b; cbn [negb]; [|by apply returns_Ok; split].
    destruct (load_le_ok m 8 _ (mem_bytes HM) (Hb eq_refl)) as (bs & E & _). rewrite E, bind_Ok.
    eapply returns_bind; [apply index_set_returns; lia|]. intros rs1 ->.
    eapply returns_mono; [apply (IH (i + 1)); [lia|lia|by rewrite length_insert]|]. intros [ok rs'] [Hl' Hres]. split; [done|]. intros ->. intros j r' v' Hr' Hv'.
    specialize (Hres eq_refl j r' v' Hr' Hv'). destruct (decide (Z.of_nat j = i)) as [Hji|Hji].
    + assert (j = Z.to_nat i) as -> by lia. rewrite Hr in Hr'. injection Hr' as <-. unfold slot in *. rewrite Hk in *. rewrite decide_False in Hres by lia. rewrite decide_True by lia.
      rewrite list_lookup_insert_eq in Hres by lia. congruence.
    + assert ((<[Z.to_nat i:=le_value bs]> rs) !! j = rs !! j) as Ej by (apply list_lookup_insert_ne; lia). rewrite Ej in Hres.
      destruct (slot c r') as [a|]; [|done]. destruct (decide (i + 1 <= Z.of_nat j)); [rewrite decide_True by lia|rewrite decide_False by lia]; done.
Qed.

Abbreviation resolve := (dwarf_cfi_resolve m mmu_config w kernel_page_table unpaged_hhdm memmap_last_paddr).

(** The registers of the caller: true when the frame address is known and every
    saved register can be read; then each register is what the stack holds for
    it or what it was, and the stack pointer, if it was not saved, is the frame
    address.  Only the registers change. *)
Theorem dwarf_cfi_resolve_correct s :
  memory_ok -> cfi_ok s ->
  returns (resolve s) (fun '(ok, s') =>
    s' = set_regs s (regs s') /\ length (regs s') = 32%nat /\
    (ok = true -> exists ru base, rules s !! Z.to_nat (depth s) = Some ru /\ kind (cfa ru) = CFI_OFFSET /\
       regs s !! Z.to_nat (reg_num (cfa ru)) = Some base /\
       let c := u64 (base + u64 (offset (cfa ru))) in
       restored (rregs ru) c 0 (<[Z.to_nat ARCH_DWARF_SP_REG := c]> (regs s)) (regs s'))).
Proof using cfg_ok LO.
  intros HM [H1 H2 H3 H4 H5 H6]. unfold dwarf_cfi_resolve, CFI_STACK_DEPTH_MAX in *.
  destruct (lookup_lt_is_Some_2 (rules s) (Z.to_nat (depth s))) as [ru Hru]; [lia|]. rewrite (index_found _ _ ru), bind_Ok by (done || lia).
  destruct (Forall_lookup_1 _ _ _ _ H1 Hru) as [Hlen Hreg]. unfold DWARF_MAX_REGS in Hreg. destruct s as [bl rus rs rc dp sg]; cbn [rules regs depth ra_col] in *.
  destruct (bool_decide (kind (cfa ru) = CFI_OFFSET)) eqn:Ek; cbn [negb]; [|by apply returns_Ok]. apply bool_decide_eq_true in Ek.
  destruct (lookup_lt_is_Some_2 rs (Z.to_nat (reg_num (cfa ru)))) as [base Hb]; [lia|]. rewrite (index_found _ _ base), bind_Ok by (done || lia).
  pose proof sp_range as Hsp. unfold DWARF_MAX_REGS in Hsp. eapply returns_bind; [apply index_set_returns; lia|]. intros rs1 ->.
  eapply returns_bind; [apply (resolve_loop_ok ru _ HM Hlen); [lia|done|by rewrite length_insert]|]. intros [ok rs'] [Hl' Hres]. apply returns_Ok.
  split; [done|]. split; [done|]. intros ->. exists ru, base. split; [done|]. split; [done|]. split; [done|]. by apply Hres.
Qed.

Section Loops.
Context (kernel_elf_file kernel_elf_size kernel_virtual_base slide : Z).
Hypothesis slide_known : elf_introspect_kaslr_slide m kernel_elf_file kernel_virtual_base = Ok slide.

(** What a printed line shows: the symbol of its address, and names of files
    that end inside the line table. *)
Definition line_sound (debug_line : list Z) (symtab symtab_size strtab strtab_size : Z) (l : trace_line) : Prop :=
  symbol_for_pc m symtab symtab_size strtab strtab_size (t_pc l) = Ok (t_symbol l) /\ if_some (result_ok debug_line) (t_line l).

(** The sections as they lie in memory. *)
Record sections_ok (debug_frame debug_line : list Z) (symtab symtab_size strtab strtab_size : Z) : Prop := {
  sec_frame : bytes_ok debug_frame /\ Z.of_nat (length debug_frame) < 2 ^ 63;
  sec_line : bytes_ok debug_line /\ Z.of_nat (length debug_line) < 2 ^ 32;
  sec_symtab : 0 < symtab /\ 0 <= symtab_size /\ mapped m symtab symtab_size;
  sec_strtab : 0 < strtab /\ is_u64 strtab_size /\ mapped m strtab strtab_size;
}.

Abbreviation loop := (trace_loop m mmu_config w kernel_page_table unpaged_hhdm memmap_last_paddr kernel_elf_file kernel_virtual_base).

Lemma trace_loop_ok df dl sy sn st tn : memory_ok -> sections_ok df dl sy sn st tn -> forall n s pc,
  length (regs s) = 32%nat -> length (rregs (cfi_baseline s)) = 32%nat ->
  nofault (loop df dl sy sn st tn n s pc) (fun ls =>
    (length ls <= n)%nat /\ Forall (line_sound dl sy sn st tn) ls /\
    (n <> O -> option_map t_pc (head ls) = Some (u64 (u64 (pc - (if is_signal_frame s then 0 else 1)) - slide)))).
Proof using cfg_ok LO slide_known.
  intros HM [[F1 F2] [L1 L2] (Y1 & Y2 & Y3) (T1 & T2 & T3)]. induction n as [|n IH]; intros s pc Hr Hb; cbn [trace_loop]; [by apply nofault_Ok|].
  unfold kaslr_rt2lt at 1. rewrite slide_known, !bind_Ok. set (pc_lt := u64 (u64 (pc - _) - slide)).
  destruct (symbol_for_pc_ok m sy sn st tn pc_lt) as (sym & Es & _); [apply HM|done..|apply u64_range|done|done|]. rewrite Es, bind_Ok.
  destruct (dwarf_line_for_pc_safe dl L1 L2 (Z.of_nat (length dl)) pc_lt) as (ln & El & Hln); [lia|]. rewrite El, bind_Ok.
  assert (line_sound dl sy sn st tn (TraceLine pc_lt sym ln)) as Hout by by split.
  assert (forall rest, (length rest <= n)%nat -> Forall (line_sound dl sy sn st tn) rest ->
    nofault (Ok (TraceLine pc_lt sym ln :: rest)) (fun ls => (length ls <= S n)%nat /\ Forall (line_sound dl sy sn st tn) ls /\ (S n <> O -> option_map t_pc (head ls) = Some pc_lt))) as Hend.
  { intros rest H1 H2. apply nofault_Ok. split; [cbn; lia|]. split; [by constructor|done]. }
  eapply nofault_bind; [apply (dwarf_cfi_safe df F1 F2 (Z.of_nat (length df)) pc_lt s); [lia|done|done]|]. intros [s1|] Hs1; [|by apply Hend; [apply Nat.le_0_l|constructor]].
  cbn [if_some] in Hs1. pose proof Hs1 as [S1 S2 S3 S4 S5 S6]. destruct (dwarf_cfi_resolve_correct s1 HM Hs1) as ([ok s2] & -> & E2 & Hl2 & _). rewrite bind_Ok.
  destruct ok; cbn [negb]; [|by apply Hend; [apply Nat.le_0_l|constructor]]. rewrite Z.geb_leb. destruct (Z.leb_spec DWARF_MAX_REGS (ra_col s2)) as [|Hra]; [by apply Hend; [apply Nat.le_0_l|constructor]|].
  assert (ra_col s2 = ra_col s1 /\ cfi_baseline s2 = cfi_baseline s1) as [R2 B2] by (by rewrite E2).
  unfold DWARF_MAX_REGS in Hra. eapply nofault_bind; [apply returns_nofault, (index_returns _ _ (fun _ => True)); [lia|by apply Forall_true]|]. intros pc' _.
  destruct (pc' =? 0); [by apply Hend; [apply Nat.le_0_l|constructor]|]. eapply nofault_bind; [apply IH; [done|by rewrite B2]|]. intros rest (H1 & H2 & _). by apply Hend.
Qed.

Lemma section_bytes_ok n : forall p, byte_mem m -> mapped m p (Z.of_nat n) -> returns (section_bytes m n p) (fun bs => bytes_ok bs /\ length bs = n).
Proof using Type.
  induction n as [|n IH]; intros p HB HM; cbn [section_bytes]; [apply returns_Ok; split; [constructor|done]|].
  destruct (HM p) as [b Hb]; [lia|]. rewrite (load_Ok _ _ _ Hb), bind_Ok. destruct (IH (p + 1) HB) as (bs & -> & H1 & H2); [intros a Ha; apply HM; lia|].
  rewrite bind_Ok. apply returns_Ok. split; [constructor; [by eapply HB|done]|cbn; lia].
Qed.

(** A name leads to no section, or to one in memory of less than 4 GiB. *)
Definition section_ok (r : Z * option Z) : Prop :=
  r.1 = 0 \/ 0 < r.1 /\ exists n, r.2 = Some n /\ 0 <= n < 2 ^ 32 /\ mapped m r.1 n.

Context (as_char : Z -> Z) (n_debug_frame n_debug_line n_symtab n_strtab : Z).
Abbreviation find := (introspect m kernel_elf_file kernel_elf_size kernel_virtual_base as_char).

(** C24: A stack trace never makes things worse: whatever the registers, the stack,
    the frame and line tables and the symbols hold, it ends, reads no memory
    that is not there and indexes no register out of range; it prints at most
    eight lines, the first one for the instruction that failed, each with the
    symbol of its address and with names that end inside their tables.  The only
    way not to return is the trap on an overflow of a register offset. *)
Theorem dwarf_stack_trace_safe s frame :
  memory_ok -> length (regs s) = 32%nat -> length (rregs (cfi_baseline s)) = 32%nat -> frame_ok frame ->
  Forall (fun name => returns (find name) section_ok) [n_debug_frame; n_debug_line; n_symtab; n_strtab] ->
  nofault (dwarf_stack_trace m mmu_config w kernel_page_table unpaged_hhdm memmap_last_paddr
             kernel_elf_file kernel_elf_size kernel_virtual_base as_char n_debug_frame n_debug_line n_symtab n_strtab s frame) (fun ls =>
    ls = [] \/
    (length ls <= 8)%nat /\ option_map t_pc (head ls) = Some (u64 (u64 (arch_cfi_initial_pc frame) - slide)) /\
    exists dl sy sn st tn, find n_symtab = Ok (sy, Some sn) /\ find n_strtab = Ok (st, Some tn) /\ Forall (line_sound dl sy sn st tn) ls).
Proof using cfg_ok LO slide_known.
  intros HM Hr Hb Hf HF. unfold dwarf_stack_trace. apply Forall_cons in HF as [([df fn] & Ef & Sf) HF]. apply Forall_cons in HF as [([dl ln] & El & Sl) HF].
  apply Forall_cons in HF as [([sy sn] & Es & Ss) HF]. apply Forall_cons in HF as [([st tn] & Et & St) _]. rewrite Ef, bind_Ok, El, bind_Ok, Es, bind_Ok, Et, bind_Ok.
  destruct (_ || _) eqn:E0; [by apply nofault_Ok; left|]. unfold section_ok in *. cbn [fst snd] in *.
  apply orb_false_elim in E0 as [[[N1 N2]%orb_false_elim N3]%orb_false_elim N4]. apply Z.eqb_neq in N1, N2, N3, N4.
  destruct Sf as [|(P1 & n1 & -> & R1 & M1)]; [done|]. destruct Sl as [|(P2 & n2 & -> & R2 & M2)]; [done|].
  destruct Ss as [|(P3 & n3 & -> & R3 & M3)]; [done|]. destruct St as [|(P4 & n4 & -> & R4 & M4)]; [done|]. cbn [from_option id].
  eapply nofault_bind; [apply returns_nofault, (seed_ok _ _ Hr Hf)|]. intros rs Hrs.
  destruct (section_bytes_ok (Z.to_nat n1) df (mem_bytes HM)) as (fb & E1 & B1 & L1); [by rewrite Z2Nat.id by lia|]. rewrite E1, bind_Ok.
  destruct (section_bytes_ok (Z.to_nat n2) dl (mem_bytes HM)) as (lb & E2 & B2 & L2); [by rewrite Z2Nat.id by lia|]. rewrite E2, bind_Ok.
  eapply nofault_mono; [apply (trace_loop_ok fb lb sy n3 st n4 HM); [|done|done]|].
  { split; [split; [done|lia]|split; [done|lia]|split_and!; [done|lia|done]|split_and!; [done|unfold is_u64; lia|done]]. }
  intros ls (H1 & H2 & H3). right. split; [done|]. cbn [is_signal_frame] in H3. rewrite Z.sub_0_r in H3. split; [by apply H3|]. by exists lb, sy, n3, st, n4.
Qed.
End Loops.
End TraceProofs.

(** ** A trace on loongarch64

    Physical memory, seen through the direct map, holds a stack with two return
    addresses and a kernel file linked at 0 and loaded at 0x10000: frames for
    [0x1000, 0x1010), the line table of [DwarfLineSpec] and the symbol main. *)
Module TraceDemo.
#[export] Instance config : kconfig := {| hhdm_offset := 0x9000000000000000; PAGE_SIZE_SHIFT := 14 |}.
#[export] Instance config_ok : kconfig_ok config.
Proof. split; cbn; lia. Qed.
#[export] Instance paging : PagingArch := Loongarch64.arch Loongarch64.CONFIG_LA64_PAGESIZE_16KB.

Definition stack : list Z := le_bytes 8 0 ++ le_bytes 8 0x11003 ++ le_bytes 8 0 ++ le_bytes 8 0.
(** Register 3 is the stack pointer, 1 the return address. *)
Definition frames : list Z :=
  [16; 0; 0; 0; 255; 255; 255; 255; 4; 0; 8; 0; 1; 0x78; 1; 0x0c; 3; 8; 0x81; 1] ++
  [23; 0; 0; 0; 0; 0; 0; 0; 0; 0x10; 0; 0; 0; 0; 0; 0; 0x10; 0; 0; 0; 0; 0; 0; 0; 0x41; 0x0e; 16].
Definition syms : list Z := SymDemo.entry 0 2 1 0x1000 0x20.
Definition strs : list Z := [109; 97; 105; 110; 0].
(** ".debug_frame", ".debug_line", ".symtab", ".strtab". *)
Definition names : list Z :=
  [46; 100; 101; 98; 117; 103; 95; 102; 114; 97; 109; 101; 0; 46; 100; 101; 98; 117; 103; 95; 108; 105; 110; 101; 0] ++
  [46; 115; 121; 109; 116; 97; 98; 0; 46; 115; 116; 114; 116; 97; 98; 0].

Definition section_header (nm off size : Z) : list Z :=
  le_bytes 4 nm ++ le_bytes 4 1 ++ le_bytes 8 0 ++ le_bytes 8 0 ++ le_bytes 8 off ++ le_bytes 8 size ++ replicate 24 0.
Definition size (l : list Z) : Z := Z.of_nat (length l).
(** Behind the header, one program header and five section headers. *)
Definition data : Z := 64 + 56 + 5 * 64.
Definition file : list Z :=
  replicate 32 0 ++ le_bytes 8 64 ++ le_bytes 8 120 ++ replicate 8 0 ++ le_bytes 2 1 ++ replicate 2 0 ++ le_bytes 2 5 ++ le_bytes 2 4 ++
  le_bytes 4 1 ++ replicate 52 0 ++
  section_header 0 data (size frames) ++
  section_header 13 (data + size frames) (size demo_line) ++
  section_header 25 (data + size frames + size demo_line) (size syms) ++
  section_header 33 (data + size frames + size demo_line + size syms) (size strs) ++
  section_header 0 (data + size frames + size demo_line + size syms + size strs) (size names) ++
  frames ++ demo_line ++ syms ++ strs ++ names.

Definition ram : list Z := stack ++ file.
Definition m : bytes := SymDemo.place 0x9000000000000000 ram ∅.
Definition elf : Z := 0x9000000000000020.
Definition name_at (i : Z) : Z := elf + data + size frames + size demo_line + size syms + size strs + i.

Definition frame : Loongarch.frame := Loongarch.Frame (<[3%nat := 0x9000000000000000]> (replicate 32 0)) 0x11004.

Definition trace : res (list trace_line) :=
  dwarf_stack_trace (L := Loongarch.loader) m 0 ∅ 0 true (size ram) elf (size file) 0x10000 s8
    (name_at 0) (name_at 13) (name_at 25) (name_at 33) demo_state frame.
End TraceDemo.

Lemma dwarf_stack_trace_safe_witness :
  match TraceDemo.trace with Ok ls => map t_pc ls = [0x1004; 0x1002] | _ => False end /\
  nofault TraceDemo.trace (fun ls => (length ls <= 8)%nat).
Proof.
  split; [by vm_compute|].
  assert (mapped TraceDemo.m 0x9000000000000000 (TraceDemo.size TraceDemo.ram)) as HM by apply SymDemo.place_mapped.
  assert (Forall is_byte TraceDemo.ram) as HB by (repeat (apply Forall_cons; split; [by vm_compute|]); constructor).
  eapply nofault_mono.
  - apply (dwarf_stack_trace_safe (cfg := TraceDemo.config) (cfg_ok := TraceDemo.config_ok) (L := Loongarch.loader) (LO := Loongarch.loader_ok) TraceDemo.m 0 ∅ 0 true
      (TraceDemo.size TraceDemo.ram) (fun f => length (Loongarch.x f) = 32%nat) TraceDemo.elf (TraceDemo.size TraceDemo.file) 0x10000 0x10000).
    + by vm_compute.
    + split; [by apply SymDemo.place_bytes|intros _; split; [cbn; lia|exact HM]|done].
    + reflexivity.
    + reflexivity.
    + reflexivity.
    + repeat constructor; eexists; (split; [vm_compute; reflexivity|]); right; (split; [cbn; lia|]); eexists; (split; [reflexivity|]); (split; [lia|]); intros a Ha; apply HM; revert Ha; cbn [fst];
        (change (TraceDemo.size TraceDemo.ram) with 642); lia.
  - intros ls [-> |[Hl _]]; [cbn; lia|exact Hl].
Defined.
