(* ===== verification/PagingInit.v ===== *)
(** * Boot: utils/limine.c, arch/generic/paging/paging.c and mem/pfndb.c

    The kernel's first page table: the direct map of all reported memory with
    the largest pages that fit, the kernel image with the protections of its
    ELF segments, then the page frame database in the larger gap of the
    higher half. *)

From S2P Require Import Prelude CString Memmap Pfndb PagingArch Elf Paging.
#[local] Open Scope Z_scope.

Definition sizeof_page_t : Z := 8.

(** Entries the kernel does not map. *)
Definition unmapped_type (t : memmap_type) : bool :=
  bool_decide (t = LIMINE_MEMMAP_RESERVED) || bool_decide (t = LIMINE_MEMMAP_BAD_MEMORY).

Section Boot.
Context `{cfg : kconfig} `{A : PagingArch}.

(** The responses of the boot loader: the memory map, the kernel's load
    addresses and file; [m] is the memory the file is read from. *)
Context (entries : list memmap_entry).
Context (kernel_virtual_base kernel_physical_base : Z).
Context (m : bytes) (kernel_elf_file : Z).

(** [ARCH_SEPARATE_PAGING_ROOTS] and [ARCH_UNPAGED_HHDM] (loongarch64). *)
Context (separate_roots unpaged_hhdm : bool).
Context (mmu_config : Z).

(** ** limine.c *)
Fixpoint memmap_end_loop (es : list memmap_entry) (memmap_end : Z) : Z :=
  match es with
  | [] => memmap_end
  | e :: es =>
      if unmapped_type (mtype e) then memmap_end_loop es memmap_end
      else
        let entry_end := u64 (base e + length_ e) in
        memmap_end_loop es (if entry_end >? memmap_end then entry_end else memmap_end)
  end.

(** What [limine_save_requests] computes; the rest of it copies pointers. *)
Definition memmap_last_paddr : Z := ALIGN_UP (memmap_end_loop entries 0) PAGE_SIZE.

(** ** paging.c *)

(** The higher half's top-level entries, so that all roots share them. *)
Fixpoint preallocate (n : nat) (s : early_state) (kernel_page_table i : Z) : res early_state :=
  match n with
  | O => Ok s
  | S n =>
      '(_, s) ← get_next_level_and_bump_allocate entries s (u64 (kernel_page_table + i * 8)) PAGE_KRWX;
      preallocate n s kernel_page_table (i + 1)
  end.

(** The direct map of one entry; at least a page per turn. *)
Fixpoint hhdm_loop (fuel : nat) (s : early_state) (kernel_page_table addr end_ flags : Z) : res early_state :=
  match fuel with
  | O => NoFuel
  | S fuel =>
      if addr <? end_ then
        if has mmu_config MMU_CONFIG_L3_LEAF && (u64 (addr + PAGE_SIZE_GIANT) <=? end_) && IS_ALIGNED addr PAGE_SIZE_GIANT then
          s ← paging_early_map_page mmu_config entries s kernel_page_table (TO_HHDM addr) addr (Z.lor flags PAGE_GIANT);
          hhdm_loop fuel s kernel_page_table (u64 (addr + PAGE_SIZE_GIANT)) end_ flags
        else if has mmu_config MMU_CONFIG_L2_LEAF && (u64 (addr + PAGE_SIZE_LARGE) <=? end_) && IS_ALIGNED addr PAGE_SIZE_LARGE then
          s ← paging_early_map_page mmu_config entries s kernel_page_table (TO_HHDM addr) addr (Z.lor flags PAGE_LARGE);
          hhdm_loop fuel s kernel_page_table (u64 (addr + PAGE_SIZE_LARGE)) end_ flags
        else
          s ← paging_early_map_page mmu_config entries s kernel_page_table (TO_HHDM addr) addr flags;
          hhdm_loop fuel s kernel_page_table (u64 (addr + PAGE_SIZE)) end_ flags
      else Ok s
  end.

Fixpoint map_hhdm (es : list memmap_entry) (s : early_state) (kernel_page_table : Z) : res early_state :=
  match es with
  | [] => Ok s
  | e :: es =>
      if unmapped_type (mtype e) then map_hhdm es s kernel_page_table
      else
        let base_ := ALIGN_DOWN (base e) PAGE_SIZE in
        let end_ := ALIGN_UP (u64 (base e + length_ e)) PAGE_SIZE in
        let flags := if bool_decide (mtype e = LIMINE_MEMMAP_FRAMEBUFFER) then PAGE_KRW_WC else PAGE_KRW in
        s ← hhdm_loop (S (Z.to_nat (Z.shiftr (end_ - base_) PAGE_SIZE_SHIFT))) s kernel_page_table base_ end_ flags;
        map_hhdm es s kernel_page_table
  end.

Fixpoint map_image_pages (n : nat) (s : early_state) (kernel_page_table vbase pbase flags p : Z) : res early_state :=
  match n with
  | O => Ok s
  | S n =>
      let vaddr := u64 (vbase + p * PAGE_SIZE) in
      let paddr := u64 (pbase + p * PAGE_SIZE) in
      s ← paging_early_map_page mmu_config entries s kernel_page_table vaddr paddr flags;
      map_image_pages n s kernel_page_table vbase pbase flags (p + 1)
  end.

Definition segment_flags (ph : elf_program_header_64) : Z :=
  let flags := Z.lor PAGE_R PAGE_G in
  let flags := if has (ph_flags ph) ELF_PROG_WRITE then Z.lor flags PAGE_W else flags in
  if has (ph_flags ph) ELF_PROG_EXEC_FLAG then Z.lor flags PAGE_X else flags.

Fixpoint map_image (phs : list elf_program_header_64) (s : early_state) (kernel_page_table elf_base : Z) : res early_state :=
  match phs with
  | [] => Ok s
  | ph :: phs =>
      if negb (ph_type ph =? ELF_PROG_PT_LOAD_TYPE) then map_image phs s kernel_page_table elf_base
      else
        let pages := ALIGN_UP (ph_mem_size ph) PAGE_SIZE / PAGE_SIZE in
        let vbase := u64 (ph_virt_addr ph + kernel_virtual_base - elf_base) in
        let pbase := u64 (kernel_physical_base + ph_virt_addr ph - elf_base) in
        s ← map_image_pages (Z.to_nat pages) s kernel_page_table vbase pbase (segment_flags ph) 0;
        map_image phs s kernel_page_table elf_base
  end.

(** Returns the root that is loaded into the MMU at the end. *)
Definition paging_init (s : early_state) : res (Z * early_state) :=
  _ ← (if bool_decide (top_level mmu_config ∈ [3; 4; 5]) then Ok tt else Fault);
  _ ← (if bool_decide (PAGE_SIZE ∈ [4096; 16384; 65536]) then Ok tt else Fault);
  '(kernel_page_table, s) ← bump_alloc entries s;
  s ← (if separate_roots then Ok s else preallocate 256 s kernel_page_table 256);
  s ← (if unpaged_hhdm then Ok s else map_hhdm entries s kernel_page_table);
  phs ← program_headers m kernel_elf_file;
  elf_base ← elf_introspect_base m kernel_elf_file;
  s ← map_image phs s kernel_page_table elf_base;
  Ok (kernel_page_table, s).

(** ** pfndb.c *)

(** Where the database goes, and its size. *)
Definition pfndb_place (VADDR_HIGHER_HALF_BASE : Z) : res (Z * Z) :=
  let last_paddr := memmap_last_paddr in
  let pfndb_size := ALIGN_UP (u64 (sizeof_page_t * Z.shiftr last_paddr PAGE_SIZE_SHIFT)) PAGE_SIZE in
  let vbase := kernel_virtual_base in
  if negb unpaged_hhdm then
    let hhdm_base := hhdm_offset in
    let hhdm_top := u64 (last_paddr + hhdm_base) in
    _ ← assert ((hhdm_base >=? VADDR_HIGHER_HALF_BASE) && (vbase >? hhdm_top));
    let candidateA := u64 (hhdm_base - VADDR_HIGHER_HALF_BASE) in
    let candidateB := u64 (vbase - hhdm_top) in
    if candidateA >? candidateB then
      _ ← assert (candidateA >=? pfndb_size);
      Ok (VADDR_HIGHER_HALF_BASE, pfndb_size)
    else
      _ ← assert (candidateB >=? pfndb_size);
      Ok (hhdm_top, pfndb_size)
  else
    _ ← assert (u64 (VADDR_HIGHER_HALF_BASE + pfndb_size) <=? vbase);
    Ok (VADDR_HIGHER_HALF_BASE, pfndb_size).

(** The frames whose entries lie in the page at [vaddr] become zeroed. *)
Definition zero_frames (db : pfndb) (pfndb_base vaddr : Z) : pfndb :=
  let first := (vaddr - pfndb_base) / sizeof_page_t in
  foldr (fun i db => <[first + Z.of_nat i := Page PFNDB_PAGE_INVALID 0 0 0]> db) db
    (seq 0 (Z.to_nat (PAGE_SIZE / sizeof_page_t))).

Fixpoint pfndb_pages (fuel : nat) (s : early_state) (db : pfndb) (e : memmap_entry)
    (kernel_page_table pfndb_base vaddr meta_last last_mapped : Z) : res (early_state * pfndb * Z) :=
  match fuel with
  | O => NoFuel
  | S fuel =>
      if vaddr <=? meta_last then
        let next := u64 (vaddr + PAGE_SIZE) in
        if length_ e =? 0 then pfndb_pages fuel s db e kernel_page_table pfndb_base next meta_last last_mapped
        else if vaddr <? last_mapped then pfndb_pages fuel s db e kernel_page_table pfndb_base next meta_last last_mapped
        else
          '(paddr, s) ← bump_alloc entries s;
          s ← paging_early_map_page mmu_config entries s kernel_page_table vaddr paddr PAGE_KRW;
          pfndb_pages fuel s (zero_frames db pfndb_base vaddr) e kernel_page_table pfndb_base next meta_last next
      else Ok (s, db, last_mapped)
  end.

Fixpoint pfndb_entries (es : list memmap_entry) (s : early_state) (db : pfndb)
    (kernel_page_table pfndb_base last_mapped : Z) : res (early_state * pfndb) :=
  match es with
  | [] => Ok (s, db)
  | e :: es =>
      if unmapped_type (mtype e) then pfndb_entries es s db kernel_page_table pfndb_base last_mapped
      else
        let start_frame := Z.shiftr (base e) PAGE_SIZE_SHIFT in
        let end_frame := Z.shiftr (u64 (base e + length_ e + PAGE_SIZE - 1)) PAGE_SIZE_SHIFT in
        let meta_first := u64 (pfndb_base + ALIGN_DOWN (u64 (start_frame * sizeof_page_t)) PAGE_SIZE) in
        let meta_last := u64 (pfndb_base + ALIGN_DOWN (u64 (end_frame * sizeof_page_t - 1)) PAGE_SIZE) in
        '(s, db, last_mapped) ←
          pfndb_pages (S (S (Z.to_nat (Z.shiftr (meta_last - meta_first) PAGE_SIZE_SHIFT)))) s db e
            kernel_page_table pfndb_base meta_first meta_last last_mapped;
        pfndb_entries es s db kernel_page_table pfndb_base last_mapped
  end.

Definition pfndb_init (s : early_state) (kernel_page_table VADDR_HIGHER_HALF_BASE : Z)
    : res (Z * Z * early_state * pfndb) :=
  '(pfndb_base, pfndb_size) ← pfndb_place VADDR_HIGHER_HALF_BASE;
  '(s, db) ← pfndb_entries entries s ∅ kernel_page_table pfndb_base 0;
  Ok (pfndb_base, pfndb_size, s, db).
End Boot.
