(* ===== verification/PagingRep.v ===== *)
(** * What a tree of page tables represents

    The ghost map [P] names the tables of one address space: [P !! (l, n)] is
    the page of the table of level [l] that translates the addresses [va] with
    [va / 2 ^ shift (l + 1) = n].  [twf] ties the words of memory to it, [xlate]
    is the translation they stand for, and the lemmas below say what writing
    one entry, hanging a table below an entry and taking an empty table off
    do to both. *)

From S2P Require Import Prelude PagingArch Paging.
#[local] Open Scope Z_scope.

(** ** How many of a list have a property *)
Definition tally (f : Z -> bool) (xs : list Z) : Z := foldr (fun i s => Z.b2z (f i) + s) 0 xs.

Lemma tally_cons f x xs : tally f (x :: xs) = Z.b2z (f x) + tally f xs.
Proof. done. Qed.

Lemma tally_ext f g xs : (forall i, i ∈ xs -> f i = g i) -> tally f xs = tally g xs.
Proof.
  induction xs as [|x xs IH]; [done|]. intros H. rewrite !tally_cons, (H x) by (by left). f_equal. apply IH. intros i Hi. apply H. by right.
Qed.

Lemma tally_bound f xs : 0 <= tally f xs <= Z.of_nat (length xs).
Proof. induction xs as [|x xs IH]; [done|]. rewrite tally_cons. cbn [length]. destruct (f x); cbn [Z.b2z]; lia. Qed.

Lemma tally_all f xs : (forall i, i ∈ xs -> f i = true) -> tally f xs = Z.of_nat (length xs).
Proof. induction xs as [|x xs IH]; [done|]. intros H. rewrite tally_cons, (H x), IH; [cbn [length Z.b2z]; lia|intros; apply H; by right|by left]. Qed.

Lemma tally_none f xs : (forall i, i ∈ xs -> f i = false) -> tally f xs = 0.
Proof. induction xs as [|x xs IH]; [done|]. intros H. rewrite tally_cons, (H x), IH; [done|intros; apply H; by right|by left]. Qed.

Lemma tally_zero f xs i : tally f xs = 0 -> i ∈ xs -> f i = false.
Proof.
  induction xs as [|x xs IH]; [by intros _ ?%not_elem_of_nil|]. rewrite tally_cons. pose proof (tally_bound f xs). intros H0 [->|Hi]%elem_of_cons.
  - destruct (f x); [cbn [Z.b2z] in H0; lia|done].
  - apply IH; [|done]. destruct (f x); cbn [Z.b2z] in H0; lia.
Qed.

(** Only the value at [i] changes. *)
Lemma tally_change f g xs i :
  NoDup xs -> i ∈ xs -> (forall j, j ∈ xs -> j <> i -> f j = g j) -> tally f xs - Z.b2z (f i) = tally g xs - Z.b2z (g i).
Proof.
  intros Hn Hi H. induction xs as [|x xs IH]; [by apply not_elem_of_nil in Hi|]. apply NoDup_cons in Hn as [Hx Hn]. rewrite !tally_cons.
  destruct (decide (x = i)) as [->|Hne].
  - rewrite (tally_ext f g xs); [lia|]. intros j Hj. apply H; [by right|by intros ->].
  - apply elem_of_cons in Hi as [->|Hi]; [done|]. rewrite (H x) by (done || by left).
    specialize (IH Hn Hi (fun j Hj => H j ltac:(by right))). lia.
Qed.

Abbreviation table_map := (gmap (Z * Z) Z).

Section Rep.
Context {cfg : kconfig} {cfg_ok : kconfig_ok cfg} {A : PagingArch} {L : PagingLaws A}.
Context (mmu_config : Z).
(** The root's entries that belong to the address space; a user space shares
    the others with the kernel. *)
Context (own : Z -> bool).

Abbreviation top := (top_level mmu_config).

Class geometry : Prop := {
  top_range : 2 <= top;
  space_fits : PAGING_ENTRY_SHIFT (top + 1) <= 64;
}.
Context {G : geometry}.

(** ** Geometry *)
Definition sz (l : Z) : Z := 2 ^ PAGING_ENTRY_SHIFT l.
Definition entries : Z := 2 ^ PAGE_INDEX_BITS.
Definition space : Z := sz (top + 1).
(** The number of the entry of level [l] that translates [va], among all of
    that level; its table, and its index there. *)
Definition num (l va : Z) : Z := va / sz l.
Definition idx (l va : Z) : Z := num l va mod entries.

Lemma bits_range : 9 <= PAGE_INDEX_BITS <= 13.
Proof using L. apply pl_bits. Qed.

Lemma entries_pos : 0 < entries.
Proof using L. pose proof bits_range. unfold entries. lia. Qed.

Lemma entries_bound : 512 <= entries <= 8192.
Proof using L.
  pose proof bits_range. unfold entries. change 512 with (2 ^ 9). change 8192 with (2 ^ 13). split; apply Z.pow_le_mono_r; lia.
Qed.

Lemma PAGING_TABLE_ENTRIES_eq : PAGING_TABLE_ENTRIES = entries.
Proof using L. unfold PAGING_TABLE_ENTRIES, entries. rewrite (pl_mask). lia. Qed.

Lemma shift_pos l : 1 <= l -> 12 <= PAGING_ENTRY_SHIFT l.
Proof using cfg_ok L. pose proof shift_range. pose proof bits_range. unfold PAGING_ENTRY_SHIFT. nia. Qed.

Lemma shift_le l k : 1 <= l <= k -> PAGING_ENTRY_SHIFT l <= PAGING_ENTRY_SHIFT k.
Proof using L. pose proof bits_range. unfold PAGING_ENTRY_SHIFT. nia. Qed.

Lemma shift_level l : 1 <= l <= top -> 12 <= PAGING_ENTRY_SHIFT l < 64.
Proof using cfg_ok L G.
  intros Hl. pose proof space_fits. pose proof bits_range. split; [apply shift_pos; lia|]. unfold PAGING_ENTRY_SHIFT in *. nia.
Qed.

Lemma sz_pos l : 1 <= l -> 0 < sz l.
Proof using cfg_ok L. intros Hl. pose proof (shift_pos l Hl). unfold sz. lia. Qed.

Lemma sz_succ l : 1 <= l -> sz (l + 1) = sz l * entries.
Proof using cfg_ok L.
  intros Hl. pose proof (shift_pos l Hl). pose proof bits_range. unfold sz, entries. rewrite <- Z.pow_add_r by lia. f_equal.
  unfold PAGING_ENTRY_SHIFT. lia.
Qed.

Lemma sz_1 : sz 1 = PAGE_SIZE.
Proof using cfg_ok. rewrite PAGE_SIZE_eq. unfold sz, PAGING_ENTRY_SHIFT. f_equal. lia. Qed.

Lemma sz_page : PAGE_SIZE = 8 * entries.
Proof using cfg_ok L.
  pose proof bits_range. rewrite PAGE_SIZE_eq, pl_table. unfold entries. rewrite Z.pow_add_r by lia. lia.
Qed.

Lemma PAGING_ENTRY_SIZE_eq l : 1 <= l <= top -> PAGING_ENTRY_SIZE l = sz l.
Proof using cfg_ok L G.
  intros Hl. pose proof (shift_level l Hl). unfold PAGING_ENTRY_SIZE, shl64, sz. rewrite Z.shiftl_1_l. apply u64_small.
  split; [lia|]. apply Z.pow_lt_mono_r; lia.
Qed.

Lemma PAGING_INDEX_eq va l : 1 <= l -> PAGING_INDEX va l = idx l va.
Proof using cfg_ok L.
  intros Hl. pose proof (shift_pos l Hl). pose proof bits_range. unfold PAGING_INDEX, idx, num, sz, entries.
  rewrite pl_mask, land_low, Z.shiftr_div_pow2 by lia. done.
Qed.

Lemma idx_range l va : 0 <= idx l va < entries.
Proof using L. apply Z.mod_pos_bound, entries_pos. Qed.

Lemma num_up l va : 1 <= l -> num (l + 1) va = num l va / entries.
Proof using cfg_ok L.
  intros Hl. pose proof (sz_pos l Hl). pose proof entries_pos. unfold num. by rewrite sz_succ, Z.div_div by lia.
Qed.

Lemma num_split l va : 1 <= l -> num l va = num (l + 1) va * entries + idx l va.
Proof using cfg_ok L.
  intros Hl. pose proof entries_pos. rewrite num_up by done. unfold idx. pose proof (Z.div_mod (num l va) entries). lia.
Qed.

(** Entry [i] of table [n] is the one that translates [va]. *)
Lemma num_eq l va n i : 1 <= l -> 0 <= i < entries -> num l va = n * entries + i <-> num (l + 1) va = n /\ idx l va = i.
Proof using cfg_ok L.
  intros Hl Hi. pose proof entries_pos. pose proof (num_split l va Hl). pose proof (idx_range l va). split; [|intros [<- <-]; done].
  intros E. rewrite num_up, E by done. unfold idx. rewrite E.
  rewrite Z.div_add_l, Z.div_small, Z.add_0_r by lia. split; [done|]. rewrite Z.add_comm, Z.mod_add, Z.mod_small by lia. done.
Qed.

(** The addresses one entry translates. *)
Lemma num_range l va k : 1 <= l -> num l va = k <-> k * sz l <= va < (k + 1) * sz l.
Proof using cfg_ok L.
  intros Hl. pose proof (sz_pos l Hl). unfold num. split.
  - intros <-. pose proof (Z.div_mod va (sz l)). pose proof (Z.mod_pos_bound va (sz l)). lia.
  - intros Hv. symmetry. apply Z.div_unique with (va - k * sz l); lia.
Qed.

Lemma sz_divide l k : 1 <= l <= k -> (sz l | sz k).
Proof using cfg_ok L.
  intros H. pose proof (shift_pos l ltac:(lia)). pose proof (shift_le l k H). exists (2 ^ (PAGING_ENTRY_SHIFT k - PAGING_ENTRY_SHIFT l)).
  unfold sz. rewrite <- Z.pow_add_r by lia. f_equal. lia.
Qed.

Lemma sz_64 l : 1 <= l <= top + 1 -> (sz l | 2 ^ 64).
Proof using cfg_ok L G.
  intros H. pose proof (shift_pos l ltac:(lia)). pose proof space_fits. pose proof (shift_le l (top + 1) H).
  exists (2 ^ (64 - PAGING_ENTRY_SHIFT l)). unfold sz. rewrite <- Z.pow_add_r by lia. f_equal. lia.
Qed.

(** Only the low bits of an address are translated. *)
Lemma idx_mod l va : 1 <= l <= top -> idx l (va mod space) = idx l va.
Proof using cfg_ok L G.
  intros Hl. pose proof (sz_pos l ltac:(lia)). pose proof entries_pos. unfold idx, num, space.
  destruct (sz_divide (l + 1) (top + 1) ltac:(lia)) as [q Hq]. rewrite (sz_succ l) in Hq by lia.
  pose proof (sz_pos (top + 1) ltac:(pose proof top_range; lia)).
  rewrite (Z.div_mod va (sz (top + 1))) at 2 by lia. rewrite Hq.
  replace (q * (sz l * entries) * (va / (q * (sz l * entries))) + va mod (q * (sz l * entries)))
    with (va mod (q * (sz l * entries)) + (q * (va / (q * (sz l * entries))) * entries) * sz l) by lia.
  by rewrite Z.div_add, Z.mod_add by lia.
Qed.

(** ** Tables *)
Definition owned (va : Z) : Prop := 0 <= va < space /\ own (idx top va) = true.
Definition own_at (l i : Z) : bool := (l <? top) || own i.
Definition level_ok (l : Z) : Prop := l = 1 \/ 2 <= l <= 3.

(** A leaf entry this code wrote. *)
Definition leaf_ok (l e : Z) : Prop :=
  exists p attr, phys_ok p /\ (sz l | p) /\ level_ok l /\ e = ARCH_ENCODE_PTE p (leaf_flags mmu_config l attr).

Definition absent (e : Z) : Prop := ARCH_PTE_PRESENT e = false.
Definition is_leaf (l e : Z) : Prop := ARCH_PTE_PRESENT e = true /\ ARCH_PTE_IS_LEAF e l = true /\ leaf_ok l e.
Definition is_table (l e c : Z) : Prop := ARCH_PTE_PRESENT e = true /\ ARCH_PTE_IS_LEAF e l = false /\ 2 <= l /\ ARCH_DECODE_PTE e = c.

Implicit Types (P : table_map) (w : table_words).

(** Entry [k] of level [l] is absent, a leaf, or points to the table below it. *)
Definition entry_wf P (l k e : Z) : Prop :=
  match P !! (l - 1, k) with
  | None => absent e \/ is_leaf l e
  | Some c => is_table l e c
  end.

Record twf w P (root : Z) : Prop := {
  t_root : P !! (top, 0) = Some root;
  t_page : forall l n p, P !! (l, n) = Some p -> 1 <= l <= top /\ 0 <= n < sz (top + 1) / sz (l + 1) /\ phys_ok p /\ p <> 0;
  t_inj : forall a b p, P !! a = Some p -> P !! b = Some p -> a = b;
  t_entry : forall l n p i, P !! (l, n) = Some p -> 0 <= i < entries -> own_at l i = true ->
    exists e, w !! (p + 8 * i) = Some e /\ entry_wf P l (n * entries + i) e;
  t_parent : forall l n p, P !! (l, n) = Some p -> l < top ->
    is_Some (P !! (l + 1, n / entries)) /\ own_at (l + 1) (n mod entries) = true;
}.

Lemma word_inj p q i j :
  (2 ^ PAGE_SIZE_SHIFT | p) -> (2 ^ PAGE_SIZE_SHIFT | q) -> 0 <= i < entries -> 0 <= j < entries ->
  p + 8 * i = q + 8 * j -> p = q /\ i = j.
Proof using cfg_ok L.
  intros [x Hx] [y Hy] Hi Hj E. pose proof sz_page as Hs. rewrite PAGE_SIZE_eq in Hs. rewrite Hs in *. pose proof entries_pos.
  assert (x = y) as -> by nia. lia.
Qed.

Lemma own_at_owned l va : 1 <= l <= top -> owned va -> own_at l (idx l va) = true.
Proof using Type.
  intros Hl [_ Ho]. unfold own_at. destruct (Z.ltb_spec l top); [done|]. assert (l = top) as -> by lia. done.
Qed.

(** Two tables' words meet only if the tables are one. *)
Lemma words_apart w P root l n p l' n' p' i j :
  twf w P root -> P !! (l, n) = Some p -> P !! (l', n') = Some p' -> 0 <= i < entries -> 0 <= j < entries ->
  p + 8 * i = p' + 8 * j -> l = l' /\ n = n' /\ i = j.
Proof using cfg_ok L.
  intros T Hp Hp' Hi Hj E. destruct (t_page _ _ _ T _ _ _ Hp) as (_ & _ & [_ Hd] & _).
  destruct (t_page _ _ _ T _ _ _ Hp') as (_ & _ & [_ Hd'] & _). destruct (word_inj p p' i j Hd Hd' Hi Hj E) as [-> ->].
  pose proof (t_inj _ _ _ T _ _ _ Hp Hp'). by simplify_eq.
Qed.

Lemma entry_at w P root l va p :
  twf w P root -> P !! (l, num (l + 1) va) = Some p -> owned va ->
  exists e, w !! (p + 8 * idx l va) = Some e /\ entry_wf P l (num l va) e.
Proof using cfg_ok L.
  intros T Hp Hv. destruct (t_page _ _ _ T _ _ _ Hp) as (Hl & _).
  destruct (t_entry _ _ _ T _ _ _ (idx l va) Hp (idx_range l va) (own_at_owned l va Hl Hv)) as (e & He & Hw).
  exists e. split; [done|]. by rewrite <- num_split in Hw by lia.
Qed.

Lemma pte_addr p va l : 1 <= l -> phys_ok p -> paging_get_pte p va l = p + 8 * idx l va.
Proof using cfg_ok L.
  intros Hl [Hp Hd]. unfold paging_get_pte. rewrite PAGING_INDEX_eq, Z.mul_comm by done. pose proof (idx_range l va). pose proof entries_bound.
  apply u64_small. unfold is_u64. lia.
Qed.

(** ** Walks *)
Definition walk_at w (l va p : Z) : res (option (Z * Z * Z)) := walk_loop (Z.to_nat l) w p va l.

Lemma walk_unfold w l va p e :
  1 <= l -> phys_ok p -> w !! (p + 8 * idx l va) = Some e ->
  walk_at w l va p =
    if negb (ARCH_PTE_PRESENT e) then Ok None
    else if ARCH_PTE_IS_LEAF e l then Ok (Some (e, l, p + 8 * idx l va))
    else walk_at w (l - 1) va (ARCH_DECODE_PTE e).
Proof using cfg_ok L.
  intros Hl Hp He. unfold walk_at. replace (Z.to_nat l) with (S (Z.to_nat (l - 1))) by lia. cbn [walk_loop].
  rewrite pte_addr by done. by rewrite (load_Ok _ _ _ He), bind_Ok.
Qed.

(** The walk from the root comes to the table of level [l], if there is one. *)
Lemma walk_reach w P root va l p :
  twf w P root -> owned va -> P !! (l, num (l + 1) va) = Some p -> walk_at w top va root = walk_at w l va p.
Proof using cfg_ok L.
  intros T Hv. assert (forall d l p, Z.to_nat (top - l) = d -> P !! (l, num (l + 1) va) = Some p -> walk_at w top va root = walk_at w l va p) as H; [|by eapply H].
  clear l p. induction d as [|d IH]; intros l p Hd Hp; destruct (t_page _ _ _ T _ _ _ Hp) as (Hl & _).
  - assert (l = top) as -> by lia.
    assert (num (top + 1) va = 0) as E by (apply Z.div_small; apply Hv). rewrite E, (t_root _ _ _ T) in Hp. by simplify_eq.
  - destruct (t_parent _ _ _ T _ _ _ Hp ltac:(lia)) as [[q Hq] _]. rewrite <- (num_up (l + 1)) in Hq by lia.
    destruct (t_page _ _ _ T _ _ _ Hq) as (_ & _ & Hqo & _).
    destruct (entry_at _ _ _ _ _ _ T Hq Hv) as (e & He & Hw). unfold entry_wf in Hw. rewrite Z.add_simpl_r, Hp in Hw.
    destruct Hw as (H1 & H2 & _ & H3). rewrite (IH (l + 1) q ltac:(lia) Hq), (walk_unfold _ (l + 1) _ _ _ ltac:(lia) Hqo He), H1, H2, H3, Z.add_simpl_r. done.
Qed.

(** A walk depends on the entries of the tables on its path. *)
Lemma walk_local w w' P root va l p :
  twf w P root -> owned va ->
  (forall l p, P !! (l, num (l + 1) va) = Some p -> w' !! (p + 8 * idx l va) = w !! (p + 8 * idx l va)) ->
  P !! (l, num (l + 1) va) = Some p -> walk_at w' l va p = walk_at w l va p.
Proof using cfg_ok L.
  intros T Hv Hw. assert (forall d l p, Z.to_nat l = d -> P !! (l, num (l + 1) va) = Some p -> walk_at w' l va p = walk_at w l va p) as H; [|by eapply H].
  clear l p. induction d as [|d IH]; intros l p Hd Hp; destruct (t_page _ _ _ T _ _ _ Hp) as (Hl & _ & Hpo & _); [lia|].
  destruct (entry_at _ _ _ _ _ _ T Hp Hv) as (e & He & Hk). pose proof (Hw _ _ Hp) as He'. rewrite He in He'.
  rewrite (walk_unfold _ l _ _ _ ltac:(lia) Hpo He), (walk_unfold _ l _ _ _ ltac:(lia) Hpo He'). unfold entry_wf in Hk.
  destruct (P !! (l - 1, num l va)) as [c|] eqn:Hc.
  - destruct Hk as (-> & -> & _ & ->). cbn [negb]. apply IH; [lia|]. by replace (l - 1 + 1) with l by lia.
  - destruct Hk as [-> |(-> & -> & _)]; done.
Qed.

(** ** The translation *)

(** What a leaf entry of level [l] says of [va]: physical address and protection. *)
Definition decode_leaf (l e : Z) : Z := if l =? 1 then ARCH_DECODE_PTE e else ARCH_DECODE_LARGE_PTE e.
Definition entry_xlate (l va e : Z) : option (Z * Z) :=
  if ARCH_PTE_PRESENT e then Some (decode_leaf l e + va mod sz l, mmu_flags_to_prot e l) else None.

Definition xlate w (root va : Z) : option (Z * Z) :=
  match paging_walk mmu_config w root va with
  | Ok (Some (e, l, _)) => entry_xlate l va e
  | _ => None
  end.

Lemma xlate_local w w' P root va :
  twf w P root -> owned va ->
  (forall l p, P !! (l, num (l + 1) va) = Some p -> w' !! (p + 8 * idx l va) = w !! (p + 8 * idx l va)) ->
  xlate w' root va = xlate w root va.
Proof using cfg_ok L.
  intros T Hv Hw. unfold xlate, paging_walk. change (walk_loop (Z.to_nat top) ?x root va top) with (walk_at x top va root).
  rewrite (walk_local w w' P root va top root T Hv Hw); [done|].
  assert (num (top + 1) va = 0) as -> by (apply Z.div_small; apply Hv). apply T.
Qed.

Lemma xlate_at w P root va l p e :
  twf w P root -> owned va -> P !! (l, num (l + 1) va) = Some p -> w !! (p + 8 * idx l va) = Some e ->
  P !! (l - 1, num l va) = None -> xlate w root va = entry_xlate l va e.
Proof using cfg_ok L.
  intros T Hv Hp He Hn. destruct (t_page _ _ _ T _ _ _ Hp) as (Hl & _ & Hpo & _).
  unfold xlate, paging_walk. change (walk_loop (Z.to_nat top) w root va top) with (walk_at w top va root).
  rewrite (walk_reach _ _ _ _ _ _ T Hv Hp), (walk_unfold _ l _ _ _ ltac:(lia) Hpo He).
  destruct (entry_at _ _ _ _ _ _ T Hp Hv) as (e' & He' & Hk). rewrite He in He'. injection He' as <-.
  unfold entry_wf in Hk. rewrite Hn in Hk.
  destruct Hk as [Ha|(Ha & -> & _)]; unfold entry_xlate; rewrite Ha; cbn [negb]; [done|]. by rewrite Ha.
Qed.

(** ** The words of a page *)
Definition in_page (p a : Z) : Prop := exists i, 0 <= i < entries /\ a = p + 8 * i.

Lemma elem_of_page_words p a : a ∈ page_words p <-> in_page p a.
Proof using cfg_ok L.
  pose proof entries_pos. unfold page_words, in_page. rewrite sz_page, (Z.mul_comm 8), Z.div_mul, list_elem_of_fmap by lia. split.
  - intros (i & -> & Hi%elem_of_seq). exists (Z.of_nat i). lia.
  - intros (i & Hi & ->). exists (Z.to_nat i). rewrite elem_of_seq. lia.
Qed.

Lemma zero_page_in w p a : in_page p a -> zero_page w p !! a = Some 0.
Proof using cfg_ok L.
  rewrite <- elem_of_page_words. unfold zero_page. induction (page_words p) as [|b l IH]; [by intros ?%not_elem_of_nil|].
  intros [->|Ha]%elem_of_cons; cbn; [apply lookup_insert_eq|]. destruct (decide (a = b)) as [->|]; [apply lookup_insert_eq|].
  rewrite lookup_insert_ne by done. auto.
Qed.

Lemma zero_page_out w p a : ~ in_page p a -> zero_page w p !! a = w !! a.
Proof using cfg_ok L.
  rewrite <- elem_of_page_words. unfold zero_page. induction (page_words p) as [|b l IH]; [done|].
  intros [Hne Ha]%not_elem_of_cons. cbn. rewrite lookup_insert_ne by done. auto.
Qed.

Lemma drop_page_out w p a : ~ in_page p a -> drop_page w p !! a = w !! a.
Proof using cfg_ok L.
  rewrite <- elem_of_page_words. unfold drop_page. induction (page_words p) as [|b l IH]; [done|].
  intros [Hne Ha]%not_elem_of_cons. cbn. rewrite lookup_delete_ne by done. auto.
Qed.

Lemma in_page_word p i : 0 <= i < entries -> in_page p (p + 8 * i).
Proof using Type. by exists i. Qed.

(** A page is none of the tables. *)
Definition fresh_page P (c : Z) : Prop := forall a p, P !! a = Some p -> p <> c.

Lemma fresh_apart w P root c l n p i :
  twf w P root -> phys_ok c -> fresh_page P c -> P !! (l, n) = Some p -> 0 <= i < entries -> ~ in_page c (p + 8 * i).
Proof using cfg_ok L.
  intros T [_ Hc] Hf Hp Hi (j & Hj & E). destruct (t_page _ _ _ T _ _ _ Hp) as (_ & _ & [_ Hd] & _).
  destruct (word_inj p c i j Hd Hc Hi Hj E) as [-> _]. by apply (Hf (l, n) c).
Qed.

(** ** One entry is written *)
Lemma twf_write w P root l n p i e :
  twf w P root -> P !! (l, n) = Some p -> 0 <= i < entries -> P !! (l - 1, n * entries + i) = None ->
  absent e \/ is_leaf l e -> twf (<[p + 8 * i := e]> w) P root.
Proof using cfg_ok L.
  intros T Hp Hi Hn He. destruct T as [Tr Tp Ti Te Tq]. pose proof (Build_twf w P root Tr Tp Ti Te Tq) as T. split; try done.
  intros l' n' p' j Hp' Hj Ho. destruct (decide (p + 8 * i = p' + 8 * j)) as [E|E].
  - destruct (words_apart _ _ _ _ _ _ _ _ _ _ _ T Hp Hp' Hi Hj E) as (<- & <- & <-). exists e.
    rewrite <- E, lookup_insert_eq. split; [done|]. unfold entry_wf. by rewrite Hn.
  - rewrite lookup_insert_ne by done. eauto.
Qed.

(** Elsewhere the translation stays. *)
Lemma write_elsewhere w P root l n p i e va :
  twf w P root -> owned va -> P !! (l, n) = Some p -> 0 <= i < entries -> num l va <> n * entries + i ->
  forall l' p', P !! (l', num (l' + 1) va) = Some p' -> <[p + 8 * i := e]> w !! (p' + 8 * idx l' va) = w !! (p' + 8 * idx l' va).
Proof using cfg_ok L.
  intros T Hv Hp Hi Hne l' p' Hp'. apply lookup_insert_ne. intros E.
  destruct (words_apart _ _ _ _ _ _ _ _ _ _ _ T Hp Hp' Hi (idx_range l' va) E) as (<- & En & Ei). apply Hne.
  destruct (t_page _ _ _ T _ _ _ Hp) as (Hl & _). apply num_eq; [lia|done|]. done.
Qed.

Lemma xlate_write w P root l n p i e va :
  twf w P root -> owned va -> P !! (l, n) = Some p -> 0 <= i < entries -> P !! (l - 1, n * entries + i) = None ->
  absent e \/ is_leaf l e ->
  xlate (<[p + 8 * i := e]> w) root va = if decide (num l va = n * entries + i) then entry_xlate l va e else xlate w root va.
Proof using cfg_ok L.
  intros T Hv Hp Hi Hn He. destruct (t_page _ _ _ T _ _ _ Hp) as (Hl & _). case_decide as E.
  - pose proof (proj1 (num_eq l va n i ltac:(lia) Hi) E) as [E1 E2]. eapply xlate_at; [by apply (twf_write _ _ _ l n)|done| | |].
    + by rewrite E1.
    + rewrite E2. apply lookup_insert_eq.
    + by rewrite E.
  - eapply xlate_local; [done|done|]. by eapply write_elsewhere.
Qed.

(** ** A table is hung below an entry *)
Lemma pair_inj n n' i j : 0 <= i < entries -> 0 <= j < entries -> n * entries + i = n' * entries + j -> n = n' /\ i = j.
Proof using L. intros Hi Hj E. apply (Z.div_mod_unique entries); [by left|by left|lia]. Qed.

Lemma below_none w P root l k j :
  twf w P root -> P !! (l, k) = None -> l < top -> 0 <= j < entries -> P !! (l - 1, k * entries + j) = None.
Proof using cfg_ok L.
  intros T Hn Hl Hj. destruct (P !! (l - 1, k * entries + j)) as [p|] eqn:E; [|done]. pose proof entries_pos.
  destruct (t_parent _ _ _ T _ _ _ E ltac:(lia)) as [[q Hq] _]. rewrite Z.sub_add, Z.div_add_l, Z.div_small, Z.add_0_r in Hq by lia. congruence.
Qed.

Lemma child_range l n i : 2 <= l <= top -> 0 <= n < sz (top + 1) / sz (l + 1) -> 0 <= i < entries -> 0 <= n * entries + i < sz (top + 1) / sz l.
Proof using cfg_ok L.
  intros Hl Hn Hi. pose proof entries_pos. pose proof (sz_pos l ltac:(lia)). pose proof (sz_succ l ltac:(lia)).
  destruct (sz_divide (l + 1) (top + 1) ltac:(lia)) as [q Hq]. rewrite Hq in *. pose proof (sz_pos (l + 1) ltac:(lia)).
  rewrite Z.div_mul in Hn by lia. replace (q * sz (l + 1)) with (q * entries * sz l) by nia. rewrite Z.div_mul by lia. nia.
Qed.

(** The table below entry [i] of [(l, n)] and the words that hang it there. *)
Lemma twf_hang w P root l n p i e c :
  twf w P root -> P !! (l, n) = Some p -> 0 <= i < entries -> own_at l i = true -> 2 <= l ->
  P !! (l - 1, n * entries + i) = None -> phys_ok c -> c <> 0 -> fresh_page P c -> is_table l e c ->
  (forall j, 0 <= j < entries -> exists x, w !! (c + 8 * j) = Some x /\ (absent x \/ is_leaf (l - 1) x)) ->
  twf (<[p + 8 * i := e]> w) (<[(l - 1, n * entries + i) := c]> P) root.
Proof using cfg_ok L.
  intros T Hp Hi Ho Hl Hn Hc Hc0 Hf He Hw. destruct (t_page _ _ _ T _ _ _ Hp) as (Hlt & Hnr & _). pose proof entries_pos.
  set (k := n * entries + i) in *. assert ((l - 1, k) <> (l, n)) as Hkn by (intros [=]; lia). split.
  - rewrite lookup_insert_ne; [apply T|]. intros [=]. lia.
  - intros l' n' p' [[[= <- <-] <-]|[_ H']]%lookup_insert_Some; [|by eapply t_page]. split; [lia|]. rewrite Z.sub_add. split; [|done].
    apply child_range; [lia|done..].
  - intros a b p'. rewrite !lookup_insert_Some. intros [[<- <-]|[_ Ha]] [[<- E]|[_ Hb]].
    + done.
    + by destruct (Hf b _ Hb).
    + by destruct (Hf a _ Ha).
    + by eapply t_inj.
  - intros l' n' p' j [[[= <- <-] <-]|[Hne H']]%lookup_insert_Some Hj Hoj.
    + destruct (Hw j Hj) as (x & Hx & Hk). exists x. split.
      * rewrite lookup_insert_ne; [done|]. intros E. apply (fresh_apart w P root c l n p i); try done. by exists j.
      * unfold entry_wf. rewrite lookup_insert_ne by (intros [=]; lia). by rewrite (below_none w P root) by (done || lia).
    + destruct (t_entry _ _ _ T _ _ _ j H' Hj Hoj) as (x & Hx & Hk). destruct (decide (p + 8 * i = p' + 8 * j)) as [E|E].
      * destruct (words_apart _ _ _ _ _ _ _ _ _ _ _ T Hp H' Hi Hj E) as (<- & <- & <-). exists e. rewrite <- E, lookup_insert_eq.
        split; [done|]. unfold entry_wf. by rewrite lookup_insert_eq.
      * exists x. rewrite lookup_insert_ne by done. split; [done|]. unfold entry_wf. rewrite lookup_insert_ne; [done|].
        intros [= E1 E2]. assert (l' = l) as -> by lia. apply E. unfold k in E2. destruct (pair_inj n n' i j) as [-> ->]; [done..|].
        rewrite Hp in H'. by simplify_eq.
  - intros l' n' p' [[[= <- <-] <-]|[_ H']]%lookup_insert_Some Hlt'.
    + rewrite Z.sub_add. unfold k. rewrite Z.div_add_l, Z.div_small, Z.add_0_r by lia. split; [rewrite lookup_insert_ne by done; eauto|].
      rewrite Z.add_comm, Z.mod_add, Z.mod_small by lia. done.
    + destruct (t_parent _ _ _ T _ _ _ H' Hlt') as [Hq Hoq]. split; [|done]. apply lookup_insert_is_Some'. auto.
Qed.

(** It changes no translation when its entries say what the entry said. *)
Lemma xlate_hang w P root l n p i e c va :
  twf w P root -> owned va -> P !! (l, n) = Some p -> 0 <= i < entries -> 2 <= l ->
  P !! (l - 1, n * entries + i) = None -> phys_ok c -> c <> 0 -> fresh_page P c -> is_table l e c ->
  (forall j, 0 <= j < entries -> exists x, w !! (c + 8 * j) = Some x /\ (absent x \/ is_leaf (l - 1) x)) ->
  (num l va = n * entries + i -> forall x, w !! (c + 8 * idx (l - 1) va) = Some x -> entry_xlate (l - 1) va x = xlate w root va) ->
  xlate (<[p + 8 * i := e]> w) root va = xlate w root va.
Proof using cfg_ok L.
  intros T Hv Hp Hi Hl Hn Hc Hc0 Hf He Hw Hx. destruct (t_page _ _ _ T _ _ _ Hp) as (Hlt & _).
  destruct (decide (num l va = n * entries + i)) as [E|E]; [|eapply xlate_local; [done..|by eapply write_elsewhere]].
  assert (own_at l i = true) as Ho by (pose proof (proj1 (num_eq l va n i ltac:(lia) Hi) E) as [_ <-]; by apply own_at_owned).
  pose proof (twf_hang _ _ _ _ _ _ _ _ _ T Hp Hi Ho Hl Hn Hc Hc0 Hf He Hw) as T'.
  destruct (Hw (idx (l - 1) va) (idx_range _ _)) as (x & Hcx & _). rewrite <- (Hx E x Hcx). eapply xlate_at; [exact T'|done| | |].
  - rewrite Z.sub_add, E. apply lookup_insert_eq.
  - rewrite lookup_insert_ne; [done|]. intros E'. apply (fresh_apart w P root c l n p i); try done. rewrite E'. apply in_page_word, idx_range.
  - rewrite lookup_insert_ne by (intros [=]; lia). rewrite (num_split (l - 1)), Z.sub_add, E by lia.
    apply (below_none w P root); [done|done|lia|apply idx_range].
Qed.

(** ** An empty table is taken off *)
Definition empty_table w (c : Z) : Prop := forall j, 0 <= j < entries -> exists x, w !! (c + 8 * j) = Some x /\ absent x.

Lemma other_apart w P root l n c l' n' p i :
  twf w P root -> P !! (l, n) = Some c -> P !! (l', n') = Some p -> (l, n) <> (l', n') -> 0 <= i < entries -> ~ in_page c (p + 8 * i).
Proof using cfg_ok L.
  intros T Hc Hp Hne Hi (j & Hj & E). destruct (words_apart _ _ _ _ _ _ _ _ _ _ _ T Hp Hc Hi Hj E) as (-> & -> & _). done.
Qed.

(** No table hangs below an empty one. *)
Lemma empty_below w P root l k c j :
  twf w P root -> P !! (l, k) = Some c -> l < top -> empty_table w c -> 0 <= j < entries -> P !! (l - 1, k * entries + j) = None.
Proof using cfg_ok L.
  intros T Hc Hl He Hj. destruct (He j Hj) as (x & Hx & Ha).
  destruct (t_entry _ _ _ T _ _ _ j Hc Hj) as (y & Hy & Hw); [unfold own_at; by rewrite (proj2 (Z.ltb_lt l top))|].
  rewrite Hx in Hy. injection Hy as <-. unfold entry_wf in Hw. destruct (P !! (l - 1, k * entries + j)); [|done].
  destruct Hw as (Hpr & _). unfold absent in Ha. congruence.
Qed.

Section Drop.
Context w P (root l n p i c : Z).
Context (T : twf w P root) (Hp : P !! (l, n) = Some p) (Hi : 0 <= i < entries) (Hc : P !! (l - 1, n * entries + i) = Some c)
  (He : empty_table w c).
#[local] Abbreviation w' := (drop_page (<[p + 8 * i := 0]> w) c).
#[local] Abbreviation P' := (delete (l - 1, n * entries + i) P).

Lemma drop_entry l' n' p' j :
  P' !! (l', n') = Some p' -> 0 <= j < entries -> w' !! (p' + 8 * j) = <[p + 8 * i := 0]> w !! (p' + 8 * j).
Proof using cfg_ok L T Hc.
  intros [Hne H']%lookup_delete_Some Hj. apply drop_page_out. by apply (other_apart w P root (l - 1) (n * entries + i) c l' n').
Qed.

Lemma twf_drop : twf w' P' root.
Proof using cfg_ok L T Hp Hi Hc He.
  destruct (t_page _ _ _ T _ _ _ Hp) as (Hl & _). destruct (t_page _ _ _ T _ _ _ Hc) as (Hl1 & _). pose proof entries_pos. split.
  - rewrite lookup_delete_ne; [apply T|]. intros [=]. lia.
  - intros l' n' p' [_ H']%lookup_delete_Some. by eapply t_page.
  - intros a b p' [_ Ha]%lookup_delete_Some [_ Hb]%lookup_delete_Some. by eapply t_inj.
  - intros l' n' p' j H' Hj Ho. rewrite (drop_entry _ _ _ _ H' Hj). apply lookup_delete_Some in H' as [Hne H'].
    destruct (t_entry _ _ _ T _ _ _ j H' Hj Ho) as (x & Hx & Hk). destruct (decide (p + 8 * i = p' + 8 * j)) as [E|E].
    + destruct (words_apart _ _ _ _ _ _ _ _ _ _ _ T Hp H' Hi Hj E) as (<- & <- & <-). exists 0. rewrite <- E, lookup_insert_eq.
      split; [done|]. unfold entry_wf. rewrite lookup_delete_eq. left. apply pl_absent.
    + exists x. rewrite lookup_insert_ne by done. split; [done|]. unfold entry_wf in *. rewrite lookup_delete_ne; [done|].
      intros [= E1 E2]. assert (l' = l) as -> by lia. destruct (pair_inj n n' i j) as [-> ->]; [done..|]. rewrite Hp in H'. by simplify_eq.
  - intros l' n' p' [Hne H']%lookup_delete_Some Hlt. destruct (t_parent _ _ _ T _ _ _ H' Hlt) as [Hq Ho]. split; [|done].
    rewrite lookup_delete_ne; [done|]. intros [= E1 E2]. pose proof (empty_below w P root (l - 1) (n * entries + i) c (n' mod entries) T Hc ltac:(lia) He) as Hno.
    rewrite E2 in Hno. replace (n' / entries * entries + n' mod entries) with n' in Hno by (pose proof (Z.div_mod n' entries); lia).
    replace (l - 1 - 1) with l' in Hno by lia. rewrite Hno in H'; [done|]. by apply Z.mod_pos_bound.
Qed.

Lemma xlate_drop va : owned va -> xlate w' root va = xlate w root va.
Proof using cfg_ok L T Hp Hi Hc He.
  intros Hv. destruct (t_page _ _ _ T _ _ _ Hp) as (Hl & _). destruct (t_page _ _ _ T _ _ _ Hc) as (Hl1 & _).
  pose proof twf_drop as T'. destruct (decide (num l va = n * entries + i)) as [E|E].
  - pose proof (proj1 (num_eq l va n i ltac:(lia) Hi) E) as [E1 E2].
    assert (P' !! (l, num (l + 1) va) = Some p) as Hp' by (rewrite E1, lookup_delete_ne by (intros [=]; lia); done).
    rewrite (xlate_at w' P' root va l p 0); try done.
    + destruct (He (idx (l - 1) va) (idx_range _ _)) as (x & Hx & Ha).
      rewrite (xlate_at w P root va (l - 1) c x); [unfold entry_xlate; by rewrite pl_absent, Ha|done|done| |done|].
      * by rewrite Z.sub_add, E.
      * rewrite (num_split (l - 1)), Z.sub_add, E by lia. apply (empty_below w P root (l - 1) _ c); [done|done|lia|done|apply idx_range].
    + rewrite E2, (drop_entry _ _ _ _ Hp' Hi). apply lookup_insert_eq.
    + rewrite E. apply lookup_delete_eq.
  - assert (xlate w' root va = xlate (<[p + 8 * i := 0]> w) root va) as ->; [|eapply xlate_local; [done|done|by eapply write_elsewhere]].
    symmetry. eapply (xlate_local w' _ P'); [done|done|]. intros l' q Hq. symmetry. eapply drop_entry; [done|apply idx_range].
Qed.
End Drop.

(** ** Counting the entries of a table *)
Definition present_at w (l p i : Z) : bool :=
  own_at l i && match w !! (p + 8 * i) with Some e => ARCH_PTE_PRESENT e | None => false end.
Definition count w (l p : Z) : Z := tally (present_at w l p) (seqZ 0 entries).

Lemma count_bound w l p : 0 <= count w l p <= entries.
Proof using L. pose proof entries_pos. pose proof (tally_bound (present_at w l p) (seqZ 0 entries)) as Hb. rewrite length_seqZ in Hb. unfold count. lia. Qed.

Lemma count_write w l p i e0 e :
  0 <= i < entries -> own_at l i = true -> w !! (p + 8 * i) = Some e0 ->
  count (<[p + 8 * i := e]> w) l p = count w l p - Z.b2z (ARCH_PTE_PRESENT e0) + Z.b2z (ARCH_PTE_PRESENT e).
Proof using Type.
  intros Hi Ho He. pose proof (tally_change (present_at (<[p + 8 * i := e]> w) l p) (present_at w l p) (seqZ 0 entries) i) as H.
  assert (present_at (<[p + 8 * i := e]> w) l p i = ARCH_PTE_PRESENT e) as E1 by (unfold present_at; by rewrite lookup_insert_eq, Ho).
  assert (present_at w l p i = ARCH_PTE_PRESENT e0) as E2 by (unfold present_at; by rewrite He, Ho).
  rewrite E1, E2 in H. unfold count. enough (forall a b c d : Z, a - b = c - d -> a = c - d + b) as Hz; [apply Hz, H|intros; lia].
  - apply NoDup_seqZ.
  - apply elem_of_seqZ. lia.
  - intros j Hj Hne. unfold present_at. rewrite lookup_insert_ne by lia. done.
Qed.

Lemma count_ext w w' l p : (forall i, 0 <= i < entries -> w' !! (p + 8 * i) = w !! (p + 8 * i)) -> count w' l p = count w l p.
Proof using Type. intros H. apply tally_ext. intros j Hj%elem_of_seqZ. unfold present_at. by rewrite H by lia. Qed.

Lemma count_none w l p : (forall i, 0 <= i < entries -> exists e, w !! (p + 8 * i) = Some e /\ absent e) -> count w l p = 0.
Proof using Type.
  intros H. apply tally_none. intros j Hj%elem_of_seqZ. unfold present_at. destruct (H j ltac:(lia)) as (e & -> & ->). apply andb_false_r.
Qed.

Lemma count_all w l p : l < top -> (forall i, 0 <= i < entries -> exists e, w !! (p + 8 * i) = Some e /\ ARCH_PTE_PRESENT e = true) -> count w l p = entries.
Proof using L.
  intros Hl H. pose proof entries_pos. unfold count. rewrite tally_all; [rewrite length_seqZ; lia|]. intros j Hj%elem_of_seqZ. unfold present_at, own_at.
  destruct (H j ltac:(lia)) as (e & -> & ->). by rewrite (proj2 (Z.ltb_lt l top)).
Qed.

Lemma count_empty w P root l n p : twf w P root -> P !! (l, n) = Some p -> l < top -> count w l p = 0 -> empty_table w p.
Proof using Type.
  intros T Hp Hl H0 i Hi. assert (own_at l i = true) as Ho by (unfold own_at; by rewrite (proj2 (Z.ltb_lt l top))).
  destruct (t_entry _ _ _ T _ _ _ i Hp Hi Ho) as (e & He & _). exists e. split; [done|].
  pose proof (tally_zero _ _ i H0) as H. unfold present_at in H. rewrite Ho, He in H. apply H. apply elem_of_seqZ. lia.
Qed.
End Rep.
