(* ===== verification/PagingSpec.v ===== *)
(** * Page tables of the running kernel: the invariant and its steps

    [pinv] ties the words, the page frame database and the allocator to the
    tables [P] of one address space: every table's count is the number of its
    present entries.  The steps of map.c, unmap.c and split.c preserve it, say
    what they do to the translation, and leave everyone else's pages alone. *)

From S2P Require Import Prelude LList Pfndb Buddy BuddyInv BuddySpec PagingArch Paging PagingRep PagingPmm.
#[local] Open Scope Z_scope.

Section Spec.
Context {cfg : kconfig} {cfg_ok : kconfig_ok cfg} {A : PagingArch} {L : PagingLaws A} {PL : ProtLaws A}.
Context (mmu_config : Z) (own : Z -> bool) {G : geometry mmu_config}.
Context (R : regions) (root : Z).
(** An entry has room for every page of the managed memory. *)
Context (R_phys : forall b m, (b, m) ∈ R -> b + bsize m <= 2 ^ 52).

Abbreviation top := (top_level mmu_config).
Abbreviation twf := (twf mmu_config own).
Abbreviation xlate := (xlate mmu_config).
Abbreviation owned := (owned mmu_config own).
Abbreviation own_at := (own_at mmu_config own).
Abbreviation count := (count mmu_config own).
Abbreviation is_leaf := (is_leaf mmu_config).
Implicit Types (s : pt_state) (B : blocks) (P : table_map) (w : table_words) (st : buddy_state).

(** The tables are pages in use, counted by [c]; those of the boot code are
    not in the allocator's memory and not counted. *)
Definition unmanaged (p : Z) : Prop := forall b m, (b, m) ∈ R -> ~ in_block b m p.
Definition counted st B P (c : Z -> Z -> Z) : Prop :=
  forall l n p, P !! (l, n) = Some p -> in_use R B p /\
    ((unmanaged p /\ exists rc, page_is st p PFNDB_PAGE_INVALID rc) \/
     (B !! p = Some (0, BAlloc) /\ page_is st p PFNDB_PAGE_PTABLE (c l p))).

Record pinv s B P : Prop := {
  p_buddy : buddy_inv R (pmm s) B;
  p_settled : settled B;
  p_twf : twf (words s) P root;
  p_counted : counted (pmm s) B P (count (words s));
}.

(** Pages that are none of the tables stay what they are, and none but tables
    are handed out anew. *)
Definition others s B P s' B' P' : Prop :=
  (forall q, in_use R B q -> fresh_page P q ->
    in_use R B' q /\ fresh_page P' q /\ (forall a, in_page q a -> words s' !! a = words s !! a) /\
    forall ty rc, page_is (pmm s) q ty rc -> page_is (pmm s') q ty rc) /\
  forall q j, B' !! q = Some (j, BAlloc) -> fresh_page P' q -> B !! q = Some (j, BAlloc) /\ fresh_page P q.

Lemma others_refl s B P : others s B P s B P.
Proof using Type. split; auto. Qed.

Lemma others_trans s1 B1 P1 s2 B2 P2 s3 B3 P3 : others s1 B1 P1 s2 B2 P2 -> others s2 B2 P2 s3 B3 P3 -> others s1 B1 P1 s3 B3 P3.
Proof using Type.
  intros [H1 N1] [H2 N2]. split; [|intros q j Hq Hf; destruct (N2 q j Hq Hf); auto]. intros q Hq Hf. destruct (H1 q Hq Hf) as (Hq1 & Hf1 & W1 & T1). destruct (H2 q Hq1 Hf1) as (Hq2 & Hf2 & W2 & T2).
  split; [done|]. split; [done|]. split; [|auto]. intros a Ha. rewrite W2, W1 by done. done.
Qed.

(** All memory was handed out at some point. *)
Definition out_of_memory : Prop := exists st B, buddy_inv R st B /\ settled B /\ forall p j, B !! p <> Some (j, BFree).

(** The code returns with [Q], or has stopped the machine for want of a page. *)
Definition done_or_oom {T} (r : res T) (Q : T -> Prop) : Prop :=
  match r with Ok a => Q a | Panic => out_of_memory | _ => False end.

Lemma done_bind {T U} (r : res T) (k : T -> res U) Q Q' :
  done_or_oom r Q -> (forall a, Q a -> done_or_oom (k a) Q') -> done_or_oom (r ≫= k) Q'.
Proof using Type. destruct r; cbn; auto. Qed.

Lemma done_mono {T} (r : res T) (Q Q' : T -> Prop) : done_or_oom r Q -> (forall a, Q a -> Q' a) -> done_or_oom r Q'.
Proof using Type. destruct r; cbn; auto. Qed.

(** ** Counts *)
Lemma counted_ext st B P c c' : (forall l n p, P !! (l, n) = Some p -> c' l p = c l p) -> counted st B P c -> counted st B P c'.
Proof using Type. intros E H l n p Hp. rewrite (E l n p Hp). by apply (H l n p). Qed.

Lemma counted_keeps st B st' B' P c : keeps R st B st' B' [] -> counted st B P c -> counted st' B' P c.
Proof using Type.
  intros K H l n p Hp. destruct (H l n p Hp) as [Hu Hc]. destruct (K p Hu (not_elem_of_nil _)) as (Hu' & Ha' & Hk). split; [done|].
  destruct Hc as [[Hun [rc Hc]]|[Ha Hc]]; [left; eauto|]. right. auto.
Qed.

Lemma table_aligned w P l n p : twf w P root -> P !! (l, n) = Some p -> page_aligned p.
Proof using All. intros T Hp. destruct (t_page _ _ _ _ _ T _ _ _ Hp) as (_ & _ & [_ Hd] & _). done. Qed.

(** The count of a managed table, and the count of one of [P]. *)
Lemma update_managed_ok s B p x d :
  buddy_inv R (pmm s) B -> B !! p = Some (0, BAlloc) -> page_is (pmm s) p PFNDB_PAGE_PTABLE x -> page_aligned p ->
  0 <= x <= entries -> 0 <= x + d <= entries ->
  exists b, update_refcnt s p d = Ok (with_pmm s b) /\ buddy_inv R b B /\ page_is b p PFNDB_PAGE_PTABLE (x + d) /\ keeps R (pmm s) B b B [p].
Proof using All.
  intros I Ha (pg & Hpg & Hty & Hrc) Hal Hc Hd. pose proof entries_bound. unfold update_refcnt. rewrite (load_Ok _ _ _ Hpg), bind_Ok.
  rewrite bool_decide_eq_false_2 by congruence. rewrite (bool_decide_eq_true_2 (type pg = _)) by done. cbn [dbg_assert]. rewrite bind_Ok.
  assert ((if d <? 0 then dbg_assert (ref_count pg >=? u32 (- d)) else Ok tt) = Ok tt) as ->.
  { destruct (Z.ltb_spec d 0); [|done]. unfold u32. rewrite Z.mod_small by lia. rewrite Z.geb_leb, (proj2 (Z.leb_le _ _)) by lia. done. }
  rewrite bind_Ok. destruct (update_alloc_ok R (pmm s) B p 0 (fun pg => set_ref_count pg (u32 (ref_count pg + d))) I Ha) as (pg' & Hpg' & -> & I');
    [intros; split; done|]. rewrite Hpg in Hpg'. injection Hpg' as <-. rewrite bind_Ok. eexists. split; [done|]. split; [done|].
  split; [|by apply with_entry_keeps]. eexists. rewrite with_entry_same. split; [done|]. split; [done|]. cbn. unfold u32. rewrite Z.mod_small; lia.
Qed.

Lemma update_refcnt_ok s B P c l n p d :
  buddy_inv R (pmm s) B -> counted (pmm s) B P c -> page_aligned p -> P !! (l, n) = Some p ->
  0 <= c l p <= entries -> 0 <= c l p + d <= entries ->
  exists b, update_refcnt s p d = Ok (with_pmm s b) /\ buddy_inv R b B /\
    counted b B P (fun l' p' => if decide (p' = p) then c l p + d else c l' p') /\ keeps R (pmm s) B b B [p].
Proof using All.
  intros I C Hal Hp Hc Hd. destruct (C l n p Hp) as [Hu [[Hun [rc (pg & Hpg & Hty & Hrc)]]|[Ha Hpt]]].
  - unfold update_refcnt. rewrite (load_Ok _ _ _ Hpg), bind_Ok, bool_decide_eq_true_2 by done. exists (pmm s). split; [by destruct s|]. split; [done|]. split; [|apply keeps_refl].
    intros l' n' p' Hp'. case_decide as E; [|by apply (C l' n')]. subst p'. split; [done|]. left. split; [done|]. exists rc, pg. done.
  - destruct (update_managed_ok s B p (c l p) d I Ha Hpt Hal Hc Hd) as (b & -> & I' & Hpt' & K). exists b. split; [done|]. split; [done|]. split; [|done].
    intros l' n' p' Hp'. case_decide as E.
    + subst p'. split; [done|]. by right.
    + destruct (C l' n' p' Hp') as [Hu' Hc']. destruct (K p' Hu' ltac:(set_solver)) as (Hu2 & Ha2 & Hk). split; [done|].
      destruct Hc' as [[Hun' [rc Hc']]|[Ha' Hc']]; [left; eauto|right; auto].
Qed.

(** Counts after one word was written. *)
Lemma count_written w P l n p i e0 e l' n' p' :
  twf w P root -> P !! (l, n) = Some p -> 0 <= i < entries -> own_at l i = true -> w !! (p + 8 * i) = Some e0 ->
  P !! (l', n') = Some p' ->
  count (<[p + 8 * i := e]> w) l' p' =
    if decide (p' = p) then count w l p + (Z.b2z (ARCH_PTE_PRESENT e) - Z.b2z (ARCH_PTE_PRESENT e0)) else count w l' p'.
Proof using All.
  intros T Hp Hi Ho He Hp'. case_decide as E.
  - subst p'. pose proof (t_inj _ _ _ _ _ T _ _ _ Hp Hp') as E. injection E as <- <-.
    rewrite (count_write _ _ _ _ _ _ _ _ Hi Ho He). lia.
  - apply count_ext. intros j Hj. apply lookup_insert_ne. intros E'.
    destruct (words_apart _ _ _ _ _ _ _ _ _ _ _ _ _ T Hp Hp' Hi Hj E') as (<- & <- & _). congruence.
Qed.

(** ** Tables come and go *)
Lemma alloc_table_ok s B :
  buddy_inv R (pmm s) B -> settled B ->
  done_or_oom (alloc_table s) (fun '(c, s') => exists B',
    buddy_inv R (pmm s') B' /\ settled B' /\ keeps R (pmm s) B (pmm s') B' [] /\ words s' = zero_page (words s) c /\ tlb s' = tlb s /\
    B' !! c = Some (0, BAlloc) /\ ~ in_use R B c /\ phys_ok c /\ c <> 0 /\ page_is (pmm s') c PFNDB_PAGE_PTABLE 0 /\
    forall q j, q <> c -> B' !! q = Some (j, BAlloc) -> B !! q = Some (j, BAlloc)).
Proof using All.
  intros I HS. unfold alloc_table. destruct (alloc_page_ok R (pmm s) B I HS) as [[-> Hno]|(c & b & B' & -> & I1 & HS1 & Hc & Hold & K & N)].
  - cbn. exists (pmm s), B. done.
  - rewrite bind_Ok. assert (page_aligned c /\ 0 < c /\ c + bsize 0 <= 2 ^ 52) as (Hal & Hpos & Hphys).
    { destruct I1 as [xss I1]. destruct (block_facts _ _ _ _ _ _ _ I1 Hc) as (_ & _ & Hal & _ & Hpos). split; [done|]. split; [done|].
      destruct (i_block _ _ _ _ I1 _ _ _ Hc) as (_ & _ & m & (b0 & Hb & H1 & H2) & _). specialize (R_phys _ _ Hb). lia. }
    destruct (update_alloc_ok R b B' c 0 (fun pg => set_type pg PFNDB_PAGE_PTABLE) I1 Hc) as (pg & Hpg & -> & I2); [intros; done|]. rewrite bind_Ok.
    destruct (update_alloc_ok R _ B' c 0 (fun pg => set_ref_count pg 0) I2 Hc) as (pg' & Hpg' & -> & I3); [intros; done|]. rewrite bind_Ok.
    rewrite with_entry_same in Hpg'. injection Hpg' as <-. cbn. exists B'. split; [done|]. split; [done|].
    assert (~ in_use R B c) as Hnu by (intros Hu; by apply (in_use_ne R b B B' c c I1 Hc Hold Hu)).
    split.
    { intros q Hq _. destruct (K q Hq (not_elem_of_nil _)) as (Hq1 & Ha1 & Hk1). assert (q ∉ [c]) as Hqc by (intros ->%list_elem_of_singleton; done).
      destruct (with_entry_keeps R b B' c (set_type pg PFNDB_PAGE_PTABLE) Hal q Hq1 Hqc) as (Hq2 & Ha2 & Hk2).
      destruct (with_entry_keeps R (with_entry b c (set_type pg PFNDB_PAGE_PTABLE)) B' c (set_ref_count (set_type pg PFNDB_PAGE_PTABLE) 0) Hal q Hq2 Hqc) as (Hq3 & Ha3 & Hk3). split; [done|]. split; [auto|].
      intros ty rc Hty. apply Hk3, Hk2, Hk1, Hty. }
    split; [done|]. split; [done|]. split; [done|]. split; [done|]. split; [|split; [lia|]].
    + split; [|done]. pose proof (bsize_pos 0 ltac:(lia)). lia.
    + split; [|done]. eexists. rewrite with_entry_same. done.
Qed.

(** ** Writing leaves *)
Lemma leaf_entry l attr p :
  phys_ok p -> (sz l | p) -> level_ok l ->
  is_leaf l (ARCH_ENCODE_PTE p (leaf_flags mmu_config l attr)) /\
  forall va, entry_xlate l va (ARCH_ENCODE_PTE p (leaf_flags mmu_config l attr)) = Some (p + va mod sz l, prot_norm mmu_config attr).
Proof using All.
  intros Hp Hd Hl. unfold is_leaf, entry_xlate, decode_leaf. assert (leaf_ok mmu_config l (ARCH_ENCODE_PTE p (leaf_flags mmu_config l attr))) as Hok by (by exists p, attr).
  revert Hok. unfold leaf_flags. destruct Hl as [->|Hl].
  - change (negb (1 =? 1)) with false. cbv iota. intros Hok. destruct (pl_leaf_entry mmu_config attr p Hp) as (H1 & H2 & H3).
    rewrite H1, H2, H3. split; [done|]. intros va. rewrite pp_leaf by done. done.
  - rewrite (proj2 (Z.eqb_neq l 1)) by lia. cbn [negb]. intros Hok. destruct (pl_large_entry mmu_config attr p l Hp Hl Hd) as (H1 & H2 & H3).
    rewrite H1, H2, H3. split; [done|]. intros va. rewrite pp_large by done. done.
Qed.

(** What some writes to table [p] of level [l] do: the count changes by [d],
    and the addresses from [lo] to [hi] are translated by [g]. *)
Record wstep w w' P (l p d lo hi : Z) (g : Z -> option (Z * Z)) : Prop := {
  ws_twf : twf w' P root;
  ws_count : forall l' n' p', P !! (l', n') = Some p' -> count w' l' p' = if decide (p' = p) then count w l p + d else count w l' p';
  ws_xlate : forall va, owned va -> xlate w' root va = if decide (lo <= va < hi) then g va else xlate w root va;
  ws_frame : forall a, ~ in_page p a -> w' !! a = w !! a;
}.

Lemma wstep_refl w P l n p lo g : twf w P root -> P !! (l, n) = Some p -> wstep w w P l p 0 lo lo g.
Proof using All.
  intros T Hp. split; [done| | |done].
  - intros l' n' p' Hp'. case_decide as E; [|done]. subst p'. pose proof (t_inj _ _ _ _ _ T _ _ _ Hp Hp') as E. injection E as <- <-. lia.
  - intros va _. rewrite decide_False by lia. done.
Qed.

Lemma wstep_trans w1 w2 w3 P l n p d1 d2 lo mid hi g :
  P !! (l, n) = Some p -> lo <= mid <= hi -> wstep w1 w2 P l p d1 lo mid g -> wstep w2 w3 P l p d2 mid hi g -> wstep w1 w3 P l p (d1 + d2) lo hi g.
Proof using All.
  intros Hp Hm [T1 C1 X1 F1] [T2 C2 X2 F2]. split; [done| | |].
  - intros l' n' p' Hp'. rewrite (C2 _ _ _ Hp'). case_decide; [|by rewrite (C1 _ _ _ Hp'), decide_False by done].
    rewrite (C1 _ _ _ Hp), decide_True by done. lia.
  - intros va Hv. rewrite X2, X1 by done. repeat case_decide; done || lia.
  - intros a Ha. rewrite F2, F1 by done. done.
Qed.

Lemma wstep_ext w w' P l p d lo hi g g' :
  (forall va, owned va -> lo <= va < hi -> g va = g' va) -> wstep w w' P l p d lo hi g -> wstep w w' P l p d lo hi g'.
Proof using All. intros E [T C X F]. split; try done. intros va Hv. rewrite X by done. case_decide; auto. Qed.

Lemma wstep_write w P l n p i e0 e :
  twf w P root -> P !! (l, n) = Some p -> 0 <= i < entries -> own_at l i = true -> P !! (l - 1, n * entries + i) = None ->
  w !! (p + 8 * i) = Some e0 -> absent e \/ is_leaf l e ->
  wstep w (<[p + 8 * i := e]> w) P l p (Z.b2z (ARCH_PTE_PRESENT e) - Z.b2z (ARCH_PTE_PRESENT e0))
    ((n * entries + i) * sz l) ((n * entries + i + 1) * sz l) (fun va => entry_xlate l va e).
Proof using All.
  intros T Hp Hi Ho Hn He0 He. destruct (t_page _ _ _ _ _ T _ _ _ Hp) as (Hl & _). split.
  - by apply (twf_write _ _ _ _ _ l n).
  - intros l' n' p' Hp'. by eapply count_written.
  - intros va Hv. rewrite (xlate_write _ _ _ P root l n) by done. pose proof (num_range l va (n * entries + i) ltac:(lia)).
    repeat case_decide; tauto.
  - intros a Ha. apply lookup_insert_ne. intros <-. apply Ha. by apply in_page_word.
Qed.

(** After the writes the count of the table is brought up to date. *)
Lemma pinv_wstep s B P w' l n p d lo hi g :
  pinv s B P -> P !! (l, n) = Some p -> wstep (words s) w' P l p d lo hi g ->
  exists b, update_refcnt (with_words s w') p d = Ok (PtState b w' (tlb s)) /\ update_refcnt s p d = Ok (with_pmm s b) /\
    pinv (PtState b w' (tlb s)) B P /\ others s B P (PtState b w' (tlb s)) B P.
Proof using All.
  intros [I HS T C] Hp W. pose proof (ws_count _ _ _ _ _ _ _ _ _ W _ _ _ Hp) as Ec. rewrite decide_True in Ec by done.
  pose proof (count_bound mmu_config own (words s) l p) as Hb1. pose proof (count_bound mmu_config own w' l p) as Hb2. rewrite Ec in Hb2.
  destruct (update_refcnt_ok s B P (count (words s)) l n p d I C (table_aligned _ _ _ _ _ T Hp) Hp Hb1 Hb2) as (b & E & I' & C' & K).
  exists b. split_and!; [|done| |].
  - unfold update_refcnt in *. cbn [pmm with_words]. revert E. destruct (load _ _); try done. cbn [mbind res_bind]. destruct (bool_decide (type a = _)).
    { intros E. injection E as E. apply (f_equal pmm) in E. cbn in E. by rewrite <- E. }
    destruct (dbg_assert (bool_decide _)); try done. cbn. destruct (if d <? 0 then _ else _); try done. cbn. destruct (update_entry _ _ _); try done. cbn. intros E. injection E as E. by rewrite <- E.
  - split; [done|done|apply W|]. eapply counted_ext; [|exact C']. intros l' n' p' Hp'. cbn. by rewrite (ws_count _ _ _ _ _ _ _ _ _ W _ _ _ Hp').
  - split; [|done]. intros q Hq Hf. destruct (K q Hq) as (Hq' & _ & Hk). { intros ->%list_elem_of_singleton. by apply (Hf (l, n) p). }
    split; [done|]. split; [done|]. split; [|done]. intros a Ha. cbn. apply (ws_frame _ _ _ _ _ _ _ _ _ W). intros Ha'.
    destruct Ha as (i & Hi & ->), Ha' as (j & Hj & E'). destruct (word_inj q p i j) as [-> _]; try done; [apply Hq|by apply (table_aligned _ _ _ _ _ T Hp)|by apply (Hf (l, n) p)].
Qed.

Lemma none_below w P k : twf w P root -> P !! (0, k) = None.
Proof using All. intros T. destruct (P !! (0, k)) as [p|] eqn:E; [|done]. destruct (t_page _ _ _ _ _ T _ _ _ E). lia. Qed.

Lemma own_below l i : l < top -> own_at l i = true.
Proof using All. intros H. unfold PagingRep.own_at. by rewrite (proj2 (Z.ltb_lt l top)). Qed.

(** What a mapping of [v] to [pa] translates [va] to. *)
Definition mapped (v pa attr va : Z) : option (Z * Z) := Some (pa + (va - v), prot_norm mmu_config attr).
Definition unmapped (va : Z) : option (Z * Z) := None.

(** A leaf at entry [k] of level [l] maps its addresses. *)
Lemma leaf_mapped l k pa attr v pa' va :
  phys_ok pa -> (sz l | pa) -> level_ok l -> 1 <= l -> k * sz l <= va < (k + 1) * sz l -> pa - k * sz l = pa' - v ->
  entry_xlate l va (ARCH_ENCODE_PTE pa (leaf_flags mmu_config l attr)) = mapped v pa' attr va.
Proof using All.
  intros Hp Hd Hl Hl1 Hva E. destruct (leaf_entry l attr pa Hp Hd Hl) as [_ ->]. unfold mapped. do 2 f_equal.
  assert (va mod sz l = va - k * sz l) as ->; [|lia]. symmetry. apply Z.mod_unique with k; lia.
Qed.

Lemma phys_shift pa i n : 0 <= pa -> (PAGE_SIZE | pa) -> 0 <= i < n -> pa + n * PAGE_SIZE <= 2 ^ 52 -> phys_ok (pa + i * PAGE_SIZE).
Proof using All.
  intros H0 Hd Hi Hn. assert (0 < PAGE_SIZE) by (rewrite sz_page; pose proof entries_pos; lia). split; [nia|]. rewrite <- PAGE_SIZE_eq.
  apply Z.divide_add_r; [done|]. apply Z.divide_factor_r.
Qed.

Lemma map_run_ok P n p index pa attr cnt : forall w i added,
  twf w P root -> P !! (1, n) = Some p -> 0 <= index -> 0 <= i -> index + i + Z.of_nat cnt <= entries ->
  0 <= pa -> (PAGE_SIZE | pa) -> pa + (i + Z.of_nat cnt) * PAGE_SIZE <= 2 ^ 52 ->
  returns (map_run cnt w (p + 8 * index) pa (prot_to_mmu_flags mmu_config attr) i added) (fun '(added', w') =>
    wstep w w' P 1 p (added' - added) ((n * entries + index + i) * sz 1) ((n * entries + index + i + Z.of_nat cnt) * sz 1)
      (mapped ((n * entries + index) * sz 1) pa attr)).
Proof using All.
  induction cnt as [|cnt IH]; intros w i added T Hp Hx Hi He H0 Hd Hpa.
  - cbn [map_run]. apply returns_Ok. rewrite Z.sub_diag, Z.add_0_r. by eapply wstep_refl.
  - cbn [map_run]. pose proof (top_range mmu_config). replace (p + 8 * index + 8 * i) with (p + 8 * (index + i)) by lia.
    assert (own_at 1 (index + i) = true) as Ho by (apply own_below; lia).
    destruct (t_entry _ _ _ _ _ T _ _ _ (index + i) Hp ltac:(lia) Ho) as (e0 & He0 & _).
    assert (phys_ok (pa + i * PAGE_SIZE)) as Hok by (apply (phys_shift pa i (i + Z.of_nat (S cnt))); (done || lia)).
    assert (u64 (pa + i * PAGE_SIZE) = pa + i * PAGE_SIZE) as -> by (apply u64_small; unfold is_u64; destruct Hok; lia).
    rewrite (load_Ok _ _ _ He0), bind_Ok, (store_Ok _ _ _ _ He0), bind_Ok. set (e := ARCH_ENCODE_PTE _ _).
    assert (sz 1 | pa + i * PAGE_SIZE) as Hal by (rewrite sz_1; apply Z.divide_add_r; [done|apply Z.divide_factor_r]).
    destruct (leaf_entry 1 attr _ Hok Hal ltac:(by left)) as [Hleaf _]. change (leaf_flags mmu_config 1 attr) with (prot_to_mmu_flags mmu_config attr) in Hleaf. fold e in Hleaf.
    pose proof (none_below w P (n * entries + (index + i)) T) as Hnone.
    pose proof (wstep_write w P 1 n p (index + i) e0 e T Hp ltac:(lia) Ho Hnone He0 (or_intror Hleaf)) as W.
    destruct Hleaf as (Hpr & _). rewrite Hpr in W. cbn [Z.b2z] in W.
    set (added1 := if negb (ARCH_PTE_PRESENT e0) then added + 1 else added).
    assert (1 - Z.b2z (ARCH_PTE_PRESENT e0) = added1 - added) as Ed by (unfold added1; destruct (ARCH_PTE_PRESENT e0); cbn; lia). rewrite Ed in W.
    destruct (IH (<[p + 8 * (index + i) := e]> w) (i + 1) added1) as ([a w'] & -> & W'); try done; [apply W|lia|lia|lia|].
    apply returns_Ok. replace (a - added) with (added1 - added + (a - added1)) by lia. pose proof (sz_pos 1 ltac:(lia)).
    eapply (wstep_trans _ _ _ P 1 n p _ _ _ ((n * entries + index + (i + 1)) * sz 1)); [done|nia| |].
    + replace (n * entries + (index + i)) with (n * entries + index + i) in W by lia.
      replace (n * entries + index + i + 1) with (n * entries + index + (i + 1)) in W by lia.
      eapply wstep_ext; [|exact W]. intros va _ Hva. cbn. apply (leaf_mapped 1 (n * entries + index + i) (pa + i * PAGE_SIZE)); try done; [by left|lia|].
      rewrite sz_1. lia.
    + replace (n * entries + index + i + Z.of_nat (S cnt)) with (n * entries + index + (i + 1) + Z.of_nat cnt) by lia. done.
Qed.

Lemma unmap_run_ok P n p index cnt : forall w i removed,
  twf w P root -> P !! (1, n) = Some p -> 0 <= index -> 0 <= i -> index + i + Z.of_nat cnt <= entries ->
  returns (unmap_run cnt w (p + 8 * index) i removed) (fun '(removed', w') =>
    wstep w w' P 1 p (removed - removed') ((n * entries + index + i) * sz 1) ((n * entries + index + i + Z.of_nat cnt) * sz 1) unmapped).
Proof using All.
  induction cnt as [|cnt IH]; intros w i removed T Hp Hx Hi He.
  - cbn [unmap_run]. apply returns_Ok. rewrite Z.sub_diag, Z.add_0_r. by eapply wstep_refl.
  - cbn [unmap_run]. pose proof (top_range mmu_config). replace (p + 8 * index + 8 * i) with (p + 8 * (index + i)) by lia.
    assert (own_at 1 (index + i) = true) as Ho by (apply own_below; lia).
    destruct (t_entry _ _ _ _ _ T _ _ _ (index + i) Hp ltac:(lia) Ho) as (e0 & He0 & _).
    rewrite (load_Ok _ _ _ He0), bind_Ok, (store_Ok _ _ _ _ He0), bind_Ok.
    pose proof (none_below w P (n * entries + (index + i)) T) as Hnone.
    pose proof (wstep_write w P 1 n p (index + i) e0 0 T Hp ltac:(lia) Ho Hnone He0 (or_introl pl_absent)) as W.
    rewrite pl_absent in W. cbn [Z.b2z] in W.
    set (removed1 := if ARCH_PTE_PRESENT e0 then removed + 1 else removed).
    assert (0 - Z.b2z (ARCH_PTE_PRESENT e0) = removed - removed1) as Ed by (unfold removed1; destruct (ARCH_PTE_PRESENT e0); cbn; lia). rewrite Ed in W.
    destruct (IH (<[p + 8 * (index + i) := 0]> w) (i + 1) removed1) as ([a w'] & -> & W'); try done; [apply W|lia|lia|].
    apply returns_Ok. replace (removed - a) with (removed - removed1 + (removed1 - a)) by lia. pose proof (sz_pos 1 ltac:(lia)).
    eapply (wstep_trans _ _ _ P 1 n p _ _ _ ((n * entries + index + (i + 1)) * sz 1)); [done|nia| |].
    + replace (n * entries + (index + i)) with (n * entries + index + i) in W by lia.
      replace (n * entries + index + i + 1) with (n * entries + index + (i + 1)) in W by lia.
      eapply wstep_ext; [|exact W]. intros va _ _. unfold entry_xlate. by rewrite pl_absent.
    + replace (n * entries + index + i + Z.of_nat (S cnt)) with (n * entries + index + (i + 1) + Z.of_nat cnt) by lia. done.
Qed.

(** ** No empty tables

    Every table but the root and the one named [x] has an entry; the boot
    code's tables, which the allocator does not manage, do not matter. *)
Definition trimmed s B P (x : Z * Z) : Prop :=
  forall l n p, P !! (l, n) = Some p -> l < top -> (l, n) <> x -> B !! p = Some (0, BAlloc) -> 0 < count (words s) l p.
Definition nokey : Z * Z := (0, 0).

Lemma count_present w l p i e : 0 <= i < entries -> own_at l i = true -> w !! (p + 8 * i) = Some e -> ARCH_PTE_PRESENT e = true -> 0 < count w l p.
Proof using All.
  intros Hi Ho He Hpr. pose proof (count_write mmu_config own w l p i e 0 Hi Ho He) as E. rewrite Hpr, pl_absent in E. cbn [Z.b2z] in E.
  pose proof (count_bound mmu_config own (<[p + 8 * i := 0]> w) l p). lia.
Qed.

(** A page that was in use before and is handed out now was handed out before. *)
Lemma was_alloc st B B' p : buddy_inv R st B' -> in_use R B p -> B' !! p = Some (0, BAlloc) -> B !! p = Some (0, BAlloc).
Proof using All.
  intros [xss I] [_ [?|Hu]] Hp; [done|]. exfalso. destruct (i_block _ _ _ _ I _ _ _ Hp) as (Hk & _ & m & (b & Hb & H1 & H2) & _).
  apply (Hu b m Hb). pose proof (bsize_pos 0 Hk). unfold in_block. lia.
Qed.

(** ** Hanging a table below an entry *)
Lemma twf_ext w w' P : (forall l n p i, P !! (l, n) = Some p -> 0 <= i < entries -> w' !! (p + 8 * i) = w !! (p + 8 * i)) -> twf w P root -> twf w' P root.
Proof using All.
  intros E [T1 T2 T3 T4 T5]. split; try done. intros l n p i Hp Hi Ho. rewrite (E l n p i Hp Hi). eauto.
Qed.

(** Page [c] has been filled; nothing else has changed. *)
Definition filled w w1 (c : Z) : Prop := forall a, ~ in_page c a -> w1 !! a = w !! a.

Section Hang.
Context w w1 P (l n p i e0 e c : Z).
Context (T : twf w P root) (F : filled w w1 c) (Hp : P !! (l, n) = Some p) (Hi : 0 <= i < entries) (Ho : own_at l i = true) (Hl : 2 <= l)
  (Hn : P !! (l - 1, n * entries + i) = None) (Hc : phys_ok c) (Hc0 : c <> 0) (Hf : fresh_page P c) (He : is_table l e c)
  (He0 : w !! (p + 8 * i) = Some e0)
  (Hw : forall j, 0 <= j < entries -> exists x, w1 !! (c + 8 * j) = Some x /\ (absent x \/ is_leaf (l - 1) x)).
#[local] Abbreviation w2 := (<[p + 8 * i := e]> w1).
#[local] Abbreviation P2 := (<[(l - 1, n * entries + i) := c]> P).

Lemma filled_word l' n' p' j : P !! (l', n') = Some p' -> 0 <= j < entries -> w1 !! (p' + 8 * j) = w !! (p' + 8 * j).
Proof using cfg_ok L PL G R_phys T F Hc Hf. intros Hp' Hj. apply F. by apply (fresh_apart mmu_config own w P root c l' n'). Qed.

Lemma filled_twf : twf w1 P root.
Proof using cfg_ok L PL G R_phys T F Hc Hf. eapply twf_ext; [|exact T]. intros l' n' p' j. apply filled_word. Qed.

Lemma filled_xlate va : owned va -> xlate w1 root va = xlate w root va.
Proof using cfg_ok L PL G R_phys T F Hc Hf.
  intros Hv. eapply xlate_local; [exact T|done|]. intros l' p' Hp'. by apply (filled_word l' (num (l' + 1) va)), idx_range.
Qed.

Lemma hang_twf : twf w2 P2 root.
Proof using cfg_ok L PL G R_phys T F Hp Hi Ho Hl Hn Hc Hc0 Hf He Hw. apply twf_hang; try done. apply filled_twf. Qed.

Lemma hang_xlate va :
  owned va -> (num l va = n * entries + i -> forall x, w1 !! (c + 8 * idx (l - 1) va) = Some x -> entry_xlate (l - 1) va x = xlate w root va) ->
  xlate w2 root va = xlate w root va.
Proof using cfg_ok L PL G R_phys T F Hp Hi Ho Hl Hn Hc Hc0 Hf He Hw.
  intros Hv Hx. rewrite <- (filled_xlate va Hv) in *. eapply xlate_hang; try done. apply filled_twf.
Qed.

Lemma hang_count l' n' p' :
  P2 !! (l', n') = Some p' ->
  count w2 l' p' = if decide (p' = c) then count w1 (l - 1) c else
    if decide (p' = p) then count w l p + (1 - Z.b2z (ARCH_PTE_PRESENT e0)) else count w l' p'.
Proof using cfg_ok L PL G R_phys T F Hp Hi Ho Hl Hn Hc Hc0 Hf He Hw He0.
  intros [[[= <- <-] <-]|[Hne Hp']]%lookup_insert_Some.
  - rewrite decide_True by done. apply count_ext. intros j Hj. apply lookup_insert_ne. intros E.
    apply (fresh_apart mmu_config own w P root c l n p i); try done. rewrite E. by apply in_page_word.
  - rewrite decide_False by (by apply (Hf (l', n'))). destruct He as (Hpr & _).
    rewrite (count_written w1 P l n p i e0 e l' n' p' filled_twf) by (done || by rewrite (filled_word l n)).
    rewrite Hpr. cbn [Z.b2z]. rewrite (count_ext _ _ w w1 l p) by (intros; by apply (filled_word l n)).
    by rewrite (count_ext _ _ w w1 l' p') by (intros; by apply (filled_word l' n')).
Qed.

Lemma hang_frame a : ~ in_page p a -> ~ in_page c a -> w2 !! a = w !! a.
Proof using cfg_ok L PL G R_phys F Hi.
  intros H1 H2. rewrite lookup_insert_ne; [by apply F|]. intros <-. apply H1. by apply in_page_word.
Qed.

(** The invariant, when the counts of the two tables are right. *)
Lemma pinv_hang s B B' b c0 :
  pinv s B P -> words s = w -> buddy_inv R b B' -> settled B' -> ~ in_use R B c -> B' !! c = Some (0, BAlloc) ->
  page_is b c PFNDB_PAGE_PTABLE (count w1 (l - 1) c) ->
  counted b B' P c0 -> (forall l' n' p', P !! (l', n') = Some p' -> c0 l' p' = if decide (p' = p) then count w l p + (1 - Z.b2z (ARCH_PTE_PRESENT e0)) else count w l' p') ->
  (forall q, in_use R B q -> q <> p -> in_use R B' q /\ forall ty rc, page_is (pmm s) q ty rc -> page_is b q ty rc) ->
  (forall q j, q <> c -> B' !! q = Some (j, BAlloc) -> B !! q = Some (j, BAlloc)) ->
  pinv (PtState b w2 (tlb s)) B' P2 /\ others s B P (PtState b w2 (tlb s)) B' P2.
Proof using cfg_ok L PL G R_phys T F Hp Hi Ho Hl Hn Hc Hc0 Hf He Hw He0.
  intros I Es I' HS Hnu Hca Hcp C Ec K N. split.
  - split; [done|done|apply hang_twf|]. intros l' n' p' Hp'. cbn [pmm words]. rewrite (hang_count l' n' p' Hp').
    apply lookup_insert_Some in Hp' as [[_ <-]|[_ Hp']].
    + rewrite decide_True by done. split; [|right; done]. split; [|by left]. by destruct Hc.
    + rewrite decide_False by (by apply (Hf (l', n'))). rewrite <- (Ec _ _ _ Hp'). by apply (C l' n').
  - split; [|intros q j Hq Hfq; split;
      [apply N; [intros ->; by apply (Hfq (l - 1, n * entries + i) c (lookup_insert_eq _ _ _))|done]
      |intros a p' Ha; apply (Hfq a); rewrite lookup_insert_ne; [done|intros <-; congruence]]].
    intros q Hq Hfq. assert (q <> p) as Hqp by (intros ->; by apply (Hfq (l, n) p)). destruct (K q Hq Hqp) as [Hq' Hk]. split; [done|].
    assert (q <> c) as Hqc by congruence. split; [|split; [|done]].
    + intros a p' [[_ <-]|[_ Ha]]%lookup_insert_Some; [done|]. by eapply Hfq.
    + intros a (j & Hj & ->). cbn [words]. rewrite Es. apply hang_frame; intros (j' & Hj' & E).
      * destruct (word_inj q p j j') as [? _]; try done; [apply Hq|by apply (table_aligned _ _ _ _ _ T Hp)].
      * destruct (word_inj q c j j') as [? _]; try done; [apply Hq|apply Hc].
Qed.

Lemma trimmed_hang s B B' b :
  words s = w -> buddy_inv R b B' -> counted (pmm s) B P (count w) -> trimmed s B P (l, n) ->
  trimmed (PtState b w2 (tlb s)) B' P2 (l - 1, n * entries + i).
Proof using cfg_ok L PL G R_phys T F Hp Hi Ho Hl Hn Hc Hc0 Hf He Hw He0.
  intros Es I C Tr l' n' p' Hp' Hlt Hne Ha. cbn [words]. rewrite (hang_count l' n' p' Hp').
  apply lookup_insert_Some in Hp' as [[? _]|[_ Hp']]; [congruence|]. rewrite decide_False by (by apply (Hf (l', n'))).
  assert (B !! p' = Some (0, BAlloc)) as HB by (eapply was_alloc; [done|by apply (C l' n')|done]). case_decide as E.
  - subst p'. pose proof (count_bound mmu_config own w l p). destruct (ARCH_PTE_PRESENT e0) eqn:Epr; cbn [Z.b2z]; [|lia].
    pose proof (count_present w l p i e0 Hi Ho He0 Epr). lia.
  - rewrite <- Es. apply (Tr l' n' p' Hp' Hlt); [|done]. intros [= -> ->]. congruence.
Qed.
End Hang.

(** What a step that goes down from entry [i] of table [(l, n)] to the table [c] leaves. *)
Record child_post s B P (l n i c : Z) s' B' P' : Prop := {
  ch_inv : pinv s' B' P';
  ch_others : others s B P s' B' P';
  ch_child : P' !! (l - 1, n * entries + i) = Some c;
  ch_path : forall k p, P !! k = Some p -> P' !! k = Some p;
  ch_xlate : forall va, owned va -> xlate (words s') root va = xlate (words s) root va;
  ch_trim : trimmed s B P (l, n) -> trimmed s' B' P' (l - 1, n * entries + i);
  ch_tlb : tlb s' = tlb s;
}.

Section Child.
Context s B P (l n p i e0 : Z).
Context (I : pinv s B P) (Hp : P !! (l, n) = Some p) (Hi : 0 <= i < entries) (Ho : own_at l i = true) (Hl : 2 <= l)
  (He0 : words s !! (p + 8 * i) = Some e0).
#[local] Abbreviation k := (n * entries + i).

Lemma entry_facts : entry_wf mmu_config P l k e0.
Proof using cfg_ok L PL G R_phys I Hp Hi Ho He0.
  destruct (t_entry _ _ _ _ _ (p_twf _ _ _ I) _ _ _ i Hp Hi Ho) as (e & He & H). rewrite He0 in He. by injection He as <-.
Qed.

(** Entry [c] of the level below is in the table's page. *)
Lemma store_entry c e : ~ in_page c (p + 8 * i) -> store (zero_page (words s) c) (p + 8 * i) e = Ok (<[p + 8 * i := e]> (zero_page (words s) c)).
Proof using cfg_ok L PL G R_phys He0. intros H. apply (store_Ok _ _ _ e0). by rewrite zero_page_out. Qed.

Lemma fresh_alloc c : ~ in_use R B c -> fresh_page P c.
Proof using cfg_ok L PL G R_phys I. intros Hnu [l' n'] p' Hp' ->. by apply Hnu, (p_counted _ _ _ I l' n'). Qed.

Lemma new_child_ok attr :
  absent e0 ->
  done_or_oom
    ('(child, s) ← alloc_table s;
     w ← store (words s) (p + 8 * i) (ARCH_ENCODE_PTE child (ARCH_INTERMEDIATE_MMU_FLAGS attr));
     s ← update_refcnt (with_words s w) p 1;
     Ok (child, s))
    (fun '(c, s') => exists B', child_post s B P l n i c s' B' (<[(l - 1, k) := c]> P)).
Proof using cfg_ok L PL G R_phys I Hp Hi Ho Hl He0.
  intros Ha. pose proof entry_facts as Hk. unfold entry_wf in Hk. unfold absent in Ha.
  assert (P !! (l - 1, k) = None) as Hn by (destruct (P !! (l - 1, k)); [destruct Hk; congruence|done]). clear Hk.
  eapply done_bind; [by apply (alloc_table_ok s B); apply I|]. intros [c s1] (B' & I1 & HS1 & K & Ew & Et & Hca & Hnu & Hc & Hc0 & Hcp & N).
  rewrite Ew. pose proof (fresh_alloc c Hnu) as Hf. pose proof (p_twf _ _ _ I) as T.
  rewrite store_entry by (by apply (fresh_apart mmu_config own (words s) P root c l n)). rewrite bind_Ok.
  set (e := ARCH_ENCODE_PTE c _). destruct (pl_table_entry attr c Hc Hc0) as (E1 & E2 & E3). fold e in E1, E2, E3.
  assert (is_table l e c) as He by (split; [done|]; split; [by apply E3|done]).
  assert (filled (words s) (zero_page (words s) c) c) as F by (intros a Hna; by apply zero_page_out).
  assert (forall j, 0 <= j < entries -> exists x, zero_page (words s) c !! (c + 8 * j) = Some x /\ absent x) as Hz.
  { intros j Hj. exists 0. split; [|apply pl_absent]. by apply zero_page_in, in_page_word. }
  assert (forall j, 0 <= j < entries -> exists x, zero_page (words s) c !! (c + 8 * j) = Some x /\ (absent x \/ is_leaf (l - 1) x)) as Hw.
  { intros j Hj. destruct (Hz j Hj) as (x & Hx & Hax). eauto. }
  pose proof (counted_keeps _ _ _ _ _ _ K (p_counted _ _ _ I)) as C1. pose proof (table_aligned _ _ _ _ _ T Hp) as Hal.
  pose proof (count_bound mmu_config own (words s) l p) as Hb.
  assert (count (words s) l p + 1 <= entries) as Hb1.
  { pose proof (count_write mmu_config own (words s) l p i e0 e Hi Ho He0) as Ec. rewrite Ha, E1 in Ec. cbn [Z.b2z] in Ec.
    pose proof (count_bound mmu_config own (<[p + 8 * i := e]> (words s)) l p). lia. }
  destruct (update_refcnt_ok (with_words s1 (<[p + 8 * i := e]> (zero_page (words s) c))) B' P (count (words s)) l n p 1 I1 C1 Hal Hp Hb ltac:(lia))
    as (b & -> & I2 & C2 & K2). rewrite bind_Ok. cbn [done_or_oom]. exists B'.
  assert (with_pmm (with_words s1 (<[p + 8 * i := e]> (zero_page (words s) c))) b = PtState b (<[p + 8 * i := e]> (zero_page (words s) c)) (tlb s)) as ->
    by (unfold with_pmm, with_words; cbn; by rewrite Et).
  assert (c <> p) as Hcne by (intros ->; by apply (Hf (l, n) p)).
  assert (page_is b c PFNDB_PAGE_PTABLE (count (zero_page (words s) c) (l - 1) c)) as Hcp'.
  { rewrite count_none by done. destruct (K2 c) as (_ & _ & Hk2); [split; [by destruct Hc|by left]|by intros ->%list_elem_of_singleton|]. by apply Hk2. }
  destruct (pinv_hang (words s) _ P l n p i e0 e c T F Hp Hi Ho Hl Hn Hc Hc0 Hf He He0 Hw s B B' b _ I eq_refl I2 HS1 Hnu Hca Hcp' C2) as [I3 O3].
  { intros l' n' p' Hp'. cbn. rewrite Ha. cbn [Z.b2z]. case_decide; lia. }
  { intros q Hq Hne. destruct (K q Hq (not_elem_of_nil _)) as (Hq1 & _ & Hk1). destruct (K2 q Hq1) as (Hq2 & _ & Hk2); [by intros ->%list_elem_of_singleton|].
    split; [done|]. auto. }
  { exact N. }
  split; [done|done|apply lookup_insert_eq| | | |done].
  - intros k' p' Hk'. rewrite lookup_insert_ne; [done|]. intros <-. congruence.
  - intros va Hv. eapply hang_xlate; try done. intros Eva x Hx. cbn [words].
    destruct (Hz (idx (l - 1) va) (idx_range _ _)) as (x' & Hx' & Hax). rewrite Hx in Hx'. injection Hx' as <-. unfold entry_xlate. rewrite Hax.
    destruct (proj1 (num_eq l va n i ltac:(lia) Hi) Eva) as [En Ei].
    rewrite (xlate_at mmu_config own (words s) P root va l p e0 T Hv); [unfold entry_xlate; by rewrite Ha|by rewrite En|by rewrite Ei|by rewrite Eva].
  - eapply trimmed_hang; try done. apply I.
Qed.
End Child.

(** *** Splitting a leaf *)
Lemma split_fill_ok c base es flags cnt : forall w i,
  0 <= i -> (forall j, i <= j < i + Z.of_nat cnt -> is_Some (w !! (c + 8 * j))) ->
  exists w', split_fill cnt w c base es flags i = Ok w' /\
    (forall j, i <= j < i + Z.of_nat cnt -> w' !! (c + 8 * j) = Some (ARCH_ENCODE_PTE (u64 (base + j * es)) flags)) /\
    (forall a, (forall j, i <= j < i + Z.of_nat cnt -> a <> c + 8 * j) -> w' !! a = w !! a).
Proof using All.
  induction cnt as [|cnt IH]; intros w i Hi Hw.
  - exists w. split; [done|]. split; [intros; lia|done].
  - cbn [split_fill]. replace (c + i * 8) with (c + 8 * i) by lia. destruct (Hw i ltac:(lia)) as [x Hx]. rewrite (store_Ok _ _ _ _ Hx), bind_Ok.
    destruct (IH (<[c + 8 * i := ARCH_ENCODE_PTE (u64 (base + i * es)) flags]> w) (i + 1)) as (w' & -> & Hin & Hout); [lia| |].
    + intros j Hj. rewrite lookup_insert_ne by lia. apply Hw. lia.
    + exists w'. split; [done|]. split.
      * intros j Hj. destruct (decide (j = i)) as [->|Hne]; [|apply Hin; lia]. rewrite Hout by lia. apply lookup_insert_eq.
      * intros a Ha. rewrite Hout by (intros j Hj; apply Ha; lia). apply lookup_insert_ne. intros <-. by apply (Ha i); [lia|].
Qed.

Lemma sz_52 l : 2 <= l <= 3 -> (sz l | 2 ^ 52).
Proof using All.
  intros Hl. pose proof shift_range. pose proof (pl_bits (A := A)). exists (2 ^ (52 - PAGING_ENTRY_SHIFT l)). unfold sz, PAGING_ENTRY_SHIFT.
  rewrite <- Z.pow_add_r by nia. f_equal. lia.
Qed.

Lemma phys_end l pa : 2 <= l <= 3 -> phys_ok pa -> (sz l | pa) -> pa + sz l <= 2 ^ 52.
Proof using All.
  intros Hl [Hp _] [x Hx]. destruct (sz_52 l Hl) as [y Hy]. pose proof (sz_pos l ltac:(lia)). rewrite Hy in Hp |- *. subst pa.
  assert (x < y) by nia. nia.
Qed.

(** The entries of the split: leaves of the level below that say the same. *)
Lemma split_entry l k pa attr j va :
  2 <= l <= 3 -> phys_ok pa -> (sz l | pa) -> 0 <= j < entries ->
  let x := ARCH_ENCODE_PTE (u64 (pa + j * sz (l - 1))) (leaf_flags mmu_config (l - 1) (prot_norm mmu_config attr)) in
  is_leaf (l - 1) x /\
  (num l va = k -> idx (l - 1) va = j -> entry_xlate (l - 1) va x = entry_xlate l va (ARCH_ENCODE_PTE pa (leaf_flags mmu_config l attr))).
Proof using All.
  intros Hl Hp Hd Hj. cbv zeta. pose proof (phys_end l pa Hl Hp Hd) as Hend. pose proof (sz_pos (l - 1) ltac:(lia)) as Hs.
  pose proof (sz_succ (l - 1) ltac:(lia)) as Es. rewrite Z.sub_add in Es.
  assert (phys_ok (pa + j * sz (l - 1))) as Hok.
  { destruct Hp as [H0 H1]. split; [nia|]. apply Z.divide_add_r; [done|]. apply Z.divide_mul_r. rewrite <- PAGE_SIZE_eq, <- sz_1. apply sz_divide. lia. }
  assert (sz (l - 1) | pa + j * sz (l - 1)) as Hal.
  { apply Z.divide_add_r; [|apply Z.divide_factor_r]. eapply Z.divide_trans; [|exact Hd]. apply sz_divide. lia. }
  rewrite u64_small by (unfold is_u64; destruct Hok; lia).
  destruct (leaf_entry (l - 1) (prot_norm mmu_config attr) _ Hok Hal) as [H1 H2]; [unfold level_ok; lia|].
  destruct (leaf_entry l attr pa Hp Hd) as [_ H4]; [unfold level_ok; lia|]. split; [done|]. intros _ <-. rewrite H2, H4, pp_idem.
  do 2 f_equal. unfold idx, num. rewrite Es, Z.rem_mul_r by (pose proof entries_pos; lia). lia.
Qed.

Section Split.
Context s B P (l n p i e0 : Z).
Context (I : pinv s B P) (Hp : P !! (l, n) = Some p) (Hi : 0 <= i < entries) (Ho : own_at l i = true) (Hl : 2 <= l)
  (He0 : words s !! (p + 8 * i) = Some e0).
#[local] Abbreviation k := (n * entries + i).

Lemma split_leaf_ok :
  ARCH_PTE_PRESENT e0 = true -> ARCH_PTE_IS_LEAF e0 l = true ->
  done_or_oom (paging_split_leaf mmu_config s (p + 8 * i) l)
    (fun '(c, s') => exists B', child_post s B P l n i c s' B' (<[(l - 1, k) := c]> P)).
Proof using cfg_ok L PL G R_phys I Hp Hi Ho Hl He0.
  intros Hpr Hlf. pose proof (entry_facts s B P l n p i e0 I Hp Hi Ho He0) as Hk. unfold entry_wf in Hk.
  assert (P !! (l - 1, k) = None /\ leaf_ok mmu_config l e0) as [Hn Hlok].
  { destruct (P !! (l - 1, k)); [destruct Hk as (_ & ? & _); congruence|]. destruct Hk as [Ha|(_ & _ & ?)]; [unfold absent in Ha; congruence|done]. }
  clear Hk. destruct Hlok as (pa & attr & Hpa & Hd & Hlev & Ee0). assert (2 <= l <= 3) as Hl3 by (unfold level_ok in Hlev; lia).
  pose proof (p_twf _ _ _ I) as T. destruct (t_page _ _ _ _ _ T _ _ _ Hp) as (Hlt & _).
  unfold paging_split_leaf. rewrite (load_Ok _ _ _ He0), bind_Ok.
  assert (ARCH_DECODE_LARGE_PTE e0 = pa /\ mmu_flags_to_prot e0 l = prot_norm mmu_config attr) as [-> ->].
  { unfold leaf_flags in Ee0. rewrite (proj2 (Z.eqb_neq l 1)) in Ee0 by lia. cbn [negb] in Ee0. rewrite Ee0.
    destruct (pl_large_entry mmu_config attr pa l Hpa Hl3 Hd) as (_ & H & _). split; [done|by apply pp_large]. }
  set (pr := prot_norm mmu_config attr). eapply done_bind; [by apply (alloc_table_ok s B); apply I|].
  intros [c s1] (B' & I1 & HS1 & K & Ew & Et & Hca & Hnu & Hc & Hc0 & Hcp & N). pose proof (fresh_alloc s B P I c Hnu) as Hf.
  assert ((if l >? 2 then arch_large_page_fixup (prot_to_mmu_flags mmu_config pr) else prot_to_mmu_flags mmu_config pr) = leaf_flags mmu_config (l - 1) pr) as ->.
  { unfold leaf_flags. assert (l = 2 \/ l = 3) as [-> | ->] by lia; done. }
  rewrite (PAGING_ENTRY_SIZE_eq mmu_config) by lia. rewrite PAGING_TABLE_ENTRIES_eq, Ew.
  destruct (split_fill_ok c pa (sz (l - 1)) (leaf_flags mmu_config (l - 1) pr) (Z.to_nat entries) (zero_page (words s) c) 0) as (w1 & -> & Hin & Hout); [lia| |].
  { intros j Hj. exists 0. apply zero_page_in, in_page_word. lia. }
  rewrite bind_Ok. pose proof entries_pos. rewrite Z2Nat.id in Hin, Hout by lia.
  assert (filled (words s) w1 c) as F.
  { intros a Ha. rewrite Hout; [by apply zero_page_out|]. intros j Hj ->. apply Ha, in_page_word. lia. }
  assert (forall j, 0 <= j < entries -> exists x, w1 !! (c + 8 * j) = Some x /\ (absent x \/ is_leaf (l - 1) x)) as Hw.
  { intros j Hj. rewrite Hin by lia. eexists. split; [done|]. right. by apply (split_entry l k pa attr j 0). }
  assert (count w1 (l - 1) c = entries) as Ecnt.
  { apply count_all; [lia|]. intros j Hj. destruct (split_entry l k pa attr j 0 Hl3 Hpa Hd Hj) as [(H1 & _) _]. rewrite Hin by lia. eauto. }
  destruct (update_managed_ok (with_words s1 w1) B' c 0 entries I1 Hca Hcp) as (b & -> & I2 & Hcp2 & K2); [by destruct Hc|lia|lia|].
  rewrite bind_Ok. cbn [words with_pmm with_words]. set (e := ARCH_ENCODE_PTE c _).
  assert (w1 !! (p + 8 * i) = Some e0) as He1 by (rewrite F; [done|by apply (fresh_apart mmu_config own (words s) P root c l n)]).
  rewrite (store_Ok _ _ _ _ He1), bind_Ok. cbn [done_or_oom]. exists B'.
  destruct (pl_table_entry pr c Hc Hc0) as (E1 & E2 & E3). fold e in E1, E2, E3.
  assert (is_table l e c) as He by (split; [done|]; split; [by apply E3|done]).
  assert (with_words (with_pmm (with_words s1 w1) b) (<[p + 8 * i := e]> w1) = PtState b (<[p + 8 * i := e]> w1) (tlb s)) as ->
    by (unfold with_pmm, with_words; cbn; by rewrite Et).
  assert (page_is b c PFNDB_PAGE_PTABLE (count w1 (l - 1) c)) as Hcp'.
  { by rewrite Ecnt. }
  assert (counted b B' P (count (words s))) as C3.
  { intros l' n' p' Hp'. destruct (p_counted _ _ _ I l' n' p' Hp') as [Hu Hcnt]. destruct (K p' Hu (not_elem_of_nil _)) as (Hu1 & Ha1 & Hk1).
    destruct (K2 p' Hu1) as (Hu2 & Ha2 & Hk2); [intros ->%list_elem_of_singleton; by apply (Hf (l', n') c)|]. split; [done|].
    destruct Hcnt as [[Hun [rc Hcnt]]|[Hcnt1 Hcnt2]]; [left; eauto|right; auto]. }
  destruct (pinv_hang (words s) w1 P l n p i e0 e c T F Hp Hi Ho Hl Hn Hc Hc0 Hf He He0 Hw s B B' b _ I eq_refl I2 HS1 Hnu Hca Hcp' C3) as [I3 O3].
  { intros l' n' p' Hp'. rewrite Hpr. cbn [Z.b2z]. case_decide as E; [|done]. subst p'. pose proof (t_inj _ _ _ _ _ T _ _ _ Hp Hp') as E. injection E as <- <-. lia. }
  { intros q Hq Hne. destruct (K q Hq (not_elem_of_nil _)) as (Hq1 & _ & Hk1). destruct (K2 q Hq1) as (Hq2 & _ & Hk2); [intros ->%list_elem_of_singleton; done|]. auto. }
  { exact N. }
  split; [done|done|apply lookup_insert_eq| | | |done].
  - intros k' p' Hk'. rewrite lookup_insert_ne; [done|]. intros <-. congruence.
  - intros va Hv. eapply hang_xlate; try done. intros Eva x Hx. rewrite Hin in Hx by apply idx_range. injection Hx as <-.
    destruct (split_entry l k pa attr (idx (l - 1) va) va Hl3 Hpa Hd (idx_range _ _)) as [_ Hxl]. unfold pr. rewrite (Hxl Eva eq_refl), <- Ee0.
    destruct (proj1 (num_eq l va n i ltac:(lia) Hi) Eva) as [En Ei]. symmetry.
    apply (xlate_at mmu_config own (words s) P root va l p e0 T Hv); [by rewrite En|by rewrite Ei|by rewrite Eva].
  - eapply trimmed_hang; try done. apply I.
Qed.
End Split.

(** ** Tables that are empty go back *)
Lemma unmanaged_not_alloc st B p : buddy_inv R st B -> unmanaged p -> B !! p <> Some (0, BAlloc).
Proof using All.
  intros [xss I] Hu Hp. destruct (i_block _ _ _ _ I _ _ _ Hp) as (Hk & _ & m & (b & Hb & H1 & H2) & _).
  apply (Hu b m Hb). pose proof (bsize_pos 0 Hk). unfold in_block. lia.
Qed.

Lemma trimmed_nokey s B P l n p : P !! (l, n) = Some p -> (B !! p = Some (0, BAlloc) -> l < top -> 0 < count (words s) l p) -> trimmed s B P (l, n) -> trimmed s B P nokey.
Proof using All.
  intros Hp Hc Tr l' n' p' Hp' Hl _ Ha. destruct (decide ((l', n') = (l, n))) as [E|E]; [|by apply (Tr l' n' p')].
  injection E as -> ->. rewrite Hp in Hp'. injection Hp' as <-. auto.
Qed.

(** What giving back table [(l - 1, k)], or not, leaves. *)
Record freed_post s B P (l n k : Z) s' B' P' : Prop := {
  fp_inv : pinv s' B' P';
  fp_others : others s B P s' B' P';
  fp_path : forall k', k' <> (l - 1, k) -> P' !! k' = P !! k';
  fp_xlate : forall va, owned va -> xlate (words s') root va = xlate (words s) root va;
  fp_small : forall va, owned va -> is_Some (P !! (1, num 2 va)) -> xlate (words s) root va <> None -> is_Some (P' !! (1, num 2 va));
  fp_tlb : tlb s' = tlb s;
}.

Lemma not_single (q p : Z) : q <> p -> q ∉ [p].
Proof using Type. by intros Hne ->%list_elem_of_singleton. Qed.

Section TryFree.
Context s B P (tables : gmap Z Z) (l n p i c vaddr : Z).
Context (I : pinv s B P) (Hp : P !! (l, n) = Some p) (Hi : 0 <= i < entries) (Hc : P !! (l - 1, n * entries + i) = Some c).
Context (Hti : tables !! l = Some p) (Htc : tables !! (l - 1) = Some c) (Hx : PAGING_INDEX vaddr l = i).
#[local] Abbreviation k := (n * entries + i).

Lemma free_levels : 2 <= l <= top /\ own_at l i = true.
Proof using All.
  pose proof (p_twf _ _ _ I) as T. destruct (t_page _ _ _ _ _ T _ _ _ Hp) as (Hl & _). destruct (t_page _ _ _ _ _ T _ _ _ Hc) as (Hl1 & _).
  split; [lia|]. destruct (t_parent _ _ _ _ _ T _ _ _ Hc ltac:(lia)) as [_ Ho]. rewrite Z.sub_add in Ho.
  pose proof entries_pos. by rewrite Z.add_comm, Z.mod_add, Z.mod_small in Ho by lia.
Qed.

Lemma free_empty :
  count (words s) (l - 1) c = 0 -> B !! c = Some (0, BAlloc) -> trimmed s B P (l - 1, k) ->
  exists s' B' P',
    (w ← store (words s) (p + 8 * i) 0; s ← update_refcnt (with_words s w) p (-1); s ← free_table s c; Ok (true, s)) = Ok (true, s') /\
    freed_post s B P l n k s' B' P' /\ trimmed s' B' P' (l, n).
Proof using All.
  intros H0 Hca Tr. destruct free_levels as [Hl Ho]. pose proof (p_twf _ _ _ I) as T. pose proof (table_aligned _ _ _ _ _ T Hp) as Hal.
  destruct (t_entry _ _ _ _ _ T _ _ _ i Hp Hi Ho) as (e & He & Hw). unfold entry_wf in Hw. rewrite Hc in Hw. destruct Hw as (Hpr & _).
  rewrite (store_Ok _ _ _ _ He), bind_Ok. set (w1 := <[p + 8 * i := 0]> (words s)).
  pose proof (count_present _ _ _ _ _ Hi Ho He Hpr) as Hpos. pose proof (count_bound mmu_config own (words s) l p) as Hb.
  destruct (update_refcnt_ok (with_words s w1) B P (count (words s)) l n p (-1) (p_buddy _ _ _ I) (p_counted _ _ _ I) Hal Hp Hb ltac:(lia)) as (b & -> & I1 & C1 & K1).
  rewrite bind_Ok. unfold free_table. destruct (free_page_ok R b B c I1 (p_settled _ _ _ I) Hca) as (b' & B' & E & I2 & HS2 & K2 & N2). cbn [pmm with_pmm].
  rewrite E, !bind_Ok. eexists _, B', (delete (l - 1, k) P). split; [done|]. cbn [words with_pmm with_words tlb].
  pose proof (count_empty _ _ _ _ _ _ _ _ T Hc ltac:(lia) H0) as Hemp.
  pose proof (twf_drop mmu_config own (words s) P root l n p i c T Hp Hi Hc Hemp) as T'.
  assert (forall l' n' p', delete (l - 1, k) P !! (l', n') = Some p' -> P !! (l', n') = Some p' /\ p' <> c /\
    count (drop_page w1 c) l' p' = if decide (p' = p) then count (words s) l p + -1 else count (words s) l' p') as Hcnt.
  { intros l' n' p' Hp'. pose proof (drop_entry mmu_config own (words s) P root l n p i c T Hc l' n' p') as Hd. 
    assert (count (drop_page w1 c) l' p' = count w1 l' p') as -> by (apply count_ext; intros j Hj; by apply Hd).
    apply lookup_delete_Some in Hp' as [Hne Hp']. split; [done|]. split; [intros ->; apply Hne; by apply (t_inj _ _ _ _ _ T _ _ _ Hc Hp')|].
    unfold w1. rewrite (count_written _ _ _ _ _ _ _ 0 _ _ _ T Hp Hi Ho He Hp'), Hpr, pl_absent. done. }
  split; [split|].
  - split; [done|done|exact T'|]. intros l' n' p' Hp'. cbn [pmm words]. destruct (Hcnt l' n' p' Hp') as (HP & Hne & ->).
    destruct (C1 l' n' p' HP) as [Hu Hcc]. destruct (K2 p' Hu (not_single _ _ Hne)) as (Hu' & Ha' & Hk). split; [done|].
    destruct Hcc as [[Hun [rc Hcc]]|[Ha Hcc]]; [left; eauto|right; auto].
  - split; [|intros q j Hq Hf; destruct (N2 q j Hq) as [Hq' Hne]; split; [done|]; intros a p' Ha; destruct (decide (a = (l - 1, k))) as [->|Hk];
      [congruence|apply (Hf a); by rewrite lookup_delete_ne]].
    intros q Hq Hf. cbn [pmm words]. assert (q <> p /\ q <> c) as [Hqp Hqc] by (split; intros ->; [by apply (Hf (l, n) p)|by apply (Hf (l - 1, k) c)]).
    destruct (K1 q Hq (not_single _ _ Hqp)) as (Hq1 & _ & Hk1). destruct (K2 q Hq1 (not_single _ _ Hqc)) as (Hq2 & _ & Hk2). split; [done|].
    split; [intros a p' [_ Ha]%lookup_delete_Some; by eapply Hf|]. split; [|auto]. intros a (j & Hj & ->).
    pose proof (table_aligned _ _ _ _ _ T Hc) as Hcal. pose proof (proj1 Hq) as Hqal.
    rewrite drop_page_out; [unfold w1; apply lookup_insert_ne|]; [intros Ea|intros (j' & Hj' & Ea)].
    + destruct (word_inj p q i j) as [? _]; done.
    + destruct (word_inj q c j j') as [? _]; done.
  - intros k' Hk'. by rewrite lookup_delete_ne.
  - intros va Hv. cbn [words]. by apply (xlate_drop mmu_config own (words s) P root l n p i c).
  - intros va Hv HP Hxv. destruct (decide ((1, num 2 va) = (l - 1, k))) as [E1|E1]; [|by rewrite lookup_delete_ne]. exfalso. apply Hxv.
    assert (l = 2 /\ num 2 va = k) as [-> Ek] by (injection E1; lia). destruct (Hemp (idx 1 va) (idx_range _ _)) as (x & Hw & Hab).
    rewrite (xlate_at mmu_config own (words s) P root va 1 c x T Hv); [unfold entry_xlate; by rewrite Hab|by change (1 + 1) with 2; rewrite Ek|done|by apply (none_below (words s))].
  - done.
  - intros l' n' p' Hp' Hl' Hne Ha. cbn [words]. destruct (Hcnt l' n' p' Hp') as (HP & Hnc & ->). apply lookup_delete_Some in Hp' as [Hk' _].
    rewrite decide_False; [|intros ->; apply Hne; by apply (t_inj _ _ _ _ _ T _ _ _ HP Hp)].
    apply (Tr l' n' p' HP Hl'); [congruence|]. eapply was_alloc; [exact I2|apply (p_counted _ _ _ I l' n' p' HP)|done].
Qed.

Lemma try_free_ok :
  trimmed s B P (l - 1, k) ->
  exists freed s' B' P', paging_try_free_table mmu_config s tables (l - 1) vaddr = Ok (freed, s') /\ freed_post s B P l n k s' B' P' /\
    if freed then trimmed s' B' P' (l, n) else trimmed s' B' P' nokey.
Proof using All.
  intros Tr. destruct free_levels as [Hl Ho]. unfold paging_try_free_table. rewrite Z.geb_leb, (proj2 (Z.leb_gt top (l - 1))) by lia.
  rewrite (load_Ok _ _ _ Htc), bind_Ok. unfold get_refcnt.
  assert (freed_post s B P l n k s B P) as Hsame by (split; [done|apply others_refl|done..]).
  destruct (p_counted _ _ _ I _ _ _ Hc) as [Hu [[Hun [rc (pg & Hpg & Hty & _)]]|[Ha (pg & Hpg & Hty & Hrc)]]]; rewrite (load_Ok _ _ _ Hpg), bind_Ok.
  - rewrite bool_decide_eq_true_2 by done. rewrite bind_Ok. change (negb (UINT32_MAX =? 0)) with true. cbv iota. exists false, s, B, P.
    split; [done|]. split; [done|]. eapply trimmed_nokey; [exact Hc| |done]. intros Hb. by destruct (unmanaged_not_alloc _ _ _ (p_buddy _ _ _ I) Hun).
  - rewrite bool_decide_eq_false_2 by congruence. rewrite (bool_decide_eq_true_2 (type pg = _)) by done. cbn [dbg_assert]. rewrite !bind_Ok, Hrc.
    pose proof (count_bound mmu_config own (words s) (l - 1) c). destruct (Z.eqb_spec (count (words s) (l - 1) c) 0) as [E0|E0]; cbn [negb].
    + rewrite Z.sub_add, (load_Ok _ _ _ Hti), bind_Ok, Hx. destruct (free_empty E0 Ha Tr) as (s' & B' & P' & -> & FP & Tr'). exists true, s', B', P'. done.
    + exists false, s, B, P. split; [done|]. split; [done|]. eapply trimmed_nokey; [exact Hc| |done]. intros _ _. lia.
Qed.
End TryFree.
End Spec.
