(* ===== verification/PagingMap.v ===== *)
(** * paging_map_range and paging_unmap_range

    The two loops walk the tables with a cursor; [cursor] says what their
    variables mean.  The theorems: mapping a range makes exactly its addresses
    translate to the physical range with the protection asked for, unmapping
    makes exactly its addresses untranslated; both keep the counts, give back
    every table that became empty, touch nobody else's pages and return
    unless memory runs out. *)

From S2P Require Import Prelude LList Pfndb Buddy BuddyInv BuddySpec PagingArch Paging PagingRep PagingPmm PagingSpec.
#[local] Open Scope Z_scope.

Section Loops.
Context {cfg : kconfig} {cfg_ok : kconfig_ok cfg} {A : PagingArch} {L : PagingLaws A} {PL : ProtLaws A}.
Context (mmu_config : Z) (own : Z -> bool) {G : geometry mmu_config}.
Context (R : regions) (root : Z).
Context (R_phys : forall b m, (b, m) ∈ R -> b + bsize m <= 2 ^ 52).
(** The range is in one copy of the translated space: its addresses are
    [H + v] for [v] below [space]. *)
Context (H : Z) (H_space : (space mmu_config | H)).

Abbreviation top := (top_level mmu_config).
Abbreviation space := (space mmu_config).
Abbreviation xlate := (xlate mmu_config).
Abbreviation owned := (owned mmu_config own).
Abbreviation own_at := (own_at mmu_config own).
Abbreviation count := (count mmu_config own).
Abbreviation pinv := (pinv mmu_config own R root).
Abbreviation trimmed := (trimmed mmu_config own).
Abbreviation done_or_oom := (done_or_oom R).
Implicit Types (s : pt_state) (B : blocks) (P : table_map) (w : table_words) (tables : gmap Z Z).

(** ** Addresses *)
Lemma num_chain l j a b : 1 <= l <= j -> num l a = num l b -> num j a = num j b.
Proof using All.
  intros Hl E. replace j with (l + Z.of_nat (Z.to_nat (j - l))) by lia. induction (Z.to_nat (j - l)) as [|d IH]; [by rewrite Z.add_0_r|].
  replace (l + Z.of_nat (S d)) with (l + Z.of_nat d + 1) by lia. by rewrite !num_up, IH by lia.
Qed.

Lemma space_pos : 0 < space.
Proof using All. pose proof (top_range mmu_config). apply sz_pos. lia. Qed.

Lemma space_64 : (space | 2 ^ 64).
Proof using All. pose proof (top_range mmu_config). apply (sz_64 mmu_config). lia. Qed.

Lemma below_space a : 0 <= a -> num (top + 1) a = 0 <-> a < space.
Proof using All.
  intros Ha. pose proof space_pos. unfold num. fold space. split; [|intros; by apply Z.div_small].
  intros E. pose proof (Z.div_mod a space). pose proof (Z.mod_pos_bound a space). lia.
Qed.

Lemma index_raw l v : 1 <= l <= top -> PAGING_INDEX (u64 (H + v)) l = idx l v.
Proof using All.
  intros Hl. rewrite PAGING_INDEX_eq by lia. rewrite <- (idx_mod mmu_config l (u64 (H + v)) Hl), <- (idx_mod mmu_config l v Hl). f_equal.
  pose proof space_pos. destruct space_64 as [q Hq]. destruct H_space as [h Hh]. unfold u64. rewrite Hq, Hh.
  rewrite (Z.mul_comm q), Z.rem_mul_r by (pose proof space_pos; nia). rewrite (Z.mul_comm space), Z.mod_add, Z.mod_mod by lia.
  by rewrite Z.add_comm, Z.mod_add by lia.
Qed.

Lemma raw_add v a : u64 (u64 (H + v) + a) = u64 (H + (v + a)).
Proof using All. unfold u64. rewrite Zplus_mod_idemp_l. f_equal. lia. Qed.

Lemma raw_sub v a : u64 (u64 (H + v) - a) = u64 (H + (v - a)).
Proof using All. unfold u64. rewrite Zminus_mod_idemp_l. f_equal. lia. Qed.

Lemma raw_mod l v : 1 <= l <= top -> u64 (H + v) mod sz l = v mod sz l.
Proof using All.
  intros Hl. pose proof (sz_pos l ltac:(lia)). destruct (sz_64 mmu_config l ltac:(lia)) as [q Hq].
  assert (sz l | H) as [h Hh] by (eapply Z.divide_trans; [|exact H_space]; apply sz_divide; lia).
  unfold u64. rewrite Hq, Hh. assert (0 < q) by nia. rewrite (Z.mul_comm q), Z.rem_mul_r by lia. rewrite (Z.mul_comm (sz l)), Z.mod_add, Z.mod_mod by lia.
  by rewrite Z.add_comm, Z.mod_add by lia.
Qed.

Lemma aligned_raw l v : 1 <= l <= top -> IS_ALIGNED (u64 (H + v)) (PAGING_ENTRY_SIZE l) = (v mod sz l =? 0).
Proof using All.
  intros Hl. pose proof (shift_level mmu_config l Hl). rewrite (PAGING_ENTRY_SIZE_eq mmu_config) by lia.
  unfold IS_ALIGNED, sz at 1. rewrite u64_idemp, land_low by lia. fold (sz l). by rewrite raw_mod.
Qed.

Lemma parent_raw l v : 1 <= l <= top -> PARENT_PAGING_INDEX (u64 (H + v)) l = idx l (v - sz l) + 1.
Proof using All. intros Hl. unfold PARENT_PAGING_INDEX. rewrite (PAGING_ENTRY_SIZE_eq mmu_config) by lia. by rewrite raw_sub, index_raw. Qed.

(** ** The cursor

    Before the end of a table the loop is at [v], entry [index] of the table
    [tables[level]]; past the last entry, [v] is the end of that table and the
    path is the one of the address before it. *)
Record cursor P tables (level index v x : Z) : Prop := {
  c_level : 1 <= level <= top;
  c_path : forall j, level <= j <= top -> exists p, tables !! j = Some p /\ P !! (j, num (j + 1) x) = Some p;
  c_at : (index = idx level v /\ x = v /\ 0 <= v < space) \/
         (index = entries /\ (sz (level + 1) | v) /\ x = v - 1 /\ 0 < v <= space);
}.

Lemma cursor_map P P' tables level index v x :
  (forall k p, P !! k = Some p -> P' !! k = Some p) -> cursor P tables level index v x -> cursor P' tables level index v x.
Proof using All. intros E [Hl Hp Ha]. split; try done. intros j Hj. destruct (Hp j Hj) as (p & H1 & H2). eauto. Qed.

Lemma cursor_start P page_table v : P !! (top, 0) = Some page_table -> 0 <= v < space -> cursor P {[top := page_table]} top (idx top v) v v.
Proof using All.
  intros Hp Hv. pose proof (top_range mmu_config). split; [lia| |by left]. intros j Hj. assert (j = top) as -> by lia. exists page_table.
  rewrite lookup_singleton_eq. split; [done|]. by rewrite (proj2 (below_space v ltac:(lia))) by lia.
Qed.

(** The cursor is before the end exactly when the index says so. *)
Lemma cursor_in P tables level index v x : cursor P tables level index v x -> index <> entries -> index = idx level v /\ x = v /\ 0 <= v < space.
Proof using All. intros [_ _ [?|[? _]]] Hne; done. Qed.

Lemma cursor_end P tables level v x : cursor P tables level entries v x -> (sz (level + 1) | v) /\ x = v - 1 /\ 0 < v <= space.
Proof using All. intros [_ _ [(E & _)|(_ & ?)]]; [|done]. pose proof (idx_range level v). lia. Qed.

(** From entry [num level v] on over [m] entries of the table. *)
Lemma cursor_advance P tables level v m v' :
  cursor P tables level (idx level v) v v -> 1 <= m -> idx level v + m <= entries -> v' = (num level v + m) * sz level ->
  exists x, cursor P tables level (idx level v + m) v' x.
Proof using All.
  intros [Hl Hp Ha] Hm Hle ->. pose proof (sz_pos level ltac:(lia)) as Hs. pose proof (idx_range level v) as Hix.
  pose proof (num_split level v ltac:(lia)) as En. assert (0 <= v < space) as Hv by (destruct Ha as [(_ & _ & ?)|(E & _)]; [done|lia]).
  assert (0 <= num level v) as Hn by (apply Z.div_pos; lia). set (v' := (num level v + m) * sz level). assert (0 < v') as Hv' by nia.
  destruct (decide (idx level v + m < entries)) as [Hlt|Hge].
  - assert (num level v' = num (level + 1) v * entries + (idx level v + m)) as En'.
    { unfold num at 1, v'. rewrite Z.div_mul by lia. lia. }
    apply num_eq in En' as [E1 E2]; [|lia..]. exists v'. split; [done| |].
    + intros j Hj. rewrite (num_chain (level + 1) (j + 1) v' v) by (lia || done). auto.
    + left. split; [done|]. split; [done|]. split; [lia|]. apply below_space; [lia|].
      rewrite (num_chain (level + 1) (top + 1) v' v) by (lia || done). by apply below_space; lia.
  - assert (idx level v + m = entries) as E by lia. rewrite E. exists (v' - 1).
    assert (v' = (num (level + 1) v + 1) * sz (level + 1)) as Ev by (unfold v'; rewrite sz_succ by lia; nia).
    assert (num (level + 1) (v' - 1) = num (level + 1) v) as E1.
    { pose proof (sz_pos (level + 1) ltac:(lia)). apply (num_range (level + 1)); lia. }
    split; [done| |].
    + intros j Hj. rewrite (num_chain (level + 1) (j + 1) (v' - 1) v) by (lia || done). auto.
    + right. split; [done|]. split; [rewrite Ev; apply Z.divide_factor_r|]. split; [done|]. split; [lia|].
      assert (v' - 1 < space); [|lia]. apply below_space; [lia|]. rewrite (num_chain (level + 1) (top + 1) (v' - 1) v) by (lia || done). by apply below_space; lia.
Qed.

(** Going up from the end of a table. *)
Lemma cursor_up P tables level v x :
  cursor P tables level entries v x -> level < top -> exists x', cursor P tables (level + 1) (idx (level + 1) (v - sz (level + 1)) + 1) v x'.
Proof using All.
  intros C Hlt. destruct (cursor_end _ _ _ _ _ C) as ([q Hq] & -> & Hv). destruct C as [Hl Hp _].
  pose proof (sz_pos (level + 1) ltac:(lia)) as Hs. assert (num (level + 1) (v - 1) = q - 1) as E1 by (apply num_range; nia).
  assert (num (level + 1) (v - sz (level + 1)) = num (level + 1) (v - 1)) as E2 by (rewrite E1; apply num_range; nia).
  assert (idx (level + 1) (v - sz (level + 1)) = idx (level + 1) (v - 1)) as -> by (unfold idx; by rewrite E2).
  assert (cursor P tables (level + 1) (idx (level + 1) (v - 1)) (v - 1) (v - 1)) as C'.
  { split; [lia| |left; split; [done|]; split; [done|lia]]. intros j Hj. apply Hp. lia. }
  eapply cursor_advance; [exact C'|lia|pose proof (idx_range (level + 1) (v - 1)); lia|]. rewrite E1. lia.
Qed.

(** Going down to the table below the entry. *)
Lemma cursor_down P tables level v c :
  cursor P tables level (idx level v) v v -> 2 <= level -> P !! (level - 1, num level v) = Some c ->
  cursor P (<[level - 1 := c]> tables) (level - 1) (idx (level - 1) v) v v.
Proof using All.
  intros [Hl Hp Ha] H2 Hc. split; [lia| |].
  - intros j Hj. destruct (decide (j = level - 1)) as [->|Hne].
    + exists c. rewrite lookup_insert_eq, Z.sub_add. done.
    + rewrite lookup_insert_ne by done. apply Hp. lia.
  - left. split; [done|]. split; [done|]. destruct Ha as [(_ & _ & ?)|(E & _)]; [done|]. pose proof (idx_range level v). lia.
Qed.

(** ** Progress *)

(** From [s0] to [s] the addresses from [lo] to [hi] came to be translated by
    [g]; the tables are in order and nobody else's pages have changed. *)
Record progress s0 B0 P0 s B P (lo hi : Z) (g : Z -> option (Z * Z)) : Prop := {
  pr_inv : pinv s B P;
  pr_others : others R s0 B0 P0 s B P;
  pr_xlate : forall va, owned va -> xlate (words s) root va = if decide (lo <= va < hi) then g va else xlate (words s0) root va;
  pr_small : forall va, owned va -> is_Some (P0 !! (1, num 2 va)) -> xlate (words s0) root va <> None -> xlate (words s) root va <> None ->
    is_Some (P !! (1, num 2 va));
  pr_tlb : tlb s = tlb s0;
}.

Lemma progress_start s B P lo g : pinv s B P -> progress s B P s B P lo lo g.
Proof using All. intros I. split; [done|apply others_refl; done| |done|done]. intros va _. rewrite decide_False by lia. done. Qed.

Lemma progress_child s0 B0 P0 s B P lo hi g l n i c s' B' P' :
  progress s0 B0 P0 s B P lo hi g -> child_post mmu_config own R root s B P l n i c s' B' P' -> progress s0 B0 P0 s' B' P' lo hi g.
Proof using All.
  intros [I O X S T] [I' O' _ Pm X' _ T']. split; [done|eapply others_trans; done| | |congruence]; intros va Hv; rewrite X' by done; [auto|].
  intros H1 H2 H3. destruct (S va Hv H1 H2 H3) as [p Hp]. eauto.
Qed.

Lemma progress_wstep s0 B0 P0 s B P lo mid hi g l p d w' s' :
  progress s0 B0 P0 s B P lo mid g -> lo <= mid <= hi -> wstep mmu_config own root (words s) w' P l p d mid hi g ->
  pinv s' B P -> others R s B P s' B P -> words s' = w' -> tlb s' = tlb s -> progress s0 B0 P0 s' B P lo hi g.
Proof using All.
  intros [I O X S T] Hm W I' O' Ew Et. split; [done|eapply others_trans; done| | |congruence]; intros va Hv; rewrite Ew, (ws_xlate _ _ _ _ _ _ _ _ _ _ _ _ W) by done.
  - rewrite X by done. repeat case_decide; done || lia.
  - intros H1 H2 H3. apply S; try done. revert H3. rewrite X by done. repeat case_decide; done || lia.
Qed.

(** When the count does not change, nothing needs to be brought up to date. *)
Lemma pinv_wstep0 s B P w' l n p lo hi g :
  pinv s B P -> P !! (l, n) = Some p -> wstep mmu_config own root (words s) w' P l p 0 lo hi g ->
  pinv (with_words s w') B P /\ others R s B P (with_words s w') B P.
Proof using All.
  intros I Hp W. pose proof (p_twf _ _ _ _ _ _ _ I) as T. split.
  - destruct I as [I HS _ C]. split; [done|done|apply W|]. eapply counted_ext; [|exact C]. intros l' n' p' Hp'. cbn.
    rewrite (ws_count _ _ _ _ _ _ _ _ _ _ _ _ W _ _ _ Hp'). case_decide as E; [|done]. subst p'. pose proof (t_inj _ _ _ _ _ T _ _ _ Hp Hp') as E.
    injection E as <- <-. lia.
  - split; [|done]. intros q Hq Hf. split; [done|]. split; [done|]. split; [|done]. intros a Ha. cbn. apply (ws_frame _ _ _ _ _ _ _ _ _ _ _ _ W). intros Ha'.
    destruct Ha as (i & Hi & ->), Ha' as (j & Hj & E). destruct (t_page _ _ _ _ _ T _ _ _ Hp) as (_ & _ & [_ Hd] & _).
    destruct (word_inj q p i j) as [-> _]; try done; [apply Hq|by apply (Hf (l, n) p)].
Qed.

Lemma trimmed_any s B P x : pinv s B P -> trimmed s B P nokey -> trimmed s B P x.
Proof using All.
  intros I H0 l n p Hp Hl _. apply (H0 l n p Hp Hl). unfold nokey. intros [= -> ->].
  destruct (t_page _ _ _ _ _ (p_twf _ _ _ _ _ _ _ I) _ _ _ Hp). lia.
Qed.

(** After writes to table [(l, n)] it may be the empty one. *)
Lemma trimmed_wstep s s' B P l n p d lo hi g :
  P !! (l, n) = Some p -> wstep mmu_config own root (words s) (words s') P l p d lo hi g -> trimmed s B P (l, n) -> trimmed s' B P (l, n).
Proof using All.
  intros Hp W Tr l' n' p' Hp' Hl Hne Ha. rewrite (ws_count _ _ _ _ _ _ _ _ _ _ _ _ W _ _ _ Hp').
  case_decide as E; [|by apply (Tr l' n' p')]. subst p'. destruct Hne. pose proof (t_inj _ _ _ _ _ (ws_twf _ _ _ _ _ _ _ _ _ _ _ _ W) _ _ _ Hp Hp') as E. by injection E as <- <-.
Qed.

(** It is not when an address it translates is mapped. *)
Lemma trimmed_full s B P l va p :
  pinv s B P -> owned va -> P !! (l, num (l + 1) va) = Some p -> is_Some (xlate (words s) root va) -> P !! (l - 1, num l va) = None ->
  trimmed s B P (l, num (l + 1) va) -> trimmed s B P nokey.
Proof using All.
  intros I Hv Hp [t Hx] Hn Tr l' n' p' Hp' Hl Hne Ha. destruct (decide ((l', n') = (l, num (l + 1) va))) as [E|E]; [|by apply (Tr l' n' p')].
  injection E as -> ->. rewrite Hp in Hp'. injection Hp' as <-. pose proof (p_twf _ _ _ _ _ _ _ I) as T.
  destruct (entry_at _ _ _ _ _ _ _ _ T Hp Hv) as (e & He & _). destruct (t_page _ _ _ _ _ T _ _ _ Hp) as (Hl1 & _).
  rewrite (xlate_at mmu_config own (words s) P root va l p e T Hv Hp He Hn) in Hx. unfold entry_xlate in Hx.
  eapply (count_present mmu_config own R root R_phys); [apply idx_range|by apply own_at_owned|done|]. by destruct (ARCH_PTE_PRESENT e).
Qed.

(** The entry the cursor is at. *)
Lemma cursor_entry s B P tables level v :
  pinv s B P -> cursor P tables level (idx level v) v v -> owned v ->
  exists p e, tables !! level = Some p /\ P !! (level, num (level + 1) v) = Some p /\ paging_get_pte p (u64 (H + v)) level = p + 8 * idx level v /\
    words s !! (p + 8 * idx level v) = Some e /\ entry_wf mmu_config P level (num level v) e /\ own_at level (idx level v) = true.
Proof using All.
  intros I [Hl Hp _] Hv. destruct (Hp level ltac:(lia)) as (p & Ht & HP). pose proof (p_twf _ _ _ _ _ _ _ I) as T.
  destruct (entry_at _ _ _ _ _ _ _ _ T HP Hv) as (e & He & Hw). exists p, e. split; [done|]. split; [done|]. split; [|split; [done|]; split; [done|by apply own_at_owned]].
  destruct (t_page _ _ _ _ _ T _ _ _ HP) as (_ & _ & Hok & _). rewrite pte_addr by (done || lia). rewrite <- PAGING_INDEX_eq by lia. by rewrite index_raw.
Qed.

(** ** Going down *)
Abbreviation child_post := (child_post mmu_config own R root).

(** The table below is already there. *)
Lemma old_child s B P l n p i e0 c :
  pinv s B P -> P !! (l, n) = Some p -> 0 <= i < entries -> own_at l i = true -> words s !! (p + 8 * i) = Some e0 ->
  P !! (l - 1, n * entries + i) = Some c -> ARCH_PTE_PRESENT e0 = true -> child_post s B P l n i c s B P.
Proof using All.
  intros I Hp Hi Ho He0 Hc Hpr. split; try done. intros Tr l' n' p' Hp' Hl Hne Ha.
  destruct (decide ((l', n') = (l, n))) as [E|E]; [|by apply (Tr l' n' p')]. injection E as -> ->. rewrite Hp in Hp'. injection Hp' as <-.
  by eapply (count_present mmu_config own R root R_phys).
Qed.

Lemma map_child_ok s B P l n p i e0 attr :
  pinv s B P -> P !! (l, n) = Some p -> 0 <= i < entries -> own_at l i = true -> 2 <= l -> words s !! (p + 8 * i) = Some e0 ->
  done_or_oom (map_child mmu_config s p (p + 8 * i) e0 l attr) (fun '(c, s') => exists B' P', child_post s B P l n i c s' B' P').
Proof using All.
  intros I Hp Hi Ho Hl He0. unfold map_child. destruct (ARCH_PTE_PRESENT e0) eqn:Hpr; cbn [negb].
  - destruct (ARCH_PTE_IS_LEAF e0 l) eqn:Hlf.
    + eapply done_mono; [by eapply (split_leaf_ok mmu_config own R root R_phys)|]. intros [c s'] (B' & C). eauto.
    + pose proof (entry_facts mmu_config own R root R_phys s B P l n p i e0 I Hp Hi Ho He0) as Hw. unfold entry_wf in Hw.
      destruct (P !! (l - 1, n * entries + i)) as [c|] eqn:Hc.
      * destruct Hw as (_ & _ & _ & ->). cbn. exists B, P. by eapply old_child.
      * destruct Hw as [Ha|(_ & ? & _)]; [unfold absent in Ha; congruence|congruence].
  - eapply done_mono; [by eapply (new_child_ok mmu_config own R root R_phys s B P l n p i e0)|]. intros [c s'] (B' & C). eauto.
Qed.

(** ** paging_map_range *)

(** Turns a loop may still need: pages left, and levels to go down, or up and
    down again. *)
Definition turns (pages level index : Z) : Z :=
  (2 * top + 2) * pages + (if index =? entries then 2 * top + 1 - level else level).

Lemma aligned_num l v : 1 <= l -> (sz l | v) -> v = num l v * sz l.
Proof using All. intros Hl [q ->]. pose proof (sz_pos l Hl). unfold num. by rewrite Z.div_mul by lia. Qed.

(** The pages of a rest, and how many of them the table has room for. *)
Lemma run_facts v rest :
  (PAGE_SIZE | rest) -> 0 < rest -> rest <= 2 ^ 64 ->
  let run := MIN (PAGING_TABLE_ENTRIES - idx 1 v) (Z.shiftr rest PAGE_SIZE_SHIFT) in
  1 <= run /\ idx 1 v + run <= entries /\ run * PAGE_SIZE <= rest /\ shl64 run PAGE_SIZE_SHIFT = run * PAGE_SIZE /\
  Z.shiftr rest PAGE_SIZE_SHIFT = rest / PAGE_SIZE.
Proof using All.
  intros [q Hq] Hpos Hmax. cbv zeta. pose proof shift_range. pose proof (idx_range 1 v). pose proof entries_bound.
  rewrite MIN_min, PAGING_TABLE_ENTRIES_eq, Z.shiftr_div_pow2, <- PAGE_SIZE_eq by lia.
  assert (0 < PAGE_SIZE) by (rewrite sz_page; lia). rewrite Hq, Z.div_mul by lia. assert (1 <= q) by nia.
  split; [lia|]. split; [lia|]. split; [nia|]. split; [|done]. unfold shl64. rewrite Z.shiftl_mul_pow2, <- PAGE_SIZE_eq by lia. apply u64_small.
  unfold is_u64. split; [nia|]. assert (PAGE_SIZE <= 65536) by (rewrite sz_page; lia). nia.
Qed.

Lemma span_small v0 vend v :
  (forall va, v0 <= va < vend -> owned va) -> v0 <= v < vend -> 0 <= v0 /\ vend <= space /\ 0 < vend - v <= 2 ^ 64.
Proof using All.
  intros Hr Hv. pose proof (Hr v0 ltac:(lia)) as [? _]. pose proof (Hr (vend - 1) ltac:(lia)) as [? _].
  pose proof (Z.divide_pos_le space (2 ^ 64) eq_refl space_64). lia.
Qed.

Lemma turns_pos pages level index : 0 <= pages -> 1 <= level <= top -> 0 < turns pages level index.
Proof using All. intros Hp Hl. unfold turns. case_match; nia. Qed.

Lemma turns_advance pages run level index index' level' :
  1 <= run <= pages -> 1 <= level <= top -> 1 <= level' <= top -> turns (pages - run) level' index' < turns pages level index.
Proof using All. intros Hr Hl Hl'. unfold turns. repeat case_match; nia. Qed.

Lemma turns_up pages level index : 1 <= level < top -> turns pages (level + 1) index < turns pages level entries.
Proof using All. intros Hl. unfold turns. rewrite Z.eqb_refl. case_match; lia. Qed.

Lemma turns_down pages level v : turns pages (level - 1) (idx (level - 1) v) < turns pages level (idx level v).
Proof using All.
  pose proof (idx_range level v). pose proof (idx_range (level - 1) v). unfold turns. rewrite !(proj2 (Z.eqb_neq _ entries)) by lia. lia.
Qed.

Lemma fuel_step a b fuel : a < b -> 0 < b -> (Z.to_nat b < S fuel)%nat -> (Z.to_nat a < fuel)%nat.
Proof using Type. lia. Qed.

Lemma supports_leaf level : mmu_supports_leaf mmu_config level = true -> level <> 1 -> 2 <= level <= 3.
Proof using Type.
  unfold mmu_supports_leaf. intros E Hne. rewrite (proj2 (Z.eqb_neq level 1) Hne) in E. destruct (Z.eqb_spec level 2); [lia|]. cbn [andb] in E.
  destruct (Z.eqb_spec level 3); [lia|done].
Qed.

Section Map.
Context s0 B0 P0 (v0 vend pa attr : Z).
Context (Hrange : forall va, v0 <= va < vend -> owned va).
Context (Hv0 : (PAGE_SIZE | v0)) (Hvend : (PAGE_SIZE | vend)) (Hpa : (PAGE_SIZE | pa)) (Hpa0 : 0 <= pa) (Hphys : pa + (vend - v0) <= 2 ^ 52).
#[local] Abbreviation g := (mapped mmu_config v0 pa attr).
#[local] Abbreviation progress := (progress s0 B0 P0).

Definition map_post (r : res pt_state) : Prop :=
  done_or_oom r (fun s' => exists B' P', progress s' B' P' v0 vend g /\ trimmed s' B' P' nokey).

(** The state at the head of the loop. *)
Record map_state s B P tables (level index v x : Z) : Prop := {
  ms_progress : progress s B P v0 v g;
  ms_cursor : cursor P tables level index v x;
  ms_v : v0 <= v <= vend /\ (PAGE_SIZE | v);
  ms_trim : trimmed s B P nokey \/ (index <> entries /\ v < vend /\ trimmed s B P (level, num (level + 1) v));
}.

(** After a write from [v] to [v'] the loop goes on behind it. *)
Lemma map_written s B P tables level v v' p m d w' s' :
  map_state s B P tables level (idx level v) v v -> P !! (level, num (level + 1) v) = Some p -> P !! (level - 1, num level v) = None ->
  v < v' <= vend -> 1 <= m -> idx level v + m <= entries -> v' = (num level v + m) * sz level -> (PAGE_SIZE | v') ->
  wstep mmu_config own root (words s) w' P level p d v v' g -> pinv s' B P -> others R s B P s' B P -> words s' = w' -> tlb s' = tlb s ->
  exists x, map_state s' B P tables level (idx level v + m) v' x.
Proof using All.
  intros [Pr C [Hv Hd] Tr] Hp Hn Hlt Hm Hle Ev Hd' W I' O' Ew Et. destruct (cursor_advance _ _ _ _ m v' C Hm Hle Ev) as [x C']. exists x.
  split; [eapply progress_wstep; [exact Pr|lia|exact W|done..]|done|split; [lia|done]|]. left.
  assert (owned v) as Ho by (apply Hrange; lia). eapply (trimmed_full s' B P level v p); try done.
  - rewrite Ew, (ws_xlate _ _ _ _ _ _ _ _ _ _ _ _ W) by done. rewrite decide_True by lia. by eexists.
  - eapply (trimmed_wstep s s'); [done|rewrite Ew; exact W|]. destruct Tr as [Tr|(_ & _ & Tr)]; [|done]. by eapply trimmed_any; [apply Pr|].
Qed.

Lemma pa_facts v : v0 <= v < vend -> (PAGE_SIZE | v) -> 0 <= pa + (v - v0) < 2 ^ 52 /\ (PAGE_SIZE | pa + (v - v0)).
Proof using All. intros Hv Hd. split; [lia|]. apply Z.divide_add_r; [done|]. by apply Z.divide_sub_r. Qed.

(** The bulk loop at the base level. *)
Lemma map_run_step s B P tables v p :
  map_state s B P tables 1 (idx 1 v) v v -> v < vend -> P !! (1, num 2 v) = Some p ->
  let run := MIN (PAGING_TABLE_ENTRIES - idx 1 v) (Z.shiftr (vend - v) PAGE_SIZE_SHIFT) in
  exists added w' s' x,
    map_run (Z.to_nat run) (words s) (p + 8 * idx 1 v) (pa + (v - v0)) (prot_to_mmu_flags mmu_config attr) 0 0 = Ok (added, w') /\
    update_refcnt (with_words s w') p added = Ok s' /\ map_state s' B P tables 1 (idx 1 v + run) (v + run * PAGE_SIZE) x.
Proof using All.
  intros M Hlt Hp run. pose proof M as [Pr C [Hv Hd] Tr]. pose proof (pr_inv _ _ _ _ _ _ _ _ _ Pr) as I. pose proof (p_twf _ _ _ _ _ _ _ I) as T.
  assert (0 <= v0 /\ vend <= space) as [H0 Hsp] by (pose proof (Hrange v0 ltac:(lia)) as [? _]; pose proof (Hrange (vend - 1) ltac:(lia)) as [? _]; lia).
  destruct (run_facts v (vend - v)) as (R1 & R2 & R3 & _ & _); [by apply Z.divide_sub_r|lia|pose proof space_64 as [q ?]; pose proof space_pos; nia|]. fold run in R1, R2, R3.
  destruct (pa_facts v ltac:(lia) Hd) as [Hpr Hpd]. pose proof (idx_range 1 v).
  destruct (map_run_ok mmu_config own R root R_phys P (num 2 v) p (idx 1 v) (pa + (v - v0)) attr (Z.to_nat run) (words s) 0 0) as ([added w'] & E & W); try done; [lia|lia|lia| |].
  { rewrite Z2Nat.id by lia. lia. }
  exists added, w'. rewrite Z2Nat.id, Z.sub_0_r, !Z.add_0_r in W by lia.
  change (num 2 v) with (num (1 + 1) v) in W. rewrite <- (num_split 1 v ltac:(lia)) in W.
  assert (num 1 v * sz 1 = v) as En by (symmetry; apply aligned_num; [lia|by rewrite sz_1]).
  rewrite Z.mul_add_distr_r, En, sz_1 in W.
  eapply (wstep_ext mmu_config own R root R_phys _ _ _ _ _ _ _ _ _ g) in W; [|intros va _ _; unfold mapped; do 2 f_equal; lia].
  destruct (pinv_wstep mmu_config own R root R_phys s B P w' 1 (num 2 v) p added _ _ _ I Hp W) as (b & E1 & _ & I' & O').
  destruct (map_written s B P tables 1 v (v + run * PAGE_SIZE) p run added w' (PtState b w' (tlb s))) as [x M']; try done.
  - by apply (none_below mmu_config own R root R_phys (words s)).
  - assert (0 < PAGE_SIZE) by (rewrite sz_page; lia). nia.
  - rewrite sz_1 in *. lia.
  - apply Z.divide_add_r; [done|apply Z.divide_factor_r].
  - eauto 10.
Qed.

(** A leaf above the base level. *)
Lemma map_leaf_step s B P tables level v p e :
  map_state s B P tables level (idx level v) v v -> v + sz level <= vend -> P !! (level, num (level + 1) v) = Some p ->
  words s !! (p + 8 * idx level v) = Some e -> entry_wf mmu_config P level (num level v) e -> own_at level (idx level v) = true ->
  ARCH_PTE_PRESENT e = false \/ ARCH_PTE_IS_LEAF e level = true -> 2 <= level <= 3 -> (sz level | v) -> (sz level | pa + (v - v0)) ->
  exists s1 w' x,
    (if negb (ARCH_PTE_PRESENT e) then update_refcnt s p 1 else Ok s) = Ok s1 /\
    write_leaf mmu_config (words s1) (p + 8 * idx level v) (pa + (v - v0)) level attr = Ok w' /\
    map_state (with_words s1 w') B P tables level (idx level v + 1) (v + sz level) x.
Proof using All.
  intros M Hle Hp He Hw Ho Hlv Hl Hdv Hdp. pose proof M as [Pr C [Hv Hd] Tr]. pose proof (pr_inv _ _ _ _ _ _ _ _ _ Pr) as I. pose proof (p_twf _ _ _ _ _ _ _ I) as T.
  pose proof (sz_pos level ltac:(lia)) as Hs. destruct (pa_facts v ltac:(lia) Hd) as [Hpr Hpd].
  assert (P !! (level - 1, num level v) = None) as Hn.
  { unfold entry_wf in Hw. destruct (P !! (level - 1, num level v)); [|done]. destruct Hw as (? & ? & _). destruct Hlv; congruence. }
  assert (phys_ok (pa + (v - v0))) as Hok by (split; [done|by rewrite <- PAGE_SIZE_eq]).
  destruct (leaf_entry mmu_config own R root R_phys level attr (pa + (v - v0)) Hok Hdp) as [Hlf _]; [by right|]. set (e1 := ARCH_ENCODE_PTE _ _) in Hlf.
  assert (num level v = num (level + 1) v * entries + idx level v) as En by (apply num_split; lia).
  pose proof (wstep_write mmu_config own R root R_phys (words s) P level (num (level + 1) v) p (idx level v) e e1 T Hp (idx_range _ _) Ho) as W.
  rewrite <- En in W. specialize (W Hn He (or_intror Hlf)). destruct Hlf as (Hpre & _). rewrite Hpre in W. cbn [Z.b2z] in W.
  rewrite Z.mul_add_distr_r, <- (aligned_num level v ltac:(lia) Hdv), Z.mul_1_l in W.
  eapply (wstep_ext mmu_config own R root R_phys _ _ _ _ _ _ _ _ _ g) in W.
  2:{ intros va _ Hva. apply (leaf_mapped mmu_config own R root R_phys level (num level v)); try done; [by right|lia| |].
      - rewrite Z.mul_add_distr_r, <- (aligned_num level v ltac:(lia) Hdv). lia.
      - rewrite <- (aligned_num level v ltac:(lia) Hdv). lia. }
  assert (exists s1, (if negb (ARCH_PTE_PRESENT e) then update_refcnt s p 1 else Ok s) = Ok s1 /\ words s1 = words s /\ tlb s1 = tlb s /\
    pinv (with_words s1 (<[p + 8 * idx level v := e1]> (words s))) B P /\ others R s B P (with_words s1 (<[p + 8 * idx level v := e1]> (words s))) B P) as (s1 & E1 & Ew & Et & I' & O').
  { destruct (ARCH_PTE_PRESENT e); cbn [negb Z.b2z] in *.
    - exists s. split; [done|]. split; [done|]. split; [done|]. by apply (pinv_wstep0 s B P _ level (num (level + 1) v) p v (v + sz level) g).
    - destruct (pinv_wstep mmu_config own R root R_phys s B P _ level (num (level + 1) v) p _ _ _ _ I Hp W) as (b & _ & E1 & I' & O').
      exists (with_pmm s b). split; [exact E1|]. split; [done|]. split; [done|]. split; [exact I'|exact O']. }
  exists s1, (<[p + 8 * idx level v := e1]> (words s)). unfold write_leaf. rewrite Ew, (store_Ok _ _ _ _ He).
  pose proof (idx_range level v). eapply (map_written _ _ _ _ _ _ (v + sz level) _ 1) in W as [x M']; [|exact M|done|done|lia|lia|lia| | |exact I'|exact O'|done|done].
  - exists x. done.
  - rewrite Z.mul_add_distr_r, <- (aligned_num level v ltac:(lia) Hdv). lia.
  - apply Z.divide_add_r; [done|]. rewrite <- sz_1. apply sz_divide. lia.
Qed.

(** Down one level. *)
Lemma map_down_step s B P tables level v p e :
  map_state s B P tables level (idx level v) v v -> v < vend -> 2 <= level -> P !! (level, num (level + 1) v) = Some p ->
  words s !! (p + 8 * idx level v) = Some e -> own_at level (idx level v) = true ->
  done_or_oom (map_child mmu_config s p (p + 8 * idx level v) e level attr) (fun '(c, s') => exists B' P',
    map_state s' B' P' (<[level - 1 := c]> tables) (level - 1) (idx (level - 1) v) v v).
Proof using All.
  intros M Hlt Hl Hp He Ho. pose proof M as [Pr C Hv Tr]. pose proof (pr_inv _ _ _ _ _ _ _ _ _ Pr) as I.
  eapply done_mono; [by apply (map_child_ok s B P level (num (level + 1) v) p (idx level v) e attr I Hp (idx_range _ _) Ho)|].
  intros [c s'] (B' & P' & CP). exists B', P'. pose proof (ch_child _ _ _ _ _ _ _ _ _ _ _ _ _ _ CP) as Hc. rewrite <- num_split in Hc by lia.
  split; [by eapply progress_child| |done|].
  - apply cursor_down; [|lia|done]. eapply cursor_map; [|exact C]. apply CP.
  - right. pose proof (idx_range (level - 1) v). split; [lia|]. split; [done|]. rewrite Z.sub_add, (num_split level) by lia. apply CP.
    destruct Tr as [Tr|(_ & _ & Tr)]; [|done]. by eapply trimmed_any.
Qed.

Lemma map_loop_ok fuel : forall s B P tables level index v x,
  map_state s B P tables level index v x -> (Z.to_nat (turns ((vend - v) / PAGE_SIZE) level index) < fuel)%nat ->
  map_post (map_loop mmu_config fuel attr s tables level index (u64 (H + v)) (u64 (pa + (v - v0))) (vend - v)).
Proof using All.
  induction fuel as [|fuel IH]; intros s B P tables level index v x M Hf; [lia|]. cbn [map_loop]. pose proof M as [Pr C [Hv Hd] Tr].
  assert (0 < PAGE_SIZE) as Hps by (rewrite sz_page; pose proof entries_pos; lia). pose proof (c_level _ _ _ _ _ _ C) as Hl.
  rewrite Z.gtb_ltb. destruct (Z.ltb_spec 0 (vend - v)) as [Hpos|Hz]; cbn [negb].
  2:{ unfold map_post. cbn. assert (v = vend) as -> by lia. exists B, P. split; [done|]. destruct Tr as [Tr|(_ & ? & _)]; [done|lia]. }
  destruct (span_small v0 vend v Hrange ltac:(lia)) as (H0 & Hsp & Hrest). rewrite PAGING_TABLE_ENTRIES_eq.
  assert (1 <= (vend - v) / PAGE_SIZE) as Hpages.
  { assert (PAGE_SIZE | vend - v) as [q Hq] by (by apply Z.divide_sub_r). rewrite Hq, Z.div_mul by lia. nia. }
  pose proof (turns_pos ((vend - v) / PAGE_SIZE) level index (Z.le_trans _ _ _ Z.le_0_1 Hpages) Hl) as Htp. destruct (Z.eqb_spec index entries) as [->|Hne].
  - destruct (Z.eqb_spec level top) as [->|Hlt].
    { exfalso. destruct (cursor_end _ _ _ _ _ C) as ([q Hq] & _ & Hv'). change (sz (top + 1)) with space in Hq. pose proof space_pos. assert (0 < q < 1) by nia. lia. }
    destruct (cursor_up _ _ _ _ _ C ltac:(lia)) as [x' C']. rewrite parent_raw by lia. eapply (IH s B P).
    + split; [done|exact C'|done|]. destruct Tr as [Tr|(? & _)]; [by left|done].
    + eapply fuel_step; [|exact Htp|exact Hf]. apply turns_up. lia.
  - destruct (cursor_in _ _ _ _ _ _ C Hne) as (-> & -> & Hvs). assert (owned v) as Ho by (apply Hrange; lia).
    destruct (cursor_entry s B P tables level v (pr_inv _ _ _ _ _ _ _ _ _ Pr) C Ho) as (p & e & Ht & Hp & Epte & He & Hw & Hoa).
    rewrite (load_Ok _ _ _ Ht), bind_Ok. cbv zeta. rewrite Epte, (load_Ok _ _ _ He), bind_Ok. destruct (pa_facts v ltac:(lia) Hd) as [Hpr Hpd].
    assert (u64 (pa + (v - v0)) = pa + (v - v0)) as Epa by (apply u64_small; unfold is_u64; lia).
    destruct (Z.eqb_spec level 1) as [->|Hl1].
    + destruct (run_facts v (vend - v)) as (R1 & R2 & R3 & R4 & R5); [by apply Z.divide_sub_r|lia|lia|].
      destruct (map_run_step s B P tables v p M ltac:(lia) Hp) as (added & w' & s' & x & E1 & E2 & M').
      rewrite Epa, PAGING_TABLE_ENTRIES_eq in *. set (run := MIN _ _) in *. rewrite E1, bind_Ok, E2, bind_Ok, R4, raw_add. clearbody run.
      assert (u64 (pa + (v - v0) + run * PAGE_SIZE) = u64 (pa + (v + run * PAGE_SIZE - v0))) as -> by (f_equal; lia).
      assert (u64 (vend - v - run * PAGE_SIZE) = vend - (v + run * PAGE_SIZE)) as -> by (rewrite u64_small; [lia|unfold is_u64; nia]).
      eapply (IH s' B P); [exact M'|]. assert ((vend - (v + run * PAGE_SIZE)) / PAGE_SIZE = (vend - v) / PAGE_SIZE - run) as ->.
      { replace (vend - (v + run * PAGE_SIZE)) with (vend - v + - run * PAGE_SIZE) by lia. rewrite Z.div_add by lia. lia. }
      assert (run <= (vend - v) / PAGE_SIZE) as Hrun by (apply Z.div_le_lower_bound; lia).
      eapply fuel_step; [|exact Htp|exact Hf]. by apply turns_advance.
    + rewrite aligned_raw, (PAGING_ENTRY_SIZE_eq mmu_config) by lia. destruct (mmu_supports_leaf mmu_config level && _ && _ && _) eqn:Hcond.
      * rewrite !andb_true_iff in Hcond. destruct Hcond as [[[Hsup Hvalid] [Hav Hap]] Hlen].
        apply supports_leaf in Hsup; [|done]. pose proof (shift_level mmu_config level Hl) as Hsh.
        rewrite Epa in Hap. unfold sz in Hap. apply IS_ALIGNED_spec in Hap; [|lia|unfold is_u64; lia]. fold (sz level) in Hap.
        apply Z.eqb_eq, Z.mod_divide in Hav; [|pose proof (sz_pos level ltac:(lia)); lia]. rewrite Z.geb_leb, Z.leb_le in Hlen.
        assert (ARCH_PTE_PRESENT e = false \/ ARCH_PTE_IS_LEAF e level = true) as Hlv.
        { rewrite orb_true_iff, negb_true_iff in Hvalid. done. }
        destruct (map_leaf_step s B P tables level v p e M ltac:(lia) Hp He Hw Hoa Hlv Hsup Hav Hap) as (s1 & w' & x & E1 & E2 & M').
        rewrite E1, bind_Ok, Epa, E2, bind_Ok, raw_add.
        assert (u64 (pa + (v - v0) + sz level) = u64 (pa + (v + sz level - v0))) as -> by (f_equal; lia).
        assert (u64 (vend - v - sz level) = vend - (v + sz level)) as -> by (rewrite u64_small; [lia|unfold is_u64; pose proof (sz_pos level ltac:(lia)); lia]).
        eapply (IH _ B P); [exact M'|]. eapply fuel_step; [|exact Htp|exact Hf].
        assert (PAGE_SIZE | sz level) as [k Hk] by (rewrite <- sz_1; apply sz_divide; lia). pose proof (sz_pos level ltac:(lia)).
        assert ((vend - (v + sz level)) / PAGE_SIZE = (vend - v) / PAGE_SIZE - k) as ->.
        { replace (vend - (v + sz level)) with (vend - v + - k * PAGE_SIZE) by lia. rewrite Z.div_add by lia. lia. }
        apply turns_advance; [|done|done]. split; [nia|]. apply Z.div_le_lower_bound; lia.
      * eapply done_bind; [apply (map_down_step s B P tables level v p e M); (done || lia)|]. intros [c s'] (B' & P' & M').
        rewrite index_raw by lia. eapply (IH s' B' P'); [exact M'|]. eapply fuel_step; [apply turns_down|exact Htp|exact Hf].
Qed.
End Map.

(** ** paging_unmap_range *)

(** Two cursors in one table have one path. *)
Lemma cursor_key s B P tables level index v x index' v' x' :
  pinv s B P -> cursor P tables level index v x -> cursor P tables level index' v' x' -> num (level + 1) x = num (level + 1) x'.
Proof using All.
  intros I [Hl Hp _] [_ Hp' _]. destruct (Hp level ltac:(lia)) as (p & H1 & H2), (Hp' level ltac:(lia)) as (p' & H1' & H2').
  rewrite H1 in H1'. injection H1' as <-. pose proof (t_inj _ _ _ _ _ (p_twf _ _ _ _ _ _ _ I) _ _ _ H2 H2') as E. by injection E.
Qed.

(** Elsewhere in the same entry. *)
Lemma cursor_within P tables level v v' :
  cursor P tables level (idx level v) v v -> num level v' = num level v -> cursor P tables level (idx level v') v' v'.
Proof using All.
  intros C E. pose proof (idx_range level v). destruct (cursor_in _ _ _ _ _ _ C ltac:(lia)) as (_ & _ & Hv). destruct C as [Hl Hp _]. split; [done| |].
  - intros j Hj. rewrite (num_chain level (j + 1) v' v) by (lia || done). auto.
  - left. split; [done|]. split; [done|]. assert (0 <= v') as Hv'.
    { apply num_range in E; [|lia]. pose proof (sz_pos level ltac:(lia)). assert (0 <= num level v) by (apply Z.div_pos; lia). nia. }
    split; [done|]. apply below_space; [done|]. rewrite (num_chain level (top + 1) v' v) by (lia || done). by apply below_space; lia.
Qed.

Section Unmap.
Context s0 B0 P0 (v0 vend : Z).
Context (Hrange : forall va, v0 <= va < vend -> owned va).
Context (Hv0 : (PAGE_SIZE | v0)) (Hvend : (PAGE_SIZE | vend)).
#[local] Abbreviation progress := (progress s0 B0 P0).

Definition unmap_post (r : res pt_state) : Prop :=
  done_or_oom r (fun s' => exists B' P', progress s' B' P' v0 vend unmapped /\ trimmed s' B' P' nokey).

(** The state at the head of the loop: only the table at hand may be empty. *)
Record unmap_state s B P tables (level index v x : Z) : Prop := {
  us_progress : progress s B P v0 v unmapped;
  us_cursor : cursor P tables level index v x;
  us_v : v0 <= v <= vend /\ (PAGE_SIZE | v);
  us_trim : trimmed s B P (level, num (level + 1) x);
}.

Lemma progress_freed s B P v l n k s' B' P' :
  progress s B P v0 v unmapped -> freed_post mmu_config own R root s B P l n k s' B' P' -> progress s' B' P' v0 v unmapped.
Proof using All.
  intros [I O X S T] [I' O' _ X' S' T']. split; [done|eapply others_trans; done| | |congruence]; intros va Hv; rewrite X' by done; auto.
Qed.

(** At the top there is nothing to give back. *)
Lemma trimmed_top s B P n : trimmed s B P (top, n) -> trimmed s B P nokey.
Proof using All. intros Tr l n' p Hp Hl _ Ha. apply (Tr l n' p Hp Hl); [|done]. intros [= -> _]. lia. Qed.

(** Giving back the table at hand, below the top. *)
Lemma free_step s B P tables level index v x va :
  unmap_state s B P tables level index v x -> level < top -> num (level + 1) va = num (level + 1) x ->
  exists freed s' B' P', paging_try_free_table mmu_config s tables level (u64 (H + va)) = Ok (freed, s') /\
    progress s' B' P' v0 v unmapped /\ (forall j n, j <> level -> P' !! (j, n) = P !! (j, n)) /\
    if freed then trimmed s' B' P' (level + 1, num (level + 1 + 1) va) else trimmed s' B' P' nokey.
Proof using All.
  intros [Pr C Hv Tr] Hlt E. pose proof (pr_inv _ _ _ _ _ _ _ _ _ Pr) as I. destruct C as [Hl Hp _].
  destruct (Hp level ltac:(lia)) as (c & Htc & Hc), (Hp (level + 1) ltac:(lia)) as (p & Htp & Hpp).
  remember (level + 1) as l eqn:El. assert (level = l - 1) as -> by lia. clear El.
  assert (num (l + 1) va = num (l + 1) x) as E2 by (apply (num_chain l); [lia|done]).
  pose proof (num_split l va ltac:(lia)) as En. rewrite E2, E in En. rewrite En in Hc, Tr.
  destruct (try_free_ok mmu_config own R root R_phys s B P tables l (num (l + 1) x) p (idx l va) c (u64 (H + va)) I Hpp (idx_range _ _) Hc Htp Htc
    (index_raw l va ltac:(lia)) Tr) as (freed & s' & B' & P' & Er & FP & Tr').
  exists freed, s', B', P'. split; [done|]. split; [by eapply progress_freed|]. split; [|by rewrite E2].
  intros j n Hj. apply (fp_path _ _ _ _ _ _ _ _ _ _ _ _ _ FP). congruence.
Qed.

Lemma unmap_up_step s B P tables level v x :
  unmap_state s B P tables level entries v x -> level < top ->
  exists freed s' B' P' x', paging_try_free_table mmu_config s tables level (u64 (H + (v - sz (level + 1)))) = Ok (freed, s') /\
    unmap_state s' B' P' tables (level + 1) (idx (level + 1) (v - sz (level + 1)) + 1) v x'.
Proof using All.
  intros U Hlt. pose proof U as [Pr C Hv Tr]. pose proof (c_level _ _ _ _ _ _ C) as Hl. destruct (cursor_end _ _ _ _ _ C) as ([q Hq] & Ex & _).
  pose proof (sz_pos (level + 1) ltac:(lia)). assert (num (level + 1) x = q - 1) as E1 by (apply num_range; nia).
  assert (num (level + 1) (v - sz (level + 1)) = num (level + 1) x) as E by (rewrite E1; apply num_range; nia).
  destruct (free_step _ _ _ _ _ _ _ _ (v - sz (level + 1)) U Hlt E) as (freed & s' & B' & P' & Er & Pr' & HP & Tr').
  destruct (cursor_up _ _ _ _ _ C Hlt) as [x' C']. exists freed, s', B', P', x'. split; [done|]. pose proof (pr_inv _ _ _ _ _ _ _ _ _ Pr') as I'.
  assert (num (level + 1 + 1) (v - sz (level + 1)) = num (level + 1 + 1) x') as E2.
  { assert (cursor P tables (level + 1) (idx (level + 1) x) x x) as Cx.
    { destruct C as [_ Hp _]. destruct (cursor_end _ _ _ _ _ (us_cursor _ _ _ _ _ _ _ _ U)) as (_ & _ & ?). split; [lia| |left; split; [done|]; split; [done|lia]].
      intros j Hj. apply Hp. lia. }
    rewrite <- (cursor_key s B P tables (level + 1) _ _ _ _ _ _ (pr_inv _ _ _ _ _ _ _ _ _ Pr) Cx C'). apply (num_chain (level + 1)); [lia|done]. }
  split; [done| |done|].
  - destruct C' as [Hl' Hp' Ha']. split; [done| |done]. intros j Hj. destruct (Hp' j Hj) as (p & H1 & H2). exists p. rewrite HP by lia. done.
  - destruct freed; [by rewrite <- E2|]. by eapply trimmed_any.
Qed.

Lemma free_up_ok fuel : forall s B P tables level v,
  unmap_state s B P tables level (idx level v) v v -> (Z.to_nat (top - level) < fuel)%nat ->
  exists s' B' P', free_up mmu_config fuel s tables level (u64 (H + v)) = Ok s' /\ progress s' B' P' v0 v unmapped /\ trimmed s' B' P' nokey.
Proof using All.
  induction fuel as [|fuel IH]; intros s B P tables level v U Hf; [lia|]. cbn [free_up]. pose proof U as [Pr C Hv Tr].
  pose proof (c_level _ _ _ _ _ _ C) as Hl. destruct (decide (level = top)) as [->|Hne].
  - unfold paging_try_free_table. rewrite Z.geb_leb, Z.leb_refl, bind_Ok. exists s, B, P. split; [done|]. split; [done|]. by eapply trimmed_top.
  - destruct (free_step _ _ _ _ _ _ _ _ v U ltac:(lia) eq_refl) as (freed & s' & B' & P' & Er & Pr' & HP & Tr'). rewrite Er, bind_Ok.
    destruct freed; [|by exists s', B', P']. destruct (IH s' B' P' tables (level + 1) v) as (s2 & B2 & P2 & E & ?); [|lia|by exists s2, B2, P2].
    pose proof (idx_range level v). destruct (cursor_in _ _ _ _ _ _ C ltac:(lia)) as (_ & _ & Hvs). split; [done| |done|done]. split; [lia| |by left].
    destruct C as [_ Hp _]. intros j Hj. destruct (Hp j ltac:(lia)) as (p & H1 & H2). exists p. rewrite HP by lia. done.
Qed.

(** Behind some writes from [v] to [v']. *)
Lemma unmap_written s B P tables level v v' index' x' p d w' s' :
  unmap_state s B P tables level (idx level v) v v -> P !! (level, num (level + 1) v) = Some p ->
  v <= v' <= vend -> (PAGE_SIZE | v') -> cursor P tables level index' v' x' ->
  wstep mmu_config own root (words s) w' P level p d v v' unmapped -> pinv s' B P -> others R s B P s' B P -> words s' = w' -> tlb s' = tlb s ->
  unmap_state s' B P tables level index' v' x'.
Proof using All.
  intros [Pr C [Hv Hd] Tr] Hp Hle Hd' C' W I' O' Ew Et. split; [|done|split; [lia|done]|].
  - eapply progress_wstep; [exact Pr|lia|exact W|done..].
  - rewrite <- (cursor_key s' B P tables level _ _ _ _ _ _ I' C C'). eapply (trimmed_wstep s s'); [done|rewrite Ew; exact W|done].
Qed.

(** No entry of the table translates what an entry that is not present covers. *)
Lemma absent_wstep s B P level v v' p e :
  pinv s B P -> P !! (level, num (level + 1) v) = Some p -> words s !! (p + 8 * idx level v) = Some e ->
  entry_wf mmu_config P level (num level v) e -> absent e -> (forall va, v <= va < v' -> num level va = num level v) ->
  wstep mmu_config own root (words s) (words s) P level p 0 v v' unmapped.
Proof using All.
  intros I Hp He Hw Ha Hn. pose proof (p_twf _ _ _ _ _ _ _ I) as T. destruct (t_page _ _ _ _ _ T _ _ _ Hp) as (Hl & _).
  pose proof (wstep_refl mmu_config own R root R_phys (words s) P level (num (level + 1) v) p v unmapped T Hp) as [_ C _ F]. split; [done|done| |done].
  intros va Hv. case_decide as Hva; [|done]. specialize (Hn va Hva).
  assert (num (level + 1) va = num (level + 1) v) as En by (apply (num_chain level); [lia|done]).
  assert (idx level va = idx level v) as Ei by (unfold idx; by rewrite Hn).
  rewrite (xlate_at mmu_config own (words s) P root va level p e T Hv); [unfold entry_xlate; by rewrite Ha|by rewrite En|by rewrite Ei|].
  rewrite Hn. unfold entry_wf in Hw. destruct (P !! (level - 1, num level v)); [|done]. destruct Hw as (Hpr & _). unfold absent in Ha. congruence.
Qed.

Lemma unmap_absent_step s B P tables level v p e :
  unmap_state s B P tables level (idx level v) v v -> v < vend -> P !! (level, num (level + 1) v) = Some p ->
  words s !! (p + 8 * idx level v) = Some e -> entry_wf mmu_config P level (num level v) e -> absent e ->
  let remaining := sz level - v mod sz level in
  let advance := Z.min (vend - v) remaining in
  exists x, 0 < remaining <= sz level /\ PAGE_SIZE <= advance /\ (PAGE_SIZE | advance) /\
    unmap_state s B P tables level (if advance =? remaining then idx level v + 1 else idx level v) (v + advance) x.
Proof using All.
  intros U Hlt Hp He Hw Ha remaining advance. pose proof U as [Pr C [Hv Hd] Tr]. pose proof (pr_inv _ _ _ _ _ _ _ _ _ Pr) as I.
  pose proof (c_level _ _ _ _ _ _ C) as Hl. pose proof (sz_pos level ltac:(lia)) as Hs. pose proof (Z.mod_pos_bound v (sz level) Hs) as Hm.
  assert (0 < PAGE_SIZE) as Hps by (rewrite <- sz_1; apply sz_pos; lia). assert (PAGE_SIZE | sz level) as Hds by (rewrite <- sz_1; apply sz_divide; lia).
  assert (v = num level v * sz level + v mod sz level) as Ev by (unfold num; pose proof (Z.div_mod v (sz level)); lia).
  assert (PAGE_SIZE | remaining) as Hdr.
  { replace remaining with (sz level + num level v * sz level - v) by (unfold remaining; lia). apply Z.divide_sub_r; [|done]. apply Z.divide_add_r; [done|]. by apply Z.divide_mul_r. }
  assert (PAGE_SIZE | advance) as Hda by (unfold advance; apply Z.min_case; [by apply Z.divide_sub_r|done]).
  assert (0 < advance <= vend - v) as Hadv by (unfold advance, remaining; lia).
  assert (forall va, v <= va < v + advance -> num level va = num level v) as Hn by (intros va Hva; apply num_range; [lia|]; unfold advance, remaining in *; lia).
  pose proof (absent_wstep s B P level v (v + advance) p e I Hp He Hw Ha Hn) as W.
  assert (exists x, cursor P tables level (if advance =? remaining then idx level v + 1 else idx level v) (v + advance) x) as [x C'].
  { destruct (Z.eqb_spec advance remaining) as [E|E].
    - apply (cursor_advance P tables level v 1 (v + advance) C); [lia|pose proof (idx_range level v); lia|]. rewrite E. unfold remaining. lia.
    - exists (v + advance). assert (num level (v + advance) = num level v) as En by (apply num_range; [lia|]; unfold advance, remaining in *; lia).
      replace (idx level v) with (idx level (v + advance)) by (unfold idx; by rewrite En). by eapply cursor_within. }
  exists x. split; [unfold remaining; lia|]. split; [apply Z.divide_pos_le; (done || lia)|]. split; [done|].
  eapply (unmap_written s B P tables level v (v + advance)); [exact U|exact Hp|lia|by apply Z.divide_add_r|exact C'|exact W|exact I|apply others_refl|done|done].
Qed.

(** The bulk loop at the base level. *)
Lemma unmap_run_step s B P tables v p :
  unmap_state s B P tables 1 (idx 1 v) v v -> v < vend -> P !! (1, num 2 v) = Some p ->
  let run := MIN (PAGING_TABLE_ENTRIES - idx 1 v) (Z.shiftr (vend - v) PAGE_SIZE_SHIFT) in
  exists removed w' s' x,
    unmap_run (Z.to_nat run) (words s) (p + 8 * idx 1 v) 0 0 = Ok (removed, w') /\
    update_refcnt (with_words s w') p (- removed) = Ok s' /\ unmap_state s' B P tables 1 (idx 1 v + run) (v + run * PAGE_SIZE) x.
Proof using All.
  intros U Hlt Hp run. pose proof U as [Pr C [Hv Hd] Tr]. pose proof (pr_inv _ _ _ _ _ _ _ _ _ Pr) as I. pose proof (p_twf _ _ _ _ _ _ _ I) as T.
  destruct (span_small v0 vend v Hrange ltac:(lia)) as (H0 & Hsp & Hrest).
  destruct (run_facts v (vend - v)) as (R1 & R2 & R3 & _ & _); [by apply Z.divide_sub_r|lia|lia|]. fold run in R1, R2, R3. pose proof (idx_range 1 v).
  destruct (unmap_run_ok mmu_config own R root R_phys P (num 2 v) p (idx 1 v) (Z.to_nat run) (words s) 0 0) as ([removed w'] & E & W); try done; [lia..|].
  exists removed, w'. rewrite Z2Nat.id, !Z.add_0_r in W by lia.
  change (num 2 v) with (num (1 + 1) v) in W. rewrite <- (num_split 1 v ltac:(lia)) in W.
  assert (num 1 v * sz 1 = v) as En by (symmetry; apply aligned_num; [lia|by rewrite sz_1]). rewrite Z.mul_add_distr_r, En, sz_1 in W.
  destruct (pinv_wstep mmu_config own R root R_phys s B P w' 1 (num 2 v) p _ _ _ _ I Hp W) as (b & E1 & _ & I' & O').
  assert (0 < PAGE_SIZE) as Hps by (rewrite sz_page; lia).
  destruct (cursor_advance P tables 1 v run (v + run * PAGE_SIZE) C ltac:(lia) ltac:(lia)) as [x C']; [rewrite sz_1 in *; lia|].
  exists (PtState b w' (tlb s)), x. split; [done|]. split; [exact E1|].
  eapply (unmap_written s B P tables 1 v (v + run * PAGE_SIZE)); try done; [nia|apply Z.divide_add_r; [done|apply Z.divide_factor_r]].
Qed.

(** A leaf above the base level that is unmapped as a whole. *)
Lemma unmap_leaf_step s B P tables level v p e :
  unmap_state s B P tables level (idx level v) v v -> v + sz level <= vend -> P !! (level, num (level + 1) v) = Some p ->
  words s !! (p + 8 * idx level v) = Some e -> entry_wf mmu_config P level (num level v) e -> own_at level (idx level v) = true ->
  ARCH_PTE_PRESENT e = true -> ARCH_PTE_IS_LEAF e level = true -> (sz level | v) ->
  exists s1 x, update_refcnt (with_words s (<[p + 8 * idx level v := 0]> (words s))) p (-1) = Ok s1 /\
    unmap_state s1 B P tables level (idx level v + 1) (v + sz level) x.
Proof using All.
  intros U Hle Hp He Hw Ho Hpr Hlf Hdv. pose proof U as [Pr C [Hv Hd] Tr]. pose proof (pr_inv _ _ _ _ _ _ _ _ _ Pr) as I. pose proof (p_twf _ _ _ _ _ _ _ I) as T.
  pose proof (c_level _ _ _ _ _ _ C) as Hl. pose proof (sz_pos level ltac:(lia)) as Hs. pose proof (idx_range level v).
  assert (P !! (level - 1, num level v) = None) as Hn.
  { unfold entry_wf in Hw. destruct (P !! (level - 1, num level v)); [|done]. destruct Hw as (_ & ? & _). congruence. }
  rewrite (num_split level v ltac:(lia)) in Hn. pose proof (aligned_num level v ltac:(lia) Hdv) as Ev.
  pose proof (wstep_write mmu_config own R root R_phys (words s) P level (num (level + 1) v) p (idx level v) e 0 T Hp (idx_range _ _) Ho Hn He (or_introl pl_absent)) as W.
  rewrite <- (num_split level v ltac:(lia)), Hpr, pl_absent, Z.mul_add_distr_r, <- Ev, Z.mul_1_l in W. cbn [Z.b2z] in W.
  eapply (wstep_ext mmu_config own R root R_phys _ _ _ _ _ _ _ _ _ unmapped) in W; [|intros va _ _; unfold entry_xlate; by rewrite pl_absent].
  destruct (pinv_wstep mmu_config own R root R_phys s B P _ level _ p _ _ _ _ I Hp W) as (b & E1 & _ & I' & O').
  destruct (cursor_advance P tables level v 1 (v + sz level) C ltac:(lia) ltac:(lia)) as [x C']; [lia|].
  eexists _, x. split; [exact E1|]. eapply (unmap_written s B P tables level v (v + sz level)); try done; [lia|].
  apply Z.divide_add_r; [done|]. rewrite <- sz_1. apply sz_divide. lia.
Qed.

(** Down one level. *)
Lemma unmap_down_step s B P tables level v p e :
  unmap_state s B P tables level (idx level v) v v -> 2 <= level -> P !! (level, num (level + 1) v) = Some p ->
  words s !! (p + 8 * idx level v) = Some e -> own_at level (idx level v) = true -> ARCH_PTE_PRESENT e = true ->
  done_or_oom (if ARCH_PTE_IS_LEAF e level then paging_split_leaf mmu_config s (p + 8 * idx level v) level else Ok (ARCH_DECODE_PTE e, s))
    (fun '(c, s') => exists B' P', unmap_state s' B' P' (<[level - 1 := c]> tables) (level - 1) (idx (level - 1) v) v v).
Proof using All.
  intros U Hl Hp He Ho Hpr. pose proof U as [Pr C Hv Tr]. pose proof (pr_inv _ _ _ _ _ _ _ _ _ Pr) as I.
  pose proof (map_child_ok s B P level (num (level + 1) v) p (idx level v) e 0 I Hp (idx_range _ _) Ho Hl He) as M.
  unfold map_child in M. rewrite Hpr in M. cbn [negb] in M. eapply done_mono; [exact M|].
  intros [c s'] (B' & P' & CP). exists B', P'. pose proof (ch_child _ _ _ _ _ _ _ _ _ _ _ _ _ _ CP) as Hc. rewrite <- num_split in Hc by lia.
  split; [by eapply progress_child| |done|].
  - apply cursor_down; [|lia|done]. eapply cursor_map; [|exact C]. apply CP.
  - rewrite Z.sub_add, (num_split level) by lia. by apply CP.
Qed.

Lemma pages_advance rest a : (PAGE_SIZE | a) -> (rest - a) / PAGE_SIZE = rest / PAGE_SIZE - a / PAGE_SIZE.
Proof using All.
  assert (0 < PAGE_SIZE) as Hps by (rewrite <- sz_1; apply sz_pos; lia). intros [k ->]. rewrite Z.div_mul by lia.
  replace (rest - k * PAGE_SIZE) with (rest + - k * PAGE_SIZE) by lia. rewrite Z.div_add by lia. lia.
Qed.

(** One more advance within the fuel. *)
Lemma advance_fuel fuel v a level level' index index' :
  v <= v + a <= vend -> (PAGE_SIZE | a) -> PAGE_SIZE <= a -> 1 <= level <= top -> 1 <= level' <= top ->
  (Z.to_nat (turns ((vend - v) / PAGE_SIZE) level index) < S fuel)%nat ->
  (Z.to_nat (turns ((vend - (v + a)) / PAGE_SIZE) level' index') < fuel)%nat.
Proof using All.
  intros Hv Hd Hp Hl Hl' Hf. assert (0 < PAGE_SIZE) as Hps by (rewrite <- sz_1; apply sz_pos; lia).
  replace (vend - (v + a)) with (vend - v - a) by lia. rewrite (pages_advance _ _ Hd).
  assert (1 <= a / PAGE_SIZE) by (apply Z.div_le_lower_bound; lia). assert (a / PAGE_SIZE <= (vend - v) / PAGE_SIZE) by (apply Z.div_le_mono; lia).
  eapply fuel_step; [apply (turns_advance _ _ level index index' level'); [split; done|done|done]|apply turns_pos; [|done]|exact Hf]. apply Z.div_pos; lia.
Qed.

Lemma unmap_loop_ok fuel : forall s B P tables level index v x,
  unmap_state s B P tables level index v x -> (Z.to_nat (turns ((vend - v) / PAGE_SIZE) level index) < fuel)%nat ->
  unmap_post (unmap_loop mmu_config fuel s tables level index (u64 (H + v)) (vend - v)).
Proof using All.
  induction fuel as [|fuel IH]; intros s B P tables level index v x U Hf; [lia|]. cbn [unmap_loop]. pose proof U as [Pr C [Hv Hd] Tr].
  assert (0 < PAGE_SIZE) as Hps by (rewrite <- sz_1; apply sz_pos; lia). pose proof (c_level _ _ _ _ _ _ C) as Hl.
  assert (0 <= (vend - v) / PAGE_SIZE) as Hpages by (apply Z.div_pos; lia). pose proof (turns_pos ((vend - v) / PAGE_SIZE) level index Hpages Hl) as Htp.
  rewrite PAGING_TABLE_ENTRIES_eq. destruct (Z.eqb_spec index entries) as [->|Hne].
  - destruct (Z.eqb_spec level top) as [->|Hlt].
    { unfold unmap_post. cbn. assert (v = vend) as ->; [|exists B, P; split; [done|by eapply trimmed_top]].
      destruct (cursor_end _ _ _ _ _ C) as ([q Hq] & _ & Hv'). change (sz (top + 1)) with space in Hq. pose proof space_pos.
      destruct (decide (v = vend)) as [|Hnv]; [done|]. destruct (span_small v0 vend v Hrange ltac:(lia)) as (_ & Hsp & _). assert (0 < q < 1) by nia. lia. }
    rewrite parent_raw, (PAGING_ENTRY_SIZE_eq mmu_config), raw_sub by lia.
    destruct (unmap_up_step _ _ _ _ _ _ _ U ltac:(lia)) as (freed & s' & B' & P' & x' & E & U'). rewrite E, bind_Ok. eapply (IH s' B' P'); [exact U'|].
    eapply fuel_step; [|exact Htp|exact Hf]. apply turns_up. lia.
  - destruct (cursor_in _ _ _ _ _ _ C Hne) as (-> & -> & Hvs). destruct (Z.eqb_spec (vend - v) 0) as [Hz|Hnz].
    { unfold unmap_post. assert (v = vend) as -> by lia. destruct (free_up_ok (S (Z.to_nat top)) _ _ _ _ _ _ U ltac:(lia)) as (s' & B' & P' & -> & ? & ?). cbn. eauto. }
    destruct (span_small v0 vend v Hrange ltac:(lia)) as (H0 & Hsp & Hrest). assert (owned v) as Ho by (apply Hrange; lia).
    destruct (cursor_entry s B P tables level v (pr_inv _ _ _ _ _ _ _ _ _ Pr) C Ho) as (p & e & Ht & Hp & Epte & He & Hw & Hoa).
    rewrite (load_Ok _ _ _ Ht), bind_Ok. cbv zeta. rewrite Epte, (load_Ok _ _ _ He), bind_Ok. pose proof (sz_pos level ltac:(lia)) as Hs.
    rewrite aligned_raw, (PAGING_ENTRY_SIZE_eq mmu_config) by lia. destruct (ARCH_PTE_PRESENT e) eqn:Hpr; cbn [negb].
    + destruct (Z.eqb_spec level 1) as [->|Hl1]; [|destruct (ARCH_PTE_IS_LEAF e level && (_ && _)) eqn:Hcond].
      * destruct (run_facts v (vend - v)) as (R1 & R2 & R3 & R4 & _); [by apply Z.divide_sub_r|lia|lia|].
        destruct (unmap_run_step s B P tables v p U ltac:(lia) Hp) as (removed & w' & s' & x & E1 & E2 & U').
        rewrite PAGING_TABLE_ENTRIES_eq in *. set (run := MIN _ _) in *. rewrite E1, bind_Ok, E2, bind_Ok, R4, raw_add. clearbody run.
        assert (u64 (vend - v - run * PAGE_SIZE) = vend - (v + run * PAGE_SIZE)) as -> by (rewrite u64_small; [lia|unfold is_u64; nia]).
        eapply (IH s' B P); [exact U'|]. eapply advance_fuel; [|apply Z.divide_factor_r| |exact Hl|exact Hl|exact Hf]; nia.
      * rewrite !andb_true_iff in Hcond. destruct Hcond as [Hlf [Hav Hlen]]. rewrite Z.geb_leb, Z.leb_le in Hlen. apply Z.eqb_eq, Z.mod_divide in Hav; [|lia].
        rewrite (store_Ok _ _ _ _ He), bind_Ok.
        destruct (unmap_leaf_step s B P tables level v p e U ltac:(lia) Hp He Hw Hoa Hpr Hlf Hav) as (s1 & x & E1 & U'). rewrite E1, bind_Ok, raw_add.
        assert (u64 (vend - v - sz level) = vend - (v + sz level)) as -> by (rewrite u64_small; [lia|unfold is_u64; lia]).
        assert (PAGE_SIZE | sz level) as Hds by (rewrite <- sz_1; apply sz_divide; lia).
        eapply (IH s1 B P); [exact U'|]. eapply advance_fuel; [lia|done|by apply Z.divide_pos_le|exact Hl|exact Hl|exact Hf].
      * eapply done_bind; [apply (unmap_down_step s B P tables level v p e U); (done || lia)|]. intros [c s'] (B' & P' & U').
        rewrite index_raw by lia. eapply (IH s' B' P'); [exact U'|]. eapply fuel_step; [apply turns_down|exact Htp|exact Hf].
    + destruct (unmap_absent_step s B P tables level v p e U ltac:(lia) Hp He Hw Hpr) as (x & Hr & Ha & Hda & U').
      assert (u64 (sz level - MISALIGNMENT (u64 (H + v)) (sz level)) = sz level - v mod sz level) as ->.
      { pose proof (shift_level mmu_config level Hl). unfold MISALIGNMENT, sz at 2. rewrite u64_idemp, land_low by lia. fold (sz level). rewrite raw_mod by done.
        apply u64_small. unfold is_u64. assert (sz level < 2 ^ 64) by (apply Z.pow_lt_mono_r; lia). lia. }
      rewrite MIN_min, raw_add. set (a := Z.min _ _) in *. assert (a <= vend - v) as Hav by apply Z.le_min_l. clearbody a.
      assert (u64 (vend - v - a) = vend - (v + a)) as -> by (rewrite u64_small; [lia|unfold is_u64; lia]).
      eapply (IH s B P); [exact U'|]. eapply advance_fuel; [lia|done|done|exact Hl|exact Hl|exact Hf].
Qed.
End Unmap.
End Loops.
