(* ===== verification/PagingClaims.v ===== *)
(** * Page tables as their clients see them

    A page table is a partial function from addresses to physical addresses
    and protections ([xlate]); [paging_map_range] and [paging_unmap_range]
    change it on exactly one range, flush that range, and use no more tables
    than the function needs. *)

From S2P Require Import Prelude LList Pfndb Buddy BuddyInv BuddySpec PagingArch Paging PagingRep PagingPmm PagingSpec PagingMap.
#[local] Open Scope Z_scope.

(** Every page of the range was flushed. *)
Definition flushed `{cfg : kconfig} (t t' : list tlb_op) (vaddr len : Z) : Prop :=
  exists new, t' = new ++ t /\
    (TlbFlushAll ∈ new \/ forall a, vaddr <= a < vaddr + len -> TlbFlush (a - a mod PAGE_SIZE) ∈ new).

Section Flush.
Context {cfg : kconfig} {cfg_ok : kconfig_ok cfg} {A : PagingArch}.

Lemma flush_loop_ok fuel : forall curr end_ t,
  (PAGE_SIZE | curr) -> (PAGE_SIZE | end_) -> 0 <= curr <= end_ -> end_ < 2 ^ 64 -> (Z.to_nat ((end_ - curr) / PAGE_SIZE) < fuel)%nat ->
  exists new, flush_loop fuel curr end_ t = Ok (new ++ t) /\ forall a, curr <= a < end_ -> TlbFlush (a - a mod PAGE_SIZE) ∈ new.
Proof using cfg_ok.
  assert (0 < PAGE_SIZE) as Hps by (rewrite PAGE_SIZE_eq; pose proof shift_range; apply Z.pow_pos_nonneg; lia).
  induction fuel as [|fuel IH]; intros curr end_ t Hc He Hb Hm Hf; [lia|]. cbn [flush_loop]. destruct (Z.ltb_spec curr end_) as [Hlt|Hge].
  - assert (PAGE_SIZE <= end_ - curr) as Hstep by (apply Z.divide_pos_le; [lia|by apply Z.divide_sub_r]).
    rewrite u64_small by (unfold is_u64; lia). destruct (IH (curr + PAGE_SIZE) end_ (TlbFlush curr :: t)) as (new & -> & Hn); try done; [|lia| |].
    + apply Z.divide_add_r; [done|apply Z.divide_refl].
    + replace (end_ - (curr + PAGE_SIZE)) with (end_ - curr + -1 * PAGE_SIZE) by lia. rewrite Z.div_add by lia.
      assert (1 <= (end_ - curr) / PAGE_SIZE) by (apply Z.div_le_lower_bound; lia). lia.
    + exists (new ++ [TlbFlush curr]). rewrite <- app_assoc. split; [done|]. intros a Ha. apply elem_of_app.
      destruct (Z.lt_ge_cases a (curr + PAGE_SIZE)) as [Hin|Hout]; [right|left; apply Hn; lia].
      apply list_elem_of_singleton. f_equal. destruct Hc as [k ->]. rewrite (Z.mod_eq a) by lia.
      assert (a / PAGE_SIZE = k) as -> by (symmetry; apply (Z.div_unique a PAGE_SIZE k (a - k * PAGE_SIZE)); lia). lia.
  - exists []. split; [done|]. lia.
Qed.

Lemma flush_range_ok vaddr len t :
  (PAGE_SIZE | vaddr) -> (PAGE_SIZE | len) -> 0 <= vaddr -> 0 <= len -> vaddr + len < 2 ^ 64 ->
  exists t', arch_tlb_flush_range vaddr len t = Ok t' /\ flushed t t' vaddr len.
Proof using cfg_ok.
  intros Hv Hl H1 H2 H3. unfold arch_tlb_flush_range. destruct (len >=? PAGE_SIZE_LARGE).
  - eexists. split; [done|]. exists [TlbFlushAll]. split; [done|]. left. by left.
  - pose proof shift_range as Hsh. assert (0 < PAGE_SIZE) as Hps by (rewrite PAGE_SIZE_eq; apply Z.pow_pos_nonneg; lia).
    assert (PAGE_SIZE | vaddr + len) as Hd by (by apply Z.divide_add_r).
    rewrite u64_small by (unfold is_u64; lia).
    assert (ALIGN_DOWN vaddr PAGE_SIZE = vaddr) as ->.
    { rewrite PAGE_SIZE_eq in *. rewrite ALIGN_DOWN_spec by (unfold is_u64; lia). apply Z.mod_divide in Hv; [|lia]. rewrite Hv. lia. }
    assert (ALIGN_UP (vaddr + len) PAGE_SIZE = vaddr + len) as ->.
    { rewrite PAGE_SIZE_eq in *. apply ALIGN_UP_aligned; [lia|unfold is_u64; lia|done]. }
    destruct (flush_loop_ok (S (S (S (Z.to_nat (Z.shiftr len PAGE_SIZE_SHIFT))))) vaddr (vaddr + len) t) as (new & -> & Hn); try done; [lia| |].
    + rewrite Z.shiftr_div_pow2, <- PAGE_SIZE_eq by lia. replace (vaddr + len - vaddr) with len by lia. lia.
    + eexists. split; [done|]. exists new. split; [done|]. by right.
Qed.
End Flush.

Section Claims.
Context {cfg : kconfig} {cfg_ok : kconfig_ok cfg} {A : PagingArch} {L : PagingLaws A} {PL : ProtLaws A}.
Context (mmu_config : Z) (own : Z -> bool) {G : geometry mmu_config}.
Context (R : regions) (root : Z).
(** An entry has room for every page of the managed memory. *)
Context (R_phys : forall b m, (b, m) ∈ R -> b + bsize m <= 2 ^ 52).
Abbreviation top := (top_level mmu_config).
Abbreviation space := (space mmu_config).
Abbreviation xlate := (xlate mmu_config).
Abbreviation owned := (owned mmu_config own).
Implicit Types (s : pt_state) (B : blocks) (P : table_map).

(** The tables are in order and none of them is empty. *)
Definition page_table_ok s B P : Prop := pinv mmu_config own R root s B P /\ trimmed mmu_config own s B P nokey.

(** A range of whole pages in the part of the space the table owns; it may
    not end at the very last address. *)
Record range_ok (vaddr len : Z) : Prop := {
  ro_vaddr : 0 <= vaddr /\ (PAGE_SIZE | vaddr);
  ro_len : 0 <= len /\ (PAGE_SIZE | len);
  ro_end : vaddr + len < 2 ^ 64;
  ro_own : forall va, vaddr mod space <= va < vaddr mod space + len -> owned va;
}.

(** What one of the range functions does to the translation [f]. *)
Definition update_range (f g : Z -> option (Z * Z)) (lo len va : Z) : option (Z * Z) :=
  if decide (lo <= va < lo + len) then g va else f va.

Record range_changed s B P s' B' P' (vaddr len : Z) (g : Z -> option (Z * Z)) : Prop := {
  rc_ok : page_table_ok s' B' P';
  rc_others : others R s B P s' B' P';
  rc_xlate : forall va, owned va -> xlate (words s') root va = update_range (xlate (words s) root) g (vaddr mod space) len va;
  (** What small pages translate, small pages go on to translate. *)
  rc_small : forall va, owned va -> is_Some (P !! (1, num 2 va)) -> xlate (words s) root va <> None -> xlate (words s') root va <> None ->
    is_Some (P' !! (1, num 2 va));
  rc_flush : flushed (tlb s) (tlb s') vaddr len;
}.

Section Range.
Context s B P (vaddr len : Z) (Ok0 : page_table_ok s B P) (Ro : range_ok vaddr len).
#[local] Abbreviation v := (vaddr mod space).
#[local] Abbreviation H := (vaddr - v).

Lemma range_split :
  (space | H) /\ u64 (H + v) = vaddr /\ 0 <= v < space /\ (PAGE_SIZE | v) /\ (PAGE_SIZE | v + len) /\ IS_ALIGNED vaddr PAGE_SIZE = true /\
  IS_ALIGNED len PAGE_SIZE = true.
Proof using All.
  destruct Ro as [[H1 H2] [H3 H4] H5 _]. pose proof (space_pos mmu_config own R root R_phys 0 (Z.divide_0_r _)) as Hs. fold space in Hs.
  pose proof (Z.mod_pos_bound vaddr space Hs) as Hm. pose proof (top_range mmu_config) as Ht. pose proof shift_range.
  assert (PAGE_SIZE | space) as Hps by (rewrite <- sz_1; apply sz_divide; lia).
  assert (PAGE_SIZE | v) as Hd by (rewrite Z.mod_eq by lia; apply Z.divide_sub_r; [done|by apply Z.divide_mul_l]).
  split_and!; try apply Hm; try done.
  - exists (vaddr / space). pose proof (Z.div_mod vaddr space). lia.
  - rewrite Z.sub_add. apply u64_small. unfold is_u64. lia.
  - by apply Z.divide_add_r.
  - rewrite PAGE_SIZE_eq in *. apply IS_ALIGNED_spec; [lia|unfold is_u64; lia|done].
  - rewrite PAGE_SIZE_eq in *. apply IS_ALIGNED_spec; [lia|unfold is_u64; lia|done].
Qed.

Lemma range_fuel_ok len' : 0 <= len' -> (Z.to_nat (turns mmu_config (len' / PAGE_SIZE) top (idx top v)) < range_fuel mmu_config len')%nat.
Proof using All.
  intros Hl. pose proof (top_range mmu_config). unfold turns, range_fuel. pose proof (idx_range top v). rewrite (proj2 (Z.eqb_neq _ entries)) by lia.
  pose proof shift_range. rewrite Z.shiftr_div_pow2, <- PAGE_SIZE_eq by lia.
  assert (0 <= len' / PAGE_SIZE) by (apply Z.div_pos; [done|rewrite PAGE_SIZE_eq; apply Z.pow_pos_nonneg; lia]). nia.
Qed.

(** After the loop, the flush. *)
Lemma flush_after (r : res pt_state) g :
  done_or_oom R r (fun s' => exists B' P', progress mmu_config own R root s B P s' B' P' v (v + len) g /\ trimmed mmu_config own s' B' P' nokey) ->
  done_or_oom R (s ← r; t ← arch_tlb_flush_range vaddr len (tlb s); Ok (with_tlb s t)) (fun s' => exists B' P', range_changed s B P s' B' P' vaddr len g).
Proof using All.
  intros D. eapply done_bind; [exact D|]. intros s' (B' & P' & [I O X S T] & Tr). destruct Ro as [[H1 H2] [H3 H4] H5 _].
  destruct (flush_range_ok vaddr len (tlb s') H2 H4 H1 H3 H5) as (t & -> & F). rewrite bind_Ok. cbn. exists B', P'. split.
  - split; [|exact Tr]. destruct I. by split.
  - exact O.
  - intros va Hv. cbn. rewrite X by done. done.
  - exact S.
  - cbn. by rewrite <- T.
Qed.

Lemma start_cursor : cursor mmu_config P {[top := root]} top (idx top v) v v.
Proof using All.
  destruct range_split as (_ & _ & Hv & _). apply (cursor_start mmu_config own R root R_phys 0 (Z.divide_0_r _)); [|done].
  exact (t_root _ _ _ _ _ (p_twf _ _ _ _ _ _ _ (proj1 Ok0))).
Qed.

Lemma start_index : PAGING_INDEX vaddr top = idx top v.
Proof using All.
  destruct range_split as (HH & Ev & _). rewrite <- Ev at 1. apply (index_raw mmu_config own R root R_phys H HH). pose proof (top_range mmu_config). lia.
Qed.

Lemma map_range_ok paddr attr :
  0 <= paddr -> (PAGE_SIZE | paddr) -> paddr + len <= 2 ^ 52 ->
  done_or_oom R (paging_map_range mmu_config s root vaddr paddr len attr)
    (fun s' => exists B' P', range_changed s B P s' B' P' vaddr len (mapped mmu_config v paddr attr)).
Proof using All.
  intros Hp Hd Hm. destruct range_split as (HH & Ev & Hv & Hdv & Hdl & E1 & E2). destruct Ro as [[H1 H2] [H3 H4] H5 Hown]. destruct Ok0 as [I Tr].
  unfold paging_map_range. assert (IS_ALIGNED paddr PAGE_SIZE = true) as E3.
  { rewrite PAGE_SIZE_eq in *. pose proof shift_range. apply IS_ALIGNED_spec; [lia|unfold is_u64; lia|done]. }
  rewrite E1, E2, E3. cbn [dbg_assert]. rewrite !bind_Ok. apply flush_after.
  pose proof (map_loop_ok mmu_config own R root R_phys H HH s B P v (v + len) paddr attr Hown Hdv Hdl Hd Hp ltac:(lia)
    (range_fuel mmu_config len) s B P {[top := root]} top (idx top v) v v) as M.
  rewrite Ev in M. replace (v + len - v) with len in M by lia. rewrite Z.sub_diag, Z.add_0_r in M. rewrite (u64_small paddr) in M by (unfold is_u64; lia).
  rewrite start_index. apply M; [|by apply range_fuel_ok].
  split; [by apply (progress_start mmu_config own R root R_phys H HH)|exact start_cursor|split; [lia|done]|by left].
Qed.

Lemma unmap_range_ok :
  done_or_oom R (paging_unmap_range mmu_config s root vaddr len) (fun s' => exists B' P', range_changed s B P s' B' P' vaddr len unmapped).
Proof using All.
  destruct range_split as (HH & Ev & Hv & Hdv & Hdl & E1 & E2). destruct Ro as [[H1 H2] [H3 H4] H5 Hown]. destruct Ok0 as [I Tr].
  unfold paging_unmap_range. rewrite E1, E2. cbn [dbg_assert]. rewrite !bind_Ok. apply flush_after.
  pose proof (unmap_loop_ok mmu_config own R root R_phys H HH s B P v (v + len) Hown Hdv Hdl
    (range_fuel mmu_config len) s B P {[top := root]} top (idx top v) v v) as M.
  rewrite Ev in M. replace (v + len - v) with len in M by lia. rewrite start_index. apply M; [|by apply range_fuel_ok].
  split; [by apply (progress_start mmu_config own R root R_phys H HH)|exact start_cursor|split; [lia|done]|].
  by apply (trimmed_any mmu_config own R root R_phys H HH).
Qed.
End Range.

(** ** Looking up *)
Lemma walk_raw w a va : a mod space = va mod space -> paging_walk mmu_config w root a = paging_walk mmu_config w root va.
Proof using All.
  intros E. unfold paging_walk. assert (forall n l t, Z.of_nat n = l -> l <= top -> walk_loop n w t a l = walk_loop n w t va l) as H.
  { induction n as [|n IH]; intros l t Hn Hl; [done|]. cbn [walk_loop].
    assert (paging_get_pte t a l = paging_get_pte t va l) as ->.
    { unfold paging_get_pte. rewrite !PAGING_INDEX_eq by lia. by rewrite <- (idx_mod mmu_config l a), E, (idx_mod mmu_config l va) by lia. }
    destruct (load w _) as [e| | |]; try done. rewrite !bind_Ok. repeat case_match; try done. apply IH; lia. }
  pose proof (top_range mmu_config). apply H; lia.
Qed.

(** The walk returns; at a leaf that is present, or with nothing. *)
Lemma walk_returns w P va :
  twf mmu_config own w P root -> owned va ->
  exists r, paging_walk mmu_config w root va = Ok r /\
    match r with Some (e, l, _) => 1 <= l <= top /\ ARCH_PTE_PRESENT e = true | None => True end.
Proof using All.
  intros T Hv. assert (forall d l p, Z.to_nat l = d -> P !! (l, num (l + 1) va) = Some p ->
    exists r, walk_at w l va p = Ok r /\ match r with Some (e, l, _) => 1 <= l <= top /\ ARCH_PTE_PRESENT e = true | None => True end) as Hd.
  { induction d as [|d IH]; intros l p Hd Hp; destruct (t_page _ _ _ _ _ T _ _ _ Hp) as (Hl & _ & Hok & _); [lia|].
    destruct (entry_at _ _ _ _ _ _ _ _ T Hp Hv) as (e & He & Hw). rewrite (walk_unfold w l va p e ltac:(lia) Hok He). unfold entry_wf in Hw.
    destruct (P !! (l - 1, num l va)) as [c|] eqn:Hc.
    - destruct Hw as (-> & -> & _ & ->). cbn [negb]. apply IH; [lia|]. by rewrite Z.sub_add.
    - destruct Hw as [-> |(Hpr & -> & _)]; [by exists None|]. rewrite Hpr. by eexists. }
  unfold paging_walk. apply (Hd _ top root eq_refl). assert (num (top + 1) va = 0) as -> by (apply Z.div_small; apply Hv). apply T.
Qed.

Lemma get_mapped s B P a pa prot :
  pinv mmu_config own R root s B P -> owned (a mod space) -> xlate (words s) root (a mod space) = Some (pa, prot) ->
  exists base level, paging_get_paddr mmu_config (words s) root a = Ok (base, Some level) /\ base + a mod sz level = pa /\
    paging_get_prot mmu_config (words s) root a = Ok prot.
Proof using All.
  intros I Hv Hx. destruct (walk_returns (words s) P (a mod space) (p_twf _ _ _ _ _ _ _ I) Hv) as (r & E & Hr). unfold xlate in Hx. rewrite E in Hx.
  destruct r as [[[e l] pte]|]; [|done]. destruct Hr as [Hl Hpr]. unfold entry_xlate in Hx. rewrite Hpr in Hx. injection Hx as Hpa Hprot.
  pose proof (space_pos mmu_config own R root R_phys 0 (Z.divide_0_r _)) as Hs. rewrite <- (walk_raw (words s) a) in E by (symmetry; apply Z.mod_mod; lia).
  unfold paging_get_paddr, paging_get_prot. rewrite E, !bind_Ok. eexists _, l. split; [done|]. split; [|congruence]. rewrite <- Hpa. unfold decode_leaf. f_equal.
  assert (sz l | space) as [k Hk] by (apply sz_divide; lia). pose proof (sz_pos l ltac:(lia)). rewrite Hk. rewrite Z.mul_comm, Z.rem_mul_r by nia.
  by rewrite Z.mul_comm, Z.mod_add, Z.mod_mod by lia.
Qed.

Lemma get_unmapped s B P a :
  pinv mmu_config own R root s B P -> owned (a mod space) -> xlate (words s) root (a mod space) = None ->
  paging_get_paddr mmu_config (words s) root a = Ok (0, None) /\ paging_get_prot mmu_config (words s) root a = Ok 0.
Proof using All.
  intros I Hv Hx. destruct (walk_returns (words s) P (a mod space) (p_twf _ _ _ _ _ _ _ I) Hv) as (r & E & Hr). unfold xlate in Hx. rewrite E in Hx.
  pose proof (space_pos mmu_config own R root R_phys 0 (Z.divide_0_r _)) as Hs. rewrite <- (walk_raw (words s) a) in E by (symmetry; apply Z.mod_mod; lia).
  unfold paging_get_paddr, paging_get_prot. rewrite E, !bind_Ok. destruct r as [[[e l] pte]|]; [|done].
  destruct Hr as [_ Hpr]. unfold entry_xlate in Hx. by rewrite Hpr in Hx.
Qed.

(** ** Nothing translated, no tables *)
Lemma path_owned w P va l p :
  twf mmu_config own w P root -> P !! (l, num (l + 1) va) = Some p -> l < top -> own (idx top va) = true.
Proof using All.
  intros T. assert (forall d l p, Z.to_nat (top - l) = d -> P !! (l, num (l + 1) va) = Some p -> l < top -> own (idx top va) = true) as Hd; [|by eapply Hd].
  clear l p. induction d as [|d IH]; intros l p Hd Hp Hl; [lia|]. destruct (t_page _ _ _ _ _ T _ _ _ Hp) as (Hl1 & _).
  destruct (t_parent _ _ _ _ _ T _ _ _ Hp Hl) as [[q Hq] Ho]. rewrite <- num_up in Hq by lia. destruct (decide (l + 1 = top)) as [E|E].
  - rewrite E in Ho. unfold own_at in Ho. rewrite Z.ltb_irrefl in Ho. exact Ho.
  - apply (IH (l + 1) q); [lia|done|lia].
Qed.

(** Tables come from the page allocator. *)
Definition all_managed P : Prop := forall k p, P !! k = Some p -> k = (top, 0) \/ ~ unmanaged R p.

Lemma untranslated_tables s B P :
  page_table_ok s B P -> (forall va, owned va -> xlate (words s) root va = None) ->
  all_managed P -> P = {[(top, 0) := root]}.
Proof using All.
  intros [I Tr] Hx Hm. pose proof (p_twf _ _ _ _ _ _ _ I) as T. pose proof (t_root _ _ _ _ _ T) as Hroot.
  assert (forall d l n p, Z.to_nat l = d -> l < top -> P !! (l, n) = Some p -> False) as Hd.
  { induction d as [|d IH]; intros l n p Hd Hl Hp; destruct (t_page _ _ _ _ _ T _ _ _ Hp) as (Hl1 & Hn & _); [lia|].
    destruct (p_counted _ _ _ _ _ _ _ I _ _ _ Hp) as [Hu [[Hun _]|[Ha _]]].
    { destruct (Hm _ _ Hp) as [E|E]; [injection E; lia|done]. }
    assert (0 < count mmu_config own (words s) l p) as Hpos by (apply (Tr l n p Hp Hl); [unfold nokey; intros [= -> _]; lia|done]).
    assert (exists i, 0 <= i < entries /\ present_at mmu_config own (words s) l p i = true) as (i & Hi & Hpr).
    { destruct (decide (Exists (fun i => present_at mmu_config own (words s) l p i = true) (seqZ 0 entries))) as [(i & Hi & Hpr)%Exists_exists|Hno].
      - apply elem_of_seqZ in Hi. exists i. split; [lia|done].
      - unfold count in Hpos. rewrite tally_none in Hpos; [lia|]. intros i Hi. destruct (present_at _ _ _ _ _ _) eqn:E; [|done]. destruct Hno. apply Exists_exists. eauto. }
    unfold present_at in Hpr. apply andb_true_iff in Hpr as [Ho Hpr]. destruct (t_entry _ _ _ _ _ T _ _ _ i Hp Hi Ho) as (e & He & Hw). rewrite He in Hpr.
    pose proof (sz_pos l ltac:(lia)) as Hs. set (va := (n * entries + i) * sz l).
    assert (num l va = n * entries + i) as En by (unfold num, va; by rewrite Z.div_mul by lia).
    destruct (proj1 (num_eq l va n i ltac:(lia) Hi) En) as [En1 Ei]. rewrite <- En in Hw. rewrite <- En1 in Hp.
    assert (owned va) as Hv.
    { split; [|by apply (path_owned (words s) P va l p)]. assert (space = sz (top + 1) / sz (l + 1) * sz (l + 1)) as Es.
      { assert (sz (l + 1) | sz (top + 1)) as [k Hk] by (apply sz_divide; lia). unfold PagingRep.space. rewrite Hk, Z.div_mul; [done|]. pose proof (sz_pos (l + 1) ltac:(lia)). lia. }
      set (X := _ / _) in Hn, Es. clearbody X. rewrite (sz_succ l) in Es by lia. unfold va. pose proof entries_pos. assert (n * entries + i + 1 <= X * entries) by nia. split; [nia|]. fold space. rewrite Es. nia. }
    unfold entry_wf in Hw. destruct (P !! (l - 1, num l va)) as [c|] eqn:Hc.
    - by apply (IH (l - 1) (num l va) c ltac:(lia) ltac:(lia)).
    - pose proof (Hx va Hv) as Hxv. rewrite (xlate_at mmu_config own (words s) P root va l p e T Hv Hp) in Hxv; [|by rewrite Ei|done].
      unfold entry_xlate in Hxv. by rewrite Hpr in Hxv. }
  apply map_eq. intros [l n]. destruct (decide ((l, n) = (top, 0))) as [->|Hne]; [by rewrite lookup_singleton_eq|].
  rewrite lookup_singleton_ne by done. destruct (P !! (l, n)) as [p|] eqn:Hp; [|done]. exfalso. destruct (t_page _ _ _ _ _ T _ _ _ Hp) as (Hl & Hn & _).
  destruct (decide (l = top)) as [->|]; [|apply (Hd _ l n p eq_refl ltac:(lia) Hp)]. apply Hne. f_equal. pose proof (sz_pos (top + 1) ltac:(lia)). rewrite Z.div_same in Hn by lia. lia.
Qed.

(** ** A fresh root *)
Lemma root_ok s B :
  buddy_inv R (pmm s) B -> settled B -> B !! root = Some (0, BAlloc) -> page_is (pmm s) root PFNDB_PAGE_PTABLE 0 -> phys_ok root -> root <> 0 ->
  (forall i, 0 <= i < entries -> own i = true -> exists e, words s !! (root + 8 * i) = Some e /\ absent e) ->
  page_table_ok s B {[(top, 0) := root]} /\ forall va, owned va -> xlate (words s) root va = None.
Proof using All.
  intros I HS Ha Hp Hok H0 Hw. pose proof (top_range mmu_config) as Ht. pose proof entries_pos as He.
  assert (forall l n p, ({[(top, 0) := root]} : table_map) !! (l, n) = Some p -> l = top /\ n = 0 /\ p = root) as Hone.
  { intros l n p [E <-]%lookup_singleton_Some. by injection E as <- <-. }
  assert (forall i, PagingRep.own_at mmu_config own top i = own i) as Eown by (intros i; unfold own_at; by rewrite Z.ltb_irrefl).
  assert (forall k, ({[(top, 0) := root]} : table_map) !! (top - 1, k) = None) as Hn by (intros k; apply lookup_singleton_ne; intros [=]; lia).
  assert (twf mmu_config own (words s) {[(top, 0) := root]} root) as T.
  { split.
    - apply lookup_singleton_eq.
    - intros l n p (-> & -> & ->)%Hone. split; [lia|]. split; [|done]. pose proof (sz_pos (top + 1) ltac:(lia)). rewrite Z.div_same by lia. lia.
    - intros [l n] [l' n'] p (-> & -> & ->)%Hone (-> & -> & _)%Hone. done.
    - intros l n p i (-> & -> & ->)%Hone Hi Ho. rewrite Eown in Ho. destruct (Hw i Hi Ho) as (e & Hx & Hab). exists e. split; [done|].
      unfold entry_wf. rewrite Hn. by left.
    - intros l n p (-> & _)%Hone. lia. }
  split; [split; [split; try done|]|].
  - intros l n p (-> & -> & ->)%Hone. split; [split; [by destruct Hok|by left]|]. right. split; [done|]. unfold count. rewrite tally_none; [done|].
    intros i Hi%elem_of_seqZ. unfold present_at. rewrite Eown. destruct (own i) eqn:Eo; [|done]. destruct (Hw i ltac:(lia) Eo) as (e & -> & Hab). exact Hab.
  - intros l n p (-> & _)%Hone. lia.
  - intros va Hv. assert (num (top + 1) va = 0) as En by (apply Z.div_small; apply Hv).
    destruct (Hw (idx top va) (idx_range _ _) (proj2 Hv)) as (e & Hx & Hab).
    rewrite (xlate_at mmu_config own (words s) {[(top, 0) := root]} root va top root e T Hv); [unfold entry_xlate; by rewrite Hab|rewrite En; apply lookup_singleton_eq|done|apply Hn].
Qed.

Lemma managed_tables s B P s' B' P' :
  page_table_ok s B P -> page_table_ok s' B' P' -> others R s B P s' B' P' -> all_managed P -> all_managed P'.
Proof using All.
  intros [I _] [I' _] [O _] Hm [l n] p Hk. destruct (decide ((l, n) = (top, 0))) as [|Hne]; [by left|]. right. intros Hun.
  pose proof (p_twf _ _ _ _ _ _ _ I') as T'. pose proof (table_aligned mmu_config own R root R_phys _ _ _ _ _ T' Hk) as Hal.
  destruct (O p (conj Hal (or_intror Hun))) as (_ & Hf & _); [|by apply (Hf _ _ Hk)]. intros k' p' Hk' ->.
  destruct (Hm _ _ Hk') as [-> |?]; [|done]. rewrite (t_root _ _ _ _ _ (p_twf _ _ _ _ _ _ _ I)) in Hk'. injection Hk' as <-.
  apply Hne. by apply (t_inj _ _ _ _ _ T' _ _ _ Hk (t_root _ _ _ _ _ T')).
Qed.

(** ** The range functions *)



(** C12: what was mapped is what [paging_get_paddr] and [paging_get_prot] find,
    at every address of the range; after unmapping they find nothing. *)
Theorem paging_map_get_unmap s B P vaddr paddr len attr s1 :
  page_table_ok s B P -> range_ok vaddr len -> 0 <= paddr -> (PAGE_SIZE | paddr) -> paddr + len <= 2 ^ 52 ->
  paging_map_range mmu_config s root vaddr paddr len attr = Ok s1 ->
  (forall a, vaddr <= a < vaddr + len -> exists base level,
     paging_get_paddr mmu_config (words s1) root a = Ok (base, Some level) /\ base + a mod sz level = paddr + (a - vaddr) /\
     paging_get_prot mmu_config (words s1) root a = Ok (prot_norm mmu_config attr)) /\
  done_or_oom R (paging_unmap_range mmu_config s1 root vaddr len) (fun s2 => forall a, vaddr <= a < vaddr + len ->
     paging_get_paddr mmu_config (words s2) root a = Ok (0, None) /\ paging_get_prot mmu_config (words s2) root a = Ok 0).
Proof using All.
  intros Ok0 Ro Hp Hd Hm E. pose proof (map_range_ok s B P vaddr len Ok0 Ro paddr attr Hp Hd Hm) as M. rewrite E in M. destruct M as (B1 & P1 & C1).
  assert (forall a, vaddr <= a < vaddr + len -> a mod space = vaddr mod space + (a - vaddr) /\ owned (a mod space)) as Hin.
  { intros a Ha. destruct (range_split s B P vaddr len Ok0 Ro) as ([h Hh] & _ & Hv & _). pose proof (ro_own _ _ Ro) as Ho.
    assert (forall m, m <= m + (a - vaddr) < m + len) as Hz by lia. pose proof (Ho (vaddr mod space + (a - vaddr)) (Hz _)) as Hoa. assert (a mod space = vaddr mod space + (a - vaddr)) as ->; [|done].
    symmetry. apply (Z.mod_unique a space h); [left; apply Hoa|lia]. }
  split.
  - intros a Ha. destruct (Hin a Ha) as [Ea Hoa]. eapply get_mapped; [apply C1|done|]. rewrite (rc_xlate _ _ _ _ _ _ _ _ _ C1) by done.
    unfold update_range. rewrite Ea, decide_True by lia. unfold mapped. do 2 f_equal. lia.
  - eapply done_mono; [apply (unmap_range_ok s1 B1 P1 vaddr len (rc_ok _ _ _ _ _ _ _ _ _ C1) Ro)|]. intros s2 (B2 & P2 & C2) a Ha.
    destruct (Hin a Ha) as [Ea Hoa]. eapply get_unmapped; [apply C2|done|]. rewrite (rc_xlate _ _ _ _ _ _ _ _ _ C2) by done.
    unfold update_range. rewrite Ea, decide_True by lia. done.
Qed.

(** unmapping all that is mapped gives every table but the root back to
    the page allocator: nothing is leaked. *)
Theorem paging_unmap_frees_tables s B P vaddr len :
  page_table_ok s B P -> range_ok vaddr len ->
  (forall va, owned va -> xlate (words s) root va <> None -> vaddr mod space <= va < vaddr mod space + len) ->
  all_managed P ->
  done_or_oom R (paging_unmap_range mmu_config s root vaddr len) (fun s' => exists B',
    page_table_ok s' B' {[(top, 0) := root]} /\
    forall q j, B' !! q = Some (j, BAlloc) -> q = root \/ (B !! q = Some (j, BAlloc) /\ fresh_page P q)).
Proof using All.
  intros Ok0 Ro Hall Hm. eapply done_mono; [apply (unmap_range_ok s B P vaddr len Ok0 Ro)|]. intros s' (B' & P' & [Ok' O X _ _]). pose proof (proj2 O) as N.
  assert (P' = {[(top, 0) := root]}) as ->.
  { eapply untranslated_tables; [exact Ok'| |].
    - intros va Hv. rewrite X by done. unfold update_range. case_decide as Hd; [done|]. destruct (xlate (words s) root va) eqn:E; [|done]. destruct Hd.
      apply Hall; [done|]. by rewrite E.
    - by apply (managed_tables s B P s' B'). }
  exists B'. split; [done|]. intros q j Hq. destruct (decide (q = root)) as [|Hne]; [by left|]. right. apply N; [done|].
  intros k p Hk. apply lookup_singleton_Some in Hk as [_ <-]. done.
Qed.
End Claims.

(** ** A user table of x86_64 on the demonstration memory *)
Module PDemo.
#[local] Existing Instance x86_64_config.
#[local] Existing Instance X86_64.arch.

Definition mmu : Z := Z.lor MMU_CONFIG_4LVL_PAGING (Z.lor MMU_CONFIG_L2_LEAF MMU_CONFIG_NX).
Definition user (i : Z) : bool := i <? 256.
Definition s0 : pt_state := PtState BuddySpec.Demo.st ∅ [].
Definition root : Z := match alloc_table s0 with Ok (p, _) => p | _ => 0 end.
Definition s : pt_state := match alloc_table s0 with Ok (_, s) => s | _ => s0 end.

#[export] Instance mmu_geometry : geometry mmu.
Proof. split; vm_compute; discriminate. Qed.

Lemma allocated : alloc_table s0 = Ok (root, s).
Proof.
  assert (match alloc_table s0 with Ok _ => true | _ => false end = true) as H by (vm_compute; reflexivity).
  unfold root, s. by destruct (alloc_table s0) as [[p s]| | |].
Qed.

Lemma user_owned va : 0 <= va < 2 ^ 47 -> owned mmu user va.
Proof.
  intros Hva. split; [change (space mmu) with (2 ^ 48); lia|]. unfold user. apply Z.ltb_lt. change (idx (top_level mmu) va) with (va / 2 ^ 39 mod 512).
  assert (va / 2 ^ 39 < 256) by (apply Z.div_lt_upper_bound; lia). assert (0 <= va / 2 ^ 39) by (apply Z.div_pos; lia). rewrite Z.mod_small; lia.
Qed.

Lemma user_range vaddr len : 0 <= vaddr -> 0 <= len -> (4096 | vaddr) -> (4096 | len) -> vaddr + len <= 2 ^ 47 -> range_ok mmu user vaddr len.
Proof.
  intros. split; [done|done|lia|]. change (space mmu) with (2 ^ 48). intros va. destruct (decide (vaddr < 2 ^ 47)) as [|].
  - rewrite Z.mod_small by lia. intros Hva. apply user_owned. lia.
  - assert (len = 0) by lia. pose proof (Z.mod_pos_bound vaddr (2 ^ 48)). lia.
Qed.

(** The table is empty and in order. *)
Lemma table_ready : exists R B, (forall b m, (b, m) ∈ R -> b + bsize m <= 2 ^ 52) /\
  page_table_ok mmu user R root s B {[(top_level mmu, 0) := root]} /\ forall va, owned mmu user va -> xlate mmu (words s) root va = None.
Proof.
  destruct BuddySpec.Demo.ready as (R & B & [I HS _ _] & _). assert (forall b m, (b, m) ∈ R -> b + bsize m <= 2 ^ 52) as HR.
  { intros b m Hb. destruct I as [xss I]. destruct (r_shape _ _ (i_regions _ _ _ _ I) _ _ Hb) as (_ & _ & _ & Hend).
    change (2 ^ 64 - hhdm_offset) with (2 ^ 47) in Hend. lia. }
  pose proof (alloc_table_ok mmu user R 0 HR s0 B I HS) as H. rewrite allocated in H. destruct H as (B' & I' & HS' & _ & Ew & _ & Ha & _ & Hok & H0 & Hp & _).
  exists R, B'. split; [exact HR|]. apply (root_ok mmu user R root HR s B'); [exact I'|exact HS'|exact Ha|exact Hp|exact Hok|exact H0|]. intros i Hi _. exists 0. rewrite Ew. split; [apply zero_page_in, in_page_word, Hi|reflexivity].
Qed.

Definition span := 0x202000.
Definition s1 : pt_state := match paging_map_range mmu s root 0x1ff000 0x1ff000 span PAGE_URW with Ok s => s | _ => s end.

(** A small page, a large one and a small one. *)
Lemma mapped_run : paging_map_range mmu s root 0x1ff000 0x1ff000 span PAGE_URW = Ok s1.
Proof.
  assert (match paging_map_range mmu s root 0x1ff000 0x1ff000 span PAGE_URW with Ok _ => true | _ => false end = true) as H by (vm_compute; reflexivity).
  unfold s1. by destruct (paging_map_range mmu s root 0x1ff000 0x1ff000 span PAGE_URW).
Qed.

Lemma unmap_run_ends : match paging_unmap_range mmu s1 root 0x200000 0x1000 with Ok _ => true | _ => false end = true.
Proof. vm_compute. reflexivity. Qed.

Lemma span_ok : range_ok mmu user 0x1ff000 span.
Proof. apply user_range; [lia|unfold span; lia|by exists 0x1ff|by exists 0x202|unfold span; lia]. Qed.

Lemma page_ok : range_ok mmu user 0x200000 0x1000.
Proof. apply user_range; [lia|lia|by exists 0x200|by exists 1|lia]. Qed.
End PDemo.

#[local] Existing Instance x86_64_config.
#[local] Existing Instance X86_64.arch.
#[local] Existing Instance PDemo.mmu_geometry.
#[local] Opaque PDemo.s PDemo.root PDemo.s1.



Lemma paging_map_get_unmap_witness : exists s1,
  paging_map_range PDemo.mmu PDemo.s PDemo.root 0x1ff000 0x1ff000 PDemo.span PAGE_URW = Ok s1 /\
  exists base level, paging_get_paddr PDemo.mmu (words s1) PDemo.root 0x234567 = Ok (base, Some level) /\ base + 0x234567 mod sz level = 0x234567.
Proof.
  destruct PDemo.table_ready as (R & B & HR & Ok0 & _). exists PDemo.s1. split; [exact PDemo.mapped_run|].
  destruct (paging_map_get_unmap PDemo.mmu PDemo.user R PDemo.root HR PDemo.s B _ 0x1ff000 0x1ff000 PDemo.span PAGE_URW PDemo.s1 Ok0 PDemo.span_ok
    ltac:(lia) ltac:(by exists 0x1ff) ltac:(unfold PDemo.span; lia) PDemo.mapped_run) as [Hg _].
  destruct (Hg 0x234567) as (base & level & H1 & H2 & _); [unfold PDemo.span; lia|]. exists base, level. split; [exact H1|exact H2].
Defined.

Lemma paging_unmap_frees_tables_witness : exists R,
  done_or_oom R (paging_unmap_range PDemo.mmu PDemo.s1 PDemo.root 0x1ff000 PDemo.span) (fun s' => exists B',
    page_table_ok PDemo.mmu PDemo.user R PDemo.root s' B' {[(top_level PDemo.mmu, 0) := PDemo.root]}).
Proof.
  destruct PDemo.table_ready as (R & B & HR & Ok0 & X0). exists R.
  pose proof (map_range_ok PDemo.mmu PDemo.user R PDemo.root HR PDemo.s B _ 0x1ff000 PDemo.span Ok0 PDemo.span_ok 0x1ff000 PAGE_URW
    ltac:(lia) ltac:(by exists 0x1ff) ltac:(unfold PDemo.span; lia)) as M.
  rewrite PDemo.mapped_run in M. destruct M as (B1 & P1 & [Ok1 O1 X1 _ _]).
  eapply done_mono; [apply (paging_unmap_frees_tables PDemo.mmu PDemo.user R PDemo.root HR PDemo.s1 B1 P1 0x1ff000 PDemo.span Ok1 PDemo.span_ok)|].
  - intros va Hv Hne. rewrite X1 in Hne by exact Hv. unfold update_range in Hne. case_decide as Hd; [exact Hd|]. destruct Hne. by apply X0.
  - eapply (managed_tables PDemo.mmu PDemo.user R PDemo.root HR); [exact Ok0|exact Ok1|exact O1|].
    intros k p Hk. left. apply lookup_singleton_Some in Hk as [<- _]. reflexivity.
  - intros s' (B' & Ok' & _). exists B'. exact Ok'.
Defined.
