(* ===== verification/VMem.v ===== *)
(** * mem/vmem.c: the virtual address allocator

    An arena is cut into segments, kept in address order on a list.  A free
    segment is also on the free list of its size's logarithm, an allocated one
    in a tree by base address; the two linkages share a union of the segment.
    The structure is kept by type: the fields of the segments, their list
    nodes, and the two views of the union, of which writing one invalidates
    the other.  Segments come from an object allocator. *)

From S2P Require Import Prelude LList PageAlloc Spalloc RBTree.
#[local] Open Scope Z_scope.

Record vmem_segment := Seg { s_allocated : bool; s_base : Z; s_size : Z }.

(** The address is the segment's; its linkages are at fixed offsets. *)
Definition sizeof_vmem_segment : Z := 64.
Definition alignof_vmem_segment : Z := 8.
Definition SEGMENT_LIST_NODE : Z := 24.
Definition FREELIST_NODE : Z := 40.
Definition SEGMENT_TREE_NODE : Z := 40.

(** [vmem_allocator_t], with the memory its pointers lead to. *)
Record vmem_allocator (P : Type) := VMem {
  arena_base : Z;
  arena_size : Z;
  quantum : Z;
  bitmap : Z;
  freelists : list llist;
  segments_list : llist;
  segments_tree : rbtree;
  segment_allocator : spalloc_allocator;
  segs : gmap Z vmem_segment;
  list_nodes : nodes;
  free_nodes : nodes;
  objmem : spalloc_mem P;
}.
Arguments VMem {P}.
Arguments arena_base {P}.
Arguments arena_size {P}.
Arguments quantum {P}.
Arguments bitmap {P}.
Arguments freelists {P}.
Arguments segments_list {P}.
Arguments segments_tree {P}.
Arguments segment_allocator {P}.
Arguments segs {P}.
Arguments list_nodes {P}.
Arguments free_nodes {P}.
Arguments objmem {P}.

Section VMem.
Context `{cfg : kconfig} {P : Type} `{page_alloc P}.
Implicit Types (st : vmem_allocator P) (seg : Z).

(** *** Assignments to parts of the structure *)
Definition with_segs st (g : gmap Z vmem_segment) : vmem_allocator P :=
  VMem (arena_base st) (arena_size st) (quantum st) (bitmap st) (freelists st) (segments_list st)
    (segments_tree st) (segment_allocator st) g (list_nodes st) (free_nodes st) (objmem st).
Definition with_list st (l : llist) (h : nodes) : vmem_allocator P :=
  VMem (arena_base st) (arena_size st) (quantum st) (bitmap st) (freelists st) l
    (segments_tree st) (segment_allocator st) (segs st) h (free_nodes st) (objmem st).
Definition with_free st (b : Z) (ls : list llist) (h : nodes) : vmem_allocator P :=
  VMem (arena_base st) (arena_size st) (quantum st) b ls (segments_list st)
    (segments_tree st) (segment_allocator st) (segs st) (list_nodes st) h (objmem st).
Definition with_tree st (t : rbtree) : vmem_allocator P :=
  VMem (arena_base st) (arena_size st) (quantum st) (bitmap st) (freelists st) (segments_list st)
    t (segment_allocator st) (segs st) (list_nodes st) (free_nodes st) (objmem st).
Definition with_objs st (a : spalloc_allocator) (m : spalloc_mem P) : vmem_allocator P :=
  VMem (arena_base st) (arena_size st) (quantum st) (bitmap st) (freelists st) (segments_list st)
    (segments_tree st) a (segs st) (list_nodes st) (free_nodes st) m.

Definition tree_mem st : rbnodes := rbmem (segments_tree st).
Definition with_tree_mem st (m : rbnodes) : vmem_allocator P := with_tree st (RBTree (root (segments_tree st)) m).

(** [seg->field = ...]. *)
Definition update_seg st seg (f : vmem_segment -> vmem_segment) : res (vmem_allocator P) :=
  s ← load (segs st) seg; g ← store (segs st) seg (f s); Ok (with_segs st g).
Definition set_allocated (b : bool) (s : vmem_segment) : vmem_segment := Seg b (s_base s) (s_size s).
Definition set_base (b : Z) (s : vmem_segment) : vmem_segment := Seg (s_allocated s) b (s_size s).
Definition set_size (z : Z) (s : vmem_segment) : vmem_segment := Seg (s_allocated s) (s_base s) z.

(** [seg->freelist_node = (llist_node_t){0}] and
    [seg->segment_tree_node = RBTREE_NODE_INIT]: one view, not the other. *)
Definition clear_freelist_node st seg : vmem_allocator P :=
  let st := with_tree_mem st (delete (seg + SEGMENT_TREE_NODE) (tree_mem st)) in
  with_free st (bitmap st) (freelists st) (<[seg + FREELIST_NODE := LNode 0 0]> (free_nodes st)).
Definition clear_tree_node st seg : vmem_allocator P :=
  let st := with_free st (bitmap st) (freelists st) (delete (seg + FREELIST_NODE) (free_nodes st)) in
  with_tree_mem st (<[seg + SEGMENT_TREE_NODE := RBTREE_NODE_INIT]> (tree_mem st)).

(** [spalloc_malloc] of a segment, and its [memset] to zero, which both
    views of the union read as empty. *)
Definition new_segment st : res (Z * vmem_allocator P) :=
  '(seg, a, m) ← spalloc_malloc (segment_allocator st) (objmem st);
  let st := with_objs st a m in
  let st := with_segs st (<[seg := Seg false 0 0]> (segs st)) in
  let st := with_list st (segments_list st) (<[seg + SEGMENT_LIST_NODE := LNode 0 0]> (list_nodes st)) in
  let st := with_free st (bitmap st) (freelists st) (<[seg + FREELIST_NODE := LNode 0 0]> (free_nodes st)) in
  Ok (seg, with_tree_mem st (<[seg + SEGMENT_TREE_NODE := RBTREE_NODE_INIT]> (tree_mem st))).

(** [spalloc_free]: no part of the segment is ours any more. *)
Definition release_segment st seg : res (vmem_allocator P) :=
  '(a, m) ← spalloc_free (segment_allocator st) (objmem st) seg;
  let st := with_objs st a m in
  let st := with_segs st (delete seg (segs st)) in
  let st := with_list st (segments_list st) (delete (seg + SEGMENT_LIST_NODE) (list_nodes st)) in
  let st := with_free st (bitmap st) (freelists st) (delete (seg + FREELIST_NODE) (free_nodes st)) in
  Ok (with_tree_mem st (delete (seg + SEGMENT_TREE_NODE) (tree_mem st))).

(** *** vmem.c *)
Definition vmem_segment_get_value (g : gmap Z vmem_segment) (node : Z) : Z :=
  match g !! (node - SEGMENT_TREE_NODE) with Some s => s_base s | None => 0 end.

(** Linking a node uses that view of the union. *)
Definition vmem_flist_add st seg index : res (vmem_allocator P) :=
  let st := with_tree_mem st (delete (seg + SEGMENT_TREE_NODE) (tree_mem st)) in
  '(ls, h) ← arr_push (freelists st) (free_nodes st) index (seg + FREELIST_NODE);
  Ok (with_free st (Z.lor (bitmap st) (shl64 1 index)) ls h).

Definition vmem_flist_del st seg index : res (vmem_allocator P) :=
  '(ls, h) ← arr_delete (freelists st) (free_nodes st) index (seg + FREELIST_NODE);
  l ← arr_get ls index;
  Ok (with_free st (if head l =? 0 then Z.land (bitmap st) (u64 (Z.lnot (shl64 1 index))) else bitmap st) ls h).

Definition tree_insert st seg : res (vmem_allocator P) :=
  let st := with_free st (bitmap st) (freelists st) (delete (seg + FREELIST_NODE) (free_nodes st)) in
  '(_, t) ← rbtree_insert (vmem_segment_get_value (segs st)) (segments_tree st) (seg + SEGMENT_TREE_NODE);
  Ok (with_tree st t).

Definition tree_remove st seg : res (vmem_allocator P) :=
  '(_, t) ← rbtree_remove (segments_tree st) (seg + SEGMENT_TREE_NODE);
  Ok (with_tree st t).

Definition list_prepend st pos seg : res (vmem_allocator P) :=
  '(l, h) ← llist_node_prepend (segments_list st) (list_nodes st) (pos + SEGMENT_LIST_NODE) (seg + SEGMENT_LIST_NODE);
  Ok (with_list st l h).
Definition list_append st pos seg : res (vmem_allocator P) :=
  '(l, h) ← llist_node_append (segments_list st) (list_nodes st) (pos + SEGMENT_LIST_NODE) (seg + SEGMENT_LIST_NODE);
  Ok (with_list st l h).
Definition list_delete st seg : res (vmem_allocator P) :=
  '(l, h) ← llist_node_delete (segments_list st) (list_nodes st) (seg + SEGMENT_LIST_NODE);
  Ok (with_list st l h).

(** The first segment with a base above [base]; one turn per node. *)
Fixpoint find_above (fuel : nat) st (base cnode : Z) : res Z :=
  match fuel with
  | O => NoFuel
  | S fuel =>
      if cnode =? 0 then Ok 0 else
      cseg ← load (segs st) (cnode - SEGMENT_LIST_NODE);
      if s_base cseg >? base then Ok cnode
      else n ← load (list_nodes st) cnode; find_above fuel st base (next n)
  end.

Definition vmem_add_segment st (base size : Z) : res (vmem_allocator P) :=
  '(seg, st) ← new_segment st;
  st ← update_seg st seg (set_base base);
  st ← update_seg st seg (set_size size);
  cnode ← find_above (S (stdpp.base.size (list_nodes st))) st base (head (segments_list st));
  st ← (if negb (cnode =? 0) then list_prepend st (cnode - SEGMENT_LIST_NODE) seg
        else '(l, h) ← llist_push_back (segments_list st) (list_nodes st) (seg + SEGMENT_LIST_NODE);
             Ok (with_list st l h));
  vmem_flist_add st seg (log2ull size).

Definition vmem_allocator_init (m : spalloc_mem P) (base size quantum_ : Z) : res (vmem_allocator P) :=
  a ← spalloc_init sizeof_vmem_segment alignof_vmem_segment;
  vmem_add_segment (VMem base size quantum_ 0 (replicate 64 LLIST_INIT) LLIST_INIT (RBTree 0 ∅) a ∅ ∅ ∅ m) base size.

(** The scan of one free list for a segment that holds the request; address 0
    and segment 0 for none. *)
Fixpoint fit_scan (fuel : nat) st (min max size cnode : Z) : res (Z * Z) :=
  match fuel with
  | O => NoFuel
  | S fuel =>
      if cnode =? 0 then Ok (0, 0) else
      let seg := cnode - FREELIST_NODE in
      cseg ← load (segs st) seg;
      n ← load (free_nodes st) cnode;
      let alloc_start := MAX min (s_base cseg) in
      let alloc_start := ALIGN_UP alloc_start (quantum st) in
      if s_size cseg <? size then fit_scan fuel st min max size (next n)
      else if u64 (alloc_start - s_base cseg) >? u64 (s_size cseg - size) then fit_scan fuel st min max size (next n)
      else if negb (max =? UINT64_MAX) && (u64 (alloc_start + size) >? max) then fit_scan fuel st min max size (next n)
      else Ok (alloc_start, seg)
  end.

Definition list_fuel st : nat := S (stdpp.base.size (free_nodes st)).

(** [for (i = ...; i < 64; i++)], [n] lists from [i] on. *)
Fixpoint instant_fit (n : nat) st (min max size i : Z) : res (Z * Z * Z) :=
  match n with
  | O => Ok (0, -1, 0)
  | S n =>
      l ← arr_get (freelists st) i;
      '(addr, seg) ← fit_scan (list_fuel st) st min max size (head l);
      if negb (seg =? 0) then Ok (addr, i, seg) else instant_fit n st min max size (i + 1)
  end.

(** Address, free list and segment; a null segment for failure. *)
Definition fit_alloc st (size addr : Z) : res (Z * Z * Z) :=
  let min := ALIGN_UP addr (quantum st) in
  let max := if negb (addr =? 0) then ALIGN_UP (u64 (addr + size)) (quantum st) else UINT64_MAX in
  let index := MIN (log2ullceil size) 63 in
  let bits := Z.land (bitmap st) (shl64 UINT64_MAX index) in
  let i := COUNT_TRAILING_ZEROS bits in
  '(a, idx, seg) ← instant_fit (Z.to_nat (64 - i)) st min max size i;
  if negb (seg =? 0) then Ok (a, idx, seg)
  else if index =? 0 then Ok (0, -1, 0)
  else
    l ← arr_get (freelists st) (index - 1);
    '(a, seg) ← fit_scan (list_fuel st) st min max size (head l);
    if negb (seg =? 0) then Ok (a, index - 1, seg) else Ok (0, -1, 0).

Definition left_split st (addr seg : Z) : res (vmem_allocator P) :=
  s ← load (segs st) seg;
  if negb (s_base s =? addr) && (u64 (addr - s_base s) >=? quantum st) then
    '(new_seg, st) ← new_segment st;
    st ← update_seg st new_seg (set_base (s_base s));
    st ← update_seg st new_seg (set_size (u64 (addr - s_base s)));
    st ← list_prepend st seg new_seg;
    st ← vmem_flist_add st new_seg (log2ull (u64 (addr - s_base s)));
    st ← update_seg st seg (set_base addr);
    update_seg st seg (fun s' => set_size (u64 (s_size s' - u64 (addr - s_base s))) s')
  else Ok st.

(** The right split: the lower part becomes a new, allocated segment; or the
    whole segment is taken. *)
Definition take_segment st (seg size : Z) : res (Z * vmem_allocator P) :=
  s ← load (segs st) seg;
  if negb (s_size s =? size) && (u64 (s_size s - size) >=? quantum st) then
    '(new_seg, st) ← new_segment st;
    st ← update_seg st new_seg (set_allocated true);
    st ← update_seg st new_seg (set_base (s_base s));
    st ← update_seg st new_seg (set_size size);
    st ← update_seg st seg (fun s => set_base (u64 (s_base s + size)) s);
    st ← update_seg st seg (fun s => set_size (u64 (s_size s - size)) s);
    st ← update_seg st seg (set_allocated false);
    let st := clear_freelist_node st seg in
    st ← list_prepend st seg new_seg;
    st ← vmem_flist_add st seg (log2ull (u64 (s_size s - size)));
    st ← tree_insert st new_seg;
    n ← load (segs st) new_seg;
    Ok (s_base n, st)
  else
    st ← update_seg st seg (set_allocated true);
    let st := clear_tree_node st seg in
    st ← tree_insert st seg;
    s ← load (segs st) seg;
    Ok (s_base s, st).

Definition vmem_alloc st (size addr : Z) : res (Z * vmem_allocator P) :=
  let size := ALIGN_UP size (quantum st) in
  if negb (IS_ALIGNED addr (quantum st)) then Ok (0, st) else
  '(ret_addr, flist_idx, seg) ← fit_alloc st size addr;
  if seg =? 0 then Ok (0, st) else
  _ ← (if negb (addr =? 0) then assert (ret_addr =? addr) else Ok tt);
  s ← load (segs st) seg;
  _ ← assert (s_size s >=? size);
  st ← vmem_flist_del st seg flist_idx;
  st ← left_split st ret_addr seg;
  take_segment st seg size.

Definition vmem_find_segment_nolock st (addr : Z) : res Z :=
  bnode ← rbtree_search (vmem_segment_get_value (segs st)) (segments_tree st) addr RB_SEARCH_TYPE_NEAREST_LTE;
  if bnode =? 0 then Ok 0 else
  let seg := bnode - SEGMENT_TREE_NODE in
  s ← load (segs st) seg;
  if (addr <? s_base s) || (u64 (addr - s_base s) >=? s_size s) then Ok 0 else Ok seg.

Definition vmem_find_segment st (addr : Z) : res Z := vmem_find_segment_nolock st addr.

(** The two splits and the two merges of [vmem_free]. *)
Definition free_left_split st (seg cur_addr : Z) : res (vmem_allocator P) :=
  s ← load (segs st) seg;
  if s_base s <? cur_addr then
    '(left_seg, st) ← new_segment st;
    st ← update_seg st left_seg (set_base (s_base s));
    st ← update_seg st left_seg (set_size (u64 (cur_addr - s_base s)));
    st ← update_seg st left_seg (set_allocated true);
    st ← update_seg st seg (set_base cur_addr);
    st ← update_seg st seg (fun s' => set_size (u64 (s_size s' - u64 (cur_addr - s_base s))) s');
    st ← list_prepend st seg left_seg;
    tree_insert st left_seg
  else Ok st.

Definition free_right_split st (seg seg_end end_addr : Z) : res (vmem_allocator P) :=
  if seg_end >? end_addr then
    '(right_seg, st) ← new_segment st;
    st ← update_seg st right_seg (set_base end_addr);
    st ← update_seg st right_seg (set_size (u64 (seg_end - end_addr)));
    st ← update_seg st right_seg (set_allocated true);
    st ← update_seg st seg (fun s => set_size (u64 (end_addr - s_base s)) s);
    st ← list_append st seg right_seg;
    tree_insert st right_seg
  else Ok st.

Definition left_coalesce st (seg : Z) : res (vmem_allocator P) :=
  n ← load (list_nodes st) (seg + SEGMENT_LIST_NODE);
  if prev n =? 0 then Ok st else
  let prev_seg := prev n - SEGMENT_LIST_NODE in
  p ← load (segs st) prev_seg;
  s ← load (segs st) seg;
  if negb (s_allocated p) && (u64 (s_base p + s_size p) =? s_base s) then
    st ← vmem_flist_del st prev_seg (log2ull (s_size p));
    st ← list_delete st prev_seg;
    st ← update_seg st seg (set_base (s_base p));
    st ← update_seg st seg (fun s => set_size (u64 (s_size s + s_size p)) s);
    release_segment st prev_seg
  else Ok st.

Definition right_coalesce st (seg : Z) : res (vmem_allocator P) :=
  n ← load (list_nodes st) (seg + SEGMENT_LIST_NODE);
  if next n =? 0 then Ok st else
  let next_seg := next n - SEGMENT_LIST_NODE in
  x ← load (segs st) next_seg;
  s ← load (segs st) seg;
  if negb (s_allocated x) && (u64 (s_base s + s_size s) =? s_base x) then
    st ← vmem_flist_del st next_seg (log2ull (s_size x));
    st ← list_delete st next_seg;
    st ← update_seg st seg (fun s => set_size (u64 (s_size s + s_size x)) s);
    release_segment st next_seg
  else Ok st.

(** The work on one allocated segment: cut off what is outside the range, mark
    the rest free, merge it with its neighbours. *)
Definition free_segment st (seg seg_end cur_addr end_addr : Z) : res (vmem_allocator P) :=
  st ← tree_remove st seg;
  st ← free_left_split st seg cur_addr;
  st ← free_right_split st seg seg_end end_addr;
  st ← update_seg st seg (set_allocated false);
  st ← left_coalesce st seg;
  st ← right_coalesce st seg;
  s ← load (segs st) seg;
  _ ← assert (negb (s_size s =? 0));
  vmem_flist_add (clear_freelist_node st seg) seg (log2ull (s_size s)).

(** Each turn frees (part of) one allocated segment and goes on behind it, so
    one turn per segment, and one to leave, is enough. *)
Fixpoint free_loop (fuel : nat) st (cur_addr end_addr : Z) : res (vmem_allocator P) :=
  match fuel with
  | O => NoFuel
  | S fuel =>
      if cur_addr <? end_addr then
        seg ← vmem_find_segment_nolock st cur_addr;
        if seg =? 0 then Ok st else
        s ← load (segs st) seg;
        let seg_end := u64 (s_base s + s_size s) in
        if negb (s_allocated s) then free_loop fuel st seg_end end_addr else
        st ← free_segment st seg seg_end cur_addr end_addr;
        free_loop fuel st (MIN seg_end end_addr) end_addr
      else Ok st
  end.

Definition vmem_free st (addr size : Z) : res (vmem_allocator P) :=
  let size := ALIGN_UP size (quantum st) in
  let addr := ALIGN_UP addr (quantum st) in
  if size =? 0 then Ok st
  else free_loop (S (S (stdpp.base.size (segs st)))) st addr (u64 (addr + size)).

(** The kernel's arena, less the direct map, the page frame database and the
    kernel image. *)
Definition vmem_init (unpaged_hhdm : bool) (m : spalloc_mem P)
    (VADDR_HIGHER_HALF_BASE memmap_last_paddr pfndb pfndb_size kernel_virtual_base elf_base elf_top : Z)
    : res (vmem_allocator P) :=
  st ← vmem_allocator_init m VADDR_HIGHER_HALF_BASE (u64 (UINT64_MAX - VADDR_HIGHER_HALF_BASE + 1)) PAGE_SIZE;
  st ← (if unpaged_hhdm then Ok st else
          '(alloced, st) ← vmem_alloc st memmap_last_paddr hhdm_offset;
          _ ← assert (alloced =? hhdm_offset); Ok st);
  '(alloced, st) ← vmem_alloc st pfndb_size pfndb;
  _ ← assert (alloced =? pfndb);
  let vstart := kernel_virtual_base in
  let vend := u64 (kernel_virtual_base + u64 (elf_top - elf_base)) in
  '(alloced, st) ← vmem_alloc st (u64 (vend - vstart)) vstart;
  _ ← assert (alloced =? vstart);
  Ok st.

(** The loop of [free_vmem_allocator]: the next pointer is read from a
    segment that was just released. *)
Fixpoint free_segments (fuel : nat) st (node : Z) : res (vmem_allocator P) :=
  match fuel with
  | O => NoFuel
  | S fuel =>
      if node =? 0 then Ok st else
      st ← release_segment st (node - SEGMENT_LIST_NODE);
      n ← load (list_nodes st) node;
      free_segments fuel st (next n)
  end.

Definition free_vmem_segments st : res (vmem_allocator P) :=
  free_segments (S (stdpp.base.size (list_nodes st))) st (head (segments_list st)).
End VMem.
