(* ===== verification/VMemRep.v ===== *)
(** * What the structures of a vmem arena represent

    [vrep q st v]: the allocator [st] of quantum [q] holds the segments [v_segs],
    of which [v_list] are on the address list, [v_free] on the free list of
    the given index and [v_tree] in the tree, in key order.  [v_rf] and
    [v_rt] are segments whose union holds a list node or a tree node.  Each
    primitive operation acts on one of these parts. *)

From stdpp Require Import sorting.
From S2P Require Import Prelude LList PageAlloc Spalloc SpallocSpec RBTree RBTreeRep RBTreeSpec RBTreeClaims VMem.
#[local] Open Scope Z_scope.

Record vview := VView {
  v_segs : gmap Z vmem_segment;
  v_list : list Z;
  v_free : gmap Z Z;
  v_tree : list Z;
  v_rf : gset Z;
  v_rt : gset Z;
}.

Definition list_node (seg : Z) : Z := seg + SEGMENT_LIST_NODE.
Definition free_node (seg : Z) : Z := seg + FREELIST_NODE.
Definition tree_node (seg : Z) : Z := seg + SEGMENT_TREE_NODE.

(** The free lists as sets of segments, and the bitmap of the nonempty ones. *)
Record flists_rep (h : nodes) (ls : list llist) (bits : Z) (F : gmap Z Z) (xss : list (list Z)) : Prop := {
  fl_lists : lists_rep h ls xss;
  fl_length : length xss = 64%nat;
  fl_range : forall a i, F !! a = Some i -> 0 <= i < 64;
  fl_mem : forall i xs a, xss !! i = Some xs -> free_node a ∈ xs <-> F !! a = Some (Z.of_nat i);
  fl_bits : forall i xs, xss !! i = Some xs -> Z.testbit bits (Z.of_nat i) = true <-> xs <> [];
  fl_u64 : is_u64 bits;
}.

(** A value function may change off the nodes of the tree. *)
Lemma sorted_ext (f g : Z -> Z) L : (forall x, x ∈ L -> f x = g x) -> sorted f L -> sorted g L.
Proof.
  intros E. induction 1 as [|x L _ IH HF]; constructor.
  - apply IH. intros y Hy. apply E. by right.
  - rewrite Forall_forall in *. intros y Hy. rewrite <- !E; [by apply HF|by right|by left].
Qed.

Lemma rb_rep_ext f g t L : (forall x, x ∈ L -> f x = g x) -> rb_rep f t L -> rb_rep g t L.
Proof. intros E (T & Z & Hb & <- & Hs). exists T. split; [done|]. split; [done|]. split; [done|]. by eapply sorted_ext. Qed.

(** A tree's cells stay its own when others change. *)
Lemma rb_rep_frame value r m m' L :
  rb_rep value (RBTree r m) L -> (forall x, x ∈ L -> m' !! x = m !! x) -> rb_rep value (RBTree r m') L.
Proof.
  intros (T & [Zt Zc Zr Zn] & Hb & <- & Hs) E. exists T. split; [|done]. cbn in *. split; cbn; [|done..].
  by eapply rep_frame.
Qed.

(** ** The bitmap *)
Lemma shl64_one i : 0 <= i < 64 -> shl64 1 i = 2 ^ i.
Proof.
  intros Hi. unfold shl64. rewrite Z.shiftl_1_l. apply u64_small. split; [lia|]. apply Z.pow_lt_mono_r; lia.
Qed.

Lemma set_bit bits i j :
  0 <= i < 64 -> 0 <= j -> Z.testbit (Z.lor bits (shl64 1 i)) j = Z.testbit bits j || (j =? i).
Proof.
  intros Hi Hj. rewrite Z.lor_spec, shl64_one, Z.pow2_bits_eqb by lia. by rewrite Z.eqb_sym.
Qed.

Lemma clear_bit bits i j :
  is_u64 bits -> 0 <= i < 64 -> 0 <= j -> Z.testbit (Z.land bits (u64 (Z.lnot (shl64 1 i)))) j = Z.testbit bits j && negb (j =? i).
Proof.
  intros Hb Hi Hj. rewrite shl64_one, Z.land_spec by done. destruct (Z.lt_ge_cases j 64).
  - rewrite u64_land, Z.land_spec, Z.ones_spec_low, andb_true_r, Z.lnot_spec, Z.pow2_bits_eqb by lia. by rewrite Z.eqb_sym.
  - rewrite <- (u64_small bits Hb), u64_land, Z.land_spec, Z.ones_spec_high, andb_false_r by lia. done.
Qed.

Lemma land_is_u64 a b : is_u64 a -> 0 <= b -> is_u64 (Z.land a b).
Proof.
  intros Ha Hb. rewrite <- (u64_small a Ha), u64_land, <- Z.land_assoc, (Z.land_comm (Z.ones 64)), Z.land_assoc, <- u64_land.
  apply u64_range.
Qed.

(** ** The free lists *)
Lemma free_node_in h ls bits F xss i xs x :
  flists_rep h ls bits F xss -> xss !! i = Some xs -> x ∈ xs -> F !! (x - FREELIST_NODE) = Some (Z.of_nat i).
Proof.
  intros R Hi Hx. apply (fl_mem _ _ _ _ _ R i xs _ Hi). unfold free_node. by rewrite Z.sub_add.
Qed.

Lemma flists_lookup h ls bits F xss i :
  flists_rep h ls bits F xss -> 0 <= i < 64 -> exists xs, xss !! Z.to_nat i = Some xs.
Proof. intros R Hi. apply lookup_lt_is_Some. rewrite (fl_length _ _ _ _ _ R). lia. Qed.

Lemma flists_add h ls bits F xss a i :
  flists_rep h ls bits F xss -> F !! a = None -> free_node a <> 0 -> is_Some (h !! free_node a) -> 0 <= i < 64 ->
  exists ls' h' xss', arr_push ls h i (free_node a) = Ok (ls', h') /\
    flists_rep h' ls' (Z.lor bits (shl64 1 i)) (<[a := i]> F) xss' /\ dom h' = dom h.
Proof.
  intros R Ha H0 Hm Hi. destruct (flists_lookup _ _ _ _ _ _ R Hi) as [xs Hxs].
  destruct (arr_push_rep h ls xss i xs (fl_lists _ _ _ _ _ R) ltac:(lia) Hxs (free_node a)) as (ls' & h' & E & R' & M); [|done|done|].
  { intros (j & ys & Hj & Hy). rewrite (fl_mem _ _ _ _ _ R j ys a Hj) in Hy. congruence. }
  exists ls', h', (<[Z.to_nat i := free_node a :: xs]> xss). split; [done|]. split; [|apply M].
  destruct R as [R1 R2 R3 R4 R5 R6].
  assert (forall j ys, <[Z.to_nat i := free_node a :: xs]> xss !! j = Some ys ->
    j = Z.to_nat i /\ ys = free_node a :: xs \/ j <> Z.to_nat i /\ xss !! j = Some ys) as Hc.
  { intros j ys. destruct (decide (Z.to_nat i = j)) as [<- | Hne].
    - rewrite list_lookup_insert_eq by (rewrite R2; lia). intros [= <-]. by left.
    - rewrite list_lookup_insert_ne by done. right. by split. }
  split.
  - done.
  - by rewrite length_insert.
  - intros b j. destruct (decide (a = b)) as [<- | Hne]; [rewrite lookup_insert_eq; intros [= <-]; done|].
    rewrite lookup_insert_ne by done. apply R3.
  - intros j ys b [[-> ->] | [Hj Hys]]%Hc.
    + rewrite Z2Nat.id by lia. destruct (decide (a = b)) as [<- | Hne].
      * rewrite lookup_insert_eq. split; [done|]. intros _. by left.
      * rewrite lookup_insert_ne, <- (Z2Nat.id i), <- (R4 _ _ b Hxs) by (done || lia). rewrite elem_of_cons.
        split; [|by right]. intros [E'|?]; [|done]. unfold free_node in E'. lia.
    + rewrite (R4 _ _ b Hys). destruct (decide (a = b)) as [<- | Hne]; [|by rewrite lookup_insert_ne].
      rewrite lookup_insert_eq, Ha. split; [done|]. intros [= ->]. lia.
  - intros j ys [[-> ->] | [Hj Hys]]%Hc; rewrite set_bit by lia.
    + rewrite Z2Nat.id, Z.eqb_refl, orb_true_r by lia. done.
    + rewrite <- (R5 _ _ Hys). destruct (Z.eqb_spec (Z.of_nat j) i); [lia|]. by rewrite orb_false_r.
  - apply lor_u64; [done|apply shl64_range].
Qed.

Lemma flists_del h ls bits F xss a i :
  flists_rep h ls bits F xss -> F !! a = Some i ->
  exists ls' h' l xss', arr_delete ls h i (free_node a) = Ok (ls', h') /\ arr_get ls' i = Ok l /\
    flists_rep h' ls' (if head l =? 0 then Z.land bits (u64 (Z.lnot (shl64 1 i))) else bits) (delete a F) xss' /\ dom h' = dom h.
Proof.
  intros R Ha. pose proof (fl_range _ _ _ _ _ R _ _ Ha) as Hi. destruct (flists_lookup _ _ _ _ _ _ R Hi) as [xs Hxs].
  assert (free_node a ∈ xs) as Hin by (rewrite (fl_mem _ _ _ _ _ R _ _ _ Hxs), Z2Nat.id by lia; done).
  apply list_elem_of_split in Hin as (xs1 & xs2 & Ex).
  destruct (arr_delete_rep h ls xss i xs (fl_lists _ _ _ _ _ R) ltac:(lia) Hxs _ _ _ Ex) as (ls' & h' & E & R' & M).
  destruct R as [R1 R2 R3 R4 R5 R6].
  assert (<[Z.to_nat i := xs1 ++ xs2]> xss !! Z.to_nat i = Some (xs1 ++ xs2)) as Hi' by (apply list_lookup_insert_eq; rewrite R2; lia).
  destruct (arr_get_Ok h' ls' _ i _ R' ltac:(lia) Hi') as (l & El & Rl).
  assert (NoDup xs) as Hnd by (eapply lists_rep_lookup in R1 as (l0 & _ & Rl0); [apply Rl0|exact Hxs]).
  assert (free_node a ∉ xs1 ++ xs2) as Hnin.
  { rewrite Ex in Hnd. apply NoDup_app in Hnd as (_ & Hd & Hnd). apply NoDup_cons in Hnd as [Hn _].
    rewrite elem_of_app. intros [H|H]; [eapply Hd; [exact H|by left]|done]. }
  exists ls', h', l, (<[Z.to_nat i := xs1 ++ xs2]> xss). split; [done|]. split; [done|]. split; [|apply M].
  assert (forall j ys, <[Z.to_nat i := xs1 ++ xs2]> xss !! j = Some ys ->
    j = Z.to_nat i /\ ys = xs1 ++ xs2 \/ j <> Z.to_nat i /\ xss !! j = Some ys) as Hc.
  { intros j ys. destruct (decide (Z.to_nat i = j)) as [<- | Hne].
    - rewrite Hi'. intros [= <-]. by left.
    - rewrite list_lookup_insert_ne by done. right. by split. }
  assert ((head l =? 0) = true <-> xs1 ++ xs2 = []) as Hh.
  { rewrite Z.eqb_eq, (lr_head _ _ _ Rl). pose proof (lr_nonnull _ _ _ Rl) as Hnn.
    destruct (xs1 ++ xs2); cbn; [done|]. split; [|done]. intros ->. set_solver. }
  split.
  - done.
  - by rewrite length_insert.
  - intros b j [_ H]%lookup_delete_Some. by apply (R3 b).
  - intros j ys b [[-> ->] | [Hj Hys]]%Hc; rewrite lookup_delete_Some.
    + rewrite Z2Nat.id by lia. split.
      * intros Hb. split; [intros ->; done|]. rewrite <- (Z2Nat.id i) by lia. apply (R4 _ _ _ Hxs). rewrite Ex. set_solver.
      * intros [Hne Hb]. rewrite <- (Z2Nat.id i) in Hb by lia. apply (R4 _ _ _ Hxs) in Hb. rewrite Ex in Hb.
        apply elem_of_app in Hb as [Hb|Hb]; [set_solver|]. apply elem_of_cons in Hb as [Hb|Hb]; [unfold free_node in Hb; lia|set_solver].
    + rewrite (R4 _ _ _ Hys). split; [|by intros [_ ?]]. intros Hb. split; [|done]. intros ->. rewrite Ha in Hb. injection Hb as ->. lia.
  - intros j ys [[-> ->] | [Hj Hys]]%Hc.
    + destruct (head l =? 0) eqn:Eh.
      * rewrite clear_bit, Z2Nat.id, Z.eqb_refl, andb_false_r by (done || lia). assert (xs1 ++ xs2 = []) as -> by (by apply Hh). done.
      * rewrite (R5 _ _ Hxs). split; [|intros _ ->; by destruct xs1]. intros _ E0. apply Hh in E0. congruence.
    + rewrite <- (R5 _ _ Hys). destruct (head l =? 0); [|done]. rewrite clear_bit by (done || lia).
      destruct (Z.eqb_spec (Z.of_nat j) i); [lia|]. by rewrite andb_true_r.
  - destruct (head l =? 0); [|done]. apply land_is_u64; [done|]. apply u64_range.
Qed.

(** The fields of a representation, after assignments. *)
Ltac split_vrep :=
  split; cbn [quantum segs segments_list freelists bitmap segments_tree segment_allocator list_nodes free_nodes objmem
    with_tree_mem with_tree with_free with_list with_segs with_objs v_segs v_list v_free v_tree v_rf v_rt tree_mem rbmem root].

Section VMemRep.
Context `{cfg_ok : kconfig_ok} {P : Type} `{PA : !page_alloc P} `{PO : !page_alloc_ok P}.
Hypothesis hhdm_aligned : (PAGE_SIZE | hhdm_offset).
Implicit Types (st : vmem_allocator P) (seg a q : Z) (v : vview).

(** ** The segments' storage *)
Definition objs_own (al : spalloc_allocator) (m : spalloc_mem P) (O : gset Z) : Prop :=
  exists pgs, sp_ok al m pgs /\ (8 | obj_stride al) /\ (8 | obj_offset al) /\
    forall o, allocated al pgs o <-> o ∈ O.

Definition seg_addr (a : Z) : Prop := 0 < a /\ (8 | a).

Lemma slot_seg_addr al p o : geometry al -> (8 | obj_stride al) -> (8 | obj_offset al) -> page_ok p -> slot al p o -> seg_addr o.
Proof using cfg_ok hhdm_aligned.
  intros G [x Hx] [y Hy] (H0 & [z Hz] & _) Hs. pose proof (slot_range hhdm_aligned al p o G Hs) as Hr. pose proof hhdm_range.
  unfold hdr_of, sizeof_page_header in Hr. split; [lia|].
  destruct Hs as (i & _ & ->). destruct page_pow as (j & Hj & E & Hp). destruct hhdm_aligned as [w Hw].
  assert ((8 | PAGE_SIZE)) as [t Ht].
  { rewrite E. exists (2 ^ (j - 3)). change 8 with (2 ^ 3). rewrite <- Z.pow_add_r; [f_equal; lia| |lia].
    destruct (Z.lt_ge_cases j 3); [|lia]. assert (2 ^ j <= 2 ^ 3) by (apply Z.pow_le_mono_r; lia). lia. }
  unfold slot_at, hdr_of. rewrite Hx, Hy, Hz, Hw, Ht. exists (z * t + w * t + y + i * x). lia.
Qed.

Lemma objs_addr al m O o : objs_own al m O -> o ∈ O -> seg_addr o.
Proof using cfg_ok hhdm_aligned.
  intros (pgs & [pl I] & H1 & H2 & HO) Ho. apply HO in Ho as (p & xs & Hp & Hs & _).
  eapply slot_seg_addr; [apply I|done|done| |done]. eapply inv_page; [done|]. by eapply elem_of_dom_2.
Qed.

Lemma objs_malloc al m O :
  objs_own al m O ->
  nofault (spalloc_malloc al m) (fun '(o, al', m') => (o ∉ O) /\ objs_own al' m' ({[o]} ∪ O)).
Proof using cfg_ok hhdm_aligned.
  intros (pgs & I & H1 & H2 & HO). eapply nofault_mono; [by apply (malloc_ok hhdm_aligned)|].
  intros [[o al'] m'] (pgs' & I' & _ & E1 & E2 & _ & Hn & _ & Hall). split; [by rewrite <- HO|].
  exists pgs'. split; [done|]. rewrite E1, E2. split; [done|]. split; [done|]. intros o'. rewrite Hall, HO. set_solver.
Qed.

Lemma objs_free al m O o :
  objs_own al m O -> o ∈ O ->
  returns (spalloc_free al m o) (fun '(al', m') => objs_own al' m' (O ∖ {[o]})).
Proof using cfg_ok hhdm_aligned.
  intros (pgs & I & H1 & H2 & HO) Ho. eapply returns_mono; [apply (free_spalloc_ok hhdm_aligned); [done|by apply HO]|].
  intros [al' m'] (pgs' & I' & _ & E1 & E2 & _ & Hall).
  exists pgs'. split; [done|]. rewrite E1, E2. split; [done|]. split; [done|]. intros o'. rewrite Hall, HO. set_solver.
Qed.

(** ** The representation *)
Record vrep (q : Z) (st : vmem_allocator P) (v : vview) : Prop := {
  vr_quantum : quantum st = q;
  vr_segs : segs st = v_segs v;
  vr_list : llist_rep (list_nodes st) (segments_list st) (map list_node (v_list v));
  vr_free : exists xss, flists_rep (free_nodes st) (freelists st) (bitmap st) (v_free v) xss;
  vr_tree : rb_rep (vmem_segment_get_value (v_segs v)) (segments_tree st) (map tree_node (v_tree v));
  vr_objs : objs_own (segment_allocator st) (objmem st) (dom (v_segs v));
  vr_dom_list : forall a, a ∈ v_list v -> a ∈ dom (v_segs v);
  vr_dom_free : forall a, a ∈ dom (v_free v) -> a ∈ dom (v_segs v);
  vr_dom_tree : forall a, a ∈ v_tree v -> a ∈ dom (v_segs v);
  vr_lnode : forall a, a ∈ dom (v_segs v) -> is_Some (list_nodes st !! list_node a);
  vr_fnode : forall a, a ∈ v_rf v -> is_Some (free_nodes st !! free_node a);
  vr_tnode : forall a, a ∈ v_rt v -> is_Some (tree_mem st !! tree_node a);
}.

Lemma vrep_addr q st v a : vrep q st v -> a ∈ dom (v_segs v) -> seg_addr a.
Proof using cfg_ok hhdm_aligned. intros R. eapply objs_addr, R. Qed.

Lemma vrep_load q st v a s : vrep q st v -> v_segs v !! a = Some s -> load (segs st) a = Ok s.
Proof using Type. intros R Ha. apply load_Ok. by rewrite (vr_segs _ _ _ R). Qed.

(** Tree nodes, list nodes and free nodes of different segments differ. *)
Lemma elem_of_nodes (f : Z -> Z) a l : (forall x y, f x = f y -> x = y) -> f a ∈ map f l <-> a ∈ l.
Proof using Type.
  intros Hf. split; [|by apply list_elem_of_fmap_2]. intros (x & ->%Hf & Hx)%list_elem_of_fmap. done.
Qed.
Lemma list_node_inj x y : list_node x = list_node y -> x = y.
Proof using Type. unfold list_node. lia. Qed.
Lemma free_node_inj x y : free_node x = free_node y -> x = y.
Proof using Type. unfold free_node. lia. Qed.
Lemma tree_node_inj x y : tree_node x = tree_node y -> x = y.
Proof using Type. unfold tree_node. lia. Qed.

(** Cells off the lists are free to change. *)
Lemma flists_frame h h' ls bits F xss :
  (forall a, a ∈ dom F -> h' !! free_node a = h !! free_node a) ->
  flists_rep h ls bits F xss -> flists_rep h' ls bits F xss.
Proof using Type.
  intros E [H1 H2 H3 H4 H5 H6]. split; try done. eapply lists_rep_frame; [|exact H1].
  intros x (i & xs & Hi & Hx). replace x with (free_node (x - FREELIST_NODE)) in Hx |- * by (unfold free_node; lia).
  apply E. apply elem_of_dom. rewrite (H4 i xs) in Hx by done. eauto.
Qed.

Lemma value_other (g : gmap Z vmem_segment) a s x :
  x <> a -> vmem_segment_get_value (<[a := s]> g) (tree_node x) = vmem_segment_get_value g (tree_node x).
Proof using Type.
  intros Hx. unfold vmem_segment_get_value, tree_node. rewrite Z.add_simpl_r, lookup_insert_ne; done.
Qed.

Lemma value_seg (g : gmap Z vmem_segment) a s :
  g !! a = Some s -> vmem_segment_get_value g (tree_node a) = s_base s.
Proof using Type. intros Ha. unfold vmem_segment_get_value, tree_node. by rewrite Z.add_simpl_r, Ha. Qed.

Lemma tree_rep_ext (g g' : gmap Z vmem_segment) t T :
  (forall x, x ∈ T -> s_base <$> g' !! x = s_base <$> g !! x) ->
  rb_rep (vmem_segment_get_value g) t (map tree_node T) -> rb_rep (vmem_segment_get_value g') t (map tree_node T).
Proof using Type.
  intros E. apply rb_rep_ext. intros x (y & -> & Hy)%list_elem_of_fmap. specialize (E y Hy).
  unfold vmem_segment_get_value, tree_node. rewrite Z.add_simpl_r.
  destruct (g' !! y), (g !! y); cbn in E; congruence.
Qed.

Lemma seg_tree_frame value t m T :
  (forall x, x ∈ T -> m !! tree_node x = rbmem t !! tree_node x) ->
  rb_rep value t (map tree_node T) -> rb_rep value (RBTree (root t) m) (map tree_node T).
Proof using Type.
  intros E R. destruct t as [r mm]. cbn. eapply rb_rep_frame; [exact R|]. intros x (y & -> & Hy)%list_elem_of_fmap. by apply E.
Qed.

(** ** The primitive operations *)
Lemma new_segment_rep q st v :
  vrep q st v ->
  nofault (new_segment st) (fun '(a, st') => (a ∉ dom (v_segs v)) /\ vrep q st'
    (VView (<[a := Seg false 0 0]> (v_segs v)) (v_list v) (v_free v) (v_tree v) ({[a]} ∪ v_rf v) ({[a]} ∪ v_rt v))).
Proof using cfg_ok hhdm_aligned.
  intros R. unfold new_segment. eapply nofault_bind; [apply objs_malloc, R|]. intros [[a al] m] [Ha Ho]. cbn [nofault].
  split; [done|]. destruct R as [Eq Es Rl [xss Rf] Rt _ Dl Df Dt Nl Nf Nt].
  split_vrep.
  - done.
  - by rewrite Es.
  - eapply llist_rep_frame; [|exact Rl]. intros x (y & -> & Hy)%list_elem_of_fmap. apply lookup_insert_ne.
    intros E%list_node_inj. subst. by apply Ha, Dl.
  - exists xss. eapply flists_frame; [|exact Rf]. intros x Hx. apply lookup_insert_ne. intros E%free_node_inj. subst. by apply Ha, Df.
  - apply seg_tree_frame.
    + intros x Hx. apply lookup_insert_ne. intros E%tree_node_inj. subst. by apply Ha, Dt.
    + eapply tree_rep_ext; [|exact Rt]. intros x Hx. rewrite lookup_insert_ne; [done|]. intros ->. by apply Ha, Dt.
  - by rewrite dom_insert_L.
  - set_solver.
  - set_solver.
  - set_solver.
  - intros x. rewrite dom_insert. intros [->%elem_of_singleton|Hx]%elem_of_union; [rewrite lookup_insert_eq; eauto|].
    rewrite lookup_insert_is_Some'. right. by apply Nl.
  - intros x. rewrite elem_of_union, elem_of_singleton. intros [->|Hx]; [rewrite lookup_insert_eq; eauto|].
    rewrite lookup_insert_is_Some'. right. by apply Nf.
  - intros x. rewrite elem_of_union, elem_of_singleton. intros [->|Hx]; [rewrite lookup_insert_eq; eauto|].
    rewrite lookup_insert_is_Some'. right. by apply Nt.
Qed.

Lemma release_segment_rep q st v a :
  vrep q st v -> a ∈ dom (v_segs v) -> a ∉ v_list v -> a ∉ dom (v_free v) -> a ∉ v_tree v ->
  returns (release_segment st a) (fun st' => vrep q st'
    (VView (delete a (v_segs v)) (v_list v) (v_free v) (v_tree v) (v_rf v ∖ {[a]}) (v_rt v ∖ {[a]}))).
Proof using cfg_ok hhdm_aligned.
  intros R Ha Hl Hf Ht. unfold release_segment. eapply returns_bind; [eapply objs_free; [apply R|done]|]. intros [al m] Ho.
  apply returns_Ok. destruct R as [Eq Es Rl [xss Rf] Rt _ Dl Df Dt Nl Nf Nt].
  split_vrep.
  - done.
  - by rewrite Es.
  - eapply llist_rep_frame; [|exact Rl]. intros x (y & -> & Hy)%list_elem_of_fmap. apply lookup_delete_ne.
    intros E%list_node_inj. by subst.
  - exists xss. eapply flists_frame; [|exact Rf]. intros x Hx. apply lookup_delete_ne. intros E%free_node_inj. by subst.
  - apply seg_tree_frame.
    + intros x Hx. apply lookup_delete_ne. intros E%tree_node_inj. by subst.
    + eapply tree_rep_ext; [|exact Rt]. intros x Hx. rewrite lookup_delete_ne; [done|]. by intros ->.
  - by rewrite dom_delete_L.
  - set_solver.
  - set_solver.
  - set_solver.
  - intros x. rewrite dom_delete. intros [Hx Hne]%elem_of_difference. rewrite lookup_delete_ne; [by apply Nl|].
    intros E%list_node_inj. set_solver.
  - intros x [Hx Hne]%elem_of_difference. rewrite lookup_delete_ne; [by apply Nf|]. intros E%free_node_inj. set_solver.
  - intros x [Hx Hne]%elem_of_difference. rewrite lookup_delete_ne; [by apply Nt|]. intros E%tree_node_inj. set_solver.
Qed.

Lemma update_seg_rep q st v a s f :
  vrep q st v -> v_segs v !! a = Some s -> (a ∈ v_tree v -> s_base (f s) = s_base s) ->
  returns (update_seg st a f) (fun st' => vrep q st'
    (VView (<[a := f s]> (v_segs v)) (v_list v) (v_free v) (v_tree v) (v_rf v) (v_rt v))).
Proof using cfg_ok hhdm_aligned.
  intros R Ha Hb. unfold update_seg. rewrite (vrep_load _ _ _ _ _ R Ha), bind_Ok.
  erewrite store_Ok by (rewrite (vr_segs _ _ _ R); exact Ha). rewrite bind_Ok. apply returns_Ok.
  assert (dom (<[a := f s]> (v_segs v)) = dom (v_segs v)) as Ed.
  { rewrite dom_insert_L. apply elem_of_dom_2 in Ha. set_solver. }
  destruct R as [Eq Es Rl Rf Rt Ro Dl Df Dt Nl Nf Nt].
  split_vrep; rewrite ?Ed; try done.
  - by rewrite Es.
  - eapply tree_rep_ext; [|exact Rt]. intros x Hx. destruct (decide (x = a)) as [-> | Hne].
    + rewrite lookup_insert_eq, Ha. cbn. f_equal. by apply Hb.
    + by rewrite lookup_insert_ne.
Qed.

(** The list of segments. *)
Lemma relist_rep q st v l h ys :
  vrep q st v -> llist_rep h l (map list_node ys) -> (forall a, a ∈ ys -> a ∈ dom (v_segs v)) ->
  dom h = dom (list_nodes st) ->
  vrep q (with_list st l h) (VView (v_segs v) ys (v_free v) (v_tree v) (v_rf v) (v_rt v)).
Proof using cfg_ok hhdm_aligned.
  intros [Eq Es Rl Rf Rt Ro Dl Df Dt Nl Nf Nt] H1 H2 H3. split_vrep; try done.
  intros a Ha. apply elem_of_dom. rewrite H3. apply elem_of_dom. by apply Nl.
Qed.

Lemma map_node_app (f : Z -> Z) l1 a l2 : map f (l1 ++ a :: l2) = map f l1 ++ f a :: map f l2.
Proof using Type. by rewrite map_app. Qed.

Lemma list_prepend_rep q st v l1 pos l2 a :
  vrep q st v -> v_list v = l1 ++ pos :: l2 -> a ∉ v_list v -> a ∈ dom (v_segs v) ->
  returns (list_prepend st pos a) (fun st' => vrep q st'
    (VView (v_segs v) (l1 ++ a :: pos :: l2) (v_free v) (v_tree v) (v_rf v) (v_rt v))).
Proof using cfg_ok hhdm_aligned.
  intros R El Ha Hd. pose proof (vr_list _ _ _ R) as Rl. rewrite El, map_node_app in Rl.
  destruct (llist_node_prepend_rep _ _ _ _ _ (list_node a) Rl) as (l' & h' & E & Rl' & M).
  - rewrite <- map_node_app, elem_of_nodes by apply list_node_inj. by rewrite <- El.
  - destruct (vrep_addr _ _ _ _ R Hd). unfold list_node, SEGMENT_LIST_NODE. lia.
  - by apply (vr_lnode _ _ _ R).
  - unfold list_prepend, list_node in *. rewrite E, bind_Ok. apply returns_Ok. eapply relist_rep; [done|..|apply M].
    + rewrite map_node_app. exact Rl'.
    + intros x Hx. assert (x = a \/ x ∈ v_list v) as [-> | Hx'] by (rewrite El; set_solver); [done|by apply (vr_dom_list _ _ _ R)].
Qed.

Lemma list_append_rep q st v l1 pos l2 a :
  vrep q st v -> v_list v = l1 ++ pos :: l2 -> a ∉ v_list v -> a ∈ dom (v_segs v) ->
  returns (list_append st pos a) (fun st' => vrep q st'
    (VView (v_segs v) (l1 ++ pos :: a :: l2) (v_free v) (v_tree v) (v_rf v) (v_rt v))).
Proof using cfg_ok hhdm_aligned.
  intros R El Ha Hd. pose proof (vr_list _ _ _ R) as Rl. rewrite El, map_node_app in Rl.
  destruct (llist_node_append_rep _ _ _ _ _ (list_node a) Rl) as (l' & h' & E & Rl' & M).
  - rewrite <- map_node_app, elem_of_nodes by apply list_node_inj. by rewrite <- El.
  - destruct (vrep_addr _ _ _ _ R Hd). unfold list_node, SEGMENT_LIST_NODE. lia.
  - by apply (vr_lnode _ _ _ R).
  - unfold list_append, list_node in *. rewrite E, bind_Ok. apply returns_Ok. eapply relist_rep; [done|..|apply M].
    + rewrite map_node_app. exact Rl'.
    + intros x Hx. assert (x = a \/ x ∈ v_list v) as [-> | Hx'] by (rewrite El; set_solver); [done|by apply (vr_dom_list _ _ _ R)].
Qed.

Lemma list_delete_rep q st v l1 a l2 :
  vrep q st v -> v_list v = l1 ++ a :: l2 ->
  returns (list_delete st a) (fun st' => vrep q st'
    (VView (v_segs v) (l1 ++ l2) (v_free v) (v_tree v) (v_rf v) (v_rt v))).
Proof using cfg_ok hhdm_aligned.
  intros R El. pose proof (vr_list _ _ _ R) as Rl. rewrite El, map_node_app in Rl.
  destruct (llist_node_delete_rep _ _ _ _ _ Rl) as (l' & h' & E & Rl' & M & _).
  unfold list_delete, list_node in *. rewrite E, bind_Ok. apply returns_Ok. eapply relist_rep; [done|..|apply M].
  - rewrite map_app. exact Rl'.
  - intros x Hx. apply (vr_dom_list _ _ _ R). rewrite El. set_solver.
Qed.

(** Linking a new node in front of [l2]: at the end when there is none. *)
Lemma link_before_rep q st v l1 l2 a :
  vrep q st v -> v_list v = l1 ++ l2 -> a ∉ v_list v -> a ∈ dom (v_segs v) ->
  returns (if negb (first_or 0 (map list_node l2) =? 0)
      then list_prepend st (first_or 0 (map list_node l2) - SEGMENT_LIST_NODE) a
      else '(l, h) ← llist_push_back (segments_list st) (list_nodes st) (a + SEGMENT_LIST_NODE); Ok (with_list st l h))
    (fun st' => vrep q st' (VView (v_segs v) (l1 ++ a :: l2) (v_free v) (v_tree v) (v_rf v) (v_rt v))).
Proof using cfg_ok hhdm_aligned.
  intros R El Ha Hd. destruct l2 as [|b l2]; cbn [map first_or].
  - cbn [Z.eqb negb]. rewrite app_nil_r in El. pose proof (vr_list _ _ _ R) as Rl. rewrite El in Rl.
    destruct (llist_push_back_rep _ _ _ (list_node a) Rl) as (l' & h' & E & Rl' & M).
    + rewrite elem_of_nodes by apply list_node_inj. by rewrite <- El.
    + destruct (vrep_addr _ _ _ _ R Hd). unfold list_node, SEGMENT_LIST_NODE. lia.
    + by apply (vr_lnode _ _ _ R).
    + unfold list_node in E. rewrite E, bind_Ok. apply returns_Ok. eapply relist_rep; [done|..|apply M].
      * rewrite map_app. exact Rl'.
      * intros x Hx. assert (x = a \/ x ∈ v_list v) as [-> | Hx'] by (rewrite El; set_solver); [done|by apply (vr_dom_list _ _ _ R)].
  - assert (b ∈ dom (v_segs v)) as Hb by (apply (vr_dom_list _ _ _ R); rewrite El; set_solver).
    destruct (vrep_addr _ _ _ _ R Hb). destruct (Z.eqb_spec (list_node b) 0) as [E0|_]; [unfold list_node, SEGMENT_LIST_NODE in E0; lia|].
    cbn [negb]. replace (list_node b - SEGMENT_LIST_NODE) with b by (unfold list_node; lia). by apply list_prepend_rep.
Qed.

(** The free lists and the two views of the union. *)
Lemma vmem_flist_add_rep q st v a i :
  vrep q st v -> a ∈ dom (v_segs v) -> v_free v !! a = None -> a ∉ v_tree v -> a ∈ v_rf v -> 0 <= i < 64 ->
  returns (vmem_flist_add st a i) (fun st' => vrep q st'
    (VView (v_segs v) (v_list v) (<[a := i]> (v_free v)) (v_tree v) (v_rf v) (v_rt v ∖ {[a]}))).
Proof using cfg_ok hhdm_aligned.
  intros R Hd Hf Ht Hr Hi. unfold vmem_flist_add. destruct (vr_free _ _ _ R) as [xss Rf].
  destruct (flists_add _ _ _ _ _ a i Rf Hf) as (ls' & h' & xss' & E & Rf' & Ed);
    [|by apply (vr_fnode _ _ _ R)|done|].
  { destruct (vrep_addr _ _ _ _ R Hd). unfold free_node, FREELIST_NODE. lia. }
  cbn [freelists free_nodes with_tree_mem with_tree]. unfold free_node in E. rewrite E, bind_Ok. apply returns_Ok.
  destruct R as [Eq Es Rl _ Rt Ro Dl Df Dt Nl Nf Nt]. split_vrep; try done.
  - by exists xss'.
  - apply seg_tree_frame; [|done]. intros x Hx. apply lookup_delete_ne. intros E'%tree_node_inj. by subst.
  - set_solver.
  - intros x Hx. apply elem_of_dom. rewrite Ed. by apply elem_of_dom, Nf.
  - intros x [Hx Hne]%elem_of_difference. rewrite lookup_delete_ne; [by apply Nt|]. intros E'%tree_node_inj. set_solver.
Qed.

Lemma vmem_flist_del_rep q st v a i :
  vrep q st v -> v_free v !! a = Some i ->
  returns (vmem_flist_del st a i) (fun st' => vrep q st'
    (VView (v_segs v) (v_list v) (delete a (v_free v)) (v_tree v) (v_rf v) (v_rt v))).
Proof using cfg_ok hhdm_aligned.
  intros R Hf. unfold vmem_flist_del. destruct (vr_free _ _ _ R) as [xss Rf].
  destruct (flists_del _ _ _ _ _ a i Rf Hf) as (ls' & h' & l & xss' & E & El & Rf' & Ed).
  unfold free_node in E. rewrite E, bind_Ok, El, bind_Ok. apply returns_Ok.
  destruct R as [Eq Es Rl _ Rt Ro Dl Df Dt Nl Nf Nt]. split_vrep; try done.
  - by exists xss'.
  - set_solver.
  - intros x Hx. apply elem_of_dom. rewrite Ed. by apply elem_of_dom, Nf.
Qed.

Lemma clear_freelist_node_rep q st v a :
  vrep q st v -> v_free v !! a = None -> a ∉ v_tree v ->
  vrep q (clear_freelist_node st a)
    (VView (v_segs v) (v_list v) (v_free v) (v_tree v) ({[a]} ∪ v_rf v) (v_rt v ∖ {[a]})).
Proof using cfg_ok hhdm_aligned.
  intros [Eq Es Rl [xss Rf] Rt Ro Dl Df Dt Nl Nf Nt] Hf Ht. unfold clear_freelist_node. split_vrep; try done.
  - exists xss. eapply flists_frame; [|exact Rf]. intros x Hx. apply lookup_insert_ne. intros E%free_node_inj. subst.
    by apply elem_of_dom in Hx as [? ?]; congruence.
  - apply seg_tree_frame; [|done]. intros x Hx. apply lookup_delete_ne. intros E'%tree_node_inj. by subst.
  - intros x. rewrite elem_of_union, elem_of_singleton. intros [->|Hx]; [rewrite lookup_insert_eq; eauto|].
    rewrite lookup_insert_is_Some'. right. by apply Nf.
  - intros x [Hx Hne]%elem_of_difference. rewrite lookup_delete_ne; [by apply Nt|]. intros E'%tree_node_inj. set_solver.
Qed.

Lemma clear_tree_node_rep q st v a :
  vrep q st v -> v_free v !! a = None -> a ∉ v_tree v ->
  vrep q (clear_tree_node st a)
    (VView (v_segs v) (v_list v) (v_free v) (v_tree v) (v_rf v ∖ {[a]}) ({[a]} ∪ v_rt v)).
Proof using cfg_ok hhdm_aligned.
  intros [Eq Es Rl [xss Rf] Rt Ro Dl Df Dt Nl Nf Nt] Hf Ht. unfold clear_tree_node. split_vrep; try done.
  - exists xss. eapply flists_frame; [|exact Rf]. intros x Hx. apply lookup_delete_ne. intros E%free_node_inj. subst.
    by apply elem_of_dom in Hx as [? ?]; congruence.
  - apply seg_tree_frame; [|done]. intros x Hx. apply lookup_insert_ne. intros E'%tree_node_inj. by subst.
  - intros x [Hx Hne]%elem_of_difference. rewrite lookup_delete_ne; [by apply Nf|]. intros E'%free_node_inj. set_solver.
  - intros x. rewrite elem_of_union, elem_of_singleton. intros [->|Hx]; [rewrite lookup_insert_eq; eauto|].
    rewrite lookup_insert_is_Some'. right. by apply Nt.
Qed.

(** The tree keeps its segments in the order of their bases. *)
Lemma tree_insert_rep q st v a s :
  vrep q st v -> v_segs v !! a = Some s -> v_free v !! a = None -> a ∉ v_tree v -> a ∈ v_rt v ->
  returns (tree_insert st a) (fun st' => exists t1 t2, v_tree v = t1 ++ t2 /\
    vrep q st' (VView (v_segs v) (v_list v) (v_free v) (t1 ++ a :: t2) (v_rf v ∖ {[a]}) (v_rt v)) /\
    (forall x r, x ∈ t1 -> v_segs v !! x = Some r -> s_base r <= s_base s) /\
    (forall x r, x ∈ t2 -> v_segs v !! x = Some r -> s_base s < s_base r)).
Proof using cfg_ok hhdm_aligned.
  intros R Ha Hf Ht Hr. unfold tree_insert. assert (a ∈ dom (v_segs v)) as Hd by by eapply elem_of_dom_2.
  destruct (vrep_addr _ _ _ _ R Hd) as [H0 [z Hz]].
  destruct (rb_insert_rep _ _ _ (tree_node a) (vr_tree _ _ _ R)) as (t' & l1 & l2 & E & EL & Rt' & H1 & H2 & M).
  { unfold addr_ok, tree_node, SEGMENT_TREE_NODE. split; [lia|]. rewrite Hz. Z.div_mod_to_equations; lia. }
  { by apply (vr_tnode _ _ _ R). }
  { by rewrite elem_of_nodes by apply tree_node_inj. }
  cbn [segs segments_tree with_free]. rewrite (vr_segs _ _ _ R). unfold tree_node in E. rewrite E, bind_Ok. apply returns_Ok.
  apply fmap_app_inv in EL as (t1 & t2 & -> & -> & Et). exists t1, t2. split; [done|]. split; [|split].
  - destruct R as [Eq Es Rl [xss Rf] Rt Ro Dl Df Dt Nl Nf Nt]. split_vrep; try done.
    + exists xss. eapply flists_frame; [|exact Rf]. intros x Hx. apply lookup_delete_ne. intros E'%free_node_inj. subst.
      by apply elem_of_dom in Hx as [? ?]; congruence.
    + by rewrite map_node_app.
    + intros x Hx. assert (x = a \/ x ∈ v_tree v) as [-> | Hx'] by (rewrite Et; set_solver); [done|by apply Dt].
    + intros x [Hx Hne]%elem_of_difference. rewrite lookup_delete_ne; [by apply Nf|]. intros E'%free_node_inj. set_solver.
    + intros x Hx. eapply modifies_mapped; [exact M|]. by apply Nt.
  - intros x r Hx Hs. specialize (H1 (tree_node x) ltac:(by apply elem_of_nodes; [apply tree_node_inj|])).
    rewrite (value_seg _ _ _ Hs), (value_seg _ _ _ Ha) in H1. done.
  - intros x r Hx Hs. specialize (H2 (tree_node x) ltac:(by apply elem_of_nodes; [apply tree_node_inj|])).
    rewrite (value_seg _ _ _ Hs), (value_seg _ _ _ Ha) in H2. done.
Qed.

Lemma tree_remove_rep q st v t1 a t2 :
  vrep q st v -> v_tree v = t1 ++ a :: t2 ->
  returns (tree_remove st a) (fun st' => vrep q st'
    (VView (v_segs v) (v_list v) (v_free v) (t1 ++ t2) (v_rf v) (v_rt v))).
Proof using cfg_ok hhdm_aligned.
  intros R Et. pose proof (vr_tree _ _ _ R) as Rt. rewrite Et, map_node_app in Rt.
  destruct (rb_remove_rep _ _ _ _ _ Rt) as (p & t' & E & Rt' & M). unfold tree_remove, tree_node in *. rewrite E, bind_Ok.
  apply returns_Ok. clear Rt. destruct R as [Eq Es Rl Rf Rt Ro Dl Df Dt Nl Nf Nt]. split_vrep; try done.
  - by rewrite map_app.
  - intros x Hx. apply Dt. rewrite Et. set_solver.
  - intros x Hx. eapply modifies_mapped; [exact M|]. by apply Nt.
Qed.
End VMemRep.
