(* ===== verification/VMemSpec.v ===== *)
(** * Correctness of the virtual address allocator

    [arena q st L]: the allocator [st] holds the segments [L] in address order,
    disjoint, starting on granules of [q] bytes (the end of the arena need not
    be on one, so its last segment may be longer than its granules); the free ones are on the free list of
    their size, the allocated ones in the tree.  A step that works on one
    segment takes it off both: [hole] is the segment at hand. *)

From stdpp Require Import sorting.
From S2P Require Import Prelude LList PageAlloc Spalloc SpallocSpec RBTree RBTreeRep RBTreeSpec RBTreeClaims VMem VMemRep.
#[local] Open Scope Z_scope.

Abbreviation entry := (Z * vmem_segment)%type.
Implicit Types (L : list entry) (s : vmem_segment) (hole : option Z).

Definition s_end (s : vmem_segment) : Z := s_base s + s_size s.

(** Disjoint segments that start on granules, in order, between [lo] and [hi]. *)
Fixpoint segs_ok (q lo hi : Z) (L : list entry) : Prop :=
  match L with
  | [] => lo <= hi
  | (_, s) :: L =>
      lo <= s_base s /\ (q | s_base s) /\ 0 < s_size s /\ segs_ok q (s_end s) hi L
  end.

Definition free_is (F : gmap Z Z) hole L : Prop := forall a i,
  F !! a = Some i <-> hole <> Some a /\ exists s, (a, s) ∈ L /\ s_allocated s = false /\ i = log2ull (s_size s).
Definition tree_is (T : list Z) hole L : Prop := forall a,
  a ∈ T <-> hole <> Some a /\ exists s, (a, s) ∈ L /\ s_allocated s = true.

(** ** Lists of segments *)
Lemma segs_ok_app q lo hi L1 L2 :
  segs_ok q lo hi (L1 ++ L2) <-> exists mid, segs_ok q lo mid L1 /\ segs_ok q mid hi L2.
Proof.
  revert lo. induction L1 as [|[a s] L1 IH]; intros lo; cbn [segs_ok app].
  - split; [|by intros (mid & H1 & H2); destruct L2 as [|[? ?] ?]; cbn in *; intuition lia].
    intros H. exists lo. split; [lia|done].
  - rewrite IH. firstorder.
Qed.

Lemma segs_ok_bounds q lo hi L a s : segs_ok q lo hi L -> (a, s) ∈ L -> lo <= s_base s /\ s_end s <= hi /\ 0 < s_size s /\ (q | s_base s).
Proof.
  revert lo. induction L as [|[b r] L IH]; intros lo; cbn [segs_ok]; [set_solver|].
  intros (H1 & H2 & H3 & H5) [E|Hin]%elem_of_cons.
  - injection E as -> ->. assert (forall lo' hi' L', segs_ok q lo' hi' L' -> lo' <= hi') as Hle.
    { intros lo' hi' L'. revert lo'. induction L' as [|[c t] L' IH']; intros lo'; cbn; [done|].
      intros (A1 & _ & A4 & A5). apply IH' in A5. unfold s_end in A5. lia. }
    apply Hle in H5. unfold s_end in *. repeat split; try done; lia.
  - destruct (IH _ H5 Hin) as (A1 & A2 & A3 & A4). unfold s_end in A1. repeat split; try done; lia.
Qed.

Lemma segs_ok_lt q lo hi L1 a s L2 b r :
  segs_ok q lo hi (L1 ++ (a, s) :: L2) -> (b, r) ∈ L2 -> s_end s <= s_base r.
Proof.
  intros (mid & _ & H)%segs_ok_app Hin. cbn [segs_ok] in H. destruct H as (_ & _ & _ & H).
  apply (segs_ok_bounds _ _ _ _ _ _ H Hin).
Qed.

(** A segment of the list may be cut, shrunk or merged: what the neighbours
    see is its two ends. *)
Lemma segs_ok_subst q lo hi L1 M M' L2 :
  (forall lo hi, segs_ok q lo hi M -> segs_ok q lo hi M') ->
  segs_ok q lo hi (L1 ++ M ++ L2) -> segs_ok q lo hi (L1 ++ M' ++ L2).
Proof.
  intros H. rewrite !segs_ok_app. intros (m1 & H1 & H2). exists m1. split; [done|].
  apply segs_ok_app in H2 as (m2 & H2 & H3). apply segs_ok_app. eauto.
Qed.

Lemma ltm_insert (L1 L2 : list entry) a s :
  a ∉ (L1 ++ L2).*1 -> list_to_map (L1 ++ (a, s) :: L2) = <[a := s]> (list_to_map (L1 ++ L2) : gmap Z vmem_segment).
Proof.
  intros Ha. rewrite !list_to_map_app. cbn. rewrite <- insert_union_r; [done|].
  apply not_elem_of_list_to_map_1. rewrite fmap_app in Ha. set_solver.
Qed.

Lemma ltm_update (L1 L2 : list entry) a s s' :
  a ∉ (L1 ++ L2).*1 ->
  <[a := s']> (list_to_map (L1 ++ (a, s) :: L2) : gmap Z vmem_segment) = list_to_map (L1 ++ (a, s') :: L2).
Proof. intros Ha. by rewrite !ltm_insert, insert_insert_eq by done. Qed.

Lemma ltm_delete (L1 L2 : list entry) a s :
  a ∉ (L1 ++ L2).*1 -> delete a (list_to_map (L1 ++ (a, s) :: L2) : gmap Z vmem_segment) = list_to_map (L1 ++ L2).
Proof.
  intros Ha. rewrite ltm_insert by done. apply delete_insert_id. by apply not_elem_of_list_to_map_1.
Qed.

Lemma ltm_lookup (L : list entry) a s : NoDup L.*1 -> (list_to_map L : gmap Z vmem_segment) !! a = Some s <-> (a, s) ∈ L.
Proof. intros H. symmetry. by apply elem_of_list_to_map. Qed.

Lemma ltm_dom (L : list entry) a : a ∈ dom (list_to_map L : gmap Z vmem_segment) <-> a ∈ L.*1.
Proof.
  rewrite elem_of_dom, list_elem_of_fmap. split.
  - intros [s Hs]. apply elem_of_list_to_map_2 in Hs. by exists (a, s).
  - intros ([b s] & -> & Hin). cbn. destruct (_ !! b) eqn:E; [done|]. apply not_elem_of_list_to_map in E.
    exfalso. apply E, list_elem_of_fmap. by exists (b, s).
Qed.

(** ** Free lists and tree across a step *)
Lemma free_is_ext F hole L L' :
  (forall a s, hole <> Some a -> (a, s) ∈ L <-> (a, s) ∈ L') -> free_is F hole L -> free_is F hole L'.
Proof.
  intros E H a i. rewrite (H a i). split; intros [Hh (s & Hs & H1 & H2)]; (split; [done|]; exists s; split; [by apply (E a s)|done]).
Qed.

Lemma tree_is_ext T hole L L' :
  (forall a s, hole <> Some a -> (a, s) ∈ L <-> (a, s) ∈ L') -> tree_is T hole L -> tree_is T hole L'.
Proof.
  intros E H a. rewrite (H a). split; intros [Hh (s & Hs & H1)]; (split; [done|]; exists s; split; [by apply (E a s)|done]).
Qed.

Lemma free_is_add F hole L1 L2 a s :
  a ∉ (L1 ++ L2).*1 -> hole <> Some a -> s_allocated s = false -> free_is F hole (L1 ++ L2) ->
  free_is (<[a := log2ull (s_size s)]> F) hole (L1 ++ (a, s) :: L2).
Proof.
  intros Ha Hh Hs H b i. destruct (decide (a = b)) as [<- | Hne].
  - rewrite lookup_insert_eq. split.
    + intros [= <-]. split; [done|]. exists s. split; [set_solver|done].
    + intros [_ (r & Hr & _ & ->)]. assert (r = s) as ->; [|done].
      apply elem_of_app in Hr as [Hr|[Hr|Hr]%elem_of_cons]; [|by injection Hr|];
        exfalso; apply Ha, list_elem_of_fmap; exists (a, r); set_solver.
  - rewrite lookup_insert_ne, (H b i) by done. f_equiv. apply exist_proper. intros r. f_equiv.
    rewrite !elem_of_app, elem_of_cons. assert ((b, r) <> (a, s)) by congruence. tauto.
Qed.

Lemma free_is_skip F hole L1 L2 a s :
  hole = Some a \/ s_allocated s = true -> a ∉ (L1 ++ L2).*1 -> free_is F hole (L1 ++ L2) -> free_is F hole (L1 ++ (a, s) :: L2).
Proof.
  intros Hs Ha H b i. rewrite (H b i). split; intros [Hh (r & Hr & H1 & H2)]; (split; [done|]; exists r; split; [|done]).
  - set_solver.
  - apply elem_of_app in Hr as [Hr|[Hr|Hr]%elem_of_cons]; [set_solver| |set_solver]. injection Hr as -> ->.
    destruct Hs; congruence.
Qed.

Lemma tree_is_skip T hole L1 L2 a s :
  hole = Some a \/ s_allocated s = false -> a ∉ (L1 ++ L2).*1 -> tree_is T hole (L1 ++ L2) -> tree_is T hole (L1 ++ (a, s) :: L2).
Proof.
  intros Hs Ha H b. rewrite (H b). split; intros [Hh (r & Hr & H1)]; (split; [done|]; exists r; split; [|done]).
  - set_solver.
  - apply elem_of_app in Hr as [Hr|[Hr|Hr]%elem_of_cons]; [set_solver| |set_solver]. injection Hr as -> ->.
    destruct Hs; congruence.
Qed.

Lemma tree_is_add T1 T2 hole L1 L2 a s :
  a ∉ (L1 ++ L2).*1 -> hole <> Some a -> s_allocated s = true -> tree_is (T1 ++ T2) hole (L1 ++ L2) ->
  tree_is (T1 ++ a :: T2) hole (L1 ++ (a, s) :: L2).
Proof.
  intros Ha Hh Hs H b. destruct (decide (a = b)) as [<- | Hne].
  - split; [|set_solver]. intros _. split; [done|]. exists s. set_solver.
  - transitivity (b ∈ T1 ++ T2); [set_solver|]. rewrite (H b). f_equiv. apply exist_proper. intros r. f_equiv.
    rewrite !elem_of_app, elem_of_cons. assert ((b, r) <> (a, s)) by congruence. tauto.
Qed.

(** Taking a segment off, and deleting one. *)
Lemma free_is_off F hole L1 L2 a s :
  a ∉ (L1 ++ L2).*1 -> free_is F hole (L1 ++ (a, s) :: L2) -> free_is (delete a F) hole (L1 ++ L2).
Proof.
  intros Ha H b i. rewrite lookup_delete_Some, (H b i). split.
  - intros [Hne [Hh (r & Hr & H1)]]. split; [done|]. exists r. split; [|done].
    apply elem_of_app in Hr as [Hr|[Hr|Hr]%elem_of_cons]; [set_solver|congruence|set_solver].
  - intros [Hh (r & Hr & H1)]. split; [|split; [done|exists r; split; [set_solver|done]]].
    intros <-. apply Ha, list_elem_of_fmap. by exists (a, r).
Qed.

Lemma tree_is_off T1 T2 hole L1 L2 a s :
  NoDup (T1 ++ a :: T2) -> a ∉ (L1 ++ L2).*1 -> tree_is (T1 ++ a :: T2) hole (L1 ++ (a, s) :: L2) -> tree_is (T1 ++ T2) hole (L1 ++ L2).
Proof.
  intros Hnd Ha H b. apply NoDup_app in Hnd as (_ & Hd & [Hn _]%NoDup_cons).
  assert (a ∉ T1) as Hn1 by (intros Hx; eapply Hd; [exact Hx|by left]).
  transitivity (b <> a /\ b ∈ T1 ++ a :: T2); [split; [|set_solver]; intros Hb; split; [intros ->; set_solver|set_solver]|].
  rewrite (H b). split.
  - intros [Hne [Hh (r & Hr & H1)]]. split; [done|]. exists r. split; [|done].
    apply elem_of_app in Hr as [Hr|[Hr|Hr]%elem_of_cons]; [set_solver|congruence|set_solver].
  - intros [Hh (r & Hr & H1)]. split; [|split; [done|exists r; split; [set_solver|done]]].
    intros ->. apply Ha, list_elem_of_fmap. by exists (a, r).
Qed.

(** A segment the lists leave out may become the hole, and back. *)
Lemma free_is_hole F hole hole' L :
  (forall a, a ∈ L.*1 -> hole <> Some a) -> (forall a, a ∈ L.*1 -> hole' <> Some a) -> free_is F hole L -> free_is F hole' L.
Proof.
  intros E E' H a i. rewrite (H a i). split; intros [_ (s & Hs & Hr)]; (split; [|by exists s]); [apply E'|apply E];
    apply list_elem_of_fmap; by exists (a, s).
Qed.

Lemma tree_is_hole T hole hole' L :
  (forall a, a ∈ L.*1 -> hole <> Some a) -> (forall a, a ∈ L.*1 -> hole' <> Some a) -> tree_is T hole L -> tree_is T hole' L.
Proof.
  intros E E' H a. rewrite (H a). split; intros [_ (s & Hs & Hr)]; (split; [|by exists s]); [apply E'|apply E];
    apply list_elem_of_fmap; by exists (a, s).
Qed.

Lemma free_is_unskip F hole L1 L2 a s :
  hole = Some a \/ s_allocated s = true -> free_is F hole (L1 ++ (a, s) :: L2) -> a ∉ (L1 ++ L2).*1 -> free_is F hole (L1 ++ L2).
Proof.
  intros Hs H Ha. assert (F !! a = None) as E.
  { destruct (F !! a) eqn:E; [|done]. apply H in E as [Hh (r & Hr & H1 & _)]. destruct Hs as [-> | Hs]; [done|].
    apply elem_of_app in Hr as [Hr|[Hr|Hr]%elem_of_cons]; [|congruence|]; destruct Ha; apply list_elem_of_fmap; exists (a, r); set_solver. }
  rewrite <- (delete_id F a E). eapply free_is_off; [done|exact H].
Qed.

Lemma tree_is_unskip T hole L1 L2 a s :
  hole = Some a \/ s_allocated s = false -> tree_is T hole (L1 ++ (a, s) :: L2) -> a ∉ (L1 ++ L2).*1 -> tree_is T hole (L1 ++ L2).
Proof.
  intros Hs H Ha b. rewrite (H b). split; intros [Hh (r & Hr & H1)]; (split; [done|]; exists r; split; [|done]).
  - apply elem_of_app in Hr as [Hr|[Hr|Hr]%elem_of_cons]; [set_solver| |set_solver]. injection Hr as -> ->.
    destruct Hs; congruence.
  - set_solver.
Qed.

(** ** Address ranges *)
Definition at_addr L (x : Z) (b : bool) : Prop :=
  exists a s, (a, s) ∈ L /\ s_base s <= x < s_end s /\ s_allocated s = b.

(** Addresses [lo, hi) now have the status [b], all others the old one. *)
Definition range_set L L' (lo hi : Z) (b : bool) : Prop := forall x c,
  at_addr L' x c <-> lo <= x < hi /\ c = b \/ ~ (lo <= x < hi) /\ at_addr L x c.

(** Free neighbours have been merged. *)
Definition coalesced L : Prop := forall a s b r,
  (a, s) ∈ L -> (b, r) ∈ L -> s_allocated s = false -> s_allocated r = false -> s_end s <> s_base r.

Lemma at_addr_app L1 L2 x b : at_addr (L1 ++ L2) x b <-> at_addr L1 x b \/ at_addr L2 x b.
Proof.
  unfold at_addr. setoid_rewrite elem_of_app. split.
  - intros (a & s & [H|H] & Hr); [left|right]; by exists a, s.
  - intros [(a & s & H & Hr)|(a & s & H & Hr)]; exists a, s; (split; [|done]); [by left|by right].
Qed.

Lemma at_addr_cons a s L x b : at_addr ((a, s) :: L) x b <-> s_base s <= x < s_end s /\ s_allocated s = b \/ at_addr L x b.
Proof.
  change ((a, s) :: L) with ([(a, s)] ++ L). rewrite at_addr_app. f_equiv. split.
  - intros (c & r & [E|E]%elem_of_cons & Hr); [by injection E as -> ->|set_solver].
  - intros H. exists a, s. split; [by left|done].
Qed.

Lemma at_addr_nil x b : ~ at_addr [] x b.
Proof. intros (a & s & H & _). set_solver. Qed.

(** Segments of a list are apart. *)
Lemma segs_apart q lo hi L a s b r :
  segs_ok q lo hi L -> NoDup L.*1 -> (a, s) ∈ L -> (b, r) ∈ L -> a = b /\ s = r \/ s_end s <= s_base r \/ s_end r <= s_base s.
Proof.
  intros Hok Hnd Ha Hb. apply list_elem_of_split in Ha as (L1 & L2 & ->).
  apply elem_of_app in Hb as [Hb|[Hb|Hb]%elem_of_cons].
  - right. right. apply list_elem_of_split in Hb as (K1 & K2 & ->). rewrite <- app_assoc in Hok. cbn in Hok.
    eapply segs_ok_lt; [exact Hok|]. apply elem_of_app. right. by left.
  - injection Hb as -> ->. by left.
  - right. left. by eapply segs_ok_lt.
Qed.

(** What is inside one segment changes nothing outside of it. *)
Lemma range_set_mid q lo hi L1 a s L2 M from to b :
  segs_ok q lo hi (L1 ++ (a, s) :: L2) -> NoDup (L1 ++ (a, s) :: L2).*1 ->
  s_base s <= from -> to <= s_end s ->
  (forall x c, at_addr M x c <-> s_base s <= x < s_end s /\ c = (if bool_decide (from <= x < to) then b else s_allocated s)) ->
  range_set (L1 ++ (a, s) :: L2) (L1 ++ M ++ L2) from to b.
Proof.
  intros Hok Hnd H1 H2 HM x c. rewrite !at_addr_app, at_addr_cons, HM.
  assert (s_base s <= x < s_end s -> ~ (at_addr L1 x c \/ at_addr L2 x c)) as Hout.
  { intros Hx [(d & r & Hr & Hin & _)|(d & r & Hr & Hin & _)].
    - apply list_elem_of_split in Hr as (K1 & K2 & ->). rewrite <- app_assoc in Hok. cbn in Hok.
      pose proof (segs_ok_lt _ _ _ _ _ _ _ a s Hok ltac:(set_solver)). lia.
    - pose proof (segs_ok_lt _ _ _ _ _ _ _ d r Hok Hr). lia. }
  destruct (decide (from <= x < to)) as [Hin|Hin].
  - rewrite bool_decide_true by done. assert (s_base s <= x < s_end s) by lia. tauto.
  - rewrite bool_decide_false by done. intuition congruence.
Qed.

(** ** The tests of the search, in terms of addresses *)
(** ** Finding a segment *)
Definition start_in (q min : Z) (s : vmem_segment) : Z := ALIGN_UP (MAX min (s_base s)) q.

(** The three tests of the scan. *)
Definition takes (q min max size : Z) (s : vmem_segment) : Prop :=
  size <= s_size s /\ u64 (start_in q min s - s_base s) <= u64 (s_size s - size) /\
  (max = UINT64_MAX \/ u64 (start_in q min s + size) <= max).

Definition alloc_max (q size addr : Z) : Z := if negb (addr =? 0) then ALIGN_UP (u64 (addr + size)) q else UINT64_MAX.

Definition fits (size addr : Z) (s : vmem_segment) : Prop :=
  size <= s_size s /\ (addr = 0 \/ s_base s <= addr /\ addr + size <= s_end s).

(** A free segment of the exact size at the top of the address space, above
    the address asked for: the end of the range wraps to 0. *)
Definition wraps (size addr : Z) (s : vmem_segment) : Prop :=
  0 < addr < s_base s /\ s_end s = 2 ^ 64 /\ s_size s = size.

Lemma pow_divides_top k : 0 <= k <= 64 -> (2 ^ k | 2 ^ 64).
Proof. intros Hk. exists (2 ^ (64 - k)). rewrite <- Z.pow_add_r by lia. f_equal. lia. Qed.

Lemma u64_divide k x : 0 <= k <= 64 -> (2 ^ k | x) -> (2 ^ k | u64 x).
Proof.
  intros Hk Hx. unfold u64. rewrite Z.mod_eq by lia. apply Z.divide_sub_r; [done|]. apply Z.divide_mul_l. by apply pow_divides_top.
Qed.

Lemma takes_spec k size addr s :
  0 < k < 32 -> (2 ^ k | addr) -> is_u64 addr -> (2 ^ k | size) -> 0 < size < 2 ^ 64 ->
  (2 ^ k | s_base s) -> 1 <= s_base s -> s_end s <= 2 ^ 64 -> 0 < s_size s ->
  (takes (2 ^ k) (ALIGN_UP addr (2 ^ k)) (alloc_max (2 ^ k) size addr) size s <-> fits size addr s \/ wraps size addr s) /\
  start_in (2 ^ k) (ALIGN_UP addr (2 ^ k)) s = Z.max addr (s_base s).
Proof.
  intros Hk Ha Hu Hq Hsz Hb B1 B2 B3. unfold is_u64, s_end in *.
  assert (is_u64 (s_base s)) as Hbu by (unfold is_u64; lia).
  assert (start_in (2 ^ k) (ALIGN_UP addr (2 ^ k)) s = Z.max addr (s_base s)) as Es.
  { unfold start_in. rewrite (ALIGN_UP_aligned addr k), MAX_max by (done || lia). apply ALIGN_UP_aligned; [lia|unfold is_u64 in *; lia|].
    destruct (Z.max_spec addr (s_base s)) as [[_ ->]|[_ ->]]; done. }
  split; [|done]. unfold takes, fits, wraps, s_end. rewrite Es. unfold alloc_max.
  destruct (Z.eqb_spec addr 0) as [->|Hne]; cbn [negb].
  - rewrite Z.max_r, Z.sub_diag by lia. unfold UINT64_MAX. change (u64 0) with 0. pose proof (u64_range (s_size s - size)) as Hr. unfold is_u64 in Hr. intuition lia.
  - assert (alloc_max (2 ^ k) size addr = u64 (addr + size)) as Emax.
    { unfold alloc_max. destruct (Z.eqb_spec addr 0); [lia|]. cbn [negb]. apply ALIGN_UP_aligned; [lia|apply u64_range|].
      apply u64_divide; [lia|]. by apply Z.divide_add_r. }
    unfold alloc_max in Emax. destruct (Z.eqb_spec addr 0); [lia|]. cbn [negb] in Emax. rewrite Emax.
    assert (u64 (addr + size) <> UINT64_MAX) as Hodd.
    { intros E. assert ((2 ^ k | UINT64_MAX)) as H by (rewrite <- E; apply u64_divide; [lia|]; by apply Z.divide_add_r).
      assert ((2 | UINT64_MAX)) as [z Hz]; [|unfold UINT64_MAX in Hz; lia]. etransitivity; [|exact H].
      exists (2 ^ (k - 1)). replace k with (k - 1 + 1) at 1 by lia. rewrite Z.pow_add_r by lia. done. }
    destruct (Z.le_gt_cases (s_base s) addr) as [Hle|Hgt].
    + rewrite Z.max_l by lia. rewrite (u64_small (addr - s_base s)) by (unfold is_u64; lia).
      split; [intros (T1 & T2 & T3)|intros [[T1 T2]|T1]]; [left|split; [done|]|lia]; rewrite u64_small in * by (unfold is_u64; lia); [lia|].
      split; [lia|]. right. lia.
    + rewrite Z.max_r, Z.sub_diag by lia. change (u64 0) with 0.
      split.
      * intros (T1 & _ & [T3|T3]); [done|]. right. destruct (Z.eq_dec (s_base s + size) (2 ^ 64)) as [Et|Ht]; [lia|].
        rewrite !u64_small in T3 by (unfold is_u64; lia). lia.
      * intros [T|(_ & T1 & T2)]; [lia|]. split; [lia|]. split; [apply u64_range|]. right.
        replace (s_base s + size) with (2 ^ 64) by lia. change (u64 (2 ^ 64)) with 0. apply u64_range.
Qed.

Lemma nodup_mid (L1 : list entry) a s L2 : NoDup (L1 ++ (a, s) :: L2).*1 -> (a ∉ (L1 ++ L2).*1) /\ NoDup (L1 ++ L2).*1.
Proof.
  rewrite !fmap_app, fmap_cons. cbn. intros H. apply NoDup_app in H as (H1 & H2 & [H3 H4]%NoDup_cons). split.
  - rewrite elem_of_app. intros [H|H]; [eapply H2; [exact H|by left]|done].
  - apply NoDup_app. split; [done|]. split; [|done]. intros x Hx Hx'. eapply H2; [done|by right].
Qed.

Lemma entry_in (L : list entry) a s : (a, s) ∈ L -> a ∈ L.*1.
Proof. intros H. apply list_elem_of_fmap. by exists (a, s). Qed.

Lemma nodup_unique (L : list entry) a s r : NoDup L.*1 -> (a, s) ∈ L -> (a, r) ∈ L -> s = r.
Proof.
  intros Hnd H1 H2. apply (ltm_lookup L) in H1, H2; [|done..]. congruence.
Qed.

(** ** Allocation *)
Definition no_fit (size addr : Z) L : Prop := forall a s, (a, s) ∈ L -> s_allocated s = false -> ~ fits size addr s.

(** [e] bytes at [r] were taken for a request of [size]: the rounded size, or
    all that is left when the arena ends inside the next granule. *)
Record alloc_done (q size e addr r : Z) (L L' : list entry) : Prop := {
  ad_extent : size <= e < size + q;
  ad_tail : e = size \/ forall b, ~ at_addr L (r + e) b;
  ad_pos : 0 < r;
  ad_aligned : (q | r);
  ad_fixed : addr <> 0 -> r = addr;
  ad_was_free : forall x, r <= x < r + e -> at_addr L x false;
  ad_range : range_set L L' r (r + e) true;
  ad_coalesced : coalesced L -> coalesced L';
}.

(** A free segment, cut into what is left of the range, the range, and what is
    right of it. *)
Lemma cut_done q k addr size sz r L1 a s L2 M1 n M2 :
  q = 2 ^ k -> (q | r) -> (addr <> 0 -> r = addr) -> 0 < sz -> size <= sz < size + q -> (q | size) -> (sz = size \/ r + sz = s_end s) ->
  segs_ok q 1 (2 ^ 64) (L1 ++ (a, s) :: L2) -> NoDup (L1 ++ (a, s) :: L2).*1 -> s_allocated s = false ->
  s_base s <= r -> r + sz <= s_end s ->
  (r = s_base s /\ M1 = [] \/ exists m, s_base s < r /\ M1 = [(m, Seg false (s_base s) (r - s_base s))]) ->
  (r + sz = s_end s /\ M2 = [] \/ r + sz < s_end s /\ exists m, M2 = [(m, Seg false (r + sz) (s_end s - (r + sz)))]) ->
  alloc_done q size sz addr r (L1 ++ (a, s) :: L2) (L1 ++ (M1 ++ (n, Seg true r sz) :: M2) ++ L2).
Proof.
  intros -> Hq Hf Hsz Hext Hqs Htail Hok Hnd Hs Hlo Hhi HM1 HM2.
  assert ((a, s) ∈ L1 ++ (a, s) :: L2) as Hin by set_solver.
  destruct (segs_ok_bounds _ _ _ _ _ _ Hok Hin) as (B1 & B2 & B3 & _). split.
  - done.
  - destruct Htail as [->|Ht]; [by left|]. destruct (Z.eq_dec sz size) as [->|Hne]; [by left|right]. intros b (c & t & Hc & Hr & _).
    destruct (segs_ok_bounds _ _ _ _ _ _ Hok Hc) as (_ & _ & _ & Hqt).
    destruct (segs_apart _ _ _ _ _ _ _ _ Hok Hnd Hin Hc) as [[-> ->]|Hap]; [lia|].
    assert (s_base t = r + sz) as E by (unfold s_end in *; lia). rewrite E in Hqt.
    assert (2 ^ k | sz - size) as Hd by (replace (sz - size) with (r + sz - r - size) by lia; apply Z.divide_sub_r; [by apply Z.divide_sub_r|done]).
    apply Z.divide_pos_le in Hd; lia.
  - lia.
  - done.
  - done.
  - intros x Hx. exists a, s. split; [done|]. split; [lia|done].
  - eapply range_set_mid; [done|done|lia|lia|]. intros x c. rewrite at_addr_app, at_addr_cons, Hs. cbn [s_allocated s_base]. unfold s_end at 1. cbn [s_base s_size].
    destruct HM1 as [[E1 ->] | (m1 & H1 & ->)]; destruct HM2 as [[E2 ->] | (H2 & m2 & ->)];
      rewrite ?at_addr_cons; unfold s_end in *; cbn [s_base s_size s_allocated] in *;
      pose proof (at_addr_nil x c); (case_bool_decide; [|assert (x < r \/ r + sz <= x) by lia]); intuition (subst; try lia; try done).
  - intros HC.
    (* a free segment of the new list is one of the old list, or a part of s that ends where s ends or starts where s starts *)
    assert (forall b t, (b, t) ∈ L1 ++ (M1 ++ (n, Seg true r sz) :: M2) ++ L2 -> s_allocated t = false ->
      (b, t) ∈ L1 ++ L2 \/ (s_base t = s_base s /\ s_end t = r /\ s_base s < r) \/ (s_base t = r + sz /\ s_end t = s_end s /\ r + sz < s_end s)) as Hcase.
    { intros b t Hb Ht. rewrite !elem_of_app, elem_of_cons in Hb.
      destruct Hb as [Hb|[[Hb|[Hb|Hb]]|Hb]]; [left; set_solver|..|left; set_solver].
      - destruct HM1 as [[E1 ->] | (m1 & H1 & ->)]; [set_solver|]. apply list_elem_of_singleton in Hb. injection Hb as -> ->.
        right. left. unfold s_end. cbn. lia.
      - injection Hb as -> ->. done.
      - destruct HM2 as [[E2 ->] | (H2 & m2 & ->)]; [set_solver|]. apply list_elem_of_singleton in Hb. injection Hb as -> ->.
        right. right. unfold s_end in *. cbn in *. lia. }
    assert (forall b t, (b, t) ∈ L1 ++ L2 -> (b, t) ∈ L1 ++ (a, s) :: L2 /\ (s_end t <= s_base s \/ s_end s <= s_base t) /\ 0 < s_size t) as Hout.
    { intros b t Hb. assert ((b, t) ∈ L1 ++ (a, s) :: L2) as Hb' by set_solver. split; [done|].
      destruct (segs_ok_bounds _ _ _ _ _ _ Hok Hb') as (_ & _ & Hpos & _). split; [|done].
      destruct (segs_apart _ _ _ _ _ _ _ _ Hok Hnd Hb' Hin) as [[-> ->]|H]; [|lia].
      apply nodup_mid in Hnd as [Hn _]. destruct Hn. by eapply entry_in. }
    intros b t c u Hb Hc Ht Hu.
    destruct (Hcase b t Hb Ht) as [Hb1|Hb1], (Hcase c u Hc Hu) as [Hc1|Hc1].
    + by apply (HC b t c u); [apply Hout|apply Hout|..].
    + destruct (Hout _ _ Hb1) as (Hb2 & Hb3 & Hb4). pose proof (HC b t a s Hb2 Hin Ht Hs). unfold s_end in *. lia.
    + destruct (Hout _ _ Hc1) as (Hc2 & Hc3 & Hc4). pose proof (HC a s c u Hin Hc2 Hs Hu). unfold s_end in *. lia.
    + unfold s_end in *. lia.
Qed.

Lemma prev_apart q lo hi L1 p sp a s L2 :
  segs_ok q lo hi (L1 ++ [(p, sp)] ++ (a, s) :: L2) -> s_end sp <= s_base s /\ forall b r, (b, r) ∈ L1 -> s_end r <= s_base sp.
Proof.
  intros H. split; [eapply (segs_ok_lt _ _ _ L1 p sp ((a, s) :: L2) a); [exact H|by left]|].
  intros b r Hb. apply list_elem_of_split in Hb as (K1 & K2 & ->). rewrite <- app_assoc in H. cbn in H.
  apply (segs_ok_lt _ _ _ _ _ _ _ p sp H). set_solver.
Qed.

Lemma same_merge L1 p sp a s L2 x c :
  s_allocated sp = s_allocated s -> s_end sp = s_base s -> 0 < s_size sp -> 0 < s_size s ->
  at_addr (L1 ++ [(p, sp)] ++ (a, s) :: L2) x c <->
  at_addr (L1 ++ (a, Seg (s_allocated s) (s_base sp) (s_size s + s_size sp)) :: L2) x c.
Proof.
  intros E1 E2 H1 H2. rewrite !at_addr_app, !at_addr_cons. unfold s_end in *. cbn [s_base s_size s_allocated].
  pose proof (at_addr_nil x c). rewrite E1. split.
  - intros [H0|[[[Hx Hc]|H0]|[[Hx Hc]|H0]]]; [by left|right; left; split; [lia|done]|done|right; left; split; [lia|done]|by right; right].
  - intros [H0|[[Hx Hc]|H0]]; [by left| |by right; right; right]. right.
    destruct (Z.lt_ge_cases x (s_base s)); [left; left|right; left]; (split; [lia|done]).
Qed.

(** Segments that still count for a walk from [cur] on. *)
Definition ahead (cur : Z) (e : entry) : Prop := s_allocated e.2 = true /\ cur < s_end e.2.
#[export] Instance ahead_dec cur e : Decision (ahead cur e).
Proof. unfold ahead. apply _. Defined.

Lemma ahead_mono L c d : c <= d -> (length (filter (ahead d) L) <= length (filter (ahead c) L))%nat.
Proof.
  intros Hcd. induction L as [|e L IH]; [done|]. rewrite !filter_cons.
  destruct (decide (ahead d e)) as [[? ?]|]; destruct (decide (ahead c e)) as [|Hn]; cbn; try lia. destruct Hn. split; [done|lia].
Qed.

(** Every allocated segment of [L'] is part of one of [L]. *)
Definition pieces L' L : Prop := forall b t, (b, t) ∈ L' -> s_allocated t = true ->
  exists b' t', (b', t') ∈ L /\ s_allocated t' = true /\ s_base t' <= s_base t /\ s_end t <= s_end t'.

Lemma coalesced_around q L K1 a s K2 :
  coalesced L -> 0 < s_size s -> segs_ok q 1 (2 ^ 64) (K1 ++ (a, s) :: K2) ->
  (forall b t, (b, t) ∈ K1 ++ K2 -> s_allocated t = false -> (b, t) ∈ L) ->
  (forall b t, (b, t) ∈ K1 -> s_allocated t = false -> s_end t <> s_base s) ->
  (forall b t, (b, t) ∈ K2 -> s_allocated t = false -> s_end s <> s_base t) ->
  coalesced (K1 ++ (a, s) :: K2).
Proof.
  intros HC Hs Hok HL H1 H2 b t c u Hb Hc Ht Hu.
  assert (forall d w, (d, w) ∈ K2 -> s_end s <= s_base w /\ 0 < s_size w) as Hr.
  { intros d w Hd. split; [by eapply segs_ok_lt|]. assert ((d, w) ∈ K1 ++ (a, s) :: K2) as Hin by set_solver.
    apply (segs_ok_bounds _ _ _ _ _ _ Hok) in Hin. lia. }
  assert (forall d w, (d, w) ∈ K1 -> s_end w <= s_base s /\ 0 < s_size w) as Hl.
  { intros d w Hd. assert ((d, w) ∈ K1 ++ (a, s) :: K2) as Hin by set_solver. apply (segs_ok_bounds _ _ _ _ _ _ Hok) in Hin. split; [|lia].
    apply list_elem_of_split in Hd as (J1 & J2 & ->). rewrite <- app_assoc in Hok. cbn in Hok. apply (segs_ok_lt _ _ _ _ _ _ _ a s Hok). set_solver. }
  apply elem_of_app in Hb as [Hb|[Hb|Hb]%elem_of_cons], Hc as [Hc|[Hc|Hc]%elem_of_cons].
  all: try (injection Hb as -> ->); try (injection Hc as -> ->).
  all: try (by apply (HC b t c u); [apply HL; set_solver|apply HL; set_solver|..]).
  - by eapply H1.
  - destruct (Hl _ _ Hc). unfold s_end in *. lia.
  - unfold s_end. lia.
  - by eapply H2.
  - destruct (Hr _ _ Hb). unfold s_end in *. lia.
Qed.

(** The list after the merges of [vmem_free]. *)
Definition merged_left (N1 : list entry) (s : vmem_segment) (K1 : list entry) (s' : vmem_segment) : Prop :=
  K1 = N1 /\ s' = s /\ (forall p sp, (p, sp) ∈ N1 -> s_allocated sp = false -> s_end sp <> s_base s) \/
  exists p sp, N1 = K1 ++ [(p, sp)] /\ s_allocated sp = false /\ s_end sp = s_base s /\
    s' = Seg (s_allocated s) (s_base sp) (s_size s + s_size sp).
Definition merged_right (N2 : list entry) (s : vmem_segment) (K2 : list entry) (s' : vmem_segment) : Prop :=
  K2 = N2 /\ s' = s /\ (forall p sp, (p, sp) ∈ N2 -> s_allocated sp = false -> s_end s <> s_base sp) \/
  exists p sp, N2 = (p, sp) :: K2 /\ s_allocated sp = false /\ s_end s = s_base sp /\
    s' = Seg (s_allocated s) (s_base s) (s_size s + s_size sp).

Lemma merged_same q N1 a s N2 K1 s5 K2 s6 x c :
  segs_ok q 1 (2 ^ 64) (N1 ++ (a, s) :: N2) -> s_allocated s = false -> merged_left N1 s K1 s5 -> merged_right N2 s5 K2 s6 ->
  at_addr (N1 ++ (a, s) :: N2) x c <-> at_addr (K1 ++ (a, s6) :: K2) x c.
Proof.
  intros Hok Hs H1 H2.
  assert (at_addr (N1 ++ (a, s) :: N2) x c <-> at_addr (K1 ++ (a, s5) :: N2) x c) as E1.
  { destruct H1 as [(-> & -> & _)|(p & sp & -> & Hsp & Eb & ->)]; [done|]. rewrite <- app_assoc in *.
    apply same_merge; [congruence|done|..]; eapply (segs_ok_bounds _ _ _ _ _ _ Hok); apply elem_of_app; right; [left|right; left]. }
  rewrite E1. destruct H2 as [(-> & -> & _)|(p & sp & -> & Hsp & Eb & ->)]; [done|].
  assert (s_allocated s5 = false) as Hs5 by (destruct H1 as [(_ & -> & _)|(? & ? & _ & _ & _ & ->)]; done).
  assert (0 < s_size s /\ 0 < s_size sp) as [P1 P2].
  { split; eapply (segs_ok_bounds _ _ _ _ _ _ Hok); apply elem_of_app; right; [left|right; left]. }
  assert (0 < s_size s5) as P5.
  { destruct H1 as [(_ & -> & _)|(p' & sp' & -> & _ & _ & ->)]; [done|]. cbn.
    assert ((p', sp') ∈ (K1 ++ [(p', sp')]) ++ (a, s) :: (p, sp) :: K2) as Hp by set_solver.
    destruct (segs_ok_bounds _ _ _ _ _ _ Hok Hp) as (_ & _ & ? & _). lia. }
  rewrite !at_addr_app, !at_addr_cons. unfold s_end in *. cbn [s_base s_size s_allocated]. rewrite Hs5, Hsp. split.
  - intros [H|[[H Hc]|[[H Hc]|H]]]; [by left|right; left; split; [lia|done]|right; left; split; [lia|done]|by right; right].
  - intros [H|[[H Hc]|H]]; [by left| |by right; right; right]. right.
    destruct (Z.lt_ge_cases x (s_base sp)); [left|right; left]; (split; [lia|done]).
Qed.

Lemma merged_sub N1 s N2 K1 s5 K2 s6 : merged_left N1 s K1 s5 -> merged_right N2 s5 K2 s6 ->
  (forall e, e ∈ K1 -> e ∈ N1) /\ (forall e, e ∈ K2 -> e ∈ N2).
Proof.
  intros H1 H2. split.
  - destruct H1 as [(-> & _)|(p & sp & -> & _)]; set_solver.
  - destruct H2 as [(-> & _)|(p & sp & -> & _)]; set_solver.
Qed.

Lemma merged_coalesced q L N1 a s N2 K1 s5 K2 s6 :
  coalesced L -> segs_ok q 1 (2 ^ 64) (K1 ++ (a, s6) :: K2) ->
  (forall b t, (b, t) ∈ N1 ++ N2 -> s_allocated t = false -> (b, t) ∈ L) ->
  merged_left N1 s K1 s5 -> merged_right N2 s5 K2 s6 -> coalesced (K1 ++ (a, s6) :: K2).
Proof.
  intros HC Hok HL H1 H2. destruct (merged_sub _ _ _ _ _ _ _ H1 H2) as [S1 S2].
  eapply (coalesced_around q L); [done| |done|..].
  - eapply (segs_ok_bounds _ _ _ _ a s6 Hok). set_solver.
  - intros b t Hb. apply HL. set_solver.
  - assert (s_base s6 = s_base s5) as -> by (by destruct H2 as [(_ & -> & _)|(? & ? & _ & _ & _ & ->)]).
    destruct H1 as [(-> & -> & Hn)|(p & sp & -> & Hsp & _ & ->)]; [done|]. cbn [s_base]. intros b t Hb Ht.
    apply (HC b t p sp); [apply HL; set_solver|apply HL; set_solver|done|done].
  - destruct H2 as [(-> & -> & Hn)|(p & sp & -> & Hsp & Eb & ->)]; [done|]. intros b t Hb Ht.
    replace (s_end (Seg (s_allocated s5) (s_base s5) (s_size s5 + s_size sp))) with (s_end sp) by (unfold s_end in *; cbn; lia).
    apply (HC p sp b t); [apply HL; set_solver|apply HL; set_solver|done|done].
Qed.

(** Merging only drops free segments. *)
Lemma merged_ahead cur N1 a s N2 K1 s5 K2 s6 :
  s_allocated s = false -> merged_left N1 s K1 s5 -> merged_right N2 s5 K2 s6 ->
  filter (ahead cur) (K1 ++ (a, s6) :: K2) = filter (ahead cur) N1 ++ filter (ahead cur) N2.
Proof.
  intros Hs H1 H2. assert (s_allocated s5 = false) as Hs5 by (destruct H1 as [(_ & -> & _)|(? & ? & _ & _ & _ & ->)]; done).
  assert (s_allocated s6 = false) as Hs6 by (destruct H2 as [(_ & -> & _)|(? & ? & _ & _ & _ & ->)]; done).
  assert (forall b t, s_allocated t = false -> ~ ahead cur (b, t)) as Hno by (intros b t Ht [Ha _]; cbn in Ha; congruence).
  rewrite filter_app, filter_cons_False by (by apply Hno). f_equal.
  - destruct H1 as [(-> & _)|(p & sp & -> & Hsp & _)]; [done|]. rewrite filter_app, filter_cons_False by (by apply Hno).
    by rewrite filter_nil, app_nil_r.
  - destruct H2 as [(-> & _)|(p & sp & -> & Hsp & _)]; [done|]. by rewrite filter_cons_False by (by apply Hno).
Qed.

(** What has been freed is behind the walk. *)
Lemma range_set_trans L L1 L2 lo mid hi b :
  lo <= mid <= hi -> range_set L L1 lo mid b -> range_set L1 L2 mid hi b -> range_set L L2 lo hi b.
Proof.
  intros Hm H1 H2 x c. rewrite (H2 x c), (H1 x c). destruct (decide (lo <= x < mid)), (decide (mid <= x < hi)); intuition lia.
Qed.

Lemma pieces_trans L L1 L2 : pieces L1 L -> pieces L2 L1 -> pieces L2 L.
Proof.
  intros H1 H2 b t Hb Ht. destruct (H2 b t Hb Ht) as (b1 & t1 & Hb1 & Ht1 & H3 & H4).
  destruct (H1 b1 t1 Hb1 Ht1) as (b2 & t2 & Hb2 & Ht2 & H5 & H6). exists b2, t2. split; [done|]. split; [done|]. lia.
Qed.

Lemma pieces_refl L : pieces L L.
Proof. intros b t Hb Ht. exists b, t. split; [done|]. split; [done|]. lia. Qed.

(** The range from [cur] to [end_addr] is freed up to [stop]: all of it, or
    up to the first address that is not allocated. *)
Record freed (cur end_addr stop : Z) L L' : Prop := {
  fd_stop : cur <= stop <= end_addr;
  fd_was : forall x, cur <= x < stop -> at_addr L x true;
  fd_range : range_set L L' cur stop false;
  fd_end : stop = end_addr \/ ~ at_addr L stop true;
  fd_coalesced : coalesced L -> coalesced L';
}.

Lemma freed_none cur end_addr L : cur <= end_addr -> cur = end_addr \/ ~ at_addr L cur true -> freed cur end_addr cur L L.
Proof. intros H1 H2. split; [lia|lia| |done|done]. intros x c. intuition lia. Qed.

(** No allocated segment below [end_addr] reaches the end of the address space. *)
Definition below_top (end_addr : Z) L : Prop := forall a s,
  (a, s) ∈ L -> s_allocated s = true -> s_base s < end_addr -> s_end s < 2 ^ 64.

(** The place of a new range among disjoint segments. *)
Lemma place_segment q lo hi L1 L2 n s :
  segs_ok q lo hi (L1 ++ L2) -> lo <= s_base s -> s_end s <= hi -> (q | s_base s) -> 0 < s_size s ->
  (forall a r, (a, r) ∈ L1 -> s_end r <= s_base s) -> (forall a r, (a, r) ∈ L2 -> s_end s <= s_base r) ->
  segs_ok q lo hi (L1 ++ (n, s) :: L2).
Proof.
  revert lo. induction L1 as [|[a r] L1 IH]; intros lo Hok H1 H2 H3 H5 Hl Hr; cbn [app segs_ok] in *.
  - split_and!; try done. destruct L2 as [|[b t] L2]; cbn [segs_ok] in *; [done|].
    destruct Hok as (O1 & O2 & O4 & O5). split_and!; try done. apply (Hr b t). by left.
  - destruct Hok as (O1 & O2 & O4 & O5). split_and!; try done. apply IH; try done.
    + apply (Hl a r). by left.
    + intros b t Hb. apply (Hl b t). by right.
Qed.

Section VMemSpec.
Context `{cfg_ok : kconfig_ok} {P : Type} `{PA : !page_alloc P} `{PO : !page_alloc_ok P}.
Hypothesis hhdm_aligned : (PAGE_SIZE | hhdm_offset).
Implicit Types (st : vmem_allocator P) (seg a q : Z) (v : vview).

Record arena_at (q : Z) (st : vmem_allocator P) (v : vview) hole L : Prop := {
  ar_rep : vrep q st v;
  ar_list : v_list v = L.*1;
  ar_segs : v_segs v = list_to_map L;
  ar_free : free_is (v_free v) hole L;
  ar_tree : tree_is (v_tree v) hole L;
  ar_ok : segs_ok q 1 (2 ^ 64) L;
  ar_quantum : exists k, 0 < k < 32 /\ q = 2 ^ k;
}.

Definition arena_hole (q : Z) (st : vmem_allocator P) hole L : Prop := exists v, arena_at q st v hole L.
Definition arena (q : Z) (st : vmem_allocator P) L : Prop := arena_hole q st None L.

Lemma arena_nodup q st v hole L : arena_at q st v hole L -> NoDup L.*1.
Proof using Type.
  intros A. rewrite <- (ar_list _ _ _ _ _ A). eapply (NoDup_fmap_1 list_node), lr_nodup, vr_list, A.
Qed.

Lemma arena_seg q st v hole L a s : arena_at q st v hole L -> (a, s) ∈ L -> v_segs v !! a = Some s.
Proof using Type.
  intros A Hin. rewrite (ar_segs _ _ _ _ _ A). apply ltm_lookup; [by eapply arena_nodup|done].
Qed.


(** What the arithmetic of 64-bit addresses needs of a segment. *)
Lemma seg_bounds q st v hole L a s :
  arena_at q st v hole L -> (a, s) ∈ L -> 1 <= s_base s /\ s_end s <= 2 ^ 64 /\ 0 < s_size s /\ (q | s_base s).
Proof using Type. intros A. eapply segs_ok_bounds, A. Qed.

(** Running the primitive operations. *)
Ltac vstep lem := eapply nofault_bind; [apply returns_nofault; eapply lem|].
Ltac vnorm R :=
  unfold set_base, set_size, set_allocated in R;
  cbn [v_segs v_list v_free v_tree v_rf v_rt] in R; rewrite ?insert_insert_eq in R; cbn [s_base s_size s_allocated] in R.
(** An update of segment [a], the representation being [R]. *)
Tactic Notation "vupdate" hyp(R) "as" ident(st') :=
  vstep (update_seg_rep hhdm_aligned);
    [exact R|cbn [v_segs]; first [eassumption|apply lookup_insert_eq|rewrite lookup_insert_ne by done; first [eassumption|apply lookup_insert_eq]]
    |cbn [v_tree]; done|]; clear R; intros st' R; vnorm R.

Tactic Notation "vlast" hyp(R) "as" ident(st') :=
  eapply nofault_mono; [apply returns_nofault; eapply (update_seg_rep hhdm_aligned);
    [exact R|cbn [v_segs]; first [eassumption|apply lookup_insert_eq]|cbn [v_tree]; done]|]; clear R; intros st' R; vnorm R.

(** Differences and sums of multiples of the quantum. *)
Ltac qdiv := repeat first [assumption|apply Z.divide_sub_r|apply Z.divide_add_r].

Lemma log2_index z : 0 < z -> z < 2 ^ 64 -> 0 <= log2ull z < 64.
Proof using Type. intros. split; [apply log2ull_nonneg|by apply log2ull_lt64]. Qed.


Lemma arena_new q st v hole L :
  arena_at q st v hole L ->
  nofault (new_segment st) (fun '(n, st') => (n ∉ L.*1) /\ (n ∉ v_tree v) /\ v_free v !! n = None /\ vrep q st'
    (VView (<[n := Seg false 0 0]> (v_segs v)) (v_list v) (v_free v) (v_tree v) ({[n]} ∪ v_rf v) ({[n]} ∪ v_rt v))).
Proof using cfg_ok hhdm_aligned.
  intros [R El Es Ef Et Eo _]. eapply nofault_mono; [by apply (new_segment_rep hhdm_aligned)|]. intros [n st1] [Hn R1].
  rewrite Es, ltm_dom in Hn. split; [done|]. split; [|split; [|done]].
  - intros [_ (r & Hr & _)]%Et. by eapply Hn, entry_in.
  - destruct (v_free v !! n) eqn:E; [|done]. apply Ef in E as [_ (r & Hr & _)]. by destruct Hn; eapply entry_in.
Qed.

Lemma free_is_at F a s s' L1 L2 :
  a ∉ (L1 ++ L2).*1 -> free_is F (Some a) (L1 ++ (a, s) :: L2) -> free_is F (Some a) (L1 ++ (a, s') :: L2).
Proof using Type. intros Ha H. apply free_is_skip; [by left|done|]. eapply free_is_unskip; [by left|exact H|done]. Qed.

Lemma tree_is_at T a s s' L1 L2 :
  a ∉ (L1 ++ L2).*1 -> tree_is T (Some a) (L1 ++ (a, s) :: L2) -> tree_is T (Some a) (L1 ++ (a, s') :: L2).
Proof using Type. intros Ha H. apply tree_is_skip; [by left|done|]. eapply tree_is_unskip; [by left|exact H|done]. Qed.

(** The addresses in a list do not depend on the contents. *)
Lemma fst_mid (L1 : list entry) a s L2 : (L1 ++ (a, s) :: L2).*1 = L1.*1 ++ a :: L2.*1.
Proof using Type. by rewrite fmap_app. Qed.

Lemma left_split_ok q st L1 a s L2 addr :
  arena_hole q st (Some a) (L1 ++ (a, s) :: L2) -> (q | addr) -> s_base s <= addr < s_end s ->
  nofault (left_split st addr a) (fun st' => exists M,
    arena_hole q st' (Some a) (L1 ++ M ++ (a, Seg (s_allocated s) addr (s_end s - addr)) :: L2) /\
    (addr = s_base s /\ M = [] \/ exists n, s_base s < addr /\ M = [(n, Seg false (s_base s) (addr - s_base s))])).
Proof using cfg_ok hhdm_aligned.
  intros [v A] Hq Hb. pose proof (arena_nodup _ _ _ _ _ A) as Hnd. apply nodup_mid in Hnd as [Ha _].
  assert ((a, s) ∈ L1 ++ (a, s) :: L2) as Hin by set_solver.
  pose proof (arena_seg _ _ _ _ _ _ _ A Hin) as Hs. destruct (seg_bounds _ _ _ _ _ _ _ A Hin) as (B1 & B2 & B3 & Q1).
  unfold left_split. pose proof (arena_new _ _ _ _ _ A) as Hnew. destruct A as [R El Es Ef Et Eo Hk].
  rewrite (vrep_load _ _ _ _ _ R Hs), bind_Ok.
  rewrite (vr_quantum _ _ _ R), u64_small by (unfold is_u64, s_end in *; lia).
  destruct (Z.eqb_spec (s_base s) addr) as [E|Hne]; cbn [negb andb].
  - cbn [nofault]. exists []. split; [|left; done]. exists v. cbn [app].
    replace (Seg (s_allocated s) addr (s_end s - addr)) with s; [by split; eauto|].
    destruct s; cbn in *; unfold s_end in *; cbn in *. f_equal; lia.
  - assert (q <= addr - s_base s) as Hle by (apply Z.divide_pos_le; [lia|]; by apply Z.divide_sub_r).
    destruct (Z.geb_spec (addr - s_base s) q) as [_|?]; [|lia].
    eapply nofault_bind; [exact Hnew|]. intros [n st1] (Hn & Hnt & Hnf & R1). clear Hnew.
    assert (n <> a) as Hna by (intros ->; by eapply Hn, entry_in).
    assert (a ∉ v_tree v) as Hat by (by intros [? _]%Et).
    vupdate R1 as st2. vupdate R1 as st3.
    vstep (list_prepend_rep hhdm_aligned).
    { exact R1. } { cbn [v_list]. rewrite El. apply fst_mid. } { cbn [v_list]. by rewrite El. }
    { cbn [v_segs]. rewrite dom_insert. set_solver. } clear R1. intros st4 R1. vnorm R1.
    vstep (vmem_flist_add_rep hhdm_aligned). { exact R1. } { cbn [v_segs]. rewrite dom_insert. set_solver. }
    { done. } { done. } { cbn [v_rf]. set_solver. } { apply log2_index; unfold s_end in *; lia. } clear R1. intros st5 R1. vnorm R1.
    vupdate R1 as st6. 
    vlast R1 as st7. rewrite u64_small in R1 by (unfold is_u64, s_end in *; lia).
    replace (s_size s - (addr - s_base s)) with (s_end s - addr) in R1 by (unfold s_end; lia).
    exists [(n, Seg false (s_base s) (addr - s_base s))]. split; [|right; exists n; split; [lia|done]].
    eexists. split; [exact R1|..]; cbn [v_segs v_list v_free v_tree app].
    + by rewrite !fmap_app.
    + rewrite Es, insert_insert_ne, ltm_update, <- ltm_insert by (try done; rewrite fst_mid, fmap_app in *; set_solver). done.
    + apply (free_is_add _ _ _ _ _ (Seg false (s_base s) (addr - s_base s))); [by rewrite fst_mid in *|congruence|done|].
      by eapply free_is_at.
    + apply tree_is_skip; [by right|by rewrite fst_mid in *|]. by eapply tree_is_at.
    + eapply (segs_ok_subst _ _ _ _ [(a, s)] [_; (a, _)]); [|exact Eo]. intros lo hi. cbn. unfold s_end in *. cbn.
      intros (C1 & C2 & C4 & C5). split_and!; try done; try lia; qdiv.
    + done.
Qed.

(** ** Taking a segment off its free list or out of the tree *)
Lemma open_free q st L1 a s L2 :
  arena q st (L1 ++ (a, s) :: L2) -> s_allocated s = false ->
  returns (vmem_flist_del st a (log2ull (s_size s))) (fun st' => arena_hole q st' (Some a) (L1 ++ (a, s) :: L2)).
Proof using cfg_ok hhdm_aligned.
  intros [v A] Hs. pose proof (arena_nodup _ _ _ _ _ A) as Hnd. apply nodup_mid in Hnd as [Ha _]. destruct A as [R El Es Ef Et Eo Hk].
  eapply returns_mono; [apply (vmem_flist_del_rep hhdm_aligned _ _ _ _ _ R); apply Ef; split; [done|]; exists s; set_solver|].
  intros st' R'. eexists. split; [exact R'|..]; cbn [v_list v_segs v_free v_tree]; try done.
  - apply free_is_skip; [by left|done|]. eapply free_is_hole; [| |eapply free_is_off; [done|exact Ef]]; [done|congruence].
  - apply tree_is_skip; [by left|done|]. eapply tree_is_hole; [| |eapply tree_is_unskip; [by right|exact Et|done]]; [done|congruence].
Qed.

Lemma tree_nodup q st v : vrep q st v -> NoDup (v_tree v).
Proof using Type. intros R. eapply (NoDup_fmap_1 tree_node), rb_rep_nodup, R. Qed.

Lemma open_tree q st L1 a s L2 :
  arena q st (L1 ++ (a, s) :: L2) -> s_allocated s = true ->
  returns (tree_remove st a) (fun st' => arena_hole q st' (Some a) (L1 ++ (a, s) :: L2)).
Proof using cfg_ok hhdm_aligned.
  intros [v A] Hs. pose proof (arena_nodup _ _ _ _ _ A) as Hnd. apply nodup_mid in Hnd as [Ha _]. destruct A as [R El Es Ef Et Eo Hk].
  assert (a ∈ v_tree v) as Hin by (apply Et; split; [done|]; exists s; set_solver).
  apply list_elem_of_split in Hin as (t1 & t2 & ET). pose proof (tree_nodup _ _ _ R) as Hnt. rewrite ET in Hnt, Et.
  eapply returns_mono; [by apply (tree_remove_rep hhdm_aligned _ _ _ _ _ _ R ET)|].
  intros st' R'. eexists. split; [exact R'|..]; cbn [v_list v_segs v_free v_tree]; try done.
  - apply free_is_skip; [by left|done|]. eapply free_is_hole; [| |eapply free_is_unskip; [by right|exact Ef|done]]; [done|congruence].
  - apply tree_is_skip; [by left|done|]. eapply tree_is_hole; [| |eapply tree_is_off; [done|done|exact Et]]; [done|congruence].
Qed.

(** The hole is outside both. *)
Lemma hole_off q st v a L : arena_at q st v (Some a) L -> v_free v !! a = None /\ (a ∉ v_tree v).
Proof using Type.
  intros A. split; [|by intros [? _]%(ar_tree _ _ _ _ _ A)].
  destruct (v_free v !! a) eqn:E; [|done]. by apply (ar_free _ _ _ _ _ A) in E as [? _].
Qed.

Lemma take_segment_ok q st L1 a s L2 size :
  arena_hole q st (Some a) (L1 ++ (a, s) :: L2) -> (q | size) -> 0 < size <= s_size s ->
  nofault (take_segment st a size) (fun '(r, st') => r = s_base s /\ exists n e M,
    arena q st' (L1 ++ (n, Seg true (s_base s) e) :: M ++ L2) /\ size <= e < size + q /\
    (e = s_size s /\ M = [] \/ e = size /\ size < s_size s /\ exists m, M = [(m, Seg false (s_base s + size) (s_size s - size))])).
Proof using cfg_ok hhdm_aligned.
  intros [v A] Hq Hb. pose proof (arena_nodup _ _ _ _ _ A) as Hnd. apply nodup_mid in Hnd as [Ha _].
  assert ((a, s) ∈ L1 ++ (a, s) :: L2) as Hin by set_solver.
  pose proof (arena_seg _ _ _ _ _ _ _ A Hin) as Hs. destruct (seg_bounds _ _ _ _ _ _ _ A Hin) as (B1 & B2 & B3 & Q1).
  unfold take_segment. pose proof (arena_new _ _ _ _ _ A) as Hnew. destruct (hole_off _ _ _ _ _ A) as [Haf Hat].
  destruct A as [R El Es Ef Et Eo Hk]. rewrite (vrep_load _ _ _ _ _ R Hs), bind_Ok.
  rewrite (vr_quantum _ _ _ R), u64_small by (unfold is_u64, s_end in *; lia).
  assert (0 < q) as Hqpos by (destruct Hk as (k & Hk & ->); apply Z.pow_pos_nonneg; lia).
  destruct (negb (s_size s =? size) && (s_size s - size >=? q)) eqn:Esplit.
  2: { assert (s_size s < size + q) as Hsmall by (destruct (Z.eqb_spec (s_size s) size), (Z.geb_spec (s_size s - size) q); cbn in Esplit; lia).
    vupdate R as st1. apply (clear_tree_node_rep hhdm_aligned _ _ _ a) in R; [|done|done]. vnorm R.
    vstep (tree_insert_rep hhdm_aligned). { exact R. } { apply lookup_insert_eq. } { done. } { done. } { cbn. set_solver. }
    clear R. intros st2 (t1 & t2 & ET & R & _ & _). vnorm R. cbn [v_tree] in ET.
    rewrite (vrep_load _ _ _ _ _ R (lookup_insert_eq _ _ _)), bind_Ok. cbn [nofault s_base].
    split; [done|]. exists a, (s_size s), []. split; [|split; [lia|by left]]. eexists. split; [exact R|..]; cbn [v_segs v_list v_free v_tree app].
    + by rewrite !fst_mid in *.
    + by rewrite Es, ltm_update.
    + apply free_is_skip; [by right|done|]. eapply free_is_hole; [| |eapply free_is_unskip; [by left|exact Ef|done]]; [congruence|done].
    + rewrite ET in Et. apply tree_is_add; [done|done|done|].
      eapply tree_is_hole; [| |eapply tree_is_unskip; [by left|exact Et|done]]; [congruence|done].
    + eapply (segs_ok_subst _ _ _ _ [(a, s)] [(a, _)]); [|exact Eo]. intros lo hi. cbn. unfold s_end. cbn. done.
    + done. }
  - apply andb_true_iff in Esplit as [_ Hle%Z.geb_le].
    eapply nofault_bind; [exact Hnew|]. intros [n st1] (Hn & Hnt & Hnf & R1). clear Hnew.
    assert (n <> a) as Hna by (intros ->; by eapply Hn, entry_in).
    vupdate R1 as st2. vupdate R1 as st3. vupdate R1 as st4. vupdate R1 as st5. vupdate R1 as st6. vupdate R1 as st7.
    rewrite !u64_small in R1 by (unfold is_u64, s_end in *; lia).
    apply (clear_freelist_node_rep hhdm_aligned _ _ _ a) in R1; [|done|done]. vnorm R1.
    vstep (list_prepend_rep hhdm_aligned).
    { exact R1. } { cbn [v_list]. rewrite El. apply fst_mid. } { cbn [v_list]. by rewrite El. }
    { cbn [v_segs]. rewrite !dom_insert. set_solver. } clear R1. intros st8 R1. vnorm R1.
    vstep (vmem_flist_add_rep hhdm_aligned). { exact R1. } { cbn [v_segs]. rewrite dom_insert. set_solver. }
    { done. } { done. } { cbn [v_rf]. set_solver. } { apply log2_index; unfold s_end in *; lia. } clear R1. intros st9 R1. vnorm R1.
    vstep (tree_insert_rep hhdm_aligned). { exact R1. } { cbn [v_segs]. rewrite lookup_insert_ne by done. apply lookup_insert_eq. }
    { cbn [v_free]. by rewrite lookup_insert_ne. } { done. } { cbn [v_rt]. set_solver. }
    clear R1. intros st10 (t1 & t2 & ET & R1 & _ & _). vnorm R1. cbn [v_tree] in ET.
    erewrite vrep_load; [|exact R1|cbn [v_segs]; rewrite lookup_insert_ne by done; apply lookup_insert_eq]. rewrite bind_Ok. cbn [nofault s_base].
    split; [done|]. exists n, size, [(a, Seg false (s_base s + size) (s_size s - size))].
    split; [|split; [lia|right; split; [done|]; split; [lia|by exists a]]]. cbn [app].
    eexists. split; [exact R1|..]; cbn [v_segs v_list v_free v_tree app].
    + by rewrite !fmap_app.
    + rewrite Es, insert_insert_ne, ltm_update, <- ltm_insert by (try done; rewrite fst_mid, fmap_app in *; set_solver). done.
    + apply free_is_skip; [by right|by rewrite fst_mid in *|].
      apply (free_is_add _ _ _ _ _ (Seg false (s_base s + size) (s_size s - size))); [done|done|done|].
      eapply free_is_hole; [| |eapply free_is_unskip; [by left|exact Ef|done]]; [congruence|done].
    + rewrite ET in Et. apply tree_is_add; [by rewrite fst_mid in *|done|done|]. apply tree_is_skip; [by right|done|].
      eapply tree_is_hole; [| |eapply tree_is_unskip; [by left|exact Et|done]]; [congruence|done].
    + eapply (segs_ok_subst _ _ _ _ [(a, s)] [_; (a, _)]); [|exact Eo]. intros lo hi. cbn. unfold s_end in *. cbn.
      intros (C1 & C2 & C4 & C5). split_and!; try done; try lia; qdiv.
    + done.
Qed.

Lemma fit_scan_ok st min max size xs : forall fuel pp,
  lseg (free_nodes st) pp xs 0 -> 0 ∉ xs -> (length xs < fuel)%nat ->
  (forall x, x ∈ xs -> is_Some (segs st !! (x - FREELIST_NODE))) ->
  exists r, fit_scan fuel st min max size (first_or 0 xs) = Ok r /\
    (r = (0, 0) /\ (forall a s, free_node a ∈ xs -> segs st !! a = Some s -> ~ takes (quantum st) min max size s) \/
     exists a s, r = (start_in (quantum st) min s, a) /\ free_node a ∈ xs /\ segs st !! a = Some s /\
       takes (quantum st) min max size s).
Proof using cfg_ok hhdm_aligned.
  induction xs as [|x xs IH]; intros fuel pp Hseg H0 Hf Hm; (destruct fuel as [|fuel]; [cbn in Hf; lia|]).
  - cbn. eexists. split; [done|]. left. split; [done|]. set_solver.
  - cbn [fit_scan first_or]. destruct (Z.eqb_spec x 0) as [->|_]; [set_solver|].
    destruct Hseg as [Hx Hseg]. destruct (Hm x ltac:(set_solver)) as [s Hs].
    rewrite (load_Ok _ _ _ Hs), bind_Ok, (load_Ok _ _ _ Hx), bind_Ok. cbn [next]. fold (start_in (quantum st) min s).
    destruct (IH fuel x Hseg ltac:(set_solver) ltac:(cbn in Hf; lia) ltac:(set_solver)) as (r & E & Hr).
    assert (Hskip : ~ takes (quantum st) min max size s -> exists r, fit_scan fuel st min max size (first_or 0 xs) = Ok r /\
      (r = (0, 0) /\ (forall a s, free_node a ∈ x :: xs -> segs st !! a = Some s -> ~ takes (quantum st) min max size s) \/
       exists a s, r = (start_in (quantum st) min s, a) /\ free_node a ∈ x :: xs /\ segs st !! a = Some s /\
         takes (quantum st) min max size s)).
    { intros Hn. exists r. split; [done|]. destruct Hr as [[-> Hr] | (a & s' & -> & Ha & Hs' & Ht)].
      - left. split; [done|]. intros a s' [<- | Ha]%elem_of_cons Hs'; [|by eapply Hr].
        unfold free_node in Hs. rewrite Z.add_simpl_r, Hs' in Hs. by injection Hs as ->.
      - right. exists a, s'. set_solver. }
    destruct (Z.ltb_spec (s_size s) size); [apply Hskip; unfold takes; lia|].
    rewrite Z.gtb_ltb. destruct (Z.ltb_spec (u64 (s_size s - size)) (u64 (start_in (quantum st) min s - s_base s))); [apply Hskip; unfold takes; lia|].
    rewrite Z.gtb_ltb. destruct (Z.eqb_spec max UINT64_MAX) as [Emax|Hmax]; cbn [negb andb].
    2: destruct (Z.ltb_spec max (u64 (start_in (quantum st) min s + size))); [apply Hskip; unfold takes; lia|].
    all: eexists; split; [done|]; right; exists (x - FREELIST_NODE), s; unfold free_node; rewrite Z.sub_add;
      split; [done|]; split; [by left|]; split; [done|]; unfold takes; lia.
Qed.

(** What a search returns: nothing, and then no free segment with the sizes
    [I] passes the tests, or a segment that does. *)
Definition found (q min max size : Z) (I : Z -> Prop) L (r : Z * Z) : Prop :=
  r = (0, 0) /\ (forall a s, (a, s) ∈ L -> s_allocated s = false -> I (log2ull (s_size s)) -> ~ takes q min max size s) \/
  exists a s, r = (start_in q min s, a) /\ a <> 0 /\ (a, s) ∈ L /\ s_allocated s = false /\ I (log2ull (s_size s)) /\ takes q min max size s.

Lemma scan_list q st v L i min max size :
  arena_at q st v None L -> 0 <= i < 64 ->
  exists l r, arr_get (freelists st) i = Ok l /\ fit_scan (list_fuel st) st min max size (head l) = Ok r /\
    found q min max size (fun j => j = i) L r.
Proof using cfg_ok hhdm_aligned.
  intros A Hi. pose proof (ar_rep _ _ _ _ _ A) as R. destruct (vr_free _ _ _ R) as [xss F].
  destruct (flists_lookup _ _ _ _ _ _ F Hi) as [xs Hxs].
  destruct (arr_get_Ok _ _ _ _ _ (fl_lists _ _ _ _ _ F) (proj1 Hi) Hxs) as (l & El & Rl).
  assert (forall a, free_node a ∈ xs <-> v_free v !! a = Some i) as Hmem.
  { intros a. rewrite (fl_mem _ _ _ _ _ F _ _ a Hxs), Z2Nat.id by lia. done. }
  assert (forall a s, free_node a ∈ xs -> segs st !! a = Some s -> (a, s) ∈ L /\ s_allocated s = false /\ log2ull (s_size s) = i) as Hin.
  { intros a s Ha Hs. apply Hmem, (ar_free _ _ _ _ _ A) in Ha as [_ (s' & Hin & Hal & ->)].
    rewrite (vr_segs _ _ _ R), (arena_seg _ _ _ _ _ _ _ A Hin) in Hs. by injection Hs as ->. }
  destruct (fit_scan_ok st min max size xs (list_fuel st) 0 (lr_seg _ _ _ Rl) (lr_nonnull _ _ _ Rl)) as (r & E & Hr).
  { unfold list_fuel. pose proof (NoDup_length_size (free_nodes st) xs (lr_nodup _ _ _ Rl)
      (fun x Hx => lseg_mapped _ _ _ _ _ (lr_seg _ _ _ Rl) Hx)). lia. }
  { intros x Hx. assert (free_node (x - FREELIST_NODE) ∈ xs) as Hx' by (unfold free_node; by rewrite Z.sub_add).
    apply Hmem, (ar_free _ _ _ _ _ A) in Hx' as [_ (s & Hs & _)]. rewrite (vr_segs _ _ _ R). eexists. by eapply arena_seg. }
  rewrite (vr_quantum _ _ _ R) in Hr. exists l, r. split; [done|]. split; [by rewrite (lr_head _ _ _ Rl)|].
  destruct Hr as [[-> Hr] | (a & s & -> & Ha & Hs & Ht)].
  - left. split; [done|]. intros a s Hs Hal <-. apply (Hr a s); [|rewrite (vr_segs _ _ _ R); by eapply arena_seg].
    apply Hmem, (ar_free _ _ _ _ _ A). split; [done|]. by exists s.
  - right. destruct (Hin a s Ha Hs) as (H1 & H2 & H3). exists a, s. split; [done|]. split; [|done].
    destruct (vrep_addr hhdm_aligned _ _ _ a R); [|lia]. apply elem_of_dom. exists s. by eapply arena_seg.
Qed.

Lemma instant_fit_ok q st v L min max size n : forall i,
  arena_at q st v None L -> 0 <= i -> i + Z.of_nat n = 64 ->
  exists a j seg, instant_fit n st min max size i = Ok (a, j, seg) /\
    found q min max size (fun j => i <= j) L (a, seg) /\
    (seg <> 0 -> exists s, (seg, s) ∈ L /\ s_allocated s = false /\ j = log2ull (s_size s)).
Proof using cfg_ok hhdm_aligned.
  induction n as [|n IH]; intros i A H0 Hn.
  - exists 0, (-1), 0. split; [done|]. split; [|done]. left. split; [done|]. intros a s Hs Hal Hi.
    destruct (seg_bounds _ _ _ _ _ _ _ A Hs) as (B1 & B2 & B3 & _). destruct (log2_index (s_size s)); unfold s_end in *; lia.
  - cbn [instant_fit]. destruct (scan_list q st v L i min max size A ltac:(lia)) as (l & r & El & Er & Hr).
    rewrite El, bind_Ok, Er, bind_Ok. destruct Hr as [[-> Hr] | (a & s & -> & Ha & Hs & Hal & Ej & Ht)].
    + destruct (IH (i + 1) A ltac:(lia) ltac:(lia)) as (a & j & seg & E & Hf & Hj). cbn [Z.eqb negb]. exists a, j, seg. split; [done|].
      split; [|done]. destruct Hf as [[E' Hf] | (a' & s' & E' & H1 & H2 & H3 & H4 & H5)].
      * left. split; [done|]. intros b t Hb Hbl Hbi. destruct (decide (log2ull (s_size t) = i)); [by eapply Hr|eapply Hf; [done|done|lia]].
      * right. exists a', s'. split_and!; try done. lia.
    + destruct (Z.eqb_spec a 0); [done|]. cbn [negb]. eexists _, _, _. split; [done|]. split.
      * right. exists a, s. split_and!; try done. lia.
      * intros _. by exists s.
Qed.

Lemma ctz_low w j : 0 <= w -> 0 <= j < COUNT_TRAILING_ZEROS w -> Z.testbit w j = false.
Proof using Type.
  unfold COUNT_TRAILING_ZEROS. intros Hw Hj. destruct (Z.eqb_spec w 0) as [->|Hne]; [apply Z.bits_0|].
  destruct (builtin_ctzll_divide w ltac:(lia)) as [z Hz]. rewrite Hz. apply Z.mul_pow2_bits_low. lia.
Qed.

Lemma ctz_range w : is_u64 w -> 0 <= COUNT_TRAILING_ZEROS w <= 64.
Proof using Type.
  unfold COUNT_TRAILING_ZEROS, is_u64. intros Hw. destruct (Z.eqb_spec w 0); [lia|]. pose proof (builtin_ctzll_nonneg w). split; [done|].
  apply (Z.pow_le_mono_r_iff 2); [lia..|]. transitivity w; [|lia]. apply Z.divide_pos_le; [lia|]. apply builtin_ctzll_divide. lia.
Qed.

Lemma high_bits b i j : is_u64 b -> 0 <= i -> i <= j < 64 -> Z.testbit (Z.land b (shl64 UINT64_MAX i)) j = Z.testbit b j.
Proof using Type.
  intros Hb Hi Hj. rewrite Z.land_spec. unfold shl64. rewrite u64_land, Z.land_spec, Z.ones_spec_low, andb_true_r by lia.
  rewrite Z.shiftl_spec by lia. change UINT64_MAX with (Z.ones 64). rewrite Z.ones_spec_low by lia. apply andb_true_r.
Qed.

(** The whole search looks at every free segment that may be large enough. *)
Lemma fit_alloc_ok q st v L size addr :
  arena_at q st v None L -> 0 < size < 2 ^ 64 ->
  exists a j seg, fit_alloc st size addr = Ok (a, j, seg) /\
    found q (ALIGN_UP addr q) (alloc_max q size addr) size (fun _ => True) L (a, seg) /\
    (seg <> 0 -> exists s, (seg, s) ∈ L /\ s_allocated s = false /\ j = log2ull (s_size s)).
Proof using cfg_ok hhdm_aligned.
  intros A Hsz. pose proof (ar_rep _ _ _ _ _ A) as R. unfold fit_alloc. rewrite (vr_quantum _ _ _ R). fold (alloc_max q size addr).
  set (min := ALIGN_UP addr q). set (max := alloc_max q size addr). rewrite MIN_min. set (index := Z.min (log2ullceil size) 63).
  set (bits := Z.land (bitmap st) (shl64 UINT64_MAX index)). destruct (vr_free _ _ _ R) as [xss F].
  pose proof (fl_u64 _ _ _ _ _ F) as Hb.
  assert (is_u64 bits) as Hbits by (apply land_is_u64; [done|apply u64_range]).
  assert (0 <= index) as Hi0.
  { unfold index, log2ullceil. destruct (Z.leb_spec size 1); [lia|]. pose proof (log2ull_nonneg (size - 1)). lia. }
  assert (forall a s, (a, s) ∈ L -> s_allocated s = false -> takes q min max size s -> index - 1 <= log2ull (s_size s)) as Hlow.
  { intros a s Hs _ [Ht _]. destruct (Z.leb_spec size 1) as [Hle|Hgt].
    - unfold index, log2ullceil. destruct (Z.leb_spec size 1); [|lia]. pose proof (log2ull_nonneg (s_size s)). lia.
    - pose proof (log2ullceil_spec size ltac:(lia)). destruct (log2ull_spec (s_size s)) as [H1 H2]; [lia|].
      assert (log2ullceil size - 1 < log2ull (s_size s) + 1); [|unfold index; lia].
      apply (Z.pow_lt_mono_r_iff 2); [lia|pose proof (log2ull_nonneg (s_size s)); lia|lia]. }
  assert (forall a s, (a, s) ∈ L -> s_allocated s = false -> log2ull (s_size s) < COUNT_TRAILING_ZEROS bits -> log2ull (s_size s) < index) as Hgap.
  { intros a s Hs Hal Hlt. destruct (Z.lt_ge_cases (log2ull (s_size s)) index) as [|Hge]; [done|]. exfalso.
    destruct (seg_bounds _ _ _ _ _ _ _ A Hs) as (B1 & B2 & B3 & _). destruct (log2_index (s_size s)) as [J1 J2]; [unfold s_end in *; lia..|].
    assert (Z.testbit bits (log2ull (s_size s)) = false) as Hz by (apply ctz_low; [apply Hbits|lia]).
    unfold bits in Hz. rewrite high_bits in Hz by (done || lia).
    assert (v_free v !! a = Some (log2ull (s_size s))) as Hf by (apply (ar_free _ _ _ _ _ A); split; [done|]; by exists s).
    destruct (flists_lookup _ _ _ _ _ _ F (conj J1 J2)) as [xs Hxs].
    pose proof (fl_mem _ _ _ _ _ F _ _ a Hxs) as Hm. pose proof (fl_bits _ _ _ _ _ F _ _ Hxs) as Hbit.
    rewrite Z2Nat.id in Hm, Hbit by lia. apply Hm in Hf. rewrite Hz in Hbit. destruct xs; [set_solver|].
    assert (false = true) by (by apply Hbit). done. }
  pose proof (ctz_range bits Hbits) as Hc.
  destruct (instant_fit_ok q st v L min max size (Z.to_nat (64 - COUNT_TRAILING_ZEROS bits)) (COUNT_TRAILING_ZEROS bits) A)
    as (a & j & seg & E & Hf & Hj); [lia..|]. rewrite E, bind_Ok. destruct Hf as [[E' Hf] | (a' & s' & E' & H1 & H2 & H3 & H4 & H5)].
  - injection E' as -> ->. cbn [Z.eqb negb]. destruct (Z.eqb_spec index 0) as [E0|Hne].
    + exists 0, (-1), 0. split; [done|]. split; [|done]. left. split; [done|]. intros b t Hb' Hbl _ Ht.
      destruct (Z.lt_ge_cases (log2ull (s_size t)) (COUNT_TRAILING_ZEROS bits)) as [Hlt|Hge]; [|by eapply Hf].
      pose proof (Hgap b t Hb' Hbl Hlt). pose proof (log2ull_nonneg (s_size t)). lia.
    + destruct (scan_list q st v L (index - 1) min max size A ltac:(unfold index in *; lia)) as (l & r & El & Er & Hr).
      rewrite El, bind_Ok, Er, bind_Ok. destruct Hr as [[-> Hr] | (b & t & -> & Hb0 & Hbt & Hal & Ej & Ht)].
      * cbn [Z.eqb negb]. exists 0, (-1), 0. split; [done|]. split; [|done]. left. split; [done|]. intros b t Hb' Hbl _ Ht.
        destruct (Z.lt_ge_cases (log2ull (s_size t)) (COUNT_TRAILING_ZEROS bits)) as [Hlt|Hge]; [|by eapply Hf].
        pose proof (Hgap b t Hb' Hbl Hlt). pose proof (Hlow b t Hb' Hbl Ht). eapply Hr; [exact Hb'|done|lia|done].
      * destruct (Z.eqb_spec b 0); [done|]. cbn [negb]. eexists _, _, _. split; [done|]. split; [|intros _; by exists t].
        right. by exists b, t.
  - injection E' as -> ->. destruct (Z.eqb_spec a' 0); [done|]. cbn [negb]. eexists _, _, _. split; [done|]. split; [|done].
    right. by exists a', s'.
Qed.




Lemma vmem_alloc_ok q st L size addr :
  arena q st L -> 0 < size -> size + (q - 1) < 2 ^ 64 -> is_u64 addr ->
  nofault (vmem_alloc st size addr) (fun '(r, st') =>
    r = 0 /\ st' = st /\ (~ (q | addr) \/ no_fit (ALIGN_UP size q) addr L) \/
    exists e L', arena q st' L' /\ alloc_done q (ALIGN_UP size q) e addr r L L').
Proof using cfg_ok hhdm_aligned.
  intros [v A] Hs0 Hsz Hu. pose proof A as [R _ _ _ _ Eo (k & Hk & Ek)]. pose proof (arena_nodup _ _ _ _ _ A) as Hnd.
  unfold vmem_alloc. rewrite (vr_quantum _ _ _ R).
  destruct (ALIGN_UP_bounds size k) as [Dz Bz]; [lia|unfold is_u64; lia|by rewrite <- Ek|]. rewrite <- Ek in Dz, Bz.
  set (sz := ALIGN_UP size q) in *.
  destruct (IS_ALIGNED addr q) eqn:Eal; cbn [negb].
  2: { cbn [nofault]. left. split; [done|]. split; [done|]. left. intros Hd. rewrite Ek in Hd, Eal.
       apply IS_ALIGNED_spec in Hd; [congruence|lia|done]. }
  assert ((q | addr)) as Hal by (rewrite Ek in Eal |- *; apply IS_ALIGNED_spec in Eal; [done|lia|done]).
  destruct (fit_alloc_ok q st v L sz addr A ltac:(lia)) as (ra & j & seg & E & Hf & Hj). rewrite E, bind_Ok.
  assert (forall a s, (a, s) ∈ L ->
    (takes q (ALIGN_UP addr q) (alloc_max q sz addr) sz s <-> fits sz addr s \/ wraps sz addr s) /\
    start_in q (ALIGN_UP addr q) s = Z.max addr (s_base s)) as Htakes.
  { intros a s Hin. destruct (seg_bounds _ _ _ _ _ _ _ A Hin) as (B1 & B2 & B3 & Q1). rewrite Ek in *.
    apply takes_spec; try done. lia. }
  destruct Hf as [[E' Hn] | (a & s & E' & Ha0 & Hin & Hfree & _ & Ht)].
  - injection E' as -> ->. cbn [Z.eqb]. cbn [nofault]. left. split; [done|]. split; [done|]. right.
    intros a s Hin Hfree Hfit. eapply Hn; [exact Hin|done|done|]. apply (Htakes a s Hin). by left.
  - injection E' as -> ->. destruct (Hj Ha0) as (s' & Hin' & _ & ->). rewrite (nodup_unique _ _ _ _ Hnd Hin' Hin) in *. clear s' Hin' Hj.
    destruct (Z.eqb_spec a 0); [done|]. destruct (Htakes a s Hin) as [Htk ->]. apply Htk in Ht.
    destruct (seg_bounds _ _ _ _ _ _ _ A Hin) as (B1 & B2 & B3 & Q1).
    destruct Ht as [Hfit | (W1 & W2 & W3)].
    2: { destruct (Z.eqb_spec addr 0); [lia|]. cbn [negb]. destruct (Z.eqb_spec (Z.max addr (s_base s)) addr); [lia|]. done. }
    set (r := Z.max addr (s_base s)).
    assert (s_base s <= r /\ r + sz <= s_end s /\ (addr <> 0 -> r = addr)) as (Hr1 & Hr2 & Hr3).
    { destruct Hfit as [F1 F2]. unfold r, s_end in *. unfold is_u64 in Hu. lia. }
    assert ((q | r)) as Hqr by (unfold r; destruct (Z.max_spec addr (s_base s)) as [[_ ->]|[_ ->]]; done).
    assert ((if negb (addr =? 0) then assert (r =? addr) else Ok tt) = Ok tt) as ->.
    { destruct (Z.eqb_spec addr 0); cbn [negb]; [done|]. rewrite Hr3 by done. by rewrite Z.eqb_refl. }
    rewrite bind_Ok. rewrite (vrep_load _ _ _ _ _ R (arena_seg _ _ _ _ _ _ _ A Hin)), bind_Ok.
    rewrite assert_true, bind_Ok by (apply Z.geb_le; destruct Hfit; lia).
    apply list_elem_of_split in Hin as (L1 & L2 & ->).
    eapply nofault_bind; [apply returns_nofault, open_free; [by exists v|done]|]. intros st1 A1.
    eapply nofault_bind; [apply left_split_ok; [exact A1|done|lia]|]. intros st2 (M1 & A2 & HM1).
    rewrite app_assoc in A2.
    eapply nofault_mono; [apply take_segment_ok; [exact A2|done|cbn; lia]|]. intros [r' st'] [-> (n' & e & M2 & A3 & He & HM2)].
    cbn [s_base s_size] in *. right. exists e, (L1 ++ (M1 ++ (n', Seg true r e) :: M2) ++ L2). split.
    + replace (L1 ++ (M1 ++ (n', Seg true r e) :: M2) ++ L2) with ((L1 ++ M1) ++ (n', Seg true r e) :: M2 ++ L2); [done|].
      by rewrite <- !app_assoc.
    + eapply cut_done; try done; [lia|..]; (destruct HM2 as [[E2 ->]|(E2 & H2 & m & ->)]); [right; lia|by left|lia|lia|left; split; [lia|done]|right; split; [lia|]].
      exists m. rewrite E2. do 3 f_equal. lia.
Qed.

(** ** Lookup *)
Lemma tree_ssorted q st v hole L :
  arena_at q st v hole L -> ssorted (vmem_segment_get_value (v_segs v)) (map tree_node (v_tree v)).
Proof using cfg_ok hhdm_aligned.
  intros A. pose proof (arena_nodup _ _ _ _ _ A) as Hnd. pose proof (ar_rep _ _ _ _ _ A) as R.
  pose proof (vr_tree _ _ _ R) as (T & _ & _ & _ & Hs). pose proof (tree_nodup _ _ _ R) as Hnt.
  assert (forall x, x ∈ v_tree v -> exists s, (x, s) ∈ L /\ vmem_segment_get_value (v_segs v) (tree_node x) = s_base s) as Hval.
  { intros x [_ (s & Hin & _)]%(ar_tree _ _ _ _ _ A). exists s. split; [done|]. apply value_seg. by eapply arena_seg. }
  revert Hnt Hs Hval. generalize (v_tree v) as t. induction t as [|x t IH]; intros Hnt Hs Hval; [constructor|].
  apply NoDup_cons in Hnt as [Hx Hnt]. inversion Hs as [|? ? Hs' HF]; subst. constructor.
  - apply IH; [done|done|]. intros y Hy. apply Hval. by right.
  - rewrite Forall_forall in *. intros z Hz. pose proof (HF z Hz) as Hle. apply list_elem_of_fmap in Hz as (y & -> & Hy).
    destruct (Hval x ltac:(by left)) as (s & Hs1 & E1), (Hval y ltac:(by right)) as (r & Hr1 & E2).
    cbn beta in *. rewrite E1, E2 in *.
    destruct (segs_apart _ _ _ _ _ _ _ _ (ar_ok _ _ _ _ _ A) Hnd Hs1 Hr1) as [[-> ->]|Hap]; [done|].
    destruct (seg_bounds _ _ _ _ _ _ _ A Hs1) as (_ & _ & P1 & _), (seg_bounds _ _ _ _ _ _ _ A Hr1) as (_ & _ & P2 & _).
    unfold s_end in *. lia.
Qed.

Lemma find_segment_ok q st L x :
  arena q st L -> is_u64 x ->
  returns (vmem_find_segment_nolock st x) (fun r =>
    r = 0 /\ ~ at_addr L x true \/
    exists s, r <> 0 /\ (r, s) ∈ L /\ s_allocated s = true /\ s_base s <= x < s_end s).
Proof using cfg_ok hhdm_aligned.
  intros [v A] Hx. pose proof (ar_rep _ _ _ _ _ A) as R. unfold vmem_find_segment_nolock. rewrite (vr_segs _ _ _ R).
  destruct (rb_search_below _ _ _ x true (vr_tree _ _ _ R) (tree_ssorted _ _ _ _ _ A)) as (l1 & l2 & El & E & H1 & H2).
  rewrite E, bind_Ok. apply fmap_app_inv in El as (t1 & t2 & -> & -> & Et). rewrite fmap_last.
  assert (forall y s, (y, s) ∈ L -> s_allocated s = true -> y ∈ t1 /\ s_base s <= x \/ x < s_base s) as Hsplit.
  { intros y s Hin Hal. assert (y ∈ v_tree v) as Hy by (apply (ar_tree _ _ _ _ _ A); split; [done|by exists s]).
    assert (vmem_segment_get_value (v_segs v) (tree_node y) = s_base s) as Ev by (apply value_seg; by eapply arena_seg).
    rewrite Et in Hy. apply elem_of_app in Hy as [Hy|Hy].
    - left. split; [done|]. specialize (H1 (tree_node y)). rewrite Ev in H1. apply H1. by apply list_elem_of_fmap_2.
    - right. specialize (H2 (tree_node y)). rewrite Ev in H2. destruct (Z.lt_ge_cases x (s_base s)); [done|]. destruct H2; [by apply list_elem_of_fmap_2|cbn; lia]. }
  destruct (last t1) as [y|] eqn:Ey; cbn [fmap option_fmap option_map default from_option id]; unfold id.
  2: { cbn [Z.eqb]. apply returns_Ok. left. split; [done|]. intros (a & s & Hin & Hr & Hal). apply last_None in Ey as ->.
       destruct (Hsplit a s Hin Hal) as [[? _]|?]; [set_solver|lia]. }
  apply last_Some in Ey as [t0 ->].
  assert (y ∈ v_tree v) as Hy by (rewrite Et; set_solver). pose proof Hy as [_ (s & Hin & Hal)]%(ar_tree _ _ _ _ _ A).
  destruct (vrep_addr hhdm_aligned _ _ _ y R) as [Hpos _]; [by apply (vr_dom_tree _ _ _ R)|].
  destruct (seg_bounds _ _ _ _ _ _ _ A Hin) as (B1 & B2 & B3 & _).
  assert (s_base s <= x) as Hsx by (destruct (Hsplit y s Hin Hal) as [[_ ?]|Hgt]; [done|];
    pose proof (H1 (tree_node y) ltac:(apply list_elem_of_fmap_2; set_solver)) as Hb;
    rewrite (value_seg _ _ _ (arena_seg _ _ _ _ _ _ _ A Hin)) in Hb; cbn in Hb; lia).
  destruct (Z.eqb_spec (tree_node y) 0) as [E0|_]; [unfold tree_node, SEGMENT_TREE_NODE in E0; lia|].
  replace (tree_node y - SEGMENT_TREE_NODE) with y by (unfold tree_node; lia).
  rewrite <- (vr_segs _ _ _ R), (vrep_load _ _ _ _ _ R (arena_seg _ _ _ _ _ _ _ A Hin)), bind_Ok.
  destruct (Z.ltb_spec x (s_base s)); [lia|]. cbn [orb]. unfold is_u64 in Hx. rewrite u64_small by (unfold is_u64; lia).
  destruct (Z.geb_spec (x - s_base s) (s_size s)) as [Hge|Hlt]; apply returns_Ok.
  - left. split; [done|]. intros (a & r & Hin' & Hr & Hal'). destruct (Hsplit a r Hin' Hal') as [[Ha _]|?]; [|lia].
    (* y is the last below x, so a is y or before it *)
    destruct (segs_apart _ _ _ _ _ _ _ _ (ar_ok _ _ _ _ _ A) (arena_nodup _ _ _ _ _ A) Hin Hin') as [[-> ->]|Hap]; [unfold s_end in Hr; lia|].
    assert (s_base r <= s_base s); [|unfold s_end in *; destruct (seg_bounds _ _ _ _ _ _ _ A Hin') as (_ & _ & P2 & _); lia].
    pose proof (vr_tree _ _ _ R) as (T & _ & _ & _ & Hso). rewrite Et in Hso.
    apply elem_of_app in Ha as [Ha|Ha%list_elem_of_singleton]; [|subst a; rewrite (nodup_unique _ _ _ _ (arena_nodup _ _ _ _ _ A) Hin Hin'); done].
    apply list_elem_of_split in Ha as (u1 & u2 & ->).
    rewrite <- !app_assoc in Hso. cbn in Hso. rewrite map_node_app in Hso.
    apply StronglySorted_app_1_r in Hso. inversion Hso as [|? ? _ HF]; subst. rewrite Forall_forall in HF.
    specialize (HF (tree_node y) ltac:(apply list_elem_of_fmap_2; set_solver)). cbn beta in HF.
    rewrite (value_seg _ _ _ (arena_seg _ _ _ _ _ _ _ A Hin)), (value_seg _ _ _ (arena_seg _ _ _ _ _ _ _ A Hin')) in HF. done.
  - right. exists s. unfold s_end. split; [lia|]. split; [done|]. split; [done|]. lia.
Qed.

(** ** Freeing *)
Lemma free_left_split_ok q st L1 a s L2 cur :
  arena_hole q st (Some a) (L1 ++ (a, s) :: L2) -> (q | cur) -> s_base s <= cur < s_end s ->
  nofault (free_left_split st a cur) (fun st' => exists M,
    arena_hole q st' (Some a) (L1 ++ M ++ (a, Seg (s_allocated s) cur (s_end s - cur)) :: L2) /\
    (cur = s_base s /\ M = [] \/ exists n, s_base s < cur /\ M = [(n, Seg true (s_base s) (cur - s_base s))])).
Proof using cfg_ok hhdm_aligned.
  intros [v A] Hq Hb. pose proof (arena_nodup _ _ _ _ _ A) as Hnd. apply nodup_mid in Hnd as [Ha _].
  assert ((a, s) ∈ L1 ++ (a, s) :: L2) as Hin by set_solver.
  pose proof (arena_seg _ _ _ _ _ _ _ A Hin) as Hs. destruct (seg_bounds _ _ _ _ _ _ _ A Hin) as (B1 & B2 & B3 & Q1).
  unfold free_left_split. pose proof (arena_new _ _ _ _ _ A) as Hnew. destruct (hole_off _ _ _ _ _ A) as [Haf Hat].
  destruct A as [R El Es Ef Et Eo Hk]. rewrite (vrep_load _ _ _ _ _ R Hs), bind_Ok.
  destruct (Z.ltb_spec (s_base s) cur) as [Hlt|Hge].
  - rewrite u64_small by (unfold is_u64, s_end in *; lia).
    eapply nofault_bind; [exact Hnew|]. intros [n st1] (Hn & Hnt & Hnf & R1). clear Hnew.
    assert (n <> a) as Hna by (intros ->; by eapply Hn, entry_in).
    vupdate R1 as st2. vupdate R1 as st3. vupdate R1 as st4. vupdate R1 as st5. vupdate R1 as st6.
    rewrite !u64_small in R1 by (unfold is_u64, s_end in *; lia).
    replace (s_size s - (cur - s_base s)) with (s_end s - cur) in R1 by (unfold s_end; lia).
    vstep (list_prepend_rep hhdm_aligned).
    { exact R1. } { cbn [v_list]. rewrite El. apply fst_mid. } { cbn [v_list]. by rewrite El. }
    { cbn [v_segs]. rewrite !dom_insert. set_solver. } clear R1. intros st7 R1. vnorm R1.
    eapply nofault_mono; [apply returns_nofault; eapply (tree_insert_rep hhdm_aligned)|].
    { exact R1. } { cbn [v_segs]. rewrite lookup_insert_ne by done. apply lookup_insert_eq. } { done. } { done. } { cbn [v_rt]. set_solver. }
    clear R1. intros st8 (t1 & t2 & ET & R1 & _ & _). vnorm R1. cbn [v_tree] in ET.
    exists [(n, Seg true (s_base s) (cur - s_base s))]. split; [|right; by exists n].
    eexists. split; [exact R1|..]; cbn [v_segs v_list v_free v_tree app].
    + by rewrite !fmap_app.
    + rewrite Es, insert_insert_ne, ltm_update, <- ltm_insert by (try done; rewrite fst_mid, fmap_app in *; set_solver). done.
    + apply free_is_skip; [by right|by rewrite fst_mid in *|]. by eapply free_is_at.
    + rewrite ET in Et. apply tree_is_add; [by rewrite fst_mid in *|congruence|done|]. by eapply tree_is_at.
    + eapply (segs_ok_subst _ _ _ _ [(a, s)] [_; (a, _)]); [|exact Eo]. intros lo hi. cbn. unfold s_end in *. cbn.
      intros (C1 & C2 & C4 & C5). split_and!; try done; try lia; qdiv.
    + done.
  - cbn [nofault]. exists []. assert (cur = s_base s) as -> by lia. split; [|left; done]. exists v. cbn [app].
    replace (Seg (s_allocated s) (s_base s) (s_end s - s_base s)) with s; [by split; eauto|].
    destruct s; cbn in *; unfold s_end in *; cbn in *. f_equal; lia.
Qed.

Lemma free_right_split_ok q st L1 a s L2 end_addr :
  arena_hole q st (Some a) (L1 ++ (a, s) :: L2) -> (q | end_addr) -> s_base s < end_addr < 2 ^ 64 ->
  nofault (free_right_split st a (s_end s) end_addr) (fun st' => exists M,
    arena_hole q st' (Some a) (L1 ++ (a, Seg (s_allocated s) (s_base s) (Z.min (s_end s) end_addr - s_base s)) :: M ++ L2) /\
    (s_end s <= end_addr /\ M = [] \/ end_addr < s_end s /\ exists n, M = [(n, Seg true end_addr (s_end s - end_addr))])).
Proof using cfg_ok hhdm_aligned.
  intros [v A] Hq Hb. pose proof (arena_nodup _ _ _ _ _ A) as Hnd. apply nodup_mid in Hnd as [Ha _].
  assert ((a, s) ∈ L1 ++ (a, s) :: L2) as Hin by set_solver.
  pose proof (arena_seg _ _ _ _ _ _ _ A Hin) as Hs. destruct (seg_bounds _ _ _ _ _ _ _ A Hin) as (B1 & B2 & B3 & Q1).
  unfold free_right_split. pose proof (arena_new _ _ _ _ _ A) as Hnew. destruct (hole_off _ _ _ _ _ A) as [Haf Hat].
  destruct A as [R El Es Ef Et Eo Hk].
  rewrite Z.gtb_ltb. destruct (Z.ltb_spec end_addr (s_end s)) as [Hlt|Hge].
  - rewrite Z.min_r by lia. rewrite (u64_small (s_end s - end_addr)) by (unfold is_u64, s_end in *; lia).
    eapply nofault_bind; [exact Hnew|]. intros [n st1] (Hn & Hnt & Hnf & R1). clear Hnew.
    assert (n <> a) as Hna by (intros ->; by eapply Hn, entry_in).
    vupdate R1 as st2. vupdate R1 as st3. vupdate R1 as st4. vupdate R1 as st5.
    rewrite !u64_small in R1 by (unfold is_u64, s_end in *; lia).
    vstep (list_append_rep hhdm_aligned).
    { exact R1. } { cbn [v_list]. rewrite El. apply fst_mid. } { cbn [v_list]. by rewrite El. }
    { cbn [v_segs]. rewrite !dom_insert. set_solver. } clear R1. intros st6 R1. vnorm R1.
    eapply nofault_mono; [apply returns_nofault; eapply (tree_insert_rep hhdm_aligned)|].
    { exact R1. } { cbn [v_segs]. rewrite lookup_insert_ne by done. apply lookup_insert_eq. } { done. } { done. } { cbn [v_rt]. set_solver. }
    clear R1. intros st7 (t1 & t2 & ET & R1 & _ & _). vnorm R1. cbn [v_tree] in ET.
    exists [(n, Seg true end_addr (s_end s - end_addr))]. split; [|right; split; [done|by exists n]].
    assert (forall s', L1 ++ (a, s') :: [(n, Seg true end_addr (s_end s - end_addr))] ++ L2 = (L1 ++ [(a, s')]) ++ (n, Seg true end_addr (s_end s - end_addr)) :: L2) as Eapp
      by (intros s'; by rewrite <- app_assoc).
    assert (forall s', n ∉ ((L1 ++ [(a, s')]) ++ L2).*1) as Hn' by (intros s'; rewrite <- app_assoc; cbn [app]; by rewrite fst_mid in *).
    rewrite Eapp. eexists. split; [exact R1|..]; cbn [v_segs v_list v_free v_tree app].
    + rewrite !fmap_app, <- app_assoc. done.
    + rewrite Es, insert_insert_ne, ltm_update by done. etrans; [|symmetry; by apply ltm_insert]. by rewrite <- app_assoc.
    + apply free_is_skip; [by right|done|]. rewrite <- app_assoc. by eapply free_is_at.
    + rewrite ET in Et. apply tree_is_add; [done|congruence|done|]. rewrite <- app_assoc. by eapply tree_is_at.
    + rewrite <- app_assoc. eapply (segs_ok_subst _ _ _ _ [(a, s)] [(a, _); _]); [|exact Eo]. intros lo hi. cbn. unfold s_end in *. cbn.
      intros (C1 & C2 & C4 & C5). split_and!; try done; try lia; qdiv.
    + done.
  - cbn [nofault]. exists []. split; [|left; done]. exists v. cbn [app]. rewrite Z.min_l by lia.
    replace (Seg (s_allocated s) (s_base s) (s_end s - s_base s)) with s; [by split; eauto|].
    destruct s; cbn in *; unfold s_end in *; cbn in *. f_equal; lia.
Qed.

(** The list neighbours of a segment. *)
Lemma list_node_at q st v hole L1 a s L2 :
  arena_at q st v hole (L1 ++ (a, s) :: L2) ->
  list_nodes st !! list_node a = Some (LNode (first_or 0 (map list_node L2.*1)) (last_or 0 (map list_node L1.*1))).
Proof using cfg_ok hhdm_aligned.
  intros [R El _ _ _ _ _]. pose proof (lr_seg _ _ _ (vr_list _ _ _ R)) as H. rewrite El, fst_mid, map_node_app in H.
  by apply lseg_mid in H.
Qed.

Lemma left_coalesce_ok q st L1 a s L2 :
  arena_hole q st (Some a) (L1 ++ (a, s) :: L2) ->
  returns (left_coalesce st a) (fun st' => exists K s', arena_hole q st' (Some a) (K ++ (a, s') :: L2) /\
    (K = L1 /\ s' = s /\ (forall p sp, (p, sp) ∈ L1 -> s_allocated sp = false -> s_end sp <> s_base s) \/
     exists p sp, L1 = K ++ [(p, sp)] /\ s_allocated sp = false /\ s_end sp = s_base s /\
       s' = Seg (s_allocated s) (s_base sp) (s_size s + s_size sp))).
Proof using cfg_ok hhdm_aligned.
  intros [v A]. pose proof (arena_nodup _ _ _ _ _ A) as Hnd.
  assert ((a, s) ∈ L1 ++ (a, s) :: L2) as Hin by set_solver.
  unfold left_coalesce. fold (list_node a). rewrite (load_Ok _ _ _ (list_node_at _ _ _ _ _ _ _ _ A)), bind_Ok. cbn [prev].
  destruct L1 as [|[p sp] L0 _] using rev_ind.
  { cbn. apply returns_Ok. exists [], s. split; [by exists v|]. left. split; [done|]. split; [done|]. set_solver. }
  rewrite fmap_app, map_app, last_or_app. cbn [fmap list_fmap map last_or fst]. rewrite <- app_assoc in *. cbn [app] in *.
  assert ((p, sp) ∈ L0 ++ (p, sp) :: (a, s) :: L2) as Hp by set_solver.
  destruct (seg_bounds _ _ _ _ _ _ _ A Hin) as (B1 & B2 & B3 & Q1).
  destruct (seg_bounds _ _ _ _ _ _ _ A Hp) as (C1 & C2 & C3 & P1).
  pose proof (arena_seg _ _ _ _ _ _ _ A Hin) as Hs. pose proof (arena_seg _ _ _ _ _ _ _ A Hp) as Hsp.
  destruct (prev_apart _ _ _ _ _ _ _ _ _ (ar_ok _ _ _ _ _ A)) as [Hap Hall].
  pose proof (ar_rep _ _ _ _ _ A) as R.
  destruct (vrep_addr hhdm_aligned _ _ _ p R) as [Hpos _]; [by eapply elem_of_dom_2|].
  destruct (Z.eqb_spec (list_node p) 0) as [E0|_]; [unfold list_node, SEGMENT_LIST_NODE in E0; lia|].
  replace (list_node p - SEGMENT_LIST_NODE) with p by (unfold list_node; lia).
  rewrite (vrep_load _ _ _ _ _ R Hsp), bind_Ok, (vrep_load _ _ _ _ _ R Hs), bind_Ok.
  rewrite u64_small by (unfold is_u64, s_end in *; lia). fold (s_end sp).
  destruct (s_allocated sp) eqn:Eal; [|destruct (Z.eqb_spec (s_end sp) (s_base s)) as [Ee|Hne]]; cbn [negb andb].
  - apply returns_Ok. exists (L0 ++ [(p, sp)]), s. rewrite <- app_assoc. split; [by exists v|]. left. split; [done|]. split; [done|].
    intros b r [Hb|Hb%list_elem_of_singleton]%elem_of_app Hr; [|injection Hb as -> ->; congruence].
    pose proof (Hall b r Hb). unfold s_end in *. lia.
  - destruct (nodup_mid _ _ _ _ Hnd) as [Hpn Hnd']. destruct (nodup_mid _ _ _ _ Hnd') as [Han _].
    assert (p <> a) as Hpa by (rewrite fst_mid in Hpn; set_solver).
    assert (a ∉ ((L0 ++ [(p, sp)]) ++ L2).*1) as Han' by (rewrite <- app_assoc; cbn [app]; rewrite fst_mid, fmap_app in *; set_solver).
    destruct (hole_off _ _ _ _ _ A) as [Haf Hat].
    destruct A as [_ El Es Ef Et Eo Hk].
    assert (v_free v !! p = Some (log2ull (s_size sp))) as Hf by (apply Ef; split; [congruence|by exists sp]).
    assert (p ∉ v_tree v) as Hpt.
    { intros [_ (r & Hr & Hr')]%Et. rewrite (nodup_unique _ _ _ _ Hnd Hr Hp) in Hr'. congruence. }
    eapply returns_bind; [by eapply (vmem_flist_del_rep hhdm_aligned)|]. intros st1 R1. vnorm R1.
    eapply returns_bind; [eapply (list_delete_rep hhdm_aligned); [exact R1|cbn [v_list]; rewrite El; apply fst_mid]|]. clear R1. intros st2 R1. vnorm R1.
    eapply returns_bind; [eapply (update_seg_rep hhdm_aligned); [exact R1|exact Hs|done]|]. clear R1. intros st3 R1. vnorm R1.
    eapply returns_bind; [eapply (update_seg_rep hhdm_aligned); [exact R1|apply lookup_insert_eq|done]|]. clear R1. intros st4 R1. vnorm R1.
    rewrite u64_small in R1 by (unfold is_u64, s_end in *; lia).
    eapply returns_mono; [eapply (release_segment_rep hhdm_aligned); [exact R1|..]|]; cbn [v_segs v_list v_free v_tree].
    { rewrite dom_insert. apply elem_of_union. right. by eapply elem_of_dom_2. }
    { rewrite <- fmap_app. done. } { rewrite dom_delete. set_solver. } { done. }
    clear R1. intros st5 R1. vnorm R1.
    exists L0, (Seg (s_allocated s) (s_base sp) (s_size s + s_size sp)). split; [|right; by exists p, sp].
    eexists. split; [exact R1|..]; cbn [v_segs v_list v_free v_tree].
    + by rewrite fst_mid.
    + rewrite Es. change (L0 ++ (p, sp) :: (a, s) :: L2) with (L0 ++ [(p, sp)] ++ (a, s) :: L2). rewrite app_assoc, ltm_update by done.
      rewrite <- app_assoc. cbn [app]. apply ltm_delete. by rewrite fst_mid in *.
    + eapply free_is_at; [done|]. by eapply free_is_off.
    + eapply tree_is_at; [done|]. eapply tree_is_unskip; [right; exact Eal|exact Et|done].
    + eapply (segs_ok_subst _ _ _ _ [(p, sp); (a, s)] [(a, _)]); [|exact Eo]. intros lo hi. cbn. unfold s_end in *. cbn.
      intros (D1 & D2 & D4 & D5 & D6 & D8 & D9). split_and!; try done; try lia; qdiv.
    + done.
  - apply returns_Ok. exists (L0 ++ [(p, sp)]), s. rewrite <- app_assoc. split; [by exists v|]. left. split; [done|]. split; [done|].
    intros b r [Hb|Hb%list_elem_of_singleton]%elem_of_app Hr; [|injection Hb as -> ->; congruence].
    pose proof (Hall b r Hb). unfold s_end in *. lia.
Qed.

Lemma right_coalesce_ok q st L1 a s L2 :
  arena_hole q st (Some a) (L1 ++ (a, s) :: L2) -> s_end s < 2 ^ 64 ->
  returns (right_coalesce st a) (fun st' => exists K s', arena_hole q st' (Some a) (L1 ++ (a, s') :: K) /\
    (K = L2 /\ s' = s /\ (forall p sp, (p, sp) ∈ L2 -> s_allocated sp = false -> s_end s <> s_base sp) \/
     exists p sp, L2 = (p, sp) :: K /\ s_allocated sp = false /\ s_end s = s_base sp /\
       s' = Seg (s_allocated s) (s_base s) (s_size s + s_size sp))).
Proof using cfg_ok hhdm_aligned.
  intros [v A] Htop. pose proof (arena_nodup _ _ _ _ _ A) as Hnd.
  assert ((a, s) ∈ L1 ++ (a, s) :: L2) as Hin by set_solver.
  unfold right_coalesce. fold (list_node a). rewrite (load_Ok _ _ _ (list_node_at _ _ _ _ _ _ _ _ A)), bind_Ok. cbn [next].
  destruct L2 as [|[p sp] L2].
  { cbn. apply returns_Ok. exists [], s. split; [by exists v|]. left. split; [done|]. split; [done|]. set_solver. }
  cbn [fmap list_fmap map first_or fst].
  assert ((p, sp) ∈ L1 ++ (a, s) :: (p, sp) :: L2) as Hp by set_solver.
  destruct (seg_bounds _ _ _ _ _ _ _ A Hin) as (B1 & B2 & B3 & Q1).
  destruct (seg_bounds _ _ _ _ _ _ _ A Hp) as (C1 & C2 & C3 & P1).
  pose proof (arena_seg _ _ _ _ _ _ _ A Hin) as Hs. pose proof (arena_seg _ _ _ _ _ _ _ A Hp) as Hsp.
  pose proof (segs_ok_lt _ _ _ _ _ _ _ p sp (ar_ok _ _ _ _ _ A) ltac:(by left)) as Hap.
  assert (forall b r, (b, r) ∈ L2 -> s_end sp <= s_base r) as Hall.
  { intros b r Hb. pose proof (ar_ok _ _ _ _ _ A) as Ho. change (L1 ++ (a, s) :: (p, sp) :: L2) with (L1 ++ [(a, s)] ++ (p, sp) :: L2) in Ho.
    rewrite app_assoc in Ho. apply (segs_ok_lt _ _ _ _ _ _ _ b r Ho Hb). }
  pose proof (ar_rep _ _ _ _ _ A) as R.
  destruct (vrep_addr hhdm_aligned _ _ _ p R) as [Hpos _]; [by eapply elem_of_dom_2|].
  destruct (Z.eqb_spec (list_node p) 0) as [E0|_]; [unfold list_node, SEGMENT_LIST_NODE in E0; lia|].
  replace (list_node p - SEGMENT_LIST_NODE) with p by (unfold list_node; lia).
  rewrite (vrep_load _ _ _ _ _ R Hsp), bind_Ok, (vrep_load _ _ _ _ _ R Hs), bind_Ok.
  rewrite u64_small by (unfold is_u64, s_end in *; lia). fold (s_end s).
  assert (forall b r, (b, r) ∈ (p, sp) :: L2 -> s_allocated r = false -> s_allocated sp = true \/ s_end s <> s_base sp -> s_end s <> s_base r) as Hkeep.
  { intros b r [Hb|Hb]%elem_of_cons Hr Hc; [injection Hb as -> ->; destruct Hc; congruence|].
    pose proof (Hall b r Hb). unfold s_end in *. lia. }
  destruct (s_allocated sp) eqn:Eal; [|destruct (Z.eqb_spec (s_end s) (s_base sp)) as [Ee|Hne]]; cbn [negb andb].
  - apply returns_Ok. exists ((p, sp) :: L2), s. split; [by exists v|]. left. split; [done|]. split; [done|]. intros b r Hb Hr. eauto.
  - change (L1 ++ (a, s) :: (p, sp) :: L2) with (L1 ++ [(a, s)] ++ (p, sp) :: L2) in *. rewrite app_assoc in *.
    destruct (nodup_mid _ _ _ _ Hnd) as [Hpn Hnd']. rewrite <- app_assoc in Hnd'. destruct (nodup_mid _ _ _ _ Hnd') as [Han _].
    assert (p <> a) as Hpa by (rewrite !fmap_app in Hpn; set_solver).
    assert (a ∉ (L1 ++ (p, sp) :: L2).*1) as Han' by (rewrite fst_mid, fmap_app in *; set_solver).
    destruct (hole_off _ _ _ _ _ A) as [Haf Hat].
    destruct A as [_ El Es Ef Et Eo Hk].
    assert (v_free v !! p = Some (log2ull (s_size sp))) as Hf by (apply Ef; split; [congruence|by exists sp]).
    assert (p ∉ v_tree v) as Hpt.
    { intros [_ (r & Hr & Hr')]%Et. rewrite (nodup_unique _ _ _ _ Hnd Hr Hp) in Hr'. congruence. }
    eapply returns_bind; [by eapply (vmem_flist_del_rep hhdm_aligned)|]. intros st1 R1. vnorm R1.
    eapply returns_bind; [eapply (list_delete_rep hhdm_aligned); [exact R1|cbn [v_list]; rewrite El; apply fst_mid]|]. clear R1. intros st2 R1. vnorm R1.
    eapply returns_bind; [eapply (update_seg_rep hhdm_aligned); [exact R1|exact Hs|done]|]. clear R1. intros st3 R1. vnorm R1.
    rewrite u64_small in R1 by (unfold is_u64, s_end in *; lia).
    eapply returns_mono; [eapply (release_segment_rep hhdm_aligned); [exact R1|..]|]; cbn [v_segs v_list v_free v_tree].
    { rewrite dom_insert. apply elem_of_union. right. by eapply elem_of_dom_2. }
    { rewrite <- fmap_app. done. } { rewrite dom_delete. set_solver. } { done. }
    clear R1. intros st5 R1. vnorm R1.
    exists L2, (Seg (s_allocated s) (s_base s) (s_size s + s_size sp)). split; [|right; by exists p, sp].
    rewrite <- app_assoc in Ef, Et, Eo, Es. cbn [app] in Ef, Et, Eo, Es.
    eexists. split; [exact R1|..]; cbn [v_segs v_list v_free v_tree].
    + rewrite <- fmap_app, <- app_assoc. cbn [app]. by rewrite !fst_mid.
    + rewrite Es, ltm_update by done.
      assert (forall x, L1 ++ (a, x) :: (p, sp) :: L2 = (L1 ++ [(a, x)]) ++ (p, sp) :: L2) as -> by (intros; by rewrite <- app_assoc).
      rewrite ltm_delete, <- app_assoc; [done|].
      rewrite <- app_assoc in *. cbn [app] in *. by rewrite fst_mid in *.
    + apply (free_is_at _ _ s); [done|]. change ((a, s) :: L2) with ([(a, s)] ++ L2). rewrite app_assoc.
      eapply free_is_off; [done|]. rewrite <- app_assoc. exact Ef.
    + apply (tree_is_at _ _ s); [done|]. change ((a, s) :: L2) with ([(a, s)] ++ L2). rewrite app_assoc.
      eapply tree_is_unskip; [right; exact Eal|rewrite <- app_assoc; exact Et|done].
    + eapply (segs_ok_subst _ _ _ _ [(a, s); (p, sp)] [(a, _)]); [|exact Eo]. intros lo hi. cbn. unfold s_end in *. cbn.
      intros (D1 & D2 & D4 & D5 & D6 & D8 & D9). split_and!; try done; try lia; qdiv.
    + done.
  - apply returns_Ok. exists ((p, sp) :: L2), s. split; [by exists v|]. left. split; [done|]. split; [done|]. intros b r Hb Hr. eauto.
Qed.

(** The flag of the segment at hand, and its way back to a free list. *)
Lemma set_allocated_ok q st L1 a s L2 b :
  arena_hole q st (Some a) (L1 ++ (a, s) :: L2) ->
  returns (update_seg st a (set_allocated b)) (fun st' =>
    arena_hole q st' (Some a) (L1 ++ (a, Seg b (s_base s) (s_size s)) :: L2)).
Proof using cfg_ok hhdm_aligned.
  intros [v A]. pose proof (arena_nodup _ _ _ _ _ A) as Hnd. apply nodup_mid in Hnd as [Ha _].
  assert ((a, s) ∈ L1 ++ (a, s) :: L2) as Hin by set_solver. pose proof (arena_seg _ _ _ _ _ _ _ A Hin) as Hs. destruct (hole_off _ _ _ _ _ A) as [Haf Hat].
  destruct A as [R El Es Ef Et Eo Hk]. eapply returns_mono; [by eapply (update_seg_rep hhdm_aligned)|]. intros st' R'. vnorm R'.
  eexists. split; [exact R'|..]; cbn [v_segs v_list v_free v_tree].
  - by rewrite fst_mid in *.
  - by rewrite Es, ltm_update.
  - by eapply free_is_at.
  - by eapply tree_is_at.
  - eapply (segs_ok_subst _ _ _ _ [(a, s)] [(a, _)]); [|exact Eo]. done.
  - done.
Qed.

Lemma close_free q st L1 a s L2 :
  arena_hole q st (Some a) (L1 ++ (a, s) :: L2) -> s_allocated s = false ->
  returns (vmem_flist_add (clear_freelist_node st a) a (log2ull (s_size s))) (fun st' => arena q st' (L1 ++ (a, s) :: L2)).
Proof using cfg_ok hhdm_aligned.
  intros [v A] Hs. pose proof (arena_nodup _ _ _ _ _ A) as Hnd. apply nodup_mid in Hnd as [Ha _].
  assert ((a, s) ∈ L1 ++ (a, s) :: L2) as Hin by set_solver. destruct (seg_bounds _ _ _ _ _ _ _ A Hin) as (B1 & B2 & B3 & Q1).
  pose proof (arena_seg _ _ _ _ _ _ _ A Hin) as Hseg. destruct (hole_off _ _ _ _ _ A) as [Haf Hat].
  destruct A as [R El Es Ef Et Eo Hk]. apply (clear_freelist_node_rep hhdm_aligned _ _ _ a) in R; [|done|done].
  eapply returns_mono; [eapply (vmem_flist_add_rep hhdm_aligned); [exact R|..]|]; cbn [v_segs v_list v_free v_tree v_rf].
  { by eapply elem_of_dom_2. } { done. } { done. } { set_solver. } { apply log2_index; unfold s_end in *; lia. }
  intros st' R'. vnorm R'. eexists. split; [exact R'|..]; cbn [v_segs v_list v_free v_tree]; try done.
  - apply (free_is_add _ _ _ _ _ s); [done|done|done|]. eapply free_is_hole; [| |eapply free_is_unskip; [by left|exact Ef|done]]; [congruence|done].
  - apply tree_is_skip; [by right|done|]. eapply tree_is_hole; [| |eapply tree_is_unskip; [by left|exact Et|done]]; [congruence|done].
Qed.

Lemma arena_at_nodup q st hole L : arena_hole q st hole L -> NoDup L.*1 /\ segs_ok q 1 (2 ^ 64) L.
Proof using Type. intros [v A]. split; [by eapply arena_nodup|apply A]. Qed.

Record free_step (cur stop : Z) L L' : Prop := {
  fs_range : range_set L L' cur stop false;
  fs_coalesced : coalesced L -> coalesced L';
  fs_pieces : pieces L' L;
}.

Lemma free_segment_ok q st L1 a s L2 cur end_addr :
  arena q st (L1 ++ (a, s) :: L2) -> s_allocated s = true -> (q | cur) -> (q | end_addr) ->
  s_base s <= cur < s_end s -> s_end s < 2 ^ 64 -> cur < end_addr < 2 ^ 64 ->
  nofault (free_segment st a (s_end s) cur end_addr) (fun st' => exists L', arena q st' L' /\
    free_step cur (Z.min (s_end s) end_addr) (L1 ++ (a, s) :: L2) L' /\
    (s_end s <= end_addr -> (length (filter (ahead (s_end s)) L') < length (filter (ahead cur) (L1 ++ (a, s) :: L2)))%nat)).
Proof using cfg_ok hhdm_aligned.
  intros A0 Hs Hq Hqe Hb Ht He. pose proof A0 as [v A]. pose proof (arena_nodup _ _ _ _ _ A) as Hnd.
  pose proof (ar_ok _ _ _ _ _ A) as Hok. assert ((a, s) ∈ L1 ++ (a, s) :: L2) as Hin by set_solver.
  unfold free_segment. eapply nofault_bind; [by apply returns_nofault, open_tree|]. intros st1 A1.
  eapply nofault_bind; [apply free_left_split_ok; [exact A1|done|done]|]. intros st2 (M1 & A2 & HM1).
  rewrite app_assoc in A2.
  assert (s_end (Seg (s_allocated s) cur (s_end s - cur)) = s_end s) as Ee by (unfold s_end; cbn; lia).
  pose proof (free_right_split_ok _ _ _ _ _ _ end_addr A2 Hqe) as Hright. rewrite Ee in Hright. cbn [s_base s_allocated] in Hright.
  eapply nofault_bind; [apply Hright; lia|]. clear Hright. intros st3 (M2 & A3 & HM2).
  eapply nofault_bind; [apply returns_nofault, set_allocated_ok; exact A3|]. intros st4 A4. cbn [s_base s_size] in A4.
  set (stop := Z.min (s_end s) end_addr) in *. set (mid := Seg false cur (stop - cur)) in *.
  (* the list after the cuts, in terms of addresses *)
  assert (range_set (L1 ++ (a, s) :: L2) (L1 ++ (M1 ++ (a, mid) :: M2) ++ L2) cur stop false) as Hrange.
  { eapply range_set_mid; [done|done|lia|lia|]. intros x c. rewrite at_addr_app, at_addr_cons, Hs.
    unfold mid, stop in *. unfold s_end at 1. cbn [s_allocated s_base s_size].
    destruct HM1 as [[E1 ->] | (m1 & H1 & ->)]; destruct HM2 as [[E2 ->] | (H2 & m2 & ->)];
      rewrite ?at_addr_cons; unfold s_end in *; cbn [s_base s_size s_allocated] in *;
      pose proof (at_addr_nil x c); (case_bool_decide; [|assert (x < cur \/ Z.min (s_base s + s_size s) end_addr <= x) by lia]);
      intuition (subst; try lia; try done). }
  destruct (arena_at_nodup _ _ _ _ A4) as [Hnd4 Hok4].
  eapply nofault_bind; [apply returns_nofault, left_coalesce_ok; exact A4|]. intros st5 (K1 & s5 & A5 & HK1).
  assert (s_end s5 = stop /\ s_allocated s5 = false /\ 0 < s_size s5) as (Es5 & Ea5 & Ep5).
  { destruct HK1 as [(_ & -> & _)|(p & sp & EL & Hsp & Eb & ->)]; unfold mid, s_end; cbn [s_base s_size s_allocated]; (split; [|split]); try done; try lia.
    - unfold s_end, mid in Eb. cbn in Eb. lia.
    - assert ((p, sp) ∈ (L1 ++ M1) ++ (a, mid) :: M2 ++ L2) as Hp by (rewrite EL; set_solver).
      destruct (segs_ok_bounds _ _ _ _ _ _ Hok4 Hp) as (_ & _ & ? & _). lia. }
  eapply nofault_bind; [apply returns_nofault, right_coalesce_ok; [exact A5|unfold stop in *; lia]|]. intros st6 (K2 & s6 & A6 & HK2).
  assert (s_allocated s6 = false) as Ea6 by (by destruct HK2 as [(_ & -> & _)|(p & sp & EL & Hsp & Eb & ->)]).
  assert ((a, s6) ∈ K1 ++ (a, s6) :: K2) as Hin6 by set_solver.
  destruct (arena_at_nodup _ _ _ _ A6) as [Hnd6 Hok6]. destruct (segs_ok_bounds _ _ _ _ _ _ Hok6 Hin6) as (C1 & C2 & C3 & _).
  destruct A6 as [v6 A6]. rewrite (vrep_load _ _ _ _ _ (ar_rep _ _ _ _ _ A6) (arena_seg _ _ _ _ _ _ _ A6 Hin6)), bind_Ok.
  rewrite assert_true, bind_Ok by (destruct (Z.eqb_spec (s_size s6) 0); [lia|done]).
  eapply nofault_mono; [apply returns_nofault, close_free; [by exists v6|done]|]. intros st7 A7.
  exists (K1 ++ (a, s6) :: K2). split; [done|].
  change (merged_left (L1 ++ M1) mid K1 s5) in HK1. change (merged_right (M2 ++ L2) s5 K2 s6) in HK2.
  destruct (merged_sub _ _ _ _ _ _ _ HK1 HK2) as [S1 S2].
  assert (forall b t, (b, t) ∈ M1 ++ M2 -> s_allocated t = true /\ s_base s <= s_base t /\ s_end t <= s_end s) as HM.
  { intros b t [Hm|Hm]%elem_of_app.
    - destruct HM1 as [[_ ->]|(n & Hn & ->)]; [set_solver|]. apply list_elem_of_singleton in Hm. injection Hm as -> ->. unfold s_end in *. cbn. lia.
    - destruct HM2 as [[_ ->]|(Hn & n & ->)]; [set_solver|]. apply list_elem_of_singleton in Hm. injection Hm as -> ->. unfold s_end in *. cbn. lia. }
  split; [split|].
  - intros x c. rewrite <- (merged_same q _ _ _ _ _ _ _ _ x c Hok4 eq_refl HK1 HK2), <- (Hrange x c). by rewrite <- !app_assoc.
  - intros HC. eapply merged_coalesced; [exact HC|exact Hok6| |exact HK1|exact HK2].
    intros b t Hbt Hf. rewrite !elem_of_app in Hbt. destruct Hbt as [[?|Hm]|[Hm|?]]; [set_solver| | |set_solver];
      destruct (HM b t) as [? _]; [set_solver|congruence|set_solver|congruence].
  - intros b t Hbt Hal. assert ((b, t) ∈ (L1 ++ M1) ++ M2 ++ L2) as Hbt'.
    { apply elem_of_app in Hbt as [Hbt|[Hbt|Hbt]%elem_of_cons]; [set_solver| |set_solver]. injection Hbt as -> ->. congruence. }
    rewrite !elem_of_app in Hbt'. destruct Hbt' as [[?|Hm]|[Hm|?]].
    1, 4: exists b, t; split; [set_solver|]; split; [done|]; lia.
    all: exists a, s; split; [done|]; split; [done|]; apply (HM b t); set_solver.
  - intros Hle. rewrite (merged_ahead (s_end s) _ _ mid _ _ _ _ _ eq_refl HK1 HK2). destruct HM2 as [[_ ->]|[? _]]; [|lia].
    rewrite !filter_app, filter_cons_True by (split; cbn; [done|lia]). rewrite !length_app. cbn [length].
    assert (filter (ahead (s_end s)) M1 = []) as ->.
    { destruct HM1 as [[_ ->]|(n & Hn & ->)]; [done|]. rewrite filter_cons_False; [done|]. intros [_ H]. unfold s_end in *. cbn in H. lia. }
    pose proof (ahead_mono L1 cur (s_end s) ltac:(lia)). pose proof (ahead_mono L2 cur (s_end s) ltac:(lia)). rewrite filter_nil. cbn [length]. lia.
Qed.

Lemma free_loop_ok q end_addr fuel : forall st L cur,
  arena q st L -> (at_addr L cur true -> (q | cur)) -> (q | end_addr) -> 0 <= cur <= end_addr -> end_addr < 2 ^ 64 -> below_top end_addr L ->
  (0 < fuel)%nat -> (cur < end_addr -> (length (filter (ahead cur) L) + 1 < fuel)%nat) ->
  nofault (free_loop fuel st cur end_addr) (fun st' => exists stop L', arena q st' L' /\ freed cur end_addr stop L L').
Proof using cfg_ok hhdm_aligned.
  induction fuel as [|fuel IH]; intros st L cur A Hq Hqe Hc He Htop H0 Hf; [lia|]. cbn [free_loop].
  destruct (Z.ltb_spec cur end_addr) as [Hlt|Hge].
  2: { cbn. exists cur, L. split; [done|]. apply freed_none; [lia|]. left. lia. }
  eapply nofault_bind; [apply returns_nofault; eapply find_segment_ok; [exact A|unfold is_u64; lia]|].
  intros r [[-> Hn]|(s & Hr & Hin & Hal & Hb)].
  { cbn. exists cur, L. split; [done|]. apply freed_none; [lia|]. by right. }
  destruct (Z.eqb_spec r 0); [done|]. pose proof A as [v A']. pose proof (ar_rep _ _ _ _ _ A') as R.
  destruct (seg_bounds _ _ _ _ _ _ _ A' Hin) as (B1 & B2 & B3 & Q1).
  pose proof (Htop r s Hin Hal ltac:(lia)) as Hend. assert (q | cur) as Hqc by (apply Hq; exists r, s; auto).
  rewrite (vrep_load _ _ _ _ _ R (arena_seg _ _ _ _ _ _ _ A' Hin)), bind_Ok, Hal. cbn [negb]. fold (s_end s).
  rewrite u64_small by (unfold is_u64, s_end in *; lia). specialize (Hf Hlt).
  apply list_elem_of_split in Hin as (L1 & L2 & ->).
  eapply nofault_bind; [apply free_segment_ok; [exact A|done|done|done|done|done|lia]|]. intros st1 (L' & A1 & [F1 F2 F3] & Hcnt).
  rewrite MIN_min. set (mid := Z.min (s_end s) end_addr) in *.
  eapply nofault_mono; [apply IH|].
  - exact A1.
  - intros Hm. unfold mid in *. destruct (Z.min_spec (s_end s) end_addr) as [[Hme Em]|[_ ->]]; [|done]. rewrite Em in *.
    apply (F1 _ true) in Hm as [[? ?]|[_ (b & t & Hbt & Hbr & Hba)]]; [lia|].
    destruct (arena_at_nodup _ _ _ _ A) as [Hnd Hok]. destruct (segs_ok_bounds _ _ _ _ _ _ Hok Hbt) as (_ & _ & _ & Hqb).
    assert ((r, s) ∈ L1 ++ (r, s) :: L2) as Hin by set_solver.
    destruct (segs_apart _ _ _ _ _ _ _ _ Hok Hnd Hin Hbt) as [[-> ->]|Hap]; [lia|].
    assert (s_base t = s_end s) as <- by (unfold s_end in *; lia). done.
  - done.
  - lia.
  - done.
  - intros b t Hb' Ht' Hlt'. destruct (F3 b t Hb' Ht') as (b2 & t2 & H2 & H3 & H4 & H5). pose proof (Htop b2 t2 H2 H3 ltac:(lia)). lia.
  - lia.
  - intros Hm. replace mid with (s_end s) by lia. specialize (Hcnt ltac:(lia)). lia.
  - intros st' (stop & L'' & A2 & [D1 D2 D3 D4 D5]). exists stop, L''. split; [done|].
    assert (forall x, mid <= x -> at_addr L' x true <-> at_addr (L1 ++ (r, s) :: L2) x true) as Hrest by (intros x Hx; rewrite (F1 x true); intuition lia).
    split.
    + lia.
    + intros x Hx. destruct (Z.lt_ge_cases x mid); [exists r, s; split; [set_solver|]; split; [lia|done]|]. apply Hrest; [lia|]. apply D2. lia.
    + eapply range_set_trans; [|exact F1|exact D3]. lia.
    + destruct D4 as [|D4]; [by left|]. right. rewrite <- Hrest by lia. done.
    + auto.
Qed.

Lemma vmem_free_ok q st L addr size :
  arena q st L -> (q | addr) -> 0 <= addr -> 0 < size -> addr + size + (q - 1) < 2 ^ 64 ->
  below_top (addr + ALIGN_UP size q) L ->
  nofault (vmem_free st addr size) (fun st' => exists stop L', arena q st' L' /\
    freed addr (addr + ALIGN_UP size q) stop L L').
Proof using cfg_ok hhdm_aligned.
  intros A Hq Ha Hs Hb Htop. pose proof A as [v A']. pose proof (ar_rep _ _ _ _ _ A') as R. destruct (ar_quantum _ _ _ _ _ A') as (k & Hk & Ek).
  unfold vmem_free. rewrite (vr_quantum _ _ _ R).
  destruct (ALIGN_UP_bounds size k) as [Dz Bz]; [lia|unfold is_u64; lia|rewrite <- Ek; lia|]. rewrite <- Ek in Dz, Bz.
  assert (ALIGN_UP addr q = addr) as -> by (rewrite Ek in *; apply ALIGN_UP_aligned; [lia|unfold is_u64; lia|done]).
  set (sz := ALIGN_UP size q) in *. destruct (Z.eqb_spec sz 0); [lia|]. rewrite u64_small by (unfold is_u64; lia).
  apply free_loop_ok; try done; try lia; [qdiv|]. intros _.
  assert (length (filter (ahead addr) L) <= stdpp.base.size (segs st))%nat; [|lia].
  rewrite length_filter. rewrite (vr_segs _ _ _ R), (ar_segs _ _ _ _ _ A'), map_size_list_to_map by (by eapply arena_nodup). done.
Qed.

(** ** New segments and new arenas *)
Lemma find_above_ok st base G : forall ys fuel pp,
  segs st = G -> lseg (list_nodes st) pp (map list_node ys) 0 -> 0 ∉ map list_node ys -> (length ys < fuel)%nat ->
  (forall a, a ∈ ys -> is_Some (G !! a)) ->
  exists l1 l2, ys = l1 ++ l2 /\
    find_above fuel st base (first_or 0 (map list_node ys)) = Ok (first_or 0 (map list_node l2)) /\
    (forall a s, a ∈ l1 -> G !! a = Some s -> s_base s <= base) /\
    (forall a l s, l2 = a :: l -> G !! a = Some s -> base < s_base s).
Proof using cfg_ok hhdm_aligned.
  induction ys as [|y ys IH]; intros fuel pp HG Hseg H0 Hf Hm; (destruct fuel as [|fuel]; [cbn in Hf; lia|]).
  - exists [], []. split; [done|]. split; [done|]. set_solver.
  - cbn [map find_above first_or] in *. destruct Hseg as [Hy Hseg]. destruct (Z.eqb_spec (list_node y) 0) as [E|_]; [set_solver|].
    destruct (Hm y ltac:(set_solver)) as [s Hs]. replace (list_node y - SEGMENT_LIST_NODE) with y by (unfold list_node; lia).
    rewrite HG, (load_Ok _ _ _ Hs), bind_Ok. rewrite Z.gtb_ltb. destruct (Z.ltb_spec base (s_base s)).
    + exists [], (y :: ys). split; [done|]. split; [done|]. split; [set_solver|]. intros a l r [= <- <-] Hr. congruence.
    + rewrite (load_Ok _ _ _ Hy), bind_Ok. cbn [next].
      destruct (IH fuel _ HG Hseg ltac:(set_solver) ltac:(cbn in Hf; lia) ltac:(set_solver)) as (l1 & l2 & -> & E & H1 & H2).
      exists (y :: l1), l2. split; [done|]. split; [done|]. split; [|done]. intros a r [-> | Ha]%elem_of_cons Hr; [congruence|eauto].
Qed.

Lemma add_segment_ok q st L base size :
  arena q st L -> (q | base) -> 0 < size -> 1 <= base -> base + size <= 2 ^ 64 ->
  (forall a s, (a, s) ∈ L -> s_end s <= base \/ base + size <= s_base s) ->
  nofault (vmem_add_segment st base size) (fun st' => exists n L1 L2, L = L1 ++ L2 /\
    arena q st' (L1 ++ (n, Seg false base size) :: L2)).
Proof using cfg_ok hhdm_aligned.
  intros [v A] Hqb Hs Hb Hend Hdis. pose proof (arena_nodup _ _ _ _ _ A) as Hnd. unfold vmem_add_segment.
  eapply nofault_bind; [exact (arena_new _ _ _ _ _ A)|]. intros [n st1] (Hn & Hnt & Hnf & R1).
  pose proof (fun a s => seg_bounds _ _ _ _ _ a s A) as Hbounds.
  destruct A as [_ El Es Ef Et Eo Hk]. vupdate R1 as st2. vupdate R1 as st3.
  pose proof (vr_list _ _ _ R1) as Rl. cbn [v_list] in Rl. rewrite El in Rl.
  destruct (find_above_ok st3 base (<[n := Seg false base size]> (v_segs v)) L.*1 (S (stdpp.base.size (list_nodes st3))) 0) as (l1 & l2 & Esplit & Efind & H1 & H2).
  { apply R1. } { apply Rl. } { apply Rl. }
  { pose proof (NoDup_length_size (list_nodes st3) (map list_node L.*1) (lr_nodup _ _ _ Rl)) as Hlen. rewrite !length_map in Hlen.
    rewrite length_fmap in *. specialize (Hlen (fun x Hx => lseg_mapped _ _ _ _ _ (lr_seg _ _ _ Rl) Hx)). lia. }
  { intros a Ha. apply elem_of_dom. rewrite dom_insert, Es. apply elem_of_union. right. by apply ltm_dom. }
  rewrite (lr_head _ _ _ Rl), Efind, bind_Ok.
  apply fmap_app_inv in Esplit as (L1 & L2 & -> & -> & ->).
  assert (forall a s, (a, s) ∈ L1 ++ L2 -> <[n := Seg false base size]> (v_segs v) !! a = Some s) as Hseg.
  { intros a s Hin. rewrite lookup_insert_ne by (intros ->; by eapply Hn, entry_in). rewrite Es. by apply ltm_lookup. }
  assert (forall a r, (a, r) ∈ L1 -> s_end r <= base) as Hl.
  { intros a r Ha. assert ((a, r) ∈ L1 ++ L2) as Hin by set_solver. destruct (Hdis a r Hin) as [|Hd]; [done|].
    specialize (H1 a r (entry_in _ _ _ Ha) (Hseg a r Hin)). lia. }
  assert (forall a r, (a, r) ∈ L2 -> base + size <= s_base r) as Hr.
  { destruct L2 as [|[b t] L2]; [set_solver|]. intros a r Ha.
    specialize (H2 b _ t eq_refl (Hseg b t ltac:(set_solver))). destruct (Hdis b t ltac:(set_solver)) as [Hd|Hd];
      [destruct (Hbounds b t ltac:(set_solver)) as (_ & _ & ? & _); unfold s_end in Hd; lia|].
    apply elem_of_cons in Ha as [Ha|Ha]; [by injection Ha as -> ->|].
    pose proof (segs_ok_lt _ _ _ _ _ _ _ a r Eo Ha). destruct (Hbounds b t ltac:(set_solver)) as (_ & _ & ? & _). unfold s_end in *. lia. }
  eapply nofault_bind; [apply returns_nofault; eapply (link_before_rep hhdm_aligned _ _ _ L1.*1 L2.*1 n R1);
    cbn [v_list v_segs]; [by rewrite El, fmap_app|by rewrite El|rewrite dom_insert; set_solver]|].
  clear R1. intros st4 R4. cbn [v_segs v_free v_tree v_rf v_rt] in R4.
  eapply nofault_mono; [apply returns_nofault; eapply (vmem_flist_add_rep hhdm_aligned); [exact R4|..]|]; cbn [v_segs v_free v_tree v_rf].
  { rewrite dom_insert. set_solver. } { done. } { done. } { set_solver. } { apply log2_index; lia. }
  intros st5 R5. vnorm R5. exists n, L1, L2. split; [done|]. eexists. split; [exact R5|..]; cbn [v_segs v_list v_free v_tree].
  - by rewrite fst_mid.
  - by rewrite Es, ltm_insert.
  - by apply (free_is_add _ _ _ _ _ (Seg false base size)).
  - apply tree_is_skip; [by right|done|done].
  - apply place_segment; try done.
  - done.
Qed.
End VMemSpec.
