(* ===== verification/VMemClaims.v ===== *)
(** * The virtual address allocator as its clients see it

    An arena gives each address a status, free or allocated.  Allocation turns
    a free range allocated and fails only when there is none; freeing turns an
    allocated range free; ranges handed out never overlap, and free neighbours
    merge, so nothing stays fragmented. *)

From stdpp Require Import sorting.
From S2P Require Import Prelude LList Buddy BuddySpec PageAlloc Spalloc SpallocSpec RBTree RBTreeRep RBTreeSpec RBTreeClaims VMem VMemRep VMemSpec.
#[local] Open Scope Z_scope.

(** The addresses from [lo] on, [size] of them, are all free. *)
Definition range_free (L : list entry) (lo size : Z) : Prop := forall x, lo <= x < lo + size -> at_addr L x false.

(** The addresses [lo, hi) get the status [b], all others keep theirs. *)
Definition range_becomes (L L' : list entry) (lo hi : Z) (b : bool) : Prop := forall x c,
  at_addr L' x c <-> lo <= x < hi /\ c = b \/ ~ (lo <= x < hi) /\ at_addr L x c.

(** In a coalesced arena a free range lies in one segment. *)
Lemma free_range_fits q lo hi L y size :
  segs_ok q lo hi L -> NoDup L.*1 -> coalesced L -> 0 < size -> (forall x, y <= x < y + size -> at_addr L x false) ->
  exists a s, (a, s) ∈ L /\ s_allocated s = false /\ s_base s <= y /\ y + size <= s_end s.
Proof.
  intros Hok Hnd HC Hs Hall. destruct (Hall y ltac:(lia)) as (a & s & Hin & Hb & Hf). exists a, s. split; [done|]. split; [done|]. split; [lia|].
  destruct (Z.le_gt_cases (y + size) (s_end s)) as [|Hgt]; [done|]. exfalso.
  destruct (Hall (s_end s) ltac:(lia)) as (b & r & Hin' & Hb' & Hf').
  destruct (segs_apart _ _ _ _ _ _ _ _ Hok Hnd Hin Hin') as [[-> ->]|[H|H]]; [lia| |lia].
  apply (HC a s b r Hin Hin' Hf Hf'). lia.
Qed.

(** ** A new arena *)
Lemma flists_empty : flists_rep ∅ (replicate 64 LLIST_INIT) 0 ∅ (replicate 64 []).
Proof.
  split.
  - split; [|intros i j xs ys x [-> _]%lookup_replicate; set_solver].
    apply Forall2_same_length_lookup. split; [done|]. intros i l xs [-> _]%lookup_replicate [-> _]%lookup_replicate. apply llist_rep_init.
  - done.
  - intros a i. by rewrite lookup_empty.
  - intros i xs a [-> _]%lookup_replicate. rewrite lookup_empty. set_solver.
  - intros i xs [-> _]%lookup_replicate. rewrite Z.bits_0. done.
  - by split.
Qed.

Section Claims.
Context `{cfg_ok : kconfig_ok} {P : Type} `{PA : !page_alloc P} `{PO : !page_alloc_ok P}.
Implicit Types (st : vmem_allocator P) (L : list entry).

Definition empty_arena (a : spalloc_allocator) (m : spalloc_mem P) (base size q : Z) : vmem_allocator P :=
  VMem base size q 0 (replicate 64 LLIST_INIT) LLIST_INIT (RBTree 0 ∅) a ∅ ∅ ∅ m.

Lemma empty_arena_ok a m base size k :
  sp_ok a m ∅ -> (8 | obj_stride a) -> (8 | obj_offset a) -> 0 < k < 32 ->
  arena (2 ^ k) (empty_arena a m base size (2 ^ k)) [].
Proof using cfg_ok.
  intros Ha H1 H2 Hk. exists (VView ∅ [] ∅ [] ∅ ∅). split; cbn; try done.
  - split; cbn; try done.
    + apply llist_rep_init.
    + eexists. apply flists_empty.
    + exists Leaf. split; [split; cbn; [done|done|done|constructor]|]. split; [by exists 0%nat|]. split; [done|constructor].
    + exists ∅. split; [done|]. split; [done|]. split; [done|]. intros o. split; [|set_solver]. intros (p & xs & Hp & _). by rewrite lookup_empty in Hp.
    + intros x Hx. by apply not_elem_of_nil in Hx.
    + intros x Hx. by apply not_elem_of_nil in Hx.
  - intros a0 i. rewrite lookup_empty. set_solver.
  - intros a0. set_solver.
  - by exists k.
Qed.

(** The boot loader places the direct map on a page boundary. *)
Hypothesis hhdm_aligned : (PAGE_SIZE | hhdm_offset).

Lemma init_ok m base size k :
  pa_rep (sp_pages m) ∅ -> 0 < k < 32 -> (2 ^ k | base) -> 0 < size -> 1 <= base -> base + size <= 2 ^ 64 ->
  nofault (vmem_allocator_init m base size (2 ^ k)) (fun st => exists n, arena (2 ^ k) st [(n, Seg false base size)]).
Proof using cfg_ok hhdm_aligned.
  intros Hm Hk H1 H3 H4 H5. unfold vmem_allocator_init. destruct page_pow as (j & Hj & Ej & Hp).
  assert (2048 <= PAGE_SIZE / 2) by (apply Z.div_le_lower_bound; lia).
  eapply nofault_bind.
  { apply returns_nofault, spalloc_init_ok; [unfold sizeof_vmem_segment; lia|done|unfold alignof_vmem_segment; lia|done|done]. }
  intros a (G & El & _ & D1 & D2). change alignof_vmem_segment with 8 in *. fold (empty_arena a m base size (2 ^ k)).
  eapply nofault_mono; [apply (add_segment_ok hhdm_aligned (2 ^ k) _ []); try done|].
  - apply empty_arena_ok; try done. exists []. split; try done.
    + rewrite El. apply llist_rep_init.
    + intros v. split; [set_solver|]. intros (p & xs & Hx & _). by rewrite lookup_empty in Hx.
  - intros a0 s. set_solver.
  - intros st (n & L1 & L2 & E & A). symmetry in E. apply app_nil in E as [-> ->]. by exists n.
Qed.



(** ** Clients

    [O] is the list of ranges handed out and not yet given back. *)
Inductive client_step (q : Z) : vmem_allocator P * list (Z * Z) -> vmem_allocator P * list (Z * Z) -> Prop :=
| client_alloc st O size addr r st' :
    0 < size -> size + (q - 1) < 2 ^ 64 -> is_u64 addr ->
    vmem_alloc st size addr = Ok (r, st') -> r <> 0 -> client_step q (st, O) (st', (r, ALIGN_UP size q) :: O)
| client_fail st O size addr st' :
    0 < size -> size + (q - 1) < 2 ^ 64 -> is_u64 addr ->
    vmem_alloc st size addr = Ok (0, st') -> client_step q (st, O) (st', O)
| client_free st O1 O2 size r st' :
    0 < size -> size + (q - 1) < 2 ^ 64 ->
    vmem_free st r size = Ok st' -> client_step q (st, O1 ++ (r, ALIGN_UP size q) :: O2) (st', O1 ++ O2).

Definition in_range (x : Z) (e : Z * Z) : Prop := e.1 <= x < e.1 + e.2.

(** Each address of the arena is free or in exactly one range handed out. *)
Record clients_ok (q base top : Z) (w : vmem_allocator P * list (Z * Z)) (L : list entry) : Prop := {
  cl_arena : arena q w.1 L;
  cl_coalesced : coalesced L;
  cl_top : (q | top);
  cl_whole : forall x, base <= x < top <-> exists b, at_addr L x b;
  cl_owned : forall x, at_addr L x true <-> exists e, e ∈ w.2 /\ in_range x e;
  cl_aligned : forall e, e ∈ w.2 -> (q | e.1);
  cl_nodup : NoDup w.2;
  cl_disjoint : forall e e' x, e ∈ w.2 -> e' ∈ w.2 -> in_range x e -> in_range x e' -> e = e';
}.

Lemma status_unique q st L x : arena q st L -> at_addr L x true -> at_addr L x false -> False.
Proof using Type.
  intros A (a & s & Ha & Hr & Es) (b & t & Hb & Ht & Et). destruct (arena_at_nodup _ _ _ _ A) as [Hnd Hok].
  destruct (segs_apart _ _ _ _ _ _ _ _ Hok Hnd Ha Hb) as [[-> ->]|H]; [congruence|lia].
Qed.

Lemma status_dec L x : (exists b, at_addr L x b) -> ~ at_addr L x true -> at_addr L x false.
Proof using Type. intros [[] H] Hn; done. Qed.

Lemma rounded q st L size :
  arena q st L -> 0 < size -> size + (q - 1) < 2 ^ 64 -> size <= ALIGN_UP size q < size + q /\ (q | ALIGN_UP size q) /\ 0 < q.
Proof using cfg_ok.
  intros [v A] H1 H2. destruct (ar_quantum _ _ _ _ _ A) as (k & Hk & Ek). destruct (ALIGN_UP_bounds size k) as [D B]; [lia|unfold is_u64; lia|by rewrite <- Ek|].
  rewrite <- Ek in D, B. split; [done|]. split; [done|]. lia.
Qed.

(** An arena that ends on a granule has no rest. *)
Lemma whole_exact q base top w L L' sz e addr r :
  clients_ok q base top w L -> alloc_done q sz e addr r L L' -> (q | sz) -> 0 < sz -> e = sz.
Proof using cfg_ok.
  intros [A HC HT HW _ _ _ _] [De [|Dt] D1 D2 D3 D4 _ _] Hq Hs; [done|]. destruct (Z.eq_dec e sz) as [|Hne]; [done|]. exfalso.
  assert (base <= r + e - 1 < top) as Hin by (apply HW; exists false; apply D4; lia).
  destruct (Z.eq_dec (r + e) top) as [Et|Ht].
  - assert (q | e - sz) as Hd by (replace (e - sz) with (top - r - sz) by lia; apply Z.divide_sub_r; [by apply Z.divide_sub_r|done]).
    apply Z.divide_pos_le in Hd; lia.
  - destruct (proj1 (HW (r + e)) ltac:(lia)) as [b Hb]. by apply (Dt b).
Qed.

Lemma clients_alloc q base top st O L size addr r st' :
  clients_ok q base top (st, O) L -> 0 < size -> size + (q - 1) < 2 ^ 64 -> is_u64 addr ->
  vmem_alloc st size addr = Ok (r, st') -> r <> 0 -> exists L', clients_ok q base top (st', (r, ALIGN_UP size q) :: O) L'.
Proof using cfg_ok hhdm_aligned.
  intros C H1 H2 H3 E Hr. pose proof C as [A HC HT HW HO HA HN HD]. cbn [fst snd] in *.
  pose proof (vmem_alloc_ok hhdm_aligned q st L size addr A H1 H2 H3) as H. rewrite E in H. cbn in H.
  destruct H as [(-> & _)|(ext & L' & A' & Dn)]; [done|]. exists L'. destruct (rounded _ _ _ _ A H1 H2) as (Bz & Dz & Hq).
  rewrite (whole_exact _ _ _ _ _ _ _ _ _ _ C Dn Dz ltac:(lia)) in Dn. destruct Dn as [_ _ D1 D2 D3 D4 D5 D6].
  assert (forall x e, e ∈ O -> in_range x e -> ~ in_range x (r, ALIGN_UP size q)) as Hnew.
  { intros x e He Hx Hx'. eapply (status_unique q st L x A); [apply HO; by exists e|apply D4; exact Hx']. }
  split; cbn [fst snd]; auto.
  - intros x. rewrite HW. split.
    + intros [b Hb]. destruct (decide (r <= x < r + ALIGN_UP size q)); [exists true|exists b]; apply (D5 x _); [by left|by right].
    + intros [b Hb]. apply (D5 x b) in Hb as [[Hx _]|[_ Hb]]; [exists false; auto|by exists b].
  - intros x. rewrite (D5 x true), HO. split.
    + intros [[Hx _]|[_ (e & He & Hx)]]; [exists (r, ALIGN_UP size q); split; [by left|done]|exists e; split; [by right|done]].
    + intros (e & [->|He]%elem_of_cons & Hx); [by left|]. destruct (decide (r <= x < r + ALIGN_UP size q)); [by left|right]. split; [done|by exists e].
  - intros e [->|He]%elem_of_cons; [done|auto].
  -     apply NoDup_cons. split; [|done]. intros Hin.
    apply (Hnew r _ Hin); unfold in_range; cbn; lia.
  - intros e e' x [->|He]%elem_of_cons [->|He']%elem_of_cons Hx Hx'; [done| | |by eapply HD].
    + by destruct (Hnew x e' He' Hx').
    + by destruct (Hnew x e He Hx).
Qed.

Lemma clients_free q base top st O1 O2 L size r :
  clients_ok q base top (st, O1 ++ (r, ALIGN_UP size q) :: O2) L -> top < 2 ^ 64 - q -> 0 < size -> size + (q - 1) < 2 ^ 64 ->
  nofault (vmem_free st r size) (fun st' => exists L', clients_ok q base top (st', O1 ++ O2) L').
Proof using cfg_ok hhdm_aligned.
  intros [A HC HT HW HO HA HN HD] Htop H1 H2. cbn [fst snd] in *. destruct (rounded _ _ _ _ A H1 H2) as (Bz & Dz & Hq).
  set (e := (r, ALIGN_UP size q)) in *. assert (e ∈ O1 ++ e :: O2) as He by set_solver.
  assert (forall x, in_range x e -> at_addr L x true) as Hown by (intros x Hx; apply HO; by exists e).
  assert (forall x b, at_addr L x b -> base <= x < top) as Hin by (intros x b Hx; apply HW; by exists b).
  destruct (Hin r true) as [Hr1 Hr2]; [apply Hown; unfold in_range; cbn; lia|].
  pose proof (Hin (r + ALIGN_UP size q - 1) true ltac:(apply Hown; unfold in_range; cbn; lia)) as Hr3.
  assert (1 <= r) as Hpos.
  { destruct (Hown r) as (a & s & Ha & Hs & _); [unfold in_range; cbn; lia|]. destruct (arena_at_nodup _ _ _ _ A) as [_ Hok].
    destruct (segs_ok_bounds _ _ _ _ _ _ Hok Ha). lia. }
  eapply nofault_mono; [apply (vmem_free_ok hhdm_aligned q st L r size A); [apply (HA e He)|lia|done|lia|]|].
  { intros a s Ha Hal _. assert (0 < s_size s) as Hp by (destruct (arena_at_nodup _ _ _ _ A) as [_ Hok]; apply (segs_ok_bounds _ _ _ _ _ _ Hok Ha)).
    destruct (Hin (s_end s - 1) true); [|lia]. exists a, s. split; [done|]. split; [unfold s_end; lia|done]. }
  intros st1 (stop & L' & A' & [D1 D2 D3 D4 D5]).
  assert (stop = r + ALIGN_UP size q) as ->.
  { destruct D4 as [|D4]; [done|]. destruct (Z.eq_dec stop (r + ALIGN_UP size q)); [done|]. destruct D4. apply Hown. unfold in_range; cbn; lia. }
  exists L'. split; cbn [fst snd]; auto.
  - intros x. rewrite HW. split.
    + intros [b Hb]. destruct (decide (r <= x < r + ALIGN_UP size q)); [exists false|exists b]; apply (D3 x _); [by left|by right].
    + intros [b Hb]. apply (D3 x b) in Hb as [[Hx _]|[_ Hb]]; [exists true; auto|by exists b].
  - intros x. rewrite (D3 x true), HO. split.
    + intros [[_ ?]|[Hn (e' & He' & Hx)]]; [done|]. exists e'. split; [|done]. assert (e' <> e) by (intros ->; done). set_solver.
    + intros (e' & He' & Hx). right. split; [|exists e'; split; [set_solver|done]]. intros Hx'.
      assert (e' = e) as -> by (eapply (HD e' e x); [set_solver|done|done|exact Hx']). apply (NoDup_app O1) in HN as (_ & Hn1 & [Hn2 _]%NoDup_cons).
      apply elem_of_app in He' as [He'|He']; [eapply Hn1; [done|by left]|done].
  - intros e' He'. apply HA. set_solver.
  - rewrite <- Permutation_middle in HN. by apply NoDup_cons in HN as [_ ?].
  - intros e1 e2 x He1 He2. apply HD; set_solver.
Qed.

Lemma clients_step_ok q base top w w' L :
  top < 2 ^ 64 - q -> clients_ok q base top w L -> client_step q w w' -> exists L', clients_ok q base top w' L'.
Proof using cfg_ok hhdm_aligned.
  intros Ht C Hs. destruct Hs as [st O size addr r st' H1 H2 H3 E Hr|st O size addr st' H1 H2 H3 E|st O1 O2 size r st' H1 H2 E].
  - by eapply clients_alloc.
  - pose proof C as [A HC HT HW HO HA HN HD]. cbn [fst snd] in *.
    pose proof (vmem_alloc_ok hhdm_aligned q st L size addr A H1 H2 H3) as H. rewrite E in H. cbn in H.
    destruct H as [(_ & -> & _)|(e & L' & _ & [_ _ D1 _ _ _ _ _])]; [by exists L|lia].
  - pose proof (clients_free _ _ _ _ _ _ _ _ _ C Ht H1 H2) as H. by rewrite E in H.
Qed.

Lemma clients_start q st n base size :
  arena q st [(n, Seg false base size)] -> (q | base + size) -> clients_ok q base (base + size) (st, []) [(n, Seg false base size)].
Proof using cfg_ok hhdm_aligned.
  intros A Ht. assert (forall x b, at_addr [(n, Seg false base size)] x b <-> base <= x < base + size /\ b = false) as Hat.
  { intros x b. rewrite at_addr_cons. unfold s_end. cbn. pose proof (at_addr_nil x b). intuition congruence. }
  split; cbn [fst snd]; [done|..].
  - intros a s b r Ha%list_elem_of_singleton Hb%list_elem_of_singleton _ _. injection Ha as -> ->. injection Hb as -> ->.
    destruct (arena_at_nodup _ _ _ _ A) as [_ Hok]. destruct (segs_ok_bounds _ _ _ _ _ _ Hok ltac:(by left)) as (_ & _ & H & _).
    unfold s_end. cbn in *. lia.
  - done.
  - intros x. setoid_rewrite Hat. naive_solver.
  - intros x. rewrite Hat. set_solver.
  - set_solver.
  - constructor.
  - set_solver.
Qed.

Section Run.
Context (m : spalloc_mem P) (base size k : Z) (st0 : vmem_allocator P).
Context (Hm : pa_rep (sp_pages m) ∅) (Hk : 0 < k < 32) (Hbase : (2 ^ k | base)) (Hsize : (2 ^ k | size)).
Context (Hpos : 0 < size) (Hlow : 1 <= base) (Hhigh : base + size < 2 ^ 64 - 2 ^ k).
Context (Hinit : vmem_allocator_init m base size (2 ^ k) = Ok st0).

Lemma clients_run w : rtc (client_step (2 ^ k)) (st0, []) w -> exists L, clients_ok (2 ^ k) base (base + size) w L.
Proof using All.
  intros Hr. assert (exists L, clients_ok (2 ^ k) base (base + size) (st0, []) L) as [L0 C0].
  { pose proof (init_ok m base size k Hm Hk Hbase Hpos Hlow ltac:(lia)) as H. rewrite Hinit in H. destruct H as [n A].
    eexists. apply clients_start; [done|by apply Z.divide_add_r]. }
  revert Hr. remember (st0, @nil (Z * Z)) as w0 eqn:E. clear E. intros Hr. revert L0 C0. induction Hr as [|w0 w1 w2 Hs _ IH]; intros L0 C0; [by exists L0|].
  destruct (clients_step_ok (2 ^ k) base (base + size) _ _ _ ltac:(lia) C0 Hs) as [L1 C1]. by eapply IH.
Qed.


End Run.
End Claims.

(** ** An arena of one mebibyte, on the demonstration memory of the buddy allocator *)
Module VDemo.
#[local] Existing Instance x86_64_config.

Definition m0 : spalloc_mem buddy_state := SpMem BuddySpec.Demo.st ∅ ∅ ∅.
Abbreviation q := (2 ^ 12).

Lemma pages : pa_rep (sp_pages m0) ∅.
Proof. destruct SpallocSpec.Demo.start as [pl I]. pose proof (sp_own _ _ _ _ _ I) as H. by rewrite dom_empty_L in H. Qed.

Lemma demo_run_vmem :
  match (st ← vmem_allocator_init m0 0x1000 0x100000 q; '(r, st') ← vmem_alloc st 0x2000 0x3000; Ok (r, r =? 0x3000)) with
  | Ok (_, b) => b | _ => false end = true.
Proof. vm_compute. reflexivity. Qed.

(** The fresh arena, and the arena with two pages handed out. *)
Lemma booted : exists st0 st1, vmem_allocator_init m0 0x1000 0x100000 q = Ok st0 /\ vmem_alloc st0 0x2000 0x3000 = Ok (0x3000, st1).
Proof.
  pose proof demo_run_vmem as H. destruct (vmem_allocator_init m0 0x1000 0x100000 q) as [st0| | |]; [|discriminate..].
  rewrite bind_Ok in H. destruct (vmem_alloc st0 0x2000 0x3000) as [[r st1]| | |] eqn:E; [|discriminate..]. rewrite bind_Ok in H.
  apply Z.eqb_eq in H as ->. exists st0, st1. by rewrite E.
Qed.

Lemma fresh st0 : vmem_allocator_init m0 0x1000 0x100000 q = Ok st0 ->
  exists L, clients_ok q 0x1000 (0x1000 + 0x100000) (st0, []) L.
Proof.
  intros E. exact (clients_run SpallocSpec.Demo.aligned m0 0x1000 0x100000 12 st0 pages ltac:(lia) ltac:(exists 1; reflexivity) ltac:(exists 256; reflexivity)
    ltac:(lia) ltac:(lia) ltac:(lia) E _ (rtc_refl _ _)).
Qed.

Lemma taken st0 st1 : vmem_allocator_init m0 0x1000 0x100000 q = Ok st0 -> vmem_alloc st0 0x2000 0x3000 = Ok (0x3000, st1) ->
  exists L, clients_ok q 0x1000 (0x1000 + 0x100000) (st1, [(0x3000, 0x2000)]) L.
Proof.
  intros E E1. destruct (fresh st0 E) as [L C]. exact (clients_alloc SpallocSpec.Demo.aligned _ _ _ _ _ _ 0x2000 0x3000 _ _ C ltac:(lia) ltac:(lia) ltac:(unfold is_u64; lia) E1 ltac:(lia)).
Qed.
End VDemo.

#[local] Existing Instance x86_64_config.




