(* ===== verification/AddressSpace.v ===== *)
(** * User memory: mem/address_space.c, syscalls/anon_mem.c, loader/elf_loader.c

    An address space is a page table and an arena of addresses.  The memory the
    kernel keeps of it all is one state, [kernel]: the page allocator with the
    page tables ([k_pt]), the heap, and the bytes of the direct map that hold
    files and user pages ([k_ram]).  Segments of the arena are objects of an
    allocator that takes its pages from the same page allocator, so the state
    is the one the arena's object memory carries ([kern]). *)

From S2P Require Import Prelude LList Buddy PageAlloc Spalloc Malloc CString Elf RBTree VMem PagingArch Paging.
#[local] Open Scope Z_scope.

(** [sysret_t], and the values of syscalls.h. *)
Record sysret := SysRet { retval : Z; error : Z }.
Definition SYSRET_OKAY : sysret := SysRet 0 0.
Definition SYSRET_ENOSYS : sysret := SysRet 0 (2 ^ 64 - 1).
Definition SYSRET_ENOMEM : sysret := SysRet 0 (2 ^ 64 - 2).

Definition PAGE_URX : Z := Z.lor (Z.lor PAGE_U PAGE_R) PAGE_X.

(** The heap without its pages, which are the kernel's. *)
Record heap_rest := HeapRest {
  hr_classes : list spalloc_allocator;
  hr_hdrs : gmap Z spalloc_page_header;
  hr_objs : Stack.snodes;
  hr_links : nodes;
  hr_headers : gmap Z malloc_header;
}.

Record kernel := Kernel { k_pt : pt_state; k_heap : heap_rest; k_ram : bytes }.

Definition k_pmm (k : kernel) : buddy_state := pmm (k_pt k).
Definition with_k_pt (k : kernel) (s : pt_state) : kernel := Kernel s (k_heap k) (k_ram k).
Definition with_k_pmm (k : kernel) (b : buddy_state) : kernel := with_k_pt k (with_pmm (k_pt k) b).
Definition with_k_ram (k : kernel) (m : bytes) : kernel := Kernel (k_pt k) (k_heap k) m.

(** What [spalloc.c] calls, on this state. *)
#[export] Instance kernel_page_alloc `{kconfig} : page_alloc kernel := {|
  pa_alloc k := '(p, b) ← buddy_allocate (k_pmm k) MIN_ORDER ALLOC_FLAG_NOFAIL; Ok (p, with_k_pmm k b);
  pa_free k p := b ← buddy_free (k_pmm k) p MIN_ORDER; Ok (with_k_pmm k b);
|}.

(** The fields of [address_space_t] and of the [vmem_allocator_t] it points to,
    with the addresses of the two structures. *)
Record address_space := AddressSpace {
  as_self : Z;
  as_valloc_ptr : Z;
  pagetable : Z;
  valloc : vmem_allocator kernel;
}.
Definition sizeof_address_space : Z := 16.
Definition sizeof_vmem_allocator : Z := 1656.

Section AddressSpace.
Context `{cfg : kconfig} `{A : PagingArch}.
Context (mmu_config : Z).
(** [ARCH_SEPARATE_PAGING_ROOTS], the target of string.c, and globals of boot. *)
Context (separate_roots x86 : bool).
Context (kernel_page_table VADDR_LOWER_HALF_TOP : Z).
Implicit Types (k : kernel) (sp : address_space) (v : vmem_allocator kernel).

(** ** The kernel's memory inside an arena *)
Definition kern v : kernel := sp_pages (objmem v).
Definition with_kern v k : vmem_allocator kernel :=
  with_objs v (segment_allocator v) (SpMem k (sp_hdrs (objmem v)) (sp_objs (objmem v)) (sp_links (objmem v))).
Definition with_valloc sp v : address_space := AddressSpace (as_self sp) (as_valloc_ptr sp) (pagetable sp) v.

(** ** Heap and pages *)
Definition heap_of k : kheap :=
  let h := k_heap k in
  KHeap (hr_classes h) (SpMem (k_pmm k) (hr_hdrs h) (hr_objs h) (hr_links h)) (hr_headers h).
Definition with_heap k (h : kheap) : kernel :=
  let m := kmem h in
  Kernel (with_pmm (k_pt k) (sp_pages m)) (HeapRest (kmalloc_classes h) (sp_hdrs m) (sp_objs m) (sp_links m) (headers h)) (k_ram k).

Definition k_malloc k (size : Z) : res (Z * kernel) := '(p, h) ← malloc (heap_of k) size; Ok (p, with_heap k h).
Definition k_free k (ptr : Z) : res kernel := h ← free (heap_of k) ptr; Ok (with_heap k h).

(** The bytes of a page of the direct map, zeroed when it is taken and gone
    when it is given back. *)
Definition page_bytes (p : Z) : list Z := seqZ (TO_HHDM p) PAGE_SIZE.
Definition zero_ram (m : bytes) (p : Z) : bytes := foldr (fun a m => <[a := 0]> m) m (page_bytes p).
Definition drop_ram (m : bytes) (p : Z) : bytes := foldr (fun a m => delete a m) m (page_bytes p).

Definition alloc_user_page k : res (Z * kernel) :=
  '(p, b) ← pmm_alloc_page (k_pmm k);
  Ok (p, with_k_ram (with_k_pmm k b) (zero_ram (k_ram k) p)).
Definition free_user_page k (p : Z) : res kernel :=
  b ← pmm_free_page (k_pmm k) p;
  Ok (with_k_ram (with_k_pmm k b) (drop_ram (k_ram k) p)).

Definition map_user_page k (root vaddr paddr attr : Z) : res kernel :=
  s ← paging_map_page mmu_config (k_pt k) root vaddr paddr attr; Ok (with_k_pt k s).

(** ** mem/address_space.c *)

(** The [memcpy] of the entries of the higher half, word by word. *)
Fixpoint copy_entries (n : nat) (w : table_words) (dst src : Z) : res table_words :=
  match n with
  | O => Ok w
  | S n => e ← load w src; w ← store w dst e; copy_entries n w (dst + 8) (src + 8)
  end.

(** A page for the root, its frame entry, and the kernel's half. *)
Definition new_page_table (s : pt_state) : res (Z * pt_state) :=
  '(newpt, s) ← alloc_table s;
  w ← (if separate_roots then Ok (words s)
       else let half := Z.shiftr PAGE_SIZE 1 in
            copy_entries (Z.to_nat (half / 8)) (words s) (newpt + half) (kernel_page_table + half));
  Ok (newpt, with_words s w).

(** [new_address_space] behind its two calls of [malloc]. *)
Definition address_space_setup k (self valloc_ptr : Z) : res address_space :=
  v ← vmem_allocator_init (SpMem k ∅ ∅ ∅) PAGE_SIZE (u64 (VADDR_LOWER_HALF_TOP - PAGE_SIZE)) PAGE_SIZE;
  '(newpt, s) ← new_page_table (k_pt (kern v));
  Ok (AddressSpace self valloc_ptr newpt (with_kern v (with_k_pt (kern v) s))).

Definition new_address_space k : res address_space :=
  '(self, k) ← k_malloc k sizeof_address_space;
  '(valloc_ptr, k) ← k_malloc k sizeof_vmem_allocator;
  address_space_setup k self valloc_ptr.

(** The pages of one segment, [n] of them from page [i] on. *)
Fixpoint free_pages (n : nat) k (root base i : Z) : res kernel :=
  match n with
  | O => Ok k
  | S n =>
      let addr := u64 (base + shl64 i PAGE_SIZE_SHIFT) in
      '(paddr, _) ← paging_get_paddr mmu_config (words (k_pt k)) root addr;
      k ← (if paddr =? 0 then Ok k else free_user_page k paddr);
      free_pages n k root base (i + 1)
  end.

Definition release_segment_pages k (root : Z) (seg : vmem_segment) : res kernel :=
  k ← free_pages (Z.to_nat (Z.shiftr (s_size seg) PAGE_SIZE_SHIFT)) k root (s_base seg) 0;
  s ← paging_unmap_range mmu_config (k_pt k) root (s_base seg) (s_size seg);
  Ok (with_k_pt k s).

(** [RBTREE_FOR_EACH] over the allocated segments; one turn per node. *)
Fixpoint release_loop (fuel : nat) v (root node : Z) : res (vmem_allocator kernel) :=
  match fuel with
  | O => NoFuel
  | S fuel =>
      if node =? 0 then Ok v else
      seg ← load (segs v) (node - SEGMENT_TREE_NODE);
      k ← release_segment_pages (kern v) root seg;
      let v := with_kern v k in
      node ← rbtree_successor (segments_tree v) node;
      release_loop fuel v root node
  end.

(** Everything but the structures: the user's pages and the page tables. *)
Definition release_user_memory sp : res (vmem_allocator kernel) :=
  let v := valloc sp in
  first ← rbtree_minimum (segments_tree v) (root (segments_tree v));
  v ← release_loop (S (stdpp.base.size (segs v))) v (pagetable sp) first;
  s ← free_table (k_pt (kern v)) (pagetable sp);
  Ok (with_kern v (with_k_pt (kern v) s)).

Definition free_address_space sp : res kernel :=
  v ← release_user_memory sp;
  v ← free_vmem_segments v;
  k ← k_free (kern v) (as_valloc_ptr sp);
  k_free k (as_self sp).

(** ** syscalls/anon_mem.c *)
Fixpoint anon_alloc_loop (n : nat) k (root mem i : Z) : res kernel :=
  match n with
  | O => Ok k
  | S n =>
      let vaddr := u64 (mem + u64 (i * PAGE_SIZE)) in
      '(paddr, k) ← alloc_user_page k;
      k ← map_user_page k root vaddr paddr PAGE_URW;
      anon_alloc_loop n k root mem (i + 1)
  end.

Definition syscall_anon_alloc sp (size : Z) : res (sysret * address_space) :=
  let size := ALIGN_UP size PAGE_SIZE in
  '(mem, v) ← vmem_alloc (valloc sp) size 0;
  if mem =? 0 then Ok (SYSRET_ENOMEM, with_valloc sp v) else
  let pages := Z.shiftr size PAGE_SIZE_SHIFT in
  k ← anon_alloc_loop (Z.to_nat pages) (kern v) (pagetable sp) mem 0;
  Ok (SysRet mem 0, with_valloc sp (with_kern v k)).

Fixpoint anon_free_loop (n : nat) k (root base i : Z) : res kernel :=
  match n with
  | O => Ok k
  | S n =>
      let vaddr := u64 (base + u64 (i * PAGE_SIZE)) in
      '(paddr, _) ← paging_get_paddr mmu_config (words (k_pt k)) root vaddr;
      k ← (if paddr =? 0 then Ok k
           else s ← paging_unmap_page mmu_config (k_pt k) root vaddr PAGE_NORM;
                free_user_page (with_k_pt k s) paddr);
      anon_free_loop n k root base (i + 1)
  end.

Definition syscall_anon_free sp (base len : Z) : res (sysret * address_space) :=
  let base := ALIGN_DOWN base PAGE_SIZE in
  let len := ALIGN_UP len PAGE_SIZE in
  let v := valloc sp in
  k ← anon_free_loop (Z.to_nat (Z.shiftr len PAGE_SIZE_SHIFT)) (kern v) (pagetable sp) base 0;
  v ← vmem_free (with_kern v k) base len;
  Ok (SYSRET_OKAY, with_valloc sp v).

(** ** loader/elf_loader.c *)

Definition segment_prot (flags : Z) : Z :=
  let pte_flags := PAGE_URX in
  let pte_flags := if negb (Z.land flags ELF_PROG_WRITE =? 0) then Z.lor pte_flags PAGE_W else pte_flags in
  if Z.land flags ELF_PROG_EXEC_FLAG =? 0 then Z.land pte_flags (u64 (Z.lnot PAGE_X)) else pte_flags.

(** The contents of one page: zeroes, file, zeroes. *)
Definition fill_page (m : bytes) (vpage offset src toCopy space : Z) : res bytes :=
  m ← (if negb (offset =? 0) then '(_, m) ← memset x86 m vpage 0 offset; Ok m else Ok m);
  m ← (if negb (toCopy =? 0) then '(_, m) ← memcpy x86 m (u64 (vpage + offset)) src toCopy; Ok m else Ok m);
  if space >? toCopy then '(_, m) ← memset x86 m (u64 (vpage + offset + toCopy)) 0 (space - toCopy); Ok m else Ok m.

Fixpoint load_pages (n : nat) (first : bool) k (root aligned_start vaddr_offset src fileRemaining pte_flags : Z) : res kernel :=
  match n with
  | O => Ok k
  | S n =>
      '(ppage, k) ← alloc_user_page k;
      let vpage := u64 (ppage + hhdm_offset) in
      k ← map_user_page k root aligned_start ppage pte_flags;
      let offset := if first then vaddr_offset else 0 in
      let space := PAGE_SIZE - offset in
      let toCopy := if fileRemaining <? space then fileRemaining else space in
      m ← fill_page (k_ram k) vpage offset src toCopy space;
      load_pages n false (with_k_ram k m) root (u64 (aligned_start + PAGE_SIZE)) vaddr_offset (u64 (src + toCopy)) (fileRemaining - toCopy) pte_flags
  end.

(** One program header; false when the loader gives up. *)
Definition load_segment (file : Z) sp (ph : elf_program_header_64) : res (bool * address_space) :=
  let start := ph_virt_addr ph in
  let end_ := u64 (start + ph_mem_size ph) in
  let aligned_start := ALIGN_DOWN start PAGE_SIZE in
  let aligned_end := ALIGN_UP end_ PAGE_SIZE in
  let pte_flags := segment_prot (ph_flags ph) in
  let vaddr_offset := start - aligned_start in
  let pagesToMap := u64 (aligned_end - aligned_start) / PAGE_SIZE in
  if aligned_start =? 0 then Ok (false, sp) else
  '(r, v) ← vmem_alloc (valloc sp) (u64 (aligned_end - aligned_start)) aligned_start;
  if r =? 0 then Ok (false, with_valloc sp v) else
  k ← load_pages (Z.to_nat pagesToMap) true (kern v) (pagetable sp) aligned_start vaddr_offset
        (u64 (file + ph_offset ph)) (ph_file_size ph) pte_flags;
  Ok (true, with_valloc sp (with_kern v k)).

(** The entry count is 16 bits wide, so 2^16 turns are enough. *)
Fixpoint load_loop (fuel : nat) (file prog_headers : Z) sp (i : Z) : res (bool * address_space) :=
  match fuel with
  | O => NoFuel
  | S fuel =>
      let m := k_ram (kern (valloc sp)) in
      n ← header_program_header_entries m file;
      if negb (i <? n) then Ok (true, sp) else
      ph ← program_header m (u64 (prog_headers + i * sizeof_elf_program_header_64));
      if negb (ph_type ph =? ELF_PROG_PT_LOAD_TYPE) then load_loop fuel file prog_headers sp (i + 1) else
      '(ok, sp) ← load_segment file sp ph;
      if (ok : bool) then load_loop fuel file prog_headers sp (i + 1) else Ok (false, sp)
  end.

(** The entry point; 0 for failure. *)
Definition load_elf (ELF_CURRENT_ARCH file : Z) sp : res (Z * address_space) :=
  ok ← verify_elf (k_ram (kern (valloc sp))) ELF_CURRENT_ARCH file;
  if negb ok then Ok (0, sp) else
  table ← header_program_header_table (k_ram (kern (valloc sp))) file;
  '(ok, sp) ← load_loop (Z.to_nat (2 ^ 16)) file (u64 (file + table)) sp 0;
  if negb ok then Ok (0, sp) else
  entry ← header_entry_point (k_ram (kern (valloc sp))) file;
  Ok (entry, sp).

(** ** arch/generic/thread/new.c: the user's first stack *)
Definition USER_STACK_SIZE : Z := 0x20000.

Fixpoint map_stack (fuel : nat) k (root a stack_top : Z) : res kernel :=
  match fuel with
  | O => NoFuel
  | S fuel =>
      if a <? stack_top then
        '(p, k) ← alloc_user_page k;
        k ← map_user_page k root a p PAGE_URW;
        map_stack fuel k root (u64 (a + PAGE_SIZE)) stack_top
      else Ok k
  end.

(** [ustack -= 8; *ustack = 0], [n] times. *)
Fixpoint push_zeroes (n : nat) (m : bytes) (ustack : Z) : res (Z * bytes) :=
  match n with
  | O => Ok (ustack, m)
  | S n => m ← store_word m (u64 (ustack - 8)) 0; push_zeroes n m (u64 (ustack - 8))
  end.

(** The stack of [create_uthread_from_elf], with its four words; the initial
    stack pointer. *)
Definition user_stack sp : res (Z * address_space) :=
  '(stack_base, v) ← vmem_alloc (valloc sp) USER_STACK_SIZE 0;
  let stack_top := u64 (stack_base + USER_STACK_SIZE) in
  k ← map_stack (S (Z.to_nat (USER_STACK_SIZE / PAGE_SIZE))) (kern v) (pagetable sp) stack_base stack_top;
  '(stack_paddr, _) ← paging_get_paddr mmu_config (words (k_pt k)) (pagetable sp) (u64 (stack_top - PAGE_SIZE));
  let ustack_top := u64 (TO_HHDM stack_paddr + PAGE_SIZE) in
  '(ustack, m) ← push_zeroes 4 (k_ram k) ustack_top;
  Ok (u64 (stack_top - (ustack_top - ustack)), with_valloc sp (with_kern v (with_k_ram k m))).

(** [create_uthread_from_elf] up to [create_uthread]: entry point, stack
    pointer and address space, or what [free_address_space] leaves. *)
Definition load_user_program (ELF_CURRENT_ARCH elf : Z) k : res (kernel + (Z * Z * address_space)) :=
  sp ← new_address_space k;
  '(entry, sp) ← load_elf ELF_CURRENT_ARCH elf sp;
  if entry =? 0 then k ← free_address_space sp; Ok (inl k) else
  '(usp, sp) ← user_stack sp;
  Ok (inr (entry, usp, sp)).
End AddressSpace.
