(* ===== verification/UserPages.v ===== *)
(** * The pages of an address space among those of everyone else

    The arena of an address space takes the pages of its segments from the same
    allocator as the page tables and the user's frames.  [ctx_rep] is what the
    arena's operations do to that allocator: starting from a state in which
    the arena owns [O0], they change the pages the arena owns and leave every
    other page in use alone.  It is an instance of the page allocator's
    interface, for every starting state. *)

From S2P Require Import Prelude LList Pfndb Buddy BuddyInv BuddySpec PageAlloc Spalloc SpallocSpec RBTree RBTreeClaims VMem VMemRep VMemSpec Paging PagingPmm AddressSpace.
#[local] Open Scope Z_scope.

Section Context.
Context `{cfg_ok : kconfig_ok}.
Context (R : regions).
Implicit Types (k : kernel) (B : blocks) (O : gset Z).

Definition ctx_rep k0 B0 O0 k O : Prop :=
  k = with_k_pmm k0 (k_pmm k) /\ exists B, buddy_inv R (k_pmm k) B /\ settled B /\
    keeps R (k_pmm k0) B0 (k_pmm k) B (elements O0) /\
    (forall p, p ∈ O -> B !! p = Some (0, BAlloc) /\ (in_use R B0 p -> p ∈ O0)) /\
    forall q j, B !! q = Some (j, BAlloc) -> q ∈ O \/ (B0 !! q = Some (j, BAlloc) /\ q ∉ O0).

Lemma ctx_start k B O :
  buddy_inv R (k_pmm k) B -> settled B -> (forall p, p ∈ O -> B !! p = Some (0, BAlloc)) -> ctx_rep k B O k O.
Proof using Type.
  intros I HS HO. split; [by destruct k as [[? ? ?] ? ?]|]. exists B. split; [done|]. split; [done|]. split; [apply keeps_refl|]. split; [auto|].
  intros q j Hq. destruct (decide (q ∈ O)); [by left|by right].
Qed.

Lemma ctx_rest k0 k b : k = with_k_pmm k0 (k_pmm k) -> with_k_pmm k b = with_k_pmm k0 b.
Proof using Type. by intros ->. Qed.

Lemma alloc_in_use st B p : buddy_inv R st B -> B !! p = Some (0, BAlloc) -> in_use R B p.
Proof using cfg_ok.
  intros [xss I] Hp. split; [|by left]. by destruct (block_facts _ _ _ _ _ _ _ I Hp) as (_ & _ & ? & _).
Qed.

Lemma pa_alloc_eq k : pa_alloc k = '(p, b) ← buddy_allocate (k_pmm k) MIN_ORDER ALLOC_FLAG_NOFAIL; Ok (p, with_k_pmm k b).
Proof using Type. reflexivity. Qed.
Lemma pa_free_eq k p : pa_free k p = b ← pmm_free_page (k_pmm k) p; Ok (with_k_pmm k b).
Proof using Type. unfold pmm_free_page. reflexivity. Qed.

Lemma ctx_alloc k0 B0 O0 k O :
  ctx_rep k0 B0 O0 k O -> nofault (pa_alloc k) (fun '(p, k') => (p ∉ O) /\ ctx_rep k0 B0 O0 k' ({[p]} ∪ O)).
Proof using cfg_ok.
  intros [Ek (B & I & HS & K & HO & N)]. rewrite pa_alloc_eq.
  destruct (take_page_ok R (k_pmm k) B I HS) as [[-> _]|(p & b & B' & -> & I' & HS' & Hp & Hold & K' & N')]; [done|].
  rewrite bind_Ok. cbn [nofault]. split; [intros [? _]%HO; done|]. split; [by apply ctx_rest|]. exists B'. split; [done|]. split; [done|]. split; [|split].
  - eapply keeps_trans; [exact K|]. eapply keeps_weaken; [exact K'|]. by intros ? ?%not_elem_of_nil.
  - intros q [->%elem_of_singleton|Hq]%elem_of_union.
    + split; [done|]. intros Hu. destruct (decide (p ∈ O0)) as [|Hn]; [done|]. exfalso. destruct (K p Hu) as (Hu' & _); [by rewrite elem_of_elements|].
      by apply (in_use_ne R b B B' p p I' Hp Hold Hu').
    + destruct (HO q Hq) as [Hb Hq0]. split; [|done]. apply (K' q (alloc_in_use _ _ _ I Hb) (not_elem_of_nil _)). done.
  - intros q j Hq. destruct (decide (q = p)) as [->|Hne]; [left; set_solver|]. destruct (N q j (N' q j Hne Hq)); [left; set_solver|by right].
Qed.

Lemma ctx_free k0 B0 O0 k O p :
  ctx_rep k0 B0 O0 k O -> p ∈ O -> returns (pa_free k p) (fun k' => ctx_rep k0 B0 O0 k' (O ∖ {[p]})).
Proof using cfg_ok.
  intros [Ek (B & I & HS & K & HO & N)] Hp. rewrite pa_free_eq.
  destruct (free_page_ok R (k_pmm k) B p I HS (proj1 (HO p Hp))) as (b & B' & E & I' & HS' & K' & N'). rewrite E, bind_Ok.
  apply returns_Ok. split; [by apply ctx_rest|]. exists B'. split; [done|]. split; [done|]. split; [|split].
  - intros q Hq Hn. destruct (K q Hq Hn) as (Hq1 & Ha1 & T1). assert (q ∉ [p]) as Hne.
    { intros ->%list_elem_of_singleton. apply Hn, elem_of_elements. by apply HO. }
    destruct (K' q Hq1 Hne) as (Hq2 & Ha2 & T2). split; [done|]. split; [auto|]. intros ty rc H. by apply T2, T1.
  - intros q [Hq Hne]%elem_of_difference. destruct (HO q Hq) as [Hb Hq0]. split; [|done].
    apply (K' q (alloc_in_use _ _ _ I Hb)); [set_solver|done].
  - intros q j Hq. destruct (N' q j Hq) as [Hq' Hne]. destruct (N q j Hq') as [?|?]; [left; set_solver|by right].
Qed.

#[local] Program Instance ctx_pages k0 B0 O0 : page_alloc_ok kernel := {| pa_rep := ctx_rep k0 B0 O0 |}.
Next Obligation.
  intros k0 B0 O0 k O p [_ (B & I & HS & _ & HO & _)] Hp. eapply (buddy_pages_page (k_pmm k) O); [|done].
  exists R, B. split; [done|]. split; [done|]. intros q Hq. by apply HO.
Qed.
Next Obligation. intros k0 B0 O0. apply ctx_alloc. Qed.
Next Obligation. intros k0 B0 O0. apply ctx_free. Qed.

(** ** An arena, whatever the rest of the kernel's memory is *)
Definition arena_in (q : Z) (v : vmem_allocator kernel) (O : gset Z) (L : list entry) : Prop :=
  forall (PO : page_alloc_ok kernel) k, pa_rep k O -> arena (PO := PO) q (with_kern v k) L.

Lemma arena_open (PO : page_alloc_ok kernel) q v L :
  arena q v L -> exists O, pa_rep (kern v) O /\ arena_in q v O L.
Proof using Type.
  intros [w A]. pose proof (vr_objs _ _ _ (ar_rep _ _ _ _ _ A)) as (pgs & [pl I] & H1 & H2 & HO). exists (dom pgs). split; [apply I|].
  intros PO' k Hk. exists w. destruct A as [V E1 E2 E3 E4 E5 E6]. split; try done. destruct V as [V1 V2 V3 V4 V5 V6 V7 V8 V9 V10 V11 V12]. split; try done.
  exists pgs. split; [|done]. exists pl. destruct I. by split.
Qed.

Lemma arena_close (PO : page_alloc_ok kernel) q v O L : arena_in q v O L -> pa_rep (kern v) O -> arena q v L.
Proof using Type.
  intros A H. specialize (A PO (kern v) H). assert (with_kern v (kern v) = v) as E by (by destruct v as [? ? ? ? ? ? ? ? ? ? ? [? ? ? ?]]). by rewrite E in A.
Qed.

Lemma arena_in_kern q v k O L : arena_in q v O L -> arena_in q (with_kern v k) O L.
Proof using Type. intros A PO k' H. exact (A PO k' H). Qed.

(** What an operation on the arena that is correct against the interface does
    in a kernel. *)
Lemma arena_step {T} q v B O L (r : res T) (get : T -> vmem_allocator kernel) (Q : T -> list entry -> Prop) :
  buddy_inv R (k_pmm (kern v)) B -> settled B -> (forall p, p ∈ O -> B !! p = Some (0, BAlloc)) -> arena_in q v O L ->
  (forall PO : page_alloc_ok kernel, arena q v L -> nofault r (fun x => exists L', arena (PO := PO) q (get x) L' /\ Q x L')) ->
  nofault r (fun x => exists O' L', arena_in q (get x) O' L' /\ Q x L' /\ ctx_rep (kern v) B O (kern (get x)) O').
Proof using cfg_ok.
  intros I HS HO A H. pose (PO := ctx_pages (kern v) B O). assert (pa_rep (kern v) O) as H0 by (by apply ctx_start).
  eapply nofault_mono; [exact (H PO (arena_close PO q v O L A H0))|]. intros x (L' & A' & Hq).
  destruct (arena_open PO q (get x) L' A') as (O' & HO' & A2). exists O', L'. auto.
Qed.
End Context.
