(* ===== verification/UserSpace.v ===== *)
(** * The invariant of an address space

    [F] is what the user sees: it maps the address of a page to a frame and a
    protection.  [user_ok] ties the page tables to it, says that small pages
    are all there is, and that the frames [F0], the tables and the pages of the
    arena's segments are pages of their own.  Each step of the operations in
    AddressSpace keeps it, and touches nothing outside. *)

From S2P Require Import Prelude LList Pfndb Buddy BuddyInv BuddySpec PageAlloc VMem VMemSpec PagingArch Paging PagingRep PagingPmm PagingSpec PagingMap PagingClaims AddressSpace UserPages.
#[local] Open Scope Z_scope.

Abbreviation frame_map := (gmap Z (Z * Z)).

Section UserSpace.
Context {cfg : kconfig} {cfg_ok : kconfig_ok cfg} {A : PagingArch} {L : PagingLaws A} {PL : ProtLaws A}.
Context (mmu_config : Z) (own : Z -> bool) {G : geometry mmu_config}.
Context (R : regions) (R_phys : forall b m, (b, m) ∈ R -> b + bsize m <= 2 ^ 52).
(** The addresses below [utop] are the user's. *)
Context (utop : Z) (utop_own : forall va, 0 <= va < utop -> owned mmu_config own va) (utop_64 : utop < 2 ^ 64).
Abbreviation top := (top_level mmu_config).
Abbreviation space := (space mmu_config).
Abbreviation xlate := (xlate mmu_config).
Abbreviation owned := (owned mmu_config own).
Implicit Types (k : kernel) (B : blocks) (P : table_map) (F : frame_map) (O : gset Z).

Definition page_of (va : Z) : Z := va - va mod PAGE_SIZE.

(** The translation [F] stands for. *)
Definition shown F (va : Z) : option (Z * Z) :=
  match F !! page_of va with Some (p, prot) => Some (p + va mod PAGE_SIZE, prot) | None => None end.

Record user_ok k root B P F F0 O : Prop := {
  u_table : page_table_ok mmu_config own R root (k_pt k) B P;
  u_managed : forall key p, P !! key = Some p -> ~ unmanaged R p;
  u_xlate : forall va, owned va -> xlate (words (k_pt k)) root va = shown F va;
  u_page : forall va f, F !! va = Some f -> (PAGE_SIZE | va) /\ 0 <= va < utop /\ is_Some (P !! (1, num 2 va));
  u_sub : F0 ⊆ F;
  u_frame : forall va p prot, F0 !! va = Some (p, prot) -> B !! p = Some (0, BAlloc) /\ fresh_page P p /\ (p ∉ O);
  u_inj : forall va va' p prot prot', F0 !! va = Some (p, prot) -> F0 !! va' = Some (p, prot') -> va = va';
  u_objs : forall p, p ∈ O -> B !! p = Some (0, BAlloc) /\ fresh_page P p;
}.

(** The pages of the address space. *)
Definition mine P F0 O (q : Z) : Prop :=
  (exists key, P !! key = Some q) \/ (exists va prot, F0 !! va = Some (q, prot)) \/ q ∈ O.

(** Pages in use outside of [M] stay as they are and outside of [M'], and
    nothing else is handed out. *)
Definition outside k B (M : Z -> Prop) k' B' (M' : Z -> Prop) : Prop :=
  (forall q, in_use R B q -> ~ M q -> in_use R B' q /\ ~ M' q /\
    (forall a, in_page q a -> words (k_pt k') !! a = words (k_pt k) !! a) /\
    forall ty rc, page_is (k_pmm k) q ty rc -> page_is (k_pmm k') q ty rc) /\
  forall q j, B' !! q = Some (j, BAlloc) -> ~ M' q -> B !! q = Some (j, BAlloc) /\ ~ M q.

Lemma outside_refl k B M : outside k B M k B M.
Proof using Type. split; auto. Qed.

Lemma outside_trans k1 B1 M1 k2 B2 M2 k3 B3 M3 : outside k1 B1 M1 k2 B2 M2 -> outside k2 B2 M2 k3 B3 M3 -> outside k1 B1 M1 k3 B3 M3.
Proof using Type.
  intros [H1 N1] [H2 N2]. split; [|intros q j Hq Hf; destruct (N2 q j Hq Hf); auto]. intros q Hq Hm.
  destruct (H1 q Hq Hm) as (Hq1 & Hm1 & W1 & T1). destruct (H2 q Hq1 Hm1) as (Hq2 & Hm2 & W2 & T2).
  split; [done|]. split; [done|]. split; [|auto]. intros a Ha. rewrite W2, W1 by done. done.
Qed.

Lemma outside_ext k B M M2 k' B' M' M2' : (forall q, M q <-> M2 q) -> (forall q, M' q <-> M2' q) -> outside k B M k' B' M' -> outside k B M2 k' B' M2'.
Proof using Type.
  intros E E' [H N]. split.
  - intros q Hq Hm. rewrite <- E in Hm. destruct (H q Hq Hm) as (? & Hm' & ?). rewrite <- E'. auto.
  - intros q j Hq Hm. rewrite <- E' in Hm. rewrite <- E. auto.
Qed.

(** ** Addresses *)
Lemma page_pos : 0 < PAGE_SIZE.
Proof using cfg_ok. rewrite PAGE_SIZE_eq. pose proof shift_range. apply Z.pow_pos_nonneg; lia. Qed.

Lemma page_of_aligned va : (PAGE_SIZE | va) -> page_of va = va /\ va mod PAGE_SIZE = 0.
Proof using cfg_ok. pose proof page_pos. intros Hd. apply Z.mod_divide in Hd; [|lia]. unfold page_of. rewrite Hd, Z.sub_0_r. done. Qed.

Lemma page_of_divide va : (PAGE_SIZE | page_of va).
Proof using cfg_ok. pose proof page_pos. exists (va / PAGE_SIZE). unfold page_of. rewrite Z.mod_eq by lia. lia. Qed.

Lemma page_of_in va p : (PAGE_SIZE | p) -> page_of va = p <-> p <= va < p + PAGE_SIZE.
Proof using cfg_ok.
  pose proof page_pos. intros [i ->]. unfold page_of. pose proof (Z.mod_pos_bound va PAGE_SIZE page_pos) as Hm. split.
  { intros E. set (r := va mod PAGE_SIZE) in *. clearbody r. lia. }
  intros Hv. assert (va / PAGE_SIZE = i) as E by (symmetry; apply (Z.div_unique va PAGE_SIZE i (va - i * PAGE_SIZE)); lia). rewrite Z.mod_eq, E by lia. lia.
Qed.

Lemma user_space va : 0 <= va < utop -> va mod space = va /\ owned va.
Proof using utop_own. intros Hv. pose proof (utop_own va Hv) as Ho. split; [|done]. apply Z.mod_small, Ho. Qed.

Lemma shown_insert F va p prot x :
  (PAGE_SIZE | va) -> shown (<[va := (p, prot)]> F) x = if decide (va <= x < va + PAGE_SIZE) then Some (p + (x - va), prot) else shown F x.
Proof using cfg_ok.
  intros Hd. unfold shown. case_decide as Hx; apply (page_of_in x va Hd) in Hx || (rewrite <- (page_of_in x va Hd) in Hx).
  - rewrite Hx, lookup_insert_eq. do 2 f_equal. unfold page_of in Hx. lia.
  - by rewrite lookup_insert_ne.
Qed.

(** ** Large pages *)
Lemma large_entry w P root va :
  twf mmu_config own w P root -> owned va -> P !! (1, num 2 va) = None ->
  exists l p, 2 <= l <= top /\ P !! (l, num (l + 1) va) = Some p /\ P !! (l - 1, num l va) = None.
Proof using L.
  intros T Hv Hn. assert (forall d l p, Z.to_nat l = d -> P !! (l, num (l + 1) va) = Some p ->
    exists l p, 2 <= l <= top /\ P !! (l, num (l + 1) va) = Some p /\ P !! (l - 1, num l va) = None) as Hd.
  { induction d as [|d IH]; intros l p Hd Hp; destruct (t_page _ _ _ _ _ T _ _ _ Hp) as (Hl & _); [lia|].
    destruct (decide (l = 1)) as [->|Hl1]; [change (1 + 1) with 2 in Hp; congruence|].
    destruct (P !! (l - 1, num l va)) as [c|] eqn:Hc; [|exists l, p; split; [lia|done]].
    apply (IH (l - 1) c); [lia|]. by rewrite Z.sub_add. }
  apply (Hd _ top root eq_refl). assert (num (top + 1) va = 0) as -> by (apply Z.div_small; apply Hv). apply T.
Qed.

Lemma num_block va va' l : num 2 va = num 2 va' -> 2 <= l -> num l va = num l va'.
Proof using cfg_ok L.
  intros E Hl. assert (forall n : nat, num (2 + Z.of_nat n) va = num (2 + Z.of_nat n) va') as H.
  { induction n as [|n IH]; [by rewrite Z.add_0_r|]. replace (2 + Z.of_nat (S n)) with (2 + Z.of_nat n + 1) by lia. rewrite !num_up by lia. by rewrite IH. }
  specialize (H (Z.to_nat (l - 2))). by replace (2 + Z.of_nat (Z.to_nat (l - 2))) with l in H by lia.
Qed.

Lemma owned_block va va' : num 2 va = num 2 va' -> 2 <= top -> owned va -> 0 <= va' -> owned va'.
Proof using cfg_ok L.
  intros E Ht [Hs Ho] H0. split.
  - split; [done|]. pose proof (num_block va va' (top + 1) E ltac:(lia)) as En. pose proof (sz_pos (top + 1) ltac:(lia)) as Hp.
    assert (num (top + 1) va = 0) as Z0 by (by apply Z.div_small). rewrite Z0 in En. symmetry in En. apply (num_range (top + 1) va' 0 ltac:(lia)) in En. unfold PagingRep.space. lia.
  - unfold idx. by rewrite <- (num_block va va' top E Ht).
Qed.

(** A large page translates all of its block. *)
Lemma large_block w P root va va' :
  twf mmu_config own w P root -> owned va -> owned va' -> num 2 va = num 2 va' -> P !! (1, num 2 va) = None ->
  xlate w root va <> None -> xlate w root va' <> None.
Proof using cfg_ok L.
  intros T Hv Hv' E Hn Hx. destruct (large_entry w P root va T Hv Hn) as (l & p & Hl & Hp & Hc).
  destruct (entry_at _ _ _ _ _ _ _ _ T Hp Hv) as (e & He & _). rewrite (xlate_at _ _ _ _ _ _ _ _ _ T Hv Hp He Hc) in Hx.
  pose proof (num_block va va' l E ltac:(lia)) as E1. pose proof (num_block va va' (l + 1) E ltac:(lia)) as E2.
  assert (idx l va = idx l va') as E3 by (unfold idx; by rewrite E1). rewrite E2 in Hp. rewrite E1 in Hc. rewrite E3 in He.
  rewrite (xlate_at _ _ _ _ _ _ _ _ _ T Hv' Hp He Hc). unfold entry_xlate in *. by destruct (ARCH_PTE_PRESENT e).
Qed.

(** A small page is found at level 1. *)
Lemma get_small k root B P va pa prot :
  pinv mmu_config own R root (k_pt k) B P -> owned (va mod space) -> is_Some (P !! (1, num 2 (va mod space))) ->
  xlate (words (k_pt k)) root (va mod space) = Some (pa, prot) ->
  paging_get_paddr mmu_config (words (k_pt k)) root va = Ok (pa - va mod PAGE_SIZE, Some 1).
Proof using All.
  intros I Hv [t Ht] Hx. destruct (get_mapped mmu_config own R root R_phys (k_pt k) B P va pa prot I Hv Hx) as (base & level & E & Eb & _).
  rewrite E. pose proof (p_twf _ _ _ _ _ _ _ I) as T. pose proof (space_pos mmu_config own R root R_phys 0 (Z.divide_0_r _)) as Hs.
  change 2 with (1 + 1) in Ht. destruct (t_page _ _ _ _ _ T _ _ _ Ht) as (_ & _ & Hok & _).
  destruct (entry_at _ _ _ _ _ _ _ _ T Ht Hv) as (e & He & Hw).
  assert (level = 1) as ->.
  { unfold paging_get_paddr in E. rewrite (walk_raw mmu_config own R root R_phys (words (k_pt k)) va (va mod space)) in E by (symmetry; apply Z.mod_mod; lia).
    unfold paging_walk in E. change (walk_loop (Z.to_nat top) ?x root ?a top) with (walk_at x top a root) in E.
    rewrite (walk_reach mmu_config own _ _ _ _ _ _ T Hv Ht), (walk_unfold _ 1 _ _ _ ltac:(lia) Hok He) in E.
    destruct (ARCH_PTE_PRESENT e); [|discriminate E]. cbn [negb] in E. destruct (ARCH_PTE_IS_LEAF e 1); [by injection E|discriminate E]. }
  do 2 f_equal. rewrite sz_1 in Eb. lia.
Qed.

(** ** Steps that change the page allocator only *)
Lemma table_kept root s b B B' P :
  page_table_ok mmu_config own R root s B P -> buddy_inv R b B' -> settled B' ->
  (forall key p, P !! key = Some p -> in_use R B' p /\ (B !! p = Some (0, BAlloc) -> B' !! p = Some (0, BAlloc)) /\
     forall ty rc, page_is (pmm s) p ty rc -> page_is b p ty rc) ->
  page_table_ok mmu_config own R root (with_pmm s b) B' P.
Proof using All.
  intros [[I HS T C] Tr] I' HS' K. split; [split; try done|].
  - intros l n p Hp. destruct (C l n p Hp) as [Hu Hc]. destruct (K _ _ Hp) as (Hu' & Ha & Ht). split; [done|].
    destruct Hc as [[Hun [rc Hc]]|[Hb Hc]]; [left; eauto|right; auto].
  - intros l n p Hp Hl Hx Hb. apply (Tr l n p Hp Hl Hx). destruct (C l n p Hp) as [_ [[Hun _]|[? _]]]; [|done].
    by destruct (unmanaged_not_alloc mmu_config own R root R_phys _ _ _ I' Hun).
Qed.

Lemma mine_in_use k root B P F F0 O q : user_ok k root B P F F0 O -> mine P F0 O q -> in_use R B q.
Proof using All.
  intros U [[key Hk]|[(va & prot & Hf)|Ho]].
  - destruct key as [l n]. by destruct (p_counted _ _ _ _ _ _ _ (proj1 (u_table _ _ _ _ _ _ _ U)) l n q Hk).
  - eapply alloc_in_use; [apply (proj1 (u_table _ _ _ _ _ _ _ U))|]. by eapply (u_frame _ _ _ _ _ _ _ U).
  - eapply alloc_in_use; [apply (proj1 (u_table _ _ _ _ _ _ _ U))|]. by apply (u_objs _ _ _ _ _ _ _ U).
Qed.

Lemma user_kept k k' root B B' P F F0 O O' :
  user_ok k root B P F F0 O -> k_pt k' = with_pmm (k_pt k) (k_pmm k') -> buddy_inv R (k_pmm k') B' -> settled B' ->
  (forall q, in_use R B q -> (exists key, P !! key = Some q) \/ (exists va prot, F0 !! va = Some (q, prot)) ->
     in_use R B' q /\ (B !! q = Some (0, BAlloc) -> B' !! q = Some (0, BAlloc)) /\ forall ty rc, page_is (k_pmm k) q ty rc -> page_is (k_pmm k') q ty rc) ->
  (forall p, p ∈ O' -> B' !! p = Some (0, BAlloc) /\ fresh_page P p /\ forall va prot, F0 !! va <> Some (p, prot)) ->
  user_ok k' root B' P F F0 O'.
Proof using All.
  intros U Ek I' HS' K HO. pose proof U as [Tb Hm X Hp Hs Hf Hi Ho]. split; try done.
  - rewrite Ek. eapply table_kept; [exact Tb|done|done|]. intros key p Hk. apply K; [|left; eauto]. eapply mine_in_use; [exact U|left; eauto].
  - by rewrite Ek.
  - intros va p prot H. destruct (Hf va p prot H) as (Hb & Hfr & _). split; [|split; [done|intros [_ [_ Hn]]%HO; by apply (Hn va prot)]].
    destruct (K p) as (_ & Ha & _); [eapply mine_in_use; [exact U|right; left; eauto]|right; eauto|auto].
  - intros p H. destruct (HO p H) as (? & ? & _). done.
Qed.

Lemma user_ctx k root B P F F0 O k' O' :
  user_ok k root B P F F0 O -> ctx_rep R k B O k' O' ->
  exists B', user_ok k' root B' P F F0 O' /\ outside k B (mine P F0 O) k' B' (mine P F0 O').
Proof using All.
  intros U [Ek (B' & I' & HS' & K & HO & N)]. exists B'. assert (k_pt k' = with_pmm (k_pt k) (k_pmm k')) as Ep by (by rewrite Ek).
  assert (forall q, (exists key, P !! key = Some q) \/ (exists va prot, F0 !! va = Some (q, prot)) -> q ∉ O) as HnO.
  { intros q [[key Hk]|(va & prot & Hf)] Hq.
    - by apply (proj2 (u_objs _ _ _ _ _ _ _ U q Hq) key q).
    - by apply (u_frame _ _ _ _ _ _ _ U) in Hf as (_ & _ & ?). }
  split.
  - eapply user_kept; [exact U|done|done|done| |].
    + intros q Hq Hm. apply K; [done|]. rewrite elem_of_elements. auto.
    + intros p Hp. destruct (HO p Hp) as [Hb Hu]. split; [done|]. split.
      * intros key p' Hk ->. apply (HnO p ltac:(left; eauto)), Hu. eapply mine_in_use; [exact U|left; eauto].
      * intros va prot Hf. apply (HnO p ltac:(right; eauto)), Hu. eapply mine_in_use; [exact U|right; left; eauto].
  - split.
    + intros q Hq Hm. destruct (K q Hq) as (Hq' & _ & T); [rewrite elem_of_elements; intros ?; apply Hm; right; by right|].
      split; [done|]. split; [|split; [by rewrite Ep|done]]. intros [Hk|[Hf|Hq0]]; [apply Hm; by left|apply Hm; right; by left|].
      apply Hm. right. right. by apply HO.
    + intros q j Hq Hm. destruct (N q j Hq) as [?|[Hb Hn]]; [destruct Hm; right; by right|]. split; [done|].
      intros [Hk|[Hf|?]]; [apply Hm; by left|apply Hm; right; by left|done].
Qed.

Lemma page_room st B p : buddy_inv R st B -> B !! p = Some (0, BAlloc) -> 0 < p /\ (PAGE_SIZE | p) /\ p + PAGE_SIZE <= 2 ^ 52.
Proof using All.
  intros [xss I] Hp. destruct (block_facts _ _ _ _ _ _ _ I Hp) as (_ & _ & Hal & _ & Hpos). split; [done|].
  destruct (i_block _ _ _ _ I _ _ _ Hp) as (_ & _ & m & (b & Hb & H1 & H2) & _). specialize (R_phys _ _ Hb).
  assert (bsize 0 = PAGE_SIZE) as E by (unfold bsize; rewrite Z.add_0_r, PAGE_SIZE_eq; done). split; [|lia]. rewrite PAGE_SIZE_eq. exact Hal.
Qed.

Lemma user_alloc k root B P F F0 O :
  user_ok k root B P F F0 O ->
  done_or_oom R (alloc_user_page k) (fun '(p, k') => exists B', user_ok k' root B' P F F0 O /\
    B' !! p = Some (0, BAlloc) /\ ~ in_use R B p /\ outside k B (mine P F0 O) k' B' (fun q => mine P F0 O q \/ q = p) /\
    k_ram k' = zero_ram (k_ram k) p /\ words (k_pt k') = words (k_pt k)).
Proof using All.
  intros U. pose proof (u_table _ _ _ _ _ _ _ U) as [I _]. unfold alloc_user_page.
  destruct (alloc_page_ok R (k_pmm k) B (p_buddy _ _ _ _ _ _ _ I) (p_settled _ _ _ _ _ _ _ I)) as [[-> Hno]|(p & b & B' & -> & I' & HS' & Hp & Hold & K & N)].
  { cbn. exists (k_pmm k), B. split; [apply I|]. split; [apply I|done]. }
  rewrite bind_Ok. cbn [done_or_oom]. exists B'.
  assert (~ in_use R B p) as Hnu by (intros Hu; by apply (in_use_ne R b B B' p p I' Hp Hold Hu)). split; [|split; [done|split; [done|split; [|done]]]].
  - eapply user_kept; [exact U|done|done|done| |].
    + intros q Hq _. apply K; [done|apply not_elem_of_nil].
    + intros q Hq. destruct (u_objs _ _ _ _ _ _ _ U q Hq) as [Hb Hf]. split; [|split; [done|]].
      * apply (K q (alloc_in_use _ _ _ _ (p_buddy _ _ _ _ _ _ _ I) Hb) (not_elem_of_nil _)). done.
      * intros va prot Hv. by apply (u_frame _ _ _ _ _ _ _ U) in Hv as (_ & _ & ?).
  - split.
    + intros q Hq Hm. destruct (K q Hq (not_elem_of_nil _)) as (Hq' & _ & T). split; [done|]. split; [|done]. intros [?| ->]; done.
    + intros q j Hq Hm. split; [apply N; [|done]; intros ->; apply Hm; by right|]. intros ?. apply Hm. by left.
Qed.

Lemma user_free k root B P F F0 O p :
  user_ok k root B P F F0 O -> B !! p = Some (0, BAlloc) -> ~ mine P F0 O p ->
  exists k' B', free_user_page k p = Ok k' /\ user_ok k' root B' P F F0 O /\
    outside k B (fun q => mine P F0 O q \/ q = p) k' B' (mine P F0 O) /\ words (k_pt k') = words (k_pt k) /\ k_ram k' = drop_ram (k_ram k) p.
Proof using All.
  intros U Hp Hm. pose proof (u_table _ _ _ _ _ _ _ U) as [I _]. unfold free_user_page.
  destruct (free_page_ok R (k_pmm k) B p (p_buddy _ _ _ _ _ _ _ I) (p_settled _ _ _ _ _ _ _ I) Hp) as (b & B' & -> & I' & HS' & K & N).
  rewrite bind_Ok. eexists _, B'. split; [done|].
  assert (forall q, mine P F0 O q -> q ∉ [p]) as Hne by (intros q Hq ->%list_elem_of_singleton; done). split; [|split; [|done]].
  - eapply user_kept; [exact U|done|done|done| |].
    + intros q Hq Hk. apply K; [done|]. apply Hne. destruct Hk as [?|?]; [by left|right; by left].
    + intros q Hq. destruct (u_objs _ _ _ _ _ _ _ U q Hq) as [Hb Hf]. split; [|split; [done|]].
      * apply (K q (alloc_in_use _ _ _ _ (p_buddy _ _ _ _ _ _ _ I) Hb)); [apply Hne; right; by right|done].
      * intros va prot Hv. by apply (u_frame _ _ _ _ _ _ _ U) in Hv as (_ & _ & ?).
  - split.
    + intros q Hq Hm'. destruct (K q Hq) as (Hq' & _ & T); [intros ->%list_elem_of_singleton; apply Hm'; by right|].
      split; [done|]. split; [|done]. intros ?. apply Hm'. by left.
    + intros q j Hq Hm'. destruct (N q j Hq) as [? ?]. split; [done|]. intros [?|?]; done.
Qed.

(** A frame stops being counted among the pages of the space. *)
Lemma user_forget k root B P F F0 O va p prot :
  user_ok k root B P F F0 O -> F0 !! va = Some (p, prot) ->
  user_ok k root B P F (delete va F0) O /\ ~ mine P (delete va F0) O p /\ forall q, mine P F0 O q <-> mine P (delete va F0) O q \/ q = p.
Proof using All.
  intros U Hva. pose proof U as [Tb Hm X Hp Hs Hf Hi Ho]. destruct (Hf _ _ _ Hva) as (Hb & Hfr & HnO).
  assert (forall va' q pr, delete va F0 !! va' = Some (q, pr) <-> va' <> va /\ F0 !! va' = Some (q, pr)) as Hd.
  { intros va' q pr. rewrite lookup_delete_Some. naive_solver. }
  split; [|split].
  - split; try done.
    + etransitivity; [apply delete_subseteq|done].
    + intros va' q pr [_ H]%Hd. by eapply Hf.
    + intros v1 v2 q p1 p2 [_ H1]%Hd [_ H2]%Hd. by eapply Hi.
  - intros [[key Hk]|[(v2 & pr & [Hne Hv]%Hd)|Hq]]; [by apply (Hfr key p)|apply Hne; by eapply Hi|done].
  - intros q. split.
    + intros [Hk|[(v2 & pr & Hv)|Hq]]; [left; by left| |left; right; by right].
      destruct (decide (v2 = va)) as [->|Hne]; [right; congruence|]. left. right. left. exists v2, pr. by apply Hd.
    + intros [[Hk|[(v2 & pr & [_ Hv]%Hd)|Hq]]| ->]; [by left|right; left; eauto|right; by right|right; left; eauto].
Qed.

(** ** Mapping and unmapping *)
Lemma alloc_kept B' q : in_use R B' q -> ~ unmanaged R q -> B' !! q = Some (0, BAlloc).
Proof using Type. intros [_ [?|Hu]] Hn; [done|]. by destruct Hn. Qed.

Lemma managed_alloc st B q : buddy_inv R st B -> B !! q = Some (0, BAlloc) -> ~ unmanaged R q.
Proof using All. intros I Hq Hu. by apply (unmanaged_not_alloc mmu_config own R 0 R_phys _ _ _ I Hu). Qed.

(** What [others] says of a page that is handed out. *)
Lemma others_alloc k k' B P B' P' q :
  buddy_inv R (k_pmm k) B -> others R (k_pt k) B P (k_pt k') B' P' -> B !! q = Some (0, BAlloc) -> fresh_page P q ->
  B' !! q = Some (0, BAlloc) /\ fresh_page P' q.
Proof using All.
  intros I [H _] Hq Hf. destruct (H q (alloc_in_use _ _ _ _ I Hq) Hf) as (Hu & Hf' & _). split; [|done].
  apply alloc_kept; [done|]. by eapply managed_alloc.
Qed.

Lemma tables_managed k k' root B P B' P' :
  page_table_ok mmu_config own R root (k_pt k) B P -> page_table_ok mmu_config own R root (k_pt k') B' P' -> others R (k_pt k) B P (k_pt k') B' P' ->
  (forall key p, P !! key = Some p -> ~ unmanaged R p) -> forall key p, P' !! key = Some p -> ~ unmanaged R p.
Proof using All.
  intros T T' O Hm key p Hk. destruct (managed_tables mmu_config own R root R_phys _ _ _ _ _ _ T T' O ltac:(intros ? ? H; right; eauto) key p Hk) as [-> |?]; [|done].
  rewrite (t_root _ _ _ _ _ (p_twf _ _ _ _ _ _ _ (proj1 T'))) in Hk. injection Hk as <-.
  apply (Hm (top, 0)). apply (t_root _ _ _ _ _ (p_twf _ _ _ _ _ _ _ (proj1 T))).
Qed.

Lemma user_span va len : (PAGE_SIZE | va) -> 0 <= va -> (PAGE_SIZE | len) -> 0 < len -> va + len <= utop -> range_ok mmu_config own va len /\ va mod space = va.
Proof using utop_own utop_64.
  intros H1 H2 H3 H4 H5. assert (va mod space = va) as E by (apply user_space; lia). split; [|done].
  split; [done|split; [lia|done]|lia|]. rewrite E. intros x Hx. apply utop_own. lia.
Qed.

Lemma not_mine P F0 O q : ~ mine P F0 O q <-> fresh_page P q /\ (forall va prot, F0 !! va <> Some (q, prot)) /\ (q ∉ O).
Proof using Type.
  unfold mine, fresh_page. split.
  - intros H. split; [intros a p Ha ->; apply H; left; eauto|]. split; [intros va pr Hv; apply H; right; left; eauto|intros Ho; apply H; right; by right].
  - intros (H1 & H2 & H3) [[key Hk]|[(va & pr & Hv)|Ho]]; [by apply (H1 key q)|by apply (H2 va pr)|done].
Qed.

(** The other page of the block a page lies in. *)
Lemma neighbour va : 0 <= va -> (PAGE_SIZE | va) -> exists va', 0 <= va' /\ (PAGE_SIZE | va') /\ va' <> va /\ num 2 va' = num 2 va.
Proof using All.
  intros H0 Hd. pose proof (sz_pos 2 ltac:(lia)) as Hs. assert (sz 2 = PAGE_SIZE * entries) as E2 by (rewrite <- sz_1; apply (sz_succ 1); lia).
  assert (PAGE_SIZE | num 2 va * sz 2) as Hb by (rewrite E2; apply Z.divide_mul_r, Z.divide_mul_l, Z.divide_refl).
  destruct (proj1 (num_range 2 va (num 2 va) ltac:(lia)) eq_refl) as [Hlo Hhi]. assert (0 <= num 2 va) as Hn by (apply Z.div_pos; lia). assert (0 <= num 2 va * sz 2) by nia.
  destruct (decide (va = num 2 va * sz 2)) as [E|Hne].
  - exists (va + PAGE_SIZE). pose proof page_pos. split; [lia|]. split; [apply Z.divide_add_r; [done|apply Z.divide_refl]|]. split; [lia|].
    apply (num_range 2); [lia|]. assert (2 <= entries) by (unfold entries; pose proof bits_range; change 2 with (2 ^ 1); apply Z.pow_le_mono_r; lia). nia.
  - exists (num 2 va * sz 2). split; [done|]. split; [done|]. split; [done|]. apply (num_range 2); lia.
Qed.

(** After one page was mapped where only small pages were, it is small. *)
Lemma small_again k k' root B P F F0 O B' P' va p attr :
  user_ok k root B P F F0 O -> (PAGE_SIZE | va) -> 0 <= va -> va + PAGE_SIZE <= utop ->
  range_changed mmu_config own R root (k_pt k) B P (k_pt k') B' P' va PAGE_SIZE (mapped mmu_config va p attr) -> is_Some (P' !! (1, num 2 va)).
Proof using All.
  intros U Hd H0 Hu C. destruct (P' !! (1, num 2 va)) as [c|] eqn:Hn; [by eexists|]. exfalso. pose proof page_pos. pose proof (top_range mmu_config) as Ht.
  destruct (user_space va ltac:(lia)) as [Es Ho]. destruct (neighbour va H0 Hd) as (va' & H0' & Hd' & Hne & En).
  pose proof (owned_block va va' (eq_sym En) ltac:(lia) Ho H0') as Ho'.
  assert (xlate (words (k_pt k')) root va <> None) as Hx.
  { rewrite (rc_xlate _ _ _ _ _ _ _ _ _ _ _ _ _ C va Ho). unfold update_range. rewrite Es, decide_True by lia. done. }
  pose proof (large_block _ P' root va va' (p_twf _ _ _ _ _ _ _ (proj1 (rc_ok _ _ _ _ _ _ _ _ _ _ _ _ _ C))) Ho Ho' (eq_sym En) Hn Hx) as Hx'.
  assert (~ (va <= va' < va + PAGE_SIZE)) as Hout by (intros Hin; apply Hne; rewrite <- (page_of_in va' va Hd) in Hin; by rewrite (proj1 (page_of_aligned va' Hd')) in Hin).
  assert (xlate (words (k_pt k)) root va' <> None) as Hx0.
  { rewrite (rc_xlate _ _ _ _ _ _ _ _ _ _ _ _ _ C va' Ho') in Hx'. unfold update_range in Hx'. by rewrite Es, decide_False in Hx' by done. }
  assert (is_Some (P !! (1, num 2 va'))) as Hs.
  { rewrite (u_xlate _ _ _ _ _ _ _ U va' Ho') in Hx0. unfold shown in Hx0. rewrite (proj1 (page_of_aligned va' Hd')) in Hx0.
    destruct (F !! va') as [f|] eqn:Hf; [|done]. by apply (u_page _ _ _ _ _ _ _ U va' f). }
  pose proof (rc_small _ _ _ _ _ _ _ _ _ _ _ _ _ C va' Ho' Hs Hx0 Hx') as [c Hc]. rewrite En in Hc. congruence.
Qed.

Lemma user_map k root B P F F0 O va p attr :
  user_ok k root B P F F0 O -> F !! va = None -> (PAGE_SIZE | va) -> 0 <= va -> va + PAGE_SIZE <= utop -> PAGE_LEAF_LEVEL attr = 1 ->
  B !! p = Some (0, BAlloc) -> ~ mine P F0 O p ->
  done_or_oom R (map_user_page mmu_config k root va p attr) (fun k' => exists B' P',
    user_ok k' root B' P' (<[va := (p, prot_norm mmu_config attr)]> F) (<[va := (p, prot_norm mmu_config attr)]> F0) O /\
    outside k B (fun q => mine P F0 O q \/ q = p) k' B' (mine P' (<[va := (p, prot_norm mmu_config attr)]> F0) O) /\ k_ram k' = k_ram k).
Proof using All.
  intros U Hva Hd H0 Hu Hl Hp Hm. pose proof U as [Tb Hmg X Hpg Hs Hf Hi Ho]. pose proof (proj1 (not_mine _ _ _ _) Hm) as (Hm1 & Hm2 & Hm3).
  pose proof page_pos as Hps. destruct (user_span va PAGE_SIZE Hd H0 (Z.divide_refl _) Hps Hu) as [Ro Es].
  pose proof (p_buddy _ _ _ _ _ _ _ (proj1 Tb)) as I. destruct (page_room _ _ _ I Hp) as (Hp0 & Hpd & Hp52).
  unfold map_user_page, paging_map_page. rewrite Hl. pose proof (top_range mmu_config). rewrite (PAGING_ENTRY_SIZE_eq mmu_config 1), sz_1 by lia.
  assert (IS_ALIGNED va PAGE_SIZE = true) as Eal by (rewrite PAGE_SIZE_eq in *; pose proof shift_range; apply IS_ALIGNED_spec; [lia|unfold is_u64; lia|done]).
  rewrite Eal. cbn [dbg_assert]. rewrite bind_Ok. eapply done_bind; [apply (map_range_ok mmu_config own R root R_phys _ _ _ _ _ Tb Ro p attr); [lia|done|done]|].
  intros s' (B' & P' & C). rewrite Es in C. cbn [done_or_oom]. exists B', P'. set (k' := with_k_pt k s').
  pose proof (small_again k k' root B P F F0 O B' P' va p attr U Hd H0 Hu C) as Hsm. destruct C as [Tb' Oth X' Sm _].
  assert (forall q, B !! q = Some (0, BAlloc) -> fresh_page P q -> B' !! q = Some (0, BAlloc) /\ fresh_page P' q) as Keep.
  { intros q. by apply (others_alloc k k'). }
  assert (forall a q pr, <[va := (p, prot_norm mmu_config attr)]> F0 !! a = Some (q, pr) <-> a = va /\ q = p /\ pr = prot_norm mmu_config attr \/ a <> va /\ F0 !! a = Some (q, pr)) as Hins.
  { intros a q pr. rewrite lookup_insert_Some. naive_solver. }
  assert (F0 !! va = None) as Hva0 by (eapply lookup_weaken_None; done). split; [|split; [|done]].
  - split.
    + exact Tb'.
    + by apply (tables_managed k k' root B P B' P').
    + intros x Hx. rewrite X' by done. unfold update_range, mapped. rewrite Es, shown_insert by done. case_decide; [done|by apply X].
    + intros a f [[<- _]|[Hne Ha]]%lookup_insert_Some; [split; [done|]; split; [lia|done]|]. destruct (Hpg a f Ha) as (Ha1 & Ha2 & Ha3).
      split; [done|]. split; [done|]. destruct (user_space a Ha2) as [_ Hoa].
      assert (shown F a <> None) as Hsh by (unfold shown; rewrite (proj1 (page_of_aligned a Ha1)), Ha; by destruct f).
      apply Sm; [done|done|by rewrite X|]. rewrite X' by done. unfold update_range. rewrite Es. case_decide; [done|by rewrite X].
    + by apply insert_mono.
    + intros a q pr [(-> & -> & ->)|[_ Ha]]%Hins.
      * destruct (Keep p Hp Hm1). done.
      * destruct (Hf a q pr Ha) as (Hq & Hfr & HO). destruct (Keep q Hq Hfr). done.
    + intros a a' q pr pr' [(-> & -> & _)|[_ Ha]]%Hins [(-> & Eq & _)|[_ Ha']]%Hins; [done|by destruct (Hm2 a' pr')| |by eapply Hi]. subst q. by destruct (Hm2 a pr).
    + intros q Hq. destruct (Ho q Hq) as [Hq1 Hq2]. by apply Keep.
  - destruct Oth as [O1 O2]. split.
    + intros q Hq Hn. assert (~ mine P F0 O q /\ q <> p) as [Hnm Hqp] by tauto. apply not_mine in Hnm as (N1 & N2 & N3).
      destruct (O1 q Hq N1) as (U1 & U2 & U3 & U4). split; [done|]. split; [|split; [exact U3|exact U4]]. apply not_mine. split; [done|]. split; [|done].
      intros a pr [(_ & E & _)|[_ Ha]]%Hins; [done|by apply (N2 a pr)].
    + intros q j Hq Hn. apply not_mine in Hn as (N1 & N2 & N3). destruct (O2 q j Hq N1) as [Hb Hfr]. split; [done|]. intros [Hn| ->].
      * revert Hn. apply not_mine. split; [done|]. split; [|done]. intros a pr Ha. apply (N2 a pr), Hins. right. split; [|done]. intros ->. congruence.
      * apply (N2 va (prot_norm mmu_config attr)), Hins. by left.
Qed.

(** Without the pages of a range. *)
Definition clear (lo len : Z) F : frame_map := filter (fun e => ~ (lo <= e.1 < lo + len)) F.

Lemma clear_Some lo len F a f : clear lo len F !! a = Some f <-> F !! a = Some f /\ ~ (lo <= a < lo + len).
Proof using Type. unfold clear. rewrite map_lookup_filter_Some. done. Qed.

Lemma shown_clear lo len F x :
  (PAGE_SIZE | lo) -> (PAGE_SIZE | len) -> shown (clear lo len F) x = if decide (lo <= x < lo + len) then None else shown F x.
Proof using All.
  intros H1 H2. unfold shown. pose proof page_pos as Hps.
  assert (lo <= x < lo + len <-> lo <= page_of x < lo + len) as E.
  { pose proof (proj1 (page_of_in x (page_of x) (page_of_divide x)) eq_refl) as Hx. destruct (page_of_divide x) as [i Hi], H1 as [a ->], H2 as [b ->].
    rewrite Hi in *. rewrite <- Z.mul_add_distr_r. split; intros [G1 G2].
    - assert (a < i + 1) by (apply (Z.mul_lt_mono_pos_r PAGE_SIZE); lia). assert (i < a + b) by (apply (Z.mul_lt_mono_pos_r PAGE_SIZE); lia).
      split; [apply Z.mul_le_mono_nonneg_r; lia|apply Z.mul_lt_mono_pos_r; lia].
    - apply Z.mul_lt_mono_pos_r in G2; [|lia]. assert (i + 1 <= a + b) as G3 by lia. apply (Z.mul_le_mono_nonneg_r _ _ PAGE_SIZE) in G3; lia. }
  destruct (clear lo len F !! page_of x) as [[p pr]|] eqn:Hc.
  - apply clear_Some in Hc as [Hf Hn]. rewrite <- E in Hn. rewrite decide_False by done. by rewrite Hf.
  - case_decide as Hd; [done|]. destruct (F !! page_of x) as [f|] eqn:Hf; [|done]. rewrite E in Hd.
    assert (clear lo len F !! page_of x = Some f) as Hs by (by apply clear_Some). congruence.
Qed.

Lemma user_unmap k root B P F F0 O va len :
  user_ok k root B P F F0 O -> (PAGE_SIZE | va) -> 0 <= va -> (PAGE_SIZE | len) -> 0 < len -> va + len <= utop ->
  done_or_oom R (paging_unmap_range mmu_config (k_pt k) root va len) (fun s' => exists B' P',
    user_ok (with_k_pt k s') root B' P' (clear va len F) (clear va len F0) O /\
    (forall q, B !! q = Some (0, BAlloc) -> fresh_page P q -> B' !! q = Some (0, BAlloc) /\ fresh_page P' q) /\
    outside k B (mine P F0 O) (with_k_pt k s') B' (fun q => mine P' (clear va len F0) O q \/ exists a prot, va <= a < va + len /\ F0 !! a = Some (q, prot))).
Proof using All.
  intros U Hd H0 Hdl Hl Hu. pose proof U as [Tb Hmg X Hpg Hs Hf Hi Ho]. destruct (user_span va len Hd H0 Hdl Hl Hu) as [Ro Es].
  pose proof (p_buddy _ _ _ _ _ _ _ (proj1 Tb)) as I.
  eapply done_mono; [apply (unmap_range_ok mmu_config own R root R_phys _ _ _ _ _ Tb Ro)|].
  intros s' (B' & P' & [Tb' Oth X' Sm _]). set (k' := with_k_pt k s'). rewrite Es in X'. exists B', P'.
  assert (forall q, B !! q = Some (0, BAlloc) -> fresh_page P q -> B' !! q = Some (0, BAlloc) /\ fresh_page P' q) as Keep.
  { intros q. by apply (others_alloc k k'). }
  split; [|split; [exact Keep|]].
  - split.
    + exact Tb'.
    + by apply (tables_managed k k' root B P B' P').
    + intros x Hx. rewrite X' by done. rewrite shown_clear by done. unfold update_range, unmapped. case_decide; [done|by apply X].
    + intros a f [Ha Hn]%clear_Some. destruct (Hpg a f Ha) as (Ha1 & Ha2 & Ha3). split; [done|]. split; [done|]. destruct (user_space a Ha2) as [_ Hoa].
      assert (shown F a <> None) as Hsh by (unfold shown; rewrite (proj1 (page_of_aligned a Ha1)), Ha; by destruct f).
      apply Sm; [done|done|by rewrite X|]. rewrite X' by done. unfold update_range. rewrite decide_False by done. by rewrite X.
    + apply map_subseteq_spec. intros a f [Ha Hn]%clear_Some. apply clear_Some. split; [by eapply lookup_weaken|done].
    + intros a q pr [Ha _]%clear_Some. destruct (Hf a q pr Ha) as (Hq & Hfr & HO). destruct (Keep q Hq Hfr). done.
    + intros a a' q pr pr' [Ha _]%clear_Some [Ha' _]%clear_Some. by eapply Hi.
    + intros q Hq. destruct (Ho q Hq) as [Hq1 Hq2]. by apply Keep.
  - destruct Oth as [O1 O2]. split.
    + intros q Hq (N1 & N2 & N3)%not_mine. destruct (O1 q Hq N1) as (U1 & U2 & U3 & U4). split; [done|]. split; [|split; [exact U3|exact U4]].
      intros [Hm|(a & pr & _ & Ha)]; [|by apply (N2 a pr)]. revert Hm. apply not_mine. split; [done|]. split; [|done]. intros a pr [Ha _]%clear_Some. by apply (N2 a pr).
    + intros q j Hq Hn. assert (~ mine P' (clear va len F0) O q) as Hnm by tauto. apply not_mine in Hnm as (N1 & N2 & N3).
      destruct (O2 q j Hq N1) as [Hb Hfr]. split; [done|]. apply not_mine. split; [done|]. split; [|done]. intros a pr Ha.
      destruct (decide (va <= a < va + len)) as [Hin|Hout]; [apply Hn; right; eauto|]. by apply (N2 a pr), clear_Some.
Qed.

(** Looking a page of the user up. *)
Lemma user_get k root B P F F0 O va :
  user_ok k root B P F F0 O -> (PAGE_SIZE | va) -> 0 <= va < utop ->
  paging_get_paddr mmu_config (words (k_pt k)) root va =
    Ok (match F !! va with Some (p, _) => (p, Some 1) | None => (0, None) end).
Proof using All.
  intros U Hd Hv. destruct (user_space va Hv) as [Es Ho]. pose proof (u_xlate _ _ _ _ _ _ _ U va Ho) as X. unfold shown in X.
  destruct (page_of_aligned va Hd) as [Ep Em]. rewrite Ep, Em in X. destruct (F !! va) as [[p pr]|] eqn:Hf.
  - rewrite Z.add_0_r in X. rewrite <- Es in X. destruct (u_page _ _ _ _ _ _ _ U va _ Hf) as (_ & _ & Hs). rewrite <- Es in Ho, Hs.
    rewrite (get_small k root B P va p pr (proj1 (u_table _ _ _ _ _ _ _ U)) Ho Hs X). by rewrite Em, Z.sub_0_r.
  - rewrite <- Es in Ho, X. apply (get_unmapped mmu_config own R root R_phys _ _ _ _ (proj1 (u_table _ _ _ _ _ _ _ U)) Ho X).
Qed.
End UserSpace.
