(* ===== verification/UserMem.v ===== *)
(** * Memory of user programs

    The system calls and the loader on an address space that is in order
    ([space_ok]): what they hand out is the caller's alone, zeroed or filled
    from the file, mapped where the arena says, and what is given back is
    given back whole. *)

From S2P Require Import Prelude LList Pfndb Buddy BuddyInv BuddySpec PageAlloc Spalloc SpallocSpec RBTree RBTreeRep RBTreeClaims VMem VMemRep VMemSpec VMemClaims PagingArch Paging PagingRep PagingPmm PagingSpec PagingMap PagingClaims AddressSpace UserPages UserSpace.
#[local] Open Scope Z_scope.

Section UserMem.
Context {cfg : kconfig} {cfg_ok : kconfig_ok cfg} {A : PagingArch} {L : PagingLaws A} {PL : ProtLaws A}.
Context (mmu_config : Z) (own : Z -> bool) {G : PagingRep.geometry mmu_config}.
Context (R : regions) (R_phys : forall b m, (b, m) ∈ R -> b + bsize m <= 2 ^ 52).
Context (utop : Z) (utop_own : forall va, 0 <= va < utop -> owned mmu_config own va) (utop_64 : utop < 2 ^ 64).
(** The boot loader places the direct map on a page boundary. *)
Context (hhdm_aligned : (PAGE_SIZE | hhdm_offset)).
Abbreviation user_ok := (user_ok mmu_config own R utop).
Abbreviation outside := (outside R).
Implicit Types (k : kernel) (B : blocks) (P : table_map) (F : frame_map) (O : gset Z) (sp : address_space) (Ls : list entry).

Lemma done_nofault {T} (r : res T) Q : done_or_oom R r Q -> nofault r Q.
Proof using Type. by destruct r. Qed.

(** ** Bytes of frames *)
Lemma zero_ram_in m p a : a ∈ page_bytes p -> zero_ram m p !! a = Some 0.
Proof using Type.
  unfold zero_ram. induction (page_bytes p) as [|b l IH]; [by intros ?%not_elem_of_nil|].
  intros [->|Ha]%elem_of_cons; cbn; [apply lookup_insert_eq|]. destruct (decide (a = b)) as [->|]; [apply lookup_insert_eq|].
  rewrite lookup_insert_ne by done. auto.
Qed.

Lemma zero_ram_out m p a : a ∉ page_bytes p -> zero_ram m p !! a = m !! a.
Proof using Type.
  unfold zero_ram. induction (page_bytes p) as [|b l IH]; [done|]. intros [Hne Ha]%not_elem_of_cons. cbn. rewrite lookup_insert_ne by done. auto.
Qed.

(** ** New pages in a row *)

(** [F'] maps the [n] pages from [lo] on, with [prot], to frames nobody else
    had; the rest of it is [F], and only the bytes of these frames change. *)
Record pages_added k B (M : Z -> Prop) F k' F' (lo n prot : Z) : Prop := {
  pa_sub : F ⊆ F';
  pa_new : forall j, 0 <= j < n -> exists p, F' !! (lo + j * PAGE_SIZE) = Some (p, prot) /\ forall q, in_use R B q -> ~ M q -> q <> p;
  pa_only : forall a f, F' !! a = Some f -> F !! a = Some f \/ exists j, 0 <= j < n /\ a = lo + j * PAGE_SIZE;
  pa_bytes : forall a, (forall j p, 0 <= j < n -> F' !! (lo + j * PAGE_SIZE) = Some (p, prot) -> a ∉ page_bytes p) -> k_ram k' !! a = k_ram k !! a;
}.

Lemma pages_none k B M F lo prot : pages_added k B M F k F lo 0 prot.
Proof using Type. split; [done|lia|auto|done]. Qed.

(** One page more, in front. *)
Lemma pages_cons k B M k1 B1 M1 k2 F F2 lo n prot p :
  outside k B M k1 B1 M1 -> ~ in_use R B p -> F !! lo = None -> (forall a, a ∉ page_bytes p -> k_ram k1 !! a = k_ram k !! a) -> 0 <= n ->
  pages_added k1 B1 M1 (<[lo := (p, prot)]> F) k2 F2 (lo + PAGE_SIZE) n prot -> pages_added k B M F k2 F2 lo (n + 1) prot.
Proof using All.
  intros [Out _] Hp Hlo Hr Hn [S1 S2 S3 S4]. assert (F2 !! lo = Some (p, prot)) as Hl by (eapply lookup_weaken; [apply lookup_insert_eq|exact S1]).
  assert (forall j, 0 <= j < n + 1 -> j = 0 \/ 0 <= j - 1 < n /\ lo + j * PAGE_SIZE = lo + PAGE_SIZE + (j - 1) * PAGE_SIZE) as Hj by lia. split.
  - etransitivity; [by apply insert_subseteq|done].
  - intros j [->|[Hj1 ->]]%Hj; [exists p; rewrite Z.mul_0_l, Z.add_0_r; split; [done|]; by intros q Hq _ -> |].
    destruct (S2 _ Hj1) as (p' & Hp' & Hn'). exists p'. split; [done|]. intros q Hq Hm. destruct (Out q Hq Hm) as (Hq1 & Hm1 & _). by apply Hn'.
  - intros a f Ha. destruct (S3 a f Ha) as [Hi|(j & Hj' & ->)].
    + apply lookup_insert_Some in Hi as [[<- _]|[_ ?]]; [right; exists 0; split; lia|by left].
    + right. exists (j + 1). split; [lia|]. lia.
  - intros a Ha. rewrite S4, Hr.
    + done.
    + apply (Ha 0); [lia|]. by rewrite Z.mul_0_l, Z.add_0_r.
    + intros j p' Hj' Hp'. apply (Ha (j + 1)); [lia|]. by replace (lo + (j + 1) * PAGE_SIZE) with (lo + PAGE_SIZE + j * PAGE_SIZE) by lia.
Qed.

(** A frame from the allocator, mapped at [va]. *)
Lemma new_page k root B P F O va attr {T} (rest : Z -> kernel -> res T) Q :
  user_ok k root B P F F O -> F !! va = None -> (PAGE_SIZE | va) -> 0 <= va -> va + PAGE_SIZE <= utop -> PAGE_LEAF_LEVEL attr = 1 ->
  (forall p k' B' P', let F' := <[va := (p, prot_norm mmu_config attr)]> F in
     user_ok k' root B' P' F' F' O -> outside k B (mine P F O) k' B' (mine P' F' O) -> ~ in_use R B p -> B' !! p = Some (0, BAlloc) ->
     k_ram k' = zero_ram (k_ram k) p -> done_or_oom R (rest p k') Q) ->
  done_or_oom R ('(p, k) ← alloc_user_page k; k ← map_user_page mmu_config k root va p attr; rest p k) Q.
Proof using All.
  intros U Hva Hd H0 Hu Hl H. eapply done_bind; [by apply (user_alloc mmu_config own R R_phys utop utop_own utop_64 k root B P F F O)|].
  intros [p k1] (B1 & U1 & Hp & Hnu & O1 & Er & _). eapply done_bind.
  { apply (user_map mmu_config own R R_phys utop utop_own utop_64 k1 root B1 P F F O va p attr U1 Hva Hd H0 Hu Hl Hp).
    intros Hm. apply Hnu. by eapply (mine_in_use mmu_config own R R_phys utop utop_own utop_64). }
  intros k2 (B2 & P2 & U2 & O2 & Er2). apply (H p k2 B2 P2); [done|by eapply outside_trans|done| |congruence].
  by eapply (u_frame _ _ _ _ _ _ _ _ _ _ _ U2), lookup_insert_eq.
Qed.

(** ** syscall_anon_alloc *)
Definition URW : Z := prot_norm mmu_config PAGE_URW.

(** Zeroed frames at every page of a range. *)
Definition zeroed k F (lo n : Z) : Prop :=
  forall j p prot x, 0 <= j < n -> F !! (lo + j * PAGE_SIZE) = Some (p, prot) -> 0 <= x < PAGE_SIZE -> k_ram k !! (TO_HHDM p + x) = Some 0.

Lemma page_bytes_in p x : 0 <= x < PAGE_SIZE -> TO_HHDM p + x ∈ page_bytes p.
Proof using Type. intros Hx. apply elem_of_seqZ. lia. Qed.

Lemma bytes_apart st B p q x :
  buddy_inv R st B -> settled B -> B !! p = Some (0, BAlloc) -> B !! q = Some (0, BAlloc) -> p <> q -> 0 <= x < PAGE_SIZE -> TO_HHDM p + x ∉ page_bytes q.
Proof using All.
  intros I HS Hp Hq Hne Hx. assert (forall r, B !! r = Some (0, BAlloc) -> page_ok r) as Hok.
  { intros r Hr. apply (buddy_pages_page st {[r]}); [|set_solver]. exists R, B. split; [done|]. split; [done|]. by intros ? ->%elem_of_singleton. }
  rewrite (proj1 (hdr_to_hhdm p (Hok p Hp))). unfold page_bytes. rewrite (proj1 (hdr_to_hhdm q (Hok q Hq))), elem_of_seqZ. unfold hdr_of.
  destruct (page_apart p q (Hok p Hp) (Hok q Hq) Hne); lia.
Qed.

Lemma frame_bytes_apart k root B P F F0 O a a' p p' prot prot' x :
  user_ok k root B P F F0 O -> F0 !! a = Some (p, prot) -> F0 !! a' = Some (p', prot') -> a <> a' -> 0 <= x < PAGE_SIZE -> TO_HHDM p + x ∉ page_bytes p'.
Proof using All.
  intros U Ha Ha' Hne Hx. destruct (u_table _ _ _ _ _ _ _ _ _ _ _ U) as [I _].
  apply (bytes_apart (k_pmm k) B); [apply I|apply I|by eapply (u_frame _ _ _ _ _ _ _ _ _ _ _ U)|by eapply (u_frame _ _ _ _ _ _ _ _ _ _ _ U)| |done].
  intros ->. apply Hne. by eapply (u_inj _ _ _ _ _ _ _ _ _ _ _ U).
Qed.

Lemma anon_alloc_loop_ok root O mem (n : nat) : forall k B P F i,
  user_ok k root B P F F O -> (PAGE_SIZE | mem) -> 0 <= mem -> 0 <= i -> mem + (i + Z.of_nat n) * PAGE_SIZE <= utop ->
  (forall j, i <= j < i + Z.of_nat n -> F !! (mem + j * PAGE_SIZE) = None) ->
  done_or_oom R (anon_alloc_loop mmu_config n k root mem i) (fun k' => exists B' P' F', user_ok k' root B' P' F' F' O /\
    outside k B (mine P F O) k' B' (mine P' F' O) /\ pages_added k B (mine P F O) F k' F' (mem + i * PAGE_SIZE) (Z.of_nat n) URW /\
    zeroed k' F' (mem + i * PAGE_SIZE) (Z.of_nat n)).
Proof using All.
  induction n as [|n IH]; intros k B P F i U Hd H0 Hi Hu Hn.
  { cbn. exists B, P, F. split; [done|]. split; [apply outside_refl|]. split; [apply pages_none|]. intros j p prot x Hj. lia. }
  cbn [anon_alloc_loop]. pose proof page_pos as Hps. assert (0 <= (i + Z.of_nat (S n)) * PAGE_SIZE) by nia.
  rewrite (u64_small (i * PAGE_SIZE)), u64_small by (unfold is_u64; nia).
  eapply new_page; [exact U|apply Hn; lia| |nia|nia|done|].
  { apply Z.divide_add_r; [done|apply Z.divide_factor_r]. }
  intros p k1 B1 P1 F1 U1 O1 Hnu Hp Er. eapply done_mono; [apply (IH k1 B1 P1 F1 (i + 1) U1 Hd H0); [lia|nia|]|].
  { intros j Hj. unfold F1. rewrite lookup_insert_ne by nia. apply Hn. lia. }
  intros k2 (B2 & P2 & F2 & U2 & O2 & A2 & Z2). exists B2, P2, F2. split; [done|]. split; [by eapply outside_trans|].
  replace (mem + (i + 1) * PAGE_SIZE) with (mem + i * PAGE_SIZE + PAGE_SIZE) in A2, Z2 by lia.
  replace (Z.of_nat (S n)) with (Z.of_nat n + 1) by lia. split.
  - eapply pages_cons; [exact O1|done|apply Hn; lia| |lia|exact A2]. intros a Ha. rewrite Er. by apply zero_ram_out.
  - intros j p' prot x Hj Hf Hx. destruct (decide (j = 0)) as [->|].
    + rewrite Z.mul_0_l, Z.add_0_r in Hf. assert (F2 !! (mem + i * PAGE_SIZE) = Some (p, URW)) as E by (eapply lookup_weaken; [apply lookup_insert_eq|apply A2]).
      rewrite E in Hf. injection Hf as <- <-.
      rewrite (pa_bytes _ _ _ _ _ _ _ _ _ A2), Er; [by apply zero_ram_in, page_bytes_in|]. intros j' p'' Hj' Hf'.
      eapply (frame_bytes_apart k2 root B2 P2 F2 F2 O); [exact U2|exact E|exact Hf'|nia|done].
    + apply (Z2 (j - 1) p' prot x); [lia| |done]. by replace (mem + i * PAGE_SIZE + PAGE_SIZE + (j - 1) * PAGE_SIZE) with (mem + i * PAGE_SIZE + j * PAGE_SIZE) by lia.
Qed.

(** ** An address space in order *)
Record space_ok sp B P F O Ls : Prop := {
  so_user : user_ok (kern (valloc sp)) (pagetable sp) B P F F O;
  so_arena : arena_in PAGE_SIZE (valloc sp) O Ls;
  so_merged : VMemSpec.coalesced Ls;
  so_low : forall x b, at_addr Ls x b -> x < utop;
  so_backed : forall va f, F !! va = Some f -> at_addr Ls va true;
}.

Abbreviation spt sp := (k_pt (kern (valloc sp))).
Abbreviation sxlate sp := (xlate mmu_config (words (spt sp)) (pagetable sp)).

Lemma space_facts sp B P F O Ls :
  space_ok sp B P F O Ls -> buddy_inv R (k_pmm (kern (valloc sp))) B /\ settled B /\ (forall p, p ∈ O -> B !! p = Some (0, BAlloc)) /\
  NoDup Ls.*1 /\ segs_ok PAGE_SIZE 1 (2 ^ 64) Ls.
Proof using cfg_ok.
  intros [U Ar _ _ _]. destruct (u_table _ _ _ _ _ _ _ _ _ _ _ U) as [I _]. split; [apply I|]. split; [apply I|].
  assert (forall p, p ∈ O -> B !! p = Some (0, BAlloc)) as HO by (intros p Hp; by apply (u_objs _ _ _ _ _ _ _ _ _ _ _ U)). split; [done|].
  pose proof (arena_close (ctx_pages R (kern (valloc sp)) B O) _ _ _ _ Ar (ctx_start R _ _ _ (p_buddy _ _ _ _ _ _ _ I) (p_settled _ _ _ _ _ _ _ I) HO)) as H.
  by apply arena_at_nodup in H.
Qed.

Lemma status_once sp B P F O Ls x : space_ok sp B P F O Ls -> at_addr Ls x true -> at_addr Ls x false -> False.
Proof using cfg_ok.
  intros S (a & s & Ha & Hr & Es) (b & t & Hb & Ht & Et). destruct (space_facts _ _ _ _ _ _ S) as (_ & _ & _ & Hnd & Hok).
  destruct (segs_apart _ _ _ _ _ _ _ _ Hok Hnd Ha Hb) as [[-> ->]|H]; [congruence|lia].
Qed.

(** An operation on the arena. *)
Lemma space_step {T} sp B P F O Ls (r : res T) (get : T -> vmem_allocator kernel) (Q : T -> list entry -> Prop) :
  space_ok sp B P F O Ls ->
  (forall PO : page_alloc_ok kernel, arena PAGE_SIZE (valloc sp) Ls -> nofault r (fun x => exists L', arena (PO := PO) PAGE_SIZE (get x) L' /\ Q x L')) ->
  nofault r (fun x => exists B' O' L', arena_in PAGE_SIZE (get x) O' L' /\ Q x L' /\
    user_ok (kern (get x)) (pagetable sp) B' P F F O' /\ outside (kern (valloc sp)) B (mine P F O) (kern (get x)) B' (mine P F O') /\
    k_ram (kern (get x)) = k_ram (kern (valloc sp)) /\ words (k_pt (kern (get x))) = words (spt sp)).
Proof using All.
  intros S H. destruct (space_facts _ _ _ _ _ _ S) as (I & HS & HO & _). eapply nofault_mono; [by apply (arena_step R PAGE_SIZE (valloc sp) B O Ls r get Q I HS HO (so_arena _ _ _ _ _ _ S))|].
  intros x (O' & L' & A' & Hq & C). destruct (user_ctx mmu_config own R R_phys utop utop_own utop_64 _ _ _ _ _ _ _ _ _ (so_user _ _ _ _ _ _ S) C) as (B' & U' & Out).
  exists B', O', L'. split; [done|]. split; [done|]. split; [done|]. split; [done|]. destruct C as [Ek _]. rewrite Ek. done.
Qed.

Lemma rounded_size size : 0 < size -> size + 2 * PAGE_SIZE <= 2 ^ 64 ->
  size <= ALIGN_UP size PAGE_SIZE < size + PAGE_SIZE /\ (PAGE_SIZE | ALIGN_UP size PAGE_SIZE) /\ ALIGN_UP (ALIGN_UP size PAGE_SIZE) PAGE_SIZE = ALIGN_UP size PAGE_SIZE.
Proof using All.
  intros H0 Hs. pose proof page_pos as Hps. pose proof shift_range as Hsh. assert (PAGE_SIZE = 2 ^ PAGE_SIZE_SHIFT) as Ep by apply PAGE_SIZE_eq.
  destruct (ALIGN_UP_bounds size PAGE_SIZE_SHIFT) as [D Bz]; [lia|unfold is_u64; lia|rewrite <- Ep; lia|]. rewrite <- Ep in D, Bz. split; [done|]. split; [done|].
  assert (is_u64 (ALIGN_UP size PAGE_SIZE)) as Hu by (unfold is_u64; lia). rewrite Ep in D, Hu |- *. apply ALIGN_UP_aligned; [lia|done|done].
Qed.

(** The pages of a range of addresses. *)
Lemma page_in_range lo n x : (PAGE_SIZE | lo) -> lo <= x < lo + n * PAGE_SIZE -> exists j, 0 <= j < n /\ page_of x = lo + j * PAGE_SIZE.
Proof using All.
  intros Hd Hx. pose proof page_pos as Hps. pose proof (proj1 (page_of_in x (page_of x) (page_of_divide x)) eq_refl) as Hp.
  destruct (page_of_divide x) as [i Hi], Hd as [a ->]. exists (i - a). rewrite Hi in *. split; [|lia].
  split; [assert (a < i + 1) by (apply (Z.mul_lt_mono_pos_r PAGE_SIZE); lia); lia|].
  assert (i < a + n) by (apply (Z.mul_lt_mono_pos_r PAGE_SIZE); lia). lia.
Qed.

(** What the caller of an allocation gets: a range that was free, every page of
    it a zeroed frame that was nobody else's; everything else is as before. *)
Definition range_given sp B P F O Ls sp' (mem len prot : Z) : Prop :=
  exists B' P' F' O' Ls', space_ok sp' B' P' F' O' Ls' /\ pagetable sp' = pagetable sp /\
    0 < mem /\ (PAGE_SIZE | mem) /\
    (exists e, len <= e < len + PAGE_SIZE /\ (e = len \/ forall b, ~ at_addr Ls (mem + e) b) /\ range_free Ls mem e /\ range_becomes Ls Ls' mem (mem + e) true) /\
    (forall x, mem <= x < mem + len -> exists p, sxlate sp' x = Some (p + x mod PAGE_SIZE, prot) /\
       k_ram (kern (valloc sp')) !! (TO_HHDM p + x mod PAGE_SIZE) = Some 0 /\ forall q, in_use R B q -> ~ mine P F O q -> q <> p) /\
    (forall x, owned mmu_config own x -> ~ (mem <= x < mem + len) -> sxlate sp' x = sxlate sp x) /\
    outside (kern (valloc sp)) B (mine P F O) (kern (valloc sp')) B' (mine P' F' O').

Lemma shown_added k B M F k' F' lo n prot x :
  pages_added k B M F k' F' lo n prot -> (PAGE_SIZE | lo) -> ~ (lo <= x < lo + n * PAGE_SIZE) -> shown F' x = shown F x.
Proof using All.
  intros [S1 S2 S3 S4] Hd Hx. unfold shown. destruct (F !! page_of x) as [f|] eqn:E; [by rewrite (lookup_weaken _ _ _ _ E S1)|].
  destruct (F' !! page_of x) as [f|] eqn:E'; [|done]. destruct (S3 _ _ E') as [?|(j & Hj & Ej)]; [congruence|]. exfalso. apply Hx.
  pose proof page_pos. pose proof (proj1 (page_of_in x (page_of x) (page_of_divide x)) eq_refl) as Hp. rewrite Ej in Hp. nia.
Qed.

(** The result of [vmem_alloc], whatever pages the segments need. *)
Definition alloc_result (v : vmem_allocator kernel) size addr Ls (x : Z * vmem_allocator kernel) Ls' : Prop :=
  x.1 = 0 /\ x.2 = v /\ Ls' = Ls /\ (~ (PAGE_SIZE | addr) \/ no_fit size addr Ls) \/ exists e, alloc_done PAGE_SIZE size e addr x.1 Ls Ls'.

Lemma space_alloc sp B P F O Ls size addr :
  space_ok sp B P F O Ls -> 0 < size -> size + 2 * PAGE_SIZE <= 2 ^ 64 -> ALIGN_UP size PAGE_SIZE = size -> is_u64 addr ->
  nofault (vmem_alloc (valloc sp) size addr) (fun x => exists B' O' Ls', arena_in PAGE_SIZE x.2 O' Ls' /\ alloc_result (valloc sp) size addr Ls x Ls' /\
    user_ok (kern x.2) (pagetable sp) B' P F F O' /\ outside (kern (valloc sp)) B (mine P F O) (kern x.2) B' (mine P F O') /\
    k_ram (kern x.2) = k_ram (kern (valloc sp)) /\ words (k_pt (kern x.2)) = words (spt sp)).
Proof using All.
  intros S H0 Hs Hal Ha. apply (space_step sp B P F O Ls _ snd (alloc_result (valloc sp) size addr Ls) S). intros PO Ar. pose proof page_pos as Hps.
  eapply nofault_mono; [apply (vmem_alloc_ok hhdm_aligned PAGE_SIZE (valloc sp) Ls size addr Ar H0); [lia|done]|]. rewrite Hal.
  intros [r v'] [(-> & -> & Hn)|(e & Ls' & A' & Hd)].
  - exists Ls. split; [done|]. by left.
  - exists Ls'. split; [done|]. right. by exists e.
Qed.

(** New pages in the range the arena gave. *)
Lemma space_fill sp B P F O Ls k1 v1 B1 O1 Ls1 mem size e addr k2 B2 P2 F2 prot :
  space_ok sp B P F O Ls -> (PAGE_SIZE | size) -> 0 < size ->
  arena_in PAGE_SIZE v1 O1 Ls1 -> alloc_done PAGE_SIZE size e addr mem Ls Ls1 -> k1 = kern v1 ->
  outside (kern (valloc sp)) B (mine P F O) k1 B1 (mine P F O1) -> user_ok k1 (pagetable sp) B1 P F F O1 ->
  user_ok k2 (pagetable sp) B2 P2 F2 F2 O1 -> outside k1 B1 (mine P F O1) k2 B2 (mine P2 F2 O1) ->
  pages_added k1 B1 (mine P F O1) F k2 F2 mem (size / PAGE_SIZE) prot ->
  let sp' := with_valloc sp (with_kern v1 k2) in
  space_ok sp' B2 P2 F2 O1 Ls1 /\ outside (kern (valloc sp)) B (mine P F O) (kern (valloc sp')) B2 (mine P2 F2 O1) /\
  (forall x, mem <= x < mem + size -> exists p, F2 !! page_of x = Some (p, prot) /\ sxlate sp' x = Some (p + x mod PAGE_SIZE, prot) /\
     forall q, in_use R B q -> ~ mine P F O q -> q <> p) /\
  (forall x, owned mmu_config own x -> ~ (mem <= x < mem + size) -> sxlate sp' x = sxlate sp x).
Proof using All.
  intros S Hds H0 A1 [De Dt Dp Dq Df Dw Dr Dc] Ek O01 U1 U2 O12 Pg sp'. pose proof page_pos as Hps.
  assert (size / PAGE_SIZE * PAGE_SIZE = size) as Esz by (destruct Hds as [n ->]; by rewrite Z.div_mul by lia).
  assert (forall x b, at_addr Ls1 x b -> x < utop) as Hlow.
  { intros x b [[Hx _]|[_ Hx]]%(Dr x b); [|by eapply (so_low _ _ _ _ _ _ S)]. apply (so_low _ _ _ _ _ _ S x false). by apply Dw. }
  assert (forall va f, F2 !! va = Some f -> at_addr Ls1 va true) as Hback.
  { intros va f Hf. apply (Dr va true). destruct (pa_only _ _ _ _ _ _ _ _ _ Pg va f Hf) as [Hold|(j & Hj & ->)]; [|left; nia].
    pose proof (so_backed _ _ _ _ _ _ S va f Hold) as Ht. right. split; [|done]. intros Hin. by apply (status_once _ _ _ _ _ _ va S Ht), Dw. }
  assert (space_ok sp' B2 P2 F2 O1 Ls1) as S'.
  { split; [exact U2|by apply arena_in_kern|by apply Dc, (so_merged _ _ _ _ _ _ S)|exact Hlow|exact Hback]. }
  split; [done|]. split; [eapply outside_trans; [exact O01|exact O12]|]. split.
  - intros x Hx. rewrite <- Esz in Hx. destruct (page_in_range mem _ x Dq Hx) as (j & Hj & Ep). destruct (pa_new _ _ _ _ _ _ _ _ _ Pg j Hj) as (p & Hp & Hq).
    exists p. rewrite Ep. split; [done|]. split.
    + change (sxlate sp' x) with (xlate mmu_config (words (k_pt k2)) (pagetable sp) x). rewrite (u_xlate _ _ _ _ _ _ _ _ _ _ _ U2); [unfold shown; by rewrite Ep, Hp|]. apply utop_own. split; [lia|].
      apply (Hlow x true), (Dr x true). left. split; [lia|done].
    + intros q Hq1 Hq2. destruct O01 as [O01 _]. destruct (O01 q Hq1 Hq2) as (Hq3 & Hq4 & _). by apply Hq.
  - intros x Hx Hout. change (sxlate sp' x) with (xlate mmu_config (words (k_pt k2)) (pagetable sp) x). rewrite (u_xlate _ _ _ _ _ _ _ _ _ _ _ U2 x Hx), (u_xlate _ _ _ _ _ _ _ _ _ _ _ (so_user _ _ _ _ _ _ S) x Hx).
    eapply shown_added; [exact Pg|done|]. by rewrite Esz.
Qed.

(** An allocation that was refused had no room. *)
Lemma no_room sp B P F O Ls size addr y :
  space_ok sp B P F O Ls -> 0 < size -> no_fit size addr Ls -> addr = 0 \/ y = addr -> ~ range_free Ls y size.
Proof using All.
  intros S H0 Hn Ha Hy. destruct (space_facts _ _ _ _ _ _ S) as (_ & _ & _ & Hnd & Hok).
  destruct (free_range_fits _ _ _ _ y size Hok Hnd (so_merged _ _ _ _ _ _ S) H0 Hy) as (a & s & Hin & Hf & Hb1 & Hb2).
  apply (Hn a s Hin Hf). unfold fits, s_end in *. split; [lia|destruct Ha; [by left|right; lia]].
Qed.

(** A range that was free is the user's to map, and nothing is mapped in it. *)
Lemma free_range_clear sp B P F O Ls mem size :
  space_ok sp B P F O Ls -> 0 < size -> range_free Ls mem size ->
  mem + size <= utop /\ forall j, 0 <= j < size / PAGE_SIZE -> F !! (mem + j * PAGE_SIZE) = None.
Proof using All.
  intros S H0 Hf. split; [assert (mem + size - 1 < utop); [|lia]; apply (so_low _ _ _ _ _ _ S _ false), Hf; lia|].
  intros j Hj. destruct (F !! (mem + j * PAGE_SIZE)) as [f|] eqn:E; [|done]. exfalso. pose proof page_pos as Hps. pose proof (Z.mul_div_le size PAGE_SIZE Hps).
  apply (status_once _ _ _ _ _ _ (mem + j * PAGE_SIZE) S (so_backed _ _ _ _ _ _ S _ _ E)), Hf. nia.
Qed.

(** A range the arena gave, every page of it mapped to a new frame of zeroes. *)
Lemma zeroed_given sp B P F O Ls v1 B1 O1 Ls1 mem size e k2 B2 P2 F2 :
  space_ok sp B P F O Ls -> (PAGE_SIZE | size) -> 0 < size -> arena_in PAGE_SIZE v1 O1 Ls1 -> alloc_done PAGE_SIZE size e 0 mem Ls Ls1 ->
  outside (kern (valloc sp)) B (mine P F O) (kern v1) B1 (mine P F O1) -> user_ok (kern v1) (pagetable sp) B1 P F F O1 ->
  user_ok k2 (pagetable sp) B2 P2 F2 F2 O1 -> outside (kern v1) B1 (mine P F O1) k2 B2 (mine P2 F2 O1) ->
  pages_added (kern v1) B1 (mine P F O1) F k2 F2 mem (size / PAGE_SIZE) URW -> zeroed k2 F2 mem (size / PAGE_SIZE) ->
  range_given sp B P F O Ls (with_valloc sp (with_kern v1 k2)) mem size URW.
Proof using All.
  intros S Dz H0 A1 Hd O01 U1 U2 O12 Pg Zr. pose proof Hd as [De Dt Dp Dq Df Dw Dr Dc]. pose proof page_pos as Hps.
  assert (size / PAGE_SIZE * PAGE_SIZE = size) as Esz by (destruct Dz as [n ->]; by rewrite Z.div_mul by lia).
  destruct (space_fill sp B P F O Ls (kern v1) v1 B1 O1 Ls1 mem size e 0 k2 B2 P2 F2 URW S Dz H0 A1 Hd eq_refl O01 U1 U2 O12 Pg) as (S' & Out & Hin & Hout).
  exists B2, P2, F2, O1, Ls1. split; [exact S'|]. split; [done|]. split; [done|]. split; [done|]. split; [by exists e|].
  split; [|split; [exact Hout|exact Out]]. intros x Hx. destruct (Hin x Hx) as (p & Hp & Hxl & Hq). exists p. split; [exact Hxl|]. split; [|exact Hq].
  rewrite <- Esz in Hx. destruct (page_in_range mem _ x Dq Hx) as (j & Hj & Ep). rewrite Ep in Hp.
  apply (Zr j p URW (x mod PAGE_SIZE) Hj Hp). apply Z.mod_pos_bound. done.
Qed.

Lemma anon_alloc_ok sp B P F O Ls size :
  space_ok sp B P F O Ls -> 0 < size -> size + 2 * PAGE_SIZE <= 2 ^ 64 ->
  nofault (syscall_anon_alloc mmu_config sp size) (fun '(r, sp') =>
    r = SYSRET_ENOMEM /\ sp' = sp /\ (forall y, ~ range_free Ls y (ALIGN_UP size PAGE_SIZE)) \/
    error r = 0 /\ range_given sp B P F O Ls sp' (retval r) (ALIGN_UP size PAGE_SIZE) URW).
Proof using All.
  intros S H0 Hs. pose proof page_pos as Hps. unfold syscall_anon_alloc. destruct (rounded_size size H0 Hs) as (Bz & Dz & Ez). set (sz := ALIGN_UP size PAGE_SIZE) in *.
  assert (sz + 2 * PAGE_SIZE <= 2 ^ 64) as Hsz.
  { destruct Dz as [n Hn]. pose proof shift_range. assert (PAGE_SIZE | 2 ^ 64) as [m Hm] by (rewrite PAGE_SIZE_eq; apply pow_divides_top; lia).
    rewrite Hn, Hm in *. assert (n * PAGE_SIZE < (m - 1) * PAGE_SIZE) as Hlt by lia. apply Z.mul_lt_mono_pos_r in Hlt; [|done]. nia. }
  eapply nofault_bind; [apply (space_alloc sp B P F O Ls sz 0 S); [lia|done|done|unfold is_u64; lia]|].
  intros [mem v1] (B1 & O1 & Ls1 & A1 & Hres & U1 & O01 & Er & Ew). unfold alloc_result in Hres. cbn [fst snd] in *. destruct Hres as [(-> & -> & -> & Hn)|(e & Hd)].
  - cbn. left. split; [done|]. split; [by destruct sp|]. intros y. destruct Hn as [Hn|Hn]; [destruct Hn; apply Z.divide_0_r|]. eapply no_room; [exact S|lia|exact Hn|by left].
  - pose proof (ad_pos _ _ _ _ _ _ _ Hd). rewrite (proj2 (Z.eqb_neq mem 0)) by lia. pose proof shift_range. pose proof (ad_extent _ _ _ _ _ _ _ Hd).
    destruct (free_range_clear sp B P F O Ls mem sz S ltac:(lia)) as [Hu Hnone]; [intros x Hx; apply (ad_was_free _ _ _ _ _ _ _ Hd); lia|].
    rewrite Z.shiftr_div_pow2, <- PAGE_SIZE_eq by lia. assert (sz / PAGE_SIZE * PAGE_SIZE = sz) as Esz by (destruct Dz as [n ->]; by rewrite Z.div_mul by lia).
    assert (0 <= sz / PAGE_SIZE) as Hpos by (apply Z.div_pos; lia).
    eapply nofault_bind; [apply done_nofault, (anon_alloc_loop_ok (pagetable sp) O1 mem (Z.to_nat (sz / PAGE_SIZE)) (kern v1) B1 P F 0 U1 (ad_aligned _ _ _ _ _ _ _ Hd)); rewrite ?Z2Nat.id by done; (lia || done)|].
    rewrite Z2Nat.id, Z.mul_0_l, Z.add_0_r by done. intros k2 (B2 & P2 & F2 & U2 & O12 & Pg & Zr). cbn [nofault]. right. split; [done|].
    eapply zeroed_given; [exact S|done|lia|exact A1|exact Hd|exact O01|exact U1|exact U2|exact O12|exact Pg|exact Zr].
Qed.

(** ** syscall_anon_free *)
Lemma clear_clear lo len len' F : 0 <= len -> 0 <= len' -> clear (lo + len) len' (clear lo len F) = clear lo (len + len') F.
Proof using Type.
  intros H H'. apply map_eq. intros a. apply option_eq. intros f. rewrite !clear_Some. split; [intros [[? ?] ?]; split; [done|lia]|]. intros [? ?]. split; [split; [done|lia]|lia].
Qed.

Lemma clear_none lo len F : (forall a f, F !! a = Some f -> ~ (lo <= a < lo + len)) -> clear lo len F = F.
Proof using Type. intros H. apply map_eq. intros a. apply option_eq. intros f. rewrite clear_Some. split; [by intros [? _]|]. intros Hf. split; [done|by eapply H]. Qed.

(** The only page in a page. *)
Lemma one_page k root B P F F0 O va a f :
  user_ok k root B P F F0 O -> F !! a = Some f -> (PAGE_SIZE | va) -> va <= a < va + PAGE_SIZE -> a = va.
Proof using All.
  intros U Hf Hd Ha. destruct (u_page _ _ _ _ _ _ _ _ _ _ _ U a f Hf) as (Hda & _). rewrite <- (page_of_in a va Hd) in Ha. by rewrite (proj1 (page_of_aligned a Hda)) in Ha.
Qed.

(** One turn: a page that is mapped is unmapped and its frame freed. *)
Lemma drop_user_page k root B P F O va :
  user_ok k root B P F F O -> (PAGE_SIZE | va) -> 0 <= va -> va + PAGE_SIZE <= utop ->
  done_or_oom R ('(paddr, _) ← paging_get_paddr mmu_config (words (k_pt k)) root va;
      if paddr =? 0 then Ok k
      else s ← paging_unmap_page mmu_config (k_pt k) root va PAGE_NORM; free_user_page (with_k_pt k s) paddr)
    (fun k' => exists B' P', user_ok k' root B' P' (clear va PAGE_SIZE F) (clear va PAGE_SIZE F) O /\
       outside k B (mine P F O) k' B' (mine P' (clear va PAGE_SIZE F) O)).
Proof using All.
  intros U Hd H0 Hu. pose proof page_pos as Hps. rewrite (user_get mmu_config own R R_phys utop utop_own utop_64 k root B P F F O va U Hd ltac:(lia)), bind_Ok.
  destruct (F !! va) as [[p pr]|] eqn:Hf.
  - destruct (u_frame _ _ _ _ _ _ _ _ _ _ _ U va p pr Hf) as (Hp & Hfr & HnO). destruct (u_table _ _ _ _ _ _ _ _ _ _ _ U) as [I _].
    destruct (page_room mmu_config own R R_phys utop utop_own utop_64 _ _ _ (p_buddy _ _ _ _ _ _ _ I) Hp) as (Hp0 & _). rewrite (proj2 (Z.eqb_neq p 0)) by lia.
    unfold paging_unmap_page. change (PAGE_LEAF_LEVEL PAGE_NORM) with 1. pose proof (top_range mmu_config). rewrite (PAGING_ENTRY_SIZE_eq mmu_config 1), sz_1 by lia.
    assert (IS_ALIGNED va PAGE_SIZE = true) as -> by (rewrite PAGE_SIZE_eq in *; pose proof shift_range; apply IS_ALIGNED_spec; [lia|unfold is_u64; lia|done]).
    cbn [dbg_assert]. rewrite bind_Ok. eapply done_bind; [by apply (user_unmap mmu_config own R R_phys utop utop_own utop_64 k root B P F F O va PAGE_SIZE U Hd H0 (Z.divide_refl _) Hps)|].
    intros s' (B1 & P1 & U1 & Keep & Out1). destruct (Keep p Hp Hfr) as [Hp1 Hfr1].
    assert (~ mine P1 (clear va PAGE_SIZE F) O p) as Hnm.
    { apply not_mine. split; [done|]. split; [|done]. intros a pr' [Ha Hn]%clear_Some. apply Hn. assert (a = va) as -> by (by eapply (u_inj _ _ _ _ _ _ _ _ _ _ _ U)). lia. }
    destruct (user_free mmu_config own R R_phys utop utop_own utop_64 _ root B1 P1 _ _ O p U1 Hp1 Hnm) as (k2 & B2 & -> & U2 & Out2 & _).
    cbn [done_or_oom]. exists B2, P1. split; [done|]. eapply outside_trans; [|exact Out2]. eapply outside_ext; [| |exact Out1]; [done|]. intros q. split.
    + intros [?|(a & pr' & Ha & Haf)]; [by left|right]. assert (a = va) as -> by (by eapply (one_page k)). congruence.
    + intros [?| ->]; [by left|right]. exists va, pr. split; [lia|done].
  - cbn. exists B, P. rewrite clear_none; [split; [done|apply outside_refl]|]. intros a f Ha Hin. assert (a = va) as -> by (by eapply (one_page k)). congruence.
Qed.

Lemma anon_free_loop_ok root O base (n : nat) : forall k B P F i,
  user_ok k root B P F F O -> (PAGE_SIZE | base) -> 0 <= base -> 0 <= i -> base + (i + Z.of_nat n) * PAGE_SIZE <= utop ->
  done_or_oom R (anon_free_loop mmu_config n k root base i) (fun k' => exists B' P', let F' := clear (base + i * PAGE_SIZE) (Z.of_nat n * PAGE_SIZE) F in
    user_ok k' root B' P' F' F' O /\ outside k B (mine P F O) k' B' (mine P' F' O)).
Proof using All.
  induction n as [|n IH]; intros k B P F i U Hd H0 Hi Hu.
  { cbn. exists B, P. rewrite clear_none; [split; [done|apply outside_refl]|]. lia. }
  cbn [anon_free_loop]. pose proof page_pos as Hps. assert (0 <= (i + Z.of_nat (S n)) * PAGE_SIZE) by nia.
  rewrite (u64_small (i * PAGE_SIZE)), u64_small by (unfold is_u64; nia).
  pose proof (drop_user_page k root B P F O (base + i * PAGE_SIZE) U) as Hdrop.
  destruct (paging_get_paddr mmu_config (words (k_pt k)) root (base + i * PAGE_SIZE)) as [[paddr lv]| | |] eqn:Eg; rewrite ?bind_Ok in Hdrop;
    try (exfalso; apply Hdrop; [apply Z.divide_add_r; [done|apply Z.divide_factor_r]|nia|nia]).
  2: { cbn in Hdrop |- *. apply Hdrop; [apply Z.divide_add_r; [done|apply Z.divide_factor_r]|nia|nia]. }
  rewrite bind_Ok. eapply done_bind; [apply Hdrop; [apply Z.divide_add_r; [done|apply Z.divide_factor_r]|nia|nia]|].
  intros k1 (B1 & P1 & U1 & O1). eapply done_mono; [apply (IH k1 B1 P1 _ (i + 1) U1 Hd H0); [lia|nia]|].
  intros k2 (B2 & P2 & U2 & O2). exists B2, P2. cbv zeta.
  replace (base + (i + 1) * PAGE_SIZE) with (base + i * PAGE_SIZE + PAGE_SIZE) in U2, O2 by lia. rewrite clear_clear in U2, O2 by nia.
  replace (PAGE_SIZE + Z.of_nat n * PAGE_SIZE) with (Z.of_nat (S n) * PAGE_SIZE) in U2, O2 by lia. split; [done|]. by eapply outside_trans.
Qed.

Lemma anon_free_ok sp B P F O Ls base len :
  space_ok sp B P F O Ls -> is_u64 base -> 0 < len -> len + 2 * PAGE_SIZE <= 2 ^ 64 ->
  let lo := ALIGN_DOWN base PAGE_SIZE in let n := ALIGN_UP len PAGE_SIZE in
  lo + n <= utop ->
  nofault (syscall_anon_free mmu_config sp base len) (fun '(r, sp') => r = SYSRET_OKAY /\ exists B' P' O' Ls' stop,
    space_ok sp' B' P' (clear lo n F) O' Ls' /\ pagetable sp' = pagetable sp /\
    lo <= stop <= lo + n /\ (stop = lo + n \/ ~ at_addr Ls stop true) /\ (forall x, lo <= x < stop -> at_addr Ls x true) /\ range_becomes Ls Ls' lo stop false /\
    (forall x, owned mmu_config own x -> sxlate sp' x = if decide (lo <= x < lo + n) then None else sxlate sp x) /\
    outside (kern (valloc sp)) B (mine P F O) (kern (valloc sp')) B' (mine P' (clear lo n F) O')).
Proof using All.
  intros S Hb H0 Hs lo n Hu. pose proof page_pos as Hps. pose proof shift_range as Hsh. destruct (rounded_size len H0 Hs) as (Bz & Dz & Ez). fold n in Bz, Dz, Ez.
  assert ((PAGE_SIZE | lo) /\ 0 <= lo) as [Dlo Hlo].
  { unfold lo. rewrite PAGE_SIZE_eq. rewrite ALIGN_DOWN_spec by (done || lia). pose proof (Z.div_mod base (2 ^ PAGE_SIZE_SHIFT)) as Hdm.
    assert (0 < 2 ^ PAGE_SIZE_SHIFT) as Hp by (apply Z.pow_pos_nonneg; lia). split; [exists (base / 2 ^ PAGE_SIZE_SHIFT); lia|].
    assert (0 <= base / 2 ^ PAGE_SIZE_SHIFT) by (apply Z.div_pos; [apply Hb|lia]). nia. }
  assert (lo + n + (PAGE_SIZE - 1) < 2 ^ 64) as Hroom.
  { assert (PAGE_SIZE | 2 ^ 64) as [m Hm] by (rewrite PAGE_SIZE_eq; apply pow_divides_top; lia). destruct Dlo as [i Hi], Dz as [j Hj]. rewrite Hi, Hj, Hm in *.
    assert ((i + j) * PAGE_SIZE < m * PAGE_SIZE) as Hlt by lia. apply Z.mul_lt_mono_pos_r in Hlt; [|done]. assert (i + j + 1 <= m) as Hle by lia.
    apply (Z.mul_le_mono_nonneg_r _ _ PAGE_SIZE) in Hle; lia. }
  unfold syscall_anon_free. fold lo n. rewrite Z.shiftr_div_pow2, <- PAGE_SIZE_eq by lia.
  assert (n / PAGE_SIZE * PAGE_SIZE = n) as En by (destruct Dz as [m ->]; by rewrite Z.div_mul by lia). assert (0 <= n / PAGE_SIZE) as Hpos by (apply Z.div_pos; lia).
  eapply nofault_bind; [apply done_nofault, (anon_free_loop_ok (pagetable sp) O lo (Z.to_nat (n / PAGE_SIZE)) (kern (valloc sp)) B P F 0 (so_user _ _ _ _ _ _ S)); [done|done|lia|rewrite Z2Nat.id by done; lia]|].
  rewrite Z2Nat.id by done. cbv zeta. rewrite En, Z.mul_0_l, Z.add_0_r. intros k1 (B1 & P1 & U1 & Out1).
  set (sp1 := with_valloc sp (with_kern (valloc sp) k1)).
  assert (space_ok sp1 B1 P1 (clear lo n F) O Ls) as S1.
  { destruct S as [U Ar Mg Lo Bk]. split; [exact U1|by apply arena_in_kern|done|done|]. intros va f [Hf _]%clear_Some. by eapply Bk. }
  eapply nofault_bind; [apply (space_step sp1 B1 P1 _ O Ls (vmem_free (with_kern (valloc sp) k1) lo n) id
    (fun v' Ls' => exists stop, freed lo (lo + n) stop Ls Ls') S1)|].
  - intros PO Ar. eapply nofault_mono; [apply (vmem_free_ok hhdm_aligned PAGE_SIZE _ Ls lo n Ar Dlo Hlo); [lia|exact Hroom|]|].
    + intros a s Ha Hal _. destruct (space_facts _ _ _ _ _ _ S) as (_ & _ & _ & _ & Hok). destruct (segs_ok_bounds _ _ _ _ _ _ Hok Ha) as (_ & _ & Hp & _).
      assert (s_end s - 1 < utop); [|lia]. apply (so_low _ _ _ _ _ _ S _ true). exists a, s. split; [done|]. split; [unfold s_end; lia|done].
    + rewrite Ez. intros v' (stop & Ls' & A' & D). exists Ls'. split; [exact A'|]. by exists stop.
  - intros v' (B2 & O2 & Ls2 & A2 & (stop & [D1 D2 Hr D4 D5]) & U2 & Out2 & _ & Ew). cbn [nofault id] in *. split; [done|]. exists B2, P1, O2, Ls2, stop.
    assert (space_ok (with_valloc sp v') B2 P1 (clear lo n F) O2 Ls2) as S2.
    { split; [exact U2|exact A2|by apply D5, (so_merged _ _ _ _ _ _ S)| |].
      - intros x b [[Hx _]|[_ Hx]]%(Hr x b); [lia|]. by eapply (so_low _ _ _ _ _ _ S).
      - intros va f [Hf Hn]%clear_Some. apply (Hr va true). right. split; [lia|]. by eapply (so_backed _ _ _ _ _ _ S). }
    split; [exact S2|]. split; [done|]. split; [exact D1|]. split; [exact D4|]. split; [exact D2|]. split; [exact Hr|]. split; [|eapply outside_trans; [exact Out1|exact Out2]].
    intros x Hx. rewrite (u_xlate _ _ _ _ _ _ _ _ _ _ _ (so_user _ _ _ _ _ _ S2) x Hx), (u_xlate _ _ _ _ _ _ _ _ _ _ _ (so_user _ _ _ _ _ _ S) x Hx).
    apply (shown_clear mmu_config own R R_phys utop utop_own utop_64); done.
Qed.

(** ** free_address_space *)
Lemma clear_one k root B P F F0 O va p prot : user_ok k root B P F F0 O -> F0 !! va = Some (p, prot) -> clear va PAGE_SIZE F0 = delete va F0.
Proof using All.
  intros U Hf. destruct (u_page _ _ _ _ _ _ _ _ _ _ _ U va (p, prot) (lookup_weaken _ _ _ _ Hf (u_sub _ _ _ _ _ _ _ _ _ _ _ U))) as (Hd & _). pose proof page_pos.
  apply map_eq. intros a. apply option_eq. intros f. rewrite clear_Some, lookup_delete_Some. split; intros [H1 H2]; (split; [|done]) || (split; [done|]).
  - intros ->. apply H2. lia.
  - intros Hin. apply H1. symmetry. eapply one_page; [exact U|by eapply lookup_weaken, (u_sub _ _ _ _ _ _ _ _ _ _ _ U)|done|done].
Qed.

(** The frames of a row of pages go back while the tables still name them. *)
Lemma free_pages_ok root O P F base (n : nat) : forall k B F0 i,
  user_ok k root B P F F0 O -> (PAGE_SIZE | base) -> 0 <= base -> 0 <= i -> base + (i + Z.of_nat n) * PAGE_SIZE <= utop ->
  (forall a f, F !! a = Some f -> base + i * PAGE_SIZE <= a < base + (i + Z.of_nat n) * PAGE_SIZE -> F0 !! a = Some f) ->
  exists k' B', free_pages mmu_config n k root base i = Ok k' /\
    user_ok k' root B' P F (clear (base + i * PAGE_SIZE) (Z.of_nat n * PAGE_SIZE) F0) O /\
    outside k B (mine P F0 O) k' B' (mine P (clear (base + i * PAGE_SIZE) (Z.of_nat n * PAGE_SIZE) F0) O).
Proof using All.
  pose proof page_pos as Hps. pose proof shift_range as Hsh. induction n as [|n IH]; intros k B F0 i U Hd H0 Hi Hu Hall.
  { exists k, B. rewrite clear_none; [|lia]. split; [done|]. split; [done|apply outside_refl]. }
  cbn [free_pages]. assert (0 <= (i + Z.of_nat (S n)) * PAGE_SIZE) by nia.
  assert (shl64 i PAGE_SIZE_SHIFT = i * PAGE_SIZE) as -> by (unfold shl64; rewrite Z.shiftl_mul_pow2, <- PAGE_SIZE_eq by lia; apply u64_small; unfold is_u64; nia).
  rewrite u64_small by (unfold is_u64; nia). set (va := base + i * PAGE_SIZE).
  assert (PAGE_SIZE | va) as Hdv by (apply Z.divide_add_r; [done|apply Z.divide_factor_r]).
  rewrite (user_get mmu_config own R R_phys utop utop_own utop_64 k root B P F F0 O va U Hdv ltac:(nia)), bind_Ok.
  assert (exists k1 B1, (if (match F !! va with Some (p, _) => (p, Some 1) | None => (0, None) end).1 =? 0 then Ok k else free_user_page k (match F !! va with Some (p, _) => (p, Some 1) | None => (0, None) end).1) = Ok k1 /\
    user_ok k1 root B1 P F (clear va PAGE_SIZE F0) O /\ outside k B (mine P F0 O) k1 B1 (mine P (clear va PAGE_SIZE F0) O)) as (k1 & B1 & E1 & U1 & O1).
  { destruct (F !! va) as [[p pr]|] eqn:Hf; cbn [fst].
    - pose proof (Hall va (p, pr) Hf ltac:(nia)) as Hf0. destruct (u_frame _ _ _ _ _ _ _ _ _ _ _ U va p pr Hf0) as (Hp & _). destruct (u_table _ _ _ _ _ _ _ _ _ _ _ U) as [I _].
      destruct (page_room mmu_config own R R_phys utop utop_own utop_64 _ _ _ (p_buddy _ _ _ _ _ _ _ I) Hp) as (Hp0 & _). rewrite (proj2 (Z.eqb_neq p 0)) by lia.
      destruct (user_forget mmu_config own R R_phys utop utop_own utop_64 k root B P F F0 O va p pr U Hf0) as (U' & Hnm & Hm).
      destruct (user_free mmu_config own R R_phys utop utop_own utop_64 k root B P F _ O p U' Hp Hnm) as (k1 & B1 & E1 & U1 & O1 & _).
      exists k1, B1. rewrite (clear_one k root B P F F0 O va p pr U Hf0). split; [done|]. split; [done|]. eapply outside_ext; [|done|exact O1]. intros q. by rewrite Hm.
    - exists k, B. split; [done|]. rewrite clear_none; [split; [done|apply outside_refl]|]. intros a f Ha Hin.
      assert (F !! a = Some f) as Ha' by (by eapply lookup_weaken, (u_sub _ _ _ _ _ _ _ _ _ _ _ U)). assert (a = va) as -> by (by eapply (one_page k)). congruence. }
  destruct (match F !! va with Some (p, _) => (p, Some 1) | None => (0, None) end) as [paddr lv]. cbn [fst] in E1. rewrite E1, bind_Ok.
  destruct (IH k1 B1 (clear va PAGE_SIZE F0) (i + 1) U1 Hd H0 ltac:(lia) ltac:(lia)) as (k2 & B2 & E2 & U2 & O2).
  { intros a f Ha Hin. apply clear_Some. split; [apply Hall; [done|nia]|]. intros Hin2. unfold va in Hin2. nia. }
  exists k2, B2. rewrite E2. replace (base + (i + 1) * PAGE_SIZE) with (va + PAGE_SIZE) in U2, O2 by lia. rewrite clear_clear in U2, O2 by nia.
  replace (PAGE_SIZE + Z.of_nat n * PAGE_SIZE) with (Z.of_nat (S n) * PAGE_SIZE) in U2, O2 by lia. split; [done|]. split; [done|]. by eapply outside_trans.
Qed.

Lemma clear_twice lo len F : clear lo len (clear lo len F) = clear lo len F.
Proof using Type. apply clear_none. by intros a f [_ H]%clear_Some. Qed.

Lemma release_segment_ok k root B P F O seg :
  user_ok k root B P F F O -> (PAGE_SIZE | s_base seg) -> 0 <= s_base seg -> (PAGE_SIZE | s_size seg) -> 0 < s_size seg -> s_end seg <= utop ->
  done_or_oom R (release_segment_pages mmu_config k root seg) (fun k' => exists B' P', let F' := clear (s_base seg) (s_size seg) F in
    user_ok k' root B' P' F' F' O /\ outside k B (mine P F O) k' B' (mine P' F' O)).
Proof using All.
  intros U Hb H0 Hz Hs Hu. unfold s_end in Hu. pose proof page_pos as Hps. pose proof shift_range as Hsh. unfold release_segment_pages. rewrite Z.shiftr_div_pow2, <- PAGE_SIZE_eq by lia.
  assert (s_size seg / PAGE_SIZE * PAGE_SIZE = s_size seg) as Ez by (destruct Hz as [m ->]; by rewrite Z.div_mul by lia). assert (0 <= s_size seg / PAGE_SIZE) as Hpos by (apply Z.div_pos; lia).
  destruct (free_pages_ok root O P F (s_base seg) (Z.to_nat (s_size seg / PAGE_SIZE)) k B F 0 U Hb H0) as (k1 & B1 & -> & U1 & O1); [lia|rewrite Z2Nat.id by done; lia|done|].
  rewrite Z2Nat.id, Ez, Z.mul_0_l, Z.add_0_r in U1, O1 by done. rewrite bind_Ok. set (F1 := clear (s_base seg) (s_size seg) F) in *.
  eapply done_bind; [by apply (user_unmap mmu_config own R R_phys utop utop_own utop_64 k1 root B1 P F F1 O (s_base seg) (s_size seg) U1 Hb H0 Hz Hs)|].
  intros s' (B2 & P2 & U2 & _ & O2). cbn [done_or_oom]. exists B2, P2. cbv zeta. fold F1 in U2. unfold F1 in U2, O2 at 2. rewrite clear_twice in U2. split; [exact U2|].
  eapply outside_trans; [exact O1|]. eapply outside_ext; [done| |exact O2]. intros q. unfold F1. rewrite clear_twice. split; [|by left].
  intros [?|(a & pr & Hin & [_ Ha]%clear_Some)]; [done|]. by destruct Ha.
Qed.

(** [RBTREE_FOR_EACH]: the segments of the rest of the tree lose their pages. *)
Lemma release_loop_ok v root O l2 : forall l1 fuel k B P F,
  rb_rep (vmem_segment_get_value (segs v)) (segments_tree v) (map tree_node (l1 ++ l2)) -> (length l2 < fuel)%nat ->
  (forall a, a ∈ l2 -> tree_node a <> 0 /\ exists s, segs v !! a = Some s /\
     (PAGE_SIZE | s_base s) /\ 0 <= s_base s /\ (PAGE_SIZE | s_size s) /\ 0 < s_size s /\ s_end s <= utop) ->
  user_ok k root B P F F O ->
  done_or_oom R (release_loop mmu_config fuel (with_kern v k) root (default 0 (hd_error (map tree_node l2)))) (fun v' => exists k' B' P' F',
    v' = with_kern v k' /\ user_ok k' root B' P' F' F' O /\ outside k B (mine P F O) k' B' (mine P' F' O) /\ F' ⊆ F /\
    forall a s va f, a ∈ l2 -> segs v !! a = Some s -> F' !! va = Some f -> ~ (s_base s <= va < s_end s)).
Proof using All.
  induction l2 as [|a l2 IH]; intros l1 fuel k B P F T Hf Hl U; (destruct fuel as [|fuel]; [cbn in Hf; lia|]); cbn [release_loop map hd_error default]; unfold default, from_option, id.
  { cbn. exists k, B, P, F. split; [done|]. split; [done|]. split; [apply outside_refl|]. split; [done|]. by intros a s va f ?%not_elem_of_nil. }
  destruct (Hl a ltac:(set_solver)) as (Hn & s & Hs & Hb & H0 & Hz & Hpos & Hu). rewrite (proj2 (Z.eqb_neq (tree_node a) 0) Hn).
  replace (tree_node a - SEGMENT_TREE_NODE) with a by (unfold tree_node; lia). change (segs (with_kern v k)) with (segs v). rewrite (load_Ok _ _ _ Hs), bind_Ok.
  change (kern (with_kern v k)) with k. eapply done_bind; [by apply (release_segment_ok k root B P F O s U)|]. intros k1 (B1 & P1 & U1 & O1). cbv zeta in U1, O1.
  change (with_kern (with_kern v k) k1) with (with_kern v k1). change (segments_tree (with_kern v k1)) with (segments_tree v).
  rewrite map_app in T. cbn [map] in T. destruct (rbtree_walk_correct _ _ _ _ _ T) as (_ & _ & -> & _). rewrite bind_Ok.
  eapply done_mono; [apply (IH (l1 ++ [a]) fuel k1 B1 P1 (clear (s_base s) (s_size s) F)); [|cbn in Hf; lia| |exact U1]|].
  { rewrite <- app_assoc, map_app. exact T. }
  { intros b Hb'. apply Hl. by right. }
  intros v' (k2 & B2 & P2 & F2 & -> & U2 & O2 & Sub & Hc). exists k2, B2, P2, F2. split; [done|]. split; [done|]. split; [by eapply outside_trans|]. split.
  - etransitivity; [exact Sub|]. apply map_subseteq_spec. by intros x f [? _]%clear_Some.
  - intros b t va f [->|Hb2]%elem_of_cons Ht Hva; [|by eapply Hc]. rewrite Hs in Ht. injection Ht as <-.
    pose proof (lookup_weaken _ _ _ _ Hva Sub) as [_ Hx]%clear_Some. exact Hx.
Qed.

(** The root goes back to the allocator. *)
Lemma release_root k root B P O :
  user_ok k root B P ∅ ∅ O -> exists s' B', free_table (k_pt k) root = Ok s' /\ buddy_inv R (pmm s') B' /\ settled B' /\
    outside k B (mine P ∅ O) (with_k_pt k s') B' (fun q => q ∈ O).
Proof using All.
  intros [[I Tr] Hm X _ _ _ _ Ho]. pose proof (p_twf _ _ _ _ _ _ _ I) as T.
  assert (P = {[(top_level mmu_config, 0) := root]}) as ->.
  { eapply (untranslated_tables mmu_config own R root R_phys); [by split|intros va Hva; rewrite X by done; unfold shown; by rewrite lookup_empty|]. intros key p Hp. right. by eapply Hm. }
  assert (B !! root = Some (0, BAlloc)) as Hr.
  { destruct (p_counted _ _ _ _ _ _ _ I _ _ _ (t_root _ _ _ _ _ T)) as [_ [[Hun _]|[? _]]]; [|done]. by destruct (Hm (top_level mmu_config, 0) root (t_root _ _ _ _ _ T)). }
  destruct (free_page_ok R (pmm (k_pt k)) B root (p_buddy _ _ _ _ _ _ _ I) (p_settled _ _ _ _ _ _ _ I) Hr) as (b & B' & E & I' & HS' & K & N).
  unfold free_table. rewrite E, bind_Ok. eexists _, B'. split; [done|]. split; [done|]. split; [done|].
  assert (forall q, ~ mine {[(top_level mmu_config, 0) := root]} ∅ O q <-> q <> root /\ q ∉ O) as Hmine.
  { intros q. rewrite not_mine. unfold fresh_page. split.
    - intros (H1 & _ & H3). split; [|done]. intros ->. by apply (H1 (top_level mmu_config, 0) root), eq_refl; rewrite lookup_singleton_eq.
    - intros [H1 H2]. split; [|split; [intros va pr; by rewrite lookup_empty|done]]. intros a p [_ <-]%lookup_singleton_Some. congruence. }
  split.
  - intros q Hq [Hqr HqO]%Hmine. destruct (K q Hq) as (Hq' & _ & Tq); [by intros ?%list_elem_of_singleton|]. split; [done|]. split; [done|]. split; [|done].
    intros a (i & Hi & ->). cbn. apply drop_page_out. intros (j & Hj & Ea). destruct (word_inj q root i j) as [? _]; try done; [apply Hq|].
    destruct (t_page _ _ _ _ _ T _ _ _ (t_root _ _ _ _ _ T)) as (_ & _ & [_ ?] & _); done.
  - intros q j Hq HqO. destruct (N q j Hq) as [Hb Hne]. split; [done|]. by apply Hmine.
Qed.

(** Every allocated segment is a whole number of pages. *)
Definition whole Ls : Prop := forall a s, (a, s) ∈ Ls -> s_allocated s = true -> (PAGE_SIZE | s_size s).

Lemma release_ok sp B P F O Ls :
  space_ok sp B P F O Ls -> whole Ls ->
  done_or_oom R (release_user_memory mmu_config sp) (fun v' => exists B', buddy_inv R (k_pmm (kern v')) B' /\ settled B' /\
    outside (kern (valloc sp)) B (mine P F O) (kern v') B' (fun q => q ∈ O) /\ arena_in PAGE_SIZE v' O Ls).
Proof using All.
  intros S Hw. destruct (space_facts _ _ _ _ _ _ S) as (I & HS & HO & Hnd & Hok). set (k := kern (valloc sp)) in *.
  pose proof (arena_close (ctx_pages R k B O) _ _ _ _ (so_arena _ _ _ _ _ _ S) (ctx_start R _ _ _ I HS HO)) as [w Ar].
  pose proof (ar_rep _ _ _ _ _ Ar) as V. pose proof (vr_tree _ _ _ V) as T. rewrite <- (vr_segs _ _ _ V) in T.
  assert (forall a s, segs (valloc sp) !! a = Some s <-> (a, s) ∈ Ls) as Hsegs.
  { intros a s. rewrite (vr_segs _ _ _ V), (ar_segs _ _ _ _ _ Ar). symmetry. by apply elem_of_list_to_map. }
  assert (valloc sp = with_kern (valloc sp) k) as Ev by (unfold k; by destruct (valloc sp) as [? ? ? ? ? ? ? ? ? ? ? [? ? ? ?]]).
  unfold release_user_memory. assert (rbtree_minimum (segments_tree (valloc sp)) (root (segments_tree (valloc sp))) = Ok (default 0 (hd_error (map tree_node (v_tree w))))) as ->.
  { destruct T as (T & Z & _ & <- & _). rewrite (z_root _ _ _ Z). by eapply minimum_head. }
  rewrite bind_Ok. rewrite Ev at 2. eapply done_bind; [apply (release_loop_ok (valloc sp) (pagetable sp) O (v_tree w) [] _ k B P F T)|].
  - assert (length (v_tree w) <= stdpp.base.size (segs (valloc sp)))%nat; [|lia].
    apply NoDup_length_size; [exact (tree_nodup _ _ _ V)|]. intros a [_ (s & Hin & _)]%(ar_tree _ _ _ _ _ Ar). exists s. by apply Hsegs.
  - intros a Ha. pose proof (vr_dom_tree _ _ _ V a Ha) as Hd. destruct (vrep_addr hhdm_aligned _ _ _ _ V Hd) as [Hpos _].
    split; [unfold tree_node, SEGMENT_TREE_NODE; lia|]. apply (ar_tree _ _ _ _ _ Ar) in Ha as [_ (s & Hin & Hal)]. exists s. split; [by apply Hsegs|].
    destruct (segs_ok_bounds _ _ _ _ _ _ Hok Hin) as (B1 & B2 & B3 & B4). split; [done|]. split; [lia|]. split; [by eapply Hw|]. split; [done|].
    assert (s_end s - 1 < utop); [|lia]. apply (so_low _ _ _ _ _ _ S _ true). exists a, s. split; [done|]. split; [unfold s_end; lia|done].
  - apply S.
  - intros v1 (k1 & B1 & P1 & F1 & -> & U1 & O1 & Sub & Hc). change (kern (with_kern (valloc sp) k1)) with k1.
    assert (F1 = ∅) as ->.
    { apply map_empty. intros va. destruct (F1 !! va) as [f|] eqn:Hf; [exfalso|done]. destruct (so_backed _ _ _ _ _ _ S va f (lookup_weaken _ _ _ _ Hf Sub)) as (a & s & Hin & Hr & Hal).
      apply (Hc a s va f); [|by apply Hsegs|done|done]. apply (ar_tree _ _ _ _ _ Ar). split; [done|]. by exists s. }
    destruct (release_root k1 (pagetable sp) B1 P1 O U1) as (s' & B2 & -> & I2 & HS2 & O2). rewrite bind_Ok. cbn [done_or_oom]. exists B2.
    split; [exact I2|]. split; [exact HS2|]. split; [eapply outside_trans; [exact O1|exact O2]|]. apply arena_in_kern, S.
Qed.

(** ** new_address_space *)
Lemma copy_ok (n : nat) : forall w dst src,
  (forall i, 0 <= i < Z.of_nat n -> is_Some (w !! (src + 8 * i)) /\ is_Some (w !! (dst + 8 * i))) ->
  (forall i j, 0 <= i < Z.of_nat n -> 0 <= j < Z.of_nat n -> src + 8 * i <> dst + 8 * j) ->
  exists w', copy_entries n w dst src = Ok w' /\ (forall i, 0 <= i < Z.of_nat n -> w' !! (dst + 8 * i) = w !! (src + 8 * i)) /\
    forall a, (forall i, 0 <= i < Z.of_nat n -> a <> dst + 8 * i) -> w' !! a = w !! a.
Proof using Type.
  induction n as [|n IH]; intros w dst src Hin Hne; [exists w; split; [done|]; split; [lia|done]|].
  destruct (Hin 0 ltac:(lia)) as [[e He] [d Hd]]. rewrite Z.mul_0_r, Z.add_0_r in He, Hd. cbn [copy_entries]. rewrite (load_Ok _ _ _ He), bind_Ok, (store_Ok _ _ _ _ Hd), bind_Ok.
  assert (forall i, 0 <= i < Z.of_nat n -> <[dst := e]> w !! (src + 8 + 8 * i) = w !! (src + 8 * (i + 1)) /\ <[dst := e]> w !! (dst + 8 + 8 * i) = w !! (dst + 8 * (i + 1))) as Hsh.
  { intros i Hi. specialize (Hne (i + 1) 0 ltac:(lia) ltac:(lia)). rewrite !lookup_insert_ne by lia. split; f_equal; lia. }
  destruct (IH (<[dst := e]> w) (dst + 8) (src + 8)) as (w' & E & Hc & Ho).
  { intros i Hi. destruct (Hsh i Hi) as [-> ->]. apply Hin. lia. }
  { intros i j Hi Hj. specialize (Hne (i + 1) (j + 1) ltac:(lia) ltac:(lia)). lia. }
  exists w'. split; [exact E|]. split.
  - intros i Hi. destruct (decide (i = 0)) as [->|].
    + rewrite Z.mul_0_r, !Z.add_0_r, He, Ho by lia. apply lookup_insert_eq.
    + replace (dst + 8 * i) with (dst + 8 + 8 * (i - 1)) by lia. rewrite Hc by lia. destruct (Hsh (i - 1) ltac:(lia)) as [-> _]. f_equal. lia.
  - intros a Ha. rewrite Ho by (intros i Hi; specialize (Ha (i + 1) ltac:(lia)); lia). apply lookup_insert_ne. specialize (Ha 0 ltac:(lia)). lia.
Qed.

(** The kernel's half of a root of tables. *)
Definition upper_half (i : Z) : Prop := entries / 2 <= i < entries.

Lemma half_words : entries = 2 * (entries / 2) /\ Z.shiftr PAGE_SIZE 1 = 8 * (entries / 2) /\ 0 < entries / 2.
Proof using All.
  pose proof bits_range as Hb. assert (entries = 2 * 2 ^ (PAGE_INDEX_BITS - 1)) as E.
  { unfold entries. rewrite <- (Z.pow_succ_r 2) by lia. f_equal. lia. }
  assert (0 < 2 ^ (PAGE_INDEX_BITS - 1)) by (apply Z.pow_pos_nonneg; lia). assert (entries / 2 = 2 ^ (PAGE_INDEX_BITS - 1)) as E2 by (rewrite E, Z.mul_comm; by apply Z.div_mul).
  rewrite E2. split; [done|]. split; [|done]. rewrite Z.shiftr_div_pow2 by lia. rewrite sz_page, E. change (2 ^ 1) with 2.
  replace (8 * (2 * 2 ^ (PAGE_INDEX_BITS - 1))) with (8 * 2 ^ (PAGE_INDEX_BITS - 1) * 2) by lia. by apply Z.div_mul.
Qed.

Section Roots.
Context (separate_roots : bool) (kernel_page_table : Z).

(** A root of its own, or one whose upper half is the kernel's. *)
Lemma new_table_ok s B :
  buddy_inv R (pmm s) B -> settled B ->
  (separate_roots = false -> in_use R B kernel_page_table /\ (forall i, upper_half i -> own i = false) /\ forall i, upper_half i -> is_Some (words s !! (kernel_page_table + 8 * i))) ->
  done_or_oom R (new_page_table separate_roots kernel_page_table s) (fun '(c, s') => exists B',
    page_table_ok mmu_config own R c s' B' {[(top_level mmu_config, 0) := c]} /\ (forall va, owned mmu_config own va -> xlate mmu_config (words s') c va = None) /\
    keeps R (pmm s) B (pmm s') B' [] /\ ~ in_use R B c /\ B' !! c = Some (0, BAlloc) /\ (forall q j, q <> c -> B' !! q = Some (j, BAlloc) -> B !! q = Some (j, BAlloc)) /\
    (forall a, ~ in_page c a -> words s' !! a = words s !! a) /\
    (separate_roots = false -> forall i, upper_half i -> words s' !! (c + 8 * i) = words s !! (kernel_page_table + 8 * i))).
Proof using All.
  intros I HS Hsep. unfold new_page_table. eapply done_bind; [apply (alloc_table_ok mmu_config own R 0 R_phys s B I HS)|].
  intros [c s1] (B1 & I1 & HS1 & K1 & Ew & _ & Hc & Hnu & Hok & H0 & Hp & N1). destruct half_words as (Eh & Es & Hh). rewrite Es.
  replace (8 * (entries / 2) / 8) with (entries / 2) by (rewrite Z.mul_comm; symmetry; by apply Z.div_mul).
  assert (forall i, 0 <= i < entries -> zero_page (words s) c !! (c + 8 * i) = Some 0) as Hz by (intros i Hi; apply zero_page_in; by exists i).
  assert (exists w', (if separate_roots then Ok (words s1) else copy_entries (Z.to_nat (entries / 2)) (words s1) (c + 8 * (entries / 2)) (kernel_page_table + 8 * (entries / 2))) = Ok w' /\
    (forall i, 0 <= i < entries -> own i = true -> w' !! (c + 8 * i) = Some 0) /\ (forall a, ~ in_page c a -> w' !! a = words s !! a) /\
    (separate_roots = false -> forall i, upper_half i -> w' !! (c + 8 * i) = words s !! (kernel_page_table + 8 * i))) as (w' & -> & Hown & Hout & Hup).
  { rewrite Ew. destruct separate_roots; [exists (zero_page (words s) c); split; [done|]; split; [auto|]; split; [intros; by apply zero_page_out|done]|].
    destruct (Hsep eq_refl) as (Hk & Hlow & Hw). assert (forall i j, 0 <= i < entries -> 0 <= j < entries -> kernel_page_table + 8 * i <> c + 8 * j) as Hne.
    { intros i j Hi Hj E. destruct (word_inj kernel_page_table c i j) as [-> _]; try done; [apply Hk|apply Hok]. }
    assert (forall i, 0 <= i < entries -> zero_page (words s) c !! (kernel_page_table + 8 * i) = words s !! (kernel_page_table + 8 * i)) as Hkz.
    { intros i Hi. apply zero_page_out. intros (j & Hj & E). by apply (Hne i j Hi Hj). }
    destruct (copy_ok (Z.to_nat (entries / 2)) (zero_page (words s) c) (c + 8 * (entries / 2)) (kernel_page_table + 8 * (entries / 2))) as (w' & E & Hcp & Ho).
    - rewrite Z2Nat.id by lia. intros i Hi. rewrite <- !Z.add_assoc, <- !Z.mul_add_distr_l. rewrite Hkz by lia. rewrite Hz by lia. split; [apply Hw; unfold upper_half; lia|by eexists].
    - rewrite Z2Nat.id by lia. intros i j Hi Hj. rewrite <- !Z.add_assoc, <- !Z.mul_add_distr_l. apply Hne; lia.
    - rewrite Z2Nat.id in Hcp, Ho by lia. exists w'. split; [exact E|]. split; [|split].
      + intros i Hi Hoi. rewrite Ho; [by apply Hz|]. intros j Hj. destruct (decide (upper_half i)) as [Hui|Hui]; [rewrite (Hlow i Hui) in Hoi; done|]. unfold upper_half in Hui. lia.
      + intros a Ha. rewrite Ho; [by apply zero_page_out|]. intros j Hj ->. apply Ha. exists (entries / 2 + j). lia.
      + intros _ i Hi. unfold upper_half in Hi. assert (0 <= i - entries / 2 < entries / 2) as Hi' by (clear - Hi Eh; lia). specialize (Hcp _ Hi'). rewrite <- !Z.add_assoc, <- !Z.mul_add_distr_l in Hcp.
        replace (entries / 2 + (i - entries / 2)) with i in Hcp by lia. rewrite Hcp. apply Hkz. lia. }
  rewrite bind_Ok. cbn [done_or_oom]. exists B1. destruct (root_ok mmu_config own R c R_phys (with_words s1 w') B1 I1 HS1 Hc Hp Hok H0) as [Tb X].
  { intros i Hi Ho. exists 0. split; [by apply Hown|]. apply pl_absent. }
  done.
Qed.
End Roots.

(** A new address space is in order, empty, and takes pages nobody had. *)
Lemma setup_ok separate_roots kernel_page_table vtop k B self valloc_ptr :
  buddy_inv R (k_pmm k) B -> settled B -> PAGE_SIZE < vtop - PAGE_SIZE -> vtop <= utop ->
  (separate_roots = false -> in_use R B kernel_page_table /\ (forall i, upper_half i -> own i = false) /\ forall i, upper_half i -> is_Some (words (k_pt k) !! (kernel_page_table + 8 * i))) ->
  nofault (address_space_setup separate_roots kernel_page_table vtop k self valloc_ptr) (fun sp => exists B' P' O' n,
    space_ok sp B' P' ∅ O' [(n, Seg false PAGE_SIZE (vtop - PAGE_SIZE))] /\
    outside k B (fun _ => False) (kern (valloc sp)) B' (mine P' ∅ O') /\ k_ram (kern (valloc sp)) = k_ram k /\
    (separate_roots = false -> forall i, upper_half i -> words (spt sp) !! (pagetable sp + 8 * i) = words (k_pt k) !! (kernel_page_table + 8 * i))).
Proof using All.
  intros I HS Hv Hu Hsep. pose proof page_pos as Hps. pose proof shift_range as Hsh. unfold address_space_setup. rewrite u64_small by (unfold is_u64; lia).
  pose (PO := ctx_pages R k B ∅). assert (@pa_rep _ _ _ PO k ∅) as H0 by (apply ctx_start; [done|done|set_solver]).
  eapply nofault_bind.
  { rewrite PAGE_SIZE_eq at 3. apply (init_ok (PO := PO) hhdm_aligned (SpMem k ∅ ∅ ∅) PAGE_SIZE (vtop - PAGE_SIZE) PAGE_SIZE_SHIFT H0); [lia|rewrite <- PAGE_SIZE_eq; apply Z.divide_refl|lia|lia|lia]. }
  rewrite <- PAGE_SIZE_eq. intros v [n Ar]. destruct (arena_open PO _ _ _ Ar) as (O' & [Ek (B1 & I1 & HS1 & K1 & HO & N1)] & A').
  assert (words (k_pt (kern v)) = words (k_pt k)) as Ew by (by rewrite Ek).
  eapply nofault_bind; [apply done_nofault, (new_table_ok separate_roots kernel_page_table (k_pt (kern v)) B1 I1 HS1)|].
  { intros E. destruct (Hsep E) as (H1 & H2 & H3). split; [apply (K1 _ H1); set_solver|]. split; [done|]. by rewrite Ew. }
  intros [c s'] (B2 & Tb & X & K2 & Hnu & Hc & N2 & Hw & Hup). cbn [nofault]. exists B2, {[(top_level mmu_config, 0) := c]}, O', n.
  assert (forall p, p ∈ O' -> B2 !! p = Some (0, BAlloc) /\ fresh_page {[(top_level mmu_config, 0) := c]} p) as HO'.
  { intros p Hp. destruct (HO p Hp) as [Hb _]. pose proof (alloc_in_use _ _ _ _ I1 Hb) as Hpu. split; [by apply (K2 p Hpu (not_elem_of_nil _))|].
    intros a q [_ <-]%lookup_singleton_Some ->. done. }
  assert (forall q, mine {[(top_level mmu_config, 0) := c]} ∅ O' q <-> q = c \/ q ∈ O') as Hmine.
  { intros q. unfold mine. split.
    - intros [[key [_ <-]%lookup_singleton_Some]|[(va & pr & Hva)|Hq]]; [by left|by rewrite lookup_empty in Hva|by right].
    - intros [->|Hq]; [left; eexists; by apply lookup_singleton_eq|right; by right]. }
  split; [|split; [|split]].
  - split.
    + split; try done.
      * intros key p [_ <-]%lookup_singleton_Some. eapply managed_alloc; [done..|apply (proj1 Tb)|done].
    + by apply arena_in_kern.
    + intros a s b r [= -> ->]%list_elem_of_singleton [= -> ->]%list_elem_of_singleton _ _. unfold s_end. cbn. lia.
    + intros x b (a & s & [= -> ->]%list_elem_of_singleton & Hx & _). unfold s_end in Hx. cbn in Hx. lia.
    + intros va f. by rewrite lookup_empty.
  - split.
    + intros q Hq _. destruct (K1 q Hq ltac:(set_solver)) as (Hq1 & _ & T1). destruct (K2 q Hq1 (not_elem_of_nil _)) as (Hq2 & _ & T2). split; [done|]. split; [|split].
      * intros [->|Hin]%Hmine; [done|]. destruct (HO q Hin) as [_ Hin0]. specialize (Hin0 Hq). set_solver.
      * intros a (i & Hi & ->). cbn. rewrite Hw; [by rewrite Ew|]. intros (j & Hj & E). destruct (word_inj q c i j) as [-> _]; try done; [apply Hq|].
        destruct (t_page _ _ _ _ _ (p_twf _ _ _ _ _ _ _ (proj1 Tb)) _ _ _ (t_root _ _ _ _ _ (p_twf _ _ _ _ _ _ _ (proj1 Tb)))) as (_ & _ & [_ ?] & _). done.
      * intros ty rc Hp. by apply T2, T1.
    + intros q j Hq Hm. rewrite Hmine in Hm. split; [|tauto]. destruct (N1 q j) as [?|[? _]]; [apply N2; [tauto|done]|tauto|done].
  - cbn. by rewrite Ek.
  - intros E i Hi. cbn. by rewrite (Hup E i Hi), Ew.
Qed.
End UserMem.
