(* ===== verification/Threads.v ===== *)
(** * Threads: their making and their end

    arch/generic/thread/new.c, the save areas of thread/init.c of the three
    architectures, and sched/reaper.c, over the kernel's memory.  The
    structures of threads and the contents of save areas are maps from their
    addresses; the stacks are bytes of the direct map. *)

From S2P Require Import Prelude LList Pfndb Buddy BuddyInv BuddySpec PagingPmm PageAlloc Spalloc SpallocSpec Malloc HeapSpec CString CStringSpec ContextSwitch Fpu VMem PagingArch Paging Ustar AddressSpace UserMem.
#[local] Open Scope Z_scope.

Inductive thread_state := THREAD_RUNNING | THREAD_RUNABLE | THREAD_REAPING | THREAD_BLOCKING | THREAD_BLOCKED | THREAD_IDLE_THREAD.

Record thread := Thread {
  kstack : Z;
  kstack_top : Z;
  kstack_size : Z;
  fpu_save : Z;
  user_stack_save : Z;
  user_tls_addr : Z;
  addrspace : option address_space;
  t_state : thread_state;
}.
(** Seven words, two halves, the list node, the wakeup time, the heap node. *)
Definition sizeof_thread : Z := 7 * 8 + 2 * 4 + 16 + 8 + 24.

(** The whole state: memory, threads, contents of the save areas. *)
Record tstate := TState { ts_k : kernel; ts_threads : gmap Z thread; ts_areas : gmap Z (list Z) }.

(** ** Save areas *)

(** Where an area comes from: [malloc_aligned] with this alignment, or
    [kmalloc]. *)
Inductive area_kind := MallocAligned (align : Z) | Kmalloced.
(** What an architecture says of its areas and its stacks. *)
Record thread_arch := ThreadArch {
  fpu_area_size : Z;
  fpu_area_kind : area_kind;
  prepare_thread_stack : bytes -> Z -> Z -> Z -> Z -> res (Z * bytes);
}.

Section Archs.
Context (thread_exit trampoline : Z).

Definition x86_thread_arch (xsave_enabled : bool) (xsave_size : Z) : thread_arch :=
  if xsave_enabled then ThreadArch xsave_size (MallocAligned 64) (x86_prepare_thread_stack thread_exit trampoline)
  else ThreadArch 512 Kmalloced (x86_prepare_thread_stack thread_exit trampoline).
Definition riscv_thread_arch : thread_arch :=
  ThreadArch Rv64.RISCV_FPU_SAVE_SIZE Kmalloced (riscv_prepare_thread_stack thread_exit trampoline).
Definition loongarch_thread_arch (best : La64.la64_fpu_t) : thread_arch :=
  ThreadArch (La64.la64_fpu_save_sizes best) (MallocAligned (La64.la64_fpu_save_alignments best)) (loongarch_prepare_thread_stack thread_exit trampoline).
End Archs.

Section Lifecycle.
Context `{cfg : kconfig} `{A : PagingArch}.
Context (mmu_config : Z) (arch : thread_arch).
Implicit Types (k : kernel) (ts : tstate).

Definition on_kernel ts k : tstate := TState k (ts_threads ts) (ts_areas ts).

Definition arch_allocate_fpu_area ts : res (Z * tstate) :=
  let h := heap_of (ts_k ts) in
  '(area, h) ← (match fpu_area_kind arch with
                | MallocAligned align => malloc_aligned h (fpu_area_size arch) align
                | Kmalloced => kmalloc h (fpu_area_size arch)
                end);
  Ok (area, TState (with_heap (ts_k ts) h) (ts_threads ts) (<[area := replicate (Z.to_nat (fpu_area_size arch)) 0]> (ts_areas ts))).

Definition arch_free_fpu_area ts (area : Z) : res tstate :=
  let h := heap_of (ts_k ts) in
  h ← (match fpu_area_kind arch with MallocAligned _ => free h area | Kmalloced => kfree h area (fpu_area_size arch) end);
  Ok (TState (with_heap (ts_k ts) h) (ts_threads ts) (delete area (ts_areas ts))).

(** ** new.c *)
Definition create_kthread ts (entry arg1 arg2 : Z) : res (Z * tstate) :=
  '(paddr, k) ← alloc_user_page (ts_k ts);
  '(thread, k) ← k_malloc k sizeof_thread;
  '(kstack, ram) ← prepare_thread_stack arch (k_ram k) (u64 (TO_HHDM paddr + PAGE_SIZE)) entry arg1 arg2;
  let th := Thread kstack (TO_HHDM (u64 (paddr + PAGE_SIZE))) PAGE_SIZE 0 0 0 None THREAD_RUNABLE in
  Ok (thread, TState (with_k_ram k ram) (<[thread := th]> (ts_threads ts)) (ts_areas ts)).

Definition create_uthread (arch_switch_to_user : Z) ts (entry ustack : Z) (sp : address_space) : res (Z * tstate) :=
  '(thread, ts) ← create_kthread ts arch_switch_to_user entry ustack;
  '(area, ts) ← arch_allocate_fpu_area ts;
  th ← load (ts_threads ts) thread;
  let th := Thread (kstack th) (kstack_top th) (kstack_size th) area ustack (user_tls_addr th) (Some sp) (t_state th) in
  Ok (thread, TState (ts_k ts) (<[thread := th]> (ts_threads ts)) (ts_areas ts)).

(** [None] is the null pointer. *)
Definition create_uthread_from_elf (separate_roots x86 : bool) (kernel_page_table VADDR_LOWER_HALF_TOP ELF_CURRENT_ARCH arch_switch_to_user : Z)
    (fuel str_fuel : nat) ts (initramfs path : Z) : res (option Z * tstate) :=
  if initramfs =? 0 then Ok (None, ts) else
  '(elf, _) ← ustar_lookup (k_ram (ts_k ts)) fuel str_fuel initramfs path;
  if elf =? 0 then Ok (None, ts) else
  r ← load_user_program mmu_config separate_roots x86 kernel_page_table VADDR_LOWER_HALF_TOP ELF_CURRENT_ARCH elf (ts_k ts);
  match r with
  | inl k => Ok (None, on_kernel ts k)
  | inr (entry, usp, sp) => '(t, ts) ← create_uthread arch_switch_to_user (on_kernel ts (kern (valloc sp))) entry usp sp; Ok (Some t, ts)
  end.

(** ** The end of schedule_finalize *)

(** Floating point state and page table change hands. *)
Inductive switch_action := FpuSave (area : Z) | FpuRestore (area : Z) | LoadPageTable (root : Z) | FinalizeUserSwitch (next : Z).

Definition finalize_user (kernel_page_table : Z) ts (prev next : Z) : res (list switch_action) :=
  thp ← load (ts_threads ts) prev;
  let saved := if addrspace thp is Some _ then [FpuSave (fpu_save thp)] else [] in
  thn ← load (ts_threads ts) next;
  Ok (saved ++ match addrspace thn with
               | Some sp => [FpuRestore (fpu_save thn); LoadPageTable (pagetable sp); FinalizeUserSwitch next]
               | None => [LoadPageTable kernel_page_table]
               end).

(** ** reaper.c *)

(** One thread: its address space, *)
Definition release_space ts (th : thread) : res tstate :=
  match addrspace th with
  | None => Ok ts
  | Some sp => k ← free_address_space mmu_config (with_valloc sp (with_kern (valloc sp) (ts_k ts))); Ok (on_kernel ts k)
  end.
(** and its stack, its save area and its structure. *)
Definition release_thread ts (t : Z) (th : thread) : res tstate :=
  k ← free_user_page (ts_k ts) (FROM_HHDM (u64 (kstack_top th - PAGE_SIZE)));
  let ts := on_kernel ts k in
  ts ← (if negb (fpu_save th =? 0) then arch_free_fpu_area ts (fpu_save th) else Ok ts);
  k ← k_free (ts_k ts) t;
  Ok (TState k (delete t (ts_threads ts)) (ts_areas ts)).

Definition reap ts (t : Z) : res tstate :=
  th ← load (ts_threads ts) t;
  ts ← release_space ts th;
  release_thread ts t th.

(** The threads on the list, in its order; a thread is [LINK_OFFSET] in front of
    its node. *)
Definition LINK_OFFSET : Z := 7 * 8 + 2 * 4.
Fixpoint reap_all ts (reaper_list : list Z) : res tstate :=
  match reaper_list with
  | [] => Ok ts
  | node :: reaper_list => ts ← reap ts (node - LINK_OFFSET); reap_all ts reaper_list
  end.
End Lifecycle.

(** ** What an architecture promises *)
Record arch_ok `{kconfig} (arch : thread_arch) (ready : Z -> bytes -> Z -> Z -> Z -> Z -> Prop) : Prop := {
  ao_prepare : forall b top entry arg1 arg2, Forall is_u64 [entry; arg1; arg2] -> 136 <= top < 2 ^ 64 -> mapped b (top - 128) 128 ->
    starts (prepare_thread_stack arch) ready top entry arg1 arg2 b;
  ao_size : 0 < fpu_area_size arch;
  ao_fits : match fpu_area_kind arch with
    | MallocAligned align => isPow2ull (Z.max align 16) = true /\ fpu_area_size arch + sizeof_malloc_header + Z.max align 16 - 1 <= bsize MAX_ORDER
    | Kmalloced => fpu_area_size arch <= bsize MAX_ORDER
    end;
}.

Section Spec.
Context {cfg : kconfig} {cfg_ok : kconfig_ok cfg} {A : PagingArch}.
Context (mmu_config : Z) (arch : thread_arch) (ready : Z -> bytes -> Z -> Z -> Z -> Z -> Prop) (AO : arch_ok arch ready).
Context (R : regions).
(** The direct map starts on a page boundary and ends below 2^64. *)
Context (hhdm_aligned : (PAGE_SIZE | hhdm_offset)) (R_top : forall r m, (r, m) ∈ R -> r + bsize m + hhdm_offset < 2 ^ 64).
Implicit Types (k : kernel) (ts : tstate) (th : thread) (led others : gmap Z (Z * bool)).

Definition area_is_malloc : bool := match fpu_area_kind arch with MallocAligned _ => true | Kmalloced => false end.

(** What belongs to a thread: its structure, its stack, its save area. *)
Definition thread_objs (e : Z * thread) : list (Z * (Z * bool)) :=
  (e.1, (sizeof_thread, true)) :: (kstack_top e.2 - PAGE_SIZE, (PAGE_SIZE, false)) ::
  if fpu_save e.2 =? 0 then [] else [(fpu_save e.2, (fpu_area_size arch, area_is_malloc))].

(** The heap holds what belongs to the threads, and the rest. *)
Definition threads_inv ts others : Prop :=
  exists led, clients_inv R (heap_of (ts_k ts), led) /\
    map_to_list led ≡ₚ map_to_list others ++ (map_to_list (ts_threads ts) ≫= thread_objs) /\
    forall t th, ts_threads ts !! t = Some th -> PAGE_SIZE <= kstack_top th < 2 ^ 64.

(** ** The heap inside the kernel *)
Lemma heap_of_with_heap k h : heap_of (with_heap k h) = h.
Proof using Type. by destruct h as [? [] ?]. Qed.

Lemma heap_of_page k b ram : heap_of (with_k_ram (with_k_pmm k b) ram) = with_pages (heap_of k) b.
Proof using Type. done. Qed.

(** ** Taking and giving back *)
Lemma take_object (L : list (Z * (Z * bool))) others led t o :
  led !! t = None -> map_to_list led ≡ₚ map_to_list others ++ L -> map_to_list (<[t := o]> led) ≡ₚ map_to_list others ++ (t, o) :: L.
Proof using Type. intros Hn E. rewrite map_to_list_insert by done. rewrite E. by rewrite Permutation_middle. Qed.

Lemma give_object (L : list (Z * (Z * bool))) led t o :
  map_to_list led ≡ₚ (t, o) :: L -> led !! t = Some o /\ map_to_list (delete t led) ≡ₚ L.
Proof using Type.
  intros E. assert (led !! t = Some o) as Ht by (apply elem_of_map_to_list; rewrite E; by left). split; [done|].
  apply (Permutation_cons_inv (a := (t, o))). by rewrite map_to_list_delete.
Qed.

Lemma list_bind_insert (m : gmap Z thread) t th :
  m !! t = None -> map_to_list (<[t := th]> m) ≫= thread_objs ≡ₚ thread_objs (t, th) ++ (map_to_list m ≫= thread_objs).
Proof using Type. intros Hn. by rewrite map_to_list_insert. Qed.

Lemma list_bind_delete (m : gmap Z thread) t th :
  m !! t = Some th -> map_to_list m ≫= thread_objs ≡ₚ thread_objs (t, th) ++ (map_to_list (delete t m) ≫= thread_objs).
Proof using Type. intros Ht. by rewrite <- (map_to_list_delete m t th Ht). Qed.

(** A structure on the heap is of no thread yet. *)
Lemma fresh_thread ts others led t :
  map_to_list led ≡ₚ map_to_list others ++ (map_to_list (ts_threads ts) ≫= thread_objs) -> led !! t = None -> ts_threads ts !! t = None.
Proof using Type.
  intros E Hn. destruct (ts_threads ts !! t) as [th|] eqn:Ht; [|done]. exfalso. rewrite (list_bind_delete _ _ _ Ht) in E.
  assert (led !! t = Some (sizeof_thread, true)) as H; [|congruence]. apply elem_of_map_to_list. rewrite E. apply elem_of_app. right. by left.
Qed.

Lemma page_top p : page_ok p -> (exists r m, (r, m) ∈ R /\ r <= p /\ p + PAGE_SIZE <= r + bsize m) -> TO_HHDM p = hdr_of p ->
  u64 (TO_HHDM p + PAGE_SIZE) = hdr_of p + PAGE_SIZE /\ TO_HHDM (u64 (p + PAGE_SIZE)) = hdr_of p + PAGE_SIZE /\ hdr_of p + PAGE_SIZE < 2 ^ 64.
Proof using cfg_ok R_top.
  intros (Hp & _ & _) (r & m & Hr & H1 & H2) E. specialize (R_top r m Hr). pose proof hhdm_range as Hh. rewrite E. unfold hdr_of.
  assert (0 < PAGE_SIZE) as Hps by (rewrite PAGE_SIZE_eq; apply Z.pow_pos_nonneg; pose proof shift_range; lia).
  rewrite (u64_small (p + PAGE_SIZE)) by (unfold is_u64; lia). unfold TO_HHDM. rewrite !u64_small by (unfold is_u64; lia). lia.
Qed.

(** ** The operations of the kernel on its heap *)
Lemma k_page_ok k led :
  clients_inv R (heap_of k, led) -> nofault (alloc_user_page k) (fun '(p, k') => led !! TO_HHDM p = None /\ TO_HHDM p = hdr_of p /\ page_ok p /\
    (exists r m, (r, m) ∈ R /\ r <= p /\ p + PAGE_SIZE <= r + bsize m) /\ k_ram k' = zero_ram (k_ram k) p /\ clients_inv R (heap_of k', <[TO_HHDM p := (PAGE_SIZE, false)]> led)).
Proof using cfg_ok hhdm_aligned.
  intros C. unfold alloc_user_page. eapply nofault_bind; [apply (served_page R hhdm_aligned (heap_of k) led C)|]. intros [p b] (H1 & _ & H3 & H4 & H5 & H6). cbn [nofault]. done.
Qed.

Lemma k_page_free_ok k led ptr :
  clients_inv R (heap_of k, led) -> led !! ptr = Some (PAGE_SIZE, false) -> returns (free_user_page k (FROM_HHDM ptr)) (fun k' => clients_inv R (heap_of k', delete ptr led)).
Proof using cfg_ok hhdm_aligned.
  intros C Hp. unfold free_user_page. eapply returns_bind; [apply (served_page_free R hhdm_aligned (heap_of k) led ptr C Hp)|]. intros b Hb. by apply returns_Ok.
Qed.

Lemma k_malloc_ok k led size :
  clients_inv R (heap_of k, led) -> 0 < size -> size + sizeof_malloc_header <= bsize MAX_ORDER ->
  nofault (k_malloc k size) (fun '(p, k') => led !! p = None /\ 0 < p /\ k_ram k' = k_ram k /\ clients_inv R (heap_of k', <[p := (size, true)]> led)).
Proof using cfg_ok hhdm_aligned.
  intros C H0 Hs. unfold k_malloc. eapply nofault_bind; [apply (served_malloc R hhdm_aligned (heap_of k) led size C H0 Hs)|]. intros [p h] (_ & H2 & H3 & H4). cbn [nofault]. by rewrite heap_of_with_heap.
Qed.

Lemma k_free_ok k led ptr size :
  clients_inv R (heap_of k, led) -> led !! ptr = Some (size, true) -> returns (k_free k ptr) (fun k' => clients_inv R (heap_of k', delete ptr led)).
Proof using cfg_ok hhdm_aligned.
  intros C Hp. unfold k_free. eapply returns_bind; [by apply (served_free R hhdm_aligned (heap_of k) led ptr size)|]. intros h Hh. apply returns_Ok. by rewrite heap_of_with_heap.
Qed.

Lemma fpu_area_ok ts led :
  clients_inv R (heap_of (ts_k ts), led) ->
  nofault (arch_allocate_fpu_area arch ts) (fun '(a, ts') => led !! a = None /\ 0 < a /\ ts_threads ts' = ts_threads ts /\ k_ram (ts_k ts') = k_ram (ts_k ts) /\
    ts_areas ts' = <[a := replicate (Z.to_nat (fpu_area_size arch)) 0]> (ts_areas ts) /\ clients_inv R (heap_of (ts_k ts'), <[a := (fpu_area_size arch, area_is_malloc)]> led)).
Proof using cfg_ok hhdm_aligned AO.
  intros C. unfold arch_allocate_fpu_area, area_is_malloc. pose proof (ao_size _ _ AO) as H0. pose proof (ao_fits _ _ AO) as Hf. destruct (fpu_area_kind arch) as [align|].
  - destruct Hf as [Hp Hf]. eapply nofault_bind; [by apply (served_malloc_aligned R hhdm_aligned (heap_of (ts_k ts)) led _ align C)|].
    intros [a h] (_ & H1 & H2 & H3). cbn [nofault ts_k]. by rewrite heap_of_with_heap.
  - eapply nofault_bind; [apply (served_kmalloc R hhdm_aligned (heap_of (ts_k ts)) led _ C); lia|].
    intros [a h] (_ & H1 & H2 & H3). cbn [nofault ts_k]. by rewrite heap_of_with_heap.
Qed.

Lemma fpu_area_free_ok ts led a :
  clients_inv R (heap_of (ts_k ts), led) -> led !! a = Some (fpu_area_size arch, area_is_malloc) ->
  returns (arch_free_fpu_area arch ts a) (fun ts' => ts_threads ts' = ts_threads ts /\ ts_areas ts' = delete a (ts_areas ts) /\ clients_inv R (heap_of (ts_k ts'), delete a led)).
Proof using cfg_ok hhdm_aligned.
  intros C Ha. unfold arch_free_fpu_area, area_is_malloc in *. destruct (fpu_area_kind arch).
  - eapply returns_bind; [by eapply (served_free R hhdm_aligned (heap_of (ts_k ts)) led a)|]. intros h Hh. apply returns_Ok. cbn [ts_k]. by rewrite heap_of_with_heap.
  - eapply returns_bind; [by eapply (served_kfree R hhdm_aligned (heap_of (ts_k ts)) led a)|]. intros h Hh. apply returns_Ok. cbn [ts_k]. by rewrite heap_of_with_heap.
Qed.

(** ** Making threads *)
Lemma create_kthread_ok ts others entry arg1 arg2 :
  threads_inv ts others -> Forall is_u64 [entry; arg1; arg2] ->
  nofault (create_kthread arch ts entry arg1 arg2) (fun '(t, ts') => ts_threads ts !! t = None /\ exists th,
    ts_threads ts' = <[t := th]> (ts_threads ts) /\ fpu_save th = 0 /\ addrspace th = None /\ t_state th = THREAD_RUNABLE /\ ts_areas ts' = ts_areas ts /\
    threads_inv ts' others /\ ready (kstack th) (k_ram (ts_k ts')) (kstack_top th) entry arg1 arg2).
Proof using cfg_ok hhdm_aligned R_top AO.
  intros (led & C & E & Hb) Hu. destruct page_pow as (_ & _ & _ & Hps). pose proof max_sizes as Hmx. pose proof hhdm_range as Hh. unfold create_kthread.
  eapply nofault_bind; [by apply k_page_ok|]. intros [p k1] (Hp & Ep & Kp & Rp & Er & C1).
  eapply nofault_bind; [apply (k_malloc_ok k1 _ sizeof_thread C1); unfold sizeof_thread, sizeof_malloc_header; lia|]. intros [t k2] (Ht & Ht0 & Er2 & C2).
  destruct (page_top p Kp Rp Ep) as (T1 & T2 & T3). rewrite T1, T2, Er2, Er. destruct Kp as (Kp0 & _).
  pose proof (ao_prepare _ _ AO (zero_ram (k_ram (ts_k ts)) p) (hdr_of p + PAGE_SIZE) entry arg1 arg2 Hu) as (x & Ex & Hx); [unfold hdr_of in *; lia| |].
  { intros a Ha. exists 0. apply zero_ram_in. unfold page_bytes. apply elem_of_seqZ. rewrite Ep. lia. }
  rewrite Ex, bind_Ok. destruct x as [ks b']. destruct Hx as (_ & _ & Hready). cbn [nofault ts_threads ts_k ts_areas with_k_ram k_ram].
  apply lookup_insert_None in Ht as [Ht Hne]. split; [by eapply fresh_thread|]. eexists. split; [done|]. cbn [fpu_save addrspace t_state kstack kstack_top].
  do 4 (split; [done|]). split; [|exact Hready]. eexists. split; [exact C2|]. split.
  - cbn [ts_threads]. rewrite (list_bind_insert _ _ _ (fresh_thread _ _ _ _ E Ht)). cbn [thread_objs app fst snd kstack_top fpu_save Z.eqb]. replace (hdr_of p + PAGE_SIZE - PAGE_SIZE) with (TO_HHDM p) by lia.
    apply take_object; [by apply lookup_insert_None|]. by apply take_object.
  - cbn [ts_threads]. intros t' th' [[<- <-]|[_ H]]%lookup_insert_Some; [cbn; unfold hdr_of in *; lia|by eapply Hb].
Qed.

Lemma create_uthread_ok ts others arch_switch_to_user entry ustack sp :
  threads_inv ts others -> Forall is_u64 [arch_switch_to_user; entry; ustack] ->
  nofault (create_uthread arch arch_switch_to_user ts entry ustack sp) (fun '(t, ts') => ts_threads ts !! t = None /\ exists th,
    ts_threads ts' = <[t := th]> (ts_threads ts) /\ addrspace th = Some sp /\ user_stack_save th = ustack /\
    ts_areas ts' !! fpu_save th = Some (replicate (Z.to_nat (fpu_area_size arch)) 0) /\
    threads_inv ts' others /\ ready (kstack th) (k_ram (ts_k ts')) (kstack_top th) arch_switch_to_user entry ustack).
Proof using cfg_ok hhdm_aligned R_top AO.
  intros I Hu. unfold create_uthread. eapply nofault_bind; [by apply (create_kthread_ok ts others)|]. intros [t ts1] (Ht & th & E1 & Ef & _ & _ & _ & (led & C & E & Hb) & Hr).
  eapply nofault_bind; [by apply fpu_area_ok|]. intros [a ts2] (Ha & Ha0 & Et & Er & Eas & C2). rewrite Et, E1, (load_Ok _ _ th) by apply lookup_insert_eq. rewrite bind_Ok. cbn [nofault].
  split; [done|]. eexists. cbn [ts_threads ts_areas ts_k addrspace user_stack_save fpu_save kstack kstack_top]. rewrite insert_insert_eq. split; [done|]. do 2 (split; [done|]).
  split; [rewrite Eas; apply lookup_insert_eq|]. split; [|by rewrite Er]. eexists. split; [exact C2|]. cbn [ts_threads]. split.
  - rewrite E1, (list_bind_insert _ _ _ Ht) in E. rewrite (list_bind_insert _ _ _ Ht). unfold thread_objs at 1 in E. unfold thread_objs at 1. cbn [fst snd kstack_top fpu_save] in *.
    rewrite Ef in E. cbn [Z.eqb] in E. rewrite (proj2 (Z.eqb_neq a 0)) by lia. rewrite (take_object _ _ _ _ _ Ha E). apply Permutation_app_head. cbn [app].
    rewrite perm_swap. apply Permutation_skip, perm_swap.
  - intros t' th' [[<- <-]|[Hne H]]%lookup_insert_Some; [cbn; apply (Hb t th); rewrite E1; apply lookup_insert_eq|]. apply (Hb t' th'). rewrite E1. by apply lookup_insert_Some; right.
Qed.

(** ** The end of a thread *)
Lemma release_thread_ok ts others t th :
  threads_inv ts others -> ts_threads ts !! t = Some th ->
  returns (release_thread arch ts t th) (fun ts' => ts_threads ts' = delete t (ts_threads ts) /\ threads_inv ts' others).
Proof using cfg_ok hhdm_aligned.
  intros (led & C & E & Hb) Ht. unfold release_thread. pose proof (Hb t th Ht) as Htop. destruct page_pow as (_ & _ & _ & Hps). rewrite (u64_small (kstack_top th - PAGE_SIZE)) by (unfold is_u64; lia).
  rewrite (list_bind_delete _ _ _ Ht) in E. set (rest := map_to_list (delete t (ts_threads ts)) ≫= thread_objs) in *.
  assert (forall t' th', delete t (ts_threads ts) !! t' = Some th' -> PAGE_SIZE <= kstack_top th' < 2 ^ 64) as Hb' by (intros t' th' [_ H]%lookup_delete_Some; by eapply Hb).
  unfold thread_objs in E. cbn [fst snd] in E. set (area := if fpu_save th =? 0 then [] else _) in E.
  assert (map_to_list led ≡ₚ (kstack_top th - PAGE_SIZE, (PAGE_SIZE, false)) :: area ++ (t, (sizeof_thread, true)) :: map_to_list others ++ rest) as E1.
  { rewrite E, (Permutation_app_comm (map_to_list others)). cbn [app]. rewrite perm_swap. apply Permutation_skip. rewrite <- Permutation_middle. apply Permutation_skip.
    rewrite <- app_assoc. apply Permutation_app_head, Permutation_app_comm. }
  destruct (give_object _ _ _ _ E1) as [H1 E2]. eapply returns_bind; [by apply (k_page_free_ok _ led)|]. intros k1 C1. cbv beta in C1.
  eapply (returns_bind _ _ (fun ts1 => ts_threads ts1 = ts_threads ts /\ exists led1, clients_inv R (heap_of (ts_k ts1), led1) /\ map_to_list led1 ≡ₚ (t, (sizeof_thread, true)) :: map_to_list others ++ rest)).
  { unfold area in E2. destruct (Z.eqb_spec (fpu_save th) 0) as [E0|E0]; cbn [negb app] in *; [apply returns_Ok; split; [done|]; by eexists|].
    destruct (give_object _ _ _ _ E2) as [H2 E3]. eapply returns_mono; [by apply (fpu_area_free_ok (on_kernel ts k1) (delete (kstack_top th - PAGE_SIZE) led))|]. intros ts1 (Et & _ & C2). split; [done|]. by eexists. }
  intros ts1 (Et & led1 & C2 & E3). destruct (give_object _ _ _ _ E3) as [H3 E4]. eapply returns_bind; [by apply (k_free_ok _ led1 _ sizeof_thread)|]. intros k2 C3. apply returns_Ok. rewrite Et. cbn [ts_threads].
  split; [done|]. exists (delete t led1). split; [exact C3|]. cbn [ts_threads]. done.
Qed.

(** A thread of the kernel has nothing else. *)
Lemma reap_kernel ts t th :
  ts_threads ts !! t = Some th -> addrspace th = None -> reap mmu_config arch ts t = release_thread arch ts t th.
Proof using Type. intros Ht Ha. unfold reap. rewrite (load_Ok _ _ _ Ht), bind_Ok. unfold release_space. by rewrite Ha, bind_Ok. Qed.

(** [schedule_finalize] hands an exiting thread to the reaper and then still
    reads it.  When the reaper of another processor is faster, the structure is
    gone, and with it the page table this processor is running on. *)
Lemma finalize_after_reap ts others kernel_page_table prev next th :
  threads_inv ts others -> ts_threads ts !! prev = Some th ->
  returns (release_thread arch ts prev th) (fun ts' => finalize_user kernel_page_table ts' prev next = Fault).
Proof using cfg_ok hhdm_aligned.
  intros I Ht. eapply returns_mono; [by apply (release_thread_ok ts others)|]. intros ts' [E _]. unfold finalize_user, load. by rewrite E, lookup_delete_eq.
Qed.

(** ** Runs *)

(** Threads are made and come to their end in any order.  The address space of
    a user thread has been released when the rest of the thread is. *)
Inductive thread_op :=
| MakeKernel (entry arg1 arg2 : Z)
| MakeUser (arch_switch_to_user entry ustack : Z) (sp : address_space)
| End (t : Z).

Definition op_ok (op : thread_op) : Prop :=
  match op with
  | MakeKernel entry arg1 arg2 => Forall is_u64 [entry; arg1; arg2]
  | MakeUser sw entry ustack _ => Forall is_u64 [sw; entry; ustack]
  | End _ => True
  end.

Definition thread_step ts (op : thread_op) : res tstate :=
  match op with
  | MakeKernel entry arg1 arg2 => '(_, ts) ← create_kthread arch ts entry arg1 arg2; Ok ts
  | MakeUser sw entry ustack sp => '(_, ts) ← create_uthread arch sw ts entry ustack sp; Ok ts
  | End t =>
      match ts_threads ts !! t with
      | None => Ok ts
      | Some th => if addrspace th is Some _ then release_thread arch ts t th else reap mmu_config arch ts t
      end
  end.
Fixpoint thread_run ts (ops : list thread_op) : res tstate :=
  match ops with [] => Ok ts | op :: ops => ts ← thread_step ts op; thread_run ts ops end.

Lemma thread_step_ok ts others op : threads_inv ts others -> op_ok op -> nofault (thread_step ts op) (fun ts' => threads_inv ts' others).
Proof using cfg_ok hhdm_aligned R_top AO.
  intros I Ho. destruct op as [entry arg1 arg2|sw entry ustack sp|t]; cbn [thread_step].
  - eapply nofault_bind; [by apply (create_kthread_ok ts others)|]. by intros [t ts'] (_ & th & _ & _ & _ & _ & _ & I' & _).
  - eapply nofault_bind; [by apply (create_uthread_ok ts others)|]. by intros [t ts'] (_ & th & _ & _ & _ & _ & I' & _).
  - destruct (ts_threads ts !! t) as [th|] eqn:Ht; [|done]. apply returns_nofault. destruct (addrspace th) as [sp|] eqn:Ea; [|rewrite (reap_kernel ts t th Ht Ea)];
      (eapply returns_mono; [by apply (release_thread_ok ts others)|by intros ts' []]).
Qed.

Lemma thread_run_ok ops : forall ts others, threads_inv ts others -> Forall op_ok ops -> nofault (thread_run ts ops) (fun ts' => threads_inv ts' others).
Proof using cfg_ok hhdm_aligned R_top AO.
  induction ops as [|op ops IH]; intros ts others I Ho; cbn [thread_run]; [done|]. apply Forall_cons in Ho as [H1 H2].
  eapply nofault_bind; [by apply (thread_step_ok ts others)|]. intros ts' I'. by apply IH.
Qed.

(** When the last thread is gone, the heap holds the rest alone. *)
Lemma threads_gone ts others : threads_inv ts others -> ts_threads ts = ∅ -> clients_inv R (heap_of (ts_k ts), others).
Proof using Type.
  intros (led & C & E & _) H0. rewrite H0, map_to_list_empty, app_nil_r in E. apply map_to_list_inj in E. by subst.
Qed.

(** What belongs to the threads does not overlap. *)
Lemma threads_apart ts others : threads_inv ts others -> exists led, known_apart led /\
  forall t th p o, ts_threads ts !! t = Some th -> (p, o) ∈ thread_objs (t, th) -> led !! p = Some o.
Proof using cfg_ok hhdm_aligned.
  intros (led & C & E & _). exists led. split; [by apply (served_apart R hhdm_aligned _ _ C)|]. intros t th p o Ht Hin. apply elem_of_map_to_list. rewrite E. apply elem_of_app. right.
  apply list_elem_of_bind. exists (t, th). split; [done|]. by apply elem_of_map_to_list.
Qed.
End Spec.

(** ** The three architectures *)
Section Instances.
Context {cfg : kconfig} {cfg_ok : kconfig_ok cfg}.
Context (finalize_mem : machine -> bytes) (finalize_regs : machine -> String.string -> Z).
Context (finalize_stack : forall m a, sp m <= a < sp m + 128 -> finalize_mem m !! a = ContextSwitch.mem m !! a).
Context (exit tramp : Z) (exit_u64 : is_u64 exit) (tramp_u64 : is_u64 tramp).

Lemma u64_args entry arg1 arg2 : Forall is_u64 [entry; arg1; arg2] -> Forall is_u64 [exit; entry; tramp; arg1; arg2].
Proof using exit_u64 tramp_u64. intros H. apply Forall_cons in H as [H1 H]. repeat (constructor; [done|]). done. Qed.

Lemma small_area size : size <= 2048 -> size + sizeof_malloc_header + 64 - 1 <= bsize MAX_ORDER.
Proof using cfg_ok. intros H. pose proof max_sizes as Hm. destruct page_pow as (_ & _ & _ & Hp). unfold sizeof_malloc_header. lia. Qed.

Lemma x86_arch_ok resume xsave_enabled xsave_size : is_u64 resume ->
  (xsave_enabled = true -> 0 < xsave_size /\ xsave_size + sizeof_malloc_header + 64 - 1 <= bsize MAX_ORDER) ->
  arch_ok (x86_thread_arch exit tramp xsave_enabled xsave_size) (x86_runs finalize_mem finalize_regs resume exit tramp).
Proof using cfg_ok finalize_stack exit_u64 tramp_u64.
  intros Hr Hx. pose proof (small_area 512 ltac:(lia)) as Hs. unfold sizeof_malloc_header in *. destruct xsave_enabled; split; cbn [fpu_area_size fpu_area_kind prepare_thread_stack x86_thread_arch].
  - intros. apply x86_starts; try done. by apply u64_args.
  - by apply Hx.
  - split; [done|]. by apply Hx.
  - intros. apply x86_starts; try done. by apply u64_args.
  - done.
  - lia.
Qed.

Lemma riscv_arch_ok : arch_ok (riscv_thread_arch exit tramp) (riscv_runs finalize_mem finalize_regs exit tramp).
Proof using cfg_ok finalize_stack exit_u64 tramp_u64.
  pose proof (small_area 264 ltac:(lia)) as Hs. unfold sizeof_malloc_header in *. split; cbn [fpu_area_size fpu_area_kind prepare_thread_stack riscv_thread_arch].
  - intros. apply riscv_starts; try done. by apply u64_args.
  - done.
  - unfold Rv64.RISCV_FPU_SAVE_SIZE. lia.
Qed.

Lemma loongarch_arch_ok best : arch_ok (loongarch_thread_arch exit tramp best) (loongarch_runs finalize_mem finalize_regs exit tramp).
Proof using cfg_ok finalize_stack exit_u64 tramp_u64.
  pose proof (small_area 1040 ltac:(lia)) as Hs. split; cbn [fpu_area_size fpu_area_kind prepare_thread_stack loongarch_thread_arch].
  - intros. apply loongarch_starts; try done. by apply u64_args.
  - by destruct best.
  - split; [by destruct best|]. destruct best; cbn [La64.la64_fpu_save_sizes La64.la64_fpu_save_alignments]; unfold La64.LOONGARCH64_FPU_CONTROL_AREA_SIZE; lia.
Qed.
End Instances.

(** ** The specifications *)
Section Claims.
Context {cfg : kconfig} {cfg_ok : kconfig_ok cfg} {A : PagingArch}.
Context (R : regions).
(** The direct map starts on a page boundary and ends below 2^64. *)
Context (hhdm_aligned : (PAGE_SIZE | hhdm_offset)) (R_top : forall r m, (r, m) ∈ R -> r + bsize m + hhdm_offset < 2 ^ 64).


(** C23: a thread made by [create_kthread] is ready to run: on each architecture
    the first processor that switches to it enters its entry point with its two
    arguments, on its own stack, with [thread_exit] to return to. *)
Theorem created_thread_runs finalize_mem finalize_regs exit tramp resume xsave_enabled xsave_size best ts1 ts2 ts3 o1 o2 o3 entry arg1 arg2 :
  (forall m a, sp m <= a < sp m + 128 -> finalize_mem m !! a = ContextSwitch.mem m !! a) ->
  Forall is_u64 [exit; tramp; resume; entry; arg1; arg2] ->
  (xsave_enabled = true -> 0 < xsave_size /\ xsave_size + sizeof_malloc_header + 64 - 1 <= bsize MAX_ORDER) ->
  let x86 := x86_thread_arch exit tramp xsave_enabled xsave_size in
  let riscv := riscv_thread_arch exit tramp in
  let loongarch := loongarch_thread_arch exit tramp best in
  threads_inv x86 R ts1 o1 -> threads_inv riscv R ts2 o2 -> threads_inv loongarch R ts3 o3 ->
  nofault (create_kthread x86 ts1 entry arg1 arg2) (fun '(t, ts') => exists th, ts_threads ts' !! t = Some th /\ t_state th = THREAD_RUNABLE /\
    x86_runs finalize_mem finalize_regs resume exit tramp (kstack th) (k_ram (ts_k ts')) (kstack_top th) entry arg1 arg2) /\
  nofault (create_kthread riscv ts2 entry arg1 arg2) (fun '(t, ts') => exists th, ts_threads ts' !! t = Some th /\ t_state th = THREAD_RUNABLE /\
    riscv_runs finalize_mem finalize_regs exit tramp (kstack th) (k_ram (ts_k ts')) (kstack_top th) entry arg1 arg2) /\
  nofault (create_kthread loongarch ts3 entry arg1 arg2) (fun '(t, ts') => exists th, ts_threads ts' !! t = Some th /\ t_state th = THREAD_RUNABLE /\
    loongarch_runs finalize_mem finalize_regs exit tramp (kstack th) (k_ram (ts_k ts')) (kstack_top th) entry arg1 arg2).
Proof using cfg_ok hhdm_aligned R_top.
  intros Hfin Hu Hx x86 riscv loongarch I1 I2 I3. repeat (apply Forall_cons in Hu as [? Hu]).
  assert (Forall is_u64 [entry; arg1; arg2]) as Ha by (repeat (constructor; [done|]); constructor).
  assert (forall arch ready ts others, arch_ok arch ready -> threads_inv arch R ts others ->
    nofault (create_kthread arch ts entry arg1 arg2) (fun '(t, ts') => exists th, ts_threads ts' !! t = Some th /\ t_state th = THREAD_RUNABLE /\
      ready (kstack th) (k_ram (ts_k ts')) (kstack_top th) entry arg1 arg2)) as Hmake.
  { intros arch ready ts others AO I. eapply nofault_mono; [by apply (create_kthread_ok arch ready AO R hhdm_aligned R_top ts others)|].
    intros [t ts'] (_ & th & E & _ & _ & Es & _ & _ & Hr). exists th. rewrite E, lookup_insert_eq. done. }
  split; [|split].
  - apply (Hmake _ _ ts1 o1 (x86_arch_ok finalize_mem finalize_regs Hfin exit tramp ltac:(done) ltac:(done) resume xsave_enabled xsave_size ltac:(done) Hx) I1).
  - apply (Hmake _ _ ts2 o2 (riscv_arch_ok finalize_mem finalize_regs Hfin exit tramp ltac:(done) ltac:(done)) I2).
  - apply (Hmake _ _ ts3 o3 (loongarch_arch_ok finalize_mem finalize_regs Hfin exit tramp ltac:(done) ltac:(done) best) I3).
Qed.
End Claims.

(** ** Threads on the boot memory *)
Module ThreadDemo.
#[local] Existing Instance x86_64_config.
Definition rest_of (h : kheap) : heap_rest := HeapRest (kmalloc_classes h) (sp_hdrs (kmem h)) (sp_objs (kmem h)) (sp_links (kmem h)) (headers h).
Definition kernel_of (h : kheap) : kernel := Kernel (PtState (sp_pages (kmem h)) ∅ []) (rest_of h) ∅.
Definition k : kernel := kernel_of Malloc.Demo.heap.
Definition ts : tstate := TState k ∅ ∅.
Definition x86 : thread_arch := x86_thread_arch 0x10 0x20 true 832.

Lemma heap_of_kernel h : heap_of (kernel_of h) = h.
Proof. by destruct h as [? [] ?]. Qed.

Lemma heap_made : malloc_init SpallocSpec.Demo.m0 = Ok Malloc.Demo.heap.
Proof.
  assert (match malloc_init SpallocSpec.Demo.m0 with Ok _ => true | _ => false end = true) as H by (vm_compute; reflexivity).
  unfold Malloc.Demo.heap. by destruct (malloc_init SpallocSpec.Demo.m0).
Qed.

(** The frame database covers the first 16 pages above 1 MiB. *)
Lemma low_memory R B : buddy_inv R BuddySpec.Demo.st B -> forall r m, (r, m) ∈ R -> r + bsize m + hhdm_offset < 2 ^ 64.
Proof.
  intros [xss I] r m Hr. destruct (r_shape _ _ (i_regions _ _ _ _ I) _ _ Hr) as (Hm & Hd & Hr0 & _).
  assert (4096 | bsize m) as [w Hw]. { unfold bsize. change PAGE_SIZE_SHIFT with 12. rewrite Z.pow_add_r by lia. by exists (2 ^ m); rewrite Z.mul_comm. }
  pose proof (bsize_pos m (proj1 Hm)) as Hpos. assert (4096 | r) as [z Hz] by (eapply Z.divide_trans; [by exists w|done]).
  destruct (r_mapped _ _ (i_regions _ _ _ _ I) r m (r + bsize m - 4096) Hr) as [[pg Hpg] _].
  { unfold in_block. lia. }
  { change (4096 | r + bsize m - 4096). exists (z + w - 1). lia. }
  assert (map_Forall (fun i _ => i < 0x110) (frames BuddySpec.Demo.st)) as HF by (apply (bool_decide_unpack _); by vm_compute).
  specialize (HF _ _ Hpg). rewrite pfndb_get_entry_div in HF. change (2 ^ PAGE_SIZE_SHIFT) with 4096 in HF. rewrite Hz, Hw in *.
  replace (z * 4096 + w * 4096 - 4096) with ((z + w - 1) * 4096) in HF by lia. rewrite Z.div_mul in HF by lia. change hhdm_offset with 0xffff800000000000. lia.
Qed.

Lemma threads_start : exists R, (forall r m, (r, m) ∈ R -> r + bsize m + hhdm_offset < 2 ^ 64) /\ forall arch, threads_inv arch R ts ∅.
Proof.
  destruct BuddySpec.Demo.ready as (R & B & [I1 I2 I3 I4] & _). exists R. split; [by eapply low_memory|]. intros arch.
  assert (owns R (sp_pages SpallocSpec.Demo.m0) ∅ ∅) as Ho.
  { exists B. split; [done|]. split; [done|]. split; [|by intros q ?%not_elem_of_empty]. intros q j. rewrite <- I4. split; [by right|]. by intros [[?%not_elem_of_empty _]|?]. }
  destruct (malloc_init_ok R SpallocSpec.Demo.m0 ∅ Ho) as (h & E & H & _). rewrite heap_made in E. injection E as <-.
  exists ∅. split; [|split; [done|]].
  - change (ts_k ts) with (kernel_of Malloc.Demo.heap). rewrite heap_of_kernel. exists ∅. split; [|done]. exists ∅, ∅. split; [done|]. split; [by intros ptr o ?%lookup_empty_Some|]. by intros p1 o1 p2 o2 ?%lookup_empty_Some.
  - intros t th. cbn. by intros ?%lookup_empty_Some.
Qed.

Definition space : address_space := AddressSpace 0 0 0 (VMem 0 0 0 0 [] LLIST_INIT (RBTree.RBTree 0 ∅) (SpAllocator LLIST_INIT 0 0 0) ∅ ∅ ∅ (SpMem k ∅ ∅ ∅)).
Definition ops : list thread_op := [MakeKernel 0x30 1 2; MakeUser 0x40 0x400000 0x7000 space; MakeKernel 0x50 3 4].

(** The run makes three threads. *)
Lemma threads_made : match thread_run (A := X86_64.arch) 0 x86 ts ops with Ok ts' => Nat.eqb (size (ts_threads ts')) 3 | _ => false end = true.
Proof. vm_compute. reflexivity. Qed.
End ThreadDemo.


Lemma created_thread_runs_witness : exists R, (forall arch, threads_inv (cfg := x86_64_config) arch R ThreadDemo.ts ∅) /\
  nofault (create_kthread (cfg := x86_64_config) ThreadDemo.x86 ThreadDemo.ts 0x30 1 2) (fun '(t, ts') => exists th, ts_threads ts' !! t = Some th /\ t_state th = THREAD_RUNABLE /\
    x86_runs ContextSwitch.mem regs 0 0x10 0x20 (kstack th) (k_ram (ts_k ts')) (kstack_top th) 0x30 1 2).
Proof.
  destruct ThreadDemo.threads_start as (R & HR & I). exists R. split; [exact I|].
  refine (proj1 (created_thread_runs (cfg := x86_64_config) R SpallocSpec.Demo.aligned HR ContextSwitch.mem regs 0x10 0x20 0 true 832 La64.LOONGARCH64_FPU_STD ThreadDemo.ts ThreadDemo.ts ThreadDemo.ts ∅ ∅ ∅ 0x30 1 2 _ _ _ (I _) (I _) (I _))).
  - done.
  - repeat (constructor; [done|]). constructor.
  - by vm_compute.
Defined.
