(* ===== verification/UserElf.v ===== *)
(** * Loading a program

    [load_elf] puts every loadable segment of a file in place: the pages of the
    segment are the program's own, they hold the bytes of the file followed by
    zeroes, with the protection the segment asks for, and the file itself and
    all other memory stay as they are. *)

From S2P Require Import Prelude LList Pfndb Buddy BuddyInv BuddySpec PageAlloc Spalloc SpallocSpec CString Elf RBTree VMem VMemRep VMemSpec VMemClaims PagingArch Paging PagingRep PagingPmm PagingSpec PagingMap PagingClaims AddressSpace UserPages UserSpace UserMem CStringSpec.
#[local] Open Scope Z_scope.

(** ** One page: zeroes, file, zeroes *)
Section Page.
Context `{cfg_ok : kconfig_ok}.

(** Page [V] holds [c] bytes from [src] at [o], and zeroes around them. *)
Definition page_filled (m m' : bytes) (V o src c : Z) : Prop := forall a,
  m' !! a = if decide (V <= a < V + PAGE_SIZE)
            then (if decide (V + o <= a < V + o + c) then m !! (src + (a - V - o)) else Some 0) else m !! a.

Lemma fill_page_ok x86 m V o src c :
  byte_mem m -> mapped m V PAGE_SIZE -> mapped m src c -> 0 <= V -> V + PAGE_SIZE <= 2 ^ 64 ->
  0 <= o < PAGE_SIZE -> 0 <= c <= PAGE_SIZE - o -> (0 < c -> src + c <= V \/ V + PAGE_SIZE <= src) ->
  exists m', fill_page x86 m V o src c (PAGE_SIZE - o) = Ok m' /\ page_filled m m' V o src c.
Proof using cfg_ok.
  intros HB HV HS H0 Hb Ho Hc Hd. unfold fill_page. rewrite (u64_small (V + o)) by (unfold is_u64; lia).
  assert (exists m1, (if negb (o =? 0) then '(_, m) ← memset x86 m V 0 o; Ok m else Ok m) = Ok m1 /\ filled m m1 V 0 o) as (m1 & -> & F1).
  { destruct (Z.eqb_spec o 0) as [->|]; [exists m; split; [done|apply filled_0]|].
    destruct (memset_ok m V 0 o) with (x86 := x86) as (m1 & E & F); [intros a Ha; apply HV; lia|lia|lia|lia|]. exists m1. cbn [negb]. by rewrite E. }
  rewrite bind_Ok. assert (forall a, is_Some (m !! a) -> is_Some (m1 !! a)) as D1 by (intros a Ha; rewrite F1; by case_decide).
  assert (forall i, 0 <= i < c -> m1 !! (src + i) = m !! (src + i)) as S1 by (intros i Hi; rewrite F1, decide_False by lia; done).
  assert (exists m2, (if negb (c =? 0) then '(_, m) ← memcpy x86 m1 (V + o) src c; Ok m else Ok m1) = Ok m2 /\ copied m1 m2 (V + o) src c) as (m2 & -> & F2).
  { destruct (Z.eqb_spec c 0) as [->|]; [exists m1; split; [done|apply copied_0]|].
    destruct (memcpy_ok m1 (V + o) src c) with (x86 := x86) as (m2 & E & F).
    - intros a b. rewrite F1. case_decide; [by intros [= <-]|apply HB].
    - intros a Ha. apply D1, HV. lia.
    - intros a Ha. apply D1, HS. lia.
    - lia.
    - unfold disjoint_ranges. lia.
    - lia.
    - lia.
    - exists m2. cbn [negb]. by rewrite E. }
  rewrite bind_Ok. assert (forall a, V <= a < V + PAGE_SIZE -> is_Some (m2 !! a)) as D2.
  { intros a Ha. rewrite F2. case_decide as Hin; [|apply D1, HV, Ha]. rewrite S1 by (clear - Hin; lia). apply HS. clear - Hin. lia. }
  assert (exists m3, (if PAGE_SIZE - o >? c then '(_, m) ← memset x86 m2 (u64 (V + o + c)) 0 (PAGE_SIZE - o - c); Ok m else Ok m2) = Ok m3 /\
    filled m2 m3 (V + o + c) 0 (PAGE_SIZE - o - c)) as (m3 & E3 & F3).
  { rewrite Z.gtb_ltb. destruct (Z.ltb_spec c (PAGE_SIZE - o)) as [Hlt|Hge]; [|exists m2; split; [done|]; replace (PAGE_SIZE - o - c) with 0 by lia; apply filled_0].
    rewrite u64_small by (unfold is_u64; lia). destruct (memset_ok m2 (V + o + c) 0 (PAGE_SIZE - o - c)) with (x86 := x86) as (m3 & E & F); [intros a Ha; apply D2; lia|lia|lia|lia|]. exists m3. by rewrite E. }
  exists m3. split; [exact E3|]. intros a. rewrite F3, F2.
  destruct (decide (V + o + c <= a < V + o + c + (PAGE_SIZE - o - c))) as [H1|H1]; [rewrite decide_True, decide_False by lia; done|].
  destruct (decide (V + o <= a < V + o + c)) as [H2|H2].
  { rewrite S1 by (clear - H2; lia). rewrite decide_True by lia. f_equal. lia. }
  rewrite F1. destruct (decide (V <= a < V + o)); [by rewrite decide_True by lia|]. by rewrite decide_False by lia.
Qed.
End Page.

Section Load.
Context {cfg : kconfig} {cfg_ok : kconfig_ok cfg} {A : PagingArch} {L : PagingLaws A} {PL : ProtLaws A}.
Context (mmu_config : Z) (own : Z -> bool) {G : PagingRep.geometry mmu_config}.
Context (R : regions) (R_phys : forall b m, (b, m) ∈ R -> b + bsize m <= 2 ^ 52).
Context (utop : Z) (utop_own : forall va, 0 <= va < utop -> owned mmu_config own va) (utop_64 : utop < 2 ^ 64).
Context (hhdm_aligned : (PAGE_SIZE | hhdm_offset)).
Context (x86 : bool).
Abbreviation user_ok := (user_ok mmu_config own R utop).
Abbreviation space_ok := (space_ok mmu_config own R utop).
Abbreviation outside := (outside R).
Abbreviation pages_added := (pages_added R).
Abbreviation spt sp := (k_pt (kern (valloc sp))).
Abbreviation sram sp := (k_ram (kern (valloc sp))).
Abbreviation sxlate sp := (xlate mmu_config (words (spt sp)) (pagetable sp)).
Implicit Types (k : kernel) (B : blocks) (P : table_map) (F : frame_map) (O : gset Z) (sp : address_space) (Ls : list entry).

(** ** Bytes that stay: those of pages in use by others *)
Definition stable B (M : Z -> Prop) (a : Z) : Prop := exists q, in_use R B q /\ ~ M q /\ page_ok q /\ a ∈ page_bytes q.

Lemma stable_outside k B M k' B' M' a : outside k B M k' B' M' -> stable B M a -> stable B' M' a.
Proof using Type. intros [H _] (q & Hq & Hm & Hok & Ha). destruct (H q Hq Hm) as (Hq' & Hm' & _). by exists q. Qed.

Lemma page_bytes_range q a : page_ok q -> a ∈ page_bytes q <-> hdr_of q <= a < hdr_of q + PAGE_SIZE.
Proof using cfg_ok. intros Hq. unfold page_bytes. rewrite (proj1 (hdr_to_hhdm q Hq)), elem_of_seqZ. done. Qed.

Lemma alloc_page_facts k root B P F F0 O p : user_ok k root B P F F0 O -> B !! p = Some (0, BAlloc) -> page_ok p.
Proof using All.
  intros U Hp. destruct (u_table _ _ _ _ _ _ _ _ _ _ _ U) as [I _]. apply (buddy_pages_page (k_pmm k) {[p]}); [|set_solver].
  exists R, B. split; [apply I|]. split; [apply I|]. by intros ? ->%elem_of_singleton.
Qed.

Lemma stable_new B M p a : stable B M a -> ~ in_use R B p -> page_ok p -> a ∉ page_bytes p.
Proof using cfg_ok.
  intros (q & Hq & _ & Hok & Ha) Hp Hokp. rewrite page_bytes_range in Ha |- * by done. unfold hdr_of in *.
  destruct (page_apart p q Hokp Hok); [by intros -> |lia|lia].
Qed.

(** A row of stable bytes lies on one side of a page that is none of theirs. *)
Lemma stable_row B M p src c :
  (forall i, 0 <= i < c -> stable B M (src + i)) -> ~ in_use R B p -> page_ok p -> 0 < c -> src + c <= TO_HHDM p \/ TO_HHDM p + PAGE_SIZE <= src.
Proof using cfg_ok.
  intros Hs Hp Hok Hc. rewrite (proj1 (hdr_to_hhdm p Hok)). pose proof page_pos as Hps.
  destruct (Z.le_gt_cases (src + c) (hdr_of p)) as [|H1]; [by left|]. destruct (Z.le_gt_cases (hdr_of p + PAGE_SIZE) src) as [|H2]; [by right|]. exfalso.
  destruct (Z.le_gt_cases (hdr_of p) src) as [H3|H3].
  - pose proof (stable_new B M p src) as Hn. rewrite page_bytes_range in Hn by done. apply Hn; [|done|done|lia]. rewrite <- (Z.add_0_r src). apply Hs. lia.
  - pose proof (stable_new B M p (hdr_of p)) as Hn. rewrite page_bytes_range in Hn by done. apply Hn; [|done|done|lia].
    replace (hdr_of p) with (src + (hdr_of p - src)) by lia. apply Hs. lia.
Qed.

(** ** The pages of a segment *)
Lemma user_ram k root B P F F0 O m : user_ok k root B P F F0 O -> user_ok (with_k_ram k m) root B P F F0 O.
Proof using Type. intros [T1 T2 T3 T4 T5 T6 T7 T8]. by split. Qed.

Lemma outside_ram k B M k' B' M' m : outside k B M k' B' M' -> outside k B M (with_k_ram k' m) B' M'.
Proof using Type. intros [H1 H2]. by split. Qed.

(** Byte [y] of what is loaded: the file, then zeroes. *)
Definition image (m : bytes) (src len y : Z) : option Z := if decide (0 <= y < len) then m !! (src + y) else Some 0.

Definition loaded (m : bytes) k' F' (va n o src len : Z) : Prop := forall j p prot x,
  0 <= j < n -> F' !! (va + j * PAGE_SIZE) = Some (p, prot) -> 0 <= x < PAGE_SIZE ->
  k_ram k' !! (TO_HHDM p + x) = image m src len (j * PAGE_SIZE + x - o).

(** The page just filled, and the bytes that are not in it. *)
Lemma filled_bytes k k1 B M p o src len m :
  (forall i, 0 <= i < len -> stable B M (src + i)) -> (forall i, 0 <= i < len -> is_Some (k_ram k !! (src + i))) -> ~ in_use R B p -> page_ok p ->
  k_ram k1 = zero_ram (k_ram k) p -> 0 <= o < PAGE_SIZE -> 0 <= len ->
  page_filled (k_ram k1) m (TO_HHDM p) o src (if len <? PAGE_SIZE - o then len else PAGE_SIZE - o) ->
  (forall a, a ∉ page_bytes p -> m !! a = k_ram k !! a) /\ (forall x, 0 <= x < PAGE_SIZE -> m !! (TO_HHDM p + x) = image (k_ram k) src len (x - o)).
Proof using All.
  intros Hst Hm Hp Hok E Ho Hl Hf. pose proof (proj1 (hdr_to_hhdm p Hok)) as Eh. split.
  - intros a Ha. rewrite Hf. rewrite page_bytes_range in Ha by done. rewrite Eh, decide_False, E by lia. apply zero_ram_out. by rewrite page_bytes_range.
  - intros x Hx. rewrite Hf, decide_True by lia. unfold image.
    destruct (Z.ltb_spec len (PAGE_SIZE - o)); repeat case_decide; try lia; try done;
      (rewrite E, zero_ram_out; [f_equal; lia|]; replace (TO_HHDM p + x - TO_HHDM p - o) with (x - o) by lia; eapply stable_new; [apply Hst; lia|done|done]).
Qed.

Lemma load_pages_ok root O vo attr (n : nat) : forall (first : bool) k B P F va src len,
  let o := if first then vo else 0 in
  user_ok k root B P F F O -> byte_mem (k_ram k) -> (PAGE_SIZE | va) -> 0 <= va -> va + Z.of_nat n * PAGE_SIZE <= utop -> PAGE_LEAF_LEVEL attr = 1 ->
  (forall j, 0 <= j < Z.of_nat n -> F !! (va + j * PAGE_SIZE) = None) ->
  0 <= o < PAGE_SIZE -> 0 <= len -> 0 <= src -> src + len < 2 ^ 64 ->
  (forall i, 0 <= i < len -> stable B (mine P F O) (src + i)) -> (forall i, 0 <= i < len -> is_Some (k_ram k !! (src + i))) ->
  done_or_oom R (load_pages mmu_config x86 n first k root va vo src len attr) (fun k' => exists B' P' F', user_ok k' root B' P' F' F' O /\
    outside k B (mine P F O) k' B' (mine P' F' O) /\ pages_added k B (mine P F O) F k' F' va (Z.of_nat n) (prot_norm mmu_config attr) /\
    byte_mem (k_ram k') /\ loaded (k_ram k) k' F' va (Z.of_nat n) o src len).
Proof using All.
  pose proof page_pos as Hps. induction n as [|n IH]; intros first k B P F va src len o U HB Hd H0 Hu Hat Hn Ho Hl Hs0 Hs Hst Hm.
  { cbn. exists B, P, F. split; [done|]. split; [apply outside_refl|]. split; [apply pages_none|]. split; [done|]. intros j p prot x Hj. lia. }
  cbn [load_pages]. eapply (new_page mmu_config own R R_phys utop utop_own utop_64 hhdm_aligned); [exact U| |done|done|lia|done|].
  { rewrite <- (Z.add_0_r va), <- (Z.mul_0_l PAGE_SIZE). apply Hn. lia. }
  intros p k1 B1 P1 F1 U1 O1 Hnu Hp Er. cbv zeta. fold o. set (c := if len <? PAGE_SIZE - o then len else PAGE_SIZE - o).
  pose proof (alloc_page_facts _ _ _ _ _ _ _ p U1 Hp) as Hok. change (u64 (p + hhdm_offset)) with (TO_HHDM p).
  assert (0 <= c <= PAGE_SIZE - o /\ c <= len /\ (c = len \/ c = PAGE_SIZE - o)) as (Hc1 & Hc2 & Hc3) by (unfold c; destruct (Z.ltb_spec len (PAGE_SIZE - o)); lia).
  assert (forall a, 0 <= a - src < len -> a ∉ page_bytes p) as Hsrc.
  { intros a Ha. eapply stable_new; [|exact Hnu|done]. replace a with (src + (a - src)) by lia. by apply Hst. }
  pose proof (proj1 (hdr_to_hhdm p Hok)) as Eh. pose proof Hok as (Hp0 & _ & Hp2). pose proof hhdm_range.
  destruct (fill_page_ok x86 (k_ram k1) (TO_HHDM p) o src c) as (m & -> & Hf).
  { rewrite Er. intros a b. destruct (decide (a ∈ page_bytes p)) as [Hin|Hin]; [rewrite zero_ram_in by done; by intros [= <-]|rewrite zero_ram_out by done; apply HB]. }
  { intros a Ha. rewrite Er, zero_ram_in; [done|]. rewrite page_bytes_range, <- Eh by done. done. }
  { intros a Ha. rewrite Er, zero_ram_out by (apply Hsrc; lia). replace a with (src + (a - src)) by lia. apply Hm. lia. }
  { rewrite Eh. unfold hdr_of. lia. }
  { rewrite Eh. unfold hdr_of. lia. }
  { lia. } { lia. }
  { intros Hc0. eapply stable_row; [|exact Hnu|done|done]. intros i Hi. apply Hst. lia. }
  rewrite bind_Ok. destruct (filled_bytes k k1 B (mine P F O) p o src len m Hst Hm Hnu Hok Er Ho Hl Hf) as [Hout Hpage].
  assert (forall i, 0 <= i < len -> m !! (src + i) = k_ram k !! (src + i)) as Hsame by (intros i Hi; apply Hout, Hsrc; lia).
  rewrite !u64_small by (unfold is_u64; nia).
  eapply done_mono; [apply (IH false (with_k_ram k1 m) B1 P1 F1 (va + PAGE_SIZE) (src + c) (len - c))|].
  - by apply user_ram.
  - intros a b. cbn. destruct (decide (a ∈ page_bytes p)) as [Hin|Hin]; [|rewrite Hout by done; apply HB].
    rewrite page_bytes_range, <- Eh in Hin by done. replace a with (TO_HHDM p + (a - TO_HHDM p)) by lia. rewrite Hpage by lia. unfold image. case_decide; [apply HB|by intros [= <-]].
  - apply Z.divide_add_r; [done|apply Z.divide_refl].
  - lia.
  - lia.
  - done.
  - intros j Hj. unfold F1. rewrite lookup_insert_ne by nia. replace (va + PAGE_SIZE + j * PAGE_SIZE) with (va + (j + 1) * PAGE_SIZE) by lia. apply Hn. lia.
  - cbv zeta. lia.
  - lia.
  - lia.
  - lia.
  - intros i Hi. rewrite <- Z.add_assoc. eapply stable_outside; [exact O1|]. apply Hst. lia.
  - intros i Hi. cbn. rewrite <- Z.add_assoc, Hsame by lia. apply Hm. lia.
  - cbv zeta. intros k2 (B2 & P2 & F2 & U2 & O2 & A2 & HB2 & L2). exists B2, P2, F2. split; [done|]. split; [by eapply outside_trans|].
    replace (Z.of_nat (S n)) with (Z.of_nat n + 1) by lia. split; [|split; [done|]].
    + eapply pages_cons; [done..|exact (outside_ram _ _ _ _ _ _ m O1)|done| | |lia|exact A2]; [|intros a Ha; cbn; by apply Hout].
      rewrite <- (Z.add_0_r va), <- (Z.mul_0_l PAGE_SIZE). apply Hn. lia.
    + intros j p' prot x Hj Hf' Hx. destruct (decide (j = 0)) as [->|].
      * rewrite Z.mul_0_l, Z.add_0_r in Hf'. assert (F2 !! va = Some (p, prot_norm mmu_config attr)) as E by (eapply lookup_weaken; [apply lookup_insert_eq|apply A2]).
        rewrite E in Hf'. injection Hf' as <- <-. rewrite (pa_bytes _ _ _ _ _ _ _ _ _ _ A2).
        -- cbn. rewrite Hpage by done. f_equal.
        -- intros j' p'' Hj' Hf''. eapply (frame_bytes_apart mmu_config own R R_phys utop utop_own utop_64 hhdm_aligned k2 root B2 P2 F2 F2 O); [exact U2|exact E|exact Hf''|nia|done].
      * rewrite (L2 (j - 1) p' prot x); [|lia| |done]; [|by replace (va + PAGE_SIZE + (j - 1) * PAGE_SIZE) with (va + j * PAGE_SIZE) by lia].
        unfold image. cbn [k_ram with_k_ram]. set (y := j * PAGE_SIZE + x - o). replace ((j - 1) * PAGE_SIZE + x - 0) with (y - (PAGE_SIZE - o)) by (unfold y; lia).
        assert (PAGE_SIZE - o <= y) by (unfold y; nia). destruct Hc3 as [Hc3|Hc3].
        -- rewrite !decide_False by lia. done.
        -- rewrite Hc3. repeat case_decide; try lia; [|done]. replace (src + (PAGE_SIZE - o) + (y - (PAGE_SIZE - o))) with (src + y) by lia. apply Hsame. lia.
Qed.

(** ** One program header *)
Lemma segment_leaf flags : PAGE_LEAF_LEVEL (segment_prot flags) = 1.
Proof using Type. unfold segment_prot. destruct (Z.land flags ELF_PROG_WRITE =? 0), (Z.land flags ELF_PROG_EXEC_FLAG =? 0); reflexivity. Qed.

(** The pages a segment touches. *)
Definition seg_lo (ph : elf_program_header_64) : Z := ALIGN_DOWN (ph_virt_addr ph) PAGE_SIZE.
Definition seg_hi (ph : elf_program_header_64) : Z := ALIGN_UP (ph_virt_addr ph + ph_mem_size ph) PAGE_SIZE.

(** A header the loader can follow: it fits the address space, is not empty,
    and its bytes in the file are there and belong to somebody else. *)
Record loadable (m : bytes) B (M : Z -> Prop) (file : Z) (ph : elf_program_header_64) : Prop := {
  lo_virt : 0 <= ph_virt_addr ph;
  lo_size : 0 < ph_mem_size ph;
  lo_fits : ph_virt_addr ph + ph_mem_size ph + 3 * PAGE_SIZE <= 2 ^ 64;
  lo_src : 0 <= file + ph_offset ph;
  lo_file : 0 <= ph_file_size ph;
  lo_end : file + ph_offset ph + ph_file_size ph < 2 ^ 64;
  lo_stable : forall i, 0 <= i < ph_file_size ph -> stable B M (file + ph_offset ph + i);
  lo_mapped : forall i, 0 <= i < ph_file_size ph -> is_Some (m !! (file + ph_offset ph + i));
}.

Lemma segment_bounds m B M file ph :
  loadable m B M file ph ->
  (PAGE_SIZE | seg_lo ph) /\ (PAGE_SIZE | seg_hi ph) /\ 0 <= seg_lo ph <= ph_virt_addr ph /\ ph_virt_addr ph < seg_lo ph + PAGE_SIZE /\
  ph_virt_addr ph + ph_mem_size ph <= seg_hi ph < ph_virt_addr ph + ph_mem_size ph + PAGE_SIZE.
Proof using All.
  intros H. pose proof shift_range as Hsh. pose proof (PAGE_SIZE_eq) as Ep. assert (0 < 2 ^ PAGE_SIZE_SHIFT) as Hpos by (apply Z.pow_pos_nonneg; lia).
  pose proof (lo_virt _ _ _ _ _ H). pose proof (lo_size _ _ _ _ _ H). pose proof (lo_fits _ _ _ _ _ H) as Hf. unfold seg_lo, seg_hi. rewrite Ep in *.
  destruct (ALIGN_UP_bounds (ph_virt_addr ph + ph_mem_size ph) PAGE_SIZE_SHIFT) as [D Bz]; [lia|unfold is_u64; lia|lia|].
  rewrite ALIGN_DOWN_spec by (lia || (unfold is_u64; lia)). pose proof (Z.mod_pos_bound (ph_virt_addr ph) (2 ^ PAGE_SIZE_SHIFT) Hpos) as Hm.
  pose proof (Z.div_mod (ph_virt_addr ph) (2 ^ PAGE_SIZE_SHIFT) (not_eq_sym (Z.lt_neq _ _ Hpos))) as Hdm. assert (0 <= ph_virt_addr ph / 2 ^ PAGE_SIZE_SHIFT) as Hq by (by apply Z.div_pos).
  set (P := 2 ^ PAGE_SIZE_SHIFT) in *. set (d := ph_virt_addr ph / P) in *. set (r := ph_virt_addr ph mod P) in *. assert (0 <= P * d) by nia. clearbody d r P.
  split; [exists d; lia|]. split; [done|]. lia.
Qed.

(** The segment as the program sees it. *)
Definition in_place (m : bytes) sp' (file : Z) (ph : elf_program_header_64) : Prop := forall y, 0 <= y < ph_mem_size ph ->
  exists p, let x := (ph_virt_addr ph + y) mod PAGE_SIZE in
    sxlate sp' (ph_virt_addr ph + y) = Some (p + x, prot_norm mmu_config (segment_prot (ph_flags ph))) /\
    sram sp' !! (TO_HHDM p + x) = image m (file + ph_offset ph) (ph_file_size ph) y.

(** An address the arena deals in; giving a range to somebody changes nothing. *)
Definition known Ls (x : Z) : Prop := exists b, at_addr Ls x b.

Lemma known_set Ls Ls' lo hi b : range_becomes Ls Ls' lo hi b -> (forall x, lo <= x < hi -> known Ls x) -> forall x, known Ls' x <-> known Ls x.
Proof using Type.
  intros Hr Hk x. split.
  - intros [c [[Hx _]|[_ Hc]]%Hr]; [by apply Hk|by exists c].
  - intros [c Hc]. destruct (decide (lo <= x < hi)); [exists b; apply Hr; by left|exists c; apply Hr; by right].
Qed.

(** What loading does besides: nothing. *)
Record load_frame sp B P F O Ls sp' B' P' F' O' Ls' : Prop := {
  lf_ok : space_ok sp' B' P' F' O' Ls';
  lf_root : pagetable sp' = pagetable sp;
  lf_bytes : byte_mem (sram sp');
  lf_out : outside (kern (valloc sp)) B (mine P F O) (kern (valloc sp')) B' (mine P' F' O');
  lf_sub : F ⊆ F';
  lf_frames : forall va p prot x, F !! va = Some (p, prot) -> 0 <= x < PAGE_SIZE -> sram sp' !! (TO_HHDM p + x) = sram sp !! (TO_HHDM p + x);
  lf_stable : forall a, stable B (mine P F O) a -> sram sp' !! a = sram sp !! a;
  lf_known : forall x, known Ls' x <-> known Ls x;
}.

(** Bytes that new pages leave alone. *)
Lemma added_stable k B P F O root k' B' P' F' lo n prot a :
  pages_added k B (mine P F O) F k' F' lo n prot -> user_ok k' root B' P' F' F' O ->
  stable B (mine P F O) a -> k_ram k' !! a = k_ram k !! a.
Proof using All.
  intros Pg U' (q & Hq & Hm & Hok & Ha). apply (pa_bytes _ _ _ _ _ _ _ _ _ _ Pg). intros j p Hj Hf.
  destruct (pa_new _ _ _ _ _ _ _ _ _ _ Pg j Hj) as (p' & Hp' & Hne). rewrite Hp' in Hf. injection Hf as ->. specialize (Hne q Hq Hm).
  destruct (u_frame _ _ _ _ _ _ _ _ _ _ _ U' _ _ _ Hp') as (Hb & _). pose proof (alloc_page_facts _ _ _ _ _ _ _ p U' Hb) as Hokp.
  rewrite page_bytes_range in Ha |- * by done. unfold hdr_of in *. destruct (page_apart p q Hokp Hok); [congruence|lia|lia].
Qed.

Lemma added_frames k B P F O root k' B' P' F' lo n prot va p pr x :
  pages_added k B (mine P F O) F k' F' lo n prot -> user_ok k' root B' P' F' F' O -> (forall j, 0 <= j < n -> F !! (lo + j * PAGE_SIZE) = None) ->
  F !! va = Some (p, pr) -> 0 <= x < PAGE_SIZE -> k_ram k' !! (TO_HHDM p + x) = k_ram k !! (TO_HHDM p + x).
Proof using All.
  intros Pg U' Hn Hf Hx. apply (pa_bytes _ _ _ _ _ _ _ _ _ _ Pg). intros j p' Hj Hf'.
  eapply (frame_bytes_apart mmu_config own R R_phys utop utop_own utop_64 hhdm_aligned k' root B' P' F' F' O va (lo + j * PAGE_SIZE)); [exact U'|by eapply lookup_weaken, (pa_sub _ _ _ _ _ _ _ _ _ _ Pg)|exact Hf'| |done].
  intros ->. rewrite (Hn j Hj) in Hf. done.
Qed.

Lemma load_segment_ok sp B P F O Ls file ph :
  space_ok sp B P F O Ls -> byte_mem (sram sp) -> loadable (sram sp) B (mine P F O) file ph ->
  nofault (load_segment mmu_config x86 file sp ph) (fun '(ok, sp') =>
    ok = false /\ sp' = sp /\ (seg_lo ph = 0 \/ ~ range_free Ls (seg_lo ph) (seg_hi ph - seg_lo ph)) \/
    ok = true /\ seg_lo ph <> 0 /\ exists B' P' F' O' Ls' e, load_frame sp B P F O Ls sp' B' P' F' O' Ls' /\ in_place (sram sp) sp' file ph /\
      alloc_done PAGE_SIZE (seg_hi ph - seg_lo ph) e (seg_lo ph) (seg_lo ph) Ls Ls' /\
      (forall x, owned mmu_config own x -> ~ (seg_lo ph <= x < seg_hi ph) -> sxlate sp' x = sxlate sp x)).
Proof using All.
  intros S HB Hl. pose proof page_pos as Hps. pose proof shift_range as Hsh. destruct (segment_bounds _ _ _ _ _ Hl) as (Dlo & Dhi & B1 & B2 & B3).
  pose proof Hl as [V0 M0 Hfit S0 F0 Send Hst Hmp]. unfold load_segment. rewrite (u64_small (ph_virt_addr ph + ph_mem_size ph)) by (unfold is_u64; lia).
  fold (seg_lo ph) (seg_hi ph). rewrite (u64_small (file + ph_offset ph)) by (unfold is_u64; lia). rewrite (u64_small (seg_hi ph - seg_lo ph)) by (unfold is_u64; lia).
  set (lo := seg_lo ph) in *. set (sz := seg_hi ph - lo). assert (PAGE_SIZE | sz) as Dz by (by apply Z.divide_sub_r).
  destruct (Z.eqb_spec lo 0) as [E0|Hlo0]; [cbn; left; split; [done|]; split; [done|by left]|].
  assert (ALIGN_UP sz PAGE_SIZE = sz) as Ez by (rewrite PAGE_SIZE_eq in *; apply ALIGN_UP_aligned; [lia|unfold is_u64; lia|done]).
  eapply nofault_bind; [apply (space_alloc mmu_config own R R_phys utop utop_own utop_64 hhdm_aligned sp B P F O Ls sz lo S); [lia|lia|done|unfold is_u64; lia]|].
  intros [r v1] (Ba & O1 & Ls1 & A1 & Hres & U1 & O01 & Er & Ew). unfold alloc_result in Hres. cbn [fst snd] in *. destruct Hres as [(-> & -> & -> & Hn)|(e & Hd)].
  { cbn. left. split; [done|]. split; [by destruct sp|]. right. destruct Hn as [Hn|Hn]; [done|]. eapply (no_room mmu_config own R R_phys utop utop_own utop_64 hhdm_aligned); [exact S|lia|exact Hn|by right]. }
  pose proof Hd as [De Dt Dp Dq Df Dw Dr Dc]. pose proof (Df Hlo0) as ->. rewrite (proj2 (Z.eqb_neq lo 0)) by done.
  assert (sz / PAGE_SIZE * PAGE_SIZE = sz) as Esz by (destruct Dz as [n ->]; by rewrite Z.div_mul by lia). assert (0 <= sz / PAGE_SIZE) as Hpos by (apply Z.div_pos; lia).
  destruct (free_range_clear mmu_config own R R_phys utop utop_own utop_64 hhdm_aligned sp B P F O Ls lo sz S ltac:(lia)) as [Hu Hnone]; [intros x Hx; apply Dw; lia|].
  eapply nofault_bind; [apply (done_nofault R), (load_pages_ok (pagetable sp) O1 (ph_virt_addr ph - lo) (segment_prot (ph_flags ph)) (Z.to_nat (sz / PAGE_SIZE)) true (kern v1) Ba P F lo); rewrite ?Z2Nat.id by done|].
  - exact U1.
  - by rewrite Er.
  - done.
  - lia.
  - lia.
  - apply segment_leaf.
  - exact Hnone.
  - lia.
  - done.
  - done.
  - lia.
  - intros i Hi. eapply stable_outside; [exact O01|by apply Hst].
  - intros i Hi. rewrite Er. by apply Hmp.
  - rewrite Z2Nat.id by done. intros k2 (B2' & P2 & F2 & U2 & O12 & Pg & HB2 & Hld). cbn [nofault]. right. split; [done|]. split; [done|].
    destruct (space_fill mmu_config own R R_phys utop utop_own utop_64 hhdm_aligned sp B P F O Ls (kern v1) v1 Ba O1 Ls1 lo sz e lo k2 B2' P2 F2 _ S Dz ltac:(lia) A1 Hd eq_refl O01 U1 U2 O12 Pg) as (S' & Out & Hin & Hout).
    exists B2', P2, F2, O1, Ls1, e. split; [|split; [|split; [exact Hd|intros x Hx Hno; apply Hout; [done|]; unfold sz; lia]]].
    + split; [exact S'|done|exact HB2|exact Out|apply Pg| | |eapply known_set; [exact Dr|]; intros x Hx; exists false; by apply Dw].
      * intros va p pr x Hf Hx. cbn. rewrite (added_frames (kern v1) Ba P F O1 _ k2 B2' P2 F2 lo _ _ va p pr x Pg U2 Hnone Hf Hx). by rewrite Er.
      * intros a Ha. cbn. rewrite (added_stable (kern v1) Ba P F O1 _ k2 B2' P2 F2 lo _ _ a Pg U2); [by rewrite Er|]. by eapply stable_outside.
    + intros y Hy. destruct (Hin (ph_virt_addr ph + y) ltac:(lia)) as (p & Hp & Hx & _). exists p. cbv zeta. split; [exact Hx|]. cbn.
      destruct (page_in_range mmu_config own R R_phys utop utop_own utop_64 hhdm_aligned lo (sz / PAGE_SIZE) (ph_virt_addr ph + y) Dlo) as (j & Hj & Ej); [rewrite Esz; unfold sz; lia|]. rewrite Ej in Hp.
      rewrite (Hld j p _ _ Hj Hp (Z.mod_pos_bound _ _ Hps)). rewrite Er. f_equal. unfold page_of in Ej. clear - Ej. lia.
Qed.

(** ** The whole file *)
Lemma frame_refl sp B P F O Ls : space_ok sp B P F O Ls -> byte_mem (sram sp) -> load_frame sp B P F O Ls sp B P F O Ls.
Proof using Type. intros S HB. by split. Qed.

Lemma frame_trans sp B P F O Ls sp1 B1 P1 F1 O1 Ls1 sp2 B2 P2 F2 O2 Ls2 :
  load_frame sp B P F O Ls sp1 B1 P1 F1 O1 Ls1 -> load_frame sp1 B1 P1 F1 O1 Ls1 sp2 B2 P2 F2 O2 Ls2 -> load_frame sp B P F O Ls sp2 B2 P2 F2 O2 Ls2.
Proof using Type.
  intros [A1 A2 A3 A4 A5 A6 A7 A8] [C1 C2 C3 C4 C5 C6 C7 C8]. split; try done.
  - congruence.
  - by eapply outside_trans.
  - by etransitivity.
  - intros va p prot x Hf Hx. rewrite (C6 va p prot x); [by eapply A6|by eapply lookup_weaken|done].
  - intros a Ha. rewrite C7; [by apply A7|]. by eapply stable_outside.
  - intros x. by rewrite C8.
Qed.

Lemma in_place_kept m sp B P F O Ls sp' B' P' F' O' Ls' file ph :
  space_ok sp B P F O Ls -> load_frame sp B P F O Ls sp' B' P' F' O' Ls' -> 0 <= ph_virt_addr ph -> ph_virt_addr ph + ph_mem_size ph <= utop ->
  in_place m sp file ph -> in_place m sp' file ph.
Proof using All.
  intros S [S' Er _ _ Sub Fr _ _] H0 Hu H y Hy. destruct (H y Hy) as (p & Hx & Hb). exists p. cbv zeta in *. set (va := ph_virt_addr ph + y) in *.
  assert (owned mmu_config own va) as Ho by (apply utop_own; lia). pose proof page_pos as Hps.
  rewrite (u_xlate _ _ _ _ _ _ _ _ _ _ _ (so_user _ _ _ _ _ _ _ _ _ _ S) va Ho) in Hx. unfold shown in Hx.
  destruct (F !! page_of va) as [[p' pr']|] eqn:Hf; [|done]. assert (p' = p /\ pr' = prot_norm mmu_config (segment_prot (ph_flags ph))) as [-> ->] by (injection Hx as E1 E2; split; [lia|done]).
  rewrite (Fr _ _ _ _ Hf (Z.mod_pos_bound va PAGE_SIZE Hps)). split; [|done].
  rewrite (u_xlate _ _ _ _ _ _ _ _ _ _ _ (so_user _ _ _ _ _ _ _ _ _ _ S') va Ho). unfold shown. by rewrite (lookup_weaken _ _ _ _ Hf Sub).
Qed.

(** An image the loader can read: the headers and the contents of every
    loadable segment lie inside it. *)
Record elf_file (m : bytes) (file flen tab : Z) (phs : list elf_program_header_64) : Prop := {
  ef_range : 0 <= file /\ file + flen < 2 ^ 64;
  ef_mapped : forall a, file <= a < file + flen -> is_Some (m !! a);
  ef_header : 64 <= flen;
  ef_table : header_program_header_table m file = Ok tab /\ 0 <= tab /\ tab + Z.of_nat (length phs) * sizeof_elf_program_header_64 <= flen;
  ef_count : header_program_header_entries m file = Ok (Z.of_nat (length phs));
  ef_phs : forall i ph, phs !! i = Some ph -> program_header m (file + tab + Z.of_nat i * sizeof_elf_program_header_64) = Ok ph;
  ef_load : forall ph, ph ∈ phs -> ph_type ph = ELF_PROG_PT_LOAD_TYPE ->
    0 <= ph_virt_addr ph /\ 0 < ph_mem_size ph /\ ph_virt_addr ph + ph_mem_size ph + 3 * PAGE_SIZE <= 2 ^ 64 /\
    0 <= ph_offset ph /\ 0 <= ph_file_size ph /\ ph_offset ph + ph_file_size ph <= flen;
}.

(** Reads inside the file do not see what happens outside of it. *)
Definition agree (m m' : bytes) (file flen : Z) : Prop := forall a, file <= a < file + flen -> m' !! a = m !! a.

Lemma load_le_agree m m' file flen n : forall p,
  agree m m' file flen -> file <= p -> p + Z.of_nat n <= file + flen -> load_le m' p n = load_le m p n.
Proof using Type.
  induction n as [|n IH]; intros p Ha H1 H2; [done|]. cbn [load_le]. unfold load. rewrite Ha by lia. destruct (m !! p); [|done]. cbn. by rewrite IH by (done || lia).
Qed.

Lemma program_header_agree m m' file flen p :
  agree m m' file flen -> file <= p -> p + sizeof_elf_program_header_64 <= file + flen -> program_header m' p = program_header m p.
Proof using Type.
  unfold sizeof_elf_program_header_64. intros Ha H1 H2. unfold program_header. rewrite !(load_le_agree m m' file flen) by (done || (cbn; lia)). done.
Qed.

Definition is_load (ph : elf_program_header_64) : Prop := ph_type ph = ELF_PROG_PT_LOAD_TYPE.

(** The segments have room: no two in one page, none at address zero, and the
    arena has their pages free. *)
Definition apart (ph ph' : elf_program_header_64) : Prop := is_load ph -> is_load ph' -> seg_hi ph <= seg_lo ph' \/ seg_hi ph' <= seg_lo ph.
Definition room Ls (ph : elf_program_header_64) : Prop := is_load ph -> seg_lo ph <> 0 /\ range_free Ls (seg_lo ph) (seg_hi ph - seg_lo ph).

(** What an allocation takes of the last, partial page is of no use to others. *)
Lemma room_kept Ls Ls' lo n e r lo2 n2 :
  alloc_done PAGE_SIZE n e lo r Ls Ls' -> (PAGE_SIZE | n) -> 0 < n -> (PAGE_SIZE | lo2) -> (PAGE_SIZE | n2) -> r + n <= lo2 \/ lo2 + n2 <= r ->
  range_free Ls lo2 n2 -> range_free Ls' lo2 n2.
Proof using All.
  intros [De Dt Dp [i Hi] _ Dw Dr _] [j Hj] H0 [i2 Hi2] [j2 Hj2] Hap Hf x Hx. pose proof page_pos as Hps. apply (Dr x false). right. split; [|by apply Hf].
  intros Hin. destruct Dt as [->|Dt]; [lia|]. apply (Dt false), Hf. destruct Hap as [Hap|Hap]; [|lia].
  rewrite Hi, Hj, Hi2, Hj2 in *. assert (i2 < i + j + 1) as H1 by (apply (Z.mul_lt_mono_pos_r PAGE_SIZE); lia). assert (i + j < i2 + j2) as H2 by (apply (Z.mul_lt_mono_pos_r PAGE_SIZE); lia).
  assert (i2 <= i + j) as H1' by lia. assert (i + j + 1 <= i2 + j2) as H2' by lia. apply (Z.mul_le_mono_nonneg_r _ _ PAGE_SIZE) in H1', H2'; lia.
Qed.

(** What is allocated afterwards and was not before is a segment's, up to a
    partial last page. *)
Definition given_to Ls Ls' (l : list elf_program_header_64) : Prop := forall x,
  at_addr Ls' x true -> at_addr Ls x true \/ exists ph, ph ∈ l /\ is_load ph /\ x < seg_hi ph + PAGE_SIZE - 1.

Section File.
Context (m0 : bytes) (file flen tab : Z) (phs : list elf_program_header_64) (EF : elf_file m0 file flen tab phs).

Definition file_stable B (M : Z -> Prop) : Prop := forall a, file <= a < file + flen -> stable B M a.

Lemma file_loadable m B M ph :
  agree m0 m file flen -> file_stable B M -> ph ∈ phs -> is_load ph -> loadable m B M file ph.
Proof using EF.
  intros Ha Hs Hin Hl. destruct (ef_load _ _ _ _ _ EF ph Hin Hl) as (H1 & H2 & H3 & H4 & H5 & H6). destruct (ef_range _ _ _ _ _ EF) as [H7 H8].
  split; try lia; intros i Hi; [apply Hs; lia|]. rewrite Ha by lia. apply (ef_mapped _ _ _ _ _ EF). lia.
Qed.

Lemma image_agree m ph y : agree m0 m file flen -> ph ∈ phs -> is_load ph -> image m (file + ph_offset ph) (ph_file_size ph) y = image m0 (file + ph_offset ph) (ph_file_size ph) y.
Proof using EF.
  intros Ha Hin Hl. destruct (ef_load _ _ _ _ _ EF ph Hin Hl) as (H1 & H2 & H3 & H4 & H5 & H6). unfold image. case_decide; [|done]. apply Ha. lia.
Qed.

Lemma load_loop_ok rest : forall did fuel sp B P F O Ls,
  phs = did ++ rest -> (length rest < fuel)%nat -> space_ok sp B P F O Ls -> byte_mem (sram sp) -> agree m0 (sram sp) file flen -> file_stable B (mine P F O) ->
  nofault (load_loop mmu_config x86 fuel file (u64 (file + tab)) sp (Z.of_nat (length did))) (fun '(ok, sp') => exists B' P' F' O' Ls',
    load_frame sp B P F O Ls sp' B' P' F' O' Ls' /\ given_to Ls Ls' rest /\
    (ok = true -> forall ph, ph ∈ rest -> is_load ph -> in_place m0 sp' file ph) /\
    (ok = false -> ~ (ForallOrdPairs apart rest /\ Forall (room Ls) rest))).
Proof using All.
  induction rest as [|ph rest IH]; intros did fuel sp B P F O Ls E Hf S HB Ha Hst; (destruct fuel as [|fuel]; [cbn in Hf; lia|]); cbn [load_loop];
    pose proof (ef_table _ _ _ _ _ EF) as (_ & Ht0 & Ht1); pose proof (ef_header _ _ _ _ _ EF) as Hh; pose proof (ef_range _ _ _ _ _ EF) as [Hr0 Hr1];
    unfold header_program_header_entries; rewrite (load_le_agree m0 _ file flen) by (done || (cbn; lia)); fold (header_program_header_entries m0 file);
    rewrite (ef_count _ _ _ _ _ EF), bind_Ok, E, length_app; cbn [length].
  { rewrite (proj2 (Z.ltb_ge _ _)) by lia. cbn. exists B, P, F, O, Ls. split; [by apply frame_refl|]. split; [by left|]. split; [|done]. by intros _ ph ?%not_elem_of_nil. }
  rewrite (proj2 (Z.ltb_lt _ _)) by lia. cbn [negb]. assert (phs !! length did = Some ph) as Hph by (rewrite E; by apply list_lookup_middle).
  pose proof (list_elem_of_lookup_2 _ _ _ Hph) as Hin. apply lookup_lt_Some in Hph as Hlt.
  assert (0 <= tab + Z.of_nat (length did) * sizeof_elf_program_header_64 /\ tab + Z.of_nat (length did) * sizeof_elf_program_header_64 + sizeof_elf_program_header_64 <= flen) as [Hp0 Hp1] by (unfold sizeof_elf_program_header_64 in *; lia).
  rewrite (u64_small (file + tab)) by (unfold is_u64; unfold sizeof_elf_program_header_64 in *; lia). rewrite u64_small by (unfold is_u64, sizeof_elf_program_header_64 in *; lia).
  rewrite (program_header_agree m0 _ file flen) by (done || lia). rewrite (ef_phs _ _ _ _ _ EF _ _ Hph), bind_Ok.
  assert (phs = (did ++ [ph]) ++ rest) as E' by (by rewrite <- app_assoc). replace (Z.of_nat (length did) + 1) with (Z.of_nat (length (did ++ [ph]))) by (rewrite length_app; cbn; lia).
  rewrite <- (u64_small (file + tab)) by (unfold is_u64; unfold sizeof_elf_program_header_64 in *; lia).
  destruct (Z.eqb_spec (ph_type ph) ELF_PROG_PT_LOAD_TYPE) as [Hl|Hl]; cbn [negb].
  2: { eapply nofault_mono; [apply (IH (did ++ [ph]) fuel sp B P F O Ls E'); [cbn in Hf; lia|done..]|].
       intros [ok sp'] (B' & P' & F' & O' & Ls' & Hfr & Hgv & Hok & Hno). exists B', P', F', O', Ls'. split; [done|]. split; [|split].
       - intros x Hx. destruct (Hgv x Hx) as [?|(ph' & Hin' & ?)]; [by left|right; exists ph'; split; [by right|done]].
       - intros Eok ph' [->|Hin']%elem_of_cons Hl'; [done|by apply Hok].
       - intros Eok [H1 H2]. apply (Hno Eok). inversion H1; inversion H2; done. }
  eapply nofault_bind; [apply (load_segment_ok sp B P F O Ls file ph S HB)|].
  { by apply file_loadable. }
  intros [ok sp1] [(-> & -> & Hno)|(-> & Hlo & B1 & P1 & F1 & O1 & Ls1 & e & Hfr & Hpl & Hd & Hx)].
  { cbn. exists B, P, F, O, Ls. split; [by apply frame_refl|]. split; [by left|]. split; [done|]. intros _ [_ [Hrm _]%Forall_cons]. destruct (Hrm Hl). tauto. }
  destruct (segment_bounds _ _ _ _ _ (file_loadable _ B (mine P F O) ph Ha Hst Hin Hl)) as (Dlo & Dhi & Bd1 & Bd2 & Bd3). destruct (ef_load _ _ _ _ _ EF ph Hin Hl) as (L1 & L2 & L3 & L4 & L5 & L6).
  assert (seg_hi ph <= utop) as Hu.
  { assert (seg_lo ph + (seg_hi ph - seg_lo ph) - 1 < utop); [|lia]. apply (so_low _ _ _ _ _ _ _ _ _ _ S _ false), (ad_was_free _ _ _ _ _ _ _ Hd). pose proof (ad_extent _ _ _ _ _ _ _ Hd). lia. }
  eapply nofault_mono; [apply (IH (did ++ [ph]) fuel sp1 B1 P1 F1 O1 Ls1 E')|].
  - cbn in Hf. lia.
  - apply Hfr.
  - apply Hfr.
  - intros a Hin'. rewrite (lf_stable _ _ _ _ _ _ _ _ _ _ _ _ Hfr) by (by apply Hst). by apply Ha.
  - intros a Hin'. eapply stable_outside; [apply Hfr|by apply Hst].
  - intros [ok sp'] (B' & P' & F' & O' & Ls' & Hfr' & Hgv & Hok & Hno). exists B', P', F', O', Ls'. split; [by eapply frame_trans|]. split; [|split].
    + intros x Hgx. destruct (Hgv x Hgx) as [Hx1|(ph' & Hin' & ?)]; [|right; exists ph'; split; [by right|done]].
      apply (ad_range _ _ _ _ _ _ _ Hd) in Hx1 as [[Hx1 _]|[_ Hx1]]; [|by left]. right. exists ph. split; [by left|]. split; [done|]. pose proof (ad_extent _ _ _ _ _ _ _ Hd). lia.
    + intros Eok ph' [->|Hin']%elem_of_cons Hl'; [|by apply Hok]. eapply in_place_kept; [apply Hfr|exact Hfr'|done|lia|].
      intros y Hy. destruct (Hpl y Hy) as (p & Hp1' & Hp2'). exists p. cbv zeta in *. split; [done|]. rewrite Hp2'. by apply image_agree.
    + intros Eok [H1 H2]. apply (Hno Eok). inversion_clear H1 as [|? ? H1a H1b]. inversion_clear H2 as [|? ? H2a H2b]. split; [done|].
      apply Forall_forall. intros ph' Hin' Hl'. rewrite List.Forall_forall in H1a, H2b. pose proof (proj1 (list_elem_of_In _ _) Hin') as HIn. destruct (H2b ph' HIn Hl') as [Hn0 Hfree]. split; [done|].
      assert (ph' ∈ phs) as Hin2 by (rewrite E'; set_solver). destruct (segment_bounds _ _ _ _ _ (file_loadable _ B (mine P F O) ph' Ha Hst Hin2 Hl')) as (Dlo' & Dhi' & _).
      eapply room_kept; [exact Hd|by apply Z.divide_sub_r|lia|done|by apply Z.divide_sub_r| |done]. specialize (H1a ph' HIn Hl Hl'). lia.
Qed.
End File.

Lemma load_elf_ok arch file flen tab phs valid entry sp B P F O Ls :
  elf_file (sram sp) file flen tab phs -> verify_elf (sram sp) arch file = Ok valid -> header_entry_point (sram sp) file = Ok entry ->
  space_ok sp B P F O Ls -> byte_mem (sram sp) -> file_stable file flen B (mine P F O) ->
  nofault (load_elf mmu_config x86 arch file sp) (fun '(r, sp') => exists B' P' F' O' Ls', load_frame sp B P F O Ls sp' B' P' F' O' Ls' /\ given_to Ls Ls' phs /\
    (r <> 0 -> valid = true /\ r = entry /\ forall ph, ph ∈ phs -> is_load ph -> in_place (sram sp) sp' file ph) /\
    (valid = true -> ForallOrdPairs apart phs -> Forall (room Ls) phs -> r = entry /\ forall ph, ph ∈ phs -> is_load ph -> in_place (sram sp) sp' file ph)).
Proof using All.
  intros EF Hv He S HB Hst. unfold load_elf. rewrite Hv, bind_Ok. destruct valid; cbn [negb].
  2: { cbn. exists B, P, F, O, Ls. split; [by apply frame_refl|]. split; [by left|]. by split. }
  rewrite (proj1 (ef_table _ _ _ _ _ EF)), bind_Ok. assert (length phs < Z.to_nat (2 ^ 16))%nat as Hn.
  { pose proof (load_le_range _ HB _ _ _ (ef_count _ _ _ _ _ EF)) as Hc. change (256 ^ Z.of_nat 2) with (2 ^ 16) in Hc. lia. }
  eapply nofault_bind; [apply (load_loop_ok (sram sp) file flen tab phs EF phs [] _ sp B P F O Ls eq_refl Hn S HB ltac:(done) Hst)|].
  intros [ok sp'] (B' & P' & F' & O' & Ls' & Hfr & Hgv & Hok & Hno). destruct ok; cbn [negb].
  2: { cbn. exists B', P', F', O', Ls'. split; [done|]. split; [done|]. split; [done|]. intros _ H1 H2. by destruct (Hno eq_refl). }
  unfold header_entry_point. rewrite (load_le_agree (sram sp) _ file flen).
  - unfold header_entry_point in He. rewrite He, bind_Ok. cbn [nofault]. exists B', P', F', O', Ls'. split; [done|]. split; [done|]. split; [intros _; split; [done|]; split; [done|]; by apply Hok|].
    intros _ _ _. split; [done|]. by apply Hok.
  - intros a Ha. apply (lf_stable _ _ _ _ _ _ _ _ _ _ _ _ Hfr). by apply Hst.
  - pose proof (ef_range _ _ _ _ _ EF). lia.
  - pose proof (ef_header _ _ _ _ _ EF). cbn. lia.
Qed.

(** ** The first stack *)
Lemma map_stack_loop (n : nat) : forall k root base i,
  0 <= i -> 0 <= base -> base + (i + Z.of_nat n) * PAGE_SIZE < 2 ^ 64 ->
  map_stack mmu_config (S n) k root (base + i * PAGE_SIZE) (base + (i + Z.of_nat n) * PAGE_SIZE) = anon_alloc_loop mmu_config n k root base i.
Proof using cfg_ok.
  pose proof page_pos as Hps. induction n as [|n IH]; intros k root base i Hi Hb Hu.
  - cbn. rewrite (proj2 (Z.ltb_ge _ _)) by lia. done.
  - remember (S n) as n' eqn:En. cbn [map_stack]. rewrite (proj2 (Z.ltb_lt _ _)) by nia. rewrite En. cbn [anon_alloc_loop].
    assert (0 <= (i + Z.of_nat n') * PAGE_SIZE) by nia. rewrite (u64_small (i * PAGE_SIZE)), !u64_small by (unfold is_u64; nia).
    destruct (alloc_user_page k) as [[p k1]| | |]; [|done..]. rewrite !bind_Ok. destruct (map_user_page mmu_config k1 root (base + i * PAGE_SIZE) p PAGE_URW) as [k2| | |]; [|done..]. rewrite !bind_Ok.
    replace (base + i * PAGE_SIZE + PAGE_SIZE) with (base + (i + 1) * PAGE_SIZE) by lia. rewrite <- IH by lia. replace (i + 1 + Z.of_nat n) with (i + Z.of_nat n') by lia. rewrite En. reflexivity.
Qed.

Lemma push_ok n : forall m x, 8 * Z.of_nat n <= x <= 2 ^ 64 -> mapped m (x - 8 * Z.of_nat n) (8 * Z.of_nat n) ->
  exists m', push_zeroes n m (u64 x) = Ok (u64 (x - 8 * Z.of_nat n), m') /\ filled m m' (x - 8 * Z.of_nat n) 0 (8 * Z.of_nat n).
Proof using Type.
  induction n as [|n IH]; intros m x Hx HM.
  { exists m. rewrite Z.mul_0_r, Z.sub_0_r. split; [done|apply filled_0]. }
  cbn [push_zeroes]. assert (u64 (u64 x - 8) = x - 8) as ->.
  { unfold u64. rewrite Zminus_mod_idemp_l. apply Z.mod_small. lia. }
  unfold store_word. change (le_bytes 8 0) with (replicate 8 0). destruct (store_bytes_ok (replicate 8 0) m (x - 8)) as (m1 & -> & H1); [intros a Ha; apply HM; cbn in Ha; lia|].
  rewrite bind_Ok. destruct (IH m1 (x - 8)) as (m2 & E2 & H2); [lia| |].
  { intros a Ha. rewrite H1, decide_False by (cbn; lia). apply HM. lia. }
  rewrite u64_small in E2 by (unfold is_u64; lia). exists m2. split; [rewrite E2; do 3 f_equal; lia|]. intros a. rewrite H2, H1. change (Z.of_nat (length (replicate 8 0))) with 8.
  repeat case_decide; try lia; try done. apply lookup_replicate_2. lia.
Qed.

Lemma stack_pages : (PAGE_SIZE | USER_STACK_SIZE) /\ PAGE_SIZE <= USER_STACK_SIZE.
Proof using cfg_ok hhdm_aligned.
  destruct page_pow as (j & Hj & E & Hr). unfold USER_STACK_SIZE. change 0x20000 with (2 ^ 17). rewrite E in *.
  assert (j <= 17) by (apply (Z.pow_le_mono_r_iff 2); [lia|lia|]; change (2 ^ 17) with 131072; lia). split; [|lia].
  exists (2 ^ (17 - j)). rewrite <- Z.pow_add_r by lia. f_equal. lia.
Qed.

(** When the arena has room, the program starts on a zeroed stack of its own. *)
Lemma user_stack_ok sp B P F O Ls :
  space_ok sp B P F O Ls -> (exists y, range_free Ls y USER_STACK_SIZE) ->
  nofault (user_stack mmu_config sp) (fun '(usp, sp') => exists base,
    usp = base + USER_STACK_SIZE - 32 /\ range_given mmu_config own R utop sp B P F O Ls sp' base USER_STACK_SIZE (URW mmu_config)).
Proof using All.
  intros S [y Hy]. pose proof page_pos as Hps. destruct stack_pages as [Dz Hz]. unfold user_stack. set (sz := USER_STACK_SIZE) in *.
  assert (sz + 2 * PAGE_SIZE <= 2 ^ 64) as Hb by (destruct page_pow as (j & _ & _ & Hr); unfold sz, USER_STACK_SIZE; lia).
  assert (ALIGN_UP sz PAGE_SIZE = sz) as Ez by (pose proof shift_range; rewrite PAGE_SIZE_eq in *; apply ALIGN_UP_aligned; [lia|unfold is_u64; lia|done]).
  eapply nofault_bind; [apply (space_alloc mmu_config own R R_phys utop utop_own utop_64 hhdm_aligned sp B P F O Ls sz 0 S); [lia|lia|done|unfold is_u64; lia]|].
  intros [mem v1] (B1 & O1 & Ls1 & A1 & Hres & U1 & O01 & Er & Ew). unfold alloc_result in Hres. cbn [fst snd] in *. destruct Hres as [(-> & -> & -> & Hn)|(e & Hd)].
  { exfalso. destruct Hn as [Hn|Hn]; [apply Hn, Z.divide_0_r|]. eapply (no_room mmu_config own R R_phys utop utop_own utop_64 hhdm_aligned); [exact S| |exact Hn|by left|exact Hy]. lia. }
  pose proof Hd as [De Dt Dp Dq Df Dw Dr Dc].
  destruct (free_range_clear mmu_config own R R_phys utop utop_own utop_64 hhdm_aligned sp B P F O Ls mem sz S ltac:(lia)) as [Hu Hnone]; [intros x Hx; apply Dw; lia|].
  rewrite (u64_small (mem + sz)) by (unfold is_u64; lia). assert (sz / PAGE_SIZE * PAGE_SIZE = sz) as Esz by (destruct Dz as [n ->]; by rewrite Z.div_mul by lia).
  assert (0 < sz / PAGE_SIZE) as Hpos by (apply Z.div_str_pos; lia). set (n := Z.to_nat (sz / PAGE_SIZE)).
  assert (map_stack mmu_config (Datatypes.S n) (kern v1) (pagetable sp) mem (mem + sz) = anon_alloc_loop mmu_config n (kern v1) (pagetable sp) mem 0) as ->.
  { rewrite <- map_stack_loop by (unfold n; rewrite ?Z2Nat.id by lia; lia). unfold n. rewrite Z2Nat.id by lia. f_equal; lia. }
  eapply nofault_bind; [apply (done_nofault R), (anon_alloc_loop_ok mmu_config own R R_phys utop utop_own utop_64 hhdm_aligned (pagetable sp) O1 mem n (kern v1) B1 P F 0 U1 Dq); unfold n; rewrite ?Z2Nat.id by lia; (lia || done)|].
  unfold n. rewrite Z2Nat.id by lia. rewrite Z.mul_0_l, Z.add_0_r. intros k2 (B2 & P2 & F2 & U2 & O12 & Pg & Zr).
  assert (0 <= sz / PAGE_SIZE - 1 < sz / PAGE_SIZE) as Hlast by (clear - Hpos; lia). assert (mem + (sz / PAGE_SIZE - 1) * PAGE_SIZE = mem + sz - PAGE_SIZE) as Elast by (clear - Esz; lia).
  destruct (pa_new _ _ _ _ _ _ _ _ _ _ Pg (sz / PAGE_SIZE - 1) Hlast) as (p & Hp & _). rewrite Elast in Hp.
  rewrite (u64_small (mem + sz - PAGE_SIZE)) by (unfold is_u64; lia).
  rewrite (user_get mmu_config own R R_phys utop utop_own utop_64 k2 (pagetable sp) B2 P2 F2 F2 O1 (mem + sz - PAGE_SIZE) U2) by (lia || (apply Z.divide_sub_r; [by apply Z.divide_add_r|apply Z.divide_refl])).
  rewrite Hp, bind_Ok. destruct (u_frame _ _ _ _ _ _ _ _ _ _ _ U2 _ _ _ Hp) as (Hbp & _). pose proof (alloc_page_facts _ _ _ _ _ _ _ p U2 Hbp) as Hok.
  pose proof (proj1 (hdr_to_hhdm p Hok)) as Eh. pose proof Hok as (Hp0 & _ & Hp2). pose proof hhdm_range. destruct page_pow as (_ & _ & _ & Hr).
  assert (forall x, 0 <= x < PAGE_SIZE -> k_ram k2 !! (TO_HHDM p + x) = Some 0) as Hzero.
  { intros x Hx. apply (Zr (sz / PAGE_SIZE - 1) p (URW mmu_config) x Hlast); [|done]. rewrite Elast. exact Hp. }
  assert (TO_HHDM p = p + hhdm_offset) as Eh' by exact Eh.
  destruct (push_ok 4 (k_ram k2) (TO_HHDM p + PAGE_SIZE)) as (m' & -> & Hf); [lia| |].
  { intros a Ha. replace a with (TO_HHDM p + (a - TO_HHDM p)) by lia. rewrite Hzero by lia. done. }
  rewrite bind_Ok. cbn [nofault]. exists mem. split.
  { change (8 * Z.of_nat 4) with 32. rewrite (u64_small (TO_HHDM p + PAGE_SIZE - 32)) by (unfold is_u64; lia). destruct (decide (TO_HHDM p + PAGE_SIZE = 2 ^ 64)) as [E|E].
    - rewrite E. change (u64 (2 ^ 64)) with 0. replace (mem + sz - (0 - (2 ^ 64 - 32))) with (mem + sz - 32 + 1 * 2 ^ 64) by lia. unfold u64. rewrite Z.mod_add by lia. apply Z.mod_small. lia.
    - rewrite (u64_small (TO_HHDM p + PAGE_SIZE)), u64_small by (unfold is_u64; lia). lia. }
  assert (k_ram k2 = m') as Em.
  { apply map_eq. intros a. rewrite Hf. case_decide; [|done]. replace a with (TO_HHDM p + (a - TO_HHDM p)) by lia. apply Hzero. lia. }
  assert (with_k_ram k2 m' = k2) as -> by (rewrite <- Em; by destruct k2).
  eapply (zeroed_given mmu_config own R R_phys utop utop_own utop_64 hhdm_aligned); [exact S|done|lia|exact A1|exact Hd|exact O01|exact U1|exact U2|exact O12|exact Pg|exact Zr].
Qed.
End Load.
