(* ===== verification/UserClaims.v ===== *)
(** * The life of an address space

    What user programs and the kernel around them can rely on: the system
    calls for memory, the loader, and that an address space gives back, when it
    goes, every page it ever took but those of its arena's segments. *)

From S2P Require Import Prelude LList Pfndb Buddy BuddyInv BuddySpec PageAlloc Spalloc SpallocSpec CString Elf RBTree VMem VMemRep VMemSpec VMemClaims PagingArch Paging PagingRep PagingPmm PagingSpec PagingMap PagingClaims AddressSpace UserPages UserSpace UserMem CStringSpec UserElf.
#[local] Open Scope Z_scope.

Section Claims.
Context {cfg : kconfig} {cfg_ok : kconfig_ok cfg} {A : PagingArch} {L : PagingLaws A} {PL : ProtLaws A}.
Context (mmu_config : Z) (own : Z -> bool) {G : PagingRep.geometry mmu_config}.
Context (R : regions) (R_phys : forall b m, (b, m) ∈ R -> b + bsize m <= 2 ^ 52).
Context (utop : Z) (utop_own : forall va, 0 <= va < utop -> owned mmu_config own va) (utop_64 : utop < 2 ^ 64).
(** The boot loader places the direct map on a page boundary. *)
Context (hhdm_aligned : (PAGE_SIZE | hhdm_offset)).
Abbreviation space_ok := (space_ok mmu_config own R utop).
Abbreviation outside := (outside R).
Abbreviation spt sp := (k_pt (kern (valloc sp))).
Abbreviation sram sp := (k_ram (kern (valloc sp))).
Abbreviation sxlate sp := (xlate mmu_config (words (spt sp)) (pagetable sp)).
Implicit Types (k : kernel) (B : blocks) (P : table_map) (F : frame_map) (O : gset Z) (sp : address_space) (Ls : list entry).

(** ** From the first page to the last *)
Section Life.
(** The end of the arena, [VADDR_LOWER_HALF_TOP]. *)
Context (vtop : Z).

(** What happens to an address space between its making and its end: a stack,
    and memory that is asked for and given back.  No request reaches into the
    last page. *)
Inductive user_call sp : address_space -> Prop :=
  | call_stack base v usp sp' :
      vmem_alloc (valloc sp) USER_STACK_SIZE 0 = Ok (base, v) -> base <> 0 ->
      user_stack mmu_config sp = Ok (usp, sp') -> usp + 32 + PAGE_SIZE <= vtop -> user_call sp sp'
  | call_alloc size r sp' :
      0 < size -> size + 2 * PAGE_SIZE <= 2 ^ 64 -> syscall_anon_alloc mmu_config sp size = Ok (r, sp') ->
      retval r + ALIGN_UP size PAGE_SIZE + PAGE_SIZE <= vtop -> user_call sp sp'
  | call_free base len r sp' :
      is_u64 base -> 0 < len -> len + 2 * PAGE_SIZE <= 2 ^ 64 -> ALIGN_DOWN base PAGE_SIZE + ALIGN_UP len PAGE_SIZE <= utop ->
      syscall_anon_free mmu_config sp base len = Ok (r, sp') -> user_call sp sp'.

(** The address space, seen from the state [k0] it came from. *)
Record live k0 B0 sp B P F O Ls : Prop := {
  lv_ok : space_ok sp B P F O Ls;
  lv_known : forall x, known Ls x <-> PAGE_SIZE <= x < vtop;
  lv_last : forall x, at_addr Ls x true -> x < vtop - 1;
  lv_out : outside k0 B0 (fun _ => False) (kern (valloc sp)) B (mine P F O);
}.

(** Segments end where the next one starts, so all but the last are whole. *)
Lemma live_whole k0 B0 sp B P F O Ls : live k0 B0 sp B P F O Ls -> whole Ls.
Proof using All.
  intros [S K La _] a s Hin Hal. destruct (space_facts _ _ _ _ _ _ _ _ _ _ S) as (_ & _ & _ & Hnd & Hok).
  destruct (segs_ok_bounds _ _ _ _ _ _ Hok Hin) as (_ & _ & Hpos & Hb).
  assert (s_end s - 1 < vtop - 1) as Hlt by (apply La; exists a, s; split; [done|]; split; [unfold s_end; lia|done]).
  assert (PAGE_SIZE <= s_base s) as Hlo by (apply K; exists true, a, s; split; [done|]; split; [unfold s_end; lia|done]).
  destruct (proj2 (K (s_end s))) as [c (b & t & Hin' & Ht & _)]; [unfold s_end in *; lia|].
  destruct (segs_ok_bounds _ _ _ _ _ _ Hok Hin') as (_ & _ & _ & Hb').
  destruct (segs_apart _ _ _ _ _ _ _ _ Hok Hnd Hin Hin') as [[-> ->]|H]; [lia|].
  assert (s_base t = s_end s) as E by (unfold s_end in *; lia). rewrite E in Hb'. unfold s_end in Hb'.
  replace (s_size s) with (s_base s + s_size s - s_base s) by lia. by apply Z.divide_sub_r.
Qed.

Lemma live_given k0 B0 sp B P F O Ls sp' mem len prot :
  live k0 B0 sp B P F O Ls -> range_given mmu_config own R utop sp B P F O Ls sp' mem len prot -> mem + len + PAGE_SIZE <= vtop ->
  exists B' P' F' O' Ls', live k0 B0 sp' B' P' F' O' Ls'.
Proof using Type.
  intros [S K La Out] (B' & P' & F' & O' & Ls' & S' & _ & _ & _ & (e & He & _ & Hf & Hr) & _ & _ & Out') Hv. exists B', P', F', O', Ls'. split; [done| | |by eapply outside_trans].
  - intros x. rewrite <- K. apply (known_set Ls Ls' mem (mem + e) true Hr). intros y Hy. exists false. by apply Hf.
  - intros x [[Hx _]|[_ Hx]]%(Hr x true); [lia|by apply La].
Qed.

Lemma call_live k0 B0 sp B P F O Ls sp' :
  live k0 B0 sp B P F O Ls -> user_call sp sp' -> exists B' P' F' O' Ls', live k0 B0 sp' B' P' F' O' Ls'.
Proof using All.
  intros Lv C. pose proof Lv as [S K La Out]. destruct C as [base v usp sp' E H0 Er Hv|size r sp' H0 Hs E Hv|base len r sp' Hb H0 Hs Hu E].
  - destruct (stack_pages hhdm_aligned) as [Dz Hz]. pose proof page_pos as Hps. pose proof shift_range.
    assert (USER_STACK_SIZE + 2 * PAGE_SIZE <= 2 ^ 64) as Hb by (destruct page_pow as (j & _ & _ & Hr); unfold USER_STACK_SIZE; lia).
    assert (ALIGN_UP USER_STACK_SIZE PAGE_SIZE = USER_STACK_SIZE) as Ez by (rewrite PAGE_SIZE_eq in *; apply ALIGN_UP_aligned; [lia|unfold is_u64; lia|done]).
    pose proof (space_alloc mmu_config own R R_phys utop utop_own utop_64 hhdm_aligned sp B P F O Ls USER_STACK_SIZE 0 S ltac:(lia) Hb Ez ltac:(unfold is_u64; lia)) as Ha.
    rewrite E in Ha. destruct Ha as (B1 & O1 & Ls1 & _ & Hres & _). unfold alloc_result in Hres. cbn [fst snd] in Hres. destruct Hres as [(-> & _)|(e & Hd)]; [done|].
    pose proof (user_stack_ok mmu_config own R R_phys utop utop_own utop_64 hhdm_aligned true sp B P F O Ls S) as Hst.
    rewrite Er in Hst. destruct Hst as (b2 & -> & Hg).
    { exists base. intros x Hx. apply (ad_was_free _ _ _ _ _ _ _ Hd). pose proof (ad_extent _ _ _ _ _ _ _ Hd). lia. }
    eapply live_given; [exact Lv|exact Hg|]. lia.
  - pose proof (anon_alloc_ok mmu_config own R R_phys utop utop_own utop_64 hhdm_aligned sp B P F O Ls size S H0 Hs) as Ha. rewrite E in Ha.
    destruct Ha as [(_ & -> & _)|[_ Hg]]; [eauto 6|]. by eapply live_given.
  - pose proof (anon_free_ok mmu_config own R R_phys utop utop_own utop_64 hhdm_aligned sp B P F O Ls base len S Hb H0 Hs Hu) as Ha. rewrite E in Ha.
    destruct Ha as (_ & B' & P' & O' & Ls' & stop & S' & _ & H1 & _ & Hall & Hr & _ & Out'). exists B', P', (clear (ALIGN_DOWN base PAGE_SIZE) (ALIGN_UP len PAGE_SIZE) F), O', Ls'.
    split; [done| | |by eapply outside_trans].
    + intros x. rewrite <- K. apply (known_set Ls Ls' _ _ false Hr). intros y Hy. exists true. by apply Hall.
    + intros x [[_ ?]|[_ Hx]]%(Hr x true); [done|by apply La].
Qed.

Lemma calls_live k0 B0 sp B P F O Ls sp' :
  live k0 B0 sp B P F O Ls -> rtc user_call sp sp' -> exists B' P' F' O' Ls', live k0 B0 sp' B' P' F' O' Ls'.
Proof using All.
  intros Lv C. revert B P F O Ls Lv. induction C as [sp|sp sp1 sp2 C _ IH]; intros B P F O Ls Lv; [eauto 6|].
  destruct (call_live _ _ _ _ _ _ _ _ _ Lv C) as (B' & P' & F' & O' & Ls' & Lv'). by eapply IH.
Qed.

(** A new address space with a program in it. *)
Lemma loaded_live x86 separate_roots kernel_page_table k B self valloc_ptr sp0 arch file flen tab phs valid entry r sp1 :
  buddy_inv R (k_pmm k) B -> settled B -> byte_mem (k_ram k) -> PAGE_SIZE < vtop - PAGE_SIZE -> vtop <= utop ->
  (separate_roots = false -> in_use R B kernel_page_table /\ (forall i, upper_half i -> own i = false) /\
     forall i, upper_half i -> is_Some (words (k_pt k) !! (kernel_page_table + 8 * i))) ->
  elf_file (k_ram k) file flen tab phs -> verify_elf (k_ram k) arch file = Ok valid -> header_entry_point (k_ram k) file = Ok entry ->
  file_stable R file flen B (fun _ => False) -> (forall ph, ph ∈ phs -> is_load ph -> seg_hi ph + PAGE_SIZE <= vtop) ->
  address_space_setup separate_roots kernel_page_table vtop k self valloc_ptr = Ok sp0 -> load_elf mmu_config x86 arch file sp0 = Ok (r, sp1) ->
  exists B' P' F' O' Ls', live k B sp1 B' P' F' O' Ls'.
Proof using All.
  intros I HS HB Hv Hu Hroot EF Ev Ee Hst Hhi E0 E1.
  pose proof (setup_ok mmu_config own R R_phys utop utop_own utop_64 hhdm_aligned separate_roots kernel_page_table vtop k B self valloc_ptr I HS Hv Hu Hroot) as H0.
  rewrite E0 in H0. destruct H0 as (B0 & P0 & O0 & n & S0 & Out0 & Er & _).
  pose proof (load_elf_ok mmu_config own R R_phys utop utop_own utop_64 hhdm_aligned x86 arch file flen tab phs valid entry sp0 B0 P0 ∅ O0 [(n, Seg false PAGE_SIZE (vtop - PAGE_SIZE))]) as H1. rewrite Er, E1 in H1.
  destruct (H1 EF Ev Ee S0 HB) as (B1 & P1 & F1 & O1 & Ls1 & Fr & Gv & _).
  { intros a Ha. eapply stable_outside; [exact Out0|by apply Hst]. }
  exists B1, P1, F1, O1, Ls1. split; [apply Fr| | |eapply outside_trans; [exact Out0|apply Fr]].
  - intros x. rewrite (lf_known _ _ _ _ _ _ _ _ _ _ _ _ _ _ _ _ Fr). split.
    + intros (b & a & s & [= -> ->]%list_elem_of_singleton & Hx & _). unfold s_end in Hx. cbn in Hx. lia.
    + intros Hx. exists false, n, (Seg false PAGE_SIZE (vtop - PAGE_SIZE)). split; [by apply list_elem_of_singleton|]. split; [unfold s_end; cbn; lia|done].
  - intros x Hx. destruct (Gv x Hx) as [(a & s & [= -> ->]%list_elem_of_singleton & _ & [=])|(ph & Hin & Hl & Hlt)]. specialize (Hhi ph Hin Hl). lia.
Qed.
End Life.




End Claims.

(** ** A small program on the demonstration memory *)
Module LDemo.
#[local] Existing Instance x86_64_config.
#[local] Existing Instance X86_64.arch.
#[local] Existing Instance PDemo.mmu_geometry.

(** One loadable segment: the headers and eight bytes of code, and zeroes up to
    a second page. *)
Definition image_bytes : list Z :=
  elf_magic ++ [ELF_64_BIT; ELF_LITTLE_ENDIAN; ELF_HEADER_VER; ELF_EVALYNOS_ABI] ++ replicate 8 0 ++
  le_bytes 2 ELF_EXECUTABLE_TYPE ++ le_bytes 2 ELF_X86_64_ARCH ++ le_bytes 4 ELF_VER ++ le_bytes 8 0x400078 ++ le_bytes 8 64 ++
  replicate 16 0 ++ le_bytes 2 1 ++ replicate 6 0 ++
  le_bytes 4 ELF_PROG_PT_LOAD_TYPE ++ le_bytes 4 5 ++ le_bytes 8 0 ++ le_bytes 8 0x400000 ++ replicate 8 0 ++ le_bytes 8 128 ++ le_bytes 8 0x1100 ++ replicate 8 0 ++
  [0xF3; 0x90; 0xEB; 0xFC; 1; 2; 3; 4].
Definition ph : elf_program_header_64 := ElfProgramHeader ELF_PROG_PT_LOAD_TYPE 5 0 0x400000 128 0x1100.

Definition VADDR_LOWER_HALF_TOP : Z := 2 ^ 47 - 1.
Definition page : Z := match pmm_alloc_page (pmm PDemo.s) with Ok (p, _) => p | _ => 0 end.
Definition st : buddy_state := match pmm_alloc_page (pmm PDemo.s) with Ok (_, b) => b | _ => pmm PDemo.s end.
Definition file : Z := TO_HHDM page.
Definition ram : bytes := list_to_map (zip (seqZ file 128) image_bytes).
Definition k : kernel := Kernel (with_pmm PDemo.s st) (HeapRest [] ∅ ∅ ∅ ∅) ram.

Definition setup : res address_space := address_space_setup false PDemo.root VADDR_LOWER_HALF_TOP k 16 32.
Definition run (sp : address_space) : res (Z * address_space) := load_elf PDemo.mmu true ELF_X86_64_ARCH file sp.

Lemma page_taken : pmm_alloc_page (pmm PDemo.s) = Ok (page, st).
Proof.
  assert (match pmm_alloc_page (pmm PDemo.s) with Ok _ => true | _ => false end = true) as H by (vm_compute; reflexivity).
  unfold page, st. by destruct (pmm_alloc_page (pmm PDemo.s)) as [[p b]| | |].
Qed.

Lemma file_checks :
  forallb (fun a => bool_decide (is_Some (ram !! a))) (seqZ file 128) && forallb (fun e => (0 <=? e.2) && (e.2 <? 256)) (map_to_list ram) &&
  forallb (fun i => bool_decide (is_Some (words PDemo.s !! (PDemo.root + 8 * i)))) (seqZ 256 256) = true.
Proof. vm_compute. reflexivity. Qed.

#[local] Opaque PDemo.s PDemo.root page st file ram.

Lemma ram_bytes : byte_mem ram.
Proof.
  pose proof file_checks as H. apply andb_true_iff in H as [H _]. apply andb_true_iff in H as [_ H]. rewrite forallb_forall in H.
  generalize dependent ram. intros m H a b Hab. assert (In (a, b) (map_to_list m)) as Hin by (apply list_elem_of_In; by apply elem_of_map_to_list).
  specialize (H (a, b) Hin). cbn [snd] in H. rewrite andb_true_iff, Z.leb_le, Z.ltb_lt in H. exact H.
Qed.

Lemma ram_mapped a : file <= a < file + 128 -> is_Some (ram !! a).
Proof.
  pose proof file_checks as H. apply andb_true_iff in H as [H _]. apply andb_true_iff in H as [H _]. rewrite forallb_forall in H.
  intros Ha. apply (bool_decide_eq_true_1 _ (H a (proj1 (list_elem_of_In _ _) (proj2 (elem_of_seqZ _ _ _) Ha)))).
Qed.

Lemma kernel_half i : upper_half i -> PDemo.user i = false /\ is_Some (words PDemo.s !! (PDemo.root + 8 * i)).
Proof.
  pose proof file_checks as H. apply andb_true_iff in H as [_ H]. rewrite forallb_forall in H. unfold upper_half. change (entries / 2) with 256. change entries with 512. intros Hi. split.
  - apply Z.ltb_ge. lia.
  - assert (256 <= i < 256 + 256) as Hi' by lia. apply (bool_decide_eq_true_1 _ (H i (proj1 (list_elem_of_In _ _) (proj2 (elem_of_seqZ 256 256 i) Hi')))).
Qed.

Lemma file_ok : elf_file ram file 128 64 [ph].
Proof.
  split.
  - split; vm_compute; discriminate || reflexivity.
  - apply ram_mapped.
  - lia.
  - split; [vm_compute; reflexivity|]. cbn. unfold sizeof_elf_program_header_64. lia.
  - vm_compute. reflexivity.
  - intros [|i] ph'; [|intros H; by destruct i]. intros [= <-]. vm_compute. reflexivity.
  - intros ph' ->%list_elem_of_singleton _. cbn. change PAGE_SIZE with 4096. lia.
Qed.

Lemma file_valid : verify_elf ram ELF_X86_64_ARCH file = Ok true /\ header_entry_point ram file = Ok 0x400078.
Proof. split; vm_compute; reflexivity. Qed.

Lemma hhdm_aligned : (PAGE_SIZE | hhdm_offset).
Proof. exact SpallocSpec.Demo.aligned. Qed.

Lemma limit_owned va : 0 <= va < 2 ^ 47 -> owned PDemo.mmu PDemo.user va.
Proof. apply PDemo.user_owned. Qed.

Lemma taken_ready p0 b0 : pmm_alloc_page (pmm PDemo.s) = Ok (p0, b0) -> exists R B, (forall b m, (b, m) ∈ R -> b + bsize m <= 2 ^ 52) /\ buddy_inv R b0 B /\ settled B /\
  in_use R B PDemo.root /\ in_use R B p0 /\ page_ok p0.
Proof.
  intros E0. destruct PDemo.table_ready as (R & B & HR & [I _] & _). exists R.
  destruct (alloc_page_ok R (pmm PDemo.s) B (p_buddy _ _ _ _ _ _ _ I) (p_settled _ _ _ _ _ _ _ I)) as [[E _]|(p & b & B' & E & I' & HS' & Hp & Hold & K & N)];
    rewrite E in E0; [discriminate E0|]. injection E0 as -> ->. exists B'. split; [exact HR|]. split; [exact I'|]. split; [exact HS'|]. split; [|split].
  - destruct (p_counted _ _ _ _ _ _ _ I _ _ _ (t_root _ _ _ _ _ (p_twf _ _ _ _ _ _ _ I))) as [Hu _]. apply (K _ Hu). apply not_elem_of_nil.
  - exact (alloc_in_use R _ _ _ I' Hp).
  - apply (buddy_pages_page b0 {[p0]}); [|exact (proj2 (elem_of_singleton _ _) eq_refl)]. exists R, B'. split; [exact I'|]. split; [exact HS'|]. intros q Hq. apply elem_of_singleton in Hq as ->. exact Hp.
Qed.

Lemma demo_ready : exists R B, (forall b m, (b, m) ∈ R -> b + bsize m <= 2 ^ 52) /\ buddy_inv R (k_pmm k) B /\ settled B /\
  in_use R B PDemo.root /\ file_stable R file 128 B (fun _ => False).
Proof.
  destruct (taken_ready page st page_taken) as (R & B & HR & I & HS & Hr & Hp & Hok). exists R, B. split; [exact HR|]. split; [exact I|]. split; [exact HS|]. split; [exact Hr|].
  intros a Ha. exists page. split; [exact Hp|]. split; [intros []|]. split; [exact Hok|]. apply elem_of_seqZ. change (TO_HHDM page) with file. change PAGE_SIZE with 4096. lia.
Qed.

Lemma setup_eq : setup = address_space_setup false PDemo.root VADDR_LOWER_HALF_TOP k 16 32.
Proof. reflexivity. Qed.

Lemma roots_shared R B : in_use R B PDemo.root -> false = false -> in_use R B PDemo.root /\ (forall i, upper_half i -> PDemo.user i = false) /\
  forall i, upper_half i -> is_Some (words (k_pt k) !! (PDemo.root + 8 * i)).
Proof. intros H _. split; [exact H|]. split; intros i Hi; [apply (kernel_half i Hi)|]. exact (proj2 (kernel_half i Hi)). Qed.

Lemma setup_facts sp0 : setup = Ok sp0 -> exists R B P O n, (forall b m, (b, m) ∈ R -> b + bsize m <= 2 ^ 52) /\
  space_ok PDemo.mmu PDemo.user R (2 ^ 47) sp0 B P ∅ O [(n, Seg false 0x1000 (VADDR_LOWER_HALF_TOP - 0x1000))] /\
  k_ram (kern (valloc sp0)) = ram /\ file_stable R file 128 B (mine P ∅ O).
Proof.
  intros E. destruct demo_ready as (R & B & HR & I & HS & Hr & Hf).
  pose proof (setup_ok PDemo.mmu PDemo.user R HR (2 ^ 47) limit_owned ltac:(lia) hhdm_aligned false PDemo.root VADDR_LOWER_HALF_TOP k B 16 32 I HS
    ltac:(change PAGE_SIZE with 4096; unfold VADDR_LOWER_HALF_TOP; lia) ltac:(unfold VADDR_LOWER_HALF_TOP; lia) (roots_shared R B Hr)) as H.
  unfold setup in E. rewrite E in H. destruct H as (B' & P' & O' & n & S & Out & Er & _). exists R, B', P', O', n. split; [exact HR|]. split; [exact S|]. split; [exact Er|].
  intros a Ha. exact (stable_outside R _ _ _ _ _ _ a Out (Hf a Ha)).
Qed.

Lemma loaded_facts sp0 sp1 : setup = Ok sp0 -> run sp0 = Ok (0x400078, sp1) -> exists R B P F O Ls, (forall b m, (b, m) ∈ R -> b + bsize m <= 2 ^ 52) /\
  space_ok PDemo.mmu PDemo.user R (2 ^ 47) sp1 B P F O Ls.
Proof.
  intros E0 E1. destruct (setup_facts sp0 E0) as (R & B & P & O & n & HR & S & Er & Hf).
  pose proof (load_elf_ok PDemo.mmu PDemo.user R HR (2 ^ 47) limit_owned ltac:(lia) hhdm_aligned true ELF_X86_64_ARCH file 128 64 [ph] true 0x400078 sp0 B P ∅ O [(n, Seg false 0x1000 (VADDR_LOWER_HALF_TOP - 0x1000))]) as H.
  rewrite Er in H. specialize (H file_ok (proj1 file_valid) (proj2 file_valid) S ram_bytes Hf). unfold run in E1. rewrite E1 in H.
  destruct H as (B' & P' & F' & O' & Ls' & Hfr & _). exists R, B', P', F', O', Ls'. split; [exact HR|apply Hfr].
Qed.

(** Setting up, loading, taking a page and giving it back. *)
Definition life_check : bool :=
  match setup with
  | Ok sp0 => match run sp0 with
    | Ok (r, sp1) => match syscall_anon_alloc PDemo.mmu sp1 0x1000 with
      | Ok (a, sp2) => match syscall_anon_free PDemo.mmu sp2 0x1000 0x1000 with
        | Ok (b, sp3) => (r =? 0x400078) && (retval a =? 0x1000) && (error a =? 0) && (retval b =? 0) && (error b =? 0)
        | _ => false end
      | _ => false end
    | _ => false end
  | _ => false end.

Lemma life_checked : life_check = true.
Proof. vm_compute. reflexivity. Qed.

#[local] Opaque setup run syscall_anon_alloc syscall_anon_free.

Lemma life_runs : exists sp0 sp1 sp2 sp3, setup = Ok sp0 /\ run sp0 = Ok (0x400078, sp1) /\
  syscall_anon_alloc PDemo.mmu sp1 0x1000 = Ok (SysRet 0x1000 0, sp2) /\ syscall_anon_free PDemo.mmu sp2 0x1000 0x1000 = Ok (SysRet 0 0, sp3).
Proof.
  pose proof life_checked as H. unfold life_check in H. destruct setup as [sp0| | |]; [|discriminate H..]. exists sp0. destruct (run sp0) as [[r sp1]| | |] eqn:E1; [|discriminate H..]. exists sp1.
  destruct (syscall_anon_alloc PDemo.mmu sp1 0x1000) as [[[a1 a2] sp2]| | |] eqn:E2; [|discriminate H..]. exists sp2.
  destruct (syscall_anon_free PDemo.mmu sp2 0x1000 0x1000) as [[[b1 b2] sp3]| | |] eqn:E3; [|discriminate H..]. exists sp3. cbn [retval error] in H.
  rewrite !andb_true_iff, !Z.eqb_eq in H. destruct H as ((((-> & ->) & ->) & ->) & ->). repeat split; reflexivity.
Qed.

End LDemo.

#[local] Existing Instance x86_64_config.
#[local] Existing Instance X86_64.arch.
#[local] Existing Instance PDemo.mmu_geometry.

(** The last page of the arena takes the odd bytes behind it with it, and the
    end of an address space that has it fails an assertion. *)
Lemma last_page_panics :
  (sp ← LDemo.setup; '(r, v) ← vmem_alloc (valloc sp) 0x1000 0x7fffffffe000;
   Ok (r, match release_user_memory PDemo.mmu (with_valloc sp v) with Panic => true | _ => false end)) = Ok (0x7fffffffe000, true).
Proof. vm_compute. reflexivity. Qed.

(** A program that frees a page of the kernel's half unmaps it for the kernel:
    the translation before, the result, the translation after. *)
Lemma anon_free_reaches_kernel :
  ('(pg, b) ← pmm_alloc_page (pmm PDemo.s);
   s ← paging_map_range PDemo.mmu (with_pmm PDemo.s b) PDemo.root 0xffff900000000000 pg 0x2000 PAGE_KRW;
   sp ← address_space_setup false PDemo.root LDemo.VADDR_LOWER_HALF_TOP (Kernel s (HeapRest [] ∅ ∅ ∅ ∅) ∅) 16 32;
   '(p, _) ← paging_get_paddr PDemo.mmu (words (k_pt (kern (valloc sp)))) PDemo.root 0xffff900000000000;
   '(r, sp) ← syscall_anon_free PDemo.mmu sp 0xffff900000000000 0x1000;
   '(q, _) ← paging_get_paddr PDemo.mmu (words (k_pt (kern (valloc sp)))) PDemo.root 0xffff900000000000;
   Ok (p, r, q)) = Ok (0x101000, SYSRET_OKAY, 0).
Proof. vm_compute. reflexivity. Qed.

(** A request for no memory takes an address all the same, and the next one
    gets the same address. *)
Lemma empty_requests_collide :
  (sp ← LDemo.setup; '(a, sp) ← syscall_anon_alloc PDemo.mmu sp 0; '(b, sp) ← syscall_anon_alloc PDemo.mmu sp 0x1000; Ok (retval a, retval b)) = Ok (0x1000, 0x1000).
Proof. vm_compute. reflexivity. Qed.

#[local] Opaque PDemo.s PDemo.root LDemo.page LDemo.st LDemo.file LDemo.ram LDemo.setup LDemo.k syscall_anon_alloc syscall_anon_free release_user_memory.
Abbreviation demo_xlate sp := (xlate PDemo.mmu (words (k_pt (kern (valloc sp)))) (pagetable sp)).




