(* ===== verification/Sched.v ===== *)
(** * sched/scheduler.c, sched/wait.c, arch/generic/thread/exit.c

    Threads on several processors.  Each processor runs its current thread or
    is inside [schedule]; every atomic access to a thread's state word and
    every section under one lock is a step, and the steps of all processors
    interleave.  A waker that has taken a thread off a waitable or off the
    timeout heap and has not yet touched its state is only known by that
    thread ([waking]); one that found the thread blocked and has not yet put it
    on a run queue, by [enqueuing]: a waking thread can be preempted between
    those operations, so they may come arbitrarily late.

    Queues are the sequences the lists of LList represent; the waitables and
    the timeout heap are the sets of threads on them. *)

From S2P Require Import Prelude Locks.
From stdpp Require Import relations.
#[local] Open Scope Z_scope.

Inductive thread_state :=
| THREAD_RUNNING | THREAD_RUNABLE | THREAD_REAPING | THREAD_BLOCKING | THREAD_BLOCKED | THREAD_IDLE_THREAD.

#[export] Instance thread_state_eq_dec : EqDecision thread_state.
Proof. solve_decision. Defined.

(** Where a thread is in [wait_impl]: not in it; state set to blocking,
    preemption off; on a waitable or the heap; preemption on again, before
    [schedule]; behind [schedule], before each of the two removals.  [Dead]:
    behind the [schedule] of [thread_exit]. *)
Inductive phase := Running | Blocking | Registered | Parked | Resumed | Cleaned | Dead.

#[export] Instance phase_eq_dec : EqDecision phase.
Proof. solve_decision. Defined.

Record thread := Thread { t_state : thread_state; t_phase : phase; preempt_disable_counter : Z; page_table : Z }.

(** What a processor does: run its current thread; switch from [prev] to
    [next], with the stages of [schedule_finalize]; stopped by [panic]. *)
Inductive activity :=
| Normal
| Switch (prev next : Z)
| Finalize (prev : Z)
| Commit (prev : Z) (seen : thread_state)
| Panicked.

Record cpu := Cpu { current : Z; doing : activity; run_queue : list Z; idle_thread : Z; loaded : Z }.

Record sched := Sched {
  threads : gmap Z thread;
  cpus : list cpu;
  waitq : gset Z;
  timeouts : gset Z;
  waking : list Z;
  enqueuing : list Z;
  reaper_list : list Z;
}.

(** *** Parts of the state *)
Definition set_state (s : sched) (t : Z) (v : thread_state) : sched :=
  Sched (alter (fun th => Thread v (t_phase th) (preempt_disable_counter th) (page_table th)) t (threads s))
    (cpus s) (waitq s) (timeouts s) (waking s) (enqueuing s) (reaper_list s).
Definition set_phase (s : sched) (t : Z) (p : phase) : sched :=
  Sched (alter (fun th => Thread (t_state th) p (preempt_disable_counter th) (page_table th)) t (threads s))
    (cpus s) (waitq s) (timeouts s) (waking s) (enqueuing s) (reaper_list s).
Definition set_preempt (s : sched) (t : Z) (f : Z -> Z) : sched :=
  Sched (alter (fun th => Thread (t_state th) (t_phase th) (f (preempt_disable_counter th)) (page_table th)) t (threads s))
    (cpus s) (waitq s) (timeouts s) (waking s) (enqueuing s) (reaper_list s).
Definition set_cpu (s : sched) (c : nat) (x : cpu) : sched :=
  Sched (threads s) (<[c := x]> (cpus s)) (waitq s) (timeouts s) (waking s) (enqueuing s) (reaper_list s).
Definition set_waits (s : sched) (w h : gset Z) : sched :=
  Sched (threads s) (cpus s) w h (waking s) (enqueuing s) (reaper_list s).
Definition set_wakers (s : sched) (w e : list Z) : sched :=
  Sched (threads s) (cpus s) (waitq s) (timeouts s) w e (reaper_list s).
Definition set_reaper (s : sched) (l : list Z) : sched :=
  Sched (threads s) (cpus s) (waitq s) (timeouts s) (waking s) (enqueuing s) l.

Definition with_doing (x : cpu) (a : activity) : cpu := Cpu (current x) a (run_queue x) (idle_thread x) (loaded x).

(** ** scheduler.c *)

(** [llist_push_back(CPU_LOCAL_GET_RUN_QUEUE_PTR(), &thread->node)]. *)
Definition push_back (x : cpu) (t : Z) : cpu := Cpu (current x) (doing x) (run_queue x ++ [t]) (idle_thread x) (loaded x).

Definition enqueue_thread (s : sched) (c : nat) (x : cpu) (t : Z) : sched := set_cpu s c (push_back x t).

(** [schedule] up to [arch_thread_switch]: the processor, switching or going on. *)
Definition schedule (th : thread) (x : cpu) : cpu :=
  if preempt_disable_counter th >? 0 then x
  else match run_queue x with
  | [] => if current x =? idle_thread x then x else with_doing x (Switch (current x) (idle_thread x))
  | next :: q => Cpu (current x) (Switch (current x) next) q (idle_thread x) (loaded x)
  end.

(** The stages of [schedule_finalize(prev, next)]. *)
Definition finalize_next (s : sched) (c : nat) (x : cpu) (prev next : Z) : sched :=
  let s := match threads s !! next with
           | Some th => if decide (t_state th = THREAD_IDLE_THREAD) then s else set_state s next THREAD_RUNNING
           | None => s
           end in
  set_cpu s c (Cpu next (Finalize prev) (run_queue x) (idle_thread x) (loaded x)).

Definition finalize_load (s : sched) (c : nat) (x : cpu) (prev : Z) : sched :=
  match threads s !! prev with
  | Some th => set_cpu s c (with_doing x (Commit prev (t_state th)))
  | None => s
  end.

(** The end: the page table of the new thread is loaded. *)
Definition finished (s : sched) (x : cpu) : cpu :=
  Cpu (current x) Normal (run_queue x) (idle_thread x)
    (match threads s !! current x with Some th => page_table th | None => loaded x end).

(** [waiter] is the reaper, if it is on its waitable. *)
Definition finalize_commit (s : sched) (c : nat) (x : cpu) (prev : Z) (seen : thread_state) (waiter : option Z) : sched :=
  match seen with
  | THREAD_RUNNING => set_cpu (set_state s prev THREAD_RUNABLE) c (push_back (finished s x) prev)
  | THREAD_BLOCKING | THREAD_RUNABLE =>
      match threads s !! prev with
      | Some th =>
          if decide (t_state th = THREAD_BLOCKING)
          then set_cpu (set_state s prev THREAD_BLOCKED) c (finished s x)
          else set_cpu s c (push_back (finished s x) prev)
      | None => s
      end
  | THREAD_REAPING =>
      let s' := set_reaper s (reaper_list s ++ [prev]) in
      match waiter with
      | None => set_cpu s' c (finished s x)
      | Some r =>
          let s' := set_waits s' (waitq s' ∖ {[r]}) (timeouts s') in
          match threads s !! r with
          | Some th =>
              set_cpu (set_state s' r THREAD_RUNABLE) c
                (if decide (t_state th = THREAD_BLOCKED) then push_back (finished s x) r else finished s x)
          | None => s'
          end
      end
  | THREAD_IDLE_THREAD => set_cpu s c (finished s x)
  | THREAD_BLOCKED => set_cpu s c (with_doing x Panicked)
  end.

(** ** wait.c *)

(** [wait_impl] up to the waitable: preemption off, state blocking. *)
Definition wait_begin (s : sched) (t : Z) : sched :=
  set_phase (set_state (set_preempt s t disable_preemption) t THREAD_BLOCKING) t Blocking.
(** The condition is met: no blocking. *)
Definition wait_met (s : sched) (t : Z) : sched :=
  set_phase (set_preempt (set_state s t THREAD_RUNNING) t enable_preemption) t Running.
Definition wait_push (s : sched) (t : Z) : sched := set_phase (set_waits s ({[t]} ∪ waitq s) (timeouts s)) t Registered.
Definition wait_timeout (s : sched) (t : Z) : sched := set_phase (set_waits s (waitq s) ({[t]} ∪ timeouts s)) t Registered.
Definition wait_park (s : sched) (t : Z) : sched := set_phase (set_preempt s t enable_preemption) t Parked.
(** The removals after waking up ("try": someone else may have removed us). *)
Definition wait_untimeout (s : sched) (t : Z) : sched := set_phase (set_waits s (waitq s) (timeouts s ∖ {[t]})) t Cleaned.
Definition wait_unqueue (s : sched) (t : Z) : sched := set_phase (set_waits s (waitq s ∖ {[t]}) (timeouts s)) t Running.

(** [__atomic_exchange_n(&thread->state, THREAD_RUNABLE)] of a waker. *)
Definition wake_exchange (s : sched) (t : Z) (w1 w2 : list Z) : sched :=
  match threads s !! t with
  | Some th =>
      let s' := set_wakers s (w1 ++ w2) (if decide (t_state th = THREAD_BLOCKED) then t :: enqueuing s else enqueuing s) in
      set_state s' t THREAD_RUNABLE
  | None => s
  end.

(** ** The steps *)

(** Processor [c] runs thread [t], whose record is [th]. *)
Definition runs (s : sched) (c : nat) (x : cpu) (t : Z) (th : thread) : Prop :=
  cpus s !! c = Some x /\ doing x = Normal /\ current x = t /\ threads s !! t = Some th.

Inductive step (s : sched) : sched -> Prop :=
| st_wait_begin c x t th : runs s c x t th -> t <> idle_thread x -> t_phase th = Running -> step s (wait_begin s t)
| st_wait_met c x t th : runs s c x t th -> t_phase th = Blocking -> step s (wait_met s t)
| st_wait_push c x t th : runs s c x t th -> t_phase th = Blocking -> step s (wait_push s t)
| st_wait_timeout c x t th : runs s c x t th -> t_phase th = Blocking \/ t_phase th = Registered -> step s (wait_timeout s t)
| st_wait_park c x t th : runs s c x t th -> t_phase th = Registered -> step s (wait_park s t)
| st_wait_schedule c x t th : runs s c x t th -> t_phase th = Parked ->
    step s (set_cpu (set_phase s t Resumed) c (schedule th x))
| st_wait_untimeout c x t th : runs s c x t th -> t_phase th = Resumed -> step s (wait_untimeout s t)
| st_wait_unqueue c x t th : runs s c x t th -> t_phase th = Cleaned -> step s (wait_unqueue s t)
(** The timer interrupt, or the idle thread. *)
| st_schedule c x t th : runs s c x t th -> step s (set_cpu s c (schedule th x))
(** [thread_exit]. *)
| st_exit c x t th : runs s c x t th -> t <> idle_thread x -> t_phase th = Running ->
    step s (set_cpu (set_phase (set_state s t THREAD_REAPING) t Dead) c (schedule th x))
| st_finalize_next c x p n : cpus s !! c = Some x -> doing x = Switch p n -> step s (finalize_next s c x p n)
| st_finalize_load c x p : cpus s !! c = Some x -> doing x = Finalize p -> step s (finalize_load s c x p)
| st_finalize_commit c x p v r : cpus s !! c = Some x -> doing x = Commit p v -> (forall w, r = Some w -> w ∈ waitq s) ->
    step s (finalize_commit s c x p v r)
| st_pop_waitable t : t ∈ waitq s -> step s (set_wakers (set_waits s (waitq s ∖ {[t]}) (timeouts s)) (t :: waking s) (enqueuing s))
| st_pop_timeout t : t ∈ timeouts s -> step s (set_wakers (set_waits s (waitq s) (timeouts s ∖ {[t]})) (t :: waking s) (enqueuing s))
| st_exchange t w1 w2 : waking s = w1 ++ t :: w2 -> step s (wake_exchange s t w1 w2)
| st_enqueue t e1 e2 c x : enqueuing s = e1 ++ t :: e2 -> cpus s !! c = Some x ->
    step s (enqueue_thread (set_wakers s (waking s) (e1 ++ e2)) c x t).
