(* ===== verification/SchedSpec.v ===== *)
(** * No thread is lost, duplicated or blocked for ever

    The invariant of the scheduler's steps: every thread is in exactly one
    place, a blocked thread is known to a waker, and the state that makes
    [schedule_finalize] panic is never seen. *)

From S2P Require Import Prelude Locks Sched.
From stdpp Require Import relations.
#[local] Open Scope Z_scope.

(** ** Counting places *)
Definition b2z (b : bool) : Z := if b then 1 else 0.
Definition same (a b : Z) : Z := b2z (bool_decide (a = b)).

Fixpoint cnt (t : Z) (l : list Z) : Z :=
  match l with [] => 0 | x :: l => same x t + cnt t l end.

Lemma same_range a b : 0 <= same a b <= 1.
Proof. unfold same, b2z. case_bool_decide; lia. Qed.
Lemma same_eq a : same a a = 1.
Proof. unfold same. by rewrite bool_decide_true. Qed.
Lemma same_ne a b : a <> b -> same a b = 0.
Proof. intros H. unfold same. by rewrite bool_decide_false. Qed.

Lemma cnt_nonneg t l : 0 <= cnt t l.
Proof. induction l as [|x l IH]; cbn; [lia|]. pose proof (same_range x t). lia. Qed.
Lemma cnt_app t l k : cnt t (l ++ k) = cnt t l + cnt t k.
Proof. induction l as [|x l IH]; cbn; lia. Qed.
Lemma cnt_in t l : 0 < cnt t l <-> t ∈ l.
Proof.
  induction l as [|x l IH]; cbn; [rewrite elem_of_nil; lia|]. rewrite elem_of_cons, <- IH. pose proof (cnt_nonneg t l).
  destruct (decide (x = t)) as [->|Hne]; [rewrite same_eq; split; [by left|lia]|]. rewrite same_ne by done.
  split; [intros; right; lia|intros [->|]; [done|lia]].
Qed.

Fixpoint csum (f : cpu -> Z) (l : list cpu) : Z :=
  match l with [] => 0 | x :: l => f x + csum f l end.

Lemma csum_insert f l c x y : l !! c = Some x -> csum f (<[c := y]> l) = csum f l - f x + f y.
Proof.
  revert c. induction l as [|z l IH]; intros c Hc; [done|]. destruct c as [|c]; cbn in *.
  - injection Hc as ->. lia.
  - rewrite IH by done. lia.
Qed.

Lemma csum_nonneg f l : (forall x, 0 <= f x) -> 0 <= csum f l.
Proof. intros Hf. induction l as [|z l IH]; cbn; [lia|]. specialize (Hf z). lia. Qed.

Lemma csum_ge f l c x : (forall x, 0 <= f x) -> l !! c = Some x -> f x <= csum f l.
Proof.
  intros Hf. revert c. induction l as [|z l IH]; intros c Hc; [done|]. pose proof (csum_nonneg f l Hf).
  destruct c as [|c]; cbn in *; [injection Hc as ->; lia|]. specialize (IH c Hc). specialize (Hf z). lia.
Qed.

Lemma csum_ge2 f l c d x y : (forall x, 0 <= f x) -> c <> d -> l !! c = Some x -> l !! d = Some y -> f x + f y <= csum f l.
Proof.
  intros Hf Hne Hc Hd. pose proof (csum_insert f l c x x Hc) as E. rewrite list_insert_id in E by done.
  revert c d Hne Hc Hd E. induction l as [|z l IH]; intros c d Hne Hc Hd E; [done|].
  pose proof (Hf z). destruct c as [|c], d as [|d]; cbn in *; try done.
  - injection Hc as ->. pose proof (csum_ge f l d y Hf Hd). lia.
  - injection Hd as ->. pose proof (csum_ge f l c x Hf Hc). lia.
  - specialize (IH c d ltac:(lia) Hc Hd ltac:(lia)). lia.
Qed.

(** The thread a switching processor holds besides its current one. *)
Definition held (a : activity) (t : Z) : Z :=
  match a with
  | Switch _ n => same n t
  | Finalize p | Commit p _ => same p t
  | Normal | Panicked => 0
  end.

Definition cpu_places (t : Z) (x : cpu) : Z := same (current x) t + cnt t (run_queue x) + held (doing x) t.

Definition blocked (m : gmap Z thread) (t : Z) : Z :=
  match m !! t with Some th => b2z (bool_decide (t_state th = THREAD_BLOCKED)) | None => 0 end.

(** How often a thread is on a processor, on a run queue, in the hands of a
    waker that will enqueue it, on the reaper's list, or blocked. *)
Definition places (s : sched) (t : Z) : Z :=
  csum (cpu_places t) (cpus s) + cnt t (enqueuing s) + cnt t (reaper_list s) + blocked (threads s) t.

Lemma cpu_places_nonneg t x : 0 <= cpu_places t x.
Proof.
  unfold cpu_places. pose proof (same_range (current x) t). pose proof (cnt_nonneg t (run_queue x)).
  destruct (doing x) as [|p n|p|p v|]; cbn; [..|lia]; try pose proof (same_range n t); try pose proof (same_range p t); lia.
Qed.

Lemma blocked_range m t : 0 <= blocked m t <= 1.
Proof. unfold blocked, b2z. destruct (m !! t); [case_bool_decide|]; lia. Qed.

(** ** The invariant *)
Section Inv.
Context (I : gset Z).
Implicit Types (s : sched) (t : Z) (th : thread) (x : cpu).

(** On a waitable, on the timeout heap, or in the hands of a waker. *)
Definition registered s t : Prop := t ∈ waitq s \/ t ∈ timeouts s \/ t ∈ waking s.

(** Leaving its processor. *)
Definition leaving s t : Prop := exists c x, cpus s !! c = Some x /\
  match doing x with Switch p _ | Finalize p | Commit p _ => p = t | _ => False end.

Definition doing_ok s x : Prop :=
  match doing x with
  | Normal => exists th, threads s !! current x = Some th /\ loaded x = page_table th
  | Switch p n => p = current x /\ (n ∈ I -> n = idle_thread x)
  | Finalize _ => True
  | Commit p v => v <> THREAD_BLOCKED /\ exists th, threads s !! p = Some th /\
      (v = THREAD_IDLE_THREAD <-> p ∈ I) /\ (v = THREAD_REAPING -> t_state th <> THREAD_BLOCKING)
  | Panicked => False
  end.

Record cpu_ok s x : Prop := {
  co_idle : idle_thread x ∈ I /\ is_Some (threads s !! idle_thread x);
  co_current : current x ∈ I -> current x = idle_thread x;
  co_queue : forall t, t ∈ run_queue x -> t ∉ I;
  co_doing : doing_ok s x;
}.

Record thread_ok s t th : Prop := {
  to_idle : t_state th = THREAD_IDLE_THREAD <-> t ∈ I;
  to_idle_phase : t ∈ I -> t_phase th = Running;
  to_one : t ∉ I -> places s t = 1;
  to_blocked : t_state th = THREAD_BLOCKED -> registered s t;
  to_blocking : t_state th = THREAD_BLOCKING -> t_phase th = Blocking \/ registered s t;
  to_phase : t_state th = THREAD_BLOCKING -> t_phase th ∈ [Blocking; Registered; Parked] \/ leaving s t;
  to_counter : preempt_disable_counter th = if decide (t_phase th ∈ [Blocking; Registered]) then 1 else 0;
  to_running : t_phase th ∈ [Blocking; Registered] -> exists c x, runs s c x t th;
}.

Record inv s : Prop := {
  iv_cpu : forall c x, cpus s !! c = Some x -> cpu_ok s x;
  iv_thread : forall t th, threads s !! t = Some th -> thread_ok s t th;
  iv_exists : forall t, 0 < places s t -> is_Some (threads s !! t);
  iv_registered : forall t, registered s t -> is_Some (threads s !! t) /\ t ∉ I;
  iv_enqueuing : forall t, t ∈ enqueuing s -> t ∉ I;
}.

(** A thread at a place of a processor: it exists, is not blocked, and is at
    no other place. *)
Lemma on_cpu s c x t : inv s -> cpus s !! c = Some x -> 0 < cpu_places t x ->
  exists th, threads s !! t = Some th /\ t_state th <> THREAD_BLOCKED.
Proof using Type.
  intros V Hc Hp. pose proof (csum_ge (cpu_places t) (cpus s) c x (cpu_places_nonneg t) Hc) as Hg.
  pose proof (cnt_nonneg t (enqueuing s)). pose proof (cnt_nonneg t (reaper_list s)). pose proof (blocked_range (threads s) t) as Hb.
  destruct (iv_exists _ V t) as [th Hth]; [unfold places; lia|]. exists th. split; [done|]. intros Hst.
  destruct (decide (t ∈ I)) as [Hi|Hi].
  - apply (to_idle _ _ _ (iv_thread _ V _ _ Hth)) in Hi. congruence.
  - pose proof (to_one _ _ _ (iv_thread _ V _ _ Hth) Hi) as H1. unfold places in H1.
    assert (blocked (threads s) t = 1) as E by (unfold blocked; by rewrite Hth, bool_decide_true). lia.
Qed.

Lemma current_place x : 0 < cpu_places (current x) x.
Proof using Type.
  unfold cpu_places. rewrite same_eq. pose proof (cnt_nonneg (current x) (run_queue x)).
  destruct (doing x) as [|p n|p|p v|]; cbn; [..|lia]; try pose proof (same_range n (current x)); try pose proof (same_range p (current x)); lia.
Qed.

(** A running thread is not leaving. *)
Lemma running_not_leaving s c x t th : inv s -> runs s c x t th -> t ∉ I -> ~ leaving s t.
Proof using Type.
  intros V (Hc & Hd & Hcur & Hth) Hi (c' & x' & Hc' & Hl). assert (c <> c') as Hne.
  { intros <-. rewrite Hc in Hc'. injection Hc' as <-. by rewrite Hd in Hl. }
  pose proof (csum_ge2 (cpu_places t) (cpus s) c c' x x' (cpu_places_nonneg t) Hne Hc Hc') as Hg.
  pose proof (to_one _ _ _ (iv_thread _ V _ _ Hth) Hi) as H1. unfold places in H1.
  pose proof (cnt_nonneg t (enqueuing s)). pose proof (cnt_nonneg t (reaper_list s)). pose proof (blocked_range (threads s) t).
  assert (0 < cpu_places t x) by (rewrite <- Hcur; apply current_place).
  assert (0 < cpu_places t x'); [|lia].
  destruct (doing x') as [|p n|p|p v|] eqn:E; try done; subst p.
  - pose proof (co_doing _ _ (iv_cpu _ V _ _ Hc')) as Hdo. unfold doing_ok in Hdo. rewrite E in Hdo. destruct Hdo as [-> _]. apply current_place.
  - unfold cpu_places. rewrite E. cbn. rewrite same_eq. pose proof (same_range (current x') t). pose proof (cnt_nonneg t (run_queue x')). lia.
  - unfold cpu_places. rewrite E. cbn. rewrite same_eq. pose proof (same_range (current x') t). pose proof (cnt_nonneg t (run_queue x')). lia.
Qed.

(** ** The running thread acts on itself *)
Definition upd s t th' (w h : gset Z) : sched :=
  Sched (<[t := th']> (threads s)) (cpus s) w h (waking s) (enqueuing s) (reaper_list s).

Lemma blocked_insert m t th' u : t_state th' <> THREAD_BLOCKED -> blocked m t = 0 -> blocked (<[t := th']> m) u = blocked m u.
Proof using Type.
  intros Hs H0. unfold blocked in *. destruct (decide (u = t)) as [->|]; [|by rewrite lookup_insert_ne].
  rewrite lookup_insert_eq, bool_decide_false by done. done.
Qed.

Lemma not_blocked m t th : m !! t = Some th -> t_state th <> THREAD_BLOCKED -> blocked m t = 0.
Proof using Type. intros E Hs. unfold blocked. by rewrite E, bool_decide_false. Qed.

Record self_update s t th th' (w h : gset Z) : Prop := {
  su_state : t_state th' <> THREAD_BLOCKED /\ t_state th' <> THREAD_IDLE_THREAD;
  su_table : page_table th' = page_table th;
  su_blocking : t_state th' = THREAD_BLOCKING ->
    (t_phase th' = Blocking \/ t ∈ w \/ t ∈ h \/ t ∈ waking s) /\ t_phase th' ∈ [Blocking; Registered; Parked];
  su_counter : preempt_disable_counter th' = if decide (t_phase th' ∈ [Blocking; Registered]) then 1 else 0;
  su_waits : forall u, u <> t -> (u ∈ w <-> u ∈ waitq s) /\ (u ∈ h <-> u ∈ timeouts s);
}.

Lemma runs_place s c x t th : inv s -> runs s c x t th -> t_state th <> THREAD_BLOCKED.
Proof using Type.
  intros V (Hc & _ & Hcur & Hth). destruct (on_cpu s c x t V Hc) as (th2 & E & Hb); [rewrite <- Hcur; apply current_place|]. congruence.
Qed.

Lemma inv_self s c x t th th' w h :
  inv s -> runs s c x t th -> t ∉ I -> self_update s t th th' w h -> inv (upd s t th' w h).
Proof using Type.
  intros V R Hi [[Hb Hid] Ht Hbl Hcn Hw]. pose proof (runs_place _ _ _ _ _ V R) as Hnb.
  pose proof (running_not_leaving _ _ _ _ _ V R Hi) as Hnl. destruct R as (Hc & Hd & Hcur & Hth).
  assert (forall u, places (upd s t th' w h) u = places s u) as Hpl.
  { intros u. unfold places. cbn. by rewrite blocked_insert by (done || by eapply not_blocked). }
  assert (forall u, u <> t -> registered (upd s t th' w h) u <-> registered s u) as Hreg.
  { intros u Hu. unfold registered. cbn. destruct (Hw u Hu) as [-> ->]. done. }
  assert (forall u, is_Some (threads s !! u) -> is_Some (threads (upd s t th' w h) !! u)) as Hex.
  { intros u [y Hy]. cbn. destruct (decide (u = t)) as [->|]; [rewrite lookup_insert_eq; eauto|rewrite lookup_insert_ne; eauto]. }
  assert (forall u, leaving (upd s t th' w h) u <-> leaving s u) as Hlv by done.
  split.
  - intros c' x' Hc'. destruct (iv_cpu _ V c' x' Hc') as [[C1 C1'] C2 C3 C4]. split; [auto|done|done|].
    unfold doing_ok in *. destruct (doing x') as [|p n|p|p v|] eqn:E; [|done|done| |done].
    + destruct C4 as (y & Hy & Hl). cbn. destruct (decide (current x' = t)) as [Ex|Ex].
      * rewrite Ex, lookup_insert_eq. exists th'. split; [done|]. rewrite Hl, Ht. congruence.
      * rewrite lookup_insert_ne by done. eauto.
    + destruct C4 as (H1 & y & Hy & H2). split; [done|]. cbn. rewrite lookup_insert_ne; [eauto|].
      intros <-. apply Hnl. exists c', x'. split; [done|]. by rewrite E.
  - intros u y. cbn. rewrite lookup_insert_Some. intros [[-> <-]|[Hne Hy]].
    + split; try done.
      * rewrite Hpl. intros. eapply to_one; [by eapply iv_thread|done].
      * intros Hs. by apply Hbl.
      * intros Hs. left. by apply Hbl.
      * intros Hp. exists c, x. split_and!; try done. cbn. apply lookup_insert_eq.
    + destruct (iv_thread _ V u y Hy) as [T1 T2 T3 T4 T5 T6 T7 T8]. split; try done.
      * by rewrite Hpl.
      * rewrite Hreg; done.
      * rewrite Hreg; done.
      * intros Hp. destruct (T8 Hp) as (c' & x' & ? & ? & ? & ?). exists c', x'. split_and!; try done. cbn. by rewrite lookup_insert_ne.
  - intros u. rewrite Hpl. intros Hp. by apply Hex, (iv_exists _ V).
  - intros u Hu. destruct (decide (u = t)) as [->|Hne]; [split; [cbn; rewrite lookup_insert_eq; eauto|done]|].
    apply Hreg in Hu; [|done]. destruct (iv_registered _ V u Hu). split; [by apply Hex|done].
  - apply V.
Qed.

Lemma alter_Some (m : gmap Z thread) f t th : m !! t = Some th -> alter f t m = <[t := f th]> m.
Proof using Type.
  intros E. apply map_eq. intros u. destruct (decide (u = t)) as [->|].
  - by rewrite lookup_alter_eq, lookup_insert_eq, E.
  - by rewrite lookup_alter_ne, lookup_insert_ne.
Qed.

(** The phases in which a thread waits are not the idle threads'. *)
Lemma not_idle s t th : inv s -> threads s !! t = Some th -> t_phase th <> Running -> t ∉ I.
Proof using Type. intros V E Hp Hi. apply Hp. by apply (to_idle_phase _ _ _ (iv_thread _ V _ _ E)). Qed.

Lemma self_not_idle_state s t th : inv s -> threads s !! t = Some th -> t ∉ I -> t_state th <> THREAD_IDLE_THREAD.
Proof using Type. intros V E Hi Hs. by apply Hi, (to_idle _ _ _ (iv_thread _ V _ _ E)). Qed.

(** The steps of [wait_impl] on the running thread. *)
Lemma wait_steps s c x t th :
  inv s -> runs s c x t th ->
  (t <> idle_thread x -> t_phase th = Running -> inv (wait_begin s t)) /\
  (t_phase th = Blocking -> inv (wait_met s t)) /\
  (t_phase th = Blocking -> inv (wait_push s t)) /\
  (t_phase th = Blocking \/ t_phase th = Registered -> inv (wait_timeout s t)) /\
  (t_phase th = Registered -> inv (wait_park s t)) /\
  (t_phase th = Resumed -> inv (wait_untimeout s t)) /\
  (t_phase th = Cleaned -> inv (wait_unqueue s t)).
Proof using Type.
  intros V R. pose proof R as (Hc & Hd & Hcur & Hth). pose proof (runs_place _ _ _ _ _ V R) as Hnb.
  pose proof (iv_thread _ V _ _ Hth) as [T1 T2 T3 T4 T5 T6 T7 T8].
  assert (forall p, t_phase th = p -> p <> Running -> t ∉ I) as Hni by (intros p Ep Hp; eapply not_idle; eauto; congruence).
  assert (disable_preemption 0 = 1 /\ enable_preemption 1 = 0) as [Hdp Hep] by done.
  split_and!.
  - intros Hx Hp. assert (t ∉ I) as Hi.
    { intros Hi. apply Hx. rewrite <- Hcur. apply (co_current _ _ (iv_cpu _ V _ _ Hc)). by rewrite Hcur. }
    rewrite Hp in T7. cbn in T7. unfold wait_begin, set_phase, set_state, set_preempt. cbn. rewrite !(alter_Some _ _ _ _ Hth).
    erewrite (alter_Some (<[_ := _]> _)) by apply lookup_insert_eq. rewrite insert_insert_eq.
    erewrite (alter_Some (<[_ := _]> _)) by apply lookup_insert_eq. rewrite insert_insert_eq. cbn.
    apply (inv_self s c x t th); [done..|]. split; cbn; try done; [|by rewrite T7]. intros _. split; [by left|set_solver].
  - intros Hp. assert (t ∉ I) as Hi by (by eapply Hni). rewrite Hp in T7. cbn in T7.
    unfold wait_met, set_phase, set_state, set_preempt. cbn. rewrite !(alter_Some _ _ _ _ Hth).
    erewrite (alter_Some (<[_ := _]> _)) by apply lookup_insert_eq. rewrite insert_insert_eq.
    erewrite (alter_Some (<[_ := _]> _)) by apply lookup_insert_eq. rewrite insert_insert_eq. cbn.
    apply (inv_self s c x t th); [done..|]. split; cbn; try done. by rewrite T7.
  - intros Hp. assert (t ∉ I) as Hi by (by eapply Hni). rewrite Hp in T7. cbn in T7.
    pose proof (self_not_idle_state s t th V Hth Hi). unfold wait_push, set_phase, set_waits. cbn. rewrite !(alter_Some _ _ _ _ Hth).
    apply (inv_self s c x t th); [done..|]. split; cbn; try done; [intros _; split; set_solver|set_solver].
  - intros Hp. assert (t ∉ I) as Hi by (destruct Hp; by eapply Hni).
    assert (preempt_disable_counter th = 1) as Hc1 by (by destruct Hp as [Hp|Hp]; rewrite Hp in T7).
    pose proof (self_not_idle_state s t th V Hth Hi). unfold wait_timeout, set_phase, set_waits. cbn. rewrite !(alter_Some _ _ _ _ Hth).
    apply (inv_self s c x t th); [done..|]. split; cbn; try done; [intros _; split; set_solver|set_solver].
  - intros Hp. assert (t ∉ I) as Hi by (by eapply Hni). rewrite Hp in T7. cbn in T7.
    pose proof (self_not_idle_state s t th V Hth Hi). unfold wait_park, set_phase, set_preempt. cbn. rewrite !(alter_Some _ _ _ _ Hth).
    erewrite (alter_Some (<[_ := _]> _)) by apply lookup_insert_eq. rewrite insert_insert_eq. cbn.
    apply (inv_self s c x t th); [done..|]. split; cbn; try done; [|by rewrite T7].
    intros Hs. split; [|set_solver]. right. destruct (T5 Hs) as [E|E]; [congruence|done].
  - intros Hp. assert (t ∉ I) as Hi by (by eapply Hni). rewrite Hp in T7. cbn in T7.
    pose proof (self_not_idle_state s t th V Hth Hi). unfold wait_untimeout, set_phase, set_waits. cbn. rewrite !(alter_Some _ _ _ _ Hth).
    apply (inv_self s c x t th); [done..|]. split; cbn; try done; [|set_solver].
    intros Hs. destruct (T6 Hs) as [E|E]; [rewrite Hp in E; set_solver|]. by destruct (running_not_leaving _ _ _ _ _ V R Hi).
  - intros Hp. assert (t ∉ I) as Hi by (by eapply Hni). rewrite Hp in T7. cbn in T7.
    pose proof (self_not_idle_state s t th V Hth Hi). unfold wait_unqueue, set_phase, set_waits. cbn. rewrite !(alter_Some _ _ _ _ Hth).
    apply (inv_self s c x t th); [done..|]. split; cbn; try done; [|set_solver].
    intros Hs. destruct (T6 Hs) as [E|E]; [rewrite Hp in E; set_solver|]. by destruct (running_not_leaving _ _ _ _ _ V R Hi).
Qed.

(** ** Leaving the processor *)

(** [leaving] of the others does not see a change of one running processor. *)
Lemma leaving_other s s' c x x' u :
  cpus s !! c = Some x -> doing x = Normal -> cpus s' = <[c := x']> (cpus s) ->
  leaving s u -> leaving s' u.
Proof using Type.
  intros Hc Hd E (c' & y & Hc' & Hl). exists c', y. rewrite E, list_lookup_insert_ne; [done|].
  intros <-. rewrite Hc in Hc'. injection Hc' as <-. by rewrite Hd in Hl.
Qed.

Record leave_update t th th' : Prop := {
  lu_idle : t ∈ I -> th' = th;
  lu_state : t_state th' = t_state th \/ t_state th' = THREAD_REAPING;
  lu_table : page_table th' = page_table th;
  lu_counter : preempt_disable_counter th' = 0;
  lu_phase : t_phase th' ∉ [Blocking; Registered];
}.

(** The switch begins: [n] is the head of the queue, or the idle thread. *)
Lemma inv_switch s c x t th th' n q :
  inv s -> runs s c x t th -> preempt_disable_counter th = 0 -> leave_update t th th' ->
  (run_queue x = n :: q \/ (run_queue x = [] /\ q = [] /\ n = idle_thread x)) ->
  inv (set_cpu (upd s t th' (waitq s) (timeouts s)) c (Cpu (current x) (Switch (current x) n) q (idle_thread x) (loaded x))).
Proof using Type.
  intros V R H0 [L1 L2 L3 L4 L5] Hq. pose proof (runs_place _ _ _ _ _ V R) as Hnb.
  destruct R as (Hc & Hd & Hcur & Hth). pose proof (iv_cpu _ V c x Hc) as [[C1 C1'] C2 C3 C4].
  pose proof (iv_thread _ V _ _ Hth) as [T1 T2 T3 T4 T5 T6 T7 T8].
  assert (t_phase th ∉ [Blocking; Registered]) as Hph by (intros Hin; rewrite decide_True in T7 by done; lia).
  set (x' := Cpu (current x) (Switch (current x) n) q (idle_thread x) (loaded x)).
  set (s' := set_cpu (upd s t th' (waitq s) (timeouts s)) c x').
  assert (cpus s' = <[c := x']> (cpus s)) as Ecpus by done.
  assert (t_state th' <> THREAD_BLOCKED) as Hb' by (destruct L2; congruence).
  assert (forall u, places s' u = places s u + (if decide (run_queue x = []) then same n u else 0)) as Hpl.
  { intros u. unfold places. cbn. rewrite blocked_insert by (done || by eapply not_blocked).
    rewrite (csum_insert _ _ _ x) by done. unfold cpu_places. cbn. rewrite Hd. cbn.
    destruct Hq as [Eq | (Eq & -> & _)]; rewrite Eq; cbn [cnt]; [rewrite decide_False by done|rewrite decide_True by done]; lia. }
  assert (n ∈ I -> n = idle_thread x) as Hn.
  { intros Hn. destruct Hq as [Eq|(_ & _ & E)]; [|done]. destruct (C3 n); [rewrite Eq; set_solver|done]. }
  assert (forall u, u ∉ I -> places s' u = places s u) as Hpl'.
  { intros u Hu. rewrite Hpl. case_decide as E; [|lia]. destruct Hq as [Eq | (_ & _ & En)]; [congruence|].
    rewrite same_ne; [lia|]. intros ->. apply Hu. by rewrite En. }
  assert (forall u, is_Some (threads s !! u) -> is_Some (threads s' !! u)) as Hex.
  { intros u [y Hy]. cbn. destruct (decide (u = t)) as [->|]; [rewrite lookup_insert_eq; eauto|rewrite lookup_insert_ne; eauto]. }
  assert (forall u, leaving s u -> leaving s' u) as Hlv by (intros u; by apply (leaving_other s s' c x x')).
  assert (leaving s' t) as Hlt.
  { exists c, x'. split; [rewrite Ecpus; apply list_lookup_insert_eq; by eapply lookup_lt_Some|done]. }
  split.
  - intros c' y Hy. rewrite Ecpus in Hy. apply list_lookup_insert_Some in Hy as [(<- & <- & _)|[Hne Hy]].
    + split; cbn; [split; [done|by apply Hex]|done| |done].
      intros u Hu. apply C3. destruct Hq as [Eq | (_ & -> & _)]; [rewrite Eq; set_solver|set_solver].
    + destruct (iv_cpu _ V c' y Hy) as [[D1 D1'] D2 D3 D4]. split; [split; [done|by apply Hex]|done|done|].
      unfold doing_ok in *. destruct (doing y) as [|p m|p|p v|] eqn:E; try done.
      * destruct D4 as (z & Hz & Hl). cbn. destruct (decide (current y = t)) as [Ex|Ex].
        -- rewrite Ex, lookup_insert_eq. exists th'. split; [done|]. rewrite Hl, L3. congruence.
        -- rewrite lookup_insert_ne by done. eauto.
      * destruct D4 as (H1 & z & Hz & H2 & H3). split; [done|]. cbn. destruct (decide (p = t)) as [->|].
        -- rewrite lookup_insert_eq. exists th'. split; [done|]. split; [done|]. assert (z = th) as -> by congruence.
           intros Hv. destruct L2 as [-> | ->]; [by apply H3|done].
        -- rewrite lookup_insert_ne by done. eauto.
  - intros u y. cbn. rewrite lookup_insert_Some. intros [[<- <-]|[Hne Hy]].
    + split; try done.
      * split; [|intros Hi; rewrite (L1 Hi); by apply T1]. intros E. destruct L2 as [L2|L2]; [apply T1|]; congruence.
      * intros Hi. rewrite (L1 Hi). auto.
      * intros Hi. rewrite Hpl' by done. auto.
      * intros Hs. right. destruct L2 as [L2|L2]; [|congruence]. rewrite L2 in Hs. destruct (T5 Hs) as [E|E]; [|done].
        destruct Hph. rewrite E. set_solver.
      * intros _. by right.
      * by rewrite L4, decide_False.
    + destruct (iv_thread _ V u y Hy) as [U1 U2 U3 U4 U5 U6 U7 U8]. split; try done.
      * intros Hi. rewrite Hpl' by done. auto.
      * intros Hs. destruct (U6 Hs); auto.
      * intros Hp. destruct (U8 Hp) as (c' & z & R1 & R2 & R3 & R4). exists c', z. split_and!; try done; [|cbn; by rewrite lookup_insert_ne].
        cbn. rewrite list_lookup_insert_ne; [done|]. intros ->. congruence.
  - intros u Hu. destruct (decide (u ∈ I)) as [Hi|Hi].
    + rewrite Hpl in Hu. case_decide as E; [|apply Hex, (iv_exists _ V); lia].
      destruct (decide (n = u)) as [<-|Hne]; [|rewrite same_ne in Hu by done; apply Hex, (iv_exists _ V); lia].
      rewrite (Hn Hi). by apply Hex.
    + rewrite Hpl' in Hu by done. by apply Hex, (iv_exists _ V).
  - intros u Hu. destruct (iv_registered _ V u Hu). split; [by apply Hex|done].
  - apply V.
Qed.

Lemma inv_schedule s c x t th th' :
  inv s -> runs s c x t th -> preempt_disable_counter th = 0 -> leave_update t th th' ->
  inv (set_cpu (upd s t th' (waitq s) (timeouts s)) c (schedule th x)).
Proof using Type.
  intros V R H0 L. unfold schedule. rewrite H0. cbn [Z.gtb Z.compare]. destruct (run_queue x) as [|n q] eqn:Eq.
  - destruct R as (Hc & Hd & Hcur & Hth). destruct (Z.eqb_spec (current x) (idle_thread x)) as [Ei|Hne].
    + assert (th' = th) as ->. { apply (lu_idle _ _ _ L). rewrite <- Hcur, Ei. apply (iv_cpu _ V _ _ Hc). }
      unfold set_cpu, upd. cbn. rewrite insert_id, list_insert_id by done. by destruct s.
    + eapply inv_switch; eauto. by split.
  - eapply inv_switch; eauto.
Qed.

(** [schedule] of a thread with preemption disabled changes nothing. *)
Lemma schedule_steps s c x t th :
  inv s -> runs s c x t th ->
  inv (set_cpu s c (schedule th x)) /\
  (t_phase th = Parked -> inv (set_cpu (set_phase s t Resumed) c (schedule th x))) /\
  (t <> idle_thread x -> t_phase th = Running ->
   inv (set_cpu (set_phase (set_state s t THREAD_REAPING) t Dead) c (schedule th x))).
Proof using Type.
  intros V R. pose proof R as (Hc & Hd & Hcur & Hth). pose proof (iv_thread _ V _ _ Hth) as [T1 T2 T3 T4 T5 T6 T7 T8].
  assert (t_phase th ∉ [Blocking; Registered] -> preempt_disable_counter th = 0) as Hp0 by (intros; by rewrite T7, decide_False).
  split_and!.
  - destruct (decide (t_phase th ∈ [Blocking; Registered])) as [Hin|Hin].
    + unfold schedule. rewrite T7. cbn. unfold set_cpu. rewrite list_insert_id by done. by destruct s.
    + assert (set_cpu s c (schedule th x) = set_cpu (upd s t th (waitq s) (timeouts s)) c (schedule th x)) as ->.
      { unfold set_cpu, upd. cbn. by rewrite insert_id. }
      apply (inv_schedule s c x t th); auto. split; auto.
  - intros Hp. rewrite Hp in Hp0. unfold set_phase. rewrite (alter_Some _ _ _ _ Hth).
    apply (inv_schedule s c x t th); [done|done|apply Hp0; set_solver|]. split; cbn; auto; [|apply Hp0; set_solver|set_solver].
    intros Hi. rewrite T2 in Hp by done. done.
  - intros Hx Hp. rewrite Hp in Hp0. unfold set_phase, set_state. cbn. rewrite !(alter_Some _ _ _ _ Hth).
    erewrite (alter_Some (<[_ := _]> _)) by apply lookup_insert_eq. rewrite insert_insert_eq.
    apply (inv_schedule s c x t th); [done|done|apply Hp0; set_solver|]. split; cbn; auto; [|apply Hp0; set_solver|set_solver].
    intros Hi. destruct Hx. rewrite <- Hcur. apply (co_current _ _ (iv_cpu _ V _ _ Hc)). by rewrite Hcur.
Qed.

(** ** Switching *)
Lemma two_places s c c' x x' t :
  inv s -> c <> c' -> cpus s !! c = Some x -> cpus s !! c' = Some x' ->
  0 < cpu_places t x -> 0 < cpu_places t x' -> t ∈ I.
Proof using Type.
  intros V Hne Hc Hc' H1 H2. destruct (on_cpu s c x t V Hc H1) as (th & Hth & _).
  destruct (decide (t ∈ I)) as [|Hi]; [done|]. exfalso. pose proof (to_one _ _ _ (iv_thread _ V _ _ Hth) Hi) as E. unfold places in E.
  pose proof (csum_ge2 (cpu_places t) (cpus s) c c' x x' (cpu_places_nonneg t) Hne Hc Hc').
  pose proof (cnt_nonneg t (enqueuing s)). pose proof (cnt_nonneg t (reaper_list s)). pose proof (blocked_range (threads s) t). lia.
Qed.

Lemma held_place x t : held (doing x) t = 1 -> 0 < cpu_places t x.
Proof using Type. intros E. unfold cpu_places. pose proof (same_range (current x) t). pose proof (cnt_nonneg t (run_queue x)). lia. Qed.

(** A thread a switching processor holds is not running elsewhere. *)
Lemma held_not_running s c x t th : inv s -> cpus s !! c = Some x -> doing x <> Normal -> held (doing x) t = 1 ->
  threads s !! t = Some th -> t_phase th ∉ [Blocking; Registered].
Proof using Type.
  intros V Hc Hd Hh Hth Hp. destruct (to_running _ _ _ (iv_thread _ V _ _ Hth) Hp) as (c' & x' & Hc' & Hd' & Hcur & _).
  assert (t ∈ I) as Hi.
  { eapply (two_places s c c' x x'); eauto; [intros <-; congruence|by apply held_place|rewrite <- Hcur; apply current_place]. }
  rewrite (to_idle_phase _ _ _ (iv_thread _ V _ _ Hth) Hi) in Hp. set_solver.
Qed.

(** Which processor commits a thread is determined. *)
Lemma held_not_committing s c x t c' x' v : inv s -> cpus s !! c = Some x -> held (doing x) t = 1 -> t ∉ I ->
  c <> c' -> cpus s !! c' = Some x' -> doing x' <> Commit t v.
Proof using Type.
  intros V Hc Hh Hi Hne Hc' E. apply Hi. eapply (two_places s c c' x x'); eauto; [by apply held_place|].
  apply held_place. rewrite E. cbn. apply same_eq.
Qed.

Definition set_thread s t th' : sched := upd s t th' (waitq s) (timeouts s).

Lemma inv_finalize_next s c x p n :
  inv s -> cpus s !! c = Some x -> doing x = Switch p n -> inv (finalize_next s c x p n).
Proof using Type.
  intros V Hc Hd. pose proof (iv_cpu _ V c x Hc) as [[C1 C1'] C2 C3 C4]. unfold doing_ok in C4. rewrite Hd in C4. destruct C4 as [-> Hn].
  assert (held (doing x) n = 1) as Hh by (rewrite Hd; apply same_eq).
  destruct (on_cpu s c x n V Hc (held_place _ _ Hh)) as (th & Hth & Hnb).
  pose proof (held_not_running s c x n th V Hc ltac:(by rewrite Hd) Hh Hth) as Hph.
  pose proof (iv_thread _ V _ _ Hth) as [T1 T2 T3 T4 T5 T6 T7 T8].
  set (x' := Cpu n (Finalize (current x)) (run_queue x) (idle_thread x) (loaded x)).
  set (th' := if decide (t_state th = THREAD_IDLE_THREAD) then th
              else Thread THREAD_RUNNING (t_phase th) (preempt_disable_counter th) (page_table th)).
  assert (finalize_next s c x (current x) n = set_cpu (set_thread s n th') c x') as ->.
  { unfold finalize_next. rewrite Hth. unfold th'. destruct (decide (t_state th = THREAD_IDLE_THREAD)); unfold set_cpu, set_thread, upd, set_state; cbn;
      [by rewrite insert_id|by rewrite (alter_Some _ _ _ _ Hth)]. }
  set (s' := set_cpu (set_thread s n th') c x').
  assert (t_state th' <> THREAD_BLOCKED /\ (t_state th' = THREAD_IDLE_THREAD <-> t_state th = THREAD_IDLE_THREAD) /\
    (t_state th' = THREAD_BLOCKING -> t_state th = THREAD_BLOCKING /\ t_state th = THREAD_IDLE_THREAD) /\
    t_phase th' = t_phase th /\ preempt_disable_counter th' = preempt_disable_counter th /\ page_table th' = page_table th)
    as (Hb' & Hid & Hbl & Eph & Ecn & Ept).
  { unfold th'. destruct (decide (t_state th = THREAD_IDLE_THREAD)); cbn; split_and!; done. }
  assert (forall u, places s' u = places s u) as Hpl.
  { intros u. unfold places. cbn. rewrite blocked_insert by (done || by eapply not_blocked).
    rewrite (csum_insert _ _ _ x) by done. unfold cpu_places. cbn. rewrite Hd. cbn. lia. }
  assert (forall u, is_Some (threads s !! u) -> is_Some (threads s' !! u)) as Hex.
  { intros u [y Hy]. cbn. destruct (decide (u = n)) as [->|]; [rewrite lookup_insert_eq; eauto|rewrite lookup_insert_ne; eauto]. }
  assert (forall u, leaving s u -> leaving s' u) as Hlv.
  { intros u (c' & y & Hc' & Hl). destruct (decide (c = c')) as [<-|Hne].
    - rewrite Hc in Hc'. injection Hc' as <-. rewrite Hd in Hl. exists c, x'. split; [cbn; apply list_lookup_insert_eq; by eapply lookup_lt_Some|done].
    - exists c', y. cbn. by rewrite list_lookup_insert_ne. }
  split.
  - intros c' y Hy. cbn in Hy. apply list_lookup_insert_Some in Hy as [(<- & <- & _)|[Hne Hy]].
    + split; cbn; [split; [done|by apply Hex]|done|done|done].
    + destruct (iv_cpu _ V c' y Hy) as [[D1 D1'] D2 D3 D4]. split; [split; [done|by apply Hex]|done|done|].
      unfold doing_ok in *. destruct (doing y) as [|p m|p|p v|] eqn:E; try done.
      * destruct D4 as (z & Hz & Hl). cbn. destruct (decide (current y = n)) as [Ex|Ex].
        -- rewrite Ex, lookup_insert_eq. exists th'. split; [done|]. rewrite Hl, Ept. congruence.
        -- rewrite lookup_insert_ne by done. eauto.
      * destruct D4 as (H1 & z & Hz & H2 & H3). split; [done|]. cbn. destruct (decide (p = n)) as [->|].
        -- rewrite lookup_insert_eq. exists th'. split; [done|]. split; [done|]. intros Hv Hs. destruct (Hbl Hs). congruence.
        -- rewrite lookup_insert_ne by done. eauto.
  - intros u y. cbn. rewrite lookup_insert_Some. intros [[<- <-]|[Hne Hy]].
    + rewrite <- Eph in *. split; try done.
      * rewrite Hid. done.
      * rewrite Hpl. done.
      * intros Hs. destruct (Hbl Hs). congruence.
      * intros Hs. destruct (Hbl Hs). congruence.
      * by rewrite Ecn.
    + destruct (iv_thread _ V u y Hy) as [U1 U2 U3 U4 U5 U6 U7 U8]. split; try done.
      * rewrite Hpl. done.
      * intros Hs. destruct (U6 Hs); auto.
      * intros Hp. destruct (U8 Hp) as (c' & z & R1 & R2 & R3 & R4). exists c', z. split_and!; try done; [|cbn; by rewrite lookup_insert_ne].
        cbn. rewrite list_lookup_insert_ne; [done|]. intros ->. congruence.
  - intros u. rewrite Hpl. intros Hu. by apply Hex, (iv_exists _ V).
  - intros u Hu. destruct (iv_registered _ V u Hu). split; [by apply Hex|done].
  - apply V.
Qed.

Lemma inv_finalize_load s c x p :
  inv s -> cpus s !! c = Some x -> doing x = Finalize p -> inv (finalize_load s c x p).
Proof using Type.
  intros V Hc Hd. assert (held (doing x) p = 1) as Hh by (rewrite Hd; apply same_eq).
  destruct (on_cpu s c x p V Hc (held_place _ _ Hh)) as (th & Hth & Hnb). unfold finalize_load. rewrite Hth.
  pose proof (iv_thread _ V _ _ Hth) as [T1 T2 T3 T4 T5 T6 T7 T8].
  set (x' := with_doing x (Commit p (t_state th))). set (s' := set_cpu s c x').
  assert (forall u, places s' u = places s u) as Hpl.
  { intros u. unfold places. cbn. rewrite (csum_insert _ _ _ x) by done. unfold cpu_places. cbn. rewrite Hd. cbn. lia. }
  assert (forall u, leaving s u -> leaving s' u) as Hlv.
  { intros u (c' & y & Hc' & Hl). destruct (decide (c = c')) as [<-|Hne].
    - rewrite Hc in Hc'. injection Hc' as <-. rewrite Hd in Hl. exists c, x'. split; [cbn; apply list_lookup_insert_eq; by eapply lookup_lt_Some|done].
    - exists c', y. cbn. by rewrite list_lookup_insert_ne. }
  split; try apply V.
  - intros c' y Hy. cbn in Hy. apply list_lookup_insert_Some in Hy as [(<- & <- & _)|[Hne Hy]]; [|by destruct (iv_cpu _ V c' y Hy)].
    destruct (iv_cpu _ V c x Hc) as [D1 D2 D3 D4]. split; try done. split; [done|]. exists th. split; [done|]. split; [done|]. intros ->. done.
  - intros u y Hy. destruct (iv_thread _ V u y Hy) as [U1 U2 U3 U4 U5 U6 U7 U8]. split; try done.
    + rewrite Hpl. done.
    + intros Hs. destruct (U6 Hs); auto.
    + intros Hp. destruct (U8 Hp) as (c' & z & R1 & R2 & R3 & R4). exists c', z. split_and!; try done.
      cbn. rewrite list_lookup_insert_ne; [done|]. intros ->. congruence.
  - intros u. rewrite Hpl. apply V.
Qed.

(** The last stage: [p] goes to the run queue ([extra]), to the reaper
    ([reap]), becomes blocked, or is an idle thread. *)
Record commit_update s p th th' (extra reap : list Z) : Prop := {
  cu_same : t_phase th' = t_phase th /\ preempt_disable_counter th' = preempt_disable_counter th /\ page_table th' = page_table th;
  cu_idle : t_state th' = THREAD_IDLE_THREAD <-> p ∈ I;
  cu_blocking : t_state th' <> THREAD_BLOCKING;
  cu_blocked : t_state th' = THREAD_BLOCKED -> registered s p;
  cu_extra : forall u, u <> p -> cnt u extra = 0 /\ cnt u reap = 0;
  cu_place : p ∉ I -> cnt p extra + cnt p reap + b2z (bool_decide (t_state th' = THREAD_BLOCKED)) = 1;
  cu_nowhere : p ∈ I -> extra = [] /\ reap = [];
}.

Definition committed s c x p th' (extra reap : list Z) : sched :=
  Sched (<[p := th']> (threads s))
    (<[c := Cpu (current x) Normal (run_queue x ++ extra) (idle_thread x)
        (match threads s !! current x with Some y => page_table y | None => loaded x end)]> (cpus s))
    (waitq s) (timeouts s) (waking s) (enqueuing s) (reaper_list s ++ reap).

Lemma inv_commit s c x p v th th' extra reap :
  inv s -> cpus s !! c = Some x -> doing x = Commit p v -> threads s !! p = Some th ->
  commit_update s p th th' extra reap -> inv (committed s c x p th' extra reap).
Proof using Type.
  intros V Hc Hd Hth [(Eph & Ecn & Ept) U1 U2 U3 U4 U5 U6]. assert (held (doing x) p = 1) as Hh by (rewrite Hd; apply same_eq).
  destruct (on_cpu s c x p V Hc (held_place _ _ Hh)) as (th2 & Hth2 & Hnb). assert (th2 = th) as -> by congruence. clear Hth2.
  pose proof (held_not_running s c x p th V Hc ltac:(by rewrite Hd) Hh Hth) as Hph.
  destruct (on_cpu s c x (current x) V Hc (current_place x)) as (tc & Htc & _).
  pose proof (iv_thread _ V _ _ Hth) as [T1 T2 T3 T4 T5 T6 T7 T8].
  pose proof (iv_cpu _ V c x Hc) as [[C1 C1'] C2 C3 C4].
  set (s' := committed s c x p th' extra reap).
  assert (forall u, places s' u = places s u - same p u + cnt u extra + cnt u reap +
    (if decide (u = p) then b2z (bool_decide (t_state th' = THREAD_BLOCKED)) else 0)) as Hpl.
  { intros u. unfold places. cbn [cpus enqueuing reaper_list threads s' committed]. rewrite (csum_insert _ _ _ x) by done.
    unfold cpu_places. cbn. rewrite Hd. cbn. rewrite !cnt_app. assert (blocked (threads s) p = 0) as Eb by (by eapply not_blocked).
    destruct (decide (u = p)) as [->|E].
    - unfold blocked at 1. rewrite lookup_insert_eq. lia.
    - unfold blocked at 1. rewrite lookup_insert_ne by done. fold (blocked (threads s) u). lia. }
  assert (forall u, u ∉ I -> places s' u = places s u) as Hpl'.
  { intros u Hu. rewrite Hpl. destruct (decide (u = p)) as [->|E]; [rewrite same_eq; specialize (U5 Hu); lia|].
    rewrite same_ne by done. destruct (U4 u E). lia. }
  assert (forall u, is_Some (threads s !! u) -> is_Some (threads s' !! u)) as Hex.
  { intros u [y Hy]. cbn. destruct (decide (u = p)) as [->|]; [rewrite lookup_insert_eq; eauto|rewrite lookup_insert_ne; eauto]. }
  assert (forall u, u <> p -> leaving s u -> leaving s' u) as Hlv.
  { intros u Hu (c' & y & Hc' & Hl). exists c', y. cbn. rewrite list_lookup_insert_ne; [done|]. intros <-.
    rewrite Hc in Hc'. injection Hc' as <-. rewrite Hd in Hl. done. }
  split.
  - intros c' y Hy. cbn in Hy. apply list_lookup_insert_Some in Hy as [(<- & <- & _)|[Hne Hy]].
    + split; cbn; [split; [done|by apply Hex]|done| |].
      * intros u [Hu|Hu]%elem_of_app; [by apply C3|]. destruct (decide (u = p)) as [->|Hup].
        -- intros Hi. destruct (U6 Hi) as [-> _]. set_solver.
        -- apply cnt_in in Hu. destruct (U4 u Hup). lia.
      * unfold doing_ok. cbn. rewrite Htc. destruct (decide (current x = p)) as [Ex|Ex].
        -- rewrite Ex, lookup_insert_eq. exists th'. split; [done|]. rewrite Ept. congruence.
        -- rewrite lookup_insert_ne by done. eauto.
    + destruct (iv_cpu _ V c' y Hy) as [[D1 D1'] D2 D3 D4]. split; [split; [done|by apply Hex]|done|done|].
      unfold doing_ok in *. destruct (doing y) as [|q m|q|q w|] eqn:E; try done.
      * destruct D4 as (z & Hz & Hl). cbn. destruct (decide (current y = p)) as [Ex|Ex].
        -- rewrite Ex, lookup_insert_eq. exists th'. split; [done|]. rewrite Hl, Ept. congruence.
        -- rewrite lookup_insert_ne by done. eauto.
      * destruct D4 as (H1 & z & Hz & H2 & H3). split; [done|]. cbn. destruct (decide (q = p)) as [->|].
        -- rewrite lookup_insert_eq. exists th'. split; [done|]. split; [done|]. done.
        -- rewrite lookup_insert_ne by done. eauto.
  - intros u y. cbn. rewrite lookup_insert_Some. intros [[<- <-]|[Hne Hy]].
    + rewrite <- Eph in *. split; try done.
      * intros Hi. rewrite Hpl' by done. auto.
      * by rewrite Ecn.
    + destruct (iv_thread _ V u y Hy) as [W1 W2 W3 W4 W5 W6 W7 W8]. split; try done.
      * intros Hi. rewrite Hpl' by done. auto.
      * intros Hs. destruct (W6 Hs); auto.
      * intros Hp. destruct (W8 Hp) as (c' & z & R1 & R2 & R3 & R4). exists c', z. split_and!; try done; [|cbn; by rewrite lookup_insert_ne].
        cbn. rewrite list_lookup_insert_ne; [done|]. intros ->. congruence.
  - intros u Hu. destruct (decide (u = p)) as [->|Hup]; [cbn; rewrite lookup_insert_eq; eauto|]. apply Hex, (iv_exists _ V).
    rewrite Hpl, decide_False in Hu by done. destruct (U4 u Hup). pose proof (same_range p u). lia.
  - intros u Hu. destruct (iv_registered _ V u Hu). split; [by apply Hex|done].
  - apply V.
Qed.

(** ** Wakers *)

(** Moving a thread from a waitable or the heap to its waker's hands. *)
Lemma inv_pop s (w h : gset Z) (l : list Z) :
  inv s -> (forall u, registered s u <-> (u ∈ w \/ u ∈ h \/ u ∈ l)) ->
  inv (Sched (threads s) (cpus s) w h l (enqueuing s) (reaper_list s)).
Proof using Type.
  intros V Hr. split.
  - intros c x Hc. by destruct (iv_cpu _ V c x Hc).
  - intros t th Ht. destruct (iv_thread _ V t th Ht) as [T1 T2 T3 T4 T5 T6 T7 T8]. split; try done.
    + intros Hs. by apply Hr, T4.
    + intros Hs. destruct (T5 Hs); [by left|right; by apply Hr].
  - apply V.
  - intros t Ht. by apply (iv_registered _ V), Hr.
  - apply V.
Qed.

Lemma inv_exchange s t w1 w2 : inv s -> waking s = w1 ++ t :: w2 -> inv (wake_exchange s t w1 w2).
Proof using Type.
  intros V Ew. assert (registered s t) as Hreg by (right; right; rewrite Ew; set_solver).
  destruct (iv_registered _ V t Hreg) as [[th Hth] Hi]. unfold wake_exchange. rewrite Hth. unfold set_state, set_wakers. cbn.
  rewrite (alter_Some _ _ _ _ Hth).
  set (th' := Thread THREAD_RUNABLE (t_phase th) (preempt_disable_counter th) (page_table th)).
  set (e := if decide (t_state th = THREAD_BLOCKED) then _ else _).
  set (s' := Sched (<[t := th']> (threads s)) (cpus s) (waitq s) (timeouts s) (w1 ++ w2) e (reaper_list s)).
  pose proof (iv_thread _ V _ _ Hth) as [T1 T2 T3 T4 T5 T6 T7 T8].
  assert (forall u, places s' u = places s u) as Hpl.
  { intros u. unfold places. cbn. unfold e. destruct (decide (t_state th = THREAD_BLOCKED)) as [Eb|Eb].
    - cbn [cnt]. destruct (decide (u = t)) as [->|Hne].
      + rewrite same_eq. unfold blocked. rewrite lookup_insert_eq, Hth, (bool_decide_true (t_state th = _)), (bool_decide_false (t_state th' = _)) by done. unfold b2z. lia.
      + rewrite same_ne by done. unfold blocked. rewrite lookup_insert_ne by done. lia.
    - rewrite blocked_insert; [done|done|by eapply not_blocked]. }
  assert (forall u, u <> t -> registered s u -> registered s' u) as Hreg'.
  { intros u Hu [H|[H|H]]; [by left|by right; left|]. right; right. cbn. rewrite Ew in H. set_solver. }
  assert (forall u, registered s' u -> registered s u) as Hreg2.
  { intros u [H|[H|H]]; [by left|by right; left|]. right; right. cbn in H. rewrite Ew. set_solver. }
  assert (forall u, is_Some (threads s !! u) -> is_Some (threads s' !! u)) as Hex.
  { intros u [y Hy]. cbn. destruct (decide (u = t)) as [->|]; [rewrite lookup_insert_eq; eauto|rewrite lookup_insert_ne; eauto]. }
  split.
  - intros c y Hy. destruct (iv_cpu _ V c y Hy) as [[D1 D1'] D2 D3 D4]. split; [split; [done|by apply Hex]|done|done|].
    unfold doing_ok in *. destruct (doing y) as [|q m|q|q w|] eqn:E; try done.
    + destruct D4 as (z & Hz & Hl). cbn. destruct (decide (current y = t)) as [Ex|Ex].
      * rewrite Ex, lookup_insert_eq. exists th'. split; [done|]. cbn. congruence.
      * rewrite lookup_insert_ne by done. eauto.
    + destruct D4 as (H1 & z & Hz & H2 & H3). split; [done|]. cbn. destruct (decide (q = t)) as [->|].
      * rewrite lookup_insert_eq. exists th'. done.
      * rewrite lookup_insert_ne by done. eauto.
  - intros u y. cbn. rewrite lookup_insert_Some. intros [[<- <-]|[Hne Hy]].
    + split; try done.
      * rewrite Hpl. done.
      * intros Hp. destruct (T8 Hp) as (c' & z & R1 & R2 & R3 & R4). exists c', z. split_and!; try done. cbn. by rewrite lookup_insert_eq.
    + destruct (iv_thread _ V u y Hy) as [W1 W2 W3 W4 W5 W6 W7 W8]. split; try done.
      * rewrite Hpl. done.
      * intros Hs. apply Hreg'; auto.
      * intros Hs. destruct (W5 Hs); auto.
      * intros Hp. destruct (W8 Hp) as (c' & z & R1 & R2 & R3 & R4). exists c', z. split_and!; try done. cbn. by rewrite lookup_insert_ne.
  - intros u. rewrite Hpl. intros Hu. by apply Hex, (iv_exists _ V).
  - intros u Hu. destruct (iv_registered _ V u (Hreg2 u Hu)). split; [by apply Hex|done].
  - intros u. cbn. unfold e. destruct (decide (t_state th = THREAD_BLOCKED)); [|apply (iv_enqueuing _ V)].
    rewrite elem_of_cons. intros [->|Hu]; [done|by apply (iv_enqueuing _ V)].
Qed.

Lemma inv_enqueue s t e1 e2 c x : inv s -> enqueuing s = e1 ++ t :: e2 -> cpus s !! c = Some x ->
  inv (enqueue_thread (set_wakers s (waking s) (e1 ++ e2)) c x t).
Proof using Type.
  intros V Ee Hc. assert (t ∉ I) as Hi by (apply (iv_enqueuing _ V); rewrite Ee; set_solver).
  set (s' := enqueue_thread _ c x t). assert (cpus s' = <[c := push_back x t]> (cpus s)) as Ec by done.
  assert (forall u, places s' u = places s u) as Hpl.
  { intros u. unfold places. rewrite Ec, (csum_insert _ _ _ x) by done. cbn. unfold cpu_places. cbn. rewrite Ee, !cnt_app. cbn [cnt]. lia. }
  assert (forall u, leaving s u -> leaving s' u) as Hlv.
  { intros u (c' & y & Hc' & Hl). destruct (decide (c = c')) as [<-|Hne].
    - rewrite Hc in Hc'. injection Hc' as <-. exists c, (push_back x t). split; [rewrite Ec; apply list_lookup_insert_eq; by eapply lookup_lt_Some|done].
    - exists c', y. rewrite Ec. by rewrite list_lookup_insert_ne. }
  split.
  - intros c' y Hy. rewrite Ec in Hy. apply list_lookup_insert_Some in Hy as [(<- & <- & _)|[Hne Hy]]; [|by destruct (iv_cpu _ V c' y Hy)].
    destruct (iv_cpu _ V c x Hc) as [D1 D2 D3 D4]. split; try done. cbn. intros u [Hu|Hu]%elem_of_app; [by apply D3|]. set_solver.
  - intros u y Hy. destruct (iv_thread _ V u y Hy) as [W1 W2 W3 W4 W5 W6 W7 W8]. split; try done.
    + rewrite Hpl. done.
    + intros Hs. destruct (W6 Hs); auto.
    + intros Hp. destruct (W8 Hp) as (c' & z & R1 & R2 & R3 & R4). destruct (decide (c = c')) as [<-|Hne].
      * rewrite Hc in R1. injection R1 as <-. exists c, (push_back x t). split_and!; try done. rewrite Ec. apply list_lookup_insert_eq. by eapply lookup_lt_Some.
      * exists c', z. split_and!; try done. rewrite Ec. by rewrite list_lookup_insert_ne.
  - intros u. rewrite Hpl. apply V.
  - apply V.
  - intros u. cbn. intros Hu. apply (iv_enqueuing _ V). rewrite Ee. set_solver.
Qed.

Lemma finished_insert s (x : cpu) : finished s x =
  Cpu (current x) Normal (run_queue x) (idle_thread x) (match threads s !! current x with Some y => page_table y | None => loaded x end).
Proof using Type. done. Qed.

(** Putting the reaper on the run queue is what a waker does. *)
Lemma inv_reap s c x p th r :
  inv s -> cpus s !! c = Some x -> doing x = Commit p THREAD_REAPING -> threads s !! p = Some th ->
  (forall w, r = Some w -> w ∈ waitq s) -> inv (finalize_commit s c x p THREAD_REAPING r).
Proof using Type.
  intros V Hc Hd Hth Hr. pose proof (co_doing _ _ (iv_cpu _ V c x Hc)) as Hdo. unfold doing_ok in Hdo. rewrite Hd in Hdo.
  destruct Hdo as (_ & th2 & E & Hidle & Hbl). assert (th2 = th) as -> by congruence. clear E.
  assert (held (doing x) p = 1) as Hh by (rewrite Hd; apply same_eq).
  destruct (on_cpu s c x p V Hc (held_place _ _ Hh)) as (th2 & E & Hnb). assert (th2 = th) as -> by congruence. clear E.
  assert (p ∉ I) as Hi by (intros Hi; apply Hidle in Hi; done).
  assert (inv (committed s c x p th [] [p])) as V1.
  { apply (inv_commit s c x p THREAD_REAPING th); try done. split; try done.
    - by apply (to_idle _ _ _ (iv_thread _ V _ _ Hth)).
    - by apply Hbl.
    - intros u Hu. cbn. by rewrite same_ne.
    - intros _. cbn. by rewrite same_eq, bool_decide_false. }
  unfold committed in V1. rewrite insert_id, app_nil_r in V1 by done. rewrite <- (finished_insert s x) in V1.
  destruct r as [r|]; [|exact V1]. specialize (Hr r eq_refl). cbn [finalize_commit].
  destruct (iv_registered _ V r) as [[thr Ethr] Hri]; [by left|]. rewrite Ethr.
  apply (inv_pop _ (waitq s ∖ {[r]}) (timeouts s) (r :: waking s)) in V1.
  2: { intros u. unfold registered. cbn. destruct (decide (u = r)); set_solver. }
  cbn in V1. apply (inv_exchange _ r [] (waking s)) in V1; [|done].
  unfold wake_exchange, set_wakers, set_state in V1. cbn in V1. rewrite Ethr in V1.
  unfold set_state, set_cpu, set_waits, set_reaper. cbn [threads cpus waitq timeouts waking enqueuing reaper_list].
  destruct (decide (t_state thr = THREAD_BLOCKED)) as [Eb|Eb]; [|exact V1].
  apply (inv_enqueue _ r [] (enqueuing s) c (finished s x)) in V1; [|done|cbn; apply list_lookup_insert_eq; by eapply lookup_lt_Some].
  unfold enqueue_thread, set_cpu, set_wakers in V1. cbn [threads cpus waitq timeouts waking enqueuing reaper_list app] in V1.
  rewrite list_insert_insert_eq in V1. exact V1.
Qed.

Lemma inv_finalize_commit s c x p v r :
  inv s -> cpus s !! c = Some x -> doing x = Commit p v -> (forall w, r = Some w -> w ∈ waitq s) ->
  inv (finalize_commit s c x p v r).
Proof using Type.
  intros V Hc Hd Hr. pose proof (co_doing _ _ (iv_cpu _ V c x Hc)) as Hdo. unfold doing_ok in Hdo. rewrite Hd in Hdo.
  destruct Hdo as (Hvb & th & Hth & Hidle & Hbl).
  assert (held (doing x) p = 1) as Hh by (rewrite Hd; apply same_eq).
  destruct (on_cpu s c x p V Hc (held_place _ _ Hh)) as (th2 & E & Hnb). assert (th2 = th) as -> by congruence. clear E.
  pose proof (held_not_running s c x p th V Hc ltac:(by rewrite Hd) Hh Hth) as Hph.
  pose proof (iv_thread _ V _ _ Hth) as [T1 T2 T3 T4 T5 T6 T7 T8].
  assert (forall th' extra, commit_update s p th th' extra [] ->
    inv (Sched (<[p := th']> (threads s)) (<[c := Cpu (current x) Normal (run_queue x ++ extra) (idle_thread x) (loaded (finished s x))]> (cpus s))
      (waitq s) (timeouts s) (waking s) (enqueuing s) (reaper_list s))) as Hgo.
  { intros th' extra U. pose proof (inv_commit s c x p v th th' extra [] V Hc Hd Hth U) as W. unfold committed in W. by rewrite app_nil_r in W. }
  assert (forall u, u <> p -> cnt u [p] = 0 /\ cnt u [] = 0) as Hc1 by (intros u Hu; cbn; by rewrite same_ne).
  assert (v <> THREAD_IDLE_THREAD -> t_state th <> THREAD_BLOCKING -> inv (set_cpu s c (push_back (finished s x) p))) as Hpush.
  { intros Hv Hs. specialize (Hgo th [p]). rewrite insert_id in Hgo by done. apply Hgo. split; try done.
    - intros _. cbn. by rewrite same_eq, bool_decide_false.
    - intros Hi. by apply Hidle in Hi. }
  assert (v = THREAD_BLOCKING \/ v = THREAD_RUNABLE -> inv (finalize_commit s c x p THREAD_BLOCKING r)) as Hcas.
  { intros Hv. cbn [finalize_commit]. rewrite Hth. destruct (decide (t_state th = THREAD_BLOCKING)) as [Es|Es]; [|by apply Hpush; [destruct Hv; congruence|]].
    unfold set_state, set_cpu. cbn. rewrite (alter_Some _ _ _ _ Hth).
    specialize (Hgo (Thread THREAD_BLOCKED (t_phase th) (preempt_disable_counter th) (page_table th)) []). rewrite app_nil_r in Hgo. apply Hgo.
    split; try done.
    - cbn. split; [done|]. intros Hi. apply Hidle in Hi. by destruct Hv; congruence.
    - intros _. destruct (T5 Es) as [E|E]; [|done]. rewrite E in Hph. set_solver. }
  destruct v; cbn [finalize_commit]; try done.
  - unfold set_state, set_cpu. cbn. rewrite (alter_Some _ _ _ _ Hth).
    apply (Hgo (Thread THREAD_RUNABLE (t_phase th) (preempt_disable_counter th) (page_table th)) [p]). split; try done.
    + cbn. split; [done|]. intros Hi. by apply Hidle in Hi.
    + intros _. cbn. by rewrite same_eq.
    + intros Hi. by apply Hidle in Hi.
  - apply Hcas. by right.
  - by eapply inv_reap.
  - apply Hcas. by left.
  - specialize (Hgo th []). rewrite app_nil_r, insert_id in Hgo by done. apply Hgo. split; try done.
    + intros E. assert (p ∈ I) as Hi by (by apply Hidle). apply T1 in Hi. congruence.
    + intros Hi. destruct Hi. by apply Hidle.
Qed.

Lemma sched_step_inv s s' : inv s -> step s s' -> inv s'.
Proof using Type.
  intros V Hs. destruct Hs as [c x t th R H1 H2|c x t th R H|c x t th R H|c x t th R H|c x t th R H|c x t th R H|c x t th R H|c x t th R H
    |c x t th R|c x t th R H1 H2|c x p n Hc Hd|c x p Hc Hd|c x p v r Hc Hd Hr|t Ht|t Ht|t w1 w2 Ew|t e1 e2 c x Ee Hc].
  1-5,7-8: destruct (wait_steps s c x t th V R) as (W1 & W2 & W3 & W4 & W5 & W6 & W7); auto.
  1,2,3: destruct (schedule_steps s c x t th V R) as (S1 & S2 & S3); auto.
  - by apply inv_finalize_next.
  - by apply inv_finalize_load.
  - by apply inv_finalize_commit.
  - apply (inv_pop s); [done|]. intros u. unfold registered. destruct (decide (u = t)); set_solver.
  - apply (inv_pop s); [done|]. intros u. unfold registered. destruct (decide (u = t)); set_solver.
  - by apply inv_exchange.
  - by apply inv_enqueue.
Qed.

Lemma run_sched_inv s s' : inv s -> rtc step s s' -> inv s'.
Proof using Type. intros V Hr. revert V. induction Hr as [|a b d Hs _ IH]; [done|]. intros V. apply IH. by eapply sched_step_inv. Qed.
End Inv.

(** ** From boot on *)

(** After boot every processor runs its idle thread and the threads created so
    far are on the run queues, each on one of them. *)
Record booted (I : gset Z) (s : sched) : Prop := {
  bt_cpu : forall c x, cpus s !! c = Some x -> current x = idle_thread x /\ doing x = Normal /\ idle_thread x ∈ I /\
    exists th, threads s !! idle_thread x = Some th /\ loaded x = page_table th;
  bt_thread : forall t th, threads s !! t = Some th -> t_phase th = Running /\ preempt_disable_counter th = 0 /\
    t_state th = if decide (t ∈ I) then THREAD_IDLE_THREAD else THREAD_RUNABLE;
  bt_one : forall t th, threads s !! t = Some th -> t ∉ I -> places s t = 1;
  bt_queue : forall c x t, cpus s !! c = Some x -> t ∈ run_queue x -> t ∉ I;
  bt_exists : forall t, 0 < places s t -> is_Some (threads s !! t);
  bt_nothing : waitq s = ∅ /\ timeouts s = ∅ /\ waking s = [] /\ enqueuing s = [];
}.

Lemma booted_inv I s : booted I s -> inv I s.
Proof.
  intros [B1 B2 B3 B4 B5 (B6 & B7 & B8 & B9)]. split.
  - intros c x Hc. destruct (B1 c x Hc) as (E1 & E2 & E3 & th & E4 & E5). split; [eauto|done|intros t; by apply (B4 c)|].
    unfold doing_ok. rewrite E2, E1. eauto.
  - intros t th Hth. destruct (B2 t th Hth) as (E1 & E2 & E3). assert (t_state th <> THREAD_BLOCKED /\ t_state th <> THREAD_BLOCKING) as [N1 N2] by (rewrite E3; by case_decide).
    split; rewrite ?E1; try done.
    + rewrite E3. by case_decide.
    + by apply (B3 t th).
    + set_solver.
  - done.
  - intros t [H|[H|H]]; [rewrite B6 in H|rewrite B7 in H|rewrite B8 in H]; set_solver.
  - intros t. rewrite B9. set_solver.
Qed.

(** C5: on every interleaving from boot, with any number of processors and of
    waking and timed-out threads, no processor reaches the panic of
    [schedule_finalize]; every thread is in exactly one place (on one processor,
    on one run queue once, with a waker about to enqueue it, on the reaper's
    list, or blocked); a blocked thread is on a waitable, on the timeout heap or
    in the hands of a waker, so that no wake-up is lost; and a processor that
    runs a thread has its page table loaded. *)
Theorem scheduler_invariant I s0 s :
  booted I s0 -> rtc step s0 s ->
  (forall c x, cpus s !! c = Some x -> doing x <> Panicked) /\
  (forall t th, threads s !! t = Some th -> t ∉ I -> places s t = 1) /\
  (forall t th, threads s !! t = Some th -> t_state th = THREAD_BLOCKED -> registered s t) /\
  (forall c x, cpus s !! c = Some x -> doing x = Normal ->
     exists th, threads s !! current x = Some th /\ loaded x = page_table th).
Proof.
  intros B Hr. pose proof (run_sched_inv I s0 s (booted_inv I s0 B) Hr) as V. split_and!.
  - intros c x Hc E. pose proof (co_doing _ _ _ (iv_cpu _ _ V c x Hc)) as D. unfold doing_ok in D. by rewrite E in D.
  - intros t th Hth. by apply (to_one _ _ _ _ (iv_thread _ _ V t th Hth)).
  - intros t th Hth. by apply (to_blocked _ _ _ _ (iv_thread _ _ V t th Hth)).
  - intros c x Hc E. pose proof (co_doing _ _ _ (iv_cpu _ _ V c x Hc)) as D. unfold doing_ok in D. by rewrite E in D.
Qed.

(** One step, and the state it leads to evaluated. *)
Tactic Notation "go" uconstr(rule) :=
  eapply rtc_l; [eapply rule; repeat split; first [reflexivity | discriminate | by left | set_solver]|];
  match goal with |- rtc _ ?s _ => let s' := eval vm_compute in s in change s with s' end.

(** *** One processor, its idle thread 100 and two threads *)
Module SchedDemo.
Definition boot : sched :=
  Sched (<[1 := Thread THREAD_RUNABLE Running 0 0x5000]> (<[2 := Thread THREAD_RUNABLE Running 0 0x6000]>
           {[100 := Thread THREAD_IDLE_THREAD Running 0 0x1000]}))
    [Cpu 100 Normal [1; 2] 100 0x1000] ∅ ∅ [] [] [].
Definition idles : gset Z := {[100]}.

Lemma boot_lookup t th : threads boot !! t = Some th ->
  (t = 1 /\ th = Thread THREAD_RUNABLE Running 0 0x5000) \/ (t = 2 /\ th = Thread THREAD_RUNABLE Running 0 0x6000) \/
  (t = 100 /\ th = Thread THREAD_IDLE_THREAD Running 0 0x1000).
Proof. cbn. rewrite !lookup_insert_Some, lookup_singleton_Some. naive_solver. Qed.

Lemma boot_cpu c x : cpus boot !! c = Some x -> x = Cpu 100 Normal [1; 2] 100 0x1000.
Proof. destruct c as [|c]; cbn; [by intros [= <-]|by destruct c]. Qed.

Lemma boot_places t : 0 < places boot t -> t = 1 \/ t = 2 \/ t = 100.
Proof.
  destruct (decide (t = 1)) as [->|H1]; [by left|]. destruct (decide (t = 2)) as [->|H2]; [by right; left|].
  destruct (decide (t = 100)) as [->|H3]; [by right; right|]. unfold places, cpu_places, blocked. cbn.
  rewrite !same_ne by done. rewrite !lookup_insert_ne, lookup_singleton_ne by done. lia.
Qed.

Lemma boots : booted idles boot.
Proof.
  split.
  - intros c x ->%boot_cpu. split_and!; try done; by eexists.
  - intros t th [[-> ->]|[[-> ->]|[-> ->]]]%boot_lookup; done.
  - intros t th [[-> ->]|[[-> ->]|[-> ->]]]%boot_lookup Hi; first [done | set_solver].
  - intros c x t ->%boot_cpu. cbn. set_solver.
  - intros t [->|[->| ->]]%boot_places; by eexists.
  - done.
Qed.

(** Thread 1 runs and blocks with a timeout; a waker takes it off the waitable. *)
Lemma blocks : exists s, rtc step boot s /\ (exists th, threads s !! 1 = Some th /\ t_state th = THREAD_BLOCKED) /\ waking s = [1].
Proof.
  eexists. split.
  - go (st_schedule _ 0%nat). go (st_finalize_next _ 0%nat). go (st_finalize_load _ 0%nat).
    go (st_finalize_commit _ 0%nat _ _ _ None).
    go (st_wait_begin _ 0%nat). go (st_wait_push _ 0%nat). go (st_wait_timeout _ 0%nat). go (st_wait_park _ 0%nat).
    go (st_wait_schedule _ 0%nat). go (st_finalize_next _ 0%nat). go (st_finalize_load _ 0%nat).
    go (st_finalize_commit _ 0%nat _ _ _ None).
    go (st_pop_waitable _ 1).
    apply rtc_refl.
  - split; [by eexists|done].
Qed.
End SchedDemo.

Lemma scheduler_invariant_witness :
  exists s, (exists th, threads s !! 1 = Some th /\ t_state th = THREAD_BLOCKED) /\ waking s = [1] /\ places s 1 = 1.
Proof.
  destruct SchedDemo.blocks as (s & Hr & (th & Hth & Hs) & Hw). exists s. split; [eauto|]. split; [done|].
  pose proof (scheduler_invariant SchedDemo.idles SchedDemo.boot s SchedDemo.boots Hr) as (_ & H & _).
  apply (H 1 th Hth). by vm_compute.
Defined.

