(* ===== verification/Mutex.v ===== *)
(** * utils/locks/mutex.c: the sleeping mutex

    Threads run [mutex_lock] and [mutex_unlock]; every atomic access to the word
    [locked] is a step, and so is every section under the lock of the waitable,
    but for the condition [mutex_claim], which runs under that lock and accesses
    the word twice: [waiters_lock] is the thread inside.  A waiter leaves
    [wait_on_cond] when a waker has taken it off the waitable; with [stale],
    also when a late waker of an earlier, timed wait has set its state (the
    exchange of sched/wait.c comes after the waitable's lock is released). *)

From S2P Require Import Prelude.
From stdpp Require Import relations.
#[local] Open Scope Z_scope.

Definition MUTEX_UNLOCKED : Z := 0.
Definition MUTEX_LOCKED : Z := 1.
Definition MUTEX_LOCKED_WAITERS : Z := 2.
Definition MUTEX_UNLOCKED_WAITERS : Z := 3.

(** Where a thread is.  [mutex_lock]: before the load, before the compare and
    exchange, before [wait_on_cond]; in [mutex_claim], before the exchange,
    behind it with the mutex claimed, before the store; before it is put on the
    waitable; blocked; woken.  [mutex_unlock]: before each of its accesses.
    [Failed]: behind a failed assertion. *)
Inductive pc :=
| Out | LockLoad | LockCas | LockWait | Claim | Claimed | ClaimStore | Push | Waiting | Woken
| Held | UnlockCas | UnlockStore | UnlockWake | UnlockRecheck | UnlockWake2 | Failed.

#[export] Instance pc_eq_dec : EqDecision pc.
Proof. solve_decision. Defined.

Record mutex_t := Mutex { locked : Z; waiters : list Z; waiters_lock : option Z }.
Record state := State { mutex : mutex_t; pcs : gmap Z pc }.

Definition goto (s : state) (t : Z) (p : pc) : state := State (mutex s) (<[t := p]> (pcs s)).
Definition set_locked (s : state) (v : Z) : state := State (Mutex v (waiters (mutex s)) (waiters_lock (mutex s))) (pcs s).
Definition set_waiters (s : state) (q : list Z) : state := State (Mutex (locked (mutex s)) q (waiters_lock (mutex s))) (pcs s).
Definition set_lock (s : state) (o : option Z) : state := State (Mutex (locked (mutex s)) (waiters (mutex s)) o) (pcs s).

(** ** mutex_claim *)
Definition mutex_claim_exchange (s : state) (t : Z) : state :=
  goto (set_locked s MUTEX_LOCKED_WAITERS) t (if locked (mutex s) =? MUTEX_UNLOCKED then Claimed else Push).
(** No waiter: the word says so; either way the condition is met and the
    waitable's lock released. *)
Definition mutex_claim_head (s : state) (t : Z) : state :=
  match waiters (mutex s) with
  | [] => goto s t ClaimStore
  | _ => goto (set_lock s None) t Held
  end.
Definition mutex_claim_store (s : state) (t : Z) : state :=
  goto (set_lock (set_locked s MUTEX_LOCKED) None) t Held.

(** ** mutex_lock *)
Definition mutex_lock_load (s : state) (t : Z) : state :=
  goto s t (if locked (mutex s) =? MUTEX_UNLOCKED then LockCas else LockWait).
Definition mutex_lock_cas (s : state) (t : Z) : state :=
  if locked (mutex s) =? MUTEX_UNLOCKED then goto (set_locked s MUTEX_LOCKED) t Held else goto s t LockWait.
Definition mutex_lock_enter (s : state) (t : Z) : state := goto (set_lock s (Some t)) t Claim.
Definition mutex_lock_push (s : state) (t : Z) : state :=
  goto (set_lock (set_waiters s (waiters (mutex s) ++ [t])) None) t Waiting.
Definition mutex_lock_woken (s : state) (t : Z) : state := goto (set_locked s MUTEX_LOCKED_WAITERS) t Held.

(** ** mutex_unlock *)
Definition mutex_unlock_cas (s : state) (t : Z) : state :=
  if locked (mutex s) =? MUTEX_LOCKED then goto (set_locked s MUTEX_UNLOCKED) t Out else goto s t UnlockStore.
Definition mutex_unlock_store (s : state) (t : Z) : state := goto (set_locked s MUTEX_UNLOCKED_WAITERS) t UnlockWake.
(** [sched_wakeup_n_threads(&mutex->waiters, 1)]; [none] is where the caller
    goes when it woke none. *)
Definition mutex_unlock_wake (s : state) (t : Z) (none : pc) : state :=
  match waiters (mutex s) with
  | [] => goto s t none
  | w :: q => goto (goto (set_waiters s q) w Woken) t Out
  end.
Definition mutex_unlock_recheck (s : state) (t : Z) : state :=
  if locked (mutex s) =? MUTEX_UNLOCKED_WAITERS then goto (set_locked s MUTEX_UNLOCKED) t Out
  else if locked (mutex s) =? MUTEX_LOCKED_WAITERS then goto s t UnlockWake2
  else goto s t Failed.

Section Steps.
Context (stale : bool).

Inductive step (s : state) : state -> Prop :=
| m_lock t : pcs s !! t = Some Out -> step s (goto s t LockLoad)
| m_load t : pcs s !! t = Some LockLoad -> step s (mutex_lock_load s t)
| m_cas t : pcs s !! t = Some LockCas -> step s (mutex_lock_cas s t)
| m_enter t : pcs s !! t = Some LockWait -> waiters_lock (mutex s) = None -> step s (mutex_lock_enter s t)
| m_exchange t : pcs s !! t = Some Claim -> step s (mutex_claim_exchange s t)
| m_head t : pcs s !! t = Some Claimed -> step s (mutex_claim_head s t)
| m_store t : pcs s !! t = Some ClaimStore -> step s (mutex_claim_store s t)
| m_push t : pcs s !! t = Some Push -> step s (mutex_lock_push s t)
| m_woken t : pcs s !! t = Some Woken -> step s (mutex_lock_woken s t)
| m_unlock t : pcs s !! t = Some Held -> step s (goto s t UnlockCas)
| m_unlock_cas t : pcs s !! t = Some UnlockCas -> step s (mutex_unlock_cas s t)
| m_unlock_store t : pcs s !! t = Some UnlockStore -> step s (mutex_unlock_store s t)
| m_wake t : pcs s !! t = Some UnlockWake -> waiters_lock (mutex s) = None -> step s (mutex_unlock_wake s t UnlockRecheck)
| m_recheck t : pcs s !! t = Some UnlockRecheck -> step s (mutex_unlock_recheck s t)
| m_wake2 t : pcs s !! t = Some UnlockWake2 -> waiters_lock (mutex s) = None -> step s (mutex_unlock_wake s t Out)
(** The waiter is woken by someone else; [llist_node_try_delete] takes it off. *)
| m_stale t q1 q2 : stale = true -> waiters (mutex s) = q1 ++ t :: q2 -> pcs s !! t = Some Waiting ->
    waiters_lock (mutex s) = None -> step s (goto (set_waiters s (q1 ++ q2)) t Woken).

Definition init (ts : gset Z) : state := State (Mutex MUTEX_UNLOCKED [] None) (gset_to_gmap Out ts).
End Steps.

(** The critical section: from the return of [mutex_lock] to the first access
    of [mutex_unlock]. *)
Definition holds (s : state) (t : Z) : Prop := pcs s !! t = Some Held \/ pcs s !! t = Some UnlockCas.

(** ** The invariant

    One thread at a time owns the mutex: it holds it, is about to after it has
    claimed it or was woken for it, or is on the way to give it to a waiter. *)
Definition owns (p : pc) : bool :=
  match p with
  | Claimed | ClaimStore | Woken | Held | UnlockCas | UnlockStore | UnlockWake | UnlockRecheck | UnlockWake2 => true
  | _ => false
  end.
(** Inside the waitable's lock. *)
Definition inside (p : pc) : bool := match p with Claim | Claimed | ClaimStore | Push => true | _ => false end.

Definition pushing (s : state) : Prop := exists t, pcs s !! t = Some Push.
Definition nobody (s : state) : Prop := waiters (mutex s) = [] /\ ~ pushing s.

(** What the word says, for the one owner at [p]. *)
Definition word_ok (s : state) (p : pc) : Prop :=
  let v := locked (mutex s) in
  match p with
  | Claimed => v = 2 /\ ~ pushing s
  | ClaimStore => v = 2 /\ nobody s
  | Woken => v = 2 \/ v = 3
  | Held | UnlockCas => v = 1 /\ nobody s \/ v = 2
  | UnlockStore => v = 2
  | UnlockWake => v = 3 \/ v = 2 /\ ~ nobody s
  | UnlockRecheck => v = 3 /\ nobody s \/ v = 2 /\ ~ nobody s
  | UnlockWake2 => v = 2 /\ ~ nobody s
  | _ => True
  end.

Record inv (s : state) : Prop := {
  m_free : locked (mutex s) = 0 -> nobody s /\ forall t p, pcs s !! t = Some p -> owns p = false;
  m_owned : locked (mutex s) <> 0 -> exists t p, pcs s !! t = Some p /\ owns p = true /\ word_ok s p /\
    forall u r, pcs s !! u = Some r -> owns r = true -> u = t;
  m_lockholder : forall t p, pcs s !! t = Some p -> inside p = true <-> waiters_lock (mutex s) = Some t;
  m_waiting : forall t, t ∈ waiters (mutex s) <-> pcs s !! t = Some Waiting;
  m_nodup : NoDup (waiters (mutex s));
  m_fine : forall t, pcs s !! t <> Some Failed;
}.

(** ** Preservation *)
Lemma insert_cases (m : gmap Z pc) t p u r : <[t := p]> m !! u = Some r -> u = t /\ r = p \/ u <> t /\ m !! u = Some r.
Proof. rewrite lookup_insert_Some. naive_solver. Qed.

(** The owner, if the word is not 0. *)
Lemma owner_of s t p : inv s -> pcs s !! t = Some p -> owns p = true ->
  locked (mutex s) <> 0 /\ word_ok s p /\ forall u r, pcs s !! u = Some r -> owns r = true -> u = t.
Proof.
  intros I Ht Hp. destruct (decide (locked (mutex s) = 0)) as [E|E].
  - destruct (m_free _ I E) as [_ H]. rewrite (H _ _ Ht) in Hp. done.
  - split; [done|]. destruct (m_owned _ I E) as (u & r & Hu & Hr & Hw & Hun). assert (t = u) as -> by eauto.
    rewrite Ht in Hu. injection Hu as ->. done.
Qed.

Lemma no_push s : inv s -> waiters_lock (mutex s) = None -> ~ pushing s.
Proof. intros I E [t Ht]. assert (inside Push = true) as H by done. apply (m_lockholder _ I _ _ Ht) in H. congruence. Qed.

Lemma pushing_goto (m : gmap Z pc) t p p' :
  m !! t = Some p -> p <> Push -> p' <> Push -> (exists u, <[t := p']> m !! u = Some Push) <-> exists u, m !! u = Some Push.
Proof.
  intros Ht H1 H2. split; intros [u Hu]; exists u.
  - apply insert_cases in Hu as [[_ ?]|[_ ?]]; [congruence|done].
  - rewrite lookup_insert_ne; [done|]. intros ->. congruence.
Qed.

(** A thread that neither owns the mutex nor is about to changes its place. *)
Lemma inv_quiet s t p p' :
  inv s -> pcs s !! t = Some p -> owns p = false -> owns p' = false -> inside p = inside p' ->
  p <> Push -> p' <> Push -> p <> Waiting -> p' <> Waiting -> p' <> Failed -> inv (goto s t p').
Proof.
  intros I Ht Hp Hp' Hi P1 P2 P3 P4 P5. pose proof (pushing_goto (pcs s) t p p' Ht P1 P2) as HP.
  change (pushing (goto s t p') <-> pushing s) in HP.
  assert (nobody (goto s t p') <-> nobody s) as HN by (unfold nobody; cbn; tauto).
  assert (forall q, word_ok (goto s t p') q <-> word_ok s q) as HW.
  { intros q. destruct q; cbn [word_ok goto mutex]; tauto. }
  destruct I as [F O K W N A]. split; cbn [mutex goto pcs].
  - intros E. rewrite HN. destruct (F E) as [F1 F2]. split; [done|]. intros u r [[-> ->]|[_ ?]]%insert_cases; eauto.
  - intros E. destruct (O E) as (u & r & Hu & Hr & Hw & Hun). exists u, r.
    split; [rewrite lookup_insert_ne; [done|congruence]|]. split; [done|]. split; [by apply HW|].
    intros u' r' [[-> ->]|[_ ?]]%insert_cases ?; [congruence|eauto].
  - intros u r [[-> ->]|[_ ?]]%insert_cases; [rewrite <- Hi; by apply K|by apply K].
  - intros u. rewrite W. split; intros Hu; [rewrite lookup_insert_ne; [done|congruence]|].
    apply insert_cases in Hu as [[_ ?]|[_ ?]]; congruence.
  - done.
  - intros u [[_ ?]|[_ ?]]%insert_cases; [congruence|by eapply A].
Qed.

(** The owner goes on from [p] to [p'], with the word and the waiters it leaves. *)
Lemma inv_owner s s' t p p' :
  inv s -> pcs s !! t = Some p -> owns p = true -> owns p' = true -> pcs s' = <[t := p']> (pcs s) ->
  waiters (mutex s') = waiters (mutex s) -> locked (mutex s') <> 0 -> word_ok s' p' ->
  (waiters_lock (mutex s') = waiters_lock (mutex s) /\ inside p = inside p' \/
   waiters_lock (mutex s') = None /\ inside p = true /\ inside p' = false) -> inv s'.
Proof.
  intros I Ht Hp Hp' Ep Ew El Hw Hl. destruct (owner_of _ _ _ I Ht Hp) as (E0 & _ & Hun).
  destruct I as [F O K W N A]. split; rewrite ?Ep, ?Ew.
  - done.
  - intros _. exists t, p'. rewrite lookup_insert_eq. split; [done|]. split; [done|]. split; [done|].
    intros u r [[-> _]|[_ ?]]%insert_cases; [done|eauto].
  - intros u r Hu. destruct Hl as [[-> Hi]|(-> & Hi & Hi')].
    + apply insert_cases in Hu as [[-> ->]|[_ ?]]; [rewrite <- Hi; by apply K|by apply K].
    + pose proof (K t p Ht) as Kt. rewrite Hi in Kt. apply insert_cases in Hu as [[-> ->]|[Hne Hu]].
      * rewrite Hi'. split; done.
      * rewrite (K u r Hu). split; [|done]. intros Hl. destruct Hne. destruct Kt as [Kt _]. rewrite Kt in Hl; congruence.
  - intros u. rewrite W. split; intros Hu; [rewrite lookup_insert_ne; [done|intros ->; rewrite Ht in Hu; injection Hu as ->; done]|].
    apply insert_cases in Hu as [[_ ?]|[_ ?]]; [subst p'; done|done].
  - done.
  - intros u [[_ ?]|[_ ?]]%insert_cases; [subst p'; done|by eapply A].
Qed.

(** The mutex is free, and [t] takes it. *)
Lemma inv_acquire s s' t p p' :
  inv s -> locked (mutex s) = 0 -> pcs s !! t = Some p -> owns p' = true -> inside p = inside p' -> p <> Waiting ->
  pcs s' = <[t := p']> (pcs s) -> waiters (mutex s') = waiters (mutex s) -> waiters_lock (mutex s') = waiters_lock (mutex s) ->
  locked (mutex s') <> 0 -> word_ok s' p' -> inv s'.
Proof.
  intros I E0 Ht Hp' Hi Hnw Ep Ew El Hl Hw. destruct I as [F O K W N A]. destruct (F E0) as [_ Hno]. split; rewrite ?Ep, ?Ew, ?El.
  - done.
  - intros _. exists t, p'. rewrite lookup_insert_eq. split; [done|]. split; [done|]. split; [done|].
    intros u r [[-> _]|[_ Hu]]%insert_cases Hr; [done|]. rewrite (Hno u r Hu) in Hr. done.
  - intros u r [[-> ->]|[_ ?]]%insert_cases; [rewrite <- Hi; by apply K|by apply K].
  - intros u. rewrite W. split; intros Hu; [rewrite lookup_insert_ne; [done|congruence]|].
    apply insert_cases in Hu as [[_ ?]|[_ ?]]; [subst p'; done|done].
  - done.
  - intros u [[_ ?]|[_ ?]]%insert_cases; [subst p'; done|by eapply A].
Qed.

(** The owner gives the mutex up. *)
Lemma inv_release s t p :
  inv s -> pcs s !! t = Some p -> owns p = true -> inside p = false -> nobody s -> inv (goto (set_locked s MUTEX_UNLOCKED) t Out).
Proof.
  intros I Ht Hp Hi Hn. destruct (owner_of _ _ _ I Ht Hp) as (_ & _ & Hun). destruct I as [F O K W N A].
  split; cbn [goto set_locked mutex pcs locked waiters waiters_lock].
  - intros _. split.
    + split; [apply Hn|]. intros [u Hu]. cbn in Hu. apply insert_cases in Hu as [[_ ?]|[_ ?]]; [done|]. apply Hn. by exists u.
    + intros u r [[-> ->]|[Hne Hu]]%insert_cases; [done|]. destruct (owns r) eqn:E; [|done]. destruct Hne. eauto.
  - done.
  - intros u r [[-> ->]|[_ ?]]%insert_cases; [|by apply K]. rewrite <- (K t p Ht), Hi. done.
  - intros u. rewrite W. split; intros Hu; [rewrite lookup_insert_ne; [done|intros ->; rewrite Ht in Hu; injection Hu as ->; done]|].
    apply insert_cases in Hu as [[_ ?]|[_ ?]]; done.
  - done.
  - intros u [[_ ?]|[_ ?]]%insert_cases; [done|by eapply A].
Qed.

(** The owner hands the mutex to the first waiter. *)
Lemma inv_handover s t p w q none :
  inv s -> pcs s !! t = Some p -> owns p = true -> inside p = false -> waiters (mutex s) = w :: q ->
  locked (mutex s) = 2 \/ locked (mutex s) = 3 -> inv (mutex_unlock_wake s t none).
Proof.
  intros I Ht Hp Hi Eq Hv. destruct (owner_of _ _ _ I Ht Hp) as (E0 & _ & Hun). destruct I as [F O K W N A].
  unfold mutex_unlock_wake. rewrite Eq. assert (pcs s !! w = Some Waiting) as Hw by (apply W; rewrite Eq; by left).
  assert (w <> t) as Hwt by (intros ->; rewrite Ht in Hw; injection Hw as ->; done).
  rewrite Eq in N. apply NoDup_cons in N as [Hwq N].
  split; cbn [goto set_waiters mutex pcs locked waiters waiters_lock].
  - lia.
  - intros _. exists w, Woken. rewrite lookup_insert_ne, lookup_insert_eq by done. split; [done|]. split; [done|].
    split; [cbn; lia|]. intros u r [[-> ->]|[Hut [[-> ->]|[_ Hu]]%insert_cases]]%insert_cases Hr; [done|done|]. destruct Hut. eauto.
  - intros u r [[-> ->]|[_ [[-> ->]|[_ Hu]]%insert_cases]]%insert_cases; [rewrite <- (K t p Ht), Hi; done|rewrite <- (K w _ Hw); done|by apply K].
  - intros u. split.
    + intros Hu. assert (pcs s !! u = Some Waiting) as Hu' by (apply W; rewrite Eq; by right).
      rewrite !lookup_insert_ne; [done|intros ->; done|intros ->; rewrite Ht in Hu'; injection Hu' as ->; done].
    + intros [[_ ?]|[_ [[_ ?]|[Hne Hu]]%insert_cases]]%insert_cases; [done|done|]. apply W in Hu. rewrite Eq in Hu. set_solver.
  - done.
  - intros u [[_ ?]|[_ [[_ ?]|[_ ?]]%insert_cases]]%insert_cases; [done|done|by eapply A].
Qed.

(** A thread enters the waitable's lock. *)
Lemma inv_enter s t : inv s -> pcs s !! t = Some LockWait -> waiters_lock (mutex s) = None -> inv (mutex_lock_enter s t).
Proof.
  intros I Ht El. pose proof (no_push s I El) as Hnp.
  assert (~ pushing (mutex_lock_enter s t)) as Hnp'.
  { intros [u [[_ ?]|[_ ?]]%insert_cases]; [done|]. apply Hnp. by exists u. }
  assert (nobody (mutex_lock_enter s t) <-> nobody s) as HN by (unfold nobody; cbn; tauto).
  assert (forall q, word_ok s q -> word_ok (mutex_lock_enter s t) q) as HW by (intros []; cbn [word_ok mutex_lock_enter goto set_lock mutex locked]; tauto).
  destruct I as [F O K W N A]. split; cbn [mutex_lock_enter goto set_lock mutex pcs locked waiters waiters_lock].
  - intros E. rewrite HN. destruct (F E) as [F1 F2]. split; [done|]. intros u r [[-> ->]|[_ ?]]%insert_cases; eauto.
  - intros E. destruct (O E) as (u & r & Hu & Hr & Hw & Hun). exists u, r.
    split; [rewrite lookup_insert_ne; [done|intros ->; rewrite Ht in Hu; injection Hu as <-; done]|]. split; [done|]. split; [by apply HW|].
    intros u' r' [[-> ->]|[_ ?]]%insert_cases ?; [done|eauto].
  - intros u r [[-> ->]|[Hne Hu]]%insert_cases; [done|]. rewrite (K u r Hu), El. split; [done|]. intros [= ->]. done.
  - intros u. rewrite W. split; intros Hu; [rewrite lookup_insert_ne; [done|congruence]|].
    apply insert_cases in Hu as [[_ ?]|[_ ?]]; done.
  - done.
  - intros u [[_ ?]|[_ ?]]%insert_cases; [congruence|by eapply A].
Qed.

(** The exchange finds the mutex taken: the thread is about to wait, and the
    word says that there are waiters. *)
Lemma inv_contend s t :
  inv s -> pcs s !! t = Some Claim -> locked (mutex s) <> 0 -> inv (goto (set_locked s MUTEX_LOCKED_WAITERS) t Push).
Proof.
  intros I Ht E0. assert (waiters_lock (mutex s) = Some t) as El by (by apply (m_lockholder _ I _ _ Ht)).
  set (s' := goto (set_locked s MUTEX_LOCKED_WAITERS) t Push).
  assert (pushing s') as HP by (exists t; apply lookup_insert_eq).
  assert (~ nobody s') as HN by (intros [_ H]; done).
  destruct I as [F O K W N A]. destruct (O E0) as (u & r & Hu & Hr & Hw & Hun). split; cbn [s' goto set_locked mutex pcs locked waiters waiters_lock].
  - done.
  - intros _. assert (u <> t) as Hne by (intros ->; rewrite Ht in Hu; injection Hu as <-; done).
    exists u, r. split; [rewrite lookup_insert_ne; done|]. split; [done|]. split.
    + pose proof (K u r Hu) as Kr. rewrite El in Kr.
      destruct r; cbn [owns inside] in *; try discriminate; cbn [word_ok s' goto set_locked mutex locked] in *; unfold MUTEX_LOCKED_WAITERS; auto;
        destruct Kr as [Kr _]; specialize (Kr eq_refl); congruence.
    + intros u' r' [[-> ->]|[_ ?]]%insert_cases ?; [done|eauto].
  - intros u' r' [[-> ->]|[_ ?]]%insert_cases; [rewrite <- (K t Claim Ht); done|by apply K].
  - intros u'. rewrite W. split; intros Hu'; [rewrite lookup_insert_ne; [done|congruence]|].
    apply insert_cases in Hu' as [[_ ?]|[_ ?]]; done.
  - done.
  - intros u' [[_ ?]|[_ ?]]%insert_cases; [done|by eapply A].
Qed.

Lemma inv_push s t : inv s -> pcs s !! t = Some Push -> inv (mutex_lock_push s t).
Proof.
  intros I Ht. assert (waiters_lock (mutex s) = Some t) as El by (by apply (m_lockholder _ I _ _ Ht)).
  set (s' := mutex_lock_push s t). assert (waiters (mutex s') <> []) as Hne by (cbn; by destruct (waiters (mutex s))).
  assert (~ nobody s') as HN by (intros [H _]; done). assert (~ nobody s) as HN0 by (intros [_ H]; apply H; by exists t).
  destruct I as [F O K W N A]. assert (t ∉ waiters (mutex s)) as Htw by (rewrite W; congruence).
  split; cbn [s' mutex_lock_push goto set_lock set_waiters mutex pcs locked waiters waiters_lock].
  - intros E. destruct (F E) as [F1 _]. done.
  - intros E. destruct (O E) as (u & r & Hu & Hr & Hw & Hun). assert (u <> t) as Hut by (intros ->; rewrite Ht in Hu; injection Hu as <-; done).
    exists u, r. split; [rewrite lookup_insert_ne; done|]. split; [done|]. split.
    + pose proof (K u r Hu) as Kr. rewrite El in Kr.
      destruct r; cbn [owns inside] in *; try discriminate; cbn [word_ok s' mutex_lock_push goto set_lock set_waiters mutex locked] in *; try tauto;
        destruct Kr as [Kr _]; specialize (Kr eq_refl); congruence.
    + intros u' r' [[-> ->]|[_ ?]]%insert_cases ?; [done|eauto].
  - intros u r [[-> ->]|[Hut Hu]]%insert_cases; [done|]. rewrite (K u r Hu), El. split; [congruence|done].
  - intros u. rewrite elem_of_app, list_elem_of_singleton, W. split.
    + intros [Hu| ->]; [rewrite lookup_insert_ne; [done|congruence]|apply lookup_insert_eq].
    + intros [[-> _]|[_ ?]]%insert_cases; auto.
  - apply NoDup_app. split; [done|]. split; [intros x Hx ->%list_elem_of_singleton; done|apply NoDup_singleton].
  - intros u [[_ ?]|[_ ?]]%insert_cases; [done|by eapply A].
Qed.

Lemma mutex_step_inv s s' : inv s -> step false s s' -> inv s'.
Proof.
  intros I Hs. destruct Hs as [t Ht|t Ht|t Ht|t Ht El|t Ht|t Ht|t Ht|t Ht|t Ht|t Ht|t Ht|t Ht|t Ht El|t Ht|t Ht El|t q1 q2 ? _ _ _].
  - by apply (inv_quiet s t Out).
  - unfold mutex_lock_load. by destruct (_ =? _); apply (inv_quiet s t LockLoad).
  - unfold mutex_lock_cas. destruct (Z.eqb_spec (locked (mutex s)) MUTEX_UNLOCKED) as [E|E]; [|by apply (inv_quiet s t LockCas)].
    eapply (inv_acquire s _ t LockCas Held); try done. left. split; [done|]. destruct (m_free _ I E) as [[H1 H2] _].
    split; [done|]. intros [u [[_ ?]|[_ ?]]%insert_cases]; [done|]. apply H2. by exists u.
  - by apply inv_enter.
  - unfold mutex_claim_exchange. destruct (Z.eqb_spec (locked (mutex s)) MUTEX_UNLOCKED) as [E|E]; [|by apply inv_contend].
    eapply (inv_acquire s _ t Claim Claimed); try done. split; [done|]. destruct (m_free _ I E) as [[_ H2] _].
    intros [u [[_ ?]|[_ ?]]%insert_cases]; [done|]. apply H2. by exists u.
  - destruct (owner_of _ _ _ I Ht eq_refl) as (E0 & [Hw Hp] & _). unfold mutex_claim_head. destruct (waiters (mutex s)) eqn:Eq.
    + eapply (inv_owner s _ t Claimed ClaimStore); try done; [|by left]. split; [done|]. split; [done|].
      intros [u [[_ ?]|[_ ?]]%insert_cases]; [done|]. apply Hp. by exists u.
    + eapply (inv_owner s _ t Claimed Held); try done; [by right|by right].
  - destruct (owner_of _ _ _ I Ht eq_refl) as (E0 & [Hw [Hn Hp]] & _). eapply (inv_owner s _ t ClaimStore Held); try done; [|by right].
    left. split; [done|]. split; [done|]. intros [u [[_ ?]|[_ ?]]%insert_cases]; [done|]. apply Hp. by exists u.
  - by apply inv_push.
  - eapply (inv_owner s _ t Woken Held); try done; [by right|by left].
  - destruct (owner_of _ _ _ I Ht eq_refl) as (E0 & Hw & _). eapply (inv_owner s _ t Held UnlockCas); try done; [|by left].
    destruct Hw as [[H1 [H2 H3]]|H1]; [left|by right]. split; [done|]. split; [done|].
    intros [u [[_ ?]|[_ ?]]%insert_cases]; [done|]. apply H3. by exists u.
  - destruct (owner_of _ _ _ I Ht eq_refl) as (E0 & Hw & _). unfold mutex_unlock_cas.
    destruct (Z.eqb_spec (locked (mutex s)) MUTEX_LOCKED) as [E|E].
    + eapply inv_release; [done|exact Ht|done|done|]. destruct Hw as [[_ ?]|Hw]; [done|]. rewrite Hw in E. done.
    + eapply (inv_owner s _ t UnlockCas UnlockStore); try done; [|by left]. by destruct Hw as [[? _]|Hw].
  - eapply (inv_owner s _ t UnlockStore UnlockWake); try done; [by left|by left].
  - destruct (owner_of _ _ _ I Ht eq_refl) as (E0 & Hw & _). pose proof (no_push s I El) as Hnp. destruct (waiters (mutex s)) as [|w q] eqn:Eq.
    + unfold mutex_unlock_wake. rewrite Eq. destruct Hw as [Hw|[_ Hw]]; [|by destruct Hw].
      eapply (inv_owner s _ t UnlockWake UnlockRecheck); try done; [|by left]. left. split; [done|]. split; [done|].
      intros [u [[_ ?]|[_ ?]]%insert_cases]; [done|]. apply Hnp. by exists u.
    + eapply inv_handover; try done. destruct Hw as [?|[? _]]; auto.
  - destruct (owner_of _ _ _ I Ht eq_refl) as (E0 & Hw & _). unfold mutex_unlock_recheck, MUTEX_UNLOCKED_WAITERS, MUTEX_LOCKED_WAITERS.
    destruct Hw as [[Ev Hn]|[Ev Hn]]; rewrite Ev; cbn [Z.eqb Pos.eqb].
    + by eapply inv_release.
    + eapply (inv_owner s _ t UnlockRecheck UnlockWake2); try done; [|by left]. split; [done|]. intros [H1 H2]. apply Hn. split; [done|].
      intros [u Hu]. apply H2. exists u. cbn. rewrite lookup_insert_ne; [done|congruence].
  - destruct (owner_of _ _ _ I Ht eq_refl) as (E0 & [Hw Hn] & _). pose proof (no_push s I El) as Hnp.
    destruct (waiters (mutex s)) as [|w q] eqn:Eq; [by destruct Hn|]. eapply inv_handover; try done. by left.
  - done.
Qed.

Lemma mutex_init_inv ts : inv (init ts).
Proof.
  assert (forall t p, pcs (init ts) !! t = Some p -> p = Out) as H by (intros t p [_ ->]%lookup_gset_to_gmap_Some; done).
  split; cbn [init mutex locked waiters waiters_lock].
  - intros _. split; [split; [done|]; intros [t Ht]; apply H in Ht; done|]. intros t p ->%H. done.
  - done.
  - intros t p ->%H. done.
  - intros t. split; [set_solver|]. intros Ht%H. done.
  - constructor.
  - intros t Ht%H. done.
Qed.

Lemma mutex_run_inv ts s : rtc (step false) (init ts) s -> inv s.
Proof.
  intros Hr. pose proof (mutex_init_inv ts) as I. revert I. induction Hr as [|a b c Hs _ IH]; [done|]. intros I. apply IH. by eapply mutex_step_inv.
Qed.

(** C19: without stale wakeups, at most one thread is in the critical section; the
    assertion of mutex_unlock never fails; and a thread that waits is never
    forgotten: while the mutex is free nobody waits for it, and the second
    wakeup of mutex_unlock finds a waiter. *)
Theorem mutex_exclusive ts s :
  rtc (step false) (init ts) s ->
  (forall t u, holds s t -> holds s u -> t = u) /\
  (forall t, pcs s !! t <> Some Failed) /\
  (locked (mutex s) = MUTEX_UNLOCKED -> waiters (mutex s) = []) /\
  (forall t, pcs s !! t = Some UnlockWake2 -> waiters_lock (mutex s) = None -> waiters (mutex s) <> []).
Proof.
  intros Hr. pose proof (mutex_run_inv ts s Hr) as I. split; [|split; [apply I|split]].
  - intros t u Ht Hu. assert (exists p, pcs s !! t = Some p /\ owns p = true) as (p & Hp & Op) by (destruct Ht; eauto).
    destruct (owner_of _ _ _ I Hp Op) as (_ & _ & Hun). symmetry. destruct Hu; eauto.
  - intros E. by apply (m_free _ I E).
  - intros t Ht El. destruct (owner_of _ _ _ I Ht eq_refl) as (_ & [_ Hn] & _). intros E. apply Hn. split; [done|]. by apply no_push.
Qed.

(** ** Runs of two threads *)
Module MutexDemo.
(** One step of thread [t], the constructor being [c]. *)
Ltac go c t := eapply rtc_l; [apply (c _ _ t); reflexivity|].

(** Thread 1 locks, thread 2 has to wait, thread 1 unlocks. *)
Lemma handover : exists s, rtc (step false) (init {[1; 2]}) s /\ pcs s !! 2 = Some Held /\ pcs s !! 1 = Some Out.
Proof.
  eexists. split.
  - go m_lock 1. go m_load 1. go m_cas 1. go m_lock 2. go m_load 2. go m_enter 2. go m_exchange 2. go m_push 2.
    go m_unlock 1. go m_unlock_cas 1. go m_unlock_store 1. go m_wake 1. go m_woken 2. apply rtc_refl.
  - split; reflexivity.
Qed.
End MutexDemo.

(** A stale wakeup is enough for two threads in the critical section: a waiter
    that returns from its wait takes the mutex for its own. *)
Lemma mutex_stale_wakeup : exists s, rtc (step true) (init {[1; 2]}) s /\ holds s 1 /\ holds s 2.
Proof.
  eexists. split.
  - MutexDemo.go m_lock 1. MutexDemo.go m_load 1. MutexDemo.go m_cas 1. MutexDemo.go m_lock 2. MutexDemo.go m_load 2.
    MutexDemo.go m_enter 2. MutexDemo.go m_exchange 2. MutexDemo.go m_push 2.
    eapply rtc_l; [apply (m_stale _ _ 2 [] []); reflexivity|]. MutexDemo.go m_woken 2. apply rtc_refl.
  - split; left; reflexivity.
Qed.

Lemma mutex_exclusive_witness : exists s, rtc (step false) (init {[1; 2]}) s /\ holds s 2 /\ forall t, holds s t -> t = 2.
Proof.
  destruct MutexDemo.handover as (s & Hr & H2 & _). exists s. split; [done|]. split; [by left|].
  intros t Ht. apply (mutex_exclusive {[1; 2]} s Hr); [done|by left].
Defined.
