(* ===== verification/Futex.v ===== *)
(** * syscalls/futex.c: waiting on a word of user memory

    Threads run the two system calls.  A section under [futex_tree_lock] or
    under the lock of an entry's waitable is a step; the steps of all threads,
    and the user's stores to the words waited on, interleave.  [ftree] is what
    the tree of entries represents (key to entry), an entry that is not in
    [fentries] is memory that has been given back: touching it is a fault. *)

From S2P Require Import Prelude PagingArch Paging.
From stdpp Require Import relations.
#[local] Open Scope Z_scope.

Record sysret_t := Sysret { retval : Z; error : Z }.
Definition SYSRET_OKAY : sysret_t := Sysret 0 0.
Definition SYSRET_ENOSYS : sysret_t := Sysret 0 (u64 (-1)).
Definition SYSRET_ENOMEM : sysret_t := Sysret 0 (u64 (-2)).
Definition SYSRET_EINVAL : sysret_t := Sysret 0 (u64 (-3)).
Definition SYSRET_EAGAIN : sysret_t := Sysret 0 (u64 (-4)).
Definition SYSRET_ETIMEDOUT : sysret_t := Sysret 0 (u64 (-5)).

Inductive wait_status := WAIT_STATUS_WOKEN | WAIT_STATUS_TIMED_OUT | WAIT_STATUS_CONDITION_MET.

Definition futex_status (s : wait_status) : sysret_t :=
  match s with
  | WAIT_STATUS_WOKEN => SYSRET_OKAY
  | WAIT_STATUS_TIMED_OUT => SYSRET_ETIMEDOUT
  | WAIT_STATUS_CONDITION_MET => SYSRET_EAGAIN
  end.

(** The checks both calls start with, and the key: the physical address of the
    word; none for EINVAL. *)
Definition futex_key `{kconfig} `{PagingArch} (mmu_config : Z) (w : table_words) (pagetable uptr : Z) : res (option Z) :=
  if negb (IS_ALIGNED uptr 4) then Ok None else
  prot ← paging_get_prot mmu_config w pagetable uptr;
  if negb (has prot PAGE_U) then Ok None else
  '(paddr, _) ← paging_get_paddr mmu_config w pagetable uptr;
  Ok (Some (u64 (paddr + MISALIGNMENT uptr PAGE_SIZE))).

Record futex_entry := Entry { fkey : Z; refcnt : Z; fwaiters : list Z }.

(** Where a thread is: outside; in [syscall_futex_wait], with an entry counted:
    before the condition, blocked, and before the entry is given back with
    the status of the wait; in [syscall_futex_wake] under the tree's lock, with
    so many threads still to wake; back from a call. *)
Inductive fpc :=
| FOut
| FCheck (e expected : Z)
| FBlocked (e : Z)
| FPut (e : Z) (status : wait_status)
| FWake (e count woken : Z)
| FDone (r : sysret_t)
| FFault.

Record fstate := FState {
  fmem : gmap Z Z;
  ftree : gmap Z Z;
  fentries : gmap Z futex_entry;
  fthreads : gmap Z fpc;
}.

Definition fgoto (s : fstate) (t : Z) (p : fpc) : fstate := FState (fmem s) (ftree s) (fentries s) (<[t := p]> (fthreads s)).
Definition set_entry (s : fstate) (e : Z) (x : futex_entry) : fstate := FState (fmem s) (ftree s) (<[e := x]> (fentries s)) (fthreads s).

(** No thread is in a section under the tree's lock that spans steps. *)
Definition tree_unlocked (s : fstate) : Prop := forall t e c n, fthreads s !! t <> Some (FWake e c n).

(** The first section of [syscall_futex_wait]: the entry of the key, or a new
    one at [fresh], counted. *)
Definition futex_get (s : fstate) (t key expected fresh : Z) : fstate :=
  let '(e, s) := match ftree s !! key with
                 | Some e => (e, s)
                 | None => (fresh, FState (fmem s) (<[key := fresh]> (ftree s)) (<[fresh := Entry key 0 []]> (fentries s)) (fthreads s))
                 end in
  match fentries s !! e with
  | Some x => fgoto (set_entry s e (Entry (fkey x) (u32 (refcnt x + 1)) (fwaiters x))) t (FCheck e expected)
  | None => fgoto s t FFault
  end.

(** [futex_wait_cond] under the waitable's lock, and the queue. *)
Definition futex_check (s : fstate) (t e expected : Z) : fstate :=
  match fentries s !! e with
  | Some x =>
      match fmem s !! fkey x with
      | Some val =>
          if negb (val =? expected) then fgoto s t (FPut e WAIT_STATUS_CONDITION_MET)
          else fgoto (set_entry s e (Entry (fkey x) (refcnt x) (fwaiters x ++ [t]))) t (FBlocked e)
      | None => fgoto s t FFault
      end
  | None => fgoto s t FFault
  end.

(** The wait times out: the token is taken off the waitable. *)
Definition futex_timeout (s : fstate) (t e : Z) : fstate :=
  match fentries s !! e with
  | Some x => fgoto (set_entry s e (Entry (fkey x) (refcnt x) (filter (fun u => u <> t) (fwaiters x)))) t (FPut e WAIT_STATUS_TIMED_OUT)
  | None => fgoto s t FFault
  end.

(** The last section of [syscall_futex_wait]. *)
Definition futex_put (s : fstate) (t e : Z) (status : wait_status) : fstate :=
  match fentries s !! e with
  | Some x =>
      let n := u32 (refcnt x - 1) in
      if n =? 0
      then fgoto (FState (fmem s) (delete (fkey x) (ftree s)) (delete e (fentries s)) (fthreads s)) t (FDone (futex_status status))
      else fgoto (set_entry s e (Entry (fkey x) n (fwaiters x))) t (FDone (futex_status status))
  | None => fgoto s t FFault
  end.

Definition futex_wake_begin (s : fstate) (t key count : Z) : fstate :=
  match ftree s !! key with
  | None => fgoto s t (FDone (Sysret 0 0))
  | Some e => fgoto s t (FWake e count 0)
  end.

(** One turn of [sched_wakeup_n_threads]. *)
Definition futex_wake_turn (s : fstate) (t e count woken : Z) : fstate :=
  if count >? woken then
    match fentries s !! e with
    | Some x =>
        match fwaiters x with
        | [] => fgoto s t (FDone (Sysret woken 0))
        | u :: q => fgoto (fgoto (set_entry s e (Entry (fkey x) (refcnt x) q)) u (FPut e WAIT_STATUS_WOKEN)) t (FWake e count (woken + 1))
        end
    | None => fgoto s t FFault
    end
  else fgoto s t (FDone (Sysret woken 0)).

Inductive fstep (s : fstate) : fstate -> Prop :=
| f_get t key expected fresh : fthreads s !! t = Some FOut -> tree_unlocked s -> is_Some (fmem s !! key) ->
    fentries s !! fresh = None -> fstep s (futex_get s t key expected fresh)
| f_check t e expected : fthreads s !! t = Some (FCheck e expected) -> fstep s (futex_check s t e expected)
| f_timeout t e : fthreads s !! t = Some (FBlocked e) -> fstep s (futex_timeout s t e)
| f_put t e st : fthreads s !! t = Some (FPut e st) -> tree_unlocked s -> fstep s (futex_put s t e st)
| f_wake t key count : fthreads s !! t = Some FOut -> tree_unlocked s -> fstep s (futex_wake_begin s t key count)
| f_turn t e c n : fthreads s !! t = Some (FWake e c n) -> fstep s (futex_wake_turn s t e c n)
| f_return t r : fthreads s !! t = Some (FDone r) -> fstep s (fgoto s t FOut)
(** The user changes a word. *)
| f_store key v : is_Some (fmem s !! key) -> fstep s (FState (<[key := v]> (fmem s)) (ftree s) (fentries s) (fthreads s)).

Definition finit (mem : gmap Z Z) (ts : gset Z) : fstate := FState mem ∅ ∅ (gset_to_gmap FOut ts).

(** ** The invariant: who uses which entry *)
Definition uses (p : fpc) : option Z :=
  match p with
  | FCheck e _ | FBlocked e | FPut e _ => Some e
  | _ => None
  end.
Definition touches (p : fpc) : option Z := match p with FWake e _ _ => Some e | _ => uses p end.

Definition users (m : gmap Z fpc) (e : Z) : Z := Z.of_nat (size (filter (fun '(_, p) => uses p = Some e) m)).
Definition uses1 (p : fpc) (e : Z) : Z := if decide (uses p = Some e) then 1 else 0.

Record finv (s : fstate) : Prop := {
  f_live : forall t p e, fthreads s !! t = Some p -> touches p = Some e -> is_Some (fentries s !! e);
  f_tree : forall k e, ftree s !! k = Some e <-> exists x, fentries s !! e = Some x /\ fkey x = k;
  f_word : forall e x, fentries s !! e = Some x -> is_Some (fmem s !! fkey x);
  f_count : forall e x, fentries s !! e = Some x -> refcnt x = users (fthreads s) e /\ 0 < refcnt x;
  f_queue : forall e x t, fentries s !! e = Some x -> t ∈ fwaiters x <-> fthreads s !! t = Some (FBlocked e);
  f_nodup : forall e x, fentries s !! e = Some x -> NoDup (fwaiters x);
  f_fine : forall t, fthreads s !! t <> Some FFault;
}.

(** ** Counting *)
Lemma users_insert m t p p' e : m !! t = Some p -> users (<[t := p']> m) e = users m e - uses1 p e + uses1 p' e.
Proof.
  intros Ht. unfold users, uses1.
  assert (size (filter (fun '(_, q) => uses q = Some e) m) =
    size (filter (fun '(_, q) => uses q = Some e) (delete t m)) + if decide (uses p = Some e) then 1 else 0)%nat as E.
  { rewrite <- (insert_delete_id m t p Ht) at 1. destruct (decide _) as [D|D].
    - rewrite map_filter_insert_True by done. rewrite map_size_insert_None; [lia|]. apply map_lookup_filter_None_2. left. apply lookup_delete_eq.
    - rewrite map_filter_insert_False by done. rewrite delete_delete_eq. lia. }
  rewrite E. clear E. destruct (decide (uses p = Some e)), (decide (uses p' = Some e)) as [D|D].
  1, 3: rewrite <- insert_delete_eq, map_filter_insert_True by done; rewrite map_size_insert_None;
    [lia|apply map_lookup_filter_None_2; left; apply lookup_delete_eq].
  all: rewrite map_filter_insert_False by done; lia.
Qed.

Lemma users_bound m e : 0 <= users m e <= Z.of_nat (size m).
Proof. unfold users. split; [lia|]. apply inj_le, map_subseteq_size, map_filter_subseteq. Qed.

Lemma users_pos m e t p : m !! t = Some p -> uses p = Some e -> 0 < users m e.
Proof.
  intros Ht Hp. unfold users. enough (size (filter (fun '(_, q) => uses q = Some e) m) <> 0%nat) by lia.
  apply map_size_non_empty_iff. intros E. eapply (lookup_empty_Some (M := gmap Z) t p). rewrite <- E. by apply map_lookup_filter_Some.
Qed.

Lemma users_found m e : 0 < users m e -> exists t p, m !! t = Some p /\ uses p = Some e.
Proof.
  unfold users. intros H. destruct (map_choose (filter (fun '(_, q) => uses q = Some e) m)) as (t & p & [? ?]%map_lookup_filter_Some).
  - intros E. rewrite E, map_size_empty in H. lia.
  - eauto.
Qed.

Lemma finsert_cases (m : gmap Z fpc) t p u r : <[t := p]> m !! u = Some r -> u = t /\ r = p \/ u <> t /\ m !! u = Some r.
Proof. rewrite lookup_insert_Some. naive_solver. Qed.

(** ** Preservation *)

(** Thread [t] goes on and at most entry [e] changes. *)
Lemma finv_entry s s' t p p' e :
  finv s -> fthreads s !! t = Some p -> fmem s' = fmem s -> fthreads s' = <[t := p']> (fthreads s) ->
  (forall e', e' <> e -> fentries s' !! e' = fentries s !! e' /\ touches p <> Some e' /\ touches p' <> Some e') ->
  (forall k e, ftree s' !! k = Some e <-> exists x, fentries s' !! e = Some x /\ fkey x = k) ->
  (forall x', fentries s' !! e = Some x' -> is_Some (fmem s !! fkey x') /\ refcnt x' = users (fthreads s') e /\ 0 < refcnt x' /\
     NoDup (fwaiters x') /\ forall u, u ∈ fwaiters x' <-> fthreads s' !! u = Some (FBlocked e)) ->
  (fentries s' !! e = None -> forall u q, fthreads s' !! u = Some q -> touches q <> Some e) ->
  p' <> FFault -> finv s'.
Proof.
  intros [L T M C Q N A] Ht Em Eth Hoth HT Hx Hnone Hf.
  assert (forall q e', touches q <> Some e' -> uses q <> Some e' /\ q <> FBlocked e') as Htu by (intros [] e' H; cbn in *; split; congruence).
  split; rewrite ?Em.
  - intros u q e' Hu Hq. destruct (decide (e' = e)) as [->|Hne].
    + destruct (fentries s' !! e) eqn:E; [done|]. destruct (Hnone eq_refl u q Hu Hq).
    + destruct (Hoth e' Hne) as (-> & H1 & H2). rewrite Eth in Hu. apply finsert_cases in Hu as [[-> ->]|[_ Hu]]; [done|eauto].
  - done.
  - intros e' x He. destruct (decide (e' = e)) as [->|Hne]; [by apply Hx|]. destruct (Hoth e' Hne) as (E & _). rewrite E in He. eauto.
  - intros e' x He. destruct (decide (e' = e)) as [->|Hne]; [by apply Hx in He as (_ & ? & ? & _)|].
    destruct (Hoth e' Hne) as (E & H1 & H2). rewrite E in He. destruct (C _ _ He) as [-> ?]. split; [|done].
    rewrite Eth, (users_insert _ t p) by done. unfold uses1. apply Htu in H1, H2. rewrite !decide_False by tauto. lia.
  - intros e' x u He. destruct (decide (e' = e)) as [->|Hne]; [by apply Hx|].
    destruct (Hoth e' Hne) as (E & H1 & H2). rewrite E in He. rewrite (Q _ _ u He), Eth. apply Htu in H1, H2.
    rewrite lookup_insert_Some. split; [|naive_solver]. intros Hu. right. split; [|done]. intros ->. rewrite Ht in Hu. naive_solver.
  - intros e' x He. destruct (decide (e' = e)) as [->|Hne]; [by apply Hx|]. destruct (Hoth e' Hne) as (E & _). rewrite E in He. eauto.
  - intros u. rewrite Eth. intros [[_ ?]|[_ ?]]%finsert_cases; [done|by eapply A].
Qed.

(** Thread [t] goes on and no entry changes. *)
Lemma finv_quiet s t p p' :
  finv s -> fthreads s !! t = Some p -> uses p' = uses p -> (forall e, p <> FBlocked e /\ p' <> FBlocked e) ->
  (forall e, touches p' = Some e -> is_Some (fentries s !! e)) -> p' <> FFault -> finv (fgoto s t p').
Proof.
  intros [L T M C Q N A] Ht Hu Hb Hl Hf. split; cbn [fgoto fmem ftree fentries fthreads]; try done.
  - intros u q e' [[-> ->]|[_ ?]]%finsert_cases; eauto.
  - intros e x He. destruct (C _ _ He) as [-> ?]. split; [|done]. rewrite (users_insert _ t p) by done. unfold uses1. rewrite Hu. lia.
  - intros e x u He. rewrite (Q _ _ u He), lookup_insert_Some. split; [|naive_solver]. intros Hu'. right. split; [|done].
    intros ->. rewrite Ht in Hu'. injection Hu' as ->. by destruct (Hb e).
  - intros u [[_ ?]|[_ ?]]%finsert_cases; [done|by eapply A].
Qed.

(** The tree, when entry [e] keeps its key. *)
Lemma tree_kept s e x x' :
  finv s -> fentries s !! e = Some x -> fkey x' = fkey x ->
  forall k e', ftree s !! k = Some e' <-> exists y, <[e := x']> (fentries s) !! e' = Some y /\ fkey y = k.
Proof.
  intros I He Hk k e'. rewrite (f_tree _ I). split; intros (y & Hy & Ek); destruct (decide (e' = e)) as [->|Hne].
  - exists x'. rewrite lookup_insert_eq. split; [done|]. congruence.
  - exists y. rewrite lookup_insert_ne by done. done.
  - rewrite lookup_insert_eq in Hy. injection Hy as <-. exists x. split; [done|]. congruence.
  - rewrite lookup_insert_ne in Hy by done. eauto.
Qed.

(** Thread [t] goes from [p] to [p'] and entry [e], which stays, becomes [x']. *)
Lemma finv_update s t p p' e x x' :
  finv s -> fthreads s !! t = Some p -> fentries s !! e = Some x -> fkey x' = fkey x ->
  touches p = Some e \/ touches p = None -> touches p' = Some e ->
  refcnt x' = refcnt x - uses1 p e + uses1 p' e -> 0 < refcnt x' -> NoDup (fwaiters x') ->
  (forall u, u ∈ fwaiters x' <-> <[t := p']> (fthreads s) !! u = Some (FBlocked e)) ->
  finv (fgoto (set_entry s e x') t p').
Proof.
  intros I Ht He Hk Hp Hp' Hc Hpos Hn Hq. eapply (finv_entry s _ t p p' e I Ht); cbn [fgoto set_entry fmem ftree fentries fthreads]; try done.
  - intros e' Hne. rewrite lookup_insert_ne by done. split; [done|]. split; [destruct Hp; congruence|congruence].
  - by eapply tree_kept.
  - intros y. rewrite lookup_insert_eq. intros [= <-]. rewrite Hk. split; [by eapply f_word|].
    rewrite (users_insert _ t p) by done. destruct (f_count _ I _ _ He) as [<- _]. done.
  - rewrite lookup_insert_eq. done.
  - intros ->. done.
Qed.

Lemma finv_get s t key expected fresh :
  finv s -> Z.of_nat (size (fthreads s)) < 2 ^ 32 -> fthreads s !! t = Some FOut -> is_Some (fmem s !! key) ->
  fentries s !! fresh = None -> finv (futex_get s t key expected fresh).
Proof.
  intros I Hsz Ht Hm Hfr. unfold futex_get. destruct (ftree s !! key) as [e|] eqn:Ek.
  - apply (f_tree _ I) in Ek as (x & He & Hk). rewrite He. destruct (f_count _ I _ _ He) as [Ec Hpos].
    assert (refcnt x + 1 <= Z.of_nat (size (fthreads s))) as Hb.
    { pose proof (users_bound (<[t := FCheck e expected]> (fthreads s)) e) as Hb. rewrite (users_insert _ t FOut) in Hb by done.
      rewrite map_size_insert_Some in Hb by eauto. unfold uses1 in Hb. cbn in Hb. rewrite decide_False, decide_True in Hb by done. lia. }
    rewrite u32_small by lia. eapply (finv_update s t FOut); try done.
    + by right.
    + cbn [refcnt]. unfold uses1. cbn. rewrite decide_False, decide_True by done. lia.
    + cbn. lia.
    + exact (f_nodup _ I _ _ He).
    + intros u. cbn [fwaiters]. rewrite (f_queue _ I _ _ u He), lookup_insert_Some. split; [|naive_solver]. intros Hu. right. split; [|done]. congruence.
  - cbn [fentries]. rewrite lookup_insert_eq. cbn [fkey refcnt fwaiters].
    assert (forall u q, fthreads s !! u = Some q -> touches q <> Some fresh) as Hno.
    { intros u q Hu Hq. destruct (f_live _ I u q fresh Hu Hq). congruence. }
    eapply (finv_entry s _ t FOut (FCheck fresh expected) fresh I Ht); cbn [fgoto set_entry fmem ftree fentries fthreads]; try done.
    + intros e' Hne. rewrite !lookup_insert_ne by done. cbn. split; [done|]. split; congruence.
    + intros k e. rewrite insert_insert_eq. destruct (decide (e = fresh)) as [->|Hne].
      * rewrite lookup_insert_eq. split.
        -- intros [[-> _]|[_ (x & Hx & _)%(f_tree _ I)]]%lookup_insert_Some; [eauto|congruence].
        -- intros (x & [= <-] & <-). apply lookup_insert_eq.
      * rewrite (lookup_insert_ne (fentries s)) by done. rewrite <- (f_tree _ I), lookup_insert_Some. split; [naive_solver|].
        intros Hk. right. split; [congruence|done].
    + intros x. rewrite lookup_insert_eq. intros [= <-]. cbn [fkey refcnt fwaiters]. split; [done|]. rewrite u32_small by lia.
      rewrite (users_insert _ t FOut) by done. unfold uses1. cbn [uses]. rewrite decide_False, decide_True by done.
      assert (users (fthreads s) fresh = 0) as ->.
      { pose proof (users_bound (fthreads s) fresh). destruct (decide (0 < users (fthreads s) fresh)) as [Hp|]; [|lia].
        destruct (users_found _ _ Hp) as (u & q & Hu & Hq). destruct (Hno u q Hu). destruct q; done. }
      split; [lia|]. split; [lia|]. split; [constructor|]. intros u. split; [set_solver|].
      intros [[_ ?]|[_ Hu]]%finsert_cases; [done|]. by destruct (Hno u _ Hu).
    + rewrite lookup_insert_eq. done.
Qed.

Lemma finv_check s t e expected : finv s -> fthreads s !! t = Some (FCheck e expected) -> finv (futex_check s t e expected).
Proof.
  intros I Ht. unfold futex_check. destruct (f_live _ I t _ e Ht eq_refl) as [x He]. rewrite He.
  destruct (f_word _ I _ _ He) as [v Hv]. rewrite Hv. destruct (f_count _ I _ _ He) as [Ec Hpos]. destruct (negb _).
  - eapply finv_quiet; try done. cbn. intros e' [= <-]. eauto.
  - eapply (finv_update s t); try done; [by left|cbn [refcnt]; unfold uses1; cbn [uses]; lia| |].
    + apply NoDup_app. split; [by eapply f_nodup|]. split; [|apply NoDup_singleton].
      intros u Hu ->%list_elem_of_singleton. apply (f_queue _ I _ _ _ He) in Hu. congruence.
    + intros u. cbn [fwaiters]. rewrite elem_of_app, list_elem_of_singleton, (f_queue _ I _ _ u He), lookup_insert_Some. split; [|naive_solver].
      intros [Hu| ->]; [|by left]. right. split; [congruence|done].
Qed.

Lemma finv_unblock s t e x st q :
  finv s -> fthreads s !! t = Some (FBlocked e) -> fentries s !! e = Some x -> NoDup q -> (forall u, u ∈ q <-> u ∈ fwaiters x /\ u <> t) ->
  finv (fgoto (set_entry s e (Entry (fkey x) (refcnt x) q)) t (FPut e st)).
Proof.
  intros I Ht He Hn Hq. destruct (f_count _ I _ _ He) as [Ec Hpos].
  eapply (finv_update s t); try done; [by left|cbn [refcnt]; unfold uses1; cbn [uses]; lia|].
  intros u. cbn [fwaiters]. rewrite Hq, (f_queue _ I _ _ u He), lookup_insert_Some. naive_solver.
Qed.

Lemma finv_timeout s t e : finv s -> fthreads s !! t = Some (FBlocked e) -> finv (futex_timeout s t e).
Proof.
  intros I Ht. unfold futex_timeout. destruct (f_live _ I t _ e Ht eq_refl) as [x He]. rewrite He.
  apply finv_unblock; [done|done|done|apply NoDup_filter; by eapply f_nodup|]. intros u. rewrite list_elem_of_filter. tauto.
Qed.

Lemma finv_put s t e st :
  finv s -> fthreads s !! t = Some (FPut e st) -> Z.of_nat (size (fthreads s)) < 2 ^ 32 -> tree_unlocked s -> finv (futex_put s t e st).
Proof.
  intros I Ht Hsz Hul. unfold futex_put. destruct (f_live _ I t _ e Ht eq_refl) as [x He]. rewrite He.
  destruct (f_count _ I _ _ He) as [Ec Hpos]. pose proof (users_bound (fthreads s) e) as Hb. rewrite u32_small by lia.
  assert (users (<[t := FDone (futex_status st)]> (fthreads s)) e = refcnt x - 1) as Eu.
  { rewrite (users_insert _ t _ _ _ Ht). unfold uses1. cbn [uses]. rewrite decide_True, decide_False by done. lia. }
  assert (forall e', e' <> e -> touches (FPut e st) <> Some e' /\ touches (FDone (futex_status st)) <> Some e') as Hot by (cbn; split; congruence).
  destruct (Z.eqb_spec (refcnt x - 1) 0) as [E0|E0].
  - eapply (finv_entry s _ t _ _ e I Ht); cbn [fgoto fmem ftree fentries fthreads]; try done.
    + intros e' Hne. rewrite lookup_delete_ne by done. by apply Hot in Hne.
    + intros k e'. rewrite lookup_delete_Some, (f_tree _ I). setoid_rewrite lookup_delete_Some. split.
      * intros (Hk & y & Hy & <-). exists y. split; [split; [|done]|done]. congruence.
      * intros (y & (Hne & Hy) & <-). split; [|eauto]. intros Hk.
        assert (ftree s !! fkey x = Some e) as T1 by (apply (f_tree _ I); eauto).
        assert (ftree s !! fkey x = Some e') as T2 by (apply (f_tree _ I); eauto). congruence.
    + intros y. rewrite lookup_delete_eq. done.
    + intros _ u q Hu Hq. assert (uses q = Some e) as Hus.
      { apply finsert_cases in Hu as [[_ ->]|[_ Hu]]; [done|]. destruct q; try done. by destruct (Hul u _ _ _ Hu). }
      pose proof (users_pos _ _ _ _ Hu Hus). lia.
  - eapply (finv_entry s _ t _ _ e I Ht); cbn [fgoto set_entry fmem ftree fentries fthreads]; try done.
    + intros e' Hne. rewrite lookup_insert_ne by done. by apply Hot in Hne.
    + by eapply tree_kept.
    + intros y. rewrite lookup_insert_eq. intros [= <-]. cbn [fkey refcnt fwaiters]. rewrite Eu. split; [by eapply f_word|].
      split; [done|]. split; [lia|]. split; [by eapply f_nodup|]. intros u. rewrite (f_queue _ I _ _ u He), lookup_insert_Some.
      split; [|naive_solver]. intros Hu. right. split; [congruence|done].
    + rewrite lookup_insert_eq. done.
Qed.

Lemma finv_turn s t e c n : finv s -> fthreads s !! t = Some (FWake e c n) -> finv (futex_wake_turn s t e c n).
Proof.
  intros I Ht. unfold futex_wake_turn. destruct (f_live _ I t _ e Ht eq_refl) as [x He]. rewrite He.
  destruct (c >? n); [|by eapply finv_quiet]. destruct (fwaiters x) as [|u q] eqn:Eq; [by eapply finv_quiet|].
  pose proof (f_nodup _ I _ _ He) as Hn. rewrite Eq in Hn. apply NoDup_cons in Hn as [Huq Hn].
  assert (fthreads s !! u = Some (FBlocked e)) as Hu by (apply (f_queue _ I _ _ u He); rewrite Eq; by left).
  eapply (finv_quiet _ t (FWake e c n)); try done.
  - apply finv_unblock; try done. intros v. rewrite Eq, elem_of_cons. naive_solver.
  - cbn. rewrite lookup_insert_ne; [done|]. intros ->. congruence.
  - cbn. intros e' [= <-]. rewrite lookup_insert_eq. done.
Qed.

Lemma size_goto s s' t p : fthreads s' = fthreads s -> is_Some (fthreads s !! t) -> size (fthreads (fgoto s' t p)) = size (fthreads s).
Proof. intros E H. cbn. rewrite E. by apply map_size_insert_Some. Qed.

Lemma fstep_inv s s' : finv s /\ Z.of_nat (size (fthreads s)) < 2 ^ 32 -> fstep s s' -> finv s' /\ size (fthreads s') = size (fthreads s).
Proof.
  intros [I Hsz] Hs. destruct Hs as [t key ex fr Ht Hul Hm Hfr|t e ex Ht|t e Ht|t e st Ht Hul|t key c Ht Hul|t e c n Ht|t r Ht|key v Hm].
  - split; [by apply finv_get|]. unfold futex_get. destruct (ftree s !! key) as [e|]; cbn [fentries]; case_match; apply size_goto; eauto.
  - split; [by apply finv_check|]. unfold futex_check. repeat case_match; apply size_goto; eauto.
  - split; [by apply finv_timeout|]. unfold futex_timeout. repeat case_match; apply size_goto; eauto.
  - split; [by apply finv_put|]. unfold futex_put. repeat case_match; apply size_goto; eauto.
  - unfold futex_wake_begin. destruct (ftree s !! key) as [e|] eqn:Ek; (split; [eapply finv_quiet; try done|by apply size_goto]).
    cbn. intros e' [= <-]. apply (f_tree _ I) in Ek as (x & ? & _). eauto.
  - pose proof (finv_turn s t e c n I Ht) as I'. split; [done|]. unfold futex_wake_turn in *. destruct (c >? n); [|by apply size_goto].
    destruct (f_live _ I t _ e Ht eq_refl) as [x He]. rewrite He. destruct (fwaiters x) as [|u q] eqn:Eq; [by apply size_goto|].
    assert (fthreads s !! u = Some (FBlocked e)) as Hu by (apply (f_queue _ I _ _ u He); rewrite Eq; by left).
    cbn. rewrite map_size_insert_Some; [by apply map_size_insert_Some|]. apply lookup_insert_is_Some'. auto.
  - split; [|by apply size_goto]. by eapply finv_quiet.
  - split; [|done]. destruct I as [L T M C Q N A]. split; cbn [fmem ftree fentries fthreads]; try done.
    intros e x He. apply lookup_insert_is_Some'. right. eauto.
Qed.

Lemma finit_inv mem ts : finv (finit mem ts).
Proof.
  assert (forall t p, fthreads (finit mem ts) !! t = Some p -> p = FOut) as H by (intros t p [_ ->]%lookup_gset_to_gmap_Some; done).
  split; try (cbn [finit fentries]; intros *; rewrite lookup_empty; done).
  - intros t p e ->%H. done.
  - intros k e. cbn. setoid_rewrite lookup_empty. naive_solver.
  - intros t Ht%H. done.
Qed.

Lemma frun_inv mem ts s : Z.of_nat (size ts) < 2 ^ 32 -> rtc fstep (finit mem ts) s -> finv s.
Proof.
  intros Hts Hr. assert (finv (finit mem ts) /\ Z.of_nat (size (fthreads (finit mem ts))) < 2 ^ 32) as I.
  { split; [apply finit_inv|]. cbn. by rewrite <- size_dom, dom_gset_to_gmap. }
  revert I. induction Hr as [|a b c Hs _ IH]; [by intros []|]. intros I. destruct (fstep_inv _ _ I Hs) as [I' E].
  apply IH. split; [done|]. rewrite E. apply I.
Qed.

(** C20: on every interleaving of waits, timeouts, wakes and stores by the user
    the entries are counted right: no thread touches an entry that has been
    given back; a thread that is blocked is queued once on the one entry a
    wake of its word finds; and an entry lives only while a thread waits on
    its word, so the tree is empty when no call is under way. *)
Theorem futex_entries_safe mem ts s :
  Z.of_nat (size ts) < 2 ^ 32 -> rtc fstep (finit mem ts) s ->
  (forall t, fthreads s !! t <> Some FFault) /\
  (forall t e, fthreads s !! t = Some (FBlocked e) ->
     exists x q1 q2, fentries s !! e = Some x /\ ftree s !! fkey x = Some e /\ fwaiters x = q1 ++ t :: q2 /\ (t ∉ q1) /\ t ∉ q2) /\
  (forall e x, fentries s !! e = Some x -> exists t p, fthreads s !! t = Some p /\ uses p = Some e) /\
  ((forall t p, fthreads s !! t = Some p -> uses p = None) -> ftree s = ∅ /\ fentries s = ∅).
Proof.
  intros Hts Hr. pose proof (frun_inv mem ts s Hts Hr) as I.
  assert (forall e x, fentries s !! e = Some x -> exists t p, fthreads s !! t = Some p /\ uses p = Some e) as Hlive.
  { intros e x He. destruct (f_count _ I _ _ He). apply users_found. lia. }
  split; [apply I|]. split; [|split; [done|]].
  - intros t e Ht. destruct (f_live _ I t _ e Ht eq_refl) as [x He]. exists x.
    assert (t ∈ fwaiters x) as Hin by (by apply (f_queue _ I _ _ t He)). apply list_elem_of_split in Hin as (q1 & q2 & Eq).
    exists q1, q2. split; [done|]. split; [apply (f_tree _ I); eauto|]. split; [done|].
    pose proof (f_nodup _ I _ _ He) as Hn. rewrite Eq in Hn. apply NoDup_app in Hn as (_ & H1 & H2). apply NoDup_cons in H2 as [H2 _].
    split; [|done]. intros H. apply (H1 t H). by left.
  - intros Hout. assert (fentries s = ∅) as Ee.
    { apply map_empty. intros e. destruct (fentries s !! e) as [x|] eqn:He; [|done]. destruct (Hlive e x He) as (t & p & Ht & Hp). specialize (Hout t p Ht). congruence. }
    split; [|done]. apply map_empty. intros k. destruct (ftree s !! k) as [e|] eqn:Ek; [|done].
    apply (f_tree _ I) in Ek as (x & He & _). rewrite Ee, lookup_empty in He. done.
Qed.

(** Thread 1 waits for the word at 4096 to change from 7; thread 2 stores and wakes. *)
Module FutexDemo.
Lemma unlocked (s : fstate) :
  forallb (fun '(_, p) => match p with FWake _ _ _ => false | _ => true end) (map_to_list (fthreads s)) = true -> tree_unlocked s.
Proof. rewrite forallb_forall. intros H t e c n Ht%elem_of_map_to_list%list_elem_of_In%H. done. Qed.

Lemma futex_demo_run : exists s, rtc fstep (finit {[4096 := 7]} {[1; 2]}) s /\ fthreads s !! 1 = Some (FDone SYSRET_OKAY) /\ fthreads s !! 2 = Some (FDone (Sysret 1 0)).
Proof.
  eexists. split.
  - eapply rtc_l; [apply (f_get _ 1 4096 7 512); [reflexivity|by apply unlocked|by eexists|reflexivity]|].
    eapply rtc_l; [apply (f_check _ 1 512 7); reflexivity|].
    eapply rtc_l; [apply (f_store _ 4096 8); by eexists|].
    eapply rtc_l; [apply (f_wake _ 2 4096 1); [reflexivity|by apply unlocked]|].
    eapply rtc_l; [apply (f_turn _ 2 512 1 0); reflexivity|].
    eapply rtc_l; [apply (f_turn _ 2 512 1 1); reflexivity|].
    eapply rtc_l; [apply (f_put _ 1 512 WAIT_STATUS_WOKEN); [reflexivity|by apply unlocked]|]. apply rtc_refl.
  - split; reflexivity.
Qed.
End FutexDemo.

Lemma futex_entries_safe_witness : exists s, rtc fstep (finit {[4096 := 7]} {[1; 2]}) s /\ fthreads s !! 1 = Some (FDone SYSRET_OKAY) /\
  forall t, fthreads s !! t <> Some FFault.
Proof.
  destruct FutexDemo.futex_demo_run as (s & Hr & H1 & _). exists s. split; [done|]. split; [done|].
  apply (futex_entries_safe {[4096 := 7]} {[1; 2]} s); [|done]. reflexivity.
Defined.
